(* ===== verification/_CoqProject ===== *)
-Q . S2P
Prelude.v
LibArith.v
Fid.v
FdPerm.v
Pdclust.v
FdTol.v
FdTile.v
FdFault.v
FdTree.v
FdBuild.v
FdMap.v
RegTree.v
TxCredit.v
RegMap.v
RegArea.v
RegMerge.v
BeAlloc.v
BeAllocInv.v
BeAllocRun.v
BeAllocLife.v
ParityMath.v
ParityRS.v
ParityGF.v
LibList.v
TList.v
SmAst.v
Sm.v
LongLock.v
Vec.v
Bitmap.v
SnsIr.v
SnsIrMem.v
SnsIrRun.v
SnsIrGroup.v
Xcode.v
XcodeObj.v
XcodeEnc.v
XcodeDec.v
XcodeSeq.v
XcodeRT.v
PoolMach.v
PoolMachInv.v
PoolMachRun.v
PoolMachConf.v
PoolMachShared.v
SpareMap.v
SpareFd.v
