(* ===== verification/Prelude.v ===== *)
(** * Motr verification development

    Motr is a distributed object store written in C. This library models parts of
    it as Rocq functions and relations, translated from the files under src/, and
    proves what makes these parts correct.

    ** The program

    A file is cut into parity groups of N data, K parity and S spare units. A layout
    maps the units of a group to devices: the older parity de-clustered layout
    (src/layout/pdclust.c) permutes the columns of tiles; the failure-domains layout
    (src/fd/) spreads the units of a group over the levels of the tree of racks,
    enclosures and controllers of a pool version, so that losing some nodes of a level
    loses few units. The parity units are calculated and lost units recovered by
    src/sns/parity_math.c, either from all units at once or incrementally, by nodes that
    each add up the units they have. A pool machine (src/pool/pool_machine.c) follows the states
    of the devices of a pool version and gives failed devices slots of spare space;
    src/sns/parity_repair.c finds the spare unit that holds a lost unit, and back, from
    the slots and the layout. On each server, transactions capture regions of memory
    (src/be/tx_regmap.c), and those of a group of transactions are merged before they
    are logged; the memory of a segment is handed out by an allocator (src/be/alloc.c)
    whose own data are captured like the rest. Requests are state machines
    (src/sm/sm.c) that wait for long locks (src/fop/fom_long_lock.c); the objects of
    messages are encoded and decoded from descriptions of their types (src/xcode/) over
    buffer vectors (src/lib/vec.c). Lists, bitmaps, identifiers and arithmetic
    (src/lib/, src/fid/) are used by all of them.

    ** Conventions

    - An integer of the code is a [Z]. What can leave the range of its type is wrapped
      with [u32], [u64] or [i32]; [is_u32] and [is_u64] are the ranges.
    - A function that can fail an assertion or leave an array is partial: [None] is the
      end of the program, and the theorems show that it does not come to it. Error codes
      are results, negative as in the code.
    - Arrays are lists with [arr_get] and [arr_set], which are [None] out of bounds.
      [for_up] and [for_down] are the loops with a known number of turns; other loops
      have fuel, and the theorems say how much is enough and that it always is.
    - State is passed explicitly. Pointers are addresses of a store where the code shares
      or links objects: the nodes of the failure-domains tree, list links, the buffers of
      a parity group, the memory of vectors and encoded objects, the chunks of a segment.
      Allocation is an input: which requests succeed and, for decoding and incremental
      recovery, the addresses they return.
    - What the code takes from elsewhere is a parameter with laws: the erasure code
      primitives of ISA-L ([ISAL], [ISALLaws]; ParityGF has an instance) and the
      call-backs of state machines. Interfaces between parts are classes:
      [RegmapOpsLaws] between maps of regions and their users, [TList] and [TListLaws]
      between typed lists and long locks, [UnitMap] and [GroupMap] between layouts and
      spare units.
    - Names are those of the code where there is one name for one definition.

    ** Files

    - Prelude: this file; integers, arrays, loops, the option monad and its tactics.
    - LibArith (src/lib/misc.c, arith.h, hash.c): row and column encoding, gcd, the
      generators, hashing, 128-bit integers, permutations from Lehmer codes, sorting.
    - Fid (src/fid/fid.c, src/ioservice/fid_convert.c, src/dix/fid_convert.c):
      identifiers, their types, and the conversions between objects and components.
    - Pdclust (src/layout/pdclust.c, layout.c): layouts, their life cycle and instances;
      both mappings.
    - FdPerm, FdTol, FdTile, FdFault (src/fd/fd.c): permutation caches; the symmetric
      tree and the check of its tolerance; the fault-tolerant tile; what the check says
      about the tile. FdTree, FdBuild, FdMap (src/fd/fd_tree.c, fd.c): the tree in its
      store with cursors; what building it gives; the two maps over tile and tree.
    - ParityMath, ParityRS, ParityGF (src/sns/parity_math.c): XOR and Reed-Solomon
      codes; the proofs about the latter; a concrete library. SnsIr, SnsIrMem, SnsIrRun,
      SnsIrGroup: incremental recovery; what its steps do to memory; adding one unit or
      the accumulator of another node; setting up, and groups of nodes.
    - PoolMach, PoolMachInv, PoolMachRun, PoolMachConf, PoolMachShared
      (src/pool/pool_machine.c): the operations; invariant and specification of one
      event; sequences, failure vector and queries; configuration and life of a machine;
      drives that several machines of a pool share.
    - SpareMap, SpareFd (src/sns/parity_repair.c): spare units over the interface of
      layouts; the failure-domains maps keep it.
    - TxCredit, RegTree, RegMap, RegArea, RegMerge (src/be/tx_credit.c, tx_regmap.c,
      src/lib/ext.c): credits; the sorted array of regions; maps of disjoint regions;
      captured regions with and without copies; merging of areas.
    - BeAlloc, BeAllocInv, BeAllocRun, BeAllocLife (src/be/alloc.c, fl.c, list.c): the
      allocator of a segment, its free lists and credits; the invariant of a zone and the
      steps on chunks; splitting, merging and picking; allocators from creation to
      destruction. Persistent lists are sequences of addresses, and each operation logs
      the sizes of the regions it captures. A header of a chunk is a record at its
      address, which is lost when memory it occupies is written.
    - LibList, TList (src/lib/list.c, tlist.c): linked lists in a store; typed lists.
    - SmAst, Sm (src/sm/sm.c): the queue of asynchronous traps under interleaving;
      configurations and transitions of state machines.
    - LongLock (src/fop/fom_long_lock.c): requests, grants and unlocks.
    - Vec (src/lib/vec.c): vectors, cursors, copying. Bitmap (src/lib/bitmap.c): bitmaps
      and their on-wire form.
    - Xcode, XcodeObj, XcodeEnc, XcodeDec, XcodeSeq, XcodeRT (src/xcode/xcode.c,
      cursor.c): types, cursors and the walk; the trees objects represent; encoding,
      decoding, sequences; both together.

    ** What is shown

    - Layouts: the two mappings of each layout are inverse to each other, with the
      caches in any state they can get into; the frames that no unit of a
      failure-domains layout uses are recognised. Units of a group are on different
      devices; the fault-tolerant tile is as even as can be on every level; what the
      tolerance check rejects cannot be met at any level, what it accepts is met at
      the first two levels, and may not be at the third; the tree built has the nodes
      of the levels of the pool version. The theorems on mappings exclude the draws on
      which m0_rnd() returns its upper bound, which it should not ([tile_ok],
      [draws_in_range]).
    - Parity: any K lost units of a group are recovered, and differential updates
      agree with recalculation, for both codes, or the calls return -ENOMEM and change
      nothing; initialisation has the outcomes it should for all counts and allocation
      failures. Incremental recovery gives the lost units on whatever nodes and in
      whatever order the alive units are added ([node_reach]).
    - Pool machines refine a specification of device states and spare slots from their
      start to their end, for every sequence of events, as long as no drive of theirs
      is listed as failed when they start; [poolmach_shared_drive] is about the
      machines of which one is. The start needs memory for its allocations, enclosures
      that are not empty, and drives with different identifiers ([conf_ok],
      [drives_foreign], [mem_ok]). Spare units are found for every lost unit without
      going round in circles, different ones for different units, and are mapped back.
    - Regions: capture, uncapture and merge refine operations on partial maps from
      addresses to values with generations, as long as the credit lasts; the merge of
      a group takes each byte from the area with the largest generation.
    - Allocators refine a finite map from addresses to blocks of bytes: in any
      sequence of calls no assertion fails, blocks are disjoint, aligned and keep
      their contents. Allocation fails only when no free chunk is large enough, free
      space does not stay in fragments, and the credits cover what is captured.
      [stats_drift] shows a run after which the statistics are wrong.
    - Lists refine mathematical lists. Traps are run or cancelled once each, and a
      thread that posts, runs or cancels them ends when the others leave it alone.
      State machines stay on their transition diagrams. Long locks refine a fair
      reader-writer lock with bounded waiting. Cursors copy the bytes they should.
      Bitmaps are lists of bits, also in their on-wire form. Encoding and decoding are
      inverse. Conversions of identifiers keep to their types and can be undone.
    - Some theorems show what the code does where that is not what it should do:
      [tolerance_check_level3_unsound], [site_tolerance_out_of_bounds],
      [m0_pdclust_build_overflow], [m0_array_sort_all_but_last],
      [merger_credit_shortage], [poolmach_shared_drive], [sns_ir_init_outcome].

    ** Bounds

    The fuel of a loop bounds its number of turns. It is computed from the data where
    the code bounds the loop by them: the length of an array or a list, the depth of a
    tree, the number of region boundaries ([merge_fuel]), the number of spare slots
    and one more. The theorems then show that the loop ends within it, because what it
    measures decreases with each turn; for spare units, because a chain of slots that
    starts at a data or parity unit never meets the same slot twice. Two loops take
    their fuel as an argument. Chained transitions of a state machine depend on its
    call-backs, and [sm_transitions] gives enough fuel from a rank of the states. The
    walk of an xcode cursor depends on the object, and [xcode_roundtrip] shows that
    from some number of turns on the results are the same, for objects of height 10 at
    most, which the stack of the cursor has room for, and of less than 2^31 encoded
    bytes.

    The width of a pool is below 2^31, as the code keeps it in an int; the nodes of a
    pool machine and its devices are fewer than 2^32 - 1, which marks a free slot;
    frames are those whose group numbers fit 64 bits; m0_sm_conf_init() is for 63
    states and 128 transitions at most, which its arrays can index. Segments consist
    of whole words and of less than 2^64 / 100 bytes, as m0_be_allocator_create()
    multiplies by percentages; the sizes asked for are positive and within the bound
    m0_be_alloc_aligned() asserts. The units of incremental recovery are of less than
    2^32 bytes, in segments of one size, as gfaxpy() requires; bitmaps have less than
    2^31 bits, as m0_bitmap_ffs() returns an int.

    ** Not modelled

    Transports, rpc, the request handler and storage I/O, which are outside of what the
    models can say; the persistent structures of the back end (segments, btree,
    log, engine), the services on top of it (balloc, cob, cas, dix, ioservice,
    mdservice), the resource manager, dtm0 and the copy machines, whose logic is spread
    over message handlers; configuration, HA and management services; the client
    libraries and the kernel client. Of the modelled files: printing and parsing,
    finalisation where it only frees memory, timers and channels of state machines,
    index vectors, layout records, building of layout instances, the volatile part and
    the printed statistics of allocators, the configuration call-backs of pool machines,
    freeing, copying and comparison of xcode objects. The models are sequentially
    consistent, and an operation under a lock is one step, except in SmAst, where every
    access to memory is. *)
From stdpp Require Export base numbers list list_numbers gmap sorting.
From Stdlib Require Export ZArith Lia.

Declare Scope motr_scope.
Delimit Scope motr_scope with motr.
#[global] Open Scope Z_scope.

(** ** Machine integers

    A [uint32_t] or [uint64_t] is a [Z]; every operation of the code that can
    leave the range of its type wraps explicitly. *)

Definition u32 (x : Z) : Z := x mod 2 ^ 32.

Definition u64 (x : Z) : Z := x mod 2 ^ 64.

(** Conversion to [int]. *)
Definition i32 (x : Z) : Z := (x + 2 ^ 31) mod 2 ^ 32 - 2 ^ 31.

#[global] Arguments u32 : simpl never.
#[global] Arguments i32 : simpl never.
#[global] Arguments u64 : simpl never.
#[global] Arguments Z.pow : simpl never.
#[global] Arguments Z.shiftl : simpl never.
#[global] Arguments Z.shiftr : simpl never.
#[global] Arguments Z.land : simpl never.
#[global] Arguments Z.lor : simpl never.
#[global] Arguments Z.mul : simpl never.
#[global] Arguments Z.add : simpl never.
#[global] Arguments Z.sub : simpl never.
#[global] Arguments Z.div : simpl never.
#[global] Arguments Z.modulo : simpl never.

Definition UINT64_MAX : Z := 2 ^ 64 - 1.

Definition is_u32 (x : Z) : Prop := 0 <= x < 2 ^ 32.

Definition is_u64 (x : Z) : Prop := 0 <= x < 2 ^ 64.

(** Values of <errno.h> the modelled code returns, negated at the use. *)
Definition EPROTO : Z := 71.

Definition ENOMEM : Z := 12.

Definition EINVAL : Z := 22.

Definition ERANGE : Z := 34.

Definition EDOM : Z := 33.

Definition EFAULT : Z := 14.

(** ** Computations that may abort

    [None] is a run that does not return: an M0_ASSERT(), M0_PRE() or M0_POST()
    fires (Motr keeps them enabled in production builds), an array is indexed
    out of its bounds or an integer is divided by zero. *)

Definition M0_ASSERT (b : bool) : option () := if b then Some tt else None.

Definition div_c (a b : Z) : option Z :=
  if b =? 0 then None else Some (a / b).

Definition mod_c (a b : Z) : option Z :=
  if b =? 0 then None else Some (a mod b).

(** C arrays: a list of exactly the allocated length, indexed by [Z]. *)
Definition arr_get {A} (l : list A) (i : Z) : option A :=
  if 0 <=? i then l !! Z.to_nat i else None.

Definition arr_set {A} (l : list A) (i : Z) (x : A) : option (list A) :=
  if (0 <=? i) && (i <? Z.of_nat (length l))
  then Some (<[Z.to_nat i := x]> l) else None.

(** memcpy() of [new] to the start of an array. *)
Definition arr_put {A} (old new : list A) : option (list A) :=
  if (length new <=? length old)%nat then Some (new ++ drop (length new) old) else None.

(** [for (i = lo; i < hi; ++i)] and [for (j = hi; j > lo; --j)]. *)
Fixpoint for_n {St} (n : nat) (i : Z) (body : Z -> St -> option St) (s : St)
  : option St :=
  match n with
  | O => Some s
  | S n => s' ← body i s; for_n n (i + 1) body s'
  end.

Definition for_up {St} (lo hi : Z) (body : Z -> St -> option St) (s : St)
  : option St :=
  for_n (Z.to_nat (hi - lo)) lo body s.

Fixpoint for_n_dn {St} (n : nat) (j : Z) (body : Z -> St -> option St) (s : St)
  : option St :=
  match n with
  | O => Some s
  | S n => s' ← body j s; for_n_dn n (j - 1) body s'
  end.

Definition for_down {St} (hi lo : Z) (body : Z -> St -> option St) (s : St)
  : option St :=
  for_n_dn (Z.to_nat (hi - lo)) hi body s.

(** [forallb] over an index range: m0_forall(). *)
Definition m0_forall (n : Z) (p : Z -> bool) : bool :=
  forallb p (seqZ 0 n).

(** ** Tactics and hint databases *)

Create HintDb motr discriminated.

(** Splits a successful run [H : x ← m; k = Some r] into its steps. *)
Ltac unbind H :=
  repeat match type of H with
  | mbind _ _ = Some _ =>
      let x := fresh "x" in let E := fresh "E" in
      apply bind_Some in H as (x & E & H);
      try (match type of x with prod _ _ => destruct x end; simpl in H);
      try (match type of E with Some _ = Some _ => injection E as E; subst x end)
  end.

(** Turns boolean tests into propositions. *)
Ltac boolp :=
  repeat match goal with
  | H : (_ =? _) = true |- _ => apply Z.eqb_eq in H
  | H : (_ =? _) = false |- _ => apply Z.eqb_neq in H
  | H : (_ <? _) = true |- _ => apply Z.ltb_lt in H
  | H : (_ <? _) = false |- _ => apply Z.ltb_ge in H
  | H : (_ <=? _) = true |- _ => apply Z.leb_le in H
  | H : (_ <=? _) = false |- _ => apply Z.leb_gt in H
  | H : (_ && _) = true |- _ => apply andb_true_iff in H as [? ?]
  | H : (_ || _) = false |- _ => apply orb_false_iff in H as [? ?]
  | H : negb _ = true |- _ => apply negb_true_iff in H
  | H : negb _ = false |- _ => apply negb_false_iff in H
  end.

(** Case split on the first boolean comparison in the goal. *)
Ltac zcases :=
  repeat match goal with
  | |- context [?a =? ?b] => destruct (Z.eqb_spec a b)
  | |- context [?a <? ?b] => destruct (Z.ltb_spec a b)
  | |- context [?a <=? ?b] => destruct (Z.leb_spec a b)
  end.

(** ** Machine-integer lemmas *)

Lemma u32_small x : is_u32 x -> u32 x = x.
Proof. unfold is_u32, u32. apply Z.mod_small. Qed.

Lemma u64_small x : is_u64 x -> u64 x = x.
Proof. unfold is_u64, u64. apply Z.mod_small. Qed.

Lemma i32_small x : - 2 ^ 31 <= x < 2 ^ 31 -> i32 x = x.
Proof. intros. unfold i32. rewrite Z.mod_small; lia. Qed.

Lemma u32_range x : is_u32 (u32 x).
Proof. unfold is_u32, u32. apply Z.mod_pos_bound. lia. Qed.

Lemma u64_range x : is_u64 (u64 x).
Proof. unfold is_u64, u64. apply Z.mod_pos_bound. lia. Qed.

Lemma u64_add_l a b : u64 (u64 a + b) = u64 (a + b).
Proof. apply Zplus_mod_idemp_l. Qed.

Lemma u64_add_r a b : u64 (a + u64 b) = u64 (a + b).
Proof. apply Zplus_mod_idemp_r. Qed.

Lemma u64_sub_l a b : u64 (u64 a - b) = u64 (a - b).
Proof. apply Zminus_mod_idemp_l. Qed.

Lemma u64_sub_r a b : u64 (a - u64 b) = u64 (a - b).
Proof. apply Zminus_mod_idemp_r. Qed.

Lemma u64_mul_l a b : u64 (u64 a * b) = u64 (a * b).
Proof. apply Zmult_mod_idemp_l. Qed.

Lemma u64_cong a b k : a = b + k * 2 ^ 64 -> u64 a = u64 b.
Proof. intros ->. unfold u64. apply Z_mod_plus_full. Qed.

#[export] Hint Rewrite u64_add_l u64_add_r u64_sub_l u64_sub_r u64_mul_l : u64.

#[export] Hint Resolve u32_range u64_range : motr.

(** ** Assertions and arrays *)

Lemma M0_ASSERT_Some b x : M0_ASSERT b = Some x <-> b = true.
Proof. destruct b, x; simpl; split; congruence. Qed.

Lemma M0_ASSERT_true b : b = true -> M0_ASSERT b = Some tt.
Proof. by intros ->. Qed.

Lemma div_c_Some a b q : div_c a b = Some q <-> b <> 0 /\ q = a / b.
Proof. unfold div_c. zcases; split; intros; naive_solver lia. Qed.

Lemma mod_c_Some a b q : mod_c a b = Some q <-> b <> 0 /\ q = a mod b.
Proof. unfold mod_c. zcases; split; intros; naive_solver lia. Qed.

Lemma div_c_ok a b : b <> 0 -> div_c a b = Some (a / b).
Proof. intros. by apply div_c_Some. Qed.

Lemma mod_c_ok a b : b <> 0 -> mod_c a b = Some (a mod b).
Proof. intros. by apply mod_c_Some. Qed.

Lemma arr_get_Some {A} (l : list A) i x :
  arr_get l i = Some x <-> 0 <= i /\ l !! Z.to_nat i = Some x.
Proof. unfold arr_get. zcases; split; intros; naive_solver lia. Qed.

Lemma arr_get_range {A} (l : list A) i x :
  arr_get l i = Some x -> 0 <= i < Z.of_nat (length l).
Proof. intros [? ?%lookup_lt_Some]%arr_get_Some. lia. Qed.

Lemma arr_get_is_Some {A} (l : list A) i :
  0 <= i < Z.of_nat (length l) -> exists x, arr_get l i = Some x.
Proof.
  intros Hi. destruct (lookup_lt_is_Some_2 l (Z.to_nat i)) as [x Hx]; [lia|].
  exists x. apply arr_get_Some. split; [lia|done].
Qed.

Lemma arr_set_Some {A} (l l' : list A) i x :
  arr_set l i x = Some l' <->
  0 <= i < Z.of_nat (length l) /\ l' = <[Z.to_nat i := x]> l.
Proof.
  unfold arr_set. zcases; simpl; split; intros; naive_solver lia.
Qed.

Lemma arr_set_ok {A} (l : list A) i x :
  0 <= i < Z.of_nat (length l) -> arr_set l i x = Some (<[Z.to_nat i := x]> l).
Proof. intros. by apply arr_set_Some. Qed.

Lemma arr_get_insert {A} (l : list A) i j x :
  0 <= i < Z.of_nat (length l) ->
  arr_get (<[Z.to_nat i := x]> l) j = if i =? j then Some x else arr_get l j.
Proof.
  intros Hi. unfold arr_get. zcases; subst; try lia; try done.
  - rewrite list_lookup_insert_eq; [done|lia].
  - rewrite list_lookup_insert_ne; [done|lia].
Qed.

Lemma arr_get_middle {A} (l1 l2 : list A) x i :
  i = Z.of_nat (length l1) -> arr_get (l1 ++ x :: l2) i = Some x.
Proof.
  intros ->. apply arr_get_Some. split; [lia|]. rewrite Nat2Z.id. by apply list_lookup_middle.
Qed.

Lemma arr_set_middle {A} (l1 l2 : list A) x y i :
  i = Z.of_nat (length l1) -> arr_set (l1 ++ x :: l2) i y = Some (l1 ++ y :: l2).
Proof.
  intros ->. apply arr_set_Some. rewrite length_app. simpl. split; [lia|].
  rewrite Nat2Z.id. replace (length l1) with (length l1 + 0)%nat by lia.
  by rewrite insert_app_r.
Qed.

Lemma arr_put_ok {A} (old new : list A) :
  (length new <= length old)%nat -> arr_put old new = Some (new ++ drop (length new) old).
Proof. intros Hl. unfold arr_put. by apply Nat.leb_le in Hl as ->. Qed.

(** Runs the first assertion of the goal, leaving its condition to prove. *)
Ltac assert_step :=
  match goal with
  | |- context [@mbind _ _ _ _ ?f (M0_ASSERT ?b)] =>
      rewrite (M0_ASSERT_true b); [cbn [mbind option_bind]|]
  end.

Tactic Notation "assert_ok" "by" tactic3(tac) := assert_step; [|solve [tac]].

(** Rewrites with the result of the next step of a run and goes on. *)
Tactic Notation "run" uconstr(E) := rewrite E; cbn [mbind option_bind].

Tactic Notation "run" uconstr(E) "by" tactic3(tac) := rewrite E by tac; cbn [mbind option_bind].

(** Splits an array at an index in range. *)
Lemma arr_split {A} (l : list A) i :
  0 <= i < Z.of_nat (length l) ->
  exists l1 x l2, l = l1 ++ x :: l2 /\ Z.of_nat (length l1) = i.
Proof.
  intros Hi. destruct (lookup_lt_is_Some_2 l (Z.to_nat i)) as [x Hx]; [lia|].
  exists (take (Z.to_nat i) l), x, (drop (S (Z.to_nat i)) l).
  rewrite take_drop_middle by done. rewrite length_take. split; [done|lia].
Qed.

Lemma m0_forall_true n p :
  m0_forall n p = true <-> forall i, 0 <= i < n -> p i = true.
Proof.
  unfold m0_forall. rewrite forallb_forall. split; intros H i Hi.
  - apply H, list_elem_of_In, elem_of_seqZ. lia.
  - apply list_elem_of_In, elem_of_seqZ in Hi. apply H. lia.
Qed.

(** ** Lists *)

Lemma seqZ_snoc_from m n : 0 <= n -> seqZ m (n + 1) = seqZ m n ++ [m + n].
Proof. intros. by rewrite seqZ_app by lia. Qed.

Lemma seqZ_snoc n : 0 <= n -> seqZ 0 (n + 1) = seqZ 0 n ++ [n].
Proof. intros. by rewrite seqZ_snoc_from. Qed.

Lemma join_snoc {A} (ls : list (list A)) l : mjoin (ls ++ [l]) = mjoin ls ++ l.
Proof. rewrite join_app. f_equal. apply app_nil_r. Qed.

(** ** Loop rules *)

Section loops.
Context {St : Type}.
Implicit Types (s : St) (I : Z -> St -> Prop) (body : Z -> St -> option St).

Lemma for_n_total I body n i s :
  I i s ->
  (forall j s, i <= j < i + Z.of_nat n -> I j s ->
     exists s', body j s = Some s' /\ I (j + 1) s') ->
  exists s', for_n n i body s = Some s' /\ I (i + Z.of_nat n) s'.
Proof.
  revert i s. induction n as [|n IH]; intros i s HI Hb; simpl.
  - exists s. by rewrite Z.add_0_r.
  - destruct (Hb i s) as (s1 & -> & H1); [lia|done|]. simpl.
    destruct (IH (i + 1) s1 H1) as (s2 & -> & H2).
    + intros. apply Hb; [lia|done].
    + exists s2. split; [done|]. by replace (i + Z.of_nat (S n)) with (i + 1 + Z.of_nat n) by lia.
Qed.

(** Total correctness of an ascending loop. *)
Lemma for_up_total I body lo hi s :
  lo <= hi ->
  I lo s ->
  (forall j s, lo <= j < hi -> I j s -> exists s', body j s = Some s' /\ I (j + 1) s') ->
  exists s', for_up lo hi body s = Some s' /\ I hi s'.
Proof.
  intros Hle HI Hb. unfold for_up.
  destruct (for_n_total I body (Z.to_nat (hi - lo)) lo s) as (s' & ? & ?); [done| |].
  - intros. apply Hb; [lia|done].
  - exists s'. split; [done|]. by replace hi with (lo + Z.of_nat (Z.to_nat (hi - lo))) by lia.
Qed.

Lemma for_n_partial I body n i s s' :
  I i s ->
  (forall j s s', i <= j < i + Z.of_nat n -> I j s -> body j s = Some s' -> I (j + 1) s') ->
  for_n n i body s = Some s' -> I (i + Z.of_nat n) s'.
Proof.
  revert i s. induction n as [|n IH]; intros i s HI Hb; simpl.
  - intros [= <-]. by rewrite Z.add_0_r.
  - intros (s1 & Hs & Hf)%bind_Some.
    replace (i + Z.of_nat (S n)) with (i + 1 + Z.of_nat n) by lia.
    eapply IH; [|intros; eapply Hb; [|done|done]; lia|done].
    eapply Hb; [lia|done|done].
Qed.

(** Partial correctness: an invariant of the iterations that returned. *)
Lemma for_up_partial I body lo hi s s' :
  lo <= hi ->
  I lo s ->
  (forall j s s', lo <= j < hi -> I j s -> body j s = Some s' -> I (j + 1) s') ->
  for_up lo hi body s = Some s' -> I hi s'.
Proof.
  intros Hle HI Hb Hf. unfold for_up in Hf.
  replace hi with (lo + Z.of_nat (Z.to_nat (hi - lo))) by lia.
  eapply for_n_partial; [done| |done]. intros. eapply Hb; [lia|done|done].
Qed.

Lemma for_n_ext body1 body2 n i s :
  (forall j s, i <= j < i + Z.of_nat n -> body1 j s = body2 j s) ->
  for_n n i body1 s = for_n n i body2 s.
Proof.
  revert i s. induction n as [|n IH]; intros i s Hb; simpl; [done|].
  rewrite Hb by lia. destruct (body2 i s); simpl; [|done].
  apply IH. intros. apply Hb. lia.
Qed.

Lemma for_up_ext body1 body2 lo hi s :
  (forall j s, lo <= j < hi -> body1 j s = body2 j s) ->
  for_up lo hi body1 s = for_up lo hi body2 s.
Proof. intros Hb. apply for_n_ext. intros. apply Hb. lia. Qed.

Lemma for_up_nil body lo hi s : hi <= lo -> for_up lo hi body s = Some s.
Proof. intros. unfold for_up. by replace (Z.to_nat (hi - lo)) with O by lia. Qed.

Lemma for_up_cons body lo hi s :
  lo < hi -> for_up lo hi body s = s' ← body lo s; for_up (lo + 1) hi body s'.
Proof.
  intros. unfold for_up.
  replace (Z.to_nat (hi - lo)) with (S (Z.to_nat (hi - (lo + 1)))) by lia. done.
Qed.

Lemma for_n_dn_total I body n i s :
  I i s ->
  (forall j s, i - Z.of_nat n < j <= i -> I j s ->
     exists s', body j s = Some s' /\ I (j - 1) s') ->
  exists s', for_n_dn n i body s = Some s' /\ I (i - Z.of_nat n) s'.
Proof.
  revert i s. induction n as [|n IH]; intros i s HI Hb; simpl.
  - exists s. by rewrite Z.sub_0_r.
  - destruct (Hb i s) as (s1 & -> & H1); [lia|done|]. simpl.
    destruct (IH (i - 1) s1 H1) as (s2 & -> & H2).
    + intros. apply Hb; [lia|done].
    + exists s2. split; [done|]. by replace (i - Z.of_nat (S n)) with (i - 1 - Z.of_nat n) by lia.
Qed.

(** Total correctness of a descending loop. *)
Lemma for_down_total I body hi lo s :
  lo <= hi ->
  I hi s ->
  (forall j s, lo < j <= hi -> I j s -> exists s', body j s = Some s' /\ I (j - 1) s') ->
  exists s', for_down hi lo body s = Some s' /\ I lo s'.
Proof.
  intros Hle HI Hb. unfold for_down.
  destruct (for_n_dn_total I body (Z.to_nat (hi - lo)) hi s) as (s' & ? & ?); [done| |].
  - intros. apply Hb; [lia|done].
  - exists s'. split; [done|]. by replace lo with (hi - Z.of_nat (Z.to_nat (hi - lo))) by lia.
Qed.

End loops.

(** ** Shifting the elements of an array *)

Lemma shift_right_ok {A} (pre a b : list A) x t i :
  i = Z.of_nat (length pre) -> t = i + Z.of_nat (length a) ->
  exists c, for_down t i (fun j s => y ← arr_get s (j - 1); arr_set s j y)
              (pre ++ a ++ x :: b) = Some (pre ++ c :: a ++ b).
Proof.
  intros -> ->.
  destruct (for_down_total
    (fun j s => exists a1 a2 c, a = a1 ++ a2 /\
       j = Z.of_nat (length pre) + Z.of_nat (length a1) /\ s = pre ++ a1 ++ c :: a2 ++ b)
    (fun j s => y ← arr_get s (j - 1); arr_set s j y)
    (Z.of_nat (length pre) + Z.of_nat (length a)) (Z.of_nat (length pre))
    (pre ++ a ++ x :: b)) as (s' & -> & a1 & a2 & c & -> & Hj & ->).
  - lia.
  - exists a, [], x. rewrite app_nil_r. done.
  - intros j s Hj (a1 & a2 & c & -> & Hj1 & ->).
    destruct a1 as [|y a1 _] using rev_ind; [simpl in *; lia|].
    rewrite length_app in Hj1. simpl in Hj1.
    exists (pre ++ a1 ++ y :: y :: a2 ++ b). split.
    + rewrite <- !app_assoc. simpl. rewrite (app_assoc pre).
      rewrite arr_get_middle by (rewrite length_app; lia). simpl.
      replace ((pre ++ a1) ++ y :: c :: a2 ++ b) with ((pre ++ a1 ++ [y]) ++ c :: a2 ++ b)
        by (rewrite <- !app_assoc; done).
      rewrite arr_set_middle by (rewrite !length_app; simpl; lia).
      by rewrite <- !app_assoc.
    + exists a1, (y :: a2), y. split; [by rewrite <- app_assoc|]. split; [lia|done].
  - assert (a1 = []) as -> by (destruct a1; [done|simpl in Hj; lia]). by exists c.
Qed.

Lemma shift_left_ok {A} (pre a b : list A) x i t :
  i = Z.of_nat (length pre) -> t = i + Z.of_nat (length a) ->
  exists c, for_up i t (fun j s => y ← arr_get s (j + 1); arr_set s j y)
              (pre ++ x :: a ++ b) = Some (pre ++ a ++ c :: b).
Proof.
  intros -> ->.
  destruct (for_up_total
    (fun j s => exists a1 a2 c, a = a1 ++ a2 /\
       j = Z.of_nat (length pre) + Z.of_nat (length a1) /\ s = pre ++ a1 ++ c :: a2 ++ b)
    (fun j s => y ← arr_get s (j + 1); arr_set s j y)
    (Z.of_nat (length pre)) (Z.of_nat (length pre) + Z.of_nat (length a))
    (pre ++ x :: a ++ b)) as (s' & -> & a1 & a2 & c & -> & Hj & ->).
  - lia.
  - exists [], a, x. split; [done|]. split; [simpl; lia|done].
  - intros j s Hj (a1 & a2 & c & -> & Hj1 & ->). rewrite length_app in Hj.
    destruct a2 as [|y a2]; [simpl in Hj; lia|]. exists (pre ++ (a1 ++ [y]) ++ y :: a2 ++ b). split.
    + replace (pre ++ a1 ++ c :: (y :: a2) ++ b) with ((pre ++ a1 ++ [c]) ++ y :: a2 ++ b)
        by (rewrite <- !app_assoc; done).
      rewrite arr_get_middle by (rewrite !length_app; simpl; lia). cbn [mbind option_bind].
      replace ((pre ++ a1 ++ [c]) ++ y :: a2 ++ b) with ((pre ++ a1) ++ c :: y :: a2 ++ b)
        by (rewrite <- !app_assoc; done).
      rewrite arr_set_middle by (rewrite length_app; lia). by rewrite <- !app_assoc.
    + exists (a1 ++ [y]), a2, y. split; [by rewrite <- app_assoc|]. split; [|done].
      rewrite length_app. simpl. lia.
  - rewrite length_app in Hj. destruct a2 as [|]; [|simpl in Hj; lia].
    exists c. rewrite app_nil_r. done.
Qed.

(** ** Boolean conditions that read memory

    [&&] and [||] of conditions that may fail: the right one is evaluated only
    when the left one does not decide. *)

Definition and_then (a b : option bool) : option bool :=
  match a with Some true => b | _ => a end.

Definition or_else (a b : option bool) : option bool :=
  match a with Some false => b | _ => a end.

Notation "a &&? b" := (and_then a b) (at level 40, left associativity) : motr_scope.

Notation "a ||? b" := (or_else a b) (at level 50, left associativity) : motr_scope.
