(* ===== verification/LibArith.v ===== *)
(** * lib: integer arithmetic, hashing, the PRNG and permutations

    Models the helpers of src/lib/misc.c, src/lib/arith.h and src/lib/hash.c the
    layout code is built on: row/column encoding, gcd, the linear congruential
    generator, the multiplicative hash, 128-bit integers, application of a
    permutation given by its Lehmer code, and the array sort. *)
From S2P Require Import Prelude.

(** ** Row-major encoding (lib/arith.h) *)

Definition m0_enc (width row column : Z) : option Z :=
  _ ← M0_ASSERT (column <? width);
  Some (u64 (row * width + column)).

Definition m0_dec (width pos : Z) : option (Z * Z) :=
  row ← div_c pos width;
  column ← mod_c pos width;
  Some (row, column).

(** ** Alignment *)

Definition m0_is_po2 (val : Z) : bool := Z.land val (u64 (val - 1)) =? 0.

Definition m0_is_aligned (val alignment : Z) : option bool :=
  _ ← M0_ASSERT (m0_is_po2 alignment);
  Some (Z.land val (u64 (alignment - 1)) =? 0).

Definition m0_align (val alignment : Z) : option Z :=
  _ ← M0_ASSERT (m0_is_po2 alignment);
  let mask := u64 (alignment - 1) in
  Some (Z.land (u64 (val + mask)) (Z.lnot mask)).

(** ** Greatest common divisor *)

Fixpoint gcd_loop (fuel : nat) (p q : Z) : option Z :=
  if q =? 0 then Some p
  else match fuel with
       | O => None
       | S fuel => t ← mod_c p q; gcd_loop fuel q t
       end.

(** Two iterations at least halve [q]: [2 * log2 q + 2] of them suffice. *)
Definition m0_gcd64 (p q : Z) : option Z :=
  gcd_loop (2 * Z.to_nat (Z.log2 q) + 2) p q.

(** ** Pseudo-random numbers *)

Definition m0_rnd64 (prev : Z) : Z * Z :=
  let prev := u64 (u64 (prev * 6364136223846793005) + 1442695040888963407) in
  (prev, prev).

(** Returns the drawn number and the new state of the generator. *)
Definition m0_rnd (max prev : Z) : option (Z * Z) :=
  let prev := u64 (u64 (prev * 0x5DEECE66D) + 0xB) in
  let result := prev in
  _ ← M0_ASSERT (Z.shiftr max 48 =? 0);
  r ← div_c (u64 (Z.shiftr result 16 * max)) (Z.shiftr UINT64_MAX 16);
  Some (r, prev).

(** ** Multiplicative hash (lib/hash.c) *)

Definition m0_hash (x : Z) : Z :=
  let y := x in
  let y := u64 (Z.shiftl y 18) in
  let x := u64 (x - y) in
  let y := u64 (Z.shiftl y 33) in
  let x := u64 (x - y) in
  let y := u64 (Z.shiftl y 3) in
  let x := u64 (x + y) in
  let y := u64 (Z.shiftl y 3) in
  let x := u64 (x - y) in
  let y := u64 (Z.shiftl y 4) in
  let x := u64 (x + y) in
  let y := u64 (Z.shiftl y 2) in
  u64 (x + y).

(** ** 128-bit integers *)

Record m0_uint128 := M0_UINT128 { u_hi : Z; u_lo : Z }.

(** M0_3WAY(). *)
Definition m0_3way (v0 v1 : Z) : Z :=
  if v0 <? v1 then -1 else if v0 =? v1 then 0 else 1.

Definition m0_uint128_cmp (u0 u1 : m0_uint128) : Z :=
  let c := m0_3way (u_hi u0) (u_hi u1) in
  if negb (c =? 0) then c else m0_3way (u_lo u0) (u_lo u1).

Definition m0_uint128_eq (u0 u1 : m0_uint128) : bool := m0_uint128_cmp u0 u1 =? 0.

Definition m0_uint128_add (a b : m0_uint128) : m0_uint128 :=
  let a_lo := u_lo a in
  let lo := u64 (u_lo a + u_lo b) in
  M0_UINT128 (u64 (u_hi a + u_hi b + (if lo <? a_lo then 1 else 0))) lo.

Definition UINT32_MAX : Z := 2 ^ 32 - 1.

Definition m0_uint128_mul64 (a b : Z) : m0_uint128 :=
  let a_lo := Z.land a UINT32_MAX in
  let a_hi := Z.shiftr a 32 in
  let b_lo := Z.land b UINT32_MAX in
  let b_hi := Z.shiftr b 32 in
  let res := M0_UINT128 (u64 (a_hi * b_hi)) (u64 (a_lo * b_lo)) in
  let c := u64 (a_lo * b_hi) in
  let res := m0_uint128_add res
    (M0_UINT128 (Z.shiftr c 32) (u64 (Z.shiftl (Z.land c UINT32_MAX) 32))) in
  let c := u64 (a_hi * b_lo) in
  m0_uint128_add res
    (M0_UINT128 (Z.shiftr c 32) (u64 (Z.shiftl (Z.land c UINT32_MAX) 32))).

(** Big-endian read of eight bytes. *)
Definition m0u64 (s : list Z) : option Z :=
  for_up 0 8 (fun i v =>
    b ← arr_get s i;
    Some (Z.lor v (u64 (Z.shiftl b (64 - 8 - i * 8))))) 0.

Definition m0_uint128_init (magic : list Z) : option m0_uint128 :=
  _ ← M0_ASSERT (Z.of_nat (length magic) =? 16);
  hi ← m0u64 magic;
  lo ← m0u64 (drop 8 magic);
  Some (M0_UINT128 hi lo).

(** ** Permutations *)

(** One iteration of the loop of m0_permute() and of permute() of
    layout/pdclust.c; the two functions differ in the width of their integers,
    [wrap] is the arithmetic of that width. *)
Definition permute_body (wrap : Z -> Z) (n : Z) (k : list Z) (i : Z)
    (sr : list Z * list Z) : option (list Z * list Z) :=
  let '(s, r) := sr in
  ki ← arr_get k i;
  let t := wrap (ki + i) in
  _ ← M0_ASSERT (t <? n);
  x ← arr_get s t;
  s ← for_down t i (fun j s => y ← arr_get s (j - 1); arr_set s j y) s;
  s ← arr_set s i x;
  r ← arr_set r x i;
  Some (s, r).

Definition permute_with (wrap : Z -> Z) (n : Z) (k s r : list Z)
  : option (list Z * list Z) :=
  '(s, r) ← for_up 0 (wrap (n - 1)) (permute_body wrap n k) (s, r);
  y ← arr_get s (wrap (n - 1));
  r ← arr_set r y (wrap (n - 1));
  Some (s, r).

Definition m0_permute : Z -> list Z -> list Z -> list Z -> option (list Z * list Z) :=
  permute_with u64.

(** ** Array sort *)

Definition m0_array_sort (arr : list Z) (arr_len : Z) : option (list Z) :=
  _ ← M0_ASSERT (0 <? arr_len);
  for_up 0 (arr_len - 1) (fun i arr =>
    for_up (i + 1) (arr_len - 1) (fun j arr =>
      ai ← arr_get arr i;
      aj ← arr_get arr j;
      if aj <? ai
      then arr ← arr_set arr i aj; arr_set arr j ai
      else Some arr) arr) arr.

(** ** Lemmas: encoding *)

Lemma m0_enc_ok width row column :
  0 <= column < width -> 0 <= row -> row * width + column < 2 ^ 64 ->
  m0_enc width row column = Some (row * width + column).
Proof.
  intros Hc Hr Hb. unfold m0_enc. rewrite M0_ASSERT_true by lia. simpl.
  rewrite u64_small; [done|]. unfold is_u64. nia.
Qed.

Lemma m0_dec_ok width pos :
  width <> 0 -> m0_dec width pos = Some (pos / width, pos mod width).
Proof.
  intros Hw. unfold m0_dec. by rewrite div_c_ok, mod_c_ok.
Qed.

(** Division of [q * d + r] with a remainder in range. *)
Lemma div_enc q d r : 0 <= r < d -> (q * d + r) / d = q.
Proof. intros. rewrite Z.div_add_l by lia. rewrite Z.div_small by lia. lia. Qed.

Lemma mod_enc q d r : 0 <= r < d -> (q * d + r) mod d = r.
Proof. intros. rewrite Z.add_comm, Z_mod_plus_full. by apply Z.mod_small. Qed.

Lemma enc_dec p d : d <> 0 -> p / d * d + p mod d = p.
Proof. intros. rewrite Z.mul_comm. symmetry. by apply Z.div_mod. Qed.

Lemma mod_diff_lt a k d : 0 < k < d -> a mod d <> (a + k) mod d.
Proof.
  intros Hk Heq. pose proof (Z.div_mod a d ltac:(lia)) as H1.
  pose proof (Z.div_mod (a + k) d ltac:(lia)) as H2. rewrite <- Heq in H2.
  remember (a / d) as q1. remember ((a + k) / d) as q2. remember (a mod d) as r.
  assert (d * (q2 - q1) = k) by (clear - H1 H2; lia).
  clear H1 H2 Heq. destruct (Z.le_gt_cases (q2 - q1) 0); nia.
Qed.

(** ** Lemmas: gcd *)

Lemma gcd_loop_step2 p q : 0 <= p -> 0 < q -> 0 < p mod q -> 2 * (q mod (p mod q)) < q.
Proof.
  intros Hp Hq Hr. set (r := p mod q) in *.
  assert (r < q) by (unfold r; apply Z.mod_pos_bound; lia).
  pose proof (Z.mod_pos_bound q r Hr).
  pose proof (Z.div_mod q r ltac:(lia)).
  assert (1 <= q / r) by (apply Z.div_le_lower_bound; lia). nia.
Qed.

Lemma gcd_loop_ok fuel p q :
  0 <= p -> 0 <= q < 2 ^ Z.of_nat fuel ->
  gcd_loop (2 * fuel) p q = Some (Z.gcd p q).
Proof.
  revert p q. induction fuel as [|fuel IH]; intros p q Hp Hq.
  - assert (q = 0) as -> by lia. simpl. rewrite Z.gcd_0_r, Z.abs_eq by lia. done.
  - replace (2 * S fuel)%nat with (S (S (2 * fuel))) by lia. cbn [gcd_loop].
    destruct (Z.eqb_spec q 0) as [->|Hq0].
    { rewrite Z.gcd_0_r, Z.abs_eq by lia. done. }
    rewrite mod_c_ok by done. cbn [mbind option_bind].
    pose proof (Z.mod_pos_bound p q ltac:(lia)).
    assert (Z.gcd p q = Z.gcd q (p mod q)) as Hg.
    { rewrite (Z.gcd_comm q), Z.gcd_mod by lia. apply Z.gcd_comm. }
    destruct (Z.eqb_spec (p mod q) 0) as [Hm|Hm].
    { rewrite Hg, Hm, Z.gcd_0_r, Z.abs_eq by lia. done. }
    rewrite mod_c_ok by done. cbn [mbind option_bind].
    pose proof (gcd_loop_step2 p q ltac:(lia) ltac:(lia) ltac:(lia)).
    pose proof (Z.mod_pos_bound q (p mod q) ltac:(lia)).
    rewrite IH; [|lia|].
    + rewrite Hg. f_equal. rewrite (Z.gcd_comm (p mod q)), Z.gcd_mod by lia.
      apply Z.gcd_comm.
    + replace (Z.of_nat (S fuel)) with (Z.of_nat fuel + 1) in Hq by lia.
      rewrite Z.pow_add_r in Hq by lia. lia.
Qed.

(** The loop of m0_gcd64() terminates and returns the greatest common divisor. *)
Lemma m0_gcd64_gcd p q : 0 <= p -> 0 <= q -> m0_gcd64 p q = Some (Z.gcd p q).
Proof.
  intros Hp Hq. unfold m0_gcd64.
  replace (2 * Z.to_nat (Z.log2 q) + 2)%nat with (2 * (Z.to_nat (Z.log2 q) + 1))%nat by lia.
  apply gcd_loop_ok; [done|]. split; [done|].
  rewrite Nat2Z.inj_add, Z2Nat.id by apply Z.log2_nonneg.
  destruct (Z.eq_dec q 0) as [->|]; [simpl; lia|].
  apply Z.log2_spec. lia.
Qed.

(** ** Lemmas: the PRNG *)

Lemma rnd_high x : is_u64 x -> 0 <= Z.shiftr x 16 <= 2 ^ 48 - 1.
Proof.
  intros [? ?]. rewrite Z.shiftr_div_pow2 by lia.
  split; [apply Z.div_pos; lia|]. apply Z.lt_succ_r, Z.div_lt_upper_bound; lia.
Qed.

(** The state the generator moves to. *)
Definition rnd_next (prev : Z) : Z := u64 (u64 (prev * 0x5DEECE66D) + 0xB).

(** The draw whose 48 high bits are all ones. *)
Definition rnd_top (prev : Z) : bool := Z.shiftr (rnd_next prev) 16 =? 2 ^ 48 - 1.

Lemma m0_rnd_eq max prev :
  0 <= max < 2 ^ 48 ->
  m0_rnd max prev =
    Some (u64 (Z.shiftr (rnd_next prev) 16 * max) / (2 ^ 48 - 1), rnd_next prev).
Proof.
  intros Hm. unfold m0_rnd. fold (rnd_next prev).
  rewrite M0_ASSERT_true; [done|]. apply Z.eqb_eq.
  rewrite Z.shiftr_div_pow2 by lia. apply Z.div_small. lia.
Qed.

(** A draw below [max] is missed only by the top draw of a small range. *)
Definition draw_ok (max prev : Z) : bool := negb ((max <=? 2 ^ 16) && rnd_top prev).

Lemma m0_rnd_range max prev :
  0 < max < 2 ^ 48 ->
  exists r, m0_rnd max prev = Some (r, rnd_next prev) /\ 0 <= r <= max /\
    (r = max <-> draw_ok max prev = false) /\ (2 ^ 16 < max -> r <= 2 ^ 16).
Proof.
  intros Hmax. exists (u64 (Z.shiftr (rnd_next prev) 16 * max) / (2 ^ 48 - 1)).
  split; [apply m0_rnd_eq; lia|].
  pose proof (rnd_high (rnd_next prev) (u64_range _)) as Hh.
  pose proof (u64_range (Z.shiftr (rnd_next prev) 16 * max)) as Hr. unfold is_u64 in Hr.
  unfold draw_ok, rnd_top. set (h := Z.shiftr (rnd_next prev) 16) in *.
  assert (u64 (h * max) / (2 ^ 48 - 1) <= 2 ^ 16) as Hle
    by (apply Z.lt_succ_r, Z.div_lt_upper_bound; lia).
  assert (0 <= u64 (h * max) / (2 ^ 48 - 1)) by (apply Z.div_pos; lia).
  destruct (Z.leb_spec max (2 ^ 16)) as [Hm|Hm]; cbn [negb andb].
  2: { split; [lia|]. split; [|done]. split; [lia|discriminate]. }
  rewrite u64_small in * by (unfold is_u64; nia).
  destruct (Z.eqb_spec h (2 ^ 48 - 1)) as [->|Hne]; cbn [negb andb].
  - rewrite Z.mul_comm, Z.div_mul by lia. split; [lia|]. split; [|lia]. done.
  - assert (h * max / (2 ^ 48 - 1) < max) by (apply Z.div_lt_upper_bound; nia).
    split; [lia|]. split; [|lia]. split; [lia|discriminate].
Qed.

(** ** Lemmas: the hash *)

(** m0_hash() multiplies by this constant modulo 2^64. *)
Definition hash_mult : Z := 0x9e37fffffffc0001.

(** Its inverse modulo 2^64. *)
Definition hash_mult_inv : Z := 0x6208001000040001.

Lemma hash_inverse x : is_u64 x -> u64 (u64 (x * hash_mult) * hash_mult_inv) = x.
Proof.
  intros Hx. rewrite <- (u64_small x) at 2 by done. rewrite u64_mul_l.
  apply u64_cong with (k := x * 4365784408515473601).
  unfold hash_mult, hash_mult_inv. lia.
Qed.

(** The hash state stays a multiple of its argument. *)
Lemma u64_lin_shift x a k : 0 <= k -> u64 (Z.shiftl (u64 (x * a)) k) = u64 (x * (a * 2 ^ k)).
Proof. intros. rewrite Z.shiftl_mul_pow2, u64_mul_l by done. f_equal. ring. Qed.

Lemma u64_lin_add x a b : u64 (u64 (x * a) + u64 (x * b)) = u64 (x * (a + b)).
Proof. rewrite u64_add_l, u64_add_r. f_equal. ring. Qed.

Lemma u64_lin_sub x a b : u64 (u64 (x * a) - u64 (x * b)) = u64 (x * (a - b)).
Proof. rewrite u64_sub_l, u64_sub_r. f_equal. ring. Qed.

Lemma m0_hash_mult x : is_u64 x -> m0_hash x = u64 (x * hash_mult).
Proof.
  intros Hx. transitivity (m0_hash (u64 (x * 1))).
  { by rewrite Z.mul_1_r, u64_small. }
  cbv beta zeta delta [m0_hash]. rewrite !u64_lin_shift by done.
  rewrite !u64_lin_sub, u64_lin_add, u64_lin_sub, !u64_lin_add. reflexivity.
Qed.

(** ** Lemmas: 128-bit integers *)

(** The number a pair of words stands for. *)
Definition u128_val (u : m0_uint128) : Z := u_hi u * 2 ^ 64 + u_lo u.

Definition is_u128 (u : m0_uint128) : Prop := is_u64 (u_hi u) /\ is_u64 (u_lo u).

Lemma u128_add_carry a b :
  is_u64 a -> is_u64 b ->
  u64 (a + b) + (if u64 (a + b) <? a then 1 else 0) * 2 ^ 64 = a + b.
Proof.
  intros Ha Hb. unfold u64, is_u64 in *.
  destruct (Z.ltb_spec ((a + b) mod 2 ^ 64) a);
    pose proof (Z.mod_pos_bound (a + b) (2 ^ 64) ltac:(lia));
    pose proof (Z.div_mod (a + b) (2 ^ 64) ltac:(lia)); nia.
Qed.

Lemma m0_uint128_add_val a b :
  is_u128 a -> is_u128 b -> u128_val a + u128_val b < 2 ^ 128 ->
  u128_val (m0_uint128_add a b) = u128_val a + u128_val b.
Proof.
  intros [Ha1 Ha2] [Hb1 Hb2] Hlt. unfold m0_uint128_add, u128_val in *. simpl.
  pose proof (u128_add_carry (u_lo a) (u_lo b) Ha2 Hb2) as Hc.
  set (c := if u64 (u_lo a + u_lo b) <? u_lo a then 1 else 0) in *.
  rewrite u64_small; [lia|]. pose proof (u64_range (u_lo a + u_lo b)).
  unfold is_u64 in *. assert (0 <= c) by (unfold c; zcases; lia). lia.
Qed.

Lemma m0_uint128_add_is a b : is_u128 (m0_uint128_add a b).
Proof. split; apply u64_range. Qed.

(** The summand [c * 2^32] as m0_uint128_mul64() writes it. *)
Lemma u128_mid_val c :
  is_u64 c ->
  let m := M0_UINT128 (Z.shiftr c 32) (u64 (Z.shiftl (Z.land c UINT32_MAX) 32)) in
  is_u128 m /\ u128_val m = c * 2 ^ 32.
Proof.
  intros Hc m. subst m. unfold is_u64, is_u128, u128_val, UINT32_MAX in *. simpl u_hi. simpl u_lo.
  change (2 ^ 32 - 1) with (Z.ones 32). rewrite Z.land_ones by lia.
  rewrite Z.shiftr_div_pow2, Z.shiftl_mul_pow2 by lia.
  pose proof (Z.mod_pos_bound c (2 ^ 32) ltac:(lia)).
  pose proof (Z.div_mod c (2 ^ 32) ltac:(lia)).
  rewrite u64_small by (unfold is_u64; lia). unfold is_u64. split; [|lia].
  split; [|lia]. lia.
Qed.

Lemma u32_low a : Z.land a UINT32_MAX = a mod 2 ^ 32.
Proof. unfold UINT32_MAX. change (2 ^ 32 - 1) with (Z.ones 32). apply Z.land_ones. lia. Qed.

Lemma u32_high a : Z.shiftr a 32 = a / 2 ^ 32.
Proof. apply Z.shiftr_div_pow2. lia. Qed.

(** The sum of the four partial products. *)
Lemma mul64_parts al ah bl bh :
  0 <= al < 2 ^ 32 -> 0 <= ah < 2 ^ 32 -> 0 <= bl < 2 ^ 32 -> 0 <= bh < 2 ^ 32 ->
  let mid c := M0_UINT128 (c / 2 ^ 32) (u64 (Z.shiftl (c mod 2 ^ 32) 32)) in
  u128_val
    (m0_uint128_add
       (m0_uint128_add (M0_UINT128 (u64 (ah * bh)) (u64 (al * bl))) (mid (u64 (al * bh))))
       (mid (u64 (ah * bl)))) =
  (2 ^ 32 * ah + al) * (2 ^ 32 * bh + bl).
Proof.
  intros Hal Hah Hbl Hbh mid. rewrite !(u64_small (_ * _)) by (unfold is_u64; nia).
  assert (forall c, is_u64 c -> is_u128 (mid c) /\ u128_val (mid c) = c * 2 ^ 32) as Hmid.
  { intros c Hc. pose proof (u128_mid_val c Hc) as Hm. cbv zeta in Hm.
    by rewrite u32_low, u32_high in Hm. }
  destruct (Hmid (al * bh)) as [Hm1 Hv1]; [unfold is_u64; nia|].
  destruct (Hmid (ah * bl)) as [Hm2 Hv2]; [unfold is_u64; nia|].
  assert (is_u128 (M0_UINT128 (ah * bh) (al * bl))) as H0
    by (unfold is_u128, is_u64; simpl; nia).
  assert (u128_val (M0_UINT128 (ah * bh) (al * bl)) = ah * bh * 2 ^ 64 + al * bl) as Hv0 by done.
  assert (0 <= al * bl <= (2 ^ 32 - 1) * (2 ^ 32 - 1)) by nia.
  assert (0 <= ah * bl <= (2 ^ 32 - 1) * (2 ^ 32 - 1)) by nia.
  assert (0 <= al * bh <= (2 ^ 32 - 1) * (2 ^ 32 - 1)) by nia.
  assert (0 <= ah * bh <= (2 ^ 32 - 1) * (2 ^ 32 - 1)) by nia.
  assert (u128_val (m0_uint128_add (M0_UINT128 (ah * bh) (al * bl)) (mid (al * bh))) =
    ah * bh * 2 ^ 64 + al * bl + al * bh * 2 ^ 32) as Hv01.
  { rewrite m0_uint128_add_val; rewrite ?Hv0, ?Hv1; try done. lia. }
  rewrite m0_uint128_add_val; rewrite ?Hv01, ?Hv2; try done; try apply m0_uint128_add_is; lia.
Qed.

(** ** Lemmas: permutations *)

(** The decoding of a Lehmer code: the next element of the permutation is the
    [ki]-th of those not yet selected. *)
Fixpoint lehmer (k l : list Z) : list Z :=
  match k with
  | [] => l
  | ki :: k =>
      match l !! Z.to_nat ki with
      | Some x => x :: lehmer k (delete (Z.to_nat ki) l)
      | None => l
      end
  end.

(** @pre of m0_permute() on the code: k[i] + i < n for the [n - 1] entries read. *)
Definition lcode_ok (n : Z) (k : list Z) : Prop :=
  forall i, 0 <= i < n - 1 -> exists ki, arr_get k i = Some ki /\ 0 <= ki /\ ki + i < n.

(** A rearrangement of {0, ..., n - 1}. *)
Definition is_perm (n : Z) (s : list Z) : Prop := s ≡ₚ seqZ 0 n.

(** Arrays [s] and [r] are mutually inverse on {0, ..., n - 1}. *)
Definition inverse_of (n : Z) (s r : list Z) : Prop :=
  forall i, 0 <= i < n ->
    exists x y, arr_get s i = Some x /\ 0 <= x < n /\ arr_get r x = Some i /\
                arr_get r i = Some y /\ 0 <= y < n /\ arr_get s y = Some i.

Lemma is_perm_length n s : 0 < n -> is_perm n s -> Z.of_nat (length s) = n.
Proof. intros Hn Hs. rewrite (Permutation_length Hs), length_seqZ. lia. Qed.

Lemma is_perm_range n s i x : is_perm n s -> arr_get s i = Some x -> 0 <= x < n.
Proof.
  intros Hs [_ Hx%list_elem_of_lookup_2]%arr_get_Some.
  rewrite Hs in Hx. apply elem_of_seqZ in Hx. lia.
Qed.

Lemma is_perm_inj n s i j x :
  is_perm n s -> arr_get s i = Some x -> arr_get s j = Some x -> i = j.
Proof.
  intros Hs [? Hi]%arr_get_Some [? Hj]%arr_get_Some.
  assert (NoDup s) as Hd by (rewrite Hs; apply NoDup_seqZ).
  pose proof (NoDup_lookup _ _ _ _ Hd Hi Hj). lia.
Qed.

Lemma is_perm_surj n s x :
  is_perm n s -> 0 <= x < n -> exists i, 0 <= i < n /\ arr_get s i = Some x.
Proof.
  intros Hs Hx. pose proof (is_perm_length n s ltac:(lia) Hs) as Hl.
  assert (x ∈ s) as [m Hm]%list_elem_of_lookup by (rewrite Hs; apply elem_of_seqZ; lia).
  exists (Z.of_nat m). pose proof (lookup_lt_Some _ _ _ Hm). split; [lia|].
  apply arr_get_Some. rewrite Nat2Z.id. split; [lia|done].
Qed.

Lemma inverse_from_left n s r :
  0 < n -> is_perm n s -> Z.of_nat (length r) = n ->
  (forall m x, 0 <= m < n -> arr_get s m = Some x -> arr_get r x = Some m) ->
  inverse_of n s r.
Proof.
  intros Hn Hs Hr Hinv i Hi.
  destruct (arr_get_is_Some s i) as [x Hx]; [rewrite (is_perm_length n); done|].
  assert (i ∈ s) as [m Hm]%list_elem_of_lookup.
  { rewrite Hs. apply elem_of_seqZ. lia. }
  pose proof (lookup_lt_Some _ _ _ Hm) as Hlt.
  pose proof (is_perm_length _ _ Hn Hs) as HL.
  assert (arr_get s (Z.of_nat m) = Some i) as Hsm.
  { apply arr_get_Some. split; [lia|]. by rewrite Nat2Z.id. }
  exists x, (Z.of_nat m). split; [done|]. split; [by eapply is_perm_range|].
  split; [by apply Hinv|]. split; [apply Hinv; [lia|done]|]. split; [lia|done].
Qed.

Lemma permute_body_ok wrap n k pre a x b r ki i :
  arr_get k i = Some ki -> i = Z.of_nat (length pre) -> ki = Z.of_nat (length a) ->
  wrap (ki + i) = ki + i -> ki + i < n -> 0 <= x < Z.of_nat (length r) ->
  permute_body wrap n k i (pre ++ a ++ x :: b, r) =
    Some (pre ++ x :: a ++ b, <[Z.to_nat x := i]> r).
Proof.
  intros Hk Hi Hki Hw Hn Hx. unfold permute_body. rewrite Hk. cbn [mbind option_bind].
  rewrite Hw, M0_ASSERT_true by lia. cbn [mbind option_bind].
  rewrite (app_assoc pre), arr_get_middle by (rewrite length_app; lia).
  rewrite <- (app_assoc pre). cbn [mbind option_bind].
  destruct (shift_right_ok pre a b x (ki + i) i) as [c ->]; [done|lia|].
  cbn [mbind option_bind]. rewrite arr_set_middle by done. cbn [mbind option_bind].
  by rewrite arr_set_ok.
Qed.

Section permute.
Context (wrap : Z -> Z) (n : Z) (k s0 r0 : list Z).
Hypothesis Hwrap : forall x, 0 <= x < n -> wrap x = x.
Hypothesis Hn : 0 < n.
Hypothesis Hk : lcode_ok n k.
Hypothesis Hs0 : is_perm n s0.
Hypothesis Hr0 : Z.of_nat (length r0) = n.

(** Invariant of the loop: the first [i] elements of [s] are selected, the rest
    still has to be decoded, and [r] inverts the selected part. *)
Definition permute_inv (i : Z) (sr : list Z * list Z) : Prop :=
  exists pre rest, sr.1 = pre ++ rest /\ Z.of_nat (length pre) = i /\
    lehmer (take (Z.to_nat (n - 1)) k) s0 =
      pre ++ lehmer (drop (Z.to_nat i) (take (Z.to_nat (n - 1)) k)) rest /\
    is_perm n sr.1 /\ Z.of_nat (length sr.2) = n /\
    (forall m x, 0 <= m < i -> arr_get sr.1 m = Some x -> arr_get sr.2 x = Some m).

Lemma permute_step i sr :
  0 <= i < n - 1 -> permute_inv i sr ->
  exists sr', permute_body wrap n k i sr = Some sr' /\ permute_inv (i + 1) sr'.
Proof.
  intros Hi (pre & rest & Hs & Hpre & Hl & Hp & Hr & Hinv). destruct sr as [s r].
  simpl in *. subst s. destruct (Hk i Hi) as (ki & Hki & Hki0 & Hkin).
  assert (Z.of_nat (length rest) = n - i) as Hrest.
  { pose proof (is_perm_length _ _ Hn Hp) as HL. rewrite length_app in HL. lia. }
  destruct (arr_split rest ki) as (a & x & b & -> & Ha); [lia|].
  assert (0 <= x < n) as Hx.
  { eapply (is_perm_range n _ (ki + i)); [done|]. rewrite app_assoc.
    apply arr_get_middle. rewrite length_app. lia. }
  exists (pre ++ x :: a ++ b, <[Z.to_nat x := i]> r). split.
  { eapply permute_body_ok; try done; try lia. apply Hwrap. lia. }
  assert (is_perm n (pre ++ x :: a ++ b)) as Hp'.
  { unfold is_perm. rewrite <- Hp. by rewrite Permutation_middle. }
  exists (pre ++ [x]), (a ++ b). simpl.
  split; [by rewrite <- app_assoc|]. split; [rewrite length_app; simpl; lia|].
  split; [|split; [done|split; [by rewrite length_insert|]]].
  - rewrite Hl, <- app_assoc. f_equal.
    apply arr_get_Some in Hki as [_ Hki].
    assert (take (Z.to_nat (n - 1)) k !! Z.to_nat i = Some ki) as Ht
      by (rewrite lookup_take_lt by lia; done).
    rewrite (drop_S _ _ _ Ht). cbn [lehmer].
    replace (Z.to_nat ki) with (length a) by lia. rewrite list_lookup_middle by done.
    rewrite delete_middle. by replace (S (Z.to_nat i)) with (Z.to_nat (i + 1)) by lia.
  - intros m y Hm Hy. rewrite arr_get_insert by lia.
    assert (arr_get (pre ++ x :: a ++ b) i = Some x) as Hxi by (apply arr_get_middle; lia).
    destruct (Z.eqb_spec x y) as [->|Hne].
    + f_equal. by eapply is_perm_inj.
    + assert (m <> i) by (intros ->; rewrite Hxi in Hy; congruence).
      apply Hinv; [lia|]. rewrite <- Hy. apply arr_get_Some in Hy as [_ Hy].
      unfold arr_get. destruct (Z.leb_spec 0 m); [|lia].
      rewrite !lookup_app_l by lia. done.
Qed.

(** Both permute functions decode the Lehmer code in place and leave the inverse
    permutation in the second array. *)
Lemma permute_with_ok :
  exists s r, permute_with wrap n k s0 r0 = Some (s, r) /\
    s = lehmer (take (Z.to_nat (n - 1)) k) s0 /\ is_perm n s /\
    Z.of_nat (length r) = n /\ inverse_of n s r.
Proof.
  unfold permute_with. rewrite !Hwrap by lia.
  destruct (for_up_total permute_inv (permute_body wrap n k) 0 (n - 1) (s0, r0))
    as ([s r] & -> & (pre & rest & Hs & Hpre & Hl & Hp & Hr & Hinv)).
  - lia.
  - exists [], s0. repeat split; try done. intros. simpl in *. lia.
  - apply permute_step.
  - cbn [mbind option_bind]. simpl in *.
    destruct (arr_get_is_Some s (n - 1)) as [y Hy]; [rewrite (is_perm_length n) by done; lia|].
    rewrite Hy. cbn [mbind option_bind].
    pose proof (is_perm_range _ _ _ _ Hp Hy) as Hyr.
    rewrite arr_set_ok by lia. cbn [mbind option_bind].
    eexists _, _. split; [done|]. split.
    { rewrite Hl, drop_ge by (rewrite length_take; lia). done. }
    split; [done|]. split; [by rewrite length_insert|].
    apply inverse_from_left; [done|done|by rewrite length_insert|].
    intros m x Hm Hx. rewrite arr_get_insert by lia.
    destruct (Z.eqb_spec y x) as [->|Hne].
    + f_equal. by eapply is_perm_inj.
    + apply Hinv; [|done]. assert (m <> n - 1) by congruence. lia.
Qed.
End permute.

(** ** Lemmas: array sort *)

Definition sort_swap (arr_len i : Z) (j : Z) (arr : list Z) : option (list Z) :=
  ai ← arr_get arr i;
  aj ← arr_get arr j;
  if aj <? ai
  then arr ← arr_set arr i aj; arr_set arr j ai
  else Some arr.

Section sort.
Context (a0 : list Z) (n : Z).
Hypothesis Hlen : n <= Z.of_nat (length a0).

(** After [i] outer iterations the first [i] elements are in place with respect
    to the first [n - 1]; within iteration [i], element [i] is the least of
    those at [i], ..., [j - 1]. *)
Definition sort_inv (i : Z) (a : list Z) : Prop :=
  a ≡ₚ a0 /\ (forall q, n - 1 <= q -> arr_get a q = arr_get a0 q) /\
  forall p q x y, 0 <= p < q -> p < i -> q < n - 1 ->
    arr_get a p = Some x -> arr_get a q = Some y -> x <= y.

Definition sort_inv2 (i j : Z) (a : list Z) : Prop :=
  sort_inv i a /\
  forall q x y, i < q < j -> arr_get a i = Some x -> arr_get a q = Some y -> x <= y.

Lemma sort_step i j a :
  0 <= i < j -> j < n - 1 -> sort_inv2 i j a ->
  exists a', sort_swap n i j a = Some a' /\ sort_inv2 i (j + 1) a'.
Proof.
  intros Hi Hj ((Hp & Hlast & Hs) & Hm).
  assert (n <= Z.of_nat (length a)) as HL by (by rewrite (Permutation_length Hp)).
  destruct (arr_get_is_Some a i) as [x Hx]; [lia|].
  destruct (arr_get_is_Some a j) as [y Hy]; [lia|].
  unfold sort_swap. rewrite Hx, Hy. cbn [mbind option_bind].
  destruct (Z.ltb_spec y x) as [Hlt|Hge].
  - rewrite arr_set_ok by lia. cbn [mbind option_bind].
    rewrite arr_set_ok by (rewrite length_insert; lia).
    eexists. split; [done|].
    assert (forall q, arr_get (<[Z.to_nat j:=x]> (<[Z.to_nat i:=y]> a)) q =
      if j =? q then Some x else if i =? q then Some y else arr_get a q) as Hget.
    { intros q. rewrite !arr_get_insert by (rewrite ?length_insert; lia). done. }
    split; [split; [|split]|].
    + apply arr_get_Some in Hx as [_ Hx], Hy as [_ Hy].
      by rewrite (Permutation_insert_swap _ _ _ _ _ Hx Hy).
    + intros q Hq. rewrite Hget. zcases; try lia. by apply Hlast.
    + intros p q u v Hpq Hpi Hq. rewrite !Hget. zcases; subst; try lia; intros Hu Hv.
      * injection Hv as <-. apply (Hs p i); [lia..|done|done].
      * injection Hv as <-. apply (Hs p j); [lia..|done|done].
      * by apply (Hs p q).
    + intros q u v Hq. rewrite !Hget. zcases; subst; try lia; intros [= <-] Hv.
      * injection Hv as <-. lia.
      * assert (x <= v) by (apply (Hm q); [lia|done|done]). lia.
  - exists a. split; [done|]. split; [done|]. intros q u v Hq Hu Hv.
    destruct (Z.eq_dec q j) as [->|]; [|apply (Hm q); [lia|done|done]].
    rewrite Hu in Hx. rewrite Hv in Hy. simplify_eq. lia.
Qed.

Lemma array_sort_inv : 0 < n -> exists a, m0_array_sort a0 n = Some a /\ sort_inv (n - 1) a.
Proof.
  intros Hn. unfold m0_array_sort. rewrite M0_ASSERT_true by lia. cbn [mbind option_bind].
  apply for_up_total; [lia| |].
  - split; [done|]. split; [done|]. intros; lia.
  - intros i a Hi Ha.
    destruct (for_up_total (sort_inv2 i) (sort_swap n i) (i + 1) (n - 1) a)
      as (a' & Hf & (Hp & Hlast & Hs) & Hm).
    + lia.
    + split; [done|]. intros; lia.
    + intros. apply sort_step; [lia|lia|done].
    + exists a'. split; [exact Hf|]. split; [done|]. split; [done|].
      intros p q x y Hpq Hpi Hq Hx Hy. destruct (Z.eq_dec p i) as [->|].
      * apply (Hm q); [lia|done|done].
      * apply (Hs p q); [lia..|done|done].
Qed.
End sort.

(** * Properties *)

(** m0_rnd() never returns more than [max]; it returns [max] itself, against
    the documented post-condition result < max, exactly when [max <= 2^16] and
    the 48 high bits of the new state are all ones; for [max > 2^16] the 64-bit
    product wraps and the result never exceeds 2^16. *)
Theorem m0_rnd_bound (max prev : Z) (Hmax : 0 < max < 2 ^ 48) :
  exists r prev', m0_rnd max prev = Some (r, prev') /\ 0 <= r <= max /\
    (r = max <-> max <= 2 ^ 16 /\ rnd_top prev = true) /\
    (2 ^ 16 < max -> r <= 2 ^ 16).
Proof.
  destruct (m0_rnd_range max prev Hmax) as (r & Heq & Hr & Htop & Hbig).
  exists r, (rnd_next prev). split; [done|]. split; [done|]. split; [|done].
  rewrite Htop. unfold draw_ok. rewrite negb_false_iff, andb_true_iff, Z.leb_le. done.
Qed.

(** The seed after which the generator's state is 2^64 - 1 makes m0_rnd(5)
    return 5. *)
Lemma m0_rnd_bound_witness :
  exists r prev', m0_rnd 5 4256325491117201220 = Some (r, prev') /\ r = 5.
Proof.
  destruct (m0_rnd_bound 5 4256325491117201220 ltac:(lia)) as (r & prev' & Heq & _ & Hiff & _).
  exists r, prev'. split; [exact Heq|]. apply Hiff. split; [lia|vm_compute; reflexivity].
Defined.

(** m0_permute() applied to any arrangement of {0, ..., n - 1} and a valid
    Lehmer code returns the arrangement the code selects, as the reference
    decoding computes it, and fills the second array with its inverse. *)
Theorem m0_permute_correct (n : Z) (k s r : list Z)
    (Hn : 0 < n < 2 ^ 64) (Hk : lcode_ok n k) (Hs : is_perm n s)
    (Hr : Z.of_nat (length r) = n) :
  exists s' r', m0_permute n k s r = Some (s', r') /\
    s' = lehmer (take (Z.to_nat (n - 1)) k) s /\
    is_perm n s' /\ inverse_of n s' r'.
Proof.
  destruct (permute_with_ok u64 n k s r) as (s' & r' & Heq & Hl & Hp & _ & Hi); try done.
  - intros x Hx. apply u64_small. unfold is_u64. lia.
  - lia.
  - by exists s', r'.
Qed.

Lemma m0_permute_correct_witness :
  exists s' r', m0_permute 3 [2; 0; 0] [0; 1; 2] [0; 0; 0] = Some (s', r') /\
    s' = [2; 0; 1] /\ r' = [1; 2; 0].
Proof.
  destruct (m0_permute_correct 3 [2; 0; 0] [0; 1; 2] [0; 0; 0]) as (s' & r' & Heq & Hl & _).
  - lia.
  - intros i Hi. assert (i = 0 \/ i = 1) as [-> | ->] by lia; eexists; (split; [done|lia]).
  - unfold is_perm. vm_compute. reflexivity.
  - reflexivity.
  - exists s', r'. split; [exact Heq|]. vm_compute in Heq. injection Heq as <- <-. done.
Defined.

(** The first [n] elements of a longer array are rearranged. *)
Lemma m0_array_sort_prefix arr n :
  0 < n <= Z.of_nat (length arr) ->
  exists arr', m0_array_sort arr n = Some arr' /\
    take (Z.to_nat n) arr' ≡ₚ take (Z.to_nat n) arr.
Proof.
  intros Hn. destruct (array_sort_inv arr n ltac:(lia) ltac:(lia)) as (a & Heq & Hp & Hl & _).
  exists a. split; [done|]. apply (Permutation_app_inv_r (drop (Z.to_nat n) arr)).
  rewrite (take_drop (Z.to_nat n) arr).
  assert (drop (Z.to_nat n) arr = drop (Z.to_nat n) a) as ->; [|by rewrite take_drop].
  apply list_eq. intros i. rewrite !lookup_drop. symmetry.
  specialize (Hl (n + Z.of_nat i) ltac:(lia)). unfold arr_get in Hl.
  destruct (Z.leb_spec 0 (n + Z.of_nat i)); [|lia].
  by replace (Z.to_nat (n + Z.of_nat i)) with (Z.to_nat n + i)%nat in Hl by lia.
Qed.

(** m0_array_sort() rearranges its array, puts its first [n - 1] elements
    in ascending order and never moves the last one: the inner loop stops one
    element short, so the result is sorted only if the last element was already
    the largest. *)
Theorem m0_array_sort_all_but_last (arr : list Z) (n : Z)
    (Hn : 0 < n) (Hlen : Z.of_nat (length arr) = n) :
  exists arr', m0_array_sort arr n = Some arr' /\ arr' ≡ₚ arr /\
    arr_get arr' (n - 1) = arr_get arr (n - 1) /\
    (forall p q x y, 0 <= p < q -> q < n - 1 ->
       arr_get arr' p = Some x -> arr_get arr' q = Some y -> x <= y).
Proof.
  destruct (array_sort_inv arr n ltac:(lia) Hn) as (a & Heq & Hp & Hl & Hs).
  exists a. split; [done|]. split; [done|]. split; [apply Hl; lia|].
  intros p q x y Hpq Hq. apply Hs; lia.
Qed.

Lemma m0_array_sort_all_but_last_witness :
  exists arr', m0_array_sort [3; 2; 1] 3 = Some arr' /\ arr' = [2; 3; 1].
Proof.
  destruct (m0_array_sort_all_but_last [3; 2; 1] 3 ltac:(lia) eq_refl) as (a & Heq & _).
  exists a. split; [exact Heq|]. vm_compute in Heq. by injection Heq as <-.
Defined.

(** m0_hash() is multiplication by a fixed odd constant modulo 2^64, hence
    a bijection of the 64-bit integers: distinct inputs never collide. *)
Theorem m0_hash_multiplicative (x y : Z) (Hx : is_u64 x) (Hy : is_u64 y) :
  m0_hash x = u64 (x * hash_mult) /\ (m0_hash x = m0_hash y -> x = y).
Proof.
  split; [by apply m0_hash_mult|]. rewrite !m0_hash_mult by done. intros Heq.
  rewrite <- (hash_inverse x Hx), <- (hash_inverse y Hy). by rewrite Heq.
Qed.

Lemma m0_hash_multiplicative_witness : m0_hash 1 = hash_mult /\ (m0_hash 1 = m0_hash 2 -> 1 = 2).
Proof.
  destruct (m0_hash_multiplicative 1 2) as [H1 H2]; [unfold is_u64; lia..|].
  split; [rewrite H1; reflexivity|exact H2].
Defined.

(** m0_uint128_mul64() returns the exact 128-bit product of two 64-bit
    integers, through four 32-bit partial products and carries. *)
Theorem m0_uint128_mul64_exact (a b : Z) (Ha : is_u64 a) (Hb : is_u64 b) :
  is_u128 (m0_uint128_mul64 a b) /\ u128_val (m0_uint128_mul64 a b) = a * b.
Proof.
  split; [apply m0_uint128_add_is|]. unfold is_u64 in *.
  pose proof (Z.div_mod a (2 ^ 32) ltac:(lia)) as Ea.
  pose proof (Z.div_mod b (2 ^ 32) ltac:(lia)) as Eb.
  transitivity ((2 ^ 32 * (a / 2 ^ 32) + a mod 2 ^ 32) * (2 ^ 32 * (b / 2 ^ 32) + b mod 2 ^ 32));
    [|by rewrite <- Ea, <- Eb].
  unfold m0_uint128_mul64. rewrite !u32_low, !u32_high.
  pose proof (Z.mod_pos_bound a (2 ^ 32) ltac:(lia)).
  pose proof (Z.mod_pos_bound b (2 ^ 32) ltac:(lia)).
  apply mul64_parts; lia.
Qed.

Lemma m0_uint128_mul64_exact_witness :
  u128_val (m0_uint128_mul64 UINT64_MAX UINT64_MAX) = UINT64_MAX * UINT64_MAX.
Proof.
  apply (m0_uint128_mul64_exact UINT64_MAX UINT64_MAX); unfold is_u64, UINT64_MAX; lia.
Defined.
