(* ===== verification/Fid.v ===== *)
(** * fid: file identifiers and their conversions

    Models src/fid/fid.c (construction, comparison, type tags, the type
    registry, hashing, arrays) and the bit-level conversions between the fids of
    an object and of its components: global object to component object
    (src/ioservice/fid_convert.c) and distributed index to component catalogue
    (src/dix/fid_convert.c). *)
From S2P Require Import Prelude LibArith.

(** ** Identifiers *)

Record m0_fid := M0_FID_INIT { f_container : Z; f_key : Z }.

Definition is_fid (f : m0_fid) : Prop := is_u64 (f_container f) /\ is_u64 (f_key f).

(** A fid type is a static structure: [ft_addr] is its address, by which the
    registry compares types; the callback is its validity check, if it has one. *)
Record m0_fid_type := {
  ft_addr : Z;
  ft_id : Z;
  ft_is_valid : option (m0_fid -> bool)
}.

(** Clears the high 8 bits. *)
Notation M0_FID_TYPE_MASK := 0x00ffffffffffffff (only parsing).

Definition M0_FID_TCONTAINER (type container : Z) : Z :=
  Z.lor (u64 (Z.shiftl type (64 - 8))) (Z.land container M0_FID_TYPE_MASK).

Notation m0_fid_set container key := (M0_FID_INIT container key) (only parsing).

Definition m0_fid_tset (tid container key : Z) : m0_fid :=
  m0_fid_set (M0_FID_TCONTAINER tid container) key.

Definition m0_fid_tget (fid : m0_fid) : Z := Z.shiftr (f_container fid) 56.

(** memcmp() of the two structures. *)
Definition m0_fid_eq (fid0 fid1 : m0_fid) : bool :=
  (f_container fid0 =? f_container fid1) && (f_key fid0 =? f_key fid1).

Definition m0_fid_cmp (fid0 fid1 : m0_fid) : Z :=
  m0_uint128_cmp (M0_UINT128 (f_container fid0) (f_key fid0))
                 (M0_UINT128 (f_container fid1) (f_key fid1)).

Definition m0_fid_is_set (fid : m0_fid) : bool := negb (m0_fid_eq fid (M0_FID_INIT 0 0)).

(** M0_CIRCULAR_SHIFT_LEFT() of a 64-bit value. *)
Definition circular_shift_left (v b : Z) : Z :=
  Z.lor (u64 (Z.shiftl v b)) (Z.shiftr v (64 - b)).

Definition m0_fid_hash (fid : m0_fid) : Z :=
  m0_hash (Z.lxor (circular_shift_left (f_container fid) 3)
                  (circular_shift_left (f_key fid) 17)).

(** ** The registry of types: fid_types[256] *)

Notation fid_types := (list (option m0_fid_type)) (only parsing).

Definition m0_fid_type_register (types : fid_types) (fidt : m0_fid_type) : option fid_types :=
  cur ← arr_get types (ft_id fidt);
  match cur with
  | Some _ => None
  | None => arr_set types (ft_id fidt) (Some fidt)
  end.

Definition m0_fid_type_unregister (types : fid_types) (fidt : m0_fid_type) : option fid_types :=
  cur ← arr_get types (ft_id fidt);
  match cur with
  | Some ft => _ ← M0_ASSERT (ft_addr ft =? ft_addr fidt); arr_set types (ft_id fidt) None
  | None => None
  end.

Definition m0_fid_type_get (types : fid_types) (id : Z) : option (option m0_fid_type) :=
  arr_get types id.

Definition m0_fid_type_gethi (types : fid_types) (id : Z) : option (option m0_fid_type) :=
  m0_fid_type_get types (Z.shiftr id (64 - 8)).

Definition m0_fid_type_getfid (types : fid_types) (fid : m0_fid) : option (option m0_fid_type) :=
  m0_fid_type_gethi types (f_container fid).

Definition m0_fid_is_valid (types : fid_types) (fid : m0_fid) : option bool :=
  ft ← m0_fid_type_getfid types fid;
  Some match ft with
       | None => false
       | Some ft => match ft_is_valid ft with None => true | Some valid => valid fid end
       end.

Definition m0_fid_tchange (types : fid_types) (fid : m0_fid) (tid : Z) : option m0_fid :=
  let fid := M0_FID_INIT (M0_FID_TCONTAINER tid (f_container fid)) (f_key fid) in
  valid ← m0_fid_is_valid types fid;
  _ ← M0_ASSERT valid;
  Some fid.

Definition m0_fid_tassume (types : fid_types) (fid : m0_fid) (ft : m0_fid_type) : option m0_fid :=
  m0_fid_tchange types fid (ft_id ft).

(** ** Arrays of fids *)

Definition m0_fid_arr_eq (a b : list m0_fid) : bool :=
  Nat.eqb (length b) (length a) && forallb (fun p => m0_fid_eq p.1 p.2) (zip a b).

Fixpoint m0_fid_arr_all_unique (a : list m0_fid) : bool :=
  match a with
  | [] => true
  | f :: a => forallb (fun g => negb (m0_fid_eq f g)) a && m0_fid_arr_all_unique a
  end.

(** ** Global object to component object (ioservice/fid_convert.c) *)

Notation M0_FID_DEVICE_ID_BITS := 24 (only parsing).
Notation M0_FID_DEVICE_ID_OFFSET := 32 (only parsing).
Notation M0_FID_DEVICE_ID_MASK := (Z.shiftl (Z.shiftl 1 M0_FID_DEVICE_ID_BITS - 1) M0_FID_DEVICE_ID_OFFSET)
  (only parsing).
Notation M0_FID_DEVICE_ID_MAX := (Z.shiftl 1 M0_FID_DEVICE_ID_BITS - 1) (only parsing).
Notation M0_FID_GOB_CONTAINER_MASK := (Z.shiftl 1 M0_FID_DEVICE_ID_OFFSET - 1) (only parsing).

(** Types 'G', 'C', 'x' and 'T'; none of them has a validity callback. *)
Notation m0_file_fid_type := {| ft_addr := 1; ft_id := 71; ft_is_valid := None |} (only parsing).
Notation m0_cob_fid_type := {| ft_addr := 2; ft_id := 67; ft_is_valid := None |} (only parsing).
Notation m0_dix_fid_type := {| ft_addr := 3; ft_id := 120; ft_is_valid := None |} (only parsing).
Notation m0_cctg_fid_type := {| ft_addr := 4; ft_id := 84; ft_is_valid := None |} (only parsing).

Definition m0_fid__device_id_extract (fid : m0_fid) : Z :=
  u32 (Z.shiftr (Z.land (f_container fid) M0_FID_DEVICE_ID_MASK) M0_FID_DEVICE_ID_OFFSET).

Definition m0_fid_validate_gob (gob_fid : m0_fid) : bool :=
  (m0_fid_tget gob_fid =? ft_id m0_file_fid_type) && (m0_fid__device_id_extract gob_fid =? 0).

Definition m0_fid_validate_cob (cob_fid : m0_fid) : bool :=
  m0_fid_tget cob_fid =? ft_id m0_cob_fid_type.

Definition m0_fid_gob_make (container key : Z) : option m0_fid :=
  let gob_fid := m0_fid_tset (ft_id m0_file_fid_type) container key in
  _ ← M0_ASSERT (m0_fid_validate_gob gob_fid);
  Some gob_fid.

Definition m0_fid_convert_gob2cob (types : fid_types) (gob_fid : m0_fid) (device_id : Z)
  : option m0_fid :=
  _ ← M0_ASSERT (m0_fid_validate_gob gob_fid);
  _ ← M0_ASSERT (device_id <=? M0_FID_DEVICE_ID_MAX);
  cob_fid ← m0_fid_tassume types gob_fid m0_cob_fid_type;
  let cob_fid := M0_FID_INIT
    (Z.lor (f_container cob_fid) (u64 (Z.shiftl device_id M0_FID_DEVICE_ID_OFFSET)))
    (f_key cob_fid) in
  _ ← M0_ASSERT (m0_fid_validate_cob cob_fid);
  Some cob_fid.

Definition m0_fid_convert_cob2gob (cob_fid : m0_fid) : option m0_fid :=
  _ ← M0_ASSERT (m0_fid_validate_cob cob_fid);
  let gob_fid := m0_fid_tset (ft_id m0_file_fid_type)
    (Z.land (f_container cob_fid) M0_FID_GOB_CONTAINER_MASK) (f_key cob_fid) in
  _ ← M0_ASSERT (m0_fid_validate_gob gob_fid);
  Some gob_fid.

Definition m0_fid_cob_device_id (cob_fid : m0_fid) : option Z :=
  _ ← M0_ASSERT (m0_fid_validate_cob cob_fid);
  Some (m0_fid__device_id_extract cob_fid).

Definition m0_fid_conf_sdev_device_id (sdev_fid : m0_fid) : Z :=
  Z.land (f_key sdev_fid) (Z.shiftl 1 M0_FID_DEVICE_ID_BITS - 1).

(** ** Distributed index to component catalogue (dix/fid_convert.c) *)

Notation M0_DIX_FID_DEVICE_ID_OFFSET := 32 (only parsing).
Notation M0_DIX_FID_DEVICE_ID_MASK := (Z.shiftl (Z.shiftl 1 24 - 1) M0_DIX_FID_DEVICE_ID_OFFSET)
  (only parsing).
Notation M0_DIX_FID_DEVICE_ID_MAX := (Z.shiftl 1 24 - 1) (only parsing).
Notation M0_DIX_FID_DIX_CONTAINER_MASK := (Z.shiftl 1 M0_DIX_FID_DEVICE_ID_OFFSET - 1) (only parsing).

Definition m0_dix_fid__device_id_set (fid : m0_fid) (dev_id : Z) : option m0_fid :=
  _ ← M0_ASSERT (dev_id <=? M0_DIX_FID_DEVICE_ID_MAX);
  Some (M0_FID_INIT
    (Z.lor (Z.land (f_container fid) (u64 (Z.lnot M0_DIX_FID_DEVICE_ID_MASK)))
           (u64 (Z.shiftl dev_id M0_DIX_FID_DEVICE_ID_OFFSET)))
    (f_key fid)).

Definition m0_dix_fid__device_id_extract (fid : m0_fid) : Z :=
  u32 (Z.shiftr (Z.land (f_container fid) M0_DIX_FID_DEVICE_ID_MASK) M0_DIX_FID_DEVICE_ID_OFFSET).

Definition m0_dix_fid_validate_dix (dix_fid : m0_fid) : bool :=
  (m0_fid_tget dix_fid =? ft_id m0_dix_fid_type) && (m0_dix_fid__device_id_extract dix_fid =? 0).

Definition m0_dix_fid_validate_cctg (cctg_fid : m0_fid) : bool :=
  m0_fid_tget cctg_fid =? ft_id m0_cctg_fid_type.

Definition m0_dix_fid_dix_make (container key : Z) : option m0_fid :=
  let dix_fid := m0_fid_tset (ft_id m0_dix_fid_type) container key in
  _ ← M0_ASSERT (m0_dix_fid_validate_dix dix_fid);
  Some dix_fid.

Definition m0_dix_fid_convert_dix2cctg (types : fid_types) (dix_fid : m0_fid) (device_id : Z)
  : option m0_fid :=
  _ ← M0_ASSERT (m0_dix_fid_validate_dix dix_fid);
  _ ← M0_ASSERT (device_id <=? M0_DIX_FID_DEVICE_ID_MAX);
  cctg_fid ← m0_fid_tassume types dix_fid m0_cctg_fid_type;
  let cctg_fid := M0_FID_INIT
    (Z.lor (f_container cctg_fid) (u64 (Z.shiftl device_id M0_DIX_FID_DEVICE_ID_OFFSET)))
    (f_key cctg_fid) in
  _ ← M0_ASSERT (m0_dix_fid_validate_cctg cctg_fid);
  Some cctg_fid.

Definition m0_dix_fid_convert_cctg2dix (cctg_fid : m0_fid) : option m0_fid :=
  _ ← M0_ASSERT (m0_dix_fid_validate_cctg cctg_fid);
  let dix_fid := m0_fid_tset (ft_id m0_dix_fid_type)
    (Z.land (f_container cctg_fid) M0_DIX_FID_DIX_CONTAINER_MASK) (f_key cctg_fid) in
  _ ← M0_ASSERT (m0_dix_fid_validate_dix dix_fid);
  Some dix_fid.

Definition m0_dix_fid_cctg_device_id (cctg_fid : m0_fid) : option Z :=
  _ ← M0_ASSERT (m0_dix_fid_validate_cctg cctg_fid);
  Some (m0_dix_fid__device_id_extract cctg_fid).

(** ** Lemmas: bit fields *)

Lemma lor_add a k b : 0 <= k -> 0 <= b < 2 ^ k -> Z.lor (a * 2 ^ k) b = a * 2 ^ k + b.
Proof.
  intros Hk Hb.
  assert (Z.land (a * 2 ^ k) b = 0) as Hl.
  { apply Z.bits_inj'. intros n Hn. rewrite Z.land_spec, Z.bits_0.
    destruct (Z.ltb_spec n k).
    - by rewrite Z.mul_pow2_bits_low.
    - rewrite <- (Z.mod_small b (2 ^ k)) by done.
      rewrite Z.mod_pow2_bits_high by lia. apply andb_false_r. }
  by rewrite Z.add_nocarry_lxor, Z.lxor_lor.
Qed.

(** A container as its three fields: type, device, local part. *)
Definition fields (t d l : Z) : Z := t * 2 ^ 56 + d * 2 ^ 32 + l.

Definition fields_ok (t d l : Z) : Prop :=
  0 <= t < 2 ^ 8 /\ 0 <= d < 2 ^ 24 /\ 0 <= l < 2 ^ 32.

Lemma fields_exist c :
  is_u64 c -> exists t d l, c = fields t d l /\ fields_ok t d l.
Proof.
  intros Hc. unfold is_u64 in Hc.
  exists (c / 2 ^ 56), (c / 2 ^ 32 mod 2 ^ 24), (c mod 2 ^ 32). unfold fields, fields_ok.
  pose proof (Z.div_mod c (2 ^ 32) ltac:(lia)).
  pose proof (Z.div_mod (c / 2 ^ 32) (2 ^ 24) ltac:(lia)).
  rewrite Z.div_div in * by lia. change (2 ^ 32 * 2 ^ 24) with (2 ^ 56) in *.
  pose proof (Z.mod_pos_bound (c / 2 ^ 32) (2 ^ 24) ltac:(lia)).
  pose proof (Z.mod_pos_bound c (2 ^ 32) ltac:(lia)). lia.
Qed.

Lemma fields_u64 t d l : fields_ok t d l -> is_u64 (fields t d l).
Proof. unfold fields_ok, is_u64, fields. lia. Qed.

Lemma fields_type t d l : fields_ok t d l -> Z.shiftr (fields t d l) 56 = t.
Proof.
  unfold fields_ok, fields. intros. rewrite Z.shiftr_div_pow2 by lia.
  replace (t * 2 ^ 56 + d * 2 ^ 32 + l) with (t * 2 ^ 56 + (d * 2 ^ 32 + l)) by lia.
  apply div_enc. lia.
Qed.

Lemma fields_device t d l :
  fields_ok t d l ->
  u32 (Z.shiftr (Z.land (fields t d l) (Z.shiftl (Z.ones 24) 32)) 32) = d.
Proof.
  unfold fields_ok. intros. rewrite Z.shiftr_land, Z.shiftr_shiftl_l, Z.shiftl_0_r by lia.
  rewrite Z.land_ones, Z.shiftr_div_pow2 by lia. unfold fields.
  replace (t * 2 ^ 56 + d * 2 ^ 32 + l) with ((t * 2 ^ 24 + d) * 2 ^ 32 + l) by lia.
  rewrite div_enc, mod_enc by lia. apply u32_small. unfold is_u32. lia.
Qed.

Lemma fields_local t d l : fields_ok t d l -> Z.land (fields t d l) (Z.ones 32) = l.
Proof.
  unfold fields_ok, fields. intros. rewrite Z.land_ones by lia.
  replace (t * 2 ^ 56 + d * 2 ^ 32 + l) with ((t * 2 ^ 24 + d) * 2 ^ 32 + l) by lia.
  apply mod_enc. lia.
Qed.

Lemma fields_retype t' t d l :
  fields_ok t d l -> 0 <= t' < 2 ^ 8 -> M0_FID_TCONTAINER t' (fields t d l) = fields t' d l.
Proof.
  unfold fields_ok. intros. unfold M0_FID_TCONTAINER.
  change M0_FID_TYPE_MASK with (Z.ones 56). rewrite Z.land_ones, Z.shiftl_mul_pow2 by lia.
  rewrite u64_small by (unfold is_u64; lia). unfold fields.
  replace (t * 2 ^ 56 + d * 2 ^ 32 + l) with (t * 2 ^ 56 + (d * 2 ^ 32 + l)) by lia.
  rewrite mod_enc by lia. rewrite lor_add by lia. lia.
Qed.

Lemma fields_set_device t d l :
  fields_ok t d l -> Z.lor (fields t 0 l) (u64 (Z.shiftl d 32)) = fields t d l.
Proof.
  unfold fields_ok. intros. rewrite Z.shiftl_mul_pow2 by lia.
  rewrite u64_small by (unfold is_u64; lia). unfold fields.
  rewrite Z.lor_comm. replace (t * 2 ^ 56 + 0 * 2 ^ 32 + l) with (t * 2 ^ 56 + l) by lia.
  rewrite <- (lor_add t 56 l) by lia. rewrite Z.lor_assoc, (Z.lor_comm (d * 2 ^ 32)).
  rewrite lor_add by lia.
  replace (t * 2 ^ 56 + d * 2 ^ 32) with ((t * 2 ^ 24 + d) * 2 ^ 32) by lia.
  rewrite lor_add by lia. lia.
Qed.

(** The type is registered without a validity callback, as the types of this
    file are. *)
Definition registered (types : fid_types) (id : Z) : Prop :=
  exists ft, arr_get types id = Some (Some ft) /\ ft_is_valid ft = None.

Lemma m0_fid_tchange_ok types t t' d l k :
  fields_ok t d l -> 0 <= t' < 2 ^ 8 -> registered types t' ->
  m0_fid_tchange types (M0_FID_INIT (fields t d l) k) t' =
    Some (M0_FID_INIT (fields t' d l) k).
Proof.
  intros Hf Ht' (ft & Hget & Hv). unfold m0_fid_tchange. cbn [f_container f_key].
  rewrite fields_retype by done. unfold m0_fid_is_valid, m0_fid_type_getfid,
    m0_fid_type_gethi, m0_fid_type_get. cbn [f_container].
  change (64 - 8) with 56. rewrite fields_type by (unfold fields_ok in *; lia).
  rewrite Hget. cbn [mbind option_bind]. by rewrite Hv.
Qed.

(** Both inverse conversions take the local part and set the type back. *)
Lemma component_back t t' l k dev :
  fields_ok t 0 l -> 0 <= t' < 2 ^ 8 -> 0 <= dev < 2 ^ 24 ->
  m0_fid_tset t (Z.land (fields t' dev l) (Z.ones 32)) k = M0_FID_INIT (fields t 0 l) k.
Proof.
  intros Hf Ht' Hd. rewrite fields_local by (unfold fields_ok in *; lia).
  unfold m0_fid_tset. f_equal.
  replace l with (fields 0 0 l) at 1 by (unfold fields; lia).
  apply fields_retype; unfold fields_ok in *; lia.
Qed.

(** *** Global and component objects *)

Lemma gob_valid l k : fields_ok 71 0 l -> m0_fid_validate_gob (M0_FID_INIT (fields 71 0 l) k) = true.
Proof.
  intros Hf. unfold m0_fid_validate_gob, m0_fid_tget, m0_fid__device_id_extract. cbn [f_container].
  change M0_FID_DEVICE_ID_MASK with (Z.shiftl (Z.ones 24) 32). change M0_FID_DEVICE_ID_OFFSET with 32.
  by rewrite fields_type, fields_device.
Qed.

Lemma validate_gob_fields f :
  is_fid f -> m0_fid_validate_gob f = true ->
  exists l, f = M0_FID_INIT (fields 71 0 l) (f_key f) /\ fields_ok 71 0 l.
Proof.
  intros [Hc _] Hv. destruct (fields_exist _ Hc) as (t & d & l & Heq & Hf).
  unfold m0_fid_validate_gob, m0_fid_tget, m0_fid__device_id_extract in Hv.
  rewrite Heq in Hv. rewrite fields_type in Hv by done.
  change M0_FID_DEVICE_ID_MASK with (Z.shiftl (Z.ones 24) 32) in Hv.
  change M0_FID_DEVICE_ID_OFFSET with 32 in Hv.
  rewrite fields_device in Hv by done. cbn [ft_id] in Hv. boolp. subst.
  exists l. split; [|done]. destruct f; simpl in *; by subst.
Qed.

Lemma cob_valid dev l k : fields_ok 67 dev l -> m0_fid_validate_cob (M0_FID_INIT (fields 67 dev l) k) = true.
Proof. intros Hf. unfold m0_fid_validate_cob, m0_fid_tget. cbn [f_container]. by rewrite fields_type. Qed.

Lemma validate_cob_fields f : is_fid f -> m0_fid_validate_cob f = true ->
  exists dev l, f = M0_FID_INIT (fields 67 dev l) (f_key f) /\ fields_ok 67 dev l.
Proof.
  intros [Hc _] Hv. destruct (fields_exist _ Hc) as (t & d & l & Heq & Hf).
  unfold m0_fid_validate_cob, m0_fid_tget in Hv. rewrite Heq in Hv. rewrite fields_type in Hv by done.
  cbn [ft_id] in Hv. boolp. subst. exists d, l. split; [|done]. destruct f; simpl in *; by subst.
Qed.

Lemma gob2cob_fields types l k dev : registered types 67 -> fields_ok 67 dev l ->
  m0_fid_convert_gob2cob types (M0_FID_INIT (fields 71 0 l) k) dev = Some (M0_FID_INIT (fields 67 dev l) k).
Proof.
  intros Hreg Hf. assert (fields_ok 71 0 l) as Hg by (unfold fields_ok in *; lia).
  unfold m0_fid_convert_gob2cob. rewrite gob_valid by done.
  cbn [M0_ASSERT mbind option_bind]. assert_ok by (change M0_FID_DEVICE_ID_MAX with (2 ^ 24 - 1); unfold fields_ok in Hf; apply Z.leb_le; lia).
  unfold m0_fid_tassume. rewrite m0_fid_tchange_ok by (done || lia).
  cbn [mbind option_bind f_container f_key]. change M0_FID_DEVICE_ID_OFFSET with 32.
  change (ft_id m0_cob_fid_type) with 67. rewrite fields_set_device by done. by rewrite cob_valid.
Qed.

Lemma cob2gob_fields l k dev : fields_ok 67 dev l ->
  m0_fid_convert_cob2gob (M0_FID_INIT (fields 67 dev l) k) = Some (M0_FID_INIT (fields 71 0 l) k) /\
  m0_fid_cob_device_id (M0_FID_INIT (fields 67 dev l) k) = Some dev.
Proof.
  intros Hf. assert (fields_ok 71 0 l) as Hg by (unfold fields_ok in *; lia).
  unfold m0_fid_convert_cob2gob, m0_fid_cob_device_id. rewrite cob_valid by done.
  cbn [mbind option_bind M0_ASSERT f_container f_key]. split; [|f_equal; by apply fields_device].
  change M0_FID_GOB_CONTAINER_MASK with (Z.ones 32). change (ft_id m0_file_fid_type) with 71.
  rewrite component_back by (done || unfold fields_ok in Hf; lia). by rewrite gob_valid.
Qed.

(** *** Indices and component catalogues *)

Lemma dix_valid l k : fields_ok 120 0 l -> m0_dix_fid_validate_dix (M0_FID_INIT (fields 120 0 l) k) = true.
Proof.
  intros Hf. unfold m0_dix_fid_validate_dix, m0_fid_tget, m0_dix_fid__device_id_extract. cbn [f_container].
  change M0_DIX_FID_DEVICE_ID_MASK with (Z.shiftl (Z.ones 24) 32). change M0_DIX_FID_DEVICE_ID_OFFSET with 32.
  by rewrite fields_type, fields_device.
Qed.

Lemma validate_dix_fields f : is_fid f -> m0_dix_fid_validate_dix f = true ->
  exists l, f = M0_FID_INIT (fields 120 0 l) (f_key f) /\ fields_ok 120 0 l.
Proof.
  intros [Hc _] Hv. destruct (fields_exist _ Hc) as (t & d & l & Heq & Hf).
  unfold m0_dix_fid_validate_dix, m0_fid_tget, m0_dix_fid__device_id_extract in Hv.
  rewrite Heq in Hv. rewrite fields_type in Hv by done.
  change M0_DIX_FID_DEVICE_ID_MASK with (Z.shiftl (Z.ones 24) 32) in Hv.
  change M0_DIX_FID_DEVICE_ID_OFFSET with 32 in Hv.
  rewrite fields_device in Hv by done. cbn [ft_id] in Hv. boolp. subst.
  exists l. split; [|done]. destruct f; simpl in *; by subst.
Qed.

Lemma cctg_valid dev l k :
  fields_ok 84 dev l -> m0_dix_fid_validate_cctg (M0_FID_INIT (fields 84 dev l) k) = true.
Proof. intros Hf. unfold m0_dix_fid_validate_cctg, m0_fid_tget. cbn [f_container]. by rewrite fields_type. Qed.

Lemma validate_cctg_fields f : is_fid f -> m0_dix_fid_validate_cctg f = true ->
  exists dev l, f = M0_FID_INIT (fields 84 dev l) (f_key f) /\ fields_ok 84 dev l.
Proof.
  intros [Hc _] Hv. destruct (fields_exist _ Hc) as (t & d & l & Heq & Hf).
  unfold m0_dix_fid_validate_cctg, m0_fid_tget in Hv. rewrite Heq in Hv. rewrite fields_type in Hv by done.
  cbn [ft_id] in Hv. boolp. subst. exists d, l. split; [|done]. destruct f; simpl in *; by subst.
Qed.

Lemma dix2cctg_fields types l k dev : registered types 84 -> fields_ok 84 dev l ->
  m0_dix_fid_convert_dix2cctg types (M0_FID_INIT (fields 120 0 l) k) dev =
  Some (M0_FID_INIT (fields 84 dev l) k).
Proof.
  intros Hreg Hf. assert (fields_ok 120 0 l) as Hg by (unfold fields_ok in *; lia).
  unfold m0_dix_fid_convert_dix2cctg. rewrite dix_valid by done.
  cbn [M0_ASSERT mbind option_bind]. assert_ok by (change M0_DIX_FID_DEVICE_ID_MAX with (2 ^ 24 - 1); unfold fields_ok in Hf; apply Z.leb_le; lia).
  unfold m0_fid_tassume. rewrite m0_fid_tchange_ok by (done || lia).
  cbn [mbind option_bind f_container f_key]. change M0_DIX_FID_DEVICE_ID_OFFSET with 32.
  change (ft_id m0_cctg_fid_type) with 84. rewrite fields_set_device by done. by rewrite cctg_valid.
Qed.

Lemma cctg2dix_fields l k dev : fields_ok 84 dev l ->
  m0_dix_fid_convert_cctg2dix (M0_FID_INIT (fields 84 dev l) k) = Some (M0_FID_INIT (fields 120 0 l) k) /\
  m0_dix_fid_cctg_device_id (M0_FID_INIT (fields 84 dev l) k) = Some dev.
Proof.
  intros Hf. assert (fields_ok 120 0 l) as Hg by (unfold fields_ok in *; lia).
  unfold m0_dix_fid_convert_cctg2dix, m0_dix_fid_cctg_device_id. rewrite cctg_valid by done.
  cbn [mbind option_bind M0_ASSERT f_container f_key]. split; [|f_equal; by apply fields_device].
  change M0_DIX_FID_DIX_CONTAINER_MASK with (Z.ones 32). change (ft_id m0_dix_fid_type) with 120.
  rewrite component_back by (done || unfold fields_ok in Hf; lia). by rewrite dix_valid.
Qed.

(** A fid of a registered type is valid. *)
Lemma fields_valid types t d l k : registered types t -> fields_ok t d l -> is_u64 k ->
  is_fid (M0_FID_INIT (fields t d l) k) /\ m0_fid_is_valid types (M0_FID_INIT (fields t d l) k) = Some true.
Proof.
  intros (ft & Hget & Hv) Hf Hk. split; [split; [by apply fields_u64|done]|].
  unfold m0_fid_is_valid, m0_fid_type_getfid, m0_fid_type_gethi, m0_fid_type_get. cbn [f_container].
  change (64 - 8) with 56. rewrite fields_type by done. rewrite Hget. cbn [mbind option_bind]. by rewrite Hv.
Qed.

(** * Properties *)

(** C36. The conversions between the fids of global objects and of component objects, and
    between those of indices and of component catalogues, respect the types of fids and
    lose nothing: a fid of the first type and a device number are converted to a valid
    fid of the second type, from which the fid and the number are got back; and each fid
    of the second type is converted to one of the first type, from which, with the
    device number it holds, it is got back. *)
Theorem fid_convert_typed types :
  registered types 71 -> registered types 67 -> registered types 120 -> registered types 84 ->
  (forall gob dev, is_fid gob -> m0_fid_validate_gob gob = true -> 0 <= dev <= M0_FID_DEVICE_ID_MAX ->
     exists cob, m0_fid_convert_gob2cob types gob dev = Some cob /\ is_fid cob /\
       m0_fid_validate_cob cob = true /\ m0_fid_is_valid types cob = Some true /\
       m0_fid_convert_cob2gob cob = Some gob /\ m0_fid_cob_device_id cob = Some dev) /\
  (forall cob, is_fid cob -> m0_fid_validate_cob cob = true ->
     exists gob dev, m0_fid_convert_cob2gob cob = Some gob /\ m0_fid_cob_device_id cob = Some dev /\
       is_fid gob /\ m0_fid_validate_gob gob = true /\ m0_fid_is_valid types gob = Some true /\
       0 <= dev <= M0_FID_DEVICE_ID_MAX /\ m0_fid_convert_gob2cob types gob dev = Some cob) /\
  (forall dix dev, is_fid dix -> m0_dix_fid_validate_dix dix = true -> 0 <= dev <= M0_DIX_FID_DEVICE_ID_MAX ->
     exists cctg, m0_dix_fid_convert_dix2cctg types dix dev = Some cctg /\ is_fid cctg /\
       m0_dix_fid_validate_cctg cctg = true /\ m0_fid_is_valid types cctg = Some true /\
       m0_dix_fid_convert_cctg2dix cctg = Some dix /\ m0_dix_fid_cctg_device_id cctg = Some dev) /\
  (forall cctg, is_fid cctg -> m0_dix_fid_validate_cctg cctg = true ->
     exists dix dev, m0_dix_fid_convert_cctg2dix cctg = Some dix /\ m0_dix_fid_cctg_device_id cctg = Some dev /\
       is_fid dix /\ m0_dix_fid_validate_dix dix = true /\ m0_fid_is_valid types dix = Some true /\
       0 <= dev <= M0_DIX_FID_DEVICE_ID_MAX /\ m0_dix_fid_convert_dix2cctg types dix dev = Some cctg).
Proof.
  intros R1 R2 R3 R4. change M0_FID_DEVICE_ID_MAX with (2 ^ 24 - 1). split_and!.
  - intros gob dev Hg (l & -> & Hf)%validate_gob_fields Hd; [|done]. destruct Hg as [_ Hk].
    assert (fields_ok 67 dev l) as Hf' by (unfold fields_ok in *; lia).
    destruct (cob2gob_fields l (f_key gob) dev Hf'), (fields_valid types 67 dev l (f_key gob) R2 Hf' Hk).
    eexists. split_and!; [by apply gob2cob_fields|..]; auto using cob_valid.
  - intros cob Hc (dev & l & -> & Hf)%validate_cob_fields; [|done]. destruct Hc as [_ Hk].
    assert (fields_ok 71 0 l) as Hf' by (unfold fields_ok in *; lia).
    destruct (cob2gob_fields l (f_key cob) dev Hf), (fields_valid types 71 0 l (f_key cob) R1 Hf' Hk).
    eexists _, dev. split_and!; eauto using gob_valid, gob2cob_fields; unfold fields_ok in Hf; lia.
  - intros dix dev Hg (l & -> & Hf)%validate_dix_fields Hd; [|done]. destruct Hg as [_ Hk].
    assert (fields_ok 84 dev l) as Hf' by (unfold fields_ok in *; lia).
    destruct (cctg2dix_fields l (f_key dix) dev Hf'), (fields_valid types 84 dev l (f_key dix) R4 Hf' Hk).
    eexists. split_and!; [by apply dix2cctg_fields|..]; auto using cctg_valid.
  - intros cctg Hc (dev & l & -> & Hf)%validate_cctg_fields; [|done]. destruct Hc as [_ Hk].
    assert (fields_ok 120 0 l) as Hf' by (unfold fields_ok in *; lia).
    destruct (cctg2dix_fields l (f_key cctg) dev Hf), (fields_valid types 120 0 l (f_key cctg) R3 Hf' Hk).
    eexists _, dev. split_and!; eauto using dix_valid, dix2cctg_fields; unfold fields_ok in Hf; lia.
Qed.

(** The table of the four types. *)
Definition convert_types : fid_types :=
  <[71%nat := Some m0_file_fid_type]> (<[67%nat := Some m0_cob_fid_type]>
  (<[120%nat := Some m0_dix_fid_type]> (<[84%nat := Some m0_cctg_fid_type]> (replicate 256 None)))).

Lemma fid_convert_typed_witness :
  exists cob cctg, m0_fid_convert_gob2cob convert_types (m0_fid_tset 71 0x1234 0x5678) 0xabcdef = Some cob /\
    m0_fid_convert_cob2gob cob = Some (m0_fid_tset 71 0x1234 0x5678) /\
    m0_dix_fid_convert_dix2cctg convert_types (m0_fid_tset 120 0x1234 0x5678) 7 = Some cctg /\
    m0_fid_is_valid convert_types cctg = Some true.
Proof.
  destruct (fid_convert_typed convert_types) as (H1 & _ & H2 & _);
    [exists m0_file_fid_type|exists m0_cob_fid_type|exists m0_dix_fid_type|exists m0_cctg_fid_type|]; try done.
  destruct (H1 (m0_fid_tset 71 0x1234 0x5678) 0xabcdef) as (cob & ? & _ & _ & _ & ? & _);
    [split; vm_compute; split; congruence|vm_compute; reflexivity|vm_compute; split; congruence|].
  destruct (H2 (m0_fid_tset 120 0x1234 0x5678) 7) as (cctg & ? & _ & _ & ? & _);
    [split; vm_compute; split; congruence|vm_compute; reflexivity|vm_compute; split; congruence|].
  exists cob, cctg. auto.
Defined.
