(* ===== verification/FdPerm.v ===== *)
(** * fd: permutation caches

    Models the part of src/fd/fd.c that generates the pseudo-random permutation
    of the children of a failure-domains tree node: struct m0_fd_perm_cache,
    m0_fd_perm_cache_init(), is_cache_valid(), fd_permute(), and the generation
    of a Lehmer code, which src/layout/pdclust.c repeats for tile columns. *)
From S2P Require Import Prelude LibArith Fid.

(** ** Definitions *)

(** "Generate permutation number in lexicographic ordering": fills a Lehmer code
    of length [len] from the generator state; [wrap] is the width of the
    elements of the code. *)
Definition lcode_fill (wrap : Z -> Z) (len : Z) (k : list Z) (rstate : Z) : option (list Z * Z) :=
  for_up 0 (u32 (len - 1)) (fun i '(k, rstate) =>
    '(v, rstate) ← m0_rnd (u32 (len - i)) rstate;
    k ← arr_set k i (wrap v);
    Some (k, rstate)) (k, rstate).

(** "Initialise PRNG". *)
Definition rstate_init (seed : m0_uint128) (gfid : m0_fid) (omega : Z) : Z :=
  Z.lxor (m0_hash (u64 (u_hi seed + f_key gfid)))
         (m0_hash (u64 (u64 (u_lo seed + omega) + f_container gfid))).

Record m0_fd_perm_cache := {
  fpc_omega : Z;
  fpc_gfid : m0_fid;
  fpc_len : Z;
  fpc_lcode : list Z;
  fpc_permute : list Z;
  fpc_inverse : list Z
}.

Definition is_cache_valid (cache : m0_fd_perm_cache) (omega : Z) (gfid : m0_fid) : bool :=
  (fpc_omega cache =? omega) && m0_fid_eq (fpc_gfid cache) gfid.

(** "Initialise columns array that will be permuted." *)
Definition identity_fill (len : Z) (permute : list Z) : option (list Z) :=
  for_up 0 len (fun i permute => arr_set permute i i) permute.

Definition fd_permute (cache : m0_fd_perm_cache) (seed : m0_uint128) (gfid : m0_fid) (omega : Z)
  : option m0_fd_perm_cache :=
  if negb (is_cache_valid cache omega gfid) then
    permute ← identity_fill (fpc_len cache) (fpc_permute cache);
    let rstate := rstate_init seed gfid omega in
    '(lcode, _) ← lcode_fill u64 (fpc_len cache) (fpc_lcode cache) rstate;
    '(permute, inverse) ← m0_permute (fpc_len cache) lcode permute (fpc_inverse cache);
    Some {| fpc_omega := omega; fpc_gfid := gfid; fpc_len := fpc_len cache;
            fpc_lcode := lcode; fpc_permute := permute; fpc_inverse := inverse |}
  else Some cache.

(** "upjumpandpumpim," *)
Notation M0_PDCLUST_SEED := [117; 112; 106; 117; 109; 112; 97; 110; 100; 112; 117; 109; 112; 105; 109;
  44] (only parsing).

(** The three arrays are allocated (zeroed) unless memory is short: [mem] says
    which of the three allocations succeed. Returns the code and the cache. *)
Definition m0_fd_perm_cache_init (mem : bool * bool * bool) (len : Z)
  : option (Z * option m0_fd_perm_cache) :=
  let '(mem_permute, mem_inverse, mem_lcode) := mem in
  if mem_permute && mem_inverse && mem_lcode then
    let zeros := replicate (Z.to_nat len) 0 in
    seed ← m0_uint128_init M0_PDCLUST_SEED;
    cache ← fd_permute
      {| fpc_omega := UINT64_MAX; fpc_gfid := m0_fid_set UINT64_MAX UINT64_MAX;
         fpc_len := u32 len; fpc_lcode := zeros; fpc_permute := zeros; fpc_inverse := zeros |}
      seed (m0_fid_set 0 0) 0;
    Some (0, Some cache)
  else Some (- ENOMEM, None).

(** ** Reference permutation *)

(** The Lehmer code drawn from a generator state: [n] draws, the [i]-th below
    [len - i]. *)
Fixpoint lcodes (n : nat) (max st : Z) : list Z :=
  match n with
  | O => []
  | S n => match m0_rnd max st with
           | Some (v, st) => v :: lcodes n (max - 1) st
           | None => []
           end
  end.

(** None of the [n] draws hits the excluded value of [m0_rnd]. *)
Fixpoint draws_ok (n : nat) (max st : Z) : bool :=
  match n with
  | O => true
  | S n => draw_ok max st && draws_ok n (max - 1) (rnd_next st)
  end.

(** The permutation of {0, ..., len - 1} a generator state determines. *)
Definition perm_of (len st : Z) : list Z :=
  lehmer (lcodes (Z.to_nat (len - 1)) len st) (seqZ 0 len).

Definition perm_ok (len st : Z) : bool := draws_ok (Z.to_nat (len - 1)) len st.

(** ** Lemmas *)

Lemma identity_fill_ok len l :
  0 <= len -> Z.of_nat (length l) = len -> identity_fill len l = Some (seqZ 0 len).
Proof.
  intros Hl Hlen. unfold identity_fill.
  destruct (for_up_total (fun i l' => exists rest, l' = seqZ 0 i ++ rest /\
    Z.of_nat (length l') = len) (fun i l => arr_set l i i) 0 len l) as (l' & -> & rest & -> & HL).
  - done.
  - by exists l.
  - intros i l' Hi (rest & -> & HL). rewrite length_app, length_seqZ in HL.
    destruct rest as [|x rest]; [simpl in HL; lia|].
    exists (seqZ 0 (i + 1) ++ rest). rewrite arr_set_middle by (rewrite length_seqZ; lia).
    rewrite seqZ_app by lia. rewrite <- app_assoc. split; [done|].
    exists rest. split; [by rewrite <- app_assoc|].
    rewrite !length_app, !length_seqZ. simpl in *. lia.
  - rewrite length_app, length_seqZ in HL.
    destruct rest; [by rewrite app_nil_r|simpl in HL; lia].
Qed.

Lemma lcodes_length n max st :
  Z.of_nat n < max < 2 ^ 48 -> length (lcodes n max st) = n.
Proof.
  revert max st. induction n as [|n IH]; intros max st H; [done|]. cbn [lcodes].
  destruct (m0_rnd_range max st) as (r & -> & _); [lia|]. simpl. rewrite IH; lia.
Qed.

Lemma lcodes_lookup n max st i ki :
  Z.of_nat n < max < 2 ^ 48 -> draws_ok n max st = true ->
  lcodes n max st !! i = Some ki -> 0 <= ki < max - Z.of_nat i.
Proof.
  revert max st i. induction n as [|n IH]; intros max st i H Hd; [done|].
  cbn [lcodes]. destruct (m0_rnd_range max st) as (r & -> & Hr & Htop & _); [lia|].
  cbn [draws_ok] in Hd. apply andb_true_iff in Hd as [Hd Hds].
  destruct i as [|i]; simpl.
  - intros [= <-]. assert (r <> max) by (intros ?%Htop; congruence). lia.
  - intros Hk. apply (IH (max - 1) (rnd_next st)) in Hk; [lia|lia|done].
Qed.

(** The loop writes the reference code into the first [len - 1] entries. *)
Lemma lcode_fill_ok wrap len k st :
  (forall x, 0 <= x <= len -> wrap x = x) ->
  0 < len < 2 ^ 32 -> Z.of_nat (length k) = len ->
  exists st', lcode_fill wrap len k st =
    Some (lcodes (Z.to_nat (len - 1)) len st ++ drop (Z.to_nat (len - 1)) k, st').
Proof.
  intros Hw Hlen Hk. unfold lcode_fill. rewrite u32_small by (unfold is_u32; lia).
  destruct (for_up_total (fun i '(k', st') =>
      exists done_, k' = done_ ++ drop (Z.to_nat i) k /\ Z.of_nat (length done_) = i /\
        lcodes (Z.to_nat (len - 1)) len st =
          done_ ++ lcodes (Z.to_nat (len - 1 - i)) (len - i) st')
    (fun i '(k, rstate) =>
      '(v, rstate) ← m0_rnd (u32 (len - i)) rstate;
      k ← arr_set k i (wrap v);
      Some (k, rstate)) 0 (len - 1) (k, st)) as ([k' st'] & -> & dn & -> & Hd & Heq).
  - lia.
  - exists []. rewrite !Z.sub_0_r. done.
  - intros i [k' st'] Hi (dn & -> & Hd & Heq).
    rewrite u32_small by (unfold is_u32; lia).
    destruct (m0_rnd_range (len - i) st') as (r & Hr & Hrb & _); [lia|].
    rewrite Hr. cbn [mbind option_bind]. rewrite (Hw r) by lia.
    destruct (lookup_lt_is_Some_2 k (Z.to_nat i)) as [x Hx]; [lia|].
    rewrite (drop_S _ _ _ Hx). rewrite arr_set_middle by lia. cbn [mbind option_bind].
    eexists. split; [done|]. exists (dn ++ [r]). split; [|split].
    + rewrite <- app_assoc. simpl. by replace (Z.to_nat (i + 1)) with (S (Z.to_nat i)) by lia.
    + rewrite length_app. simpl. lia.
    + rewrite Heq, <- app_assoc. f_equal.
      replace (Z.to_nat (len - 1 - i)) with (S (Z.to_nat (len - 1 - (i + 1)))) by lia.
      cbn [lcodes]. rewrite Hr. simpl. by replace (len - (i + 1)) with (len - i - 1) by lia.
  - exists st'. rewrite Heq. replace (Z.to_nat (len - 1 - (len - 1))) with O by lia.
    simpl. by rewrite app_nil_r.
Qed.

Lemma lcode_fill_valid len k st :
  0 < len < 2 ^ 32 -> Z.of_nat (length k) = len -> perm_ok len st = true ->
  lcode_ok len (lcodes (Z.to_nat (len - 1)) len st ++ drop (Z.to_nat (len - 1)) k).
Proof.
  intros Hlen Hk Hd i Hi.
  pose proof (lcodes_length (Z.to_nat (len - 1)) len st ltac:(lia)) as HL.
  destruct (lookup_lt_is_Some_2 (lcodes (Z.to_nat (len - 1)) len st) (Z.to_nat i)) as [ki Hki]; [lia|].
  exists ki. split.
  - apply arr_get_Some. split; [lia|]. rewrite lookup_app_l; [done|lia].
  - eapply lcodes_lookup in Hki; [lia|lia|done].
Qed.

Lemma is_perm_seqZ n : is_perm n (seqZ 0 n).
Proof. unfold is_perm. reflexivity. Qed.

(** Two arrays inverse to the same permutation are equal. *)
Lemma inverse_unique n s r r' :
  0 <= n -> Z.of_nat (length r) = n -> Z.of_nat (length r') = n ->
  inverse_of n s r -> inverse_of n s r' -> r = r'.
Proof.
  intros Hn Hr Hr' H1 H2. apply list_eq_same_length with (n := length r); [lia|lia|].
  intros i x y Hi Hx Hy.
  destruct (H1 (Z.of_nat i)) as (_ & y1 & _ & _ & _ & Hr1 & Hb1 & Hs1); [lia|].
  destruct (H2 (Z.of_nat i)) as (_ & y2 & _ & _ & _ & Hr2 & Hb2 & Hs2); [lia|].
  apply arr_get_Some in Hr1 as [_ Hr1], Hr2 as [_ Hr2]. rewrite Nat2Z.id in *.
  simplify_eq.
  destruct (H1 x Hb1) as (u & _ & Hu & _ & Hru & _). rewrite Hs1 in Hu. injection Hu as <-.
  destruct (H1 y Hb2) as (v & _ & Hv & _ & Hrv & _). rewrite Hs2 in Hv. injection Hv as <-.
  congruence.
Qed.

Lemma m0_fid_eq_true f g : m0_fid_eq f g = true <-> f = g.
Proof.
  unfold m0_fid_eq. rewrite andb_true_iff, !Z.eqb_eq. destruct f, g; simpl.
  split; [intros [-> ->]; done|intros [= -> ->]; done].
Qed.

(** Filling an array with the identity, drawing a Lehmer code and applying it
    yields the reference permutation and its inverse. *)
Lemma generate_ok wrap len k l r st :
  (forall x, 0 <= x <= len -> wrap x = x) ->
  0 < len < 2 ^ 32 -> perm_ok len st = true ->
  Z.of_nat (length k) = len -> Z.of_nat (length l) = len -> Z.of_nat (length r) = len ->
  exists k' s' r',
    (permute ← identity_fill len l;
     '(lcode, _) ← lcode_fill wrap len k st;
     '(permute, inverse) ← permute_with wrap len lcode permute r;
     Some (lcode, permute, inverse)) = Some (k', s', r') /\
    k' = lcodes (Z.to_nat (len - 1)) len st ++ drop (Z.to_nat (len - 1)) k /\
    s' = perm_of len st /\ is_perm len s' /\
    Z.of_nat (length r') = len /\ inverse_of len s' r'.
Proof.
  intros Hw Hlen Hok Hk Hl Hr. rewrite identity_fill_ok by (done || lia). cbn [mbind option_bind].
  destruct (lcode_fill_ok wrap len k st Hw Hlen Hk) as [st' ->]. cbn [mbind option_bind].
  set (k' := lcodes _ len st ++ _).
  destruct (permute_with_ok wrap len k' (seqZ 0 len) r) as (s & r' & -> & Hs & Hp & Hr' & Hi).
  - intros. apply Hw. lia.
  - lia.
  - by apply lcode_fill_valid.
  - apply is_perm_seqZ.
  - done.
  - cbn [mbind option_bind]. exists k', s, r'. split; [done|]. split; [done|].
    split; [|done]. rewrite Hs. unfold perm_of, k'.
    rewrite take_app_length' by (symmetry; apply lcodes_length; lia). done.
Qed.

Lemma perm_of_is_perm len st : 0 < len < 2 ^ 32 -> perm_ok len st = true -> is_perm len (perm_of len st).
Proof.
  intros Hlen Hok. set (z := replicate (Z.to_nat len) 0).
  assert (Z.of_nat (length z) = len) by (unfold z; rewrite length_replicate; lia).
  destruct (generate_ok u64 len z z z st) as (k & s & r & _ & _ & -> & Hp & _); try done.
  intros. apply u64_small. unfold is_u64. lia.
Qed.

(** A cache is well formed and holds a permutation with its inverse; it is the
    one of the recorded tile and file, unless it still holds the initial
    permutation, recorded for the null fid under a fixed seed. *)
Definition cache_inv (seed : m0_uint128) (cache : m0_fd_perm_cache) : Prop :=
  0 < fpc_len cache < 2 ^ 32 /\
  Z.of_nat (length (fpc_lcode cache)) = fpc_len cache /\
  Z.of_nat (length (fpc_inverse cache)) = fpc_len cache /\
  is_perm (fpc_len cache) (fpc_permute cache) /\
  inverse_of (fpc_len cache) (fpc_permute cache) (fpc_inverse cache) /\
  (m0_fid_is_set (fpc_gfid cache) = true ->
   fpc_permute cache =
     perm_of (fpc_len cache) (rstate_init seed (fpc_gfid cache) (fpc_omega cache))).

(** fd_permute() leaves in the cache the permutation of (file, tile), whatever
    the cache held before. *)
Lemma fd_permute_ok seed gfid omega cache :
  cache_inv seed cache -> m0_fid_is_set gfid = true ->
  perm_ok (fpc_len cache) (rstate_init seed gfid omega) = true ->
  exists cache', fd_permute cache seed gfid omega = Some cache' /\ cache_inv seed cache' /\
    fpc_len cache' = fpc_len cache /\
    fpc_permute cache' = perm_of (fpc_len cache) (rstate_init seed gfid omega).
Proof.
  intros (Hlen & Hk & Hr & Hp & Hi & Hc) Hset Hok. unfold fd_permute.
  destruct (is_cache_valid cache omega gfid) eqn:Hv; cbn [negb].
  - exists cache. unfold is_cache_valid in Hv. apply andb_true_iff in Hv as [Ho Hg].
    apply Z.eqb_eq in Ho. apply m0_fid_eq_true in Hg. subst.
    split; [done|]. split; [done|]. split; [done|]. by apply Hc.
  - pose proof (is_perm_length (fpc_len cache) _ ltac:(lia) Hp) as Hl.
    destruct (generate_ok u64 (fpc_len cache) (fpc_lcode cache) (fpc_permute cache)
      (fpc_inverse cache) (rstate_init seed gfid omega))
      as (k' & s' & r' & Hrun & Hk' & Hs' & Hp' & Hr' & Hi'); try done.
    { intros. apply u64_small. unfold is_u64. lia. }
    destruct (identity_fill _ _) as [p1|]; [|done]. cbn [mbind option_bind] in *.
    destruct (lcode_fill _ _ _ _) as [[k1 st1]|]; [|done]. cbn [mbind option_bind] in *.
    unfold m0_permute. destruct (permute_with _ _ _ _ _) as [[s1 r1]|]; [|done].
    cbn [mbind option_bind] in *. injection Hrun as -> -> ->.
    eexists. split; [done|]. split; [|done]. unfold cache_inv. simpl.
    split; [done|]. split; [|done]. rewrite Hk'.
    rewrite length_app, lcodes_length, length_drop by lia. lia.
Qed.

(** m0_fd_perm_cache_init() establishes the invariant for any seed. *)
Lemma m0_fd_perm_cache_init_ok seed len st0 :
  0 < len < 2 ^ 32 ->
  (s0 ← m0_uint128_init M0_PDCLUST_SEED; Some (rstate_init s0 (m0_fid_set 0 0) 0)) = Some st0 ->
  perm_ok len st0 = true ->
  exists cache, m0_fd_perm_cache_init (true, true, true) len = Some (0, Some cache) /\
    cache_inv seed cache /\ fpc_len cache = len.
Proof.
  intros Hlen Hst Hok. unfold m0_fd_perm_cache_init. cbn [andb].
  destruct (m0_uint128_init M0_PDCLUST_SEED) as [s0|]; [|done].
  cbn [mbind option_bind] in *. injection Hst as Hst.
  unfold fd_permute. cbn [fpc_len fpc_permute fpc_lcode fpc_inverse].
  rewrite u32_small by (unfold is_u32; lia).
  set (z := replicate (Z.to_nat len) 0).
  assert (Z.of_nat (length z) = len) as Hz by (unfold z; rewrite length_replicate; lia).
  assert (forall c, negb (is_cache_valid {| fpc_omega := UINT64_MAX; fpc_gfid := c; fpc_len := len;
    fpc_lcode := z; fpc_permute := z; fpc_inverse := z |} 0 (m0_fid_set 0 0)) = true) as ->
    by (intros; reflexivity).
  destruct (generate_ok u64 len z z z st0) as (k' & s' & r' & Hrun & Hk' & Hs' & Hp' & Hr' & Hi');
    try done.
  { intros. apply u64_small. unfold is_u64. lia. }
  destruct (identity_fill _ _) as [p1|]; [|done]. cbn [mbind option_bind] in *.
  rewrite Hst. destruct (lcode_fill _ _ _ _) as [[k1 st1]|]; [|done]. cbn [mbind option_bind] in *.
  unfold m0_permute. destruct (permute_with _ _ _ _ _) as [[s1 r1]|]; [|done].
  cbn [mbind option_bind] in *. injection Hrun as -> -> ->.
  eexists. split; [done|]. split; [|done]. unfold cache_inv. simpl.
  split; [done|]. split.
  { rewrite Hk', length_app, lcodes_length, length_drop by lia. lia. }
  split; [done|]. split; [done|]. split; [done|]. discriminate.
Qed.
