(* ===== verification/Pdclust.v ===== *)
(** * layout: parity de-clustered layouts

    Models src/layout/pdclust.c and what it uses of src/layout/layout.c: the
    layout object with its life cycle (allocate, populate, delete, build), and
    the layout instance with its tile cache, m0_pdclust_instance_map() and
    m0_pdclust_instance_inv(). *)
From S2P Require Import Prelude LibArith Fid FdPerm.

(** ** Data *)

Record m0_pdclust_attr := {
  pa_N : Z; pa_K : Z; pa_S : Z; pa_P : Z;
  pa_unit_size : Z;
  pa_seed : m0_uint128
}.

Inductive m0_pdclust_unit_type := M0_PUT_DATA | M0_PUT_PARITY | M0_PUT_SPARE.

(** The part of a layout domain a pdclust layout touches: whether the pdclust
    type is registered, the reference count of the type and the identifiers on
    the list of layouts. Identifiers on the list are unique, so looking a layout
    up by identifier stands for comparing addresses. *)
Record m0_layout_domain := {
  ld_registered : bool;
  lt_ref_count : Z;
  ld_layout_list : list Z
}.

(** struct m0_pdclust_layout with its embedded m0_striped_layout and m0_layout.
    [sl_enum] is the attached enumeration, given by its leo_nr(); [l_pver] the
    pool version, given by its ft_cache_info. *)
Record m0_pdclust_layout := {
  l_id : Z;
  l_ref : Z;
  l_user_count : Z;
  l_lock : bool;
  l_pver : option (list Z);
  sl_enum : option Z;
  pl_attr : m0_pdclust_attr;
  pl_C : Z;
  pl_L : Z
}.

Record tile_cache := {
  tc_tile_no : Z;
  tc_permute : list Z;
  tc_inverse : list Z;
  tc_lcode : list Z
}.

Record m0_pdclust_instance := {
  li_gfid : m0_fid;
  li_l : m0_pdclust_layout;
  pi_tile_cache : tile_cache;
  pi_perm_cache : list m0_fd_perm_cache
}.

Record m0_pdclust_src_addr := { sa_group : Z; sa_unit : Z }.

Record m0_pdclust_tgt_addr := { ta_frame : Z; ta_obj : Z }.

(** ** Attributes *)

(** The sum [pa_N + pa_K + pa_S] of three uint32_t. *)
Definition attr_size (a : m0_pdclust_attr) : Z := u32 (u32 (pa_N a + pa_K a) + pa_S a).

Definition m0_pdclust_attr_check (attr : m0_pdclust_attr) : bool :=
  ((0 <=? pa_S attr) && (pa_S attr <=? pa_K attr)) && (attr_size attr <=? pa_P attr).

Notation m0_pdclust_N pl := (pa_N (pl_attr pl)) (only parsing).

Notation m0_pdclust_K pl := (pa_K (pl_attr pl)) (only parsing).

Notation m0_pdclust_S pl := (pa_S (pl_attr pl)) (only parsing).

Notation m0_pdclust_P pl := (pa_P (pl_attr pl)) (only parsing).

Definition m0_pdclust_size (pl : m0_pdclust_layout) : Z :=
  u32 (u32 (m0_pdclust_N pl + m0_pdclust_K pl) + m0_pdclust_S pl).

Notation m0_pdclust_unit_size pl := (pa_unit_size (pl_attr pl)) (only parsing).

Notation m0_pdclust_is_replicated play := (pa_N (pl_attr play) =? 1) (only parsing).

(** The [int] argument is converted to [uint32_t] by the comparisons. *)
Definition m0_pdclust_unit_classify (pl : m0_pdclust_layout) (unit : Z) : m0_pdclust_unit_type :=
  if u32 unit <? pa_N (pl_attr pl) then M0_PUT_DATA
  else if u32 unit <? u32 (pa_N (pl_attr pl) + pa_K (pl_attr pl)) then M0_PUT_PARITY
  else M0_PUT_SPARE.

(** ** Life cycle of a layout *)

Definition layout_invariant_internal (dom : m0_layout_domain) (l : m0_pdclust_layout) : bool :=
  (0 <? l_id l) && ld_registered dom.

Definition m0_layout__allocated_invariant (dom : m0_layout_domain) (l : m0_pdclust_layout) : bool :=
  layout_invariant_internal dom l && (l_ref l =? 1) && (l_user_count l =? 0).

Definition m0_layout__invariant (dom : m0_layout_domain) (l : m0_pdclust_layout) : bool :=
  layout_invariant_internal dom l && (0 <=? l_ref l) && (0 <=? l_user_count l).

Definition m0_layout__striped_allocated_invariant (dom : m0_layout_domain) (l : m0_pdclust_layout)
  : bool :=
  match sl_enum l with None => true | Some _ => false end && m0_layout__allocated_invariant dom l.

Definition m0_layout__striped_invariant (dom : m0_layout_domain) (l : m0_pdclust_layout) : bool :=
  match sl_enum l with None => false | Some _ => true end && m0_layout__invariant dom l.

Definition pdclust_allocated_invariant (dom : m0_layout_domain) (pl : m0_pdclust_layout) : bool :=
  m0_layout__striped_allocated_invariant dom pl && l_lock pl.

Definition pdclust_invariant (dom : m0_layout_domain) (pl : m0_pdclust_layout) : bool :=
  let attr := pl_attr pl in
  m0_layout__striped_invariant dom pl &&
  (u32 (pl_C pl * attr_size attr) =? u32 (pl_L pl * pa_P attr)) &&
  match sl_enum pl with Some nr => nr =? pa_P attr | None => false end.

Definition layout_type_get (dom : m0_layout_domain) : option m0_layout_domain :=
  _ ← M0_ASSERT (ld_registered dom);
  _ ← M0_ASSERT (negb (u32 (lt_ref_count dom + 1) =? 0));
  Some {| ld_registered := ld_registered dom; lt_ref_count := lt_ref_count dom + 1;
          ld_layout_list := ld_layout_list dom |}.

Definition layout_type_put (dom : m0_layout_domain) : option m0_layout_domain :=
  _ ← M0_ASSERT (ld_registered dom);
  _ ← M0_ASSERT (negb (lt_ref_count dom =? 0));
  Some {| ld_registered := ld_registered dom; lt_ref_count := lt_ref_count dom - 1;
          ld_layout_list := ld_layout_list dom |}.

(** m0_layout__list_lookup() as the assertions use it. *)
Definition list_lookup (dom : m0_layout_domain) (lid : Z) : bool :=
  existsb (Z.eqb lid) (ld_layout_list dom).

Definition m0_layout_add (dom : m0_layout_domain) (lid : Z) : option m0_layout_domain :=
  _ ← M0_ASSERT (negb (list_lookup dom lid));
  Some {| ld_registered := ld_registered dom; lt_ref_count := lt_ref_count dom;
          ld_layout_list := lid :: ld_layout_list dom |}.

(** A zeroed structure, as M0_ALLOC_PTR() returns it. *)
Definition zero_attr : m0_pdclust_attr :=
  {| pa_N := 0; pa_K := 0; pa_S := 0; pa_P := 0; pa_unit_size := 0; pa_seed := M0_UINT128 0 0 |}.

(** m0_layout__striped_init() over m0_layout__init(). *)
Definition m0_layout__striped_init (dom : m0_layout_domain) (lid : Z)
  : option (m0_pdclust_layout * m0_layout_domain) :=
  _ ← M0_ASSERT (0 <? lid);
  dom ← layout_type_get dom;
  let stl := {| l_id := lid; l_ref := 1; l_user_count := 0; l_lock := false; l_pver := None;
                sl_enum := None; pl_attr := zero_attr; pl_C := 0; pl_L := 0 |} in
  _ ← M0_ASSERT (m0_layout__striped_allocated_invariant dom stl);
  Some (stl, dom).

Definition set_lock (b : bool) (pl : m0_pdclust_layout) : m0_pdclust_layout :=
  {| l_id := l_id pl; l_ref := l_ref pl; l_user_count := l_user_count pl; l_lock := b;
     l_pver := l_pver pl; sl_enum := sl_enum pl; pl_attr := pl_attr pl;
     pl_C := pl_C pl; pl_L := pl_L pl |}.

(** [mem] says whether the allocation succeeds. *)
Definition pdclust_allocate (mem : bool) (dom : m0_layout_domain) (lid : Z)
  : option (Z * option m0_pdclust_layout * m0_layout_domain) :=
  _ ← M0_ASSERT (0 <? lid);
  if negb mem then Some (- ENOMEM, None, dom)
  else
    '(pl, dom) ← m0_layout__striped_init dom lid;
    let pl := set_lock true pl in
    _ ← M0_ASSERT (pdclust_allocated_invariant dom pl);
    Some (0, Some pl, dom).

(** m0_layout__striped_delete(), m0_layout__delete() and
    m0_layout__fini_internal(); the object is freed. The list of the domain has
    identifiers here, and the assertion that the object itself is not on it is left out:
    only m0_layout_add() puts it there, after which it is not deleted. *)
Definition pdclust_delete (dom : m0_layout_domain) (pl : m0_pdclust_layout)
  : option m0_layout_domain :=
  _ ← M0_ASSERT (pdclust_allocated_invariant dom pl);
  _ ← M0_ASSERT (l_lock pl);
  let pl := set_lock false pl in
  _ ← M0_ASSERT (m0_layout__striped_allocated_invariant dom pl);
  _ ← M0_ASSERT (l_ref pl =? 1);
  _ ← M0_ASSERT (negb (l_lock pl));
  layout_type_put dom.

(** m0_layout__striped_populate() over m0_layout__populate(). *)
Definition m0_layout__striped_populate (dom : m0_layout_domain) (pl : m0_pdclust_layout)
    (le user_count : Z) : option (m0_pdclust_layout * m0_layout_domain) :=
  _ ← M0_ASSERT (m0_layout__striped_allocated_invariant dom pl);
  dom ← m0_layout_add dom (l_id pl);
  let pl := {| l_id := l_id pl; l_ref := l_ref pl; l_user_count := user_count;
               l_lock := l_lock pl; l_pver := l_pver pl; sl_enum := Some le;
               pl_attr := pl_attr pl; pl_C := pl_C pl; pl_L := pl_L pl |} in
  _ ← M0_ASSERT (m0_layout__striped_invariant dom pl);
  Some (pl, dom).

Definition pdclust_populate (dom : m0_layout_domain) (pl : m0_pdclust_layout)
    (attr : m0_pdclust_attr) (le user_count : Z)
  : option (Z * m0_pdclust_layout * m0_layout_domain) :=
  let P := pa_P attr in
  let NKS := attr_size attr in
  _ ← M0_ASSERT (pdclust_allocated_invariant dom pl);
  _ ← M0_ASSERT (l_lock pl);
  if P <? NKS then Some (- EPROTO, pl, dom)
  else
    '(pl, dom) ← m0_layout__striped_populate dom pl le user_count;
    g ← m0_gcd64 NKS P;
    B ← div_c (u32 (P * NKS)) g;
    let B := u32 B in
    C ← div_c B NKS;
    L ← div_c B P;
    let pl := {| l_id := l_id pl; l_ref := l_ref pl; l_user_count := l_user_count pl;
                 l_lock := l_lock pl; l_pver := l_pver pl; sl_enum := sl_enum pl;
                 pl_attr := attr; pl_C := C; pl_L := L |} in
    _ ← M0_ASSERT (pdclust_invariant dom pl);
    _ ← M0_ASSERT (l_lock pl);
    Some (0, pl, dom).

Definition m0_pdclust_build (mem : bool) (dom : m0_layout_domain) (lid : Z)
    (attr : m0_pdclust_attr) (le : Z)
  : option (Z * option m0_pdclust_layout * m0_layout_domain) :=
  '(rc, l, dom) ← pdclust_allocate mem dom lid;
  match l with
  | None => Some (rc, None, dom)
  | Some pl =>
      _ ← M0_ASSERT (pdclust_allocated_invariant dom pl);
      '(rc, pl, dom) ← pdclust_populate dom pl attr le 0;
      if rc =? 0 then
        let pl := set_lock false pl in
        _ ← M0_ASSERT (pdclust_invariant dom pl && negb (l_lock pl));
        Some (rc, Some pl, dom)
      else
        dom ← pdclust_delete dom pl;
        Some (rc, None, dom)
  end.

(** ** Mapping *)

Definition m_enc (width row column : Z) : option Z :=
  _ ← M0_ASSERT (column <? width);
  Some (u64 (row * width + column)).

Definition m_dec (width pos : Z) : option (Z * Z) :=
  row ← div_c pos width;
  column ← mod_c pos width;
  Some (row, column).

(** The loop of m0_permute() over 32-bit integers. *)
Definition permute : Z -> list Z -> list Z -> list Z -> option (list Z * list Z) :=
  permute_with u32.

Definition arr_is (l : list Z) (i v : Z) : bool :=
  match arr_get l i with Some x => x =? v | None => false end.

(** [tc_permute] and [tc_inverse] are mutually inverse bijections of
    {0, ..., P - 1}, for the code [tc_lcode]. *)
Definition tile_cache_invariant (P : Z) (tc : tile_cache) : bool :=
  m0_forall P (fun i =>
    match arr_get (tc_lcode tc) i, arr_get (tc_permute tc) i, arr_get (tc_inverse tc) i with
    | Some k, Some p, Some q =>
        (u32 (k + i) <? P) && ((p <? P) && (q <? P)) &&
        arr_is (tc_permute tc) q i && arr_is (tc_inverse tc) p i
    | _, _, _ => false
    end).

Section instance.
Context (types : fid_types) (dom : m0_layout_domain).

Definition m0_layout__instance_invariant (gfid : m0_fid) : bool :=
  match m0_fid_is_valid types gfid with Some b => b | None => false end.

Definition pdclust_instance_invariant (pi : m0_pdclust_instance) : bool :=
  m0_layout__instance_invariant (li_gfid pi) && pdclust_invariant dom (li_l pi) &&
  tile_cache_invariant (pa_P (pl_attr (li_l pi))) (pi_tile_cache pi).

(** "If cached values are for different tile, update the cache." *)
Definition tile_cache_update (attr : m0_pdclust_attr) (gfid : m0_fid) (omega : Z) (tc : tile_cache)
  : option tile_cache :=
  let P := pa_P attr in
  if negb (tc_tile_no tc =? omega) then
    columns ← identity_fill P (tc_permute tc);
    let rstate := rstate_init (pa_seed attr) gfid omega in
    '(lcode, _) ← lcode_fill u32 P (tc_lcode tc) rstate;
    '(columns, inverse) ← permute P lcode columns (tc_inverse tc);
    Some {| tc_tile_no := omega; tc_permute := columns; tc_inverse := inverse;
            tc_lcode := lcode |}
  else Some tc.

Definition permute_column (pi : m0_pdclust_instance) (omega t : Z)
  : option (Z * m0_pdclust_instance) :=
  let attr := pl_attr (li_l pi) in
  let gfid := li_gfid pi in
  let P := pa_P attr in
  _ ← M0_ASSERT (t <? P);
  tc ← tile_cache_update attr gfid omega (pi_tile_cache pi);
  p ← arr_get (tc_permute tc) t;
  _ ← M0_ASSERT (p <? P);
  _ ← M0_ASSERT (arr_is (tc_inverse tc) p t);
  q ← arr_get (tc_inverse tc) t;
  _ ← M0_ASSERT (arr_is (tc_permute tc) q t);
  Some (p, {| li_gfid := gfid; li_l := li_l pi; pi_tile_cache := tc;
              pi_perm_cache := pi_perm_cache pi |}).

Definition m0_pdclust_instance_map (pi : m0_pdclust_instance) (src : m0_pdclust_src_addr)
  : option (m0_pdclust_tgt_addr * m0_pdclust_instance) :=
  _ ← M0_ASSERT (pdclust_instance_invariant pi);
  let pl := li_l pi in
  '(omega, j) ← m_dec (pl_C pl) (sa_group src);
  e ← m_enc (attr_size (pl_attr pl)) j (sa_unit src);
  '(r, t) ← m_dec (pa_P (pl_attr pl)) e;
  '(obj, pi) ← permute_column pi omega t;
  frame ← m_enc (pl_L pl) omega r;
  Some ({| ta_frame := frame; ta_obj := obj |}, pi).

Definition m0_pdclust_instance_inv (pi : m0_pdclust_instance) (tgt : m0_pdclust_tgt_addr)
  : option (m0_pdclust_src_addr * m0_pdclust_instance) :=
  let pl := li_l pi in
  let t := ta_obj tgt in
  _ ← M0_ASSERT (pdclust_instance_invariant pi);
  '(omega, r) ← m_dec (pl_L pl) (ta_frame tgt);
  '(_, pi) ← permute_column pi omega t;
  t ← arr_get (tc_inverse (pi_tile_cache pi)) t;
  e ← m_enc (pa_P (pl_attr pl)) r t;
  '(j, unit) ← m_dec (attr_size (pl_attr pl)) e;
  group ← m_enc (pl_C pl) omega j;
  Some ({| sa_group := group; sa_unit := unit |}, pi).

End instance.

(** ** Reference layout *)

(** The tile permutation of a file. *)
Definition tile_perm (attr : m0_pdclust_attr) (gfid : m0_fid) (omega : Z) : list Z :=
  perm_of (pa_P attr) (rstate_init (pa_seed attr) gfid omega).

Definition tile_ok (attr : m0_pdclust_attr) (gfid : m0_fid) (omega : Z) : bool :=
  perm_ok (pa_P attr) (rstate_init (pa_seed attr) gfid omega).

(** A tile has [C] groups of [N + K + S] units, laid out in [L] frames of [P]
    units; all of it in exact arithmetic. *)
Definition geometry (attr : m0_pdclust_attr) (C L : Z) : Prop :=
  is_u32 (pa_P attr) /\ 0 < attr_size attr <= pa_P attr /\
  C * attr_size attr = L * pa_P attr /\ 0 < L <= C /\ C < 2 ^ 32 /\ L * pa_P attr < 2 ^ 32.

Definition tile_cache_ok (attr : m0_pdclust_attr) (gfid : m0_fid) (tc : tile_cache) : Prop :=
  Z.of_nat (length (tc_lcode tc)) = pa_P attr /\
  Z.of_nat (length (tc_inverse tc)) = pa_P attr /\
  (forall i k, arr_get (tc_lcode tc) i = Some k -> 0 <= k /\ k + i < pa_P attr) /\
  is_perm (pa_P attr) (tc_permute tc) /\
  inverse_of (pa_P attr) (tc_permute tc) (tc_inverse tc) /\
  tc_permute tc = tile_perm attr gfid (tc_tile_no tc).

(** The invariant of an instance in use. *)
Definition instance_ok (types : fid_types) (dom : m0_layout_domain) (pi : m0_pdclust_instance)
  : Prop :=
  geometry (pl_attr (li_l pi)) (pl_C (li_l pi)) (pl_L (li_l pi)) /\
  m0_layout__instance_invariant types (li_gfid pi) = true /\
  pdclust_invariant dom (li_l pi) = true /\
  tile_cache_ok (pl_attr (li_l pi)) (li_gfid pi) (pi_tile_cache pi).

Definition same_instance (pi pi' : m0_pdclust_instance) : Prop :=
  li_gfid pi' = li_gfid pi /\ li_l pi' = li_l pi /\ pi_perm_cache pi' = pi_perm_cache pi.

(** ** Lemmas: tile cache *)

Lemma m_enc_ok width row column :
  0 <= column < width -> 0 <= row -> row * width + column < 2 ^ 64 ->
  m_enc width row column = Some (row * width + column).
Proof. exact (m0_enc_ok width row column). Qed.

Lemma m_dec_ok width pos : width <> 0 -> m_dec width pos = Some (pos / width, pos mod width).
Proof. exact (m0_dec_ok width pos). Qed.

Lemma arr_is_true l i v : arr_is l i v = true <-> arr_get l i = Some v.
Proof.
  unfold arr_is. destruct (arr_get l i) as [x|]; [|done].
  rewrite Z.eqb_eq. split; [by intros ->|by intros [= ->]].
Qed.

Lemma tile_cache_ok_invariant attr gfid tc :
  is_u32 (pa_P attr) -> tile_cache_ok attr gfid tc -> tile_cache_invariant (pa_P attr) tc = true.
Proof.
  intros HP (Hk & Hi & Hlc & Hp & Hinv & _). apply m0_forall_true. intros i Hir.
  destruct (arr_get_is_Some (tc_lcode tc) i) as [k Hki]; [lia|].
  destruct (Hinv i Hir) as (x & y & -> & Hx & Hrx & -> & Hy & Hsy). rewrite Hki.
  destruct (Hlc i k Hki) as [Hk0 Hkb]. rewrite u32_small by (unfold is_u32 in *; lia).
  rewrite !andb_true_iff, !arr_is_true. repeat split; try done; lia.
Qed.

Lemma lcodes_bound len st k i ki :
  0 < len < 2 ^ 32 -> perm_ok len st = true -> Z.of_nat (length k) = len ->
  (forall i ki, arr_get k i = Some ki -> 0 <= ki /\ ki + i < len) ->
  arr_get (lcodes (Z.to_nat (len - 1)) len st ++ drop (Z.to_nat (len - 1)) k) i = Some ki ->
  0 <= ki /\ ki + i < len.
Proof.
  intros Hlen Hok Hk Hkb [Hi Hki]%arr_get_Some.
  pose proof (lcodes_length (Z.to_nat (len - 1)) len st ltac:(lia)) as HL.
  destruct (decide (Z.to_nat i < Z.to_nat (len - 1))%nat) as [Hlt|Hge].
  - rewrite lookup_app_l in Hki by lia. eapply lcodes_lookup in Hki; [lia|lia|done].
  - rewrite lookup_app_r, HL, lookup_drop in Hki by lia.
    replace (Z.to_nat (len - 1) + (Z.to_nat i - Z.to_nat (len - 1)))%nat with (Z.to_nat i) in Hki by lia.
    apply Hkb. by apply arr_get_Some.
Qed.

Definition tile_cache_shape (P : Z) (tc : tile_cache) : Prop :=
  Z.of_nat (length (tc_lcode tc)) = P /\ Z.of_nat (length (tc_permute tc)) = P /\
  Z.of_nat (length (tc_inverse tc)) = P /\
  (forall i k, arr_get (tc_lcode tc) i = Some k -> 0 <= k /\ k + i < P).

Lemma tile_cache_ok_shape attr gfid tc :
  0 < pa_P attr -> tile_cache_ok attr gfid tc -> tile_cache_shape (pa_P attr) tc.
Proof.
  intros HP (Hk & Hi & Hlc & Hp & _). split; [done|]. split; [|done].
  by apply is_perm_length.
Qed.

(** Moving the cache to another tile only needs arrays of the right size. *)
Lemma tile_cache_update_ok attr gfid omega tc :
  0 < pa_P attr < 2 ^ 32 -> tile_ok attr gfid omega = true ->
  tile_cache_shape (pa_P attr) tc ->
  (tc_tile_no tc = omega -> tile_cache_ok attr gfid tc) ->
  exists tc', tile_cache_update attr gfid omega tc = Some tc' /\ tc_tile_no tc' = omega /\
    tile_cache_ok attr gfid tc'.
Proof.
  intros HP Hok (Hk & Hp & Hi & Hlc) Hc. unfold tile_cache_update.
  destruct (Z.eqb_spec (tc_tile_no tc) omega) as [<-|Hne]; cbn [negb]; [by eauto|].
  destruct (generate_ok u32 (pa_P attr) (tc_lcode tc) (tc_permute tc) (tc_inverse tc)
    (rstate_init (pa_seed attr) gfid omega))
    as (k' & s' & r' & Hrun & Hk' & Hs' & Hp' & Hr' & Hi'); try done.
  { intros. apply u32_small. unfold is_u32. lia. }
  destruct (identity_fill _ _) as [p1|]; [|done]. cbn [mbind option_bind] in *.
  destruct (lcode_fill _ _ _ _) as [[k1 st1]|]; [|done]. cbn [mbind option_bind] in *.
  unfold permute. destruct (permute_with _ _ _ _ _) as [[s1 r1]|]; [|done].
  cbn [mbind option_bind] in *. injection Hrun as -> -> ->.
  eexists. split; [done|]. split; [done|]. unfold tile_cache_ok.
  cbn [tc_lcode tc_permute tc_inverse tc_tile_no].
  split; [rewrite Hk', length_app, lcodes_length, length_drop by lia; lia|].
  split; [done|]. split; [|done]. intros i ki. rewrite Hk'. by apply lcodes_bound.
Qed.

Section instance_lemmas.
Context (types : fid_types) (dom : m0_layout_domain).
Implicit Types (pi : m0_pdclust_instance).

Lemma instance_ok_invariant pi :
  instance_ok types dom pi -> pdclust_instance_invariant types dom pi = true.
Proof.
  intros (Hg & Hl & Hp & Hc). unfold pdclust_instance_invariant.
  rewrite Hl, Hp. simpl. eapply tile_cache_ok_invariant; [apply Hg|done].
Qed.

(** permute_column() fills the arrays of a new cache... *)
Lemma permute_column_fresh pi omega t :
  geometry (pl_attr (li_l pi)) (pl_C (li_l pi)) (pl_L (li_l pi)) ->
  m0_layout__instance_invariant types (li_gfid pi) = true ->
  pdclust_invariant dom (li_l pi) = true ->
  tile_cache_shape (pa_P (pl_attr (li_l pi))) (pi_tile_cache pi) ->
  (tc_tile_no (pi_tile_cache pi) = omega ->
   tile_cache_ok (pl_attr (li_l pi)) (li_gfid pi) (pi_tile_cache pi)) ->
  0 <= t < pa_P (pl_attr (li_l pi)) ->
  tile_ok (pl_attr (li_l pi)) (li_gfid pi) omega = true ->
  exists p pi', permute_column pi omega t = Some (p, pi') /\
    instance_ok types dom pi' /\ same_instance pi pi' /\
    tc_tile_no (pi_tile_cache pi') = omega /\
    arr_get (tile_perm (pl_attr (li_l pi)) (li_gfid pi) omega) t = Some p /\
    0 <= p < pa_P (pl_attr (li_l pi)).
Proof.
  intros Hg Hl Hpl Hshape Hc Ht Hok. unfold permute_column. assert_ok by lia.
  set (attr := pl_attr (li_l pi)) in *. set (gfid := li_gfid pi) in *.
  assert (0 < pa_P attr < 2 ^ 32) as HP by (destruct Hg as ([? ?] & ? & _); lia).
  destruct (tile_cache_update_ok attr gfid omega (pi_tile_cache pi))
    as (tc & Hrun & Hno & Htc); [done..|].
  run Hrun. pose proof Htc as (_ & _ & _ & _ & Hinv & Hperm).
  destruct (Hinv t Ht) as (x & y & Hx & Hxb & Hrx & Hy & Hyb & Hsy).
  run Hx. assert_ok by lia. assert_ok by (by apply arr_is_true).
  run Hy. assert_ok by (by apply arr_is_true).
  eexists x, _. split; [done|]. split; [done|]. split; [done|]. split; [done|].
  split; [by rewrite <- Hno, <- Hperm|done].
Qed.

(** ... and returns the column of the reference permutation, whatever tile the
    cache held. *)
Lemma permute_column_ok pi omega t :
  instance_ok types dom pi -> 0 <= t < pa_P (pl_attr (li_l pi)) ->
  tile_ok (pl_attr (li_l pi)) (li_gfid pi) omega = true ->
  exists p pi', permute_column pi omega t = Some (p, pi') /\
    instance_ok types dom pi' /\ same_instance pi pi' /\
    tc_tile_no (pi_tile_cache pi') = omega /\
    arr_get (tile_perm (pl_attr (li_l pi)) (li_gfid pi) omega) t = Some p /\
    0 <= p < pa_P (pl_attr (li_l pi)).
Proof.
  intros (Hg & Hl & Hpl & Hc) Ht Hok.
  apply permute_column_fresh; try done. eapply tile_cache_ok_shape; [lia|done].
Qed.

(** Within a tile, the [u]-th unit of the [j]-th group is in a frame of the
    tile not above [j]. *)
Lemma geometry_fwd attr C L j u :
  geometry attr C L -> 0 <= j < C -> 0 <= u < attr_size attr ->
  let e := j * attr_size attr + u in
  0 <= e < C * attr_size attr /\ e < 2 ^ 64 /\
  0 <= e / pa_P attr < L /\ e / pa_P attr <= j /\ 0 <= e mod pa_P attr < pa_P attr.
Proof.
  intros (HP & HG & HB & HL & HC & HBb) Hj Hu e. set (G := attr_size attr) in *.
  set (P := pa_P attr) in *. assert (0 <= e < C * G) as He by (unfold e; nia).
  split; [done|]. split; [lia|].
  assert (e / P < L) by (apply Z.div_lt_upper_bound; lia).
  assert (e / P < j + 1) by (apply Z.div_lt_upper_bound; [lia|unfold e; nia]).
  pose proof (Z.div_pos e P ltac:(lia) ltac:(lia)).
  pose proof (Z.mod_pos_bound e P ltac:(lia)). lia.
Qed.

Lemma geometry_bwd attr C L r t :
  geometry attr C L -> 0 <= r < L -> 0 <= t < pa_P attr ->
  let e := r * pa_P attr + t in
  0 <= e < C * attr_size attr /\ e < 2 ^ 64 /\
  0 <= e / attr_size attr < C /\ 0 <= e mod attr_size attr < attr_size attr.
Proof.
  intros (HP & HG & HB & HL & HC & HBb) Hr Ht e. set (G := attr_size attr) in *.
  set (P := pa_P attr) in *. assert (0 <= e < C * G) as He by (unfold e; nia).
  split; [done|]. split; [lia|].
  assert (e / G < C) by (apply Z.div_lt_upper_bound; lia).
  pose proof (Z.div_pos e G ltac:(lia) ltac:(lia)).
  pose proof (Z.mod_pos_bound e G ltac:(lia)). lia.
Qed.

(** What m0_pdclust_instance_map() computes. *)
Lemma instance_map_ok pi src :
  let attr := pl_attr (li_l pi) in
  let omega := sa_group src / pl_C (li_l pi) in
  let e := sa_group src mod pl_C (li_l pi) * attr_size attr + sa_unit src in
  instance_ok types dom pi -> is_u64 (sa_group src) -> 0 <= sa_unit src < attr_size attr ->
  tile_ok attr (li_gfid pi) omega = true ->
  exists obj pi', m0_pdclust_instance_map types dom pi src =
      Some ({| ta_frame := omega * pl_L (li_l pi) + e / pa_P attr; ta_obj := obj |}, pi') /\
    instance_ok types dom pi' /\ same_instance pi pi' /\ 0 <= obj < pa_P attr /\
    arr_get (tile_perm attr (li_gfid pi) omega) (e mod pa_P attr) = Some obj.
Proof.
  intros attr omega e Hpi Hg Hu Hok. pose proof Hpi as (Hgeo & _).
  pose proof Hgeo as (HP & HG & HB & HL & HC & HBb). fold attr in HP, HG, HB, HL, HC, HBb.
  set (C := pl_C (li_l pi)) in *. set (L := pl_L (li_l pi)) in *.
  pose proof (Z.mod_pos_bound (sa_group src) C ltac:(lia)) as Hj.
  destruct (geometry_fwd attr C L _ _ Hgeo Hj Hu) as (He & He64 & Hr & Hrj & Ht).
  fold e in He, He64, Hr, Hrj, Ht. destruct Hg as [Hg0 Hg64].
  pose proof (enc_dec (sa_group src) C ltac:(lia)) as Hdec. fold omega in Hdec.
  assert (0 <= omega) by (apply Z.div_pos; lia).
  unfold m0_pdclust_instance_map. fold attr C L.
  assert_ok by (by apply instance_ok_invariant). run m_dec_ok by lia. fold omega.
  run m_enc_ok by (unfold e in *; nia). fold e. run m_dec_ok by lia.
  destruct (permute_column_ok pi omega (e mod pa_P attr) Hpi Ht Hok)
    as (p & pi' & Hrun & Hpi' & Hsame & _ & Hp & Hpb).
  run Hrun. run m_enc_ok by nia. by exists p, pi'.
Qed.

(** What m0_pdclust_instance_inv() computes. *)
Lemma instance_inv_ok pi tgt t :
  let attr := pl_attr (li_l pi) in
  let omega := ta_frame tgt / pl_L (li_l pi) in
  let e := ta_frame tgt mod pl_L (li_l pi) * pa_P attr + t in
  instance_ok types dom pi -> is_u64 (ta_frame tgt) -> 0 <= ta_obj tgt < pa_P attr ->
  tile_ok attr (li_gfid pi) omega = true ->
  0 <= t < pa_P attr -> arr_get (tile_perm attr (li_gfid pi) omega) t = Some (ta_obj tgt) ->
  omega * pl_C (li_l pi) + e / attr_size attr < 2 ^ 64 ->
  exists pi', m0_pdclust_instance_inv types dom pi tgt =
      Some ({| sa_group := omega * pl_C (li_l pi) + e / attr_size attr;
               sa_unit := e mod attr_size attr |}, pi') /\
    instance_ok types dom pi' /\ same_instance pi pi'.
Proof.
  intros attr omega e Hpi Hf Ho Hok Ht Htp Hov. pose proof Hpi as (Hgeo & _).
  pose proof Hgeo as (HP & HG & HB & HL & HC & HBb). fold attr in HP, HG, HB, HL, HC, HBb.
  set (C := pl_C (li_l pi)) in *. set (L := pl_L (li_l pi)) in *.
  pose proof (Z.mod_pos_bound (ta_frame tgt) L ltac:(lia)) as Hr.
  destruct (geometry_bwd attr C L _ _ Hgeo Hr Ht) as (He & He64 & Hj & Hu).
  fold e in He, He64, Hj, Hu. destruct Hf as [Hf0 Hf64].
  assert (0 <= omega) by (apply Z.div_pos; lia).
  unfold m0_pdclust_instance_inv. fold attr C L.
  assert_ok by (by apply instance_ok_invariant). run m_dec_ok by lia. fold omega.
  destruct (permute_column_ok pi omega (ta_obj tgt) Hpi Ho Hok)
    as (p & pi' & Hrun & Hpi' & Hsame & Hno & _).
  run Hrun. destruct Hsame as (Hgf & Hl & Hpc). pose proof Hpi' as (_ & _ & _ & Hc').
  rewrite Hl, Hgf in Hc'. fold attr in Hc'. destruct Hc' as (_ & _ & _ & _ & Hinv & Hperm).
  destruct (Hinv t Ht) as (x & _ & Hx & _ & Hrx & _).
  rewrite Hperm, Hno, Htp in Hx. injection Hx as <-.
  run Hrx. run m_enc_ok by lia. fold e. run m_dec_ok by lia. run m_enc_ok by nia.
  by exists pi'.
Qed.

End instance_lemmas.

(** ** Lemmas: life cycle *)

(** The tile computed by pdclust_populate(), when the product fits 32 bits. *)
Lemma tile_dimensions P G :
  0 < G <= P -> P * G < 2 ^ 32 ->
  exists g, g = Z.gcd G P /\ 0 < g /\ m0_gcd64 G P = Some g /\
    P / g * g = P /\ G / g * g = G /\ 0 < G / g <= P / g /\
    P * G / g = P / g * G /\ P * G / g / G = P / g /\ P * G / g / P = G / g.
Proof.
  intros HG HB. set (g := Z.gcd G P). exists g.
  assert (0 < g) as Hg.
  { pose proof (Z.gcd_nonneg G P). assert (g <> 0); [|unfold g in *; lia].
    intros Hz%Z.gcd_eq_0_l. lia. }
  destruct (Z.gcd_divide_l G P) as [l Hl], (Z.gcd_divide_r G P) as [c Hc].
  fold g in Hl, Hc. pose proof (m0_gcd64_gcd G P ltac:(lia) ltac:(lia)) as Hrun. fold g in Hrun.
  split; [done|]. split; [done|]. split; [done|]. clear Hrun. clearbody g. subst G P.
  rewrite !Z.div_mul by lia.
  replace (c * g * (l * g)) with (c * (l * g) * g) by lia. rewrite Z.div_mul by lia.
  rewrite Z.div_mul by lia. replace (c * (l * g)) with (l * (c * g)) by lia.
  rewrite Z.div_mul by nia. repeat split; nia.
Qed.

Definition attr_range (a : m0_pdclust_attr) : Prop :=
  is_u32 (pa_N a) /\ is_u32 (pa_K a) /\ is_u32 (pa_S a) /\ is_u32 (pa_P a).

(** The freshly allocated layout. *)
Definition allocated (lid : Z) : m0_pdclust_layout :=
  {| l_id := lid; l_ref := 1; l_user_count := 0; l_lock := true; l_pver := None;
     sl_enum := None; pl_attr := zero_attr; pl_C := 0; pl_L := 0 |}.

Definition dom_refs (n : Z) (dom : m0_layout_domain) : m0_layout_domain :=
  {| ld_registered := ld_registered dom; lt_ref_count := lt_ref_count dom + n;
     ld_layout_list := ld_layout_list dom |}.

Lemma pdclust_allocate_ok dom lid :
  ld_registered dom = true -> 0 <= lt_ref_count dom < 2 ^ 32 - 1 -> 0 < lid ->
  pdclust_allocate true dom lid = Some (0, Some (allocated lid), dom_refs 1 dom) /\
  pdclust_allocated_invariant (dom_refs 1 dom) (allocated lid) = true.
Proof.
  intros Hr Hn Hl.
  assert (layout_type_get dom = Some (dom_refs 1 dom)) as Hget.
  { unfold layout_type_get. assert_ok by done.
    assert_ok by (rewrite u32_small by (unfold is_u32; lia); apply negb_true_iff, Z.eqb_neq; lia).
    done. }
  assert (forall b, m0_layout__striped_allocated_invariant (dom_refs 1 dom)
    (set_lock b (allocated lid)) = true) as Hinv.
  { intros b. unfold m0_layout__striped_allocated_invariant,
      m0_layout__allocated_invariant, layout_invariant_internal. cbn.
    rewrite Hr. by destruct (Z.ltb_spec 0 lid); [|lia]. }
  assert (pdclust_allocated_invariant (dom_refs 1 dom) (allocated lid) = true) as Halloc
    by (apply andb_true_iff; split; [apply (Hinv true)|done]).
  split; [|done]. unfold pdclust_allocate, m0_layout__striped_init.
  assert_ok by lia. cbn [negb]. run Hget.
  assert_ok by apply (Hinv false). assert_ok by done. done.
Qed.

Lemma pdclust_delete_ok dom lid :
  pdclust_allocated_invariant (dom_refs 1 dom) (allocated lid) = true ->
  0 <= lt_ref_count dom ->
  pdclust_delete (dom_refs 1 dom) (allocated lid) = Some dom.
Proof.
  intros Hinv Hn. pose proof Hinv as [Hs _]%andb_true_iff. unfold pdclust_delete.
  do 5 (assert_ok by done). unfold layout_type_put. assert (ld_registered dom = true) as Hr.
  { unfold m0_layout__striped_allocated_invariant, m0_layout__allocated_invariant,
      layout_invariant_internal in Hs. cbn in Hs. by boolp. }
  assert_ok by done. assert_ok by (cbn; apply negb_true_iff, Z.eqb_neq; lia).
  destruct dom; cbn. by rewrite Z.add_simpl_r.
Qed.

Definition populated (lid : Z) (attr : m0_pdclust_attr) (locked : bool) : m0_pdclust_layout :=
  {| l_id := lid; l_ref := 1; l_user_count := 0; l_lock := locked; l_pver := None;
     sl_enum := Some (pa_P attr); pl_attr := attr;
     pl_C := pa_P attr / Z.gcd (attr_size attr) (pa_P attr);
     pl_L := attr_size attr / Z.gcd (attr_size attr) (pa_P attr) |}.

Definition dom_add (lid : Z) (dom : m0_layout_domain) : m0_layout_domain :=
  {| ld_registered := ld_registered dom; lt_ref_count := lt_ref_count dom;
     ld_layout_list := lid :: ld_layout_list dom |}.

Lemma populated_geometry lid attr b :
  is_u32 (pa_P attr) -> 0 < attr_size attr <= pa_P attr -> pa_P attr * attr_size attr < 2 ^ 32 ->
  geometry attr (pl_C (populated lid attr b)) (pl_L (populated lid attr b)).
Proof.
  intros HP HG HB. cbn. destruct (tile_dimensions (pa_P attr) (attr_size attr) HG HB)
    as (g & -> & Hg & _ & H1 & H2 & H3 & _). unfold geometry, is_u32 in *.
  set (g := Z.gcd _ _) in *. repeat split; try lia; nia.
Qed.

Lemma populated_invariant dom lid attr b :
  is_u32 (pa_P attr) -> 0 < attr_size attr <= pa_P attr -> pa_P attr * attr_size attr < 2 ^ 32 ->
  ld_registered dom = true -> 0 < lid ->
  pdclust_invariant dom (populated lid attr b) = true.
Proof.
  intros HP HG HB Hr Hl. destruct (populated_geometry lid attr b HP HG HB) as (_ & _ & Heq & _).
  unfold pdclust_invariant, m0_layout__striped_invariant, m0_layout__invariant,
    layout_invariant_internal. cbn -[u32] in *.
  rewrite Hr, Heq, !Z.eqb_refl, (proj2 (Z.ltb_lt 0 lid) Hl). done.
Qed.

Lemma pdclust_populate_ok dom lid attr :
  ld_registered dom = true -> 0 < lid -> list_lookup dom lid = false ->
  is_u32 (pa_P attr) -> 0 < attr_size attr <= pa_P attr -> pa_P attr * attr_size attr < 2 ^ 32 ->
  pdclust_allocated_invariant (dom_refs 1 dom) (allocated lid) = true ->
  pdclust_populate (dom_refs 1 dom) (allocated lid) attr (pa_P attr) 0 =
    Some (0, populated lid attr true, dom_add lid (dom_refs 1 dom)).
Proof.
  intros Hreg Hlid Hlook HP HG HB Hinv. unfold pdclust_populate.
  assert_ok by assumption. assert_ok by done.
  destruct (Z.ltb_spec (pa_P attr) (attr_size attr)); [lia|].
  unfold m0_layout__striped_populate.
  assert_ok by (by apply andb_true_iff in Hinv as [? _]).
  unfold m0_layout_add. assert_ok by (by apply negb_true_iff).
  assert_ok by (unfold m0_layout__striped_invariant, m0_layout__invariant,
    layout_invariant_internal; cbn; rewrite Hreg, (proj2 (Z.ltb_lt 0 lid) Hlid); done).
  destruct (tile_dimensions _ _ HG HB) as (g & Hgdef & Hg & Hrun & H1 & H2 & H3 & H4 & H5 & H6).
  run Hrun. run div_c_ok by lia. rewrite (u32_small (_ * _)) by (unfold is_u32; nia).
  rewrite u32_small by (unfold is_u32; nia).
  run div_c_ok by lia. run div_c_ok by lia. rewrite H5, H6, Hgdef.
  cbn [allocated l_id l_ref l_lock l_pver l_user_count sl_enum].
  assert_ok by (by apply (populated_invariant (dom_add lid (dom_refs 1 dom)) lid attr true)).
  done.
Qed.

(** ** Properties *)

(** C20. A unit of a parity group maps to a frame of an existing target object,
    and mapping that frame back gives the unit: on every instance in use, the
    two functions run to completion from whatever tile the cache holds, are
    inverse to each other and keep the instance invariant. The only draws
    excluded are those on which m0_rnd() returns its excluded upper bound. *)
Theorem pdclust_map_inv_roundtrip types dom pi src :
  instance_ok types dom pi -> is_u64 (sa_group src) ->
  0 <= sa_unit src < attr_size (pl_attr (li_l pi)) ->
  tile_ok (pl_attr (li_l pi)) (li_gfid pi) (sa_group src / pl_C (li_l pi)) = true ->
  exists tgt pi' pi'',
    m0_pdclust_instance_map types dom pi src = Some (tgt, pi') /\ instance_ok types dom pi' /\
    is_u64 (ta_frame tgt) /\ 0 <= ta_obj tgt < pa_P (pl_attr (li_l pi)) /\
    m0_pdclust_instance_inv types dom pi' tgt = Some (src, pi'') /\ instance_ok types dom pi''.
Proof.
  intros Hpi Hg Hu Hok.
  destruct (instance_map_ok types dom pi src Hpi Hg Hu Hok)
    as (obj & pi' & Hmap & Hpi' & (Hgf & Hl & _) & Hob & Hperm).
  pose proof Hpi as (Hgeo & _). pose proof Hgeo as (HP & HG & HB & HL & HC & HBb).
  set (attr := pl_attr (li_l pi)) in *. set (C := pl_C (li_l pi)) in *.
  set (L := pl_L (li_l pi)) in *. set (omega := sa_group src / C) in *.
  pose proof (Z.mod_pos_bound (sa_group src) C ltac:(lia)) as Hj.
  destruct (geometry_fwd attr C L _ _ Hgeo Hj Hu) as (He & He64 & Hr & Hrj & Ht).
  set (e := sa_group src mod C * attr_size attr + sa_unit src) in *.
  pose proof (enc_dec (sa_group src) C ltac:(lia)) as Hdec. fold omega in Hdec.
  destruct Hg as [Hg0 Hg64]. assert (0 <= omega) by (apply Z.div_pos; lia).
  assert (is_u64 (omega * L + e / pa_P attr)) as Hframe by (unfold is_u64; nia).
  assert ((omega * L + e / pa_P attr) / L = omega) as Hd by (apply div_enc; lia).
  assert ((omega * L + e / pa_P attr) mod L = e / pa_P attr) as Hm by (apply mod_enc; lia).
  assert (e / pa_P attr * pa_P attr + e mod pa_P attr = e) as Hee by (apply enc_dec; lia).
  assert (e / attr_size attr = sa_group src mod C) as Hej by (apply div_enc; lia).
  assert (e mod attr_size attr = sa_unit src) as Heu by (apply mod_enc; lia).
  pose proof (instance_inv_ok types dom pi'
    {| ta_frame := omega * L + e / pa_P attr; ta_obj := obj |} (e mod pa_P attr)) as Hinv.
  cbv zeta in Hinv. rewrite Hl, Hgf in Hinv. cbn [ta_frame ta_obj] in Hinv. fold attr C L in Hinv.
  rewrite Hd, Hm, Hee, Hej, Heu, Hdec in Hinv.
  destruct Hinv as (pi'' & Hinv & Hpi'' & _); try assumption.
  exists {| ta_frame := omega * L + e / pa_P attr; ta_obj := obj |}, pi', pi''.
  destruct src. repeat (split; [assumption|]). assumption.
Qed.

(** ** A concrete instance *)

(** File fids are registered; a 4+2 layout with two spares over ten targets. *)
Definition example_types : fid_types := replicate 71 None ++ [Some m0_file_fid_type].

Definition example_dom : m0_layout_domain :=
  {| ld_registered := true; lt_ref_count := 1; ld_layout_list := [] |}.

Definition example_attr : m0_pdclust_attr :=
  {| pa_N := 4; pa_K := 2; pa_S := 2; pa_P := 10; pa_unit_size := 4096;
     pa_seed := M0_UINT128 42 43 |}.

Definition example_new : m0_pdclust_instance :=
  {| li_gfid := m0_fid_tset 71 1 10; li_l := populated 5 example_attr false;
     pi_tile_cache := {| tc_tile_no := 1; tc_permute := replicate 10 0;
                         tc_inverse := replicate 10 0; tc_lcode := replicate 10 0 |};
     pi_perm_cache := [] |}.

Definition example_instance : m0_pdclust_instance :=
  match permute_column example_new 0 0 with Some (_, pi) => pi | None => example_new end.

Lemma zeros_shape P : 0 < P ->
  tile_cache_shape P {| tc_tile_no := 1; tc_permute := replicate (Z.to_nat P) 0;
                        tc_inverse := replicate (Z.to_nat P) 0;
                        tc_lcode := replicate (Z.to_nat P) 0 |}.
Proof.
  intros HP. repeat split; cbn [tc_lcode tc_permute tc_inverse];
    try (rewrite length_replicate; lia).
  - apply arr_get_Some in H as [_ [-> _]%lookup_replicate]. lia.
  - apply arr_get_Some in H as [Hi [-> Hlt]%lookup_replicate]. lia.
Qed.

Lemma example_ok : instance_ok example_types example_dom example_instance.
Proof.
  assert (0 < attr_size example_attr <= pa_P example_attr) as HG by (vm_compute; split; congruence).
  assert (pa_P example_attr * attr_size example_attr < 2 ^ 32) as HB by (vm_compute; congruence).
  destruct (permute_column_fresh example_types example_dom example_new 0 0)
    as (p & pi' & Hrun & Hpi' & _).
  - apply populated_geometry; [split; vm_compute; congruence|done|done].
  - vm_compute. reflexivity.
  - apply populated_invariant; done.
  - apply (zeros_shape 10). lia.
  - discriminate.
  - split; vm_compute; congruence.
  - vm_compute. reflexivity.
  - unfold example_instance. by rewrite Hrun.
Qed.

Lemma pdclust_map_inv_roundtrip_witness :
  exists tgt pi' pi'',
    m0_pdclust_instance_map example_types example_dom example_instance
      {| sa_group := 17; sa_unit := 6 |} = Some (tgt, pi') /\
    m0_pdclust_instance_inv example_types example_dom pi' tgt =
      Some ({| sa_group := 17; sa_unit := 6 |}, pi'').
Proof.
  destruct (pdclust_map_inv_roundtrip example_types example_dom example_instance
    {| sa_group := 17; sa_unit := 6 |}) as (tgt & pi' & pi'' & H1 & _ & _ & _ & H2 & _).
  - exact example_ok.
  - split; vm_compute; congruence.
  - split; vm_compute; congruence.
  - vm_compute. reflexivity.
  - exists tgt, pi', pi''. split; assumption.
Defined.

(** C21. Conversely, every frame of every target object belongs to a unit of a
    parity group (as long as its group number fits 64 bits), and that unit maps
    to the frame: the layout wastes no frame. *)
Theorem pdclust_inv_map_roundtrip types dom pi tgt :
  instance_ok types dom pi -> is_u64 (ta_frame tgt) ->
  0 <= ta_obj tgt < pa_P (pl_attr (li_l pi)) ->
  (ta_frame tgt / pl_L (li_l pi) + 1) * pl_C (li_l pi) <= 2 ^ 64 ->
  tile_ok (pl_attr (li_l pi)) (li_gfid pi) (ta_frame tgt / pl_L (li_l pi)) = true ->
  exists src pi' pi'',
    m0_pdclust_instance_inv types dom pi tgt = Some (src, pi') /\ instance_ok types dom pi' /\
    is_u64 (sa_group src) /\ 0 <= sa_unit src < attr_size (pl_attr (li_l pi)) /\
    m0_pdclust_instance_map types dom pi' src = Some (tgt, pi'') /\ instance_ok types dom pi''.
Proof.
  intros Hpi Hf Ho Hov Hok. pose proof Hpi as (Hgeo & _).
  pose proof Hgeo as (HP & HG & HB & HL & HC & HBb).
  set (attr := pl_attr (li_l pi)) in *. set (C := pl_C (li_l pi)) in *.
  set (L := pl_L (li_l pi)) in *. set (omega := ta_frame tgt / L) in *.
  assert (is_perm (pa_P attr) (tile_perm attr (li_gfid pi) omega)) as Hp
    by (apply perm_of_is_perm; [unfold is_u32 in *; lia|assumption]).
  destruct (is_perm_surj _ _ _ Hp Ho) as (t & Ht & Htp).
  pose proof (Z.mod_pos_bound (ta_frame tgt) L ltac:(lia)) as Hr.
  destruct (geometry_bwd attr C L _ _ Hgeo Hr Ht) as (He & He64 & Hj & Hu).
  set (e := ta_frame tgt mod L * pa_P attr + t) in *.
  pose proof (enc_dec (ta_frame tgt) L ltac:(lia)) as Hdec. fold omega in Hdec.
  destruct Hf as [Hf0 Hf64]. assert (0 <= omega) by (apply Z.div_pos; lia).
  assert (is_u64 (omega * C + e / attr_size attr)) as Hgr by (unfold is_u64; nia).
  pose proof (instance_inv_ok types dom pi tgt t) as Hinv. cbv zeta in Hinv.
  fold attr L C omega e in Hinv.
  destruct Hinv as (pi' & Hinv & Hpi' & (Hgf & Hl & _)); try assumption;
    [by split|apply Hgr|].
  assert ((omega * C + e / attr_size attr) / C = omega) as Hd by (apply div_enc; lia).
  assert ((omega * C + e / attr_size attr) mod C = e / attr_size attr) as Hm by (apply mod_enc; lia).
  assert (e / attr_size attr * attr_size attr + e mod attr_size attr = e) as Hee
    by (apply enc_dec; lia).
  assert (e / pa_P attr = ta_frame tgt mod L) as Her by (apply div_enc; lia).
  assert (e mod pa_P attr = t) as Het by (apply mod_enc; lia).
  set (src := {| sa_group := omega * C + e / attr_size attr; sa_unit := e mod attr_size attr |}) in *.
  pose proof (instance_map_ok types dom pi' src) as Hmap. cbv zeta in Hmap.
  rewrite Hl, Hgf in Hmap. cbn [src sa_group sa_unit] in Hmap. fold attr C L src in Hmap.
  rewrite Hd, Hm, Hee, Her, Het, Hdec in Hmap.
  destruct Hmap as (obj & pi'' & Hmap & Hpi'' & _ & _ & Hobj); try assumption.
  rewrite Htp in Hobj. injection Hobj as <-.
  exists src, pi', pi''. destruct tgt. repeat (split; [assumption|]). assumption.
Qed.

Lemma pdclust_inv_map_roundtrip_witness :
  exists src pi' pi'',
    m0_pdclust_instance_inv example_types example_dom example_instance
      {| ta_frame := 23; ta_obj := 9 |} = Some (src, pi') /\
    m0_pdclust_instance_map example_types example_dom pi' src =
      Some ({| ta_frame := 23; ta_obj := 9 |}, pi'').
Proof.
  destruct (pdclust_inv_map_roundtrip example_types example_dom example_instance
    {| ta_frame := 23; ta_obj := 9 |}) as (src & pi' & pi'' & H1 & _ & _ & _ & H2 & _).
  - exact example_ok.
  - split; vm_compute; congruence.
  - split; vm_compute; congruence.
  - vm_compute. congruence.
  - vm_compute. reflexivity.
  - exists src, pi', pi''. split; assumption.
Defined.

(** C22. Fault isolation: two different units of one parity group are mapped to
    two different target objects, so losing one object loses at most one unit of
    any group. *)
Theorem pdclust_group_units_distinct types dom pi group u v :
  instance_ok types dom pi -> is_u64 group ->
  0 <= u < attr_size (pl_attr (li_l pi)) -> 0 <= v < attr_size (pl_attr (li_l pi)) -> u <> v ->
  tile_ok (pl_attr (li_l pi)) (li_gfid pi) (group / pl_C (li_l pi)) = true ->
  exists tu tv pi' pi'',
    m0_pdclust_instance_map types dom pi {| sa_group := group; sa_unit := u |} = Some (tu, pi') /\
    m0_pdclust_instance_map types dom pi' {| sa_group := group; sa_unit := v |} = Some (tv, pi'') /\
    ta_obj tu <> ta_obj tv.
Proof.
  intros Hpi Hg Hu Hv Huv Hok.
  destruct (instance_map_ok types dom pi {| sa_group := group; sa_unit := u |} Hpi Hg Hu Hok)
    as (o1 & pi' & H1 & Hpi' & (Hgf & Hl & _) & _ & Ho1).
  pose proof (instance_map_ok types dom pi' {| sa_group := group; sa_unit := v |}) as H2.
  cbv zeta in H2. rewrite Hl, Hgf in H2. cbn [sa_group sa_unit] in *.
  destruct H2 as (o2 & pi'' & H2 & _ & _ & _ & Ho2); try assumption.
  eexists _, _, pi', pi''. split; [exact H1|]. split; [exact H2|]. cbn [ta_obj]. intros <-.
  pose proof Hpi as ((HP & HG & _ & HL & _) & _).
  set (attr := pl_attr (li_l pi)) in *. set (j := group mod pl_C (li_l pi)) in *.
  assert (is_perm (pa_P attr) (tile_perm attr (li_gfid pi) (group / pl_C (li_l pi)))) as Hp
    by (apply perm_of_is_perm; [unfold is_u32 in *; lia|assumption]).
  pose proof (is_perm_inj _ _ _ _ _ Hp Ho1 Ho2) as Hmod.
  assert (forall x y, 0 <= x < attr_size attr -> 0 <= y < attr_size attr -> x < y ->
    (j * attr_size attr + x) mod pa_P attr <> (j * attr_size attr + y) mod pa_P attr) as Hne.
  { intros x y Hx Hy Hxy Heq. pose proof (mod_diff_lt (j * attr_size attr + x) (y - x) (pa_P attr)).
    replace (j * attr_size attr + x + (y - x)) with (j * attr_size attr + y) in * by lia. lia. }
  destruct (Z.lt_total u v) as [Hlt|[Heq|Hlt]]; [by apply (Hne u v)|done|].
  by apply (Hne v u).
Qed.

Lemma pdclust_group_units_distinct_witness :
  exists tu tv pi' pi'',
    m0_pdclust_instance_map example_types example_dom example_instance
      {| sa_group := 3; sa_unit := 1 |} = Some (tu, pi') /\
    m0_pdclust_instance_map example_types example_dom pi'
      {| sa_group := 3; sa_unit := 7 |} = Some (tv, pi'') /\
    ta_obj tu <> ta_obj tv.
Proof.
  apply (pdclust_group_units_distinct example_types example_dom example_instance 3 1 7).
  - exact example_ok.
  - split; vm_compute; congruence.
  - split; vm_compute; congruence.
  - split; vm_compute; congruence.
  - lia.
  - vm_compute. reflexivity.
Defined.

(** C23. m0_pdclust_build(): without memory or with more units in a group than
    target objects it fails with -ENOMEM or -EPROTO and leaves the domain as it
    was; otherwise (the product of the two fitting 32 bits) it returns an
    unlocked layout on the list of the domain, with one more reference on the
    type, whose tile is the least common multiple of the two dimensions. *)
Theorem m0_pdclust_build_spec dom lid attr :
  ld_registered dom = true -> 0 <= lt_ref_count dom < 2 ^ 32 - 1 -> 0 < lid ->
  list_lookup dom lid = false -> is_u32 (pa_P attr) -> 0 < attr_size attr ->
  m0_pdclust_build false dom lid attr (pa_P attr) = Some (- ENOMEM, None, dom) /\
  (pa_P attr < attr_size attr ->
   m0_pdclust_build true dom lid attr (pa_P attr) = Some (- EPROTO, None, dom)) /\
  (attr_size attr <= pa_P attr -> pa_P attr * attr_size attr < 2 ^ 32 ->
   exists pl, m0_pdclust_build true dom lid attr (pa_P attr) =
       Some (0, Some pl, dom_add lid (dom_refs 1 dom)) /\
     pl_attr pl = attr /\ geometry attr (pl_C pl) (pl_L pl) /\
     pl_C pl * attr_size attr = Z.lcm (pa_P attr) (attr_size attr) /\
     pdclust_invariant (dom_add lid (dom_refs 1 dom)) pl = true /\ l_lock pl = false).
Proof.
  intros Hreg Hrefs Hlid Hlook HP HG. unfold m0_pdclust_build.
  destruct (pdclust_allocate_ok dom lid Hreg Hrefs Hlid) as [Halloc Hinv].
  split; [|split].
  - unfold pdclust_allocate. assert_ok by lia. done.
  - intros Hbig. run Halloc. assert_ok by assumption. unfold pdclust_populate.
    assert_ok by assumption. assert_ok by done.
    rewrite (proj2 (Z.ltb_lt _ _) Hbig). cbn [mbind option_bind].
    change (- EPROTO =? 0) with false. cbv iota. run (pdclust_delete_ok dom lid Hinv) by lia. done.
  - intros Hle HB. run Halloc. assert_ok by assumption.
    run (pdclust_populate_ok dom lid attr Hreg Hlid Hlook HP (conj HG Hle) HB Hinv).
    change (0 =? 0) with true. cbv iota.
    assert_ok by (apply andb_true_iff; split; [by apply populated_invariant|done]).
    exists (populated lid attr false). split; [done|]. split; [done|].
    split; [by apply populated_geometry|]. split; [|split; [by apply populated_invariant|done]].
    destruct (tile_dimensions (pa_P attr) (attr_size attr) ltac:(lia) HB)
      as (g & -> & Hg & _ & H1 & H2 & _). cbn [populated pl_C].
    rewrite Z.lcm_comm. unfold Z.lcm. rewrite Z.abs_eq by nia. lia.
Qed.

Lemma m0_pdclust_build_spec_witness :
  m0_pdclust_build false example_dom 5 example_attr 10 = Some (- ENOMEM, None, example_dom) /\
  exists pl, m0_pdclust_build true example_dom 5 example_attr 10 =
      Some (0, Some pl, dom_add 5 (dom_refs 1 example_dom)) /\
    pl_C pl * attr_size example_attr = Z.lcm 10 8.
Proof.
  destruct (m0_pdclust_build_spec example_dom 5 example_attr) as (H1 & _ & H2).
  - reflexivity.
  - split; vm_compute; congruence.
  - lia.
  - reflexivity.
  - split; vm_compute; congruence.
  - vm_compute. reflexivity.
  - split; [exact H1|]. destruct H2 as (pl & Hb & _ & _ & Hl & _).
    + vm_compute. congruence.
    + vm_compute. reflexivity.
    + exists pl. split; [exact Hb|exact Hl].
Defined.

Definition wide_attr : m0_pdclust_attr :=
  {| pa_N := 65536; pa_K := 0; pa_S := 0; pa_P := 65536; pa_unit_size := 4096;
     pa_seed := M0_UINT128 42 43 |}.

(** The product of the tile dimensions is computed in 32 bits: attributes
    that m0_pdclust_attr_check() accepts and m0_pdclust_build() turns into a
    layout can give a tile without groups, on which every mapping divides by
    zero. *)
Theorem m0_pdclust_build_overflow :
  m0_pdclust_attr_check wide_attr = true /\
  exists pl dom', m0_pdclust_build true example_dom 5 wide_attr 65536 = Some (0, Some pl, dom') /\
    pl_C pl = 0 /\ pl_L pl = 0 /\
    forall types dom pi src, li_l pi = pl -> m0_pdclust_instance_map types dom pi src = None.
Proof.
  split; [vm_compute; reflexivity|].
  eexists _, _. split; [vm_compute; reflexivity|]. split; [reflexivity|]. split; [reflexivity|].
  intros types dom pi src Hl. unfold m0_pdclust_instance_map. rewrite Hl.
  destruct (pdclust_instance_invariant types dom pi); reflexivity.
Qed.
