(* ===== verification/FdTol.v ===== *)
(** * fd: the symmetric tree and its tolerance

    Models the part of src/fd/fd.c that extracts the symmetric tree of a pool
    version (symm_tree_attr_get()) and checks the feasibility of its tolerance
    vector (tolerance_check(), uniform_distribute(), units_calc(),
    m0_fd_tolerance_check()), and gives the reference arithmetic of indices of
    the symmetric tree: mixed-radix digits and their reversal. *)
From S2P Require Import Prelude LibArith Fid FdPerm Pdclust.

(** ** Data *)

Definition M0_CONF_PVER_HEIGHT : Z := 5.

Definition M0_CONF_PVER_LVL_DRIVES : Z := 4.

(** A pool version, with what the directory iterator and m0_conf_walk() show of
    its subtree: for each of the five levels, the objects in the order they are
    visited, each given by the length of its directory of children. *)
Record m0_conf_pver := {
  pvs_attr : m0_pdclust_attr;
  pvs_tolerance : list Z;
  pv_levels : list (list Z)
}.

(** ** The symmetric tree *)

Definition parity_group_size (la_attr : m0_pdclust_attr) : Z :=
  u32 (u32 (pa_N la_attr + pa_K la_attr) + pa_S la_attr).

(** m0_reduce() accumulates in the type of its initial value, [int] here; the
    sum is returned as [uint64_t]. *)
Definition pool_width_calc (children_nr : list Z) (depth : Z) : option Z :=
  _ ← for_up 0 depth (fun i _ => c ← arr_get children_nr i; M0_ASSERT (negb (c =? 0))) tt;
  accum ← for_up 0 depth (fun i accum =>
    c ← arr_get children_nr i; Some (i32 (u64 (accum * c)))) 1;
  Some (u64 accum).

(** objs_of_level_count() and min_children_get() under m0_conf_walk(). *)
Definition objs_of_level_count (pv : m0_conf_pver) (level : Z) : option Z :=
  objs ← arr_get (pv_levels pv) level;
  Some (fold_left (fun nr _ => u32 (nr + 1)) objs 0).

Definition min_children_get (pv : m0_conf_pver) (level : Z) : option Z :=
  objs ← arr_get (pv_levels pv) level;
  Some (fold_left (fun nr len =>
    if level =? M0_CONF_PVER_LVL_DRIVES then 0 else Z.min nr (u32 len)) objs UINT32_MAX).

(** "Get the first level having a non-zero tolerance." *)
Definition first_level_get (pv : m0_conf_pver) : option Z :=
  '(level, _) ← for_up 0 M0_CONF_PVER_HEIGHT (fun _ '(level, found) =>
    if (found : bool) then Some (level, found)
    else tol ← arr_get (pvs_tolerance pv) level;
         if tol =? 0 then Some (level + 1, false) else Some (level, true)) (0, false);
  Some (if level =? M0_CONF_PVER_HEIGHT then M0_CONF_PVER_LVL_DRIVES else level).

(** *** Tolerance *)

(** The table [units]: one array per level. *)
Definition units_get (units : list (list Z)) (level id : Z) : option Z :=
  row ← arr_get units level; arr_get row id.

Definition units_set (units : list (list Z)) (level id v : Z) : option (list (list Z)) :=
  row ← arr_get units level; row ← arr_set row id v; arr_set units level row.

Definition uniform_distribute (units : list (list Z)) (level parent_nr child_nr : Z)
  : option (list (list Z)) :=
  for_up 0 parent_nr (fun pid units =>
    u_nr ← units_get units (level - 1) pid;
    units ← for_up 0 child_nr (fun cid units =>
      q ← div_c u_nr child_nr;
      units_set units level (u64 (pid * child_nr + cid)) q) units;
    r ← mod_c u_nr child_nr;
    for_up 0 r (fun cid units =>
      let g_cid := u64 (pid * child_nr + cid) in
      q ← units_get units level g_cid;
      units_set units level g_cid (u64 (q + 1))) units) units.

(** Both loops also stop when [cnt] reaches [tol]. *)
Definition units_calc (units : list (list Z)) (level parent_nr child_nr tol : Z) : option Z :=
  '(sum, _) ← for_up 0 child_nr (fun cid s =>
    for_up 0 parent_nr (fun pid '(sum, cnt) =>
      if cnt <? tol then
        u ← units_get units level (u64 (pid * child_nr + cid));
        Some (u64 (sum + u), cnt + 1)
      else Some (sum, cnt)) s) (0, 0);
  Some sum.

(** Allocation of the table: [mem i] says whether the [i]-th allocation
    succeeds. An error leaves the number of the failed one in [failure_level]. *)
Definition units_alloc (mem : Z -> bool) (children_nr : list Z) (depth : Z)
  : option (Z + list (list Z)) :=
  '(res, _) ← for_up 0 (depth + 1) (fun i '(res, nodes) =>
    match res with
    | inl f => Some (inl f, nodes)
    | inr units =>
        _ ← M0_ASSERT (i <? M0_CONF_PVER_HEIGHT);
        if mem i then
          c ← arr_get children_nr i;
          Some (inr (units ++ [replicate (Z.to_nat nodes) 0]), u64 (nodes * c))
        else Some (inl i, nodes)
    end) (inr [], 1);
  Some res.

(** The loop over the levels: [Some level] is the first level, relative to the
    symmetric tree, whose tolerance cannot be met. *)
Definition tolerance_levels (pv : m0_conf_pver) (children_nr : list Z) (first_level depth K : Z)
    (units : list (list Z)) : option (option Z) :=
  '(res, _, _) ← for_up 1 depth (fun i '(res, nodes, units) =>
    match res with
    | Some l => Some (Some l, nodes, units)
    | None =>
        c ← arr_get children_nr (i - 1);
        units ← uniform_distribute units i nodes c;
        tol ← arr_get (pvs_tolerance pv) (first_level + i - 1);
        sum ← units_calc units i nodes c tol;
        if K <? sum then Some (Some i, nodes, units)
        else Some (None, u64 (nodes * c), units)
    end) (None, 1, units);
  Some res.

(** Returns the code and the new value of [failure_level]. *)
Definition tolerance_check (mem : Z -> bool) (pv : m0_conf_pver) (children_nr : list Z)
    (first_level failure_level : Z) : option (Z * Z) :=
  let depth := failure_level in
  let G := parity_group_size (pvs_attr pv) in
  let K := pa_K (pvs_attr pv) in
  units ← units_alloc mem children_nr depth;
  match units with
  | inl f => Some (- ENOMEM, f)
  | inr units =>
      units ← units_set units 0 0 G;
      res ← tolerance_levels pv children_nr first_level depth K units;
      Some match res with
           | Some i => (- EINVAL, first_level + i - 1)
           | None => (0, failure_level)
           end
  end.

(** Fills [children_nr] level by level; [true] when a level has a childless
    object. *)
Definition symm_tree_children (pv : m0_conf_pver) (pver_level depth : Z) (children_nr : list Z)
  : option (bool * list Z) :=
  for_up 1 depth (fun i '(bad, children_nr) =>
    if (bad : bool) then Some (bad, children_nr)
    else
      nr ← min_children_get pv (pver_level + i - 1);
      children_nr ← arr_set children_nr i nr;
      Some (nr =? 0, children_nr)) (false, children_nr).

(** Returns the code, [depth] and [children_nr]. *)
Definition symm_tree_attr_get (mem : Z -> bool) (pv : m0_conf_pver) (children_nr : list Z)
  : option (Z * Z * list Z) :=
  pver_level ← first_level_get pv;
  nr ← objs_of_level_count pv pver_level;
  let depth := M0_CONF_PVER_HEIGHT - pver_level in
  children_nr ← arr_set children_nr 0 nr;
  '(bad, children_nr) ← symm_tree_children pv pver_level depth children_nr;
  if (bad : bool) then Some (- EINVAL, depth, children_nr)
  else
    children_nr ← arr_set children_nr depth 1;
    tol ← arr_get (pvs_tolerance pv) M0_CONF_PVER_LVL_DRIVES;
    if 0 <? tol then
      '(rc, depth) ← tolerance_check mem pv children_nr pver_level depth;
      Some (rc, depth, children_nr)
    else Some (0, depth, children_nr).

Definition m0_fd_tolerance_check (mem : Z -> bool) (pv : m0_conf_pver) (children_nr : list Z)
  : option (Z * Z) :=
  '(rc, failure_level, _) ← symm_tree_attr_get mem pv children_nr;
  Some (rc, failure_level).

(** ** Reference: reversal of mixed-radix digits *)

Definition prodZ (cs : list Z) : Z := foldr Z.mul 1 cs.

(** The digits of [x], least significant first, in the radices [cs], read as a
    number whose most significant digit is the first. *)
Fixpoint rev_idx (cs : list Z) (x : Z) : Z :=
  match cs with
  | [] => 0
  | c :: cs => x mod c * prodZ cs + rev_idx cs (x / c)
  end.

Fixpoint unrev_idx (cs : list Z) (y : Z) : Z :=
  match cs with
  | [] => 0
  | c :: cs => y / prodZ cs + c * unrev_idx cs (y mod prodZ cs)
  end.

Definition positive (cs : list Z) : Prop := Forall (Z.lt 0) cs.

Lemma prodZ_cons c cs : prodZ (c :: cs) = c * prodZ cs.
Proof. done. Qed.

Lemma prodZ_pos cs : positive cs -> 0 < prodZ cs.
Proof. induction 1; [done|]. rewrite prodZ_cons. nia. Qed.

Lemma prodZ_app l1 l2 : prodZ (l1 ++ l2) = prodZ l1 * prodZ l2.
Proof. induction l1 as [|c l1 IH]; [symmetry; apply Z.mul_1_l|]. simpl app. rewrite !prodZ_cons, IH. lia. Qed.

Lemma rev_idx_range cs x : positive cs -> 0 <= rev_idx cs x < prodZ cs.
Proof.
  intros Hp. revert x. induction Hp as [|c cs Hc Hp IH]; intros x; [cbn; lia|].
  cbn [rev_idx]. rewrite prodZ_cons. specialize (IH (x / c)).
  pose proof (Z.mod_pos_bound x c ltac:(lia)). nia.
Qed.

Lemma unrev_idx_range cs y : positive cs -> 0 <= y < prodZ cs -> 0 <= unrev_idx cs y < prodZ cs.
Proof.
  intros Hp. revert y. induction Hp as [|c cs Hc Hp IH]; intros y Hy; [cbn in *; lia|].
  cbn [unrev_idx]. rewrite prodZ_cons in *. pose proof (prodZ_pos cs Hp).
  pose proof (Z.mod_pos_bound y (prodZ cs) ltac:(lia)) as Hm. specialize (IH _ Hm).
  assert (y / prodZ cs < c) by (apply Z.div_lt_upper_bound; lia).
  pose proof (Z.div_pos y (prodZ cs) ltac:(lia) ltac:(lia)). nia.
Qed.

Lemma unrev_rev_idx cs x : positive cs -> 0 <= x < prodZ cs -> unrev_idx cs (rev_idx cs x) = x.
Proof.
  intros Hp. revert x. induction Hp as [|c cs Hc Hp IH]; intros x Hx; [cbn in *; lia|].
  cbn [unrev_idx rev_idx]. rewrite prodZ_cons in Hx.
  pose proof (rev_idx_range cs (x / c) Hp).
  rewrite div_enc, mod_enc by done. rewrite IH.
  - pose proof (enc_dec x c ltac:(lia)). lia.
  - split; [apply Z.div_pos; lia|apply Z.div_lt_upper_bound; lia].
Qed.

Lemma rev_unrev_idx cs y : positive cs -> 0 <= y < prodZ cs -> rev_idx cs (unrev_idx cs y) = y.
Proof.
  intros Hp. revert y. induction Hp as [|c cs Hc Hp IH]; intros y Hy; [cbn in *; lia|].
  cbn [unrev_idx rev_idx]. rewrite prodZ_cons in Hy. pose proof (prodZ_pos cs Hp).
  pose proof (Z.mod_pos_bound y (prodZ cs) ltac:(lia)) as Hm.
  assert (0 <= y / prodZ cs < c).
  { split; [apply Z.div_pos; lia|apply Z.div_lt_upper_bound; lia]. }
  replace (y / prodZ cs + c * unrev_idx cs (y mod prodZ cs))
    with (unrev_idx cs (y mod prodZ cs) * c + y / prodZ cs) by lia.
  rewrite div_enc, mod_enc by done. rewrite IH by done.
  pose proof (enc_dec y (prodZ cs) ltac:(lia)). lia.
Qed.

(** Only the residue modulo the product matters. *)
Lemma rev_idx_mod cs x y : positive cs -> rev_idx cs (y * prodZ cs + x) = rev_idx cs x.
Proof.
  intros Hp. revert x y. induction Hp as [|c cs Hc Hp IH]; intros x y; [done|].
  cbn [rev_idx]. rewrite prodZ_cons.
  replace (y * (c * prodZ cs) + x) with (x + y * prodZ cs * c) by lia.
  rewrite Z_mod_plus_full, Z_div_plus_full by lia.
  by rewrite (Z.add_comm (x / c)), IH.
Qed.

(** Appending a least significant digit to an index of the tree. *)
Lemma unrev_idx_snoc cs c pid cid :
  positive cs -> 0 < c -> 0 <= cid < c -> 0 <= pid < prodZ cs ->
  unrev_idx (cs ++ [c]) (pid * c + cid) = unrev_idx cs pid + prodZ cs * cid.
Proof.
  intros Hp Hc Hcid. revert pid. induction Hp as [|d cs Hd Hp IH]; intros pid Hpid.
  { cbn [prodZ foldr] in Hpid. assert (pid = 0) as -> by lia. cbn [app unrev_idx prodZ foldr].
    rewrite Z.div_1_r. lia. }
  cbn [app unrev_idx]. rewrite prodZ_app, !prodZ_cons in *. pose proof (prodZ_pos cs Hp).
  change (prodZ []) with 1. rewrite Z.mul_1_r.
  pose proof (Z.mod_pos_bound pid (prodZ cs) ltac:(lia)) as Hm.
  replace (pid * c + cid) with (pid / prodZ cs * (prodZ cs * c) + (pid mod prodZ cs * c + cid))
    by (rewrite <- (enc_dec pid (prodZ cs)) at 3 by lia; lia).
  rewrite div_enc, mod_enc by nia. rewrite IH by lia. lia.
Qed.

(** ** Distribution of the units of a group *)

(** How many of [0, ..., n - 1] are congruent to [a] modulo [m]. *)
Definition cnt (m n a : Z) : Z := (n + m - 1 - a) / m.

Lemma cnt_split c u cid :
  0 < c -> 0 <= cid < c -> cnt c u cid = u / c + (if cid <? u mod c then 1 else 0).
Proof.
  intros Hc Hcid. unfold cnt. pose proof (Z.mod_pos_bound u c Hc).
  pose proof (enc_dec u c ltac:(lia)). destruct (Z.ltb_spec cid (u mod c)).
  - replace (u + c - 1 - cid) with ((u / c + 1) * c + (u mod c - 1 - cid)) by lia. apply div_enc. lia.
  - replace (u + c - 1 - cid) with (u / c * c + (u mod c + c - 1 - cid)) by lia.
    rewrite div_enc; lia.
Qed.

(** Distributing in two steps is distributing over the product. *)
Lemma cnt_cnt m c n a cid :
  0 < m -> 0 < c -> cnt c (cnt m n a) cid = cnt (m * c) n (a + m * cid).
Proof.
  intros Hm Hc. unfold cnt. rewrite <- Z.div_div by lia. f_equal.
  replace (n + m * c - 1 - (a + m * cid)) with (n + m - 1 - a + (c - 1 - cid) * m) by lia.
  rewrite Z.div_add by lia. lia.
Qed.

Lemma cnt_bound m n a : 0 < m -> 0 <= n -> 0 <= a < m -> 0 <= cnt m n a <= n.
Proof.
  intros Hm Hn Ha. unfold cnt. split; [apply Z.div_pos; lia|].
  apply Z.lt_succ_r, Z.div_lt_upper_bound; nia.
Qed.

Lemma cnt_antitone m n a b : 0 < m -> a <= b -> cnt m n b <= cnt m n a.
Proof. intros Hm Hab. apply Z.div_le_mono; lia. Qed.

(** What the children of a node with [u] units get. *)
Definition split_row (c u : Z) : list Z := (cnt c u) <$> seqZ 0 c.

Lemma fmap_seqZ_const {A} (f : Z -> A) v a n :
  (forall i, a <= i < a + n -> f i = v) -> f <$> seqZ a n = replicate (Z.to_nat n) v.
Proof.
  intros Hf. symmetry. apply replicate_as_Forall.
  split; [rewrite length_fmap, length_seqZ; done|].
  apply Forall_fmap, Forall_forall. intros i Hi%elem_of_seqZ. symmetry. apply Hf. lia.
Qed.

Lemma split_row_replicate c u :
  0 < c ->
  replicate (Z.to_nat (u mod c)) (u / c + 1) ++ replicate (Z.to_nat (c - u mod c)) (u / c) =
  split_row c u.
Proof.
  intros Hc. pose proof (Z.mod_pos_bound u c Hc) as Hm. unfold split_row.
  transitivity (cnt c u <$> seqZ 0 (u mod c + (c - u mod c))); [|f_equal; f_equal; lia].
  rewrite seqZ_app, fmap_app by lia.
  rewrite (fmap_seqZ_const _ (u / c + 1)), (fmap_seqZ_const _ (u / c)); [done|..];
    intros i Hi; rewrite cnt_split by lia; destruct (Z.ltb_spec i (u mod c)); lia.
Qed.

(** The table with row [level] replaced. *)
Lemma units_get_row units level row id :
  0 <= level < Z.of_nat (length units) ->
  units_get (<[Z.to_nat level := row]> units) level id = arr_get row id.
Proof. intros Hl. unfold units_get. rewrite arr_get_insert by done. by rewrite Z.eqb_refl. Qed.

Lemma units_get_other units level level' row id :
  0 <= level < Z.of_nat (length units) -> level <> level' ->
  units_get (<[Z.to_nat level := row]> units) level' id = units_get units level' id.
Proof.
  intros Hl Hne. unfold units_get. rewrite arr_get_insert by done.
  by destruct (Z.eqb_spec level level').
Qed.

Lemma units_set_row units level row id v row' :
  0 <= level < Z.of_nat (length units) -> arr_set row id v = Some row' ->
  units_set (<[Z.to_nat level := row]> units) level id v = Some (<[Z.to_nat level := row']> units).
Proof.
  intros Hl Hset. unfold units_set. rewrite arr_get_insert by done. rewrite Z.eqb_refl.
  cbn [mbind option_bind]. run Hset. rewrite arr_set_ok by (rewrite length_insert; done).
  by rewrite list_insert_insert_eq.
Qed.

Section distribute.
Context (units : list (list Z)) (level c : Z).
Hypothesis Hlevel : 0 <= level < Z.of_nat (length units).
Hypothesis Hc : 0 < c.

(** The two inner loops of uniform_distribute(), for one parent. *)
Lemma distribute_parent pre mid post pid u :
  Z.of_nat (length pre) = pid * c -> Z.of_nat (length mid) = c -> 0 <= pid ->
  (pid + 1) * c <= 2 ^ 64 -> 0 <= u < 2 ^ 64 - 1 ->
  (units ← for_up 0 c (fun cid units =>
     q ← div_c u c; units_set units level (u64 (pid * c + cid)) q)
     (<[Z.to_nat level := pre ++ mid ++ post]> units);
   r ← mod_c u c;
   for_up 0 r (fun cid units =>
     let g_cid := u64 (pid * c + cid) in
     q ← units_get units level g_cid;
     units_set units level g_cid (u64 (q + 1))) units) =
  Some (<[Z.to_nat level := pre ++ split_row c u ++ post]> units).
Proof.
  intros Hpre Hmid Hpid Hb Hu.
  destruct (for_up_total (fun cid us => exists rest, Z.of_nat (length rest) = c - cid /\
      us = <[Z.to_nat level := pre ++ (replicate (Z.to_nat cid) (u / c) ++ rest) ++ post]> units)
    (fun cid units => q ← div_c u c; units_set units level (u64 (pid * c + cid)) q) 0 c
    (<[Z.to_nat level := pre ++ mid ++ post]> units)) as (us & Hrun & rest & Hr & ->).
  - lia.
  - exists mid. split; [lia|done].
  - intros cid us Hcid (rest & Hrest & ->). destruct rest as [|x rest]; [simpl in Hrest; lia|].
    run div_c_ok by lia. rewrite u64_small by (unfold is_u64; nia).
    eexists. split.
    + apply units_set_row; [done|].
      rewrite <- !app_assoc, (app_assoc pre). cbn [app]. apply arr_set_middle.
      rewrite length_app, length_replicate. lia.
    + exists rest. split; [simpl in Hrest; lia|]. replace (Z.to_nat (cid + 1)) with (S (Z.to_nat cid)) by lia.
      by rewrite replicate_S_end, <- !app_assoc.
  - run Hrun. destruct rest; [|simpl in Hr; lia]. rewrite app_nil_r. run mod_c_ok by lia.
    pose proof (Z.mod_pos_bound u c Hc) as Hm. set (r := u mod c) in *.
    destruct (for_up_total (fun cid us =>
        us = <[Z.to_nat level := pre ++ (replicate (Z.to_nat cid) (u / c + 1) ++
               replicate (Z.to_nat (c - cid)) (u / c)) ++ post]> units)
      (fun cid units => q ← units_get units level (u64 (pid * c + cid));
        units_set units level (u64 (pid * c + cid)) (u64 (q + 1))) 0 r
      (<[Z.to_nat level := pre ++ replicate (Z.to_nat c) (u / c) ++ post]> units)) as (us & -> & ->).
    + lia.
    + by rewrite Z.sub_0_r.
    + intros cid us Hcid ->. rewrite u64_small by (unfold is_u64; nia).
      replace (Z.to_nat (c - cid)) with (S (Z.to_nat (c - (cid + 1)))) by lia.
      rewrite units_get_row by done. cbn [replicate]. rewrite <- !app_assoc, (app_assoc pre). cbn [app].
      run arr_get_middle by (rewrite length_app, length_replicate; lia).
      eexists. split.
      * apply units_set_row; [done|]. apply arr_set_middle. rewrite length_app, length_replicate. lia.
      * replace (Z.to_nat (cid + 1)) with (S (Z.to_nat cid)) by lia.
        assert (u / c <= u) by (apply Z.div_le_upper_bound; nia).
        pose proof (Z.div_pos u c ltac:(lia) ltac:(lia)).
        rewrite u64_small by (unfold is_u64; lia).
        by rewrite replicate_S_end, <- !app_assoc.
    + f_equal. f_equal. f_equal. f_equal. by apply split_row_replicate.
Qed.

End distribute.

(** The next row of the table. *)
Definition next_row (c : Z) (prow : list Z) : list Z := mjoin (split_row c <$> prow).

Lemma next_row_app c l1 l2 : next_row c (l1 ++ l2) = next_row c l1 ++ next_row c l2.
Proof. unfold next_row. by rewrite fmap_app, join_app. Qed.

Lemma length_split_row c u : 0 < c -> Z.of_nat (length (split_row c u)) = c.
Proof. intros Hc. unfold split_row. rewrite length_fmap, length_seqZ. lia. Qed.

Lemma length_next_row c prow :
  0 < c -> Z.of_nat (length (next_row c prow)) = Z.of_nat (length prow) * c.
Proof.
  intros Hc. induction prow as [|u prow IH]; [done|].
  change (next_row c (u :: prow)) with (split_row c u ++ next_row c prow).
  rewrite length_app, Nat2Z.inj_add, IH, length_split_row by done. simpl length. lia.
Qed.

Lemma lookup_next_row c prow pid cid u :
  0 < c -> 0 <= cid < c -> arr_get prow pid = Some u ->
  arr_get (next_row c prow) (pid * c + cid) = Some (cnt c u cid).
Proof.
  intros Hc Hcid Hu. pose proof (arr_get_range _ _ _ Hu) as Hr.
  destruct (arr_split prow pid Hr) as (l1 & x & l2 & -> & Hl1).
  rewrite arr_get_middle in Hu by done. injection Hu as ->.
  rewrite next_row_app. change (next_row c (u :: l2)) with (split_row c u ++ next_row c l2).
  apply arr_get_Some. split; [nia|].
  pose proof (length_next_row c l1 Hc). pose proof (length_split_row c u Hc).
  rewrite lookup_app_r, lookup_app_l by nia. unfold split_row. rewrite list_lookup_fmap.
  rewrite lookup_seqZ_lt by nia. cbn. f_equal. f_equal. nia.
Qed.

Lemma uniform_distribute_ok units level c prow row :
  1 <= level < Z.of_nat (length units) -> 0 < c ->
  arr_get units (level - 1) = Some prow -> arr_get units level = Some row ->
  Z.of_nat (length row) = Z.of_nat (length prow) * c -> Z.of_nat (length prow) * c <= 2 ^ 64 ->
  Forall (fun u => 0 <= u < 2 ^ 64 - 1) prow ->
  uniform_distribute units level (Z.of_nat (length prow)) c =
    Some (<[Z.to_nat level := next_row c prow]> units).
Proof.
  intros Hl Hc Hprow Hrow Hlen Hb Hu. unfold uniform_distribute.
  match goal with |- for_up _ _ ?f _ = _ => set (body := f) end.
  destruct (for_up_total (fun pid us =>
      us = <[Z.to_nat level := next_row c (take (Z.to_nat pid) prow) ++ drop (Z.to_nat (pid * c)) row]> units)
    body 0 (Z.of_nat (length prow)) units) as (us & -> & ->).
  - lia.
  - rewrite take_0. cbn. rewrite drop_0. symmetry. apply list_insert_id.
    apply arr_get_Some in Hrow as [_ Hrow]. done.
  - intros pid us Hpid ->. unfold body.
    destruct (arr_get_is_Some prow pid Hpid) as [u Hu'].
    pose proof Hu' as [_ Hu2]%arr_get_Some. pose proof (Forall_lookup_1 _ _ _ _ Hu Hu2) as Hub.
    assert (units_get units (level - 1) pid = Some u) as Hug by (unfold units_get; run Hprow; done).
    rewrite units_get_other by lia. run Hug.
    assert (Z.of_nat (length (next_row c (take (Z.to_nat pid) prow))) = pid * c) as Hpre
      by (rewrite length_next_row, length_take by done; lia).
    rewrite <- (take_drop (Z.to_nat c) (drop (Z.to_nat (pid * c)) row)).
    eexists. split.
    + apply (distribute_parent units level c); try done; [lia| |lia|nia].
      rewrite length_take, length_drop. nia.
    + replace (Z.to_nat (pid + 1)) with (S (Z.to_nat pid)) by lia.
      rewrite (take_S_r _ _ _ Hu2), next_row_app, drop_drop.
      replace (Z.to_nat (pid * c) + Z.to_nat c)%nat with (Z.to_nat ((pid + 1) * c)) by nia.
      rewrite <- app_assoc. f_equal. f_equal. f_equal. unfold next_row. cbn. by rewrite app_nil_r.
  - rewrite Nat2Z.id, take_ge by lia. rewrite drop_ge by lia. by rewrite app_nil_r.
Qed.

(** The row of a level: the node with index [b] holds the units whose number is
    congruent to the reversed index. *)
Definition level_row (cs : list Z) (G : Z) (row : list Z) : Prop :=
  Z.of_nat (length row) = prodZ cs /\
  forall b, 0 <= b < prodZ cs -> arr_get row b = Some (cnt (prodZ cs) G (unrev_idx cs b)).

Lemma level_row_next cs c G row :
  positive cs -> 0 < c -> level_row cs G row -> level_row (cs ++ [c]) G (next_row c row).
Proof.
  intros Hp Hc [Hlen Hget]. pose proof (prodZ_pos cs Hp).
  assert (prodZ (cs ++ [c]) = prodZ cs * c) as Hprod
    by (rewrite prodZ_app, prodZ_cons; change (prodZ []) with 1; lia).
  split; [by rewrite length_next_row, Hlen, Hprod|]. rewrite Hprod. intros b Hb.
  pose proof (enc_dec b c ltac:(lia)) as Hdec. pose proof (Z.mod_pos_bound b c Hc) as Hm.
  assert (0 <= b / c < prodZ cs) as Hd
    by (split; [apply Z.div_pos; lia|apply Z.div_lt_upper_bound; lia]).
  rewrite <- Hdec at 1. erewrite lookup_next_row; [|done|done|by apply Hget].
  f_equal. rewrite cnt_cnt by done. rewrite <- Hdec at 3. by rewrite unrev_idx_snoc.
Qed.

Lemma level_row_small cs G row :
  positive cs -> 0 <= G < 2 ^ 32 -> level_row cs G row ->
  Forall (fun u => 0 <= u < 2 ^ 32) row.
Proof.
  intros Hp HG [Hlen Hget]. apply Forall_lookup. intros i u Hi.
  pose proof (lookup_lt_Some _ _ _ Hi). pose proof (prodZ_pos cs Hp).
  specialize (Hget (Z.of_nat i) ltac:(lia)). apply arr_get_Some in Hget as [_ Hget].
  rewrite Nat2Z.id, Hi in Hget. injection Hget as ->.
  pose proof (unrev_idx_range cs (Z.of_nat i) Hp ltac:(lia)).
  pose proof (cnt_bound (prodZ cs) G (unrev_idx cs (Z.of_nat i))). lia.
Qed.

(** ** The sum of the units of the first nodes visited *)

Definition sumZ (l : list Z) : Z := foldr Z.add 0 l.

Lemma sumZ_app l1 l2 : sumZ (l1 ++ l2) = sumZ l1 + sumZ l2.
Proof.
  induction l1 as [|x l1 IH]; [done|].
  change (x + sumZ (l1 ++ l2) = x + sumZ l1 + sumZ l2). lia.
Qed.

Lemma sumZ_bound l b : Forall (fun x => 0 <= x <= b) l -> 0 <= sumZ l <= Z.of_nat (length l) * b.
Proof. induction 1 as [|x l Hx Hl IH]; [done|]. cbn [sumZ foldr length]. fold (sumZ l). nia. Qed.

(** The children [cid] of all parents, in the order units_calc() visits them. *)
Definition visit_col (parent_nr c : Z) (row : list Z) (cid : Z) : list Z :=
  (fun pid => default 0 (arr_get row (pid * c + cid))) <$> seqZ 0 parent_nr.

Definition visits (parent_nr c : Z) (row : list Z) : list Z :=
  mjoin (visit_col parent_nr c row <$> seqZ 0 c).

(** The accumulators of units_calc() after visiting [seen]. *)
Definition calc_state (tol : Z) (seen : list Z) : Z * Z :=
  (sumZ (take (Z.to_nat tol) seen), Z.min tol (Z.of_nat (length seen))).

Lemma calc_state_snoc tol seen v :
  0 <= tol < 2 ^ 32 -> Forall (fun x => 0 <= x < 2 ^ 32) (seen ++ [v]) ->
  (if (calc_state tol seen).2 <? tol
   then (u64 ((calc_state tol seen).1 + v), (calc_state tol seen).2 + 1)
   else calc_state tol seen) = calc_state tol (seen ++ [v]).
Proof.
  intros Ht HF. unfold calc_state. cbn [fst snd].
  assert (Forall (fun x => 0 <= x <= 2 ^ 32 - 1) (take (Z.to_nat tol) (seen ++ [v]))) as HF'.
  { apply Forall_take. eapply Forall_impl; [exact HF|]. intros; simpl in *; lia. }
  pose proof (sumZ_bound _ _ HF') as Hb. rewrite length_take in Hb.
  destruct (Z.ltb_spec (Z.min tol (Z.of_nat (length seen))) tol) as [Hlt|Hge].
  - rewrite !take_ge in * by (rewrite ?length_app; simpl; lia).
    rewrite sumZ_app in *. cbn [sumZ foldr] in *. rewrite Z.add_0_r in *.
    rewrite length_app. simpl length. f_equal; [|lia]. apply u64_small. unfold is_u64.
    assert (0 <= sumZ seen + v <= tol * (2 ^ 32 - 1)); [|nia]. rewrite length_app in Hb. nia.
  - rewrite take_app_le by lia. rewrite length_app. simpl length. f_equal. lia.
Qed.

Lemma units_calc_ok units level parent_nr c tol row :
  arr_get units level = Some row -> 0 <= parent_nr -> 0 < c -> parent_nr * c < 2 ^ 64 ->
  Z.of_nat (length row) = parent_nr * c -> Forall (fun x => 0 <= x < 2 ^ 32) row ->
  0 <= tol < 2 ^ 32 ->
  units_calc units level parent_nr c tol = Some (sumZ (take (Z.to_nat tol) (visits parent_nr c row))).
Proof.
  intros Hrow Hp Hc Hb Hlen HF Ht. unfold units_calc.
  match goal with |- context [for_up 0 c ?f _] => set (body := f) end.
  assert (forall pid cid, 0 <= pid < parent_nr -> 0 <= cid < c -> exists u,
    units_get units level (u64 (pid * c + cid)) = Some u /\ 0 <= u < 2 ^ 32 /\
    default 0 (arr_get row (pid * c + cid)) = u) as Hget.
  { intros pid cid Hpid Hcid. rewrite u64_small by (unfold is_u64; nia). unfold units_get. run Hrow.
    destruct (arr_get_is_Some row (pid * c + cid)) as [u Hu]; [nia|]. exists u. rewrite Hu.
    split; [done|]. split; [|done]. apply arr_get_Some in Hu as [_ Hu].
    by apply (Forall_lookup_1 _ _ _ _ HF Hu). }
  destruct (for_up_total (fun cid s => s = calc_state tol (mjoin (visit_col parent_nr c row <$> seqZ 0 cid))
    /\
      Forall (fun x => 0 <= x < 2 ^ 32) (mjoin (visit_col parent_nr c row <$> seqZ 0 cid)))
    body 0 c (0, 0)) as (s & Hrun & -> & _).
  - lia.
  - change (mjoin (visit_col parent_nr c row <$> seqZ 0 0)) with (@nil Z). unfold calc_state.
    rewrite take_nil, Z.min_r by (simpl; lia). split; [done|constructor].
  - intros cid s Hcid [-> HFs]. set (seen := mjoin (visit_col parent_nr c row <$> seqZ 0 cid)) in *.
    assert (mjoin (visit_col parent_nr c row <$> seqZ 0 (cid + 1)) = seen ++ visit_col parent_nr c row cid)
      as -> by (rewrite seqZ_snoc, fmap_app by lia; apply join_snoc).
    unfold body. match goal with |- context [for_up 0 parent_nr ?f _] => set (inner := f) end.
    destruct (for_up_total (fun pid s => s = calc_state tol (seen ++ visit_col pid c row cid) /\
        Forall (fun x => 0 <= x < 2 ^ 32) (seen ++ visit_col pid c row cid))
      inner 0 parent_nr (calc_state tol seen)) as (s & Hrun & Hs & HFs').
    + lia.
    + change (visit_col 0 c row cid) with (@nil Z). by rewrite app_nil_r.
    + intros pid s Hpid [-> HFp]. destruct (Hget pid cid Hpid Hcid) as (u & Hu & Hub & Hd).
      assert (visit_col (pid + 1) c row cid = visit_col pid c row cid ++ [u]) as ->
        by (unfold visit_col; rewrite seqZ_snoc, fmap_app, <- Hd by lia; done).
      rewrite app_assoc. set (l := seen ++ visit_col pid c row cid) in *.
      assert (Forall (fun x => 0 <= x < 2 ^ 32) (l ++ [u])) as HFu
        by (apply Forall_app; split; [done|by constructor]).
      exists (calc_state tol (l ++ [u])). split; [|done].
      rewrite <- calc_state_snoc by done. unfold inner. destruct (calc_state tol l) as [sum n].
      cbn [fst snd]. destruct (n <? tol); [by run Hu|done].
    + exists s. done.
  - unfold visits, calc_state in *. run Hrun. done.
Qed.

(** ** The tolerance check *)

(** The distribution of [G] units over the nodes of the last level of [cs]. *)
Definition row_of (cs : list Z) (G : Z) : list Z := fold_left (fun row c => next_row c row) cs [G].

Lemma row_of_snoc cs c G : row_of (cs ++ [c]) G = next_row c (row_of cs G).
Proof. unfold row_of. by rewrite fold_left_app. Qed.

Lemma row_of_level cs G : positive cs -> 0 <= G -> level_row cs G (row_of cs G).
Proof.
  intros Hp HG. induction cs as [|c cs IH] using rev_ind.
  - split; [done|]. change (prodZ []) with 1. intros b Hb. assert (b = 0) as -> by lia.
    unfold cnt. rewrite Z.div_1_r. cbn [unrev_idx]. transitivity (Some G); [done|f_equal; lia].
  - apply Forall_app in Hp as [Hp [Hc _]%Forall_cons]. rewrite row_of_snoc. by apply level_row_next, IH.
Qed.

(** The units held by the first [tol] nodes visited at level [i]. *)
Definition level_sum (cs : list Z) (G i tol : Z) : Z :=
  let pcs := take (Z.to_nat (i - 1)) cs in
  sumZ (take (Z.to_nat tol)
    (visits (prodZ pcs) (default 0 (arr_get cs (i - 1))) (row_of (take (Z.to_nat i) cs) G))).

Section tolerance.
Context (pv : m0_conf_pver) (children : list Z) (first depth G K : Z).
Hypothesis Hdepth : 0 < depth < 5.
Hypothesis Hlen : Z.of_nat (length children) = 5.
Let cs := take (Z.to_nat depth) children.
Hypothesis Hpos : positive cs.
Hypothesis Hwidth : prodZ cs < 2 ^ 64.
Hypothesis HG : 0 <= G < 2 ^ 32.
Let tol (i : Z) : Z := default 0 (arr_get (pvs_tolerance pv) (first + i - 1)).
Hypothesis Htol : forall i, 1 <= i < depth ->
  arr_get (pvs_tolerance pv) (first + i - 1) = Some (tol i) /\ 0 <= tol i < 2 ^ 32.

(** The level the check stops at. *)
Definition level_over (i : Z) : bool := K <? level_sum cs G i (tol i).

Definition first_over (n : Z) : option Z := find level_over (seqZ 1 (n - 1)).

Lemma find_snoc (f : Z -> bool) l x :
  find f (l ++ [x]) = match find f l with Some y => Some y | None => if f x then Some x else None end.
Proof. induction l as [|y l IH]; [done|]. simpl. by destruct (f y). Qed.

Lemma first_over_S i :
  1 <= i ->
  first_over (i + 1) =
    match first_over i with Some l => Some l | None => if level_over i then Some i else None end.
Proof.
  intros Hi. unfold first_over. replace (i + 1 - 1) with (i - 1 + 1) by lia.
  rewrite seqZ_snoc_from, <- find_snoc by lia. by replace (1 + (i - 1)) with i by lia.
Qed.

Lemma prefix_step i :
  1 <= i <= depth -> exists c, arr_get children (i - 1) = Some c /\ arr_get cs (i - 1) = Some c /\ 0 < c /\
    take (Z.to_nat i) cs = take (Z.to_nat (i - 1)) cs ++ [c] /\
    positive (take (Z.to_nat (i - 1)) cs) /\
    prodZ (take (Z.to_nat i) cs) = prodZ (take (Z.to_nat (i - 1)) cs) * c /\
    prodZ (take (Z.to_nat i) cs) <= prodZ cs.
Proof.
  intros Hi. destruct (arr_get_is_Some children (i - 1)) as [c Hc]; [lia|]. exists c.
  pose proof Hc as [_ Hc']%arr_get_Some.
  assert (cs !! Z.to_nat (i - 1) = Some c) as Hcs by (unfold cs; rewrite lookup_take_lt by lia; done).
  split; [done|]. split; [apply arr_get_Some; split; [lia|done]|].
  split; [by apply (Forall_lookup_1 _ _ _ _ Hpos Hcs)|].
  assert (take (Z.to_nat i) cs = take (Z.to_nat (i - 1)) cs ++ [c]) as Ht.
  { replace (Z.to_nat i) with (S (Z.to_nat (i - 1))) by lia. by apply take_S_r. }
  split; [done|]. split; [by apply Forall_take|].
  split; [rewrite Ht, prodZ_app, prodZ_cons; change (prodZ []) with 1; lia|].
  rewrite <- (take_drop (Z.to_nat i) cs) at 2. rewrite prodZ_app.
  pose proof (prodZ_pos (take (Z.to_nat i) cs) ltac:(by apply Forall_take)).
  pose proof (prodZ_pos (drop (Z.to_nat i) cs) ltac:(by apply Forall_drop)). nia.
Qed.

Lemma tolerance_levels_ok units :
  Z.of_nat (length units) = depth + 1 -> arr_get units 0 = Some [G] ->
  (forall k, 1 <= k <= depth -> exists row, arr_get units k = Some row /\
     Z.of_nat (length row) = prodZ (take (Z.to_nat k) cs)) ->
  tolerance_levels pv children first depth K units = Some (first_over depth).
Proof.
  intros HU H0 Hrows. unfold tolerance_levels.
  match goal with |- context [for_up 1 depth ?f _] => set (body := f) end.
  destruct (for_up_total (fun i '(res, nodes, us) => res = first_over i /\
      (res = None -> nodes = prodZ (take (Z.to_nat (i - 1)) cs) /\ length us = length units /\
         arr_get us (i - 1) = Some (row_of (take (Z.to_nat (i - 1)) cs) G) /\
         forall k, i <= k -> arr_get us k = arr_get units k))
    body 1 depth (None, 1, units)) as ([[res nodes] us] & -> & -> & _).
  - lia.
  - split; [done|]. intros _. split; [done|]. split; [done|]. split; [done|]. done.
  - intros i [[res nodes] us] Hi [-> HI]. unfold body.
    destruct (first_over i) as [l|] eqn:Efirst.
    { eexists. split; [done|]. split; [rewrite first_over_S by lia; by rewrite Efirst|done]. }
    destruct (HI eq_refl) as (-> & HL & Hprev & Hrest).
    destruct (prefix_step i) as (c & Hc & Hcs & Hc0 & Htake & Hpp & Hprod & Hple); [lia|].
    set (pcs := take (Z.to_nat (i - 1)) cs) in *.
    pose proof (row_of_level pcs G Hpp ltac:(lia)) as Hlev. pose proof Hlev as [HLrow _].
    pose proof (prodZ_pos pcs Hpp) as Hppos.
    destruct (Hrows i) as (row & Hrow & Hrlen); [lia|]. rewrite <- (Hrest i) in Hrow by lia.
    assert (uniform_distribute us i (prodZ pcs) c =
      Some (<[Z.to_nat i := next_row c (row_of pcs G)]> us)) as Hdist.
    { rewrite <- HLrow. apply (uniform_distribute_ok us i c _ row); try done; try lia.
      eapply Forall_impl; [by apply (level_row_small pcs G)|]. intros u Hu. simpl in *. lia. }
    run Hc. run Hdist.
    destruct (Htol i) as [Ht Htb]; [lia|]. run Ht.
    pose proof (level_row_next pcs c G _ Hpp Hc0 Hlev) as Hnext.
    assert (positive (pcs ++ [c])) as Hpn by (apply Forall_app; split; [done|by constructor]).
    rewrite <- row_of_snoc, <- Htake in *. pose proof Hnext as [HLnext _].
    rewrite (units_calc_ok _ i _ c _ (row_of (take (Z.to_nat i) cs) G)); cycle 1.
    { rewrite arr_get_insert by lia. by rewrite Z.eqb_refl. } { lia. } { done. } { lia. }
    { by rewrite HLnext, Hprod. }
    { apply (level_row_small (take (Z.to_nat i) cs) G); done. } { done. }
    cbn [mbind option_bind].
    assert (level_sum cs G i (tol i) =
      sumZ (take (Z.to_nat (tol i)) (visits (prodZ pcs) c (row_of (take (Z.to_nat i) cs) G)))) as <-
      by (unfold level_sum; by rewrite Hcs).
    fold (level_over i). destruct (level_over i) eqn:Eover.
    + eexists. split; [done|]. split; [rewrite first_over_S by lia; by rewrite Efirst, Eover|done].
    + eexists. split; [done|]. split; [rewrite first_over_S by lia; by rewrite Efirst, Eover|].
      intros _. replace (i + 1 - 1) with i by lia.
      split; [rewrite Hprod; apply u64_small; unfold is_u64; lia|].
      rewrite length_insert. split; [done|]. split; [rewrite arr_get_insert by lia; by rewrite Z.eqb_refl|].
      intros k Hk. rewrite arr_get_insert by lia. destruct (Z.eqb_spec i k); [lia|]. apply Hrest. lia.
  - done.
Qed.

Lemma units_alloc_ok mem :
  (forall i, 0 <= i <= depth -> mem i = true) ->
  exists units, units_alloc mem children depth = Some (inr units) /\
    Z.of_nat (length units) = depth + 1 /\ arr_get units 0 = Some [0] /\
    forall k, 1 <= k <= depth -> exists row, arr_get units k = Some row /\
      Z.of_nat (length row) = prodZ (take (Z.to_nat k) cs).
Proof.
  intros Hmem. unfold units_alloc.
  match goal with |- context [for_up 0 (depth + 1) ?f _] => set (body := f) end.
  destruct (for_up_total (fun i '(res, nodes) => exists units, res = inr units /\
      Z.of_nat (length units) = i /\ (i <= depth -> nodes = prodZ (take (Z.to_nat i) cs)) /\
      forall k, 0 <= k < i -> arr_get units k = Some (replicate (Z.to_nat (prodZ (take (Z.to_nat k) cs))) 0))
    body 0 (depth + 1) (inr [], 1)) as ([res nodes] & Hrun & units & -> & HL & _ & Hk).
  - lia.
  - exists []. split; [done|]. split; [done|]. split; [done|]. intros k Hk. lia.
  - intros i [res nodes] Hi (units & -> & HL & Hn & Hk). unfold body.
    assert_ok by (unfold M0_CONF_PVER_HEIGHT; lia). rewrite Hmem by lia.
    destruct (arr_get_is_Some children i) as [c Hc]; [lia|]. run Hc.
    rewrite Hn by lia. eexists. split; [done|]. eexists. split; [done|].
    split; [rewrite length_app; simpl; lia|]. split.
    + intros Hle. destruct (prefix_step (i + 1)) as (c' & Hc' & _ & _ & _ & _ & Hprod & Hle'); [lia|].
      replace (i + 1 - 1) with i in * by lia. rewrite Hc in Hc'. injection Hc' as <-.
      rewrite Hprod. apply u64_small.
      pose proof (prodZ_pos (take (Z.to_nat (i + 1)) cs) ltac:(by apply Forall_take)).
      unfold is_u64. lia.
    + intros k Hki. destruct (Z.eq_dec k i) as [->|Hne].
      * by apply arr_get_middle.
      * apply arr_get_Some. split; [lia|]. rewrite lookup_app_l by lia.
        specialize (Hk k ltac:(lia)). by apply arr_get_Some in Hk as [_ ?].
  - run Hrun. exists units. split; [done|]. split; [lia|]. split; [apply (Hk 0); lia|].
    intros k Hkr. eexists. split; [apply Hk; lia|]. rewrite length_replicate.
    pose proof (prodZ_pos (take (Z.to_nat k) cs) ltac:(by apply Forall_take)). lia.
Qed.

(** The check never aborts, and its result is the first level over [K]. *)
Lemma tolerance_check_ok mem :
  parity_group_size (pvs_attr pv) = G -> pa_K (pvs_attr pv) = K ->
  (forall i, 0 <= i <= depth -> mem i = true) ->
  tolerance_check mem pv children first depth =
    Some match first_over depth with
         | Some i => (- EINVAL, first + i - 1)
         | None => (0, depth)
         end.
Proof.
  intros HGe HKe Hmem. unfold tolerance_check. rewrite HGe, HKe.
  destruct (units_alloc_ok mem Hmem) as (units & Hrun & HL & H0 & Hrows). run Hrun.
  assert (units_set units 0 0 G = Some (<[Z.to_nat 0 := [G]]> units)) as Hset.
  { unfold units_set. run H0. change (arr_set [0] 0 G) with (Some [G]).
    cbn [mbind option_bind]. by rewrite arr_set_ok by lia. }
  run Hset. rewrite tolerance_levels_ok; [done|by rewrite length_insert| |].
  - rewrite arr_get_insert by lia. done.
  - intros k Hk. rewrite arr_get_insert by lia. destruct (Z.eqb_spec 0 k); [lia|]. by apply Hrows.
Qed.

End tolerance.

(** At the first two levels the nodes are visited from the fullest down. *)
Lemma visits_desc pcs c G row :
  positive pcs -> 0 < c -> (length pcs <= 1)%nat -> level_row (pcs ++ [c]) G row ->
  visits (prodZ pcs) c row = cnt (prodZ pcs * c) G <$> seqZ 0 (prodZ pcs * c).
Proof.
  intros Hp Hc Hone [Hlen Hget]. pose proof (prodZ_pos pcs Hp) as HM.
  assert (prodZ (pcs ++ [c]) = prodZ pcs * c) as Hprod
    by (rewrite prodZ_app, prodZ_cons; change (prodZ []) with 1; lia). rewrite Hprod in *.
  assert (forall pid, 0 <= pid < prodZ pcs -> unrev_idx pcs pid = pid) as Hun.
  { intros pid Hpid. destruct pcs as [|d [|]]; [cbn in *; lia| |simpl in Hone; lia].
    cbn [unrev_idx prodZ foldr]. rewrite Z.div_1_r. lia. }
  assert (forall cid, 0 <= cid < c ->
    visit_col (prodZ pcs) c row cid = cnt (prodZ pcs * c) G <$> seqZ (prodZ pcs * cid) (prodZ pcs)) as Hcol.
  { intros cid Hcid. unfold visit_col. apply list_eq. intros t. rewrite !list_lookup_fmap.
    destruct (decide (Z.of_nat t < prodZ pcs)) as [Hlt|Hge].
    - rewrite !lookup_seqZ_lt by lia. cbn [fmap option_fmap option_map]. f_equal.
      rewrite Hget by nia. cbn [default]. rewrite unrev_idx_snoc by (done || lia).
      rewrite Hun by lia. unfold id. f_equal. lia.
    - rewrite !lookup_seqZ_ge by lia. done. }
  unfold visits. assert (forall k : nat, Z.of_nat k <= c ->
    mjoin (visit_col (prodZ pcs) c row <$> seqZ 0 (Z.of_nat k)) =
    cnt (prodZ pcs * c) G <$> seqZ 0 (prodZ pcs * Z.of_nat k)) as Hn.
  { induction k as [|k IH]; intros Hk; [by rewrite Z.mul_0_r|].
    rewrite Nat2Z.inj_succ, <- Z.add_1_r, seqZ_snoc, fmap_app by lia. cbn [fmap list_fmap].
    rewrite join_snoc, IH, Hcol, <- fmap_app by lia. f_equal.
    rewrite Z.mul_add_distr_l, Z.mul_1_r, seqZ_app by lia. done. }
  specialize (Hn (Z.to_nat c)). rewrite Z2Nat.id in Hn by lia. apply Hn. lia.
Qed.

(** A pool version: three enclosures of two controllers of two drives *)

Definition example_pv : m0_conf_pver :=
  {| pvs_attr := {| pa_N := 4; pa_K := 2; pa_S := 0; pa_P := 12; pa_unit_size := 4096;
                    pa_seed := M0_UINT128 42 43 |};
     pvs_tolerance := [0; 0; 1; 2; 2];
     pv_levels := [[1]; [3]; [2; 2; 2]; replicate 6 2; replicate 12 0] |}.

(** ** Properties *)

Lemma first_level_sites pv t :
  arr_get (pvs_tolerance pv) 0 = Some t -> t <> 0 -> first_level_get pv = Some 0.
Proof.
  intros Ht Hne. unfold first_level_get, for_up.
  change (Z.to_nat (M0_CONF_PVER_HEIGHT - 0)) with 5%nat. cbn [for_n]. run Ht.
  rewrite (proj2 (Z.eqb_neq t 0) Hne). reflexivity.
Qed.

Lemma symm_tree_children_length pv level depth children bad children' :
  symm_tree_children pv level depth children = Some (bad, children') -> 1 <= depth ->
  length children' = length children.
Proof.
  intros Hrun Hd. unfold symm_tree_children in Hrun.
  apply (for_up_partial (fun _ '(_, c) => length c = length children)) in Hrun; [done|done|done|].
  intros i [b c] [b' c'] _ Hc. destruct b; [by intros [= <- <-]|]. intros Hstep.
  unbind Hstep. apply arr_set_Some in E0 as [_ ->]. injection Hstep as <- <-. by rewrite length_insert.
Qed.

(** With a non-zero tolerance at the level of sites the symmetric tree has
    depth five, and the five-element array of children has no room for the
    entry of the leaves: m0_fd_tolerance_check() never succeeds on such a pool
    version, it either finds a childless object or writes out of bounds. *)
Theorem site_tolerance_out_of_bounds mem pv children t :
  arr_get (pvs_tolerance pv) 0 = Some t -> t <> 0 -> Z.of_nat (length children) = 5 ->
  m0_fd_tolerance_check mem pv children = None \/
  m0_fd_tolerance_check mem pv children = Some (- EINVAL, 5).
Proof.
  intros Ht Hne Hlen. unfold m0_fd_tolerance_check, symm_tree_attr_get.
  run (first_level_sites pv t Ht Hne).
  destruct (objs_of_level_count pv 0) as [nr|]; [|by left]. cbn [mbind option_bind].
  rewrite arr_set_ok by lia. cbn [mbind option_bind].
  change (M0_CONF_PVER_HEIGHT - 0) with 5.
  destruct (symm_tree_children pv 0 5 (<[Z.to_nat 0:=nr]> children)) as [[[|] c]|] eqn:E;
    cbn [mbind option_bind]; [by right| |by left].
  apply symm_tree_children_length in E; [|done]. rewrite length_insert in E. left.
  assert (arr_set c 5 1 = None) as ->; [|done]. unfold arr_set. 
  destruct (Z.ltb_spec 5 (Z.of_nat (length c))); [lia|done].
Qed.

Lemma site_tolerance_out_of_bounds_witness :
  m0_fd_tolerance_check (fun _ => true)
    {| pvs_attr := {| pa_N := 1; pa_K := 1; pa_S := 0; pa_P := 2; pa_unit_size := 4096;
                      pa_seed := M0_UINT128 42 43 |};
       pvs_tolerance := [1; 1; 1; 1; 1];
       pv_levels := [[1; 1]; [1; 1]; [1; 1]; [1; 1]; [0; 0]] |} [0; 0; 0; 0; 0] = None.
Proof.
  destruct (site_tolerance_out_of_bounds (fun _ => true)
    {| pvs_attr := {| pa_N := 1; pa_K := 1; pa_S := 0; pa_P := 2; pa_unit_size := 4096;
                      pa_seed := M0_UINT128 42 43 |};
       pvs_tolerance := [1; 1; 1; 1; 1];
       pv_levels := [[1; 1]; [1; 1]; [1; 1]; [1; 1]; [0; 0]] |} [0; 0; 0; 0; 0] 1) as [H|H].
  - reflexivity.
  - lia.
  - reflexivity.
  - exact H.
  - vm_compute in H. discriminate H.
Defined.
