(* ===== verification/FdTile.v ===== *)
(** * fd: the fault-tolerant tile

    Models the fault-tolerant tile of src/fd/fd.c: m0_fd__tile_init(),
    m0_fd__tile_populate(), fault_tolerant_idx_get(), m0_fd_tile_build(),
    m0_fd_src_to_tgt() and m0_fd_tgt_to_src(). *)
From S2P Require Import Prelude LibArith Fid FdPerm Pdclust FdTol.

(** ** Data *)

Record m0_fd_tile_cell := {
  ftc_tgt : m0_pdclust_tgt_addr;
  ftc_src : m0_pdclust_src_addr
}.

Record m0_fd_tile := {
  ft_rows : Z;
  ft_cols : Z;
  ft_G : Z;
  ft_depth : Z;
  ft_child : list Z;
  ft_cell : list m0_fd_tile_cell
}.

(** ** The tile *)

Definition fd_tile_invariant (tile : m0_fd_tile) : bool :=
  (0 <? ft_rows tile) && (0 <? ft_cols tile) && (0 <? ft_G tile).

Definition zero_cell : m0_fd_tile_cell :=
  {| ftc_tgt := {| ta_frame := 0; ta_obj := 0 |}; ftc_src := {| sa_group := 0; sa_unit := 0 |} |}.

Definition m0_fd__tile_init (mem : bool) (la_attr : m0_pdclust_attr) (children : list Z) (depth : Z)
  : option (Z * option m0_fd_tile) :=
  _ ← M0_ASSERT (0 <? depth);
  let G := parity_group_size la_attr in
  cols ← pool_width_calc children depth;
  g ← m0_gcd64 G cols;
  rows ← div_c G g;
  if negb mem then Some (- ENOMEM, None)
  else
    _ ← M0_ASSERT (Z.of_nat (length children) =? M0_CONF_PVER_HEIGHT);
    _ ← M0_ASSERT (parity_group_size la_attr <=? cols);
    Some (0, Some {| ft_rows := rows; ft_cols := cols; ft_G := G; ft_depth := depth;
                     ft_child := children;
                     ft_cell := replicate (Z.to_nat (u64 (rows * cols))) zero_cell |}).

Definition fault_tolerant_idx_get (idx : Z) (children_nr : list Z) (depth : Z) : option Z :=
  let fd_idx := replicate (Z.to_nat M0_CONF_PVER_HEIGHT) 0 in
  '(fd_idx, _, _) ← for_up 1 (depth + 1) (fun i '(fd_idx, idx, prev) =>
    c ← arr_get children_nr (i - 1);
    r ← mod_c idx (u64 (prev * c));
    let idx := u64 (idx - r) in
    q ← div_c r prev;
    fd_idx ← arr_set fd_idx i q;
    Some (fd_idx, idx, u64 (prev * c))) (fd_idx, idx, 1);
  tidx ← arr_get fd_idx depth;
  '(tidx, _) ← for_down depth 0 (fun i '(tidx, prev) =>
    f ← arr_get fd_idx (i - 1);
    c ← arr_get children_nr (i - 1);
    Some (u64 (tidx + u64 (u64 (f * c) * prev)), u64 (prev * c))) (tidx, 1);
  Some tidx.

Definition cell_set_tgt (cells : list m0_fd_tile_cell) (i : Z) (tgt : m0_pdclust_tgt_addr)
  : option (list m0_fd_tile_cell) :=
  c ← arr_get cells i;
  arr_set cells i {| ftc_tgt := tgt; ftc_src := ftc_src c |}.

Definition cell_set_src (cells : list m0_fd_tile_cell) (i : Z) (src : m0_pdclust_src_addr)
  : option (list m0_fd_tile_cell) :=
  c ← arr_get cells i;
  arr_set cells i {| ftc_tgt := ftc_tgt c; ftc_src := src |}.

(** The body of the two nested loops of m0_fd__tile_populate(). *)
Definition tile_populate_body (tile : m0_fd_tile) (row col : Z) (cells : list m0_fd_tile_cell)
  : option (list m0_fd_tile_cell) :=
  idx ← m0_enc (ft_cols tile) row col;
  tidx ← fault_tolerant_idx_get idx (ft_child tile) (ft_depth tile);
  cells ← cell_set_tgt cells idx {| ta_frame := row; ta_obj := tidx |};
  fidx ← m0_enc (ft_cols tile) row tidx;
  '(group, unit) ← m0_dec (ft_G tile) idx;
  cell_set_src cells fidx {| sa_group := group; sa_unit := unit |}.

Definition m0_fd__tile_populate (tile : m0_fd_tile) : option m0_fd_tile :=
  _ ← M0_ASSERT (fd_tile_invariant tile);
  cells ← for_up 0 (ft_rows tile) (fun row cells =>
    for_up 0 (ft_cols tile) (fun col cells => tile_populate_body tile row col cells) cells)
    (ft_cell tile);
  Some {| ft_rows := ft_rows tile; ft_cols := ft_cols tile; ft_G := ft_G tile;
          ft_depth := ft_depth tile; ft_child := ft_child tile; ft_cell := cells |}.

(** Returns the code, the failure level and the tile of the pool version. The code also
    stores K as the tolerance of drives in its copy of the tolerance vector, which
    nothing here reads. *)
Definition m0_fd_tile_build (mem : Z -> bool) (tile_mem : bool) (pv : m0_conf_pver)
    (children_nr : list Z) : option (Z * Z * option m0_fd_tile) :=
  '(rc, failure_level, children_nr) ← symm_tree_attr_get mem pv children_nr;
  if negb (rc =? 0) then Some (rc, failure_level, None)
  else
    '(rc, tile) ← m0_fd__tile_init tile_mem (pvs_attr pv) children_nr failure_level;
    match tile with
    | None => Some (rc, failure_level, None)
    | Some tile =>
        tile ← m0_fd__tile_populate tile;
        Some (rc, failure_level, Some tile)
    end.

Definition m0_fd_src_to_tgt (tile : m0_fd_tile) (src : m0_pdclust_src_addr)
  : option m0_pdclust_tgt_addr :=
  _ ← M0_ASSERT (fd_tile_invariant tile);
  C ← div_c (u64 (ft_rows tile * ft_cols tile)) (ft_G tile);
  '(omega, group) ← m0_dec C (sa_group src);
  _ ← M0_ASSERT (group <? C);
  idx ← m0_enc (ft_G tile) group (sa_unit src);
  cell ← arr_get (ft_cell tile) idx;
  Some {| ta_frame := u64 (ta_frame (ftc_tgt cell) + u64 (omega * ft_rows tile));
          ta_obj := ta_obj (ftc_tgt cell) |}.

Definition m0_fd_tgt_to_src (tile : m0_fd_tile) (tgt : m0_pdclust_tgt_addr)
  : option m0_pdclust_src_addr :=
  _ ← M0_ASSERT (fd_tile_invariant tile);
  C ← div_c (u64 (ft_rows tile * ft_cols tile)) (ft_G tile);
  '(omega, frame) ← m0_dec (ft_rows tile) (ta_frame tgt);
  idx ← m0_enc (ft_cols tile) frame (ta_obj tgt);
  cell ← arr_get (ft_cell tile) idx;
  Some {| sa_group := u64 (sa_group (ftc_src cell) + u64 (omega * C));
          sa_unit := sa_unit (ftc_src cell) |}.

(** ** Lemmas: the fault-tolerant index *)

Section fault_tolerant_idx.
Context (children : list Z) (depth : nat).
Hypothesis Hdepth : (0 < depth < 5)%nat.
Hypothesis Hlen : (depth <= length children)%nat.
Let cs := take depth children.
Hypothesis Hpos : positive cs.
Hypothesis Hwidth : prodZ cs < 2 ^ 64.
Context (x : Z).
Hypothesis Hx : is_u64 x.

(** The [k]-th digit, and the number read from the digits from [k] on. *)
Let c (k : nat) : Z := default 0 (children !! k).
Let low (k : nat) : Z := prodZ (take k cs).
Let high (k : nat) : Z := prodZ (drop k cs).
Let dig (k : nat) : Z := (x / low k) mod c k.
Let rev_from (k : nat) : Z := rev_idx (drop k cs) (x / low k).

Lemma children_get k : (k < depth)%nat -> arr_get children (Z.of_nat k) = Some (c k) /\ cs !! k = Some (c k).
Proof.
  intros Hk. unfold c, cs. destruct (lookup_lt_is_Some_2 children k) as [v Hv]; [lia|].
  rewrite arr_get_Some, Nat2Z.id, lookup_take_lt, Hv by lia. split; [split; [lia|done]|done].
Qed.

Lemma child_pos k : (k < depth)%nat -> 0 < c k.
Proof.
  intros Hk. destruct (children_get k Hk) as [_ Hc].
  by apply (Forall_lookup_1 _ _ _ _ Hpos Hc).
Qed.

Lemma low_S k : (k < depth)%nat -> low (S k) = low k * c k.
Proof.
  intros Hk. destruct (children_get k Hk) as [_ Hc]. unfold low.
  rewrite (take_S_r _ _ _ Hc), prodZ_app, prodZ_cons. cbn. lia.
Qed.

Lemma high_S k : (k < depth)%nat -> high k = c k * high (S k).
Proof.
  intros Hk. destruct (children_get k Hk) as [_ Hc]. unfold high.
  by rewrite (drop_S _ _ _ Hc), prodZ_cons.
Qed.

Lemma low_high k : low k * high k = prodZ cs.
Proof. unfold low, high. by rewrite <- prodZ_app, take_drop. Qed.

Lemma low_pos k : 0 < low k.
Proof. apply prodZ_pos. by apply Forall_take. Qed.

Lemma high_pos k : 0 < high k.
Proof. apply prodZ_pos. by apply Forall_drop. Qed.

Lemma low_bound k : low k < 2 ^ 64.
Proof. pose proof (low_high k). pose proof (low_pos k). pose proof (high_pos k). nia. Qed.

Lemma high_bound k : high k < 2 ^ 64.
Proof. pose proof (low_high k). pose proof (low_pos k). pose proof (high_pos k). nia. Qed.

Lemma rev_from_S k : (k < depth)%nat -> rev_from k = dig k * high (S k) + rev_from (S k).
Proof.
  intros Hk. destruct (children_get k Hk) as [_ Hc]. unfold rev_from.
  rewrite (drop_S _ _ _ Hc). cbn [rev_idx]. unfold dig, high.
  rewrite (low_S k Hk), Z.div_div; [done| |].
  - pose proof (low_pos k). lia.
  - by apply child_pos.
Qed.

Lemma rev_from_range k : 0 <= rev_from k < high k.
Proof. apply rev_idx_range. by apply Forall_drop. Qed.

(** One step of the first loop. *)
Lemma digit_step k :
  (k < depth)%nat ->
  let idx := x - x mod low k in
  idx mod (low k * c k) = dig k * low k /\
  idx - idx mod (low k * c k) = x - x mod low (S k) /\
  idx mod (low k * c k) / low k = dig k.
Proof.
  intros Hk idx. pose proof (low_pos k). pose proof (child_pos k Hk).
  assert (idx = x / low k * low k) as Hidx by (pose proof (enc_dec x (low k)); unfold idx; lia).
  assert (idx mod (low k * c k) = dig k * low k) as Hm.
  { rewrite Hidx, (Z.mul_comm (low k) (c k)), Z.mul_mod_distr_r by lia. done. }
  split; [done|]. rewrite Hm. split; [|apply Z.div_mul; lia].
  rewrite low_S by done. rewrite Z.rem_mul_r by lia. unfold idx, dig. lia.
Qed.

Lemma digits_loop :
  exists fd_idx,
    for_up 1 (Z.of_nat depth + 1) (fun i '(fd_idx, idx, prev) =>
      c ← arr_get children (i - 1);
      r ← mod_c idx (u64 (prev * c));
      let idx := u64 (idx - r) in
      q ← div_c r prev;
      fd_idx ← arr_set fd_idx i q;
      Some (fd_idx, idx, u64 (prev * c)))
      (replicate (Z.to_nat M0_CONF_PVER_HEIGHT) 0, x, 1) =
      Some (fd_idx, x - x mod low depth, low depth) /\
    fd_idx !! O = Some 0 /\ forall k, (k < depth)%nat -> fd_idx !! S k = Some (dig k).
Proof.
  match goal with |- exists _, for_up _ _ ?f _ = _ /\ _ => set (body := f) end.
  destruct (for_up_total (fun i '(fd_idx, idx, prev) => exists k : nat,
      i = Z.of_nat k + 1 /\ length fd_idx = 5%nat /\ idx = x - x mod low k /\ prev = low k /\
      fd_idx !! O = Some 0 /\ forall j, (j < k)%nat -> fd_idx !! S j = Some (dig j))
    body 1 (Z.of_nat depth + 1) (replicate (Z.to_nat M0_CONF_PVER_HEIGHT) 0, x, 1))
    as ([[fd_idx idx] prev] & -> & k & Hk & _ & -> & -> & H0 & Hd).
  - lia.
  - exists O. split; [done|]. split; [done|]. unfold low. rewrite take_0. cbn [prodZ foldr].
    rewrite Z.mod_1_r, Z.sub_0_r. do 3 (split; [done|]). intros j Hj. lia.
  - intros i [[fd_idx idx] prev] Hi (k & -> & HL & -> & -> & H0 & Hd).
    assert (k < depth)%nat as Hk by lia. unfold body.
    destruct (children_get k Hk) as [Hget _].
    replace (Z.of_nat k + 1 - 1) with (Z.of_nat k) by lia. run Hget.
    destruct (digit_step k Hk) as (E1 & E2 & E3). pose proof (low_pos k). pose proof (low_pos (S k)).
    rewrite <- (low_S k Hk). rewrite (u64_small (low (S k))) by (split; [lia|apply low_bound]).
    rewrite <- (low_S k Hk) in *. run mod_c_ok by lia. run div_c_ok by lia.
    rewrite E2, E3. rewrite arr_set_ok by lia. cbn [mbind option_bind]. eexists. split; [done|].
    exists (S k). split; [lia|]. rewrite length_insert. split; [done|].
    pose proof (Z.mod_pos_bound x (low (S k)) ltac:(lia)).
    split; [apply u64_small; pose proof (Z.mod_le x (low (S k))); unfold is_u64 in *; lia|].
    split; [done|]. replace (Z.to_nat (Z.of_nat k + 1)) with (S k) by lia.
    split; [by rewrite list_lookup_insert_ne by lia|]. intros j Hj.
    destruct (decide (j = k)) as [->|Hne]; [rewrite list_lookup_insert_eq by lia; done|].
    rewrite list_lookup_insert_ne by lia. apply Hd. lia.
  - assert (k = depth) as -> by lia. by exists fd_idx.
Qed.

Lemma reverse_loop fd_idx :
  fd_idx !! O = Some 0 -> (forall k, (k < depth)%nat -> fd_idx !! S k = Some (dig k)) ->
  exists prev, for_down (Z.of_nat depth) 0 (fun i '(tidx, prev) =>
    f ← arr_get fd_idx (i - 1);
    c ← arr_get children (i - 1);
    Some (u64 (tidx + u64 (u64 (f * c) * prev)), u64 (prev * c)))
    (dig (depth - 1), 1) = Some (rev_from 0, prev).
Proof.
  intros H0 Hd. match goal with |- exists _, for_down _ _ ?f _ = _ => set (body := f) end.
  destruct (for_down_total (fun i '(tidx, prev) => exists k : nat,
      i = Z.of_nat k /\ (k <= depth)%nat /\ tidx = rev_from (k - 1) /\ prev = high k)
    body (Z.of_nat depth) 0 (dig (depth - 1), 1))
    as ([tidx prev] & -> & k & Hk & _ & -> & ->).
  - lia.
  - exists depth. split; [done|]. split; [lia|].
    assert (high depth = 1) as Hh by (unfold high, cs; by rewrite drop_ge by (rewrite length_take; lia)).
    split; [|done]. rewrite (rev_from_S (depth - 1)) by lia.
    replace (S (depth - 1)) with depth by lia. rewrite Hh.
    pose proof (rev_from_range depth). lia.
  - intros i [tidx prev] Hi (k & -> & Hk & -> & ->). destruct k as [|k]; [lia|].
    unfold body. replace (Z.of_nat (S k) - 1) with (Z.of_nat k) by lia.
    destruct (children_get k) as [Hget _]; [lia|].
    assert (exists f, arr_get fd_idx (Z.of_nat k) = Some f /\ 0 <= f /\ f * high k < 2 ^ 64 /\
      f * high k + rev_from k = rev_from (k - 1)) as (f & Hf & Hf0 & Hfb & Hsum).
    { destruct k as [|k].
      - exists 0. rewrite arr_get_Some. repeat split; try lia. apply H0.
      - exists (dig k). rewrite arr_get_Some, Nat2Z.id, Hd by lia.
        pose proof (rev_from_S k ltac:(lia)) as Hr. pose proof (rev_from_range k).
        pose proof (rev_from_range (S k)). pose proof (high_bound k).
        pose proof (Z.mod_pos_bound (x / low k) (c k) (child_pos k ltac:(lia))) as Hdig. fold (dig k) in Hdig.
        replace (S k - 1)%nat with k by lia. repeat split; lia. }
    run Hf. run Hget. eexists. split; [done|]. exists k. split; [lia|]. split; [lia|].
    rewrite (high_S k) in Hfb, Hsum by lia. pose proof (high_S k ltac:(lia)) as Hh.
    pose proof (high_pos (S k)). pose proof (child_pos k ltac:(lia)).
    pose proof (rev_from_range (k - 1)). pose proof (high_bound (k - 1)).
    rewrite (u64_small (f * c k)) by (unfold is_u64; nia).
    rewrite (u64_small (f * c k * high (S k))) by (unfold is_u64; nia).
    replace (S k - 1)%nat with k by lia.
    rewrite (u64_small (_ + _)) by (unfold is_u64; lia). split; [lia|].
    pose proof (high_bound k). rewrite u64_small by (unfold is_u64; lia). lia.
  - exists (high k). by replace (k - 1)%nat with O by lia.
Qed.

Lemma fault_tolerant_idx_ok :
  fault_tolerant_idx_get x children (Z.of_nat depth) = Some (rev_idx cs x).
Proof.
  unfold fault_tolerant_idx_get. destruct digits_loop as (fd_idx & Hrun & H0 & Hd).
  cbv zeta in Hrun |- *. run Hrun.
  assert (arr_get fd_idx (Z.of_nat depth) = Some (dig (depth - 1))) as Hget.
  { apply arr_get_Some. rewrite Nat2Z.id. split; [lia|].
    replace depth with (S (depth - 1)) at 1 by lia. apply Hd. lia. }
  run Hget. destruct (reverse_loop fd_idx H0 Hd) as [prev Hrev]. run Hrev.
  unfold rev_from, low. rewrite take_0, drop_0. cbn [prodZ foldr]. by rewrite Z.div_1_r.
Qed.

End fault_tolerant_idx.

(** ** Lemmas: the tile *)

Lemma pool_width_ok children (depth : nat) :
  (depth <= length children)%nat -> positive (take depth children) ->
  prodZ (take depth children) < 2 ^ 31 ->
  pool_width_calc children (Z.of_nat depth) = Some (prodZ (take depth children)).
Proof.
  intros Hlen Hpos Hw. unfold pool_width_calc. set (cs := take depth children) in *.
  assert (forall i, 0 <= i < Z.of_nat depth -> exists c, arr_get children i = Some c /\ 0 < c /\
    take (Z.to_nat (i + 1)) cs = take (Z.to_nat i) cs ++ [c]) as Hget.
  { intros i Hi. destruct (arr_get_is_Some children i) as [c Hc]; [lia|]. exists c.
    pose proof Hc as [_ Hc']%arr_get_Some.
    assert (cs !! Z.to_nat i = Some c) as Hcs by (unfold cs; rewrite lookup_take_lt by lia; done).
    split; [done|]. split; [by apply (Forall_lookup_1 _ _ _ _ Hpos Hcs)|].
    replace (Z.to_nat (i + 1)) with (S (Z.to_nat i)) by lia. by apply take_S_r. }
  destruct (for_up_total (fun _ _ => True)
    (fun i (_ : unit) => c ← arr_get children i; M0_ASSERT (negb (c =? 0))) 0 (Z.of_nat depth) tt)
    as ([] & Hrun & _); [lia|done| |].
  { intros i [] Hi _. destruct (Hget i Hi) as (c & Hc & Hp & _). run Hc.
    rewrite M0_ASSERT_true by (apply negb_true_iff, Z.eqb_neq; lia). by exists tt. }
  run Hrun.
  destruct (for_up_total (fun i accum => accum = prodZ (take (Z.to_nat i) cs))
    (fun i accum => c ← arr_get children i; Some (i32 (u64 (accum * c)))) 0 (Z.of_nat depth) 1)
    as (accum & Hrun2 & ->); [lia|done| |].
  { intros i accum Hi ->. destruct (Hget i Hi) as (c & Hc & Hp & Ht). run Hc.
    eexists. split; [done|]. rewrite Ht, prodZ_app, prodZ_cons. cbn [prodZ foldr].
    rewrite Z.mul_1_r.
    assert (prodZ (take (Z.to_nat (i + 1)) cs) <= prodZ cs) as Hle.
    { rewrite <- (take_drop (Z.to_nat (i + 1)) cs) at 2. rewrite prodZ_app.
      pose proof (prodZ_pos (drop (Z.to_nat (i + 1)) cs) ltac:(by apply Forall_drop)).
      pose proof (prodZ_pos (take (Z.to_nat (i + 1)) cs) ltac:(by apply Forall_take)). nia. }
    rewrite Ht, prodZ_app, prodZ_cons in Hle. cbn [prodZ foldr] in Hle.
    pose proof (prodZ_pos (take (Z.to_nat i) cs) ltac:(by apply Forall_take)).
    rewrite u64_small by (unfold is_u64; nia). apply i32_small. nia. }
  run Hrun2. rewrite Nat2Z.id. unfold cs. rewrite take_take, Nat.min_id.
  fold cs. rewrite u64_small; [done|]. pose proof (prodZ_pos cs Hpos). unfold is_u64. lia.
Qed.

(** The children of the symmetric tree, level by level. *)
Definition tile_cs (tile : m0_fd_tile) : list Z := take (Z.to_nat (ft_depth tile)) (ft_child tile).

Definition tile_shape (tile : m0_fd_tile) : Prop :=
  0 < ft_depth tile < 5 /\ Z.of_nat (length (ft_child tile)) = 5 /\ positive (tile_cs tile) /\
  ft_cols tile = prodZ (tile_cs tile) /\ ft_cols tile < 2 ^ 31 /\
  0 < ft_G tile <= ft_cols tile /\
  ft_rows tile = ft_G tile / Z.gcd (ft_G tile) (ft_cols tile) /\
  Z.of_nat (length (ft_cell tile)) = ft_rows tile * ft_cols tile.

(** The number of groups in a tile. *)
Definition tile_C (tile : m0_fd_tile) : Z := ft_cols tile / Z.gcd (ft_G tile) (ft_cols tile).

Definition tidx (tile : m0_fd_tile) (x : Z) : Z := rev_idx (tile_cs tile) x.

(** What the cell of the [i]-th unit, and the cell it is moved to, hold. *)
Definition cells_ok (tile : m0_fd_tile) (cells : list m0_fd_tile_cell) (i : Z) : Prop :=
  let row := i / ft_cols tile in
  (exists c, arr_get cells i = Some c /\
     ftc_tgt c = {| ta_frame := row; ta_obj := tidx tile i |}) /\
  (exists c, arr_get cells (row * ft_cols tile + tidx tile i) = Some c /\
     ftc_src c = {| sa_group := i / ft_G tile; sa_unit := i mod ft_G tile |}).

Definition tile_wf (tile : m0_fd_tile) : Prop :=
  tile_shape tile /\
  forall i, 0 <= i < ft_rows tile * ft_cols tile -> cells_ok tile (ft_cell tile) i.

(** The least common multiple of the group size and the width. *)
Lemma tile_lcm tile :
  tile_shape tile ->
  0 < ft_rows tile <= tile_C tile /\ tile_C tile < 2 ^ 31 /\
  ft_rows tile * ft_cols tile = tile_C tile * ft_G tile /\
  ft_rows tile * ft_cols tile < 2 ^ 62.
Proof.
  intros (_ & _ & _ & _ & Hc & HG & Hr & _). unfold tile_C. rewrite Hr.
  set (G := ft_G tile) in *. set (P := ft_cols tile) in *.
  pose proof (Z.gcd_divide_l G P) as [l Hl]. pose proof (Z.gcd_divide_r G P) as [m Hm].
  assert (0 < Z.gcd G P) as Hg.
  { pose proof (Z.gcd_nonneg G P). assert (Z.gcd G P <> 0); [|lia]. intros ?%Z.gcd_eq_0_l. lia. }
  set (g := Z.gcd G P) in *. assert (G / g = l) as -> by (rewrite Hl; apply Z.div_mul; lia).
  assert (P / g = m) as -> by (rewrite Hm; apply Z.div_mul; lia).
  clearbody g P G. subst P G. nia.
Qed.

Lemma cell_set_tgt_ok cells i t :
  0 <= i < Z.of_nat (length cells) ->
  exists cells', cell_set_tgt cells i t = Some cells' /\ length cells' = length cells /\
    (exists c, arr_get cells' i = Some c /\ ftc_tgt c = t) /\
    (forall k c, arr_get cells k = Some c -> exists c', arr_get cells' k = Some c' /\
       ftc_src c' = ftc_src c /\ (k <> i -> ftc_tgt c' = ftc_tgt c)).
Proof.
  intros Hi. unfold cell_set_tgt. destruct (arr_get_is_Some cells i Hi) as [c0 Hc0]. run Hc0.
  rewrite arr_set_ok by done. eexists. split; [done|]. rewrite length_insert. split; [done|].
  split; [eexists; rewrite arr_get_insert by done; rewrite Z.eqb_refl; by split|].
  intros k c Hk. rewrite arr_get_insert by done. destruct (Z.eqb_spec i k) as [->|]; [|by eauto].
  rewrite Hk in Hc0. injection Hc0 as ->. by eexists.
Qed.

Lemma cell_set_src_ok cells i s :
  0 <= i < Z.of_nat (length cells) ->
  exists cells', cell_set_src cells i s = Some cells' /\ length cells' = length cells /\
    (exists c, arr_get cells' i = Some c /\ ftc_src c = s) /\
    (forall k c, arr_get cells k = Some c -> exists c', arr_get cells' k = Some c' /\
       ftc_tgt c' = ftc_tgt c /\ (k <> i -> ftc_src c' = ftc_src c)).
Proof.
  intros Hi. unfold cell_set_src. destruct (arr_get_is_Some cells i Hi) as [c0 Hc0]. run Hc0.
  rewrite arr_set_ok by done. eexists. split; [done|]. rewrite length_insert. split; [done|].
  split; [eexists; rewrite arr_get_insert by done; rewrite Z.eqb_refl; by split|].
  intros k c Hk. rewrite arr_get_insert by done. destruct (Z.eqb_spec i k) as [->|]; [|by eauto].
  rewrite Hk in Hc0. injection Hc0 as ->. by eexists.
Qed.

Section tile_lemmas.
Context (tile : m0_fd_tile).
Hypothesis Hshape : tile_shape tile.
Let G := ft_G tile.
Let P := ft_cols tile.
Let R := ft_rows tile.

Lemma tidx_range i : 0 <= tidx tile i < P.
Proof.
  destruct Hshape as (_ & _ & Hp & Hc & _). unfold P. rewrite Hc. by apply rev_idx_range.
Qed.

Lemma tidx_col i : tidx tile i = tidx tile (i mod P).
Proof.
  destruct Hshape as (_ & _ & Hp & Hc & _ & HG & _). unfold tidx, P in *.
  rewrite <- (enc_dec i (ft_cols tile)) at 1 by lia. rewrite Hc. by apply rev_idx_mod.
Qed.

Lemma tidx_inj i j : 0 <= i < P -> 0 <= j < P -> tidx tile i = tidx tile j -> i = j.
Proof.
  destruct Hshape as (_ & _ & Hp & Hc & _). unfold tidx, P. rewrite Hc. intros Hi Hj Heq.
  rewrite <- (unrev_rev_idx (tile_cs tile) i) by done. rewrite Heq. by apply unrev_rev_idx.
Qed.

(** The cell the [i]-th unit of the tile is moved to. *)
Definition loc (i : Z) : Z := i / P * P + tidx tile i.

Lemma loc_range i : 0 <= i < R * P -> 0 <= loc i < R * P.
Proof.
  intros Hi. pose proof (tidx_range i). unfold loc.
  assert (0 < P) by lia. assert (i / P < R) by (apply Z.div_lt_upper_bound; lia).
  pose proof (Z.div_pos i P ltac:(lia) ltac:(lia)). nia.
Qed.

Lemma loc_inj i j : loc i = loc j -> i = j.
Proof.
  unfold loc. intros Heq. pose proof (tidx_range i) as Hi. pose proof (tidx_range j) as Hj.
  assert (i / P = j / P) as Hd.
  { rewrite <- (div_enc (i / P) P (tidx tile i)) by done. rewrite Heq. by apply div_enc. }
  assert (tidx tile i = tidx tile j) as Ht by (rewrite Hd in Heq; lia).
  rewrite (tidx_col i), (tidx_col j) in Ht.
  apply tidx_inj in Ht; [|apply Z.mod_pos_bound; lia..].
  rewrite <- (enc_dec i P), <- (enc_dec j P) by lia. by rewrite Hd, Ht.
Qed.

Lemma populate_step row col cells :
  0 <= row < R -> 0 <= col < P -> Z.of_nat (length cells) = R * P ->
  (forall i, 0 <= i < row * P + col -> cells_ok tile cells i) ->
  exists cells', tile_populate_body tile row col cells = Some cells' /\
    Z.of_nat (length cells') = R * P /\
    forall i, 0 <= i < row * P + col + 1 -> cells_ok tile cells' i.
Proof.
  intros Hrow Hcol Hlen Hok. destruct (tile_lcm tile Hshape) as (HR & _ & HB & HB62).
  fold R P in HB, HB62. pose proof Hshape as (Hd & Hcl & Hp & Hc & Hcb & HG & _).
  unfold tile_populate_body. set (idx := row * P + col) in *.
  assert (0 <= idx < R * P) as Hidx by (unfold idx; nia).
  run m0_enc_ok by (fold P idx; lia). fold P idx.
  replace (ft_depth tile) with (Z.of_nat (Z.to_nat (ft_depth tile))) by lia.
  rewrite (fault_tolerant_idx_ok (ft_child tile) (Z.to_nat (ft_depth tile))); cycle 1.
  { lia. } { lia. } { done. } { fold (tile_cs tile). rewrite <- Hc. lia. } { unfold is_u64; lia. }
  cbn [mbind option_bind]. fold (tile_cs tile) (tidx tile idx). pose proof (tidx_range idx) as Ht.
  destruct (cell_set_tgt_ok cells idx {| ta_frame := row; ta_obj := tidx tile idx |})
    as (cells1 & Hrun1 & Hlen1 & Hset1 & Hkeep1); [lia|]. run Hrun1.
  assert (idx / P = row) as Hdiv by (apply div_enc; lia).
  assert (row * P + tidx tile idx = loc idx) as Hloc by (unfold loc; by rewrite Hdiv).
  run m0_enc_ok by (fold P; nia). fold P. rewrite Hloc. run m0_dec_ok by lia.
  destruct (cell_set_src_ok cells1 (loc idx) {| sa_group := idx / ft_G tile; sa_unit := idx mod ft_G tile |})
    as (cells2 & Hrun2 & Hlen2 & Hset2 & Hkeep2); [pose proof (loc_range idx Hidx); lia|].
  exists cells2. split; [done|]. split; [lia|]. intros i Hi. unfold cells_ok. fold P.
  destruct (Z.eq_dec i idx) as [->|Hne].
  - rewrite Hdiv, Hloc. split; [|done]. destruct Hset1 as (c1 & Hg1 & Ht1).
    destruct (Hkeep2 _ _ Hg1) as (c2 & Hg2 & Ht2 & _). exists c2. by rewrite Ht2.
  - destruct (Hok i) as ((c & Hc1 & Hc2) & (c' & Hc1' & Hc2')); [lia|]. fold P in Hc2, Hc1'. split.
    + destruct (Hkeep1 _ _ Hc1) as (c1 & Hg1 & _ & Ht1). destruct (Hkeep2 _ _ Hg1) as (c2 & Hg2 & Ht2 & _).
      exists c2. by rewrite Ht2, Ht1.
    + fold (loc i) in *. destruct (Hkeep1 _ _ Hc1') as (c1 & Hg1 & Hs1 & _).
      destruct (Hkeep2 _ _ Hg1) as (c2 & Hg2 & _ & Hs2). exists c2. split; [done|].
      rewrite Hs2, Hs1; [done|]. intros ?%loc_inj. lia.
Qed.

End tile_lemmas.

(** Populating keeps the dimensions and fills every cell. *)
Lemma tile_populate_ok tile :
  tile_shape tile ->
  exists tile', m0_fd__tile_populate tile = Some tile' /\ tile_wf tile' /\
    ft_rows tile' = ft_rows tile /\ ft_cols tile' = ft_cols tile /\ ft_G tile' = ft_G tile /\
    ft_depth tile' = ft_depth tile /\ ft_child tile' = ft_child tile.
Proof.
  intros Hs. destruct (tile_lcm tile Hs) as (HR & _ & _ & _).
  pose proof Hs as (Hd & Hcl & Hp & Hc & Hcb & HG & Hr & Hlen).
  unfold m0_fd__tile_populate.
  assert_ok by (unfold fd_tile_invariant; rewrite !andb_true_iff, !Z.ltb_lt; lia).
  set (R := ft_rows tile) in *. set (P := ft_cols tile) in *.
  destruct (for_up_total (fun row cells => Z.of_nat (length cells) = R * P /\
      forall i, 0 <= i < row * P -> cells_ok tile cells i)
    (fun row cells => for_up 0 P (fun col cells => tile_populate_body tile row col cells) cells)
    0 R (ft_cell tile)) as (cells & Hrun & Hlen' & Hok).
  - lia.
  - split; [done|]. intros i Hi. lia.
  - intros row cells Hrow [HL HI].
    destruct (for_up_total (fun col cells => Z.of_nat (length cells) = R * P /\
        forall i, 0 <= i < row * P + col -> cells_ok tile cells i)
      (fun col cells => tile_populate_body tile row col cells) 0 P cells)
      as (cells' & Hrun & HL' & HI').
    + lia.
    + split; [done|]. intros i Hi. apply HI. lia.
    + intros col cells' Hcol [HL' HI'].
      destruct (populate_step tile Hs row col cells') as (cells2 & ? & ? & H2); try done.
      exists cells2. split; [done|]. split; [done|]. intros i Hi. apply H2. fold P. lia.
    + exists cells'. split; [done|]. split; [done|]. intros i Hi. apply HI'. lia.
  - run Hrun. eexists. split; [done|]. split; [|done].
    split; [exact (conj Hd (conj Hcl (conj Hp (conj Hc (conj Hcb (conj HG (conj Hr Hlen')))))))|].
    intros i Hi. exact (Hok i Hi).
Qed.

Lemma tile_init_ok la_attr children depth :
  0 < depth < 5 -> Z.of_nat (length children) = 5 ->
  let cs := take (Z.to_nat depth) children in
  positive cs -> prodZ cs < 2 ^ 31 -> 0 < parity_group_size la_attr <= prodZ cs ->
  exists tile, m0_fd__tile_init true la_attr children depth = Some (0, Some tile) /\
    tile_shape tile /\ ft_G tile = parity_group_size la_attr /\ ft_cols tile = prodZ cs /\
    ft_depth tile = depth /\ ft_child tile = children.
Proof.
  intros Hd Hl cs Hp Hw HG. unfold m0_fd__tile_init. assert_ok by lia.
  assert (pool_width_calc children depth = Some (prodZ cs)) as Hpw.
  { rewrite <- (Z2Nat.id depth) by lia. apply pool_width_ok; [lia|done|done]. }
  run Hpw.
  run m0_gcd64_gcd by lia. set (G := parity_group_size la_attr) in *.
  assert (0 < Z.gcd G (prodZ cs)) as Hg.
  { pose proof (Z.gcd_nonneg G (prodZ cs)). assert (Z.gcd G (prodZ cs) <> 0); [|lia].
    intros ?%Z.gcd_eq_0_l. lia. }
  run div_c_ok by lia. cbn [negb]. assert_ok by (by rewrite Hl). assert_ok by lia.
  set (tile0 := {| ft_rows := G / Z.gcd G (prodZ cs); ft_cols := prodZ cs; ft_G := G;
    ft_depth := depth; ft_child := children;
    ft_cell := replicate (Z.to_nat (u64 (G / Z.gcd G (prodZ cs) * prodZ cs))) zero_cell |}).
  exists tile0. split; [done|]. split; [|done].
  refine (conj Hd (conj Hl (conj Hp (conj eq_refl (conj Hw (conj HG (conj eq_refl _))))))).
  cbn [ft_cell ft_rows ft_cols tile0]. rewrite length_replicate.
  assert (0 <= G / Z.gcd G (prodZ cs) <= G) as Hq.
  { split; [apply Z.div_pos; lia|]. apply Z.div_le_upper_bound; [lia|]. nia. }
  rewrite u64_small by (unfold is_u64; nia). nia.
Qed.

Section tile_maps.
Context (tile : m0_fd_tile).
Hypothesis Hwf : tile_wf tile.

Lemma tile_C_ok : div_c (u64 (ft_rows tile * ft_cols tile)) (ft_G tile) = Some (tile_C tile).
Proof.
  destruct Hwf as [Hs _]. destruct (tile_lcm tile Hs) as (HR & HC & HB & H62).
  destruct Hs as (_ & _ & _ & _ & _ & HG & _). rewrite u64_small by (unfold is_u64; nia).
  rewrite div_c_ok by lia. f_equal. rewrite HB. apply Z.div_mul. lia.
Qed.

Lemma tile_invariant_ok : fd_tile_invariant tile = true.
Proof.
  destruct Hwf as [Hs _]. destruct (tile_lcm tile Hs) as (HR & _).
  destruct Hs as (_ & _ & _ & _ & _ & HG & _). unfold fd_tile_invariant.
  rewrite !andb_true_iff, !Z.ltb_lt. lia.
Qed.

(** A unit of a group: the tile, and its number in the tile. *)
Lemma src_to_tgt_ok src :
  is_u64 (sa_group src) -> 0 <= sa_unit src < ft_G tile ->
  let omega := sa_group src / tile_C tile in
  let i := sa_group src mod tile_C tile * ft_G tile + sa_unit src in
  0 <= i < ft_rows tile * ft_cols tile /\ i / ft_cols tile < ft_rows tile /\
  is_u64 (omega * ft_rows tile + i / ft_cols tile) /\
  m0_fd_src_to_tgt tile src =
    Some {| ta_frame := omega * ft_rows tile + i / ft_cols tile; ta_obj := tidx tile i |}.
Proof.
  intros [Hg0 Hg] Hu omega i. destruct Hwf as [Hs Hcells].
  destruct (tile_lcm tile Hs) as (HR & HC & HB & H62). pose proof Hs as (_ & _ & _ & _ & _ & HG & _).
  pose proof (Z.mod_pos_bound (sa_group src) (tile_C tile) ltac:(lia)) as Hm.
  pose proof (enc_dec (sa_group src) (tile_C tile) ltac:(lia)) as Hdec. fold omega in Hdec.
  assert (0 <= i < ft_rows tile * ft_cols tile) as Hi by (unfold i; nia).
  assert (0 <= i / ft_cols tile < ft_rows tile) as Hq
    by (split; [apply Z.div_pos; lia|apply Z.div_lt_upper_bound; lia]).
  assert (i / ft_cols tile < sa_group src mod tile_C tile + 1) as Hq2
    by (apply Z.div_lt_upper_bound; [lia|unfold i; nia]).
  assert (0 <= omega) by (apply Z.div_pos; lia).
  assert (is_u64 (omega * ft_rows tile + i / ft_cols tile)) as Hf by (unfold is_u64; nia).
  do 3 (split; [done||lia|]). unfold m0_fd_src_to_tgt. assert_ok by apply tile_invariant_ok.
  run tile_C_ok. run m0_dec_ok by lia. fold omega. assert_ok by lia. run m0_enc_ok by (fold i; lia).
  fold i. destruct (Hcells i Hi) as ((c & Hget & Ht) & _). run Hget. rewrite Ht. cbn [ta_frame ta_obj].
  rewrite (u64_small (omega * _)) by (unfold is_u64 in *; nia).
  rewrite Z.add_comm, u64_small by done. done.
Qed.

Lemma tgt_to_src_ok tgt i :
  is_u64 (ta_frame tgt) -> ta_frame tgt mod ft_rows tile = i / ft_cols tile ->
  ta_obj tgt = tidx tile i -> 0 <= i < ft_rows tile * ft_cols tile ->
  let omega := ta_frame tgt / ft_rows tile in
  omega * tile_C tile + i / ft_G tile < 2 ^ 64 ->
  m0_fd_tgt_to_src tile tgt =
    Some {| sa_group := omega * tile_C tile + i / ft_G tile; sa_unit := i mod ft_G tile |}.
Proof.
  intros [Hf0 Hf] Hfr Hobj Hi omega Hov. destruct Hwf as [Hs Hcells].
  destruct (tile_lcm tile Hs) as (HR & HC & HB & H62). pose proof Hs as (_ & _ & _ & _ & _ & HG & _).
  unfold m0_fd_tgt_to_src. assert_ok by apply tile_invariant_ok. run tile_C_ok.
  run m0_dec_ok by lia. fold omega. rewrite Hfr, Hobj.
  pose proof (tidx_range tile Hs i). pose proof (loc_range tile Hs i Hi) as Hl. unfold loc in Hl.
  pose proof (Z.div_pos i (ft_cols tile) ltac:(lia) ltac:(lia)).
  run m0_enc_ok by lia. destruct (Hcells i Hi) as (_ & c & Hget & Hsrc). run Hget.
  rewrite Hsrc. cbn [sa_group sa_unit].
  assert (0 <= omega) by (apply Z.div_pos; lia).
  pose proof (Z.div_pos i (ft_G tile) ltac:(lia) ltac:(lia)).
  rewrite (u64_small (omega * _)) by (unfold is_u64; nia).
  rewrite Z.add_comm, u64_small by (unfold is_u64; nia). done.
Qed.

Lemma tile_src_tgt_src src :
  is_u64 (sa_group src) -> 0 <= sa_unit src < ft_G tile ->
  exists tgt, m0_fd_src_to_tgt tile src = Some tgt /\
    is_u64 (ta_frame tgt) /\ 0 <= ta_obj tgt < ft_cols tile /\
    m0_fd_tgt_to_src tile tgt = Some src.
Proof.
  intros Hg Hu. pose proof Hwf as [Hs _]. destruct (tile_lcm tile Hs) as (HR & HC & HB & _).
  destruct (src_to_tgt_ok src Hg Hu) as (Hi & Hq & Hf & Hrun).
  set (omega := sa_group src / tile_C tile) in *.
  set (i := sa_group src mod tile_C tile * ft_G tile + sa_unit src) in *.
  pose proof (Z.div_pos i (ft_cols tile) ltac:(lia) ltac:(pose proof (tidx_range tile Hs 0); lia)).
  eexists. split; [done|]. cbn [ta_frame ta_obj]. split; [done|]. split; [by apply tidx_range|].
  pose proof (tgt_to_src_ok {| ta_frame := omega * ft_rows tile + i / ft_cols tile;
    ta_obj := tidx tile i |} i) as Hback. cbv zeta in Hback. cbn [ta_frame ta_obj] in Hback.
  rewrite mod_enc, div_enc in Hback by lia.
  assert (i / ft_G tile = sa_group src mod tile_C tile) as Hg' by (apply div_enc; lia).
  assert (i mod ft_G tile = sa_unit src) as Hu' by (apply mod_enc; lia).
  pose proof (enc_dec (sa_group src) (tile_C tile) ltac:(lia)) as Hdec. fold omega in Hdec.
  rewrite Hg', Hu', Hdec in Hback. destruct src. apply Hback; try done. apply Hg.
Qed.

Lemma tile_tgt_src_tgt tgt :
  is_u64 (ta_frame tgt) -> 0 <= ta_obj tgt < ft_cols tile ->
  (ta_frame tgt / ft_rows tile + 1) * tile_C tile <= 2 ^ 64 ->
  exists src, m0_fd_tgt_to_src tile tgt = Some src /\
    is_u64 (sa_group src) /\ 0 <= sa_unit src < ft_G tile /\
    m0_fd_src_to_tgt tile src = Some tgt.
Proof.
  intros [Hf0 Hf] Ho Hov. pose proof Hwf as [Hs _]. destruct (tile_lcm tile Hs) as (HR & HC & HB & _).
  pose proof Hs as (_ & _ & Hp & Hcols & _ & HG & _).
  set (omega := ta_frame tgt / ft_rows tile) in *.
  pose proof (Z.mod_pos_bound (ta_frame tgt) (ft_rows tile) ltac:(lia)) as Hr.
  set (col := unrev_idx (tile_cs tile) (ta_obj tgt)).
  assert (0 <= col < ft_cols tile) as Hcol by (rewrite Hcols in *; by apply unrev_idx_range).
  set (i := ta_frame tgt mod ft_rows tile * ft_cols tile + col).
  assert (0 <= i < ft_rows tile * ft_cols tile) as Hi by (unfold i; nia).
  assert (i / ft_cols tile = ta_frame tgt mod ft_rows tile) as Hq by (apply div_enc; lia).
  assert (tidx tile i = ta_obj tgt) as Ht.
  { rewrite (tidx_col tile Hs). unfold i. rewrite mod_enc by lia. unfold tidx.
    apply rev_unrev_idx; [done|by rewrite <- Hcols]. }
  assert (0 <= i / ft_G tile < tile_C tile) as Hg
    by (split; [apply Z.div_pos; lia|apply Z.div_lt_upper_bound; lia]).
  assert (0 <= omega) by (apply Z.div_pos; lia).
  assert (is_u64 (omega * tile_C tile + i / ft_G tile)) as Hgr by (unfold is_u64; nia).
  pose proof (Z.mod_pos_bound i (ft_G tile) ltac:(lia)) as Hu.
  eexists. split; [apply (tgt_to_src_ok tgt i); try done; apply Hgr|]. fold omega.
  split; [done|]. split; [done|]. cbn [sa_group sa_unit].
  destruct (src_to_tgt_ok {| sa_group := omega * tile_C tile + i / ft_G tile;
    sa_unit := i mod ft_G tile |} Hgr Hu) as (_ & _ & _ & ->). cbn [sa_group sa_unit].
  rewrite div_enc, mod_enc, enc_dec by lia. rewrite Ht, Hq. unfold omega. rewrite enc_dec by lia.
  by destruct tgt.
Qed.

End tile_maps.

(** ** Properties of the tile *)

(** C19. For every symmetric tree of depth at most four whose width fits an [int]
    and whose parity groups are not wider than the tree, m0_fd__tile_init() and
    m0_fd__tile_populate() succeed, and on the resulting tile m0_fd_src_to_tgt()
    and m0_fd_tgt_to_src() are inverse to each other: no two units share a frame
    and no frame of the symmetric tree is lost. *)
Theorem fd_tile_roundtrip la_attr children depth :
  0 < depth < 5 -> Z.of_nat (length children) = 5 ->
  positive (take (Z.to_nat depth) children) -> prodZ (take (Z.to_nat depth) children) < 2 ^ 31 ->
  0 < parity_group_size la_attr <= prodZ (take (Z.to_nat depth) children) ->
  exists tile0 tile,
    m0_fd__tile_init true la_attr children depth = Some (0, Some tile0) /\
    m0_fd__tile_populate tile0 = Some tile /\
    (forall src, is_u64 (sa_group src) -> 0 <= sa_unit src < ft_G tile ->
       exists tgt, m0_fd_src_to_tgt tile src = Some tgt /\
         is_u64 (ta_frame tgt) /\ 0 <= ta_obj tgt < ft_cols tile /\
         m0_fd_tgt_to_src tile tgt = Some src) /\
    (forall tgt, is_u64 (ta_frame tgt) -> 0 <= ta_obj tgt < ft_cols tile ->
       (ta_frame tgt / ft_rows tile + 1) * tile_C tile <= 2 ^ 64 ->
       exists src, m0_fd_tgt_to_src tile tgt = Some src /\
         is_u64 (sa_group src) /\ 0 <= sa_unit src < ft_G tile /\
         m0_fd_src_to_tgt tile src = Some tgt).
Proof.
  intros Hd Hl Hp Hw HG.
  destruct (tile_init_ok la_attr children depth Hd Hl Hp Hw HG) as (tile0 & Hinit & Hs & _).
  destruct (tile_populate_ok tile0 Hs) as (tile & Hpop & Hwf & _).
  exists tile0, tile. split; [done|]. split; [done|]. split.
  - intros src Hg Hu. by apply tile_src_tgt_src.
  - intros tgt Hf Ho Hov. by apply tile_tgt_src_tgt.
Qed.

Definition example_fd_attr : m0_pdclust_attr :=
  {| pa_N := 4; pa_K := 2; pa_S := 2; pa_P := 24; pa_unit_size := 4096; pa_seed := M0_UINT128 42 43 |}.

Lemma fd_tile_roundtrip_witness :
  exists tile0 tile tgt,
    m0_fd__tile_init true example_fd_attr [2; 3; 4; 1; 0] 3 = Some (0, Some tile0) /\
    m0_fd__tile_populate tile0 = Some tile /\
    m0_fd_src_to_tgt tile {| sa_group := 1000; sa_unit := 7 |} = Some tgt /\
    m0_fd_tgt_to_src tile tgt = Some {| sa_group := 1000; sa_unit := 7 |}.
Proof.
  destruct (fd_tile_roundtrip example_fd_attr [2; 3; 4; 1; 0] 3)
    as (tile0 & tile & Hinit & Hpop & Hfwd & _).
  - lia.
  - reflexivity.
  - repeat constructor.
  - vm_compute. reflexivity.
  - split; vm_compute; congruence.
  - exists tile0, tile.
    assert (ft_G tile = 8) as HG.
    { revert Hpop. vm_compute in Hinit. injection Hinit as <-. vm_compute. by intros [= <-]. }
    destruct (Hfwd {| sa_group := 1000; sa_unit := 7 |}) as (tgt & H1 & _ & _ & H2).
    + split; vm_compute; congruence.
    + rewrite HG. cbn [sa_unit]. lia.
    + exists tgt. repeat (split; [assumption|]). assumption.
Defined.
