(* ===== verification/FdFault.v ===== *)
(** * fd: fault isolation

    Relates the two halves of the failure-domains code: how the tile that
    m0_fd__tile_populate() builds spreads the units of a parity group over the
    nodes of every level of the symmetric tree, and what a successful
    tolerance_check() says about losing nodes of a level. *)
From S2P Require Import Prelude LibArith Fid FdPerm Pdclust FdTol FdTile.

(** ** Definitions *)

(** The node of level [l] above the target of a unit. *)
Definition unit_node (tile : m0_fd_tile) (l : nat) (group u : Z) : option Z :=
  tgt ← m0_fd_src_to_tgt tile {| sa_group := group; sa_unit := u |};
  Some (ta_obj tgt / prodZ (drop l (tile_cs tile))).

#[export] Instance unit_node_decision tile l group (nodes : list Z) u :
  Decision (match unit_node tile l group u with Some n => n ∈ nodes | None => False end).
Proof. destruct (unit_node tile l group u); apply _. Defined.

(** The units of a group that are lost with the nodes [nodes] of level [l]. *)
Definition lost_units (tile : m0_fd_tile) (l : nat) (group : Z) (nodes : list Z) : list Z :=
  filter (fun u => match unit_node tile l group u with Some n => n ∈ nodes | None => False end)
    (seqZ 0 (ft_G tile)).

(** ** Counting residues *)

Lemma cnt_succ m n b :
  0 < m -> 0 <= b < m -> cnt m (n + 1) b = cnt m n b + (if n mod m =? b then 1 else 0).
Proof.
  intros Hm Hb. unfold cnt. pose proof (enc_dec n m ltac:(lia)) as Hd.
  pose proof (Z.mod_pos_bound n m Hm) as Hr. set (q := n / m) in *. set (r := n mod m) in *.
  destruct (Z.lt_total r b) as [Hlt|[Heq|Hgt]].
  - replace (n + 1 + m - 1 - b) with (q * m + (r + m - b)) by lia.
    replace (n + m - 1 - b) with (q * m + (r + m - 1 - b)) by lia. rewrite !div_enc by lia.
    destruct (Z.eqb_spec r b); lia.
  - replace (n + 1 + m - 1 - b) with ((q + 1) * m + 0) by lia.
    replace (n + m - 1 - b) with (q * m + (m - 1)) by lia. rewrite !div_enc by lia.
    destruct (Z.eqb_spec r b); lia.
  - replace (n + 1 + m - 1 - b) with ((q + 1) * m + (r - b)) by lia.
    replace (n + m - 1 - b) with ((q + 1) * m + (r - 1 - b)) by lia. rewrite !div_enc by lia.
    destruct (Z.eqb_spec r b); lia.
Qed.

(** A window of [n] consecutive numbers starting at [s]. *)
Lemma count_residues m s a n :
  0 < m -> 0 <= a < m -> 0 <= n ->
  Z.of_nat (length (filter (fun u => (s + u) mod m = a) (seqZ 0 n))) = cnt m n ((a - s) mod m).
Proof.
  intros Hm Ha Hn. rewrite <- (Z2Nat.id n Hn). generalize (Z.to_nat n) as k. clear n Hn.
  pose proof (Z.mod_pos_bound (a - s) m Hm) as Hb.
  induction k as [|k IH].
  { cbn. unfold cnt. symmetry. apply Z.div_small. lia. }
  rewrite Nat2Z.inj_succ, <- Z.add_1_r, seqZ_snoc, filter_app, length_app by lia.
  rewrite Nat2Z.inj_add, IH, cnt_succ by done. f_equal.
  rewrite filter_cons, filter_nil.
  assert ((s + Z.of_nat k) mod m = a <-> Z.of_nat k mod m = (a - s) mod m) as Hiff.
  { split; intros H.
    - rewrite <- H, Zminus_mod_idemp_l. f_equal. lia.
    - rewrite <- Zplus_mod_idemp_r, H, Zplus_mod_idemp_r.
      replace (s + (a - s)) with a by lia. by apply Z.mod_small. }
  destruct (Z.eqb_spec (Z.of_nat k mod m) ((a - s) mod m)); destruct (decide _); try done; tauto.
Qed.

Lemma sumZ_perm l1 l2 : l1 ≡ₚ l2 -> sumZ l1 = sumZ l2.
Proof.
  induction 1 as [|x l1 l2 _ IH|x y l|l1 l2 l3 _ IH1 _ IH2]; unfold sumZ in *; cbn; lia.
Qed.

Lemma list_max (l : list Z) :
  l <> [] -> exists m l', l ≡ₚ m :: l' /\ Forall (fun x => x <= m) l.
Proof.
  induction l as [|x l IH]; [done|]. intros _. destruct l as [|y l].
  { exists x, []. split; [done|]. by repeat constructor. }
  destruct IH as (m & l' & Hp & Hm); [done|]. destruct (Z.le_gt_cases x m).
  - exists m, (x :: l'). split; [rewrite Hp; constructor|by constructor].
  - exists x, (y :: l). split; [done|]. constructor; [lia|].
    eapply Forall_impl; [exact Hm|]. intros; simpl in *; lia.
Qed.

(** An antitone function sums to at most what it does on the first numbers. *)
Lemma sum_antitone (f : Z -> Z) (l : list Z) :
  (forall a b, 0 <= a <= b -> f b <= f a) -> NoDup l -> Forall (Z.le 0) l ->
  sumZ (f <$> l) <= sumZ (f <$> seqZ 0 (Z.of_nat (length l))).
Proof.
  intros Hf. remember (length l) as n eqn:Hn. revert l Hn.
  induction n as [|n IH]; intros l Hn Hnd Hnn.
  { destruct l; [done|discriminate]. }
  destruct (list_max l) as (m & l' & Hp & Hmax); [intros ->; discriminate|].
  assert (NoDup (m :: l')) as Hnd' by (by rewrite <- Hp).
  assert (Forall (Z.le 0) (m :: l')) as Hnn' by (by rewrite <- Hp).
  apply NoDup_cons in Hnd' as [_ Hnd']. apply Forall_cons in Hnn' as [Hm Hnn'].
  assert (length l' = n) as Hl' by (apply Permutation_length in Hp; simpl in Hp; lia).
  rewrite (sumZ_perm (f <$> l) (f <$> m :: l')) by (by rewrite Hp). rewrite fmap_cons.
  change (f m + sumZ (f <$> l') <= sumZ (f <$> seqZ 0 (Z.of_nat (S n)))).
  rewrite Nat2Z.inj_succ, <- Z.add_1_r, seqZ_snoc, fmap_app, sumZ_app by lia.
  specialize (IH l' (eq_sym Hl') Hnd' Hnn').
  assert (Z.of_nat n <= m) as Hnm.
  { pose proof (submseteq_length l (seqZ 0 (m + 1))) as Hs. rewrite length_seqZ in Hs.
    assert (length l <= Z.to_nat (m + 1))%nat; [|lia]. apply Hs, NoDup_submseteq; [done|].
    intros x Hx. apply elem_of_seqZ. rewrite Forall_forall in Hnn, Hmax.
    specialize (Hnn x Hx). specialize (Hmax x Hx). lia. }
  pose proof (Hf (Z.of_nat n) m ltac:(lia)).
  change (sumZ (f <$> [Z.of_nat n])) with (f (Z.of_nat n) + 0). lia.
Qed.

Lemma sumZ_fmap_add (f g : Z -> Z) l :
  sumZ ((fun x => f x + g x) <$> l) = sumZ (f <$> l) + sumZ (g <$> l).
Proof. induction l as [|x l IH]; [done|]. unfold sumZ in *. cbn. rewrite IH. lia. Qed.

Lemma sumZ_fmap_ext (f g : Z -> Z) l :
  (forall x, x ∈ l -> f x = g x) -> sumZ (f <$> l) = sumZ (g <$> l).
Proof. intros H. f_equal. apply list_fmap_ext. intros ? ? ?%list_elem_of_lookup_2. auto. Qed.

Lemma sum_indicator (o : option Z) (nodes : list Z) :
  NoDup nodes ->
  sumZ ((fun n => if decide (o = Some n) then 1 else 0) <$> nodes) =
  match o with Some n => if decide (n ∈ nodes) then 1 else 0 | None => 0 end.
Proof.
  induction 1 as [|n nodes Hn Hnd IH].
  { destruct o; [|done]. destruct (decide (z ∈ [])); set_solver. }
  rewrite fmap_cons. change (sumZ (?x :: ?l)) with (x + sumZ l). rewrite IH.
  destruct o as [v|]; [|by destruct (decide (None = Some n))].
  destruct (decide (Some v = Some n)) as [[= ->]|Hne].
  - rewrite (decide_False (P := n ∈ nodes)), decide_True by set_solver. done.
  - destruct (decide (v ∈ nodes)); [rewrite decide_True by set_solver|rewrite decide_False by set_solver];
      done.
Qed.

Lemma sumZ_nonneg l : Forall (Z.le 0) l -> 0 <= sumZ l.
Proof. induction 1 as [|x l Hx _ IH]; [done|]. change (0 <= x + sumZ l). lia. Qed.

(** Counting by the value of a function. *)
Lemma count_by_value (g : Z -> option Z) (us nodes : list Z)
    `{HD : !forall u, Decision (match g u with Some n => n ∈ nodes | None => False end)} :
  NoDup nodes ->
  Z.of_nat (length (filter (fun u => match g u with Some n => n ∈ nodes | None => False end) us)) =
  sumZ ((fun n => Z.of_nat (length (filter (fun u => g u = Some n) us))) <$> nodes).
Proof.
  intros Hnd. induction us as [|u us IH].
  { rewrite filter_nil. rewrite (sumZ_fmap_ext _ (fun _ => 0)) by done.
    clear. induction nodes; [done|]. done. }
  rewrite (sumZ_fmap_ext _ (fun n => Z.of_nat (length (filter (fun u => g u = Some n) us)) +
    (if decide (g u = Some n) then 1 else 0))).
  - rewrite sumZ_fmap_add, <- IH, sum_indicator by done. rewrite filter_cons.
    destruct (decide _) as [H|H]; revert H; destruct (g u) as [v|]; intros H; try done;
      [destruct (decide (v ∈ nodes))..|]; try done; simpl; lia.
  - intros n _. rewrite filter_cons. destruct (decide (g u = Some n)); simpl; lia.
Qed.

(** ** Nodes of a level *)

Lemma rev_idx_prefix cs l x :
  positive cs -> rev_idx cs x / prodZ (drop l cs) = rev_idx (take l cs) x.
Proof.
  intros Hp. revert l x. induction Hp as [|c cs Hc Hp IH]; intros l x.
  { by rewrite drop_nil, take_nil. }
  destruct l as [|l].
  { change (take 0 (c :: cs)) with (@nil Z). rewrite drop_0. apply Z.div_small. apply rev_idx_range.
    by constructor. }
  cbn [take drop rev_idx]. rewrite <- IH. pose proof (prodZ_pos (drop l cs) ltac:(by apply Forall_drop)).
  rewrite <- (take_drop l cs) at 1. rewrite prodZ_app, Z.mul_assoc, Z.div_add_l by lia. done.
Qed.

Lemma residue_inj cs s n n' :
  positive cs -> 0 <= n < prodZ cs -> 0 <= n' < prodZ cs ->
  (unrev_idx cs n - s) mod prodZ cs = (unrev_idx cs n' - s) mod prodZ cs -> n = n'.
Proof.
  intros Hp Hn Hn' Heq. pose proof (unrev_idx_range cs n Hp Hn) as H1.
  pose proof (unrev_idx_range cs n' Hp Hn') as H2.
  rewrite <- (rev_unrev_idx cs n), <- (rev_unrev_idx cs n') by done. f_equal.
  set (a := unrev_idx cs n) in *. set (b := unrev_idx cs n') in *.
  destruct (Z.lt_total a b) as [Hlt|[?|Hlt]]; [|done|]; exfalso.
  - apply (mod_diff_lt (a - s) (b - a) (prodZ cs)); [lia|].
    by replace (a - s + (b - a)) with (b - s) by lia.
  - apply (mod_diff_lt (b - s) (a - b) (prodZ cs)); [lia|].
    by replace (b - s + (a - b)) with (a - s) by lia.
Qed.

(** Filters with the same members on the list. *)
Lemma list_filter_iff' {A} (P Q : A -> Prop) `{!forall x, Decision (P x), !forall x, Decision (Q x)}
    (l : list A) :
  (forall x, x ∈ l -> P x <-> Q x) -> filter P l = filter Q l.
Proof.
  induction l as [|x l IH]; intros Hiff; [done|]. rewrite !filter_cons.
  rewrite IH by (intros; apply Hiff; by right). pose proof (Hiff x ltac:(by left)).
  destruct (decide (P x)), (decide (Q x)); tauto.
Qed.

Section spread.
Context (tile : m0_fd_tile) (group : Z) (l : nat).
Hypothesis Hwf : tile_wf tile.
Hypothesis Hgroup : is_u64 group.
Let cs := take l (tile_cs tile).
Let M := prodZ cs.
Let G := ft_G tile.
Let s := group mod tile_C tile * G.

Lemma prefix_positive : positive cs.
Proof. destruct Hwf as [(_ & _ & Hp & _) _]. by apply Forall_take. Qed.

Lemma unit_node_ok u : 0 <= u < G -> unit_node tile l group u = Some (rev_idx cs (s + u)).
Proof.
  intros Hu. unfold unit_node.
  destruct (src_to_tgt_ok tile Hwf {| sa_group := group; sa_unit := u |} Hgroup Hu)
    as (_ & _ & _ & Hrun).
  run Hrun. cbn [sa_group sa_unit ta_obj]. unfold tidx. rewrite rev_idx_prefix; [done|].
  by destruct Hwf as [(_ & _ & Hp & _) _].
Qed.

Lemma node_count n :
  0 <= n < M ->
  Z.of_nat (length (filter (fun u => unit_node tile l group u = Some n) (seqZ 0 G))) =
  cnt M G ((unrev_idx cs n - s) mod M).
Proof.
  intros Hn. pose proof prefix_positive as Hp. pose proof (unrev_idx_range cs n Hp Hn) as Hr. fold M in Hr.
  assert (0 < G) as HG by (destruct Hwf as [(_ & _ & _ & _ & _ & HG & _) _]; apply HG).
  rewrite <- (count_residues M s) by lia. f_equal. f_equal.
  apply list_filter_iff'. intros u Hu%elem_of_seqZ. rewrite unit_node_ok by lia.
  split.
  - intros [= Heq]. pose proof (Z.mod_pos_bound (s + u) M ltac:(lia)).
    rewrite <- Heq. rewrite <- (enc_dec (s + u) M) at 2 by lia. unfold M at 2.
    rewrite rev_idx_mod, unrev_rev_idx by (done || lia). done.
  - intros Heq. f_equal. rewrite <- (enc_dec (s + u) M) by lia. unfold M at 2.
    rewrite rev_idx_mod by done. fold M. rewrite Heq. by apply rev_unrev_idx.
Qed.

(** Losing nodes of a level loses at most what the fullest ones hold. *)
Lemma lost_units_bound nodes :
  NoDup nodes -> Forall (fun n => 0 <= n < M) nodes ->
  Z.of_nat (length (lost_units tile l group nodes)) <=
  sumZ (cnt M G <$> seqZ 0 (Z.of_nat (length nodes))).
Proof.
  intros Hnd Hr. unfold lost_units. rewrite count_by_value by done. fold G.
  pose proof (prodZ_pos cs prefix_positive) as HM. fold M in HM.
  rewrite Forall_forall in Hr.
  rewrite (sumZ_fmap_ext _ (cnt M G ∘ (fun n => (unrev_idx cs n - s) mod M)))
    by (intros n Hn; by apply node_count, Hr).
  rewrite list_fmap_compose. set (res := (fun n => (unrev_idx cs n - s) mod M) <$> nodes).
  replace (length nodes) with (length res) by apply length_fmap.
  apply sum_antitone.
  - intros a b Hab. apply cnt_antitone; lia.
  - unfold res. apply NoDup_fmap_2_strong; [|done]. intros n n' Hn Hn' Heq.
    apply (residue_inj cs s); auto using prefix_positive.
  - unfold res. apply Forall_fmap, Forall_forall. intros n _. cbn. apply Z.mod_pos_bound. lia.
Qed.

(** The nodes of the level that hold for the group what the nodes [bs] hold when its
    first unit is in the first node. *)
Definition shifted (bs : list Z) : list Z := (fun b => rev_idx cs ((unrev_idx cs b + s) mod M)) <$> bs.

Lemma shifted_range bs : Forall (fun n => 0 <= n < M) (shifted bs).
Proof. apply Forall_fmap, Forall_forall. intros b _. apply rev_idx_range, prefix_positive. Qed.

Lemma unrev_shifted b : unrev_idx cs (rev_idx cs ((unrev_idx cs b + s) mod M)) = (unrev_idx cs b + s) mod M.
Proof.
  pose proof prefix_positive as Hp. apply unrev_rev_idx; [done|].
  apply Z.mod_pos_bound, (prodZ_pos cs Hp).
Qed.

Lemma shift_back b : 0 <= b < M -> ((unrev_idx cs b + s) mod M - s) mod M = unrev_idx cs b.
Proof.
  intros Hb. rewrite Zminus_mod_idemp_l, Z.add_simpl_r.
  apply Z.mod_small, unrev_idx_range; [apply prefix_positive|done].
Qed.

Lemma shifted_NoDup bs : NoDup bs -> Forall (fun b => 0 <= b < M) bs -> NoDup (shifted bs).
Proof.
  intros Hnd Hr. rewrite Forall_forall in Hr. apply NoDup_fmap_2_strong; [|done]. intros b b' Hb Hb' Heq.
  apply (f_equal (unrev_idx cs)) in Heq. rewrite !unrev_shifted in Heq.
  apply (f_equal (fun x => (x - s) mod M)) in Heq. rewrite !shift_back in Heq by auto.
  pose proof prefix_positive as Hp.
  by rewrite <- (rev_unrev_idx cs b), <- (rev_unrev_idx cs b'), Heq by auto.
Qed.

(** Losing the shifted nodes loses what the row of the level says for [bs]. *)
Lemma lost_shifted bs :
  NoDup bs -> Forall (fun b => 0 <= b < M) bs ->
  Z.of_nat (length (lost_units tile l group (shifted bs))) = sumZ
    ((fun b => cnt M G (unrev_idx cs b)) <$> bs).
Proof.
  intros Hnd Hr. unfold lost_units. rewrite count_by_value by (by apply shifted_NoDup). fold G.
  pose proof (shifted_range bs) as Hs. rewrite Forall_forall in Hr, Hs.
  rewrite (sumZ_fmap_ext _ (fun n => cnt M G ((unrev_idx cs n - s) mod M)))
    by (intros n Hn; by apply node_count, Hs).
  unfold shifted. rewrite <- list_fmap_compose. apply sumZ_fmap_ext. intros b Hb. cbn.
  by rewrite unrev_shifted, shift_back by auto.
Qed.

End spread.

(** The nodes of a level in the order in which units_calc() visits them. *)
Definition visit_order (parent_nr c : Z) : list Z :=
  cid ← seqZ 0 c; (fun pid => pid * c + cid) <$> seqZ 0 parent_nr.

Lemma visits_order parent_nr c row :
  visits parent_nr c row = (fun b => default 0 (arr_get row b)) <$> visit_order parent_nr c.
Proof.
  unfold visits, visit_order, visit_col. induction (seqZ 0 c) as [|cid l IH]; [done|].
  cbn [fmap list_fmap mjoin list_join mbind list_bind] in *. rewrite fmap_app, <- list_fmap_compose.
  by f_equal.
Qed.

Lemma visit_order_range parent_nr c :
  Forall (fun b => 0 <= b < parent_nr * c) (visit_order parent_nr c).
Proof.
  apply Forall_forall. intros b (cid & (pid & -> & Hp)%list_elem_of_fmap & Hc)%list_elem_of_bind.
  apply elem_of_seqZ in Hp, Hc. nia.
Qed.

Lemma visit_order_NoDup parent_nr c : NoDup (visit_order parent_nr c).
Proof.
  apply NoDup_bind; [| |apply NoDup_seqZ].
  - intros i j b Hi%elem_of_seqZ Hj%elem_of_seqZ (p & ->
      & Hp)%list_elem_of_fmap (p' & Heq & Hp')%list_elem_of_fmap.
    apply (f_equal (fun x => x mod c)) in Heq. rewrite !mod_enc in Heq by lia. done.
  - intros i Hi%elem_of_seqZ. apply NoDup_fmap_2_strong; [|apply NoDup_seqZ]. intros p p' _ _ Heq. nia.
Qed.

(** What the check computes at a level is what some nodes of it hold. *)
Lemma level_sum_nodes cs G (l : nat) tol :
  positive cs -> 0 <= G -> (1 <= l <= length cs)%nat -> 0 <= tol ->
  exists bs, NoDup bs /\ Forall (fun b => 0 <= b < prodZ (take l cs)) bs /\ Z.of_nat (length bs) <= tol /\
    level_sum cs G (Z.of_nat l) tol =
      sumZ ((fun b => cnt (prodZ (take l cs)) G (unrev_idx (take l cs) b)) <$> bs).
Proof.
  intros Hp HG Hl Ht. unfold level_sum. destruct (lookup_lt_is_Some_2 cs (l - 1)) as [c Hc]; [lia|].
  replace (Z.to_nat (Z.of_nat l - 1)) with (l - 1)%nat by lia. rewrite Nat2Z.id.
  assert (arr_get cs (Z.of_nat l - 1) = Some c) as ->.
  { apply arr_get_Some. split; [lia|]. by replace (Z.to_nat (Z.of_nat l - 1)) with (l - 1)%nat by lia. }
  cbn [default]. assert (take l cs = take (l - 1) cs ++ [c]) as Htake.
  { replace l with (S (l - 1)) at 1 by lia. by apply take_S_r. }
  destruct (row_of_level (take l cs) G ltac:(by apply Forall_take) HG) as [_ Hrow].
  assert (prodZ (take (l - 1) cs) * c = prodZ (take l cs)) as Hprod
    by (rewrite Htake, prodZ_app, prodZ_cons; change (prodZ []) with 1; lia).
  pose proof (visit_order_range (prodZ (take (l - 1) cs)) c) as Hr. rewrite Hprod in Hr.
  exists (take (Z.to_nat tol) (visit_order (prodZ (take (l - 1) cs)) c)). split_and!.
  - eapply sublist_NoDup; [apply visit_order_NoDup|apply sublist_take].
  - by apply Forall_take.
  - rewrite length_take. lia.
  - rewrite visits_order, <- fmap_take. apply sumZ_fmap_ext. intros b Hb.
    rewrite Forall_forall in Hr. apply elem_of_take in Hb as (j & Hb%list_elem_of_lookup_2 & _).
    by rewrite Hrow by auto.
Qed.

(** The sum the check computes at one of the first two levels. *)
Lemma level_sum_desc cs G (l : nat) tol :
  positive cs -> 0 <= G -> (1 <= l <= 2)%nat -> (l <= length cs)%nat -> 0 <= tol ->
  level_sum cs G (Z.of_nat l) tol =
    sumZ (take (Z.to_nat tol) (cnt (prodZ (take l cs)) G <$> seqZ 0 (prodZ (take l cs)))).
Proof.
  intros Hp HG Hl Hlen Ht. unfold level_sum.
  destruct (lookup_lt_is_Some_2 cs (l - 1)) as [c Hc]; [lia|].
  pose proof (Forall_lookup_1 _ _ _ _ Hp Hc) as Hc0.
  replace (Z.to_nat (Z.of_nat l - 1)) with (l - 1)%nat by lia. rewrite Nat2Z.id.
  assert (arr_get cs (Z.of_nat l - 1) = Some c) as ->.
  { apply arr_get_Some. split; [lia|]. by replace (Z.to_nat (Z.of_nat l - 1)) with (l - 1)%nat by lia. }
  cbn [default]. assert (take l cs = take (l - 1) cs ++ [c]) as Htake.
  { replace l with (S (l - 1)) at 1 by lia. by apply take_S_r. }
  pose proof (row_of_level (take l cs) G ltac:(by apply Forall_take) HG) as Hrow.
  rewrite Htake in Hrow at 1.
  rewrite (visits_desc (take (l - 1) cs) c G); [|by apply Forall_take|done| |done].
  - rewrite Htake. rewrite !prodZ_app, prodZ_cons. change (prodZ []) with 1. by rewrite Z.mul_1_r.
  - rewrite length_take. lia.
Qed.

Lemma nodes_length (nodes : list Z) M :
  NoDup nodes -> Forall (fun n => 0 <= n < M) nodes -> Z.of_nat (length nodes) <= M \/ nodes = [].
Proof.
  intros Hnd Hr. destruct nodes as [|n nodes]; [by right|]. left.
  pose proof (submseteq_length (n :: nodes) (seqZ 0 M)) as Hs. rewrite length_seqZ in Hs.
  assert (0 < M) by (apply Forall_cons in Hr as [? _]; lia).
  assert (length (n :: nodes) <= Z.to_nat M)%nat; [|lia]. apply Hs, NoDup_submseteq; [done|].
  intros x Hx. rewrite Forall_forall in Hr. apply elem_of_seqZ. specialize (Hr x Hx). lia.
Qed.

Lemma sum_prefix_le (f : Z -> Z) n tol M :
  0 <= n -> n <= tol -> n <= M -> (forall a, 0 <= a < M -> 0 <= f a) ->
  sumZ (f <$> seqZ 0 n) <= sumZ (take (Z.to_nat tol) (f <$> seqZ 0 M)).
Proof.
  intros Hn Ht HM Hf. replace M with (n + (M - n)) by lia. rewrite seqZ_app, fmap_app by lia.
  rewrite take_app, sumZ_app. rewrite (take_ge (f <$> seqZ 0 n)) by (rewrite length_fmap, length_seqZ; lia).
  assert (0 <= sumZ (take (Z.to_nat tol - length (f <$> seqZ 0 n)) (f <$> seqZ (0 + n) (M - n)))); [|lia].
  apply sumZ_nonneg, Forall_take, Forall_fmap, Forall_forall.
  intros a Ha%elem_of_seqZ. apply Hf. lia.
Qed.

(** ** Properties *)

(** C16. The fault-tolerant tile spreads every parity group evenly: at every level
    of the symmetric tree, each node holds the floor or the ceiling of the group
    size divided by the number of nodes of the level. At the level of drives no
    two units of a group share a drive. *)
Theorem fd_group_spread tile group l n :
  tile_wf tile -> is_u64 group -> 0 <= n < prodZ (take l (tile_cs tile)) ->
  let M := prodZ (take l (tile_cs tile)) in
  let held := Z.of_nat (length (filter (fun u => unit_node tile l group u = Some n)
                                  (seqZ 0 (ft_G tile)))) in
  ft_G tile / M <= held <= (ft_G tile + M - 1) / M /\
  (l = length (tile_cs tile) -> held <= 1).
Proof.
  intros Hwf Hg Hn M held. unfold held. rewrite (node_count tile group l Hwf Hg n Hn). fold M.
  pose proof (Z.mod_pos_bound (unrev_idx (take l (tile_cs tile)) n -
    group mod tile_C tile * ft_G tile) M ltac:(unfold M; lia)) as Hm.
  set (a := (_ - _) mod M) in *. unfold cnt. split.
  - split; apply Z.div_le_mono; lia.
  - intros ->. assert (M = ft_cols tile) as HM.
    { unfold M. destruct Hwf as [(_ & _ & _ & -> & _) _]. by rewrite take_ge. }
    destruct Hwf as [(_ & _ & _ & _ & _ & HG & _) _].
    apply Z.lt_succ_r, Z.div_lt_upper_bound; lia.
Qed.

(** C15. A successful tolerance_check() is sound at the first two levels of the
    symmetric tree: losing any set of nodes of such a level, no larger than the
    tolerance asked for it, loses at most [K] units of any parity group. *)
Theorem tolerance_check_sound mem pv children first depth tile group (l : nat) nodes :
  0 < depth < 5 -> Z.of_nat (length children) = 5 ->
  positive (take (Z.to_nat depth) children) ->
  is_u32 (parity_group_size (pvs_attr pv)) ->
  (forall i, 0 <= i <= depth -> mem i = true) ->
  (forall i, 1 <= i < depth -> exists t,
     arr_get (pvs_tolerance pv) (first + i - 1) = Some t /\ is_u32 t) ->
  tolerance_check mem pv children first depth = Some (0, depth) ->
  tile_wf tile -> ft_depth tile = depth -> ft_child tile = children ->
  ft_G tile = parity_group_size (pvs_attr pv) -> is_u64 group ->
  (1 <= l <= 2)%nat -> Z.of_nat l < depth ->
  NoDup nodes -> Forall (fun n => 0 <= n < prodZ (take l (tile_cs tile))) nodes ->
  Z.of_nat (length nodes) <= default 0 (arr_get (pvs_tolerance pv) (first + Z.of_nat l - 1)) ->
  Z.of_nat (length (lost_units tile l group nodes)) <= pa_K (pvs_attr pv).
Proof.
  intros Hd Hlen Hp HG Hmem Htol Hrun Hwf <- <- HGt Hg Hl Hld Hnd Hnodes Hnr.
  fold (tile_cs tile) in Hp. set (cs := tile_cs tile) in *.
  set (G := parity_group_size (pvs_attr pv)) in *. set (K := pa_K (pvs_attr pv)).
  assert (prodZ cs < 2 ^ 64) as Hw by (destruct Hwf as [(_ & _ & _ & Hc & Hcb & _) _]; unfold cs; lia).
  rewrite (tolerance_check_ok pv (ft_child tile) first (ft_depth tile) G K) in Hrun; try done; cycle 1.
  { intros i Hi. destruct (Htol i Hi) as (t & -> & Ht). split; [done|apply Ht]. }
  destruct (first_over _ _ _ _ _ _ _) as [i|] eqn:Efirst; [by injection Hrun|].
  unfold first_over in Efirst. pose proof (find_none _ _ Efirst (Z.of_nat l)) as Hover.
  unfold level_over in Hover. fold (tile_cs tile) cs in Hover.
  destruct (Htol (Z.of_nat l)) as (t & Ht & Htb); [lia|]. rewrite Ht in *. cbn [default] in *.
  destruct Htb as [Ht0 _]. assert (length cs = Z.to_nat (ft_depth tile)) as Hcl
    by (unfold cs, tile_cs; rewrite length_take; lia).
  rewrite level_sum_desc in Hover by (done || lia || (destruct HG; lia)).
  rewrite Z.ltb_ge in Hover. etrans; [|apply Hover; apply list_elem_of_In, elem_of_seqZ; lia].
  etrans; [by apply lost_units_bound|]. fold cs. rewrite HGt. fold G.
  pose proof (prodZ_pos (take l cs) ltac:(by apply Forall_take)) as HM.
  apply sum_prefix_le; [lia|done| |intros a Ha; apply cnt_bound; [lia|destruct HG; lia|lia]].
  destruct (nodes_length nodes _ Hnd Hnodes) as [?| ->]; simpl; lia.
Qed.

(** C40. A failed tolerance_check() is right at every level: when it returns -EINVAL, the
    level it reports is one of the symmetric tree, and for every parity group there are
    nodes of that level, no more than the tolerance asked for it, whose loss loses more
    than [K] units of the group. The allocations of the check succeed, the counts of
    children are positive, and group size and tolerances fit 32 bits. *)
Theorem tolerance_check_complete mem pv children first depth tile group level :
  0 < depth < 5 -> Z.of_nat (length children) = 5 ->
  positive (take (Z.to_nat depth) children) ->
  is_u32 (parity_group_size (pvs_attr pv)) ->
  (forall i, 0 <= i <= depth -> mem i = true) ->
  (forall i, 1 <= i < depth -> exists t,
     arr_get (pvs_tolerance pv) (first + i - 1) = Some t /\ is_u32 t) ->
  tolerance_check mem pv children first depth = Some (- EINVAL, level) ->
  tile_wf tile -> ft_depth tile = depth -> ft_child tile = children ->
  ft_G tile = parity_group_size (pvs_attr pv) -> is_u64 group ->
  exists (l : nat) tol nodes, level = first + Z.of_nat l - 1 /\ 1 <= Z.of_nat l < depth /\
    arr_get (pvs_tolerance pv) level = Some tol /\ Z.of_nat (length nodes) <= tol /\
    NoDup nodes /\ Forall (fun n => 0 <= n < prodZ (take l (tile_cs tile))) nodes /\
    pa_K (pvs_attr pv) < Z.of_nat (length (lost_units tile l group nodes)).
Proof.
  intros Hd Hlen Hp HG Hmem Htol Hrun Hwf <- <- HGt Hg.
  fold (tile_cs tile) in Hp. set (cs := tile_cs tile) in *.
  set (G := parity_group_size (pvs_attr pv)) in *. set (K := pa_K (pvs_attr pv)).
  assert (prodZ cs < 2 ^ 64) as Hw by (destruct Hwf as [(_ & _ & _ & Hc & Hcb & _) _]; unfold cs; lia).
  rewrite (tolerance_check_ok pv (ft_child tile) first (ft_depth tile) G K) in Hrun; try done; cycle 1.
  { intros i Hi. destruct (Htol i Hi) as (t & -> & Ht). split; [done|apply Ht]. }
  destruct (first_over _ _ _ _ _ _ _) as [i|] eqn:Efirst; [|done]. injection Hrun as <-.
  unfold first_over in Efirst. apply find_some in Efirst as [Hi%list_elem_of_In Hover].
  apply elem_of_seqZ in Hi. unfold level_over in Hover. fold (tile_cs tile) cs in Hover.
  destruct (Htol i) as (t & Ht & Htb); [lia|]. rewrite Ht in Hover. cbn [default] in Hover.
  apply Z.ltb_lt in Hover. assert (length cs = Z.to_nat (ft_depth tile)) as Hcl
    by (unfold cs, tile_cs; rewrite length_take; lia).
  destruct (level_sum_nodes cs G (Z.to_nat i) t) as (bs & Hnd & Hr & Hnr & Hsum);
    [done|apply HG|lia|apply Htb|].
  rewrite Z2Nat.id in Hsum by lia.
  exists (Z.to_nat i), t, (shifted tile group (Z.to_nat i) bs). rewrite Z2Nat.id by lia.
  split_and!; try done; try lia.
  - unfold shifted. by rewrite length_fmap.
  - by apply shifted_NoDup.
  - by apply shifted_range.
  - rewrite lost_shifted by done. rewrite HGt. fold cs G. by rewrite <- Hsum.
Qed.

(** *** The tile of a pool version *)

Definition example_tile0 : m0_fd_tile :=
  {| ft_rows := 1; ft_cols := 12; ft_G := 6; ft_depth := 3; ft_child := [3; 2; 2; 1; 0];
     ft_cell := replicate 12 zero_cell |}.

Definition example_tile : m0_fd_tile := default example_tile0 (m0_fd__tile_populate example_tile0).

Lemma example_tile_wf : tile_wf example_tile.
Proof.
  destruct (tile_populate_ok example_tile0) as (tile & Hrun & Hwf & _).
  - split_and!; try done. by repeat constructor.
  - unfold example_tile. by rewrite Hrun.
Qed.

Lemma fd_group_spread_witness :
  Z.of_nat (length (filter (fun u => unit_node example_tile 1 5 u = Some 2) (seqZ 0 6))) = 2.
Proof.
  assert (ft_G example_tile = 6) as HG by (vm_compute; reflexivity).
  assert (prodZ (take 1 (tile_cs example_tile)) = 3) as HM by (vm_compute; reflexivity).
  destruct (fd_group_spread example_tile 5 1 2) as [Hb _].
  - exact example_tile_wf.
  - split; vm_compute; congruence.
  - rewrite HM. lia.
  - rewrite HM, HG in Hb. change (6 / 3) with 2 in Hb. change ((6 + 3 - 1) / 3) with 2 in Hb. lia.
Defined.

Lemma tolerance_check_sound_witness :
  Z.of_nat (length (lost_units example_tile 2 5 [1; 4])) <= 2.
Proof.
  apply (tolerance_check_sound (fun _ => true) example_pv [3; 2; 2; 1; 0] 2 3 example_tile 5 2 [1; 4]).
  - lia.
  - reflexivity.
  - repeat constructor.
  - split; vm_compute; congruence.
  - reflexivity.
  - intros i Hi. assert (i = 1 \/ i = 2) as [-> | ->] by lia; eexists;
      (split; [vm_compute; reflexivity|split; vm_compute; congruence]).
  - vm_compute. reflexivity.
  - exact example_tile_wf.
  - reflexivity.
  - reflexivity.
  - reflexivity.
  - split; vm_compute; congruence.
  - lia.
  - lia.
  - apply NoDup_cons; split; [set_solver|apply NoDup_singleton].
  - repeat constructor; vm_compute; congruence.
  - vm_compute. congruence.
Defined.

(** The same pool version asked to survive two enclosures. *)
Definition strict_pv : m0_conf_pver :=
  {| pvs_attr := pvs_attr example_pv; pvs_tolerance := [0; 0; 2; 2; 1]; pv_levels := pv_levels example_pv |}.

Lemma tolerance_check_complete_witness :
  exists (l : nat) tol nodes, 2 = 2 + Z.of_nat l - 1 /\ arr_get (pvs_tolerance strict_pv) 2 = Some tol /\
    Z.of_nat (length nodes) <= tol /\ 2 < Z.of_nat (length (lost_units example_tile l 5 nodes)).
Proof.
  destruct (tolerance_check_complete (fun _ => true) strict_pv [3; 2; 2; 1; 0] 2 3 example_tile 5 2)
    as (l & tol & nodes & H1 & _ & H2 & H3 & _ & _ & H4).
  - lia.
  - reflexivity.
  - repeat constructor.
  - split; vm_compute; congruence.
  - reflexivity.
  - intros i Hi. assert (i = 1 \/ i = 2) as [-> | ->] by lia; eexists;
      (split; [vm_compute; reflexivity|split; vm_compute; congruence]).
  - vm_compute. reflexivity.
  - exact example_tile_wf.
  - reflexivity.
  - reflexivity.
  - reflexivity.
  - split; vm_compute; congruence.
  - exists l, tol, nodes. split; [exact H1|]. split; [exact H2|]. split; [exact H3|exact H4].
Defined.

(** Two racks of two enclosures of two controllers of one drive. *)
Definition deep_pv : m0_conf_pver :=
  {| pvs_attr := {| pa_N := 1; pa_K := 1; pa_S := 0; pa_P := 8; pa_unit_size := 4096;
                    pa_seed := M0_UINT128 42 43 |};
     pvs_tolerance := [0; 1; 1; 2; 1];
     pv_levels := [[2]; [2; 2]; [2; 2; 2; 2]; replicate 8 1; replicate 8 0] |}.

(** At the third level the check is not sound: units_calc() does not visit
    the nodes from the fullest down, so m0_fd_tile_build() accepts a pool version
    that asks to survive two controllers with [K = 1] although two controllers
    can hold two units of one group. *)
Example tolerance_check_level3_unsound :
  exists tile, m0_fd_tile_build (fun _ => true) true deep_pv [0; 0; 0; 0; 0] = Some (0, 4, Some tile) /\
    arr_get (pvs_tolerance deep_pv) 3 = Some 2 /\ pa_K (pvs_attr deep_pv) = 1 /\
    lost_units tile 3 0 [0; 4] = [0; 1].
Proof.
  eexists. split; [vm_compute; reflexivity|]. split; [reflexivity|]. split; [reflexivity|].
  vm_compute. reflexivity.
Qed.
