(* ===== verification/FdTree.v ===== *)
(** * fd: the failure-domains tree

    Models src/fd/fd_tree.c (nodes and cursors) and the part of src/fd/fd.c that
    builds and destroys the tree (m0_fd_tree_build(),
    m0_fd__tree_level_populate(), m0_fd__perm_cache_build(),
    m0_fd_tree_destroy()). The nodes live in a heap and refer to each other by
    address, parents and children alike, as in the code. *)
From S2P Require Import Prelude LibArith Fid FdPerm Pdclust FdTol.

(** ** Data *)

(** [ftn_children] is [None] when the array is not allocated; an element of the
    array is [None] when it is a null pointer. *)
Record m0_fd_tree_node := {
  ftn_parent : option Z;
  ftn_depth : Z;
  ftn_child_nr : Z;
  ftn_rel_idx : Z;
  ftn_abs_idx : Z;
  ftn_children : option (list (option Z))
}.

(** The tree with the heap its nodes live in: [ft_next] is the next address and
    [ft_allocs] the number of allocations done. *)
Record m0_fd_tree := {
  ft_depth : Z;
  ft_root : option Z;
  ft_cnt : Z;
  ft_cache_info : list Z;
  ft_heap : gmap Z m0_fd_tree_node;
  ft_next : Z;
  ft_allocs : Z
}.

Record m0_fd__tree_cursor := {
  ftc_depth : Z;
  ftc_node : option Z;
  ftc_child_idx : Z;
  ftc_child_abs_idx : Z;
  ftc_path : list Z
}.

(** A place that holds a pointer to a node. *)
Inductive node_loc :=
| loc_root
| loc_child (parent idx : Z).

(** Conversion to [uint16_t]. *)
Definition u16 (x : Z) : Z := x mod 2 ^ 16.

Definition with_heap (tree : m0_fd_tree) (heap : gmap Z m0_fd_tree_node) : m0_fd_tree :=
  {| ft_depth := ft_depth tree; ft_root := ft_root tree; ft_cnt := ft_cnt tree;
     ft_cache_info := ft_cache_info tree; ft_heap := heap; ft_next := ft_next tree;
     ft_allocs := ft_allocs tree |}.

Definition with_root (tree : m0_fd_tree) (root : option Z) : m0_fd_tree :=
  {| ft_depth := ft_depth tree; ft_root := root; ft_cnt := ft_cnt tree;
     ft_cache_info := ft_cache_info tree; ft_heap := ft_heap tree; ft_next := ft_next tree;
     ft_allocs := ft_allocs tree |}.

Definition with_depth (tree : m0_fd_tree) (depth : Z) : m0_fd_tree :=
  {| ft_depth := depth; ft_root := ft_root tree; ft_cnt := ft_cnt tree;
     ft_cache_info := ft_cache_info tree; ft_heap := ft_heap tree; ft_next := ft_next tree;
     ft_allocs := ft_allocs tree |}.

Definition with_cnt (tree : m0_fd_tree) (cnt : Z) : m0_fd_tree :=
  {| ft_depth := ft_depth tree; ft_root := ft_root tree; ft_cnt := cnt;
     ft_cache_info := ft_cache_info tree; ft_heap := ft_heap tree; ft_next := ft_next tree;
     ft_allocs := ft_allocs tree |}.

Definition with_cache_info (tree : m0_fd_tree) (info : list Z) : m0_fd_tree :=
  {| ft_depth := ft_depth tree; ft_root := ft_root tree; ft_cnt := ft_cnt tree;
     ft_cache_info := info; ft_heap := ft_heap tree; ft_next := ft_next tree;
     ft_allocs := ft_allocs tree |}.

Definition zero_node : m0_fd_tree_node :=
  {| ftn_parent := None; ftn_depth := 0; ftn_child_nr := 0; ftn_rel_idx := 0; ftn_abs_idx := 0;
     ftn_children := None |}.

(** m0_alloc() of a node: [mem] tells which allocations succeed. *)
Definition node_alloc (mem : Z -> bool) (tree : m0_fd_tree) : option Z * m0_fd_tree :=
  if mem (ft_allocs tree) then
    (Some (ft_next tree),
     {| ft_depth := ft_depth tree; ft_root := ft_root tree; ft_cnt := ft_cnt tree;
        ft_cache_info := ft_cache_info tree;
        ft_heap := <[ft_next tree := zero_node]> (ft_heap tree);
        ft_next := ft_next tree + 1; ft_allocs := ft_allocs tree + 1 |})
  else
    (None,
     {| ft_depth := ft_depth tree; ft_root := ft_root tree; ft_cnt := ft_cnt tree;
        ft_cache_info := ft_cache_info tree; ft_heap := ft_heap tree;
        ft_next := ft_next tree; ft_allocs := ft_allocs tree + 1 |}).

(** m0_alloc() of an array: only the success matters. *)
Definition array_alloc (mem : Z -> bool) (tree : m0_fd_tree) : bool * m0_fd_tree :=
  (mem (ft_allocs tree),
   {| ft_depth := ft_depth tree; ft_root := ft_root tree; ft_cnt := ft_cnt tree;
      ft_cache_info := ft_cache_info tree; ft_heap := ft_heap tree;
      ft_next := ft_next tree; ft_allocs := ft_allocs tree + 1 |}).

Definition node_free (tree : m0_fd_tree) (addr : Z) : m0_fd_tree :=
  with_heap tree (base.delete addr (ft_heap tree)).

Definition children_of (tree : m0_fd_tree) (addr : Z) : option (list (option Z)) :=
  node ← ft_heap tree !! addr; ftn_children node.

Definition child_get (tree : m0_fd_tree) (addr idx : Z) : option (option Z) :=
  children ← children_of tree addr; arr_get children idx.

(** Reading and writing through a [struct m0_fd_tree_node **]. *)
Definition loc_get (tree : m0_fd_tree) (l : node_loc) : option (option Z) :=
  match l with
  | loc_root => Some (ft_root tree)
  | loc_child parent idx => child_get tree parent idx
  end.

Definition set_children (node : m0_fd_tree_node) (children : option (list (option Z)))
  : m0_fd_tree_node :=
  {| ftn_parent := ftn_parent node; ftn_depth := ftn_depth node;
     ftn_child_nr := ftn_child_nr node; ftn_rel_idx := ftn_rel_idx node;
     ftn_abs_idx := ftn_abs_idx node; ftn_children := children |}.

Definition loc_set (tree : m0_fd_tree) (l : node_loc) (v : option Z) : option m0_fd_tree :=
  match l with
  | loc_root => Some (with_root tree v)
  | loc_child parent idx =>
      node ← ft_heap tree !! parent;
      children ← ftn_children node;
      children ← arr_set children idx v;
      Some (with_heap tree (<[parent := set_children node (Some children)]> (ft_heap tree)))
  end.

(** ** Nodes *)

(** Returns the code. [child_nr] is an [uint16_t] parameter. *)
Definition m0_fd__tree_node_init (mem : Z -> bool) (tree : m0_fd_tree) (addr child_nr : Z)
    (cursor : m0_fd__tree_cursor) : option (Z * m0_fd_tree) :=
  let child_nr := u16 child_nr in
  _ ← M0_ASSERT ((ftc_depth cursor =? 0) ||
                 match ftc_node cursor with Some _ => true | None => false end);
  _ ← M0_ASSERT ((ftc_depth cursor =? ft_depth tree) || (0 <? child_nr));
  _ ← ft_heap tree !! addr;
  let '(ok, tree) := array_alloc mem tree in
  let tree := with_cnt tree (u64 (ft_cnt tree + 1)) in
  let node := {| ftn_parent := ftc_node cursor; ftn_depth := ftc_depth cursor;
                 ftn_child_nr := child_nr; ftn_rel_idx := u32 (ftc_child_idx cursor);
                 ftn_abs_idx := u32 (ftc_child_abs_idx cursor);
                 ftn_children := if ok then Some (replicate (Z.to_nat child_nr) None) else None |} in
  Some (if ok then 0 else - ENOMEM, with_heap tree (<[addr := node]> (ft_heap tree))).

Definition m0_fd__tree_node_fini (tree : m0_fd_tree) (addr : Z) : option m0_fd_tree :=
  node ← ft_heap tree !! addr;
  let tree := with_heap tree (<[addr := set_children node None]> (ft_heap tree)) in
  Some (with_cnt tree (u64 (ft_cnt tree - 1))).

Definition m0_fd__tree_invariant (tree : m0_fd_tree) : bool :=
  (0 <? ft_depth tree) && match ft_root tree with Some _ => true | None => false end.

Definition m0_fd__tree_node_invariant (tree : m0_fd_tree) (node : option Z) : option bool :=
  match node with
  | None => Some false
  | Some a =>
      node ← ft_heap tree !! a;
      Some (negb (ftn_depth node <? ft_depth tree) ||
            ((0 <? ftn_child_nr node) &&
             match ftn_children node with Some _ => true | None => false end))
  end.

(** ** Cursors *)

Definition zero_path : list Z := replicate 6 0.

(** The descent to the first node above level [depth]. *)
Definition cursor_descend (tree : m0_fd_tree) (depth : Z) (node : option Z) : option (option Z) :=
  for_up 1 depth (fun _ node =>
    ok ← m0_fd__tree_node_invariant tree node;
    _ ← M0_ASSERT ok;
    a ← node;
    child_get tree a 0) node.

Definition m0_fd__tree_cursor_init (tree : m0_fd_tree) (depth : Z) : option m0_fd__tree_cursor :=
  _ ← M0_ASSERT (depth <=? ft_depth tree);
  if depth =? 0 then
    Some {| ftc_depth := 0; ftc_node := None; ftc_child_idx := 0; ftc_child_abs_idx := 0;
            ftc_path := zero_path |}
  else
    node ← cursor_descend tree depth (ft_root tree);
    Some {| ftc_depth := depth; ftc_node := node; ftc_child_idx := 0; ftc_child_abs_idx := 0;
            ftc_path := zero_path |}.

(** The loop over the ancestors that fills [ftc_path]. *)
Fixpoint path_fill (fuel : nat) (tree : m0_fd_tree) (parent : option Z) (depth : Z) (path : list Z)
  : option (list Z) :=
  match parent with
  | None => Some path
  | Some a =>
      match fuel with
      | O => None
      | S fuel =>
          node ← ft_heap tree !! a;
          path ← arr_set path depth (ftn_abs_idx node);
          path_fill fuel tree (ftn_parent node) (u32 (depth - 1)) path
      end
  end.

(** Returns the code and the cursor. *)
Definition m0_fd__tree_cursor_init_at (tree : m0_fd_tree) (addr child_idx : Z)
  : option (Z * option m0_fd__tree_cursor) :=
  _ ← M0_ASSERT (m0_fd__tree_invariant tree);
  ok ← m0_fd__tree_node_invariant tree (Some addr);
  _ ← M0_ASSERT ok;
  node ← ft_heap tree !! addr;
  _ ← M0_ASSERT (child_idx <? ftn_child_nr node);
  child ← child_get tree addr child_idx;
  ok ← m0_fd__tree_node_invariant tree child;
  if negb ok then Some (- EINVAL, None)
  else
    c ← child;
    cnode ← ft_heap tree !! c;
    path ← arr_set zero_path (ftn_depth node + 1) (ftn_abs_idx cnode);
    path ← path_fill (S (Z.to_nat (ftn_depth node))) tree (Some addr) (ftn_depth node) path;
    Some (0, Some {| ftc_depth := ftn_depth node + 1; ftc_node := Some addr;
                     ftc_child_idx := child_idx; ftc_child_abs_idx := ftn_abs_idx cnode;
                     ftc_path := path |}).

Definition m0_fd__tree_cursor_get (cursor : m0_fd__tree_cursor) : option node_loc :=
  if ftc_depth cursor =? 0 then Some loc_root
  else a ← ftc_node cursor; Some (loc_child a (ftc_child_idx cursor)).

(** The climb to the first ancestor that has a next child. *)
Fixpoint cursor_climb (fuel : nat) (tree : m0_fd_tree) (parent : option Z) (child_idx depth : Z)
  : option (option Z * Z * Z) :=
  match parent with
  | None => Some (None, child_idx, depth)
  | Some a =>
      node ← ft_heap tree !! a;
      if ftn_child_nr node <=? child_idx + 1 then
        match fuel with
        | O => None
        | S fuel => cursor_climb fuel tree (ftn_parent node) (u16 (ftn_rel_idx node)) (u16 (depth - 1))
        end
      else Some (Some a, child_idx, depth)
  end.

(** The descent along first children. *)
Definition cursor_first (tree : m0_fd_tree) (from to : Z) (child : Z) : option Z :=
  for_up from to (fun _ child => c ← child_get tree child 0; c) child.

(** Returns whether the cursor moved, and the cursor. *)
Definition m0_fd__tree_cursor_next (tree : m0_fd_tree) (cursor : m0_fd__tree_cursor)
  : option (bool * m0_fd__tree_cursor) :=
  if ftc_depth cursor =? 0 then Some (false, cursor)
  else
    a ← ftc_node cursor;
    parent ← ft_heap tree !! a;
    let child_idx := u16 (ftc_child_idx cursor) in
    let moved node idx :=
      path ← arr_set (ftc_path cursor) (ftc_depth cursor) (ftc_child_abs_idx cursor + 1);
      Some (true, {| ftc_depth := ftc_depth cursor; ftc_node := Some node; ftc_child_idx := idx;
                     ftc_child_abs_idx := ftc_child_abs_idx cursor + 1; ftc_path := path |}) in
    if child_idx + 1 <? ftn_child_nr parent then moved a (ftc_child_idx cursor + 1)
    else
      '(p, child_idx, depth) ←
        cursor_climb (S (Z.to_nat (ftc_depth cursor))) tree (Some a) child_idx (ftc_depth cursor);
      match p with
      | None => Some (false, cursor)
      | Some p =>
          child ← child_get tree p (child_idx + 1);
          child ← child;
          child ← cursor_first tree (depth + 1) (ftc_depth cursor) child;
          moved child 0
      end.

(** ** Building the tree *)

Definition tree2pv_level_conv (level tree_depth : Z) : option Z :=
  _ ← M0_ASSERT (tree_depth <? M0_CONF_PVER_HEIGHT);
  Some (level + (M0_CONF_PVER_HEIGHT - tree_depth)).

Definition m0_fd__tree_root_create (mem : Z -> bool) (tree : m0_fd_tree) (root_children : Z)
  : option (Z * m0_fd_tree) :=
  root ← ft_root tree;
  cursor ← m0_fd__tree_cursor_init tree 0;
  '(rc, tree) ← m0_fd__tree_node_init mem tree root root_children cursor;
  if rc =? 0 then Some (rc, tree)
  else
    tree ← m0_fd__tree_node_fini (with_depth tree 0) root;
    Some (rc, with_root (node_free tree root) None).

(** M0_CONF_DIRNEXT: what the iterator returned before the body runs. *)
Definition M0_CONF_DIRNEXT : Z := 1.

(** The rewind after a failed allocation. *)
Definition level_rewind (tree : m0_fd_tree) (l : node_loc) (cursor : m0_fd__tree_cursor)
  : option m0_fd_tree :=
  node ← loc_get tree l;
  tree ← match node with
         | Some a => tree ← m0_fd__tree_node_fini tree a; loc_set (node_free tree a) l None
         | None => Some tree
         end;
  Some (with_depth tree (if -1 <? ftc_child_abs_idx cursor - 1
                         then ftc_depth cursor else ftc_depth cursor - 1)).

(** The body of the iteration over the objects of a level, each given by the
    length of its directory of children. *)
Fixpoint level_loop (mem : Z -> bool) (tree : m0_fd_tree) (level : Z)
    (cursor : m0_fd__tree_cursor) (objs : list Z)
  : option (Z * m0_fd_tree * m0_fd__tree_cursor) :=
  match objs with
  | [] => Some (0, tree, cursor)
  | len :: objs =>
      let children_nr := if level <? ft_depth tree - 1 then len else 0 in
      l ← m0_fd__tree_cursor_get cursor;
      let '(a, tree) := node_alloc mem tree in
      tree ← loc_set tree l a;
      match a with
      | None =>
          tree ← level_rewind tree l cursor;
          Some (M0_CONF_DIRNEXT, tree, cursor)
      | Some a =>
          '(rc, tree) ← m0_fd__tree_node_init mem tree a children_nr cursor;
          if negb (rc =? 0) then
            tree ← level_rewind tree l cursor;
            Some (rc, tree, cursor)
          else
            '(_, cursor) ← m0_fd__tree_cursor_next tree cursor;
            level_loop mem tree level cursor objs
      end
  end.

Definition m0_fd__tree_level_populate (mem : Z -> bool) (pv : m0_conf_pver) (tree : m0_fd_tree)
    (level : Z) : option (Z * m0_fd_tree) :=
  _ ← ft_root tree;
  _ ← M0_ASSERT (level <? ft_depth tree);
  cursor ← m0_fd__tree_cursor_init tree (level + 1);
  pv_level ← tree2pv_level_conv level (ft_depth tree);
  objs ← arr_get (pv_levels pv) pv_level;
  '(rc, tree, cursor) ← level_loop mem tree level cursor objs;
  if rc =? 0 then
    '(moved, _) ← m0_fd__tree_cursor_next tree cursor;
    _ ← M0_ASSERT (negb moved);
    Some (rc, tree)
  else Some (rc, tree).

(** *** Permutation caches *)

(** [cache_info] is the array with room for [ft_cnt] entries; [nr] of them are
    in use. *)
Definition cache_info_update (info : list Z) (nr cnt : Z) : option (list Z * Z) :=
  if existsb (Z.eqb cnt) (take (Z.to_nat nr) info) then Some (info, nr)
  else info ← arr_set info nr cnt; Some (info, nr + 1).

(** The do-while loop over the nodes of a level; [fuel] bounds their number. *)
Fixpoint cache_level (fuel : nat) (tree : m0_fd_tree) (cursor : m0_fd__tree_cursor)
    (info : list Z) (nr : Z) : option (list Z * Z) :=
  l ← m0_fd__tree_cursor_get cursor;
  a ← loc_get tree l;
  a ← a;
  node ← ft_heap tree !! a;
  '(info, nr) ← cache_info_update info nr (ftn_child_nr node);
  '(moved, cursor) ← m0_fd__tree_cursor_next tree cursor;
  if (moved : bool) then
    match fuel with
    | O => None
    | S fuel => cache_level fuel tree cursor info nr
    end
  else Some (info, nr).

(** When the second allocation fails the code frees the array and leaves its address and
    length, which nothing may use any more; here the array is empty then. *)
Definition m0_fd__perm_cache_build (mem : Z -> bool) (tree : m0_fd_tree)
  : option (Z * m0_fd_tree) :=
  let '(ok, tree) := array_alloc mem tree in
  if negb ok then Some (- ENOMEM, tree)
  else
    '(info, nr) ← for_up 0 (ft_depth tree) (fun level '(info, nr) =>
      cursor ← m0_fd__tree_cursor_init tree level;
      cache_level (Z.to_nat (ft_cnt tree)) tree cursor info nr)
      (replicate (Z.to_nat (ft_cnt tree)) 0, 0);
    info ← m0_array_sort info nr;
    let '(ok, tree) := array_alloc mem tree in
    if negb ok then Some (- ENOMEM, with_cache_info tree [])
    else Some (0, with_cache_info tree (take (Z.to_nat nr) info)).

(** [array] is the uninitialised array of children. *)
Definition m0_fd_tree_build (tol_mem mem : Z -> bool) (pv : m0_conf_pver) (array : list Z)
  : option (Z * option m0_fd_tree) :=
  '(rc, depth, children_nr) ← symm_tree_attr_get tol_mem pv array;
  if negb (rc =? 0) then Some (rc, None)
  else
    let tree := {| ft_depth := u16 depth; ft_root := None; ft_cnt := 0; ft_cache_info := [];
                   ft_heap := ∅; ft_next := 0; ft_allocs := 0 |} in
    let '(root, tree) := node_alloc mem tree in
    let tree := with_root tree root in
    match root with
    | None => Some (- ENOMEM, Some tree)
    | Some _ =>
        c0 ← arr_get children_nr 0;
        '(rc, tree) ← m0_fd__tree_root_create mem tree c0;
        if negb (rc =? 0) then Some (rc, Some tree)
        else
          '(rc, tree) ← for_up 0 (ft_depth tree) (fun level '(rc, tree) =>
            if negb (rc =? 0) then Some (rc, tree)
            else m0_fd__tree_level_populate mem pv tree level) (rc, tree);
          if negb (rc =? 0) then Some (rc, Some tree)
          else
            '(rc, tree) ← m0_fd__perm_cache_build mem tree;
            Some (rc, Some tree)
    end.

(** *** Destruction *)

(** The do-while loop that frees the nodes of a level. *)
Fixpoint destroy_level (fuel : nat) (tree : m0_fd_tree) (cursor : m0_fd__tree_cursor)
  : option m0_fd_tree :=
  l ← m0_fd__tree_cursor_get cursor;
  node ← loc_get tree l;
  match node with
  | None => Some tree
  | Some a =>
      tree ← m0_fd__tree_node_fini tree a;
      tree ← loc_set (node_free tree a) l None;
      '(moved, cursor) ← m0_fd__tree_cursor_next tree cursor;
      if (moved : bool) then
        match fuel with
        | O => None
        | S fuel => destroy_level fuel tree cursor
        end
      else Some tree
  end.

Definition m0_fd__perm_cache_destroy (tree : m0_fd_tree) : m0_fd_tree := with_cache_info tree [].

(** Returns the tree before it is zeroed. *)
Definition m0_fd_tree_destroy (tree : m0_fd_tree) : option m0_fd_tree :=
  tree ← for_down (ft_depth tree) 0 (fun i tree =>
    cursor ← m0_fd__tree_cursor_init tree i;
    destroy_level (Z.to_nat (ft_cnt tree)) tree cursor) tree;
  tree ← match ft_root tree with
         | Some a => tree ← m0_fd__tree_node_fini tree a; Some (node_free tree a)
         | None => Some tree
         end;
  let tree := with_root (m0_fd__perm_cache_destroy tree) None in
  _ ← M0_ASSERT (ft_cnt tree =? 0);
  Some tree.

(** ** Reference tree

    The shape of a tree is given level by level: the degrees of the nodes of each
    level from left to right. A node is named by its depth and its index in the
    level. *)

(** The parent and the place among its children of the [i]-th node below nodes
    of degrees [cs]. *)
Fixpoint locate (cs : list Z) (i : Z) : Z * Z :=
  match cs with
  | [] => (0, i)
  | c :: cs => if i <? c then (0, i) else let '(p, r) := locate cs (i - c) in (p + 1, r)
  end.

(** The index of the first child of node [p]. *)
Definition off (cs : list Z) (p : Z) : Z := sumZ (take (Z.to_nat p) cs).

Lemma sumZ_cons x l : sumZ (x :: l) = x + sumZ l.
Proof. done. Qed.

Lemma off_0 cs : off cs 0 = 0.
Proof. done. Qed.

Lemma off_S cs p c : arr_get cs p = Some c -> off cs (p + 1) = off cs p + c.
Proof.
  intros [Hp Hc]%arr_get_Some. unfold off. replace (Z.to_nat (p + 1)) with (S (Z.to_nat p)) by lia.
  rewrite (take_S_r _ _ _ Hc), sumZ_app. change (sumZ [c]) with (c + 0). lia.
Qed.

Lemma off_length cs : off cs (Z.of_nat (length cs)) = sumZ cs.
Proof. unfold off. by rewrite take_ge by lia. Qed.

Lemma off_mono cs p q : positive cs -> 0 <= p <= q -> off cs p <= off cs q.
Proof.
  intros Hp Hpq. unfold off. replace (Z.to_nat q) with (Z.to_nat p + (Z.to_nat q - Z.to_nat p))%nat by lia.
  rewrite <- take_take_drop, sumZ_app.
  assert (0 <= sumZ (take (Z.to_nat q - Z.to_nat p) (drop (Z.to_nat p) cs))); [|lia].
  assert (forall l, positive l -> 0 <= sumZ l) as Hnn
    by (induction 1; [done|]; rewrite sumZ_cons; lia).
  apply Hnn. by apply Forall_take, Forall_drop.
Qed.

Lemma locate_spec cs i :
  0 <= i < sumZ cs -> positive cs ->
  exists p r c, locate cs i = (p, r) /\ arr_get cs p = Some c /\ 0 <= r < c /\ i = off cs p + r.
Proof.
  intros Hi Hp. revert i Hi. induction Hp as [|c cs Hc Hp IH]; intros i Hi; [cbn in Hi; lia|].
  rewrite sumZ_cons in Hi. cbn [locate]. destruct (Z.ltb_spec i c).
  { exists 0, i, c. split; [done|]. split; [done|]. rewrite off_0. lia. }
  destruct (IH (i - c)) as (p & r & c' & -> & Hget & Hr & Hir); [lia|].
  apply arr_get_Some in Hget as [Hp0 Hget]. exists (p + 1), r, c'. split; [done|].
  split; [apply arr_get_Some; split; [lia|]; by replace (Z.to_nat (p + 1)) with (S (Z.to_nat p)) by lia|].
  split; [done|]. unfold off in *. replace (Z.to_nat (p + 1)) with (S (Z.to_nat p)) by lia.
  cbn [take]. rewrite sumZ_cons. lia.
Qed.

Lemma locate_unique cs p r c :
  positive cs -> arr_get cs p = Some c -> 0 <= r < c -> locate cs (off cs p + r) = (p, r).
Proof.
  intros Hp. revert p. induction Hp as [|d cs Hd Hp IH]; intros p Hget Hr.
  { apply arr_get_range in Hget. simpl in Hget. lia. }
  apply arr_get_Some in Hget as [Hp0 Hget]. unfold off. destruct (Z.to_nat p) as [|k] eqn:Hk.
  - assert (p = 0) as -> by lia. cbn in Hget. injection Hget as ->. cbn [take locate].
    change (sumZ []) with 0. destruct (Z.ltb_spec (0 + r) c); [done|lia].
  - cbn [take locate]. rewrite sumZ_cons. cbn in Hget.
    assert (arr_get cs (p - 1) = Some c) as Hget' by (apply arr_get_Some; split; [lia|];
      by replace (Z.to_nat (p - 1)) with k by lia).
    specialize (IH (p - 1) Hget' Hr). unfold off in IH. replace (Z.to_nat (p - 1)) with k in IH by lia.
    assert (0 <= sumZ (take k cs)) as Hnn.
    { pose proof (off_mono cs 0 (p - 1) Hp ltac:(lia)) as Hm. unfold off in Hm.
      replace (Z.to_nat (p - 1)) with k in Hm by lia. change (sumZ (take (Z.to_nat 0) cs)) with 0 in Hm. lia.
      }
    destruct (Z.ltb_spec (d + sumZ (take k cs) + r) d); [lia|].
    replace (d + sumZ (take k cs) + r - d) with (sumZ (take k cs) + r) by lia.
    rewrite IH. f_equal. lia.
Qed.

Section tree_repr.
Context (degs : list (list Z)).

(** The degrees of level [d], the number of its nodes, and their addresses: nodes
    are allocated level by level. *)
Definition deg (d : Z) : list Z := default [] (arr_get degs d).

Definition nodes (d : Z) : Z := if d <=? 0 then 1 else sumZ (deg (d - 1)).

Definition addr_base (d : Z) : Z := sumZ (nodes <$> seqZ 0 d).

Definition addr (d i : Z) : Z := addr_base d + i.

Definition degree (d i : Z) : Z := default 0 (arr_get (deg d) i).

(** All but the last level have children, fewer than [2^16] each. *)
Definition degs_wf : Prop :=
  (0 < length degs < 5)%nat /\
  forall d, 0 <= d < Z.of_nat (length degs) ->
    Z.of_nat (length (deg d)) = nodes d /\ positive (deg d) /\ Forall (fun c => c < 2 ^ 16) (deg d) /\
    nodes d < 2 ^ 31 /\ nodes (d + 1) < 2 ^ 31.

(** The node [(d, i)] when the first [fill e] nodes of each level [e] exist. *)
Definition node_at (fill : Z -> Z) (d i : Z) : m0_fd_tree_node :=
  {| ftn_parent := if d =? 0 then None else Some (addr (d - 1) (locate (deg (d - 1)) i).1);
     ftn_depth := d;
     ftn_child_nr := degree d i;
     ftn_rel_idx := if d =? 0 then 0 else (locate (deg (d - 1)) i).2;
     ftn_abs_idx := i;
     ftn_children := Some ((fun k => let j := off (deg d) i + k in
                                     if j <? fill (d + 1) then Some (addr (d + 1) j) else None)
                             <$> seqZ 0 (degree d i)) |}.

Definition tree_repr (fill : Z -> Z) (tree : m0_fd_tree) : Prop :=
  ft_depth tree = Z.of_nat (length degs) /\ ft_root tree = Some (addr 0 0) /\
  forall d i, 0 <= d <= Z.of_nat (length degs) -> 0 <= i < fill d ->
    ft_heap tree !! addr d i = Some (node_at fill d i).

(** Level [e] and those above are complete. *)
Definition complete (fill : Z -> Z) (e : Z) : Prop := forall d, 0 <= d <= e -> fill d = nodes d.

(** The cursor is on the [i]-th node of level [d]. *)
Definition cursor_at (d i : Z) (cursor : m0_fd__tree_cursor) : Prop :=
  ftc_depth cursor = d /\ length (ftc_path cursor) = 6%nat /\ ftc_child_abs_idx cursor = i /\
  if d =? 0 then ftc_node cursor = None /\ ftc_child_idx cursor = 0
  else ftc_node cursor = Some (addr (d - 1) (locate (deg (d - 1)) i).1) /\
       ftc_child_idx cursor = (locate (deg (d - 1)) i).2.

Section cursor_lemmas.
Hypothesis Hwf : degs_wf.
Let depth := Z.of_nat (length degs).

Lemma nodes_S d : 0 <= d -> nodes (d + 1) = sumZ (deg d).
Proof. intros Hd. unfold nodes. destruct (Z.leb_spec (d + 1) 0); [lia|]. f_equal. f_equal. lia. Qed.

Lemma degree_get d i :
  0 <= d < depth -> 0 <= i < nodes d ->
  arr_get (deg d) i = Some (degree d i) /\ 0 < degree d i < 2 ^ 16.
Proof.
  intros Hd Hi. destruct Hwf as [_ Hw]. destruct (Hw d Hd) as (Hl & Hp & Hb & _).
  destruct (arr_get_is_Some (deg d) i) as [c Hc]; [lia|]. unfold degree. rewrite Hc. cbn [default].
  split; [done|]. apply arr_get_Some in Hc as [_ Hc].
  pose proof (Forall_lookup_1 _ _ _ _ Hp Hc). pose proof (Forall_lookup_1 _ _ _ _ Hb Hc).
  simpl in *. lia.
Qed.

Lemma off_nodes d : 0 <= d < depth -> off (deg d) (nodes d) = nodes (d + 1).
Proof.
  intros Hd. destruct Hwf as [_ Hw]. destruct (Hw d Hd) as (Hl & _).
  rewrite nodes_S, <- Hl by lia. apply off_length.
Qed.

Lemma child_index d i k :
  0 <= d < depth -> 0 <= i < nodes d -> 0 <= k < degree d i ->
  0 <= off (deg d) i + k < nodes (d + 1) /\ locate (deg d) (off (deg d) i + k) = (i, k).
Proof.
  intros Hd Hi Hk. destruct (degree_get d i Hd Hi) as [Hg Hb]. destruct Hwf as [_ Hw].
  destruct (Hw d Hd) as (Hl & Hp & _). split; [|by eapply locate_unique].
  pose proof (off_mono (deg d) 0 i Hp ltac:(lia)). rewrite off_0 in *.
  pose proof (off_mono (deg d) (i + 1) (nodes d) Hp ltac:(lia)) as Hm.
  rewrite off_nodes, (off_S _ _ _ Hg) in Hm by done. lia.
Qed.

Lemma parent_index d i :
  1 <= d <= depth -> 0 <= i < nodes d ->
  exists p r, locate (deg (d - 1)) i = (p, r) /\ 0 <= p < nodes (d - 1) /\
    0 <= r < degree (d - 1) p /\ i = off (deg (d - 1)) p + r.
Proof.
  intros Hd Hi. destruct Hwf as [_ Hw]. destruct (Hw (d - 1) ltac:(lia)) as (Hl & Hp & _).
  replace d with (d - 1 + 1) in Hi by lia. rewrite nodes_S in Hi by lia.
  destruct (locate_spec (deg (d - 1)) i Hi Hp) as (p & r & c & Hloc & Hget & Hr & Hir).
  exists p, r. split; [done|]. pose proof (arr_get_range _ _ _ Hget).
  split; [lia|]. unfold degree. by rewrite Hget.
Qed.

Lemma nodes_pos d : 0 <= d <= depth -> 0 < nodes d.
Proof.
  intros Hd. destruct (Z.eq_dec d 0) as [->|]; [done|]. replace d with (d - 1 + 1) by lia.
  assert (forall k : nat, Z.of_nat k <= depth -> 0 < nodes (Z.of_nat k)) as Hk.
  { induction k as [|k IH]; intros Hk; [done|]. rewrite Nat2Z.inj_succ, <- Z.add_1_r.
    pose proof (child_index (Z.of_nat k) 0 0 ltac:(lia)) as Hch.
    destruct (degree_get (Z.of_nat k) 0) as [_ Hdeg]; [lia|specialize (IH ltac:(lia)); lia|].
    destruct Hch as [? _]; [specialize (IH ltac:(lia)); lia|lia|lia]. }
  specialize (Hk (Z.to_nat (d - 1 + 1))). rewrite Z2Nat.id in Hk by lia. apply Hk. lia.
Qed.

(** The first descendant, [n] levels below. *)
Fixpoint first_desc (n : nat) (d j : Z) : Z :=
  match n with
  | O => j
  | S n => first_desc n (d + 1) (off (deg d) j)
  end.

Lemma first_desc_S n d j : first_desc (S n) d j = off (deg (d + Z.of_nat n)) (first_desc n d j).
Proof.
  revert d j. induction n as [|n IH]; intros d j; [cbn; f_equal; f_equal; lia|].
  change (first_desc (S (S n)) d j) with (first_desc (S n) (d + 1) (off (deg d) j)).
  rewrite IH. cbn [first_desc]. f_equal. f_equal. lia.
Qed.

Lemma first_desc_range n d j :
  0 <= d -> d + Z.of_nat n <= depth -> 0 <= j < nodes d ->
  0 <= first_desc n d j < nodes (d + Z.of_nat n).
Proof.
  revert d j. induction n as [|n IH]; intros d j Hd Hn Hj; [by rewrite Z.add_0_r|].
  cbn [first_desc]. replace (d + Z.of_nat (S n)) with (d + 1 + Z.of_nat n) by lia.
  destruct (degree_get d j) as [_ Hdeg]; [lia|done|].
  apply IH; [lia|lia|]. pose proof (child_index d j 0 ltac:(lia) Hj ltac:(lia)) as [Hc _]. lia.
Qed.

Context (fill : Z -> Z) (tree : m0_fd_tree).
Hypothesis Hrepr : tree_repr fill tree.

Lemma child_get_ok d i k :
  0 <= d < depth -> 0 <= i < fill d -> fill d <= nodes d -> 0 <= k < degree d i ->
  off (deg d) i + k < fill (d + 1) ->
  child_get tree (addr d i) k = Some (Some (addr (d + 1) (off (deg d) i + k))).
Proof.
  intros Hd Hi Hf Hk Hj. destruct Hrepr as (_ & _ & Hheap). fold depth in Hheap.
  unfold child_get, children_of. run (Hheap d i ltac:(lia) Hi).
  cbn [node_at ftn_children]. cbn [mbind option_bind]. apply arr_get_Some. split; [lia|].
  rewrite list_lookup_fmap, lookup_seqZ_lt by lia. cbn [fmap option_fmap option_map].
  rewrite Z2Nat.id, Z.add_0_l by lia. destruct (Z.ltb_spec (off (deg d) i + k) (fill (d + 1))); [done|lia].
Qed.

Lemma node_invariant_ok d i :
  0 <= d <= depth -> 0 <= i < fill d -> fill d <= nodes d ->
  m0_fd__tree_node_invariant tree (Some (addr d i)) = Some true.
Proof.
  intros Hd Hi Hf. destruct Hrepr as (Hdep & _ & Hheap). unfold m0_fd__tree_node_invariant.
  run (Hheap d i Hd Hi). cbn [node_at ftn_depth ftn_child_nr ftn_children]. rewrite Hdep. fold depth.
  destruct (Z.ltb_spec d depth); [|done]. cbn [negb orb].
  destruct (degree_get d i) as [_ Hdeg]; [lia|lia|]. by destruct (Z.ltb_spec 0 (degree d i)); [|lia].
Qed.

Lemma cursor_first_ok n from d x :
  0 <= d -> d + Z.of_nat n <= depth -> complete fill (d + Z.of_nat n) -> 0 <= x < nodes d ->
  cursor_first tree from (from + Z.of_nat n) (addr d x) =
    Some (addr (d + Z.of_nat n) (first_desc n d x)).
Proof.
  revert from d x. induction n as [|n IH]; intros from d x Hd Hn Hc Hx.
  { unfold cursor_first. rewrite for_up_nil by lia. by rewrite Z.add_0_r. }
  unfold cursor_first. rewrite for_up_cons by lia.
  destruct (degree_get d x) as [_ Hdeg]; [lia|done|].
  pose proof (child_index d x 0 ltac:(lia) Hx ltac:(lia)) as [Hch _].
  rewrite child_get_ok by (rewrite ?Hc by lia; lia). cbn [mbind option_bind].
  replace (from + Z.of_nat (S n)) with (from + 1 + Z.of_nat n) by lia.
  rewrite Z.add_0_r in *. fold (cursor_first tree (from + 1) (from + 1 + Z.of_nat n)).
  unfold cursor_first in IH. rewrite IH; [|lia|lia| |done].
  - cbn [first_desc]. by replace (d + 1 + Z.of_nat n) with (d + Z.of_nat (S n)) by lia.
  - by replace (d + 1 + Z.of_nat n) with (d + Z.of_nat (S n)) by lia.
Qed.

(** The climb ends at the ancestor whose next child leads to the next node, or
    above the root when there is no next node. *)
Lemma cursor_climb_ok fuel e q c :
  1 <= e <= depth -> e <= Z.of_nat fuel -> complete fill (e - 1) ->
  0 <= q < nodes (e - 1) -> 0 <= c < degree (e - 1) q ->
  exists p c' e', cursor_climb fuel tree (Some (addr (e - 1) q)) c e = Some (p, c', e') /\
    match p with
    | None => off (deg (e - 1)) q + c + 1 = nodes e
    | Some a => exists q', a = addr (e' - 1) q' /\ 1 <= e' <= e /\ 0 <= q' < nodes (e' - 1) /\
        0 <= c' /\ c' + 1 < degree (e' - 1) q' /\
        first_desc (Z.to_nat (e - e')) e' (off (deg (e' - 1)) q' + c' + 1) =
          off (deg (e - 1)) q + c + 1
    end.
Proof.
  revert e q c. induction fuel as [|fuel IH]; intros e q c He Hf Hc Hq Hcd; [lia|].
  destruct Hrepr as (_ & _ & Hheap). fold depth in Hheap.
  pose proof (Hheap (e - 1) q ltac:(lia) ltac:(rewrite Hc by lia; done)) as Hnode.
  cbn [cursor_climb]. run Hnode. cbn [node_at ftn_child_nr ftn_parent ftn_rel_idx].
  destruct (Z.leb_spec (degree (e - 1) q) (c + 1)) as [Hle|Hgt]; cycle 1.
  { eexists _, _, _. split; [done|]. exists q. replace (e - e) with 0 by lia.
    repeat split; try lia. }
  destruct (degree_get (e - 1) q) as [Hget Hdeg]; [lia|done|].
  assert (off (deg (e - 1)) q + c + 1 = off (deg (e - 1)) (q + 1)) as Hnext
    by (rewrite (off_S _ _ _ Hget); lia).
  destruct (Z.eqb_spec (e - 1) 0) as [He1|He1].
  { assert (e = 1) as -> by lia. assert (q = 0) as -> by (change (nodes (1 - 1)) with 1 in Hq; lia).
    rewrite Hnext. destruct fuel; cbn [cursor_climb]; eexists _, _, _;
      (split; [done|exact (off_nodes 0 ltac:(lia))]). }
  destruct (parent_index (e - 1) q) as (q' & c' & Hloc & Hq' & Hc' & Hqi); [lia|done|].
  rewrite Hloc. cbn [fst snd]. destruct (degree_get (e - 1 - 1) q') as [_ Hdeg']; [lia|done|].
  replace (u16 c') with c' by (symmetry; apply Z.mod_small; lia).
  replace (u16 (e - 1)) with (e - 1) by (symmetry; apply Z.mod_small; destruct Hwf; lia).
  destruct (IH (e - 1) q' c') as (p & c2 & e2 & Hrun & Hres); [lia|lia| |done|done|].
  { intros d Hd. apply Hc. lia. }
  exists p, c2, e2. split; [done|]. rewrite Hnext. rewrite <- Hqi in Hres. destruct p as [a|].
  - destruct Hres as (q2 & -> & He2 & Hq2 & Hc2 & Hcd2 & Hdesc). exists q2.
    repeat split; try lia.
    replace (Z.to_nat (e - e2)) with (S (Z.to_nat (e - 1 - e2))) by lia.
    rewrite first_desc_S, Hdesc. f_equal. f_equal. lia.
  - rewrite Hres. rewrite off_nodes by lia. f_equal. lia.
Qed.

Lemma cursor_init_ok d :
  0 <= d <= depth -> complete fill (d - 1) ->
  exists cursor, m0_fd__tree_cursor_init tree d = Some cursor /\ cursor_at d 0 cursor.
Proof.
  intros Hd Hc. pose proof Hrepr as (Hdep & Hroot & _). unfold m0_fd__tree_cursor_init.
  assert_ok by (rewrite Hdep; fold depth; lia).
  destruct (Z.eqb_spec d 0) as [->|Hd0]; [eexists; split; [done|by repeat split]|].
  assert (cursor_descend tree d (ft_root tree) = Some (Some (addr (d - 1) 0))) as Hrun.
  { rewrite Hroot. unfold cursor_descend.
    destruct (for_up_total (fun i node => node = Some (addr (i - 1) 0))
      (fun _ node => ok ← m0_fd__tree_node_invariant tree node; _ ← M0_ASSERT ok;
         a ← node; child_get tree a 0) 1 d (Some (addr 0 0))) as (node & -> & ->); [lia|done| |done].
    intros i node Hi ->. pose proof (nodes_pos (i - 1) ltac:(lia)) as Hn.
    run (node_invariant_ok (i - 1) 0) by (rewrite ?Hc by lia; lia). assert_ok by done.
    cbn [mbind option_bind]. destruct (degree_get (i - 1) 0) as [_ Hdeg]; [lia|lia|].
    pose proof (child_index (i - 1) 0 0 ltac:(lia) ltac:(lia) ltac:(lia)) as [Hch _].
    rewrite off_0 in Hch. eexists. split.
    - apply child_get_ok; rewrite ?off_0, ?Hc by lia; lia.
    - rewrite off_0. f_equal. f_equal. lia. }
  run Hrun. eexists. split; [done|]. pose proof (nodes_pos d ltac:(lia)) as Hn.
  pose proof (nodes_pos (d - 1) ltac:(lia)) as Hn1.
  destruct (degree_get (d - 1) 0) as [_ Hdeg]; [lia|lia|].
  pose proof (child_index (d - 1) 0 0 ltac:(lia) ltac:(lia) ltac:(lia)) as [_ Hloc].
  rewrite off_0 in Hloc. unfold cursor_at. cbn [ftc_depth ftc_path ftc_child_abs_idx ftc_node ftc_child_idx].
  destruct (Z.eqb_spec d 0); [done|]. change (0 + 0) with 0 in Hloc. rewrite Hloc. done.
Qed.

(** From the last child of a node: the climb and the descent lead to the node
    whose first child is the next node of the level, unless there is none. *)
Lemma climb_next d p r :
  1 <= d <= depth -> complete fill (d - 1) -> 0 <= p < nodes (d - 1) ->
  degree (d - 1) p = r + 1 ->
  exists a c' e',
    cursor_climb (S (Z.to_nat d)) tree (Some (addr (d - 1) p)) r d = Some (a, c', e') /\
    match a with
    | None => off (deg (d - 1)) p + r + 1 = nodes d
    | Some a => exists child, child_get tree a (c' + 1) = Some (Some child) /\
        exists y, cursor_first tree (e' + 1) d child = Some (addr (d - 1) y) /\
          0 <= y < nodes (d - 1) /\ off (deg (d - 1)) p + r + 1 = off (deg (d - 1)) y
    end.
Proof.
  intros Hd Hc Hp Hr. destruct (degree_get (d - 1) p) as [_ Hdeg]; [lia|done|].
  destruct (cursor_climb_ok (S (Z.to_nat d)) d p r) as (a & c' & e' & Hrun & Hres);
    [lia|lia|done|done|lia|].
  exists a, c', e'. split; [done|]. destruct a as [a|]; [|done].
  destruct Hres as (q' & -> & He' & Hq' & Hc' & Hcd' & Hdesc).
  assert (e' < d) as Hed.
  { destruct (Z.eq_dec e' d) as [->|]; [|lia]. replace (d - d) with 0 in Hdesc by lia.
    change (off (deg (d - 1)) q' + c' + 1 = off (deg (d - 1)) p + r + 1) in Hdesc.
    destruct (child_index (d - 1) q' c') as [_ Hl]; [lia|done|lia|].
    destruct (child_index (d - 1) p r) as [_ Hl']; [lia|done|lia|].
    replace (off (deg (d - 1)) q' + c') with (off (deg (d - 1)) p + r) in Hl by lia.
    rewrite Hl' in Hl. injection Hl as <- <-. lia. }
  destruct (child_index (e' - 1) q' (c' + 1)) as [Hch _]; [lia|done|lia|].
  set (x := off (deg (e' - 1)) q' + c' + 1) in *. exists (addr e' x). split.
  { rewrite child_get_ok by (rewrite ?Hc by lia; lia).
    replace (e' - 1 + 1) with e' by lia. f_equal. f_equal. f_equal. unfold x. lia. }
  replace (e' - 1 + 1) with e' in Hch by lia.
  set (n := Z.to_nat (d - 1 - e')). assert (e' + Z.of_nat n = d - 1) as Hn by lia.
  pose proof (cursor_first_ok n (e' + 1) e' x) as Hfirst.
  replace (e' + 1 + Z.of_nat n) with d in Hfirst by lia. rewrite Hn in Hfirst.
  pose proof (first_desc_range n e' x) as Hrange. rewrite Hn in Hrange.
  exists (first_desc n e' x). split; [apply Hfirst; (done || lia)|].
  split; [apply Hrange; lia|]. rewrite <- Hdesc. replace (Z.to_nat (d - e')) with (S n) by lia.
  by rewrite first_desc_S, Hn.
Qed.

(** m0_fd__tree_cursor_next() moves to the next node of the level, if any. *)
Lemma cursor_next_ok d i cursor :
  0 <= d <= depth -> complete fill (d - 1) -> 0 <= i < nodes d -> cursor_at d i cursor ->
  (i + 1 = nodes d /\ m0_fd__tree_cursor_next tree cursor = Some (false, cursor)) \/
  (i + 1 < nodes d /\ exists cursor', m0_fd__tree_cursor_next tree cursor = Some (true, cursor') /\
     cursor_at d (i + 1) cursor').
Proof.
  intros Hd Hc Hi (Hcd & Hpath & Habs & Hat). unfold m0_fd__tree_cursor_next. rewrite Hcd, Habs.
  destruct (Z.eqb_spec d 0) as [->|Hd0].
  { left. split; [|done]. change (nodes 0) with 1 in *. lia. }
  destruct Hat as [Hnode Hidx].
  destruct (parent_index d i) as (p & r & Hloc & Hp & Hr & Hir); [lia|done|].
  rewrite Hloc in Hnode, Hidx. cbn [fst snd] in Hnode, Hidx. rewrite Hnode, Hidx. cbn [mbind option_bind].
  destruct (degree_get (d - 1) p) as [_ Hdeg]; [lia|done|].
  assert (ft_heap tree !! addr (d - 1) p = Some (node_at fill (d - 1) p)) as Hheap.
  { destruct Hrepr as (_ & _ & H). apply H; [fold depth; lia|rewrite Hc by lia; done]. }
  run Hheap. cbn [node_at ftn_child_nr]. replace (u16 r) with r by (symmetry; apply Z.mod_small; lia).
  pose proof (proj1 Hwf) as Hlen.
  assert (forall node idx, exists path, length path = 6%nat /\
    (path0 ← arr_set (ftc_path cursor) d (i + 1);
     Some (true, {| ftc_depth := d; ftc_node := Some node; ftc_child_idx := idx;
                    ftc_child_abs_idx := i + 1; ftc_path := path0 |})) =
    Some (true, {| ftc_depth := d; ftc_node := Some node; ftc_child_idx := idx;
                   ftc_child_abs_idx := i + 1; ftc_path := path |})) as Hmoved.
  { intros node idx. rewrite arr_set_ok by (rewrite Hpath; unfold depth in *; lia).
    eexists. split; [|done]. by rewrite length_insert. }
  destruct (Z.ltb_spec (r + 1) (degree (d - 1) p)) as [Hlt|Hge].
  - destruct (child_index (d - 1) p (r + 1)) as [Hch Hloc']; [lia|done|lia|].
    right. replace (d - 1 + 1) with d in Hch by lia. split; [lia|].
    destruct (Hmoved (addr (d - 1) p) (r + 1)) as (path & Hpl & Hrun). rewrite Hrun.
    eexists. split; [done|]. split; [done|]. split; [done|]. split; [done|].
    destruct (Z.eqb_spec d 0); [done|]. replace (i + 1) with (off (deg (d - 1)) p + (r + 1)) by lia.
    by rewrite Hloc'.
  - destruct (climb_next d p r) as (a & c' & e' & Hrun & Hres); [lia|done|done|lia|].
    run Hrun. rewrite <- Hir in Hres. destruct a as [a|]; [|left; by split].
    destruct Hres as (child & Hget & y & Hfirst & Hy & Hiy). run Hget. run Hfirst. right.
    destruct (degree_get (d - 1) y) as [_ Hdegy]; [lia|done|].
    destruct (child_index (d - 1) y 0) as [Hchy Hlocy]; [lia|done|lia|].
    rewrite Z.add_0_r, <- Hiy in Hchy, Hlocy. replace (d - 1 + 1) with d in Hchy by lia.
    split; [lia|]. destruct (Hmoved (addr (d - 1) y) 0) as (path & Hpl & Hrunm). rewrite Hrunm.
    eexists. split; [done|]. split; [done|]. split; [done|]. split; [done|].
    destruct (Z.eqb_spec d 0); [done|]. by rewrite Hlocy.
Qed.

End cursor_lemmas.

(** *** Addresses *)

Lemma addr_base_S d : 0 <= d -> addr_base (d + 1) = addr_base d + nodes d.
Proof.
  intros Hd. unfold addr_base. rewrite seqZ_snoc, fmap_app, sumZ_app by lia.
  change (sumZ (nodes <$> [d])) with (nodes d + 0). lia.
Qed.

Section build_lemmas.
Hypothesis Hwf : degs_wf.
Let depth := Z.of_nat (length degs).

Lemma addr_base_mono d e : 0 <= d <= e -> e <= depth + 1 -> addr_base d <= addr_base e.
Proof.
  intros Hd He. assert (forall k : nat, d + Z.of_nat k <= depth + 1 ->
    addr_base d <= addr_base (d + Z.of_nat k)) as Hk.
  { induction k as [|k IH]; intros Hk; [rewrite Z.add_0_r; lia|].
    replace (d + Z.of_nat (S k)) with (d + Z.of_nat k + 1) by lia. rewrite addr_base_S by lia.
    pose proof (nodes_pos Hwf (d + Z.of_nat k) ltac:(fold depth; lia)). lia. }
  specialize (Hk (Z.to_nat (e - d))). replace (d + Z.of_nat (Z.to_nat (e - d))) with e in Hk by lia.
  apply Hk. lia.
Qed.

Lemma addr_inj d i e j :
  0 <= d <= depth -> 0 <= i < nodes d -> 0 <= e <= depth -> 0 <= j < nodes e ->
  addr d i = addr e j -> d = e /\ i = j.
Proof.
  intros Hd Hi He Hj Heq. unfold addr in Heq.
  destruct (Z.lt_total d e) as [Hlt|[->|Hlt]]; [|lia|].
  - pose proof (addr_base_mono (d + 1) e ltac:(lia) ltac:(lia)). rewrite addr_base_S in * by lia. lia.
  - pose proof (addr_base_mono (e + 1) d ltac:(lia) ltac:(lia)). rewrite addr_base_S in * by lia. lia.
Qed.

(** Levels up to [L] exist, and the first [i] nodes of the next one. *)
Definition fill_to (L i e : Z) : Z := if e <=? L then nodes e else if e =? L + 1 then i else 0.

Lemma fill_to_complete L i : complete (fill_to L i) L.
Proof. intros d Hd. unfold fill_to. by destruct (Z.leb_spec d L); [|lia]. Qed.

Lemma tree_repr_ext fill fill' tree :
  (forall e, 0 <= e -> fill e = fill' e) -> tree_repr fill tree -> tree_repr fill' tree.
Proof.
  intros Hext (Hd & Hr & Hh). split; [done|]. split; [done|]. intros d i Hdd Hi.
  rewrite <- Hext in Hi by lia. rewrite Hh by done. f_equal. unfold node_at. f_equal. f_equal.
  apply list_fmap_ext. intros k x _. by rewrite Hext by lia.
Qed.

(** The heap after adding node [i] of level [L + 1]. *)
Definition set_child (node : m0_fd_tree_node) (r a : Z) : m0_fd_tree_node :=
  set_children node (children ← ftn_children node; Some (<[Z.to_nat r := Some a]> children)).

Lemma node_at_parent L i p r :
  0 <= L < depth -> 0 <= i < nodes (L + 1) -> locate (deg L) i = (p, r) ->
  0 <= p < nodes L -> 0 <= r < degree L p -> i = off (deg L) p + r ->
  set_child (node_at (fill_to L i) L p) r (addr (L + 1) i) = node_at (fill_to L (i + 1)) L p.
Proof.
  intros HL Hi Hloc Hp Hr Hir. unfold set_child, set_children, node_at. cbn. f_equal. f_equal.
  apply list_eq. intros k. destruct (decide (k < Z.to_nat (degree L p))%nat) as [Hk|Hk]; cycle 1.
  { rewrite lookup_ge_None_2 by (rewrite length_insert, length_fmap, length_seqZ; lia).
    symmetry. apply lookup_ge_None_2. rewrite length_fmap, length_seqZ. lia. }
  assert (forall f, ((fun k => let j := off (deg L) p + k in
      if j <? f then Some (addr (L + 1) j) else None) <$> seqZ 0 (degree L p)) !! k =
      Some (if off (deg L) p + Z.of_nat k <? f then Some (addr (L + 1) (off (deg L) p + Z.of_nat k)) else
        None))
    as Hlook by (intros f; rewrite list_lookup_fmap, lookup_seqZ_lt by lia; done).
  rewrite Hlook. unfold fill_to. destruct (Z.leb_spec (L + 1) L); [lia|]. rewrite Z.eqb_refl.
  destruct (decide (k = Z.to_nat r)) as [->|Hne].
  - rewrite list_lookup_insert_eq by (rewrite length_fmap, length_seqZ; lia).
    rewrite Z2Nat.id by lia. destruct (Z.ltb_spec (off (deg L) p + r) (i + 1)); [by rewrite <- Hir|lia].
  - rewrite list_lookup_insert_ne by lia. rewrite Hlook.
    destruct (Z.ltb_spec (off (deg L) p + Z.of_nat k) i), (Z.ltb_spec (off (deg L) p + Z.of_nat k) (i + 1));
      (done || lia).
Qed.

Lemma node_at_other L i e j :
  0 <= L < depth -> 0 <= i < nodes (L + 1) -> 0 <= e <= L + 1 -> 0 <= j < nodes e ->
  (e = L -> (locate (deg L) i).1 <> j) ->
  node_at (fill_to L i) e j = node_at (fill_to L (i + 1)) e j.
Proof.
  intros HL Hi He Hj Hne. unfold node_at. f_equal. f_equal. apply list_fmap_ext.
  intros k x [-> Hk]%lookup_seqZ. rewrite Z.add_0_l. unfold fill_to.
  destruct (Z.leb_spec (e + 1) L); [done|]. destruct (Z.eqb_spec (e + 1) (L + 1)); [|done].
  assert (e = L) as -> by lia. specialize (Hne eq_refl).
  destruct (child_index Hwf L j (Z.of_nat k)) as [_ Hloc]; [done|done|lia|].
  assert (off (deg L) j + Z.of_nat k <> i) as Hoff by (intros <-; by rewrite Hloc in Hne).
  destruct (Z.ltb_spec (off (deg L) j + Z.of_nat k) i), (Z.ltb_spec (off (deg L) j + Z.of_nat k) (i + 1));
    (done || lia).
Qed.

End build_lemmas.

End tree_repr.
