(* ===== verification/FdBuild.v ===== *)
(** * fd: what m0_fd_tree_build() builds

    Shows that m0_fd_tree_build() turns the levels of a pool version into a
    failure-domains tree in which every cursor walk visits a level from left to
    right, and collects the lengths of the permutation caches. *)
From S2P Require Import Prelude LibArith Fid FdPerm Pdclust FdTol FdTree.

Section build.
Context (degs : list (list Z)) (mem : Z -> bool).
Hypothesis Hwf : degs_wf degs.
Hypothesis Hmem : forall k, mem k = true.
Let depth := Z.of_nat (length degs).
Notation nodes := (nodes degs).
Notation addr := (addr degs).
Notation deg := (deg degs).
Notation degree := (degree degs).
Notation fill_to := (fill_to degs).

(** The state of the build: [i] nodes of level [L + 1] exist. *)
Definition built (L i : Z) (tree : m0_fd_tree) : Prop :=
  tree_repr degs (fill_to L i) tree /\ ft_next tree = addr (L + 1) i /\
  ft_cnt tree = addr (L + 1) i.

Lemma total_nodes : addr_base degs (depth + 1) < 2 ^ 34.
Proof.
  destruct Hwf as [Hlen Hw]. unfold addr_base.
  assert (Forall (fun x => 0 <= x <= 2 ^ 31) (nodes <$> seqZ 0 (depth + 1))) as HF.
  { apply Forall_fmap, Forall_forall. intros d Hd%elem_of_seqZ. cbn.
    pose proof (nodes_pos degs Hwf d ltac:(fold depth; lia)) as Hp. fold depth in Hp.
    destruct (Z.eq_dec d 0) as [->|]; [change (nodes 0) with 1; lia|].
    destruct (Hw (d - 1)) as (_ & _ & _ & _ & Hb); [fold depth; lia|].
    replace (d - 1 + 1) with d in Hb by lia. lia. }
  pose proof (sumZ_bound _ _ HF) as Hb. rewrite length_fmap, length_seqZ in Hb. fold depth in Hlen. lia.
Qed.

Lemma addr_small L i : 0 <= L < depth -> 0 <= i <= nodes (L + 1) -> 0 <= addr (L + 1) i < 2 ^ 34.
Proof.
  intros HL Hi. pose proof (addr_base_mono degs Hwf (L + 1 + 1) (depth + 1) ltac:(lia) ltac:(lia)) as Hm.
  pose proof (addr_base_mono degs Hwf 0 (L + 1) ltac:(lia) ltac:(fold depth; lia)) as Hm0.
  rewrite addr_base_S in Hm by lia. pose proof total_nodes.
  change (addr_base degs 0) with 0 in Hm0. unfold FdTree.addr. lia.
Qed.

Lemma degree_leaf i : degree depth i = 0.
Proof.
  unfold FdTree.degree, FdTree.deg, depth. unfold arr_get at 2.
  rewrite (proj2 (Z.leb_le 0 _)) by lia. rewrite Nat2Z.id, lookup_ge_None_2 by lia.
  cbn [default]. unfold arr_get. by destruct (0 <=? i).
Qed.

Lemma degree_small L i : 0 <= L < depth -> 0 <= i < nodes (L + 1) -> 0 <= degree (L + 1) i < 2 ^ 16.
Proof.
  intros HL Hi. destruct (Z.eq_dec (L + 1) depth) as [->|]; [rewrite degree_leaf; lia|].
  destruct (degree_get degs Hwf (L + 1) i) as [_ ?]; [fold depth; lia|done|lia].
Qed.

(** A node has children, or is a leaf. *)
Lemma node_degree_ok L i tree :
  0 <= L < depth -> 0 <= i < nodes (L + 1) -> ft_depth tree = depth ->
  (L + 1 =? ft_depth tree) || (0 <? degree (L + 1) i) = true.
Proof.
  intros HL Hi ->. destruct (Z.eqb_spec (L + 1) depth); [done|].
  destruct (degree_get degs Hwf (L + 1) i) as [_ [Hp _]]; [fold depth; lia|done|].
  by apply Z.ltb_lt.
Qed.

Lemma new_node L i p r :
  0 <= L < depth -> 0 <= i < nodes (L + 1) -> locate (deg L) i = (p, r) -> 0 <= r < 2 ^ 16 ->
  {| ftn_parent := Some (addr L p); ftn_depth := L + 1; ftn_child_nr := degree (L + 1) i;
     ftn_rel_idx := u32 r; ftn_abs_idx := u32 i;
     ftn_children := Some (replicate (Z.to_nat (degree (L + 1) i)) None) |} =
  node_at degs (fill_to L (i + 1)) (L + 1) i.
Proof.
  intros HL Hi Hloc Hr. unfold node_at. destruct (Z.eqb_spec (L + 1) 0); [lia|].
  replace (L + 1 - 1) with L by lia. rewrite Hloc. cbn [fst snd].
  destruct (proj2 Hwf L HL) as (_ & _ & _ & _ & Hb).
  rewrite !u32_small by (unfold is_u32; lia). f_equal. f_equal. symmetry.
  apply fmap_seqZ_const. intros k Hk. unfold FdTree.fill_to.
  destruct (Z.leb_spec (L + 1 + 1) L); [lia|]. destruct (Z.eqb_spec (L + 1 + 1) (L + 1)); [lia|].
  destruct (Z.ltb_spec (off (deg (L + 1)) i + k) 0) as [Hneg|]; [|done].
  destruct (Z.eq_dec (L + 1) depth) as [Hl|Hl]; [rewrite Hl, degree_leaf in Hk; lia|].
  destruct (child_index degs Hwf (L + 1) i k) as [? _]; [fold depth; lia|done|lia|lia].
Qed.

Lemma fill_to_nodes L i e j :
  0 <= L < depth -> 0 <= i <= nodes (L + 1) -> 0 <= j < fill_to L i e -> 0 <= j < nodes e.
Proof.
  intros HL Hi. unfold FdTree.fill_to. destruct (Z.leb_spec e L); [done|].
  destruct (Z.eqb_spec e (L + 1)) as [->|]; lia.
Qed.

Lemma fill_to_old L i e j :
  0 <= j < fill_to L (i + 1) e -> ~ (e = L + 1 /\ j = i) -> e <= L + 1 /\ 0 <= j < fill_to L i e.
Proof.
  unfold FdTree.fill_to. destruct (Z.leb_spec e L); [lia|]. destruct (Z.eqb_spec e (L + 1)); lia.
Qed.

(** Creating one node: allocate it, store it in the array of its parent, and
    initialise it. *)
Lemma create_node L i tree cursor child_nr :
  0 <= L < depth -> 0 <= i < nodes (L + 1) -> built L i tree -> cursor_at degs (L + 1) i cursor ->
  child_nr = degree (L + 1) i ->
  exists l tree1 tree2 tree3,
    m0_fd__tree_cursor_get cursor = Some l /\
    node_alloc mem tree = (Some (addr (L + 1) i), tree1) /\
    loc_set tree1 l (Some (addr (L + 1) i)) = Some tree2 /\
    m0_fd__tree_node_init mem tree2 (addr (L + 1) i) child_nr cursor = Some (0, tree3) /\
    built L (i + 1) tree3 /\ ft_depth tree3 = ft_depth tree.
Proof.
  intros HL Hi ((Hdep & Hroot & Hheap) & Hnext & Hcnt) (Hcd & Hcp & Hcabs & Hat) ->.
  destruct (Z.eqb_spec (L + 1) 0) as [|_]; [lia|]. destruct Hat as [Hnode Hidx].
  replace (L + 1 - 1) with L in * by lia.
  destruct (parent_index degs Hwf (L + 1) i) as (p & r & Hloc & Hp & Hr & Hir); [fold depth; lia|done|].
  replace (L + 1 - 1) with L in * by lia.
  rewrite Hloc in Hnode, Hidx. cbn [fst snd] in Hnode, Hidx.
  pose proof (degree_small L i HL Hi) as Hdeg.
  set (a := addr (L + 1) i) in *. set (pa := addr L p) in *.
  assert (a <> pa) as Hne.
  { intros Heq. destruct (addr_inj degs Hwf (L + 1) i L p) as [? _]; fold depth; try lia; done. }
  pose proof (Hheap L p ltac:(lia) ltac:(rewrite fill_to_complete; [done|lia])) as Hparent.
  fold pa in Hparent.
  set (tree1 := {| ft_depth := ft_depth tree; ft_root := ft_root tree; ft_cnt := ft_cnt tree;
    ft_cache_info := ft_cache_info tree; ft_heap := <[a := zero_node]> (ft_heap tree);
    ft_next := a + 1; ft_allocs := ft_allocs tree + 1 |}).
  exists (loc_child pa r), tree1, (with_heap tree1
    (<[pa := set_child (node_at degs (fill_to L i) L p) r a]> (ft_heap tree1))).
  eexists. split.
  { unfold m0_fd__tree_cursor_get. rewrite Hcd, Hnode, Hidx.
    destruct (Z.eqb_spec (L + 1) 0); [lia|done]. }
  split. { unfold node_alloc. by rewrite Hmem, Hnext. }
  split.
  { unfold loc_set. cbn [tree1 ft_heap].
    rewrite lookup_insert_ne by done. run Hparent. cbn [node_at ftn_children mbind option_bind].
    rewrite arr_set_ok by (rewrite length_fmap, length_seqZ; lia). done. }
  split.
  { unfold m0_fd__tree_node_init. rewrite Hcd, Hnode.
    assert_ok by (by rewrite orb_true_r).
    replace (u16 (degree (L + 1) i)) with (degree (L + 1) i) by (symmetry; apply Z.mod_small; lia).
    assert_ok by (by apply node_degree_ok).
    cbn [with_heap tree1 ft_heap]. rewrite lookup_insert_ne, lookup_insert_eq by done.
    cbn [mbind option_bind]. unfold array_alloc. cbv zeta. rewrite Hmem. reflexivity. }
  split; [|done]. split; [|split].
  - split; [done|]. split; [done|]. intros e j He Hj. cbn [with_heap with_cnt ft_heap tree1].
    rewrite Hidx, Hcabs. destruct (decide (e = L + 1 /\ j = i)) as [[-> ->]|Hej].
    { fold a. rewrite lookup_insert_eq. f_equal. apply new_node; try done.
      destruct (degree_get degs Hwf L p) as [_ ?]; [done|done|lia]. }
    assert (e <= L + 1 /\ 0 <= j < fill_to L i e) as [HeL Hj'] by (by apply fill_to_old).
    assert (0 <= j < nodes e) as Hjn by (apply (fill_to_nodes L i); [done|lia|done]).
    assert (a <> addr e j) as Ha.
    { intros Heq. apply (addr_inj degs Hwf) in Heq as [? ?]; [by apply Hej|fold depth; lia..]. }
    rewrite lookup_insert_ne by done. destruct (decide (pa = addr e j)) as [Hpa|Hpa].
    + rewrite <- Hpa, lookup_insert_eq.
      apply (addr_inj degs Hwf) in Hpa as [? ?]; [subst e j|fold depth; lia..]. f_equal.
      by apply node_at_parent.
    + rewrite !lookup_insert_ne by done. rewrite Hheap by done. f_equal.
      apply node_at_other; try done; [lia|]. intros -> Hj2. rewrite Hloc in Hj2. cbn in Hj2.
      by subst.
  - cbn. unfold a, FdTree.addr. lia.
  - cbn. rewrite Hcnt. pose proof (addr_small L i HL ltac:(lia)).
    rewrite u64_small by (unfold is_u64, a in *; lia). unfold a, FdTree.addr. lia.
Qed.

Lemma level_loop_ok L objs i tree cursor :
  0 <= L < depth -> 0 <= i -> i + Z.of_nat (length objs) = nodes (L + 1) -> objs <> [] ->
  (L + 1 < depth -> forall k len, objs !! k = Some len -> len = degree (L + 1) (i + Z.of_nat k)) ->
  built L i tree -> cursor_at degs (L + 1) i cursor ->
  exists tree' cursor', level_loop mem tree L cursor objs = Some (0, tree', cursor') /\
    built L (nodes (L + 1)) tree' /\ cursor_at degs (L + 1) (nodes (L + 1) - 1) cursor'.
Proof.
  intros HL. revert i tree cursor. induction objs as [|len objs IH];
    intros i tree cursor Hi Hlen Hne Hobj Hb Hat;
    [done|]. simpl length in Hlen.
  set (child_nr := if L <? ft_depth tree - 1 then len else 0).
  assert (child_nr = degree (L + 1) i) as Hcn.
  { unfold child_nr. destruct Hb as ((Hdep & _) & _). rewrite Hdep. fold depth.
    destruct (Z.ltb_spec L (depth - 1)).
    - rewrite (Hobj ltac:(lia) O len eq_refl). f_equal. lia.
    - replace (L + 1) with depth by lia. by rewrite degree_leaf. }
  destruct (create_node L i tree cursor child_nr)
    as (l & tree1 & tree2 & tree3 & H1 & H2 & H3 & H4 & Hb' & _);
    [done|lia|done|done|done|].
  cbn [level_loop]. run H1. rewrite H2. run H3. fold child_nr. run H4. cbn [negb Z.eqb].
  pose proof Hb' as (Hrepr & _).
  destruct (cursor_next_ok degs Hwf _ tree3 Hrepr (L + 1) i cursor)
    as [[Hend Hnext]|[Hmore (cursor' & Hnext & Hat')]].
  - fold depth; lia.
  - replace (L + 1 - 1) with L by lia. apply fill_to_complete.
  - lia.
  - done.
  - run Hnext. destruct objs as [|len' objs]; [|simpl in Hlen; lia]. cbn [level_loop].
    exists tree3, cursor. split; [done|]. rewrite <- Hend. split; [done|].
    by replace (i + 1 - 1) with i by lia.
  - run Hnext. destruct objs as [|len' objs]; [simpl in Hlen; lia|].
    apply (IH (i + 1)); [lia|simpl in *; lia|done| |done|done].
    intros HL1 k len2 Hk. rewrite (Hobj HL1 (S k) len2 Hk). f_equal. lia.
Qed.

(** The levels up to [L] exist. *)
Lemma built_next L tree : 0 <= L < depth -> built L (nodes (L + 1)) tree -> built (L + 1) 0 tree.
Proof.
  intros HL (Hrepr & Hnext & Hcnt). unfold built.
  assert (addr (L + 1 + 1) 0 = addr (L + 1) (nodes (L + 1))) as ->
    by (unfold FdTree.addr; rewrite addr_base_S by lia; lia).
  split; [|done]. eapply tree_repr_ext; [|done]. intros e He. unfold FdTree.fill_to.
  destruct (Z.leb_spec e L), (Z.leb_spec e (L + 1)), (Z.eqb_spec e (L + 1)), (Z.eqb_spec e (L + 1 + 1));
    try lia; subst; done.
Qed.

Lemma level_populate_ok pv tree L objs :
  0 <= L < depth -> built L 0 tree ->
  arr_get (pv_levels pv) (L + (5 - depth)) = Some objs ->
  Z.of_nat (length objs) = nodes (L + 1) ->
  (L + 1 < depth -> forall k len, objs !! k = Some len -> len = degree (L + 1) (Z.of_nat k)) ->
  exists tree', m0_fd__tree_level_populate mem pv tree L = Some (0, tree') /\ built (L + 1) 0 tree'.
Proof.
  intros HL Hb Hobjs Hlen Hdegs. pose proof Hb as (Hrepr & _). pose proof Hrepr as (Hdep & Hroot & _).
  pose proof (nodes_pos degs Hwf (L + 1) ltac:(fold depth; lia)) as Hpos.
  unfold m0_fd__tree_level_populate. run Hroot. assert_ok by (rewrite Hdep; fold depth; lia).
  destruct (cursor_init_ok degs Hwf _ tree Hrepr (L + 1)) as (cursor & Hinit & Hat);
    [fold depth; lia|replace (L + 1 - 1) with L by lia; apply fill_to_complete|].
  run Hinit. unfold tree2pv_level_conv. rewrite Hdep. fold depth.
  pose proof (proj1 Hwf) as Hlen5. assert_ok by (unfold M0_CONF_PVER_HEIGHT, depth; lia).
  unfold M0_CONF_PVER_HEIGHT. run Hobjs.
  destruct (level_loop_ok L objs 0 tree cursor) as (tree' & cursor' & Hloop & Hb' & Hat');
    [done|lia|lia|intros ->; simpl in Hlen; lia|done|done|done|].
  run Hloop. cbn [Z.eqb]. pose proof Hb' as (Hrepr' & _).
  destruct (cursor_next_ok degs Hwf _ tree' Hrepr' (L + 1) (nodes (L + 1) - 1) cursor')
    as [[_ Hnext]|[Hmore _]]; [fold depth; lia|replace (L + 1 - 1) with L by lia; apply fill_to_complete
    |lia|done| |lia].
  run Hnext. assert_ok by done. exists tree'. split; [done|]. by apply built_next.
Qed.

(** *** Lengths of the permutation caches *)

Definition seen_add (seen : list Z) (c : Z) : list Z :=
  if existsb (Z.eqb c) seen then seen else seen ++ [c].

Lemma seen_add_spec seen c :
  NoDup seen -> NoDup (seen_add seen c) /\ (forall x, x ∈ seen_add seen c <-> x ∈ seen \/ x = c).
Proof.
  intros Hnd. unfold seen_add. destruct (existsb (Z.eqb c) seen) eqn:E.
  - apply existsb_exists in E as (y & Hy & Heq). apply Z.eqb_eq in Heq as <-.
    apply list_elem_of_In in Hy. split; [done|]. set_solver.
  - assert (c ∉ seen) as Hc.
    { intros Hin%list_elem_of_In. rewrite <- not_true_iff_false in E. apply E, existsb_exists.
      exists c. split; [done|apply Z.eqb_refl]. }
    split; [|set_solver]. apply NoDup_app. split; [done|]. split; [set_solver|apply NoDup_singleton].
Qed.

Lemma seen_fold_spec cs seen :
  NoDup seen -> NoDup (fold_left seen_add cs seen) /\
    (forall x, x ∈ fold_left seen_add cs seen <-> x ∈ seen \/ x ∈ cs) /\
    (length (fold_left seen_add cs seen) <= length seen + length cs)%nat.
Proof.
  revert seen. induction cs as [|c cs IH]; intros seen Hnd; cbn [fold_left].
  { split; [done|]. split; [set_solver|simpl; lia]. }
  destruct (seen_add_spec seen c Hnd) as [Hnd' Hin']. destruct (IH _ Hnd') as (H1 & H2 & H3).
  split; [done|]. split; [intros x; rewrite H2, Hin', elem_of_cons; tauto|].
  assert (length (seen_add seen c) <= length seen + 1)%nat
    by (unfold seen_add; destruct (existsb _ _); rewrite ?length_app; simpl; lia).
  simpl. lia.
Qed.

Lemma cache_info_update_ok seen rest c :
  rest <> [] ->
  exists rest', cache_info_update (seen ++ rest) (Z.of_nat (length seen)) c =
    Some (seen_add seen c ++ rest', Z.of_nat (length (seen_add seen c))) /\
    (length rest <= length rest' + 1)%nat /\
    (length (seen_add seen c) + length rest' = length seen + length rest)%nat.
Proof.
  intros Hne. unfold cache_info_update, seen_add. rewrite Nat2Z.id, take_app_length.
  destruct (existsb (Z.eqb c) seen); [exists rest; split; [done|lia]|].
  destruct rest as [|x rest]; [done|]. exists rest. run arr_set_middle by done.
  rewrite <- app_assoc. rewrite length_app. simpl. split; [f_equal; f_equal; lia|lia].
Qed.

Section caches.
Context (tree : m0_fd_tree).
Hypothesis Hb : built depth 0 tree.

Lemma full_complete : complete degs (fill_to depth 0) depth.
Proof. apply fill_to_complete. Qed.

(** Reading through a cursor. *)
Lemma cursor_deref d i cursor :
  0 <= d <= depth -> 0 <= i < nodes d -> cursor_at degs d i cursor ->
  exists l, m0_fd__tree_cursor_get cursor = Some l /\ loc_get tree l = Some (Some (addr d i)) /\
    ft_heap tree !! addr d i = Some (node_at degs (fill_to depth 0) d i).
Proof.
  intros Hd Hi (Hcd & _ & _ & Hat). pose proof Hb as (Hrepr & _). pose proof Hrepr as (_ & Hroot & Hheap).
  pose proof full_complete as Hc. fold depth in Hheap.
  assert (ft_heap tree !! addr d i = Some (node_at degs (fill_to depth 0) d i)) as Hnode
    by (apply Hheap; [done|rewrite Hc by lia; done]).
  unfold m0_fd__tree_cursor_get. rewrite Hcd. destruct (Z.eqb_spec d 0) as [->|Hd0].
  { exists loc_root. split; [done|]. split; [|done]. cbn [loc_get]. rewrite Hroot.
    change (nodes 0) with 1 in Hi. by replace i with 0 by lia. }
  destruct Hat as [Hn Hidx]. rewrite Hn, Hidx. cbn [mbind option_bind].
  destruct (parent_index degs Hwf d i) as (p & r & Hloc & Hp & Hr & Hir); [fold depth; lia|done|].
  rewrite Hloc. cbn [fst snd]. eexists. split; [done|]. split; [|done]. cbn [loc_get].
  rewrite (child_get_ok degs _ tree Hrepr).
  - by replace (d - 1 + 1) with d by lia; rewrite <- Hir.
  - fold depth. lia.
  - rewrite Hc by lia. done.
  - rewrite Hc by lia. done.
  - done.
  - replace (d - 1 + 1) with d by lia. rewrite Hc by lia. lia.
Qed.

Lemma cache_level_ok d fuel i cursor seen rest :
  0 <= d < depth -> 0 <= i < nodes d -> cursor_at degs d i cursor ->
  nodes d - i <= Z.of_nat (length rest) -> nodes d - i <= Z.of_nat fuel ->
  exists rest', let seen' := fold_left seen_add (drop (Z.to_nat i) (deg d)) seen in
    cache_level fuel tree cursor (seen ++ rest) (Z.of_nat (length seen)) =
      Some (seen' ++ rest', Z.of_nat (length seen')) /\
    (length seen' + length rest' = length seen + length rest)%nat /\
    Z.of_nat (length rest) - (nodes d - i) <= Z.of_nat (length rest').
Proof.
  intros Hd. revert i cursor seen rest. induction fuel as [|fuel IH]; intros i cursor seen rest Hi Hat Hr Hf;
    [lia|].
  destruct (cursor_deref d i cursor) as (l & H1 & H2 & H3); [lia|done|done|].
  destruct (degree_get degs Hwf d i) as [Hget _]; [fold depth; lia|done|].
  destruct (cache_info_update_ok seen rest (degree d i)) as (rest1 & H4 & Hl1 & Hl2);
    [intros ->; simpl in Hr; lia|].
  apply arr_get_Some in Hget as [_ Hget]. rewrite (drop_S _ _ _ Hget). cbn [fold_left cache_level].
  run H1. run H2. run H3. cbn [node_at ftn_child_nr]. run H4.
  pose proof Hb as (Hrepr & _). pose proof full_complete as Hc.
  destruct (cursor_next_ok degs Hwf _ tree Hrepr d i cursor)
    as [[Hend Hnext]|[Hmore (cursor' & Hnext & Hat')]];
      [fold depth; lia|intros e He; apply Hc; lia|done|done| |].
  - run Hnext. exists rest1. destruct (proj2 Hwf d) as (Hl & _); [fold depth; lia|].
    rewrite drop_ge by lia. cbn [fold_left]. split; [done|]. split; lia.
  - run Hnext. destruct (IH (i + 1) cursor' (seen_add seen (degree d i)) rest1)
      as (rest2 & Hrun & Hl3 & Hl4); [lia|done|lia|lia|].
    exists rest2. replace (Z.to_nat (i + 1)) with (S (Z.to_nat i)) in * by lia.
    split; [done|]. split; lia.
Qed.

End caches.

(** The degrees of all the inner nodes. *)
Definition all_degrees (d : Z) : list Z := mjoin (deg <$> seqZ 0 d).

Lemma all_degrees_S d : 0 <= d -> all_degrees (d + 1) = all_degrees d ++ deg d.
Proof. intros Hd. unfold all_degrees. rewrite seqZ_snoc, fmap_app by done. apply join_snoc. Qed.

Lemma elem_of_all_degrees d c :
  0 <= d <= depth -> c ∈ all_degrees d <-> exists e i, 0 <= e < d /\ 0 <= i < nodes e /\ degree e i = c.
Proof.
  intros Hd. unfold all_degrees. rewrite list_elem_of_join. split.
  - intros (l & Hc & (e & -> & He%elem_of_seqZ)%list_elem_of_fmap).
    apply list_elem_of_lookup in Hc as [k Hk]. exists e, (Z.of_nat k).
    destruct (proj2 Hwf e) as (Hl & _); [fold depth; lia|]. pose proof (lookup_lt_Some _ _ _ Hk).
    split; [lia|]. split; [lia|]. unfold FdTree.degree, arr_get.
    rewrite (proj2 (Z.leb_le 0 _)) by lia. by rewrite Nat2Z.id, Hk.
  - intros (e & i & He & Hi & <-). exists (deg e). split; [|apply list_elem_of_fmap_2, elem_of_seqZ; lia].
    destruct (degree_get degs Hwf e i) as [Hget _]; [fold depth; lia|done|].
    apply arr_get_Some in Hget as [_ Hget]. by eapply list_elem_of_lookup_2.
Qed.

Lemma perm_cache_build_ok tree :
  built depth 0 tree ->
  exists tree' info, m0_fd__perm_cache_build mem tree = Some (0, tree') /\
    built depth 0 tree' /\ ft_cache_info tree' = info /\ NoDup info /\
    forall c, c ∈ info <-> exists d i, 0 <= d < depth /\ 0 <= i < nodes d /\ degree d i = c.
Proof.
  intros Hb. unfold m0_fd__perm_cache_build, array_alloc. cbv zeta. rewrite Hmem. cbn [negb ft_depth ft_cnt].
  pose proof Hb as ((Hdep & Hroot & Hheap) & Hnext & Hcnt).
  set (tree1 := {| ft_depth := ft_depth tree; ft_root := ft_root tree; ft_cnt := ft_cnt tree;
    ft_cache_info := ft_cache_info tree; ft_heap := ft_heap tree; ft_next := ft_next tree;
    ft_allocs := ft_allocs tree + 1 |}).
  rewrite Hdep, Hcnt. fold depth. pose proof (proj1 Hwf) as Hlen5.
  replace (addr (depth + 1) 0) with (addr_base degs (depth + 1)) by (unfold FdTree.addr; lia).
  match goal with |- context [for_up 0 depth ?f _] => set (body := f) end.
  destruct (for_up_total (fun d '(info, nr) => exists rest,
      let seen := fold_left seen_add (all_degrees d) [] in
      info = seen ++ rest /\ nr = Z.of_nat (length seen) /\
      addr_base degs (depth + 1) - addr_base degs d <= Z.of_nat (length rest))
    body 0 depth (replicate (Z.to_nat (addr_base degs (depth + 1))) 0, 0))
    as ([info nr] & Hrun & rest & -> & -> & _).
  - lia.
  - eexists. split; [done|]. split; [done|]. rewrite length_replicate. change (addr_base degs 0) with 0. lia.
  - intros d [info nr] Hd (rest & -> & -> & Hrest). unfold body.
    assert (tree_repr degs (fill_to depth 0) tree1) as Hrepr1 by done.
    destruct (cursor_init_ok degs Hwf _ tree1 Hrepr1 d) as (cursor & Hinit & Hat);
      [fold depth; lia|intros e He; apply full_complete; lia|].
    run Hinit. pose proof (nodes_pos degs Hwf d ltac:(fold depth; lia)) as Hpos.
    pose proof (addr_base_mono degs Hwf (d + 1) (depth + 1) ltac:(lia) ltac:(fold depth; lia)) as Hm.
    pose proof (addr_base_mono degs Hwf 0 d ltac:(lia) ltac:(fold depth; lia)) as Hm0.
    change (addr_base degs 0) with 0 in Hm0. rewrite addr_base_S in Hm by lia.
    destruct (cache_level_ok tree1 Hb d (Z.to_nat (addr_base degs (depth + 1))) 0 cursor
      (fold_left seen_add (all_degrees d) []) rest) as (rest' & Hlev & _ & Hr'); [done|lia|done|lia|lia|].
    eexists. split; [exact Hlev|]. exists rest'.
    rewrite all_degrees_S, fold_left_app, (addr_base_S degs d) by lia. split; [done|]. split; [done|]. lia.
  - run Hrun. set (seen := fold_left seen_add (all_degrees depth) []).
    destruct (seen_fold_spec (all_degrees depth) []) as (Hnd & Hin & _); [constructor|].
    fold seen in Hnd, Hin.
    assert (0 < Z.of_nat (length seen)) as Hne.
    { assert (degree 0 0 ∈ seen) as Hx.
      { apply Hin. right. apply elem_of_all_degrees; [lia|]. exists 0, 0.
        change (nodes 0) with 1. split; [lia|]. split; [lia|done]. }
      destruct seen; [set_solver|]. simpl. lia. }
    destruct (m0_array_sort_prefix (seen ++ rest) (Z.of_nat (length seen))) as (arr & Hsort & Hperm);
      [rewrite length_app; lia|].
    rewrite Nat2Z.id, take_app_length in Hperm.
    run Hsort. rewrite Hmem. cbn [negb]. eexists _, _. split; [done|].
    split; [split; [exact (conj eq_refl (conj Hroot Hheap))|split; [exact Hnext|]];
            cbn; unfold FdTree.addr; lia|].
    split; [done|]. cbn [with_cache_info ft_cache_info]. rewrite Nat2Z.id.
    split; [by rewrite Hperm|]. intros c. rewrite Hperm, Hin, <- elem_of_all_degrees by lia. set_solver.
Qed.

End build.

(** ** From a pool version to its tree *)

Lemma objs_count_ok pv level objs :
  arr_get (pv_levels pv) level = Some objs -> Z.of_nat (length objs) < 2 ^ 32 ->
  objs_of_level_count pv level = Some (Z.of_nat (length objs)).
Proof.
  intros Hobjs Hlen. unfold objs_of_level_count. run Hobjs. f_equal.
  assert (forall n, 0 <= n -> n + Z.of_nat (length objs) < 2 ^ 32 ->
    fold_left (fun nr _ => u32 (nr + 1)) objs n = n + Z.of_nat (length objs)) as Hf.
  { clear. induction objs as [|x objs IH]; intros n Hn Hb; [simpl; lia|].
    cbn [fold_left length] in *. rewrite u32_small by (unfold is_u32; lia). rewrite IH; lia. }
  rewrite Hf; lia.
Qed.

Lemma min_children_ok pv level objs :
  arr_get (pv_levels pv) level = Some objs -> level <> M0_CONF_PVER_LVL_DRIVES ->
  exists m, min_children_get pv level = Some m /\ 0 <= m /\ forall c, c ∈ objs -> m <= u32 c.
Proof.
  intros Hobjs Hne. unfold min_children_get. run Hobjs. eexists. split; [done|].
  destruct (Z.eqb_spec level M0_CONF_PVER_LVL_DRIVES); [done|].
  assert (forall max, 0 <= max -> let m := fold_left (fun min x => Z.min min (u32 x)) objs max in
    0 <= m <= max /\ forall c, c ∈ objs -> m <= u32 c) as Hmin.
  { clear. induction objs as [|x objs IH]; intros max Hmax; cbn [fold_left]; [split; [lia|set_solver]|].
    pose proof (Z.mod_pos_bound x (2 ^ 32) ltac:(lia)) as Hx. fold (u32 x) in Hx.
    destruct (IH (Z.min max (u32 x))) as [H1 H2]; [lia|]. split; [lia|].
    intros c [->|Hc]%elem_of_cons; [lia|]. by apply H2. }
  destruct (Hmin UINT32_MAX) as [H1 H2]; [done|]. split; [apply H1|done].
Qed.

Lemma first_level_range pv f : first_level_get pv = Some f -> 0 <= f <= 4.
Proof.
  intros Hrun. unfold first_level_get in Hrun. unbind Hrun. injection Hrun as <-.
  apply (for_up_partial (fun i '(l, _) => 0 <= l <= i)) in E; [|unfold M0_CONF_PVER_HEIGHT; lia|done|].
  - unfold M0_CONF_PVER_HEIGHT, M0_CONF_PVER_LVL_DRIVES in *. destruct (Z.eqb_spec z 5); lia.
  - intros j [l [|]] [l' b'] Hj Hl Hstep; [injection Hstep as <- _; lia|].
    unbind Hstep. destruct (_ =? 0); injection Hstep as <- _; lia.
Qed.

(** The array of children after a successful fill. *)
Lemma symm_tree_children_ok pv f depth children children' :
  1 <= depth -> symm_tree_children pv f depth children = Some (false, children') ->
  arr_get children' 0 = arr_get children 0 /\
  (forall k, 1 <= k < depth -> exists m, min_children_get pv (f + k - 1) = Some m /\ m <> 0 /\
    arr_get children' k = Some m) /\
  length children' = length children.
Proof.
  intros Hd Hrun. unfold symm_tree_children in Hrun.
  apply (for_up_partial (fun i '(bad, c) => bad = false -> arr_get c 0 = arr_get children 0 /\
    (forall k, 1 <= k < i -> exists m, min_children_get pv (f + k - 1) = Some m /\ m <> 0 /\
      arr_get c k = Some m) /\ length c = length children)) in Hrun;
    [by apply Hrun|done|intros _; split; [done|split; [lia|done]]|].
  intros i [bad c] [bad' c'] Hi HI Hstep. destruct bad; [injection Hstep as <- <-; done|].
  destruct (HI eq_refl) as (H0 & Hk & Hlen). unbind Hstep. apply arr_set_Some in E0 as [Hr ->].
  injection Hstep as <- <-. intros Hnz%Z.eqb_neq. split; [|split; [|by rewrite length_insert]].
  - rewrite arr_get_insert by done. destruct (Z.eqb_spec i 0); [lia|done].
  - intros k Hki. rewrite arr_get_insert by done. destruct (Z.eqb_spec i k) as [->|]; [by exists x|].
    apply Hk. lia.
Qed.

(** What a successful symm_tree_attr_get() returns. *)
Lemma symm_tree_attr_ok mem pv array depth children :
  symm_tree_attr_get mem pv array = Some (0, depth, children) ->
  exists f objs, first_level_get pv = Some f /\ depth = 5 - f /\
    objs_of_level_count pv f = Some objs /\ arr_get children 0 = Some objs /\
    (forall k, 1 <= k < depth -> exists m, min_children_get pv (f + k - 1) = Some m /\ m <> 0 /\
       arr_get children k = Some m) /\
    arr_get children depth = Some 1 /\ length children = length array.
Proof.
  intros Hrun. unfold symm_tree_attr_get in Hrun.
  apply bind_Some in Hrun as (f & Hf & Hrun). apply bind_Some in Hrun as (objs & Hobjs & Hrun).
  apply bind_Some in Hrun as (c0 & Hc0 & Hrun).
  apply bind_Some in Hrun as ([bad c1] & Hc1 & Hrun). unfold M0_CONF_PVER_HEIGHT in *.
  pose proof (first_level_range pv f Hf) as Hfr. exists f, objs.
  destruct bad; [injection Hrun; discriminate|].
  apply symm_tree_children_ok in Hc1 as (H0 & Hk & Hlen); [|lia].
  apply bind_Some in Hrun as (c2 & Hc2 & Hrun). apply bind_Some in Hrun as (tol & _ & Hrun).
  assert (depth = 5 - f /\ children = c2) as [-> ->].
  { destruct (0 <? tol); [|by injection Hrun as <- <-].
    apply bind_Some in Hrun as ([rc d] & Hcheck & Hrun). injection Hrun as -> -> <-. split; [|done].
    unfold tolerance_check in Hcheck. apply bind_Some in Hcheck as ([l|units] & _ & Hcheck); [discriminate|].
    apply bind_Some in Hcheck as (units' & _ & Hcheck).
    apply bind_Some in Hcheck as ([i|] & _ & Hcheck); [discriminate Hcheck|by injection Hcheck as <-]. }
  apply arr_set_Some in Hc0 as [Hr0 ->], Hc2 as [Hr2 ->].
  split; [done|]. split; [done|]. split; [done|]. split; [|split; [|split]].
  - rewrite arr_get_insert by done. destruct (Z.eqb_spec (5 - f) 0); [lia|].
    rewrite H0, arr_get_insert by done. done.
  - intros k Hkr. rewrite arr_get_insert by done. destruct (Z.eqb_spec (5 - f) k); [lia|]. by apply Hk.
  - rewrite arr_get_insert by done. by rewrite Z.eqb_refl.
  - by rewrite length_insert, Hlen, length_insert.
Qed.

Definition pv_level (pv : m0_conf_pver) (l : Z) : list Z := default [] (arr_get (pv_levels pv) l).

(** The degrees of the tree whose first level is level [f] of the pool version. *)
Definition pv_degs (pv : m0_conf_pver) (f : Z) : list (list Z) :=
  [Z.of_nat (length (pv_level pv f))] :: take (Z.to_nat (4 - f)) (drop (Z.to_nat f) (pv_levels pv)).

(** The levels of the pool version form a tree. *)
Definition pv_wf (pv : m0_conf_pver) (f : Z) : Prop :=
  length (pv_levels pv) = 5%nat /\ 1 <= f <= 4 /\ degs_wf (pv_degs pv f) /\
  Z.of_nat (length (pv_level pv 4)) = nodes (pv_degs pv f) (5 - f).

Lemma pv_level_get pv l : length (pv_levels pv) = 5%nat -> 0 <= l <= 4 ->
  arr_get (pv_levels pv) l = Some (pv_level pv l).
Proof.
  intros H5 Hl. unfold pv_level. by destruct (arr_get_is_Some (pv_levels pv) l) as [x ->]; [lia|].
Qed.

Lemma pv_degs_length pv f : length (pv_levels pv) = 5%nat -> 1 <= f <= 4 ->
  Z.of_nat (length (pv_degs pv f)) = 5 - f.
Proof. intros H5 Hf. unfold pv_degs. cbn [length]. rewrite length_take, length_drop. lia. Qed.

Lemma pv_degs_deg pv f k : length (pv_levels pv) = 5%nat -> 1 <= f <= 4 -> 1 <= k < 5 - f ->
  deg (pv_degs pv f) k = pv_level pv (f + k - 1).
Proof.
  intros H5 Hf Hk. unfold deg, pv_level, arr_get. rewrite !(proj2 (Z.leb_le 0 _)) by lia.
  unfold pv_degs. replace (Z.to_nat k) with (S (Z.to_nat (k - 1))) by lia.
  assert (forall (x : list Z) l n, (x :: l) !! S n = l !! n) as -> by done.
  rewrite lookup_take_lt, lookup_drop by lia. do 2 f_equal. lia.
Qed.

Lemma pv_objs pv f L : pv_wf pv f -> 0 <= L < 5 - f ->
  Z.of_nat (length (pv_level pv (f + L))) = nodes (pv_degs pv f) (L + 1).
Proof.
  intros (H5 & Hf & Hwf & Hlast) HL. destruct (Z.eq_dec L (5 - f - 1)) as [->|Hne].
  { replace (f + (5 - f - 1)) with 4 by lia. rewrite Hlast. f_equal. lia. }
  destruct (proj2 Hwf (L + 1)) as (Hl & _); [rewrite pv_degs_length by done; lia|].
  rewrite <- Hl, pv_degs_deg by (done || lia). do 2 f_equal. f_equal. lia.
Qed.

Lemma root_create_ok (degs : list (list Z)) (mem : Z -> bool) c0 tree0 :
  degs_wf degs -> (forall k, mem k = true) -> deg degs 0 = [c0] ->
  ft_depth tree0 = Z.of_nat (length degs) -> ft_root tree0 = Some 0 -> ft_cnt tree0 = 0 ->
  ft_heap tree0 = {[0 := zero_node]} -> ft_next tree0 = 1 ->
  exists tree, m0_fd__tree_root_create mem tree0 c0 = Some (0, tree) /\ built degs 0 0 tree.
Proof.
  intros Hwf Hmem Hc0 Hdep Hroot Hcnt Hheap Hnext.
  destruct (degree_get degs Hwf 0 0) as [Hget Hdeg]; [pose proof (proj1 Hwf); lia|done|].
  rewrite Hc0 in Hget. injection Hget as Hget. rewrite <- Hget in Hdeg.
  unfold m0_fd__tree_root_create. run Hroot. unfold m0_fd__tree_cursor_init.
  assert_ok by (rewrite Hdep; lia). cbn [Z.eqb mbind option_bind]. unfold m0_fd__tree_node_init.
  cbn [ftc_depth ftc_node ftc_child_idx ftc_child_abs_idx].
  replace (u16 c0) with c0 by (symmetry; apply Z.mod_small; lia).
  assert_ok by done. assert_ok by (apply orb_true_iff; right; lia).
  rewrite Hheap, lookup_singleton_eq. cbn [mbind option_bind]. unfold array_alloc. rewrite Hmem.
  cbn [Z.eqb]. eexists. split; [done|]. unfold built.
  assert (addr degs (0 + 1) 0 = 1) as -> by done.
  split; [split; [done|split; [done|]]|split; cbn; [done|by rewrite Hcnt]].
  intros d i Hd Hi. unfold fill_to in Hi. destruct (Z.leb_spec d 0); cycle 1.
  { destruct (d =? 0 + 1); lia. }
  assert (d = 0) as -> by lia. change (nodes degs 0) with 1 in Hi. assert (i = 0) as -> by lia.
  cbn [with_heap with_cnt ft_heap]. change (addr degs 0 0) with 0. rewrite lookup_insert_eq. f_equal.
  unfold node_at. rewrite Hget. cbn [Z.eqb]. f_equal. f_equal. symmetry. apply fmap_seqZ_const.
  intros k Hk. change (fill_to degs 0 0 (0 + 1)) with 0. rewrite off_0.
  destruct (Z.ltb_spec (0 + k) 0); [lia|done].
Qed.

Lemma tree_build_ok tol_mem mem pv array f children :
  pv_wf pv f -> (forall k, mem k = true) ->
  first_level_get pv = Some f -> symm_tree_attr_get tol_mem pv array = Some (0, 5 - f, children) ->
  exists tree, m0_fd_tree_build tol_mem mem pv array = Some (0, Some tree) /\
    tree_repr (pv_degs pv f) (fill_to (pv_degs pv f) (5 - f) 0) tree /\
    NoDup (ft_cache_info tree) /\
    forall c, c ∈ ft_cache_info tree <->
      exists d i, 0 <= d < 5 - f /\ 0 <= i < nodes (pv_degs pv f) d /\ degree (pv_degs pv f) d i = c.
Proof.
  intros (H5 & Hf & Hwf & Hlast) Hmem Hfirst Hsymm. set (degs := pv_degs pv f) in *.
  pose proof (pv_degs_length pv f H5 Hf) as Hdl. fold degs in Hdl.
  destruct (symm_tree_attr_ok _ _ _ _ _ Hsymm) as (f' & objs & Hf' & _ & Hobjs & Hc0 & _).
  rewrite Hfirst in Hf'. injection Hf' as <-.
  pose proof (pv_objs pv f 0 (conj H5 (conj Hf (conj Hwf Hlast))) ltac:(lia)) as Hn1. fold degs in Hn1.
  rewrite Z.add_0_r in Hn1. destruct (proj2 Hwf 0) as (_ & _ & _ & _ & Hb1); [lia|].
  rewrite (objs_count_ok pv f (pv_level pv f)) in Hobjs
    by (rewrite ?pv_level_get by (done || lia); (done || lia)).
  injection Hobjs as <-. unfold m0_fd_tree_build. run Hsymm. cbn [Z.eqb negb].
  unfold node_alloc. cbn [ft_allocs ft_next ft_heap]. rewrite Hmem. run Hc0.
  replace (u16 (5 - f)) with (5 - f) by (symmetry; apply Z.mod_small; lia).
  match goal with |- context [m0_fd__tree_root_create mem ?t _] => set (tree0 := t) end.
  destruct (root_create_ok degs mem (Z.of_nat (length (pv_level pv f))) tree0) as (tree1 & Hroot & Hb);
    try done. run Hroot. cbn [Z.eqb negb].
  match goal with |- context [for_up 0 _ ?g _] => set (body := g) end.
  destruct (for_up_total (fun L '(rc, t) => rc = 0 /\ built degs L 0 t) body 0 (5 - f) (0, tree1))
    as ([rc tree2] & Hrun & -> & Hb2).
  - lia.
  - done.
  - intros L [rc t] HL [-> HbL]. unfold body. cbn [Z.eqb negb].
    destruct (level_populate_ok degs mem Hwf Hmem pv t L (pv_level pv (f + L))) as (t' & Hpop & Hb').
    + lia.
    + done.
    + rewrite Hdl. replace (L + (5 - (5 - f))) with (f + L) by lia. apply pv_level_get; (done || lia).
    + by apply pv_objs.
    + intros HL1 k len Hk. rewrite Hdl in HL1. unfold degree. unfold degs.
      rewrite pv_degs_deg by (done || lia). replace (f + (L + 1) - 1) with (f + L) by lia.
      unfold arr_get. rewrite (proj2 (Z.leb_le 0 _)) by lia. by rewrite Nat2Z.id, Hk.
    + by exists (0, t').
  - pose proof Hb as ((Hdep & _) & _). rewrite Hdep, Hdl. run Hrun. cbn [Z.eqb negb].
    rewrite <- Hdl in Hb2.
    destruct (perm_cache_build_ok degs mem Hwf Hmem tree2 Hb2)
      as (tree3 & info & Hcache & (Hr3 & _) & <- & Hnd & Hin).
    run Hcache. exists tree3. rewrite <- Hdl. done.
Qed.

(** *** Walking a level *)

(** The absolute indices a cursor goes through. *)
Fixpoint cursor_walk (fuel : nat) (tree : m0_fd_tree) (cursor : m0_fd__tree_cursor) : option (list Z) :=
  match fuel with
  | O => None
  | S fuel =>
      '(moved, cursor') ← m0_fd__tree_cursor_next tree cursor;
      if (moved : bool) then
        l ← cursor_walk fuel tree cursor';
        Some (ftc_child_abs_idx cursor :: l)
      else Some [ftc_child_abs_idx cursor]
  end.

Lemma cursor_walk_ok degs tree d i fuel cursor :
  degs_wf degs -> tree_repr degs (fill_to degs (Z.of_nat (length degs)) 0) tree ->
  1 <= d <= Z.of_nat (length degs) -> 0 <= i -> nodes degs d - i = Z.of_nat fuel -> i < nodes degs d ->
  cursor_at degs d i cursor ->
  cursor_walk fuel tree cursor = Some (seqZ i (nodes degs d - i)).
Proof.
  intros Hwf Hrepr Hd. revert i cursor. induction fuel as [|fuel IH]; intros i cursor Hi Hf Hlt Hat; [lia|].
  cbn [cursor_walk]. pose proof Hat as (_ & _ & Habs & _).
  destruct (cursor_next_ok degs Hwf _ tree Hrepr d i cursor)
    as [[Hend Hnext]|[Hmore (cursor' & Hnext & Hat')]].
  - lia.
  - intros e He. apply (fill_to_complete degs (Z.of_nat (length degs)) 0). lia.
  - lia.
  - done.
  - run Hnext. rewrite Habs. replace (nodes degs d - i) with 1 by lia. done.
  - run Hnext. rewrite (IH (i + 1) cursor') by (done || lia). cbn [mbind option_bind]. rewrite Habs.
    f_equal. symmetry. replace (nodes degs d - (i + 1)) with (Z.pred (nodes degs d - i)) by lia.
    apply seqZ_cons. lia.
Qed.

(** *** Properties *)

(** C18. m0_fd_tree_build(): for every pool version whose symmetric tree passes
    the checks and whose levels form a tree below the sites ([pv_wf]: every inner node
    has children, and the counts fit their types), with memory, it succeeds; the tree it builds has
    exactly the nodes of the levels of the pool version, linked to their parents
    and children in order; a cursor goes through each level from left to right,
    without missing a node; and the lengths collected for the permutation caches
    are the degrees of its inner nodes, each once. *)
Theorem m0_fd_tree_build_spec tol_mem mem pv array f children :
  pv_wf pv f -> (forall k, mem k = true) ->
  first_level_get pv = Some f -> symm_tree_attr_get tol_mem pv array = Some (0, 5 - f, children) ->
  exists tree, m0_fd_tree_build tol_mem mem pv array = Some (0, Some tree) /\
    tree_repr (pv_degs pv f) (fill_to (pv_degs pv f) (5 - f) 0) tree /\
    (forall d, 1 <= d <= 5 - f ->
       (cursor ← m0_fd__tree_cursor_init tree d;
        cursor_walk (Z.to_nat (nodes (pv_degs pv f) d)) tree cursor) =
       Some (seqZ 0 (nodes (pv_degs pv f) d))) /\
    NoDup (ft_cache_info tree) /\
    forall c, c ∈ ft_cache_info tree <->
      exists d i, 0 <= d < 5 - f /\ 0 <= i < nodes (pv_degs pv f) d /\ degree (pv_degs pv f) d i = c.
Proof.
  intros Hpv Hmem Hfirst Hsymm. pose proof Hpv as (H5 & Hf & Hwf & _).
  destruct (tree_build_ok tol_mem mem pv array f children Hpv Hmem Hfirst Hsymm)
    as (tree & Hrun & Hrepr & Hinfo). exists tree. split; [done|]. split; [done|]. split; [|done].
  intros d Hd. rewrite <- (pv_degs_length pv f H5 Hf) in *. set (degs := pv_degs pv f) in *.
  destruct (cursor_init_ok degs Hwf _ tree Hrepr d) as (cursor & Hinit & Hat).
  { lia. } { intros e He. apply (fill_to_complete degs (Z.of_nat (length degs)) 0). lia. }
  run Hinit. pose proof (nodes_pos degs Hwf d ltac:(lia)) as Hn.
  rewrite (cursor_walk_ok degs tree d 0 _ cursor Hwf Hrepr) by (done || lia). by rewrite Z.sub_0_r.
Qed.

Lemma example_pv_wf : pv_wf example_pv 2.
Proof.
  split; [done|]. split; [lia|]. split; [|done].
  split; [change (length (pv_degs example_pv 2)) with 3%nat; lia|].
  intros d Hd. change (Z.of_nat (length (pv_degs example_pv 2))) with 3 in Hd.
  assert (d = 0 \/ d = 1 \/ d = 2) as [-> |[-> | ->]] by lia;
    (split; [done|]; split; [by repeat constructor|]; split; [by repeat constructor|]; by split).
Qed.

Lemma m0_fd_tree_build_spec_witness :
  exists tree, m0_fd_tree_build (fun _ => true) (fun _ => true) example_pv [0; 0; 0; 0; 0] =
      Some (0, Some tree) /\
    forall c, c ∈ ft_cache_info tree <->
      exists d i, 0 <= d < 3 /\ 0 <= i < nodes (pv_degs example_pv 2) d /\
        degree (pv_degs example_pv 2) d i = c.
Proof.
  destruct (m0_fd_tree_build_spec (fun _ => true) (fun _ => true) example_pv [0; 0; 0; 0; 0] 2
    [3; 2; 2; 1; 0]) as (tree & Hrun & _ & _ & _ & Hin).
  - exact example_pv_wf.
  - reflexivity.
  - vm_compute. reflexivity.
  - vm_compute. reflexivity.
  - exists tree. split; [exact Hrun|exact Hin].
Defined.
