(* ===== verification/FdMap.v ===== *)
(** * fd: forward and backward mapping

    Models m0_fd_fwd_map() and m0_fd_bwd_map() of src/fd/fd.c, which place the
    units of parity groups on the leaves of the (possibly asymmetric)
    failure-domains tree of a pool version, with the permutation caches of the
    layout instance. *)
From S2P Require Import Prelude LibArith Fid FdPerm Pdclust FdTol FdTile FdTree FdBuild.

(** ** Definitions *)

(** The part of struct m0_pool_version the mapping uses. *)
Record m0_pool_version := {
  pv_attr : m0_pdclust_attr;
  pv_fd_tile : m0_fd_tile;
  pv_fd_tree : m0_fd_tree
}.

(** The index of the cache of a node; [None] is a null pointer. *)
Fixpoint cache_find (caches : list m0_fd_perm_cache) (cache_len : Z) : option nat :=
  match caches with
  | [] => None
  | cache :: caches =>
      if fpc_len cache =? cache_len then Some O
      else i ← cache_find caches cache_len; Some (S i)
  end.

Definition cache_get (caches : list m0_fd_perm_cache) (node : m0_fd_tree_node) : option nat :=
  cache_find caches (ftn_child_nr node).

(** fd_permute() of the cache of a node; returns the cache and all of them. *)
Definition node_permute (seed : m0_uint128) (gfid : m0_fid) (omega : Z)
    (caches : list m0_fd_perm_cache) (node : m0_fd_tree_node)
  : option (m0_fd_perm_cache * list m0_fd_perm_cache) :=
  i ← cache_get caches node;
  cache ← caches !! i;
  cache ← fd_permute cache seed gfid omega;
  Some (cache, <[i := cache]> caches).

Section map.
Context (pver : m0_pool_version) (gfid : m0_fid).
Let tile := pv_fd_tile pver.
Let tree := pv_fd_tree pver.
Let seed := pa_seed (pv_attr pver).

(** Returns the index of the target and the caches. *)
Definition permuted_tgt_get (caches : list m0_fd_perm_cache) (omega : Z) (rel_vidx : list Z)
  : option (Z * list m0_fd_perm_cache) :=
  root ← ft_root tree;
  '(node, caches) ← for_up 1 (FdTree.ft_depth tree + 1) (fun depth '(node, caches) =>
    rel_idx ← arr_get rel_vidx depth;
    n ← ft_heap tree !! node;
    '(cache, caches) ← node_permute seed gfid omega caches n;
    _ ← M0_ASSERT (rel_idx <? fpc_len cache);
    perm_idx ← arr_get (fpc_permute cache) rel_idx;
    '(rc, cursor) ← m0_fd__tree_cursor_init_at tree node (u32 perm_idx);
    _ ← M0_ASSERT (rc =? 0);
    cursor ← cursor;
    l ← m0_fd__tree_cursor_get cursor;
    node ← loc_get tree l;
    node ← node;
    Some (node, caches)) (root, caches);
  n ← ft_heap tree !! node;
  Some (ftn_abs_idx n, caches).

(** The products of the children below each level, and the digits of an index. *)
Definition children_product (tree_depth : Z) : option Z :=
  for_up 1 tree_depth (fun i children =>
    c ← arr_get (ft_child tile) i; Some (u64 (children * c))) 1.

Definition rel_vidx_get (tree_depth children vidx : Z) (rel_vidx : list Z) : option (list Z) :=
  '(rel_vidx, _, _) ← for_up 1 (tree_depth + 1) (fun i '(rel_vidx, vidx, children) =>
    q ← div_c vidx children;
    rel_vidx ← arr_set rel_vidx i q;
    vidx ← mod_c vidx children;
    c ← arr_get (ft_child tile) i;
    children ← div_c children c;
    Some (rel_vidx, vidx, children)) (rel_vidx, vidx, children);
  Some rel_vidx.

(** [rel_vidx] is the uninitialised array on the stack. *)
Definition m0_fd_fwd_map (rel_vidx : list Z) (caches : list m0_fd_perm_cache)
    (src : m0_pdclust_src_addr) : option (m0_pdclust_tgt_addr * list m0_fd_perm_cache) :=
  tgt ← m0_fd_src_to_tgt tile src;
  let tree_depth := FdTile.ft_depth tile in
  children ← children_product tree_depth;
  rel_vidx ← rel_vidx_get tree_depth children (ta_obj tgt) rel_vidx;
  _ ← M0_ASSERT (negb (ft_G tile =? 0));
  C ← div_c (u64 (ft_rows tile * ft_cols tile)) (ft_G tile);
  '(omega, _) ← m0_dec C (sa_group src);
  '(obj, caches) ← permuted_tgt_get caches omega rel_vidx;
  Some ({| ta_frame := ta_frame tgt; ta_obj := obj |}, caches).

(** [while (cursor.ftc_child_abs_idx < perm_idx && m0_fd__tree_cursor_next(&cursor));] *)
Fixpoint cursor_seek (fuel : nat) (cursor : m0_fd__tree_cursor) (perm_idx : Z)
  : option m0_fd__tree_cursor :=
  if u64 (ftc_child_abs_idx cursor) <? perm_idx then
    match fuel with
    | O => None
    | S fuel =>
        '(moved, cursor) ← m0_fd__tree_cursor_next tree cursor;
        if (moved : bool) then cursor_seek fuel cursor perm_idx else Some cursor
    end
  else Some cursor.

(** Returns [rel_idx] and the caches. *)
Definition inverse_permuted_idx_get (caches : list m0_fd_perm_cache) (omega perm_idx : Z)
    (rel_idx : list Z) : option (list Z * list m0_fd_perm_cache) :=
  cursor ← m0_fd__tree_cursor_init tree (FdTree.ft_depth tree);
  cursor ← cursor_seek (Z.to_nat perm_idx) cursor perm_idx;
  _ ← M0_ASSERT (u64 (ftc_child_abs_idx cursor) =? perm_idx);
  node ← ftc_node cursor;
  '(rel_idx, caches, _, _) ← for_down (FdTree.ft_depth tree) 0
    (fun depth '(rel_idx, caches, node, perm_idx) =>
      a ← node;
      n ← ft_heap tree !! a;
      '(cache, caches) ← node_permute seed gfid omega caches n;
      r ← arr_get (fpc_inverse cache) perm_idx;
      rel_idx ← arr_set rel_idx depth r;
      Some (rel_idx, caches, ftn_parent n, ftn_rel_idx n))
    (rel_idx, caches, Some node, ftc_child_idx cursor);
  Some (rel_idx, caches).

(** The loop that puts the index together; [None] when it breaks out. *)
Definition vidx_get (tree_depth children : Z) (rel_idx : list Z) : option (option Z) :=
  '(vidx, _, broken) ← for_up 1 (tree_depth + 1) (fun i '(vidx, children, broken) =>
    if (broken : bool) then Some (vidx, children, broken)
    else
      r ← arr_get rel_idx i;
      let vidx := u64 (vidx + u64 (r * children)) in
      c ← arr_get (ft_child tile) (i - 1);
      if c <=? r then Some (vidx, children, true)
      else
        c ← arr_get (ft_child tile) i;
        children ← div_c children c;
        Some (vidx, children, false)) (0, children, false);
  Some (if (broken : bool) then None else Some vidx).

Definition m0_fd_bwd_map (rel_idx : list Z) (caches : list m0_fd_perm_cache)
    (tgt : m0_pdclust_tgt_addr) : option (m0_pdclust_src_addr * list m0_fd_perm_cache) :=
  '(omega, _) ← m0_dec (ft_rows tile) (ta_frame tgt);
  '(rel_idx, caches) ← inverse_permuted_idx_get caches omega (ta_obj tgt) rel_idx;
  let tree_depth := FdTree.ft_depth tree in
  children ← children_product tree_depth;
  vidx ← vidx_get tree_depth children rel_idx;
  match vidx with
  | Some vidx =>
      src ← m0_fd_tgt_to_src tile {| ta_frame := ta_frame tgt; ta_obj := vidx |};
      Some (src, caches)
  | None => Some ({| sa_group := UINT64_MAX; sa_unit := UINT64_MAX |}, caches)
  end.

End map.

(** ** Lemmas: caches *)

Lemma cache_find_ok caches len :
  (exists cache, cache ∈ caches /\ fpc_len cache = len) ->
  exists i cache, cache_find caches len = Some i /\ caches !! i = Some cache /\ fpc_len cache = len.
Proof.
  induction caches as [|c caches IH]; intros (cache & Hin & Hlen); [set_solver|].
  cbn [cache_find]. destruct (Z.eqb_spec (fpc_len c) len) as [Heq|Hne]; [by exists O, c|].
  destruct IH as (i & cache' & Hf & Hl & Hlen').
  { exists cache. split; [|done]. apply elem_of_cons in Hin as [->|]; [congruence|done]. }
  exists (S i), cache'. rewrite Hf. done.
Qed.

(** The caches of an instance serve the nodes of all the degrees in [lens]. *)
Definition caches_ok (seed : m0_uint128) (lens : Z -> Prop) (caches : list m0_fd_perm_cache) : Prop :=
  Forall (cache_inv seed) caches /\
  forall len, lens len -> exists cache, cache ∈ caches /\ fpc_len cache = len.

Lemma node_permute_ok seed gfid omega lens caches node :
  caches_ok seed lens caches -> lens (ftn_child_nr node) -> m0_fid_is_set gfid = true ->
  perm_ok (ftn_child_nr node) (rstate_init seed gfid omega) = true ->
  exists cache caches', node_permute seed gfid omega caches node = Some (cache, caches') /\
    caches_ok seed lens caches' /\ fpc_len cache = ftn_child_nr node /\
    fpc_permute cache = perm_of (ftn_child_nr node) (rstate_init seed gfid omega) /\
    inverse_of (fpc_len cache) (fpc_permute cache) (fpc_inverse cache).
Proof.
  intros [Hinv Hlens] Hlen Hset Hok. unfold node_permute, cache_get.
  destruct (cache_find_ok caches (ftn_child_nr node)) as (i & cache & Hf & Hl & Hcl); [by apply Hlens|].
  run Hf. run Hl. pose proof (Forall_lookup_1 _ _ _ _ Hinv Hl) as Hc. rewrite <- Hcl in Hok.
  destruct (fd_permute_ok seed gfid omega cache Hc Hset Hok) as (cache' & Hrun & Hc' & Hlen' & Hperm).
  run Hrun. exists cache', (<[i := cache']> caches). split; [done|]. split; [split|].
  - by apply Forall_insert.
  - intros len Hlen2. destruct (Hlens len Hlen2) as (c & Hin & Hcl2).
    apply list_elem_of_lookup in Hin as [j Hj]. destruct (decide (j = i)) as [->|Hne].
    + exists cache'. split; [|congruence]. apply list_elem_of_lookup. exists i.
      apply list_lookup_insert_eq. by eapply lookup_lt_Some.
    + exists c. split; [|done]. apply list_elem_of_lookup. exists j. by rewrite list_lookup_insert_ne.
  - split; [congruence|]. split; [by rewrite Hperm, Hcl|]. by destruct Hc' as (_ & _ & _ & _ & ? & _).
Qed.

(** ** Lemmas: cursors at a child *)

Section init_at.
Context (degs : list (list Z)) (tree : m0_fd_tree).
Hypothesis Hwf : degs_wf degs.
Let D := Z.of_nat (length degs).
Hypothesis Hrepr : tree_repr degs (fill_to degs D 0) tree.

Lemma full_fill d : 0 <= d <= D -> fill_to degs D 0 d = nodes degs d.
Proof. intros Hd. apply (fill_to_complete degs D 0). done. Qed.

Lemma heap_node d x : 0 <= d <= D -> 0 <= x < nodes degs d ->
  ft_heap tree !! addr degs d x = Some (node_at degs (fill_to degs D 0) d x).
Proof. intros Hd Hx. destruct Hrepr as (_ & _ & Hh). apply Hh; [done|by rewrite full_fill]. Qed.

Lemma path_fill_ok fuel d x path :
  0 <= d <= Z.of_nat fuel -> d <= D -> 0 <= x < nodes degs d -> length path = 6%nat ->
  exists path', path_fill (S fuel) tree (Some (addr degs d x)) d path = Some path'.
Proof.
  revert d x path. induction fuel as [|fuel IH]; intros d x path Hd HD Hx Hp;
    cbn [path_fill]; run (heap_node d x) by (done || lia); pose proof (proj1 Hwf);
    rewrite arr_set_ok by (rewrite Hp; unfold D in *; lia); cbn [mbind option_bind node_at ftn_parent].
  { assert (d = 0) as -> by lia. by eexists. }
  destruct (Z.eqb_spec d 0) as [->|Hd0]; [by eexists|].
  destruct (parent_index degs Hwf d x) as (p & r & Hloc & Hpn & _); [fold D; lia|done|].
  rewrite Hloc. cbn [fst]. rewrite (u32_small (d - 1)) by (unfold is_u32, D in *; lia).
  refine (IH (d - 1) p _ _ _ Hpn _); [lia|lia|by rewrite length_insert].
Qed.

Lemma cursor_init_at_ok d x k :
  0 <= d < D -> 0 <= x < nodes degs d -> 0 <= k < degree degs d x ->
  exists cursor, m0_fd__tree_cursor_init_at tree (addr degs d x) k = Some (0, Some cursor) /\
    m0_fd__tree_cursor_get cursor = Some (loc_child (addr degs d x) k) /\
    loc_get tree (loc_child (addr degs d x) k) = Some (Some (addr degs (d + 1) (off (deg degs d) x + k))).
Proof.
  intros Hd Hx Hk. pose proof Hrepr as (Hdep & Hroot & _). fold D in Hdep.
  destruct (child_index degs Hwf d x k) as [Hch _]; [done..|].
  assert (child_get tree (addr degs d x) k = Some (Some (addr degs (d + 1) (off (deg degs d) x + k))))
    as Hget.
  { apply (child_get_ok degs _ tree Hrepr); rewrite ?full_fill by lia; (done || lia). }
  unfold m0_fd__tree_cursor_init_at.
  assert_ok by (unfold m0_fd__tree_invariant; rewrite Hroot, Hdep; apply andb_true_iff; split; [lia|done]).
  run (node_invariant_ok degs Hwf _ tree Hrepr d x) by (rewrite ?full_fill by lia; fold D; lia).
  assert_ok by done. run (heap_node d x) by (done || lia). cbn [node_at ftn_child_nr ftn_depth].
  assert_ok by lia. run Hget.
  run (node_invariant_ok degs Hwf _ tree Hrepr (d + 1)) by (rewrite ?full_fill by lia; fold D; lia).
  cbn [negb]. run (heap_node (d + 1)) by (done || lia). pose proof (proj1 Hwf).
  rewrite arr_set_ok by (change (length zero_path) with 6%nat; unfold D in *; lia). cbn [mbind option_bind].
  match goal with |- context [path_fill _ _ _ _ ?p] =>
    destruct (path_fill_ok (Z.to_nat d) d x p) as (path' & Hpath) end;
    [lia|lia|done|by rewrite length_insert|].
  run Hpath. eexists. split; [done|]. unfold m0_fd__tree_cursor_get. cbn [ftc_depth ftc_node ftc_child_idx].
  destruct (Z.eqb_spec (d + 1) 0); [lia|]. split; [done|]. done.
Qed.

(** Walking the leaves up to index [x]. *)
Lemma cursor_seek_ok pver fuel i x cursor :
  pv_fd_tree pver = tree -> 0 <= i <= x -> x < nodes degs D -> x - i <= Z.of_nat fuel ->
  cursor_at degs D i cursor ->
  exists cursor', cursor_seek pver fuel cursor x = Some cursor' /\ cursor_at degs D x cursor'.
Proof.
  intros Hpv. revert i cursor. induction fuel as [|fuel IH]; intros i cursor Hi Hx Hf Hat;
    pose proof Hat as (_ & _ & Habs & _); cbn [cursor_seek]; rewrite Habs;
    destruct (proj2 Hwf (D - 1)) as (_ & _ & _ & _ & Hb); try (pose proof (proj1 Hwf); unfold D; lia);
    replace (D - 1 + 1) with D in Hb by lia; rewrite u64_small by (unfold is_u64; lia).
  { assert (i = x) as -> by lia. rewrite Z.ltb_irrefl. by exists cursor. }
  destruct (Z.ltb_spec i x) as [Hlt|]; [|assert (i = x) as -> by lia; by exists cursor].
  destruct (cursor_next_ok degs Hwf _ tree Hrepr D i cursor)
    as [[Hend _]|[Hmore (cursor' & Hnext & Hat')]].
  - fold D. pose proof (proj1 Hwf). unfold D. lia.
  - intros d Hd. apply full_fill. lia.
  - lia.
  - done.
  - lia.
  - rewrite Hpv. run Hnext. apply (IH (i + 1)); (done || lia).
Qed.

End init_at.

(** ** Lemmas: paths in the tree *)

Section paths.
Context (degs : list (list Z)) (pver : m0_pool_version) (gfid : m0_fid) (omega : Z).
Hypothesis Hwf : degs_wf degs.
Let D := Z.of_nat (length degs).
Let tree := pv_fd_tree pver.
Let seed := pa_seed (pv_attr pver).
Let st := rstate_init seed gfid omega.
Hypothesis Hrepr : tree_repr degs (fill_to degs D 0) tree.
Hypothesis Hset : m0_fid_is_set gfid = true.

(** The degrees of inner nodes. *)
Definition inner_degree (c : Z) : Prop :=
  exists d i, 0 <= d < D /\ 0 <= i < nodes degs d /\ degree degs d i = c.

Hypothesis Hperm : forall c, inner_degree c -> perm_ok c st = true.

(** The child that takes place [r] in the permutation of a node with [c]
    children. *)
Definition permuted (c r : Z) : Z := default 0 (arr_get (perm_of c st) r).

(** [path k] is the node of level [k] on the way to a leaf, reached through the
    [rel k]-th child in the permuted order. *)
Definition tree_path (path rel : Z -> Z) : Prop :=
  path 0 = 0 /\
  forall k, 1 <= k <= D ->
    0 <= rel k < degree degs (k - 1) (path (k - 1)) /\
    path k = off (deg degs (k - 1)) (path (k - 1)) + permuted (degree degs (k - 1) (path (k - 1))) (rel k).

Lemma inner_degree_ok d i : 0 <= d < D -> 0 <= i < nodes degs d ->
  inner_degree (degree degs d i) /\ 0 < degree degs d i < 2 ^ 16.
Proof.
  intros Hd Hi. split; [by exists d, i|]. by destruct (degree_get degs Hwf d i Hd Hi).
Qed.

Lemma inner_perm d i : 0 <= d < D -> 0 <= i < nodes degs d ->
  is_perm (degree degs d i) (perm_of (degree degs d i) st).
Proof.
  intros Hd Hi. destruct (inner_degree_ok d i Hd Hi) as [Hin Hb].
  apply perm_of_is_perm; [lia|by apply Hperm].
Qed.

Lemma permuted_range d i r : 0 <= d < D -> 0 <= i < nodes degs d -> 0 <= r < degree degs d i ->
  arr_get (perm_of (degree degs d i) st) r = Some (permuted (degree degs d i) r) /\
  0 <= permuted (degree degs d i) r < degree degs d i.
Proof.
  intros Hd Hi Hr. destruct (inner_degree_ok d i Hd Hi) as [Hin Hb]. set (c := degree degs d i) in *.
  pose proof (inner_perm d i Hd Hi : is_perm c (perm_of c st)) as Hp.
  destruct (arr_get_is_Some (perm_of c st) r) as [v Hv]; [rewrite (is_perm_length c) by (done || lia); lia|].
  unfold permuted. rewrite Hv. cbn [default]. split; [done|]. by apply (is_perm_range c _ r v Hp).
Qed.

Lemma tree_path_range path rel k : tree_path path rel -> 0 <= k <= D -> 0 <= path k < nodes degs k.
Proof.
  intros [H0 Hk] Hkr. assert (forall n : nat, Z.of_nat n <= D ->
    0 <= path (Z.of_nat n) < nodes degs (Z.of_nat n)) as Hn.
  { induction n as [|n IH]; intros Hn; [change (Z.of_nat 0) with 0; rewrite H0; change (nodes degs 0) with 1;
      lia|].
    specialize (IH ltac:(lia)). destruct (Hk (Z.of_nat (S n))) as [Hr ->]; [lia|].
    replace (Z.of_nat (S n) - 1) with (Z.of_nat n) in * by lia.
    destruct (permuted_range (Z.of_nat n) (path (Z.of_nat n)) (rel (Z.of_nat (S n)))) as [_ Hp];
      [lia|done|done|].
    destruct (child_index degs Hwf (Z.of_nat n) (path (Z.of_nat n)) _ ltac:(fold D; lia) IH Hp) as [Hc _].
    replace (Z.of_nat n + 1) with (Z.of_nat (S n)) in Hc by lia. exact Hc. }
  specialize (Hn (Z.to_nat k)). rewrite Z2Nat.id in Hn by lia. apply Hn. lia.
Qed.

(** Descending along a path. *)
Lemma permuted_tgt_ok caches rels path rel :
  caches_ok seed inner_degree caches -> tree_path path rel ->
  (forall k, 1 <= k <= D -> arr_get rels k = Some (rel k)) ->
  exists caches', permuted_tgt_get pver gfid caches omega rels = Some (path D, caches') /\
    caches_ok seed inner_degree caches'.
Proof.
  intros Hc Hpath Hrels. pose proof Hrepr as (Hdep & Hroot & _). fold D in Hdep.
  unfold permuted_tgt_get. fold tree seed. run Hroot. rewrite Hdep.
  match goal with |- context [for_up 1 (D + 1) ?f _] => set (body := f) end.
  destruct (for_up_total (fun k '(node, cs) => node = addr degs (k - 1) (path (k - 1)) /\
      caches_ok seed inner_degree cs) body 1 (D + 1) (addr degs 0 0, caches))
    as ([node caches'] & Hrun & -> & Hc').
  - pose proof (proj1 Hwf). unfold D. lia.
  - split; [|done]. change (1 - 1) with 0. by rewrite (proj1 Hpath).
  - intros k [node cs] Hk [-> Hcs]. unfold body. run (Hrels k) by lia.
    pose proof (tree_path_range path rel (k - 1) Hpath ltac:(lia)) as Hpk.
    destruct (proj2 Hpath k) as [Hr Hnext]; [lia|].
    run (heap_node degs tree Hrepr (k - 1) (path (k - 1))) by (fold D; (done || lia)). fold D.
    set (x := path (k - 1)) in *. destruct (inner_degree_ok (k - 1) x) as [Hin Hb]; [lia|done|].
    destruct (node_permute_ok seed gfid omega inner_degree cs (node_at degs (fill_to degs D 0) (k - 1) x))
      as (cache & cs' & Hperm' & Hcs' & Hlen & Hp & _); [done|done|done|by apply Hperm|].
    run Hperm'. cbn [node_at ftn_child_nr] in Hlen, Hp. assert_ok by lia.
    destruct (permuted_range (k - 1) x (rel k)) as [Hget Hpr]; [lia|done|done|].
    fold st in Hp. rewrite Hp. run Hget. rewrite u32_small by (unfold is_u32; lia).
    destruct (cursor_init_at_ok degs tree Hwf Hrepr (k - 1) x (permuted (degree degs (k - 1) x) (rel k)))
      as (cursor & H1 & H2 & H3); [fold D; lia|done|done|].
    run H1. assert_ok by done. run H2. run H3. eexists. split; [done|]. split; [|done].
    replace (k + 1 - 1) with k by lia. rewrite Hnext. f_equal. lia.
  - run Hrun. replace (D + 1 - 1) with D by lia.
    run (heap_node degs tree Hrepr D (path D))
      by (fold D; try done; (apply (tree_path_range path rel); (done || lia)) || lia).
    by exists caches'.
Qed.

(** The parent and the place of a node of a path. *)
Lemma tree_path_locate path rel k : tree_path path rel -> 1 <= k <= D ->
  locate (deg degs (k - 1)) (path k) =
    (path (k - 1), permuted (degree degs (k - 1) (path (k - 1))) (rel k)).
Proof.
  intros Hpath Hk. destruct (proj2 Hpath k Hk) as [Hr ->].
  pose proof (tree_path_range path rel (k - 1) Hpath ltac:(lia)) as Hx.
  destruct (permuted_range (k - 1) (path (k - 1)) (rel k)) as [_ Hp]; [lia|done|done|].
  by destruct (child_index degs Hwf (k - 1) (path (k - 1)) _ ltac:(fold D; lia) Hx Hp).
Qed.

(** The choices determine the path. *)
Lemma tree_path_det path path' rel k :
  tree_path path rel -> tree_path path' rel -> 0 <= k <= D -> path k = path' k.
Proof.
  intros [H0 Hp] [H0' Hp'] Hk. assert (forall n : nat, Z.of_nat n <= D ->
    path (Z.of_nat n) = path' (Z.of_nat n)) as Hn.
  { induction n as [|n IH]; intros Hn; [change (Z.of_nat 0) with 0; congruence|].
    destruct (Hp (Z.of_nat (S n))) as [_ ->]; [lia|]. destruct (Hp' (Z.of_nat (S n))) as [_ ->]; [lia|].
    replace (Z.of_nat (S n) - 1) with (Z.of_nat n) by lia. by rewrite IH by lia. }
  specialize (Hn (Z.to_nat k)). rewrite Z2Nat.id in Hn by lia. apply Hn. lia.
Qed.

(** Every leaf has a path, and only one. *)
Lemma tree_path_exists x : 0 <= x < nodes degs D ->
  exists path rel, tree_path path rel /\ path D = x.
Proof.
  intros Hx. assert (forall n : nat, Z.of_nat n <= D -> forall x, 0 <= x < nodes degs (Z.of_nat n) ->
    exists path rel, path 0 = 0 /\ path (Z.of_nat n) = x /\ forall k, 1 <= k <= Z.of_nat n ->
      0 <= rel k < degree degs (k - 1) (path (k - 1)) /\
      path k = off (deg degs (k - 1)) (path (k - 1)) +
        permuted (degree degs (k - 1) (path (k - 1))) (rel k)) as Hn.
  { clear x Hx. induction n as [|n IH]; intros Hn x Hx.
    { change (nodes degs (Z.of_nat 0)) with 1 in Hx. exists (fun _ => 0), (fun _ => 0).
      split; [done|]. split; [lia|]. intros k Hk. lia. }
    destruct (parent_index degs Hwf (Z.of_nat (S n)) x) as (p & c & _ & Hp & Hc & ->); [fold D; lia|done|].
    replace (Z.of_nat (S n) - 1) with (Z.of_nat n) in * by lia.
    destruct (IH ltac:(lia) p Hp) as (path & rel & H0 & <- & Hk).
    destruct (is_perm_surj _ _ c (inner_perm (Z.of_nat n) (path (Z.of_nat n)) ltac:(lia) Hp) Hc)
      as (r & Hr & Hget).
    exists (fun k => if k =? Z.of_nat (S n) then off (deg degs (Z.of_nat n)) (path (Z.of_nat n)) + c else
      path k),
      (fun k => if k =? Z.of_nat (S n) then r else rel k).
    split; [done|]. split; [by rewrite Z.eqb_refl|]. intros k Hk1.
    destruct (Z.eqb_spec (k - 1) (Z.of_nat (S n))); [lia|].
    destruct (Z.eqb_spec k (Z.of_nat (S n))) as [->|]; [|apply Hk; lia].
    replace (Z.of_nat (S n) - 1) with (Z.of_nat n) by lia. unfold permuted. by rewrite Hget. }
  pose proof (proj1 Hwf). destruct (Hn (length degs) ltac:(unfold D; lia) x) as (path & rel & ? & ? & ?);
    [done|].
  by exists path, rel.
Qed.

Lemma tree_path_unique path rel path' rel' k :
  tree_path path rel -> tree_path path' rel' -> path D = path' D -> 1 <= k <= D -> rel k = rel' k.
Proof.
  intros Hp Hp' HD Hk. assert (forall n : nat, Z.of_nat n <= D ->
    path (D - Z.of_nat n) = path' (D - Z.of_nat n)) as Hpath.
  { induction n as [|n IH]; intros Hn; [by rewrite Z.sub_0_r|]. specialize (IH ltac:(lia)).
    pose proof (tree_path_locate path rel (D - Z.of_nat n) Hp ltac:(lia)) as H1.
    pose proof (tree_path_locate path' rel' (D - Z.of_nat n) Hp' ltac:(lia)) as H2.
    rewrite IH, H2 in H1. injection H1 as H1 _.
    by replace (D - Z.of_nat (S n)) with (D - Z.of_nat n - 1) by lia. }
  assert (forall k, 0 <= k <= D -> path k = path' k) as Hall.
  { intros j Hj. replace j with (D - Z.of_nat (Z.to_nat (D - j))) by lia. apply Hpath. lia. }
  pose proof (tree_path_locate path rel k Hp Hk) as H1.
  pose proof (tree_path_locate path' rel' k Hp' Hk) as H2.
  destruct (proj2 Hp k Hk) as [Hr _]. destruct (proj2 Hp' k Hk) as [Hr' _].
  rewrite <- (Hall (k - 1)) in H2, Hr' by lia. rewrite <- (Hall k), H1 in H2 by lia. injection H2 as H2.
  pose proof (tree_path_range path rel (k - 1) Hp ltac:(lia)) as Hx.
  destruct (permuted_range (k - 1) (path (k - 1)) (rel k)) as [G1 _]; [lia|done|done|].
  destruct (permuted_range (k - 1) (path (k - 1)) (rel' k)) as [G2 _]; [lia|done|done|].
  rewrite <- H2 in G2. apply (is_perm_inj _ _ _ _ _ (inner_perm (k - 1) _ ltac:(lia) Hx) G1 G2).
Qed.

(** Climbing from a leaf. *)
Lemma inverse_permuted_ok caches rels path rel :
  caches_ok seed inner_degree caches -> tree_path path rel -> length rels = 5%nat ->
  exists rels' caches', inverse_permuted_idx_get pver gfid caches omega (path D) rels = Some (rels',
    caches') /\
    (forall k, 1 <= k <= D -> arr_get rels' k = Some (rel k)) /\ caches_ok seed inner_degree caches'.
Proof.
  intros Hc Hpath Hlen. pose proof Hrepr as (Hdep & Hroot & _). fold D in Hdep.
  pose proof (proj1 Hwf) as Hlen5.
  pose proof (tree_path_range path rel D Hpath ltac:(unfold D; lia)) as Hx.
  unfold inverse_permuted_idx_get. fold tree seed. rewrite Hdep.
  destruct (cursor_init_ok degs Hwf _ tree Hrepr D) as (cursor & Hinit & Hat).
  { unfold D. lia. } { intros d Hd. apply full_fill. fold D. lia. }
  run Hinit. destruct (cursor_seek_ok degs tree Hwf Hrepr pver (Z.to_nat (path D)) 0 (path D) cursor)
    as (cursor' & Hseek & Hat'); [done|lia|apply Hx|lia|done|].
  run Hseek. destruct Hat' as (_ & _ & Habs & Hnode). rewrite Habs.
  destruct (proj2 Hwf (D - 1)) as (_ & _ & _ & _ & Hb); [unfold D; lia|].
  replace (D - 1 + 1) with D in Hb by lia. rewrite u64_small by (unfold is_u64; lia). assert_ok by lia.
  revert Hnode. fold D. destruct (Z.eqb_spec D 0) as [|_]; [unfold D in *; lia|]. intros Hnode.
  pose proof (tree_path_locate path rel D Hpath ltac:(unfold D; lia)) as HlD.
  fold D in Hnode. rewrite HlD in Hnode. destruct Hnode as [Hn Hci]. run Hn. rewrite Hci. cbn [fst snd].
  match goal with |- context [for_down D 0 ?f _] => set (body := f) end.
  match goal with |- context [for_down D 0 body ?s] => set (s0 := s) end.
  destruct (for_down_total (fun j '(rels, caches, node, perm_idx) =>
      length rels = 5%nat /\ caches_ok seed inner_degree caches /\
      (forall k, j < k <= D -> arr_get rels k = Some (rel k)) /\
      (0 < j -> node = Some (addr degs (j - 1) (path (j - 1))) /\
        perm_idx = permuted (degree degs (j - 1) (path (j - 1))) (rel j))) body D 0 s0)
    as ([[[rels' caches'] node'] pidx'] & Hrun & Hlen' & Hc' & Hrels & _).
  - unfold D. lia.
  - unfold s0. split; [done|]. split; [done|]. split; [lia|]. done.
  - intros j [[[rs cs] node] pidx] Hj (Hl & Hcs & Hrs & Hst). destruct (Hst ltac:(lia)) as [-> ->].
    unfold body. pose proof (tree_path_range path rel (j - 1) Hpath ltac:(lia)) as Hpj.
    cbn [mbind option_bind]. run (heap_node degs tree Hrepr (j - 1) (path (j - 1)))
      by (fold D; (done || lia)). fold D.
    destruct (inner_degree_ok (j - 1) (path (j - 1))) as [Hin Hbd]; [lia|done|].
    destruct (node_permute_ok seed gfid omega inner_degree cs
      (node_at degs (fill_to degs D 0) (j - 1) (path (j - 1))))
      as (cache & cs' & Hperm' & Hcs' & Hcl & Hp & Hinv); [done|done|done|by apply Hperm|].
    run Hperm'. cbn [node_at ftn_child_nr] in Hcl, Hp. fold st in Hp.
    destruct (proj2 Hpath j) as [Hr _]; [lia|].
    destruct (permuted_range (j - 1) (path (j - 1)) (rel j)) as [Hget Hpr]; [lia|done|done|].
    destruct (Hinv (rel j)) as (y & _ & Hy & _ & Hback & _); [lia|]. rewrite Hp, Hget in Hy.
    injection Hy as <-. run Hback.
    rewrite arr_set_ok by (rewrite Hl; unfold D in *; lia). cbn [mbind option_bind].
    eexists. split; [done|]. split; [by rewrite length_insert|]. split; [done|]. split.
    + intros k Hk. rewrite arr_get_insert by (rewrite Hl; unfold D in *; lia).
      destruct (Z.eqb_spec j k) as [->|]; [done|]. apply Hrs. lia.
    + intros Hj1. cbn [node_at ftn_parent ftn_rel_idx]. destruct (Z.eqb_spec (j - 1) 0); [lia|].
      pose proof (tree_path_locate path rel (j - 1) Hpath ltac:(lia)) as Hlj. by rewrite Hlj.
  - run Hrun. exists rels', caches'. split; [done|]. split; [|done]. intros k Hk. apply Hrels. lia.
Qed.

End paths.

(** ** Lemmas: indices and their digits *)

Section digits.
Context (pver : m0_pool_version).
Let tile := pv_fd_tile pver.
Let D := FdTile.ft_depth tile.
Let cs := tile_cs tile.
Hypothesis Hs : tile_shape tile.
Hypothesis Hlast : arr_get (ft_child tile) D = Some 1.

(** The children and the leaves below a node of level [k] of the symmetric tree,
    and the [k]-th digit of the index of a leaf. *)
Definition breadth (k : Z) : Z := default 0 (arr_get cs k).
Definition weight (k : Z) : Z := prodZ (drop (Z.to_nat k) cs).
Definition digit (v k : Z) : Z := (v mod weight (k - 1)) / weight k.

Lemma weight_pos k : 0 < weight k < 2 ^ 31.
Proof.
  destruct Hs as (_ & _ & Hp & Hc & Hb & _). fold cs in Hp, Hc. unfold weight.
  rewrite <- (take_drop (Z.to_nat k) cs) in Hc, Hp. apply Forall_app in Hp as [H1%prodZ_pos H2%prodZ_pos].
  rewrite prodZ_app in Hc. nia.
Qed.

Lemma cs_length : Z.of_nat (length cs) = D.
Proof. destruct Hs as (Hd & Hl & _). unfold cs, tile_cs. rewrite length_take. fold D in Hd |- *. lia. Qed.

Lemma weight_depth : weight D = 1.
Proof. unfold weight. rewrite drop_ge by (pose proof cs_length; lia). done. Qed.

Lemma weight_S k : 0 <= k < D -> exists c, arr_get (ft_child tile) k = Some c /\
  breadth k = c /\ 0 < c /\ weight k = c * weight (k + 1).
Proof.
  intros Hk. pose proof Hs as (Hd & Hl & Hp & _). fold cs in Hp. pose proof cs_length as Hcl.
  destruct (arr_get_is_Some cs k) as [c Hc]; [lia|]. exists c.
  pose proof Hc as [_ Hc']%arr_get_Some. split.
  { apply arr_get_Some. split; [lia|]. unfold cs, tile_cs in Hc'. rewrite lookup_take_lt in Hc'
      by (fold D; lia). done. }
  split; [unfold breadth; by rewrite Hc|]. split; [by apply (Forall_lookup_1 _ _ _ _ Hp Hc')|].
  unfold weight. rewrite (drop_S _ c) by done. rewrite prodZ_cons. repeat f_equal. lia.
Qed.

Lemma children_product_ok : children_product pver D = Some (weight 1).
Proof.
  unfold children_product. fold tile. pose proof Hs as (Hd & _). fold D in Hd.
  match goal with |- for_up _ _ ?f _ = _ => set (body := f) end.
  destruct (for_up_total (fun i p => 0 < p /\ p * weight i = weight 1) body 1 D 1) as (p & -> & _ & Hp).
  - lia.
  - lia.
  - intros i p Hi [Hp0 Hp]. unfold body. destruct (weight_S i) as (c & Hc & _ & Hc0 & Hw); [lia|].
    run Hc. pose proof (weight_pos 1). pose proof (weight_pos (i + 1)). eexists. split; [done|].
    rewrite u64_small by (unfold is_u64; nia). nia.
  - rewrite weight_depth in Hp. f_equal. lia.
Qed.

Lemma digit_range v k : 1 <= k <= D -> 0 <= digit v k < breadth (k - 1).
Proof.
  intros Hk. destruct (weight_S (k - 1)) as (c & _ & Hc & Hc0 & Hw); [lia|]. rewrite Hc.
  replace (k - 1 + 1) with k in Hw by lia. unfold digit. pose proof (weight_pos k).
  pose proof (weight_pos (k - 1)).
  pose proof (Z.mod_pos_bound v (weight (k - 1)) ltac:(lia)). split; [apply Z.div_pos; lia|].
  apply Z.div_lt_upper_bound; lia.
Qed.

(** The last digits of a number. *)
Lemma vidx_digit_step v k : 1 <= k <= D ->
  v mod weight (k - 1) = digit v k * weight k + v mod weight k /\
  (v mod weight (k - 1)) mod weight k = v mod weight k.
Proof.
  intros Hk. destruct (weight_S (k - 1)) as (c & _ & Hc & Hc0 & Hw); [lia|].
  replace (k - 1 + 1) with k in Hw by lia. pose proof (weight_pos k).
  assert ((v mod weight (k - 1)) mod weight k = v mod weight k) as E.
  { rewrite Hw. rewrite (Z.mul_comm c). rewrite Z.rem_mul_r by lia. rewrite Z.mul_comm, Z_mod_plus_full.
    apply Z.mod_mod. lia. }
  split; [|done]. unfold digit. pose proof (Z.div_mod (v mod weight (k - 1)) (weight k)). lia.
Qed.

(** Every choice of digits is that of a number. *)
Lemma digits_exist (rel : Z -> Z) : (forall k, 1 <= k <= D -> 0 <= rel k < breadth (k - 1)) ->
  exists v, 0 <= v < ft_cols tile /\ forall k, 1 <= k <= D -> digit v k = rel k.
Proof.
  intros Hrel. pose proof Hs as (Hd & _ & _ & Hcols & _). fold D in Hd. fold cs in Hcols.
  assert (forall n : nat, Z.of_nat n <= D -> exists v, 0 <= v < weight (D - Z.of_nat n) /\
    forall k, D - Z.of_nat n < k <= D -> digit v k = rel k) as Hn.
  { induction n as [|n IH]; intros Hn.
    { exists 0. rewrite Z.sub_0_r, weight_depth. split; [lia|]. lia. }
    destruct IH as (v & Hv & Hdig); [lia|]. set (j := D - Z.of_nat n) in *.
    replace (D - Z.of_nat (S n)) with (j - 1) by lia.
    destruct (weight_S (j - 1)) as (c & _ & Hc & Hc0 & Hw); [lia|]. replace (j - 1 + 1) with j in Hw by lia.
    specialize (Hrel j ltac:(lia)). rewrite Hc in Hrel. pose proof (weight_pos j) as Hwj.
    exists (rel j * weight j + v). split; [nia|]. intros k Hk. destruct (Z.eq_dec k j) as [->|Hne].
    - unfold digit. rewrite (Z.mod_small _ (weight (j - 1))) by nia.
      rewrite Z.div_add_l, Z.div_small by lia. lia.
    - rewrite <- (Hdig k) by lia. unfold digit. f_equal.
      assert (exists m, weight j = m * weight (k - 1)) as [m ->];
        [|by rewrite Z.mul_assoc, Z.add_comm, Z_mod_plus_full].
      assert (forall q : nat, j + Z.of_nat q <= D -> exists m, weight j = m * weight (j + Z.of_nat q)) as Hq.
      { induction q as [|q IHq]; intros Hq; [exists 1; rewrite Z.add_0_r; lia|].
        destruct IHq as [m Hm]; [lia|]. destruct (weight_S (j + Z.of_nat q)) as (c' & _ & _ & _ & Hw');
          [lia|].
        exists (m * c'). rewrite Hm, Hw'. replace (j + Z.of_nat (S q)) with (j + Z.of_nat q + 1) by lia. lia.
        }
      destruct (Hq (Z.to_nat (k - 1 - j))) as [m Hm]; [lia|]. exists m. rewrite Hm. repeat f_equal. lia. }
  destruct (Hn (Z.to_nat D)) as (v & Hv & Hdig); [lia|]. rewrite Z2Nat.id, Z.sub_diag in * by lia.
  exists v. split; [by rewrite Hcols|]. intros k Hk. apply Hdig. lia.
Qed.

(** The divisor of the next digit; the last division is by the [1] behind the
    last level. *)
Lemma weight_next i : 1 <= i <= D -> exists c, arr_get (ft_child tile) i = Some c /\
  div_c (weight i) c = Some (if i =? D then 1 else weight (i + 1)).
Proof.
  intros Hi. destruct (Z.eqb_spec i D) as [->|Hne]; [exists 1; by rewrite weight_depth|].
  destruct (weight_S i) as (c & Hc & _ & Hc0 & ->); [lia|]. exists c. split; [done|].
  rewrite div_c_ok by lia. f_equal. rewrite Z.mul_comm. apply Z.div_mul. lia.
Qed.

Lemma rel_vidx_get_ok v rels : 0 <= v < ft_cols tile -> length rels = 5%nat ->
  exists rels', rel_vidx_get pver D (weight 1) v rels = Some rels' /\
    forall k, 1 <= k <= D -> arr_get rels' k = Some (digit v k).
Proof.
  intros Hv Hl. pose proof Hs as (Hd & _ & _ & Hcols & _). fold D in Hd. fold cs in Hcols.
  unfold rel_vidx_get. fold tile.
  match goal with |- context [for_up 1 (D + 1) ?f _] => set (body := f) end.
  destruct (for_up_total (fun i '(rels, w, children) => length rels = 5%nat /\ w = v mod weight (i - 1) /\
      (i <= D -> children = weight i) /\ forall k, 1 <= k < i -> arr_get rels k = Some (digit v k))
      body 1 (D + 1) (rels, v, weight 1)) as ([[rels' w] ch] & Hrun & _ & _ & _ & Hrel).
  - lia.
  - split; [done|]. split; [|split; [done|lia]]. rewrite Z.mod_small; [done|].
    change (1 - 1) with 0. unfold weight. change (drop (Z.to_nat 0) cs) with cs. lia.
  - intros i [[rs w] ch] Hi (Hrl & -> & Hch & Hrs). rewrite Hch by lia. unfold body.
    pose proof (weight_pos i). run div_c_ok by lia. fold (digit v i).
    rewrite arr_set_ok by (rewrite Hrl; lia). cbn [mbind option_bind]. run mod_c_ok by lia.
    destruct (weight_next i) as (c & Hc & Hdiv); [lia|]. run Hc. run Hdiv.
    eexists. split; [done|]. split; [by rewrite length_insert|]. split; [|split].
    + replace (i + 1 - 1) with i by lia. apply vidx_digit_step. lia.
    + intros Hi'. destruct (Z.eqb_spec i D); [lia|done].
    + intros k Hk. rewrite arr_get_insert by (rewrite Hrl; lia).
      destruct (Z.eqb_spec i k) as [->|]; [done|]. apply Hrs. lia.
  - run Hrun. exists rels'. split; [done|]. intros k Hk. apply Hrel. lia.
Qed.

Lemma vidx_get_ok v rels : 0 <= v < ft_cols tile ->
  (forall k, 1 <= k <= D -> arr_get rels k = Some (digit v k)) ->
  vidx_get pver D (weight 1) rels = Some (Some v).
Proof.
  intros Hv Hrels. pose proof Hs as (Hd & _ & _ & Hcols & Hb & _). fold D in Hd. fold cs in Hcols.
  unfold vidx_get. fold tile.
  match goal with |- context [for_up 1 (D + 1) ?f _] => set (body := f) end.
  destruct (for_up_total (fun i '(w, children, broken) => broken = false /\ w = v - v mod weight (i - 1) /\
      (i <= D -> children = weight i)) body 1 (D + 1) (0, weight 1, false))
    as ([[w ch] b] & Hrun & -> & -> & _).
  - lia.
  - split; [done|]. split; [|done]. rewrite Z.mod_small; [lia|].
    change (1 - 1) with 0. unfold weight. change (drop (Z.to_nat 0) cs) with cs. lia.
  - intros i [[w ch] b] Hi (-> & -> & Hch). rewrite Hch by lia. unfold body. run (Hrels i) by lia.
    destruct (weight_S (i - 1)) as (c & Hc & Hbr & _); [lia|]. run Hc.
    pose proof (digit_range v i ltac:(lia)) as Hdr. rewrite Hbr in Hdr.
    destruct (Z.leb_spec c (digit v i)); [lia|].
    destruct (weight_next i) as (c' & Hc' & Hdiv); [lia|]. run Hc'. run Hdiv.
    eexists. split; [done|]. split; [done|]. split; [|intros Hi'; destruct (Z.eqb_spec i D); [lia|done]].
    pose proof (vidx_digit_step v i ltac:(lia)) as [Hst _]. replace (i + 1 - 1) with i by lia.
    pose proof (weight_pos i). pose proof (weight_pos (i - 1)).
    pose proof (Z.mod_pos_bound v (weight i) ltac:(lia)).
    pose proof (Z.mod_pos_bound v (weight (i - 1)) ltac:(lia)).
    pose proof (Z.mod_le v (weight (i - 1)) ltac:(lia) ltac:(lia)).
    rewrite (u64_small (_ * _)) by (unfold is_u64; nia). rewrite u64_small by (unfold is_u64; nia). lia.
  - run Hrun. replace (D + 1 - 1) with D by lia. rewrite weight_depth, Z.mod_1_r. repeat f_equal. lia.
Qed.

(** A digit that is too large stops the loop. *)
Lemma vidx_get_broken (rel : Z -> Z) rels k :
  (forall k, 1 <= k <= D -> arr_get rels k = Some (rel k)) ->
  1 <= k <= D -> breadth (k - 1) <= rel k ->
  vidx_get pver D (weight 1) rels = Some None.
Proof.
  intros Hrels Hk Hbad. unfold vidx_get. fold tile.
  match goal with |- context [for_up 1 (D + 1) ?f _] => set (body := f) end.
  destruct (for_up_total (fun i '(_, children, broken) => broken = true \/
      (i <= k /\ children = weight i)) body 1 (D + 1) (0, weight 1, false))
    as ([[w ch] b] & Hrun & Hb).
  - lia.
  - right. split; [lia|done].
  - intros i [[w ch] b] Hi Hb. unfold body. destruct b; [eexists; split; [done|by left]|].
    destruct Hb as [|[Hik ->]]; [done|]. run (Hrels i) by lia.
    destruct (weight_S (i - 1)) as (c & Hc & Hbr & _); [lia|]. run Hc.
    destruct (Z.leb_spec c (rel i)); [eexists; split; [done|by left]|].
    destruct (weight_next i) as (c' & Hc' & Hdiv); [lia|]. run Hc'. run Hdiv.
    eexists. split; [done|]. right. destruct (Z.eq_dec i k) as [->|]; [lia|].
    destruct (Z.eqb_spec i D); [lia|]. split; [lia|done].
  - run Hrun. destruct Hb as [->|[? _]]; [done|lia].
Qed.

End digits.

(** ** The maps of a pool version *)

(** The tile and the tree of a pool version agree: a node of the tree has at
    least as many children as the nodes of its level in the symmetric tree. *)
Record pver_ok (degs : list (list Z)) (pver : m0_pool_version) : Prop := {
  po_tile : tile_wf (pv_fd_tile pver);
  po_depth : FdTile.ft_depth (pv_fd_tile pver) = Z.of_nat (length degs);
  po_last : arr_get (ft_child (pv_fd_tile pver)) (Z.of_nat (length degs)) = Some 1;
  po_degs : degs_wf degs;
  po_tree : tree_repr degs (fill_to degs (Z.of_nat (length degs)) 0) (pv_fd_tree pver);
  po_breadth : forall d i, 0 <= d < Z.of_nat (length degs) -> 0 <= i < nodes degs d ->
                 breadth pver d <= degree degs d i
}.

Section maps.
Context (degs : list (list Z)) (pver : m0_pool_version) (gfid : m0_fid) (omega : Z).
Hypothesis Hok : pver_ok degs pver.
Hypothesis Hset : m0_fid_is_set gfid = true.
Let D := Z.of_nat (length degs).
Let tile := pv_fd_tile pver.
Let seed := pa_seed (pv_attr pver).
Hypothesis Hperm : forall c, inner_degree degs c -> perm_ok c (rstate_init seed gfid omega) = true.

(** A choice of children gives a path. *)
Lemma tree_path_of_rel rel : (forall k, 1 <= k <= D -> 0 <= rel k < breadth pver (k - 1)) ->
  exists path, tree_path degs pver gfid omega path rel.
Proof.
  intros Hrel. destruct Hok as [_ _ _ Hwf Hrepr Hbr].
  set (path := fix path (n : nat) : Z := match n with
    | O => 0
    | S n => off (deg degs (Z.of_nat n)) (path n) +
             permuted pver gfid omega (degree degs (Z.of_nat n) (path n)) (rel (Z.of_nat (S n)))
    end).
  assert (forall n : nat, Z.of_nat n <= D -> 0 <= path n < nodes degs (Z.of_nat n)) as Hn.
  { induction n as [|n IH]; intros Hn; [change (nodes degs (Z.of_nat 0)) with 1; simpl; lia|].
    specialize (IH ltac:(lia)). specialize (Hrel (Z.of_nat (S n)) ltac:(lia)).
    specialize (Hbr (Z.of_nat n) (path n) ltac:(fold D; lia) IH).
    replace (Z.of_nat (S n) - 1) with (Z.of_nat n) in Hrel by lia.
    destruct (permuted_range degs pver gfid omega Hwf Hperm (Z.of_nat n) (path n) (rel (Z.of_nat (S n))))
      as [_ Hp]; [fold D; lia|done|lia|].
    destruct (child_index degs Hwf (Z.of_nat n) (path n) _ ltac:(fold D; lia) IH Hp) as [Hc _].
    cbn [path]. by replace (Z.of_nat n + 1) with (Z.of_nat (S n)) in Hc by lia. }
  exists (fun k => path (Z.to_nat k)). split; [done|]. intros k Hk. fold D in Hk.
  specialize (Hn (Z.to_nat (k - 1)) ltac:(lia)). rewrite Z2Nat.id in Hn by lia.
  specialize (Hbr (k - 1) _ ltac:(fold D; lia) Hn). specialize (Hrel k Hk). split; [lia|].
  replace (Z.to_nat k) with (S (Z.to_nat (k - 1))) by lia. cbn [path].
  by replace (Z.of_nat (S (Z.to_nat (k - 1)))) with k by lia; rewrite Z2Nat.id by lia.
Qed.

Lemma fwd_map_ok caches rels src :
  caches_ok seed (inner_degree degs) caches -> length rels = 5%nat ->
  is_u64 (sa_group src) -> 0 <= sa_unit src < ft_G tile -> omega = sa_group src / tile_C tile ->
  exists tgt path caches', m0_fd_src_to_tgt tile src = Some tgt /\ 0 <= ta_obj tgt < ft_cols tile /\
    ta_frame tgt / ft_rows tile = omega /\
    tree_path degs pver gfid omega path (digit pver (ta_obj tgt)) /\
    m0_fd_fwd_map pver gfid rels caches src =
      Some ({| ta_frame := ta_frame tgt; ta_obj := path D |}, caches') /\
    caches_ok seed (inner_degree degs) caches'.
Proof.
  intros Hc Hl Hg Hu Homega. pose proof Hok as [Htile Hdep Hlast Hwf Hrepr _].
  pose proof Htile as [Hs _]. pose proof (tile_lcm tile Hs) as (HR & HC & _ & _).
  destruct (src_to_tgt_ok tile Htile src Hg Hu) as (Hi & Hq & _ & Hrun).
  rewrite <- Homega in Hrun. set (i := sa_group src mod tile_C tile * ft_G tile + sa_unit src) in *.
  rewrite <- Hdep in Hlast. pose proof (tidx_range tile Hs i) as Hobj.
  pose proof (Z.div_pos i (ft_cols tile) ltac:(lia) ltac:(lia)).
  destruct (tree_path_of_rel (digit pver (tidx tile i))) as [path Hpath].
  { intros k Hk. apply digit_range; [done|by rewrite Hdep]. }
  unfold m0_fd_fwd_map. fold tile. run Hrun. cbn [ta_obj ta_frame].
  change (FdTile.ft_depth tile) with (FdTile.ft_depth (pv_fd_tile pver)). rewrite Hdep.
  pose proof (children_product_ok pver Hs) as Hprod. rewrite Hdep in Hprod. run Hprod.
  destruct (rel_vidx_get_ok pver Hs Hlast (tidx tile i) rels) as (rels' & Hrels & Hdig); [done|done|].
  rewrite Hdep in Hrels, Hdig. run Hrels. pose proof Hs as (_ & _ & _ & _ & _ & HG & _).
  assert_ok by lia. run (tile_C_ok tile Htile). run m0_dec_ok by lia. rewrite <- Homega.
  destruct (permuted_tgt_ok degs pver gfid omega Hwf Hrepr Hset Hperm caches rels' path
    (digit pver (tidx tile i)) Hc Hpath Hdig) as (caches' & Htgt & Hc').
  run Htgt. exists {| ta_frame := omega * ft_rows tile + i / ft_cols tile; ta_obj := tidx tile i |}, path,
    caches'.
  split; [done|]. split; [done|]. split; [by apply div_enc|]. done.
Qed.

Lemma bwd_map_ok caches rels path v frame src :
  caches_ok seed (inner_degree degs) caches -> length rels = 5%nat ->
  frame / ft_rows tile = omega -> 0 <= v < ft_cols tile ->
  tree_path degs pver gfid omega path (digit pver v) ->
  m0_fd_tgt_to_src tile {| ta_frame := frame; ta_obj := v |} = Some src ->
  exists caches', m0_fd_bwd_map pver gfid rels caches {| ta_frame := frame; ta_obj := path D |} =
      Some (src, caches') /\ caches_ok seed (inner_degree degs) caches'.
Proof.
  intros Hc Hl Homega Hv Hpath Hsrc. pose proof Hok as [Htile Hdep Hlast Hwf Hrepr _].
  pose proof Htile as [Hs _]. pose proof (tile_lcm tile Hs) as (HR & _). pose proof Hrepr as (Htd & _).
  rewrite <- Hdep in Hlast. unfold m0_fd_bwd_map. fold tile. cbn [ta_frame ta_obj].
  run m0_dec_ok by lia. rewrite Homega.
  destruct (inverse_permuted_ok degs pver gfid omega Hwf Hrepr Hset Hperm caches rels path
    (digit pver v) Hc Hpath Hl) as (rels' & caches' & Hinv & Hdig & Hc').
  fold D in Hinv. run Hinv. rewrite Htd, <- Hdep in *. run (children_product_ok pver Hs).
  run (vidx_get_ok pver Hs Hlast v rels' Hv Hdig). run Hsrc. by exists caches'.
Qed.

Lemma bwd_map_broken caches rels path rel frame k :
  caches_ok seed (inner_degree degs) caches -> length rels = 5%nat ->
  frame / ft_rows tile = omega ->
  tree_path degs pver gfid omega path rel -> 1 <= k <= D -> breadth pver (k - 1) <= rel k ->
  exists caches', m0_fd_bwd_map pver gfid rels caches {| ta_frame := frame; ta_obj := path D |} =
      Some ({| sa_group := UINT64_MAX; sa_unit := UINT64_MAX |}, caches') /\
    caches_ok seed (inner_degree degs) caches'.
Proof.
  intros Hc Hl Homega Hpath Hk Hbad. pose proof Hok as [Htile Hdep Hlast Hwf Hrepr _].
  pose proof Htile as [Hs _]. pose proof (tile_lcm tile Hs) as (HR & _). pose proof Hrepr as (Htd & _).
  rewrite <- Hdep in Hlast. unfold m0_fd_bwd_map. fold tile. cbn [ta_frame ta_obj].
  run m0_dec_ok by lia. rewrite Homega.
  destruct (inverse_permuted_ok degs pver gfid omega Hwf Hrepr Hset Hperm caches rels path
    rel Hc Hpath Hl) as (rels' & caches' & Hinv & Hdig & Hc').
  fold D in Hinv. run Hinv. unfold D in Hk. rewrite Htd, <- Hdep in *. run (children_product_ok pver Hs).
  run (vidx_get_broken pver Hs Hlast rel rels' k Hdig Hk Hbad). by exists caches'.
Qed.

End maps.

(** The tile a unit is in. *)
Lemma src_tgt_omega tile src tgt :
  tile_wf tile -> is_u64 (sa_group src) -> 0 <= sa_unit src < ft_G tile ->
  m0_fd_src_to_tgt tile src = Some tgt -> ta_frame tgt / ft_rows tile = sa_group src / tile_C tile.
Proof.
  intros Ht Hg Hu Hrun. pose proof Ht as [Hs _]. pose proof (tile_lcm tile Hs) as (HR & _).
  destruct (src_to_tgt_ok tile Ht src Hg Hu) as (Hi & Hq & _ & Hrun'). rewrite Hrun in Hrun'.
  injection Hrun' as ->. cbn [ta_frame]. pose proof Hs as (_ & _ & _ & _ & _ & HG & _).
  apply div_enc. split; [apply Z.div_pos; lia|done].
Qed.

Lemma fwd_map_frame pver gfid rels caches src tgt caches' :
  m0_fd_fwd_map pver gfid rels caches src = Some (tgt, caches') ->
  exists tgt', m0_fd_src_to_tgt (pv_fd_tile pver) src = Some tgt' /\ ta_frame tgt = ta_frame tgt'.
Proof.
  intros Hrun. unfold m0_fd_fwd_map in Hrun. apply bind_Some in Hrun as (tgt' & Htgt & Hrun).
  exists tgt'. split; [done|]. unbind Hrun. by injection Hrun as <- _.
Qed.

Section both.
Context (degs : list (list Z)) (pver : m0_pool_version) (gfid : m0_fid).
Hypothesis Hok : pver_ok degs pver.
Hypothesis Hset : m0_fid_is_set gfid = true.
Let D := Z.of_nat (length degs).
Let tile := pv_fd_tile pver.
Let seed := pa_seed (pv_attr pver).

(** No number the generator draws for the permutations of tile [omega] is out
    of range. *)
Definition draws_ok (omega : Z) : Prop :=
  forall c, inner_degree degs c -> perm_ok c (rstate_init seed gfid omega) = true.

Lemma map_roundtrip caches rels rels' src :
  caches_ok seed (inner_degree degs) caches -> length rels = 5%nat -> length rels' = 5%nat ->
  is_u64 (sa_group src) -> 0 <= sa_unit src < ft_G tile -> draws_ok (sa_group src / tile_C tile) ->
  exists tgt caches' caches'',
    m0_fd_fwd_map pver gfid rels caches src = Some (tgt, caches') /\
    0 <= ta_obj tgt < nodes degs D /\ caches_ok seed (inner_degree degs) caches' /\
    m0_fd_bwd_map pver gfid rels' caches' tgt = Some (src, caches'') /\
    caches_ok seed (inner_degree degs) caches''.
Proof.
  intros Hc Hl Hl' Hg Hu Hperm. pose proof Hok as [Ht Hd _ Hwf Hrepr _].
  destruct (fwd_map_ok degs pver gfid _ Hok Hset Hperm caches rels src Hc Hl Hg Hu eq_refl)
    as (tgt & path & caches' & Htgt & Hobj & Homega & Hpath & Hfwd & Hc').
  destruct (tile_src_tgt_src tile Ht src Hg Hu) as (tgt' & Htgt' & _ & _ & Hsrc).
  change (pv_fd_tile pver) with tile in Htgt.
  rewrite Htgt in Htgt'. injection Htgt' as <-. destruct tgt as [frame v]. cbn [ta_frame ta_obj] in *.
  destruct (bwd_map_ok degs pver gfid _ Hok Hset Hperm caches' rels' path v frame src Hc' Hl' Homega Hobj
    Hpath Hsrc)
    as (caches'' & Hbwd & Hc'').
  eexists _, caches', caches''. split; [exact Hfwd|]. split; [|done]. cbn [ta_obj].
  apply (tree_path_range degs pver gfid _ Hwf Hperm path _ _ Hpath). lia.
Qed.

Lemma map_bwd_complete caches rels tgt :
  caches_ok seed (inner_degree degs) caches -> length rels = 5%nat ->
  is_u64 (ta_frame tgt) -> 0 <= ta_obj tgt < nodes degs D ->
  (ta_frame tgt / ft_rows tile + 1) * tile_C tile <= 2 ^ 64 -> draws_ok (ta_frame tgt / ft_rows tile) ->
  exists src caches', m0_fd_bwd_map pver gfid rels caches tgt = Some (src, caches') /\
  caches_ok seed (inner_degree degs) caches' /\
    ((is_u64 (sa_group src) /\ 0 <= sa_unit src < ft_G tile /\
      exists caches'', m0_fd_fwd_map pver gfid rels caches' src = Some (tgt, caches'')) \/
     (src = {| sa_group := UINT64_MAX; sa_unit := UINT64_MAX |} /\
      forall src' caches'', is_u64 (sa_group src') -> 0 <= sa_unit src' < ft_G tile ->
        m0_fd_fwd_map pver gfid rels caches src' <> Some (tgt, caches''))).
Proof.
  intros Hc Hl Hf Hobj Hov Hperm. pose proof Hok as [Ht Hd _ Hwf Hrepr _].
  destruct (tree_path_exists degs pver gfid _ Hwf Hperm (ta_obj tgt) Hobj) as (path & rel & Hpath & Hleaf).
  destruct tgt as [frame x]. cbn [ta_frame ta_obj] in *. subst x.
  destruct (decide (Forall (fun k => rel k < breadth pver (k - 1)) (seqZ 1 D))) as [Hall|Hbad].
  - rewrite Forall_forall in Hall. destruct (digits_exist pver (proj1 Ht) rel) as (v & Hv & Hdig).
    { intros k Hk. rewrite Hd in Hk. destruct (proj2 Hpath k) as [? _]; [done|].
      split; [lia|]. apply Hall, elem_of_seqZ. lia. }
    assert (tree_path degs pver gfid (frame / ft_rows tile) path (digit pver v)) as Hpath'.
    { split; [apply Hpath|]. intros k Hk. rewrite Hdig by (rewrite Hd; done). by apply Hpath. }
    destruct (tile_tgt_src_tgt tile Ht {| ta_frame := frame; ta_obj := v |})
      as (src & Hsrc & Hg & Hu & Htgt); try done.
    destruct (bwd_map_ok degs pver gfid _ Hok Hset Hperm caches rels path v frame src Hc Hl eq_refl Hv Hpath'
      Hsrc)
      as (caches' & Hbwd & Hc').
    exists src, caches'. split; [done|]. split; [done|]. left. split; [done|]. split; [done|].
    pose proof (src_tgt_omega tile src _ Ht Hg Hu Htgt) as Homega. cbn [ta_frame] in Homega.
    destruct (fwd_map_ok degs pver gfid _ Hok Hset Hperm caches' rels src Hc' Hl Hg Hu Homega)
      as (tgt' & path2 & caches'' & Htgt2 & _ & _ & Hpath2 & Hfwd & _).
    change (pv_fd_tile pver) with tile in Htgt2. rewrite Htgt in Htgt2. injection Htgt2 as <-.
    exists caches''. rewrite Hfwd. cbn [ta_frame ta_obj] in *. fold D.
    by rewrite (tree_path_det degs pver gfid _ path2 path _ D Hpath2 Hpath' ltac:(unfold D; lia)).
  - apply not_Forall_Exists, Exists_exists in Hbad as (k & Hk%elem_of_seqZ & Hbad); [|apply _].
    change (~ rel k < breadth pver (k - 1)) in Hbad.
    destruct (bwd_map_broken degs pver gfid _ Hok Hset Hperm caches rels path rel frame k Hc Hl eq_refl Hpath)
      as (caches' & Hbwd & Hc'); [fold D; lia|lia|].
    eexists _, caches'. split; [exact Hbwd|]. split; [done|]. right. split; [done|].
    intros src' caches'' Hg Hu Hrun.
    destruct (fwd_map_frame _ _ _ _ _ _ _ Hrun) as (tgt' & Htgt & Hframe).
    pose proof (src_tgt_omega tile src' _ Ht Hg Hu Htgt) as Homega. rewrite <- Hframe in Homega.
    cbn [ta_frame] in Homega.
    destruct (fwd_map_ok degs pver gfid _ Hok Hset Hperm caches rels src' Hc Hl Hg Hu Homega)
      as (tgt2 & path2 & caches2 & _ & _ & _ & Hpath2 & Hfwd & _).
    rewrite Hrun in Hfwd. injection Hfwd as _ HD _.
    rewrite (tree_path_unique degs pver gfid _ Hwf Hperm path rel path2 _ k Hpath Hpath2 HD) in Hbad
      by (fold D; lia).
    pose proof (digit_range pver (proj1 Ht) (ta_obj tgt2) k ltac:(rewrite Hd; fold D; lia)). lia.
Qed.

End both.

(** ** The pool version built from the configuration *)

(** The radices symm_tree_attr_get() returns are positive, and bounded by the
    degrees of the tree. *)
Lemma symm_radices tol_mem pv array f children k :
  pv_wf pv f -> first_level_get pv = Some f ->
  symm_tree_attr_get tol_mem pv array = Some (0, 5 - f, children) -> 0 <= k < 5 - f ->
  exists c, arr_get children k = Some c /\ 0 < c /\
    forall i, 0 <= i < nodes (pv_degs pv f) k -> c <= degree (pv_degs pv f) k i.
Proof.
  intros Hpv Hfirst Hsymm Hk. pose proof Hpv as (H5 & Hf & Hwf & _).
  pose proof (pv_degs_length pv f H5 Hf) as Hdl. destruct (symm_tree_attr_ok _ _ _ _ _ Hsymm)
    as (f' & objs & Hf' & _ & Hobjs & Hc0 & Hck & _). rewrite Hfirst in Hf'. injection Hf' as <-.
  destruct (Z.eq_dec k 0) as [->|Hne].
  - destruct (degree_get _ Hwf 0 0) as [Hg Hd]; [lia|done|].
    assert (degree (pv_degs pv f) 0 0 = Z.of_nat (length (pv_level pv f))) as Hg0 by done.
    rewrite (objs_count_ok pv f (pv_level pv f)) in Hobjs
      by (rewrite ?pv_level_get by (done || lia); (done || lia)).
    injection Hobjs as <-. eexists. split; [done|]. split; [lia|].
    intros i Hi. change (nodes (pv_degs pv f) 0) with 1 in Hi. assert (i = 0) as -> by lia. lia.
  - destruct (Hck k) as (m & Hm & Hm0 & Hget); [lia|]. exists m. split; [done|].
    assert (arr_get (pv_levels pv) (f + k - 1) = Some (pv_level pv (f + k - 1))) as Hlv
      by (apply pv_level_get; (done || lia)).
    destruct (min_children_ok pv (f + k - 1) _ Hlv) as (m' & Hm' & Hnn & Hle);
      [unfold M0_CONF_PVER_LVL_DRIVES; lia|]. rewrite Hm in Hm'. injection Hm' as <-. split.
    + lia.
    + intros i Hi. destruct (degree_get _ Hwf k i) as [Hg Hd]; [lia|done|].
      rewrite pv_degs_deg in Hg by (done || lia). apply arr_get_Some in Hg as [_ Hg%list_elem_of_lookup_2].
      apply Hle in Hg. rewrite u32_small in Hg by (unfold is_u32; lia). lia.
Qed.

Lemma build_pver_ok tol_mem mem pv array f children :
  pv_wf pv f -> (forall k, mem k = true) -> length array = 5%nat ->
  first_level_get pv = Some f -> symm_tree_attr_get tol_mem pv array = Some (0, 5 - f, children) ->
  prodZ (take (Z.to_nat (5 - f)) children) < 2 ^ 31 ->
  0 < parity_group_size (pvs_attr pv) <= prodZ (take (Z.to_nat (5 - f)) children) ->
  exists tile tree,
    m0_fd_tile_build tol_mem true pv array = Some (0, 5 - f, Some tile) /\
    m0_fd_tree_build tol_mem mem pv array = Some (0, Some tree) /\
    pver_ok (pv_degs pv f) {| pv_attr := pvs_attr pv; pv_fd_tile := tile; pv_fd_tree := tree |} /\
    (forall c, c ∈ ft_cache_info tree <-> inner_degree (pv_degs pv f) c).
Proof.
  intros Hpv Hmem Hlen Hfirst Hsymm Hw HG. pose proof Hpv as (H5 & Hf & Hwf & _).
  pose proof (pv_degs_length pv f H5 Hf) as Hdl.
  destruct (tree_build_ok tol_mem mem pv array f children Hpv Hmem Hfirst Hsymm)
    as (tree & Htree & Hrepr & _ & Hinfo).
  destruct (symm_tree_attr_ok _ _ _ _ _ Hsymm) as (f' & objs & _ & _ & _ & _ & _ & Hlast & Hcl).
  assert (positive (take (Z.to_nat (5 - f)) children)) as Hpos.
  { apply Forall_lookup. intros n x Hx. apply lookup_take_Some in Hx as [Hx Hn].
    destruct (symm_radices _ _ _ _ _ (Z.of_nat n) Hpv Hfirst Hsymm) as (c & Hc & Hc0 & _); [lia|].
    apply arr_get_Some in Hc as [_ Hc]. rewrite Nat2Z.id, Hx in Hc. by injection Hc as ->. }
  destruct (tile_init_ok (pvs_attr pv) children (5 - f)) as (tile0 & Hinit & Hs0 & _ & _ & Hdep0 & Hch0);
    try done; [lia|lia|].
  destruct (tile_populate_ok tile0 Hs0) as (tile & Hpop & Htile & _ & _ & _ & Hdep & Hch).
  exists tile, tree. split; [|split; [done|split; [|unfold inner_degree; by rewrite Hdl]]].
  { unfold m0_fd_tile_build. run Hsymm. cbn [Z.eqb negb]. run Hinit. by run Hpop. }
  split; cbn [pv_fd_tile pv_fd_tree]; rewrite ?Hdl; try done; [congruence|congruence|].
  intros d i Hd Hi. destruct (symm_radices _ _ _ _ _ d Hpv Hfirst Hsymm Hd) as (c & Hc & _ & Hle).
  unfold breadth. cbn [pv_fd_tile]. unfold tile_cs, arr_get. rewrite (proj2 (Z.leb_le 0 d)) by lia.
  apply arr_get_Some in Hc as [_ Hc]. rewrite Hch, Hch0, Hdep, Hdep0, lookup_take_lt, Hc by lia. by apply Hle.
Qed.

(** ** Properties *)

Section properties.
Context (tol_mem mem : Z -> bool) (pv : m0_conf_pver) (array : list Z) (f : Z) (children : list Z)
  (gfid : m0_fid) (tile : m0_fd_tile) (tree : m0_fd_tree).
Hypothesis Hpv : pv_wf pv f.
Hypothesis Hmem : forall k, mem k = true.
Hypothesis Harr : length array = 5%nat.
Hypothesis Hfirst : first_level_get pv = Some f.
Hypothesis Hsymm : symm_tree_attr_get tol_mem pv array = Some (0, 5 - f, children).
Hypothesis Hwidth : prodZ (take (Z.to_nat (5 - f)) children) < 2 ^ 31.
Hypothesis Hgroup : 0 < parity_group_size (pvs_attr pv) <= prodZ (take (Z.to_nat (5 - f)) children).
Hypothesis Htile : m0_fd_tile_build tol_mem true pv array = Some (0, 5 - f, Some tile).
Hypothesis Htree : m0_fd_tree_build tol_mem mem pv array = Some (0, Some tree).
Hypothesis Hset : m0_fid_is_set gfid = true.

Let pver := {| pv_attr := pvs_attr pv; pv_fd_tile := tile; pv_fd_tree := tree |}.
Let degs := pv_degs pv f.
Let seed := pa_seed (pvs_attr pv).

(** No number the generator draws for the permutations of tile [omega] is out
    of range. *)
Let draws_in_range (omega : Z) : Prop :=
  forall c, inner_degree degs c -> perm_ok c (rstate_init seed gfid omega) = true.

Lemma built_pver_ok : pver_ok degs pver.
Proof.
  destruct (build_pver_ok tol_mem mem pv array f children Hpv Hmem Harr Hfirst Hsymm Hwidth Hgroup)
    as (tile' & tree' & H1 & H2 & Hok & _). rewrite Htile in H1. rewrite Htree in H2.
  injection H1 as <-. by injection H2 as <-.
Qed.

(** C9. m0_fd_fwd_map() and m0_fd_bwd_map(): on the tile and the tree built for a
    pool version, whatever the permutation caches hold from earlier calls,
    m0_fd_fwd_map() sends every unit of every parity group to a leaf of the tree,
    and m0_fd_bwd_map() of the target is that unit again; both keep the caches
    consistent. Excluded are the tiles for which m0_rnd() returns its upper bound
    ([draws_in_range]). *)
Theorem fd_map_roundtrip caches rels rels' src :
  caches_ok seed (inner_degree degs) caches -> length rels = 5%nat -> length rels' = 5%nat ->
  is_u64 (sa_group src) -> 0 <= sa_unit src < ft_G tile ->
  draws_in_range (sa_group src / tile_C tile) ->
  exists tgt caches' caches'',
    m0_fd_fwd_map pver gfid rels caches src = Some (tgt, caches') /\
    0 <= ta_obj tgt < nodes degs (5 - f) /\ caches_ok seed (inner_degree degs) caches' /\
    m0_fd_bwd_map pver gfid rels' caches' tgt = Some (src, caches'') /\
    caches_ok seed (inner_degree degs) caches''.
Proof.
  intros Hc Hl Hl' Hg Hu Hperm. replace (5 - f) with (Z.of_nat (length degs))
    by (apply pv_degs_length; apply Hpv).
  by apply (map_roundtrip degs pver gfid built_pver_ok Hset).
Qed.

(** C17. m0_fd_bwd_map() on every leaf of the tree: either it returns a unit that
    m0_fd_fwd_map() sends to that target, or it returns the all-ones address, and
    then no unit of any parity group is mapped to the target (the leaves that
    the symmetric tree of the pool version does not use in that tile). The group
    numbers of the tile fit 64 bits, and tiles for which m0_rnd() returns its upper
    bound are excluded ([draws_in_range]). *)
Theorem fd_map_bwd_complete caches rels tgt :
  caches_ok seed (inner_degree degs) caches -> length rels = 5%nat ->
  is_u64 (ta_frame tgt) -> 0 <= ta_obj tgt < nodes degs (5 - f) ->
  (ta_frame tgt / ft_rows tile + 1) * tile_C tile <= 2 ^ 64 ->
  draws_in_range (ta_frame tgt / ft_rows tile) ->
  exists src caches', m0_fd_bwd_map pver gfid rels caches tgt = Some (src, caches') /\
    ((is_u64 (sa_group src) /\ 0 <= sa_unit src < ft_G tile /\
      exists caches'', m0_fd_fwd_map pver gfid rels caches' src = Some (tgt, caches'')) \/
     (src = {| sa_group := UINT64_MAX; sa_unit := UINT64_MAX |} /\
      forall src' caches'', is_u64 (sa_group src') -> 0 <= sa_unit src' < ft_G tile ->
        m0_fd_fwd_map pver gfid rels caches src' <> Some (tgt, caches''))).
Proof.
  intros Hc Hl Hf Hobj Hov Hperm. replace (5 - f) with (Z.of_nat (length degs)) in Hobj
    by (apply pv_degs_length; apply Hpv).
  destruct (map_bwd_complete degs pver gfid built_pver_ok Hset caches rels tgt Hc Hl Hf Hobj Hov Hperm)
    as (src & caches' & Hrun & _ & Hcase).
  by exists src, caches'.
Qed.

End properties.

(** ** Witnesses *)

(** Three enclosures, one of them with a third controller. *)
Definition asym_pv : m0_conf_pver :=
  {| pvs_attr := pvs_attr example_pv; pvs_tolerance := pvs_tolerance example_pv;
     pv_levels := [[1]; [3]; [2; 3; 2]; replicate 7 2; replicate 14 0] |}.

Definition asym_gfid : m0_fid := m0_fid_set 7 4096.

Lemma asym_pv_wf : pv_wf asym_pv 2.
Proof.
  split; [done|]. split; [lia|]. split; [|done].
  split; [change (length (pv_degs asym_pv 2)) with 3%nat; lia|].
  intros d Hd. change (Z.of_nat (length (pv_degs asym_pv 2))) with 3 in Hd.
  assert (d = 0 \/ d = 1 \/ d = 2) as [-> |[-> | ->]] by lia;
    (split; [done|]; split; [by repeat constructor|]; split; [by repeat constructor|]; by split).
Qed.

Lemma asym_degrees c : inner_degree (pv_degs asym_pv 2) c -> c = 2 \/ c = 3.
Proof.
  intros (d & i & Hd & Hi & <-). change (Z.of_nat (length (pv_degs asym_pv 2))) with 3 in Hd.
  destruct (degree_get _ (proj1 (proj2 (proj2 asym_pv_wf))) d i) as [Hg _]; [exact Hd|exact Hi|].
  apply arr_get_Some in Hg as [_ Hg%list_elem_of_lookup_2].
  assert (Forall (fun c => c = 2 \/ c = 3) (deg (pv_degs asym_pv 2) d)) as Hall.
  { assert (d = 0 \/ d = 1 \/ d = 2) as [-> |[-> | ->]] by lia; cbn; repeat constructor; lia. }
  rewrite Forall_forall in Hall. by apply Hall.
Qed.

(** Fresh caches for these degrees. *)
Lemma asym_caches : exists caches,
  caches_ok (pa_seed (pvs_attr asym_pv)) (inner_degree (pv_degs asym_pv 2)) caches.
Proof.
  set (seed := pa_seed (pvs_attr asym_pv)).
  destruct (m0_uint128_init M0_PDCLUST_SEED) as [s0|] eqn:Es; [|vm_compute in Es; discriminate].
  assert (forall len, len = 2 \/ len = 3 -> exists cache, cache_inv seed cache /\ fpc_len cache = len) as Hc.
  { intros len Hlen. destruct (m0_fd_perm_cache_init_ok seed len (rstate_init s0 (m0_fid_set 0 0) 0))
      as (cache & _ & Hinv & Hl); [lia|by rewrite Es| |by exists cache].
    vm_compute in Es. injection Es as <-. destruct Hlen as [-> | ->]; vm_compute; reflexivity. }
  destruct (Hc 2) as (c2 & H2 & Hl2); [by left|]. destruct (Hc 3) as (c3 & H3 & Hl3); [by right|].
  exists [c2; c3]. split; [by apply Forall_cons; split; [|apply Forall_singleton]|].
  intros len [-> | ->]%asym_degrees; [exists c2|exists c3]; (split; [set_solver|done]).
Qed.

Lemma asym_built : exists tile tree,
  m0_fd_tile_build (fun _ => true) true asym_pv (replicate 5 0) = Some (0, 3, Some tile) /\
  m0_fd_tree_build (fun _ => true) (fun _ => true) asym_pv (replicate 5 0) = Some (0, Some tree) /\
  ft_G tile = 6 /\ ft_rows tile = 1 /\ tile_C tile = 2.
Proof.
  destruct (build_pver_ok (fun _ => true) (fun _ => true) asym_pv (replicate 5 0) 2 [3; 2; 2; 1; 0])
    as (tile & tree & H1 & H2 & _).
  - exact asym_pv_wf.
  - done.
  - done.
  - vm_compute. reflexivity.
  - vm_compute. reflexivity.
  - vm_compute. reflexivity.
  - split; vm_compute; congruence.
  - exists tile, tree. split; [exact H1|]. split; [exact H2|].
    vm_compute in H1. injection H1 as <-. split; [reflexivity|]. split; vm_compute; reflexivity.
Qed.

Lemma asym_draws omega : omega ∈ [0; 1; 2] -> forall c, inner_degree (pv_degs asym_pv 2) c ->
  perm_ok c (rstate_init (pa_seed (pvs_attr asym_pv)) asym_gfid omega) = true.
Proof.
  intros Ho c Hc%asym_degrees. rewrite !elem_of_cons in Ho.
  destruct Ho as [->|[->|[->|Ho]]]; [..|by apply not_elem_of_nil in Ho];
    destruct Hc as [-> | ->]; vm_compute; reflexivity.
Qed.

Lemma fd_map_roundtrip_witness :
  exists tile tree caches tgt caches' caches'',
    let pver := {| pv_attr := pvs_attr asym_pv; pv_fd_tile := tile; pv_fd_tree := tree |} in
    m0_fd_fwd_map pver asym_gfid (replicate 5 0) caches {| sa_group := 5; sa_unit := 3 |} = Some (tgt,
      caches') /\
    m0_fd_bwd_map pver asym_gfid (replicate 5 0) caches' tgt = Some ({| sa_group := 5; sa_unit := 3 |},
      caches'').
Proof.
  destruct asym_built as (tile & tree & H1 & H2 & HG & _ & HC). destruct asym_caches as (caches & Hc).
  assert (0 < parity_group_size (pvs_attr asym_pv) <= prodZ (take (Z.to_nat (5 - 2)) [3; 2; 2; 1; 0])) as Hgr
    by (split; vm_compute; congruence).
  destruct (fd_map_roundtrip (fun _ => true) (fun _ => true) asym_pv (replicate 5 0) 2 [3; 2; 2; 1; 0]
    asym_gfid tile tree asym_pv_wf (fun _ => eq_refl) eq_refl eq_refl eq_refl eq_refl
    Hgr H1 H2 eq_refl caches (replicate 5 0) (replicate 5 0)
    {| sa_group := 5; sa_unit := 3 |} Hc eq_refl eq_refl)
    as (tgt & caches' & caches'' & Hf & _ & _ & Hb & _).
  - split; vm_compute; congruence.
  - rewrite HG. cbn [sa_unit]. lia.
  - rewrite HC. apply asym_draws. apply list_elem_of_In. simpl. tauto.
  - exists tile, tree, caches, tgt, caches', caches''. split; [exact Hf|exact Hb].
Defined.

Lemma fd_map_bwd_complete_witness :
  exists tile tree caches src caches',
    let pver := {| pv_attr := pvs_attr asym_pv; pv_fd_tile := tile; pv_fd_tree := tree |} in
    m0_fd_bwd_map pver asym_gfid (replicate 5 0) caches {| ta_frame := 1; ta_obj := 13 |} = Some (src,
      caches').
Proof.
  destruct asym_built as (tile & tree & H1 & H2 & HG & HR & HC). destruct asym_caches as (caches & Hc).
  assert (0 < parity_group_size (pvs_attr asym_pv) <= prodZ (take (Z.to_nat (5 - 2)) [3; 2; 2; 1; 0])) as Hgr
    by (split; vm_compute; congruence).
  destruct (fd_map_bwd_complete (fun _ => true) (fun _ => true) asym_pv (replicate 5 0) 2 [3; 2; 2; 1; 0]
    asym_gfid tile tree asym_pv_wf (fun _ => eq_refl) eq_refl eq_refl eq_refl eq_refl
    Hgr H1 H2 eq_refl caches (replicate 5 0)
    {| ta_frame := 1; ta_obj := 13 |} Hc eq_refl) as (src & caches' & Hb & _).
  - split; vm_compute; congruence.
  - split; vm_compute; congruence.
  - rewrite HR, HC. vm_compute. congruence.
  - rewrite HR. apply asym_draws. apply list_elem_of_In. simpl. tauto.
  - exists tile, tree, caches, src, caches'. exact Hb.
Defined.
