(* ===== verification/RegTree.v ===== *)
(** * be: extents, regions and the tree of regions

    Models src/lib/ext.c (the predicates on extents), struct m0_be_reg
    (src/be/seg.h), and the regions and the region tree of src/be/tx_regmap.c: an
    array of disjoint regions ordered by address, with its binary search.

    Addresses are [Z]s, with the wrap of 64-bit pointer arithmetic; [0] is a null
    pointer. A pointer to a region of a tree is its index in the array, and a
    null pointer to a region is [None]. The assertions are those of a build with
    the expensive checks on (M0_ASSERT_EX_ON). *)
From S2P Require Import Prelude.
#[local] Open Scope motr_scope.

(** ** Definitions *)

(** *** Extents *)

Record m0_ext := { e_start : Z; e_end : Z }.

Definition m0_ext_length (ext : m0_ext) : Z := u64 (e_end ext - e_start ext).

Definition m0_ext_is_in (ext : m0_ext) (index : Z) : bool :=
  (e_start ext <=? index) && (index <? e_end ext).

Definition m0_ext_intersection (e0 e1 : m0_ext) : m0_ext :=
  {| e_start := Z.max (e_start e0) (e_start e1); e_end := Z.min (e_end e0) (e_end e1) |}.

Definition m0_ext_is_valid (ext : m0_ext) : bool := e_start ext <? e_end ext.

Definition m0_ext_are_overlapping (e0 e1 : m0_ext) : bool :=
  m0_ext_is_valid (m0_ext_intersection e0 e1).

Definition m0_ext_is_partof (super sub : m0_ext) : bool :=
  m0_ext_is_in super (e_start sub) && (e_end sub <=? e_end super).

Definition m0_ext_equal (a b : m0_ext) : bool :=
  (e_start a =? e_start b) && (e_end a =? e_end b).

Definition m0_ext_is_empty (ext : m0_ext) : bool := e_end ext <=? e_start ext.

(** *** Regions *)

Record m0_be_reg := { br_seg : Z; br_size : Z; br_addr : Z }.

Definition M0_BE_REG (seg size addr : Z) : m0_be_reg :=
  {| br_seg := seg; br_size := size; br_addr := addr |}.

Definition m0_be_reg_eq (r1 r2 : m0_be_reg) : bool :=
  (br_seg r1 =? br_seg r2) && (br_size r1 =? br_size r2) && (br_addr r1 =? br_addr r2).

Record m0_be_reg_d := { rd_reg : m0_be_reg; rd_buf : Z; rd_gen_idx : Z }.

Definition M0_BE_REG_D (reg : m0_be_reg) (buf : Z) : m0_be_reg_d :=
  {| rd_reg := reg; rd_buf := buf; rd_gen_idx := 0 |}.

Definition REGD_EXT (rd : m0_be_reg_d) : m0_ext :=
  {| e_start := br_addr (rd_reg rd); e_end := u64 (br_addr (rd_reg rd) + br_size (rd_reg rd)) |}.

Definition m0_be_reg_d__invariant (rd : m0_be_reg_d) : bool :=
  negb (br_addr (rd_reg rd) =? 0) && (0 <? br_size (rd_reg rd)).

Definition m0_be_reg_d_is_in (rd : m0_be_reg_d) (ptr : Z) : bool := m0_ext_is_in (REGD_EXT rd) ptr.

Definition be_reg_d_are_overlapping (rd1 rd2 : m0_be_reg_d) : bool :=
  m0_ext_are_overlapping (REGD_EXT rd1) (REGD_EXT rd2).

Definition be_reg_d_is_partof (super sub : m0_be_reg_d) : bool :=
  m0_ext_is_partof (REGD_EXT super) (REGD_EXT sub).

Notation be_reg_d_fb rd := (br_addr (rd_reg rd)) (only parsing).

Notation be_reg_d_fb1 rd := (u64 (be_reg_d_fb rd - 1)) (only parsing).

Definition be_reg_d_lb (rd : m0_be_reg_d) : Z := u64 (br_addr (rd_reg rd) + br_size (rd_reg rd) - 1).

Definition be_reg_d_lb1 (rd : m0_be_reg_d) : Z := u64 (be_reg_d_lb rd + 1).

Notation be_reg_d_size rd := (br_size (rd_reg rd)) (only parsing).

Definition with_reg (rd : m0_be_reg_d) (reg : m0_be_reg) : m0_be_reg_d :=
  {| rd_reg := reg; rd_buf := rd_buf rd; rd_gen_idx := rd_gen_idx rd |}.

Definition with_buf (rd : m0_be_reg_d) (buf : Z) : m0_be_reg_d :=
  {| rd_reg := rd_reg rd; rd_buf := buf; rd_gen_idx := rd_gen_idx rd |}.

(** *** The tree *)

Record m0_be_reg_d_tree := { brt_size : Z; brt_size_max : Z; brt_r : list m0_be_reg_d }.

Definition m0_be_rdt__invariant (rdt : m0_be_reg_d_tree) : bool :=
  let r := brt_r rdt in
  (negb (bool_decide (r = [])) || (brt_size rdt =? 0)) &&
  (brt_size rdt <=? brt_size_max rdt) &&
  m0_forall (brt_size rdt) (fun i =>
    match arr_get r i with Some rd => m0_be_reg_d__invariant rd | None => false end) &&
  m0_forall (if brt_size rdt =? 0 then 0 else brt_size rdt - 1) (fun i =>
    match arr_get r i, arr_get r (i + 1) with
    | Some rd, Some next => br_addr (rd_reg rd) <? br_addr (rd_reg next)
    | _, _ => false
    end) &&
  m0_forall (if brt_size rdt =? 0 then 0 else brt_size rdt - 1) (fun i =>
    match arr_get r i, arr_get r (i + 1) with
    | Some rd, Some next => negb (be_reg_d_are_overlapping rd next)
    | _, _ => false
    end).

(** [mem] is the array m0_alloc_nz() returns. *)
Definition m0_be_rdt_init (mem : option (list m0_be_reg_d)) (rdt : m0_be_reg_d_tree) (size_max : Z)
  : option (Z * m0_be_reg_d_tree) :=
  match mem with
  | None => Some (- ENOMEM, {| brt_size := brt_size rdt; brt_size_max := size_max; brt_r := [] |})
  | Some r =>
      let rdt := {| brt_size := brt_size rdt; brt_size_max := size_max; brt_r := r |} in
      _ ← M0_ASSERT (m0_be_rdt__invariant rdt);
      Some (0, rdt)
  end.

Notation m0_be_rdt_size rdt := (brt_size rdt) (only parsing).

Definition be_rdt_check_i (rdt : m0_be_reg_d_tree) (addr index : Z) : option bool :=
  let r := brt_r rdt in
  let size := m0_be_rdt_size rdt in
  Some ((size =? 0) && (index =? 0)) ||?
  (Some (negb (size =? 0)) &&?
   ((Some (index =? size) &&? (rd ← arr_get r (size - 1); Some (negb (m0_be_reg_d_is_in rd addr))) &&?
     (rd ← arr_get r (size - 1); Some (br_addr (rd_reg rd) <? addr))) ||?
    (Some (index =? 0) &&? ((rd ← arr_get r 0; Some (m0_be_reg_d_is_in rd addr)) ||?
                            (rd ← arr_get r 0; Some (addr <? br_addr (rd_reg rd))))) ||?
    (Some (index <? size) &&? (rd ← arr_get r index; Some (m0_be_reg_d_is_in rd addr))) ||?
    (Some (index <? size) &&? Some (0 <? index) &&?
     (rd ← arr_get r (index - 1); Some (negb (m0_be_reg_d_is_in rd addr))) &&?
     (rd ← arr_get r index; Some (addr <? br_addr (rd_reg rd))) &&?
     (rd ← arr_get r (index - 1); Some (br_addr (rd_reg rd) <? addr))))).

(** The loop of the binary search. *)
Fixpoint find_loop (fuel : nat) (rdt : m0_be_reg_d_tree) (addr begin end_ : Z) : option (Z * Z) :=
  if u64 (begin + 1) <? end_ then
    match fuel with
    | O => None
    | S fuel =>
        let mid := u64 (begin + end_) / 2 in
        _ ← M0_ASSERT ((begin <? mid) && (mid <? end_));
        rd ← arr_get (brt_r rdt) mid;
        if br_addr (rd_reg rd) <? addr then find_loop fuel rdt addr mid end_
        else find_loop fuel rdt addr begin mid
    end
  else Some (begin, end_).

Definition be_rdt_find_i (rdt : m0_be_reg_d_tree) (addr : Z) : option Z :=
  let size := m0_be_rdt_size rdt in
  '(begin, end_) ← find_loop (Z.to_nat size) rdt addr 0 size;
  let res := u64 (size + 1) in
  b ← be_rdt_check_i rdt addr begin;
  let res := if (b : bool) then begin else res in
  b ← be_rdt_check_i rdt addr end_;
  let res := if (b : bool) then end_ else res in
  _ ← M0_ASSERT ((size =? 0) || (res <=? size));
  _ ← M0_ASSERT (m0_be_rdt__invariant rdt);
  b ← be_rdt_check_i rdt addr res;
  _ ← M0_ASSERT (b : bool);
  Some res.

Definition be_rdt_contains (rdt : m0_be_reg_d_tree) (rd : Z) : bool :=
  (0 <=? rd) && (rd <? brt_size rdt).

Definition m0_be_rdt_find (rdt : m0_be_reg_d_tree) (addr : Z) : option (option Z) :=
  _ ← M0_ASSERT (m0_be_rdt__invariant rdt);
  i ← be_rdt_find_i rdt addr;
  let rd := if i =? brt_size rdt then None else Some i in
  _ ← M0_ASSERT (match rd with Some rd => be_rdt_contains rdt rd | None => true end);
  Some rd.

Definition m0_be_rdt_next (rdt : m0_be_reg_d_tree) (prev : Z) : option (option Z) :=
  _ ← M0_ASSERT (m0_be_rdt__invariant rdt);
  _ ← M0_ASSERT (be_rdt_contains rdt prev);
  let rd := if prev =? brt_size rdt - 1 then None else Some (prev + 1) in
  _ ← M0_ASSERT (match rd with Some rd => be_rdt_contains rdt rd | None => true end);
  Some rd.

Definition m0_be_rdt_ins (rdt : m0_be_reg_d_tree) (rd : m0_be_reg_d) : option m0_be_reg_d_tree :=
  _ ← M0_ASSERT (m0_be_rdt__invariant rdt);
  _ ← M0_ASSERT (m0_be_rdt_size rdt <? brt_size_max rdt);
  _ ← M0_ASSERT (0 <? br_size (rd_reg rd));
  index ← be_rdt_find_i rdt (be_reg_d_fb rd);
  let size := brt_size rdt + 1 in
  r ← for_down (size - 1) index (fun i r => x ← arr_get r (i - 1); arr_set r i x) (brt_r rdt);
  r ← arr_set r index rd;
  let rdt := {| brt_size := size; brt_size_max := brt_size_max rdt; brt_r := r |} in
  _ ← M0_ASSERT (m0_be_rdt__invariant rdt);
  Some rdt.

(** Returns the tree and the region after the deleted one. *)
Definition m0_be_rdt_del (rdt : m0_be_reg_d_tree) (rd : m0_be_reg_d)
  : option (m0_be_reg_d_tree * option Z) :=
  _ ← M0_ASSERT (m0_be_rdt__invariant rdt);
  _ ← M0_ASSERT (0 <? m0_be_rdt_size rdt);
  index ← be_rdt_find_i rdt (be_reg_d_fb rd);
  x ← arr_get (brt_r rdt) index;
  _ ← M0_ASSERT (m0_be_reg_eq (rd_reg x) (rd_reg rd));
  r ← for_up index (brt_size rdt - 1) (fun i r => x ← arr_get r (i + 1); arr_set r i x) (brt_r rdt);
  let rdt := {| brt_size := brt_size rdt - 1; brt_size_max := brt_size_max rdt; brt_r := r |} in
  _ ← M0_ASSERT (m0_be_rdt__invariant rdt);
  Some (rdt, if index =? m0_be_rdt_size rdt then None else Some index).

Definition m0_be_rdt_reset (rdt : m0_be_reg_d_tree) : option m0_be_reg_d_tree :=
  _ ← M0_ASSERT (m0_be_rdt__invariant rdt);
  let rdt := {| brt_size := 0; brt_size_max := brt_size_max rdt; brt_r := brt_r rdt |} in
  _ ← M0_ASSERT (m0_be_rdt_size rdt =? 0);
  _ ← M0_ASSERT (m0_be_rdt__invariant rdt);
  Some rdt.

(** ** Reference: disjoint regions in the order of addresses *)

Definition reg_end (rd : m0_be_reg_d) : Z := br_addr (rd_reg rd) + br_size (rd_reg rd).

(** The region is not empty and does not wrap around the address space. *)
Definition reg_wf (rd : m0_be_reg_d) : Prop :=
  0 < br_addr (rd_reg rd) /\ 0 < br_size (rd_reg rd) /\ reg_end rd < 2 ^ 64.

Definition before (rd1 rd2 : m0_be_reg_d) : Prop := reg_end rd1 <= br_addr (rd_reg rd2).

Definition regs_wf (l : list m0_be_reg_d) : Prop := Forall reg_wf l /\ StronglySorted before l.

(** The regions of a tree. *)
Definition rdt_repr (rdt : m0_be_reg_d_tree) (l : list m0_be_reg_d) : Prop :=
  (exists junk, brt_r rdt = l ++ junk) /\ brt_size rdt = Z.of_nat (length l) /\
  brt_size_max rdt = Z.of_nat (length (brt_r rdt)) /\ brt_size_max rdt < 2 ^ 62 /\ regs_wf l.

(** ** Lemmas: regions *)

Lemma lb1_ok rd : reg_wf rd -> be_reg_d_lb1 rd = reg_end rd.
Proof.
  intros (? & ? & ?). unfold be_reg_d_lb1, be_reg_d_lb, reg_end in *.
  rewrite (u64_small (_ - 1)) by (unfold is_u64; lia). rewrite u64_small by (unfold is_u64; lia). lia.
Qed.

Lemma lb_ok rd : reg_wf rd -> be_reg_d_lb rd = reg_end rd - 1.
Proof.
  intros (? & ? & ?). unfold be_reg_d_lb, reg_end in *. rewrite u64_small by (unfold is_u64; lia). lia.
Qed.

Lemma fb1_ok rd : reg_wf rd -> be_reg_d_fb1 rd = br_addr (rd_reg rd) - 1.
Proof.
  intros (? & ? & ?). unfold reg_end in *. rewrite u64_small by (unfold is_u64; lia). lia.
Qed.

Lemma REGD_EXT_ok rd : reg_wf rd -> REGD_EXT rd = {| e_start := br_addr (rd_reg rd); e_end := reg_end rd |}.
Proof. intros (? & ? & ?). unfold REGD_EXT, reg_end in *. f_equal. apply u64_small. unfold is_u64. lia. Qed.

Lemma is_in_ok rd p : reg_wf rd ->
  m0_be_reg_d_is_in rd p = bool_decide (br_addr (rd_reg rd) <= p < reg_end rd).
Proof.
  intros Hwf. unfold m0_be_reg_d_is_in, m0_ext_is_in. rewrite REGD_EXT_ok by done. cbn [e_start e_end].
  case_bool_decide; zcases; (done || lia).
Qed.

Lemma is_partof_ok super sub : reg_wf super -> reg_wf sub ->
  be_reg_d_is_partof super sub =
    bool_decide (br_addr (rd_reg super) <= br_addr (rd_reg sub) /\ reg_end sub <= reg_end super).
Proof.
  intros H1 H2. unfold be_reg_d_is_partof, m0_ext_is_partof, m0_ext_is_in. rewrite !REGD_EXT_ok by done.
  cbn [e_start e_end]. destruct H1 as (? & ? & ?), H2 as (? & ? & ?). unfold reg_end in *.
  case_bool_decide; zcases; (done || lia).
Qed.

Lemma overlapping_ok rd1 rd2 : reg_wf rd1 -> reg_wf rd2 ->
  be_reg_d_are_overlapping rd1 rd2 =
    bool_decide (br_addr (rd_reg rd1) < reg_end rd2 /\ br_addr (rd_reg rd2) < reg_end rd1).
Proof.
  intros H1 H2. unfold be_reg_d_are_overlapping, m0_ext_are_overlapping, m0_ext_is_valid, m0_ext_intersection.
  rewrite !REGD_EXT_ok by done. cbn [e_start e_end]. destruct H1 as (? & ? & ?), H2 as (? & ? & ?).
  unfold reg_end in *. case_bool_decide; zcases; (done || lia).
Qed.

Lemma reg_d_invariant_ok rd : reg_wf rd -> m0_be_reg_d__invariant rd = true.
Proof. intros (? & ? & ?). unfold m0_be_reg_d__invariant. boolp. lia. Qed.

(** ** Lemmas: the array *)

Lemma repr_get rdt l j rd : rdt_repr rdt l -> l !! j = Some rd -> arr_get (brt_r rdt) (Z.of_nat j) = Some rd.
Proof.
  intros ((junk & ->) & _) Hj. apply arr_get_Some. rewrite Nat2Z.id. split; [lia|by apply lookup_app_l_Some].
Qed.

Lemma repr_get_lt rdt l j : rdt_repr rdt l -> 0 <= j < Z.of_nat (length l) ->
  exists rd, arr_get (brt_r rdt) j = Some rd /\ l !! Z.to_nat j = Some rd.
Proof.
  intros Hr Hj. destruct (lookup_lt_is_Some_2 l (Z.to_nat j)) as [rd Hrd]; [lia|]. exists rd. split; [|done].
  replace j with (Z.of_nat (Z.to_nat j)) by lia. by apply (repr_get rdt l).
Qed.

Lemma sorted_lookup (l : list m0_be_reg_d) i j rd1 rd2 :
  StronglySorted before l -> l !! i = Some rd1 -> l !! j = Some rd2 -> (i < j)%nat -> before rd1 rd2.
Proof.
  intros Hs. revert i j. induction Hs as [|x l Hs IH Hall]; intros i j Hi Hj Hlt; [done|].
  destruct j as [|j]; [lia|]. simpl in Hj. destruct i as [|i];
    [injection Hi as ->|by apply (IH i j); [done|done|lia]].
  by eapply Forall_lookup_1.
Qed.

Lemma rdt_invariant_ok rdt l : rdt_repr rdt l -> m0_be_rdt__invariant rdt = true.
Proof.
  intros Hr. pose proof Hr as ((junk & Hjunk) & Hsz & Hmax & _ & Hwf & Hsort). unfold m0_be_rdt__invariant.
  rewrite !andb_true_iff, !m0_forall_true, Hsz. split_and!.
  - destruct l as [|x l]; [by rewrite orb_true_r|]. rewrite bool_decide_false; [done|]. by rewrite Hjunk.
  - rewrite Hmax, Hjunk, length_app. apply Z.leb_le. lia.
  - intros i Hi. destruct (repr_get_lt rdt l i Hr) as (rd & -> & Hrd); [lia|].
    apply reg_d_invariant_ok. by apply (Forall_lookup_1 _ _ _ _ Hwf Hrd).
  - intros i Hi. assert (0 <= i /\ i + 1 < Z.of_nat (length l)) as Hi'
      by (destruct (Z.eqb_spec (Z.of_nat (length l)) 0); lia).
    destruct (repr_get_lt rdt l i Hr) as (rd & -> & Hrd); [lia|].
    destruct (repr_get_lt rdt l (i + 1) Hr) as (rd' & -> & Hrd'); [lia|].
    pose proof (sorted_lookup l _ _ _ _ Hsort Hrd Hrd' ltac:(lia)) as Hb.
    pose proof (Forall_lookup_1 _ _ _ _ Hwf Hrd) as (? & ? & ?). unfold before, reg_end in *. lia.
  - intros i Hi. assert (0 <= i /\ i + 1 < Z.of_nat (length l)) as Hi'
      by (destruct (Z.eqb_spec (Z.of_nat (length l)) 0); lia).
    destruct (repr_get_lt rdt l i Hr) as (rd & -> & Hrd); [lia|].
    destruct (repr_get_lt rdt l (i + 1) Hr) as (rd' & -> & Hrd'); [lia|].
    pose proof (sorted_lookup l _ _ _ _ Hsort Hrd Hrd' ltac:(lia)) as Hb. unfold before in Hb.
    rewrite overlapping_ok by (by eapply Forall_lookup_1). rewrite bool_decide_false; [done|]. lia.
Qed.

(** ** Lemmas: the search *)

(** [l1] are the regions that end at or before [addr], [l2] the others. *)
Definition split_at (addr : Z) (l1 l2 : list m0_be_reg_d) : Prop :=
  Forall (fun rd => reg_end rd <= addr) l1 /\ Forall (fun rd => addr < reg_end rd) l2.

Section search.
Context (rdt : m0_be_reg_d_tree) (l1 l2 : list m0_be_reg_d) (addr : Z).
Hypothesis Hrepr : rdt_repr rdt (l1 ++ l2).
Hypothesis Hsplit : split_at addr l1 l2.
Let pos := Z.of_nat (length l1).
Let size := Z.of_nat (length (l1 ++ l2)).

(** Which side of [addr] a region of the tree is on. *)
Lemma side_get j : 0 <= j < size ->
  exists rd, arr_get (brt_r rdt) j = Some rd /\ reg_wf rd /\
    (if j <? pos then reg_end rd <= addr else addr < reg_end rd).
Proof.
  intros Hj. destruct (repr_get_lt rdt _ j Hrepr) as (rd & Hget & Hl); [done|]. exists rd. split; [done|].
  pose proof Hrepr as (_ & _ & _ & _ & Hwf & _). split; [by apply (Forall_lookup_1 _ _ _ _ Hwf Hl)|].
  destruct Hsplit as [H1 H2]. apply lookup_app_Some in Hl as [Hl|[Hlen Hl]].
  - pose proof (lookup_lt_Some _ _ _ Hl). destruct (Z.ltb_spec j pos); [|unfold pos in *; lia].
    apply (Forall_lookup_1 _ _ _ _ H1 Hl).
  - destruct (Z.ltb_spec j pos); [unfold pos in *; lia|]. apply (Forall_lookup_1 _ _ _ _ H2 Hl).
Qed.

Lemma side_order i j rd rd' : 0 <= i < j -> j < size ->
  arr_get (brt_r rdt) i = Some rd -> arr_get (brt_r rdt) j = Some rd' -> before rd rd'.
Proof.
  intros Hi Hj Hrd Hrd'. pose proof Hrepr as (_ & _ & _ & _ & _ & Hsort).
  destruct (repr_get_lt rdt _ i Hrepr) as (x & Hx & Hlx); [unfold size in *; lia|].
  destruct (repr_get_lt rdt _ j Hrepr) as (y & Hy & Hly); [unfold size in *; lia|].
  rewrite Hrd in Hx. rewrite Hrd' in Hy. injection Hx as <-. injection Hy as <-.
  apply (sorted_lookup _ _ _ _ _ Hsort Hlx Hly). lia.
Qed.

(** be_rdt_check_i() recognises the one right index. *)
Lemma check_i_ok index : 0 <= index <= size -> be_rdt_check_i rdt addr index = Some (index =? pos).
Proof.
  intros Hi. pose proof Hrepr as (_ & Hsz & _). fold size in Hsz.
  assert (pos <= size) as Hps by (unfold pos, size; rewrite length_app; lia).
  assert (0 <= pos) by (unfold pos; lia).
  unfold be_rdt_check_i. rewrite Hsz. destruct (Z.eqb_spec size 0) as [Hs0|Hs0].
  { cbn [andb or_else]. replace index with 0 by lia. replace pos with 0 by lia. done. }
  cbn [andb or_else negb and_then].
  destruct (side_get (size - 1)) as (last & Hlast & Hwl & Hsl); [lia|].
  destruct (side_get 0) as (first & Hfirst & Hwf0 & Hsf); [lia|].
  rewrite Hlast, Hfirst. cbn [mbind option_bind]. rewrite !is_in_ok by done.
  pose proof Hwl as (? & ? & ?). pose proof Hwf0 as (? & ? & ?). unfold reg_end in *.
  destruct (Z.eqb_spec index size) as [->|Hne].
  { destruct (Z.ltb_spec (size - 1) pos); destruct (Z.eqb_spec size 0); try lia;
      destruct (Z.eqb_spec size pos); try lia; repeat case_bool_decide; cbn [negb and_then or_else];
      rewrite ?Z.ltb_irrefl; cbn [and_then or_else]; zcases; cbn [and_then or_else]; try done; lia. }
  destruct (side_get index) as (rd & Hrd & Hw & Hs); [lia|]. pose proof Hw as (? & ? & ?).
  rewrite (proj2 (Z.ltb_lt index size)) by lia. rewrite Hrd. cbn [mbind option_bind and_then or_else].
  rewrite is_in_ok by done. unfold reg_end in *. destruct (Z.eqb_spec index 0) as [->|Hn0].
  { rewrite Hfirst in Hrd. injection Hrd as <-. rewrite Z.ltb_irrefl. cbn [and_then].
    destruct (Z.ltb_spec 0 pos); destruct (Z.eqb_spec 0 pos); try lia;
      repeat case_bool_decide; cbn [and_then or_else]; zcases; cbn [and_then or_else]; try done; lia. }
  destruct (side_get (index - 1)) as (prev & Hprev & Hwp & Hsp); [lia|]. pose proof Hwp as (? & ? & ?).
  pose proof (side_order (index - 1) index prev rd ltac:(lia) ltac:(lia) Hprev Hrd) as Hb.
  rewrite (proj2 (Z.ltb_lt 0 index)) by lia. rewrite Hprev. cbn [mbind option_bind and_then or_else].
  rewrite is_in_ok by done. unfold before, reg_end in *.
  destruct (Z.ltb_spec index pos), (Z.ltb_spec (index - 1) pos), (Z.eqb_spec index pos); try lia;
    repeat case_bool_decide; cbn [negb and_then or_else]; zcases; cbn [and_then or_else]; try done; lia.
Qed.

Lemma find_loop_ok fuel begin end_ :
  0 <= begin <= pos -> pos <= end_ <= size -> end_ - begin <= Z.of_nat fuel + 1 ->
  exists begin' end', find_loop fuel rdt addr begin end_ = Some (begin', end') /\
    0 <= begin' <= pos /\ pos <= end' <= size /\ end' <= begin' + 1.
Proof.
  assert (pos <= size) as Hps by (unfold pos, size; rewrite length_app; lia).
  pose proof Hrepr as (_ & Hsz & Hmax & Hb & _). destruct Hrepr as ((junk & Hjunk) & _).
  assert (size < 2 ^ 62) as Hs62.
  { rewrite Hmax, Hjunk, length_app in Hb. unfold size. lia. }
  revert begin end_. induction fuel as [|fuel IH]; intros begin end_ Hbeg Hend Hf; cbn [find_loop];
    rewrite (u64_small (begin + 1)) by (unfold is_u64; lia); destruct (Z.ltb_spec (begin + 1) end_);
    try lia; try (exists begin, end_; split; [done|lia]).
  rewrite u64_small by (unfold is_u64; lia).
  pose proof (Z.div_mod (begin + end_) 2). pose proof (Z.mod_pos_bound (begin + end_) 2).
  assert (begin < (begin + end_) / 2 < end_) as Hmid by lia.
  set (mid := (begin + end_) / 2) in *. clearbody mid.
  assert_ok by (apply andb_true_iff; split; apply Z.ltb_lt; lia).
  destruct (side_get mid) as (rd & Hrd & Hw & Hs); [lia|]. run Hrd. destruct Hw as (? & ? & ?).
  unfold reg_end in *.
  destruct (Z.ltb_spec (br_addr (rd_reg rd)) addr).
  - apply IH; [|lia|lia]. split; [lia|]. destruct (Z.ltb_spec mid pos) as [|Hge]; [lia|].
    destruct (Z.eq_dec mid pos); [lia|].
    destruct (side_get (mid - 1)) as (prev & Hprev & Hwp & Hsp); [lia|].
    pose proof (side_order (mid - 1) mid prev rd ltac:(lia) ltac:(lia) Hprev Hrd) as Hbef.
    unfold before in Hbef. destruct (Z.ltb_spec (mid - 1) pos); lia.
  - apply IH; [lia| |lia]. destruct (Z.ltb_spec mid pos); lia.
Qed.

(** be_rdt_find_i() returns the index of the first region that ends after
    [addr]. *)
Lemma find_i_ok : be_rdt_find_i rdt addr = Some pos.
Proof.
  assert (pos <= size) as Hps by (unfold pos, size; rewrite length_app; lia).
  assert (0 <= pos) by (unfold pos; lia).
  pose proof Hrepr as (_ & Hsz & _). fold size in Hsz. unfold be_rdt_find_i. rewrite Hsz.
  destruct (find_loop_ok (Z.to_nat size) 0 size) as (b & e & Hrun & Hb & He & Hbe); [lia|lia|lia|].
  run Hrun. run (check_i_ok b) by lia. run (check_i_ok e) by lia.
  assert ((if e =? pos then e else if b =? pos then b else u64 (size + 1)) = pos) as Hres
    by (destruct (Z.eqb_spec e pos), (Z.eqb_spec b pos); lia).
  rewrite Hres. assert_ok by (apply orb_true_iff; right; apply Z.leb_le; lia).
  assert_ok by (by apply (rdt_invariant_ok rdt _ Hrepr)). run (check_i_ok pos) by lia.
  rewrite Z.eqb_refl. done.
Qed.

Lemma rdt_find_ok : m0_be_rdt_find rdt addr = Some (match l2 with [] => None | _ => Some pos end).
Proof.
  unfold m0_be_rdt_find. assert_ok by (by apply (rdt_invariant_ok rdt _ Hrepr)). run find_i_ok.
  pose proof Hrepr as (_ & Hsz & _). rewrite Hsz, length_app. fold size in Hsz. fold pos.
  destruct l2 as [|x l]; cbn [length].
  - rewrite (proj2 (Z.eqb_eq _ _)) by (unfold pos; lia). by assert_ok by done.
  - rewrite (proj2 (Z.eqb_neq _ _)) by (unfold pos; lia). assert_ok by (unfold be_rdt_contains;
      rewrite Hsz; apply andb_true_iff; split; [apply Z.leb_le|apply Z.ltb_lt]; unfold pos, size;
      rewrite ?length_app; simpl; lia). done.
Qed.

End search.

(** Every address splits the regions. *)
Lemma split_at_exists addr l : regs_wf l -> exists l1 l2, l = l1 ++ l2 /\ split_at addr l1 l2.
Proof.
  intros [Hwf Hsort]. induction Hsort as [|x l Hs IH Hall]; [by exists [], []|].
  apply Forall_cons in Hwf as [Hx Hl]. destruct (decide (reg_end x <= addr)) as [Hle|Hgt].
  - destruct (IH Hl) as (l1 & l2 & -> & H1 & H2). exists (x :: l1), l2. split; [done|].
    split; [by constructor|done].
  - exists [], (x :: l). split; [done|]. split; [constructor|]. constructor; [lia|].
    rewrite Forall_forall in Hall |- *. intros y Hy. specialize (Hall y Hy).
    rewrite Forall_forall in Hl. destruct (Hl y Hy) as (? & ? & _), Hx as (? & ? & _).
    unfold before, reg_end in *. lia.
Qed.

(** ** Lemmas: updates *)

Lemma regs_wf_middle l1 rd l2 :
  regs_wf (l1 ++ rd :: l2) <->
  regs_wf (l1 ++ l2) /\ reg_wf rd /\ Forall (fun x => before x rd) l1 /\ Forall (before rd) l2.
Proof.
  unfold regs_wf. rewrite !Forall_app, Forall_cons. induction l1 as [|x l1 IH]; cbn [app].
  { rewrite !Forall_nil. split; [|intros ([Hw Hs] & Hr & _ & Hb); split; [tauto|by constructor]].
    intros [(_ & Hr & Hw) Hs]. apply StronglySorted_inv in Hs as [Hs Hb]. tauto. }
  rewrite !Forall_cons. split.
  - intros [([Hx Hw1] & Hr & Hw2) Hs]. apply StronglySorted_inv in Hs as [Hs Hb].
    destruct (proj1 IH) as (([H1 H2] & H3) & H4 & H5 & H6); [done|].
    apply Forall_app in Hb as [Hb1 [Hbr Hb2]%Forall_cons]. split_and!; try done.
    constructor; [done|]. by apply Forall_app.
  - intros ([([Hx Hw1] & Hw2) Hs] & Hr & [Hxr Hb] & Hrb). apply StronglySorted_inv in Hs as [Hs Hbx].
    apply Forall_app in Hbx as [Hb1 Hb2].
    destruct (proj2 IH) as [_ Hs']; [by split_and!|]. split; [by split_and!|]. constructor; [done|].
    apply Forall_app. split; [done|]. by constructor.
Qed.

Lemma split_at_middle l1 rd l2 : regs_wf (l1 ++ rd :: l2) -> split_at (be_reg_d_fb rd) l1 (rd :: l2).
Proof.
  intros Hwf. apply regs_wf_middle in Hwf as ([Hw _] & (? & ? & ?) & Hl & Hr). split; [done|].
  constructor; [unfold reg_end; lia|]. apply Forall_app in Hw as [_ Hw2].
  rewrite Forall_forall in Hr, Hw2 |- *. intros y Hy. specialize (Hr y Hy).
  destruct (Hw2 y Hy) as (? & ? & ?).
  unfold before, reg_end in *. lia.
Qed.

Lemma rdt_ins_ok rdt l1 l2 rd :
  rdt_repr rdt (l1 ++ l2) -> split_at (be_reg_d_fb rd) l1 l2 -> regs_wf (l1 ++ rd :: l2) ->
  brt_size rdt < brt_size_max rdt ->
  exists rdt', m0_be_rdt_ins rdt rd = Some rdt' /\ rdt_repr rdt' (l1 ++ rd :: l2) /\
    brt_size_max rdt' = brt_size_max rdt.
Proof.
  intros Hr Hsplit Hwf Hlt. pose proof Hr as ((junk & Hjunk) & Hsz & Hmax & Hb & _).
  unfold m0_be_rdt_ins. assert_ok by (by apply (rdt_invariant_ok rdt _ Hr)).
  assert_ok by lia. pose proof (proj1 Hwf) as [_ [(_ & Hpos & _) _]%Forall_cons]%Forall_app. assert_ok by lia.
  run (find_i_ok rdt l1 l2 (be_reg_d_fb rd) Hr Hsplit).
  rewrite Hmax, Hjunk, Hsz, !length_app in Hlt. destruct junk as [|x junk]; [simpl in Hlt; lia|].
  destruct (shift_right_ok l1 l2 junk x (brt_size rdt + 1 - 1) (Z.of_nat (length l1))) as (c & Hshift);
    [done|rewrite Hsz, length_app; lia|].
  rewrite Hjunk, <- app_assoc. run Hshift. run arr_set_middle by done.
  match goal with |- context [Some ?t] => set (rdt' := t) end.
  assert (rdt_repr rdt' (l1 ++ rd :: l2)) as Hr'.
  { rewrite Hmax, Hjunk in Hb. unfold rdt'. split; [exists junk; cbn [brt_r]; by rewrite <- app_assoc|].
    cbn [brt_size brt_size_max brt_r]. rewrite Hmax, Hjunk, Hsz, !length_app in *. cbn [length] in *.
    rewrite !length_app in *. split; [lia|]. split; [lia|]. split; [lia|done]. }
  assert_ok by (by apply (rdt_invariant_ok rdt' _ Hr')). by exists rdt'.
Qed.

Lemma rdt_del_ok rdt l1 rd' l2 rd :
  rdt_repr rdt (l1 ++ rd' :: l2) -> rd_reg rd' = rd_reg rd ->
  exists rdt', m0_be_rdt_del rdt rd =
      Some (rdt', match l2 with [] => None | _ => Some (Z.of_nat (length l1)) end) /\
    rdt_repr rdt' (l1 ++ l2) /\ brt_size_max rdt' = brt_size_max rdt.
Proof.
  intros Hr Heq. pose proof Hr as ((junk & Hjunk) & Hsz & Hmax & Hb & Hwf).
  unfold m0_be_rdt_del. assert_ok by (by apply (rdt_invariant_ok rdt _ Hr)).
  assert_ok by (apply Z.ltb_lt; rewrite Hsz, length_app; cbn [length]; lia).
  rewrite <- Heq.
  run (find_i_ok rdt l1 (rd' :: l2) (be_reg_d_fb rd') Hr (split_at_middle _ _ _ Hwf)).
  rewrite Hjunk, <- app_assoc. cbn [app]. run arr_get_middle by done. rewrite Heq.
  assert_ok by (unfold m0_be_reg_eq; by rewrite !Z.eqb_refl).
  destruct (shift_left_ok l1 l2 junk rd' (Z.of_nat (length l1)) (brt_size rdt - 1)) as (c & Hshift);
    [done|rewrite Hsz, length_app; simpl; lia|].
  run Hshift. match goal with |- context [Some (?t, _)] => set (rdt' := t) end.
  assert (rdt_repr rdt' (l1 ++ l2)) as Hr'.
  { rewrite Hmax, Hjunk in Hb. apply regs_wf_middle in Hwf as [Hwf _]. unfold rdt'.
    split; [exists (c :: junk); cbn [brt_r]; by rewrite <- app_assoc|].
    cbn [brt_size brt_size_max brt_r]. rewrite Hmax, Hjunk, Hsz, !length_app in *. cbn [length] in *.
    rewrite ?length_app in *. cbn [length] in *. split; [lia|]. split; [lia|]. split; [lia|done]. }
  assert_ok by (by apply (rdt_invariant_ok rdt' _ Hr')). exists rdt'. split; [|done]. do 2 f_equal.
  pose proof Hr' as (_ & -> & _). rewrite length_app. destruct l2; cbn [length].
  - rewrite (proj2 (Z.eqb_eq _ _)) by lia. done.
  - rewrite (proj2 (Z.eqb_neq _ _)) by lia. done.
Qed.

Lemma rdt_next_ok rdt l1 rd l2 :
  rdt_repr rdt (l1 ++ rd :: l2) ->
  m0_be_rdt_next rdt (Z.of_nat (length l1)) =
    Some (match l2 with [] => None | _ => Some (Z.of_nat (length l1) + 1) end).
Proof.
  intros Hr. pose proof Hr as (_ & Hsz & _). unfold m0_be_rdt_next, be_rdt_contains.
  assert_ok by (by apply (rdt_invariant_ok rdt _ Hr)). rewrite Hsz, length_app.
  assert_ok by (apply andb_true_iff; split; [apply Z.leb_le|apply Z.ltb_lt]; simpl; lia).
  destruct l2; cbn [length].
  - rewrite (proj2 (Z.eqb_eq _ _)) by lia. by assert_ok by done.
  - rewrite (proj2 (Z.eqb_neq _ _)) by lia.
    by assert_ok by (apply andb_true_iff; split; [apply Z.leb_le|apply Z.ltb_lt]; lia).
Qed.

(** ** Properties *)

(** m0_be_rdt_find() on a tree of any number of disjoint regions: the binary
    search terminates without failing an assertion and returns the first region
    that contains the address or lies behind it, and NULL exactly when all the
    regions end at or before the address. *)
Theorem rdt_find_spec rdt l addr :
  rdt_repr rdt l ->
  exists r, m0_be_rdt_find rdt addr = Some r /\
    match r with
    | None => Forall (fun x => reg_end x <= addr) l
    | Some i => 0 <= i /\
        (exists rd, l !! Z.to_nat i = Some rd /\ addr < reg_end rd) /\
        Forall (fun x => reg_end x <= addr) (take (Z.to_nat i) l)
    end.
Proof.
  intros Hr. pose proof Hr as (_ & _ & _ & _ & Hwf).
  destruct (split_at_exists addr l Hwf) as (l1 & l2 & -> & Hs). rewrite (rdt_find_ok rdt l1 l2 addr Hr Hs).
  eexists. split; [done|]. destruct Hs as [H1 H2]. destruct l2 as [|x l2]; [by rewrite app_nil_r|].
  split; [lia|]. rewrite Nat2Z.id, take_app_length. split; [|done].
  exists x. split; [by apply list_lookup_middle|]. by apply Forall_cons in H2 as [? _].
Qed.

Definition example_tree : m0_be_reg_d_tree :=
  {| brt_size := 3; brt_size_max := 4;
     brt_r := [M0_BE_REG_D (M0_BE_REG 1 10 100) 0; M0_BE_REG_D (M0_BE_REG 1 10 110) 0;
               M0_BE_REG_D (M0_BE_REG 1 10 200) 0; M0_BE_REG_D (M0_BE_REG 0 0 0) 0] |}.

Lemma example_tree_repr : rdt_repr example_tree (take 3 (brt_r example_tree)).
Proof.
  split; [by exists [M0_BE_REG_D (M0_BE_REG 0 0 0) 0]|]. split; [done|]. split; [done|]. split; [done|].
  split; repeat constructor; vm_compute; congruence.
Qed.

Lemma rdt_find_spec_witness : exists r, m0_be_rdt_find example_tree 115 = Some r /\ r = Some 1.
Proof.
  destruct (rdt_find_spec example_tree (take 3 (brt_r example_tree)) 115 example_tree_repr) as (r & Hrun & _).
  exists r. split; [exact Hrun|]. vm_compute in Hrun. congruence.
Defined.
