(* ===== verification/TxCredit.v ===== *)
(** * be: transaction credits

    Models struct m0_be_tx_credit and the operations of src/be/tx_credit.c, with
    the per-user balances kept in user space (M0_DEBUG_BE_CREDITS). *)
From S2P Require Import Prelude.

(** ** Definitions *)

Definition M0_BE_CU_NR : Z := 5.

Record m0_be_tx_credit := {
  tc_reg_nr : Z;
  tc_reg_size : Z;
  tc_cb_nr : Z;
  tc_balance : list Z
}.

Definition M0_BE_TX_CB_CREDIT (nr size cb_count : Z) : m0_be_tx_credit :=
  {| tc_reg_nr := nr; tc_reg_size := size; tc_cb_nr := cb_count;
     tc_balance := replicate (Z.to_nat M0_BE_CU_NR) 0 |}.

Definition M0_BE_TX_CREDIT (nr size : Z) : m0_be_tx_credit := M0_BE_TX_CB_CREDIT nr size 0.

Definition m0_be_tx_credit_add (c0 c1 : m0_be_tx_credit) : m0_be_tx_credit :=
  {| tc_reg_nr := u64 (tc_reg_nr c0 + tc_reg_nr c1);
     tc_reg_size := u64 (tc_reg_size c0 + tc_reg_size c1);
     tc_cb_nr := u64 (tc_cb_nr c0 + tc_cb_nr c1);
     tc_balance := zip_with (fun b0 b1 => u32 (b0 + b1)) (tc_balance c0) (tc_balance c1) |}.

Definition m0_be_tx_credit_sub (c0 c1 : m0_be_tx_credit) : option m0_be_tx_credit :=
  _ ← M0_ASSERT (tc_reg_nr c1 <=? tc_reg_nr c0);
  _ ← M0_ASSERT (tc_reg_size c1 <=? tc_reg_size c0);
  _ ← M0_ASSERT (forallb id (zip_with (fun b0 b1 => b1 <=? b0) (tc_balance c0) (tc_balance c1)));
  Some {| tc_reg_nr := u64 (tc_reg_nr c0 - tc_reg_nr c1);
          tc_reg_size := u64 (tc_reg_size c0 - tc_reg_size c1);
          tc_cb_nr := u64 (tc_cb_nr c0 - tc_cb_nr c1);
          tc_balance := zip_with (fun b0 b1 => u32 (b0 - b1)) (tc_balance c0) (tc_balance c1) |}.

Definition m0_be_tx_credit_mul (c : m0_be_tx_credit) (k : Z) : m0_be_tx_credit :=
  {| tc_reg_nr := u64 (tc_reg_nr c * k);
     tc_reg_size := u64 (tc_reg_size c * k);
     tc_cb_nr := u64 (tc_cb_nr c * k);
     tc_balance := (fun b => u32 (b * k)) <$> tc_balance c |}.

Definition m0_be_tx_credit_mul_bp (c : m0_be_tx_credit) (bp : Z) : m0_be_tx_credit :=
  {| tc_reg_nr := u64 (tc_reg_nr c * bp) / 10000;
     tc_reg_size := u64 (tc_reg_size c * bp) / 10000;
     tc_cb_nr := u64 (tc_cb_nr c * bp) / 10000;
     tc_balance := tc_balance c |}.

Definition m0_be_tx_credit_mac (c c1 : m0_be_tx_credit) (k : Z) : m0_be_tx_credit :=
  m0_be_tx_credit_add c (m0_be_tx_credit_mul c1 k).

Definition m0_be_tx_credit_le (c0 c1 : m0_be_tx_credit) : bool :=
  (tc_reg_nr c0 <=? tc_reg_nr c1) && (tc_reg_size c0 <=? tc_reg_size c1).

Definition m0_be_tx_credit_eq (c0 c1 : m0_be_tx_credit) : bool :=
  (tc_reg_nr c0 =? tc_reg_nr c1) && (tc_reg_size c0 =? tc_reg_size c1).

Definition m0_be_tx_credit_max (c0 c1 : m0_be_tx_credit) : m0_be_tx_credit :=
  M0_BE_TX_CB_CREDIT (Z.max (tc_reg_nr c0) (tc_reg_nr c1)) (Z.max (tc_reg_size c0) (tc_reg_size c1))
                     (Z.max (tc_cb_nr c0) (tc_cb_nr c1)).

Definition m0_be_tx_credit_add_max (c c0 c1 : m0_be_tx_credit) : m0_be_tx_credit :=
  m0_be_tx_credit_add c (m0_be_tx_credit_max c0 c1).

(** ** Lemmas *)

(** The fields of a credit fit their type. *)
Definition credit_wf (c : m0_be_tx_credit) : Prop :=
  is_u64 (tc_reg_nr c) /\ is_u64 (tc_reg_size c) /\ is_u64 (tc_cb_nr c) /\
  length (tc_balance c) = Z.to_nat M0_BE_CU_NR /\ Forall is_u32 (tc_balance c).
