(* ===== verification/RegMap.v ===== *)
(** * be: maps of regions

    Models struct m0_be_regmap of src/be/tx_regmap.c: a map that keeps its regions
    disjoint while regions are added and deleted.

    The operations a map calls on its regions are a record over the type of the
    data they act on; class [RegmapOpsLaws] says what the map relies on, and the
    areas of captured regions implement it. *)
From S2P Require Import Prelude RegTree.
#[local] Open Scope motr_scope.

(** ** Definitions: the map *)

Record m0_be_regmap_ops (St : Type) := {
  rmo_add : St -> m0_be_reg_d -> option (St * m0_be_reg_d);
  rmo_del : St -> m0_be_reg_d -> option St;
  rmo_cpy : St -> m0_be_reg_d -> m0_be_reg_d -> option St;
  rmo_cut : St -> m0_be_reg_d -> Z -> Z -> option (St * m0_be_reg_d);
  rmo_split : St -> m0_be_reg_d -> m0_be_reg_d -> option (St * m0_be_reg_d)
}.
#[global] Arguments rmo_add {St}.
#[global] Arguments rmo_del {St}.
#[global] Arguments rmo_cpy {St}.
#[global] Arguments rmo_cut {St}.
#[global] Arguments rmo_split {St}.

Record m0_be_regmap (St : Type) := {
  br_rdt : m0_be_reg_d_tree;
  br_ops_data : St;
  br_split_on_absorb : bool
}.
#[global] Arguments br_rdt {St}.
#[global] Arguments br_ops_data {St}.
#[global] Arguments br_split_on_absorb {St}.
#[global] Arguments Build_m0_be_regmap {St}.

Definition m0_be_regmap_init {St} (mem : option (list m0_be_reg_d)) (rdt : m0_be_reg_d_tree)
    (ops_data : St) (size_max : Z) (split_on_absorb : bool) : option (Z * m0_be_regmap St) :=
  '(rc, rdt) ← m0_be_rdt_init mem rdt size_max;
  let rm := {| br_rdt := rdt; br_ops_data := ops_data; br_split_on_absorb := split_on_absorb |} in
  _ ← M0_ASSERT (negb (rc =? 0) || m0_be_rdt__invariant (br_rdt rm));
  Some (rc, rm).

Notation m0_be_regmap__invariant rm := (m0_be_rdt__invariant (br_rdt rm)) (only parsing).

Definition with_rdt {St} (rm : m0_be_regmap St) (rdt : m0_be_reg_d_tree) : m0_be_regmap St :=
  {| br_rdt := rdt; br_ops_data := br_ops_data rm; br_split_on_absorb := br_split_on_absorb rm |}.

Definition with_data {St} (rm : m0_be_regmap St) (data : St) : m0_be_regmap St :=
  {| br_rdt := br_rdt rm; br_ops_data := data; br_split_on_absorb := br_split_on_absorb rm |}.

(** The region a pointer into the tree points to, and its update. *)
Definition rdi_get {St} (rm : m0_be_regmap St) (rdi : Z) : option m0_be_reg_d :=
  arr_get (brt_r (br_rdt rm)) rdi.

Definition rdi_set {St} (rm : m0_be_regmap St) (rdi : Z) (rd : m0_be_reg_d) : option (m0_be_regmap St) :=
  let rdt := br_rdt rm in
  r ← arr_set (brt_r rdt) rdi rd;
  Some (with_rdt rm {| brt_size := brt_size rdt; brt_size_max := brt_size_max rdt; brt_r := r |}).

Section regmap.
Context {St : Type} (ops : m0_be_regmap_ops St).

(** [uninit] is the content of the uninitialised variable [rd_new] of
    m0_be_regmap_add(). *)
Context (uninit : m0_be_reg_d).

Definition be_regmap_find_fb (rm : m0_be_regmap St) (rd : m0_be_reg_d) : option (option Z) :=
  m0_be_rdt_find (br_rdt rm) (be_reg_d_fb rd).

Definition be_regmap_reg_d_cut (rm : m0_be_regmap St) (rdi cut_start cut_end : Z)
  : option (m0_be_regmap St) :=
  rd ← rdi_get rm rdi;
  _ ← M0_ASSERT (m0_be_reg_d__invariant rd);
  _ ← M0_ASSERT (u64 (cut_start + cut_end) <? br_size (rd_reg rd));
  '(data, rd) ← rmo_cut ops (br_ops_data rm) rd cut_start cut_end;
  let r := rd_reg rd in
  let r := {| br_seg := br_seg r; br_size := u64 (br_size r - cut_start);
              br_addr := u64 (br_addr r + cut_start) |} in
  let r := {| br_seg := br_seg r; br_size := u64 (br_size r - cut_end); br_addr := br_addr r |} in
  let rd := with_reg rd r in
  _ ← M0_ASSERT (m0_be_reg_d__invariant rd);
  rdi_set (with_data rm data) rdi rd.

(** Returns the map and [rd_new]. *)
Definition be_regmap_reg_d_split (rm : m0_be_regmap St) (rdi : Z) (rd : m0_be_reg_d)
  : option (m0_be_regmap St * m0_be_reg_d) :=
  x ← rdi_get rm rdi;
  let rdi_before_rd := u64 (be_reg_d_fb rd - be_reg_d_fb x) in
  let rdi_after_rd := u64 (be_reg_d_lb1 x - be_reg_d_lb1 rd) in
  _ ← M0_ASSERT ((0 <? rdi_before_rd) && (0 <? rdi_after_rd));
  let rd_new := with_reg uninit (M0_BE_REG 0 rdi_after_rd (be_reg_d_lb1 rd)) in
  rm ← be_regmap_reg_d_cut rm rdi 0 rdi_after_rd;
  x ← rdi_get rm rdi;
  '(data, rd_new) ← rmo_split ops (br_ops_data rm) x rd_new;
  Some (with_data rm data, rd_new).

(** [while (rdi != NULL && be_reg_d_is_partof(rd, rdi))] *)
Fixpoint del_loop (fuel : nat) (rm : m0_be_regmap St) (rd : m0_be_reg_d) (rdi : option Z)
  : option (m0_be_regmap St * option Z) :=
  match rdi with
  | None => Some (rm, None)
  | Some i =>
      x ← rdi_get rm i;
      if be_reg_d_is_partof rd x then
        match fuel with
        | O => None
        | S fuel =>
            data ← rmo_del ops (br_ops_data rm) x;
            '(rdt, rdi) ← m0_be_rdt_del (br_rdt rm) x;
            del_loop fuel (with_rdt (with_data rm data) rdt) rd rdi
        end
      else Some (rm, rdi)
  end.

(** The first intersection. *)
Definition del_first (rm : m0_be_regmap St) (rd : m0_be_reg_d) (rdi : option Z)
  : option (m0_be_regmap St * option Z) :=
  match rdi with
  | None => Some (rm, None)
  | Some i =>
      x ← rdi_get rm i;
      if m0_be_reg_d_is_in x (be_reg_d_fb rd) && negb (m0_be_reg_d_is_in x (be_reg_d_lb1 rd)) &&
         negb (be_reg_d_is_partof rd x) then
        let cut := be_reg_d_size x in
        let cut := u64 (cut - u64 (be_reg_d_fb rd - be_reg_d_fb x)) in
        rm ← be_regmap_reg_d_cut rm i 0 cut;
        rdi ← m0_be_rdt_next (br_rdt rm) i;
        Some (rm, rdi)
      else Some (rm, rdi)
  end.

(** The last intersection. *)
Definition del_last (rm : m0_be_regmap St) (rd : m0_be_reg_d) (rdi : option Z) : option (m0_be_regmap St) :=
  match rdi with
  | None => Some rm
  | Some i =>
      x ← rdi_get rm i;
      if negb (m0_be_reg_d_is_in x (be_reg_d_fb1 rd)) && m0_be_reg_d_is_in x (be_reg_d_lb rd) then
        let cut := be_reg_d_size x in
        let cut := u64 (cut - u64 (be_reg_d_lb x - be_reg_d_lb rd)) in
        be_regmap_reg_d_cut rm i cut 0
      else Some rm
  end.

Definition m0_be_regmap_del (rm : m0_be_regmap St) (rd : m0_be_reg_d) : option (m0_be_regmap St) :=
  _ ← M0_ASSERT (m0_be_regmap__invariant rm);
  _ ← M0_ASSERT (m0_be_reg_d__invariant rd);
  rdi ← be_regmap_find_fb rm rd;
  '(rm, rdi) ← del_first rm rd rdi;
  '(rm, rdi) ← del_loop (Z.to_nat (brt_size (br_rdt rm))) rm rd rdi;
  del_last rm rd rdi.

(** "old region completely absorbs the new"; the result says whether the new
    region was copied. *)
Definition add_absorbed (rm : m0_be_regmap St) (rd : m0_be_reg_d) (rdi : option Z)
  : option (m0_be_regmap St * bool) :=
  match rdi with
  | None => Some (rm, false)
  | Some i =>
      x ← rdi_get rm i;
      if (be_reg_d_fb x <? be_reg_d_fb rd) && (be_reg_d_lb rd <? be_reg_d_lb x) then
        if br_split_on_absorb rm then
          '(rm, rd_new) ← be_regmap_reg_d_split rm i rd;
          rdt ← m0_be_rdt_ins (br_rdt rm) rd_new;
          Some (with_rdt rm rdt, false)
        else
          data ← rmo_cpy ops (br_ops_data rm) x rd;
          Some (with_data rm data, true)
      else Some (rm, false)
  end.

Definition add_new (rm : m0_be_regmap St) (rd : m0_be_reg_d) : option (m0_be_regmap St) :=
  rm ← m0_be_regmap_del rm rd;
  '(data, rd_copy) ← rmo_add ops (br_ops_data rm) rd;
  rdt ← m0_be_rdt_ins (br_rdt rm) rd_copy;
  Some (with_rdt (with_data rm data) rdt).

Definition m0_be_regmap_add (rm : m0_be_regmap St) (rd : m0_be_reg_d) : option (m0_be_regmap St) :=
  _ ← M0_ASSERT (m0_be_regmap__invariant rm);
  _ ← M0_ASSERT (m0_be_reg_d__invariant rd);
  rdi ← be_regmap_find_fb rm rd;
  '(rm, copied) ← add_absorbed rm rd rdi;
  rm ← (if (copied : bool) then Some rm else add_new rm rd);
  _ ← M0_ASSERT (m0_be_regmap__invariant rm);
  Some rm.

Definition m0_be_regmap_first (rm : m0_be_regmap St) : option (option Z) := m0_be_rdt_find (br_rdt rm) 0.

Definition m0_be_regmap_next (rm : m0_be_regmap St) (prev : Z) : option (option Z) :=
  m0_be_rdt_next (br_rdt rm) prev.

Definition m0_be_regmap_size (rm : m0_be_regmap St) : option Z :=
  _ ← M0_ASSERT (m0_be_regmap__invariant rm);
  Some (m0_be_rdt_size (br_rdt rm)).

Definition m0_be_regmap_reset (rm : m0_be_regmap St) : option (m0_be_regmap St) :=
  rdt ← m0_be_rdt_reset (br_rdt rm);
  Some (with_rdt rm rdt).

End regmap.

(** ** Reference: where the bytes of a map are kept *)

(** The buffer address and the generation of the byte at [a]. *)
Definition reg_loc (rd : m0_be_reg_d) (a : Z) : option (Z * Z) :=
  if bool_decide (br_addr (rd_reg rd) <= a < reg_end rd)
  then Some (u64 (rd_buf rd + (a - br_addr (rd_reg rd))), rd_gen_idx rd) else None.

Fixpoint locs (l : list m0_be_reg_d) (a : Z) : option (Z * Z) :=
  match l with
  | [] => None
  | rd :: l => match reg_loc rd a with Some x => Some x | None => locs l a end
  end.

Definition in_reg (rd : m0_be_reg_d) (a : Z) : Prop := br_addr (rd_reg rd) <= a < reg_end rd.
#[global] Instance in_reg_dec rd a : Decision (in_reg rd a).
Proof. unfold in_reg. apply _. Defined.

(** [rd1] reaches beyond [rd2] on both sides. *)
Definition absorbs (rd1 rd2 : m0_be_reg_d) : bool :=
  (br_addr (rd_reg rd1) <? br_addr (rd_reg rd2)) && (reg_end rd2 <? reg_end rd1).

Definition reg_cut (x : m0_be_reg_d) (cut_start cut_end : Z) : m0_be_reg_d :=
  {| rd_reg := {| br_seg := br_seg (rd_reg x); br_size := br_size (rd_reg x) - cut_start - cut_end;
                  br_addr := br_addr (rd_reg x) + cut_start |};
     rd_buf := u64 (rd_buf x + cut_start); rd_gen_idx := rd_gen_idx x |}.

(** What the deletion of [rd] leaves of a region. *)
Definition reg_minus (rd x : m0_be_reg_d) : list m0_be_reg_d :=
  if (reg_end x <=? br_addr (rd_reg rd)) || (reg_end rd <=? br_addr (rd_reg x)) || absorbs x rd then [x]
  else if br_addr (rd_reg x) <? br_addr (rd_reg rd) then [reg_cut x 0 (reg_end x - br_addr (rd_reg rd))]
  else if reg_end rd <? reg_end x then [reg_cut x (reg_end rd - br_addr (rd_reg x)) 0]
  else [].

(** ** What a map relies on *)

Class RegmapOpsLaws {St} (ops : m0_be_regmap_ops St) : Prop := {
  law_cut s rd cut_start cut_end :
    rmo_cut ops s rd cut_start cut_end = Some (s, with_buf rd (u64 (rd_buf rd + cut_start)));
  law_split s rd rd_new :
    rmo_split ops s rd rd_new =
      Some (s, {| rd_reg := {| br_seg := br_seg (rd_reg rd); br_size := br_size (rd_reg rd_new);
                               br_addr := br_addr (rd_reg rd_new) |};
                  rd_buf := u64 (rd_buf rd + br_size (rd_reg rd)); rd_gen_idx := rd_gen_idx rd |});
  law_del s rd : rmo_del ops s rd = Some s;
  law_add s rd s' rd' : rmo_add ops s rd = Some (s', rd') ->
    rd_reg rd' = rd_reg rd /\ rd_gen_idx rd' = rd_gen_idx rd
}.

(** ** Lemmas: locations *)

Lemma locs_app l1 l2 a : locs (l1 ++ l2) a = match locs l1 a with Some x => Some x | None => locs l2 a end.
Proof. induction l1 as [|rd l1 IH]; [done|]. cbn [app locs]. destruct (reg_loc rd a); [done|apply IH]. Qed.

Lemma reg_loc_cut x cut_start cut_end a : 0 <= cut_start -> 0 <= cut_end ->
  reg_loc (reg_cut x cut_start cut_end) a =
    if bool_decide (br_addr (rd_reg x) + cut_start <= a < reg_end x - cut_end) then reg_loc x a else None.
Proof.
  intros Hs He. unfold reg_loc, reg_cut, reg_end. cbn [rd_reg br_addr br_size rd_buf rd_gen_idx].
  repeat case_bool_decide; try lia; try done. rewrite u64_add_l. do 3 f_equal. lia.
Qed.

Lemma reg_minus_loc rd x a : reg_wf rd -> reg_wf x ->
  locs (reg_minus rd x) a =
    if bool_decide (br_addr (rd_reg rd) <= a < reg_end rd) && negb (absorbs x rd) then None else reg_loc x a.
Proof.
  intros (? & ? & ?) (? & ? & ?). unfold reg_minus, absorbs.
  assert (forall y, locs [y] a = reg_loc y a) as Hone by (intros y; simpl; by destruct (reg_loc y a)).
  assert (forall (P : Prop) (dec : Decision P), (P -> ~ br_addr (rd_reg x) <= a < reg_end x) ->
    (if bool_decide P then None else reg_loc x a) = reg_loc x a) as Hout.
  { intros P dec HP. case_bool_decide; [|done]. unfold reg_loc. rewrite bool_decide_false; [done|].
      by apply HP. }
  destruct (Z.leb_spec (reg_end x) (br_addr (rd_reg rd))); cbn [orb].
  { rewrite Hone. destruct (Z.ltb_spec (reg_end rd) (reg_end x)),
      (Z.ltb_spec (br_addr (rd_reg x)) (br_addr (rd_reg rd)));
      cbn [andb negb]; rewrite ?andb_true_r, ?andb_false_r; try done; symmetry; apply Hout; unfold reg_end
        in *; lia. }
  destruct (Z.leb_spec (reg_end rd) (br_addr (rd_reg x))); cbn [orb].
  { rewrite Hone. destruct (Z.ltb_spec (reg_end rd) (reg_end x)),
      (Z.ltb_spec (br_addr (rd_reg x)) (br_addr (rd_reg rd)));
      cbn [andb negb]; rewrite ?andb_true_r, ?andb_false_r; try done; symmetry; apply Hout; unfold reg_end
        in *; lia. }
  destruct (Z.ltb_spec (br_addr (rd_reg x)) (br_addr (rd_reg rd))), (Z.ltb_spec (reg_end rd) (reg_end x));
    cbn [andb negb]; rewrite ?andb_true_r, ?andb_false_r, ?Hone; try done.
  - rewrite reg_loc_cut by lia. unfold reg_loc. repeat case_bool_decide; try lia; done.
  - rewrite reg_loc_cut by lia. unfold reg_loc. repeat case_bool_decide; try lia; done.
  - unfold reg_loc. simpl. repeat case_bool_decide; try lia; done.
Qed.

(** The deletion of [rd] removes the bytes of [rd], except when they are inside
    a region that reaches beyond [rd] on both sides. *)
Lemma regs_minus_locs rd l a : reg_wf rd -> Forall reg_wf l -> Forall (fun x => absorbs x rd = false) l ->
  locs (l ≫= reg_minus rd) a =
    if bool_decide (br_addr (rd_reg rd) <= a < reg_end rd) then None else locs l a.
Proof.
  intros Hrd Hwf Hna. induction l as [|x l IH]; [cbn; by case_bool_decide|].
  apply Forall_cons in Hwf as [Hx Hl], Hna as [Hnx Hnl]. rewrite bind_cons. cbn [locs].
  rewrite locs_app, reg_minus_loc, Hnx, andb_true_r, IH by done.
  case_bool_decide; [done|]. by destruct (reg_loc x a).
Qed.

Lemma reg_minus_disjoint rd x : reg_end x <= br_addr (rd_reg rd) \/ reg_end rd <= br_addr (rd_reg x) ->
  reg_minus rd x = [x].
Proof.
  intros Hd. unfold reg_minus. destruct (Z.leb_spec (reg_end x) (br_addr (rd_reg rd))); [done|].
  destruct (Z.leb_spec (reg_end rd) (br_addr (rd_reg x))); [done|lia].
Qed.

Lemma regs_minus_disjoint rd l :
  Forall (fun x => reg_end x <= br_addr (rd_reg rd) \/ reg_end rd <= br_addr (rd_reg x)) l ->
  l ≫= reg_minus rd = l.
Proof.
  induction 1 as [|x l Hx _ IH]; [done|]. rewrite bind_cons, reg_minus_disjoint by done.
  cbn [app]. by f_equal.
Qed.

Lemma regs_minus_app rd l1 l2 : (l1 ++ l2) ≫= reg_minus rd = (l1 ≫= reg_minus rd) ++ (l2 ≫= reg_minus rd).
Proof. apply bind_app. Qed.

Lemma regs_minus_absorbed rd l1 x l2 : regs_wf (l1 ++ x :: l2) -> absorbs x rd = true ->
  (l1 ++ x :: l2) ≫= reg_minus rd = l1 ++ x :: l2.
Proof.
  intros Hwf Ha. pose proof Ha as [H1%Z.ltb_lt H2%Z.ltb_lt]%andb_true_iff.
  apply regs_wf_middle in Hwf as (_ & Hx & Hb1 & Hb2). rewrite regs_minus_app. f_equal.
  - apply regs_minus_disjoint. eapply Forall_impl; [exact Hb1|]. unfold before. intros y Hy. simpl in Hy. lia.
  - rewrite bind_cons. unfold reg_minus at 1. rewrite Ha, orb_true_r. cbn [app]. f_equal.
    apply regs_minus_disjoint. eapply Forall_impl; [exact Hb2|]. unfold before. intros y Hy. lia.
Qed.

(** The bytes a deletion leaves, in all cases. *)
Lemma regs_minus_all rd l a : regs_wf l -> reg_wf rd ->
  locs (l ≫= reg_minus rd) a =
    if decide (in_reg rd a /\ Forall (fun x => absorbs x rd = false) l) then None else locs l a.
Proof.
  intros Hwf Hrd. destruct (decide (Forall (fun x => absorbs x rd = false) l)) as [Hna|Hab].
  - rewrite regs_minus_locs by (done || apply Hwf). unfold in_reg.
    destruct (decide (_ /\ _)) as [[Hin _]|Hout]; [by rewrite bool_decide_true|].
    rewrite bool_decide_false; [done|]. tauto.
  - rewrite decide_False by tauto. apply not_Forall_Exists, Exists_exists in Hab as (x & Hx & Hab);
      [|apply _].
    apply list_elem_of_split in Hx as (l1 & l2 & ->). rewrite regs_minus_absorbed; [done|done|].
    change (absorbs x rd <> false) in Hab. by destruct (absorbs x rd).
Qed.

Lemma regs_wf_shrink l1 x x' l2 : regs_wf (l1 ++ x :: l2) -> reg_wf x' ->
  br_addr (rd_reg x) <= br_addr (rd_reg x') -> reg_end x' <= reg_end x -> regs_wf (l1 ++ x' :: l2).
Proof.
  rewrite !regs_wf_middle. intros (Hl & Hx & Hb1 & Hb2) Hx' Hs He. split; [done|]. split; [done|].
  unfold before in *. split; eapply Forall_impl; [exact Hb1| |exact Hb2|]; simpl; intros; lia.
Qed.

Lemma reg_minus_length rd x : (length (reg_minus rd x) <= 1)%nat.
Proof. unfold reg_minus. destruct (_ || _); [simpl; lia|]. repeat case_match; simpl; lia. Qed.

Lemma regs_minus_length rd l : (length (l ≫= reg_minus rd) <= length l)%nat.
Proof.
  induction l as [|x l IH]; [done|]. rewrite bind_cons, length_app. pose proof (reg_minus_length rd x). simpl.
  lia.
Qed.

(** ** Lemmas: the operations of a map *)

Section regmap_lemmas.
Context {St : Type} (ops : m0_be_regmap_ops St) `{!RegmapOpsLaws ops} (uninit : m0_be_reg_d).

(** The map holds the regions [l]; the other fields are as given. *)
Definition rm_repr (rm : m0_be_regmap St) (l : list m0_be_reg_d) (data : St) (split : bool) (max : Z) :
  Prop :=
  rdt_repr (br_rdt rm) l /\ br_ops_data rm = data /\ br_split_on_absorb rm = split /\
  brt_size_max (br_rdt rm) = max.

Lemma rm_get rm l1 x l2 data split max :
  rm_repr rm (l1 ++ x :: l2) data split max -> rdi_get rm (Z.of_nat (length l1)) = Some x.
Proof. intros [Hr _]. apply (repr_get _ _ _ _ Hr). by apply list_lookup_middle. Qed.

Lemma rdi_set_ok rm l1 x x' l2 data split max :
  rm_repr rm (l1 ++ x :: l2) data split max -> regs_wf (l1 ++ x' :: l2) ->
  exists rm', rdi_set rm (Z.of_nat (length l1)) x' = Some rm' /\ rm_repr rm' (l1 ++ x' :: l2) data split max.
Proof.
  intros (((junk & Hj) & Hsz & Hmax & Hb & _) & <- & <- & <-) Hwf. unfold rdi_set. rewrite Hj, <- app_assoc.
  cbn [app]. run arr_set_middle by done. eexists. split; [done|]. split; [|done].
  split; [exists junk; cbn; by rewrite <- app_assoc|]. cbn [with_rdt br_rdt brt_size brt_size_max brt_r].
  rewrite Hmax, Hj, Hsz in *. rewrite !length_app in *. cbn [length] in *. rewrite !length_app in *.
  cbn [length] in *. split_and!; (done || lia).
Qed.

Lemma reg_cut_wf x cs ce : reg_wf x -> 0 <= cs -> 0 <= ce -> cs + ce < br_size (rd_reg x) ->
  reg_wf (reg_cut x cs ce) /\ br_addr (rd_reg x) <= br_addr (rd_reg (reg_cut x cs ce)) /\
  reg_end (reg_cut x cs ce) = reg_end x - ce.
Proof. intros (? & ? & ?) Hs He Hc. unfold reg_wf, reg_end, reg_cut in *. cbn. lia. Qed.

Lemma cut_ok rm l1 x l2 data split max cs ce :
  rm_repr rm (l1 ++ x :: l2) data split max -> 0 <= cs -> 0 <= ce -> cs + ce < br_size (rd_reg x) ->
  exists rm', be_regmap_reg_d_cut ops rm (Z.of_nat (length l1)) cs ce = Some rm' /\
    rm_repr rm' (l1 ++ reg_cut x cs ce :: l2) data split max.
Proof.
  intros Hrm Hs He Hc. pose proof Hrm as (Hr & Hd & Hsp & Hm). pose proof Hr as (_ & _ & _ & _ & Hwf).
  pose proof (proj1 (proj2 (proj1 (regs_wf_middle _ _ _) Hwf))) as Hx. pose proof Hx as (? & ? & ?).
  destruct (reg_cut_wf x cs ce Hx Hs He Hc) as (Hx' & Hlo & Hhi). unfold reg_end in *.
  unfold be_regmap_reg_d_cut. run (rm_get rm l1 x l2 data split max Hrm).
  assert_ok by (by apply reg_d_invariant_ok). rewrite u64_small by (unfold is_u64; lia). assert_ok by lia.
  run law_cut. cbn [with_buf rd_reg br_seg br_size br_addr].
  match goal with |- context [with_reg ?y ?r] => replace (with_reg y r) with (reg_cut x cs ce) end; cycle 1.
  { unfold with_reg, with_buf, reg_cut. cbn [rd_reg br_seg br_size br_addr rd_buf rd_gen_idx]. f_equal.
      f_equal.
    - rewrite u64_sub_l. symmetry. apply u64_small. unfold is_u64. lia.
    - symmetry. apply u64_small. unfold is_u64. lia. }
  assert_ok by (by apply reg_d_invariant_ok).
  apply (rdi_set_ok _ l1 x); [by split; [|split; [rewrite <- Hd|]]|].
  apply (regs_wf_shrink _ x); [done|done|lia|unfold reg_end; lia].
Qed.

(** The pointer to the first region of [cur], which follows [pre]. *)
Definition ptr (pre cur : list m0_be_reg_d) : option Z :=
  match cur with [] => None | _ => Some (Z.of_nat (length pre)) end.

Definition covers (rd x : m0_be_reg_d) : Prop :=
  br_addr (rd_reg rd) <= br_addr (rd_reg x) /\ reg_end x <= reg_end rd.

Lemma del_loop_ok fuel rm pre cur data split max rd :
  rm_repr rm (pre ++ cur) data split max -> reg_wf rd -> (length cur <= fuel)%nat ->
  exists rm' cov rest, cur = cov ++ rest /\ Forall (covers rd) cov /\
    match rest with x :: _ => ~ covers rd x | [] => True end /\
    del_loop ops fuel rm rd (ptr pre cur) = Some (rm', ptr pre rest) /\
    rm_repr rm' (pre ++ rest) data split max.
Proof.
  intros Hrm Hrd. revert rm cur Hrm. induction fuel as [|fuel IH]; intros rm cur Hrm Hf.
  { destruct cur; [|simpl in Hf; lia]. by exists rm, [], []. }
  destruct cur as [|x cur]; [by exists rm, [], []|]. cbn [del_loop ptr].
  pose proof Hrm as (Hr & Hd & Hsp & Hm). pose proof Hr as (_ & _ & _ & _ & Hwf).
  pose proof (proj1 (proj2 (proj1 (regs_wf_middle _ _ _) Hwf))) as Hx.
  run (rm_get rm pre x cur data split max Hrm). rewrite is_partof_ok by done. fold (covers rd x).
  case_bool_decide as Hcov; cycle 1.
  { exists rm, [], (x :: cur). by split_and!. }
  run law_del. destruct (rdt_del_ok (br_rdt rm) pre x cur x Hr eq_refl) as (rdt' & Hdel & Hr' & Hmax').
  run Hdel. destruct (IH (with_rdt (with_data rm (br_ops_data rm)) rdt') cur)
    as (rm' & cov & rest & -> & Hc & Hn & Hrun & Hrm').
  { split; [done|]. split; [done|]. split; [done|]. cbn. congruence. }
  { simpl in Hf. lia. }
  exists rm', (x :: cov), rest. split; [done|]. split; [by constructor|]. split; [done|]. split; [|done].
  rewrite <- Hrun. reflexivity.
Qed.

(** The last intersection. *)
Lemma del_last_ok rm pre rest data split max rd :
  rm_repr rm (pre ++ rest) data split max -> reg_wf rd ->
  match rest with
  | x :: _ => ~ covers rd x /\ br_addr (rd_reg rd) < reg_end x /\
              (br_addr (rd_reg x) < br_addr (rd_reg rd) -> reg_end rd < reg_end x)
  | [] => True
  end ->
  exists rm', del_last ops rm rd (ptr pre rest) = Some rm' /\
  rm_repr rm' (pre ++ (rest ≫= reg_minus rd)) data split max.
Proof.
  unfold del_last. intros Hrm Hrd Hrest. destruct rest as [|x rest]; [by exists rm|].
  destruct Hrest as (Hnc & Hend & Hab).
  pose proof Hrm as (Hr & _). pose proof Hr as (_ & _ & _ & _ & Hwf).
  pose proof (proj1 (regs_wf_middle _ _ _) Hwf) as (_ & Hx & _ & Hb). cbn [ptr].
  run (rm_get rm pre x rest data split max Hrm). rewrite !is_in_ok, fb1_ok, !lb_ok by done.
  assert (reg_end rd < reg_end x) as Hlt by (unfold covers in Hnc; lia).
  rewrite bind_cons. rewrite (regs_minus_disjoint rd rest); cycle 1.
  { eapply Forall_impl; [exact Hb|]. unfold before. intros y Hy. lia. }
  pose proof Hrd as (? & ? & ?). pose proof Hx as (? & ? & ?). unfold reg_end in *.
  destruct (decide (br_addr (rd_reg rd) <= br_addr (rd_reg x) < br_addr (rd_reg rd) + br_size (rd_reg rd)))
    as [Hov|Hov].
  - rewrite bool_decide_false by lia. rewrite bool_decide_true by lia. cbn [negb andb].
    set (c := br_addr (rd_reg rd) + br_size (rd_reg rd) - br_addr (rd_reg x)).
    replace (u64 _) with c; cycle 1.
    { rewrite u64_sub_r. symmetry. unfold c. rewrite u64_small by (unfold is_u64; lia). lia. }
    destruct (cut_ok rm pre x rest data split max c 0 Hrm) as (rm' & Hrun & Hrm');
      [unfold c; lia|lia|unfold c; lia|].
    exists rm'. split; [done|]. replace (reg_minus rd x) with [reg_cut x c 0]; [done|].
    unfold reg_minus, absorbs, reg_end, c. zcases; cbn [orb andb]; (done || lia).
  - assert (reg_minus rd x = [x]) as ->.
    { unfold reg_minus, absorbs, reg_end. zcases; cbn [orb andb]; (done || lia). }
    exists rm. split; [|done]. repeat case_bool_decide; cbn [negb andb]; (done || lia).
Qed.

Lemma covers_minus rd l : Forall reg_wf l -> reg_wf rd -> Forall (covers rd) l -> l ≫= reg_minus rd = [].
Proof.
  intros Hwf (? & ? & ?) Hc. induction Hc as [|x l [Hc1 Hc2] _ IH]; [done|].
  apply Forall_cons in Hwf as [(? & ? & ?) Hl].
  rewrite bind_cons, IH by done. unfold reg_minus, absorbs, reg_end in *.
  zcases; cbn [orb andb]; (done || lia).
Qed.

(** The first region of a sorted list that ends after the start of [rd] is the
    only one that can start before it. *)
Lemma rest_head pre cov rest rd :
  regs_wf (pre ++ cov ++ rest) -> reg_wf rd ->
  Forall (fun x => br_addr (rd_reg rd) < reg_end x) (cov ++ rest) ->
  Forall (covers rd) cov ->
  (cov = [] -> match rest with x :: _ => br_addr (rd_reg x) < br_addr (rd_reg rd) -> reg_end rd < reg_end x |
    [] => True end) ->
  match rest with x :: _ => ~ covers rd x | [] => True end ->
  match rest with
  | x :: _ => ~ covers rd x /\ br_addr (rd_reg rd) < reg_end x /\
              (br_addr (rd_reg x) < br_addr (rd_reg rd) -> reg_end rd < reg_end x)
  | [] => True
  end.
Proof.
  intros Hwf Hrd Hend Hcov Hfirst Hn. destruct rest as [|x rest]; [done|]. split; [done|].
  apply Forall_app in Hend as [_ [Hx _]%Forall_cons]. split; [done|].
  destruct cov as [|y cov]; [by apply Hfirst|].
  rewrite app_assoc in Hwf. apply regs_wf_middle in Hwf as ([Hwf _] & _ & Hb & _).
  apply Forall_app in Hb as [_ [Hb _]%Forall_cons], Hwf as [[_ [(? & ? & _) _]%Forall_cons]%Forall_app _].
  apply Forall_cons in Hcov as [[? ?] _]. unfold before, reg_end in *. lia.
Qed.

(** What follows the first intersection. *)
Lemma del_tail_ok rm pre cur data split max rd :
  rm_repr rm (pre ++ cur) data split max -> reg_wf rd ->
  Forall (fun x => br_addr (rd_reg rd) < reg_end x) cur ->
  match cur with x :: _ => br_addr (rd_reg x) < br_addr (rd_reg rd) -> reg_end rd < reg_end x |
    [] => True end ->
  exists rm', ('(rm, rdi) ← del_loop ops (Z.to_nat (brt_size (br_rdt rm))) rm rd (ptr pre cur);
      del_last ops rm rd rdi) = Some rm' /\ rm_repr rm' (pre ++ (cur ≫= reg_minus rd)) data split max.
Proof.
  intros Hrm Hrd Hend Hfirst. pose proof Hrm as ((_ & Hsz & _ & _ & Hwf) & _).
  destruct (del_loop_ok (Z.to_nat (brt_size (br_rdt rm))) rm pre cur data split max rd Hrm Hrd)
    as (rm1 & cov & rest & -> & Hcov & Hn & Hrun & Hrm1); [rewrite Hsz, length_app; lia|].
  run Hrun. destruct (del_last_ok rm1 pre rest data split max rd Hrm1 Hrd) as (rm2 & Hlast & Hrm2).
  { apply (rest_head pre cov); try done. by intros ->. }
  exists rm2. split; [exact Hlast|]. rewrite regs_minus_app, (covers_minus rd cov); [done| |done|done].
  by destruct Hwf as [[_ [? _]%Forall_app]%Forall_app _].
Qed.

(** The first intersection cuts the tail of the first region that ends after the
    start of [rd], when it ends inside [rd]. *)
Lemma del_first_ok rm l1 l2 data split max rd :
  rm_repr rm (l1 ++ l2) data split max -> reg_wf rd -> split_at (be_reg_d_fb rd) l1 l2 ->
  exists rm' pre cur, del_first ops rm rd (ptr l1 l2) = Some (rm', ptr pre cur) /\
    rm_repr rm' (pre ++ cur) data split max /\
    (l1 ++ l2) ≫= reg_minus rd = pre ++ (cur ≫= reg_minus rd) /\
    Forall (fun x => br_addr (rd_reg rd) < reg_end x) cur /\
    match cur with x :: _ => br_addr (rd_reg x) < br_addr (rd_reg rd) -> reg_end rd < reg_end x |
      [] => True end.
Proof.
  intros Hrm Hrd [Hs1 Hs2]. pose proof Hrm as ((_ & _ & _ & _ & Hwf) & _). unfold del_first.
  rewrite regs_minus_app, (regs_minus_disjoint rd l1); cycle 1.
  { eapply Forall_impl; [exact Hs1|]. simpl. intros x ?. lia. }
  destruct l2 as [|x l2]; [by exists rm, l1, []|]. cbn [ptr].
  pose proof (proj1 (regs_wf_middle _ _ _) Hwf) as (_ & Hx & _ & Hb).
  run (rm_get rm l1 x l2 data split max Hrm). rewrite !is_in_ok, is_partof_ok, lb1_ok by done.
  pose proof Hs2 as [Hx2 Hs3]%Forall_cons. pose proof Hrd as (? & ? & ?). pose proof Hx as (? & ? & ?).
  unfold reg_end in *.
  destruct (decide (br_addr (rd_reg x) < br_addr (rd_reg rd) /\ reg_end x <= reg_end rd)) as [Hcut|Hno];
    unfold reg_end in *.
  - rewrite bool_decide_true by lia. rewrite bool_decide_false by lia. rewrite bool_decide_false by lia.
    cbn [negb andb].
    set (c := br_addr (rd_reg x) + br_size (rd_reg x) - br_addr (rd_reg rd)).
    replace (u64 (_ - u64 _)) with c by (rewrite u64_sub_r; unfold c; symmetry; rewrite u64_small
      by (unfold is_u64; lia); lia).
    destruct (cut_ok rm l1 x l2 data split max 0 c Hrm) as (rm1 & Hrun & Hrm1);
      [lia|unfold c; lia|unfold c; lia|].
    run Hrun. run (rdt_next_ok (br_rdt rm1) l1 (reg_cut x 0 c) l2 (proj1 Hrm1)).
    exists rm1, (l1 ++ [reg_cut x 0 c]), l2. rewrite <- !app_assoc. cbn [app]. split.
    + destruct l2; [done|]. cbn [ptr]. rewrite length_app. cbn [length]. do 3 f_equal. lia.
    + split; [done|]. split; [|split; [done|]].
      * rewrite bind_cons. replace (reg_minus rd x) with [reg_cut x 0 c]; [done|].
        unfold reg_minus, absorbs, reg_end, c. zcases; cbn [orb andb]; (done || lia).
      * destruct l2 as [|y l2]; [done|]. apply Forall_cons in Hb as [Hb _]. unfold before, reg_end in Hb. lia.
  - exists rm, l1, (x :: l2). split; [|split; [done|split; [done|split; [done|lia]]]].
    repeat case_bool_decide; cbn [negb andb]; (done || lia).
Qed.

Lemma regmap_del_ok rm l data split max rd :
  rm_repr rm l data split max -> reg_wf rd ->
  exists rm', m0_be_regmap_del ops rm rd = Some rm' /\ rm_repr rm' (l ≫= reg_minus rd) data split max.
Proof.
  intros Hrm Hrd. pose proof Hrm as (Hr & _). pose proof Hr as (_ & _ & _ & _ & Hwf).
  destruct (split_at_exists (be_reg_d_fb rd) l Hwf) as (l1 & l2 & -> & Hs). unfold m0_be_regmap_del.
  assert_ok by (by apply (rdt_invariant_ok _ _ Hr)). assert_ok by (by apply reg_d_invariant_ok).
  unfold be_regmap_find_fb. run (rdt_find_ok _ _ _ _ Hr Hs). fold (ptr l1 l2).
  destruct (del_first_ok rm l1 l2 data split max rd Hrm Hrd Hs)
    as (rm1 & pre & cur & Hrun & Hrm1 & -> & Hend & Hhead).
  run Hrun. by apply del_tail_ok.
Qed.

(** *** Adding a region *)

Definition disjoint_reg (rd x : m0_be_reg_d) : Prop :=
  reg_end x <= br_addr (rd_reg rd) \/ reg_end rd <= br_addr (rd_reg x).

Lemma regs_minus_free rd l : Forall reg_wf l -> reg_wf rd -> Forall (fun x => absorbs x rd = false) l ->
  Forall (disjoint_reg rd) (l ≫= reg_minus rd) /\ (length (l ≫= reg_minus rd) <= length l)%nat.
Proof.
  intros Hwf (? & ? & ?) Hna. induction l as [|x l IH]; [done|].
  apply Forall_cons in Hwf as [(? & ? & ?) Hl], Hna as [Hx Hna]. rewrite bind_cons, Forall_app, length_app.
  destruct (IH Hl Hna) as [H5 H6]. cbn [length]. unfold absorbs in Hx.
  unfold disjoint_reg, reg_minus, absorbs, reg_end in *.
  split; [split; [|done]|].
  - zcases; cbn [orb andb] in *; try done; repeat constructor; cbn [reg_cut rd_reg br_addr br_size]; lia.
  - zcases; cbn [orb andb length app] in *; (done || lia).
Qed.

Lemma disjoint_place rd rd' l : regs_wf l -> reg_wf rd -> rd_reg rd' = rd_reg rd ->
  Forall (disjoint_reg rd) l ->
  exists lA lB, l = lA ++ lB /\ split_at (be_reg_d_fb rd') lA lB /\ regs_wf (lA ++ rd' :: lB).
Proof.
  intros Hwf Hrd Heq Hd. destruct (split_at_exists (be_reg_d_fb rd') l Hwf) as (lA & lB & -> & Hs).
  exists lA, lB. split; [done|]. split; [done|]. apply regs_wf_middle. split; [done|].
  unfold reg_wf, reg_end, before in *. rewrite Heq. split; [done|].
  destruct Hs as [Hs1 Hs2]. apply Forall_app in Hd as [_ Hd]. unfold reg_end in *. rewrite Heq in *.
  split; [done|].
  rewrite Forall_forall in Hs2, Hd |- *. intros x Hx. specialize (Hs2 x Hx).
  destruct (Hd x Hx) as [Hd1|Hd1]; unfold reg_end in *; lia.
Qed.

Lemma locs_middle lA rd lB a : regs_wf (lA ++ rd :: lB) ->
  locs (lA ++ rd :: lB) a = if decide (in_reg rd a) then reg_loc rd a else locs (lA ++ lB) a.
Proof.
  intros Hwf. rewrite !locs_app. cbn [locs]. apply regs_wf_middle in Hwf as (_ & _ & Hb & _).
  destruct (decide (in_reg rd a)) as [Hin|Hout].
  - assert (locs lA a = None) as ->.
    { induction Hb as [|x l Hx _ IH]; [done|]. cbn [locs]. rewrite IH. unfold reg_loc.
      rewrite bool_decide_false; [done|]. unfold before, in_reg in *. lia. }
    unfold reg_loc. by rewrite bool_decide_true.
  - assert (reg_loc rd a = None) as ->; [|done]. unfold reg_loc. by rewrite bool_decide_false.
Qed.

(** Deleting a region and inserting it again. *)
Lemma add_new_ok rm l data split max rd data' rd' :
  rm_repr rm l data split max -> reg_wf rd -> Forall (fun x => absorbs x rd = false) l ->
  rmo_add ops data rd = Some (data', rd') -> Z.of_nat (length l) < max ->
  exists rm' l', add_new ops rm rd = Some rm' /\
    rm_repr rm' l' data' split max /\ Z.of_nat (length l') <= Z.of_nat (length l) + 1 /\
    forall a, locs l' a = if decide (in_reg rd a) then reg_loc rd' a else locs l a.
Proof.
  intros Hrm Hrd Hna Hadd Hmax. destruct (regmap_del_ok rm l data split max rd Hrm Hrd)
    as (rm1 & Hdel & Hrm1).
  pose proof Hrm as ((_ & _ & _ & _ & Hwf & _) & _).
  destruct (regs_minus_free rd l Hwf Hrd Hna) as [Hfree Hlen].
  pose proof Hrm1 as (Hr1 & Hd1 & Hsp1 & Hm1). destruct (law_add _ _ _ _ Hadd) as [Heq Hgen].
  pose proof Hr1 as (_ & Hsz1 & _ & _ & Hwf1).
  destruct (disjoint_place rd rd' _ Hwf1 Hrd Heq Hfree) as (lA & lB & Hl & Hs & Hwf2).
  unfold add_new. run Hdel. rewrite Hd1. run Hadd. rewrite Hl in Hr1, Hsz1, Hlen.
  destruct (rdt_ins_ok (br_rdt rm1) lA lB rd' Hr1 Hs Hwf2) as (rdt' & Hins & Hr2 & Hm2).
  { rewrite Hm1, Hsz1. lia. }
  run Hins. eexists _, (lA ++ rd' :: lB). split; [done|]. split; [split_and!; cbn; congruence|]. split.
  { rewrite length_app in *. cbn [length]. lia. }
  intros a. rewrite locs_middle by done. assert (in_reg rd' a <-> in_reg rd a) as Hiff.
  { unfold in_reg, reg_end. by rewrite Heq. }
  rewrite <- Hl, regs_minus_locs by done. unfold in_reg in *.
  destruct (decide _) as [Hin|Hout], (decide _) as [Hin'|Hout']; try tauto. by rewrite bool_decide_false.
Qed.

(** The part of a region behind [rd]. *)
Definition reg_after (x rd : m0_be_reg_d) : m0_be_reg_d :=
  {| rd_reg := {| br_seg := br_seg (rd_reg x); br_size := reg_end x - reg_end rd; br_addr := reg_end rd |};
     rd_buf := u64 (rd_buf x + (reg_end rd - br_addr (rd_reg x))); rd_gen_idx := rd_gen_idx x |}.

Lemma absorbs_true x rd : absorbs x rd = true <->
  br_addr (rd_reg x) < br_addr (rd_reg rd) /\ reg_end rd < reg_end x.
Proof. unfold absorbs. by rewrite andb_true_iff, !Z.ltb_lt. Qed.

Lemma absorbed_wf l1 x l2 rd : regs_wf (l1 ++ x :: l2) -> reg_wf rd -> absorbs x rd = true ->
  let x1 := reg_cut x 0 (reg_end x - reg_end rd) in
  regs_wf ((l1 ++ [x1]) ++ reg_after x rd :: l2) /\
  (forall a, locs ((l1 ++ [x1]) ++ reg_after x rd :: l2) a = locs (l1 ++ x :: l2) a) /\
  Forall (fun y => absorbs y rd = false) ((l1 ++ [x1]) ++ reg_after x rd :: l2).
Proof.
  intros Hwf Hrd Hab x1. apply absorbs_true in Hab as [H1 H2]. pose proof Hrd as (? & ? & ?).
  pose proof (proj1 (regs_wf_middle _ _ _) Hwf) as (Hl & Hx & Hb1 & Hb2). pose proof Hx as (? & ? & ?).
  destruct (reg_cut_wf x 0 (reg_end x - reg_end rd) Hx) as (Hx1 & Hlo & Hhi);
    [lia|lia|unfold reg_end in *; lia|].
  fold x1 in Hx1, Hlo, Hhi. split; [|split].
  - apply regs_wf_middle. rewrite <- app_assoc. cbn [app].
    split; [apply (regs_wf_shrink _ x); (done || lia)|].
    split; [unfold reg_wf, reg_after, reg_end in *; cbn [rd_reg br_addr br_size]; lia|]. unfold before in *.
    split.
    + apply Forall_app. split; [|apply Forall_singleton; cbn [reg_after rd_reg br_addr]; unfold reg_end in *;
        lia].
      eapply Forall_impl; [exact Hb1|]. cbn [reg_after rd_reg br_addr]. unfold reg_end in *. intros y Hy. lia.
    + eapply Forall_impl; [exact Hb2|]. unfold reg_after, reg_end in *. cbn [rd_reg br_addr br_size].
      intros y Hy. lia.
  - intros a. rewrite <- !app_assoc, !locs_app. destruct (locs l1 a); [done|]. cbn [app locs]. unfold x1.
    rewrite reg_loc_cut by lia. unfold reg_loc, reg_after, reg_end in *.
    cbn [rd_reg br_addr br_size rd_buf rd_gen_idx].
    repeat case_bool_decide; try done; try lia. rewrite u64_add_l. do 3 f_equal. lia.
  - rewrite !Forall_app, Forall_singleton, Forall_cons. unfold absorbs, before in *. split_and!.
    + eapply Forall_impl; [exact Hb1|]. simpl. intros y Hy. apply andb_false_iff. right. apply Z.ltb_ge.
      unfold reg_end in *. lia.
    + apply andb_false_iff. right. apply Z.ltb_ge. lia.
    + apply andb_false_iff. left. apply Z.ltb_ge. cbn. unfold reg_end in *. lia.
    + eapply Forall_impl; [exact Hb2|]. simpl. intros y Hy. apply andb_false_iff. left. apply Z.ltb_ge.
      unfold reg_end in *. lia.
Qed.

Lemma regmap_split_ok rm l1 x l2 data split max rd :
  rm_repr rm (l1 ++ x :: l2) data split max -> reg_wf rd -> absorbs x rd = true ->
  Z.of_nat (length (l1 ++ x :: l2)) < max ->
  exists rm1 rd_new rdt, be_regmap_reg_d_split ops uninit rm (Z.of_nat (length l1)) rd = Some (rm1, rd_new) /\
    m0_be_rdt_ins (br_rdt rm1) rd_new = Some rdt /\
    rm_repr (with_rdt rm1 rdt) ((l1 ++ [reg_cut x 0 (reg_end x - reg_end rd)]) ++ reg_after x rd ::
      l2) data split max.
Proof.
  intros Hrm Hrd Hab Hmax. pose proof Hrm as ((_ & _ & _ & _ & Hwf) & _).
  destruct (absorbed_wf l1 x l2 rd Hwf Hrd Hab) as (Hwf' & _ & _). apply absorbs_true in Hab as [H1 H2].
  pose proof (proj1 (regs_wf_middle _ _ _) Hwf) as (Hl & Hx & _ & _). pose proof Hx as (? & ? & ?).
  pose proof Hrd as (? & ? & ?). unfold be_regmap_reg_d_split. run (rm_get rm l1 x l2 data split max Hrm).
  rewrite !lb1_ok by done. rewrite !u64_small by (unfold is_u64, reg_end in *; lia).
  assert_ok by (apply andb_true_iff; split; apply Z.ltb_lt; lia).
  set (c := reg_end x - reg_end rd) in *.
  destruct (cut_ok rm l1 x l2 data split max 0 c Hrm) as (rm1 & Hrun & Hrm1);
    [lia|unfold c; lia|unfold c, reg_end in *; lia|].
  run Hrun. run (rm_get rm1 l1 (reg_cut x 0 c) l2 data split max Hrm1). run law_split.
  match goal with |- context [Some (_, ?y)] => replace y with (reg_after x rd) end; cycle 1.
  { unfold reg_after, reg_cut, with_reg, M0_BE_REG,
      c. cbn [rd_reg br_seg br_size br_addr rd_buf rd_gen_idx]. f_equal.
    rewrite u64_add_l. f_equal. unfold reg_end. lia. }
  pose proof Hrm1 as (Hr1 & Hd1 & Hsp1 & Hm1). pose proof Hr1 as (_ & Hsz1 & _).
  replace (l1 ++ reg_cut x 0 c :: l2) with ((l1 ++ [reg_cut x 0 c]) ++ l2) in Hr1
    by (by rewrite <- app_assoc).
  destruct (rdt_ins_ok (br_rdt rm1) (l1 ++ [reg_cut x 0 c]) l2 (reg_after x rd) Hr1)
    as (rdt' & Hins & Hr' & Hm').
  - pose proof (split_at_middle _ _ _ Hwf') as [Hs1 [_ Hs2]%Forall_cons]. done.
  - done.
  - rewrite Hm1, Hsz1. rewrite length_app in *. cbn [length] in *. lia.
  - eexists _, _, rdt'. split; [done|]. split; [exact Hins|]. split_and!; cbn; congruence.
Qed.

(** How many regions an addition can need. *)
Definition add_room (rd : m0_be_reg_d) (l : list m0_be_reg_d) : Z :=
  if existsb (fun x => absorbs x rd) l then 2 else 1.

Lemma add_room_one rd l : Forall (fun x => absorbs x rd = false) l -> add_room rd l = 1.
Proof.
  intros Hna. unfold add_room. destruct (existsb _ _) eqn:E; [|done].
  apply existsb_exists in E as (y & Hy%list_elem_of_In & Hay). rewrite Forall_forall in Hna.
  by rewrite Hna in Hay.
Qed.

Lemma add_absorbed_ok rm l1 l2 data max rd :
  rm_repr rm (l1 ++ l2) data true max -> reg_wf rd -> split_at (be_reg_d_fb rd) l1 l2 ->
  Z.of_nat (length (l1 ++ l2)) + add_room rd (l1 ++ l2) <= max ->
  exists rm' l', add_absorbed ops uninit rm rd (ptr l1 l2) = Some (rm', false) /\
  rm_repr rm' l' data true max /\
    Forall (fun x => absorbs x rd = false) l' /\
    Z.of_nat (length l') + 1 = Z.of_nat (length (l1 ++ l2)) + add_room rd (l1 ++ l2) /\
    forall a, locs l' a = locs (l1 ++ l2) a.
Proof.
  intros Hrm Hrd Hs Hroom. pose proof Hrm as ((_ & _ & _ & _ & Hwf) & _ & Hsp & _).
  assert (Forall (fun x => absorbs x rd = false) l1) as Hna1.
  { eapply Forall_impl; [exact (proj1 Hs)|]. simpl. intros y Hy. apply andb_false_iff.
    right. apply Z.ltb_ge. destruct Hrd as (? & ? & ?). unfold reg_end in *. lia. }
  destruct l2 as [|x l2].
  { exists rm, (l1 ++ []). split; [done|]. rewrite add_room_one; rewrite ?app_nil_r in *; done. }
  cbn [ptr]. unfold add_absorbed. run (rm_get rm l1 x l2 data true max Hrm).
  pose proof (proj1 (regs_wf_middle _ _ _) Hwf) as (_ & Hx & _ & Hb).
  pose proof (proj2 Hs) as [Hx2 _]%Forall_cons. rewrite !lb_ok by done.
  replace ((_ <? _) && (_ <? _)) with (absorbs x rd); cycle 1.
  { unfold absorbs. f_equal. zcases; (done || lia). }
  destruct (absorbs x rd) eqn:Hab.
  - rewrite Hsp. assert (add_room rd (l1 ++ x :: l2) = 2) as Htwo.
    { unfold add_room. rewrite existsb_app. cbn [existsb]. by rewrite Hab, orb_true_r. }
    destruct (regmap_split_ok rm l1 x l2 data true max rd Hrm Hrd Hab)
      as (rm1 & rd_new & rdt & H1 & H2 & Hrm1); [lia|].
    run H1. run H2. destruct (absorbed_wf l1 x l2 rd Hwf Hrd Hab) as (_ & Hlocs & Hna).
    eexists _, _. split; [done|]. split; [exact Hrm1|]. split; [done|]. split; [|done].
    rewrite Htwo, !length_app. cbn [length]. lia.
  - assert (Forall (fun y => absorbs y rd = false) (l1 ++ x :: l2)) as Hna.
    { apply Forall_app. split; [done|]. constructor; [done|]. eapply Forall_impl; [exact Hb|]. unfold before.
      simpl. intros y Hy. apply andb_false_iff. left. apply Z.ltb_ge. lia. }
    exists rm, (l1 ++ x :: l2). by rewrite add_room_one.
Qed.

Lemma regmap_add_ok rm l data max rd data' rd' :
  rm_repr rm l data true max -> reg_wf rd -> rmo_add ops data rd = Some (data', rd') ->
  Z.of_nat (length l) + add_room rd l <= max ->
  exists rm' l', m0_be_regmap_add ops uninit rm rd = Some rm' /\ rm_repr rm' l' data' true max /\
    Z.of_nat (length l') <= Z.of_nat (length l) + add_room rd l /\
    forall a, locs l' a = if decide (in_reg rd a) then reg_loc rd' a else locs l a.
Proof.
  intros Hrm Hrd Hadd Hroom. pose proof Hrm as (Hr & _). pose proof Hr as (_ & _ & _ & _ & Hwf).
  destruct (split_at_exists (be_reg_d_fb rd) l Hwf) as (l1 & l2 & -> & Hs). unfold m0_be_regmap_add.
  assert_ok by (by apply (rdt_invariant_ok _ _ Hr)). assert_ok by (by apply reg_d_invariant_ok).
  unfold be_regmap_find_fb. run (rdt_find_ok _ _ _ _ Hr Hs). fold (ptr l1 l2).
  destruct (add_absorbed_ok rm l1 l2 data max rd Hrm Hrd Hs Hroom)
    as (rm1 & l' & Hrun & Hrm1 & Hna & Hlen & Hlocs).
  run Hrun. destruct (add_new_ok rm1 l' data true max rd data' rd' Hrm1 Hrd Hna Hadd)
    as (rm2 & l'' & Hrun2 & Hrm2 & Hlen2 & Hlocs2); [lia|].
  run Hrun2. assert_ok by (by apply (rdt_invariant_ok _ _ (proj1 Hrm2))).
  exists rm2, l''. split; [done|]. split; [done|]. split; [lia|]. intros a. by rewrite Hlocs2, Hlocs.
Qed.

End regmap_lemmas.
