(* ===== verification/RegArea.v ===== *)
(** * be: captured regions

    Models struct m0_be_reg_area of src/be/tx_regmap.c: the regions a transaction
    captured, kept in a map of regions, with the two sets of operations of the
    map (with and without a copy of the data). *)
From S2P Require Import Prelude RegTree TxCredit RegMap.
#[local] Open Scope motr_scope.

(** ** Definitions: the area of captured regions *)

Inductive m0_be_reg_area_type := M0_BE_REG_AREA_DATA_COPY | M0_BE_REG_AREA_DATA_NOCOPY.

(** The fields of struct m0_be_reg_area that the operations of its map use, and
    the memory of the process. *)
Record area_data := {
  bra_area : Z;
  bra_area_used : Z;
  bra_prepared : m0_be_tx_credit;
  ra_mem : Z -> Z
}.

(** The other fields; [bra_map] holds the first part as the data of its
    operations. *)
Record m0_be_reg_area := {
  bra_map : m0_be_regmap area_data;
  bra_type : m0_be_reg_area_type;
  bra_captured : m0_be_tx_credit
}.

Definition memcpy (mem : Z -> Z) (dst src n : Z) : Z -> Z :=
  fun a => if (dst <=? a) && (a <? dst + n) then mem (src + (a - dst)) else mem a.

Definition with_mem (ra : area_data) (mem : Z -> Z) : area_data :=
  {| bra_area := bra_area ra; bra_area_used := bra_area_used ra; bra_prepared := bra_prepared ra;
     ra_mem := mem |}.

Definition be_reg_d_cpy (ra : area_data) (dst : Z) (rd : m0_be_reg_d) : area_data :=
  with_mem ra (memcpy (ra_mem ra) dst (br_addr (rd_reg rd)) (br_size (rd_reg rd))).

Definition be_reg_area_alloc (ra : area_data) (size : Z) : option (area_data * Z) :=
  let ptr := u64 (bra_area ra + bra_area_used ra) in
  let ra := {| bra_area := bra_area ra; bra_area_used := u64 (bra_area_used ra + size);
               bra_prepared := bra_prepared ra; ra_mem := ra_mem ra |} in
  _ ← M0_ASSERT (bra_area_used ra <=? tc_reg_size (bra_prepared ra));
  Some (ra, ptr).

Definition be_reg_area_add_copy (ra : area_data) (rd : m0_be_reg_d) : option (area_data * m0_be_reg_d) :=
  _ ← M0_ASSERT (m0_be_reg_d__invariant rd);
  _ ← M0_ASSERT (rd_buf rd =? 0);
  '(ra, ptr) ← be_reg_area_alloc ra (br_size (rd_reg rd));
  let rd := with_buf rd ptr in
  Some (be_reg_d_cpy ra (rd_buf rd) rd, rd).

Definition be_reg_area_add (ra : area_data) (rd : m0_be_reg_d) : option (area_data * m0_be_reg_d) :=
  _ ← M0_ASSERT (negb (rd_buf rd =? 0));
  Some (ra, rd).

Definition be_reg_area_del (ra : area_data) (rd : m0_be_reg_d) : option area_data := Some ra.

Definition be_reg_area_cpy_copy (ra : area_data) (super rd : m0_be_reg_d) : option area_data :=
  _ ← M0_ASSERT (m0_be_reg_d__invariant rd);
  _ ← M0_ASSERT (be_reg_d_is_partof super rd);
  _ ← M0_ASSERT (negb (rd_buf super =? 0));
  _ ← M0_ASSERT (rd_buf rd =? 0);
  let rd_offset := u64 (br_addr (rd_reg rd) - br_addr (rd_reg super)) in
  Some (be_reg_d_cpy ra (u64 (rd_buf super + rd_offset)) rd).

Definition be_reg_area_cpy (ra : area_data) (super rd : m0_be_reg_d) : option area_data :=
  _ ← M0_ASSERT (m0_be_reg_d__invariant rd);
  _ ← M0_ASSERT (be_reg_d_is_partof super rd);
  _ ← M0_ASSERT (negb (rd_buf super =? 0));
  _ ← M0_ASSERT (negb (rd_buf rd =? 0));
  let rd_offset := u64 (br_addr (rd_reg rd) - br_addr (rd_reg super)) in
  Some (with_mem ra (memcpy (ra_mem ra) (u64 (rd_buf super + rd_offset)) (rd_buf rd) (br_size (rd_reg rd)))).

Definition be_reg_area_cut (ra : area_data) (rd : m0_be_reg_d) (cut_at_start cut_at_end : Z)
  : option (area_data * m0_be_reg_d) :=
  Some (ra, with_buf rd (u64 (rd_buf rd + cut_at_start))).

Definition be_reg_area_split (ra : area_data) (rd rd_new : m0_be_reg_d) : option (area_data * m0_be_reg_d) :=
  Some (ra, {| rd_reg := {| br_seg := br_seg (rd_reg rd); br_size := br_size (rd_reg rd_new);
                            br_addr := br_addr (rd_reg rd_new) |};
               rd_buf := u64 (rd_buf rd + br_size (rd_reg rd));
               rd_gen_idx := rd_gen_idx rd |}).

Definition be_reg_area_ops_data_copy : m0_be_regmap_ops area_data :=
  {| rmo_add := be_reg_area_add_copy; rmo_del := be_reg_area_del; rmo_cpy := be_reg_area_cpy_copy;
     rmo_cut := be_reg_area_cut; rmo_split := be_reg_area_split |}.

Definition be_reg_area_ops_data_nocopy : m0_be_regmap_ops area_data :=
  {| rmo_add := be_reg_area_add; rmo_del := be_reg_area_del; rmo_cpy := be_reg_area_cpy;
     rmo_cut := be_reg_area_cut; rmo_split := be_reg_area_split |}.

Definition be_reg_area_ops (type : m0_be_reg_area_type) : m0_be_regmap_ops area_data :=
  match type with
  | M0_BE_REG_AREA_DATA_COPY => be_reg_area_ops_data_copy
  | M0_BE_REG_AREA_DATA_NOCOPY => be_reg_area_ops_data_nocopy
  end.

Notation M0_BE_REG_D_CREDIT rd := (M0_BE_TX_CREDIT 1 (br_size (rd_reg rd))) (only parsing).

Definition m0_be_reg_area__invariant (ra : m0_be_reg_area) : bool :=
  let data := br_ops_data (bra_map ra) in
  m0_be_regmap__invariant (bra_map ra) &&
  (bra_area_used data <=? tc_reg_size (bra_prepared data)) &&
  m0_be_tx_credit_le (bra_captured ra) (bra_prepared data).

Definition zero_rdt : m0_be_reg_d_tree := {| brt_size := 0; brt_size_max := 0; brt_r := [] |}.

Definition zero_credit : m0_be_tx_credit := M0_BE_TX_CREDIT 0 0.

(** The area cleared by M0_SET0(). *)
Definition zero_area (mem : Z -> Z) : m0_be_reg_area :=
  {| bra_map := {| br_rdt := zero_rdt;
                   br_ops_data := {| bra_area := 0; bra_area_used := 0; bra_prepared := zero_credit;
                                     ra_mem := mem |};
                   br_split_on_absorb := false |};
     bra_type := M0_BE_REG_AREA_DATA_COPY; bra_captured := zero_credit |}.

(** [mem_r] and [mem_area] are what the two allocations return: the array of
    regions and the address of the buffer, [0] when there is no memory. *)
Definition m0_be_reg_area_init (mem : Z -> Z) (mem_r : option (list m0_be_reg_d)) (mem_area : Z)
    (prepared : m0_be_tx_credit) (type : m0_be_reg_area_type) : option (Z * m0_be_reg_area) :=
  let data := {| bra_area := 0; bra_area_used := 0; bra_prepared := prepared; ra_mem := mem |} in
  '(rc, rm) ← m0_be_regmap_init mem_r zero_rdt data
    (if tc_reg_nr prepared =? 0 then 0 else u64 (u64 (tc_reg_nr prepared * 2) - 1)) true;
  let ra := {| bra_map := rm; bra_type := type; bra_captured := zero_credit |} in
  let '(rc, ra) :=
    match type with
    | M0_BE_REG_AREA_DATA_COPY =>
        if rc =? 0 then
          let data := {| bra_area := mem_area; bra_area_used := 0; bra_prepared := prepared;
            ra_mem := mem |} in
          (if mem_area =? 0 then - ENOMEM else rc,
           {| bra_map := with_data rm data; bra_type := type; bra_captured := zero_credit |})
        else (rc, ra)
    | M0_BE_REG_AREA_DATA_NOCOPY => (rc, ra)
    end in
  let ra := if negb (rc =? 0) then zero_area mem else ra in
  _ ← M0_ASSERT (negb (rc =? 0) || m0_be_reg_area__invariant ra);
  Some (rc, ra).

Section area.
(** The uninitialised region of m0_be_regmap_add(). *)
Context (uninit : m0_be_reg_d).

Definition m0_be_reg_area_capture (ra : m0_be_reg_area) (rd : m0_be_reg_d) : option m0_be_reg_area :=
  let prepared := bra_prepared (br_ops_data (bra_map ra)) in
  _ ← M0_ASSERT (m0_be_reg_area__invariant ra);
  _ ← M0_ASSERT (m0_be_reg_d__invariant rd);
  let captured := m0_be_tx_credit_add (bra_captured ra) (M0_BE_REG_D_CREDIT rd) in
  _ ← M0_ASSERT (m0_be_tx_credit_le captured prepared);
  rm ← m0_be_regmap_add (be_reg_area_ops (bra_type ra)) uninit (bra_map ra) rd;
  let ra := {| bra_map := rm; bra_type := bra_type ra; bra_captured := captured |} in
  _ ← M0_ASSERT (m0_be_reg_d__invariant rd);
  _ ← M0_ASSERT (m0_be_reg_area__invariant ra);
  Some ra.

Definition m0_be_reg_area_uncapture (ra : m0_be_reg_area) (rd : m0_be_reg_d) : option m0_be_reg_area :=
  _ ← M0_ASSERT (m0_be_reg_area__invariant ra);
  _ ← M0_ASSERT (m0_be_reg_d__invariant rd);
  rm ← m0_be_regmap_del (be_reg_area_ops (bra_type ra)) (bra_map ra) rd;
  let ra := {| bra_map := rm; bra_type := bra_type ra; bra_captured := bra_captured ra |} in
  _ ← M0_ASSERT (m0_be_reg_d__invariant rd);
  _ ← M0_ASSERT (m0_be_reg_area__invariant ra);
  Some ra.

Definition m0_be_reg_area_first (ra : m0_be_reg_area) : option (option Z) := m0_be_regmap_first (bra_map ra).

Definition m0_be_reg_area_next (ra : m0_be_reg_area) (prev : Z) : option (option Z) :=
  m0_be_regmap_next (bra_map ra) prev.

(** M0_BE_REG_AREA_FORALL(): the body is run on each region in turn. *)
Fixpoint reg_area_forall {A} (fuel : nat) (ra : m0_be_reg_area) (rd : option Z)
    (body : m0_be_reg_d -> A -> option A) (a : A) : option A :=
  match rd with
  | None => Some a
  | Some i =>
      match fuel with
      | O => None
      | S fuel =>
          x ← rdi_get (bra_map ra) i;
          a ← body x a;
          rd ← m0_be_reg_area_next ra i;
          reg_area_forall fuel ra rd body a
      end
  end.

Definition m0_be_reg_area_used (ra : m0_be_reg_area) : option m0_be_tx_credit :=
  _ ← M0_ASSERT (m0_be_reg_area__invariant ra);
  rd ← m0_be_reg_area_first ra;
  reg_area_forall (Z.to_nat (brt_size (br_rdt (bra_map ra)))) ra rd
    (fun rd used => Some (m0_be_tx_credit_add used (M0_BE_REG_D_CREDIT rd))) zero_credit.

Definition m0_be_reg_area_merge_in (ra src : m0_be_reg_area) : option m0_be_reg_area :=
  rd ← m0_be_reg_area_first src;
  reg_area_forall (Z.to_nat (brt_size (br_rdt (bra_map src)))) src rd
    (fun rd ra => m0_be_reg_area_capture ra rd) ra.

Definition m0_be_reg_area_reset (ra : m0_be_reg_area) : option m0_be_reg_area :=
  _ ← M0_ASSERT (m0_be_reg_area__invariant ra);
  rm ← m0_be_regmap_reset (bra_map ra);
  let data := br_ops_data rm in
  let data := {| bra_area := bra_area data; bra_area_used := 0; bra_prepared := bra_prepared data;
                 ra_mem := ra_mem data |} in
  let ra := {| bra_map := with_data rm data; bra_type := bra_type ra; bra_captured := zero_credit |} in
  _ ← M0_ASSERT (m0_be_reg_area__invariant ra);
  Some ra.

End area.

(** ** Reference: what an area holds *)

#[global] Instance be_reg_area_ops_laws type : RegmapOpsLaws (be_reg_area_ops type).
Proof.
  split.
  - by destruct type.
  - by destruct type.
  - by destruct type.
  - intros s rd s' rd'. destruct type; cbn
      [be_reg_area_ops rmo_add be_reg_area_ops_data_copy be_reg_area_ops_data_nocopy].
    + unfold be_reg_area_add_copy. intros Hrun. unbind Hrun. by injection Hrun as _ <-.
    + unfold be_reg_area_add. intros Hrun. unbind Hrun. by injection Hrun as _ <-.
Qed.

Definition ra_data (ra : m0_be_reg_area) : area_data := br_ops_data (bra_map ra).

(** The regions of an area. *)
Definition ra_regs (ra : m0_be_reg_area) : list m0_be_reg_d :=
  let rdt := br_rdt (bra_map ra) in take (Z.to_nat (brt_size rdt)) (brt_r rdt).

(** The captured value of the byte at address [a], and its generation. *)
Definition area_view (ra : m0_be_reg_area) (a : Z) : option (Z * Z) :=
  match locs (ra_regs ra) a with
  | Some (p, gen) => Some (ra_mem (ra_data ra) p, gen)
  | None => None
  end.

(** The value a capture of [rd] takes for the byte at [a]. *)
Definition source_byte (ra : m0_be_reg_area) (rd : m0_be_reg_d) (a : Z) : Z :=
  match bra_type ra with
  | M0_BE_REG_AREA_DATA_COPY => ra_mem (ra_data ra) a
  | M0_BE_REG_AREA_DATA_NOCOPY => ra_mem (ra_data ra) (u64 (rd_buf rd + (a - br_addr (rd_reg rd))))
  end.

(** The buffers of an area that copies lie in the used part of its own memory. *)
Definition buffers_ok (ra : m0_be_reg_area) : Prop :=
  let data := ra_data ra in
  match bra_type ra with
  | M0_BE_REG_AREA_DATA_COPY =>
      0 < bra_area data /\ bra_area data + tc_reg_size (bra_prepared data) < 2 ^ 64 /\
      0 <= bra_area_used data <= tc_reg_size (bra_captured ra) /\
      forall a p gen, locs (ra_regs ra) a = Some (p, gen) ->
        bra_area data <= p < bra_area data + bra_area_used data
  | M0_BE_REG_AREA_DATA_NOCOPY => bra_area_used data = 0
  end.

(** The invariant: within the prepared credit, and room for every capture the
    credit allows. *)
Record area_ok (ra : m0_be_reg_area) : Prop := {
  ao_map : rm_repr (bra_map ra) (ra_regs ra) (ra_data ra) true
             (if tc_reg_nr (bra_prepared (ra_data ra)) =? 0 then 0 else tc_reg_nr (bra_prepared (ra_data ra))
               * 2 - 1);
  ao_nr : 0 <= tc_reg_nr (bra_captured ra) <= tc_reg_nr (bra_prepared (ra_data ra)) /\
          tc_reg_nr (bra_prepared (ra_data ra)) < 2 ^ 61;
  ao_size : 0 <= tc_reg_size (bra_captured ra) <= tc_reg_size (bra_prepared (ra_data ra)) /\
            tc_reg_size (bra_prepared (ra_data ra)) < 2 ^ 64;
  ao_count : ra_regs ra = [] \/ Z.of_nat (length (ra_regs ra)) < tc_reg_nr (bra_captured ra) * 2;
  ao_buffers : buffers_ok ra
}.

(** The credit that is left covers the region. *)
Definition credit_left (ra : m0_be_reg_area) (rd : m0_be_reg_d) : Prop :=
  tc_reg_nr (bra_captured ra) + 1 <= tc_reg_nr (bra_prepared (ra_data ra)) /\
  tc_reg_size (bra_captured ra) + br_size (rd_reg rd) <= tc_reg_size (bra_prepared (ra_data ra)).

(** The buffer of the region is as the type of the area requires; the captured
    memory is not the memory of the area. *)
Definition source_ok (ra : m0_be_reg_area) (rd : m0_be_reg_d) : Prop :=
  match bra_type ra with
  | M0_BE_REG_AREA_DATA_COPY =>
      rd_buf rd = 0 /\
      (reg_end rd <= bra_area (ra_data ra) \/
       bra_area (ra_data ra) + tc_reg_size (bra_prepared (ra_data ra)) <= br_addr (rd_reg rd))
  | M0_BE_REG_AREA_DATA_NOCOPY => rd_buf rd <> 0
  end.

(** ** Lemmas *)

Lemma ra_regs_repr ra l : rdt_repr (br_rdt (bra_map ra)) l -> ra_regs ra = l.
Proof.
  intros ((junk & Hj) & Hsz & _). unfold ra_regs. rewrite Hj, Hsz, Nat2Z.id. apply take_app_length.
Qed.

Lemma area_invariant_ok ra : area_ok ra -> m0_be_reg_area__invariant ra = true.
Proof.
  intros [(Hr & _) Hnr Hsz _ Hbuf]. unfold m0_be_reg_area__invariant.
  fold (ra_data ra). rewrite (rdt_invariant_ok _ _ Hr). unfold m0_be_tx_credit_le, buffers_ok in *.
  rewrite !andb_true_iff, !Z.leb_le. destruct (bra_type ra); lia.
Qed.

(** What the operation of the area does with a new region. *)
Lemma area_add_ok ra rd : area_ok ra -> reg_wf rd -> credit_left ra rd -> source_ok ra rd ->
  exists data' rd', rmo_add (be_reg_area_ops (bra_type ra)) (ra_data ra) rd = Some (data', rd') /\
    bra_prepared data' = bra_prepared (ra_data ra) /\ bra_area data' = bra_area (ra_data ra) /\
    rd_reg rd' = rd_reg rd /\ rd_gen_idx rd' = rd_gen_idx rd /\
    match bra_type ra with
    | M0_BE_REG_AREA_DATA_COPY =>
        bra_area_used data' = bra_area_used (ra_data ra) + br_size (rd_reg rd) /\
        rd_buf rd' = bra_area (ra_data ra) + bra_area_used (ra_data ra) /\
        ra_mem data' = memcpy (ra_mem (ra_data ra)) (rd_buf rd') (br_addr (rd_reg rd)) (br_size (rd_reg rd))
    | M0_BE_REG_AREA_DATA_NOCOPY => data' = ra_data ra /\ rd' = rd
    end.
Proof.
  intros [_ Hnr Hsz _ Hbuf] Hrd [Hl1 Hl2] Hsrc. pose proof Hrd as (? & ? & ?).
  unfold buffers_ok, source_ok in *. destruct (bra_type ra) eqn:Et;
    cbn [be_reg_area_ops rmo_add be_reg_area_ops_data_copy be_reg_area_ops_data_nocopy].
  - destruct Hbuf as (Ha & Hb & Hu & _). destruct Hsrc as [Hnull _]. unfold be_reg_area_add_copy.
    assert_ok by (by apply reg_d_invariant_ok). assert_ok by (by rewrite Hnull). unfold be_reg_area_alloc.
    cbn [bra_area_used bra_prepared]. rewrite !u64_small by (unfold is_u64; lia). assert_ok by lia.
    eexists _, _. split; [done|]. done.
  - unfold be_reg_area_add. assert_ok by (apply negb_true_iff, Z.eqb_neq; done). by eexists _, _.
Qed.

Lemma area_capture_ok uninit ra rd :
  area_ok ra -> reg_wf rd -> credit_left ra rd -> source_ok ra rd ->
  exists ra' data' rd', m0_be_reg_area_capture uninit ra rd = Some ra' /\
    rmo_add (be_reg_area_ops (bra_type ra)) (ra_data ra) rd = Some (data', rd') /\
    ra_data ra' = data' /\ bra_type ra' = bra_type ra /\
    tc_reg_nr (bra_captured ra') = tc_reg_nr (bra_captured ra) + 1 /\
    tc_reg_size (bra_captured ra') = tc_reg_size (bra_captured ra) + br_size (rd_reg rd) /\
    area_ok ra' /\
    forall a, locs (ra_regs ra') a = if decide (in_reg rd a) then reg_loc rd' a else locs (ra_regs ra) a.
Proof.
  intros Hok Hrd Hleft Hsrc. pose proof Hok as [Hmap Hnr Hsz Hcount Hbuf].
  destruct (area_add_ok ra rd Hok Hrd Hleft Hsrc) as (data' & rd' & Hadd & Hp & Har & Hreg & Hgen & Hty).
  destruct Hleft as [Hl1 Hl2]. pose proof Hrd as (? & ? & ?).
  unfold m0_be_reg_area_capture. assert_ok by (by apply area_invariant_ok).
  assert_ok by (by apply reg_d_invariant_ok).
  fold (ra_data ra). set (captured := m0_be_tx_credit_add _ _).
  assert (tc_reg_nr captured = tc_reg_nr (bra_captured ra) + 1) as Hcn
    by (apply u64_small; unfold is_u64; cbn; lia).
  assert (tc_reg_size captured = tc_reg_size (bra_captured ra) + br_size (rd_reg rd)) as Hcs
    by (apply u64_small; unfold is_u64; cbn; lia).
  assert_ok by (unfold m0_be_tx_credit_le; apply andb_true_iff; split; apply Z.leb_le; lia).
  assert (add_room rd (ra_regs ra) = 1 \/ ra_regs ra <> [] /\ add_room rd (ra_regs ra) = 2) as Hroom.
  { unfold add_room. destruct (existsb _ _) eqn:E; [right|by left]. split; [|done].
      by destruct (ra_regs ra). }
  destruct (regmap_add_ok (be_reg_area_ops (bra_type ra)) uninit (bra_map ra) (ra_regs ra) (ra_data ra) _ rd
    data' rd' Hmap Hrd Hadd)
    as (rm' & l' & Hrun & Hrm' & Hlen & Hlocs).
  { destruct (Z.eqb_spec (tc_reg_nr (bra_prepared (ra_data ra))) 0); [lia|].
    destruct Hcount as [Hnil|Hlt]; [rewrite Hnil in *; cbn [length] in *; destruct Hroom as [Hro|[? _]];
      [lia|done]|].
    destruct Hroom as [Hro|[_ Hro]]; lia. }
  run Hrun.
  match goal with |- context [Some ?r] => set (ra' := r) end.
  pose proof Hrm' as (Hr' & Hd' & _). assert (ra_regs ra' = l') as Hl' by (by apply ra_regs_repr).
  assert (area_ok ra') as Hok'.
  { split; unfold ra_data; rewrite ?Hl'; cbn [ra' bra_map bra_captured]; rewrite ?Hd', ?Hp; try done;
      [lia|lia| |].
    - right. rewrite Hcn. destruct Hcount as [Hnil|Hlt];
        [rewrite Hnil in *; cbn [length] in *; destruct Hroom as [Hro|[? _]]; [lia|done]|].
      destruct Hroom as [Hro|[_ Hro]]; lia.
    - unfold buffers_ok in *. rewrite Hl'. unfold ra_data. cbn [ra' bra_map bra_captured bra_type].
      rewrite Hd', Hp, Har.
      destruct (bra_type ra); [|destruct Hty as [-> _]; done].
      destruct Hty as (-> & Hbuf' & _), Hbuf as (? & ? & ? & Hold).
      split; [done|]. split; [done|]. split; [lia|]. intros a p gen. rewrite Hlocs.
      destruct (decide (in_reg rd a)) as [Hin|]; [|intros Ha; apply Hold in Ha; lia].
      unfold reg_loc, in_reg, reg_end in *. rewrite Hreg, Hbuf'. rewrite bool_decide_true by done.
      rewrite u64_small by (unfold is_u64; lia). intros [= <- _]. lia. }
  assert_ok by (by apply area_invariant_ok). exists ra', data', rd'. by rewrite Hl'.
Qed.

Lemma area_uncapture_ok ra rd : area_ok ra -> reg_wf rd ->
  exists ra', m0_be_reg_area_uncapture ra rd = Some ra' /\ ra_regs ra' = (ra_regs ra ≫= reg_minus rd) /\
    ra_data ra' = ra_data ra /\ bra_type ra' = bra_type ra /\ bra_captured ra' = bra_captured ra /\
    area_ok ra'.
Proof.
  intros Hok Hrd. pose proof Hok as [Hmap Hnr Hsz Hcount Hbuf].
  pose proof Hmap as ((_ & _ & _ & _ & Hwf) & _).
  unfold m0_be_reg_area_uncapture. assert_ok by (by apply area_invariant_ok).
  assert_ok by (by apply reg_d_invariant_ok).
  destruct (regmap_del_ok (be_reg_area_ops (bra_type ra)) (bra_map ra) _ _ _ _ rd Hmap Hrd)
    as (rm' & Hrun & Hrm').
  run Hrun. match goal with |- context [Some ?r] => set (ra' := r) end.
  pose proof Hrm' as (Hr' & Hd' & _). assert (ra_regs ra' = (ra_regs ra ≫= reg_minus rd)) as Hl'
    by (by apply ra_regs_repr).
  assert (ra_data ra' = ra_data ra) as Hdata by done.
  assert (area_ok ra') as Hok'; [|assert_ok by (by apply area_invariant_ok); by exists ra'].
  split; rewrite ?Hl', ?Hdata; try done.
  - destruct Hcount as [->|Hlt]; [by left|right]. pose proof (regs_minus_length rd (ra_regs ra)).
    cbn [ra' bra_captured]. lia.
  - unfold buffers_ok in *. rewrite Hl', Hdata. cbn [ra' bra_type bra_captured].
    destruct (bra_type ra); [|done].
    destruct Hbuf as (? & ? & ? & Hold). split_and!; try done; try lia. intros a p gen Ha.
    apply (Hold a p gen).
    rewrite regs_minus_all in Ha by done. by destruct (decide _).
Qed.

(** *** Initialisation *)

Lemma area_init_ok mem arr mem_area prepared type :
  0 <= tc_reg_nr prepared < 2 ^ 61 -> 0 <= tc_reg_size prepared < 2 ^ 64 ->
  Z.of_nat (length arr) = (if tc_reg_nr prepared =? 0 then 0 else tc_reg_nr prepared * 2 - 1) ->
  0 < mem_area /\ mem_area + tc_reg_size prepared < 2 ^ 64 ->
  exists ra, m0_be_reg_area_init mem (Some arr) mem_area prepared type = Some (0, ra) /\
    area_ok ra /\ ra_regs ra = [] /\ bra_type ra = type /\ bra_captured ra = zero_credit /\
    bra_prepared (ra_data ra) = prepared /\ ra_mem (ra_data ra) = mem /\
    (type = M0_BE_REG_AREA_DATA_COPY -> bra_area (ra_data ra) = mem_area).
Proof.
  intros Hnr Hsz Harr [Ha Ha2]. unfold m0_be_reg_area_init, m0_be_regmap_init, m0_be_rdt_init.
  replace (if tc_reg_nr prepared =? 0 then 0 else u64 (u64 (tc_reg_nr prepared * 2) - 1))
    with (Z.of_nat (length arr)); cycle 1.
  { rewrite Harr. destruct (Z.eqb_spec (tc_reg_nr prepared) 0); [done|].
    rewrite u64_sub_l, u64_small by (unfold is_u64; lia). done. }
  match goal with |- context [m0_be_rdt__invariant ?r] => set (rdt := r) end.
  assert (rdt_repr rdt []) as Hr.
  { split; [by exists arr|]. split; [done|]. split; [done|]. split;
      [|by split; constructor]. cbn [rdt brt_size_max].
    rewrite Harr. destruct (Z.eqb_spec (tc_reg_nr prepared) 0); lia. }
  assert_ok by (by apply (rdt_invariant_ok _ _ Hr)). cbn [Z.eqb negb orb br_rdt].
  assert_ok by (by apply (rdt_invariant_ok _ _ Hr)).
  assert (mem_area =? 0 = false) as Hma by (apply Z.eqb_neq; lia). rewrite Hma.
  assert (forall ra, br_rdt (bra_map ra) = rdt -> br_split_on_absorb (bra_map ra) = true ->
    bra_captured ra = zero_credit -> bra_prepared (ra_data ra) = prepared -> buffers_ok ra -> area_ok ra)
      as Hok.
  { intros ra Hrdt Hsp Hcap Hpre Hbuf. assert (ra_regs ra = []) as Hl
      by (apply ra_regs_repr; by rewrite Hrdt).
    split; rewrite ?Hcap, ?Hpre, ?Hl; cbn
      [zero_credit M0_BE_TX_CREDIT M0_BE_TX_CB_CREDIT tc_reg_nr tc_reg_size];
      try lia; [|by left|done]. split_and!; [by rewrite Hrdt|done|done|]. by rewrite Hrdt, <- Harr. }
  destruct type; cbn [Z.eqb negb];
    (match goal with |- context [Some (_, ?r)] => assert (area_ok r) as Hra; [apply Hok; try done|] end).
  - assert_ok by (by apply area_invariant_ok). eexists. split; [done|]. split; [done|]. by split_and!.
  - assert_ok by (by apply area_invariant_ok). eexists. split; [done|]. split; [done|]. by split_and!.
Qed.

(** *** Iteration *)

Fixpoint fold_regs {A} (body : m0_be_reg_d -> A -> option A) (l : list m0_be_reg_d) (a : A) : option A :=
  match l with
  | [] => Some a
  | rd :: l => a ← body rd a; fold_regs body l a
  end.

Lemma reg_area_forall_ok {A} (body : m0_be_reg_d -> A -> option A) ra pre cur fuel a :
  rdt_repr (br_rdt (bra_map ra)) (pre ++ cur) -> (length cur <= fuel)%nat ->
  reg_area_forall fuel ra (ptr pre cur) body a = fold_regs body cur a.
Proof.
  revert pre cur a. induction fuel as [|fuel IH]; intros pre cur a Hr Hf.
  { destruct cur; [done|simpl in Hf; lia]. }
  destruct cur as [|x cur]; [done|]. cbn [ptr reg_area_forall fold_regs].
  assert (rdi_get (bra_map ra) (Z.of_nat (length pre)) = Some x) as Hget
    by (apply (repr_get _ _ _ _ Hr); by apply list_lookup_middle).
  run Hget. destruct (body x a) as [a'|]; [|done]. cbn [mbind option_bind].
  unfold m0_be_reg_area_next, m0_be_regmap_next. run (rdt_next_ok _ _ _ _ Hr).
  rewrite <- (IH (pre ++ [x]) cur a'); [|by rewrite <- app_assoc|simpl in Hf; lia].
  destruct cur; [done|]. cbn [ptr]. rewrite length_app. cbn [length].
  by replace (Z.of_nat (length pre + 1)) with (Z.of_nat (length pre) + 1) by lia.
Qed.

(** The whole loop over an area. *)
Lemma reg_area_loop_ok {A} (body : m0_be_reg_d -> A -> option A) ra a : area_ok ra ->
  (rd ← m0_be_reg_area_first ra;
   reg_area_forall (Z.to_nat (brt_size (br_rdt (bra_map ra)))) ra rd body a) = fold_regs body (ra_regs ra) a.
Proof.
  intros [(Hr & _) _ _ _ _]. pose proof Hr as (_ & Hsz & _ & _ & Hwf & _).
  unfold m0_be_reg_area_first, m0_be_regmap_first. run (rdt_find_ok (br_rdt (bra_map ra)) [] (ra_regs ra) 0).
  - apply (reg_area_forall_ok body ra []); [exact Hr|]. rewrite Hsz. lia.
  - exact Hr.
  - split; [constructor|]. eapply Forall_impl; [exact Hwf|]. intros x (? & ? & ?). unfold reg_end. lia.
Qed.

Definition sum_size (l : list m0_be_reg_d) : Z := foldr (fun rd n => br_size (rd_reg rd) + n) 0 l.

Lemma sum_size_nonneg l : Forall reg_wf l -> 0 <= sum_size l.
Proof. induction 1 as [|x l (? & ? & ?) _ IH]; [done|]. cbn [sum_size foldr]. fold (sum_size l). lia. Qed.

(** No region behind [rd] holds a byte of [rd]. *)
Lemma locs_behind rd l a : Forall (before rd) l -> in_reg rd a -> locs l a = None.
Proof.
  intros Hb Hin. induction Hb as [|x l Hx _ IH]; [done|]. cbn [locs]. rewrite IH. unfold reg_loc.
  rewrite bool_decide_false; [done|]. unfold before, in_reg in *. lia.
Qed.

Lemma capture_all_ok uninit l ra :
  area_ok ra -> bra_type ra = M0_BE_REG_AREA_DATA_NOCOPY -> regs_wf l ->
  Forall (fun rd => rd_buf rd <> 0) l ->
  tc_reg_nr (bra_captured ra) + Z.of_nat (length l) <= tc_reg_nr (bra_prepared (ra_data ra)) ->
  tc_reg_size (bra_captured ra) + sum_size l <= tc_reg_size (bra_prepared (ra_data ra)) ->
  exists ra', fold_regs (fun rd ra => m0_be_reg_area_capture uninit ra rd) l ra = Some ra' /\ area_ok ra' /\
    bra_type ra' = bra_type ra /\ ra_data ra' = ra_data ra /\
    forall a, locs (ra_regs ra') a = match locs l a with Some x => Some x | None => locs (ra_regs ra) a end.
Proof.
  revert ra. induction l as [|rd l IH]; intros ra Hok Hty Hwf Hbuf Hnr Hsz; [by exists ra|].
  apply (regs_wf_middle []) in Hwf as (Hwf & Hrd & _ & Hb). apply Forall_cons in Hbuf as [Hb0 Hbuf].
  cbn [length sum_size foldr] in *.
  pose proof (sum_size_nonneg l (proj1 Hwf)) as Hpos.
  fold (sum_size l) in Hsz. pose proof Hrd as (? & ? & ?).
  destruct (area_capture_ok uninit ra rd Hok)
    as (ra1 & data' & rd' & Hrun & Hadd & Hdata & Hty1 & Hn1 & Hs1 & Hok1 & Hlocs);
    [done|split; lia|unfold source_ok; by rewrite Hty|].
  rewrite Hty in Hadd. cbn [be_reg_area_ops rmo_add be_reg_area_ops_data_nocopy] in Hadd.
  unfold be_reg_area_add in Hadd.
  unbind Hadd. injection Hadd as <- <-. cbn [fold_regs]. run Hrun.
  destruct (IH ra1) as (ra' & Hrun' & Hok' & Hty' & Hdata' & Hlocs'); try done; rewrite ?Hdata, ?Hn1, ?Hs1;
    try lia; [congruence|].
  exists ra'. split; [done|]. split; [done|]. split; [congruence|]. split; [congruence|].
  intros a. rewrite Hlocs', Hlocs. cbn [locs]. destruct (decide (in_reg rd a)) as [Hin|Hout].
  - rewrite (locs_behind rd l a Hb Hin). unfold reg_loc, in_reg in *. by rewrite bool_decide_true.
  - unfold reg_loc, in_reg in *. by rewrite bool_decide_false.
Qed.

(** ** Properties *)

(** C8. m0_be_reg_area_capture(), both types of areas, while the prepared credit
    lasts: the capture succeeds (there is always room for the regions it splits),
    afterwards the area holds the captured value for exactly the bytes of the
    region, every other byte keeps the value and the generation it had, and the
    memory outside of the buffer of the area is not changed. *)
Theorem reg_area_capture_spec uninit ra rd :
  area_ok ra -> reg_wf rd -> credit_left ra rd -> source_ok ra rd ->
  exists ra', m0_be_reg_area_capture uninit ra rd = Some ra' /\ area_ok ra' /\
    (forall a, area_view ra' a =
       if decide (in_reg rd a) then Some (source_byte ra rd a, rd_gen_idx rd) else area_view ra a) /\
    (forall p, p < bra_area (ra_data ra) \/
               bra_area (ra_data ra) + tc_reg_size (bra_prepared (ra_data ra)) <= p ->
       ra_mem (ra_data ra') p = ra_mem (ra_data ra) p).
Proof.
  intros Hok Hrd Hleft Hsrc.
  destruct (area_capture_ok uninit ra rd Hok Hrd Hleft Hsrc)
    as (ra' & data' & rd' & Hrun & Hadd & Hdata & _ & _ & _ & Hok' & Hlocs).
  destruct (area_add_ok ra rd Hok Hrd Hleft Hsrc) as (d2 & r2 & Hadd2 & _ & _ & Hreg & Hgen & Hty).
  rewrite Hadd in Hadd2. injection Hadd2 as <- <-. exists ra'. split; [done|]. split; [done|].
  pose proof (ao_buffers _ Hok) as Hbuf. pose proof Hrd as (? & ? & ?). destruct Hleft as [_ Hl2].
  unfold area_view, source_byte, buffers_ok, source_ok in *. rewrite Hdata. destruct (bra_type ra).
  - destruct Hbuf as (? & ? & ? & Hold), Hty as (Hused & Hb & ->), Hsrc as [_ Hout].
    split; intros a; [rewrite Hlocs|intros Ha].
    + destruct (decide (in_reg rd a)) as [Hin|].
      * unfold reg_loc, in_reg, reg_end in *. rewrite Hreg, Hb, Hgen, bool_decide_true by done.
        rewrite u64_small by (unfold is_u64; lia). unfold memcpy.
        rewrite (proj2 (andb_true_iff _ _)) by (split; [apply Z.leb_le|apply Z.ltb_lt]; lia).
        do 3 f_equal. lia.
      * destruct (locs (ra_regs ra) a) as [[p gen]|] eqn:Ha; [|done]. apply Hold in Ha. unfold memcpy.
        destruct (Z.leb_spec (rd_buf rd') p); [lia|done].
    + unfold memcpy. destruct (Z.leb_spec (rd_buf rd') a), (Z.ltb_spec a (rd_buf rd' + br_size (rd_reg rd)));
        (done || lia).
  - destruct Hty as [-> ->]. split; [|done]. intros a. rewrite Hlocs. unfold reg_loc, in_reg.
    destruct (decide _); [by rewrite bool_decide_true|done].
Qed.

(** C35. m0_be_reg_area_uncapture() always succeeds; it removes exactly the bytes
    of the region from the area, except when one captured region reaches beyond
    the given one on both sides: then it does not change the area. *)
Theorem reg_area_uncapture_spec ra rd :
  area_ok ra -> reg_wf rd ->
  exists ra', m0_be_reg_area_uncapture ra rd = Some ra' /\ area_ok ra' /\
    forall a, area_view ra' a =
      if decide (in_reg rd a /\ Forall (fun x => absorbs x rd = false) (ra_regs ra)) then None
      else area_view ra a.
Proof.
  intros Hok Hrd. destruct (area_uncapture_ok ra rd Hok Hrd) as (ra' & Hrun & Hregs & Hdata & _ & _ & Hok').
  exists ra'. split; [done|]. split; [done|]. intros a. unfold area_view. rewrite Hregs, Hdata.
  pose proof (ao_map _ Hok) as ((_ & _ & _ & _ & Hwf) & _).
  rewrite regs_minus_all by done. by destruct (decide _).
Qed.

(** Disjoint regions fit the address space. *)
Lemma sum_size_bound l lo : regs_wf l -> 0 <= lo -> Forall (fun x => lo <= br_addr (rd_reg x)) l ->
  lo < 2 ^ 64 -> lo + sum_size l < 2 ^ 64.
Proof.
  revert lo. induction l as [|x l IH]; intros lo Hwf H0 Hlo Hb; [cbn; lia|].
  apply (regs_wf_middle []) in Hwf as (Hwf & (? & ? & ?) & _ & Hbef). apply Forall_cons in Hlo as [Hlo _].
  cbn [sum_size foldr]. fold (sum_size l). specialize (IH (reg_end x) Hwf ltac:(unfold reg_end;
    lia) Hbef ltac:(lia)).
  unfold reg_end in *. lia.
Qed.

Lemma used_fold l c : regs_wf l -> 0 <= tc_reg_nr c -> 0 <= tc_reg_size c ->
  tc_reg_nr c + Z.of_nat (length l) < 2 ^ 64 -> tc_reg_size c + sum_size l < 2 ^ 64 ->
  exists c', fold_regs (fun rd used => Some (m0_be_tx_credit_add used (M0_BE_REG_D_CREDIT rd))) l c = Some c'
    /\
    tc_reg_nr c' = tc_reg_nr c + Z.of_nat (length l) /\ tc_reg_size c' = tc_reg_size c + sum_size l.
Proof.
  revert c. induction l as [|x l IH]; intros c Hwf Hn Hs Hbn Hbs.
  { exists c. cbn. split; [done|]. lia. }
  apply (regs_wf_middle []) in Hwf as (Hwf & (? & ? & ?) & _ & _).
  cbn [fold_regs mbind option_bind length sum_size foldr] in *. fold (sum_size l) in *.
  pose proof (sum_size_nonneg l (proj1 Hwf)).
  set (c1 := m0_be_tx_credit_add c (M0_BE_REG_D_CREDIT x)).
  assert (tc_reg_nr c1 = tc_reg_nr c + 1) as Hc1 by (apply u64_small; unfold is_u64; cbn; lia).
  assert (tc_reg_size c1 = tc_reg_size c + br_size (rd_reg x)) as Hc2
    by (apply u64_small; unfold is_u64; cbn; lia).
  destruct (IH c1 Hwf) as (c' & Hrun & H3 & H4); [lia..|]. exists c'. split; [exact Hrun|]. lia.
Qed.

(** C34. m0_be_reg_area_merge_in() into an area without copies, when the credit
    left covers what m0_be_reg_area_used() reports for the source: it succeeds, the
    bytes of the source take their buffer and generation from the source, the
    others keep theirs. *)
Theorem reg_area_merge_in_spec uninit ra src :
  area_ok ra -> bra_type ra = M0_BE_REG_AREA_DATA_NOCOPY ->
  area_ok src -> Forall (fun rd => rd_buf rd <> 0) (ra_regs src) ->
  exists used, m0_be_reg_area_used src = Some used /\
    (tc_reg_nr (bra_captured ra) + tc_reg_nr used <= tc_reg_nr (bra_prepared (ra_data ra)) ->
     tc_reg_size (bra_captured ra) + tc_reg_size used <= tc_reg_size (bra_prepared (ra_data ra)) ->
     exists ra', m0_be_reg_area_merge_in uninit ra src = Some ra' /\ area_ok ra' /\
       forall a, locs (ra_regs ra') a =
         match locs (ra_regs src) a with Some x => Some x | None => locs (ra_regs ra) a end).
Proof.
  intros Hok Hty Hsrc Hbuf. pose proof (ao_map _ Hsrc) as ((Hj & Hsz & Hmax & Hb & Hwf) & _).
  destruct (used_fold (ra_regs src) zero_credit Hwf) as (used & Hrun & Hn & Hs); [cbn; lia|cbn; lia| | |].
  { destruct Hj as (junk & Hj). rewrite Hmax, Hj, length_app in Hb. cbn. lia. }
  { change (tc_reg_size zero_credit) with 0. apply sum_size_bound; [done|lia| |lia].
    eapply Forall_impl; [exact (proj1 Hwf)|]. intros x (? & _). lia. }
  change (tc_reg_nr zero_credit) with 0 in Hn. change (tc_reg_size zero_credit) with 0 in Hs.
  exists used. split.
  { unfold m0_be_reg_area_used. assert_ok by (by apply area_invariant_ok). by rewrite reg_area_loop_ok. }
  intros Hln Hls. unfold m0_be_reg_area_merge_in. rewrite reg_area_loop_ok by done.
  destruct (capture_all_ok uninit (ra_regs src) ra Hok Hty Hwf Hbuf) as (ra' & Hrun' & Hok' & _ & _ & Hlocs);
    [lia|lia|].
  by exists ra'.
Qed.

(** ** Witnesses *)

Definition example_mem (a : Z) : Z := a mod 256.

Definition example_rd (addr size buf gen : Z) : m0_be_reg_d :=
  {| rd_reg := M0_BE_REG 1 size addr; rd_buf := buf; rd_gen_idx := gen |}.

Lemma example_rd_wf addr size buf gen : 0 < addr -> 0 < size -> addr + size < 2 ^ 64 ->
  reg_wf (example_rd addr size buf gen).
Proof. done. Qed.

(** An empty area with credits for four regions of a hundred bytes. *)
Lemma example_area type : exists ra,
  m0_be_reg_area_init example_mem (Some (replicate 7 (example_rd 0 0 0 0))) 100000 (M0_BE_TX_CREDIT 4 100)
    type =
    Some (0, ra) /\
  area_ok ra /\ ra_regs ra = [] /\ bra_type ra = type /\ bra_captured ra = zero_credit /\
  bra_prepared (ra_data ra) = M0_BE_TX_CREDIT 4 100 /\ ra_mem (ra_data ra) = example_mem /\
  (type = M0_BE_REG_AREA_DATA_COPY -> bra_area (ra_data ra) = 100000).
Proof. by apply area_init_ok. Qed.

Lemma example_capture_ok type buf ra :
  bra_type ra = type -> bra_captured ra = zero_credit -> bra_prepared (ra_data ra) = M0_BE_TX_CREDIT 4 100 ->
  match type with
  | M0_BE_REG_AREA_DATA_COPY => buf = 0 /\ bra_area (ra_data ra) = 100000
  | M0_BE_REG_AREA_DATA_NOCOPY => buf <> 0
  end ->
  credit_left ra (example_rd 1000 10 buf 1) /\ source_ok ra (example_rd 1000 10 buf 1).
Proof.
  intros Hty Hcap Hpre Hbuf. unfold credit_left, source_ok. rewrite Hcap, Hpre, Hty.
  split; [split; cbn; lia|].
  destruct type; [|done]. destruct Hbuf as [-> ->]. split; [done|]. left. vm_compute. congruence.
Qed.

Lemma reg_area_capture_spec_witness : exists ra ra',
  m0_be_reg_area_capture (example_rd 0 0 0 0) ra (example_rd 1000 10 0 1) = Some ra' /\
  area_view ra' 1005 = Some (237, 1) /\ area_view ra' 1010 = None.
Proof.
  destruct (example_area M0_BE_REG_AREA_DATA_COPY) as (ra & _ & Hok & Hregs & Hty & Hcap & Hpre & Hmem & Har).
  destruct (example_capture_ok M0_BE_REG_AREA_DATA_COPY 0 ra Hty Hcap Hpre (conj eq_refl (Har eq_refl)))
    as [Hl Hs].
  destruct (reg_area_capture_spec (example_rd 0 0 0 0) ra (example_rd 1000 10 0 1) Hok)
    as (ra' & Hrun & _ & Hview & _).
  - apply example_rd_wf; lia.
  - exact Hl.
  - exact Hs.
  - exists ra, ra'. split; [exact Hrun|]. split; rewrite Hview.
    + rewrite decide_True by (split; vm_compute; congruence). unfold source_byte. by rewrite Hty, Hmem.
    + rewrite decide_False by (intros [_ Hlt]; vm_compute in Hlt; congruence).
      unfold area_view. by rewrite Hregs.
Defined.

Lemma reg_area_uncapture_spec_witness : exists ra ra',
  m0_be_reg_area_uncapture ra (example_rd 1004 3 0 0) = Some ra' /\ area_ok ra'.
Proof.
  destruct (example_area M0_BE_REG_AREA_DATA_COPY) as (ra & _ & Hok & Hregs & Hty & Hcap & Hpre & Hmem & Har).
  destruct (example_capture_ok M0_BE_REG_AREA_DATA_COPY 0 ra Hty Hcap Hpre (conj eq_refl (Har eq_refl)))
    as [Hl Hs].
  destruct (area_capture_ok (example_rd 0 0 0 0) ra (example_rd 1000 10 0 1) Hok)
    as (ra1 & _ & _ & _ & _ & _ & _ & _ & _ & Hok1 & _); [apply example_rd_wf; lia|exact Hl|exact Hs|].
  destruct (reg_area_uncapture_spec ra1 (example_rd 1004 3 0 0) Hok1) as (ra' & Hrun & Hok' & _).
  - apply example_rd_wf; lia.
  - exists ra1, ra'. split; [exact Hrun|exact Hok'].
Defined.

Lemma reg_area_merge_in_spec_witness : exists ra src used ra',
  m0_be_reg_area_used src = Some used /\ m0_be_reg_area_merge_in (example_rd 0 0 0 0) ra src = Some ra' /\
  locs (ra_regs ra') 1005 = Some (505, 1).
Proof.
  destruct (example_area M0_BE_REG_AREA_DATA_NOCOPY)
    as (ra & Hinit & Hok & Hregs & Hty & Hcap & Hpre & Hmem & Har).
  destruct (example_capture_ok M0_BE_REG_AREA_DATA_NOCOPY 500 ra Hty Hcap Hpre ltac:(discriminate))
    as [Hl Hs].
  destruct (area_capture_ok (example_rd 0 0 0 0) ra (example_rd 1000 10 500 1) Hok)
    as (src & data & rd' & Hcapt & _ & _ & _ & _ & _ & Hok1 & _);
      [apply example_rd_wf; lia|exact Hl|exact Hs|].
  assert (ra_regs src = [example_rd 1000 10 500 1]) as Hsrc.
  { vm_compute in Hinit. injection Hinit as <-. vm_compute in Hcapt. injection Hcapt as <-. reflexivity. }
  destruct (reg_area_merge_in_spec (example_rd 0 0 0 0) ra src Hok Hty Hok1) as (used & Hused & Hmerge).
  - rewrite Hsrc. apply Forall_singleton. discriminate.
  - assert (tc_reg_nr used = 1 /\ tc_reg_size used = 10) as [Hn Hz].
    { vm_compute in Hinit. injection Hinit as <-. vm_compute in Hcapt. injection Hcapt as <-.
      vm_compute in Hused. injection Hused as <-. split; reflexivity. }
    destruct Hmerge as (ra' & Hrun & _ & Hlocs);
      [rewrite Hn, Hcap, Hpre; cbn; lia|rewrite Hz, Hcap, Hpre; cbn; lia|].
    exists ra, src, used, ra'. split; [exact Hused|]. split; [exact Hrun|]. rewrite Hlocs, Hsrc. reflexivity.
Defined.
