(* ===== verification/RegMerge.v ===== *)
(** * be: merging the captured regions of several transactions

    Models struct m0_be_reg_area_merger of src/be/tx_regmap.c: the areas of the
    transactions of a group are swept from low to high addresses, and each piece
    between two region boundaries is captured from the area with the largest
    generation index. *)
From S2P Require Import Prelude RegTree TxCredit RegMap RegArea.

(** ** Definitions *)

(** [arr[0]] and [arr[1]]. *)
Definition be_reg_d_arr_insert2 (arr : Z * Z) (value : Z) : option (Z * Z) :=
  _ ← M0_ASSERT (negb (fst arr =? 0) && negb (snd arr =? 0));
  Some (if value <? fst arr then (value, fst arr)
        else if (fst arr <? value) && (value <? snd arr) then (fst arr, value)
        else arr).

(** One step of the loop; a null region is [None]. *)
Definition subreg_step (start : Z) (arr : Z * Z) (rd : option m0_be_reg_d) : option (Z * Z) :=
  match rd with
  | None => Some arr
  | Some rd =>
      let fb := be_reg_d_fb rd in
      let lb1 := be_reg_d_lb1 rd in
      let fb := Z.max fb start in
      _ ← M0_ASSERT (fb <? lb1);
      if (fst arr =? 0) && (snd arr =? 0) then Some (fb, lb1)
      else
        arr ← be_reg_d_arr_insert2 arr fb;
        be_reg_d_arr_insert2 arr lb1
  end.

Fixpoint subreg_loop (start : Z) (arr : Z * Z) (rd_arr : list (option m0_be_reg_d)) : option (Z * Z) :=
  match rd_arr with
  | [] => Some arr
  | rd :: rd_arr => arr ← subreg_step start arr rd; subreg_loop start arr rd_arr
  end.

(** Returns the address and the size. *)
Definition be_reg_d_arr_first_subreg (rd_arr : list (option m0_be_reg_d)) (start : Z) : option (Z * Z) :=
  arr ← subreg_loop start (0, 0) rd_arr;
  _ ← M0_ASSERT (negb (fst arr =? 0) && negb (snd arr =? 0));
  _ ← M0_ASSERT (negb (fst arr =? snd arr));
  Some (fst arr, u64 (snd arr - fst arr)).

Definition be_reg_d_sub_make (super sub : m0_be_reg_d) : option m0_be_reg_d :=
  _ ← M0_ASSERT (be_reg_d_is_partof super sub);
  Some {| rd_reg := {| br_seg := br_seg (rd_reg super); br_size := br_size (rd_reg sub);
                       br_addr := br_addr (rd_reg sub) |};
          rd_buf := u64 (rd_buf super + u64 (be_reg_d_fb sub - be_reg_d_fb super));
          rd_gen_idx := rd_gen_idx super |}.

(** The areas and the positions in them; an area or a position that is a null
    pointer is [None]. *)
Record m0_be_reg_area_merger := {
  brm_reg_area_nr_max : Z;
  brm_reg_area_nr : Z;
  brm_reg_areas : list (option m0_be_reg_area);
  brm_pos : list (option Z)
}.

(** [mem_areas] and [mem_pos] say whether the two allocations succeed. *)
Definition m0_be_reg_area_merger_init (mem_areas mem_pos : bool) (reg_area_nr_max : Z)
  : Z * m0_be_reg_area_merger :=
  let n := Z.to_nat reg_area_nr_max in
  let brm := {| brm_reg_area_nr_max := reg_area_nr_max; brm_reg_area_nr := 0;
                brm_reg_areas := if mem_areas then replicate n None else [];
                brm_pos := if mem_pos then replicate n None else [] |} in
  (if mem_areas && mem_pos then 0 else - ENOMEM, brm).

Definition m0_be_reg_area_merger_reset (brm : m0_be_reg_area_merger) : m0_be_reg_area_merger :=
  {| brm_reg_area_nr_max := brm_reg_area_nr_max brm; brm_reg_area_nr := 0;
     brm_reg_areas := brm_reg_areas brm; brm_pos := brm_pos brm |}.

Definition m0_be_reg_area_merger_add (brm : m0_be_reg_area_merger) (ra : m0_be_reg_area)
  : option m0_be_reg_area_merger :=
  _ ← M0_ASSERT (brm_reg_area_nr brm <? brm_reg_area_nr_max brm);
  areas ← arr_set (brm_reg_areas brm) (brm_reg_area_nr brm) (Some ra);
  Some {| brm_reg_area_nr_max := brm_reg_area_nr_max brm; brm_reg_area_nr := brm_reg_area_nr brm + 1;
          brm_reg_areas := areas; brm_pos := brm_pos brm |}.

(** The region [brm_pos[i]] points to. *)
Definition pos_rd (areas : list (option m0_be_reg_area)) (pos : list (option Z)) (i : Z)
  : option (option m0_be_reg_d) :=
  p ← arr_get pos i;
  match p with
  | None => Some None
  | Some k =>
      area ← arr_get areas i;
      area ← area;
      rd ← rdi_get (bra_map area) k;
      Some (Some rd)
  end.

(** The regions all the positions point to. *)
Definition pos_rds (areas : list (option m0_be_reg_area)) (pos : list (option Z)) (nr : Z)
  : option (list (option m0_be_reg_d)) :=
  for_up 0 nr (fun i rds => rd ← pos_rd areas pos i; Some (rds ++ [rd])) [].

(** One step of the choice of the largest generation; [max_i] is [None] for
    [-1]. *)
Definition max_gen_step (i : Z) (rd : option m0_be_reg_d) (s : m0_be_reg_d * option Z)
  : option (m0_be_reg_d * option Z) :=
  let '(rd_new, max_i) := s in
  match rd with
  | None => Some (rd_new, max_i)
  | Some rd =>
      _ ← M0_ASSERT (be_reg_d_is_partof rd rd_new || negb (be_reg_d_are_overlapping rd rd_new));
      _ ← M0_ASSERT (match max_i with
                     | None => true
                     | Some _ => negb (rd_gen_idx rd =? rd_gen_idx rd_new)
                     end);
      if be_reg_d_are_overlapping rd rd_new &&
         (match max_i with None => true | Some _ => rd_gen_idx rd_new <? rd_gen_idx rd end)
      then Some ({| rd_reg := rd_reg rd_new; rd_buf := rd_buf rd_new; rd_gen_idx := rd_gen_idx rd |}, Some i)
      else Some (rd_new, max_i)
  end.

Definition be_reg_area_merger_max_gen_idx (rds : list (option m0_be_reg_d)) (nr addr size : Z)
  : option m0_be_reg_d :=
  let rd_new := M0_BE_REG_D (M0_BE_REG 0 size addr) 0 in
  '(rd_new, max_i) ← for_up 0 nr (fun i s => rd ← arr_get rds i; max_gen_step i rd s) (rd_new, None);
  max_i ← max_i;
  rd ← arr_get rds max_i;
  rd ← rd;
  be_reg_d_sub_make rd rd_new.

(** "pass by all stale regions by @addr" *)
Definition pass_stale (areas : list (option m0_be_reg_area)) (nr addr : Z) (pos : list (option Z))
  : option (list (option Z)) :=
  for_up 0 nr (fun i pos =>
    rd ← pos_rd areas pos i;
    match rd with
    | None => Some pos
    | Some rd =>
        if be_reg_d_lb1 rd =? addr then
          k ← arr_get pos i;
          k ← k;
          area ← arr_get areas i;
          area ← area;
          p ← m0_be_reg_area_next area k;
          arr_set pos i p
        else Some pos
    end) pos.

(** [uninit] is the uninitialised region of m0_be_regmap_add(). *)
Fixpoint merge_loop (fuel : nat) (uninit : m0_be_reg_d) (areas : list (option m0_be_reg_area)) (nr : Z)
    (pos : list (option Z)) (addr : Z) (ra : m0_be_reg_area) : option m0_be_reg_area :=
  if existsb (fun p => match p with None => false | Some _ => true end) (take (Z.to_nat nr) pos) then
    match fuel with
    | O => None
    | S fuel =>
        rds ← pos_rds areas pos nr;
        '(addr, size) ← be_reg_d_arr_first_subreg rds addr;
        rd_new ← be_reg_area_merger_max_gen_idx rds nr addr size;
        ra ← m0_be_reg_area_capture uninit ra rd_new;
        let addr := u64 (addr + size) in
        pos ← pass_stale areas nr addr pos;
        merge_loop fuel uninit areas nr pos addr ra
    end
  else Some ra.

(** The number of boundaries of the regions of the areas bounds the number of
    steps. *)
Definition merge_fuel (areas : list (option m0_be_reg_area)) (nr : Z) : nat :=
  foldr (fun a n => match a with
                    | None => n
                    | Some a => (2 * Z.to_nat (brt_size (br_rdt (bra_map a))) + n)%nat
                    end) O (take (Z.to_nat nr) areas).

Definition m0_be_reg_area_merger_merge_to (uninit : m0_be_reg_d) (brm : m0_be_reg_area_merger)
    (ra : m0_be_reg_area) : option m0_be_reg_area :=
  let areas := brm_reg_areas brm in
  let nr := brm_reg_area_nr brm in
  pos ← for_up 0 nr (fun i pos =>
    area ← arr_get areas i;
    area ← area;
    p ← m0_be_reg_area_first area;
    arr_set pos i p) (brm_pos brm);
  merge_loop (merge_fuel areas nr) uninit areas nr pos 0 ra.

(** ** Reference *)

(** [r] is the entry of largest generation among those the lists of regions have
    for the byte at [a]. *)
Definition merged (srcs : list (list m0_be_reg_d)) (a : Z) (r : option (Z * Z)) : Prop :=
  match r with
  | None => Forall (fun l => locs l a = None) srcs
  | Some (p, gen) =>
      (exists l, l ∈ srcs /\ locs l a = Some (p, gen)) /\
      forall l p' gen', l ∈ srcs -> locs l a = Some (p', gen') -> gen' <= gen
  end.

(** Regions of different areas have different generations. *)
Definition gens_distinct (srcs : list (list m0_be_reg_d)) : Prop :=
  forall i j l1 l2 x y, srcs !! i = Some l1 -> srcs !! j = Some l2 -> i <> j ->
    x ∈ l1 -> y ∈ l2 -> rd_gen_idx x <> rd_gen_idx y.

(** ** Lemmas: the next piece *)

(** Where the part of a region at or after [start] begins. *)
Definition from (start : Z) (rd : m0_be_reg_d) : Z := Z.max (br_addr (rd_reg rd)) start.

(** The two smallest boundaries of the regions in [hs]. *)
Record piece (start : Z) (hs : list m0_be_reg_d) (s e : Z) : Prop := {
  pc_lt : start <= s < e;
  pc_pos : 0 < s;
  pc_all : Forall (fun h => (from start h = s \/ e <= from start h) /\ e <= reg_end h) hs;
  pc_first : exists h, h ∈ hs /\ from start h = s;
  pc_next : exists h, h ∈ hs /\ (e = reg_end h \/ e = from start h)
}.

Definition next_e (s e f l : Z) : Z := if f <? s then Z.min l s else if f =? s then Z.min e l else Z.min e f.

Lemma insert_both s e f l : 0 < s < e -> 0 < f < l ->
  (arr ← be_reg_d_arr_insert2 (s, e) f; be_reg_d_arr_insert2 arr l) = Some (Z.min s f, next_e s e f l).
Proof.
  intros Hs Hf. unfold be_reg_d_arr_insert2, next_e. cbn [fst snd].
  assert_ok by (apply andb_true_iff; split; apply negb_true_iff, Z.eqb_neq; lia).
  assert_ok by (apply andb_true_iff; split; apply negb_true_iff, Z.eqb_neq; zcases; cbn [andb fst snd]; lia).
  f_equal. zcases; cbn [andb fst snd] in *; zcases; cbn [andb fst snd] in *; try lia; f_equal; lia.
Qed.

Lemma piece_insert start hs s e h :
  piece start hs s e -> from start h < reg_end h -> 0 < from start h ->
  piece start (h :: hs) (Z.min s (from start h)) (next_e s e (from start h) (reg_end h)).
Proof.
  intros [Hlt Hpos Hall (h1 & Hh1 & Hf1) (h2 & Hh2 & Hf2)] Hh Hp.
  assert (start <= from start h) by (unfold from; lia).
  rewrite Forall_forall in Hall. destruct (Hall h2 Hh2) as [Hh2a Hh2b]. unfold next_e. split.
  - zcases; lia.
  - lia.
  - apply Forall_cons. split; [zcases; lia|]. apply Forall_forall. intros x Hx.
    destruct (Hall x Hx) as [Hxa Hxb]. zcases; lia.
  - destruct (Z_le_gt_dec s (from start h)); [exists h1|exists h]; rewrite elem_of_cons; (split; [tauto|lia]).
  - destruct (Z.ltb_spec (from start h) s); [|destruct (Z.eqb_spec (from start h) s)].
    + destruct (Z_le_gt_dec (reg_end h) s); [exists h|exists h1]; rewrite elem_of_cons; (split; [tauto|lia]).
    + destruct (Z_le_gt_dec e (reg_end h)); [exists h2|exists h]; rewrite elem_of_cons; (split; [tauto|lia]).
    + destruct (Z_le_gt_dec e (from start h)); [exists h2|exists h]; rewrite elem_of_cons;
        (split; [tauto|lia]).
Qed.

(** The heads of the lists that are not empty. *)
Definition heads (rds : list (option m0_be_reg_d)) : list m0_be_reg_d := omap id rds.

Lemma subreg_loop_ok start rds hs s e :
  piece start hs s e -> Forall (fun h => reg_wf h /\ start < reg_end h) (heads rds) ->
  exists s' e', subreg_loop start (s, e) rds = Some (s', e') /\ piece start (reverse (heads rds) ++ hs) s' e'.
Proof.
  revert hs s e. induction rds as [|[h|] rds IH]; intros hs s e Hp Hwf;
    cbn [subreg_loop subreg_step heads omap list_omap id].
  - by exists s, e.
  - apply Forall_cons in Hwf as [[Hw Hst] Hwf]. fold (heads rds) in *. pose proof Hw as (? & ? & ?).
    rewrite lb1_ok by done.
    fold (from start h).
    assert (from start h < reg_end h) as Hlt by (unfold from, reg_end in *; lia).
    assert (0 < from start h) as Hpos by (unfold from; lia). assert_ok by lia. pose proof Hp as [? ? _ _ _].
    cbn [fst snd]. rewrite (proj2 (Z.eqb_neq s 0)) by lia. cbn [andb].
    pose proof (insert_both s e (from start h) (reg_end h) ltac:(lia) ltac:(lia)) as Hins. rewrite Hins.
    cbn [mbind option_bind].
    destruct (IH (h :: hs) _ _ (piece_insert start hs s e h Hp Hlt Hpos) Hwf) as (s' & e' & Hrun & Hp').
    exists s', e'. split; [done|]. by rewrite reverse_cons, <- app_assoc.
  - apply IH; done.
Qed.

Lemma piece_mem start hs hs' s e : (forall h, h ∈ hs <-> h ∈ hs') -> piece start hs s e ->
  piece start hs' s e.
Proof.
  intros Hm [Hlt Hpos Hall (h1 & Hh1 & Hf1) (h2 & Hh2 & Hf2)]. split; [done|done| | |].
  - rewrite Forall_forall in Hall |- *. intros x Hx. apply Hall. by apply Hm.
  - exists h1. by rewrite <- Hm.
  - exists h2. by rewrite <- Hm.
Qed.

Lemma first_subreg_ok start rds :
  0 <= start -> heads rds <> [] -> Forall (fun h => reg_wf h /\ start < reg_end h) (heads rds) ->
  exists s e, be_reg_d_arr_first_subreg rds start = Some (s, e - s) /\ piece start (heads rds) s e.
Proof.
  intros H0 Hne Hwf.
  assert (exists s e, subreg_loop start (0, 0) rds = Some (s, e) /\ piece start (heads rds) s e)
    as (s & e & Hrun & Hp).
  { revert Hne Hwf. induction rds as [|[h|] rds IH]; intros Hne Hwf;
      cbn [subreg_loop subreg_step heads omap list_omap id] in *.
    - done.
    - fold (heads rds) in *. apply Forall_cons in Hwf as [[Hw Hst] Hwf]. pose proof Hw as (? & ? & ?).
      rewrite lb1_ok by done.
      fold (from start h).
      assert (from start h < reg_end h) as Hlt by (unfold from, reg_end in *; lia). assert_ok by lia.
      cbn [fst snd Z.eqb andb mbind option_bind].
      destruct (subreg_loop_ok start rds [h] (from start h) (reg_end h)) as (s & e & Hrun & Hp); [|done|].
      { split; [unfold from in *; lia|unfold from; lia| |exists h;
          by rewrite list_elem_of_singleton|exists h; rewrite list_elem_of_singleton; by split; [|left]].
        apply Forall_singleton. lia. }
      exists s, e. split; [done|]. eapply piece_mem; [|exact Hp]. intros x.
      rewrite elem_of_app, elem_of_reverse, list_elem_of_singleton, elem_of_cons. tauto.
    - cbn [mbind option_bind]. by apply IH. }
  exists s, e. split; [|done]. destruct Hp as [Hlt Hpos Hall _ (h & Hh & He)].
  rewrite Forall_forall in Hwf. destruct (Hwf h Hh) as ((? & ? & ?) & ?).
  unfold be_reg_d_arr_first_subreg. run Hrun. cbn [fst snd].
  assert_ok by (apply andb_true_iff; split; apply negb_true_iff, Z.eqb_neq; lia).
  assert_ok by (apply negb_true_iff, Z.eqb_neq; lia).
  rewrite u64_small; [done|]. unfold is_u64, from, reg_end in *. lia.
Qed.

(** ** Lemmas: the largest generation *)

(** A region covers the piece [[s, e)] or does not meet it. *)
Definition covers_piece (s e : Z) (h : m0_be_reg_d) : Prop := br_addr (rd_reg h) <= s /\ e <= reg_end h.

Lemma piece_cases start hs s e h : piece start hs s e -> h ∈ hs -> start < reg_end h ->
  covers_piece s e h \/ e <= br_addr (rd_reg h).
Proof.
  intros [Hlt _ Hall _ _] Hh Hst. rewrite Forall_forall in Hall.
  destruct (Hall h Hh) as [[H1|H1] H2]; unfold covers_piece, from in *; lia.
Qed.

Section max_gen.
Context (rds : list (option m0_be_reg_d)) (start s e : Z).
Hypothesis Hwf : Forall (fun h => reg_wf h /\ start < reg_end h) (heads rds).
Hypothesis Hp : piece start (heads rds) s e.
Hypothesis He : e < 2 ^ 64.
Hypothesis Hdist : forall i j x y,
  rds !! i = Some (Some x) -> rds !! j = Some (Some y) -> i <> j -> rd_gen_idx x <> rd_gen_idx y.

Lemma head_elem i h : rds !! i = Some (Some h) -> h ∈ heads rds.
Proof. intros Hi. apply list_elem_of_omap. exists (Some h). split; [by eapply list_elem_of_lookup_2|done].
Qed.

Lemma head_case h : h ∈ heads rds -> reg_wf h /\ (covers_piece s e h \/ e <= br_addr (rd_reg h)).
Proof.
  intros Hh. rewrite Forall_forall in Hwf. destruct (Hwf h Hh) as [? ?]. split; [done|].
  by apply (piece_cases start (heads rds)).
Qed.

(** The region chosen among the first [i]. *)
Definition gen_inv (i : Z) (st : m0_be_reg_d * option Z) : Prop :=
  rd_reg (fst st) = M0_BE_REG 0 (e - s) s /\
  (forall j x, Z.of_nat j < i -> rds !! j = Some (Some x) -> covers_piece s e x ->
     snd st <> None /\ rd_gen_idx x <= rd_gen_idx (fst st)) /\
  match snd st with
  | None => True
  | Some m => 0 <= m < i /\ exists h, rds !! Z.to_nat m = Some (Some h) /\ covers_piece s e h /\
                rd_gen_idx (fst st) = rd_gen_idx h
  end.

Lemma max_gen_step_ok i rd st : 0 <= i -> rds !! Z.to_nat i = Some rd -> gen_inv i st ->
  exists st', max_gen_step i rd st = Some st' /\ gen_inv (i + 1) st'.
Proof.
  intros Hi Hrd (Hreg & Hmax & Hm). destruct st as [new max_i]. cbn [fst snd] in *.
  pose proof Hp as [Hlt Hpos _ _ _].
  assert (forall st', fst st' = new -> snd st' = max_i ->
    (forall x, rd = Some x -> covers_piece s e x -> max_i <> None /\ rd_gen_idx x <= rd_gen_idx new) ->
      gen_inv (i + 1) st') as Hkeep.
  { intros [n m] Hn Hm2 Hx. cbn [fst snd] in *. subst n m. split; [done|]. cbn [fst snd]. split.
    - intros j x Hj Hx2 Hc. destruct (decide (Z.of_nat j = i)) as [<-|]; [|apply (Hmax j x); (done || lia)].
      rewrite Nat2Z.id, Hx2 in Hrd. injection Hrd as <-. by apply Hx.
    - destruct max_i as [m|]; [|done]. destruct Hm as [? Hm]. split; [lia|done]. }
  destruct rd as [rd|]; cbn [max_gen_step]; [|exists (new, max_i); split; [done|]; by apply Hkeep].
  destruct (head_case rd (head_elem _ _ Hrd)) as [Hw Hcase].
  assert (reg_wf new) as Hwn by (unfold reg_wf, reg_end; rewrite Hreg; cbn; lia).
  assert (reg_end new = e) as Hen by (unfold reg_end; rewrite Hreg; cbn; lia).
  rewrite is_partof_ok, overlapping_ok, Hen by done.
  replace (br_addr (rd_reg new)) with s by (by rewrite Hreg).
  destruct Hcase as [Hc|Hout]; cycle 1.
  { assert_ok by (apply orb_true_iff; right; rewrite bool_decide_false; [done|lia]).
    assert_ok by (destruct max_i as [m|]; [|done]; destruct Hm as (Hmi & h & Hh & _ & ->);
      apply negb_true_iff, Z.eqb_neq, (Hdist (Z.to_nat i) (Z.to_nat m)); (done || lia)).
    rewrite bool_decide_false by lia. cbn [andb]. eexists. split; [done|]. apply Hkeep; [done|done|].
    intros x [= <-] [? ?]. destruct Hw as (? & ? & ?). unfold reg_end in *. lia. }
  assert_ok by (apply orb_true_iff; left; rewrite bool_decide_true; [done|unfold covers_piece in Hc; lia]).
  assert_ok by (destruct max_i as [m|]; [|done]; destruct Hm as (Hmi & h & Hh & _ & ->);
    apply negb_true_iff, Z.eqb_neq, (Hdist (Z.to_nat i) (Z.to_nat m)); (done || lia)).
  rewrite bool_decide_true by (unfold covers_piece in Hc; lia). cbn [andb].
  destruct (match max_i with None => true | Some _ => rd_gen_idx new <? rd_gen_idx rd end) eqn:Ech.
  - eexists. split; [done|]. split; [done|]. cbn [fst snd rd_gen_idx]. split; [|split; [lia|by exists rd]].
    intros j x Hj Hx Hcx. split; [done|]. destruct (decide (Z.of_nat j = i)) as [<-|].
    + rewrite Nat2Z.id, Hx in Hrd. by injection Hrd as ->.
    + destruct (Hmax j x ltac:(lia) Hx Hcx) as [Hn Hle]. destruct max_i; [|done]. apply Z.ltb_lt in Ech. lia.
  - destruct max_i as [m|]; [|done]. apply Z.ltb_ge in Ech. eexists. split; [done|].
    apply Hkeep; [done|done|].
    intros x [= <-] _. split; [done|lia].
Qed.

Lemma max_gen_ok :
  exists h, h ∈ heads rds /\ covers_piece s e h /\
    (forall x, x ∈ heads rds -> covers_piece s e x -> rd_gen_idx x <= rd_gen_idx h) /\
    be_reg_area_merger_max_gen_idx rds (Z.of_nat (length rds)) s (e - s) =
      Some {| rd_reg := {| br_seg := br_seg (rd_reg h); br_size := e - s; br_addr := s |};
              rd_buf := u64 (rd_buf h + (s - br_addr (rd_reg h))); rd_gen_idx := rd_gen_idx h |}.
Proof.
  pose proof Hp as [Hlt Hpos _ (h0 & Hh0 & Hf0) _]. unfold be_reg_area_merger_max_gen_idx.
  match goal with |- context [for_up 0 _ ?f _] => set (body := f) end. set (new0 := M0_BE_REG_D _ _).
  destruct (for_up_total gen_inv body 0 (Z.of_nat (length rds)) (new0, None))
    as ([new max_i] & Hrun & Hreg & Hmax & Hm).
  - lia.
  - split; [done|]. split; [lia|done].
  - intros i st Hi Hinv. unfold body. destruct (lookup_lt_is_Some_2 rds (Z.to_nat i)) as [rd Hrd]; [lia|].
    assert (arr_get rds i = Some rd) as Hget by (apply arr_get_Some; split; [lia|done]). run Hget.
    apply max_gen_step_ok; (done || lia).
  - run Hrun. cbn [fst snd] in *. pose proof Hh0 as Hh0'.
    apply list_elem_of_omap in Hh0' as ([x|] & Hx & [= ->]). apply list_elem_of_lookup in Hx as [j Hj].
    assert (covers_piece s e h0) as Hc0.
    { destruct (head_case h0 Hh0) as [(? & ? & ?) [?|Hout]]; [done|]. unfold from in Hf0. lia. }
    destruct (Hmax j h0) as [Hn _]; [apply lookup_lt_Some in Hj; lia|done|done|].
    destruct max_i as [m|]; [|done]. destruct Hm as (Hmi & h & Hh & Hc & Hgen). cbn [mbind option_bind].
    assert (arr_get rds m = Some (Some h)) as Hget by (apply arr_get_Some; split; [lia|done]). run Hget.
    exists h. split; [by eapply head_elem|]. split; [done|]. split.
    + intros x Hx Hcx. apply list_elem_of_omap in Hx as ([y|] & Hy & [= ->]).
      apply list_elem_of_lookup in Hy as [k Hk].
      destruct (Hmax k x) as [_ Hle]; [apply lookup_lt_Some in Hk; lia|done|done|]. lia.
    + destruct (head_case h (head_elem _ _ Hh)) as [Hw _]. pose proof Hw as (? & ? & ?).
      unfold be_reg_d_sub_make.
      assert_ok by (rewrite is_partof_ok; [apply bool_decide_true; unfold reg_end at 1; rewrite Hreg; cbn;
        unfold covers_piece in Hc; lia
        |done|unfold reg_wf, reg_end; rewrite Hreg; cbn; lia]).
      rewrite Hreg. cbn [br_size br_addr M0_BE_REG]. by rewrite u64_add_r.
Qed.

End max_gen.

(** ** Lemmas: positions *)

(** [cur] is what is left of [l] at the address [addr]. *)
Definition swept (addr : Z) (l cur : list m0_be_reg_d) : Prop :=
  exists pre, l = pre ++ cur /\ Forall (fun x => reg_end x <= addr) pre /\
    Forall (fun x => addr < reg_end x) cur.

(** The position of [cur] in [l]. *)
Definition at_pos (l cur : list m0_be_reg_d) : option Z :=
  match cur with [] => None | _ => Some (Z.of_nat (length l) - Z.of_nat (length cur)) end.

(** What is left after the piece that ends at [addr]. *)
Definition pass (addr : Z) (cur : list m0_be_reg_d) : list m0_be_reg_d :=
  match cur with
  | [] => []
  | h :: rest => if reg_end h =? addr then rest else cur
  end.

Section positions.
Context (areas : list (option m0_be_reg_area)) (srcs : list (list m0_be_reg_d)).
Hypothesis Hareas : forall j l, srcs !! j = Some l ->
  exists area, areas !! j = Some (Some area) /\ rdt_repr (br_rdt (bra_map area)) l.

Definition pos_ok (addr : Z) (pos : list (option Z)) (curs : list (list m0_be_reg_d)) : Prop :=
  length curs = length srcs /\ (length srcs <= length pos)%nat /\
  forall j l cur, srcs !! j = Some l -> curs !! j = Some cur ->
    swept addr l cur /\ pos !! j = Some (at_pos l cur).

Lemma pos_ok_lookup addr pos curs j : pos_ok addr pos curs -> 0 <= j < Z.of_nat (length srcs) ->
  exists l cur area pre, srcs !! Z.to_nat j = Some l /\ curs !! Z.to_nat j = Some cur /\
    arr_get areas j = Some (Some area) /\ arr_get pos j = Some (ptr pre cur) /\ l = pre ++ cur /\
    rdt_repr (br_rdt (bra_map area)) (pre ++ cur) /\
    Forall (fun x => reg_end x <= addr) pre /\ Forall (fun x => addr < reg_end x) cur.
Proof.
  intros (Hlc & Hlp & Hpos) Hj. destruct (lookup_lt_is_Some_2 srcs (Z.to_nat j)) as [l Hl]; [lia|].
  destruct (lookup_lt_is_Some_2 curs (Z.to_nat j)) as [cur Hcur]; [lia|].
  destruct (Hareas _ _ Hl) as (area & Ha & Hr).
  destruct (Hpos _ _ _ Hl Hcur) as ((pre & -> & Hpre & Hc) & Hp).
  exists (pre ++ cur), cur, area, pre. split; [done|]. split; [done|].
  split; [apply arr_get_Some; split; [lia|done]|].
  split; [|done]. apply arr_get_Some. split; [lia|]. rewrite Hp. f_equal. unfold at_pos, ptr.
  destruct cur; [done|]. f_equal. rewrite length_app. lia.
Qed.

Lemma pos_rds_ok addr pos curs : pos_ok addr pos curs ->
  pos_rds areas pos (Z.of_nat (length srcs)) = Some (head <$> curs).
Proof.
  intros Hpos. unfold pos_rds. match goal with |- for_up _ _ ?f _ = _ => set (body := f) end.
  destruct (for_up_total (fun i rds => rds = head <$> take (Z.to_nat i) curs) body 0 (Z.of_nat (length srcs))
    [])
    as (rds & -> & ->).
  - lia.
  - done.
  - intros i rds Hi ->. unfold body, pos_rd.
    destruct (pos_ok_lookup addr pos curs i Hpos Hi)
      as (l & cur & area & pre & _ & Hcur & Ha & Hp & _ & Hr & _).
    run Hp. exists (head <$> take (Z.to_nat (i + 1)) curs). split; [|done].
    replace (Z.to_nat (i + 1)) with (S (Z.to_nat i)) by lia. rewrite (take_S_r _ _ _ Hcur), fmap_app.
    cbn [fmap list_fmap].
    destruct cur as [|x cur]; cbn [ptr head]; [done|]. run Ha.
    assert (rdi_get (bra_map area) (Z.of_nat (length pre)) = Some x) as Hget
      by (apply (repr_get _ _ _ _ Hr); by apply list_lookup_middle). by run Hget.
  - rewrite Nat2Z.id, take_ge; [done|]. destruct Hpos as (-> & _). lia.
Qed.

(** The positions when the first [i] have been passed. *)
Definition passed (e : Z) (curs : list (list m0_be_reg_d)) (n : nat) (i : Z) (p : list (option Z)) : Prop :=
  length p = n /\
  forall j l cur, srcs !! j = Some l -> curs !! j = Some cur ->
    p !! j = Some (at_pos l (if Z.of_nat j <? i then pass e cur else cur)).

Lemma passed_next e curs n i p p' l cur :
  passed e curs n i p -> 0 <= i -> srcs !! Z.to_nat i = Some l -> curs !! Z.to_nat i = Some cur ->
  length p' = length p -> p' !! Z.to_nat i = Some (at_pos l (pass e cur)) ->
  (forall j, j <> Z.to_nat i -> p' !! j = p !! j) -> passed e curs n (i + 1) p'.
Proof.
  intros [Hlen Hp] Hi Hl Hcur Hl' Hi' Hother. split; [congruence|]. intros j l' cur' Hlj Hcj.
  destruct (decide (j = Z.to_nat i)) as [->|Hne].
  - rewrite Hl in Hlj. rewrite Hcur in Hcj. injection Hlj as <-. injection Hcj as <-.
    rewrite Hi'. destruct (Z.ltb_spec (Z.of_nat (Z.to_nat i)) (i + 1)); [done|lia].
  - rewrite Hother by done. rewrite (Hp _ _ _ Hlj Hcj). do 2 f_equal.
    destruct (Z.ltb_spec (Z.of_nat j) i), (Z.ltb_spec (Z.of_nat j) (i + 1)); (done || lia).
Qed.

Lemma ptr_at_pos pre cur : at_pos (pre ++ cur) cur = ptr pre cur.
Proof. unfold at_pos, ptr. destruct cur; [done|]. f_equal. rewrite length_app. lia. Qed.

Lemma passed_swept e l cur addr : swept addr l cur -> regs_wf l -> addr < e ->
  match cur with h :: _ => e <= reg_end h | [] => True end -> swept e l (pass e cur).
Proof.
  intros (pre & -> & Hpre & Hcur) Hwf Hlt Hh. destruct cur as [|h cur]; cbn [pass].
  { exists pre. split; [done|]. split; [|done]. eapply Forall_impl; [exact Hpre|]. simpl. intros; lia. }
  apply regs_wf_middle in Hwf as ([Hw _] & (? & ? & ?) & _ & Hb). apply Forall_app in Hw as [_ Hw].
  assert (Forall (fun x => reg_end h < reg_end x) cur) as Hrest.
  { rewrite Forall_forall in Hb, Hw |- *. intros x Hx. specialize (Hb x Hx). destruct (Hw x Hx)
      as (? & ? & ?).
    unfold before, reg_end in *. lia. }
  assert (Forall (fun x => reg_end x <= e) pre) as Hpre'
    by (eapply Forall_impl; [exact Hpre|]; simpl; intros; lia).
  destruct (Z.eqb_spec (reg_end h) e) as [Heq|Hne].
  - exists (pre ++ [h]). rewrite <- app_assoc. split; [done|].
    split; [apply Forall_app; split; [done|apply Forall_singleton; lia]|].
    eapply Forall_impl; [exact Hrest|]. simpl. intros; lia.
  - exists pre. split; [done|]. split; [done|]. constructor; [lia|]. eapply Forall_impl; [exact Hrest|].
    simpl. intros; lia.
Qed.

(** Passing the regions that end with the piece. *)
Lemma pass_stale_ok addr pos curs e : pos_ok addr pos curs -> addr < e ->
  Forall (fun cur => match cur with h :: _ => e <= reg_end h | [] => True end) curs ->
  exists pos', pass_stale areas (Z.of_nat (length srcs)) e pos = Some pos' /\ pos_ok e pos' (pass e <$> curs).
Proof.
  intros Hpos Hlt Hends. unfold pass_stale. match goal
    with |- context [for_up _ _ ?f _] => set (body := f) end.
  destruct (for_up_total (passed e curs (length pos)) body 0 (Z.of_nat (length srcs)) pos)
    as (pos' & Hrun & Hlen & Hp').
  - lia.
  - split; [done|]. intros j l cur Hl Hcur. destruct (Z.ltb_spec (Z.of_nat j) 0); [lia|]. by apply Hpos.
  - intros i p Hi Hp. unfold body.
    destruct (pos_ok_lookup addr pos curs i Hpos Hi)
      as (l & cur & area & pre & Hl & Hcur & Ha & _ & -> & Hr & _).
    assert (p !! Z.to_nat i = Some (ptr pre cur)) as Hpi'.
    { rewrite (proj2 Hp _ _ _ Hl Hcur), Z2Nat.id, Z.ltb_irrefl by lia. by rewrite ptr_at_pos. }
    assert (arr_get p i = Some (ptr pre cur)) as Hpi by (apply arr_get_Some; split; [lia|done]).
    pose proof (lookup_lt_Some _ _ _ Hpi') as Hip. pose proof Hr as (_ & _ & _ & _ & Hwf).
    unfold pos_rd. run Hpi. destruct cur as [|x cur]; cbn [ptr mbind option_bind].
    { exists p. split; [done|]. eapply passed_next; try done; lia. }
    assert (rdi_get (bra_map area) (Z.of_nat (length pre)) = Some x) as Hget
      by (apply (repr_get _ _ _ _ Hr); by apply list_lookup_middle).
    pose proof (proj1 (proj2 (proj1 (regs_wf_middle _ _ _) Hwf))) as Hx.
    run Ha. run Hget. rewrite lb1_ok by done. destruct (Z.eqb_spec (reg_end x) e) as [Heq|Hne].
    + unfold m0_be_reg_area_next, m0_be_regmap_next. run (rdt_next_ok _ _ _ _ Hr).
      rewrite arr_set_ok by lia. eexists. split; [done|].
      eapply passed_next; try done; [lia|by rewrite length_insert| |].
      * rewrite list_lookup_insert_eq by done. cbn [pass]. rewrite (proj2 (Z.eqb_eq _ _)) by done. f_equal.
        unfold at_pos. destruct cur; [done|]. f_equal. rewrite length_app. cbn [length]. lia.
      * intros j Hj. by rewrite list_lookup_insert_ne.
    + exists p. split; [done|]. eapply passed_next; try done; [lia|]. rewrite Hpi'. cbn [pass].
      rewrite (proj2 (Z.eqb_neq _ _)) by done. by rewrite ptr_at_pos.
  - exists pos'. split; [done|]. destruct Hpos as (Hlc & Hlp & Hpos). split; [by rewrite length_fmap|].
    split; [lia|].
    intros j l cur Hl Hcur. apply list_lookup_fmap_Some in Hcur as (cur0 & -> & Hcur0).
    split; [|rewrite (Hp' _ _ _ Hl Hcur0); apply lookup_lt_Some in Hl; by rewrite (proj2 (Z.ltb_lt _ _))
      by lia].
    destruct (Hpos _ _ _ Hl Hcur0) as [Hsw _]. destruct (Hareas _ _ Hl) as (area & _ & (_ & _ & _ & _ & Hwf)).
    apply (passed_swept e l cur0 addr); try done. by apply (Forall_lookup_1 _ _ _ _ Hends Hcur0).
Qed.

End positions.

(** ** Lemmas: what is left to do *)

Lemma regs_wf_suffix pre l : regs_wf (pre ++ l) -> regs_wf l.
Proof.
  induction pre as [|x pre IH]; [done|]. intros Hwf. apply IH.
  by apply (regs_wf_middle []) in Hwf as (? & _).
Qed.

Definition sum_over (f : list m0_be_reg_d -> Z) (curs : list (list m0_be_reg_d)) : Z :=
  foldr (fun cur n => f cur + n) 0 curs.

(** The boundaries that are left, and the bytes. *)
Definition bounds_left (addr : Z) (cur : list m0_be_reg_d) : Z :=
  match cur with
  | [] => 0
  | h :: _ => 2 * Z.of_nat (length cur) - (if br_addr (rd_reg h) <=? addr then 1 else 0)
  end.

Definition bytes_left (addr : Z) (cur : list m0_be_reg_d) : Z :=
  foldr (fun x n => reg_end x - from addr x + n) 0 cur.

Lemma sum_over_le f g h curs d : Forall (fun cur => g (h cur) <= f cur) curs ->
  (d = 0 \/ exists cur, cur ∈ curs /\ g (h cur) + d <= f cur) ->
  sum_over g (h <$> curs) + d <= sum_over f curs.
Proof.
  induction 1 as [|c curs Hc Hall IH]; intros Hd; cbn [fmap list_fmap sum_over foldr].
  { destruct Hd as [->|(cur & Hcur & _)]; [lia|by apply not_elem_of_nil in Hcur]. }
  fold (sum_over g (h <$> curs)) (sum_over f curs). destruct Hd as [->|(cur & [->|Hcur]%elem_of_cons & Hle)].
  - specialize (IH (or_introl eq_refl)). lia.
  - assert (sum_over g (h <$> curs) + 0 <= sum_over f curs) as Hr.
    { clear -Hall. induction Hall as [|x l Hx _ IH]; cbn [fmap list_fmap sum_over foldr]; [lia|].
      fold (sum_over g (h <$> l)) (sum_over f l). lia. }
    lia.
  - specialize (IH (or_intror (ex_intro _ cur (conj Hcur Hle)))). lia.
Qed.

Lemma sum_over_nonneg f curs : Forall (fun cur => 0 <= f cur) curs -> 0 <= sum_over f curs.
Proof. induction 1 as [|c curs Hc _ IH]; [done|]. cbn [sum_over foldr]. fold (sum_over f curs). lia. Qed.

Lemma bounds_left_nonneg addr cur : 0 <= bounds_left addr cur.
Proof. destruct cur; [done|]. unfold bounds_left. cbn [length]. destruct (_ <=? _); lia. Qed.

Lemma bytes_left_nonneg addr cur : Forall reg_wf cur -> Forall (fun x => addr < reg_end x) cur ->
  0 <= bytes_left addr cur.
Proof.
  intros Hw Hc. induction cur as [|x cur IH]; [done|].
  apply Forall_cons in Hw as [(? & ? & ?) Hw], Hc as [Hx Hc].
  cbn [bytes_left foldr]. fold (bytes_left addr cur). specialize (IH Hw Hc). unfold from, reg_end in *. lia.
Qed.

(** The bytes of regions that start later do not depend on the address. *)
Lemma bytes_left_later a1 a2 l : Forall (fun x => a1 <= br_addr (rd_reg x) /\ a2 <= br_addr (rd_reg x)) l ->
  bytes_left a1 l = bytes_left a2 l.
Proof.
  induction 1 as [|x l [H1 H2] _ IH]; [done|]. cbn [bytes_left foldr].
  fold (bytes_left a1 l) (bytes_left a2 l).
  rewrite IH. unfold from. lia.
Qed.

(** One piece: nothing grows, and the lists that bound the piece shrink. *)
Lemma left_step addr e h rest : regs_wf (h :: rest) -> addr < e -> addr < reg_end h -> e <= reg_end h ->
  bounds_left e (pass e (h :: rest)) <= bounds_left addr (h :: rest) /\
  (e = reg_end h \/ e = from addr h -> bounds_left e (pass e (h :: rest)) + 1 <= bounds_left addr (h ::
    rest)) /\
  bytes_left e (pass e (h :: rest)) <= bytes_left addr (h :: rest) /\
  (from addr h < e -> bytes_left e (pass e (h :: rest)) + (e - from addr h) <= bytes_left addr (h :: rest)).
Proof.
  intros Hwf Hae Hah Heh. apply (regs_wf_middle []) in Hwf as (_ & (? & ? & ?) & _ & Hb).
  assert (bytes_left e rest = bytes_left addr rest) as Hrest.
  { apply bytes_left_later. eapply Forall_impl; [exact Hb|]. unfold before. simpl. intros x Hx. lia. }
  cbn [pass]. destruct (Z.eqb_spec (reg_end h) e) as [<-|Hne].
  - cbn [bytes_left foldr]. fold (bytes_left addr rest) (bytes_left (reg_end h) rest). rewrite Hrest.
    assert (bounds_left (reg_end h) rest + 1 <= bounds_left addr (h :: rest)) as Hbl.
    { unfold bounds_left. destruct rest; cbn [length]; repeat destruct (_ <=? _); lia. }
    unfold from, reg_end in *. lia.
  - cbn [bytes_left foldr]. fold (bytes_left addr rest) (bytes_left e rest). rewrite Hrest.
    unfold bounds_left. cbn [length]. unfold from, reg_end in *. split_and!; intros; zcases; lia.
Qed.

(** ** Lemmas: the bytes of a piece *)

Lemma locs_ended l addr a : Forall (fun x => reg_end x <= addr) l -> addr <= a -> locs l a = None.
Proof.
  intros Hl Ha. induction Hl as [|x l Hx _ IH]; [done|]. cbn [locs]. rewrite IH. unfold reg_loc.
  rewrite bool_decide_false; [done|]. simpl in Hx. lia.
Qed.

Lemma swept_locs addr l cur a : regs_wf l -> swept addr l cur -> addr <= a ->
  locs l a = match cur with
             | [] => None
             | h :: rest => if decide (br_addr (rd_reg h) <= a < reg_end h) then reg_loc h a
                            else if decide (a < reg_end h) then None else locs rest a
             end.
Proof.
  intros Hwf (pre & -> & Hpre & Hcur) Ha. rewrite locs_app, (locs_ended pre addr a Hpre Ha).
  destruct cur as [|h rest]; [done|]. cbn [locs].
  destruct (decide (br_addr (rd_reg h) <= a < reg_end h)) as [Hin|Hout].
  - unfold reg_loc. by rewrite bool_decide_true.
  - assert (reg_loc h a = None) as -> by (unfold reg_loc; by rewrite bool_decide_false).
    destruct (decide (a < reg_end h)) as [Hlt|]; [|done].
    apply regs_wf_middle in Hwf as (_ & _ & _ & Hb). induction Hb as [|x rest Hx _ IH]; [done|]. cbn [locs].
    rewrite IH; [|by apply Forall_cons in Hcur as [? [_ ?]%Forall_cons]; constructor].
    unfold reg_loc. rewrite bool_decide_false; [done|]. unfold before in Hx. lia.
Qed.

Section merge.
Context (uninit : m0_be_reg_d) (areas : list (option m0_be_reg_area)) (srcs : list (list m0_be_reg_d)).
Hypothesis Hareas : forall j l, srcs !! j = Some l ->
  exists area, areas !! j = Some (Some area) /\ rdt_repr (br_rdt (bra_map area)) l.
Hypothesis Hgens : gens_distinct srcs.
Hypothesis Hbufs : Forall (Forall (fun x => 0 < rd_buf x /\ rd_buf x + br_size (rd_reg x) < 2 ^ 64)) srcs.

Lemma srcs_wf l : l ∈ srcs -> regs_wf l.
Proof. intros [j Hj]%list_elem_of_lookup. by destruct (Hareas _ _ Hj) as (_ & _ & (_ & _ & _ & _ & ?)). Qed.

(** The state of the sweep at [addr]: what is below is merged, what is above is
    untouched. *)
Record sweep (addr : Z) (pos : list (option Z)) (curs : list (list m0_be_reg_d)) (ra : m0_be_reg_area) :
  Prop := {
  sw_pos : pos_ok srcs addr pos curs;
  sw_addr : 0 <= addr < 2 ^ 64;
  sw_area : area_ok ra;
  sw_type : bra_type ra = M0_BE_REG_AREA_DATA_NOCOPY;
  sw_below : forall a, a < addr -> merged srcs a (locs (ra_regs ra) a);
  sw_above : forall a, addr <= a -> locs (ra_regs ra) a = None;
  sw_nr : tc_reg_nr (bra_captured ra) + sum_over (bounds_left addr) curs <= tc_reg_nr
    (bra_prepared (ra_data ra));
  sw_size : tc_reg_size (bra_captured ra) + sum_over (bytes_left addr) curs <= tc_reg_size
    (bra_prepared (ra_data ra))
}.

(** The list a head comes from. *)
Lemma head_src addr pos curs j h : pos_ok srcs addr pos curs -> (head <$> curs) !! j = Some (Some h) ->
  exists l rest, srcs !! j = Some l /\ curs !! j = Some (h :: rest) /\ swept addr l (h :: rest) /\ h ∈ l /\
    regs_wf l /\ reg_wf h /\ addr < reg_end h.
Proof.
  intros (Hlc & _ & Hpos) Hj. apply list_lookup_fmap_Some in Hj as ([|x rest] & Hhd & Hcur); [done|].
  injection Hhd as <-.
  destruct (lookup_lt_is_Some_2 srcs j) as [l Hl]; [apply lookup_lt_Some in Hcur; lia|].
  destruct (Hpos _ _ _ Hl Hcur) as [Hsw _]. exists l, rest. split; [done|]. split; [done|]. split; [done|].
  assert (regs_wf l) as Hwf by (apply srcs_wf; by eapply list_elem_of_lookup_2).
  destruct Hsw as (pre & -> & _ & [? _]%Forall_cons). split; [set_solver|]. split; [done|].
  split; [|done]. by apply regs_wf_middle in Hwf as (_ & ? & _).
Qed.

Lemma heads_ok addr pos curs : pos_ok srcs addr pos curs ->
  Forall (fun h => reg_wf h /\ addr < reg_end h) (heads (head <$> curs)).
Proof.
  intros Hpos. apply Forall_forall. intros h Hh. apply list_elem_of_omap in Hh as ([x|] & Hx & [= ->]).
  apply list_elem_of_lookup in Hx as [j Hj]. by destruct (head_src _ _ _ _ _ Hpos Hj)
    as (l & rest & _ & _ & _ & _ & _ & ? & ?).
Qed.

Lemma heads_distinct addr pos curs i j x y : pos_ok srcs addr pos curs ->
  (head <$> curs) !! i = Some (Some x) -> (head <$> curs) !! j = Some (Some y) -> i <> j ->
  rd_gen_idx x <> rd_gen_idx y.
Proof.
  intros Hpos Hi Hj Hne. destruct (head_src _ _ _ _ _ Hpos Hi) as (l1 & _ & Hl1 & _ & _ & Hx & _).
  destruct (head_src _ _ _ _ _ Hpos Hj) as (l2 & _ & Hl2 & _ & _ & Hy & _). by apply (Hgens i j l1 l2).
Qed.

(** The pieces of the other lists. *)
Lemma piece_locs addr pos curs s e l a r : pos_ok srcs addr pos curs ->
  piece addr (heads (head <$> curs)) s e -> l ∈ srcs -> addr <= a < e -> locs l a = Some r ->
  s <= a /\ exists h, h ∈ heads (head <$> curs) /\ covers_piece s e h /\ reg_loc h a = Some r.
Proof.
  intros Hpos Hp Hl Ha Hr. pose proof (srcs_wf l Hl) as Hwf. apply list_elem_of_lookup in Hl as [j Hj].
  pose proof Hpos as (Hlc & _ & Hcurs).
  destruct (lookup_lt_is_Some_2 curs j) as [cur Hcur]; [apply lookup_lt_Some in Hj; lia|].
  destruct (Hcurs _ _ _ Hj Hcur) as [Hsw _]. rewrite (swept_locs addr l cur a Hwf Hsw) in Hr by lia.
  destruct cur as [|h rest]; [done|].
  assert (h ∈ heads (head <$> curs)) as Hh.
  { apply list_elem_of_omap. exists (Some h). split; [|done]. apply list_elem_of_lookup. exists j.
    by rewrite list_lookup_fmap, Hcur. }
  pose proof Hp as [Hlt _ Hall _ _]. rewrite Forall_forall in Hall. destruct (Hall h Hh) as [Hf He].
  destruct Hsw as (_ & _ & _ & [Hst _]%Forall_cons).
  destruct (decide (br_addr (rd_reg h) <= a < reg_end h)) as [Hin|Hout];
    [|rewrite decide_True in Hr by lia; done].
  unfold from in Hf. split; [lia|]. exists h. split; [done|]. split; [unfold covers_piece; lia|done].
Qed.

(** The measures after one piece. *)
Lemma measures_step addr pos curs s e : pos_ok srcs addr pos curs -> piece addr (heads (head <$> curs)) s e ->
  Forall (fun cur => match cur with h :: _ => e <= reg_end h | [] => True end) curs /\
  sum_over (bounds_left e) (pass e <$> curs) + 1 <= sum_over (bounds_left addr) curs /\
  sum_over (bytes_left e) (pass e <$> curs) + (e - s) <= sum_over (bytes_left addr) curs /\
  0 <= sum_over (bounds_left e) (pass e <$> curs) /\ 0 <= sum_over (bytes_left e) (pass e <$> curs).
Proof.
  intros Hpos Hp. pose proof Hp as [Hlt _ Hall (h1 & Hh1 & Hf1) (h2 & Hh2 & Hf2)].
  rewrite Forall_forall in Hall.
  assert (forall j h rest, curs !! j = Some (h :: rest) -> regs_wf (h :: rest) /\ addr < reg_end h /\
    (from addr h = s \/ e <= from addr h) /\ e <= reg_end h) as Hstep.
  { intros j h rest Hj. assert ((head <$> curs) !! j = Some (Some h)) as Hhd
      by (by rewrite list_lookup_fmap, Hj).
    destruct (head_src _ _ _ _ _ Hpos Hhd) as (l & rest' & Hl & Hc & (pre & -> & _ & _) & _ & Hwf & _ & Ha).
    rewrite Hj in Hc. injection Hc as <-. split; [by apply (regs_wf_suffix pre)|]. split; [done|]. apply Hall.
    apply list_elem_of_omap. exists (Some h). split; [by eapply list_elem_of_lookup_2|done]. }
  assert (forall h, h ∈ heads (head <$> curs) -> exists j rest, curs !! j = Some (h :: rest)) as Hfind.
  { intros h Hh. apply list_elem_of_omap in Hh as ([x|] & Hx & [= ->]). apply list_elem_of_lookup in Hx
      as [j Hj].
    apply list_lookup_fmap_Some in Hj as ([|y rest] & Hhd & Hcur); [done|]. injection Hhd as ->.
    by exists j, rest. }
  split; [|split; [|split; [|split]]].
  - apply Forall_lookup. intros j [|h rest] Hj; [done|]. by destruct (Hstep j h rest Hj) as (_ & _ & _ & ?).
  - apply sum_over_le.
    + apply Forall_lookup. intros j [|h rest] Hj; [done|]. destruct (Hstep j h rest Hj) as (? & ? & ? & ?).
      apply left_step; (done || lia).
    + right. destruct (Hfind h2 Hh2) as (j & rest & Hj). exists (h2 :: rest).
      split; [by eapply list_elem_of_lookup_2|].
      destruct (Hstep j h2 rest Hj) as (? & ? & ? & ?). apply left_step; (done || lia).
  - apply sum_over_le.
    + apply Forall_lookup. intros j [|h rest] Hj; [done|]. destruct (Hstep j h rest Hj) as (? & ? & ? & ?).
      apply left_step; (done || lia).
    + right. destruct (Hfind h1 Hh1) as (j & rest & Hj). exists (h1 :: rest).
      split; [by eapply list_elem_of_lookup_2|].
      destruct (Hstep j h1 rest Hj) as (? & ? & ? & ?). rewrite <- Hf1. apply left_step; (done || lia).
  - apply sum_over_nonneg, Forall_forall. intros cur _. apply bounds_left_nonneg.
  - apply sum_over_nonneg, Forall_lookup. intros j cur Hj.
    apply list_lookup_fmap_Some in Hj as ([|h rest] & -> & Hj); [done|].
    destruct (Hstep j h rest Hj) as (Hw & Ha & _ & He).
    pose proof (proj1 (regs_wf_middle [] _ _) Hw) as ([Hwr _] & Hwh & _ & Hb).
    assert (Forall (fun x => e < reg_end x) rest) as Hr.
    { cbn [app] in Hwr. rewrite Forall_forall in Hb,
        Hwr |- *. intros x Hx. specialize (Hb x Hx). destruct (Hwr x Hx) as (? & ? & ?).
      unfold before, reg_end in *. lia. }
    cbn [pass]. destruct (Z.eqb_spec (reg_end h) e); apply bytes_left_nonneg; try done;
      [by constructor|constructor; [lia|done]].
Qed.

(** The best entry for the bytes of a piece. *)
Lemma piece_merged addr pos curs s e h a : pos_ok srcs addr pos curs ->
  piece addr (heads (head <$> curs)) s e ->
  h ∈ heads (head <$> curs) -> covers_piece s e h ->
  (forall x, x ∈ heads (head <$> curs) -> covers_piece s e x -> rd_gen_idx x <= rd_gen_idx h) ->
  addr <= a < e -> merged srcs a (if decide (s <= a) then reg_loc h a else None).
Proof.
  intros Hpos Hp Hh Hc Hmax Ha. destruct (decide (s <= a)) as [Hs|Hs]; cycle 1.
  { apply Forall_forall. intros l Hl. destruct (locs l a) as [r|] eqn:E; [|done].
    destruct (piece_locs addr pos curs s e l a r Hpos Hp Hl Ha E) as [? _]. lia. }
  unfold covers_piece in Hc. assert (reg_loc h a = Some (u64 (rd_buf h + (a - br_addr (rd_reg h))),
    rd_gen_idx h)) as Hr.
  { unfold reg_loc. by rewrite bool_decide_true by lia. }
  rewrite Hr. split.
  - apply list_elem_of_omap in Hh as ([x|] & Hx & [= ->]). apply list_elem_of_lookup in Hx as [j Hj].
    destruct (head_src _ _ _ _ _ Hpos Hj) as (l & rest & Hl & Hcur & Hsw & Hhl & Hwl & _ & _).
    exists l. split; [by eapply list_elem_of_lookup_2|]. rewrite (swept_locs addr l _ a Hwl Hsw) by lia.
    by rewrite decide_True by lia.
  - intros l p gen Hl E. destruct (piece_locs addr pos curs s e l a _ Hpos Hp Hl Ha E)
      as (_ & x & Hx & Hcx & Hlx).
    unfold reg_loc in Hlx. case_bool_decide; [|done]. injection Hlx as _ <-. by apply Hmax.
Qed.

(** One piece. *)
Lemma sweep_step addr pos curs ra : sweep addr pos curs ra -> heads (head <$> curs) <> [] ->
  exists s e rd_new ra' pos', be_reg_d_arr_first_subreg (head <$> curs) addr = Some (s, e - s) /\
    be_reg_area_merger_max_gen_idx (head <$> curs) (Z.of_nat (length srcs)) s (e - s) = Some rd_new /\
    m0_be_reg_area_capture uninit ra rd_new = Some ra' /\ u64 (s + (e - s)) = e /\
    pass_stale areas (Z.of_nat (length srcs)) e pos = Some pos' /\
    sweep e pos' (pass e <$> curs) ra' /\
    sum_over (bounds_left e) (pass e <$> curs) + 1 <= sum_over (bounds_left addr) curs.
Proof.
  intros [Hpos Haddr Hok Hty Hbelow Habove Hnr Hsz] Hne. pose proof (heads_ok _ _ _ Hpos) as Hwf.
  destruct (first_subreg_ok addr (head <$> curs) ltac:(lia) Hne Hwf) as (s & e & Hsub & Hp).
  destruct (measures_step addr pos curs s e Hpos Hp) as (Hends & Hm1 & Hm2 & Hm3 & Hm4).
  pose proof Hp as [Hlt Hs0 Hall _ (h2 & Hh2 & _)].
  assert (e < 2 ^ 64) as He.
  { rewrite Forall_forall in Hall, Hwf. destruct (Hall h2 Hh2) as [_ He], (Hwf h2 Hh2)
      as [(? & ? & ?) _]. lia. }
  destruct (max_gen_ok (head <$> curs) addr s e Hwf Hp He) as (h & Hh & Hc & Hmax & Hgen).
  { intros i j x y. apply (heads_distinct addr pos curs i j x y Hpos). }
  rewrite length_fmap, (proj1 Hpos) in Hgen.
  match type of Hgen with _ = Some ?r => set (rd_new := r) in * end.
  pose proof Hh as Hh'. apply list_elem_of_omap in Hh' as ([x|] & Hx & [= ->]).
  apply list_elem_of_lookup in Hx as [j Hj].
  destruct (head_src _ _ _ _ _ Hpos Hj) as (l & rest & Hl & Hcur & Hsw & Hhl & Hwl & Hwh & Hah).
  assert (s - br_addr (rd_reg h) < br_size (rd_reg h)) as Hoff by (unfold covers_piece, reg_end in *; lia).
  assert (rd_buf rd_new = rd_buf h + (s - br_addr (rd_reg h)) /\ 0 < rd_buf rd_new) as [Hbuf Hbuf0].
  { pose proof (Forall_lookup_1 _ _ _ _ Hbufs Hl) as Hb. rewrite Forall_forall in Hb. destruct (Hb h Hhl)
      as [? ?].
    unfold covers_piece in Hc. cbn [rd_new rd_buf]. rewrite u64_small by (unfold is_u64; lia). lia. }
  assert (reg_end rd_new = e) as Hen by (unfold reg_end; cbn; lia).
  destruct (area_capture_ok uninit ra rd_new Hok)
    as (ra' & data' & rd' & Hcap & Hadd & Hdata & Hty' & Hn' & Hs' & Hok' & Hlocs).
  { unfold reg_wf. rewrite Hen. cbn. lia. } { split; cbn [rd_new rd_reg br_size];
      lia. } { unfold source_ok. rewrite Hty. lia. }
  rewrite Hty in Hadd. cbn [be_reg_area_ops rmo_add be_reg_area_ops_data_nocopy] in Hadd.
  unfold be_reg_area_add in Hadd.
  unbind Hadd. injection Hadd as <- <-.
  destruct (pass_stale_ok areas srcs Hareas addr pos curs e Hpos ltac:(lia) Hends) as (pos' & Hpass & Hpos').
  exists s, e, rd_new, ra', pos'. split; [done|]. split; [done|]. split; [done|].
  split; [rewrite u64_small by (unfold is_u64; lia); lia|]. split; [done|]. split; [|done].
  assert (forall a, in_reg rd_new a <-> s <= a < e) as Hin by (intros a; unfold in_reg; rewrite Hen; done).
  split; try done; [lia|congruence| | | |]; rewrite ?Hdata, ?Hn', ?Hs'; cbn [rd_new rd_reg br_size]; try lia.
  - intros a Ha. rewrite Hlocs. destruct (Z_lt_ge_dec a addr) as [Hlow|Hhigh].
    { rewrite decide_False by (rewrite Hin; lia). by apply Hbelow. }
    pose proof (piece_merged addr pos curs s e h a Hpos Hp Hh Hc Hmax ltac:(lia)) as Hm.
    rewrite (Habove a) by lia. destruct (decide (s <= a)) as [Hsa|Hsa];
      [rewrite decide_True by (rewrite Hin; lia)|rewrite decide_False by (rewrite Hin; lia); done].
    replace (reg_loc rd_new a) with (reg_loc h a); [done|]. unfold reg_loc. unfold covers_piece in Hc.
    rewrite Hbuf.
    rewrite !bool_decide_true by (rewrite ?Hen; cbn; lia). cbn [rd_new rd_reg br_addr rd_gen_idx].
    do 3 f_equal. lia.
  - intros a Ha. rewrite Hlocs, decide_False by (rewrite Hin; lia). apply Habove. lia.
Qed.

Lemma some_left addr pos curs : pos_ok srcs addr pos curs ->
  existsb (fun p : option Z => match p with None => false | Some _ => true end)
    (take (Z.to_nat (Z.of_nat (length srcs))) pos) = false <-> heads (head <$> curs) = [].
Proof.
  intros (Hlc & Hlp & Hpos). rewrite Nat2Z.id. split.
  - intros Hex. assert (Forall (fun cur => cur = []) curs) as Hall.
    { apply Forall_lookup. intros j cur Hcur. pose proof (lookup_lt_Some _ _ _ Hcur).
      destruct (lookup_lt_is_Some_2 srcs j) as [l Hl]; [lia|]. destruct (Hpos _ _ _ Hl Hcur) as [_ Hp].
      destruct cur as [|x cur]; [done|]. rewrite <- not_true_iff_false, existsb_exists in Hex. destruct Hex.
      eexists. split; [apply list_elem_of_In, list_elem_of_lookup; exists j; rewrite lookup_take_lt by lia;
        exact Hp|done]. }
    clear - Hall. induction Hall as [|cur curs -> _ IH]; [done|]. exact IH.
  - intros Hh. rewrite <- not_true_iff_false, existsb_exists. intros (p & Hp%list_elem_of_In & Hsome).
    apply list_elem_of_lookup in Hp as [j Hj]. apply lookup_take_Some in Hj as [Hj Hlt].
    destruct (lookup_lt_is_Some_2 srcs j) as [l Hl]; [lia|].
    destruct (lookup_lt_is_Some_2 curs j) as [cur Hcur]; [lia|].
    destruct (Hpos _ _ _ Hl Hcur) as [_ Hp]. rewrite Hj in Hp. injection Hp as ->.
    destruct cur as [|x cur]; [done|].
    assert (x ∈ heads (head <$> curs)) as Hx; [|rewrite Hh in Hx; by apply not_elem_of_nil in Hx].
    apply list_elem_of_omap. exists (Some x). split; [|done]. apply list_elem_of_lookup. exists j.
    by rewrite list_lookup_fmap, Hcur.
Qed.

(** When nothing is left, everything is merged. *)
Lemma sweep_done addr pos curs ra : sweep addr pos curs ra -> heads (head <$> curs) = [] ->
  forall a, merged srcs a (locs (ra_regs ra) a).
Proof.
  intros [Hpos Haddr Hok Hty Hbelow Habove Hnr Hsz] Hh a.
  destruct (Z_lt_ge_dec a addr) as [Hlt|Hge]; [by apply Hbelow|].
  rewrite Habove by lia. apply Forall_forall. intros l Hl. pose proof (srcs_wf l Hl) as Hwf.
  apply list_elem_of_lookup in Hl as [j Hj]. destruct Hpos as (Hlc & _ & Hcurs).
  destruct (lookup_lt_is_Some_2 curs j) as [cur Hcur]; [apply lookup_lt_Some in Hj; lia|].
  destruct (Hcurs _ _ _ Hj Hcur) as [Hsw _]. rewrite (swept_locs addr l cur a Hwf Hsw) by lia.
  destruct cur as [|x cur]; [done|]. assert (x ∈ heads (head <$> curs)) as Hx;
    [|rewrite Hh in Hx; by apply not_elem_of_nil in Hx].
  apply list_elem_of_omap. exists (Some x). split; [|done]. apply list_elem_of_lookup. exists j.
  by rewrite list_lookup_fmap, Hcur.
Qed.

Lemma merge_loop_ok fuel addr pos curs ra : sweep addr pos curs ra ->
  sum_over (bounds_left addr) curs <= Z.of_nat fuel ->
  exists ra', merge_loop fuel uninit areas (Z.of_nat (length srcs)) pos addr ra = Some ra' /\ area_ok ra' /\
    forall a, merged srcs a (locs (ra_regs ra') a).
Proof.
  revert addr pos curs ra. induction fuel as [|fuel IH]; intros addr pos curs ra Hsw Hf; cbn [merge_loop];
    pose proof Hsw as [Hpos Haddr Hok Hty Hbelow Habove Hnr Hsz]; pose proof (some_left addr pos curs Hpos)
      as Hleft;
    destruct (existsb _ _) eqn:Eex.
  - assert (heads (head <$> curs) <> []) as Hne by (intros Hh; by apply Hleft in Hh).
    destruct (sweep_step addr pos curs ra Hsw Hne)
      as (s & e & rd_new & ra' & pos' & _ & _ & _ & _ & _ & Hsw' & Hlt).
    pose proof (sum_over_nonneg (bounds_left e) (pass e <$> curs)) as Hnn.
    rewrite Forall_forall in Hnn. specialize (Hnn (fun cur _ => bounds_left_nonneg e cur)). lia.
  - exists ra. split; [done|]. split; [done|]. by apply (sweep_done addr pos curs); [|apply Hleft].
  - assert (heads (head <$> curs) <> []) as Hne by (intros Hh; by apply Hleft in Hh).
    destruct (sweep_step addr pos curs ra Hsw Hne)
      as (s & e & rd_new & ra' & pos' & H1 & H2 & H3 & H4 & H5 & Hsw' & Hlt).
    run (pos_rds_ok areas srcs Hareas addr pos curs Hpos). run H1. run H2. run H3. rewrite H4. run H5.
    apply (IH e pos' (pass e <$> curs)); [done|lia].
  - exists ra. split; [done|]. split; [done|]. by apply (sweep_done addr pos curs); [|apply Hleft].
Qed.

End merge.

(** ** From the areas to the merged area *)

Fixpoint merger_add_all (brm : m0_be_reg_area_merger) (ras : list m0_be_reg_area) :
  option m0_be_reg_area_merger :=
  match ras with
  | [] => Some brm
  | ra :: ras => brm ← m0_be_reg_area_merger_add brm ra; merger_add_all brm ras
  end.

Lemma merger_add_all_ok ras done_ n junk pos :
  (length ras + length done_ <= n)%nat -> length (done_ ++ junk) = n ->
  exists junk', merger_add_all {| brm_reg_area_nr_max := Z.of_nat n;
    brm_reg_area_nr := Z.of_nat (length done_);
      brm_reg_areas := done_ ++ junk; brm_pos := pos |} ras =
    Some {| brm_reg_area_nr_max := Z.of_nat n; brm_reg_area_nr := Z.of_nat (length (done_ ++ (Some <$> ras)));
            brm_reg_areas := (done_ ++ (Some <$> ras)) ++ junk'; brm_pos := pos |}.
Proof.
  revert done_ junk. induction ras as [|ra ras IH]; intros done_ junk Hn Hlen; cbn [merger_add_all].
  { exists junk. cbn [fmap list_fmap]. by rewrite app_nil_r. }
  unfold m0_be_reg_area_merger_add. cbn [brm_reg_area_nr brm_reg_area_nr_max brm_reg_areas brm_pos length]
    in *.
  assert_ok by lia. rewrite length_app in Hlen. destruct junk as [|x junk]; [cbn [length] in Hlen; lia|].
  run arr_set_middle by done. destruct (IH (done_ ++ [Some ra]) junk) as (junk' & Hrun).
  { rewrite length_app. cbn [length]. lia. } { rewrite !length_app. cbn [length] in *. lia. }
  exists junk'. replace (Z.of_nat (length done_) + 1) with (Z.of_nat (length (done_ ++ [Some ra])))
    by (rewrite length_app; cbn [length]; lia).
  rewrite <- app_assoc in Hrun. cbn [app] in Hrun. rewrite Hrun. cbn [fmap list_fmap].
  by rewrite <- !app_assoc.
Qed.

(** The positions at the start. *)
Lemma first_pos_ok ras junk pos : Forall area_ok ras -> (length ras <= length pos)%nat ->
  exists pos', for_up 0 (Z.of_nat (length ras)) (fun i pos =>
      area ← arr_get ((Some <$> ras) ++ junk) i;
      area ← area;
      p ← m0_be_reg_area_first area;
      arr_set pos i p) pos = Some pos' /\ length pos' = length pos /\
    forall j ra, ras !! j = Some ra -> pos' !! j = Some (at_pos (ra_regs ra) (ra_regs ra)).
Proof.
  intros Hok Hlen. match goal with |- context [for_up _ _ ?f _] => set (body := f) end.
  destruct (for_up_total (fun i p => length p = length pos /\ forall j ra, Z.of_nat j < i ->
    ras !! j = Some ra ->
      p !! j = Some (at_pos (ra_regs ra) (ra_regs ra))) body 0 (Z.of_nat (length ras)) pos)
        as (pos' & Hrun & Hl & Hp).
  - lia.
  - split; [done|lia].
  - intros i p Hi [Hl Hp]. unfold body. destruct (lookup_lt_is_Some_2 ras (Z.to_nat i)) as [ra Hra]; [lia|].
    assert (arr_get ((Some <$> ras) ++ junk) i = Some (Some ra)) as Hget.
    { apply arr_get_Some. split; [lia|]. rewrite lookup_app_l by (rewrite length_fmap; lia).
        by rewrite list_lookup_fmap, Hra. }
    run Hget. pose proof (Forall_lookup_1 _ _ _ _ Hok Hra) as [(Hr & _) _ _ _ _].
    pose proof Hr as (_ & _ & _ & _ & Hwf & _).
    unfold m0_be_reg_area_first, m0_be_regmap_first.
    rewrite (rdt_find_ok _ [] (ra_regs ra) 0 Hr); cycle 1.
    { split; [constructor|]. eapply Forall_impl; [exact Hwf|]. intros x (? & ? & ?). unfold reg_end. lia. }
    cbn [mbind option_bind]. rewrite arr_set_ok by lia. eexists. split; [done|].
    split; [by rewrite length_insert|].
    intros j ra' Hj Hra'. destruct (decide (j = Z.to_nat i)) as [->|Hne].
    + rewrite list_lookup_insert_eq by lia. rewrite Hra in Hra'. injection Hra' as <-. f_equal. unfold at_pos.
      destruct (ra_regs ra); [done|]. f_equal. cbn [length]. lia.
    + rewrite list_lookup_insert_ne by done. apply Hp; [lia|done].
  - exists pos'. split; [done|]. split; [done|]. intros j ra Hra.
    apply Hp; [apply lookup_lt_Some in Hra; lia|done].
Qed.

(** At the start, nothing is swept. *)
Lemma start_bounds l : regs_wf l -> bounds_left 0 l = 2 * Z.of_nat (length l) /\ bytes_left 0 l = sum_size l.
Proof.
  intros [Hwf _]. induction Hwf as [|x l (? & ? & ?) Hl [_ IH]]; [done|]. split.
  - unfold bounds_left. rewrite (proj2 (Z.leb_gt _ _)) by lia. lia.
  - cbn [bytes_left sum_size foldr]. fold (bytes_left 0 l) (sum_size l). rewrite IH. unfold from, reg_end.
    lia.
Qed.

Lemma start_sums srcs : Forall regs_wf srcs ->
  sum_over (bounds_left 0) srcs = 2 * Z.of_nat (length (mjoin srcs)) /\
  sum_over (bytes_left 0) srcs = sum_size (mjoin srcs).
Proof.
  assert (forall l1 l2, sum_size (l1 ++ l2) = sum_size l1 + sum_size l2) as Happ.
  { intros l1 l2. induction l1 as [|x l1 IH];
      [done|]. cbn [app sum_size foldr]. fold (sum_size (l1 ++ l2)) (sum_size l1). lia. }
  induction 1 as [|l srcs Hl _ [IH1 IH2]]; [done|]. change (mjoin (l :: srcs)) with (l ++ mjoin srcs).
  cbn [sum_over foldr].
  fold (sum_over (bounds_left 0) srcs) (sum_over (bytes_left 0) srcs). rewrite IH1, IH2.
  destruct (start_bounds l Hl) as [-> ->]. rewrite length_app, Happ. lia.
Qed.

Lemma merge_fuel_ok ras junk : Forall area_ok ras ->
  Z.of_nat (merge_fuel ((Some <$> ras) ++ junk) (Z.of_nat (length ras))) = 2 * Z.of_nat
    (length (mjoin (ra_regs <$> ras))).
Proof.
  intros Hok. unfold merge_fuel. rewrite Nat2Z.id, take_app_length' by (by rewrite length_fmap).
  induction Hok as [|ra ras [((_ & Hsz & _) & _) _ _ _ _] _ IH]; [done|].
  cbn [fmap list_fmap foldr].
  change (mjoin (ra_regs ra :: ?l)) with (ra_regs ra ++ mjoin l). rewrite length_app, Hsz.
  cbn [fmap list_fmap] in IH. lia.
Qed.

(** ** Properties *)

(** C7. m0_be_reg_area_merger_merge_to(): for any number of areas whose regions
    carry different generations, given credit for every boundary of their regions
    and all their bytes, the merge into an empty area without copies terminates
    and succeeds, and the result holds, for every address, the buffer and the
    generation of the area with the largest generation there, and nothing for the
    addresses that are in no area. *)
Theorem merger_merge_spec uninit n ras ra :
  (length ras <= n)%nat -> Forall area_ok ras -> gens_distinct (ra_regs <$> ras) ->
  Forall (Forall (fun x => 0 < rd_buf x /\ rd_buf x + br_size (rd_reg x) < 2 ^ 64)) (ra_regs <$> ras) ->
  area_ok ra -> bra_type ra = M0_BE_REG_AREA_DATA_NOCOPY -> ra_regs ra = [] ->
  tc_reg_nr (bra_captured ra) + 2 * Z.of_nat (length (mjoin (ra_regs <$> ras))) <=
    tc_reg_nr (bra_prepared (ra_data ra)) ->
  tc_reg_size (bra_captured ra) + sum_size (mjoin (ra_regs <$> ras)) <= tc_reg_size
    (bra_prepared (ra_data ra)) ->
  exists brm ra',
    merger_add_all (snd (m0_be_reg_area_merger_init true true (Z.of_nat n))) ras = Some brm /\
    m0_be_reg_area_merger_merge_to uninit brm ra = Some ra' /\ area_ok ra' /\
    forall a, merged (ra_regs <$> ras) a (locs (ra_regs ra') a).
Proof.
  intros Hn Hoks Hgens Hbufs Hok Hty Hnil Hnr Hsz.
  destruct (merger_add_all_ok ras [] n (replicate n None) (replicate n None)) as (junk & Hadd).
  { cbn [length]. lia. } { cbn [app]. by rewrite length_replicate. }
  unfold m0_be_reg_area_merger_init. cbn [andb snd]. rewrite Nat2Z.id. eexists. cbn [app length] in Hadd.
  destruct (first_pos_ok ras junk (replicate n None) Hoks) as (pos & Hpos & Hplen & Hp);
    [by rewrite length_replicate|].
  set (areas := (Some <$> ras) ++ junk) in *. set (srcs := ra_regs <$> ras) in *.
  assert (length srcs = length ras) as Hls by apply length_fmap.
  assert (forall j l, srcs !! j = Some l -> exists area, areas !! j = Some (Some area) /\
    rdt_repr (br_rdt (bra_map area)) l) as Hareas.
  { intros j l Hj. apply list_lookup_fmap_Some in Hj as (ra1 & -> & Hra1). exists ra1. split.
    - unfold areas. apply lookup_app_l_Some. by rewrite list_lookup_fmap, Hra1.
    - by destruct (Forall_lookup_1 _ _ _ _ Hoks Hra1) as [(? & _) _ _ _ _]. }
  assert (Forall regs_wf srcs) as Hwf.
  { apply Forall_lookup. intros j l Hj. by destruct (Hareas j l Hj) as (_ & _ & (_ & _ & _ & _ & ?)). }
  destruct (start_sums srcs Hwf) as [Hb1 Hb2].
  destruct (merge_loop_ok uninit areas srcs Hareas Hgens Hbufs (merge_fuel areas (Z.of_nat (length ras))) 0
    pos srcs ra)
    as (ra' & Hrun & Hok' & Hmerged).
  - split; [|lia|exact Hok|exact Hty| |by intros; rewrite Hnil|lia|lia].
    + split; [done|]. split; [rewrite Hplen, length_replicate; lia|]. intros j l cur Hl Hcur.
      rewrite Hl in Hcur. injection Hcur as <-.
      split; [|apply list_lookup_fmap_Some in Hl as (ra1 & -> & Hra1); by apply Hp].
      exists []. split; [done|]. split; [constructor|].
      eapply Forall_impl; [exact (proj1 (Forall_lookup_1 _ _ _ _ Hwf Hl))|].
      intros x (? & ? & ?). unfold reg_end. lia.
    + intros a Ha. rewrite Hnil. apply Forall_forall. intros l Hl. rewrite Forall_forall in Hwf.
      destruct (Hwf l Hl) as [Hw _].
      clear - Hw Ha. induction Hw as [|x l (? & ? & ?) _ IH]; [done|]. cbn [locs]. rewrite IH. unfold reg_loc.
      rewrite bool_decide_false; [done|]. lia.
  - rewrite Hb1. unfold areas. rewrite merge_fuel_ok by done. unfold srcs. lia.
  - exists ra'. split; [exact Hadd|]. unfold m0_be_reg_area_merger_merge_to.
    cbn [brm_reg_areas brm_reg_area_nr brm_pos].
    rewrite length_fmap. rewrite Hls in Hrun. fold areas. rewrite Hpos. done.
Qed.

(** An area without copies that has used its credit for one region. *)
Definition example_src (addr size buf gen : Z) : option m0_be_reg_area :=
  '(_, ra) ← m0_be_reg_area_init example_mem (Some [example_rd 0 0 0 0]) 1 (M0_BE_TX_CREDIT 1 size)
    M0_BE_REG_AREA_DATA_NOCOPY;
  m0_be_reg_area_capture (example_rd 0 0 0 0) ra (example_rd addr size buf gen).

Lemma example_src_ok addr size buf gen : 0 < addr -> 0 < size -> addr + size < 2 ^ 63 -> 0 < buf ->
  exists ra, example_src addr size buf gen = Some ra /\ area_ok ra.
Proof.
  intros Ha Hs Hb Hbuf. unfold example_src.
  destruct (area_init_ok example_mem [example_rd 0 0 0 0] 1 (M0_BE_TX_CREDIT 1 size)
    M0_BE_REG_AREA_DATA_NOCOPY)
    as (ra & Hinit & Hok & _ & Hty & Hcap & Hpre & _); [cbn; lia|cbn; lia|done|cbn; lia|].
  run Hinit. destruct (area_capture_ok (example_rd 0 0 0 0) ra (example_rd addr size buf gen) Hok)
    as (ra' & _ & _ & Hrun & _ & _ & _ & _ & _ & Hok' & _).
  - apply example_rd_wf; lia.
  - split; rewrite Hcap, Hpre; cbn; lia.
  - unfold source_ok. rewrite Hty. cbn. lia.
  - by exists ra'.
Qed.

Definition example_group (nr size : Z) : option m0_be_reg_area :=
  '(_, ra) ← m0_be_reg_area_init example_mem (Some (replicate (Z.to_nat (nr * 2 - 1)) (example_rd 0 0 0 0))) 1
    (M0_BE_TX_CREDIT nr size) M0_BE_REG_AREA_DATA_NOCOPY;
  Some ra.

Lemma example_group_ok nr size : 0 < nr < 2 ^ 61 -> 0 <= size < 2 ^ 63 ->
  exists ra, example_group nr size = Some ra /\ area_ok ra /\ bra_type ra = M0_BE_REG_AREA_DATA_NOCOPY /\
    ra_regs ra = [] /\ bra_captured ra = zero_credit /\ bra_prepared (ra_data ra) = M0_BE_TX_CREDIT nr size.
Proof.
  intros Hn Hs. unfold example_group.
  destruct (area_init_ok example_mem (replicate (Z.to_nat (nr * 2 - 1)) (example_rd 0 0 0 0)) 1
    (M0_BE_TX_CREDIT nr size)
    M0_BE_REG_AREA_DATA_NOCOPY) as (ra & Hinit & Hok & Hregs & Hty & Hcap & Hpre & _); [cbn; lia|cbn; lia|
      |cbn; lia|].
  { rewrite length_replicate. change (tc_reg_nr (M0_BE_TX_CREDIT nr size))
      with nr. rewrite (proj2 (Z.eqb_neq nr 0)) by lia. lia. }
  run Hinit. by exists ra.
Qed.

Lemma example_gens rd1 rd2 : rd_gen_idx rd1 <> rd_gen_idx rd2 -> gens_distinct [[rd1]; [rd2]].
Proof.
  intros Hne [|[|i]] [|[|j]] l1 l2 x y Hi Hj Hij Hx Hy; try done; injection Hi as <-; injection Hj as <-;
    apply list_elem_of_singleton in Hx, Hy; subst; (done || congruence).
Qed.

(** The merge can need more credit than the transactions of the group
    prepared together: two areas that prepared one region each and captured
    nested regions, merged into an area prepared for two regions and all their
    bytes, make m0_be_reg_area_merger_merge_to() fail the credit assertion of
    m0_be_reg_area_capture(), because the outer region is captured in two pieces
    besides the inner one. *)
Theorem merger_credit_shortage :
  exists ra1 ra2 brm ra, area_ok ra1 /\ area_ok ra2 /\ area_ok ra /\ ra_regs ra = [] /\
    gens_distinct (ra_regs <$> [ra1; ra2]) /\
    m0_be_tx_credit_le (m0_be_tx_credit_add (bra_prepared (ra_data ra1)) (bra_prepared (ra_data ra2)))
      (bra_prepared (ra_data ra)) = true /\
    merger_add_all (snd (m0_be_reg_area_merger_init true true 2)) [ra1; ra2] = Some brm /\
    forall uninit, m0_be_reg_area_merger_merge_to uninit brm ra = None.
Proof.
  destruct (example_src_ok 1000 100 5000 1) as (ra1 & H1 & Hok1); [lia..|].
  destruct (example_src_ok 1040 10 9000 2) as (ra2 & H2 & Hok2); [lia..|].
  destruct (example_group_ok 2 110) as (ra & H3 & Hok & _ & Hnil & _); [lia..|].
  destruct (merger_add_all_ok [ra1; ra2] [] 2 [None; None] [None; None]) as (junk & Hadd); [cbn; lia|done|].
  refine (ex_intro _ ra1 (ex_intro _ ra2 (ex_intro _ _ (ex_intro _ ra
    (conj Hok1 (conj Hok2 (conj Hok (conj Hnil (conj _ (conj _ (conj Hadd _))))))))))).
  - assert (ra_regs ra1 = [example_rd 1000 100 5000 1]) as Hr1
      by (vm_compute in H1; injection H1 as <-; reflexivity).
    assert (ra_regs ra2 = [example_rd 1040 10 9000 2]) as Hr2
      by (vm_compute in H2; injection H2 as <-; reflexivity).
    cbn [fmap list_fmap]. rewrite Hr1, Hr2. by apply example_gens.
  - clear - H1 H2 H3. vm_compute in H1, H2, H3. injection H1 as <-. injection H2 as <-. injection H3 as <-.
    reflexivity.
  - clear - H1 H2 H3. intros uninit. vm_compute in H1, H2, H3. injection H1 as <-. injection H2 as <-.
    injection H3 as <-.
    vm_compute. reflexivity.
Qed.

Lemma merger_merge_spec_witness :
  exists ra1 ra2 brm ra ra', example_src 1000 100 5000 1 = Some ra1 /\
  example_src 1040 10 9000 2 = Some ra2 /\
    example_group 4 110 = Some ra /\
    m0_be_reg_area_merger_merge_to (example_rd 0 0 0 0) brm ra = Some ra' /\
    forall a, merged (ra_regs <$> [ra1; ra2]) a (locs (ra_regs ra') a).
Proof.
  destruct (example_src_ok 1000 100 5000 1) as (ra1 & H1 & Hok1); [lia..|].
  destruct (example_src_ok 1040 10 9000 2) as (ra2 & H2 & Hok2); [lia..|].
  destruct (example_group_ok 4 110) as (ra & H3 & Hok & Hty & Hnil & Hcap & Hpre); [lia..|].
  assert (ra_regs ra1 = [example_rd 1000 100 5000 1]) as Hr1
    by (vm_compute in H1; injection H1 as <-; reflexivity).
  assert (ra_regs ra2 = [example_rd 1040 10 9000 2]) as Hr2
    by (vm_compute in H2; injection H2 as <-; reflexivity).
  destruct (merger_merge_spec (example_rd 0 0 0 0) 2 [ra1; ra2] ra) as (brm & ra' & _ & Hrun & _ & Hm).
  - cbn [length]. lia.
  - apply Forall_cons; split; [exact Hok1|]. apply Forall_singleton. exact Hok2.
  - cbn [fmap list_fmap]. rewrite Hr1, Hr2. apply example_gens. discriminate.
  - cbn [fmap list_fmap]. rewrite Hr1, Hr2. repeat constructor.
  - exact Hok.
  - exact Hty.
  - exact Hnil.
  - cbn [fmap list_fmap]. rewrite Hr1, Hr2, Hcap, Hpre. vm_compute. congruence.
  - cbn [fmap list_fmap]. rewrite Hr1, Hr2, Hcap, Hpre. vm_compute. congruence.
  - exists ra1, ra2, brm, ra, ra'. split; [exact H1|]. split; [exact H2|]. split; [exact H3|].
    split; [exact Hrun|exact Hm].
Defined.
