(* ===== verification/BeAlloc.v ===== *)
(** * be: the segment allocator

    Models src/be/alloc.c, the free lists of src/be/fl.c and what they use of
    src/be/list.c: chunks of a segment, each with a header in front of its memory, are
    split when memory is allocated and merged when it is freed.  The header of a chunk
    is addressed by its position in the segment; writing memory destroys the headers it
    overlaps, and writing a header destroys the memory under it.  Lists of chunks are
    lists of addresses; the sizes of the regions captured by the transaction are kept
    in a log.  Checks are those of a build with the expensive ones on, the mutex of the
    allocator is held around each operation and left out, and so is printing. *)
From S2P Require Import Prelude LibArith TxCredit.

(** ** Definitions *)

Notation M0_BE_ALLOC_SHIFT_MIN := 3 (only parsing).
Notation BE_ALLOC_ZONE_SIZE_SHIFT := 3 (only parsing).
Notation M0_BAP_REPAIR := 0 (only parsing).
Notation M0_BAP_NORMAL := 1 (only parsing).
Notation M0_BAP_NR := 2 (only parsing).
Notation M0_BE_FL_STEP := 8 (only parsing).
Notation M0_BE_FL_NR := 128 (only parsing).
Notation M0_BE_FL_PICK_SCAN_LIMIT := 16 (only parsing).
Notation M0_BE_ALLOCATOR_STATS_BOUNDARY := 1024 (only parsing).
Notation M0_BE_ALLOCATOR_STATS_PRINT_INTERVAL := 100 (only parsing).
Notation M0_BE_ALLOC_MAGIC0 := 0xe1015e1a105e (only parsing).
Notation M0_BE_ALLOC_MAGIC1 := 0xc0d1ce5bad1d (only parsing).
Notation ENOSPC := 28 (only parsing).

(** Sizes of the structures, on a 64-bit machine. *)
Notation sizeof_chunk := 80 (only parsing).
Notation sizeof_list := 56 (only parsing).
Notation sizeof_link := 16 (only parsing).
Notation sizeof_stats := 216 (only parsing).

(** *** The data *)

(** The links of a chunk are its membership in the lists of the header. *)
Record be_alloc_chunk := {
  bac_magic0 : Z;
  bac_size : Z;
  bac_free : bool;
  bac_zone : Z;
  bac_chunk_align : bool;
  bac_align_shift : Z;
  bac_magic1 : Z
}.

(** Number and size of the calls. *)
Record m0_be_allocator_call_stats := {
  bacs_alloc_success : Z * Z;
  bacs_alloc_failure : Z * Z;
  bacs_free : Z * Z
}.

(** Two more counters, of chunks and of free chunks, are printed and never changed. *)
Record m0_be_allocator_stats := {
  bas_chunk_overhead : Z;
  bas_space_total : Z;
  bas_space_used : Z;
  bas_space_free : Z;
  bas_stat0_boundary : Z;
  bas_total : m0_be_allocator_call_stats;
  bas_stat0 : m0_be_allocator_call_stats;
  bas_stat1 : m0_be_allocator_call_stats;
  bas_print_interval : Z;
  bas_print_index : Z
}.

Record m0_be_allocator_header := {
  bah_chunks : list Z;
  bah_fl : list (list Z);
  bah_stats : m0_be_allocator_stats;
  bah_size : Z;
  bah_addr : Z
}.

Record m0_be_seg := { bs_size : Z; bs_addr : Z; bs_reserved : Z }.

(** The allocator with the contents of its segment: the headers of chunks, the bytes that
    are not part of one, and the sizes of the regions captured so far, last one first. *)
Record m0_be_allocator := {
  ba_seg : m0_be_seg;
  ba_h : list m0_be_allocator_header;
  ba_chunks : gmap Z be_alloc_chunk;
  ba_mem : Z -> option Z;
  ba_log : list Z
}.

Definition with_h (a : m0_be_allocator) (hs : list m0_be_allocator_header) : m0_be_allocator :=
  {| ba_seg := ba_seg a; ba_h := hs; ba_chunks := ba_chunks a; ba_mem := ba_mem a; ba_log := ba_log a |}.

Definition with_chunks (a : m0_be_allocator) (cs : gmap Z be_alloc_chunk) : m0_be_allocator :=
  {| ba_seg := ba_seg a; ba_h := ba_h a; ba_chunks := cs; ba_mem := ba_mem a; ba_log := ba_log a |}.

(** M0_BE_TX_CAPTURE_PTR(): the transaction captures regions of sizes [l]. *)
Definition capture (l : list Z) (a : m0_be_allocator) : m0_be_allocator :=
  {| ba_seg := ba_seg a; ba_h := ba_h a; ba_chunks := ba_chunks a; ba_mem := ba_mem a;
    ba_log := l ++ ba_log a |}.

Definition with_lists (h : m0_be_allocator_header) (l : list Z) (fl : list (list Z)) :
  m0_be_allocator_header :=
  {| bah_chunks := l; bah_fl := fl; bah_stats := bah_stats h; bah_size := bah_size h;
    bah_addr := bah_addr h |}.

Definition with_stats (h : m0_be_allocator_header) (s : m0_be_allocator_stats) : m0_be_allocator_header :=
  {| bah_chunks := bah_chunks h; bah_fl := bah_fl h; bah_stats := s; bah_size := bah_size h;
    bah_addr := bah_addr h |}.

Definition with_free (x : be_alloc_chunk) (free : bool) : be_alloc_chunk :=
  {| bac_magic0 := bac_magic0 x; bac_size := bac_size x; bac_free := free; bac_zone := bac_zone x;
     bac_chunk_align := bac_chunk_align x; bac_align_shift := bac_align_shift x;
       bac_magic1 := bac_magic1 x |}.

Definition with_size (x : be_alloc_chunk) (size : Z) : be_alloc_chunk :=
  {| bac_magic0 := bac_magic0 x; bac_size := size; bac_free := bac_free x; bac_zone := bac_zone x;
     bac_chunk_align := bac_chunk_align x; bac_align_shift := bac_align_shift x;
       bac_magic1 := bac_magic1 x |}.

(** *** The segment as memory *)

(** The headers that do not overlap [n] bytes from [p] on. *)
Definition headers_out (p n : Z) (cs : gmap Z be_alloc_chunk) : gmap Z be_alloc_chunk :=
  filter (fun dx => dx.1 + sizeof_chunk <= p \/ p + n <= dx.1) cs.

(** A new header. *)
Definition header_write (c : Z) (x : be_alloc_chunk) (a : m0_be_allocator) : m0_be_allocator :=
  {| ba_seg := ba_seg a; ba_h := ba_h a; ba_chunks := <[c := x]> (headers_out c sizeof_chunk (ba_chunks a));
     ba_mem := fun p => if (c <=? p) && (p <? c + sizeof_chunk) then None else ba_mem a p;
       ba_log := ba_log a |}.

(** The bytes [bs] from [p] on. *)
Definition mem_write (p : Z) (bs : list Z) (a : m0_be_allocator) : m0_be_allocator :=
  {| ba_seg := ba_seg a; ba_h := ba_h a; ba_chunks := headers_out p (Z.of_nat (length bs)) (ba_chunks a);
     ba_mem := fun q => if (p <=? q) && (q <? p + Z.of_nat (length bs)) then arr_get bs (q - p) else ba_mem a
       q;
     ba_log := ba_log a |}.

Definition m0_addr_is_aligned (addr shift : Z) : bool := Z.shiftl (Z.shiftr addr shift) shift =? addr.

(** *** Lists: the new list and what was captured *)

Definition position (l : list Z) (c : Z) : option nat := fst <$> list_find (fun d => d = c) l.

Definition m0_be_list_prev (l : list Z) (obj : Z) : option (option Z) :=
  i ← position l obj;
  Some (match i with O => None | S i => l !! i end).

Definition m0_be_list_next (l : list Z) (obj : Z) : option (option Z) :=
  i ← position l obj;
  Some (l !! S i).

Definition m0_be_list_add (l : list Z) (obj : Z) : option (list Z * list Z) :=
  _ ← M0_ASSERT (bool_decide (obj ∉ l));
  Some (obj :: l, (if bool_decide (l = []) then [] else [sizeof_link]) ++ [sizeof_list; sizeof_link]).

Definition m0_be_list_add_after (l : list Z) (obj obj_new : Z) : option (list Z * list Z) :=
  _ ← M0_ASSERT (bool_decide (obj_new ∉ l));
  i ← position l obj;
  Some (take (S i) l ++ obj_new :: drop (S i) l,
        (if bool_decide (l !! S i = None) then [sizeof_list] else [sizeof_link]) ++ [sizeof_link;
          sizeof_link]).

Definition m0_be_list_del (l : list Z) (obj : Z) : option (list Z * list Z) :=
  i ← position l obj;
  let is_head := bool_decide (i = 0%nat) in
  let is_tail := bool_decide (l !! S i = None) in
  Some (take i l ++ drop (S i) l,
        (if is_head then [] else [sizeof_link]) ++ (if is_tail then [] else [sizeof_link]) ++
        (if is_head || is_tail then [sizeof_list] else []) ++ [sizeof_link]).

(** *** Free lists *)

Definition be_fl_index_round_up (size : Z) : option Z :=
  al ← m0_align size M0_BE_FL_STEP;
  Some (Z.min M0_BE_FL_NR (al / M0_BE_FL_STEP)).

Definition be_fl_index_round_down_chunk (chunk : be_alloc_chunk) :
  Z := Z.min M0_BE_FL_NR (bac_size chunk / M0_BE_FL_STEP).

Definition m0_be_fl__invariant (cs : gmap Z be_alloc_chunk) (fl : list (list Z)) : bool :=
  m0_forall (Z.of_nat (length fl)) (fun i =>
    match arr_get fl i with
    | Some l => forallb (fun c => match cs !! c with Some x => be_fl_index_round_down_chunk x =? i |
      None => false end) l
    | None => false
    end).

Definition m0_be_fl_add (cs : gmap Z be_alloc_chunk) (fl : list (list Z)) (c : Z) :
  option (list (list Z) * list Z) :=
  chunk ← cs !! c;
  let index := be_fl_index_round_down_chunk chunk in
  _ ← M0_ASSERT (m0_be_fl__invariant cs fl);
  l ← arr_get fl index;
  '(l, cap) ← m0_be_list_add l c;
  fl ← arr_set fl index l;
  _ ← M0_ASSERT (m0_be_fl__invariant cs fl);
  Some (fl, sizeof_link :: cap).

Definition m0_be_fl_del (cs : gmap Z be_alloc_chunk) (fl : list (list Z)) (c : Z) :
  option (list (list Z) * list Z) :=
  chunk ← cs !! c;
  let index := be_fl_index_round_down_chunk chunk in
  _ ← M0_ASSERT (m0_be_fl__invariant cs fl);
  l ← arr_get fl index;
  '(l, cap) ← m0_be_list_del l c;
  fl ← arr_set fl index l;
  _ ← M0_ASSERT (m0_be_fl__invariant cs fl);
  Some (fl, sizeof_link :: cap).

(** The scan of the last list; [chunk] is the best chunk so far with its size. *)
Fixpoint pick_scan (cs : gmap Z be_alloc_chunk) (size : Z) (l : list Z) (chunk : option (Z * Z)) (i : Z)
  : option (option (Z * Z)) :=
  match l with
  | [] => Some chunk
  | iter :: l =>
      x ← cs !! iter;
      let better := (size <? bac_size x) && (match chunk with Some (_, s) => bac_size x <? s |
        None => true end) in
      let chunk := if better then Some (iter, bac_size x) else chunk in
      if (M0_BE_FL_PICK_SCAN_LIMIT <=? i + 1) && bool_decide (chunk <> None) then Some chunk
      else pick_scan cs size l chunk (i + 1)
  end.

Definition m0_be_fl_pick (cs : gmap Z be_alloc_chunk) (fl : list (list Z)) (size : Z) : option (option Z) :=
  _ ← M0_ASSERT (m0_be_fl__invariant cs fl);
  index ← be_fl_index_round_up size;
  match list_find (fun l => l <> []) (drop (Z.to_nat index) fl) with
  | None => Some None
  | Some (j, flist) =>
      let index := index + Z.of_nat j in
      chunk ← (if index =? M0_BE_FL_NR then pick_scan cs size flist None 0
               else c ← head flist; x ← cs !! c; Some (Some (c, bac_size x)));
      _ ← M0_ASSERT (match chunk with Some (_, s) => size <=? s | None => true end);
      Some (fst <$> chunk)
  end.

(** *** Statistics *)

Definition call_stats0 : m0_be_allocator_call_stats :=
  {| bacs_alloc_success := (0, 0); bacs_alloc_failure := (0, 0); bacs_free := (0, 0) |}.

Definition be_allocator_stats_init (size : Z) : m0_be_allocator_stats :=
  {| bas_chunk_overhead := sizeof_chunk; bas_space_total := size; bas_space_used := 0; bas_space_free := size;
     bas_stat0_boundary := M0_BE_ALLOCATOR_STATS_BOUNDARY;
     bas_total := call_stats0; bas_stat0 := call_stats0; bas_stat1 := call_stats0;
     bas_print_interval := M0_BE_ALLOCATOR_STATS_PRINT_INTERVAL; bas_print_index := 0 |}.

Definition be_allocator_call_stats_update (cs : m0_be_allocator_call_stats) (size : Z) (alloc failed : bool)
  : m0_be_allocator_call_stats :=
  let upd (c : Z * Z) := (u64 (c.1 + 1), u64 (c.2 + size)) in
  if alloc && failed then
    {| bacs_alloc_success := bacs_alloc_success cs; bacs_alloc_failure := upd (bacs_alloc_failure cs);
       bacs_free := bacs_free cs |}
  else if alloc then
    {| bacs_alloc_success := upd (bacs_alloc_success cs); bacs_alloc_failure := bacs_alloc_failure cs;
       bacs_free := bacs_free cs |}
  else
    {| bacs_alloc_success := bacs_alloc_success cs; bacs_alloc_failure := bacs_alloc_failure cs;
       bacs_free := upd (bacs_free cs) |}.

Definition be_allocator_stats_update (s : m0_be_allocator_stats) (size : Z) (alloc failed : bool)
  : option m0_be_allocator_stats :=
  _ ← M0_ASSERT (negb failed || alloc);
  let multiplier := if failed then 0 else if alloc then 1 else -1 in
  let space_change := u64 (size + bas_chunk_overhead s) in
  let upd cs := be_allocator_call_stats_update cs size alloc failed in
  let small := size <=? bas_stat0_boundary s in
  Some {| bas_chunk_overhead := bas_chunk_overhead s; bas_space_total := bas_space_total s;
          bas_space_used := u64 (bas_space_used s + multiplier * space_change);
          bas_space_free := u64 (bas_space_free s - multiplier * space_change);
          bas_stat0_boundary := bas_stat0_boundary s;
          bas_total := upd (bas_total s);
          bas_stat0 := if small then upd (bas_stat0 s) else bas_stat0 s;
          bas_stat1 := if small then bas_stat1 s else upd (bas_stat1 s);
          bas_print_interval := bas_print_interval s;
          bas_print_index := if bas_print_index s =? bas_print_interval s then 0 else u64
            (bas_print_index s + 1) |}.

(** *** Chunks *)

Definition be_alloc_mem_is_in (a : m0_be_allocator) (ztype ptr size : Z) : option bool :=
  h ← arr_get (ba_h a) ztype;
  Some ((bah_addr h <=? ptr) && (u64 (ptr + size) <=? u64 (bah_addr h + bah_size h))).

Definition be_alloc_chunk_is_in (a : m0_be_allocator) (ztype c : Z) : option bool :=
  x ← ba_chunks a !! c;
  be_alloc_mem_is_in a ztype c (u64 (sizeof_chunk + bac_size x)).

(** The end of the memory of a chunk. *)
Definition chunk_end (c : Z) (x : be_alloc_chunk) : Z := u64 (c + sizeof_chunk + bac_size x).

Definition be_alloc_chunk_is_not_overlapping (a : m0_be_allocator) (c d : option Z) : option bool :=
  match c, d with
  | Some c, Some d =>
      x ← ba_chunks a !! c;
      y ← ba_chunks a !! d;
      Some (((c <? d) && (chunk_end c x <=? d)) || ((d <? c) && (chunk_end d y <=? c)))
  | _, _ => Some true
  end.

Definition be_alloc_chunk_invariant (a : m0_be_allocator) (c : Z) : option bool :=
  x ← ba_chunks a !! c;
  let ztype := bac_zone x in
  _ ← M0_ASSERT (ztype <? M0_BAP_NR);
  h ← arr_get (ba_h a) ztype;
  cprev ← m0_be_list_prev (bah_chunks h) c;
  cnext ← m0_be_list_next (bah_chunks h) c;
  is_in ← be_alloc_chunk_is_in a ztype c;
  next_in ← (match cnext with Some d => be_alloc_chunk_is_in a ztype d | None => Some true end);
  prev_in ← (match cprev with Some d => be_alloc_chunk_is_in a ztype d | None => Some true end);
  prev_ok ← be_alloc_chunk_is_not_overlapping a cprev (Some c);
  next_ok ← be_alloc_chunk_is_not_overlapping a (Some c) cnext;
  Some (is_in &&
        (if bac_chunk_align x then m0_addr_is_aligned c (bac_align_shift x)
         else m0_addr_is_aligned (c + sizeof_chunk) (bac_align_shift x)) &&
        m0_addr_is_aligned (c + sizeof_chunk) M0_BE_ALLOC_SHIFT_MIN &&
        next_in && prev_in && (bac_magic0 x =? M0_BE_ALLOC_MAGIC0) && (bac_magic1 x =? M0_BE_ALLOC_MAGIC1) &&
        prev_ok && next_ok).

Definition invariant_check (a : m0_be_allocator) (c : Z) : option () :=
  b ← be_alloc_chunk_invariant a c; M0_ASSERT b.

Definition invariant_check_opt (a : m0_be_allocator) (c : option Z) : option () :=
  match c with Some c => invariant_check a c | None => Some tt end.

(** M0_PRE(c->bac_zone == ztype). *)
Definition zone_check (a : m0_be_allocator) (ztype c : Z) : option be_alloc_chunk :=
  x ← ba_chunks a !! c;
  _ ← M0_ASSERT (bac_zone x =? ztype);
  Some x.

Definition be_alloc_chunk_init (a : m0_be_allocator) (ztype c size : Z) (free chunk_align : bool) (shift : Z)
  : m0_be_allocator :=
  capture [sizeof_chunk; sizeof_link]
    (header_write c {| bac_magic0 := M0_BE_ALLOC_MAGIC0; bac_size := size; bac_free := free;
      bac_zone := ztype;
                       bac_chunk_align := chunk_align; bac_align_shift := shift;
                         bac_magic1 := M0_BE_ALLOC_MAGIC1 |} a).

Definition be_alloc_chunk_del_fini (a : m0_be_allocator) (ztype c : Z) : option m0_be_allocator :=
  h ← arr_get (ba_h a) ztype;
  _ ← invariant_check a c;
  _ ← zone_check a ztype c;
  '(fl, cap) ← m0_be_fl_del (ba_chunks a) (bah_fl h) c;
  '(l, cap') ← m0_be_list_del (bah_chunks h) c;
  hs ← arr_set (ba_h a) ztype (with_lists h l fl);
  Some (capture (sizeof_link :: cap' ++ cap) (with_h a hs)).

Definition be_alloc_chunk_prev (a : m0_be_allocator) (ztype c : Z) : option (option Z) :=
  h ← arr_get (ba_h a) ztype;
  _ ← zone_check a ztype c;
  r ← m0_be_list_prev (bah_chunks h) c;
  _ ← invariant_check_opt a r;
  Some r.

Definition be_alloc_chunk_next (a : m0_be_allocator) (ztype c : Z) : option (option Z) :=
  h ← arr_get (ba_h a) ztype;
  _ ← zone_check a ztype c;
  r ← m0_be_list_next (bah_chunks h) c;
  _ ← invariant_check_opt a r;
  Some r.

Definition be_alloc_chunk_mark_free (a : m0_be_allocator) (ztype c : Z) : option m0_be_allocator :=
  h ← arr_get (ba_h a) ztype;
  _ ← invariant_check a c;
  x ← zone_check a ztype c;
  _ ← M0_ASSERT (negb (bac_free x));
  '(fl, cap) ← m0_be_fl_add (ba_chunks a) (bah_fl h) c;
  hs ← arr_set (ba_h a) ztype (with_lists h (bah_chunks h) fl);
  let a := capture (1 :: cap) (with_chunks (with_h a hs) (<[c := with_free x true]> (ba_chunks a))) in
  _ ← invariant_check a c;
  Some a.

Definition be_alloc_chunk_after (a : m0_be_allocator) (ztype : Z) (c : option Z) : option Z :=
  h ← arr_get (ba_h a) ztype;
  match c with
  | None => Some (bah_addr h)
  | Some c => x ← zone_check a ztype c; Some (chunk_end c x)
  end.

Definition be_alloc_chunk_add_after (a : m0_be_allocator) (ztype : Z) (c : option Z) (offset size_total : Z)
    (free chunk_align : bool) (shift : Z) : option (Z * m0_be_allocator) :=
  h ← arr_get (ba_h a) ztype;
  _ ← invariant_check_opt a c;
  _ ← M0_ASSERT (sizeof_chunk <? size_total);
  new ← (match c with None => Some (u64 (bah_addr h + offset)) |
    Some _ => be_alloc_chunk_after a ztype c end);
  let a := be_alloc_chunk_init a ztype new (u64 (size_total - sizeof_chunk)) free chunk_align shift in
  '(l, cap) ← (match c with
               | Some c => m0_be_list_add_after (bah_chunks h) c new
               | None => m0_be_list_add (bah_chunks h) new
               end);
  '(fl, cap') ← (if free then m0_be_fl_add (ba_chunks a) (bah_fl h) new else Some (bah_fl h, []));
  hs ← arr_set (ba_h a) ztype (with_lists h l fl);
  let a := capture (cap' ++ cap) (with_h a hs) in
  _ ← invariant_check a new;
  _ ← invariant_check_opt a c;
  Some (new, a).

Definition be_alloc_chunk_resize (a : m0_be_allocator) (ztype c new_size : Z) : option m0_be_allocator :=
  h ← arr_get (ba_h a) ztype;
  x ← zone_check a ztype c;
  '(fl, cap) ← (if bac_free x then m0_be_fl_del (ba_chunks a) (bah_fl h) c else Some (bah_fl h, []));
  let cs := <[c := with_size x new_size]> (ba_chunks a) in
  '(fl, cap') ← (if bac_free x then m0_be_fl_add cs fl c else Some (fl, []));
  hs ← arr_set (ba_h a) ztype (with_lists h (bah_chunks h) fl);
  Some (capture (8 :: cap' ++ cap) (with_chunks (with_h a hs) cs)).

Definition be_alloc_chunk_tryadd_free_after (a : m0_be_allocator) (ztype : Z) (c :
  option Z) (offset size_total : Z)
  : option (option Z * m0_be_allocator) :=
  if size_total <=? sizeof_chunk then
    match c with
    | Some d =>
        x ← ba_chunks a !! d;
        a ← be_alloc_chunk_resize a ztype d (u64 (bac_size x + size_total));
        Some (c, a)
    | None => Some (c, a)
    end
  else
    '(c, a) ← be_alloc_chunk_add_after a ztype c offset size_total true false M0_BE_ALLOC_SHIFT_MIN;
    Some (Some c, a).

Definition be_alloc_chunk_split (a : m0_be_allocator) (ztype c start_new size : Z) (chunk_align :
  bool) (shift : Z)
  : option (Z * m0_be_allocator) :=
  _ ← invariant_check a c;
  x ← ba_chunks a !! c;
  _ ← M0_ASSERT (bac_free x);
  size_min_aligned ← m0_align size (Z.shiftl 1 M0_BE_ALLOC_SHIFT_MIN);
  prev ← be_alloc_chunk_prev a ztype c;
  start0 ← be_alloc_chunk_after a ztype prev;
  let start1 := u64 (start_new + sizeof_chunk + size_min_aligned) in
  start_next ← be_alloc_chunk_after a ztype (Some c);
  let chunk0_size := u64 (start_new - start0) in
  let chunk1_size := u64 (start_next - start1) in
  _ ← M0_ASSERT (start0 <=? start_new);
  _ ← M0_ASSERT (start_new <=? start1);
  _ ← M0_ASSERT (start1 <=? start_next);
  a ← be_alloc_chunk_del_fini a ztype c;
  '(prev, a) ← be_alloc_chunk_tryadd_free_after a ztype prev 0 chunk0_size;
  '(new, a) ← be_alloc_chunk_add_after a ztype prev (match prev with None => chunk0_size | Some _ => 0 end)
                (u64 (sizeof_chunk + size_min_aligned)) false chunk_align shift;
  '(_, a) ← be_alloc_chunk_tryadd_free_after a ztype (Some new) 0 chunk1_size;
  y ← ba_chunks a !! new;
  _ ← M0_ASSERT (negb (bac_free y));
  _ ← M0_ASSERT (size <=? bac_size y);
  _ ← invariant_check a new;
  Some (new, a).

Definition be_alloc_chunk_trysplit (a : m0_be_allocator) (ztype c size shift : Z) (chunk_align : bool)
  : option (option Z * m0_be_allocator) :=
  let alignment := u64 (Z.shiftl 1 shift) in
  _ ← invariant_check a c;
  _ ← M0_ASSERT (negb (alignment =? 0));
  x ← ba_chunks a !! c;
  if bac_free x then
    let addr_end := chunk_end c x in
    let addr_mem :=
      if chunk_align then u64 (Z.land (u64 (c + alignment - 1)) (Z.lnot (alignment - 1)) + sizeof_chunk)
      else Z.land (u64 (c + sizeof_chunk + alignment - 1)) (Z.lnot (alignment - 1)) in
    if u64 (addr_mem + size) <=? addr_end then
      '(new, a) ← be_alloc_chunk_split a ztype c (u64 (addr_mem - sizeof_chunk)) size chunk_align shift;
      _ ← invariant_check a new;
      Some (Some new, a)
    else Some (None, a)
  else Some (None, a).

Definition be_alloc_chunk_trymerge (a : m0_be_allocator) (ztype : Z) (x y : option Z) :
  option (bool * m0_be_allocator) :=
  _ ← invariant_check_opt a x;
  _ ← invariant_check_opt a y;
  match x, y with
  | Some x, Some y =>
      _ ← M0_ASSERT (x <? y);
      cx ← ba_chunks a !! x;
      cy ← ba_chunks a !! y;
      _ ← M0_ASSERT (bac_free cx || bac_free cy);
      if bac_free cx && bac_free cy then
        let y_size_total := u64 (sizeof_chunk + bac_size cy) in
        a ← be_alloc_chunk_del_fini a ztype y;
        a ← be_alloc_chunk_resize a ztype x (u64 (bac_size cx + y_size_total));
        _ ← invariant_check a x;
        Some (true, a)
      else
        _ ← invariant_check a x;
        _ ← invariant_check a y;
        Some (false, a)
  | _, _ =>
      Some (false, a)
  end.

(** *** Creation and destruction *)

Definition fl_lists : list (list Z) := replicate (Z.to_nat (M0_BE_FL_NR + 1)) [].

(** m0_be_fl_create() and m0_be_fl_destroy() capture every list. *)
Definition fl_capture : list Z := replicate (Z.to_nat (M0_BE_FL_NR + 1)) sizeof_list.

Definition be_allocator_header_create (a : m0_be_allocator) (ztype offset size : Z) (chunk_align :
  bool) (shift : Z)
  : option (Z * m0_be_allocator) :=
  h ← arr_get (ba_h a) ztype;
  if negb (size =? 0) && (size <? sizeof_chunk + 1) then Some (- ENOSPC, a)
  else
    hs ← arr_set (ba_h a) ztype {| bah_chunks := []; bah_fl := fl_lists;
      bah_stats := be_allocator_stats_init size;
                                   bah_size := size; bah_addr := offset |};
    let a := capture (sizeof_stats :: fl_capture ++ [sizeof_list; 8; 8]) (with_h a hs) in
    if negb (size =? 0) then
      '(_, a) ← be_alloc_chunk_add_after a ztype None 0 size true chunk_align shift;
      Some (0, a)
    else Some (0, a).

Definition be_allocator_header_destroy (a : m0_be_allocator) (ztype : Z) : option m0_be_allocator :=
  h ← arr_get (ba_h a) ztype;
  _ ← M0_ASSERT (eqb (bool_decide (bah_chunks h = [])) (bah_size h =? 0));
  a ← (match head (bah_chunks h) with Some c => be_alloc_chunk_del_fini a ztype c | None => Some a end);
  h ← arr_get (ba_h a) ztype;
  _ ← M0_ASSERT (forallb (fun l => bool_decide (l = [])) (bah_fl h));
  _ ← M0_ASSERT (bool_decide (bah_chunks h = []));
  Some (capture (sizeof_list :: fl_capture) a).

(** The loop over the zones in use, from zone [i] on; [pcnts] are the percentages of the zones left. *)
Fixpoint create_zones (pcnts : list Z) (i free_space remain offset : Z) (a : m0_be_allocator)
  : option (Z * Z * m0_be_allocator) :=
  match pcnts with
  | [] => Some (0, remain, a)
  | pcnt :: pcnts =>
      size ← (if bool_decide (pcnts = []) then Some remain
              else m0_align (u64 (free_space * pcnt) / 100) (Z.shiftl 1 BE_ALLOC_ZONE_SIZE_SHIFT));
      _ ← M0_ASSERT (size <=? remain);
      '(rc, a) ← be_allocator_header_create a i offset size false M0_BE_ALLOC_SHIFT_MIN;
      if negb (rc =? 0) then
        a ← for_up 0 i (fun z a => be_allocator_header_destroy a z) a;
        Some (rc, remain, a)
      else create_zones pcnts (i + 1) free_space (remain - size) (u64 (offset + size)) a
  end.

Definition m0_be_allocator_create (a : m0_be_allocator) (zone_percent : list Z) :
  option (Z * m0_be_allocator) :=
  let zones_nr := Z.of_nat (length zone_percent) in
  _ ← M0_ASSERT (zones_nr <=? M0_BAP_NR);
  _ ← M0_ASSERT (foldr Z.add 0 zone_percent =? 100);
  let reserved := bs_reserved (ba_seg a) in
  let free_space := u64 (bs_size (ba_seg a) - reserved) in
  let offset := u64 (bs_addr (ba_seg a) + reserved) in
  '(rc, remain, a) ← create_zones zone_percent 0 free_space free_space offset a;
  if negb (rc =? 0) then Some (rc, a)
  else
    _ ← M0_ASSERT (remain =? 0);
    a ← for_up zones_nr M0_BAP_NR
          (fun z a => '(rc, a) ← be_allocator_header_create a z 0 0 false 0; _ ← M0_ASSERT (rc =? 0);
            Some a) a;
    Some (0, a).

Definition m0_be_allocator_destroy (a : m0_be_allocator) : option m0_be_allocator :=
  for_up 0 M0_BAP_NR (fun z a => be_allocator_header_destroy a z) a.

(** *** Allocation *)

Definition stats_update (a : m0_be_allocator) (ztype size : Z) (alloc failed : bool) :
  option m0_be_allocator :=
  h ← arr_get (ba_h a) ztype;
  s ← be_allocator_stats_update (bah_stats h) size alloc failed;
  hs ← arr_set (ba_h a) ztype (with_stats h s);
  Some (with_h a hs).

(** The chunk picked, with its zone. *)
Definition pick_zone (a : m0_be_allocator) (size_to_pick zonemask : Z) : option (option (Z * Z)) :=
  for_up 0 M0_BAP_NR
    (fun z found =>
       match found with
       | Some _ => Some found
       | None =>
           if negb (Z.land zonemask (Z.shiftl 1 z) =? 0) then
             h ← arr_get (ba_h a) z;
             c ← m0_be_fl_pick (ba_chunks a) (bah_fl h) size_to_pick;
             Some (option_map (fun c => (c, z)) c)
           else Some None
       end) None.

(** [shift] is less than 64; the result is [*ptr], 0 for NULL. *)
Definition m0_be_alloc_aligned (a : m0_be_allocator) (size shift zonemask : Z) (chunk_align : bool)
  : option (Z * m0_be_allocator) :=
  let shift := Z.max shift M0_BE_ALLOC_SHIFT_MIN in
  _ ← M0_ASSERT (shift <? 64);
  _ ← M0_ASSERT (size <=? (UINT64_MAX - Z.shiftl 1 shift) / 2);
  al ← m0_align size (Z.shiftl 1 M0_BE_ALLOC_SHIFT_MIN);
  let size_to_pick := u64 (Z.shiftl 1 shift - Z.shiftl 1 M0_BE_ALLOC_SHIFT_MIN + al) in
  found ← pick_zone a size_to_pick zonemask;
  match found with
  | Some (c, ztype) =>
      '(new, a) ← be_alloc_chunk_trysplit a ztype c size shift chunk_align;
      c ← new;
      x ← ba_chunks a !! c;
      _ ← M0_ASSERT (bac_zone x =? ztype);
      let a := capture [size] (mem_write (c + sizeof_chunk) (replicate (Z.to_nat size) 0) a) in
      x ← ba_chunks a !! c;
      a ← stats_update a ztype (bac_size x) true false;
      let a := capture [sizeof_stats] a in
      _ ← M0_ASSERT (negb (bac_free x));
      _ ← M0_ASSERT (size <=? bac_size x);
      _ ← M0_ASSERT (m0_addr_is_aligned (if chunk_align then c else c + sizeof_chunk) shift);
      is_in ← be_alloc_chunk_is_in a ztype c;
      _ ← M0_ASSERT is_in;
      Some (c + sizeof_chunk, a)
  | None =>
      a ← stats_update a M0_BAP_NORMAL size true true;
      Some (0, capture [sizeof_stats] a)
  end.

Definition m0_be_alloc (a : m0_be_allocator) (size : Z) : option (Z * m0_be_allocator) :=
  m0_be_alloc_aligned a size M0_BE_ALLOC_SHIFT_MIN (Z.shiftl 1 M0_BAP_NORMAL) false.

Definition m0_be_free_aligned (a : m0_be_allocator) (ptr : Z) : option m0_be_allocator :=
  _ ← M0_ASSERT (negb (ptr =? 0));
  in0 ← be_alloc_mem_is_in a M0_BAP_REPAIR ptr 1;
  in1 ← be_alloc_mem_is_in a M0_BAP_NORMAL ptr 1;
  _ ← M0_ASSERT (xorb in0 in1);
  let c := u64 (ptr - sizeof_chunk) in
  _ ← invariant_check a c;
  x ← ba_chunks a !! c;
  _ ← M0_ASSERT (negb (bac_free x));
  let ztype := bac_zone x in
  a ← be_alloc_chunk_mark_free a ztype c;
  a ← stats_update a ztype (bac_size x) false false;
  prev ← be_alloc_chunk_prev a ztype c;
  next ← be_alloc_chunk_next a ztype c;
  '(chunks_were_merged, a) ← be_alloc_chunk_trymerge a ztype prev (Some c);
  c ← (if (chunks_were_merged : bool) then prev else Some c);
  '(_, a) ← be_alloc_chunk_trymerge a ztype (Some c) next;
  let a := capture [sizeof_stats] a in
  x ← ba_chunks a !! c;
  _ ← M0_ASSERT (bac_free x);
  _ ← M0_ASSERT (0 <? bac_size x);
  _ ← invariant_check a c;
  Some a.

(** *** Credits *)

Inductive m0_be_list_op := M0_BLO_CREATE | M0_BLO_DESTROY | M0_BLO_ADD | M0_BLO_DEL | M0_BLO_TLINK_CREATE |
  M0_BLO_TLINK_DESTROY.

Inductive m0_be_fl_op := M0_BFL_CREATE | M0_BFL_DESTROY | M0_BFL_ADD | M0_BFL_DEL.

Inductive m0_be_allocator_op :=
  M0_BAO_CREATE | M0_BAO_DESTROY | M0_BAO_ALLOC | M0_BAO_ALLOC_ALIGNED | M0_BAO_FREE | M0_BAO_FREE_ALIGNED.

Definition m0_be_list_credit (optype : m0_be_list_op) (nr : Z) (accum : m0_be_tx_credit) : m0_be_tx_credit :=
  let cred_tlink := M0_BE_TX_CREDIT 1 sizeof_link in
  let cred_tlink_magic := M0_BE_TX_CREDIT 1 8 in
  let cred_list := M0_BE_TX_CREDIT 1 sizeof_list in
  let cred := M0_BE_TX_CREDIT 0 0 in
  let cred :=
    match optype with
    | M0_BLO_CREATE | M0_BLO_DESTROY => m0_be_tx_credit_add cred cred_list
    | M0_BLO_ADD | M0_BLO_DEL =>
        m0_be_tx_credit_add (m0_be_tx_credit_add
          (m0_be_tx_credit_add (m0_be_tx_credit_add cred cred_list) cred_tlink)
          cred_tlink) cred_tlink
    | M0_BLO_TLINK_CREATE | M0_BLO_TLINK_DESTROY =>
        m0_be_tx_credit_add (m0_be_tx_credit_add cred cred_tlink) cred_tlink_magic
    end in
  m0_be_tx_credit_add accum (m0_be_tx_credit_mul cred nr).

Definition m0_be_fl_credit (fl_op : m0_be_fl_op) (accum : m0_be_tx_credit) : m0_be_tx_credit :=
  let list_nr := M0_BE_FL_NR + 1 in
  match fl_op with
  | M0_BFL_CREATE => m0_be_list_credit M0_BLO_DESTROY list_nr (m0_be_list_credit M0_BLO_CREATE list_nr accum)
  | M0_BFL_DESTROY => m0_be_list_credit M0_BLO_DESTROY list_nr accum
  | M0_BFL_ADD => m0_be_list_credit M0_BLO_ADD 1 (m0_be_list_credit M0_BLO_TLINK_CREATE 1 accum)
  | M0_BFL_DEL => m0_be_list_credit M0_BLO_TLINK_DESTROY 1 (m0_be_list_credit M0_BLO_DEL 1 accum)
  end.

Definition m0_be_allocator_credit (optype : m0_be_allocator_op) (size : Z) (accum : m0_be_tx_credit) :
  m0_be_tx_credit :=
  let none := M0_BE_TX_CREDIT 0 0 in
  let chunk_credit := M0_BE_TX_CREDIT 1 sizeof_chunk in
  let cred_free_flag := M0_BE_TX_CREDIT 1 1 in
  let cred_chunk_size := M0_BE_TX_CREDIT 1 8 in
  let stats_credit := M0_BE_TX_CREDIT 1 sizeof_stats in
  let cred_allocator := m0_be_tx_credit_add (m0_be_tx_credit_add none (M0_BE_TX_CREDIT 1 8))
    (M0_BE_TX_CREDIT 1 8) in
  let mem_zero_credit := M0_BE_TX_CREDIT 1 size in
  let cred_list_create := m0_be_list_credit M0_BLO_CREATE 1 none in
  let cred_list_destroy := m0_be_list_credit M0_BLO_DESTROY 1 none in
  let chunk_add_after_credit :=
    m0_be_fl_credit M0_BFL_ADD (m0_be_list_credit M0_BLO_ADD 1
      (m0_be_tx_credit_add (m0_be_list_credit M0_BLO_TLINK_CREATE 1 none) chunk_credit)) in
  let chunk_del_fini_credit :=
    m0_be_fl_credit M0_BFL_DEL (m0_be_list_credit M0_BLO_TLINK_DESTROY 1
      (m0_be_list_credit M0_BLO_DEL 1 none)) in
  let chunk_resize_credit :=
    m0_be_tx_credit_add (m0_be_fl_credit M0_BFL_ADD (m0_be_fl_credit M0_BFL_DEL none)) cred_chunk_size in
  let chunk_trymerge_credit := m0_be_tx_credit_add (m0_be_tx_credit_add none chunk_del_fini_credit)
    chunk_resize_credit in
  let tryadd_free_after_credit := m0_be_tx_credit_max chunk_resize_credit chunk_add_after_credit in
  let cred_split :=
    m0_be_tx_credit_mac (m0_be_tx_credit_mac (m0_be_tx_credit_add none chunk_del_fini_credit)
      tryadd_free_after_credit 2) chunk_add_after_credit 1 in
  let cred_mark_free := m0_be_fl_credit M0_BFL_ADD (m0_be_tx_credit_add none cred_free_flag) in
  let workaround := M0_BE_TX_CREDIT 40 640 in
  let alloc_aligned accum :=
    m0_be_tx_credit_add (m0_be_tx_credit_add (m0_be_tx_credit_add (m0_be_tx_credit_add accum cred_split)
      mem_zero_credit) stats_credit) workaround in
  let free_aligned accum :=
    m0_be_tx_credit_add (m0_be_tx_credit_add (m0_be_tx_credit_mac (m0_be_tx_credit_add accum cred_mark_free)
      chunk_trymerge_credit 2) stats_credit) workaround in
  match optype with
  | M0_BAO_CREATE =>
      m0_be_tx_credit_add
        (m0_be_tx_credit_mac accum
          (m0_be_tx_credit_add (m0_be_tx_credit_add (m0_be_tx_credit_add (m0_be_fl_credit M0_BFL_CREATE
             (m0_be_tx_credit_mac none cred_list_create 2)) chunk_add_after_credit) cred_allocator)
               stats_credit) M0_BAP_NR)
        workaround
  | M0_BAO_DESTROY =>
      m0_be_tx_credit_add
        (m0_be_tx_credit_mac accum
          (m0_be_tx_credit_mac (m0_be_tx_credit_add (m0_be_fl_credit M0_BFL_DESTROY none)
            chunk_del_fini_credit)
             cred_list_destroy 2) M0_BAP_NR)
        workaround
  | M0_BAO_ALLOC_ALIGNED => alloc_aligned accum
  | M0_BAO_ALLOC => m0_be_tx_credit_add (alloc_aligned accum) workaround
  | M0_BAO_FREE_ALIGNED => free_aligned accum
  | M0_BAO_FREE => m0_be_tx_credit_add (free_aligned accum) workaround
  end.
