(* ===== verification/BeAllocInv.v ===== *)
(** * be: the chunks of a zone

    What the lists of a zone of the allocator say about its chunks, and how the
    operations of BeAlloc on single chunks change them: adding, deleting, resizing and
    marking as free. *)
From S2P Require Import Prelude LibArith TxCredit BeAlloc.

(** ** Bits and alignment *)

Lemma align_down x k : 0 <= k -> Z.land x (Z.lnot (2 ^ k - 1)) = x / 2 ^ k * 2 ^ k.
Proof.
  intros Hk. replace (2 ^ k - 1) with (Z.ones k) by (rewrite Z.ones_equiv; lia).
  rewrite <-Z.ldiff_land, Z.ldiff_ones_r, Z.shiftl_mul_pow2, Z.shiftr_div_pow2 by done. done.
Qed.

Lemma addr_is_aligned addr k : 0 <= k -> m0_addr_is_aligned addr k = true <-> (2 ^ k | addr).
Proof.
  intros Hk. unfold m0_addr_is_aligned. rewrite Z.shiftl_mul_pow2, Z.shiftr_div_pow2, Z.eqb_eq by done.
  assert (0 < 2 ^ k) as Hp by lia. split; [intros E; exists (addr / 2 ^ k); lia|].
  intros [q ->]. rewrite Z.div_mul by lia. done.
Qed.

Lemma po2_pow k : 0 <= k < 64 -> m0_is_po2 (2 ^ k) = true.
Proof.
  intros Hk. unfold m0_is_po2. apply Z.eqb_eq. assert (2 ^ k < 2 ^ 64) by (apply Z.pow_lt_mono_r; lia).
  rewrite u64_small by (unfold is_u64; lia).
  replace (2 ^ k - 1) with (Z.ones k) by (rewrite Z.ones_equiv; lia). rewrite Z.land_ones by lia.
  apply Z.mod_same. lia.
Qed.

(** m0_align() to the next multiple of eight. *)
Lemma align8 x : 0 <= x -> x + 7 < 2 ^ 64 -> m0_align x 8 = Some ((x + 7) / 8 * 8).
Proof.
  intros H0 H1. unfold m0_align. change (m0_is_po2 8) with true. cbn [M0_ASSERT mbind option_bind].
  change (u64 (8 - 1)) with 7. rewrite u64_small by (unfold is_u64; lia). f_equal. apply (align_down _ 3).
  lia.
Qed.

Lemma align8_bounds x : x <= (x + 7) / 8 * 8 < x + 8.
Proof. pose proof (Z.div_mod (x + 7) 8). pose proof (Z.mod_pos_bound (x + 7) 8). lia. Qed.

(** ** Lists *)

Lemma seq_position_app (l1 l2 : list Z) c : c ∉ l1 -> position (l1 ++ c :: l2) c = Some (length l1).
Proof.
  intros Hc. unfold position. rewrite list_find_app_r;
    [|apply list_find_None, Forall_forall; intros d Hd ->; done].
  cbn [list_find]. rewrite decide_True by done. simpl. f_equal; lia.
Qed.

Lemma position_lookup l c i : position l c = Some i -> l !! i = Some c.
Proof.
  unfold position. by intros ([j d] & (Hl & -> & _)%list_find_Some & ->)%fmap_Some.
Qed.

(** Regions captured: at most [n], at most [b] bytes. *)
Definition cap_le (l : list Z) (n b : Z) : Prop := Z.of_nat (length l) <= n /\ foldr Z.add 0 l <= b.

Lemma cap_le_app l l' n b n' b' : cap_le l n b -> cap_le l' n' b' -> cap_le (l ++ l') (n + n') (b + b').
Proof.
  intros [H1 H2] [H3 H4]. split; [rewrite length_app; lia|].
  assert (forall k, foldr Z.add k l = foldr Z.add 0 l + k) as Hk
    by (intros k; clear; induction l; simpl; lia).
  rewrite foldr_app, Hk. lia.
Qed.

Lemma cap_le_cons x l n b n' b' : cap_le l n b -> n + 1 <= n' -> x + b <= b' -> cap_le (x :: l) n' b'.
Proof. intros [H1 H2]. unfold cap_le. simpl. lia. Qed.

Lemma cap_le_mono l n b n' b' : cap_le l n b -> n <= n' -> b <= b' -> cap_le l n' b'.
Proof. intros [H1 H2]. unfold cap_le. lia. Qed.

Lemma list_prev_app l1 c l2 : c ∉ l1 -> m0_be_list_prev (l1 ++ c :: l2) c = Some (last l1).
Proof.
  intros Hc. unfold m0_be_list_prev. rewrite seq_position_app by done. cbn [mbind option_bind]. f_equal.
  destruct l1 as [|d l1 _] using rev_ind; [done|]. rewrite length_app, last_snoc. cbn [length].
  rewrite Nat.add_1_r.
  rewrite <-app_assoc. apply list_lookup_middle. done.
Qed.

Lemma list_next_app l1 c l2 : c ∉ l1 -> m0_be_list_next (l1 ++ c :: l2) c = Some (head l2).
Proof.
  intros Hc. unfold m0_be_list_next. rewrite seq_position_app by done. cbn [mbind option_bind]. f_equal.
  rewrite lookup_app_r by lia. replace (S (length l1) - length l1)%nat with 1%nat by lia. by destruct l2.
Qed.

Lemma seq_add_ok l c : c ∉ l -> exists cap, m0_be_list_add l c = Some (c :: l, cap) /\ cap_le cap 3 88.
Proof.
  intros Hc. unfold m0_be_list_add. rewrite (bool_decide_true (c ∉ l)) by done.
  cbn [M0_ASSERT mbind option_bind]. eexists. split; [done|].
  destruct (bool_decide (l = [])); vm_compute; split; congruence.
Qed.

Lemma seq_add_after_ok l1 c l2 d : c ∉ l1 -> d ∉ l1 ++ c :: l2 ->
  exists cap, m0_be_list_add_after (l1 ++ c :: l2) c d = Some (l1 ++ c :: d :: l2, cap) /\ cap_le cap 3 88.
Proof.
  intros Hc Hd. unfold m0_be_list_add_after. rewrite (bool_decide_true (d ∉ _)) by done.
  cbn [M0_ASSERT mbind option_bind].
  rewrite seq_position_app by done. cbn [mbind option_bind]. eexists. split.
  - do 2 f_equal. rewrite (cons_middle c l1 l2), app_assoc.
    rewrite take_app_length', drop_app_length' by (rewrite length_app; simpl; lia). by rewrite <-app_assoc.
  - destruct (bool_decide _); vm_compute; split; congruence.
Qed.

Lemma seq_del_ok l1 c l2 : c ∉ l1 ->
  exists cap, m0_be_list_del (l1 ++ c :: l2) c = Some (l1 ++ l2, cap) /\ cap_le cap 3 88.
Proof.
  intros Hc. unfold m0_be_list_del. rewrite seq_position_app by done. cbn [mbind option_bind]. eexists. split.
  - do 2 f_equal. rewrite take_app_length. f_equal. rewrite (cons_middle c l1 l2), app_assoc.
    by rewrite drop_app_length' by (rewrite length_app; simpl; lia).
  - destruct (bool_decide _), (bool_decide _); vm_compute; split; congruence.
Qed.

(** ** Free lists *)

(** Every chunk is on the list of its size. *)
Definition fl_sound (m : gmap Z be_alloc_chunk) (fl : list (list Z)) : Prop :=
  forall i l c, fl !! i = Some l -> c ∈ l -> exists x, m !! c = Some x /\
  be_fl_index_round_down_chunk x = Z.of_nat i.

Lemma fl_invariant_sound m fl : m0_be_fl__invariant m fl = true <-> fl_sound m fl.
Proof.
  unfold m0_be_fl__invariant, m0_forall. rewrite forallb_forall. split.
  - intros H i l c Hl Hc. specialize (H (Z.of_nat i)). apply lookup_lt_Some in Hl as Hlt.
    unfold arr_get in H. rewrite (proj2 (Z.leb_le 0 _)), Nat2Z.id, Hl in H by lia.
    assert (forallb (fun c => match m !! c with Some x => be_fl_index_round_down_chunk x =? Z.of_nat i |
      None => false end) l = true)
      as Hf by (apply H, list_elem_of_In, elem_of_seqZ; lia).
    rewrite forallb_forall in Hf. specialize (Hf c (proj1 (list_elem_of_In _ _) Hc)).
    destruct (m !! c) as [x|]; [|done]. exists x. split; [done|]. by apply Z.eqb_eq.
  - intros H i Hi%list_elem_of_In%elem_of_seqZ. unfold arr_get. rewrite (proj2 (Z.leb_le 0 _)) by lia.
    destruct (lookup_lt_is_Some_2 fl (Z.to_nat i)) as [l Hl]; [lia|]. rewrite Hl. apply forallb_forall.
    intros c Hc%list_elem_of_In. destruct (H _ _ _ Hl Hc) as (x & -> & ->). apply Z.eqb_eq. lia.
Qed.

Lemma fl_index_range x : 0 <= bac_size x -> 0 <= be_fl_index_round_down_chunk x <= 128.
Proof. intros H. unfold be_fl_index_round_down_chunk. pose proof (Z.div_pos (bac_size x) 8). lia. Qed.

Lemma fl_add_ok m fl c x : m !! c = Some x -> 0 <= bac_size x -> length fl = 129%nat -> fl_sound m fl ->
  (forall l, fl !! Z.to_nat (be_fl_index_round_down_chunk x) = Some l -> c ∉ l) ->
  exists l cap, fl !! Z.to_nat (be_fl_index_round_down_chunk x) = Some l /\
    m0_be_fl_add m fl c = Some (<[Z.to_nat (be_fl_index_round_down_chunk x) := c :: l]> fl, cap) /\
    cap_le cap 4 104.
Proof.
  intros Hx Hs Hlen Hsound Hc. unfold m0_be_fl_add. rewrite Hx. cbn [mbind option_bind].
  rewrite (proj2 (fl_invariant_sound _ _) Hsound). cbn [M0_ASSERT mbind option_bind].
  pose proof (fl_index_range x Hs) as Hr. set (i := be_fl_index_round_down_chunk x) in *.
  destruct (lookup_lt_is_Some_2 fl (Z.to_nat i)) as [l Hl]; [lia|]. unfold arr_get, arr_set.
  rewrite (proj2 (Z.leb_le 0 i)), (proj2 (Z.ltb_lt i _)), Hl by lia. cbn [mbind option_bind andb].
  destruct (seq_add_ok l c (Hc l Hl)) as (cap & -> & Hcap). cbn [mbind option_bind].
  rewrite (proj2 (fl_invariant_sound _ _)).
  - cbn [M0_ASSERT mbind option_bind]. exists l, (16 :: cap). split_and!; [done..|].
    eapply cap_le_cons; [exact Hcap|lia..].
  - intros j l' d Hl' Hd. destruct (decide (j = Z.to_nat i)) as [->|]; cycle 1.
    { rewrite list_lookup_insert_ne in Hl' by done. by eapply Hsound. }
    rewrite list_lookup_insert_eq in Hl' by lia. injection Hl' as <-. apply elem_of_cons in Hd as [->|Hd].
    + exists x. split; [done|]. fold i. lia.
    + by eapply Hsound.
Qed.

Lemma fl_del_ok m fl c x l1 l2 : m !! c = Some x -> 0 <= bac_size x -> length fl = 129%nat -> fl_sound m fl ->
  fl !! Z.to_nat (be_fl_index_round_down_chunk x) = Some (l1 ++ c :: l2) -> c ∉ l1 ->
  exists cap, m0_be_fl_del m fl c = Some (<[Z.to_nat (be_fl_index_round_down_chunk x) := l1 ++ l2]> fl,
    cap) /\ cap_le cap 4 104.
Proof.
  intros Hx Hs Hlen Hsound Hl Hc. unfold m0_be_fl_del. rewrite Hx. cbn [mbind option_bind].
  rewrite (proj2 (fl_invariant_sound _ _) Hsound). cbn [M0_ASSERT mbind option_bind].
  pose proof (fl_index_range x Hs) as Hr. set (i := be_fl_index_round_down_chunk x) in *.
  unfold arr_get, arr_set.
  rewrite (proj2 (Z.leb_le 0 i)), (proj2 (Z.ltb_lt i _)), Hl by lia. cbn [mbind option_bind andb].
  destruct (seq_del_ok l1 c l2 Hc) as (cap & -> & Hcap). cbn [mbind option_bind].
  rewrite (proj2 (fl_invariant_sound _ _)).
  - cbn [M0_ASSERT mbind option_bind]. exists (16 :: cap). split_and!; [done|].
    eapply cap_le_cons; [exact Hcap|lia..].
  - intros j l' d Hl' Hd. destruct (decide (j = Z.to_nat i)) as [->|]; cycle 1.
    { rewrite list_lookup_insert_ne in Hl' by done. by eapply Hsound. }
    rewrite list_lookup_insert_eq in Hl' by lia. injection Hl' as <-. eapply (Hsound (Z.to_nat i)); [done|].
    apply elem_of_app in Hd. apply elem_of_app. rewrite elem_of_cons. tauto.
Qed.

(** ** The chunks of a zone *)

Notation chunk_list := (list (Z * be_alloc_chunk)).

(** The chunks lie between two addresses, in order and without overlap. *)
Fixpoint placed (lo hi : Z) (cs : chunk_list) : Prop :=
  match cs with
  | [] => lo <= hi
  | (c, x) :: cs => lo <= c /\ 0 <= bac_size x /\ placed (c + 80 + bac_size x) hi cs
  end.

Definition end_of (lo : Z) (cs : chunk_list) : Z :=
  match last cs with Some (c, x) => c + 80 + bac_size x | None => lo end.

Lemma end_of_cons lo c x cs : end_of lo ((c, x) :: cs) = end_of (c + 80 + bac_size x) cs.
Proof. unfold end_of. rewrite last_cons. by destruct (last cs). Qed.

Lemma end_of_snoc lo cs c x : end_of lo (cs ++ [(c, x)]) = c + 80 + bac_size x.
Proof. unfold end_of. by rewrite last_snoc. Qed.

Lemma placed_le lo hi cs : placed lo hi cs -> lo <= hi.
Proof.
  revert lo. induction cs as [|[c x] cs IH]; intros lo; [done|]. intros (H1 & H2 & H3%IH). lia.
Qed.

Lemma placed_app lo hi l1 l2 :
  placed lo hi (l1 ++ l2) <-> placed lo (end_of lo l1) l1 /\ placed (end_of lo l1) hi l2.
Proof.
  revert lo. induction l1 as [|[c x] l1 IH]; intros lo; cbn [placed app].
  - unfold end_of. simpl. intuition lia.
  - rewrite end_of_cons, IH. tauto.
Qed.

Lemma placed_elem lo hi cs c x : placed lo hi cs -> (c, x) ∈ cs -> lo <= c /\ 0 <= bac_size x /\
  c + 80 + bac_size x <= hi.
Proof.
  revert lo. induction cs as [|[d y] cs IH]; intros lo; [by intros _ ?%elem_of_nil|].
  intros (H1 & H2 & H3) [[= -> ->]|Hin]%elem_of_cons; [apply placed_le in H3; lia|].
  destruct (IH _ H3 Hin). lia.
Qed.

Lemma placed_weaken lo lo' hi cs : placed lo hi cs -> lo' <= lo -> placed lo' hi cs.
Proof. destruct cs as [|[c x] cs]; simpl; [lia|]. intros (? & ? & ?) ?. split_and!; [lia|done..]. Qed.

(** A chunk and those before and behind it. *)
Lemma placed_middle lo hi l1 c x l2 : placed lo hi (l1 ++ (c, x) :: l2) ->
  (forall d y, (d, y) ∈ l1 -> lo <= d /\ 0 <= bac_size y /\ d + 80 + bac_size y <= c) /\
  (forall d y, (d, y) ∈ l2 -> c + 80 + bac_size x <= d /\ 0 <= bac_size y /\ d + 80 + bac_size y <= hi) /\
  lo <= end_of lo l1 /\ end_of lo l1 <= c /\ 0 <= bac_size x /\ c + 80 + bac_size x <= hi.
Proof.
  intros [H1 (H2 & H3 & H4)]%placed_app. split_and!.
  - intros d y Hin. destruct (placed_elem _ _ _ _ _ H1 Hin). lia.
  - intros d y Hin. by apply (placed_elem _ _ _ _ _ H4).
  - by apply placed_le in H1.
  - done.
  - done.
  - by apply placed_le in H4.
Qed.

Lemma placed_fresh lo hi l1 c x l2 : placed lo hi (l1 ++ (c, x) :: l2) -> c ∉ l1.*1 /\ c ∉ l2.*1.
Proof.
  intros (H1 & H2 & _ & _ & H3 & _)%placed_middle. split.
  - intros ([d y] & -> & Hin)%list_elem_of_fmap. destruct (H1 _ _ Hin) as (? & ? & ?). simpl in *. lia.
  - intros ([d y] & -> & Hin)%list_elem_of_fmap. destruct (H2 _ _ Hin) as (? & ? & ?). simpl in *. lia.
Qed.

Lemma placed_NoDup lo hi l : placed lo hi l -> NoDup l.*1.
Proof.
  revert lo. induction l as [|[c x] l IH]; intros lo Hp; [apply NoDup_nil_2|]. apply NoDup_cons. split.
  - exact (proj2 (placed_fresh lo hi [] c x l Hp)).
  - destruct Hp as (_ & _ & Hp). by eapply IH.
Qed.

Lemma placed_unique lo hi cs c x y : placed lo hi cs -> (c, x) ∈ cs -> (c, y) ∈ cs -> x = y.
Proof.
  intros Hp (l1 & l2 & ->)%list_elem_of_split Hy. apply placed_fresh in Hp as [H1 H2].
  apply elem_of_app in Hy as [Hy|[Hy|Hy]%elem_of_cons]; [|congruence|].
  - destruct H1. apply list_elem_of_fmap. by exists (c, y).
  - destruct H2. apply list_elem_of_fmap. by exists (c, y).
Qed.

(** The fields of a chunk of zone [z]. *)
Definition chunk_ok (z : Z) (cx : Z * be_alloc_chunk) : Prop :=
  let '(c, x) := cx in
  bac_magic0 x = M0_BE_ALLOC_MAGIC0 /\ bac_magic1 x = M0_BE_ALLOC_MAGIC1 /\ bac_zone x = z /\
  0 <= bac_align_shift x /\ (2 ^ bac_align_shift x | if bac_chunk_align x then c else c + 80) /\ (8 | c).

(** Exactly the free chunks are on the free lists. *)
Definition fl_ok (fl : list (list Z)) (cs : chunk_list) : Prop :=
  length fl = 129%nat /\
  forall i l, fl !! i = Some l ->
    NoDup l /\ forall c, c ∈ l <-> exists x, (c, x) ∈ cs /\ bac_free x = true /\
    be_fl_index_round_down_chunk x = Z.of_nat i.

(** Zone [z] between [lo] and [hi] has the chunks [cs]. *)
Definition zrep (a : m0_be_allocator) (z lo hi : Z) (cs : chunk_list) : Prop :=
  exists h, arr_get (ba_h a) z = Some h /\ bah_chunks h = cs.*1 /\ bah_addr h = lo /\ lo + bah_size h = hi /\
    fl_ok (bah_fl h) cs /\ placed lo hi cs /\ 0 <= lo /\ hi < 2 ^ 64 /\ 0 <= z < 2 /\
    Forall (chunk_ok z) cs /\
    forall c x, (c, x) ∈ cs -> ba_chunks a !! c = Some x.

Lemma fl_ok_sound m fl cs : fl_ok fl cs -> (forall c x, (c, x) ∈ cs -> m !! c = Some x) -> fl_sound m fl.
Proof.
  intros [_ H] Hat i l c Hl Hc. destruct (H i l Hl) as [_ Hi]. apply Hi in Hc as (x & Hin & _ & Hx). exists x.
  auto.
Qed.

Lemma chunk_end_ok lo hi cs c x : placed lo hi cs -> 0 <= lo -> hi < 2 ^ 64 -> (c, x) ∈ cs ->
  chunk_end c x = c + 80 + bac_size x.
Proof.
  intros Hp H0 H1 Hin. destruct (placed_elem _ _ _ _ _ Hp Hin) as (? & ? & ?).
  unfold chunk_end. rewrite u64_small; [done|]. unfold is_u64. lia.
Qed.

Lemma zrep_is_in a z lo hi cs c x : zrep a z lo hi cs -> (c, x) ∈ cs ->
  be_alloc_chunk_is_in a z c = Some true.
Proof.
  intros (h & Hh & Hl & Hlo & Hhi & Hfl & Hp & H0 & H1 & Hz & Hok & Hat) Hin.
  destruct (placed_elem _ _ _ _ _ Hp Hin) as (? & ? & ?).
  unfold be_alloc_chunk_is_in. rewrite (Hat _ _ Hin). cbn [mbind option_bind]. unfold be_alloc_mem_is_in.
  rewrite Hh.
  cbn [mbind option_bind]. f_equal. rewrite (u64_small (80 + bac_size x)), !u64_small by (unfold is_u64; lia).
  apply andb_true_intro. split; apply Z.leb_le; lia.
Qed.

Lemma zrep_not_overlapping a z lo hi l1 c x d y l2 : zrep a z lo hi (l1 ++ (c, x) :: (d, y) :: l2) ->
  be_alloc_chunk_is_not_overlapping a (Some c) (Some d) = Some true.
Proof.
  intros (h & Hh & Hl & Hlo & Hhi & Hfl & Hp & H0 & H1 & Hz & Hok & Hat).
  unfold be_alloc_chunk_is_not_overlapping.
  assert ((c, x) ∈ l1 ++ (c, x) :: (d, y) :: l2) as Hc by set_solver.
  rewrite (Hat c x Hc), (Hat d y) by set_solver. cbn [mbind option_bind].
  rewrite (chunk_end_ok _ _ _ _ _ Hp H0 H1 Hc). apply placed_middle in Hp as (_ & H2 & _ & _ & H3 & _).
  destruct (H2 d y) as (? & ? & ?); [set_solver|]. f_equal. apply orb_true_intro. left. apply andb_true_intro.
  split; [apply Z.ltb_lt|apply Z.leb_le]; lia.
Qed.

Lemma fst_last (l : chunk_list) : last l.*1 = fst <$> last l.
Proof. destruct l as [|[c x] l _] using rev_ind; [done|]. rewrite fmap_app, last_snoc. cbn [fmap list_fmap].
by rewrite last_snoc. Qed.

Lemma fst_head (l : chunk_list) : head l.*1 = fst <$> head l.
Proof. by destruct l. Qed.

Lemma zrep_prev a z lo hi l1 c x l2 h : zrep a z lo hi (l1 ++ (c, x) :: l2) -> arr_get (ba_h a) z = Some h ->
  m0_be_list_prev (bah_chunks h) c = Some (fst <$> last l1) /\
  m0_be_list_next (bah_chunks h) c = Some (fst <$> head l2).
Proof.
  intros (h' & Hh & Hl & _ & _ & _ & Hp & _) E. assert (h' = h) as -> by congruence.
  apply placed_fresh in Hp as [H1 _]. rewrite Hl, fmap_app, fmap_cons. cbn [fst].
  by rewrite list_prev_app, list_next_app, fst_last, fst_head by done.
Qed.

Lemma zrep_invariant a z lo hi l1 c x l2 : zrep a z lo hi (l1 ++ (c, x) :: l2) ->
  be_alloc_chunk_invariant a c = Some true.
Proof.
  intros Hz. pose proof Hz as (h & Hh & Hl & Hlo & Hhi & Hfl & Hp & H0 & H1 & Hr & Hok & Hat).
  unfold be_alloc_chunk_invariant. rewrite (Hat c x) by set_solver. cbn [mbind option_bind].
  rewrite Forall_app, Forall_cons in Hok. destruct Hok as (_ & (E0 & E1 & -> & Es & Ea & E8) & _).
  rewrite (proj2 (Z.ltb_lt z 2)) by lia. cbn [M0_ASSERT mbind option_bind]. rewrite Hh.
  cbn [mbind option_bind].
  destruct (zrep_prev _ _ _ _ _ _ _ _ _ Hz Hh) as [-> ->]. cbn [mbind option_bind].
  rewrite (zrep_is_in _ _ _ _ _ c x Hz) by set_solver. cbn [mbind option_bind].
  assert (match fst <$> head l2 with Some d => be_alloc_chunk_is_in a z d |
    None => Some true end = Some true) as ->.
  { destruct l2 as [|[d y] l2]; [done|]. cbn. apply (zrep_is_in _ _ _ _ _ d y Hz). set_solver. }
  assert (match fst <$> last l1 with Some d => be_alloc_chunk_is_in a z d |
    None => Some true end = Some true) as ->.
  { destruct l1 as [|[d y] l1 _] using rev_ind; [done|]. rewrite last_snoc. cbn.
    apply (zrep_is_in _ _ _ _ _ d y Hz). set_solver. }
  assert (be_alloc_chunk_is_not_overlapping a (fst <$> last l1) (Some c) = Some true) as ->.
  { destruct l1 as [|[d y] l1 _] using rev_ind;
      [done|]. rewrite last_snoc. cbn [fmap option_fmap option_map fst].
    rewrite <-app_assoc in Hz. cbn [app] in Hz. by eapply zrep_not_overlapping. }
  assert (be_alloc_chunk_is_not_overlapping a (Some c) (fst <$> head l2) = Some true) as ->.
  { destruct l2 as [|[d y] l2]; [done|]. by eapply zrep_not_overlapping. }
  cbn [mbind option_bind]. f_equal. rewrite E0, E1. rewrite !Z.eqb_refl.
  rewrite (proj2 (addr_is_aligned (c + 80) 3 ltac:(lia))) by (apply Z.divide_add_r; [done|by exists 10]).
  by destruct (bac_chunk_align x); rewrite (proj2 (addr_is_aligned _ _ Es) Ea).
Qed.

(** *** Changes of the free lists *)

Lemma fl_ok_used fl l1 c x l2 : bac_free x = false -> fl_ok fl (l1 ++ (c, x) :: l2) <-> fl_ok fl (l1 ++ l2).
Proof.
  intros Hx. unfold fl_ok. split; intros [Hlen H]; (split; [done|]); intros i l Hl; destruct (H i l Hl)
    as [Hnd Hi];
    (split; [done|]); intros d; rewrite Hi; split; intros (y & Hin & Hy & Hidx); exists y; (split; [|done]).
  - apply elem_of_app in Hin as [?|[[= -> ->]|?]%elem_of_cons]; [set_solver|congruence|set_solver].
  - set_solver.
  - set_solver.
  - apply elem_of_app in Hin as [?|[[= -> ->]|?]%elem_of_cons]; [set_solver|congruence|set_solver].
Qed.

Lemma fl_ok_add fl l1 c x l2 l : fl_ok fl (l1 ++ l2) -> c ∉ (l1 ++ l2).*1 -> bac_free x = true ->
  0 <= bac_size x ->
  fl !! Z.to_nat (be_fl_index_round_down_chunk x) = Some l ->
  c ∉ l /\ fl_ok (<[Z.to_nat (be_fl_index_round_down_chunk x) := c :: l]> fl) (l1 ++ (c, x) :: l2).
Proof.
  intros [Hlen H] Hc Hx Hs Hl. pose proof (fl_index_range x Hs).
  set (i := be_fl_index_round_down_chunk x) in *.
  assert (forall y, (c, y) ∉ l1 ++ l2) as Hy by (intros y Hin; apply Hc, list_elem_of_fmap; by exists (c, y)).
  destruct (H _ _ Hl) as [Hnd Hi].
  assert (c ∉ l) as Hcl by (rewrite Hi; intros (y & Hin & _); by apply Hy in Hin). split; [done|].
  split; [by rewrite length_insert|]. intros j l' Hl'. destruct (decide (j = Z.to_nat i)) as [->|Hne].
  - rewrite list_lookup_insert_eq in Hl' by (apply lookup_lt_Some in Hl; lia). injection Hl' as <-.
    split; [by constructor|]. intros d. rewrite elem_of_cons, Hi. split.
    + intros [->|(y & Hin & Hrest)]; [exists x; split; [set_solver|]; split; [done|fold i; lia]|].
      exists y. split; [set_solver|done].
    + intros (y & Hin & Hrest). apply elem_of_app in Hin as [?|[[= -> ->]|?]%elem_of_cons];
        [right|by left|right];
        exists y; (split; [set_solver|done]).
  - rewrite list_lookup_insert_ne in Hl' by done. destruct (H _ _ Hl') as [Hnd' Hj]. split; [done|].
    intros d. rewrite Hj. split; intros (y & Hin & Hy' & Hidx).
    + exists y. split; [set_solver|done].
    + apply elem_of_app in Hin as [?|[[= -> ->]|?]%elem_of_cons]; [|exfalso; fold i in Hidx; lia|];
        exists y; (split; [set_solver|done]).
Qed.

Lemma fl_ok_del fl l1 c x l2 : fl_ok fl (l1 ++ (c, x) :: l2) -> c ∉ (l1 ++ l2).*1 -> bac_free x = true ->
  0 <= bac_size x ->
  exists k1 k2, fl !! Z.to_nat (be_fl_index_round_down_chunk x) = Some (k1 ++ c :: k2) /\ c ∉ k1 /\
    fl_ok (<[Z.to_nat (be_fl_index_round_down_chunk x) := k1 ++ k2]> fl) (l1 ++ l2).
Proof.
  intros [Hlen H] Hc Hx Hs. pose proof (fl_index_range x Hs). set (i := be_fl_index_round_down_chunk x) in *.
  assert (forall y, (c, y) ∉ l1 ++ l2) as Hy by (intros y Hin; apply Hc, list_elem_of_fmap; by exists (c, y)).
  destruct (lookup_lt_is_Some_2 fl (Z.to_nat i)) as [l Hl]; [lia|]. destruct (H _ _ Hl) as [Hnd Hi].
  assert (c ∈ l) as (k1 & k2 & ->)%list_elem_of_split
    by (rewrite Hi; exists x; split; [set_solver|]; split; [done|fold i; lia]).
  exists k1, k2. apply NoDup_app in Hnd as (Hn1 & Hn2 & [Hn3 Hn4]%NoDup_cons).
  split; [done|]. assert (c ∉ k1) as Hk1 by set_solver. split; [done|].
  split; [by rewrite length_insert|]. intros j l' Hl'. destruct (decide (j = Z.to_nat i)) as [->|Hne].
  - rewrite list_lookup_insert_eq in Hl' by (apply lookup_lt_Some in Hl; lia). injection Hl' as <-.
    split; [apply NoDup_app; split_and!; [done| |done]; intros d Hd1 Hd2; apply (Hn2 d Hd1); set_solver|].
    intros d. assert (d ∈ k1 ++ k2 <-> d ∈ k1 ++ c :: k2 /\ d <> c) as -> by set_solver. rewrite Hi. split.
    + intros [(y & Hin & Hrest) Hdc]. exists y. split; [set_solver|done].
    + intros (y & Hin & Hrest). split; [exists y; split; [set_solver|done]|]. intros ->. by apply Hy in Hin.
  - rewrite list_lookup_insert_ne in Hl' by done. destruct (H _ _ Hl') as [Hnd' Hj]. split; [done|].
    intros d. rewrite Hj. split; intros (y & Hin & Hy' & Hidx).
    + apply elem_of_app in Hin as [?|[[= -> ->]|?]%elem_of_cons]; [|exfalso; fold i in Hidx; lia|];
        exists y; (split; [set_solver|done]).
    + exists y. split; [set_solver|done].
Qed.

(** *** Steps *)

(** A step on zone [z] between [lo] and [hi]: other zones, the headers outside and the bytes
    outside of [mlo] to [mhi] stay as they are; at most [n] regions with [b] bytes are captured. *)
Record moves (a a' : m0_be_allocator) (z lo hi mlo mhi n b : Z) : Prop := {
  mv_seg : ba_seg a' = ba_seg a /\ length (ba_h a') = length (ba_h a);
  mv_h : forall z', z' <> z -> arr_get (ba_h a') z' = arr_get (ba_h a) z';
  mv_chunks : forall d, d + 80 <= lo \/ hi <= d -> ba_chunks a' !! d = ba_chunks a !! d;
  mv_mem : forall p, p < mlo \/ mhi <= p -> ba_mem a' p = ba_mem a p;
  mv_log : exists l, ba_log a' = l ++ ba_log a /\ cap_le l n b
}.

Lemma moves_refl a z lo hi mlo mhi n b : 0 <= n -> 0 <= b -> moves a a z lo hi mlo mhi n b.
Proof. intros Hn Hb. split; [done..|]. exists []. split; [done|]. split; done. Qed.

Lemma moves_trans a a1 a2 z lo hi mlo mhi n b n' b' :
  moves a a1 z lo hi mlo mhi n b -> moves a1 a2 z lo hi mlo mhi n' b' ->
  moves a a2 z lo hi mlo mhi (n' + n) (b' + b).
Proof.
  intros [[S1 N1] H1 C1 M1 (l1 & L1 & K1)] [[S2 N2] H2 C2 M2 (l2 & L2 & K2)]. split.
  - split; congruence.
  - intros z' Hz. by rewrite H2, H1.
  - intros d Hd. by rewrite C2, C1.
  - intros p Hp. by rewrite M2, M1.
  - exists (l2 ++ l1). rewrite L2, L1, app_assoc. split; [done|]. by apply cap_le_app.
Qed.

Lemma moves_mono a a' z lo hi mlo mhi n b mlo' mhi' n' b' :
  moves a a' z lo hi mlo mhi n b -> mlo' <= mlo \/ mhi <= mlo -> mhi <= mhi' \/ mhi <= mlo -> n <= n' ->
  b <= b' ->
  moves a a' z lo hi mlo' mhi' n' b'.
Proof.
  intros [S1 H1 C1 M1 (l1 & L1 & K1)] Hl Hh Hn Hb. split; [done..| |].
  - intros p Hp. apply M1. lia.
  - exists l1. split; [done|]. by eapply cap_le_mono.
Qed.

Lemma upd_ok a z lo hi cs h fl cs' m' mem' caps mlo mhi n b :
  zrep a z lo hi cs -> arr_get (ba_h a) z = Some h -> fl_ok fl cs' -> placed lo hi cs' ->
  Forall (chunk_ok z) cs' ->
  (forall c x, (c, x) ∈ cs' -> m' !! c = Some x) ->
  (forall d, d + 80 <= lo \/ hi <= d -> m' !! d = ba_chunks a !! d) ->
  (forall p, p < mlo \/ mhi <= p -> mem' p = ba_mem a p) -> cap_le caps n b ->
  exists hs, arr_set (ba_h a) z (with_lists h cs'.*1 fl) = Some hs /\
    let a' := {| ba_seg := ba_seg a; ba_h := hs; ba_chunks := m'; ba_mem := mem';
      ba_log := caps ++ ba_log a |} in
    zrep a' z lo hi cs' /\ moves a a' z lo hi mlo mhi n b.
Proof.
  intros (h' & Hh & Hl & Hlo & Hhi & _ & _ & H0 & H1 & Hz & _ & _) E Hfl Hp Hok Hat Hout Hmem Hcap.
  assert (h' = h) as -> by congruence. pose proof (arr_get_range _ _ _ Hh) as Hr.
  exists (<[Z.to_nat z := with_lists h cs'.*1 fl]> (ba_h a)). split; [by apply arr_set_ok|]. split.
  - exists (with_lists h cs'.*1 fl). cbn [ba_h ba_chunks with_lists bah_chunks bah_addr bah_size bah_fl].
    rewrite arr_get_insert, Z.eqb_refl by done. split_and!; try done; lia.
  - split; cbn [ba_seg ba_h ba_chunks ba_mem ba_log]; [by rewrite length_insert| |done|done|by exists caps].
    intros z' Hne. rewrite arr_get_insert by done. by rewrite (proj2 (Z.eqb_neq z z')) by congruence.
Qed.

Lemma zone_check_ok a z lo hi cs c x : zrep a z lo hi cs -> (c, x) ∈ cs -> zone_check a z c = Some x.
Proof.
  intros (h & Hh & Hl & Hlo & Hhi & Hfl & Hp & H0 & H1 & Hz & Hok & Hat) Hin. unfold zone_check.
  rewrite (Hat _ _ Hin). cbn [mbind option_bind]. rewrite Forall_forall in Hok.
  destruct (Hok _ Hin) as (_ & _ & -> & _). by rewrite Z.eqb_refl.
Qed.

Lemma invariant_check_ok a z lo hi l1 c x l2 : zrep a z lo hi (l1 ++ (c, x) :: l2) ->
  invariant_check a c = Some tt.
Proof. intros Hz. unfold invariant_check. by rewrite (zrep_invariant _ _ _ _ _ _ _ _ Hz). Qed.

Lemma zrep_parts a z lo hi l1 c x l2 : zrep a z lo hi (l1 ++ (c, x) :: l2) ->
  c ∉ (l1 ++ l2).*1 /\ ba_chunks a !! c = Some x /\ 0 <= bac_size x /\ placed lo hi (l1 ++ l2) /\
  Forall (chunk_ok z) (l1 ++ l2) /\ chunk_ok z (c, x) /\ lo <= c /\ c + 80 + bac_size x <= hi.
Proof.
  intros (h & Hh & Hl & Hlo & Hhi & Hfl & Hp & H0 & H1 & Hz & Hok & Hat).
  destruct (placed_fresh _ _ _ _ _ _ Hp) as [F1 F2].
  pose proof Hp as (_ & _ & P1 & P2 & P3 & P4)%placed_middle. split_and!.
  - rewrite fmap_app, elem_of_app. tauto.
  - apply Hat. set_solver.
  - done.
  - apply placed_app in Hp as [Q1 (Q2 & Q3 & Q4)]. apply placed_app. split; [done|].
    eapply placed_weaken; [exact Q4|lia].
  - rewrite !Forall_app, ?Forall_cons in *. tauto.
  - rewrite !Forall_app, ?Forall_cons in Hok. tauto.
  - lia.
  - done.
Qed.

(** *** Operations on one chunk *)

Lemma del_fini_ok a z lo hi l1 c x l2 : zrep a z lo hi (l1 ++ (c, x) :: l2) -> bac_free x = true ->
  exists a', be_alloc_chunk_del_fini a z c = Some a' /\ zrep a' z lo hi (l1 ++ l2) /\
  moves a a' z lo hi lo lo 8 208.
Proof.
  intros Hz Hx. destruct (zrep_parts _ _ _ _ _ _ _ _ Hz) as (Hc & Hm & Hs & Hp & Hok & _).
  pose proof Hz as (h & Hh & Hl & _ & _ & Hfl & Hp0 & _ & _ & _ & _ & Hat).
  unfold be_alloc_chunk_del_fini. rewrite Hh. cbn [mbind option_bind].
  rewrite (invariant_check_ok _ _ _ _ _ _ _ _ Hz). cbn [mbind option_bind].
  rewrite (zone_check_ok _ _ _ _ _ c x Hz) by set_solver. cbn [mbind option_bind].
  destruct (fl_ok_del _ _ _ _ _ Hfl Hc Hx Hs) as (k1 & k2 & Hk & Hk1 & Hfl').
  destruct (fl_del_ok (ba_chunks a) (bah_fl h) c x k1 k2) as (cap & -> & Hcap);
    [done|done|by destruct Hfl|by apply (fl_ok_sound _ _ _ Hfl)|done|done|]. cbn [mbind option_bind].
  rewrite Hl, fmap_app, fmap_cons. cbn [fst]. destruct (seq_del_ok l1.*1 c l2.*1) as (cap' & -> & Hcap').
  { intros Hin. apply Hc. rewrite fmap_app. set_solver. }
  cbn [mbind option_bind]. rewrite <-fmap_app.
  destruct (upd_ok a z lo hi _ h _ (l1 ++ l2) (ba_chunks a) (ba_mem a) (16 :: cap' ++ cap) lo lo 8 208 Hz Hh
    Hfl' Hp Hok)
    as (hs & -> & H1 & H2); [|done|done| |cbn [mbind option_bind]; eexists; split; [done|]; split;
      [exact H1|exact H2]].
  - intros d y Hin. apply Hat. set_solver.
  - eapply cap_le_cons; [by apply cap_le_app|lia..].
Qed.

Lemma resize_ok a z lo hi l1 c x l2 size : zrep a z lo hi (l1 ++ (c, x) :: l2) -> 0 <= size ->
  placed (c + 80 + size) hi l2 ->
  exists a', be_alloc_chunk_resize a z c size = Some a' /\
  zrep a' z lo hi (l1 ++ (c, with_size x size) :: l2) /\
    moves a a' z lo hi lo lo 9 216.
Proof.
  intros Hz H0 Hroom. destruct (zrep_parts _ _ _ _ _ _ _ _ Hz) as (Hc & Hm & Hs & Hp & Hok & Hcx & Hlo & Hhi).
  pose proof Hz as (h & Hh & Hl & _ & _ & Hfl & Hp0 & _ & _ & _ & _ & Hat).
  unfold be_alloc_chunk_resize. rewrite Hh. cbn [mbind option_bind].
  rewrite (zone_check_ok _ _ _ _ _ c x Hz) by set_solver. cbn [mbind option_bind].
  assert (placed lo hi (l1 ++ (c, with_size x size) :: l2)) as Hp'.
  { apply placed_app in Hp0 as [Q1 (Q2 & Q3 & Q4)]. apply placed_app. split; [done|]. by split_and!. }
  assert (Forall (chunk_ok z) (l1 ++ (c, with_size x size) :: l2)) as Hok'.
  { rewrite !Forall_app, ?Forall_cons in *. tauto. }
  assert (forall d y, (d, y) ∈ l1 ++ (c, with_size x size) :: l2 ->
    <[c := with_size x size]> (ba_chunks a) !! d = Some y) as Hat'.
  { intros d y Hin. destruct (decide (d = c)) as [->|Hne].
    - rewrite lookup_insert_eq. f_equal. eapply placed_unique; [exact Hp'| |exact Hin]. set_solver.
    - rewrite lookup_insert_ne by done. apply Hat. set_solver. }
  assert (forall fl' caps, fl_ok fl' (l1 ++ (c, with_size x size) :: l2) -> cap_le caps 8 208 ->
    exists hs, arr_set (ba_h a) z (with_lists h (bah_chunks h) fl') = Some hs /\
    let a' := capture (8 :: caps) (with_chunks (with_h a hs) (<[c := with_size x size]> (ba_chunks a))) in
    zrep a' z lo hi (l1 ++ (c, with_size x size) :: l2) /\ moves a a' z lo hi lo lo 9 216) as Hfin.
  { intros fl' caps Hf Hcaps. replace (bah_chunks h) with (l1 ++ (c, with_size x size) :: l2).*1
      by (rewrite Hl, !fmap_app; done).
    apply (upd_ok a z lo hi _ h fl' _ (<[c := with_size x size]> (ba_chunks a)) (ba_mem a) (8 ::
      caps) lo lo 9 216 Hz); try done.
    - intros d Hd. rewrite lookup_insert_ne; [done|lia].
    - eapply cap_le_cons; [exact Hcaps|lia..]. }
  destruct (bac_free x) eqn:Hx; cbn [mbind option_bind].
  - destruct (fl_ok_del _ _ _ _ _ Hfl Hc Hx Hs) as (k1 & k2 & Hk & Hk1 & Hfl').
    destruct (fl_del_ok (ba_chunks a) (bah_fl h) c x k1 k2) as (cap & -> & Hcap);
      [done|done|by destruct Hfl|by apply (fl_ok_sound _ _ _ Hfl)|done|done|]. cbn [mbind option_bind].
    destruct (fl_add_ok (<[c := with_size x size]> (ba_chunks a))
      (<[Z.to_nat (be_fl_index_round_down_chunk x) := k1 ++ k2]> (bah_fl h)) c (with_size x size))
        as (l & cap' & Hl' & -> & Hcap').
    { apply lookup_insert_eq. }
    { done. }
    { by destruct Hfl'. }
    { eapply fl_ok_sound; [exact Hfl'|].
      intros d y Hin. apply Hat'. set_solver. }
    { intros l Hl'. by destruct (fl_ok_add _ l1 c (with_size x size) l2 l Hfl' Hc Hx H0 Hl'). }
    cbn [mbind option_bind]. destruct (fl_ok_add _ l1 c (with_size x size) l2 l Hfl' Hc Hx H0 Hl')
      as [_ Hfl2].
    destruct (Hfin _ _ Hfl2 (cap_le_app _ _ _ _ _ _ Hcap' Hcap)) as (hs & -> & H1 & H2).
    cbn [mbind option_bind].
    eexists. split; [done|]. by split.
  - destruct (Hfin (bah_fl h) []) as (hs & -> & H1 & H2);
      [| |cbn [mbind option_bind]; eexists; split; [done|]; by split].
    + apply fl_ok_used; [done|]. by apply fl_ok_used in Hfl.
    + by vm_compute.
Qed.

Lemma mark_free_ok a z lo hi l1 c x l2 : zrep a z lo hi (l1 ++ (c, x) :: l2) -> bac_free x = false ->
  exists a', be_alloc_chunk_mark_free a z c = Some a' /\
  zrep a' z lo hi (l1 ++ (c, with_free x true) :: l2) /\
    moves a a' z lo hi lo lo 5 105.
Proof.
  intros Hz Hx. destruct (zrep_parts _ _ _ _ _ _ _ _ Hz) as (Hc & Hm & Hs & Hp & Hok & Hcx & Hlo & Hhi).
  pose proof Hz as (h & Hh & Hl & _ & _ & Hfl & Hp0 & _ & _ & _ & _ & Hat).
  unfold be_alloc_chunk_mark_free. rewrite Hh. cbn [mbind option_bind].
  rewrite (invariant_check_ok _ _ _ _ _ _ _ _ Hz). cbn [mbind option_bind].
  rewrite (zone_check_ok _ _ _ _ _ c x Hz) by set_solver. cbn [mbind option_bind]. rewrite Hx.
  cbn [negb M0_ASSERT mbind option_bind].
  pose proof (proj1 (fl_ok_used (bah_fl h) l1 c x l2 Hx) Hfl) as Hfl0.
  destruct (fl_add_ok (ba_chunks a) (bah_fl h) c x) as (l & cap & Hl' & -> & Hcap);
    [done|done|by destruct Hfl|by apply (fl_ok_sound _ _ _ Hfl)| |].
  { intros l Hl'. by destruct (fl_ok_add _ l1 c (with_free x true) l2 l Hfl0 Hc eq_refl Hs Hl'). }
  cbn [mbind option_bind].
  destruct (fl_ok_add _ l1 c (with_free x true) l2 l Hfl0 Hc eq_refl Hs Hl') as [_ Hfl2].
  change (be_fl_index_round_down_chunk (with_free x true)) with (be_fl_index_round_down_chunk x) in Hfl2.
  destruct (upd_ok a z lo hi _ h _ (l1 ++ (c, with_free x true) ::
    l2) (<[c := with_free x true]> (ba_chunks a)) (ba_mem a)
    (1 :: cap) lo lo 5 105 Hz Hh Hfl2) as (hs & E & H1 & H2).
  - apply placed_app in Hp0 as [Q1 (Q2 & Q3 & Q4)]. apply placed_app. split; [done|]. by split_and!.
  - rewrite !Forall_app, ?Forall_cons in *. tauto.
  - intros d y Hin. destruct (decide (d = c)) as [->|Hne].
    + rewrite lookup_insert_eq. f_equal. apply elem_of_app in Hin as [Hin|[[= <-]|Hin]%elem_of_cons];
        [|done|];
        (destruct Hc; rewrite fmap_app, elem_of_app, !list_elem_of_fmap); [left|right]; by exists (c, y).
    + rewrite lookup_insert_ne by done. apply Hat. set_solver.
  - intros d Hd. rewrite lookup_insert_ne; [done|lia].
  - done.
  - eapply cap_le_cons; [exact Hcap|lia..].
  - rewrite fmap_app, fmap_cons in E. rewrite Hl, fmap_app, fmap_cons. cbn [fst] in *. rewrite E.
    cbn [mbind option_bind].
    erewrite invariant_check_ok by exact H1. cbn [mbind option_bind]. eexists. split; [done|]. by split.
Qed.

(** The header be_alloc_chunk_init() writes. *)
Definition chunk_new (z size : Z) (free chunk_align : bool) (shift : Z) : be_alloc_chunk :=
  {| bac_magic0 := M0_BE_ALLOC_MAGIC0; bac_size := size; bac_free := free; bac_zone := z;
     bac_chunk_align := chunk_align; bac_align_shift := shift; bac_magic1 := M0_BE_ALLOC_MAGIC1 |}.

Lemma headers_out_lookup p n m d : d + 80 <= p \/ p + n <= d -> headers_out p n m !! d = m !! d.
Proof.
  intros Hd. apply option_eq. intros x. unfold headers_out. rewrite map_lookup_filter_Some. simpl. tauto.
Qed.

Lemma invariant_check_last a z lo hi l1 l2 : zrep a z lo hi (l1 ++ l2) ->
  invariant_check_opt a (fst <$> last l1) = Some tt.
Proof.
  intros Hz. destruct l1 as [|[p px] l1 _] using rev_ind; [done|]. rewrite last_snoc. cbn.
  rewrite <-app_assoc in Hz. by eapply invariant_check_ok.
Qed.

Lemma chunk_after_ok a z lo hi l1 l2 : zrep a z lo hi (l1 ++ l2) ->
  be_alloc_chunk_after a z (fst <$> last l1) = Some (end_of lo l1).
Proof.
  intros Hz. pose proof Hz as (h & Hh & _ & <- & _ & _ & Hp & H0 & H1 & _). unfold be_alloc_chunk_after.
  rewrite Hh. cbn [mbind option_bind].
  destruct l1 as [|[p px] l1 _] using rev_ind; [done|]. rewrite last_snoc.
  cbn [fmap option_fmap option_map fst].
  rewrite (zone_check_ok _ _ _ _ _ p px Hz) by set_solver. cbn [mbind option_bind].
  rewrite (chunk_end_ok _ _ _ p px Hp) by (done || set_solver). by rewrite end_of_snoc.
Qed.

(** Where a chunk that is added goes. *)
Lemma zrep_room a z lo hi l1 l2 offset total : zrep a z lo hi (l1 ++ l2) -> 0 <= offset -> 0 < total ->
  placed (end_of (lo + offset) l1 + total) hi l2 ->
  let new := end_of (lo + offset) l1 in
  0 <= lo <= new /\ new + total <= hi /\ hi < 2 ^ 64 /\ end_of lo l1 <= new /\ new ∉ (l1 ++ l2).*1 /\
  forall d y, (d, y) ∈ l1 ++ l2 -> d <> new /\ (d + 80 <= new \/ new + total <= d).
Proof.
  intros (h & _ & _ & _ & _ & _ & Hp & H0 & H1 & _) Hoff Ht Hroom new.
  pose proof Hp as [P1 P2]%placed_app. pose proof (placed_le _ _ _ P1). pose proof (placed_le _ _ _ Hroom).
  assert (end_of lo l1 <= new) by (subst new; unfold end_of; destruct (last l1) as [[p px]|]; lia).
  assert (forall d y, (d, y) ∈ l1 ++ l2 -> d <> new /\ (d + 80 <= new \/ new + total <= d)) as Hd.
  { intros d y [Hin|Hin]%elem_of_app.
    - destruct (placed_elem _ _ _ _ _ P1 Hin). lia.
    - destruct (placed_elem _ _ _ _ _ Hroom Hin). subst new. lia. }
  subst new. split_and!; try lia; [|done]. intros ([d y] & E & Hin)%list_elem_of_fmap. apply Hd in Hin.
  simpl in *. lia.
Qed.

(** A new chunk in the list of all chunks, and in the free lists. *)
Lemma chunks_link l1 (new : Z) (x : be_alloc_chunk) l2 : NoDup (l1 ++ l2).*1 -> new ∉ (l1 ++ l2).*1 ->
  exists cap, match fst <$> last l1 with
              | Some c => m0_be_list_add_after (l1 ++ l2).*1 c new |
                None => m0_be_list_add (l1 ++ l2).*1 new end
    = Some ((l1 ++ (new, x) :: l2).*1, cap) /\ cap_le cap 3 88.
Proof.
  intros Hnd Hnew. destruct l1 as [|[p px] l1 _] using rev_ind; [by apply seq_add_ok|].
  rewrite last_snoc, <-!app_assoc, !fmap_app in *. cbn [fmap option_fmap option_map list_fmap fst app] in *.
  apply seq_add_after_ok; [|done]. apply NoDup_app in Hnd as (_ & Hnd & _). intros Hp. apply (Hnd p Hp).
  set_solver.
Qed.

Lemma free_link m fl l1 new z size (free ca : bool) shift l2 : let x := chunk_new z size free ca shift in
  fl_ok fl (l1 ++ l2) -> (forall d y, (d, y) ∈ l1 ++ l2 -> m !! d = Some y) -> m !! new = Some x ->
  0 <= size -> new ∉ (l1 ++ l2).*1 ->
  exists fl' cap, (if free then m0_be_fl_add m fl new else Some (fl, [])) = Some (fl', cap) /\
    fl_ok fl' (l1 ++ (new, x) :: l2) /\ cap_le cap (if free then 4 else 0) (if free then 104 else 0).
Proof.
  intros x Hfl Hat Hx Hs Hnew.
  destruct free; [|exists fl, []; split; [done|]; split;
    [exact (proj2 (fl_ok_used fl l1 new x l2 eq_refl) Hfl)|by vm_compute]].
  destruct (fl_add_ok m fl new x) as (l & cap & Hl & E & Hcap);
    [done|done|by destruct Hfl|by apply (fl_ok_sound _ _ _ Hfl)| |].
  { intros l Hl. by destruct (fl_ok_add _ l1 new x l2 l Hfl Hnew eq_refl Hs Hl). }
  eexists _, cap. split; [exact E|]. split; [|done].
  by destruct (fl_ok_add _ l1 new x l2 l Hfl Hnew eq_refl Hs Hl).
Qed.

Lemma add_after_ok a z lo hi l1 l2 offset total (free ca : bool) shift :
  zrep a z lo hi (l1 ++ l2) -> 0 <= offset -> 80 < total ->
  let new := end_of (lo + offset) l1 in
  placed (new + total) hi l2 -> (8 | new) -> 0 <= shift -> (2 ^ shift | if ca then new else new + 80) ->
  exists a', be_alloc_chunk_add_after a z (fst <$> last l1) offset total free ca shift = Some (new, a') /\
    zrep a' z lo hi (l1 ++ (new, chunk_new z (total - 80) free ca shift) :: l2) /\
    moves a a' z lo hi new (new + 80) (if free then 9 else 5) (if free then 288 else 184).
Proof.
  intros Hz Hoff Ht new Hroom H8 Hsh Hal.
  destruct (zrep_room a z lo hi l1 l2 offset total Hz Hoff ltac:(lia) Hroom)
    as (Hlo & Hhi & H64 & Hend & Hnew & Hd). fold new in Hlo, Hhi, Hend, Hnew, Hd.
  pose proof Hz as (h & Hh & Hl & Ha & _ & Hfl & Hp & _ & _ & Hzr & Hok & Hat).
  unfold be_alloc_chunk_add_after. rewrite Hh. cbn [mbind option_bind].
  rewrite (invariant_check_last _ _ _ _ _ _ Hz), (proj2 (Z.ltb_lt 80 total)) by done.
  cbn [M0_ASSERT mbind option_bind].
  assert (match fst <$> last l1 with
          | Some _ => be_alloc_chunk_after a z (fst <$> last l1) |
            None => Some (u64 (bah_addr h + offset)) end = Some new) as ->.
  { rewrite (chunk_after_ok _ _ _ _ _ _ Hz), Ha. subst new. unfold end_of in *.
    destruct (last l1) as [[p px]|]; cbn [fmap option_fmap option_map]; [done|].
    by rewrite u64_small by (unfold is_u64; lia). }
  cbn [mbind option_bind]. rewrite (u64_small (total - 80)) by (unfold is_u64; lia).
  set (x := chunk_new z (total - 80) free ca shift).
  set (m := <[new := x]> (headers_out new 80 (ba_chunks a))).
  assert (forall d y, (d, y) ∈ l1 ++ l2 -> m !! d = Some y) as Hat1.
  { intros d y Hin. destruct (Hd _ _ Hin) as [Hne Hov]. subst m. rewrite lookup_insert_ne by done.
    rewrite headers_out_lookup by lia. by apply Hat. }
  rewrite Hl. destruct (chunks_link l1 new x l2) as (cap & -> & Hcap); [by eapply placed_NoDup|done|].
  cbn [mbind option_bind].
  destruct (free_link m (bah_fl h) l1 new z (total - 80) free ca shift l2 Hfl Hat1)
    as (fl' & cap' & Efl & Hfl' & Hcap');
    [apply lookup_insert_eq|lia|done|].
  cbn [be_alloc_chunk_init capture header_write ba_chunks]. fold (chunk_new z (total - 80) free ca shift).
  fold x. fold m.
  rewrite Efl. cbn [mbind option_bind].
  destruct (upd_ok a z lo hi _ h fl' (l1 ++ (new, x) :: l2) m
    (fun p => if (new <=? p) && (p <? new + 80) then None else ba_mem a p) ((cap' ++ cap) ++ [80; 16]) new
      (new + 80)
    (if free then 9 else 5) (if free then 288 else 184) Hz Hh Hfl') as (hs & E & H1 & H2).
  - apply placed_app in Hp as [Q1 Q2]. apply placed_app. split; [done|]. cbn [placed x chunk_new bac_size].
    split_and!; [done|lia|]. replace (new + 80 + (total - 80)) with (new + total) by lia. done.
  - rewrite Forall_app, Forall_cons in *. split; [tauto|]. split; [|tauto]. by split_and!.
  - intros d y [Hin|[[= -> ->]|Hin]%elem_of_cons]%elem_of_app;
      [apply Hat1; set_solver|apply lookup_insert_eq|apply Hat1; set_solver].
  - intros d Hdd. subst m. rewrite lookup_insert_ne, headers_out_lookup by lia. done.
  - intros p Hpp. destruct (Z.leb_spec new p), (Z.ltb_spec p (new + 80)); try done; lia.
  - assert (cap_le [80; 16] 2 96) as Hci by by vm_compute.
    pose proof (cap_le_app _ _ _ _ _ _ (cap_le_app _ _ _ _ _ _ Hcap' Hcap) Hci).
    destruct free; done.
  - cbn [ba_h be_alloc_chunk_init capture header_write]. rewrite E. cbn [mbind option_bind].
    rewrite <-app_assoc in H1, H2. 
    unfold capture, with_h, be_alloc_chunk_init, header_write.
    cbn [ba_seg ba_h ba_chunks ba_mem ba_log capture].
    erewrite invariant_check_ok by exact H1. cbn [mbind option_bind].
    erewrite invariant_check_last by exact H1. cbn [mbind option_bind]. eexists. split; [done|]. by split.
Qed.
