(* ===== verification/BeAllocRun.v ===== *)
(** * be: allocation and release of memory

    From the operations on single chunks of BeAllocInv: splitting and merging keep a zone
    filled with chunks, no two free ones next to each other; allocated blocks are those of
    a map from addresses to contents. *)
From stdpp Require Import functions.
From S2P Require Import Prelude LibArith TxCredit BeAlloc BeAllocInv.

(** ** Splitting *)

(** be_alloc_chunk_tryadd_free_after(): [total] bytes behind the chunks [l1]. *)
Definition grow (z lo : Z) (l1 : chunk_list) (total : Z) : chunk_list :=
  if total <=? 80 then
    match last l1 with
    | Some (p, px) => removelast l1 ++ [(p, with_size px (bac_size px + total))]
    | None => []
    end
  else l1 ++ [(end_of lo l1, chunk_new z (total - 80) true false 3)].

Lemma removelast_snoc {A} (l : list A) x : removelast (l ++ [x]) = l.
Proof. apply removelast_last. Qed.

Lemma end_of_grow z lo l1 total : 0 <= total ->
  end_of (lo + (match fst <$> last (grow z lo l1 total) with None => total | Some _ => 0 end))
    (grow z lo l1 total) =
  end_of lo l1 + total.
Proof.
  intros Ht. unfold grow. destruct (Z.leb_spec total 80).
  - destruct l1 as [|[p px] l1 _] using rev_ind; [done|]. rewrite last_snoc, !end_of_snoc.
    cbn [with_size bac_size]. lia.
  - rewrite last_snoc, end_of_snoc. cbn [chunk_new bac_size]. lia.
Qed.

Lemma tryadd_ok a z lo hi l1 l2 total : zrep a z lo hi (l1 ++ l2) -> 0 <= total ->
  placed (end_of lo l1 + total) hi l2 ->
  (80 < total -> (8 | end_of lo l1)) ->
  exists a', be_alloc_chunk_tryadd_free_after a z (fst <$> last l1) 0 total = Some
    (fst <$> last (grow z lo l1 total), a') /\
    zrep a' z lo hi (grow z lo l1 total ++ l2) /\
    moves a a' z lo hi (end_of lo l1) (end_of lo l1 + total) 9 288.
Proof.
  intros Hz Ht Hroom H8. pose proof Hz as (h & _ & _ & _ & _ & _ & Hp & H0 & H1 & _ & _ & Hat).
  apply placed_app in Hp as [Hp1 _]. apply placed_le in Hp1 as Hle. apply placed_le in Hroom as Hle2.
  unfold be_alloc_chunk_tryadd_free_after, grow. destruct (Z.leb_spec total 80) as [Hs|Hs].
  - destruct l1 as [|[p px] l1 _] using rev_ind.
    { cbn. exists a. split; [done|]. split; [done|]. by apply moves_refl. }
    rewrite !last_snoc, removelast_snoc in *. rewrite end_of_snoc in *. cbn [fmap option_fmap option_map fst].
    rewrite (Hat p px) by set_solver. cbn [mbind option_bind].
    destruct (placed_elem _ _ _ p px Hp1) as (? & ? & _); [set_solver|].
    rewrite u64_small by (unfold is_u64; lia).
    rewrite <-app_assoc in *. destruct (resize_ok a z lo hi l1 p px l2 (bac_size px + total) Hz)
      as (a' & -> & Hz' & Hm).
    { lia. }
    { by replace (p + 80 + (bac_size px + total)) with (p + 80 + bac_size px + total) by lia. }
    cbn [mbind option_bind]. exists a'. split; [done|]. split; [done|]. eapply moves_mono; [exact Hm|lia..].
  - destruct (add_after_ok a z lo hi l1 l2 0 total true false 3 Hz) as (a' & E & Hz' & Hm);
      rewrite ?Z.add_0_r; [lia|lia|done|by apply H8|lia| |].
    { apply Z.divide_add_r; [by apply H8|by exists 10]. }
    rewrite Z.add_0_r in *. rewrite E. cbn [mbind option_bind]. rewrite last_snoc.
    cbn [fmap option_fmap option_map fst].
    exists a'. split; [done|]. split; [by rewrite <-app_assoc|]. eapply moves_mono; [exact Hm|lia..].
Qed.

Lemma chunk_prev_ok a z lo hi l1 c x l2 : zrep a z lo hi (l1 ++ (c, x) :: l2) ->
  be_alloc_chunk_prev a z c = Some (fst <$> last l1).
Proof.
  intros Hz. unfold be_alloc_chunk_prev. pose proof Hz as (h & Hh & _). rewrite Hh. cbn [mbind option_bind].
  rewrite (zone_check_ok _ _ _ _ _ c x Hz) by set_solver. cbn [mbind option_bind].
  destruct (zrep_prev _ _ _ _ _ _ _ _ _ Hz Hh) as [-> _]. cbn [mbind option_bind].
  by rewrite (invariant_check_last _ _ _ _ _ _ Hz).
Qed.

Lemma chunk_next_ok a z lo hi l1 c x l2 : zrep a z lo hi (l1 ++ (c, x) :: l2) ->
  be_alloc_chunk_next a z c = Some (fst <$> head l2).
Proof.
  intros Hz. unfold be_alloc_chunk_next. pose proof Hz as (h & Hh & _). rewrite Hh. cbn [mbind option_bind].
  rewrite (zone_check_ok _ _ _ _ _ c x Hz) by set_solver. cbn [mbind option_bind].
  destruct (zrep_prev _ _ _ _ _ _ _ _ _ Hz Hh) as [_ ->]. cbn [mbind option_bind].
  destruct l2 as [|[d y] l2]; [done|]. cbn [head fmap option_fmap option_map fst invariant_check_opt].
  rewrite (cons_middle (c, x)), app_assoc in Hz. by rewrite (invariant_check_ok _ _ _ _ _ _ _ _ Hz).
Qed.

(** The chunks after chunk [(c, x)] between [l1] and [l2] was split at [start]. *)
Definition split_chunks (z lo : Z) (l1 : chunk_list) (c : Z) (x : be_alloc_chunk) (start al : Z) (ca :
  bool) (shift : Z) : chunk_list :=
  grow z lo (grow z lo l1 (start - end_of lo l1) ++ [(start, chunk_new z al false ca shift)])
       (c + 80 + bac_size x - (start + 80 + al)).

Lemma split_last z lo l1 c x start al ca shift : exists y k,
  split_chunks z lo l1 c x start al ca shift = grow z lo l1 (start - end_of lo l1) ++ (start, y) :: k /\
  bac_free y = false /\ bac_zone y = z /\ bac_chunk_align y = ca /\ bac_align_shift y = shift /\
  (0 <= c + 80 + bac_size x - (start + 80 + al) -> al <= bac_size y).
Proof.
  unfold split_chunks, grow at 1. destruct (Z.leb_spec (c + 80 + bac_size x - (start + 80 + al)) 80).
  - rewrite last_snoc, removelast_snoc. eexists _, []. split_and!; [done..|]. cbn. lia.
  - rewrite <-app_assoc. eexists _, [_]. split_and!; [done..|]. cbn. lia.
Qed.

(** The new chunk, at [start], behind the chunks that were given the gap before it. *)
Lemma split_new a z lo hi l1 l2 start al (ca : bool) shift : let l1' := grow z lo l1 (start - end_of lo l1) in
  zrep a z lo hi (l1' ++ l2) -> end_of lo l1 <= start -> 0 < al -> placed (start + 80 + al) hi l2 ->
  (8 | start) -> 0 <= shift ->
  (2 ^ shift | if ca then start else start + 80) ->
  exists a', be_alloc_chunk_add_after a z (fst <$> last l1') (match fst <$> last l1'
    with None => start - end_of lo l1 | Some _ => 0 end)
      (80 + al) false ca shift = Some (start, a') /\
    zrep a' z lo hi ((l1' ++ [(start, chunk_new z al false ca shift)]) ++ l2) /\
    moves a a' z lo hi start (start + 80) 5 184.
Proof.
  intros l1' Hz Hstart Hal Hp H8 Hsh Hd. set (off := match fst <$> last l1'
    with None => start - end_of lo l1 | Some _ => 0 end).
  assert (end_of (lo + off) l1' = start) as Eoff by (subst off l1'; rewrite end_of_grow; lia).
  destruct (add_after_ok a z lo hi l1' l2 off (80 + al) false ca shift Hz) as (a' & E & Hz' & M);
    rewrite ?Eoff in *; try done.
  - subst off. destruct (fst <$> last l1'); lia.
  - lia.
  - by replace (start + (80 + al)) with (start + 80 + al) by lia.
  - exists a'. split; [done|]. split; [|done]. rewrite <-app_assoc.
    by replace (80 + al - 80) with al in Hz' by lia.
Qed.

Lemma split_ok a z lo hi l1 c x l2 start size (ca : bool) shift : zrep a z lo hi (l1 ++ (c, x) :: l2) ->
  bac_free x = true ->
  0 < size -> let al := (size + 7) / 8 * 8 in
  end_of lo l1 <= start -> start + 80 + al <= c + 80 + bac_size x -> (8 | end_of lo l1) -> (8 | start) ->
  0 <= shift -> (2 ^ shift | if ca then start else start + 80) ->
  exists a', be_alloc_chunk_split a z c start size ca shift = Some (start, a') /\
    zrep a' z lo hi (split_chunks z lo l1 c x start al ca shift ++ l2) /\
    moves a a' z lo hi (end_of lo l1) (c + 80 + bac_size x) 31 968.
Proof.
  intros Hz Hx Hsz al Hstart Hend H8 H8' Hsh Hal. pose proof (align8_bounds size) as Hab. fold al in Hab.
  assert (8 | al) as H8al by (by exists ((size + 7) / 8)).
  pose proof Hz as (h & _ & _ & _ & _ & _ & Hp & H0 & H1 & _ & _ & Hat).
  pose proof Hp as (_ & _ & P1 & P2 & P3 & P4)%placed_middle.
  assert (placed (c + 80 + bac_size x) hi l2) as Hp2 by (apply placed_app in Hp as [_ (_ & _ & ?)]; done).
  unfold be_alloc_chunk_split. rewrite (invariant_check_ok _ _ _ _ _ _ _ _ Hz). cbn [mbind option_bind].
  rewrite (Hat c x) by set_solver. cbn [mbind option_bind]. rewrite Hx. cbn [M0_ASSERT mbind option_bind].
  change (Z.shiftl 1 3) with 8. rewrite align8 by lia. cbn [mbind option_bind]. fold al.
  rewrite (chunk_prev_ok _ _ _ _ _ _ _ _ Hz).
  cbn [mbind option_bind]. rewrite (chunk_after_ok _ _ _ _ _ _ Hz). cbn [mbind option_bind].
  pose proof (chunk_after_ok a z lo hi (l1 ++ [(c, x)]) l2) as Ea.
  rewrite <-app_assoc, last_snoc, end_of_snoc in Ea.
  cbn [fmap option_fmap option_map fst app] in Ea. rewrite (Ea Hz). cbn [mbind option_bind].
  rewrite (u64_small (start + 80 + al)), (u64_small (start - _)), (u64_small (c + 80 + bac_size x - _)),
    (u64_small (80 + al))
    by (unfold is_u64; lia).
  rewrite (proj2 (Z.leb_le (end_of lo l1) start)), (proj2 (Z.leb_le start (start + 80 + al))),
    (proj2 (Z.leb_le (start + 80 + al) (c + 80 + bac_size x))) by lia. cbn [M0_ASSERT mbind option_bind].
  destruct (del_fini_ok _ _ _ _ _ _ _ _ Hz Hx) as (a1 & -> & Hz1 & M1). cbn [mbind option_bind].
  destruct (tryadd_ok a1 z lo hi l1 l2 (start - end_of lo l1) Hz1) as (a2 & -> & Hz2 & M2); [lia| |done|].
  { eapply placed_weaken; [exact Hp2|lia]. }
  cbn [mbind option_bind]. set (l1' := grow z lo l1 (start - end_of lo l1)) in *.
  destruct (split_new a2 z lo hi l1 l2 start al ca shift Hz2) as (a3 & E3 & Hz3 & M3); [done|lia| |done..|].
  { eapply placed_weaken; [exact Hp2|lia]. }
  fold l1' in E3. rewrite E3. cbn [mbind option_bind]. fold l1' in Hz3.
  set (n := (start, chunk_new z al false ca shift)) in *.
  assert (end_of lo (l1' ++ [n]) = start + 80 + al) as En by (subst n; rewrite end_of_snoc; done).
  destruct (tryadd_ok a3 z lo hi (l1' ++ [n]) l2 (c + 80 + bac_size x - (start + 80 + al)) Hz3)
    as (a4 & E4 & Hz4 & M4).
  { lia. }
  { rewrite En. eapply placed_weaken; [exact Hp2|lia]. }
  { intros _. rewrite En. repeat apply Z.divide_add_r; [done|by exists 10|done]. }
  rewrite last_snoc in E4. cbn [fmap option_fmap option_map fst n] in E4. rewrite E4. cbn [mbind option_bind].
  change (grow z lo (l1' ++ [n]) _) with (split_chunks z lo l1 c x start al ca shift) in Hz4.
  rewrite En in M4.
  destruct (split_last z lo l1 c x start al ca shift) as (y & k & Ek & Y1 & Y2 & Y3 & Y4 & Y5).
  pose proof Hz4 as (h4 & _ & _ & _ & _ & _ & _ & _ & _ & _ & _ & Hat4).
  rewrite (Hat4 start y) by (rewrite Ek; set_solver).
  cbn [mbind option_bind]. rewrite Y1, (proj2 (Z.leb_le size (bac_size y))) by lia.
  cbn [negb M0_ASSERT mbind option_bind].
  assert (invariant_check a4 start = Some tt) as ->.
  { rewrite Ek, <-app_assoc in Hz4. by eapply invariant_check_ok. }
  cbn [mbind option_bind]. exists a4. split; [done|]. split; [done|].
  change 31 with (9 + (5 + (9 + 8))). change 968 with (288 + (184 + (288 + 208))).
  eapply moves_trans; [eapply moves_trans; [eapply moves_trans|]|]; eapply moves_mono; try eassumption; lia.
Qed.

(** The smallest address not below [v] that is aligned. *)
Lemma ceil_bounds v s : 3 <= s -> (8 | v) -> let r := (v + 2 ^ s - 1) / 2 ^ s * 2 ^ s in
  v <= r <= v + 2 ^ s - 8 /\ (2 ^ s | r) /\ (8 | r).
Proof.
  intros Hs [q ->] r. assert (2 ^ s = 2 ^ (s - 3) * 8) as E
    by (change 8 with (2 ^ 3); rewrite <-Z.pow_add_r by lia; f_equal; lia).
  assert (0 < 2 ^ (s - 3)) by lia. set (t := 2 ^ (s - 3)) in *.
  pose proof (Z.div_mod (q * 8 + 2 ^ s - 1) (2 ^ s)).
  pose proof (Z.mod_pos_bound (q * 8 + 2 ^ s - 1) (2 ^ s)).
  assert ((q * 8 + 2 ^ s - 1) / 2 ^ s * 2 ^ s = (q * 8 + 2 ^ s - 1) / 2 ^ s * t * 8) as Er by lia.
  subst r. split_and!; [lia|lia|by exists ((q * 8 + 2 ^ s - 1) / 2 ^ s)|].
  exists ((q * 8 + 2 ^ s - 1) / 2 ^ s * t). lia.
Qed.

(** Where the new chunk starts. *)
Definition split_start (c shift : Z) (ca : bool) : Z :=
  if ca then (c + 2 ^ shift - 1) / 2 ^ shift * 2 ^ shift else (c + 80 + 2 ^ shift - 1) / 2 ^ shift * 2 ^
    shift - 80.

Lemma split_start_ok c shift ca : 3 <= shift -> (8 | c) ->
  c <= split_start c shift ca <= c + 2 ^ shift - 8 /\ (8 | split_start c shift ca) /\
  (2 ^ shift | if ca then split_start c shift ca else split_start c shift ca + 80).
Proof.
  intros Hs H8. unfold split_start. destruct ca.
  - destruct (ceil_bounds c shift Hs H8) as (? & ? & ?). done.
  - destruct (ceil_bounds (c + 80) shift Hs) as (B1 & B2 & B3); [apply Z.divide_add_r; [done|by exists 10]|].
    split_and!; [lia|lia| |by rewrite Z.sub_add]. apply Z.divide_sub_r; [done|by exists 10].
Qed.

Lemma trysplit_ok a z lo hi l1 c x l2 size shift ca : zrep a z lo hi (l1 ++ (c, x) :: l2) ->
  bac_free x = true ->
  0 < size -> 3 <= shift < 64 -> let al := (size + 7) / 8 * 8 in
  2 ^ shift - 8 + al <= bac_size x -> (8 | end_of lo l1) -> let start := split_start c shift ca in
  exists a', be_alloc_chunk_trysplit a z c size shift ca = Some (Some start, a') /\
    zrep a' z lo hi (split_chunks z lo l1 c x start al ca shift ++ l2) /\
    moves a a' z lo hi (end_of lo l1) (c + 80 + bac_size x) 31 968.
Proof.
  intros Hz Hx Hsz Hsh al Hfit H8 start. pose proof (align8_bounds size) as Hab. fold al in Hab.
  destruct (zrep_parts _ _ _ _ _ _ _ _ Hz) as (_ & Hm & Hs & _ & _ & (_ & _ & _ & _ & _ & H8c) & Hlo & Hhi).
  pose proof Hz as (h & _ & _ & _ & _ & _ & Hp & H0 & H1 & _).
  pose proof Hp as (_ & _ & P1 & P2 & _)%placed_middle.
  destruct (split_start_ok c shift ca) as (Hst & H8st & Hal); [lia|done|]. fold start in Hst, H8st, Hal.
  assert (0 < 2 ^ shift < 2 ^ 64) as H2 by (split; [lia|apply Z.pow_lt_mono_r; lia]).
  unfold be_alloc_chunk_trysplit. rewrite Z.shiftl_1_l, (u64_small (2 ^ shift)) by (unfold is_u64; lia).
  rewrite (invariant_check_ok _ _ _ _ _ _ _ _ Hz). cbn [mbind option_bind].
  rewrite (proj2 (Z.eqb_neq (2 ^ shift) 0)) by lia. cbn [negb M0_ASSERT mbind option_bind]. rewrite Hm.
  cbn [mbind option_bind].
  rewrite Hx, (chunk_end_ok _ _ _ c x Hp H0 H1) by set_solver.
  assert ((if ca then u64 (Z.land (u64 (c + 2 ^ shift - 1)) (Z.lnot (2 ^ shift - 1)) + 80)
           else Z.land (u64 (c + 80 + 2 ^ shift - 1)) (Z.lnot (2 ^ shift - 1))) = start + 80) as ->.
  { subst start. unfold split_start in *. destruct ca; rewrite (u64_small (_ - 1)) by (unfold is_u64; lia).
    - rewrite align_down by lia. rewrite u64_small by (unfold is_u64; lia). done.
    - rewrite align_down by lia. lia. }
  rewrite !u64_small by (unfold is_u64; lia). rewrite (proj2 (Z.leb_le (start + 80 + size) _)) by lia.
  replace (start + 80 - 80) with start by lia.
  destruct (split_ok a z lo hi l1 c x l2 start size ca shift Hz Hx Hsz) as (a' & -> & Hz' & Hmv);
    [lia|fold al; lia|done|done|lia|done|].
  fold al in Hz'. cbn [mbind option_bind]. destruct (split_last z lo l1 c x start al ca shift)
    as (y & k & Ek & _).
  assert (invariant_check a' start = Some tt) as ->.
  { rewrite Ek, <-app_assoc in Hz'. by eapply invariant_check_ok. }
  cbn [mbind option_bind]. exists a'. done.
Qed.

(** ** Choosing a free chunk *)

(** A free chunk is good for [size] bytes; of the large ones, only if it is larger. *)
Definition fits (size : Z) (x : be_alloc_chunk) : Prop :=
  bac_free x = true /\ if size <? 1024 then size <= bac_size x else size < bac_size x.

Lemma pick_scan_ok m size l chunk i :
  (forall c, c ∈ l -> exists x, m !! c = Some x) ->
  match chunk with Some (c, s) => size < s /\ exists x, m !! c = Some x /\ bac_size x = s |
    None => True end ->
  exists r, pick_scan m size l chunk i = Some r /\
    match r with
    | Some (c, s) => size < s /\ (c ∈ l \/ chunk = Some (c, s)) /\ exists x, m !! c = Some x /\ bac_size x = s
    | None => chunk = None /\ forall c x, c ∈ l -> m !! c = Some x -> bac_size x <= size
    end.
Proof.
  revert chunk i. induction l as [|d l IH]; intros chunk i Hm Hc.
  { exists chunk. split; [done|]. destruct chunk as [[c s]|]; [tauto|]. split; [done|].
      by intros ? ? ?%elem_of_nil. }
  cbn [pick_scan]. destruct (Hm d) as [x Hx]; [set_solver|]. rewrite Hx. cbn [mbind option_bind].
  set (better := (size <? bac_size x) && _). set (chunk' := if better then Some (d, bac_size x) else chunk).
  assert (match chunk' with Some (c, s) => size < s /\ exists x, m !! c = Some x /\ bac_size x = s |
    None => True end) as Hc'.
  { subst chunk' better. destruct (Z.ltb_spec size (bac_size x)); cbn [andb]; [|done].
    destruct (match chunk with Some (_, s) => _ | None => _ end); [|done]. split; [done|]. by exists x. }
  assert (forall c s, chunk' = Some (c, s) -> c = d \/ chunk = Some (c, s)) as Hor.
  { intros c s. subst chunk'. destruct better; [intros [= <- <-]; by left|by right]. }
  assert (chunk' = None -> chunk = None /\ bac_size x <= size) as Hnone.
  { subst chunk' better. destruct (Z.ltb_spec size (bac_size x)); cbn [andb]; [|done].
    destruct chunk as [[c s]|]; [destruct (bac_size x <? s)|]; done. }
  destruct ((16 <=? i + 1) && bool_decide (chunk' <> None)) eqn:Eb.
  - exists chunk'. split; [done|]. apply andb_true_iff in Eb as [_ Eb%bool_decide_eq_true_1].
    destruct chunk' as [[c s]|]; [|done]. destruct (Hor c s eq_refl) as [->|]; split_and!; try tauto;
      set_solver.
  - destruct (IH chunk' (i + 1)) as (r & -> & Hr); [set_solver|done|]. exists r. split; [done|].
    destruct r as [[c s]|].
    + destruct Hr as (H1 & [H2|H2] & H3); split_and!; try done; [set_solver|].
      destruct (Hor _ _ H2) as [->|]; [left; set_solver|by right].
    + destruct Hr as [H1 H2]. destruct (Hnone H1) as [-> H3]. split; [done|].
      intros c y [->|Hin]%elem_of_cons Hy; [|by eapply H2]. by simplify_eq.
Qed.

(** The free lists of a zone and its free chunks. *)
Lemma fl_member a z lo hi cs h c x : zrep a z lo hi cs -> arr_get (ba_h a) z = Some h -> (c, x) ∈ cs ->
  bac_free x = true ->
  0 <= be_fl_index_round_down_chunk x <= 128 /\
  exists l, bah_fl h !! Z.to_nat (be_fl_index_round_down_chunk x) = Some l /\ c ∈ l.
Proof.
  intros (h' & Hh & _ & _ & _ & [Hlen Hfl] & Hp & _) E Hin Hf. assert (h' = h) as -> by congruence.
  destruct (placed_elem _ _ _ _ _ Hp Hin) as (_ & Hsz & _). pose proof (fl_index_range x Hsz). split; [done|].
  destruct (lookup_lt_is_Some_2 (bah_fl h) (Z.to_nat (be_fl_index_round_down_chunk x))) as [l Hl]; [lia|].
  exists l. split; [done|]. apply (Hfl _ _ Hl). exists x. split_and!; [done..|lia].
Qed.

Lemma fl_elem a z lo hi cs h j l c : zrep a z lo hi cs -> arr_get (ba_h a) z = Some h ->
  bah_fl h !! j = Some l -> c ∈ l ->
  exists x, (c, x) ∈ cs /\ ba_chunks a !! c = Some x /\ bac_free x = true /\
  be_fl_index_round_down_chunk x = Z.of_nat j.
Proof.
  intros (h' & Hh & _ & _ & _ & [Hlen Hfl] & _ & _ & _ & _ & _ & Hat) E Hj Hc.
  assert (h' = h) as -> by congruence.
  destruct (Hfl _ _ Hj) as [_ Hi]. apply Hi in Hc as (x & Hin & Hf & Hidx). exists x. auto.
Qed.

(** The list of a chunk says whether the chunk is large enough. *)
Lemma index_fits q x : 0 <= bac_size x -> let i := Z.min 128 q in
  (be_fl_index_round_down_chunk x < i -> ~ fits (q * 8) x) /\
  (i <= be_fl_index_round_down_chunk x < 128 -> q * 8 < 1024 /\ q * 8 <= bac_size x) /\
  (be_fl_index_round_down_chunk x = 128 -> bac_size x <= q * 8 -> ~ fits (q * 8) x).
Proof.
  intros Hs i. unfold be_fl_index_round_down_chunk, fits.
  pose proof (Z.div_mod (bac_size x) 8). pose proof (Z.mod_pos_bound (bac_size x) 8).
  split_and!; [intros H1 [_ H2]|intros H1|intros H1 H3 [_ H2]]; destruct (Z.ltb_spec (q * 8) 1024); lia.
Qed.

Lemma pick_ok a z lo hi cs h stp : zrep a z lo hi cs -> arr_get (ba_h a) z = Some h -> 0 <= stp ->
  stp + 7 < 2 ^ 64 -> (8 | stp) ->
  exists r, m0_be_fl_pick (ba_chunks a) (bah_fl h) stp = Some r /\
    match r with
    | Some c => exists x, (c, x) ∈ cs /\ fits stp x /\ stp <= bac_size x
    | None => forall c x, (c, x) ∈ cs -> ~ fits stp x
    end.
Proof.
  intros Hz E Hs0 Hs1 [q ->]. pose proof Hz as (h' & Hh & _ & _ & _ & Hfl & Hp & _ & _ & _ & _ & Hat).
  assert (h' = h) as -> by congruence. unfold m0_be_fl_pick.
  rewrite (proj2 (fl_invariant_sound _ _)) by (by eapply fl_ok_sound). cbn [M0_ASSERT mbind option_bind].
  unfold be_fl_index_round_up. rewrite align8 by done. cbn [mbind option_bind].
  assert ((q * 8 + 7) / 8 * 8 / 8 = q) as ->
    by (rewrite Z.div_mul, Z.div_add_l by lia; change (7 / 8) with 0; lia).
  set (i := Z.min 128 q).
  (* a chunk that fits is on a list from [i] on *)
  assert (forall c x, (c, x) ∈ cs -> fits (q * 8) x -> exists l,
    i <= be_fl_index_round_down_chunk x <= 128 /\ c ∈ l /\
    drop (Z.to_nat i) (bah_fl h) !! (Z.to_nat (be_fl_index_round_down_chunk x) - Z.to_nat i)%nat = Some l)
      as Hfit.
  { intros c x Hin Hx. destruct (fl_member _ _ _ _ _ _ _ _ Hz E Hin (proj1 Hx))
      as (Hr & l & Hl & Hc). exists l.
    destruct (placed_elem _ _ _ _ _ Hp Hin) as (_ & Hsz & _). destruct (index_fits q x Hsz) as [Hsmall _].
    destruct (Z.lt_ge_cases (be_fl_index_round_down_chunk x) i) as [Hlt|Hge]; [by destruct (Hsmall Hlt)|].
    split; [lia|]. split; [done|]. rewrite lookup_drop. rewrite <-Hl. f_equal. lia. }
  destruct (list_find (fun l => l <> []) (drop (Z.to_nat i) (bah_fl h))) as [[j flist]|] eqn:Ef; cycle 1.
  { eexists. split; [done|]. cbn. intros c x Hin Hx. destruct (Hfit _ _ Hin Hx) as (l & _ & Hc & Hl).
    apply list_find_None in Ef. rewrite Forall_lookup in Ef. apply (Ef _ _ Hl). intros ->.
    by apply elem_of_nil in Hc. }
  apply list_find_Some in Ef as (Hj & Hne & Hbefore). pose proof Hj as Hj'. rewrite lookup_drop in Hj'.
  apply lookup_lt_Some in Hj' as Hlt. pose proof (proj1 Hfl) as Hlen.
  destruct (Z.eqb_spec (i + Z.of_nat j) 128) as [E128|Hn128].
  - destruct (pick_scan_ok (ba_chunks a) (q * 8) flist None 0) as (r & -> & Hr); [|done|].
    { intros c Hc. destruct (fl_elem _ _ _ _ _ _ _ _ _ Hz E Hj' Hc) as (x & _ & Hx & _). by exists x. }
    cbn [mbind option_bind]. destruct r as [[c s]|].
    + destruct Hr as (Hs & [Hc|[=]] & x & Hx & <-). rewrite (proj2 (Z.leb_le (q * 8) (bac_size x))) by lia.
      cbn [M0_ASSERT mbind option_bind]. eexists. split; [done|]. cbn.
      destruct (fl_elem _ _ _ _ _ _ _ _ _ Hz E Hj' Hc) as (y & Hin & Hy & Hf & _). simplify_eq.
      exists x. split; [done|]. split; [|lia]. split; [done|]. destruct (_ <? 1024); lia.
    + destruct Hr as [_ Hr]. cbn [M0_ASSERT mbind option_bind]. eexists. split; [done|]. cbn.
      intros c x Hin Hx.
      destruct (Hfit _ _ Hin Hx) as (l & Hi & Hc & Hl).
      destruct (placed_elem _ _ _ _ _ Hp Hin) as (_ & Hsz & _).
      destruct (decide (be_fl_index_round_down_chunk x = 128)) as [E1|Hn].
      * replace (Z.to_nat (be_fl_index_round_down_chunk x) - Z.to_nat i)%nat with j in Hl by lia.
        assert (l = flist) as -> by congruence. apply (index_fits q x Hsz); [done| |done]. by eapply Hr, Hat.
      * apply (Hbefore _ _ Hl); [lia|]. intros ->. by apply elem_of_nil in Hc.
  - destruct flist as [|c flist]; [done|]. cbn [head mbind option_bind].
    destruct (fl_elem _ _ _ _ _ _ _ _ c Hz E Hj') as (x & Hin & Hx & Hf & Hidx); [set_solver|].
    destruct (placed_elem _ _ _ _ _ Hp Hin) as (_ & Hsz & _). destruct (index_fits q x Hsz) as (_ & Hbig & _).
    destruct Hbig as [Hs Hle]; [lia|]. rewrite Hx. cbn [mbind option_bind].
    rewrite (proj2 (Z.leb_le (q * 8) (bac_size x))) by done. cbn [M0_ASSERT mbind option_bind]. eexists.
    split; [done|]. cbn.
    exists x. split; [done|]. split; [|done]. split; [done|]. by rewrite (proj2 (Z.ltb_lt (q * 8) 1024)).
Qed.

(** ** Zones *)

(** The chunks fill the space between two addresses. *)
Fixpoint packed (lo hi : Z) (cs : chunk_list) : Prop :=
  match cs with
  | [] => lo = hi
  | (c, x) :: cs => c = lo /\ 0 < bac_size x /\ packed (c + 80 + bac_size x) hi cs
  end.

(** Up to 80 bytes in front of the first chunk of a zone may be lost. *)
Definition tight (lo hi : Z) (cs : chunk_list) : Prop :=
  exists s, lo <= s <= lo + 80 /\ packed s hi cs /\ (cs = [] -> s = lo).

(** Is the last chunk of the list free, or the one before it? *)
Definition last_free (b : bool) (cs : chunk_list) : bool := match last cs with Some (_, x) => bac_free x |
  None => b end.

(** No two free chunks are neighbours; [b] is the flag of the chunk before. *)
Fixpoint spaced (b : bool) (cs : chunk_list) : Prop :=
  match cs with
  | [] => True
  | (_, x) :: cs => b && bac_free x = false /\ spaced (bac_free x) cs
  end.

Lemma packed_app lo hi l1 l2 : packed lo hi (l1 ++ l2) <-> packed lo (end_of lo l1) l1 /\
  packed (end_of lo l1) hi l2.
Proof.
  revert lo. induction l1 as [|[c x] l1 IH]; intros lo; cbn [packed app]; [unfold end_of; simpl; tauto|].
  rewrite end_of_cons, IH. tauto.
Qed.

Lemma last_free_cons b c x cs : last_free b ((c, x) :: cs) = last_free (bac_free x) cs.
Proof. unfold last_free. rewrite last_cons. by destruct (last cs). Qed.

Lemma spaced_app b l1 l2 : spaced b (l1 ++ l2) <-> spaced b l1 /\ spaced (last_free b l1) l2.
Proof.
  revert b. induction l1 as [|[c x] l1 IH]; intros b; cbn [spaced app]; [unfold last_free; simpl; tauto|].
  rewrite last_free_cons, IH. tauto.
Qed.

Lemma end_of_nonempty lo lo' l : l <> [] -> end_of lo l = end_of lo' l.
Proof. unfold end_of. destruct l as [|x l _] using rev_ind; [done|]. by rewrite last_snoc. Qed.

Lemma packed_placed s lo hi cs : packed s hi cs -> lo <= s -> placed lo hi cs.
Proof.
  revert s lo. induction cs as [|[c x] cs IH]; intros s lo; cbn [packed placed]; [lia|].
  intros (-> & H1 & H2) Hlo. split_and!; [done|lia|]. eapply IH; [done|lia].
Qed.

Lemma packed_end lo hi cs : packed lo hi cs -> end_of lo cs = hi.
Proof.
  revert lo. induction cs as [|[c x] cs IH]; intros lo; [done|]. rewrite end_of_cons. intros (-> & _ & H).
  by apply IH.
Qed.

(** A chunk in a zone: the chunk before it ends where it starts, unless it is the first. *)
Lemma tight_middle lo hi l1 c x l2 : tight lo hi (l1 ++ (c, x) :: l2) ->
  0 < bac_size x /\ packed (c + 80 + bac_size x) hi l2 /\ lo <= end_of lo l1 <= c /\
  (l1 <> [] -> end_of lo l1 = c).
Proof.
  intros (s & Hs & Hp & _). pose proof (packed_placed s lo hi _ Hp ltac:(lia))
    as (_ & _ & P1 & P2 & _)%placed_middle.
  apply packed_app in Hp as (_ & Q1 & Q2 & Q3). split_and!; [done..|]. intros Hne.
  by rewrite (end_of_nonempty lo s).
Qed.

Definition zone_ok (a : m0_be_allocator) (z lo hi : Z) (cs : chunk_list) : Prop :=
  zrep a z lo hi cs /\ tight lo hi cs /\ spaced false cs /\ (8 | lo).

(** *** Zones when a chunk is split *)

Lemma split_tight z lo hi l1 c x l2 start al ca shift : tight lo hi (l1 ++ (c, x) :: l2) ->
  end_of lo l1 <= start -> 0 < al -> start + 80 + al <= c + 80 + bac_size x ->
  tight lo hi (split_chunks z lo l1 c x start al ca shift ++ l2).
Proof.
  intros Ht Hs Hal Hend. destruct (tight_middle _ _ _ _ _ _ Ht) as (_ & Hl2 & He & _).
  destruct Ht as (s & Hslo & Hp & _).
  assert (exists s', lo <= s' <= lo + 80 /\ packed s' start (grow z lo l1 (start - end_of lo l1)))
    as (s' & Hs' & Hp').
  { unfold grow. destruct l1 as [|[p px] l1 _] using rev_ind.
    - unfold end_of in *. cbn [last app] in *. destruct (Z.leb_spec (start - lo) 80).
      + exists start. cbn [packed]. lia.
      + exists lo. cbn [packed chunk_new bac_size]. lia.
    - exists s. split; [done|]. rewrite <-app_assoc in Hp. apply packed_app in Hp as (Hp & -> & P2 & P3 & _).
      rewrite end_of_snoc, last_snoc, removelast_snoc in *.
      destruct (Z.leb_spec (start - (end_of s l1 + 80 + bac_size px)) 80).
      + apply packed_app. cbn [packed with_size bac_size]. split; [done|]. lia.
      + rewrite <-app_assoc. apply packed_app. cbn [app packed chunk_new bac_size]. split; [done|]. lia. }
  assert (exists N, split_chunks z lo l1 c x start al ca shift = grow z lo l1 (start - end_of lo l1) ++ N /\
    N <> [] /\
    packed start hi (N ++ l2)) as (N & -> & Hne & HN).
  { unfold split_chunks. generalize (grow z lo l1 (start - end_of lo l1)) as g. intros g. unfold grow.
    rewrite last_snoc, removelast_snoc, end_of_snoc.
    destruct (Z.leb_spec (c + 80 + bac_size x - (start + 80 + al)) 80).
    - eexists. split; [done|]. split; [done|]. cbn [app packed with_size chunk_new bac_size].
      split_and!; [done|lia|].
      by replace (start + 80 + _) with (c + 80 + bac_size x) by lia.
    - rewrite <-app_assoc. eexists. split; [done|]. split; [done|]. cbn [app packed chunk_new bac_size].
      split_and!; [done|lia|done|lia|].
      by replace (start + 80 + al + 80 + _) with (c + 80 + bac_size x) by lia. }
  exists s'. split; [done|]. rewrite <-app_assoc. split.
  - apply packed_app. assert (end_of s' (grow z lo l1 (start - end_of lo l1)) = start) as Ee.
    { by apply packed_end. }
    by rewrite Ee.
  - intros Hnil. destruct (grow z lo l1 (start - end_of lo l1)); [|done]. by destruct N.
Qed.

Lemma spaced_weaken b cs : spaced true cs -> spaced b cs.
Proof. destruct cs as [|[c x] cs]; [done|]. cbn. intros [-> H]. by rewrite andb_false_r. Qed.

(** What was added behind the chunk of a split. *)
Lemma split_shape z lo l1 c x start al ca shift : 0 <= c + 80 + bac_size x - (start + 80 + al) ->
  exists y k, split_chunks z lo l1 c x start al ca shift = grow z lo l1 (start - end_of lo l1) ++ (start,
    y) :: k /\
    bac_free y = false /\ bac_zone y = z /\ al <= bac_size y /\
    (k = [] \/ exists d w, k = [(d, w)] /\ bac_free w = true).
Proof.
  intros Ht. unfold split_chunks. generalize (grow z lo l1 (start - end_of lo l1)) as g. intros g.
  unfold grow.
  rewrite last_snoc, removelast_snoc, end_of_snoc.
  destruct (Z.leb_spec (c + 80 + bac_size x - (start + 80 + al)) 80).
  - eexists _, []. split_and!; [done..|cbn; lia|by left].
  - rewrite <-app_assoc. eexists _, [_]. split_and!; [done..|cbn; lia|right; by eexists _, _].
Qed.

Lemma split_spaced z lo l1 c x l2 start al ca shift : spaced false (l1 ++ (c, x) :: l2) ->
  bac_free x = true ->
  0 <= c + 80 + bac_size x - (start + 80 + al) ->
  spaced false (split_chunks z lo l1 c x start al ca shift ++ l2).
Proof.
  intros [S1 S2]%spaced_app Hx Ht. cbn [spaced] in S2. rewrite Hx, andb_true_r in S2. destruct S2 as [S2 S3].
  destruct (split_shape z lo l1 c x start al ca shift Ht) as (y & k & -> & Hy & _ & _ & Hk).
  rewrite <-app_assoc. apply spaced_app. split.
  - unfold grow. destruct (_ <=? 80).
    + destruct l1 as [|[p px] l1 _] using rev_ind; [done|]. rewrite last_snoc, removelast_snoc.
      apply spaced_app in S1 as [T1 T2]. by apply spaced_app.
    + apply spaced_app. split; [done|]. cbn [spaced chunk_new bac_free]. by rewrite S2.
  - cbn [app spaced]. rewrite Hy, andb_false_r. split; [done|].
    destruct Hk as [->|(d & w & -> & Hw)]; cbn [app spaced]; [by apply spaced_weaken|]. by rewrite Hw.
Qed.

Definition used (cs : chunk_list) (c n : Z) : Prop := exists x, (c, x) ∈ cs /\ bac_free x = false /\
  n <= bac_size x.

Lemma grow_used z lo l1 total c n : 0 <= total -> used l1 c n -> used (grow z lo l1 total) c n.
Proof.
  intros Ht (x & Hin & Hx & Hn). unfold grow. destruct (total <=? 80); [|exists x; split; [set_solver|done]].
  destruct l1 as [|[p px] l1 _] using rev_ind; [by apply elem_of_nil in Hin|].
  rewrite last_snoc, removelast_snoc.
  apply elem_of_app in Hin as [Hin|Hin]; [exists x; split; [set_solver|done]|].
  apply list_elem_of_singleton in Hin as [= -> ->]. exists (with_size px (bac_size px + total)).
  split; [set_solver|]. cbn. split; [done|lia].
Qed.

Lemma grow_used_inv z lo l1 total c : used (grow z lo l1 total) c 0 -> exists x, (c, x) ∈ l1 /\
  bac_free x = false.
Proof.
  intros (x & Hin & Hx & _). unfold grow in Hin. destruct (total <=? 80).
  - destruct l1 as [|[p px] l1 _] using rev_ind; [by apply elem_of_nil in Hin|].
    rewrite last_snoc, removelast_snoc in Hin.
    apply elem_of_app in Hin as [Hin|Hin]; [exists x; split; [set_solver|done]|].
    apply list_elem_of_singleton in Hin as [= -> ->]. exists px. split; [set_solver|done].
  - apply elem_of_app in Hin as [Hin|Hin]; [by exists x|].
    by apply list_elem_of_singleton in Hin as [= -> ->].
Qed.

(** The blocks of a zone after a split: the old ones, with at least their size, and the new one. *)
Lemma split_used z lo l1 c x l2 start al ca shift : bac_free x = true -> end_of lo l1 <= start ->
  0 <= c + 80 + bac_size x - (start + 80 + al) ->
  let cs' := split_chunks z lo l1 c x start al ca shift ++ l2 in
  used cs' start al /\ (forall d n, used (l1 ++ (c, x) :: l2) d n -> used cs' d n) /\
  (forall d, used cs' d 0 -> d = start \/ exists y, (d, y) ∈ l1 ++ (c, x) :: l2 /\ bac_free y = false).
Proof.
  intros Hx Hs Ht cs'. destruct (split_shape z lo l1 c x start al ca shift Ht)
    as (y & k & E & Hy & _ & Hal & Hk).
  subst cs'. rewrite E, <-app_assoc. split_and!.
  - exists y. split; [set_solver|done].
  - intros d n (w & Hin & Hw & Hn). apply elem_of_app in Hin as [Hin|[[= -> ->]|Hin]%elem_of_cons];
      [|congruence|].
    + destruct (grow_used z lo l1 (start - end_of lo l1) d n) as (w' & Hin' & Hw'); [lia|by exists w|].
      exists w'. split; [set_solver|done].
    + exists w. split; [set_solver|done].
  - intros d (w & Hin & Hw & Hn). apply elem_of_app in Hin as [Hin|[[= -> ->]|Hin]%elem_of_cons]; [|by left|].
    + destruct (grow_used_inv z lo l1 (start - end_of lo l1) d) as (w' & Hin' & Hw'); [by exists w|].
      right. exists w'. split; [set_solver|done].
    + apply elem_of_app in Hin as [Hin|Hin].
      * destruct Hk as [->|(d' & w' & -> & Hw')]; [by apply elem_of_nil in Hin|].
        apply list_elem_of_singleton in Hin as [= -> ->]. congruence.
      * right. exists w. split; [set_solver|done].
Qed.

(** *** Merging *)

Lemma merge_ok a z lo hi l1 c x d y l2 : zrep a z lo hi (l1 ++ (c, x) :: (d, y) :: l2) ->
  c + 80 + bac_size x = d ->
  bac_free x = true \/ bac_free y = true ->
  exists b a' k, be_alloc_chunk_trymerge a z (Some c) (Some d) = Some (b, a') /\
  zrep a' z lo hi (l1 ++ k ++ l2) /\
    moves a a' z lo hi lo lo 17 424 /\ b = bac_free x && bac_free y /\
    k = if b then [(c, with_size x (bac_size x + (80 + bac_size y)))] else [(c, x); (d, y)].
Proof.
  intros Hz Hd Hf. pose proof Hz as (h & _ & _ & _ & _ & _ & Hp & H0 & H1 & _ & _ & Hat).
  pose proof Hp as (_ & P1 & P2 & P3 & P4 & P5)%placed_middle.
  destruct (P1 d y) as (Q1 & Q2 & Q3); [set_solver|].
  assert (Hz2 := Hz). rewrite (cons_middle (c, x)), app_assoc in Hz2.
  unfold be_alloc_chunk_trymerge. cbn [invariant_check_opt].
  rewrite (invariant_check_ok _ _ _ _ _ _ _ _ Hz), (invariant_check_ok _ _ _ _ _ _ _ _ Hz2).
  cbn [mbind option_bind].
  rewrite (proj2 (Z.ltb_lt c d)) by lia. cbn [M0_ASSERT mbind option_bind].
  rewrite (Hat c x), (Hat d y) by set_solver. cbn [mbind option_bind].
  rewrite (proj2 (orb_true_iff _ _) Hf). cbn [M0_ASSERT mbind option_bind].
  destruct (bac_free x) eqn:Hx, (bac_free y) eqn:Hy; cbn [andb]; cycle 1.
  1-3: exists false, a, [(c, x); (d, y)]; split; [done|]; split; [done|]; split; [|done];
    by apply moves_refl.
  rewrite (u64_small (80 + bac_size y)), u64_small by (unfold is_u64; lia).
  destruct (del_fini_ok _ _ _ _ _ _ _ _ Hz2 Hy) as (a1 & -> & Hz1 & M1). cbn [mbind option_bind].
  rewrite <-app_assoc in Hz1. cbn [app] in Hz1.
  destruct (resize_ok a1 z lo hi l1 c x l2 (bac_size x + (80 + bac_size y)) Hz1) as (a2 & -> & Hz3 & M2);
    [lia| |].
  { apply placed_app in Hp as [_ (_ & _ & _ & _ & Hp)]. replace (c + 80 + _) with (d + 80 + bac_size y)
      by lia. done. }
  cbn [mbind option_bind]. rewrite (invariant_check_ok _ _ _ _ _ _ _ _ Hz3). cbn [mbind option_bind].
  exists true, a2, [(c, with_size x (bac_size x + (80 + bac_size y)))]. split; [done|]. split; [exact Hz3|].
  split; [|done].
  change 17 with (9 + 8). change 424 with (216 + 208). by eapply moves_trans.
Qed.

(** The zone after its chunk [c] was freed. *)
Definition freed (cs cs' : chunk_list) (c : Z) : Prop :=
  forall d n, used cs' d n <-> used cs d n /\ d <> c.

Lemma stats_update_ok a z lo hi cs size alloc failed : zrep a z lo hi cs -> negb failed || alloc = true ->
  exists a', stats_update a z size alloc failed = Some a' /\ zrep a' z lo hi cs /\
  moves a a' z lo hi lo lo 0 0 /\
    ba_chunks a' = ba_chunks a.
Proof.
  intros (h & Hh & Hl & Hlo & Hhi & Hrest) Hf. unfold stats_update. rewrite Hh. cbn [mbind option_bind].
  unfold be_allocator_stats_update. rewrite Hf. cbn [M0_ASSERT mbind option_bind].
  pose proof (arr_get_range _ _ _ Hh) as Hr.
  rewrite arr_set_ok by done. cbn [mbind option_bind]. eexists. split; [done|]. split_and!; [| |done].
  - eexists. cbn [with_h ba_h]. rewrite arr_get_insert, Z.eqb_refl by done. do 4 (split; [done|]).
    exact Hrest.
  - split; cbn [with_h ba_h ba_seg]; [by rewrite length_insert| |done|done|exists []; split; [done|by split]].
    intros z' Hne. rewrite arr_get_insert by done.
    by rewrite (proj2 (Z.eqb_neq z z')) by congruence.
Qed.

(** Merging with the chunk before. *)
Lemma merge_prev a z lo hi l1 c x l2 : zrep a z lo hi (l1 ++ (c, x) :: l2) ->
  tight lo hi (l1 ++ (c, x) :: l2) -> bac_free x = true ->
  spaced false l1 ->
  exists (b : bool) (a' : m0_be_allocator) (k : chunk_list) (e : Z) (w : be_alloc_chunk),
    be_alloc_chunk_trymerge a z (fst <$> last l1) (Some c) = Some (b, a') /\
    zrep a' z lo hi (k ++ (e, w) :: l2) /\ tight lo hi (k ++ (e, w) :: l2) /\
    moves a a' z lo hi lo lo 17 424 /\
    (if b then fst <$> last l1 else Some c) = Some e /\ bac_free w = true /\ spaced false k /\
    last_free false k = false /\
    (forall d n, used k d n <-> used l1 d n).
Proof.
  intros Hz Ht Hx Hs. destruct l1 as [|[p px] l1 _] using rev_ind.
  { exists false, a, [], c, x. cbn [last fmap option_fmap option_map]. unfold be_alloc_chunk_trymerge. cbn
      [invariant_check_opt mbind option_bind].
    rewrite (invariant_check_ok _ _ _ _ _ _ _ _ Hz). split_and!; try done. by apply moves_refl. }
  rewrite last_snoc. cbn [fmap option_fmap option_map fst].
  destruct (tight_middle _ _ _ _ _ _ Ht) as (S1 & S2 & S3 & S4).
  rewrite end_of_snoc in S4. specialize (S4 ltac:(by destruct l1)). rewrite <-app_assoc in *. cbn [app] in *.
  destruct (merge_ok a z lo hi l1 p px c x l2 Hz S4) as (b & a' & k & -> & Hz' & Hm & Hb & Hk); [by right|].
  rewrite Hx, andb_true_r in Hb. apply spaced_app in Hs as [T1 T2]. cbn [spaced] in T2. subst b.
  destruct (bac_free px) eqn:Hpx; subst k.
  - rewrite andb_true_r in T2. destruct T2 as [T2 _]. cbn [app] in Hz'. eexists true, a', l1, p, _.
    split; [done|]. split; [exact Hz'|]. split_and!; try done.
    + destruct Ht as (s & Q1 & Q2 & _). exists s. split; [done|]. split; [|by destruct l1].
      apply packed_app in Q2 as (R1 & -> & R3 & R4 & R5 & R6).
      apply packed_app. cbn [packed with_size bac_size]. split_and!; [done|done|lia|].
      by replace (_ + 80 + _) with (c + 80 + bac_size x) by lia.
    + intros d n. split; intros (w & Hin & Hw & Hn); exists w; (split; [|done]); [set_solver|].
      apply elem_of_app in Hin as [?|Hin]; [done|]. apply list_elem_of_singleton in Hin as [= -> ->].
      congruence.
  - eexists false, a', (l1 ++ [(p, px)]), c, x. split; [done|]. rewrite <-app_assoc. split; [exact Hz'|].
    split_and!; try done.
    + apply spaced_app. cbn [spaced]. rewrite Hpx. tauto.
    + unfold last_free. by rewrite last_snoc.
Qed.

(** Merging with the chunk behind. *)
Lemma merge_next a z lo hi k e w l2 : zrep a z lo hi (k ++ (e, w) :: l2) ->
  tight lo hi (k ++ (e, w) :: l2) -> bac_free w = true ->
  spaced false l2 ->
  exists (b : bool) (a' : m0_be_allocator) (w' : be_alloc_chunk) (k' : chunk_list),
    be_alloc_chunk_trymerge a z (Some e) (fst <$> head l2) = Some (b, a') /\
    zrep a' z lo hi (k ++ (e, w') :: k') /\ tight lo hi (k ++ (e, w') :: k') /\
    moves a a' z lo hi lo lo 17 424 /\
    bac_free w' = true /\ spaced true k' /\ (forall d n, used k' d n <-> used l2 d n).
Proof.
  intros Hz Ht Hw Hs. destruct l2 as [|[d y] l2].
  { exists false, a, w, []. unfold be_alloc_chunk_trymerge. cbn
      [head fmap option_fmap option_map invariant_check_opt mbind option_bind].
    rewrite (invariant_check_ok _ _ _ _ _ _ _ _ Hz). split_and!; try done. by apply moves_refl. }
  cbn [head fmap option_fmap option_map fst]. destruct (tight_middle _ _ _ _ _ _ Ht) as (S1 & S2 & _).
  pose proof S2 as (S3 & S4 & S5).
  destruct (merge_ok a z lo hi k e w d y l2 Hz (eq_sym S3)) as (b & a' & k' & -> & Hz' & Hm & Hb & Hk);
    [by left|].
  rewrite Hw in Hb. cbn [andb] in Hb. cbn [spaced] in Hs. destruct Hs as [_ Hs]. subst b.
  destruct (bac_free y) eqn:Hy; subst k'.
  - cbn [app] in Hz'. eexists true, a', _, l2. split; [done|]. split; [exact Hz'|]. split_and!; try done.
    + destruct Ht as (s & Q1 & Q2 & _). exists s. split; [done|]. split; [|by destruct k].
      apply packed_app in Q2 as (R1 & -> & R3 & R4 & R5 & R6).
      apply packed_app. cbn [packed with_size bac_size]. split_and!; [done|done|lia|].
      by replace (_ + 80 + _) with (d + 80 + bac_size y) by lia.
    + intros d' n. split; intros (v & Hin & Hv & Hn); exists v; (split; [|done]); [set_solver|].
      apply elem_of_cons in Hin as [[= -> ->]|?]; [congruence|done].
  - eexists false, a', w, ((d, y) :: l2). split; [done|]. split; [exact Hz'|]. split_and!; try done.
    cbn [spaced]. by rewrite Hy.
Qed.

Lemma moves_capture a l z lo hi mlo mhi n b : cap_le l n b -> moves a (capture l a) z lo hi mlo mhi n b.
Proof. intros Hl. split; [done..|]. by exists l. Qed.

Lemma mem_write_ok a z lo hi l1 c x l2 p bs : zrep a z lo hi (l1 ++ (c, x) :: l2) -> c + 80 <= p ->
  p + Z.of_nat (length bs) <= c + 80 + bac_size x ->
  zrep (mem_write p bs a) z lo hi (l1 ++ (c, x) :: l2) /\
  moves a (mem_write p bs a) z lo hi p (p + Z.of_nat (length bs)) 0 0.
Proof.
  intros (h & Hh & Hl & Hlo & Hhi & Hfl & Hp & H0 & H1 & Hz & Hok & Hat) Hc Hn.
  pose proof Hp as (P1 & P2 & P3 & P4 & P5 & P6)%placed_middle. split.
  - exists h. split_and!; try done; try lia. cbn [mem_write ba_chunks]. intros d y Hin.
    rewrite headers_out_lookup; [by apply Hat|].
    apply elem_of_app in Hin as [Hin|[[= -> ->]|Hin]%elem_of_cons].
    + destruct (P1 _ _ Hin). lia.
    + lia.
    + destruct (P2 _ _ Hin). lia.
  - split; cbn [mem_write ba_seg ba_h ba_chunks ba_mem ba_log];
      [done|done| | |exists []; split; [done|by split]].
    + intros d Hd. apply headers_out_lookup. lia.
    + intros q Hq. destruct (Z.leb_spec p q), (Z.ltb_spec q (p + Z.of_nat (length bs))); try done; lia.
Qed.

(** Everything m0_be_free_aligned() does in the zone of the chunk. *)
Lemma free_zone a z lo hi l1 c x l2 : zone_ok a z lo hi (l1 ++ (c, x) :: l2) -> bac_free x = false ->
  exists a1 a2 b a3 e w a4 b' cs',
    be_alloc_chunk_mark_free a z c = Some a1 /\ stats_update a1 z (bac_size x) false false = Some a2 /\
    be_alloc_chunk_prev a2 z c = Some (fst <$> last l1) /\
    be_alloc_chunk_next a2 z c = Some (fst <$> head l2) /\
    be_alloc_chunk_trymerge a2 z (fst <$> last l1) (Some c) = Some (b, a3) /\
    (if b then fst <$> last l1 else Some c) = Some e /\
    be_alloc_chunk_trymerge a3 z (Some e) (fst <$> head l2) = Some (b', a4) /\ ba_chunks a4 !! e = Some w /\
    bac_free w = true /\ 0 < bac_size w /\ invariant_check a4 e = Some tt /\
    zone_ok a4 z lo hi cs' /\ freed (l1 ++ (c, x) :: l2) cs' c /\ moves a a4 z lo hi lo lo 39 953.
Proof.
  intros (Hz & Ht & Hs & H8) Hx. destruct (mark_free_ok _ _ _ _ _ _ _ _ Hz Hx) as (a1 & E1 & Z1 & M1).
  destruct (stats_update_ok a1 z lo hi _ (bac_size x) false false Z1 eq_refl) as (a2 & E2 & Z2 & M2 & _).
  apply spaced_app in Hs as [S1 S2]. cbn [spaced] in S2. rewrite Hx in S2. destruct S2 as [_ S2].
  assert (tight lo hi (l1 ++ (c, with_free x true) :: l2)) as Ht1.
  { destruct Ht as (s & Q1 & Q2 & _). exists s. split; [done|]. split; [|by destruct l1]. apply packed_app
      in Q2 as [R1 R2]. by apply packed_app. }
  destruct (merge_prev a2 z lo hi l1 c (with_free x true) l2 Z2 Ht1 eq_refl S1)
    as (b & a3 & k & e & w & E3 & Z3 & Ht3 & M3 & Ee & Hw & Sk & Lk & Uk).
  destruct (merge_next a3 z lo hi k e w l2 Z3 Ht3 Hw S2)
    as (b' & a4 & w' & k' & E4 & Z4 & Ht4 & M4 & Hw' & Sk' & Uk').
  exists a1, a2, b, a3, e, w', a4, b', (k ++ (e, w') :: k').
  destruct (tight_middle _ _ _ _ _ _ Ht4) as (Hpos & _).
  split_and!; try done.
  - by apply (chunk_prev_ok _ _ _ _ _ _ _ _ Z2).
  - by apply (chunk_next_ok _ _ _ _ _ _ _ _ Z2).
  - apply (zrep_parts _ _ _ _ _ _ _ _ Z4).
  - by apply (invariant_check_ok _ _ _ _ _ _ _ _ Z4).
  - split_and!; try done. apply spaced_app. split; [done|]. cbn [spaced]. rewrite Lk, Hw'. done.
  - intros d n. pose proof (zrep_parts _ _ _ _ _ _ _ _ Hz) as (Hfresh & _). split.
    + intros (v & Hin & Hv & Hn). apply elem_of_app in Hin as [Hin|[[= -> ->]|Hin]%elem_of_cons];
        [|congruence|].
      * destruct (proj1 (Uk d n)) as (v' & Hin' & Hv'); [by exists v|].
        split; [exists v'; split; [set_solver|done]|].
        intros ->. apply Hfresh, list_elem_of_fmap. exists (c, v'). split; [done|set_solver].
      * destruct (proj1 (Uk' d n)) as (v' & Hin' & Hv'); [by exists v|].
        split; [exists v'; split; [set_solver|done]|].
        intros ->. apply Hfresh, list_elem_of_fmap. exists (c, v'). split; [done|set_solver].
    + intros [(v & Hin & Hv & Hn) Hne]. apply elem_of_app in Hin as [Hin|[[= -> ->]|Hin]%elem_of_cons];
        [|congruence|].
      * destruct (proj2 (Uk d n)) as (v' & Hin' & Hv'); [by exists v|]. exists v'. split; [set_solver|done].
      * destruct (proj2 (Uk' d n)) as (v' & Hin' & Hv'); [by exists v|]. exists v'. split; [set_solver|done].
  - change 39 with (17 + (17 + (0 + 5))). change 953 with (424 + (424 + (0 + 105))).
    do 3 (eapply moves_trans; [|eassumption]). done.
Qed.

(** ** The allocator *)

(** Both zones, between [lo z] and [hi z], with the chunks [cs z]. *)
Definition zones_ok (a : m0_be_allocator) (lo hi : Z -> Z) (cs : Z -> chunk_list) : Prop :=
  (forall z, 0 <= z < 2 -> zone_ok a z (lo z) (hi z) (cs z)) /\ (hi 0 <= lo 1 \/ hi 1 <= lo 0).

Lemma zone_frame a a' z lo hi mlo mhi n b z' lo' hi' cs : moves a a' z lo hi mlo mhi n b -> z' <> z ->
  hi <= lo' \/ hi' <= lo ->
  zone_ok a z' lo' hi' cs -> zone_ok a' z' lo' hi' cs.
Proof.
  intros [_ Mh Mc _ _] Hne Hd [(h & Hh & Hl & Hlo & Hhi & Hfl & Hp & H0 & H1 & Hz & Hok & Hat) Hrest].
  split; [|done].
  exists h. rewrite Mh by done. split_and!; try done; try lia. intros c x Hin.
  destruct (placed_elem _ _ _ _ _ Hp Hin).
  rewrite Mc by lia. by apply Hat.
Qed.

Lemma zones_step a a' lo hi cs z mlo mhi n b cs' : zones_ok a lo hi cs -> 0 <= z < 2 ->
  moves a a' z (lo z) (hi z) mlo mhi n b -> zone_ok a' z (lo z) (hi z) cs' ->
  zones_ok a' lo hi (<[z := cs']> cs).
Proof.
  intros [Hz Hd] Hr Hm Hz'. split; [|done]. intros z' Hr'. destruct (decide (z' = z)) as [->|Hne].
  - by rewrite fn_lookup_insert.
  - rewrite fn_lookup_insert_ne by done. eapply zone_frame; [exact Hm|done| |by apply Hz].
    assert (z = 0 /\ z' = 1 \/ z = 1 /\ z' = 0) as [[-> ->]|[-> ->]] by lia; lia.
Qed.
