(* ===== verification/BeAllocLife.v ===== *)
(** * be: the life of an allocator

    The blocks allocated from a segment are a map from addresses to contents.  The
    allocator is proved to implement it from its creation on, to return memory as long as
    a free chunk is large enough, and to capture no more than its credit. *)
From stdpp Require Import functions.
From S2P Require Import Prelude LibArith TxCredit BeAlloc BeAllocInv BeAllocRun.

(** ** Blocks *)

Notation heap := (gmap Z (list Z)).

(** The blocks are the used chunks, and the segment has their contents. *)
Record heap_ok (a : m0_be_allocator) (cs : Z -> chunk_list) (H : heap) : Prop := {
  hk_block : forall p bs, H !! p = Some bs -> 0 < Z.of_nat (length bs) /\
    exists z, 0 <= z < 2 /\ used (cs z) (p - 80) (Z.of_nat (length bs));
  hk_bytes : forall p bs i v, H !! p = Some bs -> bs !! i = Some v -> ba_mem a (p + Z.of_nat i) = Some v;
  hk_live : forall z c, 0 <= z < 2 -> used (cs z) c 0 -> is_Some (H !! (c + 80))
}.

Definition in_mask (zonemask z : Z) : bool := negb (Z.land zonemask (Z.shiftl 1 z) =? 0).

(** What the free chunk for [size] bytes must have. *)
Definition size_to_pick (size shift : Z) : Z := 2 ^ shift - 8 + (size + 7) / 8 * 8.

(** ** Allocation *)

Lemma pick_zone_ok a lo hi cs stp zonemask : zones_ok a lo hi cs -> 0 <= stp -> stp + 7 < 2 ^ 64 ->
  (8 | stp) ->
  exists r, pick_zone a stp zonemask = Some r /\
    match r with
    | Some (c, z) => 0 <= z < 2 /\ in_mask zonemask z = true /\ exists x, (c, x) ∈ cs z /\ fits stp x /\
    stp <= bac_size x
    | None => forall z c x, 0 <= z < 2 -> in_mask zonemask z = true -> (c, x) ∈ cs z -> ~ fits stp x
    end.
Proof.
  intros [Hz _] H0 H1 H8. unfold pick_zone.
  set (I := fun (j : Z) (r : option (Z * Z)) =>
    match r with
    | Some (c, z) => 0 <= z < 2 /\ in_mask zonemask z = true /\ exists x, (c, x) ∈ cs z /\ fits stp x /\
      stp <= bac_size x
    | None => forall z c x, 0 <= z < j -> in_mask zonemask z = true -> (c, x) ∈ cs z -> ~ fits stp x
    end).
  apply (for_up_total I); [lia|intros z; lia|]. intros j [[c z]|] Hj Hr; [by eexists|].
  fold (in_mask zonemask j). destruct (in_mask zonemask j) eqn:Em.
  - destruct (Hz j Hj) as ((h & Hh & Hzr) & _). rewrite Hh. cbn [mbind option_bind].
    destruct (pick_ok a j (lo j) (hi j) (cs j) h stp) as (r & -> & Hp); [by exists h|done..|].
    cbn [mbind option_bind].
    eexists. split; [done|]. destruct r as [c|]; cbn [option_map]; [done|]. intros z c x Hzj Ez Hin.
    destruct (decide (z = j)) as [->|]; [by eapply Hp|]. apply (Hr z c x); [lia|done..].
  - eexists. split; [done|]. intros z c x Hzj Ez Hin. destruct (decide (z = j)) as [->|]; [congruence|].
    apply (Hr z c x); [lia|done..].
Qed.

Lemma size_to_pick_ok size shift : 0 < size -> 3 <= shift < 64 -> size <= (2 ^ 64 - 1 - 2 ^ shift) / 2 ->
  0 <= size_to_pick size shift /\ size_to_pick size shift + 7 < 2 ^ 64 /\ (8 | size_to_pick size shift) /\
  size + 7 < 2 ^ 64.
Proof.
  intros Hs Hsh Hmax. unfold size_to_pick. pose proof (align8_bounds size).
  assert (8 <= 2 ^ shift) by (change 8 with (2 ^ 3); apply Z.pow_le_mono_r; lia).
  assert (2 ^ shift <= 2 ^ 63) by (apply Z.pow_le_mono_r; lia).
  pose proof (Z.mul_div_le (2 ^ 64 - 1 - 2 ^ shift) 2). split_and!; [lia|lia| |lia].
  apply Z.divide_add_r; [apply Z.divide_sub_r|by eexists]; [|done]. change 8 with (2 ^ 3).
  exists (2 ^ (shift - 3)).
  rewrite <-Z.pow_add_r by lia. f_equal. lia.
Qed.

Lemma zones_apart a lo hi cs z z' : zones_ok a lo hi cs -> 0 <= z < 2 -> 0 <= z' < 2 -> z' <> z ->
  hi z <= lo z' \/ hi z' <= lo z.
Proof. intros [_ Hd] H1 H2 Hne. assert (z = 0 /\ z' = 1 \/ z = 1 /\ z' = 0) as [[-> ->]|[-> ->]] by lia; lia.
Qed.

Lemma zones_placed a lo hi cs z : zones_ok a lo hi cs -> 0 <= z < 2 -> placed (lo z) (hi z) (cs z) /\
  0 <= lo z /\ hi z < 2 ^ 64.
Proof. intros [Hz _] Hr. destruct (Hz z Hr) as ((h & Hrest) & _). tauto. Qed.

(** Blocks are outside of the space of a free chunk. *)
Lemma heap_outside a lo hi cs H z l1 c x l2 p bs : zones_ok a lo hi cs -> heap_ok a cs H -> 0 <= z < 2 ->
  cs z = l1 ++ (c, x) :: l2 -> bac_free x = true -> H !! p = Some bs ->
  p + Z.of_nat (length bs) <= end_of (lo z) l1 \/ c + 80 + bac_size x <= p - 80.
Proof.
  intros Hzs Hh Hz Ec Hx Hp. destruct (hk_block _ _ _ Hh p bs Hp) as (Hl & z' & Hz' & y & Hin & Hy & Hlen).
  destruct (zones_placed _ _ _ _ _ Hzs Hz) as (Hpl & _). rewrite Ec in Hpl.
  destruct (decide (z' = z)) as [->|Hne].
  - rewrite Ec in Hin. apply placed_app in Hpl as [Q1 (Q2 & Q3 & Q4)].
    apply elem_of_app in Hin as [Hin|[[= _ ->]|Hin]%elem_of_cons]; [|congruence|].
    + destruct (placed_elem _ _ _ _ _ Q1 Hin). lia.
    + destruct (placed_elem _ _ _ _ _ Q4 Hin). lia.
  - destruct (zones_placed _ _ _ _ _ Hzs Hz') as (Hpl' & _).
    destruct (placed_elem _ _ _ _ _ Hpl' Hin) as (B1 & B2 & B3).
    apply placed_middle in Hpl as (_ & _ & P1 & P2 & P3 & P4).
    pose proof (zones_apart _ _ _ _ _ _ Hzs Hz Hz' Hne). lia.
Qed.

(** The blocks when a free chunk was split. *)
Lemma heap_split a a' lo hi cs H z l1 c x l2 cs' start n k b :
  zones_ok a lo hi cs -> heap_ok a cs H -> 0 <= z < 2 -> cs z = l1 ++ (c, x) :: l2 -> bac_free x = true ->
  moves a a' z (lo z) (hi z) (end_of (lo z) l1) (c + 80 + bac_size x) k b ->
  used cs' start n -> (forall d n, used (cs z) d n -> used cs' d n) ->
  (forall d, used cs' d 0 -> d = start \/ exists y, (d, y) ∈ cs z /\ bac_free y = false) ->
  0 < n -> (forall i, 0 <= i < n -> ba_mem a' (start + 80 + i) = Some 0) ->
  heap_ok a' (<[z := cs']> cs) (<[start + 80 := replicate (Z.to_nat n) 0]> H).
Proof.
  intros Hzs Hh Hz Ec Hx Hm Hnew Hold Hinv Hn Hzero. split.
  - intros p bs Hp. destruct (decide (p = start + 80)) as [->|Hne].
    + rewrite lookup_insert_eq in Hp. injection Hp as <-. rewrite length_replicate. split; [lia|]. exists z.
      split; [done|].
      rewrite fn_lookup_insert, Z2Nat.id by lia. by replace (start + 80 - 80) with start by lia.
    + rewrite lookup_insert_ne in Hp by done. destruct (hk_block _ _ _ Hh p bs Hp) as (Hl & z' & Hz' & Hu).
      split; [done|].
      exists z'. split; [done|]. destruct (decide (z' = z)) as [->|];
        [rewrite fn_lookup_insert; by apply Hold|].
      by rewrite fn_lookup_insert_ne.
  - intros p bs i v Hp Hi. destruct (decide (p = start + 80)) as [->|Hne].
    + rewrite lookup_insert_eq in Hp. injection Hp as <-. apply lookup_replicate in Hi as [-> Hi].
      apply Hzero. lia.
    + rewrite lookup_insert_ne in Hp by done. rewrite (mv_mem _ _ _ _ _ _ _ _ _ Hm);
        [by eapply (hk_bytes _ _ _ Hh)|].
      apply lookup_lt_Some in Hi. pose proof (heap_outside _ _ _ _ _ _ _ _ _ _ _ _ Hzs Hh Hz Ec Hx Hp). lia.
  - intros z' d Hz' Hu. destruct (decide (d = start)) as [->|Hne]; [rewrite lookup_insert_eq; by eexists|].
    rewrite lookup_insert_ne by lia. destruct (decide (z' = z)) as [->|Hzz].
    + rewrite fn_lookup_insert in Hu. destruct (Hinv d Hu) as [|(y & Hin & Hy)]; [done|].
      apply (hk_live _ _ _ Hh z); [done|].
      destruct (zones_placed _ _ _ _ _ Hzs Hz) as (Hpl & _).
      destruct (placed_elem _ _ _ _ _ Hpl Hin) as (_ & ? & _). by exists y.
    + rewrite fn_lookup_insert_ne in Hu by done. by apply (hk_live _ _ _ Hh z').
Qed.

(** The space in front of a chunk starts at a multiple of eight. *)
Lemma zone_end_aligned a z lo hi l1 c x l2 : zone_ok a z lo hi (l1 ++ (c, x) :: l2) -> (8 | end_of lo l1).
Proof.
  intros (Hz & Ht & _ & H8). destruct (tight_middle _ _ _ _ _ _ Ht) as (_ & _ & _ & He).
  destruct l1 as [|y l1]; [done|].
  rewrite He by done. by destruct (zrep_parts _ _ _ _ _ _ _ _ Hz)
    as (_ & _ & _ & _ & _ & (_ & _ & _ & _ & _ & ?) & _).
Qed.

(** m0_be_alloc_aligned() when a chunk was picked: the chunk is split, its memory zeroed. *)
Lemma alloc_picked a lo hi cs H z c x size shift ca : zones_ok a lo hi cs -> heap_ok a cs H -> 0 <= z < 2 ->
  (c, x) ∈ cs z ->
  bac_free x = true -> 0 < size -> 3 <= shift < 64 -> size_to_pick size shift <= bac_size x ->
  exists start a1 y a2 a3 cs', be_alloc_chunk_trysplit a z c size shift ca = Some (Some start, a1) /\
    ba_chunks a1 !! start = Some y /\ bac_zone y = z /\
    a2 = capture [size] (mem_write (start + 80) (replicate (Z.to_nat size) 0) a1) /\
    ba_chunks a2 !! start = Some y /\ stats_update a2 z (bac_size y) true false = Some a3 /\
    bac_free y = false /\
    size <= bac_size y /\ (2 ^ shift | if ca then start else start + 80) /\
    be_alloc_chunk_is_in a3 z start = Some true /\
    zones_ok a3 lo hi cs' /\ heap_ok a3 cs' (<[start + 80 := replicate (Z.to_nat size) 0]> H) /\
    H !! (start + 80) = None /\
    lo z <= start /\ start + 80 + size <= hi z /\ ba_seg a3 = ba_seg a /\ exists l,
      ba_log a3 = l ++ ba_log a /\ cap_le l 32 (968 + size).
Proof.
  intros Hzs Hh Hz Hin Hx Hsz Hsh Hfit. pose proof (align8_bounds size) as Hab. unfold size_to_pick in Hfit.
  set (al := (size + 7) / 8 * 8) in *. apply list_elem_of_split in Hin as (l1 & l2 & Ec).
  pose proof (proj1 Hzs z Hz) as Hzone. rewrite Ec in Hzone. pose proof Hzone as (Hzr & Ht & Hsp & H8).
  pose proof (zone_end_aligned _ _ _ _ _ _ _ _ Hzone) as H8e.
  pose proof (tight_middle _ _ _ _ _ _ Ht) as (_ & _ & He & _).
  destruct (trysplit_ok a z (lo z) (hi z) l1 c x l2 size shift ca Hzr Hx Hsz Hsh) as (a1 & E1 & Z1 & M1);
    [fold al; lia|done|].
  fold al in Z1. set (start := split_start c shift ca) in *.
  destruct (zrep_parts _ _ _ _ _ _ _ _ Hzr) as (_ & _ & _ & _ & _ & (_ & _ & _ & _ & _ & H8c) & _ & Hchi).
  destruct (split_start_ok c shift ca) as (Hst & _ & Hal); [lia|done|]. fold start in Hst, Hal.
  assert (0 <= c + 80 + bac_size x - (start + 80 + al)) as Hroom by lia.
  destruct (split_shape z (lo z) l1 c x start al ca shift Hroom) as (y & k & Es & Hy & Hyz & Hyal & _).
  assert (zrep a1 z (lo z) (hi z) (grow z (lo z) l1 (start - end_of (lo z) l1) ++ (start, y) :: k ++ l2))
    as Z1'.
  { rewrite Es, <-app_assoc in Z1. exact Z1. }
  assert (Z.of_nat (length (replicate (Z.to_nat size) (0 : Z))) = size) as El
    by (rewrite length_replicate; lia).
  destruct (mem_write_ok a1 z (lo z) (hi z) _ start y _ (start + 80) (replicate (Z.to_nat size) 0) Z1')
    as [Z2 M2]; [lia|lia|].
  set (a2 := capture [size] (mem_write (start + 80) (replicate (Z.to_nat size) 0) a1)).
  assert (zrep a2 z (lo z) (hi z) (grow z (lo z) l1 (start - end_of (lo z) l1) ++ (start, y) :: k ++ l2))
    as Z2' by exact Z2.
  destruct (stats_update_ok a2 z (lo z) (hi z) _ (bac_size y) true false Z2' eq_refl)
    as (a3 & E3 & Z3 & M3 & _).
  assert (moves a a3 z (lo z) (hi z) (end_of (lo z) l1) (c + 80 + bac_size x) 32 (968 + size)) as M.
  { replace 32 with (0 + (1 + (0 + 31))) by lia. replace (968 + size) with (0 + (size + (0 + 968))) by lia.
    eapply moves_trans; [eapply moves_trans; [eapply moves_trans; [exact M1|]|]|].
    - eapply moves_mono; [exact M2|lia..].
    - apply (moves_capture (mem_write (start + 80) (replicate (Z.to_nat size) 0) a1) [size]).
      split; simpl; lia.
    - eapply moves_mono; [exact M3|lia..]. }
  assert (zone_ok a3 z (lo z) (hi z) (split_chunks z (lo z) l1 c x start al ca shift ++ l2)) as Hz3.
  { split_and!; [rewrite Es, <-app_assoc; exact Z3|apply split_tight;
      [done|lia..]|by apply split_spaced|done]. }
  destruct (split_used z (lo z) l1 c x l2 start al ca shift Hx) as (U1 & U2 & U3); [lia|done|].
  rewrite <-Ec in U2, U3.
  exists start, a1, y, a2, a3, (<[z := split_chunks z (lo z) l1 c x start al ca shift ++ l2]> cs).
  destruct (zrep_parts _ _ _ _ _ _ _ _ Z1') as (_ & Y1 & _).
  destruct (zrep_parts _ _ _ _ _ _ _ _ Z2') as (_ & Y2 & _).
  split_and!; try done; try lia.
  - apply (zrep_is_in _ _ _ _ _ start y Z3). set_solver.
  - by eapply zones_step.
  - eapply heap_split; try eassumption.
    + destruct U1 as (v & ? & ? & ?). exists v. split_and!; [done..|lia].
    + intros i Hi. rewrite (mv_mem _ _ _ _ _ _ _ _ _ M3)
        by (apply zones_placed with (z := z) in Hzs as (?%placed_le & _); [lia|done]).
      cbn [a2 capture mem_write ba_mem]. rewrite El.
      rewrite (proj2 (Z.leb_le (start + 80) _)), (proj2 (Z.ltb_lt _ (start + 80 + size))) by lia.
      cbn [andb]. apply arr_get_Some. split; [lia|]. apply lookup_replicate. split; [done|lia].
  - apply eq_None_not_Some. intros [bs Hp]. pose proof
      (heap_outside _ _ _ _ _ _ _ _ _ _ _ _ Hzs Hh Hz Ec Hx Hp). 
    destruct (hk_block _ _ _ Hh _ _ Hp). lia.
  - apply (mv_seg _ _ _ _ _ _ _ _ _ M).
  - apply (mv_log _ _ _ _ _ _ _ _ _ M).
Qed.

(** A change that leaves chunks and bytes alone. *)
Lemma heap_same a a' cs H : heap_ok a cs H -> (forall p, ba_mem a' p = ba_mem a p) -> heap_ok a' cs H.
Proof.
  intros [Hb Hby Hlv] Hm. split; [done| |done]. intros p bs i v Hp Hi. rewrite Hm. by eapply Hby.
Qed.

Lemma alloc_ok a lo hi cs H size shift zonemask ca : zones_ok a lo hi cs -> heap_ok a cs H -> 0 < size ->
  let s := Z.max shift 3 in s < 64 -> size <= (UINT64_MAX - 2 ^ s) / 2 ->
  exists p a' cs', m0_be_alloc_aligned a size shift zonemask ca = Some (p, a') /\ zones_ok a' lo hi cs' /\
  ba_seg a' = ba_seg a /\
    (exists l, ba_log a' = l ++ ba_log a /\ cap_le l 33 (1184 + size)) /\
    if p =? 0 then
      heap_ok a' cs' H /\ forall z c x, 0 <= z < 2 -> in_mask zonemask z = true -> (c, x) ∈ cs z ->
      ~ fits (size_to_pick size s) x
    else
      heap_ok a' cs' (<[p := replicate (Z.to_nat size) 0]> H) /\ H !! p = None /\
      (2 ^ s | if ca then p - 80 else p) /\
      exists z c x, 0 <= z < 2 /\ in_mask zonemask z = true /\ (c, x) ∈ cs z /\
      fits (size_to_pick size s) x /\
        lo z + 80 <= p /\ p + size <= hi z.
Proof.
  intros Hzs Hh Hsz s Hs Hmax. unfold UINT64_MAX in *.
  destruct (size_to_pick_ok size s) as (T1 & T2 & T3 & T4); [done|lia|done|].
  unfold m0_be_alloc_aligned. fold s. rewrite (proj2 (Z.ltb_lt s 64)) by done.
  cbn [M0_ASSERT mbind option_bind].
  rewrite Z.shiftl_1_l. unfold UINT64_MAX. rewrite (proj2 (Z.leb_le size _)) by done.
  cbn [M0_ASSERT mbind option_bind].
  change (Z.shiftl 1 3) with 8. rewrite align8 by lia. cbn [mbind option_bind]. fold (size_to_pick size s).
  rewrite (u64_small (size_to_pick size s)) by (unfold is_u64; lia).
  destruct (pick_zone_ok a lo hi cs _ zonemask Hzs T1 T2 T3) as (r & -> & Hr). cbn [mbind option_bind].
  destruct r as [[c z]|].
  - destruct Hr as (Hz & Hmask & x & Hin & Hfits & Hfit).
    destruct (alloc_picked a lo hi cs H z c x size s ca Hzs Hh Hz Hin (proj1 Hfits) Hsz) as
      (start & a1 & y & a2 & a3 & cs' & -> & Y1 & Yz & ->
        & Y2 & E3 & Hy & Hys & Hal & Hin3 & Hzs' & Hh' & Hf & Hlo & Hhi & Hseg & l & Hl & Hcap);
      [lia|done|]. cbn [mbind option_bind]. rewrite Y1. cbn [mbind option_bind]. rewrite Yz, Z.eqb_refl.
      cbn [M0_ASSERT mbind option_bind].
    rewrite Y2. cbn [mbind option_bind]. rewrite E3. cbn [mbind option_bind].
    rewrite Hy, (proj2 (Z.leb_le size _)) by done.
    cbn [negb M0_ASSERT mbind option_bind]. rewrite (proj2 (addr_is_aligned _ s ltac:(lia)) Hal).
    cbn [M0_ASSERT mbind option_bind].
    change (be_alloc_chunk_is_in (capture [216] a3) z start) with (be_alloc_chunk_is_in a3 z start).
    rewrite Hin3. cbn [M0_ASSERT mbind option_bind].
    exists (start + 80), (capture [216] a3), cs'. destruct (zones_placed _ _ _ _ _ Hzs Hz) as (_ & Hlo0 & _).
    split; [done|]. split; [exact Hzs'|]. split; [done|]. split.
    + exists (216 :: l). cbn [capture ba_log app]. rewrite Hl. split; [done|].
      eapply cap_le_cons; [exact Hcap|lia..].
    + rewrite (proj2 (Z.eqb_neq (start + 80) 0)) by lia. split; [by eapply heap_same|]. split; [done|].
      split; [by replace (start + 80 - 80) with start by lia|]. exists z, c, x. split_and!; try done; lia.
  - pose proof (proj1 Hzs 1 ltac:(lia)) as (Hz1 & Hrest).
    destruct (stats_update_ok a 1 _ _ _ size true true Hz1 eq_refl) as (a1 & -> & Z1 & M1 & _).
    cbn [mbind option_bind].
    exists 0, (capture [216] a1), cs. split; [done|]. split_and!.
    + pose proof (zones_step a a1 lo hi cs 1 _ _ _ _ (cs 1) Hzs ltac:(lia) M1 (conj Z1 Hrest)) as Hzs'.
      destruct Hzs' as [Hz' Hd]. split; [|done]. intros z Hz. specialize (Hz' z Hz).
      destruct (decide (z = 1)) as [->|]; [by rewrite fn_lookup_insert in Hz'|by rewrite fn_lookup_insert_ne
        in Hz'].
    + apply (mv_seg _ _ _ _ _ _ _ _ _ M1).
    + destruct (mv_log _ _ _ _ _ _ _ _ _ M1) as (l & Hl & Hcap). exists (216 :: l). cbn [capture ba_log app].
      rewrite Hl.
      split; [done|]. eapply cap_le_cons; [exact Hcap|lia..].
    + rewrite Z.eqb_refl. split; [|exact Hr]. eapply heap_same; [exact Hh|]. intros p. cbn [capture ba_mem].
      apply (mv_mem _ _ _ _ _ _ _ _ _ M1). lia.
Qed.

(** ** Release and use of blocks *)

(** A chunk and its zone from the address of a block. *)
Lemma heap_chunk a lo hi cs H p bs : zones_ok a lo hi cs -> heap_ok a cs H -> H !! p = Some bs ->
  exists z l1 x l2, 0 <= z < 2 /\ cs z = l1 ++ (p - 80, x) :: l2 /\ bac_free x = false /\
  0 < Z.of_nat (length bs) <= bac_size x /\
    lo z + 80 <= p /\ p + bac_size x <= hi z.
Proof.
  intros Hzs Hh Hp. destruct (hk_block _ _ _ Hh p bs Hp) as (Hl & z & Hz & x & Hin & Hx & Hlen).
  destruct (zones_placed _ _ _ _ _ Hzs Hz) as (Hpl & _). destruct (placed_elem _ _ _ _ _ Hpl Hin).
  apply list_elem_of_split in Hin as (l1 & l2 & E). exists z, l1, x, l2. split_and!; try done; lia.
Qed.

Lemma mem_is_in_ok a lo hi cs z z' p : zones_ok a lo hi cs -> 0 <= z < 2 -> 0 <= z' < 2 -> lo z <= p < hi z ->
  be_alloc_mem_is_in a z' p 1 = Some (z' =? z).
Proof.
  intros Hzs Hz Hz' Hp. destruct (proj1 Hzs z' Hz') as ((h & Hh & _ & Hlo & Hhi & _ & Hpl & H0 & H1 & _) & _).
  apply placed_le in Hpl. destruct (zones_placed _ _ _ _ _ Hzs Hz) as (_ & ? & ?).
  unfold be_alloc_mem_is_in. rewrite Hh. cbn [mbind option_bind]. rewrite !u64_small by (unfold is_u64; lia).
  f_equal.
  destruct (Z.eqb_spec z' z) as [->|Hne]; [apply andb_true_intro; split; apply Z.leb_le; lia|].
  pose proof (zones_apart _ _ _ _ _ _ Hzs Hz Hz' Hne). apply andb_false_iff. rewrite !Z.leb_gt. lia.
Qed.

Lemma free_ok a lo hi cs H p bs : zones_ok a lo hi cs -> heap_ok a cs H -> H !! p = Some bs ->
  exists a' cs', m0_be_free_aligned a p = Some a' /\ zones_ok a' lo hi cs' /\ ba_seg a' = ba_seg a /\
    (exists l, ba_log a' = l ++ ba_log a /\ cap_le l 40 1169) /\ heap_ok a' cs' (delete p H).
Proof.
  intros Hzs Hh Hp. destruct (heap_chunk _ _ _ _ _ _ _ Hzs Hh Hp)
    as (z & l1 & x & l2 & Hz & Ec & Hx & Hlen & Hlo & Hhi).
  destruct (zones_placed _ _ _ _ _ Hzs Hz) as (Hpl & H0 & H1). unfold m0_be_free_aligned.
  rewrite (proj2 (Z.eqb_neq p 0)) by lia. cbn [negb M0_ASSERT mbind option_bind].
  rewrite !(mem_is_in_ok a lo hi cs z _ p Hzs) by lia. cbn [mbind option_bind].
  assert (xorb (0 =? z) (1 =? z) = true) as -> by (assert (z = 0 \/ z = 1) as [->| ->] by lia; done).
  cbn [M0_ASSERT mbind option_bind].
  rewrite (u64_small (p - 80)) by (unfold is_u64; lia). pose proof (proj1 Hzs z Hz) as Hzone.
  rewrite Ec in Hzone.
  pose proof Hzone as (Hzr & _). rewrite (invariant_check_ok _ _ _ _ _ _ _ _ Hzr). cbn [mbind option_bind].
  destruct (zrep_parts _ _ _ _ _ _ _ _ Hzr) as (_ & Em & _ & _ & _ & (_ & _ & Ez & _) & _). rewrite Em.
  cbn [mbind option_bind].
  rewrite Hx, Ez. cbn [negb M0_ASSERT mbind option_bind].
  destruct (free_zone a z (lo z) (hi z) l1 (p - 80) x l2 Hzone Hx) as
    (a1 & a2 & b & a3 & e & w & a4 & b' & cs' & ->
      & E2 & E3 & E4 & E5 & E6 & E7 & E8 & Hw & Hw0 & E9 & Hz4 & Hfr & M).
  cbn [mbind option_bind]. rewrite E2. cbn [mbind option_bind]. rewrite E3. cbn [mbind option_bind].
  rewrite E4. cbn [mbind option_bind].
  rewrite E5. cbn [mbind option_bind]. rewrite E6. cbn [mbind option_bind]. rewrite E7.
  cbn [mbind option_bind capture ba_chunks].
  rewrite E8. cbn [mbind option_bind]. rewrite Hw, (proj2 (Z.ltb_lt 0 _) Hw0).
  cbn [M0_ASSERT mbind option_bind].
  change (invariant_check (capture [216] a4) e) with (invariant_check a4 e). rewrite E9.
  cbn [mbind option_bind].
  exists (capture [216] a4), (<[z := cs']> cs). split; [done|]. rewrite <-Ec in Hfr. split_and!.
  - pose proof (zones_step a a4 lo hi cs z _ _ _ _ cs' Hzs Hz M Hz4) as Hzs'. exact Hzs'.
  - apply (mv_seg _ _ _ _ _ _ _ _ _ M).
  - destruct (mv_log _ _ _ _ _ _ _ _ _ M) as (l & Hl & Hcap). exists (216 :: l). cbn [capture ba_log app].
    rewrite Hl.
    split; [done|]. eapply cap_le_cons; [exact Hcap|lia..].
  - split.
    + intros q bs' [Hne Hq]%lookup_delete_Some. destruct (hk_block _ _ _ Hh q bs' Hq) as (Hl & z' & Hz' & Hu).
      split; [done|].
      exists z'. split; [done|]. destruct (decide (z' = z)) as [->|]; [|by rewrite fn_lookup_insert_ne].
      rewrite fn_lookup_insert. apply Hfr. split; [done|lia].
    + intros q bs' i v [Hne Hq]%lookup_delete_Some Hi. cbn [capture ba_mem].
      rewrite (mv_mem _ _ _ _ _ _ _ _ _ M) by lia. by eapply (hk_bytes _ _ _ Hh).
    + intros z' d Hz' Hu. destruct (decide (z' = z)) as [->|Hne].
      * rewrite fn_lookup_insert in Hu. apply Hfr in Hu as [Hu Hd]. rewrite lookup_delete_ne by lia.
        by apply (hk_live _ _ _ Hh z).
      * rewrite fn_lookup_insert_ne in Hu by done. destruct Hu as (y & Hin & Hy & Hn).
        destruct (zones_placed _ _ _ _ _ Hzs Hz') as (Hpl' & _). destruct (placed_elem _ _ _ _ _ Hpl' Hin).
        pose proof (zones_apart _ _ _ _ _ _ Hzs Hz Hz' Hne). rewrite lookup_delete_ne by lia.
        apply (hk_live _ _ _ Hh z'); [done|]. by exists y.
Qed.

Lemma placed_apart lo hi cs c x d y : placed lo hi cs -> (c, x) ∈ cs -> (d, y) ∈ cs -> c <> d ->
  c + 80 + bac_size x <= d \/ d + 80 + bac_size y <= c.
Proof.
  intros Hp (l1 & l2 & ->)%list_elem_of_split Hd Hne. apply placed_middle in Hp as (P1 & P2 & _).
  apply elem_of_app in Hd as [Hd|[[= -> ->]|Hd]%elem_of_cons]; [|done|].
  - destruct (P1 _ _ Hd). lia.
  - destruct (P2 _ _ Hd). lia.
Qed.

Lemma heap_disjoint a lo hi cs H p bs q bs' : zones_ok a lo hi cs -> heap_ok a cs H -> H !! p = Some bs ->
  H !! q = Some bs' ->
  p <> q -> p + Z.of_nat (length bs) <= q \/ q + Z.of_nat (length bs') <= p.
Proof.
  intros Hzs Hh Hp Hq Hne. destruct (hk_block _ _ _ Hh p bs Hp) as (Hl & z & Hz & x & Hin & Hx & Hlen).
  destruct (hk_block _ _ _ Hh q bs' Hq) as (Hl' & z' & Hz' & y & Hin' & Hy & Hlen').
  destruct (zones_placed _ _ _ _ _ Hzs Hz) as (Hpl & _).
  destruct (zones_placed _ _ _ _ _ Hzs Hz') as (Hpl' & _).
  destruct (decide (z' = z)) as [->|Hzz].
  - destruct (placed_apart _ _ _ _ _ _ _ Hpl Hin Hin'); lia.
  - destruct (placed_elem _ _ _ _ _ Hpl Hin) as (? & ? & ?).
    destruct (placed_elem _ _ _ _ _ Hpl' Hin') as (? & ? & ?).
    pose proof (zones_apart _ _ _ _ _ _ Hzs Hz Hz' Hzz). lia.
Qed.

(** A user writes to a block. *)
Lemma store_ok a lo hi cs H p old off bs : zones_ok a lo hi cs -> heap_ok a cs H -> H !! p = Some old ->
  0 <= off ->
  off + Z.of_nat (length bs) <= Z.of_nat (length old) ->
  let a' := mem_write (p + off) bs a in
  zones_ok a' lo hi cs /\ heap_ok a' cs (<[p := list_inserts (Z.to_nat off) bs old]> H) /\
  ba_seg a' = ba_seg a /\ ba_log a' = ba_log a.
Proof.
  intros Hzs Hh Hp Hoff Hlen a'. destruct (heap_chunk _ _ _ _ _ _ _ Hzs Hh Hp)
    as (z & l1 & x & l2 & Hz & Ec & Hx & Hl & Hlo & Hhi).
  pose proof (proj1 Hzs z Hz) as Hzone. rewrite Ec in Hzone. pose proof Hzone as (Hzr & Hrest).
  destruct (mem_write_ok a z (lo z) (hi z) l1 (p - 80) x l2 (p + off) bs Hzr) as [Z1 M1]; [lia|lia|].
  fold a' in Z1, M1. split_and!; [| |done..].
  - pose proof (zones_step a a' lo hi cs z _ _ _ _ _ Hzs Hz M1 (conj Z1 Hrest)) as [Hz' Hd]. split; [|done].
    intros z' Hr. specialize (Hz' z' Hr). destruct (decide (z' = z)) as [->|];
      [rewrite fn_lookup_insert in Hz'; by rewrite Ec|by rewrite fn_lookup_insert_ne in Hz'].
  - split.
    + intros q bs' Hq. destruct (decide (q = p)) as [->|Hne].
      * rewrite lookup_insert_eq in Hq. injection Hq as <-. rewrite length_inserts.
        by apply (hk_block _ _ _ Hh).
      * rewrite lookup_insert_ne in Hq by done. by apply (hk_block _ _ _ Hh).
    + intros q bs' i v Hq Hi. cbn [a' mem_write ba_mem]. destruct (decide (q = p)) as [->|Hne].
      * rewrite lookup_insert_eq in Hq. injection Hq as <-.
        apply list_lookup_inserts_Some in Hi as [[Hi Hv]|(Hi & _ & Hv)].
        -- assert (p + off <=? p + Z.of_nat i = false \/
             p + Z.of_nat i <? p + off + Z.of_nat (length bs) = false) as Hout
             by (rewrite Z.leb_gt, Z.ltb_ge; lia).
           apply andb_false_iff in Hout as ->. by eapply (hk_bytes _ _ _ Hh).
        -- apply lookup_lt_Some in Hv as Hlt. rewrite (proj2 (Z.leb_le _ _)), (proj2 (Z.ltb_lt _ _)) by lia.
           cbn [andb].
           apply arr_get_Some. split; [lia|]. rewrite <-Hv. f_equal. lia.
      * rewrite lookup_insert_ne in Hq by done. apply lookup_lt_Some in Hi as Hlt.
        pose proof (heap_disjoint _ _ _ _ _ _ _ _ _ Hzs Hh Hp Hq ltac:(done)).
        assert (p + off <=? q + Z.of_nat i = false \/
          q + Z.of_nat i <? p + off + Z.of_nat (length bs) = false) as Hout
          by (rewrite Z.leb_gt, Z.ltb_ge; lia).
        apply andb_false_iff in Hout as ->. by eapply (hk_bytes _ _ _ Hh).
    + intros z' c Hz' Hu. pose proof (hk_live _ _ _ Hh z' c Hz' Hu) as Hs.
      destruct (decide (c + 80 = p)) as [->|];
        [rewrite lookup_insert_eq; by eexists|by rewrite lookup_insert_ne].
Qed.

(** ** Creation and destruction *)

Lemma fl_lists_ok : fl_ok fl_lists [].
Proof.
  split; [done|]. intros i l [-> _]%lookup_replicate. split; [apply NoDup_nil_2|]. intros c.
  split; [by intros ?%elem_of_nil|].
  by intros (x & ?%elem_of_nil & _).
Qed.

(** The chunks of a new zone. *)
Definition zone0 (z lo size : Z) : chunk_list := if size =? 0 then [] else
  [(lo, chunk_new z (size - 80) true false 3)].

Lemma fl_capture_le : cap_le (216 :: fl_capture ++ [56; 8; 8]) 133 7512.
Proof. vm_compute. split; congruence. Qed.

Lemma header_create_ok a z offset size shift : 0 <= z < 2 -> length (ba_h a) = 2%nat -> 0 <= offset ->
  0 <= size -> offset + size < 2 ^ 64 ->
  (8 | offset) -> size = 0 \/ 80 < size /\ shift = 3 ->
  exists a', be_allocator_header_create a z offset size false shift = Some (0, a') /\
    zone_ok a' z offset (offset + size) (zone0 z offset size) /\
    moves a a' z offset (offset + size) offset (offset + size) 142 7800 /\
    length (ba_h a') = 2%nat.
Proof.
  intros Hz Hlen H0 Hs H64 H8 Hsize. unfold be_allocator_header_create.
  destruct (arr_get_is_Some (ba_h a) z) as [h Hh]; [lia|].
  rewrite Hh. cbn [mbind option_bind]. assert (negb (size =? 0) && (size <? 80 + 1) = false) as ->.
  { destruct Hsize as [->|[? _]]; [done|]. apply andb_false_iff. right. apply Z.ltb_ge. lia. }
  rewrite arr_set_ok by lia. cbn [mbind option_bind].
  set (h0 := {| bah_chunks := _; bah_fl := _; bah_stats := _; bah_size := _; bah_addr := _ |}).
  set (a1 := capture _ _).
  assert (zrep a1 z offset (offset + size) []) as Z1.
  { exists h0. cbn [a1 capture with_h ba_h]. rewrite arr_get_insert, Z.eqb_refl by lia. split_and!; try done;
      try lia.
    - apply fl_lists_ok.
    - cbn. lia.
    - by intros c x ?%elem_of_nil. }
  assert (moves a a1 z offset (offset + size) offset (offset + size) 133 7512) as M1.
  { split; [split; [done|cbn; by rewrite length_insert]| |done|done|].
    - intros z' Hne. cbn [a1 capture with_h ba_h]. rewrite arr_get_insert by lia.
      by rewrite (proj2 (Z.eqb_neq z z')) by congruence.
    - eexists. split; [done|]. apply fl_capture_le. }
  unfold zone0. destruct (Z.eqb_spec size 0) as [->|Hne]; cbn [negb].
  - exists a1. split; [done|]. split; [|split;
      [eapply moves_mono; [exact M1|lia..]|cbn; by rewrite length_insert]].
    split_and!; [done| |done|done]. exists offset. split_and!; try done; try lia. cbn. lia.
  - destruct Hsize as [|[Hsize ->]]; [done|].
    destruct (add_after_ok a1 z offset (offset + size) [] [] 0 size true false 3 Z1) as (a2 & E & Z2 & M2);
      unfold end_of in *; cbn [last] in *; rewrite ?Z.add_0_r in *; [lia|lia|cbn; lia|done|lia| |].
    { apply Z.divide_add_r; [done|by exists 10]. }
    cbn [last fmap option_fmap option_map] in E. rewrite E. cbn [mbind option_bind]. exists a2.
    split; [done|]. split; [|split].
    + split; [exact Z2|]. split; [|done]. exists offset. split_and!; try done; try lia.
      cbn [packed chunk_new bac_size]. lia.
    + replace 142 with (9 + 133) by lia. replace 7800 with (288 + 7512) by lia.
      eapply moves_trans; [exact M1|].
      eapply moves_mono; [exact M2|lia..].
    + destruct (mv_seg _ _ _ _ _ _ _ _ _ M2) as [_ ->]. cbn. by rewrite length_insert.
Qed.

(** A zone without blocks is one free chunk, unless it has no space at all. *)
Lemma zone_unused a z lo hi cs : zone_ok a z lo hi cs -> (forall c n, ~ used cs c n) ->
  cs = [] /\ lo = hi \/ exists c x, cs = [(c, x)] /\ bac_free x = true /\ lo <= c <= lo + 80 /\
  c + 80 + bac_size x = hi.
Proof.
  intros (_ & (s & Hs & Hp & He) & Hsp & _) Hu. assert (forall c x, (c, x) ∈ cs -> bac_free x = true) as Hf.
  { intros c x Hin. destruct (bac_free x) eqn:Hx; [done|]. destruct (Hu c (bac_size x)). by exists x. }
  destruct cs as [|[c x] [|[d y] cs]].
  - left. cbn in Hp. specialize (He eq_refl). split; [done|lia].
  - right. exists c, x. cbn in Hp. split_and!; [done|apply (Hf c); set_solver|lia..].
  - exfalso. cbn [spaced] in Hsp. rewrite (Hf c x), (Hf d y) in Hsp by set_solver.
    by destruct Hsp as [_ [? _]].
Qed.

Lemma header_destroy_ok a z lo hi cs : zone_ok a z lo hi cs -> (forall c n, ~ used cs c n) ->
  exists a', be_allocator_header_destroy a z = Some a' /\ moves a a' z lo hi lo lo 138 7488.
Proof.
  intros Hz Hu. pose proof (zone_unused _ _ _ _ _ Hz Hu) as Hcs. destruct Hz as (Hzr & _).
  pose proof Hzr as (h & Hh & Hl & Hlo & Hhi & _ & Hp & _). unfold be_allocator_header_destroy. rewrite Hh.
  cbn [mbind option_bind].
  assert (eqb (bool_decide (bah_chunks h = [])) (bah_size h =? 0) = true) as ->.
  { destruct Hcs as [[-> ->]|(c & x & -> & _ & ? & ?)]; rewrite Hl.
    - rewrite (proj2 (Z.eqb_eq _ 0)) by lia. done.
    - cbn in Hp. rewrite (proj2 (Z.eqb_neq _ 0)) by lia. done. }
  cbn [M0_ASSERT mbind option_bind]. rewrite Hl.
  assert (exists a1, match head cs.*1 with Some c => be_alloc_chunk_del_fini a z c |
    None => Some a end = Some a1 /\
    zrep a1 z lo hi [] /\ moves a a1 z lo hi lo lo 8 208) as (a1 & -> & Z1 & M1).
  { destruct Hcs as [[-> _]|(c & x & -> & Hx & _)].
    - exists a. split; [done|]. split; [done|]. by apply moves_refl.
    - by apply (del_fini_ok a z lo hi [] c x []). }
  cbn [mbind option_bind]. destruct Z1 as (h1 & Hh1 & Hl1 & _ & _ & [_ Hfl] & _). rewrite Hh1.
  cbn [mbind option_bind].
  assert (forallb (fun l => bool_decide (l = [])) (bah_fl h1) = true) as ->.
  { apply forallb_forall. intros l [i Hi]%list_elem_of_In%list_elem_of_lookup. apply bool_decide_eq_true_2.
    destruct (Hfl i l Hi) as [_ Hin]. destruct l as [|c l]; [done|].
    destruct (proj1 (Hin c)) as (x & ?%elem_of_nil & _); [set_solver|done]. }
  rewrite Hl1. cbn [M0_ASSERT mbind option_bind fmap list_fmap]. eexists. split; [done|].
  replace 138 with (130 + 8) by lia. replace 7488 with (7280 + 208) by lia. eapply moves_trans; [exact M1|].
  apply moves_capture. vm_compute. split; congruence.
Qed.

(** The allocator can be destroyed when all blocks have been freed. *)
Lemma destroy_ok a lo hi cs : zones_ok a lo hi cs -> heap_ok a cs ∅ -> exists a',
  m0_be_allocator_destroy a = Some a'.
Proof.
  intros Hzs Hh. assert (forall z c n, 0 <= z < 2 -> ~ used (cs z) c n) as Hu.
  { intros z c n Hz (x & Hin & Hx & _). destruct (zones_placed _ _ _ _ _ Hzs Hz)
      as (Hp & _). destruct (placed_elem _ _ _ _ _ Hp Hin) as (_ & ? & _).
    destruct (hk_live _ _ _ Hh z c Hz) as [bs Hbs]; [by exists x|]. by rewrite lookup_empty in Hbs. }
  pose proof (proj1 Hzs 0 ltac:(lia)) as H0. pose proof (proj1 Hzs 1 ltac:(lia)) as H1.
  destruct (header_destroy_ok _ _ _ _ _ H0) as (a1 & E1 & M1); [intros c n; by apply Hu|].
  destruct (header_destroy_ok a1 1 (lo 1) (hi 1) (cs 1)) as (a2 & E2 & _); [|intros c n; by apply Hu|].
  { eapply zone_frame; [exact M1|done| |done]. destruct Hzs as [_ Hd]. lia. }
  exists a2. unfold m0_be_allocator_destroy. rewrite for_up_cons by lia. rewrite E1. cbn [mbind option_bind].
  rewrite for_up_cons by lia. change (0 + 1) with 1. rewrite E2. cbn [mbind option_bind]. by apply for_up_nil.
Qed.

(** A segment an allocator can be created on. *)
Definition seg_ok (seg : m0_be_seg) : Prop :=
  0 <= bs_addr seg /\ 0 <= bs_reserved seg <= bs_size seg /\ bs_addr seg + bs_size seg < 2 ^ 64 /\
  bs_size seg * 100 < 2 ^ 64 /\
  (8 | bs_addr seg + bs_reserved seg) /\ (8 | bs_size seg - bs_reserved seg).

(** The boundaries of the zones. *)
Definition zone_bound (seg : m0_be_seg) (pcnts : list Z) (i : Z) : Z :=
  let start := bs_addr seg + bs_reserved seg in
  let free_space := bs_size seg - bs_reserved seg in
  match pcnts with
  | [pcnt; _] =>
      if i =? 0 then start else if i =? 1 then start + (free_space * pcnt / 100 + 7) / 8 * 8 else start +
        free_space
  | _ => if i =? 0 then start else start + free_space
  end.

Definition pcnts_ok (pcnts : list Z) : Prop := Forall (fun p => 0 <= p) pcnts /\ foldr Z.add 0 pcnts = 100 /\
  (length pcnts <= 2)%nat.

Lemma header_create_small a z offset size shift : 0 <= z < 2 -> length (ba_h a) = 2%nat -> 0 < size <= 80 ->
  be_allocator_header_create a z offset size false shift = Some (- ENOSPC, a).
Proof.
  intros Hz Hlen Hs. unfold be_allocator_header_create.
  destruct (arr_get_is_Some (ba_h a) z) as [h ->]; [lia|]. cbn [mbind option_bind].
  by rewrite (proj2 (Z.eqb_neq size 0)), (proj2 (Z.ltb_lt size _)) by lia.
Qed.

Lemma heap_empty a cs : (forall z c x, 0 <= z < 2 -> (c, x) ∈ cs z -> bac_free x = true) -> heap_ok a cs ∅.
Proof.
  intros Hf. split; [by intros p bs ?%lookup_empty_Some|by intros p bs i v ?%lookup_empty_Some|].
  intros z c Hz (x & Hin & Hx & _). rewrite (Hf z c x) in Hx; done.
Qed.

Lemma zone0_free z lo size c x : (c, x) ∈ zone0 z lo size -> bac_free x = true.
Proof. unfold zone0. destruct (size =? 0); [by intros ?%elem_of_nil|].
by intros [= -> ->]%list_elem_of_singleton. Qed.

(** Two zones created one after the other. *)
Lemma zones_create a a1 a2 lo hi n b n' b' : moves a a1 0 (lo 0) (hi 0) (lo 0) (hi 0) n b ->
  moves a1 a2 1 (lo 1) (hi 1) (lo 1) (hi 1) n' b' ->
  zone_ok a1 0 (lo 0) (hi 0) (zone0 0 (lo 0) (hi 0 - lo 0)) ->
  zone_ok a2 1 (lo 1) (hi 1) (zone0 1 (lo 1) (hi 1 - lo 1)) ->
  hi 0 <= lo 1 \/ hi 1 <= lo 0 ->
  let cs z := zone0 z (lo z) (hi z - lo z) in zones_ok a2 lo hi cs /\ heap_ok a2 cs ∅ /\ ba_seg a2 = ba_seg a.
Proof.
  intros M1 M2 Z1 Z2 Hd cs. split_and!.
  - split; [|done]. intros z Hz. assert (z = 0 \/ z = 1) as [->| ->] by lia; [|done].
    eapply zone_frame; [exact M2|done|lia|done].
  - apply heap_empty. intros z c x _. apply zone0_free.
  - destruct (mv_seg _ _ _ _ _ _ _ _ _ M1) as [E1 _], (mv_seg _ _ _ _ _ _ _ _ _ M2) as [E2 _]. congruence.
Qed.

(** What m0_be_allocator_create() gives: -ENOSPC when a zone has no room for a chunk. *)
Definition create_post (a a' : m0_be_allocator) (pcnts : list Z) (rc : Z) : Prop :=
  let b := zone_bound (ba_seg a) pcnts in
  let tiny := exists z, 0 <= z < Z.of_nat (length pcnts) /\ 0 < b (z + 1) - b z <= 80 in
  rc = - ENOSPC /\ tiny \/
  rc = 0 /\ ~ tiny /\ ba_seg a' = ba_seg a /\ exists lo hi cs, zones_ok a' lo hi cs /\ heap_ok a' cs ∅ /\
    (forall z, 0 <= z < Z.of_nat (length pcnts) -> lo z = b z /\ hi z = b (z + 1)) /\
    (forall z, Z.of_nat (length pcnts) <= z < 2 -> lo z = hi z).

Lemma create_one a pcnt : length (ba_h a) = 2%nat -> seg_ok (ba_seg a) -> pcnt = 100 ->
  exists rc a', m0_be_allocator_create a [pcnt] = Some (rc, a') /\ create_post a a' [pcnt] rc.
Proof.
  intros Hlen (H0 & Hr & H64 & H100 & H8 & H8') ->. unfold m0_be_allocator_create. cbn [length foldr].
  set (start := bs_addr (ba_seg a) + bs_reserved (ba_seg a)).
  set (free := bs_size (ba_seg a) - bs_reserved (ba_seg a)).
  rewrite (u64_small free), (u64_small start) by (unfold is_u64; lia).
  cbn [create_zones M0_ASSERT mbind option_bind Z.leb Z.eqb].
  change (Z.of_nat 1 <=? 2) with true. change (100 + 0 =? 100) with true. cbn [M0_ASSERT mbind option_bind].
  change (bool_decide ([] = [])) with true. cbn [mbind option_bind]. rewrite Z.leb_refl.
  cbn [M0_ASSERT mbind option_bind].
  unfold create_post. cbn [zone_bound length]. fold start free. destruct (decide (0 < free <= 80)) as [Ht|Ht].
  - rewrite header_create_small by (done || lia). cbn [mbind option_bind negb Z.eqb Z.opp].
    rewrite for_up_nil by lia.
    cbn [mbind option_bind negb Z.eqb Z.opp]. eexists _, a. split; [done|]. left. split; [done|]. exists 0.
    split; [lia|]. change (0 + 1) with 1. cbn. lia.
  - destruct (header_create_ok a 0 start free 3) as (a1 & -> & Z1 & M1 & L1);
      [lia|done|lia|lia|lia|done|lia|].
    cbn [mbind option_bind negb Z.eqb create_zones]. rewrite Z.sub_diag, Z.eqb_refl.
    cbn [M0_ASSERT mbind option_bind negb].
    rewrite for_up_cons by lia. destruct (header_create_ok a1 1 0 0 0) as (a2 & E2 & Z2 & M2 & _);
      [lia|done|lia|lia|lia|by exists 0|by left|].
    change (Z.of_nat 1) with 1. rewrite E2. cbn [mbind option_bind Z.eqb M0_ASSERT].
    rewrite for_up_nil by lia. cbn [mbind option_bind].
    eexists 0, a2. split; [done|]. right. split; [done|]. split.
    { intros (z & Hz & Hb). assert (z = 0) as -> by lia. change (0 + 1) with 1 in Hb. cbn in Hb. lia. }
    set (lo := fun z => if z =? 0 then start else 0). set (hi := fun z => if z =? 0 then start + free else 0).
    destruct (zones_create a a1 a2 lo hi _ _ _ _ M1 M2) as (Hz & Hh & Hs); cbn [lo hi Z.eqb].
    { by replace (start + free - start) with free by lia. }
    { done. }
    { right. lia. }
    split; [done|]. eexists lo, hi, _. split; [exact Hz|]. split; [exact Hh|]. split.
    + intros z Hz'. assert (z = 0) as -> by lia. done.
    + intros z Hz'. assert (z = 1) as -> by lia. done.
Qed.

Lemma create_two a p0 p1 : length (ba_h a) = 2%nat -> seg_ok (ba_seg a) -> 0 <= p0 -> 0 <= p1 ->
  p0 + (p1 + 0) = 100 ->
  exists rc a', m0_be_allocator_create a [p0; p1] = Some (rc, a') /\ create_post a a' [p0; p1] rc.
Proof.
  intros Hlen (H0 & Hr & H64 & H100 & H8 & [q H8']) Hp0 Hp1 Hsum. unfold m0_be_allocator_create.
  cbn [length foldr].
  set (start := bs_addr (ba_seg a) + bs_reserved (ba_seg a)) in *.
  set (free := bs_size (ba_seg a) - bs_reserved (ba_seg a)) in *.
  rewrite (u64_small free), (u64_small start) by (unfold is_u64; lia). change (Z.of_nat 2 <=? 2) with true.
  rewrite (proj2 (Z.eqb_eq _ 100)) by done. cbn [create_zones M0_ASSERT mbind option_bind].
  change (bool_decide ([p1] = [])) with false. change (bool_decide ([] = [])) with true.
  cbn [mbind option_bind].
  assert (0 <= free * p0 <= free * 100) as Hfp by nia.
  rewrite (u64_small (free * p0)) by (unfold is_u64; lia).
  assert (0 <= free * p0 / 100 <= free) as Hdiv by (split; [apply Z.div_pos|apply Z.div_le_upper_bound]; lia).
  change (Z.shiftl 1 3) with 8. rewrite align8 by lia. cbn [mbind option_bind].
  pose proof (align8_bounds (free * p0 / 100)) as Hab.
  unfold create_post. cbn [zone_bound length]. fold start free. set (s := (free * p0 / 100 + 7) / 8 * 8) in *.
  assert (s <= free) as Hs by (subst s; lia). rewrite (proj2 (Z.leb_le s free)) by done.
  cbn [M0_ASSERT mbind option_bind].
  destruct (decide (0 < s <= 80)) as [Ht|Ht].
  { rewrite header_create_small by (done || lia). cbn [mbind option_bind negb Z.eqb Z.opp]. rewrite
      for_up_nil by lia.
    cbn [mbind option_bind negb Z.eqb Z.opp]. eexists _, a. split; [done|]. left. split; [done|]. exists 0.
    split; [lia|]. change (0 + 1) with 1. cbn. lia. }
  destruct (header_create_ok a 0 start s 3) as (a1 & -> & Z1 & M1 & L1); [lia|done|lia|lia|lia|done|lia|].
  cbn [mbind option_bind negb Z.eqb]. rewrite (u64_small (start + s)) by (unfold is_u64; lia).
  rewrite Z.leb_refl. cbn [M0_ASSERT mbind option_bind].
  change (0 + 1) with 1. destruct (decide (0 < free - s <= 80)) as [Ht1|Ht1].
  { rewrite header_create_small by (done || lia). cbn [mbind option_bind negb Z.eqb Z.opp].
    destruct (header_destroy_ok _ _ _ _ _ Z1) as (a2 & E2 & _);
      [intros c n (x & Hin%zone0_free & ? & _); congruence|].
    rewrite for_up_cons by lia. rewrite E2. cbn [mbind option_bind]. rewrite for_up_nil by lia.
    cbn [mbind option_bind negb Z.eqb Z.opp].
    eexists _, a2. split; [done|]. left. split; [done|]. exists 1. split; [lia|]. change (1 + 1) with 2. cbn.
    lia. }
  assert (8 | start + s) as H8s by (apply Z.divide_add_r; [done|by eexists]).
  destruct (header_create_ok a1 1 (start + s) (free - s) 3) as (a2 & -> & Z2 & M2 & L2);
    [lia|done|lia|lia|lia|done|lia|].
  cbn [mbind option_bind negb Z.eqb]. rewrite Z.sub_diag, Z.eqb_refl. cbn [M0_ASSERT mbind option_bind negb].
  rewrite for_up_nil by done. cbn [mbind option_bind]. eexists 0, a2. split; [done|]. right. split; [done|].
  split.
  { intros (z & Hz & Hb). assert (z = 0 \/ z = 1) as [->| ->] by lia; change (0 + 1) with 1 in Hb;
      change (1 + 1) with 2 in Hb; cbn in Hb; lia. }
  set (lo := fun z => if z =? 0 then start else start + s).
  set (hi := fun z => if z =? 0 then start + s else start + free).
  destruct (zones_create a a1 a2 lo hi 142 7800 142 7800 M1) as (Hz & Hh & Hsg); cbn [lo hi Z.eqb].
  { by replace (start + free) with (start + s + (free - s)) by lia. }
  { by replace (start + s - start) with s by lia. }
  { replace (start + free - (start + s)) with (free - s) by lia. by replace (start + free)
      with (start + s + (free - s)) by lia. }
  { left. lia. }
  split; [done|]. eexists lo, hi, _. split; [exact Hz|]. split; [exact Hh|]. split.
  - intros z Hz'. assert (z = 0 \/ z = 1) as [->| ->] by lia; done.
  - intros z Hz'. lia.
Qed.

Lemma create_ok a pcnts : length (ba_h a) = 2%nat -> seg_ok (ba_seg a) -> pcnts_ok pcnts ->
  exists rc a', m0_be_allocator_create a pcnts = Some (rc, a') /\ create_post a a' pcnts rc.
Proof.
  intros Hlen Hseg (Hpos & Hsum & Hl). destruct pcnts as [|p0 [|p1 [|p2 pcnts]]]; [done| | |simpl in Hl; lia].
  - apply create_one; [done..|]. simpl in Hsum. lia.
  - rewrite !Forall_cons in Hpos. apply create_two; [done..|tauto|tauto|done].
Qed.

(** ** Calls *)

(** The users of an allocator allocate and free blocks and write to them. *)
Inductive be_call :=
| Alloc (size shift zonemask : Z) (chunk_align : bool)
| Free (ptr : Z)
| Store (ptr off : Z) (bs : list Z).

Definition call_run (call : be_call) (a : m0_be_allocator) : option (Z * m0_be_allocator) :=
  match call with
  | Alloc size shift zonemask chunk_align => m0_be_alloc_aligned a size shift zonemask chunk_align
  | Free ptr => a ← m0_be_free_aligned a ptr; Some (0, a)
  | Store ptr off bs => Some (0, mem_write (ptr + off) bs a)
  end.

(** What users have to keep to. *)
Definition call_pre (H : heap) (call : be_call) : Prop :=
  match call with
  | Alloc size shift _ _ => 0 < size /\ Z.max shift 3 < 64 /\ size <= (UINT64_MAX - 2 ^ Z.max shift 3) / 2
  | Free ptr => is_Some (H !! ptr)
  | Store ptr off bs => exists old, H !! ptr = Some old /\ 0 <= off /\
  off + Z.of_nat (length bs) <= Z.of_nat (length old)
  end.

(** The blocks after a call that returned [r]. *)
Definition heap_next (H : heap) (call : be_call) (r : Z) : heap :=
  match call with
  | Alloc size _ _ _ => if r =? 0 then H else <[r := replicate (Z.to_nat size) 0]> H
  | Free ptr => delete ptr H
  | Store ptr off bs => alter (list_inserts (Z.to_nat off) bs) ptr H
  end.

(** The states from the creation of the allocator on. *)
Inductive reach (a0 : m0_be_allocator) (pcnts : list Z) : m0_be_allocator -> heap -> Prop :=
| reach_create a : m0_be_allocator_create a0 pcnts = Some (0, a) -> reach a0 pcnts a ∅
| reach_call a H call r a' : reach a0 pcnts a H -> call_pre H call -> call_run call a = Some (r, a') ->
    reach a0 pcnts a' (heap_next H call r).

(** The credit users have to ask for. *)
Definition call_credit (call : be_call) : m0_be_tx_credit :=
  match call with
  | Alloc size _ _ _ => m0_be_allocator_credit M0_BAO_ALLOC_ALIGNED size (M0_BE_TX_CREDIT 0 0)
  | Free _ => m0_be_allocator_credit M0_BAO_FREE_ALIGNED 0 (M0_BE_TX_CREDIT 0 0)
  | Store _ _ _ => M0_BE_TX_CREDIT 0 0
  end.

(** Regions and bytes a call captures at most. *)
Definition call_cap (call : be_call) : Z * Z :=
  match call with Alloc size _ _ _ => (33, 1184 + size) | Free _ => (40, 1169) | Store _ _ _ => (0, 0) end.

Lemma call_ok a lo hi cs H call : zones_ok a lo hi cs -> heap_ok a cs H -> call_pre H call ->
  exists r a' cs', call_run call a = Some (r, a') /\ zones_ok a' lo hi cs' /\
  heap_ok a' cs' (heap_next H call r) /\
    ba_seg a' = ba_seg a /\ exists l, ba_log a' = l ++ ba_log a /\
    cap_le l (call_cap call).1 (call_cap call).2.
Proof.
  intros Hzs Hh Hpre. destruct call as [size shift zonemask ca|p|p off bs];
    cbn [call_pre call_run heap_next call_cap fst snd] in *.
  - destruct Hpre as (H1 & H2 & H3). destruct (alloc_ok a lo hi cs H size shift zonemask ca Hzs Hh H1 H2 H3)
      as (p & a' & cs' & E & Hzs' & Hs & Hl & Hpost).
    exists p, a', cs'. split_and!; try done. destruct (p =? 0); tauto.
  - destruct Hpre as [bs Hp]. destruct (free_ok a lo hi cs H p bs Hzs Hh Hp)
      as (a' & cs' & E & Hzs' & Hs & Hl & Hh').
    rewrite E. cbn [mbind option_bind]. exists 0, a', cs'. by split_and!.
  - destruct Hpre as (old & Hp & Hoff & Hlen).
    destruct (store_ok a lo hi cs H p old off bs Hzs Hh Hp Hoff Hlen) as (Hzs' & Hh' & Hs & Hl).
    eexists 0, _, cs. split; [done|]. split; [done|]. split.
    + replace (alter (list_inserts (Z.to_nat off) bs) p H)
        with (<[p := list_inserts (Z.to_nat off) bs old]> H); [done|].
      apply map_eq. intros i. destruct (decide (i = p)) as [->|];
        [by rewrite lookup_insert_eq, lookup_alter_eq, Hp|].
      by rewrite lookup_insert_ne, lookup_alter_ne.
    + split; [done|]. exists []. by rewrite Hl.
Qed.

Lemma reach_ok a0 pcnts a H : length (ba_h a0) = 2%nat -> seg_ok (ba_seg a0) -> pcnts_ok pcnts ->
  reach a0 pcnts a H ->
  exists lo hi cs, zones_ok a lo hi cs /\ heap_ok a cs H /\
    (forall z, 0 <= z < Z.of_nat (length pcnts) -> lo z = zone_bound (ba_seg a0) pcnts z /\
      hi z = zone_bound (ba_seg a0) pcnts (z + 1)) /\
    (forall z, Z.of_nat (length pcnts) <= z < 2 -> lo z = hi z).
Proof.
  intros Hlen Hseg Hpc. induction 1 as [a E|a H call r a' Hr IH Hpre E].
  - destruct (create_ok a0 pcnts Hlen Hseg Hpc) as
      (rc & a' & E' & [[-> _]|(-> & _ & _ & lo & hi & cs & Hp)]); [rewrite E in E'; injection E'; lia|].
    assert (a' = a) as -> by congruence. by exists lo, hi, cs.
  - destruct IH as (lo & hi & cs & Hzs & Hh & Hb).
    destruct (call_ok a lo hi cs H call Hzs Hh Hpre) as (r' & a'' & cs' & E' & Hzs' & Hh' & _).
    rewrite E in E'. injection E' as <- <-. by exists lo, hi, cs'.
Qed.

(** Blocks are in a zone of the segment. *)
Lemma zone_bound_in seg pcnts z : seg_ok seg -> pcnts_ok pcnts -> 0 <= z <= Z.of_nat (length pcnts) ->
  bs_addr seg + bs_reserved seg <= zone_bound seg pcnts z <= bs_addr seg + bs_size seg.
Proof.
  intros (H0 & Hr & H64 & H100 & H8 & [q Hq]) (Hpos & Hsum & Hl) Hz.
  destruct pcnts as [|p0 [|p1 [|p2 pcnts]]]; [done| | |simpl in Hl; lia]; cbn [zone_bound length] in *.
  - destruct (z =? 0); lia.
  - rewrite !Forall_cons in Hpos. destruct Hpos as (P0 & P1 & _). simpl in Hsum.
    set (free := bs_size seg - bs_reserved seg) in *.
    assert (0 <= free * p0 / 100 <= free) as Hdiv
      by (split; [apply Z.div_pos|apply Z.div_le_upper_bound]; nia).
    pose proof (align8_bounds (free * p0 / 100)). destruct (z =? 0), (z =? 1); lia.
Qed.

(** What a call tells its user. *)
Definition call_post (seg : m0_be_seg) (pcnts : list Z) (H : heap) (call : be_call) (r : Z) : Prop :=
  match call with
  | Alloc size shift zonemask chunk_align =>
      r = 0 \/
      H !! r = None /\ (2 ^ Z.max shift 3 | if chunk_align then r - 80 else r) /\
      exists z, 0 <= z < Z.of_nat (length pcnts) /\ in_mask zonemask z = true /\
        zone_bound seg pcnts z + 80 <= r /\ r + size <= zone_bound seg pcnts (z + 1)
  | _ => r = 0
  end.

(** An allocator on a segment of 16 KB, before it is created. *)
Definition example_allocator : m0_be_allocator :=
  {| ba_seg := {| bs_size := 16384; bs_addr := 0x400000; bs_reserved := 4096 |};
     ba_h := replicate 2 {| bah_chunks := []; bah_fl := []; bah_stats := be_allocator_stats_init 0;
       bah_size := 0; bah_addr := 0 |};
     ba_chunks := ∅; ba_mem := fun _ => None; ba_log := [] |}.

Lemma example_seg_ok : seg_ok (ba_seg example_allocator) /\ pcnts_ok [30; 70].
Proof.
  split; [unfold seg_ok; simpl; split_and!; try lia; by apply Z.mod_divide|].
  split_and!; [|done|simpl; lia]. by repeat constructor.
Qed.

Lemma run_fst {A} (o : option (Z * A)) r : fst <$> o = Some r -> exists a, o = Some (r, a).
Proof. destruct o as [[r' a]|]; [|done]. simpl. intros [= ->]. by exists a. Qed.

(** A run of calls on it. *)
Lemma example_reach : exists a a', m0_be_allocator_create example_allocator [30; 70] = Some (0, a) /\
  m0_be_alloc_aligned a 24 3 2 false = Some (4202168, a') /\
  reach example_allocator [30; 70] a' {[4202168 := replicate 24 0]}.
Proof.
  destruct (run_fst (m0_be_allocator_create example_allocator [30; 70]) 0) as [a E]; [by vm_compute|].
  assert (fst <$> (m0_be_allocator_create example_allocator [30; 70] ≫= fun '(_, a) => m0_be_alloc_aligned a
    24 3 2 false) =
          Some 4202168) as E' by (clear; by vm_compute).
  rewrite E in E'. destruct (run_fst _ _ E') as [a' E'']. cbn [mbind option_bind] in E''. exists a, a'.
  split; [exact E|]. split; [exact E''|].
  apply (reach_call _ _ a ∅ (Alloc 24 3 2 false) 4202168 a'); [exact (reach_create _ _ a E)| |exact E''].
  clear. by vm_compute.
Qed.

(** C4. The life of a segment allocator.  m0_be_allocator_create() on a segment of whole words
    succeeds, or fails with -ENOSPC exactly when a zone is not empty and has no room for a chunk.
    From then on, whatever is allocated, freed and written in any order, no assertion of
    be/alloc.c or be/fl.c fails: every call returns; the allocated blocks lie in the segment, do
    not overlap, and have the contents their users gave them, zeroes at first, although headers of
    chunks are written and overwritten between them.  A block that is allocated is new, aligned
    as asked for, and in a zone of the mask; freeing takes exactly the blocks that are
    allocated; and when all blocks have been freed m0_be_allocator_destroy() succeeds. *)
Theorem be_alloc_life a0 pcnts : length (ba_h a0) = 2%nat -> seg_ok (ba_seg a0) -> pcnts_ok pcnts ->
  (exists rc a, m0_be_allocator_create a0 pcnts = Some (rc, a) /\ create_post a0 a pcnts rc) /\
  forall a H, reach a0 pcnts a H ->
    (forall p bs, H !! p = Some bs ->
       bs_addr (ba_seg a0) + bs_reserved (ba_seg a0) + 80 <= p /\
       p + Z.of_nat (length bs) <= bs_addr (ba_seg a0) + bs_size (ba_seg a0) /\ (8 | p) /\
       forall i v, bs !! i = Some v -> ba_mem a (p + Z.of_nat i) = Some v) /\
    (forall p bs q bs', H !! p = Some bs -> H !! q = Some bs' -> p <> q ->
       p + Z.of_nat (length bs) <= q \/ q + Z.of_nat (length bs') <= p) /\
    (forall call, call_pre H call -> exists r a', call_run call a = Some (r, a') /\
      call_post (ba_seg a0) pcnts H call r) /\
    (H = ∅ -> exists a', m0_be_allocator_destroy a = Some a').
Proof.
  intros Hlen Hseg Hpc. split; [by apply create_ok|]. intros a H Hr.
  destruct (reach_ok a0 pcnts a H Hlen Hseg Hpc Hr) as (lo & hi & cs & Hzs & Hh & Hb & He). split_and!.
  - intros p bs Hp. destruct (heap_chunk _ _ _ _ _ _ _ Hzs Hh Hp)
      as (z & l1 & x & l2 & Hz & Ec & Hx & Hl & Hlo & Hhi).
    destruct (Z.lt_ge_cases z (Z.of_nat (length pcnts))) as [Hzn|Hzn]; [|pose proof (He z ltac:(lia)); lia].
    destruct (Hb z ltac:(lia)) as [E1 E2]. pose proof (zone_bound_in _ _ z Hseg Hpc ltac:(lia)).
    pose proof (zone_bound_in _ _ (z + 1) Hseg Hpc ltac:(lia)).
    split_and!; [lia|lia| |intros i v; by apply (hk_bytes _ _ _ Hh)].
    pose proof (proj1 Hzs z Hz) as (Hzr & _). rewrite Ec in Hzr.
    destruct (zrep_parts _ _ _ _ _ _ _ _ Hzr) as (_ & _ & _ & _ & _ & (_ & _ & _ & _ & _ & H8) & _).
    replace p with (p - 80 + 80) by lia. apply Z.divide_add_r; [done|by exists 10].
  - intros p bs q bs'. by apply (heap_disjoint a lo hi cs).
  - intros call Hpre. destruct call as [size shift zonemask ca|p|p off bs]; cycle 1.
    1-2: destruct (call_ok a lo hi cs H _ Hzs Hh Hpre) as (r & a' & cs' & E & _); exists r, a'; split;
      [done|]; cbn [call_run] in E; unbind E; congruence.
    destruct Hpre as (H1 & H2 & H3). destruct (alloc_ok a lo hi cs H size shift zonemask ca Hzs Hh H1 H2 H3)
      as (p & a' & cs' & E & _ & _ & _ & Hpost).
    exists p, a'. split; [done|]. cbn [call_post]. destruct (Z.eqb_spec p 0) as [->|Hne]; [by left|]. right.
    destruct Hpost as (_ & Hf & Hal & z & c & x & Hz & Hm & _ & _ & Hlo & Hhi). split; [done|].
    split; [done|]. exists z.
    destruct (Z.lt_ge_cases z (Z.of_nat (length pcnts))) as [Hzn|Hzn]; [|pose proof (He z ltac:(lia)); lia].
    destruct (Hb z ltac:(lia)) as [<- <-]. split_and!; try done; lia.
  - intros ->. by eapply destroy_ok.
Qed.

Lemma be_alloc_life_witness : exists a H, reach example_allocator [30; 70] a H /\
  H = {[4202168 := replicate 24 0]} /\
  ba_mem a (4202168 + 23) = Some 0 /\ exists r a', call_run (Free 4202168) a = Some (r, a') /\ r = 0.
Proof.
  destruct example_reach as (_ & a & _ & _ & Hr). exists a, {[4202168 := replicate 24 0]}. split; [done|].
  split; [done|].
  destruct (be_alloc_life example_allocator [30; 70] eq_refl (proj1 example_seg_ok) (proj2 example_seg_ok))
    as [_ L].
  destruct (L _ _ Hr) as (Hin & _ & Hcall & _). split.
  - destruct (Hin 4202168 (replicate 24 0) eq_refl) as (_ & _ & _ & Hb). exact (Hb 23%nat 0 eq_refl).
  - destruct (Hcall (Free 4202168)) as (r & a' & E & Hr0); [by eexists|]. by exists r, a'.
Defined.

(** ** When memory is found *)

(** The chunk lists of the allocator, as its operations see them. *)
Lemma zones_chunks a lo hi cs z c x : zones_ok a lo hi cs -> 0 <= z < 2 ->
  (c, x) ∈ cs z <-> exists h, arr_get (ba_h a) z = Some h /\ c ∈ bah_chunks h /\ ba_chunks a !! c = Some x.
Proof.
  intros Hzs Hz. destruct (proj1 Hzs z Hz) as ((h & Hh & Hl & _ & _ & _ & _ & _ & _ & _ & _ & Hat) & _).
  split.
  - intros Hin. exists h. split_and!; [done| |by apply Hat]. rewrite Hl. apply list_elem_of_fmap.
    by exists (c, x).
  - intros (h' & Hh' & Hc & Hx). assert (h' = h) as -> by congruence. rewrite Hl in Hc.
    apply list_elem_of_fmap in Hc as ([d y] & -> & Hin). simpl in *. rewrite (Hat _ _ Hin) in Hx.
    by injection Hx as ->.
Qed.

(** C24. m0_be_alloc_aligned() returns NULL exactly when no zone of the mask has a free chunk that
    is large enough for the memory wherever the alignment puts it; chunks of 1024 bytes or more
    must be larger than that by at least one byte.  Memory does not get lost in fragments: when all
    blocks have been freed, however they were allocated, a zone serves any request up to its
    size, less the alignment and two headers. *)
Theorem be_alloc_null a0 pcnts a H size shift zonemask chunk_align :
  length (ba_h a0) = 2%nat -> seg_ok (ba_seg a0) -> pcnts_ok pcnts -> reach a0 pcnts a H ->
  call_pre H (Alloc size shift zonemask chunk_align) ->
  let need := size_to_pick size (Z.max shift 3) in
  exists r a', m0_be_alloc_aligned a size shift zonemask chunk_align = Some (r, a') /\
    (r = 0 <-> forall z h c x, 0 <= z < 2 -> in_mask zonemask z = true -> arr_get (ba_h a) z = Some h ->
      c ∈ bah_chunks h ->
                 ba_chunks a !! c = Some x -> ~ fits need x) /\
    (H = ∅ -> forall z, 0 <= z < Z.of_nat (length pcnts) -> in_mask zonemask z = true ->
       need + 160 < zone_bound (ba_seg a0) pcnts (z + 1) - zone_bound (ba_seg a0) pcnts z -> r <> 0).
Proof.
  intros Hlen Hseg Hpc Hr (H1 & H2 & H3) need.
  destruct (reach_ok a0 pcnts a H Hlen Hseg Hpc Hr) as (lo & hi & cs & Hzs & Hh & Hb & He).
  destruct (alloc_ok a lo hi cs H size shift zonemask chunk_align Hzs Hh H1 H2 H3)
    as (r & a' & cs' & E & _ & _ & _ & Hpost).
  exists r, a'. split; [done|].
  assert (r = 0 <-> forall z c x, 0 <= z < 2 -> in_mask zonemask z = true -> (c, x) ∈ cs z -> ~ fits need x)
    as Hiff.
  { destruct (Z.eqb_spec r 0) as [->|Hne]; [by destruct Hpost as [_ Hno]|]. split; [done|]. intros Hno.
    destruct Hpost as (_ & _ & _ & z & c & x & Hz & Hm & Hin & Hf & _). by destruct (Hno z c x Hz Hm Hin). }
  split.
  - rewrite Hiff. split.
    + intros Hno z h c x Hz Hm Hh' Hc Hx. apply (Hno z c x Hz Hm), (zones_chunks a lo hi); [done..|].
      by exists h.
    + intros Hno z c x Hz Hm Hin. apply (zones_chunks a lo hi) in Hin as (h & Hh' & Hc & Hx); [|done..].
      by apply (Hno z h c x).
  - intros -> z Hz Hm Hroom Hr0. destruct Hpc as (_ & _ & Hl). destruct (Hb z Hz) as [Hlo Hhi].
    rewrite <-Hlo, <-Hhi in Hroom.
    assert (0 <= z < 2) as Hz2 by lia.
    assert (0 <= need) by (apply size_to_pick_ok; [done|lia|done]).
    destruct (zone_unused _ _ _ _ _ (proj1 Hzs z Hz2)) as [[_ E0]|(c & x & E0 & Hx & Hc & Hend)]; [|lia|].
    { intros c n (x & Hin & Hx & _). destruct (zones_placed _ _ _ _ _ Hzs Hz2)
        as (Hp & _). destruct (placed_elem _ _ _ _ _ Hp Hin) as (_ & ? & _).
      destruct (hk_live _ _ _ Hh z c Hz2) as [bs Hbs]; [by exists x|]. by rewrite lookup_empty in Hbs. }
    apply (proj1 Hiff Hr0 z c x Hz2 Hm); [rewrite E0; set_solver|]. split; [done|].
    destruct (need <? 1024); lia.
Qed.

Lemma be_alloc_null_witness : exists a, m0_be_allocator_create example_allocator [30; 70] = Some (0, a) /\
  exists r a', m0_be_alloc_aligned a 100 7 2 false = Some (r, a') /\ r <> 0.
Proof.
  destruct example_reach as (a & _ & E & _). exists a. split; [exact E|].
  destruct (be_alloc_null example_allocator [30; 70] a ∅ 100 7 2 false eq_refl (proj1 example_seg_ok)
    (proj2 example_seg_ok)
    (reach_create _ _ a E) ltac:(clear; by vm_compute)) as (r & a' & E' & _ & Hr).
  exists r, a'. split; [exact E'|]. clear E E'. by apply (Hr eq_refl 1).
Defined.

(** ** Credits *)

Lemma alloc_credit size : 0 <= size -> size + 2120 < 2 ^ 64 ->
  let c := m0_be_allocator_credit M0_BAO_ALLOC_ALIGNED size (M0_BE_TX_CREDIT 0 0) in
  tc_reg_nr c = 93 /\ tc_reg_size c = 2120 + size.
Proof.
  intros H0 H1 c. split; [by vm_compute|]. subst c. unfold m0_be_allocator_credit. cbv zeta.
  match goal with |- context [m0_be_tx_credit_add (M0_BE_TX_CREDIT 0 0) ?s] =>
    let v := eval vm_compute in (m0_be_tx_credit_add (M0_BE_TX_CREDIT 0 0) s) in
    change (m0_be_tx_credit_add (M0_BE_TX_CREDIT 0 0) s) with v end.
  cbn [m0_be_tx_credit_add tc_reg_size M0_BE_TX_CREDIT M0_BE_TX_CB_CREDIT].
  rewrite !(u64_small (1264 + size)), !(u64_small (1264 + size + 216)), u64_small by (unfold is_u64; lia).
  lia.
Qed.

(** C25. The credit of m0_be_allocator_credit() is enough: in every state an allocator can get into,
    the regions m0_be_alloc_aligned() and m0_be_free_aligned() capture, counting each of them
    with its full size, are within it, even without the 40 regions and 640 bytes it adds to make
    up for mistakes in credits. *)
Theorem be_alloc_credit a0 pcnts a H call :
  length (ba_h a0) = 2%nat -> seg_ok (ba_seg a0) -> pcnts_ok pcnts -> reach a0 pcnts a H -> call_pre H call ->
  match call with Store _ _ _ => False | _ => True end ->
  exists r a' l, call_run call a = Some (r, a') /\ ba_log a' = l ++ ba_log a /\
    Z.of_nat (length l) + 40 <= tc_reg_nr (call_credit call) /\
    foldr Z.add 0 l + 640 <= tc_reg_size (call_credit call).
Proof.
  intros Hlen Hseg Hpc Hr Hpre Hcall. destruct (reach_ok a0 pcnts a H Hlen Hseg Hpc Hr)
    as (lo & hi & cs & Hzs & Hh & _).
  destruct (call_ok a lo hi cs H call Hzs Hh Hpre) as (r & a' & cs' & E & _ & _ & _ & l & Hl & Hn & Hs).
  exists r, a', l. split; [done|]. split; [done|].
  destruct call as [size shift zonemask ca|p|p off bs]; [| |done]; cbn [call_cap fst snd] in *.
  - destruct Hpre as (H1 & H2 & H3). unfold UINT64_MAX in H3.
    pose proof (Z.mul_div_le (2 ^ 64 - 1 - 2 ^ Z.max shift 3) 2).
    assert (0 < 2 ^ Z.max shift 3) by lia. destruct (alloc_credit size) as [E1 E2]; [lia|lia|].
    cbn [call_credit]. rewrite E1, E2. lia.
  - assert (tc_reg_nr (call_credit (Free p)) = 98 /\ tc_reg_size (call_credit (Free p)) = 2025) as [-> ->]
      by (by vm_compute). lia.
Qed.

Lemma be_alloc_credit_witness : exists a, reach example_allocator [30; 70] a {[4202168 := replicate 24 0]} /\
  exists r a' l, call_run (Free 4202168) a = Some (r, a') /\ ba_log a' = l ++ ba_log a /\
    Z.of_nat (length l) + 40 <= 98 /\ foldr Z.add 0 l + 640 <= 2025.
Proof.
  destruct example_reach as (_ & a & _ & _ & Hr). exists a. split; [done|].
  apply (be_alloc_credit example_allocator [30; 70] a {[4202168 := replicate 24 0]} (Free 4202168));
    [done|apply example_seg_ok..|done|by eexists|done].
Defined.

(** ** Statistics *)

(** The bytes the statistics of zone [z] count as used. *)
Definition space_used (a : m0_be_allocator) (z : Z) : option Z := h ← arr_get (ba_h a) z;
  Some (bas_space_used (bah_stats h)).

(** The statistics drift.  When the alignment leaves a gap before a block that is too small for a chunk of
    its own, the gap is given to the chunk before it, which may be allocated; it is counted as used
    only when that chunk is freed.  Here a segment is created, two blocks are allocated and both
    are freed: the statistics, which counted 0 used bytes at first, now count 2^64 - 32. *)
Lemma stats_drift :
  (m0_be_allocator_create example_allocator [30; 70] ≫= fun '(_, a) =>
   u0 ← space_used a 1;
   m0_be_alloc_aligned a 24 3 2 false ≫= fun '(p, a) =>
   m0_be_alloc_aligned a 100 6 2 false ≫= fun '(q, a) =>
   u1 ← space_used a 1;
   a ← m0_be_free_aligned a p;
   a ← m0_be_free_aligned a q;
   u2 ← space_used a 1;
   Some (u0, u1, u2)) = Some (0, 288, 2 ^ 64 - 32).
Proof. by vm_compute. Qed.
