(* ===== verification/ParityMath.v ===== *)
(** * sns: parity calculation and recovery

    Models src/sns/parity_math.c and its structures of src/sns/parity_math.h:
    the XOR code used for one parity unit and the Reed-Solomon code used for
    more, each with calculation, differential update and recovery.  The erasure
    code primitives of the ISA-L library the user-space build links against are
    the parameters [ISAL] of the model.

    The buffers of a parity group live in a store of allocated blocks; a
    [struct m0_buf] is a size and an address of the store, so that two buffers
    may share a block and the pointer arrays of the Reed-Solomon code hold
    addresses, as in the code. *)
From S2P Require Import Prelude LibArith.
#[local] Open Scope motr_scope.

(** ** Definitions: the store of buffers *)

Definition u8 (x : Z) : Z := x mod 2 ^ 8.

(** The allocated blocks by address, each a list of bytes. *)
Notation blocks := (gmap Z (list Z)).

Record m0_buf := {
  b_nob : Z;
  b_addr : Z
}.

(** [((uint8_t* )addr)[i]], read and written. *)
Definition byte_get (m : blocks) (addr i : Z) : option Z :=
  bytes ← m !! addr; arr_get bytes i.

Definition byte_set (m : blocks) (addr i x : Z) : option blocks :=
  bytes ← m !! addr;
  bytes ← arr_set bytes i x;
  Some (<[addr := bytes]> m).

(** The first [len] bytes of a block, and their replacement. *)
Definition block_get (m : blocks) (len addr : Z) : option (list Z) :=
  bytes ← m !! addr;
  _ ← M0_ASSERT (len <=? Z.of_nat (length bytes));
  Some (take (Z.to_nat len) bytes).

Definition block_put (m : blocks) (addr : Z) (new : list Z) : option blocks :=
  bytes ← m !! addr;
  bytes ← arr_put bytes new;
  Some (<[addr := bytes]> m).

(** ** Definitions: the erasure code library

    What the code calls of ISA-L.  A matrix is the list of its rows one after
    another.
    - [gf_gen_cauchy1_matrix m k]: the [m] by [k] matrix written to the output;
    - [gf_invert_matrix a n]: [None] when the function fails, the inverse else;
    - [ec_init_tables k rows a]: the tables written to the output;
    - [ec_encode_data len k rows tbls srcs]: the contents of the [rows] coded
      blocks from those of the [k] sources;
    - [ec_encode_data_update len k rows vec_i tbls src coding]: the contents of
      the coded blocks after source [vec_i] is added to them. *)
Class ISAL := {
  gf_mul : Z -> Z -> Z;
  gf_gen_cauchy1_matrix : Z -> Z -> list Z;
  gf_invert_matrix : list Z -> Z -> option (list Z);
  ec_init_tables : Z -> Z -> list Z -> list Z;
  ec_encode_data : Z -> Z -> Z -> list Z -> list (list Z) -> list (list Z);
  ec_encode_data_update : Z -> Z -> Z -> Z -> list Z -> list Z -> list (list Z) -> list (list Z)
}.

(** ** Definitions: structures *)

Inductive m0_parity_cal_algo :=
  M0_PARITY_CAL_ALGO_XOR | M0_PARITY_CAL_ALGO_REED_SOLOMON.

(** An array is [None] when its pointer is NULL. *)
Record m0_reed_solomon := {
  rs_encode_matrix : option (list Z);
  rs_encode_tbls : option (list Z);
  rs_decode_tbls : option (list Z);
  rs_failed_nr : Z;
  rs_failed_idx : option (list Z);
  rs_alive_idx : option (list Z);
  rs_bufs_in : option (list Z);
  rs_bufs_out : option (list Z)
}.

Record m0_parity_math := {
  pmi_parity_algo : m0_parity_cal_algo;
  pmi_data_count : Z;
  pmi_parity_count : Z;
  pmi_rs : m0_reed_solomon
}.

Definition with_encode (rs : m0_reed_solomon) (matrix tbls : option (list Z)) : m0_reed_solomon :=
  {| rs_encode_matrix := matrix; rs_encode_tbls := tbls; rs_decode_tbls := rs_decode_tbls rs;
     rs_failed_nr := rs_failed_nr rs; rs_failed_idx := rs_failed_idx rs;
     rs_alive_idx := rs_alive_idx rs; rs_bufs_in := rs_bufs_in rs; rs_bufs_out := rs_bufs_out rs |}.

Definition with_decode_tbls (rs : m0_reed_solomon) (tbls : option (list Z)) : m0_reed_solomon :=
  {| rs_encode_matrix := rs_encode_matrix rs; rs_encode_tbls := rs_encode_tbls rs;
     rs_decode_tbls := tbls;
     rs_failed_nr := rs_failed_nr rs; rs_failed_idx := rs_failed_idx rs;
     rs_alive_idx := rs_alive_idx rs; rs_bufs_in := rs_bufs_in rs; rs_bufs_out := rs_bufs_out rs |}.

Definition with_idx (rs : m0_reed_solomon) (nr : Z) (failed alive : option (list Z))
  : m0_reed_solomon :=
  {| rs_encode_matrix := rs_encode_matrix rs; rs_encode_tbls := rs_encode_tbls rs;
     rs_decode_tbls := rs_decode_tbls rs;
     rs_failed_nr := nr; rs_failed_idx := failed; rs_alive_idx := alive;
     rs_bufs_in := rs_bufs_in rs; rs_bufs_out := rs_bufs_out rs |}.

Definition with_bufs (rs : m0_reed_solomon) (bufs_in bufs_out : option (list Z)) : m0_reed_solomon :=
  {| rs_encode_matrix := rs_encode_matrix rs; rs_encode_tbls := rs_encode_tbls rs;
     rs_decode_tbls := rs_decode_tbls rs;
     rs_failed_nr := rs_failed_nr rs; rs_failed_idx := rs_failed_idx rs;
     rs_alive_idx := rs_alive_idx rs; rs_bufs_in := bufs_in; rs_bufs_out := bufs_out |}.

Definition with_rs (math : m0_parity_math) (rs : m0_reed_solomon) : m0_parity_math :=
  {| pmi_parity_algo := pmi_parity_algo math; pmi_data_count := pmi_data_count math;
     pmi_parity_count := pmi_parity_count math; pmi_rs := rs |}.

Definition zero_rs : m0_reed_solomon :=
  {| rs_encode_matrix := None; rs_encode_tbls := None; rs_decode_tbls := None; rs_failed_nr := 0;
     rs_failed_idx := None; rs_alive_idx := None; rs_bufs_in := None; rs_bufs_out := None |}.

Notation M0_PARITY_GALOIS_W := 8 (only parsing).

Notation SNS_PARITY_MATH_DATA_BLOCKS_MAX := (Z.shiftl 1 (M0_PARITY_GALOIS_W - 1)) (only parsing).

Notation BAD_FAIL_INDEX := (-1) (only parsing).

Notation MIN_TABLE_LEN := 32 (only parsing).

Definition parity_math_invariant (math : m0_parity_math) : bool :=
  (1 <=? pmi_data_count math) && (1 <=? pmi_parity_count math) &&
  (pmi_parity_count math <=? pmi_data_count math) &&
  (pmi_data_count math <=? SNS_PARITY_MATH_DATA_BLOCKS_MAX).

Definition fails_count (fail : list Z) (unit_count : Z) : option Z :=
  for_up 0 unit_count (fun x count =>
    f ← arr_get fail x;
    Some (u32 (count + if f =? 0 then 0 else 1))) 0.

(** The assertions that buffers [lo], ..., [hi - 1] have [block_size] bytes. *)
Definition block_sizes_assert (bufs : list m0_buf) (lo hi block_size : Z) : option () :=
  for_up lo hi (fun i _ => b ← arr_get bufs i; M0_ASSERT (block_size =? b_nob b)) tt.

(** ** Definitions: the XOR code *)

Definition xor_calculate (math : m0_parity_math) (data parity : list m0_buf) (m : blocks)
  : option blocks :=
  d0 ← arr_get data 0;
  let block_size := u32 (b_nob d0) in
  p0 ← arr_get parity 0;
  _ ← M0_ASSERT (block_size =? b_nob p0);
  _ ← block_sizes_assert data 1 (pmi_data_count math) block_size;
  for_up 0 block_size (fun ei m =>
    pe ← for_up 0 (pmi_data_count math) (fun ui pe =>
      d ← arr_get data ui;
      x ← byte_get m (b_addr d) ei;
      Some (Z.lxor pe x)) 0;
    byte_set m (b_addr p0) ei (u8 pe)) m.

Definition xor_diff (math : m0_parity_math) (old new parity : list m0_buf) (index : Z) (m : blocks)
  : option (Z * blocks) :=
  _ ← M0_ASSERT (index <? pmi_data_count math);
  o ← arr_get old index;
  n ← arr_get new index;
  p0 ← arr_get parity 0;
  _ ← M0_ASSERT (b_nob o =? b_nob n);
  _ ← M0_ASSERT (b_nob n =? b_nob p0);
  m ← for_up 0 (b_nob n) (fun ei m =>
    p ← byte_get m (b_addr p0) ei;
    x ← byte_get m (b_addr o) ei;
    y ← byte_get m (b_addr n) ei;
    byte_set m (b_addr p0) ei (u8 (Z.lxor p (Z.lxor x y)))) m;
  Some (0, m).

(** The loop state is the store and [fail_index], which keeps its value from
    one byte to the next. *)
Definition xor_recover (math : m0_parity_math) (data parity : list m0_buf) (fail : list Z)
    (m : blocks) : option (Z * blocks) :=
  d0 ← arr_get data 0;
  let block_size := u32 (b_nob d0) in
  let unit_count := u32 (pmi_data_count math + pmi_parity_count math) in
  fail_count ← fails_count fail unit_count;
  _ ← M0_ASSERT (fail_count =? 1);
  _ ← M0_ASSERT (fail_count <=? pmi_parity_count math);
  p0 ← arr_get parity 0;
  _ ← M0_ASSERT (block_size =? b_nob p0);
  _ ← block_sizes_assert data 1 (pmi_data_count math) block_size;
  '(m, _) ← for_up 0 block_size (fun ei '(m, fail_index) =>
    '(pe, fail_index) ← for_up 0 (pmi_data_count math) (fun ui '(pe, fail_index) =>
      f ← arr_get fail ui;
      if negb (f =? 1) then
        d ← arr_get data ui;
        x ← byte_get m (b_addr d) ei;
        Some (Z.lxor pe x, fail_index)
      else Some (pe, ui)) (0, fail_index);
    f ← arr_get fail (pmi_data_count math);
    if negb (f =? 1) then
      _ ← M0_ASSERT (negb (fail_index =? BAD_FAIL_INDEX));
      d ← arr_get data fail_index;
      p ← byte_get m (b_addr p0) ei;
      m ← byte_set m (b_addr d) ei (u8 (Z.lxor pe p));
      Some (m, fail_index)
    else
      m ← byte_set m (b_addr p0) ei (u8 pe);
      Some (m, fail_index)) (m, BAD_FAIL_INDEX);
  Some (0, m).

Definition fail_idx_xor_recover (math : m0_parity_math) (data parity : list m0_buf)
    (failure_index : Z) (m : blocks) : option blocks :=
  d0 ← arr_get data 0;
  let block_size := u32 (b_nob d0) in
  p0 ← arr_get parity 0;
  _ ← M0_ASSERT (block_size =? b_nob p0);
  let unit_count := u32 (pmi_data_count math + pmi_parity_count math) in
  _ ← M0_ASSERT (failure_index <? unit_count);
  _ ← block_sizes_assert data 1 (pmi_data_count math) block_size;
  for_up 0 block_size (fun ei m =>
    pe ← for_up 0 (pmi_data_count math) (fun ui pe =>
      if negb (ui =? failure_index) then
        d ← arr_get data ui;
        x ← byte_get m (b_addr d) ei;
        Some (Z.lxor pe x)
      else Some pe) 0;
    if negb (pmi_data_count math =? failure_index) then
      d ← arr_get data failure_index;
      p ← byte_get m (b_addr p0) ei;
      byte_set m (b_addr d) ei (u8 (Z.lxor pe p))
    else byte_set m (b_addr p0) ei (u8 pe)) m.

(** m0_parity_math_buffer_xor() *)
Definition m0_parity_math_buffer_xor (dest src : m0_buf) (m : blocks) : option blocks :=
  for_up 0 (b_nob src) (fun ei m =>
    x ← byte_get m (b_addr dest) ei;
    y ← byte_get m (b_addr src) ei;
    byte_set m (b_addr dest) ei (u8 (Z.lxor x y))) m.

(** ** Definitions: the Reed-Solomon code *)

Section reed_solomon.
Context {isal : ISAL}.

(** The array pointers are dangling after m0_free(); no code reads them. *)
Definition reed_solomon_fini (math : m0_parity_math) : m0_parity_math :=
  with_rs math {| rs_encode_matrix := None; rs_encode_tbls := None; rs_decode_tbls := None;
                  rs_failed_nr := rs_failed_nr (pmi_rs math); rs_failed_idx := None;
                  rs_alive_idx := None; rs_bufs_in := None; rs_bufs_out := None |}.

(** M0_ALLOC_ARR(): [mem n] tells whether the [n]-th allocation of a call
    succeeds; the array is zeroed. *)
Definition M0_ALLOC_ARR (mem : Z -> bool) (n len : Z) : option (list Z) :=
  if mem n then Some (replicate (Z.to_nat len) 0) else None.

Definition reed_solomon_init (mem : Z -> bool) (math : m0_parity_math)
  : option (Z * m0_parity_math) :=
  _ ← M0_ASSERT (parity_math_invariant math);
  let data_count := pmi_data_count math in
  let parity_count := pmi_parity_count math in
  let rs := pmi_rs math in
  let total_count := u32 (data_count + parity_count) in
  let tbl_len := u32 (u32 (data_count * parity_count) * MIN_TABLE_LEN) in
  match M0_ALLOC_ARR mem 0 (u32 (total_count * data_count)) with
  | None => Some (- ENOMEM, math)
  | Some matrix =>
  let rs := with_encode rs (Some matrix) (rs_encode_tbls rs) in
  match M0_ALLOC_ARR mem 1 tbl_len with
  | None => Some (- ENOMEM, with_rs math rs)
  | Some etbls =>
  let rs := with_encode rs (Some matrix) (Some etbls) in
  match M0_ALLOC_ARR mem 2 tbl_len with
  | None => Some (- ENOMEM, with_rs math rs)
  | Some dtbls =>
  let rs := with_decode_tbls rs (Some dtbls) in
  matrix ← arr_put matrix (gf_gen_cauchy1_matrix total_count data_count);
  etbls ← arr_put etbls (ec_init_tables data_count parity_count
                           (drop (Z.to_nat (data_count * data_count)) matrix));
  let rs := with_encode rs (Some matrix) (Some etbls) in
  match M0_ALLOC_ARR mem 3 parity_count with
  | None => Some (- ENOMEM, with_rs math rs)
  | Some failed =>
  let rs := with_idx rs (rs_failed_nr rs) (Some failed) (rs_alive_idx rs) in
  match M0_ALLOC_ARR mem 4 total_count with
  | None => Some (- ENOMEM, with_rs math rs)
  | Some alive =>
  let rs := with_idx rs (rs_failed_nr rs) (Some failed) (Some alive) in
  match M0_ALLOC_ARR mem 5 data_count with
  | None => Some (- ENOMEM, with_rs math rs)
  | Some bufs_in =>
  let rs := with_bufs rs (Some bufs_in) (rs_bufs_out rs) in
  match M0_ALLOC_ARR mem 6 parity_count with
  | None => Some (- ENOMEM, with_rs math rs)
  | Some bufs_out => Some (0, with_rs math (with_bufs rs (Some bufs_in) (Some bufs_out)))
  end end end end end end end.

(** The call ec_encode_data(): reads the first [k] source blocks, writes the
    first [rows] destination blocks. *)
Definition call_ec_encode_data (len k rows : Z) (tbls srcs dests : list Z) (m : blocks)
  : option blocks :=
  _ ← M0_ASSERT (k <=? Z.of_nat (length srcs));
  ins ← mapM (block_get m len) (take (Z.to_nat k) srcs);
  let outs := ec_encode_data len k rows tbls ins in
  for_up 0 rows (fun r m =>
    dest ← arr_get dests r;
    out ← arr_get outs r;
    block_put m dest out) m.

Definition reed_solomon_encode (math : m0_parity_math) (data parity : list m0_buf) (m : blocks)
  : option (m0_parity_math * blocks) :=
  _ ← M0_ASSERT (parity_math_invariant math);
  let rs := pmi_rs math in
  d0 ← arr_get data 0;
  let block_size := u32 (b_nob d0) in
  bufs_in ← rs_bufs_in rs;
  bufs_in ← arr_set bufs_in 0 (b_addr d0);
  bufs_in ← for_up 1 (pmi_data_count math) (fun i bufs_in =>
    d ← arr_get data i;
    _ ← M0_ASSERT (block_size =? b_nob d);
    arr_set bufs_in i (b_addr d)) bufs_in;
  bufs_out ← rs_bufs_out rs;
  bufs_out ← for_up 0 (pmi_parity_count math) (fun i bufs_out =>
    p ← arr_get parity i;
    _ ← M0_ASSERT (block_size =? b_nob p);
    arr_set bufs_out i (b_addr p)) bufs_out;
  tbls ← rs_encode_tbls rs;
  m ← call_ec_encode_data block_size (pmi_data_count math) (pmi_parity_count math) tbls
        bufs_in bufs_out m;
  Some (with_rs math (with_bufs rs (Some bufs_in) (Some bufs_out)), m).

(** The call ec_encode_data_update() on the first [rows] blocks of [dests]. *)
Definition call_ec_encode_data_update (len k rows vec_i : Z) (tbls src dests : list Z) (m : blocks)
  : option blocks :=
  _ ← M0_ASSERT (rows <=? Z.of_nat (length dests));
  coding ← mapM (block_get m len) (take (Z.to_nat rows) dests);
  let outs := ec_encode_data_update len k rows vec_i tbls src coding in
  for_up 0 rows (fun r m =>
    dest ← arr_get dests r;
    out ← arr_get outs r;
    block_put m dest out) m.

(** [src] is the contents of [src_buf]. *)
Definition isal_encode_data_update (mem : bool) (dest_bufs : list m0_buf) (src : list Z)
    (vec_idx : Z) (g_tbls : list Z) (data_nr dest_nr : Z) (m : blocks) : option (Z * blocks) :=
  if negb mem then Some (- ENOMEM, m)
  else
    let block_size := u32 (Z.of_nat (length src)) in
    dest_frags ← for_up 0 dest_nr (fun i frags =>
      b ← arr_get dest_bufs i;
      _ ← M0_ASSERT (block_size =? b_nob b);
      arr_set frags i (b_addr b)) (replicate (Z.to_nat dest_nr) 0);
    m ← call_ec_encode_data_update block_size data_nr dest_nr vec_idx g_tbls src dest_frags m;
    Some (0, m).

(** [uint_fast32_t] has eight bytes, least significant first. *)
Definition WORD : Z := 8.

Definition word_get (bytes : list Z) (i : Z) : option Z :=
  _ ← M0_ASSERT ((0 <=? i) && (WORD * i + WORD <=? Z.of_nat (length bytes)));
  Some (little_endian_to_Z 8 (take (Z.to_nat WORD) (drop (Z.to_nat (WORD * i)) bytes))).

Definition word_set (bytes : list Z) (i x : Z) : option (list Z) :=
  _ ← M0_ASSERT ((0 <=? i) && (WORD * i + WORD <=? Z.of_nat (length bytes)));
  Some (take (Z.to_nat (WORD * i)) bytes ++ Z_to_little_endian WORD 8 x ++
        drop (Z.to_nat (WORD * i + WORD)) bytes).

Definition reed_solomon_diff (mem : Z -> bool) (math : m0_parity_math)
    (old new parity : list m0_buf) (index : Z) (m : blocks) : option (Z * blocks) :=
  _ ← M0_ASSERT (parity_math_invariant math);
  _ ← M0_ASSERT (index <? pmi_data_count math);
  o ← arr_get old index;
  n ← arr_get new index;
  if negb (b_nob o =? b_nob n) then Some (- EINVAL, m)
  else
    let block_size := u32 (b_nob n) in
    aligned ← m0_is_aligned block_size WORD;
    _ ← M0_ASSERT aligned;
    match M0_ALLOC_ARR mem 0 block_size with
    | None => Some (- ENOMEM, m)
    | Some diff_data_arr =>
        diff_data_arr ← for_up 0 (block_size / WORD) (fun i arr =>
          ob ← m !! b_addr o;
          nb ← m !! b_addr n;
          x ← word_get ob i;
          y ← word_get nb i;
          word_set arr i (Z.lxor x y)) diff_data_arr;
        tbls ← rs_encode_tbls (pmi_rs math);
        isal_encode_data_update (mem 1) parity diff_data_arr index tbls
          (pmi_data_count math) (pmi_parity_count math) m
    end.

Definition fails_sort (rs : m0_reed_solomon) (fail : list Z) (total_count parity_count : Z)
  : option m0_reed_solomon :=
  failed ← rs_failed_idx rs;
  alive ← rs_alive_idx rs;
  '(failed, failed_nr, alive, _) ← for_up 0 total_count
    (fun i '(failed, failed_nr, alive, alive_nr) =>
      f ← arr_get fail i;
      if negb (f =? 0) then
        _ ← M0_ASSERT (failed_nr <? parity_count);
        failed ← arr_set failed failed_nr (u8 i);
        Some (failed, failed_nr + 1, alive, alive_nr)
      else
        alive ← arr_set alive alive_nr (u8 i);
        Some (failed, failed_nr, alive, alive_nr + 1)) (failed, 0, alive, 0);
  Some (with_idx rs failed_nr (Some failed) (Some alive)).

Definition buf_sort (rs : m0_reed_solomon) (total_count data_count : Z) (fail : list Z)
    (data parity : list m0_buf) : option m0_reed_solomon :=
  bufs_in ← rs_bufs_in rs;
  bufs_out ← rs_bufs_out rs;
  '(bufs_in, _, bufs_out, _) ← for_up 0 total_count
    (fun i '(bufs_in, k, bufs_out, j) =>
      b ← (if i <? data_count then arr_get data i else arr_get parity (i - data_count));
      f ← arr_get fail i;
      if negb (f =? 0) then
        bufs_out ← arr_set bufs_out j (b_addr b);
        Some (bufs_in, k, bufs_out, j + 1)
      else if k <? data_count then
        bufs_in ← arr_set bufs_in k (b_addr b);
        Some (bufs_in, k + 1, bufs_out, j)
      else Some (bufs_in, k, bufs_out, j)) (bufs_in, 0, bufs_out, 0);
  Some (with_bufs rs (Some bufs_in) (Some bufs_out)).

(** The matrix that encoded the first [data_count] alive units. *)
Definition recov_temp_mat (data_count : Z) (matrix alive temp_mat : list Z) : option (list Z) :=
  for_up 0 data_count (fun i temp_mat =>
    idx ← arr_get alive i;
    for_up 0 data_count (fun j temp_mat =>
      x ← arr_get matrix (data_count * idx + j);
      arr_set temp_mat (data_count * i + j) x) temp_mat) temp_mat.

(** The rows of the failed units. *)
Definition recov_decode_mat (data_count failed_nr : Z) (matrix failed invert_mat decode_mat : list Z)
  : option (list Z) :=
  for_up 0 failed_nr (fun r decode_mat =>
    idx ← arr_get failed r;
    if idx <? data_count then
      for_up 0 data_count (fun i decode_mat =>
        x ← arr_get invert_mat (data_count * idx + i);
        arr_set decode_mat (data_count * r + i) x) decode_mat
    else
      for_up 0 data_count (fun i decode_mat =>
        s ← for_up 0 data_count (fun j s =>
          x ← arr_get invert_mat (j * data_count + i);
          y ← arr_get matrix (j + data_count * idx);
          Some (u8 (Z.lxor s (gf_mul x y)))) 0;
        arr_set decode_mat (data_count * r + i) s) decode_mat) decode_mat.

Definition isal_gen_recov_coeff_tbl (mem : Z -> bool) (data_count parity_count : Z)
    (rs : m0_reed_solomon) : option (Z * m0_reed_solomon) :=
  let total_count := u32 (data_count + parity_count) in
  let mat_size := u32 (total_count * data_count) in
  match M0_ALLOC_ARR mem 0 mat_size, M0_ALLOC_ARR mem 1 mat_size, M0_ALLOC_ARR mem 2 mat_size with
  | Some decode_mat, Some temp_mat, Some invert_mat =>
      matrix ← rs_encode_matrix rs;
      alive ← rs_alive_idx rs;
      failed ← rs_failed_idx rs;
      temp_mat ← recov_temp_mat data_count matrix alive temp_mat;
      match gf_invert_matrix (take (Z.to_nat (data_count * data_count)) temp_mat) data_count with
      | None => Some (- EDOM, rs)
      | Some inv =>
          invert_mat ← arr_put invert_mat inv;
          decode_mat ← recov_decode_mat data_count (rs_failed_nr rs) matrix failed invert_mat
                         decode_mat;
          tbls ← rs_decode_tbls rs;
          tbls ← arr_put tbls (ec_init_tables data_count (rs_failed_nr rs) decode_mat);
          Some (0, with_decode_tbls rs (Some tbls))
      end
  | _, _, _ => Some (- ENOMEM, rs)
  end.

Definition reed_solomon_recover (mem : Z -> bool) (math : m0_parity_math)
    (data parity : list m0_buf) (fail : list Z) (m : blocks)
  : option (Z * m0_parity_math * blocks) :=
  _ ← M0_ASSERT (parity_math_invariant math);
  let data_count := pmi_data_count math in
  let parity_count := pmi_parity_count math in
  let total_count := u32 (data_count + parity_count) in
  d0 ← arr_get data 0;
  let block_size := u32 (b_nob d0) in
  fail_count ← fails_count fail total_count;
  _ ← M0_ASSERT (0 <? fail_count);
  _ ← M0_ASSERT (fail_count <=? parity_count);
  _ ← block_sizes_assert data 1 data_count block_size;
  _ ← block_sizes_assert parity 0 parity_count block_size;
  rs ← buf_sort (pmi_rs math) total_count data_count fail data parity;
  rs ← fails_sort rs fail total_count parity_count;
  _ ← M0_ASSERT (fail_count =? rs_failed_nr rs);
  '(ret, rs) ← isal_gen_recov_coeff_tbl mem data_count parity_count rs;
  if negb (ret =? 0) then Some (ret, with_rs math rs, m)
  else
    tbls ← rs_decode_tbls rs;
    bufs_in ← rs_bufs_in rs;
    bufs_out ← rs_bufs_out rs;
    m ← call_ec_encode_data block_size data_count fail_count tbls bufs_in bufs_out m;
    Some (ret, with_rs math rs, m).

Definition fail_idx_reed_solomon_recover (math : m0_parity_math) (data parity : list m0_buf)
    (failure_index : Z) (m : blocks) : option blocks := Some m.

(** ** Definitions: the interface *)

Definition m0_parity_math_fini (math : m0_parity_math) : m0_parity_math :=
  match pmi_parity_algo math with
  | M0_PARITY_CAL_ALGO_REED_SOLOMON => reed_solomon_fini math
  | M0_PARITY_CAL_ALGO_XOR => math
  end.

Definition m0_parity_math_init (mem : Z -> bool) (data_count parity_count : Z)
  : option (Z * m0_parity_math) :=
  let math algo := {| pmi_parity_algo := algo; pmi_data_count := data_count;
                      pmi_parity_count := parity_count; pmi_rs := zero_rs |} in
  _ ← M0_ASSERT (parity_math_invariant (math M0_PARITY_CAL_ALGO_XOR));
  if parity_count =? 1 then Some (0, math M0_PARITY_CAL_ALGO_XOR)
  else
    '(ret, math) ← reed_solomon_init mem (math M0_PARITY_CAL_ALGO_REED_SOLOMON);
    if negb (ret =? 0) then Some (ret, m0_parity_math_fini math)
    else Some (ret, math).

Definition m0_parity_math_calculate (math : m0_parity_math) (data parity : list m0_buf) (m : blocks)
  : option (m0_parity_math * blocks) :=
  match pmi_parity_algo math with
  | M0_PARITY_CAL_ALGO_XOR => m ← xor_calculate math data parity m; Some (math, m)
  | M0_PARITY_CAL_ALGO_REED_SOLOMON => reed_solomon_encode math data parity m
  end.

Definition m0_parity_math_diff (mem : Z -> bool) (math : m0_parity_math)
    (old new parity : list m0_buf) (index : Z) (m : blocks) : option (Z * blocks) :=
  match pmi_parity_algo math with
  | M0_PARITY_CAL_ALGO_XOR => xor_diff math old new parity index m
  | M0_PARITY_CAL_ALGO_REED_SOLOMON => reed_solomon_diff mem math old new parity index m
  end.

Definition m0_parity_math_recover (mem : Z -> bool) (math : m0_parity_math)
    (data parity : list m0_buf) (fail : list Z) (m : blocks)
  : option (Z * m0_parity_math * blocks) :=
  match pmi_parity_algo math with
  | M0_PARITY_CAL_ALGO_XOR => '(ret, m) ← xor_recover math data parity fail m; Some (ret, math, m)
  | M0_PARITY_CAL_ALGO_REED_SOLOMON => reed_solomon_recover mem math data parity fail m
  end.

Definition m0_parity_math_fail_index_recover (math : m0_parity_math) (data parity : list m0_buf)
    (fidx : Z) (m : blocks) : option blocks :=
  match pmi_parity_algo math with
  | M0_PARITY_CAL_ALGO_XOR => fail_idx_xor_recover math data parity fidx m
  | M0_PARITY_CAL_ALGO_REED_SOLOMON => fail_idx_reed_solomon_recover math data parity fidx m
  end.

Definition m0_parity_math_refine (math : m0_parity_math) (data parity : list m0_buf)
    (data_ind_changed : Z) (m : blocks) : option (m0_parity_math * blocks) :=
  m0_parity_math_calculate math data parity m.

End reed_solomon.

(** ** Lists indexed by [Z] and exclusive-or sums *)

Definition byte (x : Z) : Prop := 0 <= x < 2 ^ 8.

(** Element [i] of an array, 0 out of its range. *)
Definition nthZ (l : list Z) (i : Z) : Z := default 0 (l !! Z.to_nat i).

Definition rowZ (ls : list (list Z)) (i : Z) : list Z := ls !!! Z.to_nat i.

(** [f 0 ^ f 1 ^ ... ^ f (n - 1)] *)
Definition xsum (n : Z) (f : Z -> Z) : Z := foldr (fun i acc => Z.lxor (f i) acc) 0 (seqZ 0 n).

Lemma nthZ_get l i : 0 <= i < Z.of_nat (length l) -> arr_get l i = Some (nthZ l i).
Proof.
  intros Hi. destruct (arr_get_is_Some l i Hi) as [x Hx]. rewrite Hx.
  apply arr_get_Some in Hx as [_ Hx]. unfold nthZ. by rewrite Hx.
Qed.

Lemma rowZ_get ls i : 0 <= i < Z.of_nat (length ls) -> arr_get ls i = Some (rowZ ls i).
Proof.
  intros. apply arr_get_Some. split; [lia|]. apply list_lookup_lookup_total_lt. lia.
Qed.

Lemma nthZ_of_get l i x : arr_get l i = Some x -> nthZ l i = x.
Proof. intros [_ H]%arr_get_Some. unfold nthZ. by rewrite H. Qed.

Lemma nthZ_map f n i : 0 <= i < n -> nthZ (f <$> seqZ 0 n) i = f i.
Proof.
  intros. apply nthZ_of_get, arr_get_Some. split; [lia|].
  rewrite list_lookup_fmap, lookup_seqZ_lt by lia. simpl. f_equal. f_equal. lia.
Qed.

Lemma map_nthZ l n : Z.of_nat (length l) = n -> nthZ l <$> seqZ 0 n = l.
Proof.
  intros <-. apply list_eq_same_length with (length l); [done| |].
  - rewrite length_fmap, length_seqZ. lia.
  - intros i x y Hi. rewrite list_lookup_fmap, lookup_seqZ_lt by lia. simpl. unfold nthZ.
    replace (Z.to_nat (0 + Z.of_nat i)) with i by lia. intros [= <-] Hy. by rewrite Hy.
Qed.

Lemma Forall_nthZ (P : Z -> Prop) l i : P 0 -> Forall P l -> P (nthZ l i).
Proof.
  intros H0 Hl. unfold nthZ.
  destruct (l !! Z.to_nat i) eqn:E; simpl; [|done]. by eapply Forall_lookup_1.
Qed.

Lemma xsum_0 f : xsum 0 f = 0.
Proof. done. Qed.

Lemma foldr_lxor (f : Z -> Z) l x :
  foldr (fun i acc => Z.lxor (f i) acc) x l = Z.lxor (foldr (fun i acc => Z.lxor (f i) acc) 0 l) x.
Proof. induction l as [|i l IH]; simpl; [done|]. by rewrite IH, Z.lxor_assoc. Qed.

Lemma xsum_succ n (f : Z -> Z) : 0 <= n -> xsum (n + 1) f = Z.lxor (xsum n f) (f n).
Proof.
  intros. unfold xsum. rewrite seqZ_snoc by lia. rewrite foldr_app. simpl.
  by rewrite foldr_lxor, Z.lxor_0_r.
Qed.

(** Induction on the number of terms. *)
Lemma xsum_ind (P : Z -> Prop) :
  P 0 -> (forall n, 0 <= n -> P n -> P (n + 1)) -> forall n, 0 <= n -> P n.
Proof. intros H0 HS n Hn. by apply natlike_ind. Qed.

Lemma xsum_ext n f g : (forall i, 0 <= i < n -> f i = g i) -> xsum n f = xsum n g.
Proof.
  intros H. unfold xsum. assert (Forall (fun i => f i = g i) (seqZ 0 n)) as HF.
  { apply Forall_seqZ. intros. apply H. lia. }
  induction HF as [|i l Hi _ IH]; simpl; [done|]. by rewrite Hi, IH.
Qed.

Lemma lxor_byte x y : byte x -> byte y -> byte (Z.lxor x y).
Proof.
  unfold byte. intros Hx Hy. split; [apply Z.lxor_nonneg; lia|].
  destruct (Z.eq_dec (Z.lxor x y) 0) as [->|]; [lia|].
  apply Z.log2_lt_pow2; [apply Z.le_neq; split; [apply Z.lxor_nonneg; lia|congruence]|].
  eapply Z.le_lt_trans; [apply Z.log2_lxor; lia|].
  destruct (Z.eq_dec x 0) as [->|]; destruct (Z.eq_dec y 0) as [->|];
    apply Z.max_lub_lt; try (simpl; lia); apply Z.log2_lt_pow2; lia.
Qed.

Lemma xsum_byte n f : (forall i, 0 <= i < n -> byte (f i)) -> byte (xsum n f).
Proof.
  intros H. unfold xsum. assert (Forall (fun i => byte (f i)) (seqZ 0 n)) as HF.
  { apply Forall_seqZ. intros. apply H. lia. }
  induction HF as [|i l Hi _ IH]; simpl; [unfold byte; lia|]. by apply lxor_byte.
Qed.

Lemma xsum_lxor n f g : xsum n (fun i => Z.lxor (f i) (g i)) = Z.lxor (xsum n f) (xsum n g).
Proof.
  unfold xsum. induction (seqZ 0 n) as [|i l IH]; simpl; [done|]. rewrite IH.
  rewrite !Z.lxor_assoc. f_equal. rewrite <- !Z.lxor_assoc. f_equal. apply Z.lxor_comm.
Qed.

Lemma xsum_zero n : xsum n (fun _ => 0) = 0.
Proof. unfold xsum. induction (seqZ 0 n) as [|i l IH]; simpl; [done|]. by rewrite IH. Qed.

(** All terms but one are zero. *)
Lemma xsum_delta n k f :
  0 <= k < n -> xsum n (fun i => if i =? k then f i else 0) = f k.
Proof.
  intros Hk. assert (forall n, 0 <= n ->
    xsum n (fun i => if i =? k then f i else 0) = if k <? n then f k else 0) as H.
  { apply xsum_ind.
    - by replace (k <? 0) with false by (symmetry; apply Z.ltb_ge; lia).
    - intros j Hj IH. rewrite xsum_succ, IH by done. zcases; subst; try lia;
        by rewrite ?Z.lxor_0_r, ?Z.lxor_0_l. }
  rewrite H by lia. by replace (k <? n) with true by (symmetry; apply Z.ltb_lt; lia).
Qed.

(** One term taken out of the sum. *)
Lemma xsum_split n k f :
  0 <= k < n -> xsum n f = Z.lxor (f k) (xsum n (fun i => if i =? k then 0 else f i)).
Proof.
  intros Hk. rewrite <- (xsum_delta n k f Hk) at 1. rewrite <- xsum_lxor.
  apply xsum_ext. intros i _. zcases; by rewrite ?Z.lxor_0_r, ?Z.lxor_0_l.
Qed.

(** The accumulating loop of the code. *)
Lemma xsum_loop n f body :
  0 <= n -> (forall i pe, 0 <= i < n -> body i pe = Some (Z.lxor pe (f i))) ->
  for_up 0 n body 0 = Some (xsum n f).
Proof.
  intros Hn Hb.
  destruct (for_up_total (fun j pe => pe = xsum j f) body 0 n 0) as (pe & -> & ->); try done.
  intros j s Hj ->. exists (xsum (j + 1) f). rewrite Hb, xsum_succ by lia. done.
Qed.

Lemma u8_byte x : byte x -> u8 x = x.
Proof. apply Z.mod_small. Qed.

#[export] Hint Resolve lxor_byte xsum_byte : motr.

(** ** Groups of buffers in the store *)

(** The buffers hold the blocks of contents [cs], of [bs] bytes each. *)
Definition holds (m : blocks) (bs : Z) (bufs : list m0_buf) (cs : list (list Z)) : Prop :=
  Forall2 (fun b c => b_nob b = bs /\ m !! b_addr b = Some c /\
                      Z.of_nat (length c) = bs /\ Forall byte c) bufs cs.

(** The contents of the block that is the exclusive or of the others. *)
Definition xor_block (bs : Z) (cs : list (list Z)) : list Z :=
  (fun ei => xsum (Z.of_nat (length cs)) (fun ui => nthZ (rowZ cs ui) ei)) <$> seqZ 0 bs.

Lemma holds_length m bs bufs cs : holds m bs bufs cs -> length bufs = length cs.
Proof. apply Forall2_length. Qed.

Lemma holds_get m bs bufs cs i :
  holds m bs bufs cs -> 0 <= i < Z.of_nat (length cs) ->
  exists b, arr_get bufs i = Some b /\ b_nob b = bs /\ m !! b_addr b = Some (rowZ cs i) /\
    Z.of_nat (length (rowZ cs i)) = bs /\ Forall byte (rowZ cs i).
Proof.
  intros H Hi. pose proof (holds_length _ _ _ _ H) as Hl.
  pose proof (rowZ_get cs i Hi) as [_ Hc]%arr_get_Some.
  destruct (Forall2_lookup_r _ _ _ _ _ H Hc) as (b & Hb & Hn & Hm & Hlen & Hby).
  exists b. repeat split; try done. apply arr_get_Some. split; [lia|done].
Qed.

Lemma holds_mono m m' bs bufs cs :
  holds m bs bufs cs -> (forall b, b ∈ bufs -> m' !! b_addr b = m !! b_addr b) ->
  holds m' bs bufs cs.
Proof.
  intros H Hm. apply Forall2_same_length_lookup_2; [by eapply Forall2_length|].
  intros i b c Hb Hc. destruct (Forall2_lookup_lr _ _ _ _ _ _ H Hb Hc) as (? & ? & ? & ?).
  repeat split; try done. rewrite Hm; [done|]. by eapply list_elem_of_lookup_2.
Qed.

Lemma block_sizes_ok m bs bufs cs lo hi :
  holds m bs bufs cs -> 0 <= lo <= hi -> hi <= Z.of_nat (length cs) ->
  block_sizes_assert bufs lo hi bs = Some tt.
Proof.
  intros H Hlo Hhi. unfold block_sizes_assert.
  destruct (for_up_total (fun _ _ => True)
    (fun i (_ : ()) => b ← arr_get bufs i; M0_ASSERT (bs =? b_nob b)) lo hi tt) as ([] & -> & _);
    [lia|done| |done].
  intros j [] Hj _. destruct (holds_get _ _ _ _ j H) as (b & -> & Hn & _); [lia|].
  exists tt. simpl. by rewrite Hn, Z.eqb_refl.
Qed.

Lemma byte_get_ok m addr c i :
  m !! addr = Some c -> 0 <= i < Z.of_nat (length c) -> byte_get m addr i = Some (nthZ c i).
Proof. intros Hm Hi. unfold byte_get. rewrite Hm. simpl. by apply nthZ_get. Qed.

(** A loop that computes the bytes of one block in increasing order; [emb] adds
    to the store the variables [x] the loop carries along. *)
Lemma fill_loop {X St} (emb : X -> blocks -> St) (Q : X -> Prop) m addr old bs (v : Z -> Z) body x :
  m !! addr = Some old -> Z.of_nat (length old) = bs -> Q x ->
  (forall ei c x, 0 <= ei < bs -> Q x -> length c = length old ->
     (forall j, ei <= j < bs -> nthZ c j = nthZ old j) ->
     exists x', Q x' /\ body ei (emb x (<[addr := c]> m)) =
       (m' ← byte_set (<[addr := c]> m) addr ei (v ei); Some (emb x' m'))) ->
  exists x', for_up 0 bs body (emb x m) = Some (emb x' (<[addr := v <$> seqZ 0 bs]> m)) /\ Q x'.
Proof.
  intros Hm Hl HQ Hb.
  destruct (for_up_total (fun ei s => exists x, Q x /\
      s = emb x (<[addr := (v <$> seqZ 0 ei) ++ drop (Z.to_nat ei) old]> m))
    body 0 bs (emb x m)) as (s & Hs & x' & HQ' & ->).
  - lia.
  - exists x. split; [done|]. f_equal. symmetry. by apply insert_id.
  - intros ei s Hei (y & Hy & ->).
    set (c := (v <$> seqZ 0 ei) ++ drop (Z.to_nat ei) old).
    assert (length (v <$> seqZ 0 ei) = Z.to_nat ei) as Hlv by (rewrite length_fmap, length_seqZ; lia).
    assert (length c = length old) as Hlc by (unfold c; rewrite length_app, length_drop; lia).
    destruct (Hb ei c y Hei Hy Hlc) as (y' & Hy' & E).
    { intros j Hj. unfold nthZ, c. rewrite lookup_app_r by lia. rewrite Hlv, lookup_drop. do 2 f_equal. lia. }
    rewrite E. unfold byte_set. rewrite lookup_insert_eq. cbn [mbind option_bind].
    rewrite arr_set_ok by lia. cbn [mbind option_bind]. eexists. split; [done|].
    exists y'. split; [done|]. rewrite insert_insert_eq. do 2 f_equal. rewrite seqZ_snoc by lia.
    rewrite fmap_app. unfold c. rewrite insert_app_r_alt by lia. rewrite Hlv.
    replace (Z.to_nat ei - Z.to_nat ei)%nat with O by lia. rewrite <- app_assoc. f_equal.
    assert (0 <= ei < Z.of_nat (length old)) as (l1 & z & l2 & Hs & Hl1)%arr_split by lia.
    rewrite Hs. replace (Z.to_nat (ei + 1)) with (S (length l1)) by lia.
    replace (Z.to_nat ei) with (length l1) by lia. rewrite drop_app_length.
    rewrite drop_app_ge by lia. by replace (S (length l1) - length l1)%nat with 1%nat by lia.
  - exists x'. split; [|done]. rewrite Hs. rewrite drop_ge by lia. by rewrite app_nil_r.
Qed.

(** The same for a loop on the store alone. *)
Lemma fill_block m addr old bs (v : Z -> Z) body :
  m !! addr = Some old -> Z.of_nat (length old) = bs ->
  (forall ei c, 0 <= ei < bs -> length c = length old ->
     (forall j, ei <= j < bs -> nthZ c j = nthZ old j) ->
     body ei (<[addr := c]> m) = byte_set (<[addr := c]> m) addr ei (v ei)) ->
  for_up 0 bs body m = Some (<[addr := v <$> seqZ 0 bs]> m).
Proof.
  intros Hm Hl Hb.
  destruct (fill_loop (fun (_ : ()) m => m) (fun _ => True) m addr old bs v body tt)
    as ([] & E & _); [done|done|done| |done].
  intros ei c [] Hei _ Hlc Hold. exists tt. split; [done|]. rewrite Hb by done.
  symmetry. apply bind_with_Some.
Qed.

Lemma addr_ne bufs i j b b' :
  NoDup (b_addr <$> bufs) -> arr_get bufs i = Some b -> arr_get bufs j = Some b' -> i <> j ->
  b_addr b <> b_addr b'.
Proof.
  intros Hnd [? Hb]%arr_get_Some [? Hb']%arr_get_Some Hij E. apply Hij.
  assert (Z.to_nat i = Z.to_nat j) as Hn; [|lia].
  eapply (NoDup_lookup _ _ _ (b_addr b)); [exact Hnd| |]; rewrite list_lookup_fmap.
  - by rewrite Hb.
  - by rewrite Hb', E.
Qed.

Lemma arr_get_app_l {A} (l1 l2 : list A) i :
  i < Z.of_nat (length l1) -> arr_get (l1 ++ l2) i = arr_get l1 i.
Proof. intros. unfold arr_get. zcases; [|done]. apply lookup_app_l. lia. Qed.

Lemma arr_get_app_r {A} (l1 l2 : list A) i :
  Z.of_nat (length l1) <= i -> arr_get (l1 ++ l2) i = arr_get l2 (i - Z.of_nat (length l1)).
Proof.
  intros. unfold arr_get. zcases; try lia. rewrite lookup_app_r by lia. f_equal. lia.
Qed.

Lemma rowZ_app_l l1 l2 i : 0 <= i < Z.of_nat (length l1) -> rowZ (l1 ++ l2) i = rowZ l1 i.
Proof. intros. apply lookup_total_app_l. lia. Qed.

Lemma rowZ_app_r l1 l2 i :
  Z.of_nat (length l1) <= i -> rowZ (l1 ++ l2) i = rowZ l2 (i - Z.of_nat (length l1)).
Proof. intros. unfold rowZ. rewrite lookup_total_app_r by lia. f_equal. lia. Qed.

Lemma rowZ_bytes m bs bufs cs i j :
  holds m bs bufs cs -> 0 <= i < Z.of_nat (length cs) -> byte (nthZ (rowZ cs i) j).
Proof.
  intros H Hi. destruct (holds_get _ _ _ _ i H Hi) as (b & _ & _ & _ & _ & Hby).
  apply Forall_nthZ; [unfold byte; lia|done].
Qed.

(** The units flagged as failed and the others, in increasing order. *)
Definition failed_units (fail : list Z) (n : Z) : list Z :=
  filter (fun u => nthZ fail u <> 0) (seqZ 0 n).

Definition alive_units (fail : list Z) (n : Z) : list Z :=
  filter (fun u => nthZ fail u = 0) (seqZ 0 n).

Lemma failed_units_succ fail n :
  0 <= n -> failed_units fail (n + 1) =
  failed_units fail n ++ if nthZ fail n =? 0 then [] else [n].
Proof.
  intros. unfold failed_units. rewrite seqZ_snoc, filter_app by done. f_equal.
  rewrite filter_cons, filter_nil. zcases; [by rewrite decide_False by lia|by rewrite decide_True].
Qed.

Lemma alive_units_succ fail n :
  0 <= n -> alive_units fail (n + 1) =
  alive_units fail n ++ if nthZ fail n =? 0 then [n] else [].
Proof.
  intros. unfold alive_units. rewrite seqZ_snoc, filter_app by done. f_equal.
  rewrite filter_cons, filter_nil. zcases; [by rewrite decide_True|by rewrite decide_False].
Qed.

Lemma units_length fail n :
  0 <= n ->
  Z.of_nat (length (failed_units fail n)) + Z.of_nat (length (alive_units fail n)) = n.
Proof.
  revert n. apply xsum_ind; [done|]. intros n Hn IH.
  rewrite failed_units_succ, alive_units_succ, !length_app by done.
  zcases; simpl; lia.
Qed.

Lemma fails_count_ok fail n :
  Z.of_nat (length fail) = n -> is_u32 n ->
  fails_count fail n = Some (Z.of_nat (length (failed_units fail n))).
Proof.
  intros Hl Hn. unfold is_u32 in Hn. unfold fails_count.
  edestruct (for_up_total (fun x c => c = Z.of_nat (length (failed_units fail x))))
    as (c & E & ->); [| | |exact E]; [lia|done|].
  intros j c Hj ->. rewrite nthZ_get by lia. eexists. split; [done|].
  rewrite failed_units_succ, length_app by lia.
  pose proof (units_length fail j ltac:(lia)).
  rewrite u32_small; [|unfold is_u32]; zcases; simpl; lia.
Qed.

(** ** The XOR code *)

Section xor.
Context (math : m0_parity_math) (data : list m0_buf) (p0 : m0_buf) (cs : list (list Z)) (bs : Z).
Let k := pmi_data_count math.
Hypothesis Hk : 1 <= k.
Hypothesis Hcs : Z.of_nat (length cs) = k.
Hypothesis Hbs : is_u32 bs.
Hypothesis Hnd : NoDup (b_addr <$> data ++ [p0]).

Let P := xor_block bs cs.

Lemma xor_block_nth ei :
  0 <= ei < bs -> nthZ P ei = xsum k (fun ui => nthZ (rowZ cs ui) ei).
Proof. intros. unfold P, xor_block. rewrite nthZ_map, Hcs by done. done. Qed.

Lemma xor_block_length : Z.of_nat (length P) = bs.
Proof. unfold P, xor_block. rewrite length_fmap, length_seqZ. unfold is_u32 in Hbs. lia. Qed.

(** Bytes of the data units other than the block being written. *)
Lemma data_byte m ui addr c ei :
  holds m bs data cs -> 0 <= ui < k -> 0 <= ei < bs ->
  (forall d, arr_get data ui = Some d -> b_addr d <> addr) ->
  (d ← arr_get data ui; byte_get (<[addr := c]> m) (b_addr d) ei) = Some (nthZ (rowZ cs ui) ei).
Proof.
  intros H Hui Hei Hne. destruct (holds_get _ _ _ _ ui H) as (d & Hd & _ & Hm & Hl & _); [lia|].
  rewrite Hd. cbn [mbind option_bind]. apply byte_get_ok; [|lia].
  rewrite lookup_insert_ne; [done|]. intros E. by eapply Hne.
Qed.

Lemma xor_calculate_ok m old :
  holds m bs data cs -> b_nob p0 = bs -> m !! b_addr p0 = Some old ->
  Z.of_nat (length old) = bs ->
  xor_calculate math data [p0] m = Some (<[b_addr p0 := P]> m).
Proof.
  intros H Hn Hm Hl. unfold xor_calculate. fold k.
  destruct (holds_get _ _ _ _ 0 H) as (d0 & -> & Hd0 & _); [lia|]. cbn [mbind option_bind].
  rewrite Hd0, u32_small by done. change (arr_get [p0] 0) with (Some p0). cbn [mbind option_bind].
  rewrite Hn. assert_ok by lia. rewrite (block_sizes_ok m bs data cs) by (done || lia).
  cbn [mbind option_bind].
  rewrite (fill_block m (b_addr p0) old bs
    (fun ei => xsum k (fun ui => nthZ (rowZ cs ui) ei))); try done.
  { unfold P, xor_block. by rewrite Hcs. }
  intros ei c Hei Hlc _.
  rewrite (xsum_loop k (fun ui => nthZ (rowZ cs ui) ei)); [| lia |].
  - cbn [mbind option_bind]. rewrite u8_byte; [done|].
    apply xsum_byte. intros. eapply rowZ_bytes; [done|lia].
  - intros ui pe Hui. pose proof (data_byte m ui (b_addr p0) c ei H Hui Hei) as Hb.
    destruct (arr_get data ui) as [d|] eqn:Ed; cbn [mbind option_bind] in *.
    + rewrite Hb; [done|]. intros d' [= ->].
      eapply (addr_ne (data ++ [p0]) ui k); [done| | |lia].
      * rewrite arr_get_app_l; [exact Ed|]. apply arr_get_range in Ed. lia.
      * apply arr_get_middle. rewrite (holds_length _ _ _ _ H). lia.
    + discriminate Hb. naive_solver.
Qed.

(** The units of the group after the calculation, [f] the failed one. *)
Section recover.
Context (m : blocks) (f : Z) (junk : list Z).
Hypothesis Hg : holds m bs (data ++ [p0]) (cs ++ [P]).
Hypothesis Hf : 0 <= f <= k.
Hypothesis Hjunk : Z.of_nat (length junk) = bs.

Lemma xor_group_data : holds m bs data cs.
Proof.
  apply Forall2_app_inv in Hg as [H _]; [done|].
  apply holds_length in Hg. rewrite !length_app in Hg. simpl in Hg. lia.
Qed.

Lemma xor_group_parity :
  b_nob p0 = bs /\ m !! b_addr p0 = Some P.
Proof.
  destruct (holds_get _ _ _ _ k Hg) as (b & Hb & Hn & Hm & _).
  { rewrite length_app. simpl. lia. }
  rewrite rowZ_app_r, Hcs, Z.sub_diag in Hm by lia.
  rewrite arr_get_middle in Hb by (rewrite (holds_length _ _ _ _ xor_group_data); lia).
  by injection Hb as ->.
Qed.

Lemma xor_group_get ui :
  0 <= ui < k ->
  exists d, arr_get data ui = Some d /\ arr_get (data ++ [p0]) ui = Some d /\ b_nob d = bs /\
    m !! b_addr d = Some (rowZ cs ui) /\ Z.of_nat (length (rowZ cs ui)) = bs.
Proof.
  intros Hui.
  destruct (holds_get _ _ _ _ ui xor_group_data) as (d & Hd & Hn & Hm & Hl & _); [lia|].
  exists d. repeat split; try done. rewrite arr_get_app_l; [done|].
  rewrite (holds_length _ _ _ _ xor_group_data). lia.
Qed.

Lemma xor_group_last : arr_get (data ++ [p0]) k = Some p0.
Proof. apply arr_get_middle. rewrite (holds_length _ _ _ _ xor_group_data). lia. Qed.

(** The exclusive or of the surviving data units at a byte. *)
Definition xor_alive (ei : Z) : Z := xsum k (fun ui => if ui =? f then 0 else nthZ (rowZ cs ui) ei).

Lemma xor_alive_byte ei : byte (xor_alive ei).
Proof.
  apply xsum_byte. intros. zcases; [unfold byte; lia|].
  eapply rowZ_bytes; [apply xor_group_data|lia].
Qed.

(** The unit [f], its block, and the byte the code stores into it. *)
Definition failed_unit : m0_buf := if f =? k then p0 else default p0 (arr_get data f).

Definition failed_row : list Z := rowZ (cs ++ [P]) f.

Lemma failed_unit_get : arr_get (data ++ [p0]) f = Some failed_unit.
Proof.
  unfold failed_unit. destruct (Z.eqb_spec f k) as [->|]; [apply xor_group_last|].
  destruct (xor_group_get f) as (d & -> & Hd & _); [lia|done].
Qed.

Lemma failed_row_ok :
  m !! b_addr failed_unit = Some failed_row /\ Z.of_nat (length failed_row) = bs.
Proof.
  destruct (holds_get _ _ _ _ f Hg) as (b & Hb & _ & Hm & Hl & _).
  { rewrite length_app. simpl. lia. }
  rewrite failed_unit_get in Hb. by injection Hb as <-.
Qed.

Lemma failed_row_data ei :
  f < k -> 0 <= ei < bs -> Z.lxor (xor_alive ei) (nthZ P ei) = nthZ failed_row ei.
Proof.
  intros Hfk Hei. unfold failed_row. rewrite rowZ_app_l by lia. rewrite xor_block_nth by done.
  rewrite (xsum_split k f) by lia. fold (xor_alive ei).
  by rewrite (Z.lxor_comm (nthZ _ _)), <- Z.lxor_assoc, Z.lxor_nilpotent.
Qed.

Lemma failed_row_parity ei : f = k -> 0 <= ei < bs -> xor_alive ei = nthZ failed_row ei.
Proof.
  intros Hfk Hei. unfold failed_row. rewrite rowZ_app_r, Hfk, Hcs, Z.sub_diag by lia.
  change (rowZ [P] 0) with P. rewrite xor_block_nth by done. unfold xor_alive.
  apply xsum_ext. intros i Hi. zcases; [lia|done].
Qed.

(** A read of a surviving data unit while the failed one is being rebuilt. *)
Lemma alive_byte c ui ei :
  0 <= ui < k -> ui <> f -> 0 <= ei < bs ->
  (d ← arr_get data ui; byte_get (<[b_addr failed_unit := c]> m) (b_addr d) ei) =
  Some (nthZ (rowZ cs ui) ei).
Proof.
  intros Hui Hne Hei. apply data_byte; [apply xor_group_data|done|done|]. intros d Hd.
  destruct (xor_group_get ui Hui) as (d' & Hd' & Hu & _). assert (d' = d) as -> by congruence.
  by eapply addr_ne; [exact Hnd|exact Hu|exact failed_unit_get|].
Qed.

Lemma parity_byte c ei :
  f < k -> 0 <= ei < bs ->
  byte_get (<[b_addr failed_unit := c]> m) (b_addr p0) ei = Some (nthZ P ei).
Proof.
  intros Hfk Hei. apply byte_get_ok; [|rewrite xor_block_length; lia].
  rewrite lookup_insert_ne; [apply xor_group_parity|].
  eapply addr_ne; [exact Hnd|exact failed_unit_get|exact xor_group_last|lia].
Qed.

(** Rebuilding the failed unit byte by byte restores the store. *)
Lemma rebuild_loop {X St} (emb : X -> blocks -> St) (Q : X -> Prop) body x :
  Q x ->
  (forall ei c x, 0 <= ei < bs -> Q x -> exists x', Q x' /\
     body ei (emb x (<[b_addr failed_unit := c]> m)) =
       (m' ← byte_set (<[b_addr failed_unit := c]> m) (b_addr failed_unit) ei (nthZ failed_row ei);
        Some (emb x' m'))) ->
  exists x', for_up 0 bs body (emb x (<[b_addr failed_unit := junk]> m)) = Some (emb x' m).
Proof.
  intros HQ Hb. destruct failed_row_ok as [Hm Hl].
  edestruct (fill_loop emb Q (<[b_addr failed_unit := junk]> m) (b_addr failed_unit) junk bs
    (nthZ failed_row) body x) as (x' & E & _); try done.
  - by rewrite lookup_insert_eq.
  - intros ei c y Hei Hy _ _. rewrite insert_insert_eq. by apply Hb.
  - exists x'. rewrite E, insert_insert_eq, map_nthZ by done. by rewrite insert_id.
Qed.

Lemma xor_group_sizes :
  exists d0, arr_get data 0 = Some d0 /\ u32 (b_nob d0) = bs /\
    block_sizes_assert data 1 k bs = Some tt.
Proof.
  destruct (xor_group_get 0) as (d0 & Hd & _ & Hn & _); [lia|]. exists d0.
  rewrite Hn, u32_small by done. split; [done|]. split; [done|].
  eapply block_sizes_ok; [apply xor_group_data|lia|lia].
Qed.

Hypothesis HK : pmi_parity_count math = 1.
Hypothesis HKmax : k < 2 ^ 31.

(** The flags that mark unit [f] alone as failed. *)
Definition fail_flags : list Z := (fun u => if u =? f then 1 else 0) <$> seqZ 0 (k + 1).

Lemma fail_flags_get u : 0 <= u <= k -> arr_get fail_flags u = Some (if u =? f then 1 else 0).
Proof.
  intros. unfold fail_flags. rewrite nthZ_get by (rewrite length_fmap, length_seqZ; lia).
  by rewrite nthZ_map by lia.
Qed.

Lemma fail_flags_count : fails_count fail_flags (k + 1) = Some 1.
Proof.
  rewrite fails_count_ok.
  - assert (forall n, 0 <= n -> n <= k + 1 ->
      failed_units fail_flags n = if f <? n then [f] else []) as H.
    { apply (xsum_ind (fun n => n <= k + 1 -> _)).
      - intros _. by replace (f <? 0) with false by (symmetry; apply Z.ltb_ge; lia).
      - intros n Hn IH Hle. rewrite failed_units_succ, IH by lia.
        rewrite (nthZ_of_get _ _ _ (fail_flags_get n ltac:(lia))).
        destruct (Z.eqb_spec n f); subst; cbn; zcases; try lia; done. }
    rewrite H by lia. by replace (f <? k + 1) with true by (symmetry; apply Z.ltb_lt; lia).
  - unfold fail_flags. rewrite length_fmap, length_seqZ. lia.
  - unfold is_u32. lia.
Qed.

(** The inner loop of xor_recover(). *)
Lemma xor_recover_inner c fi ei :
  0 <= ei < bs ->
  for_up 0 k (fun ui '(pe, fail_index) =>
      x ← arr_get fail_flags ui;
      if negb (x =? 1) then
        d ← arr_get data ui;
        y ← byte_get (<[b_addr failed_unit := c]> m) (b_addr d) ei;
        Some (Z.lxor pe y, fail_index)
      else Some (pe, ui)) (0, fi) = Some (xor_alive ei, if f <? k then f else fi).
Proof.
  intros Hei. unfold xor_alive.
  edestruct (for_up_total (fun j '(pe, i) =>
    pe = xsum j (fun ui => if ui =? f then 0 else nthZ (rowZ cs ui) ei) /\
    i = if f <? j then f else fi)) as ([pe i] & E & -> & ->); [| | |exact E]; [lia| |].
  - split; [done|]. by replace (f <? 0) with false by (symmetry; apply Z.ltb_ge; lia).
  - intros j [pe i] Hj [-> ->]. rewrite fail_flags_get by lia. cbn [mbind option_bind].
    destruct (Z.eqb_spec j f) as [->|Hne]; cbn.
    + eexists (_, f). split; [done|]. rewrite xsum_succ, Z.eqb_refl, Z.lxor_0_r by lia.
      by replace (f <? f + 1) with true by (symmetry; apply Z.ltb_lt; lia).
    + pose proof (alive_byte c j ei Hj Hne Hei) as Hb.
      destruct (arr_get data j) as [d|]; cbn [mbind option_bind] in *; [|done]. rewrite Hb.
      eexists (_, _). split; [done|]. rewrite xsum_succ by lia.
      replace (j =? f) with false by (symmetry; by apply Z.eqb_neq). split; [done|].
      zcases; try lia; done.
Qed.

(** The inner loop of fail_idx_xor_recover(). *)
Lemma fail_idx_inner c ei :
  0 <= ei < bs ->
  for_up 0 k (fun ui pe =>
      if negb (ui =? f) then
        d ← arr_get data ui;
        y ← byte_get (<[b_addr failed_unit := c]> m) (b_addr d) ei;
        Some (Z.lxor pe y)
      else Some pe) 0 = Some (xor_alive ei).
Proof.
  intros Hei. apply xsum_loop; [lia|]. intros ui pe Hui.
  destruct (Z.eqb_spec ui f) as [->|Hne]; cbn [negb]; [by rewrite Z.lxor_0_r|].
  pose proof (alive_byte c ui ei Hui Hne Hei) as Hb.
  destruct (arr_get data ui) as [d|]; cbn [mbind option_bind] in *; [|done]. by rewrite Hb.
Qed.

Lemma failed_unit_data : f < k -> arr_get data f = Some failed_unit.
Proof.
  intros. rewrite <- failed_unit_get, arr_get_app_l; [done|].
  rewrite (holds_length _ _ _ _ xor_group_data). lia.
Qed.

Lemma failed_unit_parity : f = k -> failed_unit = p0.
Proof. unfold failed_unit. intros Hfk. by replace (f =? k) with true by (symmetry; by apply Z.eqb_eq). Qed.

Lemma failed_byte ei : byte (nthZ failed_row ei).
Proof.
  apply Forall_nthZ; [unfold byte; lia|].
  destruct (holds_get _ _ _ _ f Hg) as (b & _ & _ & _ & _ & Hby); [|done].
  rewrite length_app. simpl. lia.
Qed.

Lemma xor_recover_ok :
  xor_recover math data [p0] fail_flags (<[b_addr failed_unit := junk]> m) = Some (0, m).
Proof.
  unfold xor_recover. destruct xor_group_sizes as (d0 & -> & Hn & Hs). fold k.
  cbn [mbind option_bind]. rewrite Hn, HK. rewrite (u32_small (k + 1)) by (unfold is_u32; lia).
  run fail_flags_count. assert_ok by lia. assert_ok by lia.
  change (arr_get [p0] 0) with (Some p0). cbn [mbind option_bind].
  rewrite (proj1 xor_group_parity). assert_ok by lia. run Hs.
  edestruct (rebuild_loop (fun (fi : Z) m => (m, fi)) (fun _ => True)) as (fi & E); [done| |].
  2:{ rewrite E. done. }
  intros ei c fi Hei _. eexists. split; [done|]. cbn beta iota.
  run (xor_recover_inner c fi ei Hei). run (fail_flags_get k) by lia.
  destruct (Z.eqb_spec k f) as [Hkf|Hkf]; cbn [negb Z.eqb Pos.eqb].
  - rewrite (failed_unit_parity ltac:(lia)), (failed_row_parity ei) by lia.
    rewrite u8_byte by apply failed_byte. reflexivity.
  - replace (f <? k) with true by (symmetry; apply Z.ltb_lt; lia).
    replace (f =? BAD_FAIL_INDEX) with false by (symmetry; apply Z.eqb_neq; lia).
    cbn [negb M0_ASSERT mbind option_bind]. run failed_unit_data by lia.
    run parity_byte by lia. rewrite failed_row_data by lia.
    rewrite u8_byte by apply failed_byte. reflexivity.
Qed.

Lemma fail_idx_xor_recover_ok :
  fail_idx_xor_recover math data [p0] f (<[b_addr failed_unit := junk]> m) = Some m.
Proof.
  unfold fail_idx_xor_recover. destruct xor_group_sizes as (d0 & -> & Hn & Hs). fold k.
  cbn [mbind option_bind]. rewrite Hn, HK. rewrite (u32_small (k + 1)) by (unfold is_u32; lia).
  change (arr_get [p0] 0) with (Some p0). cbn [mbind option_bind].
  rewrite (proj1 xor_group_parity). assert_ok by lia. assert_ok by lia. run Hs.
  match goal with |- for_up _ _ ?body _ = _ =>
    destruct (rebuild_loop (fun (_ : ()) m => m) (fun _ => True) body tt) as ([] & E);
      [done| |exact E]
  end.
  intros ei c [] Hei _. exists tt. split; [done|]. cbn beta.
  run (fail_idx_inner c ei Hei).
  destruct (Z.eqb_spec k f) as [Hkf|Hkf]; cbn [negb].
  - rewrite (failed_unit_parity ltac:(lia)), (failed_row_parity ei) by lia.
    rewrite u8_byte by apply failed_byte. symmetry. apply bind_with_Some.
  - run failed_unit_data by lia. run parity_byte by lia. rewrite failed_row_data by lia.
    rewrite u8_byte by apply failed_byte. symmetry. apply bind_with_Some.
Qed.

End recover.

End xor.

(** *** Differential update *)

Lemma lxor_swap x y r : Z.lxor y r = Z.lxor (Z.lxor x r) (Z.lxor x y).
Proof.
  rewrite (Z.lxor_comm x r), Z.lxor_assoc, <- (Z.lxor_assoc x x), Z.lxor_nilpotent, Z.lxor_0_l.
  apply Z.lxor_comm.
Qed.

Lemma xor_block_update bs cs i c ei :
  0 <= i < Z.of_nat (length cs) -> 0 <= ei < bs ->
  nthZ (xor_block bs (<[Z.to_nat i := c]> cs)) ei =
  Z.lxor (nthZ (xor_block bs cs) ei) (Z.lxor (nthZ (rowZ cs i) ei) (nthZ c ei)).
Proof.
  intros Hi Hei. unfold xor_block. rewrite !nthZ_map, length_insert by done.
  set (n := Z.of_nat (length cs)) in *.
  rewrite (xsum_split n i (fun ui => nthZ (rowZ cs ui) ei)) by done.
  rewrite (xsum_split n i (fun ui => nthZ (rowZ (<[Z.to_nat i:=c]> cs) ui) ei)) by done.
  unfold rowZ at 1. rewrite list_lookup_total_insert_eq by lia. fold (rowZ cs i).
  erewrite (xsum_ext n) with (g := fun j => if j =? i then 0 else nthZ (rowZ cs j) ei).
  - apply lxor_swap.
  - intros j Hj. cbn beta. zcases; [done|]. unfold rowZ. by rewrite list_lookup_total_insert_ne by lia.
Qed.

Lemma xor_diff_ok math old new p0 i o n cs c bs m :
  0 <= i < Z.of_nat (length cs) -> pmi_data_count math = Z.of_nat (length cs) -> is_u32 bs ->
  arr_get old i = Some o -> arr_get new i = Some n ->
  b_nob o = bs -> b_nob n = bs -> b_nob p0 = bs ->
  m !! b_addr o = Some (rowZ cs i) -> m !! b_addr n = Some c ->
  m !! b_addr p0 = Some (xor_block bs cs) ->
  Z.of_nat (length (rowZ cs i)) = bs -> Z.of_nat (length c) = bs ->
  Forall (Forall byte) cs -> Forall byte c ->
  b_addr o <> b_addr p0 -> b_addr n <> b_addr p0 ->
  xor_diff math old new [p0] i m =
  Some (0, <[b_addr p0 := xor_block bs (<[Z.to_nat i := c]> cs)]> m).
Proof.
  intros Hi Hk Hbs Ho Hn Hob Hnb Hpb Hmo Hmn Hmp Hlo Hln Hby Hc Hop Hnp. unfold is_u32 in Hbs.
  assert (forall cs, Z.of_nat (length (xor_block bs cs)) = bs) as Hlx
    by (intros; unfold xor_block; rewrite length_fmap, length_seqZ; lia).
  unfold xor_diff. rewrite Hk. assert_ok by lia. run Ho. run Hn.
  change (arr_get [p0] 0) with (Some p0). cbn [mbind option_bind]. rewrite Hob, Hnb, Hpb.
  assert_ok by lia.
  rewrite (fill_block m (b_addr p0) (xor_block bs cs) bs
    (nthZ (xor_block bs (<[Z.to_nat i:=c]> cs)))); [by rewrite map_nthZ by apply Hlx|done|apply Hlx|].
  intros ei c' Hei Hlc Hold. pose proof (Hlx cs).
  run (byte_get_ok _ (b_addr p0) c' ei (lookup_insert_eq _ _ _)) by lia.
  run (byte_get_ok _ (b_addr o) (rowZ cs i) ei) by (by rewrite lookup_insert_ne || lia).
  run (byte_get_ok _ (b_addr n) c ei) by (by rewrite lookup_insert_ne || lia).
  rewrite Hold by lia. rewrite <- xor_block_update by done. rewrite u8_byte; [done|].
  apply Forall_nthZ; [unfold byte; lia|]. unfold xor_block. apply Forall_fmap, Forall_seqZ.
    intros x Hx. apply xsum_byte. intros ui Hui. apply Forall_nthZ; [unfold byte; lia|].
    rewrite length_insert in Hui. unfold rowZ. eapply Forall_lookup_1;
      [|apply list_lookup_lookup_total_lt; rewrite length_insert; lia].
    by apply Forall_insert.
Qed.

(** *** Properties *)

(** C26. One parity unit: after m0_parity_math_init() and
    m0_parity_math_calculate(), which leaves the data units alone and stores
    their exclusive or in the parity unit, any one unit of the group, data or
    parity, may be overwritten: both m0_parity_math_recover() with the flag of
    that unit set and m0_parity_math_fail_index_recover() with its index return
    and restore the contents of every buffer. *)
Theorem xor_group_recovery {isal : ISAL} mem k math data p0 m bs cs old :
  m0_parity_math_init mem k 1 = Some (0, math) ->
  Z.of_nat (length cs) = k -> is_u32 bs -> NoDup (b_addr <$> data ++ [p0]) ->
  holds m bs data cs ->
  b_nob p0 = bs -> m !! b_addr p0 = Some old -> Z.of_nat (length old) = bs ->
  let m1 := <[b_addr p0 := xor_block bs cs]> m in
  m0_parity_math_calculate math data [p0] m = Some (math, m1) /\
  forall f unit junk mem', arr_get (data ++ [p0]) f = Some unit -> Z.of_nat (length junk) = bs ->
    m0_parity_math_recover mem' math data [p0]
      ((fun u => if u =? f then 1 else 0) <$> seqZ 0 (k + 1))
      (<[b_addr unit := junk]> m1) = Some (0, math, m1) /\
    m0_parity_math_fail_index_recover math data [p0] f (<[b_addr unit := junk]> m1) = Some m1.
Proof.
  intros Hinit Hk Hbs Hnd Hd Hn Hm Hl m1. unfold m0_parity_math_init in Hinit.
  apply bind_Some in Hinit as ([] & Hinv & [= <-]). apply M0_ASSERT_Some in Hinv.
  unfold parity_math_invariant in Hinv. cbn in Hinv. boolp.
  change SNS_PARITY_MATH_DATA_BLOCKS_MAX with 128 in *.
  assert (length data = length cs) as Hdl by by eapply holds_length.
  assert (Hdp : forall b, b ∈ data -> b_addr b <> b_addr p0).
  { intros b [i Hb]%list_elem_of_lookup E. rewrite fmap_app in Hnd.
    apply NoDup_app in Hnd as (_ & Hnd & _). apply (Hnd (b_addr p0)); [|by apply list_elem_of_singleton].
    rewrite <- E. apply list_elem_of_fmap_2. by eapply list_elem_of_lookup_2. }
  assert (holds m1 bs (data ++ [p0]) (cs ++ [xor_block bs cs])) as Hg.
  { apply Forall2_app; [|apply Forall2_cons; split; [|by apply Forall2_nil]].
    - eapply holds_mono; [done|]. intros b Hb. unfold m1. rewrite lookup_insert_ne; [done|].
      intros E. by eapply Hdp.
    - unfold m1, xor_block. rewrite lookup_insert_eq, length_fmap, length_seqZ.
      unfold is_u32 in Hbs. repeat split; try done; [lia|]. apply Forall_fmap, Forall_seqZ.
      intros x Hx. apply xsum_byte. intros. by eapply rowZ_bytes. }
  set (math := {| pmi_parity_algo := _ |}). split.
  - unfold m0_parity_math_calculate. cbn [pmi_parity_algo math].
    by run (xor_calculate_ok math data p0 cs bs ltac:(cbn; lia) Hk Hbs Hnd m old).
  - intros f u junk mem' Hu Hjl. pose proof (arr_get_range _ _ _ Hu) as Hf.
    rewrite length_app in Hf. simpl in Hf.
    assert (0 <= f <= pmi_data_count math) as Hf' by (cbn; lia).
    assert (arr_get (data ++ [p0]) f = Some (failed_unit math data p0 f)) as Hfu
      by by eapply failed_unit_get.
    rewrite Hu in Hfu. injection Hfu as ->.
    unfold m0_parity_math_recover, m0_parity_math_fail_index_recover. cbn [pmi_parity_algo math].
    assert (pmi_data_count math < 2 ^ 31) as Hmax by (cbn; lia). split.
    + change ((fun u => _) <$> _) with (fail_flags math f).
      by erewrite xor_recover_ok by done.
    + by eapply fail_idx_xor_recover_ok.
Qed.

Lemma holds_insert m bs bufs cs i b c :
  holds m bs bufs cs -> b_nob b = bs -> m !! b_addr b = Some c -> Z.of_nat (length c) = bs ->
  Forall byte c -> holds m bs (<[i := b]> bufs) (<[i := c]> cs).
Proof. intros. by apply Forall2_insert. Qed.

Lemma NoDup_insert_fresh {A} (l : list A) i x : NoDup (x :: l) -> NoDup (<[i := x]> l).
Proof.
  intros [Hx Hl]%NoDup_cons. apply NoDup_alt. intros j1 j2 y H1 H2.
  rewrite list_lookup_insert_Some in H1, H2.
  destruct H1 as [(-> & Hy & _)|[_ H1]], H2 as [(-> & Hy' & _)|[_ H2]]; try done.
  - destruct Hx. rewrite Hy. by eapply list_elem_of_lookup_2.
  - destruct Hx. rewrite Hy'. by eapply list_elem_of_lookup_2.
  - by eapply NoDup_lookup.
Qed.

(** One parity unit: when unit [i] of a group with consistent parity gets a
    new version in another buffer, m0_parity_math_diff() returns 0 and leaves
    the store exactly as m0_parity_math_calculate() on the group with the new
    version would. *)
Theorem xor_diff_recalculates {isal : ISAL} mem mem' k math old new p0 i n cs c bs m :
  m0_parity_math_init mem k 1 = Some (0, math) ->
  Z.of_nat (length cs) = k -> is_u32 bs -> 0 <= i < k ->
  NoDup (b_addr n :: (b_addr <$> old ++ [p0])) ->
  holds m bs old cs -> b_nob p0 = bs -> m !! b_addr p0 = Some (xor_block bs cs) ->
  arr_get new i = Some n -> b_nob n = bs -> m !! b_addr n = Some c ->
  Z.of_nat (length c) = bs -> Forall byte c ->
  exists m1, m0_parity_math_diff mem' math old new [p0] i m = Some (0, m1) /\
    m0_parity_math_calculate math (<[Z.to_nat i := n]> old) [p0] m = Some (math, m1).
Proof.
  intros Hinit Hk Hbs Hi Hnd Hd Hpb Hmp Hn Hnb Hmn Hlc Hbc.
  unfold m0_parity_math_init in Hinit.
  apply bind_Some in Hinit as ([] & Hinv & [= <-]). set (math := {| pmi_parity_algo := _ |}).
  destruct (holds_get _ _ _ _ i Hd) as (o & Ho & Hob & Hmo & Hlo & _); [lia|].
  assert (arr_get (old ++ [p0]) k = Some p0) as Hlast
    by (apply arr_get_middle; rewrite (holds_length _ _ _ _ Hd); lia).
  pose proof (arr_get_range _ _ _ Ho).
  exists (<[b_addr p0 := xor_block bs (<[Z.to_nat i := c]> cs)]> m). split.
  - apply (xor_diff_ok math old new p0 i o n cs c bs m); try done; try (cbn; lia).
    + apply Forall_forall. intros r [j Hj]%list_elem_of_lookup.
      by destruct (Forall2_lookup_r _ _ _ _ _ Hd Hj) as (? & _ & _ & _ & _ & ?).
    + apply NoDup_cons in Hnd as [_ Hnd].
      apply (addr_ne (old ++ [p0]) i k); [exact Hnd| |exact Hlast|lia].
      rewrite arr_get_app_l by lia. done.
    + apply NoDup_cons in Hnd as [Hnin _]. intros E. apply Hnin. rewrite E.
      apply list_elem_of_fmap_2, elem_of_app. right. by apply list_elem_of_singleton.
  - unfold m0_parity_math_calculate. cbn [pmi_parity_algo math].
    rewrite (xor_calculate_ok math (<[Z.to_nat i := n]> old) p0 (<[Z.to_nat i := c]> cs) bs)
      with (old := xor_block bs cs); try done; try (cbn; rewrite ?length_insert; lia).
    + rewrite <- insert_app_l by lia. rewrite list_fmap_insert. by apply NoDup_insert_fresh.
    + by apply holds_insert.
    + unfold xor_block. rewrite length_fmap, length_seqZ. unfold is_u32 in Hbs. lia.
Qed.

(** A group of two data units and one parity unit, of three bytes each. *)
Definition example_isal : ISAL :=
  {| gf_mul _ _ := 0; gf_gen_cauchy1_matrix _ _ := []; gf_invert_matrix _ _ := None;
     ec_init_tables _ _ _ := []; ec_encode_data _ _ _ _ _ := [];
     ec_encode_data_update _ _ _ _ _ _ _ := [] |}.

Definition example_xor_math : m0_parity_math :=
  {| pmi_parity_algo := M0_PARITY_CAL_ALGO_XOR; pmi_data_count := 2; pmi_parity_count := 1;
     pmi_rs := zero_rs |}.

Definition example_buf (addr : Z) : m0_buf := {| b_nob := 3; b_addr := addr |}.

Definition example_store : blocks :=
  <[1 := [1; 2; 255]]> (<[2 := [7; 0; 128]]> (<[3 := [6; 2; 127]]> (<[4 := [0; 9; 200]]> ∅))).

Lemma example_holds :
  holds example_store 3 [example_buf 1; example_buf 2] [[1; 2; 255]; [7; 0; 128]].
Proof. repeat constructor; unfold byte; lia. Qed.

Lemma xor_group_recovery_witness :
  m0_parity_math_recover (isal := example_isal) (fun _ => false) example_xor_math
    [example_buf 1; example_buf 2] [example_buf 3] [0; 1; 0] (<[2 := [5; 5; 5]]> example_store) =
  Some (0, example_xor_math, example_store).
Proof.
  destruct (xor_group_recovery (isal := example_isal) (fun _ => false) 2 example_xor_math
    [example_buf 1; example_buf 2] (example_buf 3) example_store 3 [[1; 2; 255]; [7; 0; 128]]
    [6; 2; 127]) as [_ H].
  - reflexivity.
  - reflexivity.
  - unfold is_u32. lia.
  - apply (bool_decide_unpack _). vm_compute. exact I.
  - exact example_holds.
  - reflexivity.
  - reflexivity.
  - reflexivity.
  - exact (proj1 (H 1 (example_buf 2) [5; 5; 5] (fun _ => false) eq_refl eq_refl)).
Defined.

Lemma xor_diff_recalculates_witness :
  exists m1, m0_parity_math_diff (isal := example_isal) (fun _ => false) example_xor_math
      [example_buf 1; example_buf 2] [example_buf 1; example_buf 4] [example_buf 3] 1 example_store =
      Some (0, m1) /\
    m0_parity_math_calculate (isal := example_isal) example_xor_math
      [example_buf 1; example_buf 4] [example_buf 3] example_store = Some (example_xor_math, m1).
Proof.
  apply (xor_diff_recalculates (isal := example_isal) (fun _ => false) (fun _ => false) 2
    example_xor_math [example_buf 1; example_buf 2] [example_buf 1; example_buf 4] (example_buf 3) 1
    (example_buf 4) [[1; 2; 255]; [7; 0; 128]] [0; 9; 200] 3 example_store).
  - reflexivity.
  - reflexivity.
  - unfold is_u32. lia.
  - lia.
  - apply (bool_decide_unpack _). vm_compute. exact I.
  - exact example_holds.
  - reflexivity.
  - reflexivity.
  - reflexivity.
  - reflexivity.
  - reflexivity.
  - reflexivity.
  - repeat constructor; unfold byte; lia.
Defined.
