(* ===== verification/ParityRS.v ===== *)
(** * sns: correctness of the Reed-Solomon code

    Proofs about the Reed-Solomon part of ParityMath, src/sns/parity_math.c,
    from the documented behaviour of the ISA-L functions it calls ([ISALLaws]):
    the code reproduces every lost unit of a group from any [data_count]
    surviving ones, and the differential update agrees with recalculation.
    ParityGF shows that the laws can hold. *)
From S2P Require Import Prelude LibArith ParityMath.
#[local] Open Scope motr_scope.

(** ** Documented behaviour of the erasure code library *)

(** The [len] bytes of [rows] blocks coded from the [k] sources by the matrix
    [a] of coefficients. *)
Definition encode_blocks {isal : ISAL} (len k rows : Z) (a : list Z) (srcs : list (list Z))
  : list (list Z) :=
  (fun r => (fun x => xsum k (fun j => gf_mul (nthZ a (k * r + j)) (nthZ (rowZ srcs j) x)))
     <$> seqZ 0 len) <$> seqZ 0 rows.

(** The matrix of the given rows of a matrix with [k] columns. *)
Definition sub_matrix (k : Z) (a rows : list Z) : list Z :=
  (fun x => nthZ a (k * nthZ rows (x / k) + x mod k)) <$> seqZ 0 (k * k).

Definition block_ok (len : Z) (c : list Z) : Prop := Z.of_nat (length c) = len /\ Forall byte c.

(** What the code relies on for groups of [k] data and [p] parity units:
    multiplication is that of a field of bytes with exclusive or as addition;
    gf_gen_cauchy1_matrix() gives a matrix whose first [k] rows are the identity
    and of which any [k] rows can be inverted; gf_invert_matrix() returns an
    inverse; the coding functions compute with the matrix their tables were
    made from. *)
Class ISALLaws (isal : ISAL) (k p : Z) : Prop := {
  gf_mul_byte a b : byte a -> byte b -> byte (gf_mul a b);
  gf_mul_comm a b : byte a -> byte b -> gf_mul a b = gf_mul b a;
  gf_mul_assoc a b c : byte a -> byte b -> byte c ->
    gf_mul a (gf_mul b c) = gf_mul (gf_mul a b) c;
  gf_mul_lxor a b c : byte a -> byte b -> byte c ->
    gf_mul a (Z.lxor b c) = Z.lxor (gf_mul a b) (gf_mul a c);
  gf_mul_1 a : byte a -> gf_mul 1 a = a;
  cauchy_length : Z.of_nat (length (gf_gen_cauchy1_matrix (k + p) k)) = (k + p) * k;
  cauchy_byte : Forall byte (gf_gen_cauchy1_matrix (k + p) k);
  cauchy_identity i j : 0 <= i < k -> 0 <= j < k ->
    nthZ (gf_gen_cauchy1_matrix (k + p) k) (k * i + j) = if i =? j then 1 else 0;
  cauchy_invertible rows :
    Z.of_nat (length rows) = k -> StronglySorted Z.lt rows ->
    Forall (fun r => 0 <= r < k + p) rows ->
    is_Some (gf_invert_matrix (sub_matrix k (gf_gen_cauchy1_matrix (k + p) k) rows) k);
  gf_invert_ok a inv :
    Z.of_nat (length a) = k * k -> Forall byte a -> gf_invert_matrix a k = Some inv ->
    Z.of_nat (length inv) = k * k /\ Forall byte inv /\
    forall i j, 0 <= i < k -> 0 <= j < k ->
      xsum k (fun l => gf_mul (nthZ inv (k * i + l)) (nthZ a (k * l + j))) =
      if i =? j then 1 else 0;
  ec_init_tables_length rows a :
    1 <= rows <= p -> rows * k <= Z.of_nat (length a) ->
    Z.of_nat (length (ec_init_tables k rows a)) = 32 * k * rows;
  ec_encode_data_ok len rows a rest srcs :
    1 <= rows <= p -> rows * k <= Z.of_nat (length a) -> Forall byte a ->
    Z.of_nat (length srcs) = k -> Forall (block_ok len) srcs ->
    ec_encode_data len k rows (ec_init_tables k rows a ++ rest) srcs = encode_blocks len k rows a srcs;
  ec_encode_data_update_ok len rows i a rest src coding :
    1 <= rows <= p -> rows * k <= Z.of_nat (length a) -> Forall byte a -> 0 <= i < k ->
    block_ok len src -> Z.of_nat (length coding) = rows -> Forall (block_ok len) coding ->
    ec_encode_data_update len k rows i (ec_init_tables k rows a ++ rest) src coding =
    (fun r => (fun x => Z.lxor (nthZ (rowZ coding r) x) (gf_mul (nthZ a (k * r + i)) (nthZ src x)))
       <$> seqZ 0 len) <$> seqZ 0 rows
}.

(** ** Linear algebra over the field of bytes *)

Section field.
Context {isal : ISAL} {k p : Z} {laws : ISALLaws isal k p}.

Lemma byte_0 : byte 0.
Proof. unfold byte. lia. Qed.

Lemma byte_1 : byte 1.
Proof. unfold byte. lia. Qed.

Lemma mul_byte a b : byte a -> byte b -> byte (gf_mul a b).
Proof. apply gf_mul_byte. Qed.

#[local] Hint Resolve byte_0 byte_1 mul_byte : core.

Lemma gf_mul_0 a : byte a -> gf_mul a 0 = 0.
Proof.
  intros Ha. pose proof (gf_mul_lxor a 0 0 Ha byte_0 byte_0) as H.
  by rewrite !Z.lxor_nilpotent in H.
Qed.

Lemma xsum_mul_l n a f :
  byte a -> (forall i, 0 <= i < n -> byte (f i)) ->
  gf_mul a (xsum n f) = xsum n (fun i => gf_mul a (f i)).
Proof.
  intros Ha. destruct (Z.le_gt_cases 0 n) as [Hn|];
    [|by intros; unfold xsum; rewrite seqZ_nil by lia; apply gf_mul_0].
  revert n Hn. apply (xsum_ind (fun n => (forall i, 0 <= i < n -> _) -> _)).
  - intros. by apply gf_mul_0.
  - intros n Hn IH Hf. rewrite !xsum_succ by done.
    assert (byte (xsum n f)) by (apply xsum_byte; intros; apply Hf; lia).
    assert (byte (f n)) by (apply Hf; lia).
    rewrite gf_mul_lxor by done. rewrite IH; [done|]. intros. apply Hf. lia.
Qed.

Lemma xsum_mul_r n a f :
  byte a -> (forall i, 0 <= i < n -> byte (f i)) ->
  gf_mul (xsum n f) a = xsum n (fun i => gf_mul (f i) a).
Proof.
  intros Ha Hf. rewrite gf_mul_comm by auto with motr. rewrite xsum_mul_l by done.
  apply xsum_ext. intros. apply gf_mul_comm; auto.
Qed.

Lemma xsum_swap n l (f : Z -> Z -> Z) :
  0 <= n -> xsum n (fun i => xsum l (fun j => f i j)) = xsum l (fun j => xsum n (fun i => f i j)).
Proof.
  revert n. apply xsum_ind.
  - symmetry. apply xsum_zero.
  - intros n Hn IH. rewrite xsum_succ, IH, <- xsum_lxor by done. apply xsum_ext.
    intros. by rewrite xsum_succ.
Qed.

Lemma xsum_delta_mul n j (f : Z -> Z) :
  0 <= j < n -> (forall i, 0 <= i < n -> byte (f i)) ->
  xsum n (fun i => gf_mul (if j =? i then 1 else 0) (f i)) = f j.
Proof.
  intros Hj Hf. rewrite (xsum_ext n _ (fun i => if i =? j then f i else 0)); [by apply xsum_delta|].
  intros i Hi. rewrite (Z.eqb_sym j i). zcases.
  - apply gf_mul_1. by apply Hf.
  - rewrite gf_mul_comm by (auto || by apply Hf). apply gf_mul_0. by apply Hf.
Qed.

(** Multiplying the coded values of the rows [al] by their inverse [V] gives
    back the sources. *)
Lemma decode_sources (F V : Z -> Z -> Z) (al D : Z -> Z) j :
  (forall l, 0 <= l < k -> forall i, 0 <= i < k -> byte (F (al l) i) /\ byte (V l i)) ->
  (forall i, 0 <= i < k -> byte (D i)) ->
  (forall i, 0 <= i < k ->
     xsum k (fun l => gf_mul (V j l) (F (al l) i)) = if j =? i then 1 else 0) ->
  0 <= j < k ->
  xsum k (fun l => gf_mul (V j l) (xsum k (fun i => gf_mul (F (al l) i) (D i)))) = D j.
Proof.
  intros Hb HD Hinv Hj.
  rewrite (xsum_ext k _ (fun l => xsum k (fun i => gf_mul (gf_mul (V j l) (F (al l) i)) (D i)))).
  - rewrite xsum_swap by lia.
    rewrite (xsum_ext k _ (fun i => gf_mul (if j =? i then 1 else 0) (D i))).
    + by apply xsum_delta_mul.
    + intros i Hi. rewrite <- Hinv by done. rewrite xsum_mul_r; [done|by apply HD|].
      intros l Hl. destruct (Hb l Hl i Hi) as [? _], (Hb j Hj l Hl) as [_ ?]. auto.
  - intros l Hl. destruct (Hb j Hj l Hl) as [_ ?].
    rewrite xsum_mul_l; [|done|intros i Hi; destruct (Hb l Hl i Hi); auto].
    apply xsum_ext. intros i Hi. destruct (Hb l Hl i Hi). apply gf_mul_assoc; auto.
Qed.

(** The decoding coefficients of the code rebuild any unit [u] of the group. *)
Lemma decode_unit (F V : Z -> Z -> Z) (al D : Z -> Z) u :
  (forall l, 0 <= l < k -> forall i, 0 <= i < k -> byte (F (al l) i) /\ byte (V l i)) ->
  (forall i, 0 <= i < k -> byte (F u i)) ->
  (forall i, 0 <= i < k -> byte (D i)) ->
  (forall j i, 0 <= j < k -> 0 <= i < k ->
     xsum k (fun l => gf_mul (V j l) (F (al l) i)) = if j =? i then 1 else 0) ->
  0 <= k ->
  xsum k (fun l => gf_mul (xsum k (fun j => gf_mul (V j l) (F u j)))
                          (xsum k (fun i => gf_mul (F (al l) i) (D i)))) =
  xsum k (fun j => gf_mul (F u j) (D j)).
Proof.
  intros Hb Hu HD Hinv Hk.
  set (Y l := xsum k (fun i => gf_mul (F (al l) i) (D i))).
  assert (forall l, 0 <= l < k -> byte (Y l)) as HY.
  { intros l Hl. apply xsum_byte. intros i Hi. destruct (Hb l Hl i Hi). auto. }
  rewrite (xsum_ext k _ (fun l => xsum k (fun j => gf_mul (F u j) (gf_mul (V j l) (Y l))))).
  - rewrite xsum_swap by done. apply xsum_ext. intros j Hj.
    rewrite <- xsum_mul_l; [|by apply Hu|intros l Hl; destruct (Hb j Hj l Hl); auto].
    f_equal. apply decode_sources; try done. intros. by apply Hinv.
  - intros l Hl. fold (Y l). rewrite xsum_mul_r;
      [|by apply HY|intros j Hj; destruct (Hb j Hj l Hl); auto].
    apply xsum_ext. intros j Hj. destruct (Hb j Hj l Hl).
    rewrite (gf_mul_comm (V j l)) by auto. symmetry. apply gf_mul_assoc; auto.
Qed.

End field.

(** ** Loops over arrays and blocks *)

Lemma nthZ_insert l i j x :
  0 <= i < Z.of_nat (length l) -> 0 <= j ->
  nthZ (<[Z.to_nat i := x]> l) j = if j =? i then x else nthZ l j.
Proof.
  intros Hi Hj. unfold nthZ. zcases; subst.
  - by rewrite list_lookup_insert_eq by lia.
  - by rewrite list_lookup_insert_ne by lia.
Qed.

(** A loop that stores [v (base + lo)], ..., [v (base + hi - 1)] one after
    another. *)
Lemma fill_array (v : Z -> Z) base lo hi body arr :
  lo <= hi -> 0 <= base + lo -> base + hi <= Z.of_nat (length arr) ->
  (forall i arr', lo <= i < hi -> body i arr' = arr_set arr' (base + i) (v (base + i))) ->
  exists arr', for_up lo hi body arr = Some arr' /\ length arr' = length arr /\
    forall x, 0 <= x ->
      nthZ arr' x = if (base + lo <=? x) && (x <? base + hi) then v x else nthZ arr x.
Proof.
  intros Hlh Hlo Hhi Hb.
  destruct (for_up_total (fun i arr' => length arr' = length arr /\ forall x, 0 <= x ->
      nthZ arr' x = if (base + lo <=? x) && (x <? base + i) then v x else nthZ arr x)
    body lo hi arr) as (arr' & E & Hl & Hx); [done| | |by exists arr'].
  - split; [done|]. intros x Hx. zcases; try lia; done.
  - intros i arr' Hi [Hl Hx]. rewrite Hb by done. rewrite arr_set_ok by lia.
    eexists. split; [done|]. split; [by rewrite length_insert|].
    intros x Hx0. rewrite nthZ_insert, Hx by lia. zcases; subst; try lia; done.
Qed.

Lemma list_eq_nthZ (l1 l2 : list Z) :
  length l1 = length l2 -> (forall x, 0 <= x < Z.of_nat (length l1) -> nthZ l1 x = nthZ l2 x) ->
  l1 = l2.
Proof.
  intros Hl H. apply list_eq_same_length with (length l2); [done|done|].
  intros i x y Hi Hx Hy. specialize (H (Z.of_nat i) ltac:(lia)). unfold nthZ in H.
  rewrite Nat2Z.id, Hx, Hy in H. done.
Qed.

Lemma nthZ_fmap_addr bufs i b : arr_get bufs i = Some b -> nthZ (b_addr <$> bufs) i = b_addr b.
Proof.
  intros [Hi Hb]%arr_get_Some. unfold nthZ. by rewrite list_lookup_fmap, Hb.
Qed.

Lemma nthZ_take l n x : 0 <= x < n -> nthZ (take (Z.to_nat n) l) x = nthZ l x.
Proof. intros. unfold nthZ. by rewrite lookup_take_lt by lia. Qed.

Lemma nthZ_drop l n x : 0 <= n -> 0 <= x -> nthZ (drop (Z.to_nat n) l) x = nthZ l (n + x).
Proof. intros. unfold nthZ. rewrite lookup_drop. do 2 f_equal. lia. Qed.

Lemma arr_put_same {A} (old new : list A) :
  length new = length old -> arr_put old new = Some new.
Proof.
  intros Hl. unfold arr_put. rewrite Hl, Nat.leb_refl, drop_ge by lia. by rewrite app_nil_r.
Qed.

Lemma rowZ_map (f : Z -> list Z) n i : 0 <= i < n -> rowZ (f <$> seqZ 0 n) i = f i.
Proof.
  intros Hi. unfold rowZ. apply list_lookup_total_correct.
  rewrite list_lookup_fmap, lookup_seqZ_lt by lia. simpl. f_equal. f_equal. lia.
Qed.

(** The contents of the sources of a coding call. *)
Lemma gather_blocks m len k srcs ins :
  Z.of_nat (length srcs) = k -> Z.of_nat (length ins) = k ->
  (forall l, 0 <= l < k -> m !! nthZ srcs l = Some (rowZ ins l) /\
     Z.of_nat (length (rowZ ins l)) = len) ->
  mapM (block_get m len) (take (Z.to_nat k) srcs) = Some ins.
Proof.
  intros Hs Hi H. rewrite take_ge by lia. apply mapM_Some.
  apply Forall2_same_length_lookup_2; [lia|]. intros i a c Ha Hc.
  pose proof (lookup_lt_Some _ _ _ Ha). destruct (H (Z.of_nat i)) as [Hm Hl]; [lia|].
  assert (nthZ srcs (Z.of_nat i) = a) as Ea by (unfold nthZ; by rewrite Nat2Z.id, Ha).
  assert (rowZ ins (Z.of_nat i) = c) as Ec
    by (unfold rowZ; rewrite Nat2Z.id; by apply list_lookup_total_correct).
  rewrite Ea, Ec in *. unfold block_get. rewrite Hm. cbn [mbind option_bind].
  assert_ok by (apply Z.leb_le; lia). f_equal. apply take_ge. lia.
Qed.

(** The loop that stores the coded blocks. *)
Lemma put_blocks m len rows dests outs :
  0 <= rows -> Z.of_nat (length outs) = rows -> rows <= Z.of_nat (length dests) ->
  NoDup (take (Z.to_nat rows) dests) ->
  (forall r, 0 <= r < rows -> Z.of_nat (length (rowZ outs r)) = len /\
     exists old, m !! nthZ dests r = Some old /\ Z.of_nat (length old) = len) ->
  exists m', for_up 0 rows (fun r m =>
      dest ← arr_get dests r;
      out ← arr_get outs r;
      block_put m dest out) m = Some m' /\
    (forall r, 0 <= r < rows -> m' !! nthZ dests r = Some (rowZ outs r)) /\
    (forall a, (forall r, 0 <= r < rows -> a <> nthZ dests r) -> m' !! a = m !! a).
Proof.
  intros Hr Ho Hd Hnd Hm.
  assert (forall i j, 0 <= i < j -> j < rows -> nthZ dests i <> nthZ dests j) as Hne.
  { intros i j Hi Hj E. assert (Z.to_nat i = Z.to_nat j); [|lia].
    eapply NoDup_lookup; [exact Hnd|apply lookup_take_Some|apply lookup_take_Some].
    - split; [|lia]. apply arr_get_Some. apply nthZ_get. lia.
    - split; [|lia]. rewrite E. apply arr_get_Some. apply nthZ_get. lia. }
  edestruct (for_up_total (fun j (m' : blocks) =>
      (forall r, 0 <= r < j -> m' !! nthZ dests r = Some (rowZ outs r)) /\
      (forall a, (forall r, 0 <= r < j -> a <> nthZ dests r) -> m' !! a = m !! a)))
    as (m' & E & H); [| | |exists m'; split; [exact E|exact H]]; [done| |].
  - split; [lia|done].
  - intros j m' Hj [Hin Hout]. rewrite nthZ_get by lia. cbn [mbind option_bind].
    rewrite rowZ_get by lia. cbn [mbind option_bind].
    destruct (Hm j Hj) as (Hlo & old & Hold & Hl). unfold block_put.
    rewrite Hout by (intros r Hr'; intros E; eapply (Hne r j); [lia|lia|done]). rewrite Hold.
    cbn [mbind option_bind]. rewrite arr_put_same by lia. cbn [mbind option_bind].
    eexists. split; [done|]. split.
    + intros r Hr'. destruct (decide (r = j)) as [->|]; [by rewrite lookup_insert_eq|].
      rewrite lookup_insert_ne by (intros E; eapply (Hne r j); [lia|lia|done]). apply Hin. lia.
    + intros a Ha. rewrite lookup_insert_ne by (intros E; apply (Ha j); [lia|done]).
      apply Hout. intros r Hr'. apply Ha. lia.
Qed.

(** ** Exclusive or of words *)

Lemma lxor_lor_shift x y u v :
  byte x -> byte y ->
  Z.lxor (Z.lor x (Z.shiftl u 8)) (Z.lor y (Z.shiftl v 8)) =
  Z.lor (Z.lxor x y) (Z.shiftl (Z.lxor u v) 8).
Proof.
  unfold byte. intros Hx Hy. apply Z.bits_inj'. intros i Hi.
  rewrite !Z.lxor_spec, !Z.lor_spec, Z.lxor_spec, !Z.shiftl_spec, Z.lxor_spec by done.
  destruct (Z.lt_ge_cases i 8).
  - rewrite !(Z.testbit_neg_r _ (i - 8)) by lia. by rewrite !orb_false_r.
  - assert (forall z, 0 <= z < 2 ^ 8 -> Z.testbit z i = false) as Hz.
    { intros z Hz. destruct (Z.eq_dec z 0) as [->|]; [apply Z.testbit_0_l|].
      apply Z.bits_above_log2; [lia|]. assert (Z.log2 z < 8); [|lia].
      apply Z.log2_lt_pow2; lia. }
    by rewrite (Hz x), (Hz y) by done.
Qed.

Lemma little_endian_lxor a b :
  Forall byte a -> Forall byte b -> length a = length b ->
  Z.lxor (little_endian_to_Z 8 a) (little_endian_to_Z 8 b) =
  little_endian_to_Z 8 (zip_with Z.lxor a b).
Proof.
  intros Ha. revert b. induction Ha as [|x a Hx _ IH]; intros [|y b] Hb Hl; try done.
  apply Forall_cons in Hb as [Hy Hb]. simpl. rewrite lxor_lor_shift by done.
  rewrite IH by (done || by injection Hl). done.
Qed.

Lemma Forall_byte_zip a b : Forall byte a -> Forall byte b -> Forall byte (zip_with Z.lxor a b).
Proof.
  intros Ha. revert b. induction Ha as [|x a Hx _ IH]; intros [|y b] Hb; try constructor;
    apply Forall_cons in Hb as [Hy Hb]; auto with motr.
Qed.

Lemma word_get_ok bytes i :
  0 <= i -> 8 * i + 8 <= Z.of_nat (length bytes) ->
  word_get bytes i = Some (little_endian_to_Z 8 (take 8 (drop (Z.to_nat (8 * i)) bytes))).
Proof.
  intros. unfold word_get. change WORD with 8.
  by rewrite M0_ASSERT_true by (apply andb_true_intro; split; apply Z.leb_le; lia).
Qed.

Lemma word_set_ok bytes i x :
  0 <= i -> 8 * i + 8 <= Z.of_nat (length bytes) ->
  word_set bytes i x = Some (take (Z.to_nat (8 * i)) bytes ++ Z_to_little_endian 8 8 x ++
                             drop (Z.to_nat (8 * i + 8)) bytes).
Proof.
  intros. unfold word_set. change WORD with 8.
  by rewrite M0_ASSERT_true by (apply andb_true_intro; split; apply Z.leb_le; lia).
Qed.

(** The word loop of reed_solomon_diff() computes the bytewise difference. *)
Lemma word_loop_ok n o c arr :
  0 <= n -> Z.of_nat (length o) = 8 * n -> length c = length o -> length arr = length o ->
  Forall byte o -> Forall byte c ->
  for_up 0 n (fun i arr =>
    x ← word_get o i;
    y ← word_get c i;
    word_set arr i (Z.lxor x y)) arr = Some (zip_with Z.lxor o c).
Proof.
  intros Hn Hlo Hlc Hla Ho Hc. set (D := zip_with Z.lxor o c).
  assert (length D = length o) as HlD by (unfold D; rewrite length_zip_with; lia).
  edestruct (for_up_total (fun i arr' =>
      arr' = take (Z.to_nat (8 * i)) D ++ drop (Z.to_nat (8 * i)) arr)) as (arr' & E & ->).
  4:{ etrans; [exact E|]. rewrite take_ge, drop_ge by lia. by rewrite app_nil_r. }
  - done.
  - by rewrite Z.mul_0_r.
  - intros i arr' Hi ->. rewrite (word_get_ok o), (word_get_ok c) by lia. cbn [mbind option_bind].
    rewrite word_set_ok by (rewrite ?length_app, ?length_take, ?length_drop; lia).
    eexists. split; [done|].
    rewrite little_endian_lxor;
      [|by apply Forall_take, Forall_drop|by apply Forall_take, Forall_drop|
       rewrite !length_take, !length_drop; lia].
    rewrite <- zip_with_take, <- zip_with_drop. fold D.
    rewrite Z_to_little_endian_to_Z; [|rewrite length_take, length_drop; lia|lia|].
    2:{ apply Forall_take, Forall_drop, Forall_byte_zip; done. }
    rewrite take_app_le by (rewrite length_take; lia). rewrite take_take, Nat.min_id.
    rewrite drop_app_ge by (rewrite length_take; lia). rewrite drop_drop, length_take.
    rewrite app_assoc, take_take_drop. f_equal; f_equal; lia.
Qed.

(** ** Sorting the units into failed and alive ones *)

Lemma failed_units_mono fail i n :
  0 <= i <= n -> (length (failed_units fail i) <= length (failed_units fail n))%nat.
Proof.
  intros Hi. unfold failed_units. replace n with (i + (n - i)) by lia.
  rewrite seqZ_app, filter_app, length_app by lia. lia.
Qed.

Lemma alive_units_mono fail i n :
  0 <= i <= n -> (length (alive_units fail i) <= length (alive_units fail n))%nat.
Proof.
  intros Hi. unfold alive_units. replace n with (i + (n - i)) by lia.
  rewrite seqZ_app, filter_app, length_app by lia. lia.
Qed.

(** Appending to the part of an array that is in use. *)
Lemma arr_push (pre rest : list Z) i x :
  i = Z.of_nat (length pre) -> (0 < length rest)%nat ->
  exists rest', arr_set (pre ++ rest) i x = Some ((pre ++ [x]) ++ rest') /\
    S (length rest') = length rest.
Proof.
  intros -> Hl. destruct rest as [|y rest]; [simpl in Hl; lia|]. exists rest.
  rewrite arr_set_middle by done. split; [|done]. by rewrite <- app_assoc.
Qed.

(** The units are listed in increasing order. *)
Lemma seqZ_sorted n : StronglySorted Z.lt (seqZ 0 n).
Proof.
  destruct (Z.le_gt_cases 0 n) as [Hn|]; [|rewrite seqZ_nil by lia; constructor].
  revert n Hn. apply xsum_ind; [constructor|]. intros n Hn IH. rewrite seqZ_snoc by done.
  apply StronglySorted_app_2; [|done|repeat constructor].
  intros x y Hx%elem_of_seqZ ->%list_elem_of_singleton. lia.
Qed.

Lemma Forall_filter_mono (P Q : Z -> Prop) `{!forall x, Decision (P x)} l :
  Forall Q l -> Forall Q (filter P l).
Proof.
  rewrite !Forall_forall. intros Hl x [_ Hx]%list_elem_of_filter. by apply Hl.
Qed.

Lemma StronglySorted_filter_lt (P : Z -> Prop) `{!forall x, Decision (P x)} l :
  StronglySorted Z.lt l -> StronglySorted Z.lt (filter P l).
Proof.
  induction 1 as [|x l Hl IH Hx]; [constructor|]. rewrite filter_cons.
  destruct (decide (P x)); [|done]. constructor; [done|]. by apply Forall_filter_mono.
Qed.

Lemma StronglySorted_take_lt n l : StronglySorted Z.lt l -> StronglySorted Z.lt (take n l).
Proof.
  intros H. revert n. induction H as [|x l Hl IH Hx]; intros [|n]; simpl; try constructor; [done|].
  by apply Forall_take.
Qed.

Lemma alive_range fail n : Forall (fun u => 0 <= u < n) (alive_units fail n).
Proof. apply Forall_filter_mono, Forall_seqZ. intros. lia. Qed.

Lemma failed_range fail n : Forall (fun u => 0 <= u < n) (failed_units fail n).
Proof. apply Forall_filter_mono, Forall_seqZ. intros. lia. Qed.

Lemma nthZ_app_l l1 l2 x : 0 <= x < Z.of_nat (length l1) -> nthZ (l1 ++ l2) x = nthZ l1 x.
Proof. intros. unfold nthZ. by rewrite lookup_app_l by lia. Qed.

Lemma Forall_nthZ_range (P : Z -> Prop) l x :
  Forall P l -> 0 <= x < Z.of_nat (length l) -> P (nthZ l x).
Proof. intros H Hx. pose proof (nthZ_get l x Hx) as [_ ?]%arr_get_Some. by eapply Forall_lookup_1. Qed.

Section sorts.
Context (fail : list Z) (k p : Z).
Let n := k + p.
Hypothesis Hk : 1 <= k.
Hypothesis Hp : 1 <= p.
Hypothesis Hn : n <= 256.
Hypothesis Hfail : Z.of_nat (length fail) = n.
Hypothesis Hnr : Z.of_nat (length (failed_units fail n)) <= p.

Lemma failed_room i : 0 <= i < n -> nthZ fail i <> 0 -> Z.of_nat (length (failed_units fail i)) < p.
Proof.
  intros Hi Hne. pose proof (failed_units_mono fail (i + 1) n ltac:(lia)) as Hm.
  rewrite failed_units_succ, length_app in Hm by lia. destruct (Z.eqb_spec (nthZ fail i) 0); [done|].
  simpl in Hm. lia.
Qed.

Lemma fails_sort_ok rs failed alive :
  rs_failed_idx rs = Some failed -> rs_alive_idx rs = Some alive ->
  Z.of_nat (length failed) = p -> Z.of_nat (length alive) = n ->
  exists r1 r2,
    let failed' := failed_units fail n ++ r1 in
    let alive' := alive_units fail n ++ r2 in
    fails_sort rs fail n p =
      Some (with_idx rs (Z.of_nat (length (failed_units fail n))) (Some failed') (Some alive')) /\
    length failed' = length failed /\ length alive' = length alive.
Proof.
  intros Hf Ha Hlf Hla. unfold fails_sort. rewrite Hf, Ha. cbn [mbind option_bind].
  edestruct (for_up_total (fun i '(failed', nf, alive', na) =>
      (exists r1, failed' = failed_units fail i ++ r1) /\ nf = Z.of_nat (length (failed_units fail i)) /\
      (exists r2, alive' = alive_units fail i ++ r2) /\ na = Z.of_nat (length (alive_units fail i)) /\
      length failed' = length failed /\ length alive' = length alive))
    as ([[[failed' nf] alive'] na] & E & (r1 & ->) & -> & (r2 & ->) & -> & H1 & H2);
    [| | |exists r1, r2; cbn zeta; rewrite E; done]; [lia| |].
  - repeat split; eauto.
  - intros i [[[failed' nf] alive'] na] Hi ((r1 & ->) & -> & (r2 & ->) & -> & H1 & H2).
    rewrite nthZ_get by lia. cbn [mbind option_bind].
    pose proof (units_length fail i ltac:(lia)). rewrite length_app in H1, H2.
    rewrite failed_units_succ, alive_units_succ by lia.
    replace (u8 i) with i by (symmetry; apply u8_byte; unfold byte; lia).
    destruct (Z.eqb_spec (nthZ fail i) 0) as [E0|E0]; cbn [negb].
    + destruct (arr_push (alive_units fail i) r2 _ i eq_refl) as (r2' & -> & Hl); [lia|].
      cbn [mbind option_bind]. eexists (_, _, _, _). split; [done|].
      rewrite app_nil_r, !length_app. simpl. repeat split; eauto; lia.
    + pose proof (failed_room i Hi E0). assert_ok by lia.
      destruct (arr_push (failed_units fail i) r1 _ i eq_refl) as (r1' & -> & Hl); [lia|].
      cbn [mbind option_bind]. eexists (_, _, _, _). split; [done|].
      rewrite app_nil_r, !length_app. simpl. repeat split; eauto; lia.
Qed.

Lemma buf_sort_ok rs data parity bufs_in bufs_out :
  Z.of_nat (length data) = k -> Z.of_nat (length parity) = p ->
  rs_bufs_in rs = Some bufs_in -> rs_bufs_out rs = Some bufs_out ->
  Z.of_nat (length bufs_in) = k -> Z.of_nat (length bufs_out) = p ->
  let addr := nthZ (b_addr <$> data ++ parity) in
  exists r2, let bufs_out' := (addr <$> failed_units fail n) ++ r2 in
    buf_sort rs n k fail data parity =
      Some (with_bufs rs (Some (take (Z.to_nat k) (addr <$> alive_units fail n))) (Some bufs_out')) /\
    length bufs_out' = length bufs_out.
Proof.
  intros Hd Hpa Hi Ho Hli Hlo addr. unfold buf_sort. rewrite Hi, Ho. cbn [mbind option_bind].
  edestruct (for_up_total (fun i '(bi, kk, bo, j) =>
      (exists r1, bi = take (Z.to_nat k) (addr <$> alive_units fail i) ++ r1) /\
      kk = Z.min k (Z.of_nat (length (alive_units fail i))) /\
      (exists r2, bo = (addr <$> failed_units fail i) ++ r2) /\
      j = Z.of_nat (length (failed_units fail i)) /\
      length bi = length bufs_in /\ length bo = length bufs_out))
    as ([[[bi kk] bo] j] & E & (r1 & ->) & -> & (r2 & ->) & -> & H1 & H2).
  4:{ exists r2. cbn zeta. rewrite E. split; [|done]. cbn [mbind option_bind].
    pose proof (units_length fail n ltac:(lia)).
    rewrite length_app, length_take, length_fmap in H1.
    assert (r1 = []) as -> by (destruct r1; [done|simpl in H1; lia]). by rewrite app_nil_r. }
  - lia.
  - split; [exists bufs_in; change (alive_units fail 0) with (@nil Z); simpl; by rewrite take_nil|].
    repeat split; eauto. simpl. lia.
  - intros i [[[bi kk] bo] j] Hi0 ((r1 & ->) & -> & (r2 & ->) & -> & H1 & H2).
    assert (exists b, (if i <? k then arr_get data i else arr_get parity (i - k)) = Some b /\
      addr i = b_addr b) as (b & -> & Hb).
    { destruct (arr_get_is_Some (data ++ parity) i) as [b Hb]; [rewrite length_app; lia|].
      exists b. split; [|by apply nthZ_fmap_addr]. rewrite <- Hb. zcases.
      - by rewrite arr_get_app_l by lia.
      - rewrite arr_get_app_r by lia. f_equal. lia. }
    cbn [mbind option_bind]. rewrite nthZ_get by lia. cbn [mbind option_bind]. rewrite <- Hb.
    pose proof (units_length fail i ltac:(lia)). rewrite length_app, length_take in H1.
    rewrite length_app in H2. rewrite length_fmap in H1, H2.
    rewrite failed_units_succ, alive_units_succ by lia. rewrite !fmap_app.
    destruct (Z.eqb_spec (nthZ fail i) 0) as [E0|E0]; cbn [negb]; rewrite ?app_nil_r.
    + destruct (Z.ltb_spec (Z.min k (Z.of_nat (length (alive_units fail i)))) k) as [Hlt|Hge].
      * rewrite take_ge in * by (rewrite length_fmap; lia).
        edestruct (arr_push (addr <$> alive_units fail i) r1) as (r1' & -> & Hl);
          [rewrite length_fmap; lia|lia|].
        cbn [mbind option_bind]. eexists (_, _, _, _). split; [done|].
        rewrite (take_ge (_ ++ _)) by (rewrite length_app, !length_fmap; simpl; lia).
        rewrite !length_app, !length_fmap. simpl. repeat split; eauto; lia.
      * eexists (_, _, _, _). split; [done|].
        rewrite take_app_le by (rewrite length_fmap; lia).
        rewrite !length_app, length_take, !length_fmap. simpl. repeat split; eauto; lia.
    + pose proof (failed_room i Hi0 E0).
      edestruct (arr_push (addr <$> failed_units fail i) r2) as (r2' & -> & Hl);
        [by rewrite length_fmap|lia|].
      cbn [mbind option_bind]. eexists (_, _, _, _). split; [done|].
      rewrite !length_app, length_take, !length_fmap. simpl. repeat split; eauto; lia.
Qed.

End sorts.

(** ** The recovery matrix *)

(** A loop that fills the rows of a matrix one after another. *)
Lemma fill_rows (v : Z -> Z) k rows body arr :
  0 <= k -> 0 <= rows -> k * rows <= Z.of_nat (length arr) ->
  (forall r arr', 0 <= r < rows -> length arr' = length arr ->
     exists body', body r arr' = for_up 0 k body' arr' /\
       forall i arr'', 0 <= i < k -> body' i arr'' = arr_set arr'' (k * r + i) (v (k * r + i))) ->
  exists arr', for_up 0 rows body arr = Some arr' /\ length arr' = length arr /\
    forall x, 0 <= x -> nthZ arr' x = if x <? k * rows then v x else nthZ arr x.
Proof.
  intros Hk Hr Hlen Hb.
  destruct (for_up_total (fun r arr' => length arr' = length arr /\ forall x, 0 <= x ->
      nthZ arr' x = if x <? k * r then v x else nthZ arr x)
    body 0 rows arr) as (arr' & E & Hl & Hx); [done| | |by exists arr'].
  - split; [done|]. intros x Hx. rewrite Z.mul_0_r. zcases; [lia|done].
  - intros r arr' Hr' [Hl Hx]. destruct (Hb r arr' Hr' Hl) as (body' & -> & Hb').
    assert (k * r + k <= Z.of_nat (length arr')) by nia.
    destruct (fill_array v (k * r) 0 k body' arr') as (arr2 & -> & Hl2 & Hx2);
      [lia|nia|lia|done|].
    exists arr2. split; [done|]. split; [lia|]. intros x Hx0. rewrite Hx2, Hx by done.
    replace (k * (r + 1)) with (k * r + k) by lia. zcases; subst; try lia; done.
Qed.

Lemma div_mod_row k r i : 0 <= i < k -> (k * r + i) / k = r /\ (k * r + i) mod k = i.
Proof.
  intros Hi. rewrite Z.add_comm, (Z.mul_comm k r).
  rewrite Z.div_add, Z_mod_plus_full, Z.div_small, Z.mod_small by lia. lia.
Qed.

Lemma row_index k n r i : 0 <= r < n -> 0 <= i < k -> 0 <= k * r + i < k * n.
Proof. intros. assert (k * r <= k * (n - 1)) by (apply Z.mul_le_mono_nonneg_l; lia). nia. Qed.

Section matrices.
Context {isal : ISAL} {k p : Z} {laws : ISALLaws isal k p}.
Hypothesis Hk : 1 <= k.
Hypothesis Hp : 1 <= p.

Notation C := (gf_gen_cauchy1_matrix (k + p) k).

Lemma cauchy_get u j :
  0 <= u < k + p -> 0 <= j < k -> arr_get C (k * u + j) = Some (nthZ C (k * u + j)).
Proof. intros. apply nthZ_get. rewrite (cauchy_length (p := p)). nia. Qed.

Lemma cauchy_get_byte x : byte (nthZ C x).
Proof. apply Forall_nthZ; [unfold byte; lia|]. apply (cauchy_byte (p := p)). Qed.

Lemma recov_temp_mat_ok alive temp_mat :
  k <= Z.of_nat (length alive) ->
  (forall l, 0 <= l < k -> 0 <= nthZ alive l < k + p) ->
  k * k <= Z.of_nat (length temp_mat) ->
  exists temp_mat', recov_temp_mat k C alive temp_mat = Some temp_mat' /\
    take (Z.to_nat (k * k)) temp_mat' = sub_matrix k C (take (Z.to_nat k) alive).
Proof.
  intros Hal Hr Hl. unfold recov_temp_mat.
  edestruct (fill_rows (fun x => nthZ C (k * nthZ alive (x / k) + x mod k)) k k)
    as (t & E & Hlt & Hx); [lia|lia|exact Hl| |exists t; split; [exact E|]].
  - intros r arr Hr' Hla. cbn beta. rewrite nthZ_get by lia. cbn [mbind option_bind].
    eexists. split; [reflexivity|]. intros i arr' Hi. cbn beta.
    rewrite cauchy_get by auto. cbn [mbind option_bind].
    by destruct (div_mod_row k r i Hi) as [-> ->].
  - apply list_eq_nthZ; unfold sub_matrix; rewrite ?length_take, ?length_fmap, ?length_seqZ; [nia|].
    intros x Hx'. rewrite nthZ_take, Hx, nthZ_map by nia.
    assert (0 <= x / k < k) by (split; [apply Z.div_pos; lia|apply Z.div_lt_upper_bound; nia]).
    rewrite nthZ_take by done. by replace (x <? k * k) with true by (symmetry; apply Z.ltb_lt; nia).
Qed.

(** The decoding coefficient of column [l] for unit [u]. *)
Definition decode_coeff (inv : list Z) (u l : Z) : Z :=
  xsum k (fun j => gf_mul (nthZ inv (k * j + l)) (nthZ C (k * u + j))).

Lemma decode_coeff_data inv u l :
  Forall byte inv -> 0 <= u < k -> decode_coeff inv u l = nthZ inv (k * u + l).
Proof.
  intros Hb Hu. unfold decode_coeff.
  assert (forall x, byte (nthZ inv x)) as Hi by (intros; apply Forall_nthZ; [unfold byte; lia|done]).
  rewrite (xsum_ext k _ (fun j => gf_mul (if u =? j then 1 else 0) (nthZ inv (k * j + l)))).
  - by rewrite xsum_delta_mul.
  - intros j Hj. rewrite (cauchy_identity (p := p)) by done. apply (gf_mul_comm (k := k) (p := p)); [done|].
    unfold byte. zcases; lia.
Qed.

Lemma decode_coeff_byte inv u l : Forall byte inv -> byte (decode_coeff inv u l).
Proof.
  intros Hb. apply xsum_byte. intros. apply (gf_mul_byte (k := k) (p := p)).
  - apply Forall_nthZ; [unfold byte; lia|done].
  - apply cauchy_get_byte.
Qed.

Lemma decode_coeff_app inv rest u l :
  Z.of_nat (length inv) = k * k -> 0 <= l < k -> decode_coeff (inv ++ rest) u l = decode_coeff inv u l.
Proof.
  intros Hl Hll. apply xsum_ext. intros j Hj. pose proof (row_index k k j l Hj Hll).
  by rewrite nthZ_app_l by lia.
Qed.

(** The inner product loop of the code. *)
Lemma decode_coeff_loop inv u l :
  Forall byte inv -> k * k <= Z.of_nat (length inv) -> 0 <= u < k + p -> 0 <= l < k ->
  for_up 0 k (fun j s =>
    x ← arr_get inv (j * k + l);
    y ← arr_get C (j + k * u);
    Some (u8 (Z.lxor s (gf_mul x y)))) 0 = Some (decode_coeff inv u l).
Proof.
  intros Hb Hl Hu Hll.
  assert (forall x, byte (nthZ inv x)) as Hi by (intros; apply Forall_nthZ; [unfold byte; lia|done]).
  assert (forall j, byte (gf_mul (nthZ inv (k * j + l)) (nthZ C (k * u + j)))) as Hm
    by (intros; apply (gf_mul_byte (k := k) (p := p)); [done|apply cauchy_get_byte]).
  edestruct (for_up_total (fun j s =>
      s = xsum j (fun j => gf_mul (nthZ inv (k * j + l)) (nthZ C (k * u + j)))))
    as (s & E & ->); [| | |exact E]; [lia|done|].
  intros j s Hj ->. replace (j * k + l) with (k * j + l) by lia.
  replace (j + k * u) with (k * u + j) by lia.
  pose proof (row_index k k j l Hj Hll).
  rewrite (nthZ_get inv) by lia. cbn [mbind option_bind]. rewrite cauchy_get by done.
  cbn [mbind option_bind]. eexists. split; [done|]. rewrite xsum_succ by lia.
  apply u8_byte. auto with motr.
Qed.

Lemma recov_decode_mat_ok nr failed inv decode_mat :
  0 <= nr <= p -> nr <= Z.of_nat (length failed) ->
  (forall r, 0 <= r < nr -> 0 <= nthZ failed r < k + p) ->
  k * k <= Z.of_nat (length inv) -> Forall byte inv ->
  k * nr <= Z.of_nat (length decode_mat) -> Forall byte decode_mat ->
  exists decode_mat', recov_decode_mat k nr C failed inv decode_mat = Some decode_mat' /\
    length decode_mat' = length decode_mat /\ Forall byte decode_mat' /\
    forall r i, 0 <= r < nr -> 0 <= i < k ->
      nthZ decode_mat' (k * r + i) = decode_coeff inv (nthZ failed r) i.
Proof.
  intros Hnr Hlf Hf Hli Hbi Hld Hbd. unfold recov_decode_mat.
  edestruct (fill_rows (fun x => decode_coeff inv (nthZ failed (x / k)) (x mod k)) k nr)
    as (t & E & Hlt & Hx); [lia|lia|exact Hld| |exists t; split; [exact E|]].
  - intros r arr Hr Hla. cbn beta. rewrite nthZ_get by lia. cbn [mbind option_bind].
    pose proof (Hf r Hr). destruct (Z.ltb_spec (nthZ failed r) k) as [Hlt|Hge].
    + eexists. split; [reflexivity|]. intros i arr' Hi. cbn beta.
      pose proof (row_index k k (nthZ failed r) i ltac:(lia) Hi). rewrite nthZ_get by lia.
      cbn [mbind option_bind]. destruct (div_mod_row k r i Hi) as [-> ->].
      by rewrite decode_coeff_data by (done || lia).
    + eexists. split; [reflexivity|]. intros i arr' Hi. cbn beta.
      rewrite decode_coeff_loop by done. cbn [mbind option_bind].
      by destruct (div_mod_row k r i Hi) as [-> ->].
  - split; [done|]. split.
    + apply Forall_lookup_2. intros i x Hi.
      assert (nthZ t (Z.of_nat i) = x) as <- by (unfold nthZ; by rewrite Nat2Z.id, Hi).
      rewrite Hx by lia. zcases; [by apply decode_coeff_byte|].
      apply Forall_nthZ; [unfold byte; lia|done].
    + intros r i Hr Hi. rewrite Hx by nia.
      replace (k * r + i <? k * nr) with true by (symmetry; apply Z.ltb_lt; nia).
      by destruct (div_mod_row k r i Hi) as [-> ->].
Qed.

End matrices.

(** ** The operations *)

Section operations.
Context {isal : ISAL} (k p : Z) {laws : ISALLaws isal k p}.
Hypothesis Hk : k <= 128.
Hypothesis Hp : 1 <= p <= k.

Notation C := (gf_gen_cauchy1_matrix (k + p) k).

(** The structure after a successful initialisation; the index and pointer
    arrays hold what earlier calls left in them. *)
Definition rs_ready (rs : m0_reed_solomon) : Prop :=
  rs_encode_matrix rs = Some C /\
  rs_encode_tbls rs = Some (ec_init_tables k p (drop (Z.to_nat (k * k)) C)) /\
  (exists dtbls, rs_decode_tbls rs = Some dtbls /\ Z.of_nat (length dtbls) = 32 * k * p) /\
  (exists failed, rs_failed_idx rs = Some failed /\ Z.of_nat (length failed) = p) /\
  (exists alive, rs_alive_idx rs = Some alive /\ Z.of_nat (length alive) = k + p) /\
  (exists bufs_in, rs_bufs_in rs = Some bufs_in /\ Z.of_nat (length bufs_in) = k) /\
  (exists bufs_out, rs_bufs_out rs = Some bufs_out /\ Z.of_nat (length bufs_out) = p).

Definition math_ready (math : m0_parity_math) : Prop :=
  pmi_parity_algo math = M0_PARITY_CAL_ALGO_REED_SOLOMON /\
  pmi_data_count math = k /\ pmi_parity_count math = p /\ rs_ready (pmi_rs math).

Lemma ready_invariant math : math_ready math -> parity_math_invariant math = true.
Proof.
  intros (_ & Hd & Hpc & _). unfold parity_math_invariant. rewrite Hd, Hpc.
  change SNS_PARITY_MATH_DATA_BLOCKS_MAX with 128. repeat (apply andb_true_intro; split);
    apply Z.leb_le; lia.
Qed.

Lemma group_small : is_u32 (k + p) /\ is_u32 ((k + p) * k) /\ is_u32 (k * p) /\ is_u32 (k * p * 32).
Proof. unfold is_u32. nia. Qed.

Lemma drop_cauchy_length : Z.of_nat (length (drop (Z.to_nat (k * k)) C)) = p * k.
Proof. rewrite length_drop. pose proof (cauchy_length (k := k) (p := p)). nia. Qed.

Lemma encode_tbls_length :
  Z.of_nat (length (ec_init_tables k p (drop (Z.to_nat (k * k)) C))) = 32 * k * p.
Proof. apply ec_init_tables_length; [lia|]. rewrite drop_cauchy_length. lia. Qed.

(** Outcomes of reed_solomon_init(): success, or the first failed allocation. *)
Lemma reed_solomon_init_ok mem math :
  parity_math_invariant math = true ->
  pmi_data_count math = k -> pmi_parity_count math = p ->
  exists math', (reed_solomon_init mem math = Some (0, math') /\ rs_ready (pmi_rs math') /\
      (forall i, 0 <= i < 7 -> mem i = true) \/
    reed_solomon_init mem math = Some (- ENOMEM, math') /\
      exists i, 0 <= i < 7 /\ mem i = false) /\
    pmi_parity_algo math' = pmi_parity_algo math /\
    pmi_data_count math' = k /\ pmi_parity_count math' = p.
Proof.
  intros Hinv Hd Hpc. unfold reed_solomon_init. rewrite Hinv. cbn [M0_ASSERT mbind option_bind].
  rewrite Hd, Hpc. change MIN_TABLE_LEN with 32. destruct group_small as (H1 & H2 & H3 & H4).
  rewrite (u32_small (k + p)), (u32_small ((k + p) * k)), (u32_small (k * p)), (u32_small (k * p * 32))
    by done.
  unfold M0_ALLOC_ARR.
  destruct (mem 0) eqn:E0; [|eexists; split; [right; split; [done|exists 0; split; [lia|done]]|done]].
  destruct (mem 1) eqn:E1; [|eexists; split; [right; split; [done|exists 1; split; [lia|done]]|done]].
  destruct (mem 2) eqn:E2; [|eexists; split; [right; split; [done|exists 2; split; [lia|done]]|done]].
  rewrite arr_put_same.
  2:{ rewrite length_replicate. pose proof (cauchy_length (k := k) (p := p)). nia. }
  cbn [mbind option_bind]. rewrite arr_put_same.
  2:{ rewrite length_replicate. pose proof encode_tbls_length. nia. }
  cbn [mbind option_bind].
  destruct (mem 3) eqn:E3; [|eexists; split; [right; split; [done|exists 3; split; [lia|done]]|done]].
  destruct (mem 4) eqn:E4; [|eexists; split; [right; split; [done|exists 4; split; [lia|done]]|done]].
  destruct (mem 5) eqn:E5; [|eexists; split; [right; split; [done|exists 5; split; [lia|done]]|done]].
  destruct (mem 6) eqn:E6; [|eexists; split; [right; split; [done|exists 6; split; [lia|done]]|done]].
  eexists. split; [left; split; [done|]|done]. split.
  - unfold rs_ready, is_u32 in *. cbn. repeat split; try done;
      eexists; (split; [done|]); rewrite length_replicate; lia.
  - intros i Hi. assert (i = 0 \/ i = 1 \/ i = 2 \/ i = 3 \/ i = 4 \/ i = 5 \/ i = 6)
      as [->|[->|[->|[->|[->|[->| ->]]]]]] by lia; done.
Qed.

Lemma init_ready mem math :
  p <> 1 -> m0_parity_math_init mem k p = Some (0, math) -> math_ready math.
Proof.
  intros Hp1. unfold m0_parity_math_init. intros ([] & Hinv & H)%bind_Some.
  apply M0_ASSERT_Some in Hinv. destruct (Z.eqb_spec p 1); [done|].
  destruct (reed_solomon_init_ok mem {| pmi_parity_algo := M0_PARITY_CAL_ALGO_REED_SOLOMON;
      pmi_data_count := k; pmi_parity_count := p; pmi_rs := zero_rs |})
    as (math' & [(E & Hr & _)|(E & _)] & Ha & Hd & Hpc); try done;
    rewrite E in H; cbn in H; [|discriminate].
  by injection H as <-.
Qed.

(** *** The contents of a group *)

Context (bs : Z) (cs : list (list Z)) (data parity : list m0_buf).
Hypothesis Hbs : is_u32 bs.
Hypothesis Hcs : Z.of_nat (length cs) = k.
Hypothesis Hcb : Forall (block_ok bs) cs.
Hypothesis Hnd : NoDup (b_addr <$> data ++ parity).
Hypothesis Hlp : Z.of_nat (length parity) = p.

(** Unit [u] of the group whose data units hold [cs]. *)
Definition unit_block (u : Z) : list Z :=
  (fun x => xsum k (fun j => gf_mul (nthZ C (k * u + j)) (nthZ (rowZ cs j) x))) <$> seqZ 0 bs.

Definition group_blocks : list (list Z) := unit_block <$> seqZ 0 (k + p).

Lemma source_byte_ok j x : byte (nthZ (rowZ cs j) x).
Proof.
  apply Forall_nthZ; [unfold byte; lia|]. unfold rowZ. rewrite list_lookup_total_alt.
  destruct (cs !! Z.to_nat j) eqn:E; simpl; [|by apply Forall_nil].
  by apply (Forall_lookup_1 _ _ _ _ Hcb) in E as [_ ?].
Qed.

Lemma unit_byte u x : byte (xsum k (fun j => gf_mul (nthZ C (k * u + j)) (nthZ (rowZ cs j) x))).
Proof.
  apply xsum_byte. intros. apply (gf_mul_byte (k := k) (p := p));
    [apply cauchy_get_byte|apply source_byte_ok].
Qed.

Lemma unit_block_ok u : block_ok bs (unit_block u).
Proof.
  unfold block_ok, unit_block, is_u32 in *. rewrite length_fmap, length_seqZ. split; [lia|].
  apply Forall_fmap, Forall_seqZ. intros. apply unit_byte.
Qed.

Lemma unit_block_data u : 0 <= u < k -> unit_block u = rowZ cs u.
Proof.
  intros Hu. destruct (Forall_lookup_1 _ _ (Z.to_nat u) (rowZ cs u) Hcb) as [Hl Hb].
  { apply list_lookup_lookup_total_lt. lia. }
  unfold is_u32 in Hbs. apply list_eq_nthZ; unfold unit_block; rewrite length_fmap, length_seqZ; [lia|].
  intros x Hx. rewrite nthZ_map by lia.
  rewrite (xsum_ext k _ (fun j => gf_mul (if u =? j then 1 else 0) (nthZ (rowZ cs j) x))).
  - rewrite xsum_delta_mul; [done|done|]. intros. apply source_byte_ok.
  - intros j Hj. by rewrite (cauchy_identity (p := p)).
Qed.

Lemma group_split :
  group_blocks = cs ++ encode_blocks bs k p (drop (Z.to_nat (k * k)) C) cs.
Proof.
  unfold group_blocks. rewrite seqZ_app, fmap_app by lia. f_equal.
  - apply list_eq_same_length with (length cs); [done|rewrite length_fmap, length_seqZ; lia|].
    intros i x y Hi. rewrite list_lookup_fmap, lookup_seqZ_lt by lia. simpl. intros [= <-] Hy.
    rewrite unit_block_data by lia. unfold rowZ. replace (Z.to_nat (0 + Z.of_nat i)) with i by lia.
    by apply list_lookup_total_correct.
  - unfold encode_blocks. replace (0 + k) with (k + 0) by lia. rewrite <- (fmap_add_seqZ k 0 p).
    rewrite <- list_fmap_compose.
    apply list_fmap_ext. intros i r Hr. apply lookup_seqZ in Hr as [-> Hr]. unfold compose, unit_block.
    apply list_fmap_ext. intros ? x _. apply xsum_ext. intros j Hj. f_equal.
    rewrite nthZ_drop by nia. f_equal. lia.
Qed.

Lemma group_row u : 0 <= u < k + p -> rowZ group_blocks u = unit_block u.
Proof. intros. unfold group_blocks. by rewrite rowZ_map. Qed.

Lemma group_parity_row i :
  0 <= i < p -> rowZ (encode_blocks bs k p (drop (Z.to_nat (k * k)) C) cs) i = unit_block (k + i).
Proof.
  intros Hi. rewrite <- group_row by lia. rewrite group_split, rowZ_app_r by lia. f_equal. lia.
Qed.

Lemma group_length : Z.of_nat (length group_blocks) = k + p.
Proof. unfold group_blocks. rewrite length_fmap, length_seqZ. lia. Qed.

(** *** Calculation *)

Lemma addr_loop bufs cs' m lo hi arr :
  holds m bs bufs cs' -> hi = Z.of_nat (length bufs) -> 0 <= lo <= hi ->
  length arr = length bufs ->
  (forall x, 0 <= x < lo -> nthZ arr x = nthZ (b_addr <$> bufs) x) ->
  for_up lo hi (fun i arr =>
    b ← arr_get bufs i;
    _ ← M0_ASSERT (bs =? b_nob b);
    arr_set arr i (b_addr b)) arr = Some (b_addr <$> bufs).
Proof.
  intros H -> Hlo Hl Hx. pose proof (holds_length _ _ _ _ H).
  edestruct (fill_array (nthZ (b_addr <$> bufs)) 0 lo (Z.of_nat (length bufs)))
    as (arr' & E & Hl' & Hx'); [| | | |etrans; [exact E|f_equal]]; try lia.
  - intros i arr2 Hi. cbn beta. destruct (holds_get _ _ _ _ i H) as (b & Hb & Hn & _); [lia|].
    rewrite Hb. cbn [mbind option_bind]. rewrite Hn. assert_ok by lia.
    by rewrite !Z.add_0_l, (nthZ_fmap_addr _ _ _ Hb).
  - apply list_eq_nthZ; [rewrite length_fmap; lia|]. intros x Hx0. rewrite Hx' by lia.
    zcases; try lia; cbn; try done; apply Hx; lia.
Qed.

Lemma call_ec_encode_data_ok m rows a rest srcs dests ins :
  1 <= rows <= p -> rows * k <= Z.of_nat (length a) -> Forall byte a ->
  Z.of_nat (length srcs) = k -> Z.of_nat (length ins) = k -> Forall (block_ok bs) ins ->
  (forall l, 0 <= l < k -> m !! nthZ srcs l = Some (rowZ ins l)) ->
  rows <= Z.of_nat (length dests) -> NoDup (take (Z.to_nat rows) dests) ->
  (forall r, 0 <= r < rows -> exists old, m !! nthZ dests r = Some old /\
     Z.of_nat (length old) = bs) ->
  exists m', call_ec_encode_data bs k rows (ec_init_tables k rows a ++ rest) srcs dests m = Some m' /\
    (forall r, 0 <= r < rows -> m' !! nthZ dests r = Some (rowZ (encode_blocks bs k rows a ins) r)) /\
    (forall b, (forall r, 0 <= r < rows -> b <> nthZ dests r) -> m' !! b = m !! b).
Proof.
  intros Hr Ha Hba Hls Hli Hbi Hsrc Hld Hndd Hold. unfold call_ec_encode_data, is_u32 in *.
  assert_ok by (apply Z.leb_le; lia). rewrite (gather_blocks m bs k srcs ins); [|done|done|].
  2:{ intros l Hl. split; [by apply Hsrc|].
      apply (Forall_lookup_1 _ _ (Z.to_nat l) _ Hbi), list_lookup_lookup_total_lt. lia. }
  cbn [mbind option_bind]. rewrite ec_encode_data_ok by done.
  apply (put_blocks m bs); try done; [lia| |].
  - unfold encode_blocks. rewrite length_fmap, length_seqZ. lia.
  - intros r Hr'. split; [|by apply Hold]. unfold encode_blocks. rewrite rowZ_map by done.
    rewrite length_fmap, length_seqZ. lia.
Qed.

Lemma holds_parts m olds :
  holds m bs data cs -> holds m bs parity olds -> holds m bs (data ++ parity) (cs ++ olds).
Proof. apply Forall2_app. Qed.

Lemma data_length m : holds m bs data cs -> Z.of_nat (length data) = k.
Proof. intros ->%holds_length. done. Qed.

Lemma NoDup_parity : NoDup (b_addr <$> parity).
Proof. rewrite fmap_app in Hnd. by apply NoDup_app in Hnd as (_ & _ & ?). Qed.

Lemma parity_not_data b a : b ∈ data -> a ∈ parity -> b_addr b <> b_addr a.
Proof.
  rewrite fmap_app in Hnd. apply NoDup_app in Hnd as (_ & Hd & _). intros Hb Ha E.
  apply (Hd (b_addr b)); [by apply list_elem_of_fmap_2|]. rewrite E. by apply list_elem_of_fmap_2.
Qed.

Lemma encode_ok math m olds :
  math_ready math -> holds m bs data cs -> holds m bs parity olds ->
  exists math' m1, reed_solomon_encode math data parity m = Some (math', m1) /\
    math_ready math' /\ holds m1 bs (data ++ parity) group_blocks /\
    forall a, a ∉ (b_addr <$> parity) -> m1 !! a = m !! a.
Proof.
  intros Hready Hd Hpa. unfold reed_solomon_encode. rewrite (ready_invariant _ Hready).
  cbn [M0_ASSERT mbind option_bind].
  destruct Hready as (Halg & Hdc & Hpc & Hm & Ht & Hdt & Hfi & Hal & (bi & Hbi & Hlbi) & (bo & Hbo & Hlbo)).
  destruct (holds_get _ _ _ _ 0 Hd) as (d0 & Hd0 & Hn0 & _); [lia|]. run Hd0.
  rewrite Hn0, u32_small by done. run Hbi. pose proof (data_length m Hd).
  rewrite arr_set_ok by lia. cbn [mbind option_bind]. rewrite Hdc, Hpc.
  rewrite (addr_loop data cs m); [|done|lia|lia|rewrite length_insert; lia|].
  2:{ intros x Hx. replace x with 0 by lia. rewrite nthZ_insert by lia. simpl.
      by rewrite (nthZ_fmap_addr _ _ _ Hd0). }
  cbn [mbind option_bind]. run Hbo. rewrite (addr_loop parity olds m); [|done|lia|lia|lia|lia].
  cbn [mbind option_bind]. run Ht. rewrite <- (app_nil_r (ec_init_tables _ _ _)).
  destruct (call_ec_encode_data_ok m p (drop (Z.to_nat (k * k)) C) [] (b_addr <$> data)
    (b_addr <$> parity) cs) as (m1 & E & Hin & Hout).
  - lia.
  - rewrite drop_cauchy_length. lia.
  - apply Forall_drop, cauchy_byte.
  - rewrite length_fmap. lia.
  - done.
  - done.
  - intros l Hl. destruct (holds_get _ _ _ _ l Hd) as (b & Hb & _ & Hmb & _); [lia|].
    by rewrite (nthZ_fmap_addr _ _ _ Hb).
  - rewrite length_fmap. lia.
  - rewrite take_ge by (rewrite length_fmap; lia). apply NoDup_parity.
  - intros r Hr. pose proof (holds_length _ _ _ _ Hpa).
    destruct (holds_get _ _ _ _ r Hpa) as (b & Hb & _ & Hmb & Hl & _); [lia|].
    rewrite (nthZ_fmap_addr _ _ _ Hb). by eexists.
  - rewrite E. cbn [mbind option_bind]. eexists _, _. split; [done|].
    assert (forall b, b ∉ (b_addr <$> parity) -> m1 !! b = m !! b) as Hframe.
    { intros b Hb. apply Hout. intros r Hr E'. apply Hb. rewrite E'.
      eapply list_elem_of_lookup_2. apply arr_get_Some, nthZ_get. rewrite length_fmap. lia. }
    split; [|split; [|done]].
    + split; [done|]. split; [done|]. split; [done|]. unfold rs_ready. cbn.
      repeat (split; [done|]). split; eexists; (split; [done|]); rewrite length_fmap; lia.
    + rewrite group_split. apply Forall2_app.
      * eapply holds_mono; [done|]. intros b Hb. apply Hframe.
        intros (a & Ea & Ha)%list_elem_of_fmap. by eapply (parity_not_data b a).
      * apply Forall2_same_length_lookup_2.
        { unfold encode_blocks. rewrite length_fmap, length_seqZ. lia. }
        intros i b c Hb Hc. pose proof (lookup_lt_Some _ _ _ Hb).
        assert (arr_get parity (Z.of_nat i) = Some b) as Hgb
          by (apply arr_get_Some; rewrite Nat2Z.id; split; [lia|done]).
        specialize (Hin (Z.of_nat i) ltac:(lia)). rewrite (nthZ_fmap_addr _ _ _ Hgb) in Hin.
        assert (rowZ (encode_blocks bs k p (drop (Z.to_nat (k * k)) C) cs) (Z.of_nat i) = c) as Ec
          by (unfold rowZ; rewrite Nat2Z.id; by apply list_lookup_total_correct).
        rewrite Ec in Hin. split.
        { destruct (Forall2_lookup_l _ _ _ _ _ Hpa Hb) as (? & _ & ? & _). done. }
        split; [done|]. rewrite <- Ec, group_parity_row by lia. apply unit_block_ok.
Qed.

(** *** Recovery *)

Lemma sub_matrix_nth a rows l j :
  0 <= l < k -> 0 <= j < k ->
  nthZ (sub_matrix k a rows) (k * l + j) = nthZ a (k * nthZ rows l + j).
Proof.
  intros Hl Hj. unfold sub_matrix. pose proof (row_index k k l j Hl Hj). rewrite nthZ_map by done.
  by destruct (div_mod_row k l j Hj) as [-> ->].
Qed.

(** *** Units from others: [failed] from the first [k] units of [alive] *)

Section rebuild.
Context (failed alive : list Z).
Hypothesis Hnr : 1 <= Z.of_nat (length failed) <= p.
Hypothesis Hfr : Forall (fun u => 0 <= u < k + p) failed.
Hypothesis Hae : k <= Z.of_nat (length alive).
Hypothesis Har : Forall (fun u => 0 <= u < k + p) alive.
Hypothesis Has : StronglySorted Z.lt alive.

Lemma alive_inverse : exists inv, gf_invert_matrix (sub_matrix k C (take (Z.to_nat k) alive)) k = Some inv /\
  Z.of_nat (length inv) = k * k /\ Forall byte inv /\
  forall i j, 0 <= i < k -> 0 <= j < k ->
    xsum k (fun l => gf_mul (nthZ inv (k * i + l)) (nthZ C (k * nthZ alive l + j))) = if i =? j then 1 else 0.
Proof.
  set (rows := take (Z.to_nat k) alive).
  assert (Z.of_nat (length rows) = k) as Hlr by (unfold rows; rewrite length_take; lia).
  destruct (cauchy_invertible (k := k) (p := p) rows) as [inv Hinv].
  { done. }
  { by apply StronglySorted_take_lt. }
  { by apply Forall_take. }
  destruct (gf_invert_ok (k := k) (p := p) (sub_matrix k C rows) inv) as (Hli & Hbi & Hid); [| |done|].
  { unfold sub_matrix. rewrite length_fmap, length_seqZ. nia. }
  { apply Forall_fmap, Forall_seqZ. intros. apply cauchy_get_byte. }
  exists inv. split_and!; try done. intros i j Hi Hj. rewrite <- Hid by done. apply xsum_ext. intros l Hl.
  rewrite sub_matrix_nth by done. unfold rows. by rewrite nthZ_take by lia.
Qed.

(** The tables make a call of ec_encode_data() multiply by the decoding
    coefficients of an inverse of the rows of the alive units. *)
Lemma gen_recov_ok mem rs r1 r2 dtbls :
  rs_encode_matrix rs = Some C -> rs_failed_nr rs = Z.of_nat (length failed) ->
  rs_failed_idx rs = Some (failed ++ r1) -> rs_alive_idx rs = Some (alive ++ r2) ->
  rs_decode_tbls rs = Some dtbls -> Z.of_nat (length dtbls) = 32 * k * p ->
  (forall i, 0 <= i < 3 -> mem i = true) ->
  exists inv dec rest, let tbls := ec_init_tables k (Z.of_nat (length failed)) dec ++ rest in
    isal_gen_recov_coeff_tbl mem k p rs = Some (0, with_decode_tbls rs (Some tbls)) /\
    Z.of_nat (length tbls) = 32 * k * p /\
    gf_invert_matrix (sub_matrix k C (take (Z.to_nat k) alive)) k = Some inv /\
    Forall byte inv /\ Forall byte dec /\
    Z.of_nat (length failed) * k <= Z.of_nat (length dec) /\
    (forall r i, 0 <= r < Z.of_nat (length failed) -> 0 <= i < k ->
       nthZ dec (k * r + i) = decode_coeff (k := k) (p := p) inv (nthZ failed r) i) /\
    (forall i j, 0 <= i < k -> 0 <= j < k ->
       xsum k (fun l => gf_mul (nthZ inv (k * i + l)) (nthZ C (k * nthZ alive l + j))) =
       if i =? j then 1 else 0).
Proof.
  intros Hm Hn Hf Ha Hd Hld Hmem. unfold isal_gen_recov_coeff_tbl, M0_ALLOC_ARR.
  destruct group_small as (H1 & H2 & _). rewrite (u32_small (k + p)), (u32_small ((k + p) * k)) by done.
  rewrite (Hmem 0), (Hmem 1), (Hmem 2) by lia. run Hm. run Ha. run Hf.
  set (zeros := replicate _ 0). unfold is_u32 in H2.
  assert (Z.of_nat (length zeros) = (k + p) * k) as Hlz
    by (unfold zeros; rewrite length_replicate; lia).
  destruct (recov_temp_mat_ok (k := k) (p := p) ltac:(lia) ltac:(lia) (alive ++ r2) zeros)
    as (temp & -> & Htemp).
  { rewrite length_app. lia. }
  { intros l Hl. rewrite nthZ_app_l by lia. apply (Forall_nthZ_range (fun u => 0 <= u < k + p)); [done|lia]. }
  { nia. }
  cbn [mbind option_bind]. rewrite Htemp, take_app_le by lia.
  destruct alive_inverse as (inv & Hinv & Hli & Hbi & Hid). rewrite Hinv.
  rewrite arr_put_ok by nia. cbn [mbind option_bind]. rewrite Hn.
  set (inv' := inv ++ _).
  assert (Forall byte inv') as Hbi'.
  { apply Forall_app. split; [done|]. apply Forall_drop, Forall_replicate. unfold byte. lia. }
  destruct (recov_decode_mat_ok (k := k) (p := p) ltac:(lia) ltac:(lia) (Z.of_nat (length failed))
    (failed ++ r1)
    inv' zeros) as (dec & -> & Hldec & Hbdec & Hdec).
  { lia. }
  { rewrite length_app. lia. }
  { intros r Hr. rewrite nthZ_app_l by lia. by apply Forall_nthZ_range. }
  { unfold inv'. rewrite length_app. lia. }
  { done. }
  { nia. }
  { apply Forall_replicate. unfold byte. lia. }
  cbn [mbind option_bind]. run Hd.
  pose proof (ec_init_tables_length (k := k) (p := p) (Z.of_nat (length failed)) dec
    ltac:(lia) ltac:(nia)) as Hlt.
  rewrite arr_put_ok by nia. cbn [mbind option_bind].
  exists inv, dec, (drop (length (ec_init_tables k (Z.of_nat (length failed)) dec)) dtbls).
  cbn zeta. split; [done|]. split; [rewrite length_app, length_drop; nia|].
  split; [done|]. split; [done|]. split; [done|]. split; [nia|]. split; [|done].
  intros r i Hr Hi. rewrite Hdec by done. rewrite nthZ_app_l by lia. by apply decode_coeff_app.
Qed.

Section coefficients.
Context (inv dec : list Z).
Hypothesis Hbi : Forall byte inv.
Hypothesis Hbd : Forall byte dec.
Hypothesis Hld : Z.of_nat (length failed) * k <= Z.of_nat (length dec).
Hypothesis Hdec : forall r i, 0 <= r < Z.of_nat (length failed) -> 0 <= i < k ->
  nthZ dec (k * r + i) = decode_coeff (k := k) (p := p) inv (nthZ failed r) i.
Hypothesis Hinv : forall i j, 0 <= i < k -> 0 <= j < k ->
  xsum k (fun l => gf_mul (nthZ inv (k * i + l)) (nthZ C (k * nthZ alive l + j))) =
  if i =? j then 1 else 0.

(** The contents of the first [k] alive units. *)
Definition alive_blocks : list (list Z) := (fun l => unit_block (nthZ alive l)) <$> seqZ 0 k.

(** Every unit, of the alive ones. *)
Lemma rebuilt_unit u :
  (fun x => xsum k (fun l => gf_mul (decode_coeff (k := k) (p := p) inv u l)
    (nthZ (unit_block (nthZ alive l)) x))) <$> seqZ 0 bs = unit_block u.
Proof.
  apply list_fmap_ext. intros i x Hx. apply lookup_seqZ in Hx as [-> Hx].
  rewrite <- (decode_unit (k := k) (p := p) (fun u i => nthZ C (k * u + i))
    (fun j l => nthZ inv (k * j + l)) (nthZ alive)); [|intros; split|intros|intros|done|lia].
  - apply xsum_ext. intros l Hl. f_equal. unfold unit_block. by rewrite nthZ_map by lia.
  - apply cauchy_get_byte.
  - apply Forall_nthZ; [unfold byte; lia|done].
  - apply cauchy_get_byte.
  - apply source_byte_ok.
Qed.

Lemma rebuilt_row r :
  0 <= r < Z.of_nat (length failed) ->
  rowZ (encode_blocks bs k (Z.of_nat (length failed)) dec alive_blocks) r = unit_block (nthZ failed r).
Proof.
  intros Hr. unfold encode_blocks. rewrite rowZ_map by done. rewrite <- rebuilt_unit.
  apply list_fmap_ext. intros i x _. apply xsum_ext. intros l Hl. rewrite Hdec by done. f_equal.
  unfold alive_blocks. by rewrite rowZ_map by done.
Qed.

End coefficients.

End rebuild.

Section recover.
Context (fail : list Z).
Notation failed := (failed_units fail (k + p)).
Notation alive := (alive_units fail (k + p)).
Hypothesis Hfail : Z.of_nat (length fail) = k + p.
Hypothesis Hnr : 1 <= Z.of_nat (length failed) <= p.

Lemma alive_enough : k <= Z.of_nat (length alive).
Proof. pose proof (units_length fail (k + p) ltac:(lia)). lia. Qed.

Lemma alive_first_range l : 0 <= l < k -> 0 <= nthZ alive l < k + p.
Proof.
  intros Hl. apply (Forall_nthZ_range (fun u => 0 <= u < k + p)); [apply alive_range|].
  pose proof alive_enough. lia.
Qed.

(** The address of a unit. *)
Definition unit_addr (u : Z) : Z := nthZ (b_addr <$> data ++ parity) u.

Lemma unit_addr_inj u v :
  0 <= u < Z.of_nat (length (data ++ parity)) -> 0 <= v < Z.of_nat (length (data ++ parity)) ->
  unit_addr u = unit_addr v -> u = v.
Proof.
  intros Hu Hv E. assert (Z.to_nat u = Z.to_nat v); [|lia].
  apply (NoDup_lookup (b_addr <$> data ++ parity) _ _ (unit_addr u)); [exact Hnd| |rewrite E];
    apply arr_get_Some, nthZ_get; rewrite length_fmap; lia.
Qed.

(** The store after some failed units were overwritten. *)
Definition scribbled (m1 m2 : blocks) : Prop :=
  (forall a, (forall u, u ∈ failed -> a <> unit_addr u) -> m2 !! a = m1 !! a) /\
  forall u, u ∈ failed -> exists junk, m2 !! unit_addr u = Some junk /\ Z.of_nat (length junk) = bs.

Section run.
Context (m1 m2 : blocks).
Hypothesis Hg : holds m1 bs (data ++ parity) group_blocks.
Hypothesis Hs : scribbled m1 m2.

Lemma group_bufs_length : Z.of_nat (length (data ++ parity)) = k + p.
Proof. rewrite (holds_length _ _ _ _ Hg). apply group_length. Qed.

Lemma group_unit u :
  0 <= u < k + p -> m1 !! unit_addr u = Some (unit_block u).
Proof.
  intros Hu. destruct (holds_get _ _ _ _ u Hg) as (b & Hb & _ & Hm & _); [rewrite group_length; lia|].
  unfold unit_addr. rewrite (nthZ_fmap_addr _ _ _ Hb), Hm. by rewrite group_row.
Qed.

Lemma alive_failed_disjoint u v : u ∈ alive -> v ∈ failed -> unit_addr u <> unit_addr v.
Proof.
  intros [Hu Hu']%list_elem_of_filter [Hv Hv']%list_elem_of_filter E.
  apply elem_of_seqZ in Hu'. apply elem_of_seqZ in Hv'.
  apply unit_addr_inj in E; rewrite ?group_bufs_length; try lia. congruence.
Qed.

Lemma elem_of_nthZ l x : 0 <= x < Z.of_nat (length l) -> nthZ l x ∈ l.
Proof. intros Hx. eapply list_elem_of_lookup_2. apply arr_get_Some, nthZ_get, Hx. Qed.

Lemma nthZ_fmap (f : Z -> Z) l x :
  0 <= x < Z.of_nat (length l) -> nthZ (f <$> l) x = f (nthZ l x).
Proof.
  intros Hx. unfold nthZ at 1. rewrite list_lookup_fmap.
  by pose proof (nthZ_get l x Hx) as [_ ->]%arr_get_Some.
Qed.

Lemma failed_addrs_NoDup : NoDup (unit_addr <$> failed).
Proof.
  apply NoDup_alt. intros i j a. rewrite !list_lookup_fmap.
  destruct (failed !! i) as [u|] eqn:Eu; [|done]. destruct (failed !! j) as [v|] eqn:Ev; [|done].
  simpl. intros [= <-] [= E]. pose proof (Forall_lookup_1 _ _ _ _ (failed_range fail (k + p)) Eu).
  pose proof (Forall_lookup_1 _ _ _ _ (failed_range fail (k + p)) Ev). cbn beta in *.
  apply unit_addr_inj in E; rewrite ?group_bufs_length; try lia. subst v.
  eapply (NoDup_lookup failed); [|done|done]. apply NoDup_filter, NoDup_seqZ.
Qed.

Section coefficients.
Context (inv dec : list Z).
Hypothesis Hbi : Forall byte inv.
Hypothesis Hbd : Forall byte dec.
Hypothesis Hld : Z.of_nat (length failed) * k <= Z.of_nat (length dec).
Hypothesis Hdec : forall r i, 0 <= r < Z.of_nat (length failed) -> 0 <= i < k ->
  nthZ dec (k * r + i) = decode_coeff (k := k) (p := p) inv (nthZ failed r) i.
Hypothesis Hinv : forall i j, 0 <= i < k -> 0 <= j < k ->
  xsum k (fun l => gf_mul (nthZ inv (k * i + l)) (nthZ C (k * nthZ alive l + j))) =
  if i =? j then 1 else 0.

(** Coding the alive units with the decoding coefficients rebuilds the failed
    units in place. *)
Lemma recover_store rest bufs_out :
  call_ec_encode_data bs k (Z.of_nat (length failed))
    (ec_init_tables k (Z.of_nat (length failed)) dec ++ rest)
    (take (Z.to_nat k) (unit_addr <$> alive)) ((unit_addr <$> failed) ++ bufs_out) m2 = Some m1.
Proof.
  pose proof alive_enough as Hae. set (nf := Z.of_nat (length failed)) in *.
  assert (forall r, 0 <= r < nf -> nthZ ((unit_addr <$> failed) ++ bufs_out) r =
    unit_addr (nthZ failed r)) as Hdest
    by (intros; rewrite nthZ_app_l by (rewrite length_fmap; lia); by apply nthZ_fmap).
  destruct (call_ec_encode_data_ok m2 nf dec rest (take (Z.to_nat k) (unit_addr <$> alive))
    ((unit_addr <$> failed) ++ bufs_out) (alive_blocks alive)) as (m3 & E & Hin & Hout); try done.
  - rewrite length_take, length_fmap. lia.
  - unfold alive_blocks. rewrite length_fmap, length_seqZ. lia.
  - apply Forall_fmap, Forall_seqZ. intros. apply unit_block_ok.
  - intros l Hl. unfold alive_blocks. rewrite rowZ_map, nthZ_take, nthZ_fmap by lia.
    rewrite (proj1 Hs); [by apply group_unit, alive_first_range|].
    intros u Hu. by apply alive_failed_disjoint; [apply elem_of_nthZ; lia|].
  - rewrite length_app, length_fmap. lia.
  - replace (Z.to_nat nf) with (length (unit_addr <$> failed)) by (rewrite length_fmap; lia).
    rewrite take_app_length. apply failed_addrs_NoDup.
  - intros r Hr. rewrite Hdest by done. apply Hs. by apply elem_of_nthZ.
  - rewrite E. f_equal. apply map_eq. intros a.
    destruct (decide (a ∈ unit_addr <$> failed))
      as [(u & -> & [i Hi]%list_elem_of_lookup)%list_elem_of_fmap|Hno].
    + pose proof (lookup_lt_Some _ _ _ Hi).
      assert (nthZ failed (Z.of_nat i) = u) as <- by (unfold nthZ; by rewrite Nat2Z.id, Hi).
      rewrite <- Hdest, Hin by lia. rewrite Hdest by lia.
      rewrite (rebuilt_row failed alive Hnr inv dec Hbi Hdec Hinv) by lia.
      rewrite group_unit; [done|]. apply Forall_nthZ_range; [apply failed_range|lia].
    + rewrite Hout; [apply (proj1 Hs)|].
      * intros u Hu ->. apply Hno. by apply list_elem_of_fmap_2.
      * intros r Hr ->. apply Hno. rewrite Hdest by done.
        apply list_elem_of_fmap_2. by apply elem_of_nthZ.
Qed.

End coefficients.

Lemma group_parts :
  holds m1 bs data cs /\ holds m1 bs parity (encode_blocks bs k p (drop (Z.to_nat (k * k)) C) cs) /\
  Z.of_nat (length data) = k.
Proof.
  pose proof group_bufs_length as Hl. rewrite length_app in Hl.
  pose proof Hg as H. rewrite group_split in H. apply Forall2_app_inv in H as [? ?]; [|lia].
  split; [done|]. split; [done|]. lia.
Qed.

(** Everything up to the generation of the tables. *)
Lemma recover_prefix mem math :
  math_ready math ->
  exists bufs_out rs, rs_encode_matrix rs = Some C /\
    rs_failed_nr rs = Z.of_nat (length failed) /\
    (exists r1, rs_failed_idx rs = Some (failed ++ r1) /\ Z.of_nat (length (failed ++ r1)) = p) /\
    (exists r2, rs_alive_idx rs = Some (alive ++ r2) /\ Z.of_nat (length (alive ++ r2)) = k + p) /\
    rs_encode_tbls rs = Some (ec_init_tables k p (drop (Z.to_nat (k * k)) C)) /\
    (exists dtbls, rs_decode_tbls rs = Some dtbls /\ Z.of_nat (length dtbls) = 32 * k * p) /\
    rs_bufs_in rs = Some (take (Z.to_nat k) (unit_addr <$> alive)) /\
    rs_bufs_out rs = Some ((unit_addr <$> failed) ++ bufs_out) /\
    Z.of_nat (length ((unit_addr <$> failed) ++ bufs_out)) = p /\
    reed_solomon_recover mem math data parity fail m2 =
      '(ret, rs) ← isal_gen_recov_coeff_tbl mem k p rs;
      if negb (ret =? 0) then Some (ret, with_rs math rs, m2)
      else
        tbls ← rs_decode_tbls rs;
        bufs_in ← rs_bufs_in rs;
        bufs_out ← rs_bufs_out rs;
        m ← call_ec_encode_data bs k (Z.of_nat (length failed)) tbls bufs_in bufs_out m2;
        Some (ret, with_rs math rs, m).
Proof.
  intros Hready. unfold reed_solomon_recover. rewrite (ready_invariant _ Hready).
  destruct Hready as (Halg & -> & -> & Hm & Ht & (dt & Hdt & Hldt) & (fi & Hfi & Hlfi) &
    (al & Hal & Hlal) & (bi & Hbi & Hlbi) & (bo & Hbo & Hlbo)).
  destruct group_parts as (Hd & Hpa & Hld). destruct group_small as (H1 & _).
  cbn [M0_ASSERT mbind option_bind]. rewrite (u32_small (k + p)) by done.
  destruct (holds_get _ _ _ _ 0 Hd) as (d0 & -> & Hn0 & _); [lia|]. cbn [mbind option_bind].
  rewrite Hn0, u32_small by done. run (fails_count_ok fail (k + p) Hfail H1).
  assert_ok by lia. assert_ok by lia. run (block_sizes_ok m1 bs data cs) by (done || lia).
  run (block_sizes_ok m1 bs parity (encode_blocks bs k p (drop (Z.to_nat (k * k)) C) cs) 0 p Hpa)
    by (lia || rewrite <- (holds_length _ _ _ _ Hpa); lia).
  destruct (buf_sort_ok fail k p ltac:(lia) ltac:(lia) Hfail (proj2 Hnr) (pmi_rs math) data parity
    bi bo Hld Hlp Hbi Hbo Hlbi Hlbo) as (bufs_out & -> & Hlo). cbn [mbind option_bind].
  set (rs1 := with_bufs _ _ _).
  destruct (fails_sort_ok fail k p ltac:(lia) ltac:(lia) ltac:(lia) Hfail (proj2 Hnr) rs1 fi al Hfi Hal
    Hlfi Hlal) as (r1 & r2 & -> & Hl1 & Hl2). cbn [mbind option_bind]. cbn [rs_failed_nr with_idx].
  assert_ok by lia.
  exists bufs_out, (with_idx rs1 (Z.of_nat (length failed)) (Some (failed ++ r1)) (Some (alive ++ r2))).
  split_and!; try done.
  - exists r1. split; [done|lia].
  - exists r2. split; [done|lia].
  - by exists dt.
  - etrans; [|exact Hlbo]. f_equal. exact Hlo.
Qed.

Lemma recover_ok mem math :
  math_ready math -> (forall i, 0 <= i < 3 -> mem i = true) ->
  exists math', reed_solomon_recover mem math data parity fail m2 = Some (0, math', m1) /\
    math_ready math'.
Proof.
  intros Hready Hmem.
  destruct (recover_prefix mem math Hready) as (bo & rs & Hm & Hnf & (r1 & Hfi & Hl1) &
    (r2 & Hal & Hl2) & Het & (dt & Hdt & Hldt) & Hbi & Hbo & Hlbo & ->).
  destruct (gen_recov_ok failed alive Hnr (failed_range _ _) alive_enough (alive_range _ _)
    (StronglySorted_filter_lt _ _ (seqZ_sorted _)) mem rs r1 r2 dt Hm Hnf Hfi Hal Hdt Hldt Hmem)
    as (inv & dec & rest & -> & Hlt & _ & Hbin & Hbdec & Hldec & Hdec & Hinv).
  cbn [mbind option_bind]. cbn [negb Z.eqb rs_decode_tbls with_decode_tbls rs_bufs_in rs_bufs_out].
  run Hbi. run Hbo. rewrite (recover_store inv dec Hbin Hbdec Hldec Hdec Hinv).
  cbn [mbind option_bind]. eexists. split; [done|].
  destruct Hready as (? & ? & ? & _). split; [done|]. split; [done|]. split; [done|].
  pose proof alive_enough. unfold rs_ready. cbn.
  split_and!; try done; eexists; (split; [eassumption || done|]); try done.
  rewrite length_take, length_fmap. lia.
Qed.

Lemma recover_nomem mem math :
  math_ready math -> (exists i, 0 <= i < 3 /\ mem i = false) ->
  exists math', reed_solomon_recover mem math data parity fail m2 = Some (- ENOMEM, math', m2) /\
    math_ready math'.
Proof.
  intros Hready (i & Hi & Hmem).
  destruct (recover_prefix mem math Hready) as (bo & rs & Hm & Hnf & (r1 & Hfi & Hl1) &
    (r2 & Hal & Hl2) & Het & (dt & Hdt & Hldt) & Hbi & Hbo & Hlbo & ->).
  exists (with_rs math rs). split.
  - unfold isal_gen_recov_coeff_tbl, M0_ALLOC_ARR.
    assert (i = 0 \/ i = 1 \/ i = 2) as [->|[->| ->]] by lia; rewrite Hmem;
      destruct (mem 0), (mem 1); done.
  - destruct Hready as (? & ? & ? & _). pose proof alive_enough. split; [done|]. split; [done|].
    split; [done|]. unfold rs_ready. cbn. split_and!; try done; eexists; (split; [eassumption || done|]);
      try done.
    rewrite length_take, length_fmap. lia.
Qed.

End run.

End recover.

(** Adding one source, with its coefficients, to the coded blocks. *)
Lemma encode_data_update_ok m rows a rest dests olds src i :
  1 <= rows <= p -> rows * k <= Z.of_nat (length a) -> Forall byte a -> 0 <= i < k -> block_ok bs src ->
  holds m bs dests olds -> Z.of_nat (length dests) = rows -> NoDup (b_addr <$> dests) ->
  exists m', isal_encode_data_update true dests src i (ec_init_tables k rows a ++ rest) k rows m = Some (0,
    m') /\
    (forall r, 0 <= r < rows -> m' !! nthZ (b_addr <$> dests) r =
       Some ((fun x => Z.lxor (nthZ (rowZ olds r) x) (gf_mul (nthZ a (k * r + i)) (nthZ src x))) <$> seqZ 0
         bs)) /\
    (forall b, (forall r, 0 <= r < rows -> b <> nthZ (b_addr <$> dests) r) -> m' !! b = m !! b).
Proof.
  intros Hrows Hla Hba Hi Hsrc Hh Hld Hndd. unfold isal_encode_data_update. cbn [negb]. unfold is_u32 in Hbs.
  destruct Hsrc as [Hls Hbsrc]. rewrite Hls, u32_small by done.
  pose proof (holds_length _ _ _ _ Hh) as Hlo.
  rewrite (addr_loop dests _ m 0 rows _ Hh); [|lia|lia|rewrite length_replicate; lia|lia].
  cbn [mbind option_bind]. unfold call_ec_encode_data_update. rewrite length_fmap.
  assert_ok by (apply Z.leb_le; lia).
  assert (forall r, 0 <= r < rows -> m !! nthZ (b_addr <$> dests) r = Some (rowZ olds r) /\
    Z.of_nat (length (rowZ olds r)) = bs) as Hold.
  { intros r Hr. destruct (holds_get _ _ _ _ r Hh) as (b & Hb & _ & Hmb & Hlb & _); [lia|].
    by rewrite (nthZ_fmap_addr _ _ _ Hb). }
  rewrite (gather_blocks m bs rows _ olds); [|rewrite length_fmap; lia|lia|done].
  cbn [mbind option_bind]. rewrite ec_encode_data_update_ok; try done; [|lia|].
  2:{ apply Forall_lookup_2. intros j b Hb.
      by destruct (Forall2_lookup_r _ _ _ _ _ Hh Hb) as (? & _ & _ & _ & ? & ?). }
  edestruct (put_blocks m bs rows (b_addr <$> dests)) as (m' & E & Hin & Hout).
  6:{ rewrite E. exists m'. split; [done|]. split; [|done]. intros r Hr. by rewrite Hin, rowZ_map. }
  - lia.
  - rewrite length_fmap, length_seqZ. lia.
  - rewrite length_fmap. lia.
  - by rewrite take_ge by (rewrite length_fmap; lia).
  - intros r Hr. rewrite rowZ_map, length_fmap, length_seqZ by done. split; [lia|].
    exists (rowZ olds r). by apply Hold.
Qed.

(** *** Differential update *)

Section diff.
Context (i : Z) (c : list Z).
Hypothesis Hi : 0 <= i < k.
Hypothesis Hc : block_ok bs c.

(** The difference of the two versions of unit [i]. *)
Definition delta : list Z := zip_with Z.lxor (rowZ cs i) c.

Lemma old_ok : block_ok bs (rowZ cs i).
Proof. apply (Forall_lookup_1 _ _ (Z.to_nat i) _ Hcb), list_lookup_lookup_total_lt. lia. Qed.

Lemma delta_nth x : 0 <= x < bs -> nthZ delta x = Z.lxor (nthZ (rowZ cs i) x) (nthZ c x).
Proof.
  intros Hx. destruct old_ok as [Hlo _]. destruct Hc as [Hlc _].
  apply nthZ_of_get, arr_get_Some. split; [lia|]. unfold delta. apply lookup_zip_with_Some.
  eexists _, _. split; [done|]. split; apply arr_get_Some, nthZ_get; lia.
Qed.

Lemma delta_ok : block_ok bs delta.
Proof.
  destruct old_ok as [Hlo Hbo]. destruct Hc as [Hlc Hbc]. split.
  - unfold delta. rewrite length_zip_with. lia.
  - by apply Forall_byte_zip.
Qed.

(** Adding the coded difference to a parity unit gives the unit of the group
    with the new version. *)
Lemma encode_update r x :
  0 <= r < p -> 0 <= x < bs ->
  let a := drop (Z.to_nat (k * k)) C in
  Z.lxor (nthZ (rowZ (encode_blocks bs k p a cs) r) x) (gf_mul (nthZ a (k * r + i)) (nthZ delta x)) =
  nthZ (rowZ (encode_blocks bs k p a (<[Z.to_nat i := c]> cs)) r) x.
Proof.
  intros Hr Hx a. unfold encode_blocks. rewrite !rowZ_map, !nthZ_map by done.
  assert (forall y, byte (nthZ a y)) as Ha.
  { intros. apply Forall_nthZ; [unfold byte; lia|]. apply Forall_drop, (cauchy_byte (p := p)). }
  assert (forall y, byte (nthZ c y)) as Hcb'
    by (intros; apply Forall_nthZ; [unfold byte; lia|apply Hc]).
  rewrite delta_nth, (gf_mul_lxor (k := k) (p := p)) by (done || apply source_byte_ok).
  rewrite (xsum_split k i (fun j => gf_mul (nthZ a (k * r + j)) (nthZ (rowZ cs j) x))) by done.
  rewrite (xsum_split k i (fun j => gf_mul (nthZ a (k * r + j))
    (nthZ (rowZ (<[Z.to_nat i:=c]> cs) j) x))) by done.
  replace (rowZ (<[Z.to_nat i:=c]> cs) i) with c
    by (unfold rowZ; by rewrite list_lookup_total_insert_eq by lia).
  symmetry.
  erewrite (xsum_ext k (fun j => if j =? i then 0 else gf_mul (nthZ a (k * r + j))
    (nthZ (rowZ (<[Z.to_nat i:=c]> cs) j) x))); [apply lxor_swap|].
  intros j Hj. cbn beta. zcases; [done|]. unfold rowZ. by rewrite list_lookup_total_insert_ne by lia.
Qed.

Lemma isal_update_ok m :
  holds m bs parity (encode_blocks bs k p (drop (Z.to_nat (k * k)) C) cs) ->
  exists m', isal_encode_data_update true parity delta i
      (ec_init_tables k p (drop (Z.to_nat (k * k)) C)) k p m = Some (0, m') /\
    (forall r, 0 <= r < p -> m' !! nthZ (b_addr <$> parity) r =
       Some (rowZ (encode_blocks bs k p (drop (Z.to_nat (k * k)) C) (<[Z.to_nat i := c]> cs)) r)) /\
    (forall a, (forall r, 0 <= r < p -> a <> nthZ (b_addr <$> parity) r) -> m' !! a = m !! a).
Proof.
  intros Hpa. rewrite <- (app_nil_r (ec_init_tables _ _ _)).
  destruct (encode_data_update_ok m p (drop (Z.to_nat (k * k)) C) [] parity
    (encode_blocks bs k p (drop (Z.to_nat (k * k)) C) cs) delta i) as (m' & E & Hin & Hout);
    [lia|rewrite drop_cauchy_length; lia|apply Forall_drop,
      (cauchy_byte (p := p))|done|apply delta_ok|exact Hpa|done|apply NoDup_parity|].
  exists m'. split; [done|]. split; [|done]. intros r Hr. rewrite Hin by done. unfold is_u32 in Hbs.
  f_equal. apply list_eq_nthZ; rewrite length_fmap, length_seqZ.
  - unfold encode_blocks. by rewrite rowZ_map, length_fmap, length_seqZ by done.
  - intros x Hx. rewrite nthZ_map by lia. apply encode_update; lia.
Qed.

Lemma diff_ok mem math m new n :
  math_ready math -> holds m bs data cs ->
  holds m bs parity (encode_blocks bs k p (drop (Z.to_nat (k * k)) C) cs) ->
  arr_get new i = Some n -> b_nob n = bs -> m !! b_addr n = Some c -> (8 | bs) ->
  exists ret m', reed_solomon_diff mem math data new parity i m = Some (ret, m') /\
    if mem 0 && mem 1 then ret = 0 /\
      (forall r, 0 <= r < p -> m' !! nthZ (b_addr <$> parity) r =
         Some (rowZ (encode_blocks bs k p (drop (Z.to_nat (k * k)) C) (<[Z.to_nat i := c]> cs)) r)) /\
      (forall a, (forall r, 0 <= r < p -> a <> nthZ (b_addr <$> parity) r) -> m' !! a = m !! a)
    else ret = - ENOMEM /\ m' = m.
Proof.
  intros Hready Hd Hpa Hn Hnb Hnm [w Hw]. unfold reed_solomon_diff.
  rewrite (ready_invariant _ Hready). destruct Hready as (_ & -> & -> & _ & Ht & _).
  cbn [M0_ASSERT mbind option_bind]. assert_ok by lia.
  destruct (holds_get _ _ _ _ i Hd) as (o & -> & Hob & Hom & Hol & Hoby); [lia|].
  cbn [mbind option_bind]. run Hn. rewrite Hob, Hnb, Z.eqb_refl. cbn [negb].
  rewrite u32_small by done. unfold m0_is_aligned.
  change (m0_is_po2 WORD) with true. cbn [M0_ASSERT mbind option_bind].
  replace (Z.land bs (u64 (WORD - 1))) with 0.
  2:{ change (u64 (WORD - 1)) with (Z.ones 3). rewrite Z.land_ones, Hw by lia.
      symmetry. apply Z_mod_mult. }
  cbn [Z.eqb M0_ASSERT mbind option_bind]. unfold M0_ALLOC_ARR.
  destruct (mem 0); [|by eexists _, _]. rewrite Hom, Hnm.
  cbn [mbind option_bind andb]. destruct Hc as [Hlc Hbc].
  unfold is_u32 in Hbs. change WORD with 8. replace (bs / 8) with w
    by (rewrite Hw; symmetry; by apply Z_div_mult).
  rewrite word_loop_ok; try done; [|lia..|rewrite length_replicate; lia]. fold delta.
  cbn [mbind option_bind]. run Ht. destruct (mem 1); [|by eexists _, _].
  destruct (isal_update_ok m Hpa) as (m' & -> & H). by eexists _, m'.
Qed.

End diff.

End operations.

(** ** Properties *)

Lemma init_counts {isal : ISAL} mem k p math :
  m0_parity_math_init mem k p = Some (0, math) -> 1 <= p <= k /\ k <= 128.
Proof.
  unfold m0_parity_math_init. intros ([] & Hinv & _)%bind_Some. apply M0_ASSERT_Some in Hinv.
  unfold parity_math_invariant in Hinv. cbn [pmi_data_count pmi_parity_count] in Hinv.
  change SNS_PARITY_MATH_DATA_BLOCKS_MAX with 128 in Hinv. boolp. lia.
Qed.

Lemma holds_blocks m bs bufs cs : holds m bs bufs cs -> Forall (block_ok bs) cs.
Proof.
  intros H. apply Forall_lookup_2. intros i c Hc.
  by destruct (Forall2_lookup_r _ _ _ _ _ H Hc) as (? & _ & _ & _ & ? & ?).
Qed.

(** A store is determined by what it holds for the parity units and outside. *)
Lemma parity_store_eq (m m1 m2 : blocks) bs parity rows :
  holds m2 bs parity rows -> (forall a, a ∉ (b_addr <$> parity) -> m2 !! a = m !! a) ->
  (forall r, 0 <= r < Z.of_nat (length parity) -> m1 !! nthZ (b_addr <$> parity) r = Some (rowZ rows r)) ->
  (forall a, (forall r, 0 <= r < Z.of_nat (length parity) -> a <> nthZ (b_addr <$> parity) r) ->
     m1 !! a = m !! a) ->
  m2 = m1.
Proof.
  intros H2 Hf2 H1 Hf1. apply map_eq. intros a.
  destruct (decide (a ∈ (b_addr <$> parity)))
    as [(b & -> & [i Hi]%list_elem_of_lookup)%list_elem_of_fmap|Hno].
  - pose proof (lookup_lt_Some _ _ _ Hi) as Hlt.
    assert (arr_get parity (Z.of_nat i) = Some b) as Hb
      by (apply arr_get_Some; rewrite Nat2Z.id; split; [lia|done]).
    specialize (H1 (Z.of_nat i) ltac:(lia)). rewrite (nthZ_fmap_addr _ _ _ Hb) in H1. rewrite H1.
    pose proof (holds_length _ _ _ _ H2).
    destruct (holds_get _ _ _ _ (Z.of_nat i) H2) as (b' & Hb' & _ & Hm & _); [lia|]. congruence.
  - rewrite Hf2 by done. symmetry. apply Hf1. intros r Hr ->. apply Hno.
    apply elem_of_nthZ. rewrite length_fmap. lia.
Qed.

(** C1. Several parity units: after m0_parity_math_init() and
    m0_parity_math_calculate(), which changes the parity buffers only, any set
    of at most [parity_count] units of the group, data and parity in any
    combination, may be overwritten: m0_parity_math_recover() with their flags
    set restores the contents of every buffer, or, when an allocation fails,
    returns -ENOMEM and changes no buffer. *)
Theorem rs_group_recovery {isal : ISAL} mem k p {laws : ISALLaws isal k p} math data parity m bs cs olds :
  m0_parity_math_init mem k p = Some (0, math) -> p <> 1 ->
  Z.of_nat (length cs) = k -> Z.of_nat (length parity) = p -> is_u32 bs ->
  NoDup (b_addr <$> data ++ parity) -> holds m bs data cs -> holds m bs parity olds ->
  exists math1 m1, m0_parity_math_calculate math data parity m = Some (math1, m1) /\
    (forall a, a ∉ (b_addr <$> parity) -> m1 !! a = m !! a) /\
    forall fail m2 mem', Z.of_nat (length fail) = k + p ->
      1 <= Z.of_nat (length (failed_units fail (k + p))) <= p ->
      scribbled k p bs data parity fail m1 m2 ->
      exists math2 ret m3, m0_parity_math_recover mem' math1 data parity fail m2 = Some (ret, math2, m3) /\
        if forallb mem' [0; 1; 2] then ret = 0 /\ m3 = m1 else ret = - ENOMEM /\ m3 = m2.
Proof.
  intros Hinit Hp1 Hcs Hlp Hbs Hnd Hd Hpa. destruct (init_counts _ _ _ _ Hinit) as [Hp Hk].
  apply init_ready in Hinit; try done. pose proof (holds_blocks _ _ _ _ Hd) as Hcb.
  destruct (encode_ok k p Hk Hp bs cs data parity Hbs Hcs Hcb Hnd Hlp math m olds Hinit Hd Hpa)
    as (math1 & m1 & E & Hready & Hg & Hframe).
  exists math1, m1. split; [|split; [done|]].
  { unfold m0_parity_math_calculate. by rewrite (proj1 Hinit). }
  intros fail m2 mem' Hfail Hnr Hs. unfold m0_parity_math_recover. rewrite (proj1 Hready).
  destruct (forallb mem' [0; 1; 2]) eqn:Emem.
  - destruct (recover_ok k p Hk Hp bs cs data parity Hbs Hcs Hcb Hnd Hlp fail Hfail Hnr m1 m2 Hg Hs
      mem' math1 Hready) as (math2 & -> & _); [|by eexists _, _, _].
    cbn in Emem. boolp. intros i Hi. assert (i = 0 \/ i = 1 \/ i = 2) as [->|[->| ->]] by lia; done.
  - destruct (recover_nomem k p Hk Hp bs cs data parity Hbs Hcs Hcb Hlp fail Hfail Hnr m1 m2 Hg
      mem' math1 Hready) as (math2 & -> & _); [|by eexists _, _, _].
    cbn in Emem. destruct (mem' 0) eqn:E0; [|by exists 0]. destruct (mem' 1) eqn:E1; [|by exists 1].
    destruct (mem' 2) eqn:E2; [done|by exists 2].
Qed.

(** C27. Several parity units: when unit [i] of a group with consistent parity
    gets a new version in another buffer, m0_parity_math_diff() on blocks whose
    size is a multiple of eight bytes, with memory, returns 0 and leaves the store exactly as
    m0_parity_math_calculate() on the group with the new version would: the
    word-wise difference, coded and added to every parity unit, amounts to
    coding the new data. When one of its two allocations fails, it returns -ENOMEM
    and changes no buffer. *)
Theorem rs_diff_recalculates {isal : ISAL} mem mem' k p {laws : ISALLaws isal k p} math math0
    old new parity olds i n cs c bs m0 m :
  m0_parity_math_init mem k p = Some (0, math) -> p <> 1 ->
  Z.of_nat (length cs) = k -> Z.of_nat (length parity) = p -> is_u32 bs -> (8 | bs) -> 0 <= i < k ->
  NoDup (b_addr n :: (b_addr <$> old ++ parity)) ->
  holds m0 bs old cs -> holds m0 bs parity olds ->
  m0_parity_math_calculate math old parity m0 = Some (math0, m) ->
  arr_get new i = Some n -> b_nob n = bs -> m !! b_addr n = Some c ->
  Z.of_nat (length c) = bs -> Forall byte c ->
  exists ret m1 math2 m2, m0_parity_math_diff mem' math0 old new parity i m = Some (ret, m1) /\
    m0_parity_math_calculate math0 (<[Z.to_nat i := n]> old) parity m = Some (math2, m2) /\
    if mem' 0 && mem' 1 then ret = 0 /\ m1 = m2 else ret = - ENOMEM /\ m1 = m.
Proof.
  intros Hinit Hp1 Hcs Hlp Hbs H8 Hi Hnd Hd0 Hpa0 Hcalc Hn Hnb Hnm Hlc Hbc.
  destruct (init_counts _ _ _ _ Hinit) as [Hp Hk]. apply init_ready in Hinit; try done.
  pose proof (holds_blocks _ _ _ _ Hd0) as Hcb. pose proof (NoDup_cons_1_2 _ _ Hnd) as Hnd'.
  destruct (encode_ok k p Hk Hp bs cs old parity Hbs Hcs Hcb Hnd' Hlp math m0 olds Hinit Hd0 Hpa0)
    as (math0' & m' & E & Hready & Hg & _).
  unfold m0_parity_math_calculate in Hcalc |- *. rewrite (proj1 Hinit) in Hcalc.
  rewrite E in Hcalc. injection Hcalc as -> ->. rewrite (proj1 Hready).
  assert (block_ok bs c) as Hc by done.
  pose proof Hg as (Hd & Hpa & Hlo)%group_parts; try done.
  destruct (diff_ok k p Hk Hp bs cs old parity Hbs Hcs Hcb Hnd' Hlp i c Hi Hc mem' math0 m new n Hready Hd
    Hpa Hn Hnb Hnm H8) as (ret & m1 & Ediff & Hres).
  destruct (encode_ok k p Hk Hp bs (<[Z.to_nat i := c]> cs) (<[Z.to_nat i := n]> old) parity Hbs)
    with (math := math0) (m := m) (olds := encode_blocks bs k p (drop (Z.to_nat (k * k))
      (gf_gen_cauchy1_matrix (k + p) k)) cs) as (math2 & m2 & E2 & _ & Hg2 & Hframe2); try done.
  - by rewrite length_insert.
  - by apply Forall_insert.
  - rewrite <- insert_app_l by lia. rewrite list_fmap_insert. by apply NoDup_insert_fresh.
  - by apply holds_insert.
  - exists ret, m1, math2, m2. split; [unfold m0_parity_math_diff; by rewrite (proj1 Hready)|].
    split; [done|]. destruct (mem' 0 && mem' 1); [|done]. destruct Hres as (-> & Hin & Hout).
    split; [done|]. symmetry. pose proof Hg2 as (_ & Hpa2 & _)%group_parts; try done;
      [|by rewrite length_insert|by apply Forall_insert].
    eapply parity_store_eq; [done|done|by rewrite Hlp|by rewrite Hlp].
Qed.

(** C37. m0_parity_math_init() aborts unless [1 <= parity_count <= data_count <=
    128]. For such counts it returns 0 when a single parity unit is asked for or
    all seven allocations succeed; when one fails it returns -ENOMEM with every
    array allocated before released. ISA-L keeps its laws for these counts. *)
Theorem parity_math_init_outcome {isal : ISAL} mem k p {laws : ISALLaws isal k p} :
  (~ (1 <= p <= k /\ k <= 128) -> m0_parity_math_init mem k p = None) /\
  (1 <= p <= k -> k <= 128 ->
   exists ret math, m0_parity_math_init mem k p = Some (ret, math) /\
     if (p =? 1) || forallb mem [0; 1; 2; 3; 4; 5; 6] then ret = 0
     else ret = - ENOMEM /\ exists nr, pmi_rs math =
       {| rs_encode_matrix := None; rs_encode_tbls := None; rs_decode_tbls := None;
          rs_failed_nr := nr; rs_failed_idx := None; rs_alive_idx := None;
          rs_bufs_in := None; rs_bufs_out := None |}).
Proof.
  set (math algo := {| pmi_parity_algo := algo; pmi_data_count := k; pmi_parity_count := p;
                       pmi_rs := zero_rs |}).
  assert (forall algo, parity_math_invariant (math algo) = true <-> 1 <= p <= k /\ k <= 128) as Hinv.
  { intros algo. unfold parity_math_invariant. cbn. change SNS_PARITY_MATH_DATA_BLOCKS_MAX with 128.
    rewrite !andb_true_iff, !Z.leb_le. lia. }
  unfold m0_parity_math_init. split.
  - intros Hno. destruct (parity_math_invariant _) eqn:E; [|done]. exfalso.
    by apply Hno, (Hinv M0_PARITY_CAL_ALGO_XOR), E.
  - intros Hp Hk. rewrite M0_ASSERT_true by (apply (Hinv M0_PARITY_CAL_ALGO_XOR); lia).
    cbn [mbind option_bind]. destruct (Z.eqb_spec p 1); [by eexists _, _|]. cbn [orb].
    destruct (reed_solomon_init_ok k p Hk Hp mem (math M0_PARITY_CAL_ALGO_REED_SOLOMON))
      as (math' & [(E & _ & Hall)|(E & i & Hi & Hmem)] & Ha & _); try done; [by apply Hinv| |];
      unfold math in E; rewrite E; cbn [mbind option_bind negb Z.eqb].
    + eexists _, _. split; [done|].
      replace (forallb mem _) with true; [done|]. cbn. rewrite !Hall by lia. done.
    + eexists _, _. split; [done|].
      replace (forallb mem _) with false.
      * split; [done|]. unfold m0_parity_math_fini. rewrite Ha. cbn. by eexists.
      * assert (i = 0 \/ i = 1 \/ i = 2 \/ i = 3 \/ i = 4 \/ i = 5 \/ i = 6)
          as [->|[->|[->|[->|[->|[->| ->]]]]]] by lia; cbn; rewrite Hmem; by rewrite ?andb_false_r.
Qed.
