(* ===== verification/ParityGF.v ===== *)
(** * sns: a concrete erasure code library

    Instantiates the ISA-L parameters of ParityMath with the field GF(2^8) of
    the polynomial x^8 + x^4 + x^3 + x^2 + 1 and a Cauchy matrix, proves the
    laws of ParityRS for two data and two parity units, and applies the
    properties of ParityRS to a concrete group. *)
From S2P Require Import Prelude LibArith ParityMath ParityRS.
#[local] Open Scope motr_scope.

(** ** The field *)

(** Multiplication by x. *)
Definition xtime (a : Z) : Z :=
  Z.lxor (Z.shiftl (Z.land a 127) 1) (if Z.testbit a 7 then 29 else 0).

Definition mul256 (a b : Z) : Z :=
  xsum 8 (fun i => if Z.testbit a i then Nat.iter (Z.to_nat i) xtime b else 0).

Definition linear (f : Z -> Z) : Prop :=
  forall x y, byte x -> byte y -> f (Z.lxor x y) = Z.lxor (f x) (f y).

(** A property of bytes checked by enumeration. *)
Lemma byte_check (P : Z -> bool) :
  forallb P (seqZ 0 256) = true -> forall a, byte a -> P a = true.
Proof.
  rewrite forallb_forall. intros H a Ha. apply H, list_elem_of_In, elem_of_seqZ.
  unfold byte in Ha. lia.
Qed.

Lemma linear_0 f : linear f -> f 0 = 0.
Proof.
  intros H. specialize (H 0 0 ltac:(unfold byte; lia) ltac:(unfold byte; lia)).
  by rewrite !Z.lxor_nilpotent in H.
Qed.

Lemma linear_xsum f n (g : Z -> Z) :
  linear f -> 0 <= n -> (forall i, 0 <= i < n -> byte (g i)) -> f (xsum n g) = xsum n (fun i => f (g i)).
Proof.
  intros Hf Hn. revert n Hn. apply (xsum_ind (fun n => (forall i, 0 <= i < n -> _) -> _)).
  - intros _. by apply linear_0.
  - intros n Hn IH Hg. rewrite !xsum_succ by done. rewrite Hf.
    + rewrite IH; [done|]. intros. apply Hg. lia.
    + apply xsum_byte. intros. apply Hg. lia.
    + apply Hg. lia.
Qed.

(** A byte is the sum of its bits. *)
Lemma byte_bits a : byte a -> a = xsum 8 (fun i => if Z.testbit a i then Z.shiftl 1 i else 0).
Proof.
  intros Ha. apply Z.eqb_eq. revert a Ha.
  apply (byte_check (fun a => a =? xsum 8 (fun i => if Z.testbit a i then Z.shiftl 1 i else 0))).
  vm_compute. reflexivity.
Qed.

(** Linear functions that agree on the powers of two agree on all bytes. *)
Lemma linear_ext f g :
  linear f -> linear g ->
  forallb (fun i => f (Z.shiftl 1 i) =? g (Z.shiftl 1 i)) (seqZ 0 8) = true ->
  forall a, byte a -> f a = g a.
Proof.
  intros Hf Hg Hb a Ha. rewrite (byte_bits a Ha).
  assert (forall i, 0 <= i < 8 -> byte (if Z.testbit a i then Z.shiftl 1 i else 0)) as Hby.
  { intros i Hi. destruct (Z.testbit a i); [|unfold byte; lia].
    assert (i = 0 \/ i = 1 \/ i = 2 \/ i = 3 \/ i = 4 \/ i = 5 \/ i = 6 \/ i = 7)
      as [->|[->|[->|[->|[->|[->|[->| ->]]]]]]] by lia; by compute. }
  rewrite !linear_xsum by (done || lia). apply xsum_ext. intros i Hi.
  destruct (Z.testbit a i); [|by rewrite !linear_0].
  rewrite forallb_forall in Hb. apply Z.eqb_eq, Hb, list_elem_of_In, elem_of_seqZ. lia.
Qed.

Lemma xtime_linear : linear xtime.
Proof.
  intros x y _ _. unfold xtime. rewrite Z.lxor_spec.
  assert (Z.land (Z.lxor x y) 127 = Z.lxor (Z.land x 127) (Z.land y 127)) as ->.
  { apply Z.bits_inj'. intros i Hi. rewrite Z.lxor_spec, !Z.land_spec, Z.lxor_spec.
    by destruct (Z.testbit x i), (Z.testbit y i), (Z.testbit 127 i). }
  rewrite Z.shiftl_lxor. set (u := Z.shiftl _ _). set (v := Z.shiftl _ _).
  assert (forall b c, Z.lxor (Z.lxor u v) (Z.lxor b c) = Z.lxor (Z.lxor u b) (Z.lxor v c)) as Hsh.
  { intros. rewrite !Z.lxor_assoc. f_equal. rewrite <- !Z.lxor_assoc. f_equal. apply Z.lxor_comm. }
  rewrite <- Hsh. f_equal. by destruct (Z.testbit x 7), (Z.testbit y 7).
Qed.

Lemma xtime_byte a : byte a -> byte (xtime a).
Proof.
  intros Ha. assert ((0 <=? xtime a) && (xtime a <? 256) = true) as H.
  { revert a Ha. apply (byte_check (fun a => (0 <=? xtime a) && (xtime a <? 256))).
    vm_compute. reflexivity. }
  boolp. unfold byte. lia.
Qed.

Lemma iter_byte n a : byte a -> byte (Nat.iter n xtime a).
Proof. intros Ha. induction n; simpl; [done|]. by apply xtime_byte. Qed.

Lemma iter_linear n : linear (Nat.iter n xtime).
Proof.
  intros x y Hx Hy. induction n as [|n IH]; simpl; [done|]. rewrite IH.
  apply xtime_linear; by apply iter_byte.
Qed.

Lemma mul256_byte a b : byte a -> byte b -> byte (mul256 a b).
Proof.
  intros Ha Hb. apply xsum_byte. intros i _.
  destruct (Z.testbit a i); [by apply iter_byte|unfold byte; lia].
Qed.

Lemma mul256_linear_r a : linear (mul256 a).
Proof.
  intros x y Hx Hy. unfold mul256. rewrite <- xsum_lxor. apply xsum_ext. intros i _.
  destruct (Z.testbit a i); [|done]. by apply iter_linear.
Qed.

Lemma mul256_linear_l b : linear (fun a => mul256 a b).
Proof.
  intros x y Hx Hy. unfold mul256. rewrite <- xsum_lxor. apply xsum_ext. intros i _.
  rewrite Z.lxor_spec. destruct (Z.testbit x i), (Z.testbit y i); cbn;
    by rewrite ?Z.lxor_0_r, ?Z.lxor_0_l, ?Z.lxor_nilpotent.
Qed.

Lemma linear_compose f g :
  linear f -> linear g -> (forall x, byte x -> byte (g x)) -> linear (fun x => f (g x)).
Proof. intros Hf Hg Hb x y Hx Hy. rewrite Hg by done. by apply Hf; apply Hb. Qed.

Definition basis : list Z := Z.shiftl 1 <$> seqZ 0 8.

Lemma linear_ext_basis f g :
  linear f -> linear g -> (forall b, b ∈ basis -> f b = g b) -> forall a, byte a -> f a = g a.
Proof.
  intros Hf Hg H. apply linear_ext; [done|done|]. apply forallb_forall. intros i Hi%list_elem_of_In.
  apply Z.eqb_eq, H. by apply list_elem_of_fmap_2.
Qed.

Lemma basis_byte b : b ∈ basis -> byte b.
Proof.
  intros Hb. assert (Forall byte basis) as H; [|by rewrite Forall_forall in H; apply H].
  apply (Forall_impl (fun b => (0 <=? b) && (b <? 256) = true)).
  - apply Forall_forall. intros x Hx. assert (forallb (fun b => (0 <=? b) && (b <? 256)) basis = true) as Hf
      by (vm_compute; reflexivity).
    rewrite forallb_forall in Hf. apply Hf. by apply list_elem_of_In.
  - intros x Hx. boolp. unfold byte. lia.
Qed.

Lemma mul256_comm a b : byte a -> byte b -> mul256 a b = mul256 b a.
Proof.
  intros Ha. revert b. apply linear_ext_basis; [apply mul256_linear_r|apply mul256_linear_l|].
  intros b Hb. revert a Ha. apply linear_ext_basis; [apply mul256_linear_l|apply mul256_linear_r|].
  intros a Ha. assert (forallb (fun a => forallb (fun b => mul256 a b =? mul256 b a) basis) basis = true) as H
    by (vm_compute; reflexivity).
  rewrite forallb_forall in H. specialize (H a). rewrite forallb_forall in H.
  apply Z.eqb_eq, H; by apply list_elem_of_In.
Qed.

Lemma mul256_assoc a b c :
  byte a -> byte b -> byte c -> mul256 a (mul256 b c) = mul256 (mul256 a b) c.
Proof.
  intros Ha Hb Hc.
  revert a Ha. apply linear_ext_basis; [apply mul256_linear_l| |].
  { apply (linear_compose (fun x => mul256 x c) (fun a => mul256 a b)); [apply mul256_linear_l..|].
    intros. by apply mul256_byte. }
  intros a Ha. pose proof (basis_byte a Ha).
  revert b Hb. apply linear_ext_basis.
  { apply (linear_compose (mul256 a) (fun b => mul256 b c)); [apply mul256_linear_r|apply mul256_linear_l|].
    intros. by apply mul256_byte. }
  { apply (linear_compose (fun x => mul256 x c) (mul256 a)); [apply mul256_linear_l|apply mul256_linear_r|].
    intros. by apply mul256_byte. }
  intros b Hb. pose proof (basis_byte b Hb).
  revert c Hc. apply linear_ext_basis.
  { apply (linear_compose (mul256 a) (mul256 b)); [apply mul256_linear_r..|].
    intros. by apply mul256_byte. }
  { apply mul256_linear_r. }
  intros c Hc. assert (forallb (fun a => forallb (fun b => forallb (fun c =>
      mul256 a (mul256 b c) =? mul256 (mul256 a b) c) basis) basis) basis = true) as H'
    by (vm_compute; reflexivity).
  rewrite forallb_forall in H'. specialize (H' a). rewrite forallb_forall in H'.
  specialize (H' ltac:(by apply list_elem_of_In) b). rewrite forallb_forall in H'.
  apply Z.eqb_eq, H'; by apply list_elem_of_In.
Qed.

Lemma mul256_1 a : mul256 1 a = a.
Proof. unfold mul256. apply (xsum_delta 8 0 (fun _ => a)). lia. Qed.

(** ** The matrices *)

(** The multiplicative group has 255 elements, so [a ^ 254] is the inverse. *)
Definition inv256 (a : Z) : Z := Nat.iter 254 (mul256 a) 1.

Definition cauchy256 (m k : Z) : list Z :=
  (fun x => let i := x / k in let j := x mod k in
            if i <? k then if i =? j then 1 else 0 else inv256 (Z.lxor i j)) <$> seqZ 0 (m * k).

(** Whether [inv] is an inverse of the two by two matrix [a]. *)
Definition inverse2 (inv a : list Z) : bool :=
  (Z.of_nat (length inv) =? 4) && forallb (fun x => (0 <=? x) && (x <? 256)) inv &&
  forallb (fun i => forallb (fun j =>
    xsum 2 (fun l => mul256 (nthZ inv (2 * i + l)) (nthZ a (2 * l + j))) =? if i =? j then 1 else 0)
    [0; 1]) [0; 1].

Definition if_inverse2 (inv a : list Z) (n : Z) : option (list Z) :=
  if (n =? 2) && inverse2 inv a then Some inv else None.

(** The inverse of a two by two matrix by its determinant. *)
Definition invert2 (a : list Z) (n : Z) : option (list Z) :=
  let det := Z.lxor (mul256 (nthZ a 0) (nthZ a 3)) (mul256 (nthZ a 1) (nthZ a 2)) in
  if_inverse2 (mul256 (inv256 det) <$> [nthZ a 3; nthZ a 1; nthZ a 2; nthZ a 0]) a n.

(** The tables keep the coefficient in the first of the 32 bytes. *)
Definition gf256 : ISAL :=
  {| gf_mul := mul256;
     gf_gen_cauchy1_matrix := cauchy256;
     gf_invert_matrix := invert2;
     ec_init_tables k rows a := take (Z.to_nat (rows * k)) a ≫= (fun c => c :: replicate 31 0);
     ec_encode_data len k rows t srcs :=
       (fun r => (fun x => xsum k (fun j => mul256 (nthZ t (32 * (k * r + j))) (nthZ (rowZ srcs j) x)))
          <$> seqZ 0 len) <$> seqZ 0 rows;
     ec_encode_data_update len k rows i t src coding :=
       (fun r => (fun x => Z.lxor (nthZ (rowZ coding r) x)
                             (mul256 (nthZ t (32 * (k * r + i))) (nthZ src x)))
          <$> seqZ 0 len) <$> seqZ 0 rows |}.

Lemma tables_length (l : list Z) :
  Z.of_nat (length (l ≫= (fun c => c :: replicate 31 0))) = 32 * Z.of_nat (length l).
Proof. induction l as [|c l IH]; [done|]. cbn in *. lia. Qed.

Lemma tables_get (l rest : list Z) i :
  0 <= i < Z.of_nat (length l) ->
  nthZ ((l ≫= (fun c => c :: replicate 31 0)) ++ rest) (32 * i) = nthZ l i.
Proof.
  intros Hi. unfold nthZ.
  revert i Hi. induction l as [|c l IH]; intros i Hi; cbn [length] in Hi; [lia|].
  destruct (decide (i = 0)) as [->|]; [done|].
  specialize (IH (i - 1) ltac:(lia)).
  replace (Z.to_nat i) with (S (Z.to_nat (i - 1))) by lia.
  replace (Z.to_nat (32 * i)) with (32 + Z.to_nat (32 * (i - 1)))%nat by lia. exact IH.
Qed.

Lemma take_nthZ (a : list Z) n i : 0 <= i < n -> nthZ (take (Z.to_nat n) a) i = nthZ a i.
Proof. intros Hi. unfold nthZ. by rewrite lookup_take_lt by lia. Qed.

Lemma tables_coefficient (k rows r j : Z) (a rest : list Z) :
  0 <= r < rows -> 0 <= j < k -> rows * k <= Z.of_nat (length a) ->
  nthZ ((take (Z.to_nat (rows * k)) a ≫= (fun c => c :: replicate 31 0)) ++ rest) (32 * (k * r + j)) =
  nthZ a (k * r + j).
Proof.
  intros Hr Hj Ha. assert (0 <= k * r + j < rows * k) by nia.
  rewrite tables_get by (rewrite length_take; lia). apply take_nthZ. lia.
Qed.

Lemma if_inverse2_ok l a inv :
  if_inverse2 l a 2 = Some inv ->
  Z.of_nat (length inv) = 2 * 2 /\ Forall byte inv /\
  forall i j, 0 <= i < 2 -> 0 <= j < 2 ->
    xsum 2 (fun l => mul256 (nthZ inv (2 * i + l)) (nthZ a (2 * l + j))) = if i =? j then 1 else 0.
Proof.
  unfold if_inverse2. destruct (inverse2 l a) eqn:E; [|done]. intros [= <-]. unfold inverse2 in E.
  apply andb_prop in E as [[El Eb]%andb_prop E]. split; [by apply Z.eqb_eq in El|]. split.
  - rewrite forallb_forall in Eb. apply Forall_forall. intros x Hx%list_elem_of_In. apply Eb in Hx.
    boolp. unfold byte. lia.
  - intros i j Hi Hj. rewrite forallb_forall in E. specialize (E i).
    rewrite forallb_forall in E. apply Z.eqb_eq, E; cbn; lia.
Qed.

(** Any two rows of the matrix for two data and two parity units. *)
Lemma cauchy2_invertible rows :
  Z.of_nat (length rows) = 2 -> StronglySorted Z.lt rows -> Forall (fun r => 0 <= r < 4) rows ->
  is_Some (invert2 (sub_matrix 2 (cauchy256 4 2) rows) 2).
Proof.
  destruct rows as [|x [|y [|]]]; cbn [length]; try lia. intros _ Hs Hr.
  inversion Hs as [|? ? _ Hxy]; subst. rewrite Forall_singleton in Hxy.
  rewrite !Forall_cons in Hr. destruct Hr as (Hx & Hy & _).
  assert (x = 0 /\ y = 1 \/ x = 0 /\ y = 2 \/ x = 0 /\ y = 3 \/ x = 1 /\ y = 2 \/ x = 1 /\ y = 3 \/
          x = 2 /\ y = 3) as Hc by lia.
  destruct Hc as [[-> ->]|[[-> ->]|[[-> ->]|[[-> ->]|[[-> ->]|[-> ->]]]]]]; vm_compute; by eexists.
Qed.

(** The laws hold for two data and two parity units. *)
#[local] Instance gf256_laws : ISALLaws gf256 2 2.
Proof.
  constructor; cbn [gf_mul gf_gen_cauchy1_matrix gf_invert_matrix ec_init_tables ec_encode_data
    ec_encode_data_update gf256].
  - apply mul256_byte.
  - apply mul256_comm.
  - apply mul256_assoc.
  - intros a b c _ Hb Hc. by apply mul256_linear_r.
  - intros a _. apply mul256_1.
  - reflexivity.
  - assert (forallb (fun x => (0 <=? x) && (x <? 256)) (cauchy256 4 2) = true) as E
      by (vm_compute; reflexivity).
    rewrite forallb_forall in E. apply Forall_forall. intros x Hx%list_elem_of_In. apply E in Hx.
    boolp. unfold byte. lia.
  - intros i j Hi Hj.
    assert (i = 0 \/ i = 1) as [->| ->] by lia; assert (j = 0 \/ j = 1) as [->| ->] by lia; reflexivity.
  - exact cauchy2_invertible.
  - intros a inv _ _. apply if_inverse2_ok.
  - intros rows a Hr Ha. rewrite tables_length, length_take. lia.
  - intros len rows a rest srcs Hr Ha _ _ _. unfold encode_blocks. apply list_fmap_ext.
    intros i' r [-> Hlt]%lookup_seqZ. apply list_fmap_ext. intros _ x _. apply xsum_ext. intros j Hj.
    rewrite tables_coefficient by lia. done.
  - intros len rows i a rest src coding Hr Ha _ Hi _ _ _. apply list_fmap_ext.
    intros i' r [-> Hlt]%lookup_seqZ. apply list_fmap_ext. intros _ x _.
    rewrite tables_coefficient by lia. done.
Qed.

(** ** A group of two data and two parity units of eight bytes each *)

Definition rs_buf (addr : Z) : m0_buf := {| b_nob := 8; b_addr := addr |}.

Definition rs_data : list m0_buf := [rs_buf 1; rs_buf 2].
Definition rs_parity : list m0_buf := [rs_buf 3; rs_buf 4].
Definition rs_zero : list Z := replicate 8 0.
Definition rs_contents : list (list Z) := [[1; 2; 3; 4; 5; 6; 7; 255]; [9; 0; 128; 77; 0; 1; 2; 3]].
Definition rs_new : list Z := [200; 100; 50; 25; 12; 6; 3; 1].

Definition rs_store : blocks :=
  <[1 := [1; 2; 3; 4; 5; 6; 7; 255]]> (<[2 := [9; 0; 128; 77; 0; 1; 2; 3]]>
  (<[3 := rs_zero]> (<[4 := rs_zero]> (<[5 := rs_new]> ∅)))).



(** The unit with the first data and the first parity unit overwritten. *)
Definition rs_lost (m1 : blocks) : blocks := <[1 := rs_zero]> (<[3 := rs_zero]> m1).

Lemma rs_holds : holds rs_store 8 rs_data rs_contents /\ holds rs_store 8 rs_parity [rs_zero; rs_zero].
Proof. split; repeat constructor; unfold byte; lia. Qed.

(** Recovering the first data and the first parity unit gives back the group. *)
Lemma rs_group_recovery_witness :
  exists math m1 math1 math2,
    m0_parity_math_init (isal := gf256) (fun _ => true) 2 2 = Some (0, math) /\
    m0_parity_math_calculate (isal := gf256) math rs_data rs_parity rs_store = Some (math1, m1) /\
    m0_parity_math_recover (isal := gf256) (fun _ => true) math1 rs_data rs_parity [1; 0; 1; 0]
      (rs_lost m1) = Some (0, math2, m1).
Proof.
  destruct (m0_parity_math_init (isal := gf256) (fun _ => true) 2 2) as [[ret math]|] eqn:E;
    [|vm_compute in E; discriminate].
  assert (ret = 0) as -> by (vm_compute in E; congruence).
  destruct (rs_group_recovery (isal := gf256) (fun _ => true) 2 2 math rs_data rs_parity rs_store 8
    rs_contents [rs_zero; rs_zero]) as (math1 & m1 & E1 & Hframe & H).
  - exact E.
  - lia.
  - reflexivity.
  - reflexivity.
  - unfold is_u32. lia.
  - apply (bool_decide_unpack _). vm_compute. exact I.
  - exact (proj1 rs_holds).
  - exact (proj2 rs_holds).
  - destruct (H [1; 0; 1; 0] (rs_lost m1) (fun _ => true)) as (math2 & ret & m3 & E2 & -> & ->).
    + reflexivity.
    + vm_compute. split; discriminate.
    + split.
      * intros a Ha. unfold rs_lost. rewrite !lookup_insert_ne; [done| |].
        -- intros <-. apply (Ha 2); [|reflexivity]. apply (bool_decide_unpack _). vm_compute. exact I.
        -- intros <-. apply (Ha 0); [|reflexivity]. apply (bool_decide_unpack _). vm_compute. exact I.
      * intros u Hu. exists rs_zero. split; [|reflexivity].
        assert (u = 0 \/ u = 2) as [->| ->].
        { apply list_elem_of_In in Hu. vm_compute in Hu. intuition. }
        -- change (unit_addr rs_data rs_parity 0) with 1. apply lookup_insert_eq.
        -- change (unit_addr rs_data rs_parity 2) with 3. unfold rs_lost. rewrite lookup_insert_ne by done.
           by rewrite lookup_insert_eq.
    + exists math, m1, math1, math2. auto.
Defined.

(** Replacing the second data unit by the contents of block 5. *)
Lemma rs_diff_recalculates_witness :
  exists math math0 m math1 m1,
    m0_parity_math_init (isal := gf256) (fun _ => true) 2 2 = Some (0, math) /\
    m0_parity_math_calculate (isal := gf256) math rs_data rs_parity rs_store = Some (math0, m) /\
    m0_parity_math_diff (isal := gf256) (fun _ => true) math0 rs_data [rs_buf 1; rs_buf 5] rs_parity 1 m =
      Some (0, m1) /\
    m0_parity_math_calculate (isal := gf256) math0 [rs_buf 1; rs_buf 5] rs_parity m = Some (math1, m1).
Proof.
  destruct (m0_parity_math_init (isal := gf256) (fun _ => true) 2 2) as [[ret math]|] eqn:E;
    [|vm_compute in E; discriminate].
  assert (ret = 0) as -> by (vm_compute in E; congruence).
  destruct (m0_parity_math_calculate (isal := gf256) math rs_data rs_parity rs_store)
    as [[math0 m]|] eqn:E0; [|vm_compute in E; injection E as <-; vm_compute in E0; discriminate].
  destruct (rs_diff_recalculates (isal := gf256) (fun _ => true) (fun _ => true) 2 2 math math0 rs_data
    [rs_buf 1; rs_buf 5] rs_parity [rs_zero; rs_zero] 1 (rs_buf 5) rs_contents rs_new 8 rs_store m)
    as (ret & m1 & math1 & m2 & E1 & E2 & -> & ->).
  - exact E.
  - lia.
  - reflexivity.
  - reflexivity.
  - unfold is_u32. lia.
  - by exists 1.
  - lia.
  - apply (bool_decide_unpack _). vm_compute. exact I.
  - exact (proj1 rs_holds).
  - exact (proj2 rs_holds).
  - exact E0.
  - reflexivity.
  - reflexivity.
  - vm_compute in E. injection E as <-. vm_compute in E0. injection E0 as _ <-. reflexivity.
  - reflexivity.
  - repeat constructor; unfold byte; lia.
  - exists math, math0, m, math1, m2. auto.
Defined.

(** Two data and two parity units, with and without memory for the decode tables. *)
Lemma parity_math_init_outcome_witness :
  (exists math, m0_parity_math_init (isal := gf256) (fun _ => true) 2 2 = Some (0, math)) /\
  (exists math, m0_parity_math_init (isal := gf256) (fun i => negb (i =? 2)) 2 2 = Some (- ENOMEM, math)).
Proof.
  split.
  - destruct (parity_math_init_outcome (isal := gf256) (fun _ => true) 2 2) as [_ H].
    destruct H as (ret & math & E & ->); [lia|lia|]. by exists math.
  - destruct (parity_math_init_outcome (isal := gf256) (fun i => negb (i =? 2)) 2 2) as [_ H].
    destruct H as (ret & math & E & -> & _); [lia|lia|]. by exists math.
Defined.
