(* ===== verification/LibList.v ===== *)
(** * lib: linked lists

    src/lib/list.c, the intrusive circular doubly linked lists, on a store of
    links with their addresses.  A link that is on no list points to itself, as the head of an empty list
    does; [rings] therefore describes a store by the list behind every head and
    an empty list behind every free link.  The operations are proved to
    implement insertion into and removal from lists. *)
From S2P Require Import Prelude.
#[local] Open Scope motr_scope.

(** ** Definitions: links in memory *)

(** [m0_list] has the same layout: [l_head] is [ll_next], [l_tail] is [ll_prev]. *)
Record m0_list_link := { ll_next : Z; ll_prev : Z }.

Abbreviation links := (gmap Z m0_list_link).

Definition next_get (m : links) (a : Z) : option Z := ll_next <$> m !! a.

Definition prev_get (m : links) (a : Z) : option Z := ll_prev <$> m !! a.

Definition next_set (m : links) (a v : Z) : option links :=
  l ← m !! a; Some (<[a := {| ll_next := v; ll_prev := ll_prev l |}]> m).

Definition prev_set (m : links) (a v : Z) : option links :=
  l ← m !! a; Some (<[a := {| ll_next := ll_next l; ll_prev := v |}]> m).

Section list.
(** Whether the build has ENABLE_EXPENSIVE_CHECKS. *)
Context (ex : bool).

Definition M0_ASSERT_EX (cond : option bool) : option () :=
  if ex then b ← cond; M0_ASSERT b else Some tt.

Definition M0_CHECK_EX (cond : option bool) : option bool := if ex then cond else Some true.

Definition m0_list_init (m : links) (head : Z) : option links :=
  m ← next_set m head head;
  prev_set m head head.

Definition m0_list_is_empty (m : links) (head : Z) : option bool :=
  n ← next_get m head; Some (n =? head).

Definition m0_list_fini (m : links) (head : Z) : option () :=
  b ← m0_list_is_empty m head; M0_ASSERT b.

Fixpoint link_scan (fuel : nat) (m : links) (link scan : Z) : option bool :=
  if scan =? link then Some true
  else match fuel with
       | O => None
       | S fuel =>
           n ← next_get m scan;
           np ← prev_get m n;
           if negb (np =? scan) then Some false
           else
             p ← prev_get m scan;
             pn ← next_get m p;
             if negb (pn =? scan) then Some false
             else link_scan fuel m link n
       end.

(** A ring visits every link of the store at most once. *)
Definition m0_list_link_invariant (m : links) (link : Z) : option bool :=
  n ← next_get m link;
  p ← prev_get m link;
  if negb (Bool.eqb (n =? link) (p =? link)) then Some false
  else link_scan (size m) m link n.

Definition m0_list_invariant (m : links) (head : Z) : option bool := m0_list_link_invariant m head.

Fixpoint length_scan (fuel : nat) (m : links) (list scan length : Z) : option Z :=
  if scan =? list then Some length
  else match fuel with
       | O => None
       | S fuel => n ← next_get m scan; length_scan fuel m list n (u64 (length + 1))
       end.

Definition m0_list_length (m : links) (list : Z) : option Z :=
  b ← m0_list_invariant m list;
  _ ← M0_ASSERT b;
  n ← next_get m list;
  length_scan (size m) m list n 0.

Fixpoint contains_scan (fuel : nat) (m : links) (list link scan : Z) : option bool :=
  if scan =? list then Some false
  else match fuel with
       | O => None
       | S fuel =>
           if scan =? link then Some true
           else n ← next_get m scan; contains_scan fuel m list link n
       end.

Definition m0_list_contains (m : links) (list link : Z) : option bool :=
  b ← m0_list_invariant m list;
  _ ← M0_ASSERT b;
  n ← next_get m list;
  contains_scan (size m) m list link n.

Definition __m0_list_add (m : links) (prev next new : Z) : option links :=
  pn ← next_get m prev;
  np ← prev_get m next;
  _ ← M0_ASSERT ((pn =? next) && (np =? prev));
  _ ← M0_ASSERT_EX (m0_list_link_invariant m next);
  m ← next_set m new next;
  m ← prev_set m new prev;
  m ← prev_set m next new;
  m ← next_set m prev new;
  _ ← M0_ASSERT_EX (m0_list_link_invariant m next);
  Some m.

Definition m0_list_add (m : links) (head new : Z) : option links :=
  n ← next_get m head;
  __m0_list_add m head n new.

Definition m0_list_add_tail (m : links) (head new : Z) : option links :=
  p ← prev_get m head;
  __m0_list_add m p head new.

Definition m0_list_add_after (m : links) (anchor new : Z) : option links :=
  n ← next_get m anchor;
  __m0_list_add m anchor n new.

Definition m0_list_add_before (m : links) (anchor new : Z) : option links :=
  p ← prev_get m anchor;
  __m0_list_add m p anchor new.

Definition __m0_list_del (m : links) (old : Z) : option links :=
  _ ← M0_ASSERT_EX (m0_list_link_invariant m old);
  p ← prev_get m old;
  n ← next_get m old;
  m ← next_set m p n;
  p ← prev_get m old;
  n ← next_get m old;
  prev_set m n p.

Definition m0_list_link_init (m : links) (link : Z) : option links :=
  m ← prev_set m link link;
  next_set m link link.

Definition m0_list_del (m : links) (old : Z) : option links :=
  m ← __m0_list_del m old;
  m0_list_link_init m old.

Definition m0_list_move (m : links) (head old : Z) : option links :=
  m ← __m0_list_del m old;
  m ← m0_list_add m head old;
  b ← m0_list_invariant m head;
  _ ← M0_ASSERT b;
  Some m.

Definition m0_list_move_tail (m : links) (head old : Z) : option links :=
  m ← __m0_list_del m old;
  m ← m0_list_add_tail m head old;
  b ← m0_list_invariant m head;
  _ ← M0_ASSERT b;
  Some m.

Definition m0_list_link_is_in (m : links) (link : Z) : option bool :=
  p ← prev_get m link; Some (negb (p =? link)).

Definition m0_list_link_fini (m : links) (link : Z) : option () :=
  b ← m0_list_link_is_in m link; M0_ASSERT (negb b).

Definition m0_list_link_is_last (m : links) (link head : Z) : option bool :=
  n ← next_get m link; Some (n =? head).

(** NULL is [None]. *)
Definition m0_list_first (m : links) (head : Z) : option (option Z) :=
  n ← next_get m head; Some (if negb (n =? head) then Some n else None).

End list.

(** ** Reference: the lists of a store *)

(** From [p] the pointers lead over the links [xs] to [e] and back. *)
Fixpoint chain (m : links) (p : Z) (xs : list Z) (e : Z) : Prop :=
  match xs with
  | [] => next_get m p = Some e /\ prev_get m e = Some p
  | x :: xs => next_get m p = Some x /\ prev_get m x = Some p /\ chain m x xs e
  end.

(** [s] gives the links on the list of every head, and [[]] for free links. *)
Record rings (m : links) (s : gmap Z (list Z)) : Prop := {
  rings_chain h xs : s !! h = Some xs -> chain m h xs h;
  rings_nodup h xs : s !! h = Some xs -> NoDup (h :: xs);
  rings_disjoint h1 h2 xs1 xs2 a :
    s !! h1 = Some xs1 -> s !! h2 = Some xs2 -> a ∈ h1 :: xs1 -> a ∈ h2 :: xs2 -> h1 = h2
}.

(** The links an operation changes, on lists. *)
Inductive list_op :=
  | op_add (head new : Z) | op_add_tail (head new : Z)
  | op_add_after (anchor new : Z) | op_add_before (anchor new : Z)
  | op_del (old : Z) | op_move (head old : Z) | op_move_tail (head old : Z).

Definition run_op (ex : bool) (o : list_op) (m : links) : option links :=
  match o with
  | op_add h x => m0_list_add ex m h x
  | op_add_tail h x => m0_list_add_tail ex m h x
  | op_add_after a x => m0_list_add_after ex m a x
  | op_add_before a x => m0_list_add_before ex m a x
  | op_del x => m0_list_del ex m x
  | op_move h x => m0_list_move ex m h x
  | op_move_tail h x => m0_list_move_tail ex m h x
  end.

Inductive op_spec : list_op -> gmap Z (list Z) -> gmap Z (list Z) -> Prop :=
  | spec_add s h x xs :
      s !! h = Some xs -> s !! x = Some [] -> h <> x ->
      op_spec (op_add h x) s (<[h := x :: xs]> (delete x s))
  | spec_add_tail s h x xs :
      s !! h = Some xs -> s !! x = Some [] -> h <> x ->
      op_spec (op_add_tail h x) s (<[h := xs ++ [x]]> (delete x s))
  | spec_add_after s h a x xs ys :
      s !! h = Some (xs ++ a :: ys) -> s !! x = Some [] -> h <> x ->
      op_spec (op_add_after a x) s (<[h := xs ++ a :: x :: ys]> (delete x s))
  | spec_add_before s h a x xs ys :
      s !! h = Some (xs ++ a :: ys) -> s !! x = Some [] -> h <> x ->
      op_spec (op_add_before a x) s (<[h := xs ++ x :: a :: ys]> (delete x s))
  | spec_del s h x xs ys :
      s !! h = Some (xs ++ x :: ys) ->
      op_spec (op_del x) s (<[x := []]> (<[h := xs ++ ys]> s))
  | spec_del_free s x : s !! x = Some [] -> op_spec (op_del x) s s
  | spec_move s h x s1 zs :
      op_spec (op_del x) s s1 -> s1 !! h = Some zs -> h <> x ->
      op_spec (op_move h x) s (<[h := x :: zs]> (delete x s1))
  | spec_move_tail s h x s1 zs :
      op_spec (op_del x) s s1 -> s1 !! h = Some zs -> h <> x ->
      op_spec (op_move_tail h x) s (<[h := zs ++ [x]]> (delete x s1)).

(** ** Lemmas: single links *)

Lemma get_next m a n : next_get m a = Some n -> is_Some (m !! a).
Proof. unfold next_get. destruct (m !! a); [by eexists|done]. Qed.

Lemma get_prev m a n : prev_get m a = Some n -> is_Some (m !! a).
Proof. unfold prev_get. destruct (m !! a); [by eexists|done]. Qed.

Lemma next_set_ok m a v :
  is_Some (m !! a) ->
  exists m', next_set m a v = Some m' /\ dom m' = dom m /\
    (forall b, next_get m' b = if b =? a then Some v else next_get m b) /\
    (forall b, prev_get m' b = prev_get m b).
Proof.
  intros [l Hl]. unfold next_set, next_get, prev_get. rewrite Hl. cbn. eexists. split; [done|].
  split; [apply dom_insert_lookup_L; by eexists|].
  split; intros b; zcases; subst; rewrite ?lookup_insert_eq, ?lookup_insert_ne by done; try done.
  destruct (decide (a = b)) as [<-|]; [by rewrite lookup_insert_eq, Hl|by rewrite lookup_insert_ne].
Qed.

Lemma prev_set_ok m a v :
  is_Some (m !! a) ->
  exists m', prev_set m a v = Some m' /\ dom m' = dom m /\
    (forall b, prev_get m' b = if b =? a then Some v else prev_get m b) /\
    (forall b, next_get m' b = next_get m b).
Proof.
  intros [l Hl]. unfold prev_set, next_get, prev_get. rewrite Hl. cbn. eexists. split; [done|].
  split; [apply dom_insert_lookup_L; by eexists|].
  split; intros b; zcases; subst; rewrite ?lookup_insert_eq, ?lookup_insert_ne by done; try done.
  destruct (decide (a = b)) as [<-|]; [by rewrite lookup_insert_eq, Hl|by rewrite lookup_insert_ne].
Qed.

Lemma same_dom (m m' : links) a : dom m' = dom m -> is_Some (m !! a) -> is_Some (m' !! a).
Proof. intros Hd Ha. apply elem_of_dom. rewrite Hd. by apply elem_of_dom. Qed.

(** ** Lemmas: chains *)

Lemma chain_app m p xs y ys e :
  chain m p (xs ++ y :: ys) e <-> chain m p xs y /\ chain m y ys e.
Proof.
  revert p. induction xs as [|x xs IH]; intros p; cbn; [tauto|]. rewrite IH. tauto.
Qed.

Lemma chain_frame m m' p xs e :
  chain m p xs e ->
  (forall a, a ∈ p :: xs -> next_get m' a = next_get m a) ->
  (forall a, a ∈ xs ++ [e] -> prev_get m' a = prev_get m a) -> chain m' p xs e.
Proof.
  revert p. induction xs as [|x xs IH]; intros p; cbn.
  - intros [Hn Hp] Hnext Hprev. rewrite Hnext, Hprev by set_solver. done.
  - intros (Hn & Hp & Hc) Hnext Hprev. rewrite Hnext, Hprev by set_solver.
    split; [done|]. split; [done|]. apply IH; [done| |]; intros; [apply Hnext|apply Hprev]; set_solver.
Qed.

(** The links around a position of a chain. *)
Definition last_link (p : Z) (xs : list Z) : Z := default p (last xs).

Definition first_link (ys : list Z) (e : Z) : Z := default e (head ys).

Lemma last_link_cons p x xs : last_link p (x :: xs) = last_link x xs.
Proof. unfold last_link. rewrite last_cons. by destruct (last xs). Qed.

Lemma last_link_snoc p xs x : last_link p (xs ++ [x]) = x.
Proof. unfold last_link. by rewrite last_snoc. Qed.

Lemma last_link_elem p xs : last_link p xs ∈ p :: xs.
Proof.
  revert p. induction xs as [|x xs IH]; intros p; [unfold last_link; set_solver|].
  rewrite last_link_cons. specialize (IH x). set_solver.
Qed.

Lemma first_link_elem ys e : first_link ys e ∈ ys ++ [e].
Proof. destruct ys; unfold first_link; set_solver. Qed.

Lemma chain_around m p xs ys e :
  chain m p (xs ++ ys) e ->
  next_get m (last_link p xs) = Some (first_link ys e) /\
  prev_get m (first_link ys e) = Some (last_link p xs).
Proof.
  revert p. induction xs as [|x xs IH]; intros p; cbn.
  - destruct ys; cbn; tauto.
  - intros (_ & _ & Hc). rewrite last_link_cons. by apply IH.
Qed.

Lemma chain_insert m m' p xs x ys e :
  chain m p (xs ++ ys) e -> NoDup (p :: xs ++ ys) -> NoDup (xs ++ ys ++ [e]) ->
  x ∉ p :: xs ++ ys ++ [e] ->
  next_get m' x = Some (first_link ys e) -> prev_get m' x = Some (last_link p xs) ->
  next_get m' (last_link p xs) = Some x -> prev_get m' (first_link ys e) = Some x ->
  (forall a, a <> x -> a <> last_link p xs -> next_get m' a = next_get m a) ->
  (forall a, a <> x -> a <> first_link ys e -> prev_get m' a = prev_get m a) ->
  chain m' p (xs ++ x :: ys) e.
Proof.
  intros Hc Hnd1 Hnd2 Hx Hxn Hxp Hpn Hnp Hnext Hprev. revert p Hc Hnd1 Hnd2 Hx Hxp Hpn Hnext.
  induction xs as [|z xs IH]; intros p Hc Hnd1 Hnd2 Hx Hxp Hpn Hnext; cbn [app] in *.
  - cbn. split; [done|]. split; [done|]. destruct ys as [|y ys]; cbn in *; [done|].
    split; [done|]. split; [done|]. destruct Hc as (_ & _ & Hc). apply (chain_frame _ _ _ _ _ Hc).
    + intros a Ha. apply Hnext; [set_solver|]. intros ->. cbn in Ha.
      apply NoDup_cons in Hnd1 as [Hnd1 _]. set_solver.
    + intros a Ha. apply Hprev; [set_solver|]. intros ->.
      apply NoDup_cons in Hnd2 as [Hnd2 _]. set_solver.
  - rewrite last_link_cons in *. destruct Hc as (Hn & Hp & Hc). cbn. split; [|split].
    + rewrite Hnext; [done|set_solver|]. intros ->.
      apply NoDup_cons in Hnd1 as [Hnd1 _]. pose proof (last_link_elem z xs). set_solver.
    + rewrite Hprev; [done|set_solver|]. intros ->.
      apply NoDup_cons in Hnd2 as [Hnd2 _]. pose proof (first_link_elem ys e). set_solver.
    + apply NoDup_cons in Hnd1 as [_ Hnd1]. apply NoDup_cons in Hnd2 as [_ Hnd2].
      apply IH; try done. set_solver.
Qed.

Lemma chain_remove m m' p xs x ys e :
  chain m p (xs ++ x :: ys) e -> NoDup (p :: xs ++ x :: ys) -> NoDup (xs ++ x :: ys ++ [e]) ->
  next_get m' (last_link p xs) = Some (first_link ys e) ->
  prev_get m' (first_link ys e) = Some (last_link p xs) ->
  (forall a, a <> last_link p xs -> next_get m' a = next_get m a) ->
  (forall a, a <> first_link ys e -> prev_get m' a = prev_get m a) ->
  chain m' p (xs ++ ys) e.
Proof.
  intros Hc Hnd1 Hnd2 Hpn Hnp Hnext Hprev. revert p Hc Hnd1 Hnd2 Hpn Hnp Hnext.
  induction xs as [|z xs IH]; intros p Hc Hnd1 Hnd2 Hpn Hnp Hnext; cbn [app] in *.
  - destruct ys as [|y ys]; cbn in *; [done|]. split; [done|]. split; [done|].
    destruct Hc as (_ & _ & _ & _ & Hc). apply (chain_frame _ _ _ _ _ Hc).
    + intros a Ha. apply Hnext. intros ->. apply NoDup_cons in Hnd1 as [Hnd1 _]. cbn in Ha. set_solver.
    + intros a Ha. apply Hprev. intros ->. rewrite !NoDup_cons in Hnd2. set_solver.
  - rewrite last_link_cons in *. destruct Hc as (Hn & Hp & Hc). cbn. split; [|split].
    + rewrite Hnext; [done|]. intros ->.
      apply NoDup_cons in Hnd1 as [Hnd1 _]. pose proof (last_link_elem z xs). set_solver.
    + rewrite Hprev; [done|]. intros ->.
      apply NoDup_cons in Hnd2 as [Hnd2 _]. pose proof (first_link_elem ys e). set_solver.
    + apply NoDup_cons in Hnd1 as [_ Hnd1]. apply NoDup_cons in Hnd2 as [_ Hnd2]. by apply IH.
Qed.

Lemma chain_alloc m p xs e : chain m p xs e -> forall a, a ∈ p :: xs -> is_Some (m !! a).
Proof.
  revert p. induction xs as [|x xs IH]; intros p; cbn.
  - intros [Hn _] a ->%list_elem_of_singleton. by eapply get_next.
  - intros (Hn & _ & Hc) a [->|Ha]%elem_of_cons; [by eapply get_next|by eapply IH].
Qed.

Lemma NoDup_size (m : links) xs :
  NoDup xs -> (forall a, a ∈ xs -> is_Some (m !! a)) -> (length xs <= size m)%nat.
Proof.
  intros Hnd Hall. rewrite <- size_dom, <- (size_list_to_set (C := gset Z) xs) by done.
  apply subseteq_size. intros a Ha%elem_of_list_to_set. by apply elem_of_dom, Hall.
Qed.

(** ** Lemmas: scans *)

Lemma link_scan_ok fuel m p xs e :
  chain m p xs e -> e ∉ xs -> (length xs <= fuel)%nat ->
  link_scan fuel m e (first_link xs e) = Some true.
Proof.
  revert fuel p. induction xs as [|x xs IH]; intros fuel p Hc He Hf.
  - unfold first_link. cbn. destruct fuel; cbn; by rewrite Z.eqb_refl.
  - destruct fuel as [|fuel]; [cbn in Hf; lia|]. destruct Hc as (Hn & Hp & Hc).
    destruct (chain_around m x [] xs e Hc) as [Hx1 Hx2]. unfold last_link in Hx1, Hx2. cbn in Hx1, Hx2.
    change (first_link (x :: xs) e) with x. cbn [link_scan].
    replace (x =? e) with false by (symmetry; apply Z.eqb_neq; set_solver).
    run Hx1. run Hx2. rewrite Z.eqb_refl. cbn [negb]. run Hp. run Hn. rewrite Z.eqb_refl. cbn [negb].
    apply (IH _ x); [done|set_solver|cbn in Hf; lia].
Qed.

Lemma chain_rotate m h xs a ys : chain m h (xs ++ a :: ys) h -> chain m a (ys ++ h :: xs) a.
Proof. rewrite !chain_app. tauto. Qed.

Lemma NoDup_ring h (xs : list Z) : NoDup (h :: xs) -> NoDup (xs ++ [h]).
Proof. intros H. by rewrite <- Permutation_cons_append. Qed.

(** The expensive checks pass on every link of a ring. *)
Lemma link_invariant_ok m h xs :
  chain m h xs h -> NoDup (h :: xs) -> m0_list_link_invariant m h = Some true.
Proof.
  intros Hc Hnd. unfold m0_list_link_invariant.
  destruct (chain_around m h [] xs h Hc) as [Hn _]. unfold last_link in Hn. cbn in Hn. run Hn.
  destruct (chain_around m h xs [] h) as [_ Hp]; [by rewrite app_nil_r|]. unfold first_link in Hp at 1.
  cbn in Hp. run Hp. apply NoDup_cons in Hnd as [Hh Hnd].
  assert (Bool.eqb (first_link xs h =? h) (last_link h xs =? h) = true) as ->.
  { destruct xs as [|x xs]; [unfold first_link, last_link; cbn; by rewrite Z.eqb_refl|].
    rewrite last_link_cons. pose proof (last_link_elem x xs). cbn.
    destruct (Z.eqb_spec x h) as [->|]; [set_solver|].
    destruct (Z.eqb_spec (last_link x xs) h) as [E|]; [set_solver|done]. }
  cbn [negb]. eapply link_scan_ok; [done|done|].
  apply NoDup_size; [done|]. intros a Ha. eapply chain_alloc; [done|]. by right.
Qed.

Lemma length_scan_ok fuel m p xs e n :
  chain m p xs e -> e ∉ xs -> (length xs <= fuel)%nat ->
  length_scan fuel m e (first_link xs e) (u64 n) = Some (u64 (n + Z.of_nat (length xs))).
Proof.
  revert fuel p n. induction xs as [|x xs IH]; intros fuel p n Hc He Hf.
  - unfold first_link. cbn. destruct fuel; cbn; rewrite Z.eqb_refl; do 2 f_equal; lia.
  - destruct fuel as [|fuel]; [cbn in Hf; lia|]. destruct Hc as (Hn & Hp & Hc).
    destruct (chain_around m x [] xs e Hc) as [Hx1 _]. unfold last_link in Hx1. cbn in Hx1.
    change (first_link (x :: xs) e) with x. cbn [length_scan].
    replace (x =? e) with false by (symmetry; apply Z.eqb_neq; set_solver). run Hx1.
    replace (u64 (u64 n + 1)) with (u64 (n + 1)) by (unfold u64; by rewrite Z.add_mod_idemp_l by lia).
    rewrite (IH _ x); [|done|set_solver|cbn in Hf; lia]. do 2 f_equal. cbn [length]. lia.
Qed.

Lemma contains_scan_ok fuel m p xs e a :
  chain m p xs e -> e ∉ xs -> (length xs <= fuel)%nat ->
  contains_scan fuel m e a (first_link xs e) = Some (bool_decide (a ∈ xs)).
Proof.
  revert fuel p. induction xs as [|x xs IH]; intros fuel p Hc He Hf.
  - unfold first_link. cbn. rewrite bool_decide_false by set_solver.
    destruct fuel; cbn; by rewrite Z.eqb_refl.
  - destruct fuel as [|fuel]; [cbn in Hf; lia|]. destruct Hc as (Hn & Hp & Hc).
    destruct (chain_around m x [] xs e Hc) as [Hx1 _]. unfold last_link in Hx1. cbn in Hx1.
    change (first_link (x :: xs) e) with x. cbn [contains_scan].
    replace (x =? e) with false by (symmetry; apply Z.eqb_neq; set_solver).
    destruct (Z.eqb_spec x a) as [->|]; [by rewrite bool_decide_true by set_solver|]. run Hx1.
    rewrite (IH _ x); [|done|set_solver|cbn in Hf; lia]. f_equal. apply bool_decide_ext. set_solver.
Qed.

(** ** Lemmas: stores of lists *)

(** An allocated link that is on no ring. *)
Definition unused (m : links) (s : gmap Z (list Z)) (x : Z) : Prop :=
  is_Some (m !! x) /\ forall h xs, s !! h = Some xs -> x ∉ h :: xs.

Lemma rings_link m s h xs a :
  rings m s -> s !! h = Some xs -> a ∈ h :: xs -> m0_list_link_invariant m a = Some true.
Proof.
  intros Hr Hs [->|Ha]%elem_of_cons.
  - eapply link_invariant_ok; [by eapply rings_chain|by eapply rings_nodup].
  - apply list_elem_of_split in Ha as (l1 & l2 & ->). pose proof (rings_nodup _ _ Hr _ _ Hs) as Hnd.
    eapply link_invariant_ok; [by eapply chain_rotate, rings_chain|].
    eapply NoDup_Permutation_proper; [|exact Hnd]. solve_Permutation.
Qed.

Lemma rings_delete m s x : rings m s -> rings m (delete x s).
Proof.
  intros [H1 H2 H3]. split.
  - intros h xs [_ H]%lookup_delete_Some. by apply H1.
  - intros h xs [_ H]%lookup_delete_Some. by apply H2.
  - intros h1 h2 xs1 xs2 a [_ Hs1]%lookup_delete_Some [_ Hs2]%lookup_delete_Some. by apply H3.
Qed.

Lemma free_unused m s x : rings m s -> s !! x = Some [] -> unused m (delete x s) x.
Proof.
  intros Hr Hx. split.
  - eapply chain_alloc; [by apply (rings_chain _ _ Hr x)|set_solver].
  - intros h xs [Hne Hs]%lookup_delete_Some Hin. apply Hne.
    eapply (rings_disjoint _ _ Hr x h [] xs x); [done..|set_solver|done].
Qed.

(** One ring changes, with links of its own or unused ones. *)
Lemma rings_update m m' s h xs zs :
  rings m s -> s !! h = Some xs ->
  (forall a, a ∉ h :: xs -> a ∉ h :: zs -> next_get m' a = next_get m a) ->
  (forall a, a ∉ h :: xs -> a ∉ h :: zs -> prev_get m' a = prev_get m a) ->
  chain m' h zs h -> NoDup (h :: zs) -> (forall a, a ∈ zs -> a ∈ xs \/ unused m s a) ->
  rings m' (<[h := zs]> s).
Proof.
  intros Hr Hs Hnext Hprev Hc Hnd Hzs.
  assert (forall h2 xs2 a, h2 <> h -> s !! h2 = Some xs2 -> a ∈ h2 :: xs2 -> a ∉ h :: xs /\ a ∉ h :: zs)
    as Hout.
  { intros h2 xs2 a Hne Hs2 Ha.
    assert (a ∉ h :: xs) as Hn by (intros Hin; apply Hne; by eapply (rings_disjoint _ _ Hr)).
    split; [done|]. intros [->|[Hin|[_ Hu]]%Hzs]%elem_of_cons; [set_solver|set_solver|].
    by eapply Hu. }
  split.
  - intros h2 xs2 [[<- <-]|[Hne Hs2]]%lookup_insert_Some; [done|].
    apply (chain_frame m); [by eapply rings_chain|intros a Ha; apply Hnext|intros a Ha; apply Hprev];
      eapply Hout; eauto; set_solver.
  - intros h2 xs2 [[<- <-]|[Hne Hs2]]%lookup_insert_Some; [done|]. by eapply rings_nodup.
  - intros h1 h2 xs1 xs2 a [[<- <-]|[Hne1 Hs1]]%lookup_insert_Some
      [[<- <-]|[Hne2 Hs2]]%lookup_insert_Some Ha1 Ha2; [done| | |].
    + edestruct (Hout h2 xs2 a); eauto. contradiction.
    + edestruct (Hout h1 xs1 a); eauto. contradiction.
    + by eapply (rings_disjoint _ _ Hr).
Qed.

(** A link off all rings is initialised. *)
Lemma rings_init m m' s x :
  rings m s -> unused m s x ->
  (forall a, a <> x -> next_get m' a = next_get m a) ->
  (forall a, a <> x -> prev_get m' a = prev_get m a) ->
  chain m' x [] x -> rings m' (<[x := []]> s).
Proof.
  intros Hr [_ Hu] Hnext Hprev Hc. split.
  - intros h xs [[<- <-]|[Hne Hs]]%lookup_insert_Some; [done|].
    apply (chain_frame m); [by eapply rings_chain|intros a Ha; apply Hnext|intros a Ha; apply Hprev];
      intros ->; eapply Hu; eauto; set_solver.
  - intros h xs [[<- <-]|[Hne Hs]]%lookup_insert_Some; [apply NoDup_singleton|by eapply rings_nodup].
  - intros h1 h2 xs1 xs2 a [[<- <-]|[Hne1 Hs1]]%lookup_insert_Some
      [[<- <-]|[Hne2 Hs2]]%lookup_insert_Some Ha1 Ha2; [done| | |].
    + apply list_elem_of_singleton in Ha1 as ->. by eapply Hu in Ha2.
    + apply list_elem_of_singleton in Ha2 as ->. by eapply Hu in Ha1.
    + by eapply (rings_disjoint _ _ Hr).
Qed.

Lemma assert_ex_ok ex cond : cond = Some true -> M0_ASSERT_EX ex cond = Some tt.
Proof. intros ->. by destruct ex. Qed.

(** ** Lemmas: insertion and removal *)

Lemma list_add_ok ex m s h xs ys x :
  rings m s -> s !! h = Some (xs ++ ys) -> unused m s x ->
  exists m', __m0_list_add ex m (last_link h xs) (first_link ys h) x = Some m' /\ dom m' = dom m /\
    rings m' (<[h := xs ++ x :: ys]> s).
Proof.
  intros Hr Hs Hu. pose proof (rings_chain _ _ Hr _ _ Hs) as Hc.
  pose proof (rings_nodup _ _ Hr _ _ Hs) as Hnd.
  destruct (chain_around _ _ _ _ _ Hc) as [Hpn Hnp]. destruct Hu as [Hax Hfresh].
  pose proof (last_link_elem h xs) as Hp. pose proof (first_link_elem ys h) as Hn.
  set (p := last_link h xs) in *. set (n := first_link ys h) in *.
  assert (x ∉ h :: xs ++ ys) as Hx by eauto. assert (x <> p /\ x <> n) as [Hxp Hxn] by set_solver.
  unfold __m0_list_add. run Hpn. run Hnp. rewrite !Z.eqb_refl. cbn [andb M0_ASSERT mbind option_bind].
  run (assert_ex_ok ex _ (rings_link m s h _ n Hr Hs ltac:(set_solver))).
  destruct (next_set_ok m x n Hax) as (m1 & E1 & D1 & N1 & P1). run E1.
  destruct (prev_set_ok m1 x p) as (m2 & E2 & D2 & P2 & N2); [by eapply same_dom|]. run E2.
  destruct (prev_set_ok m2 n x) as (m3 & E3 & D3 & P3 & N3).
  { eapply same_dom; [exact D2|]. eapply same_dom; [exact D1|]. by eapply get_prev. }
  run E3. destruct (next_set_ok m3 p x) as (m4 & E4 & D4 & N4 & P4).
  { eapply same_dom; [exact D3|]. eapply same_dom; [exact D2|]. eapply same_dom; [exact D1|].
      by eapply get_next. }
  run E4.
  assert (rings m4 (<[h := xs ++ x :: ys]> s)) as Hr4.
  { assert (forall a, a <> x -> a <> p -> next_get m4 a = next_get m a) as Hnext.
    { intros a Ha1 Ha2. rewrite N4, N3, N2, N1. zcases; done. }
    assert (forall a, a <> x -> a <> n -> prev_get m4 a = prev_get m a) as Hprev.
    { intros a Ha1 Ha2. rewrite P4, P3, P2, P1. zcases; done. }
    apply (rings_update m _ _ _ (xs ++ ys)); try done.
    - intros a Ha1 Ha2. apply Hnext; set_solver.
    - intros a Ha1 Ha2. apply Hprev; set_solver.
    - apply (chain_insert m); try done.
      + apply NoDup_ring in Hnd. by rewrite <- app_assoc in Hnd.
      + set_solver.
      + rewrite N4, N3, N2, N1. zcases; done.
      + rewrite P4, P3, P2. zcases; done.
      + rewrite N4, Z.eqb_refl. done.
      + rewrite P4, P3, Z.eqb_refl. done.
    - apply (NoDup_Permutation_proper _ (x :: h :: xs ++ ys)); [solve_Permutation|by apply NoDup_cons].
    - intros a Ha. destruct (decide (a = x)) as [->|]; [by right|left; set_solver]. }
  rewrite (assert_ex_ok ex _ (rings_link m4 _ h _ n Hr4 (lookup_insert_eq _ _ _) ltac:(set_solver))).
  exists m4. split; [done|]. split; [by rewrite D4, D3, D2|done].
Qed.

Lemma list_unlink_ok ex m s h xs x ys :
  rings m s -> s !! h = Some (xs ++ x :: ys) ->
  exists m', __m0_list_del ex m x = Some m' /\ dom m' = dom m /\
    rings m' (<[h := xs ++ ys]> s) /\ unused m' (<[h := xs ++ ys]> s) x.
Proof.
  intros Hr Hs. pose proof (rings_chain _ _ Hr _ _ Hs) as Hc. pose proof (rings_nodup _ _ Hr _ _ Hs) as Hnd.
  unfold __m0_list_del.
  run (assert_ex_ok ex _ (rings_link m s h _ x Hr Hs ltac:(set_solver))).
  pose proof Hc as Hxp. apply chain_around in Hxp as [_ Hxp]. change (first_link (x :: ys) h) with x in Hxp.
  pose proof Hc as Hxn. change (x :: ys) with ([x] ++ ys) in Hxn.
  rewrite app_assoc in Hxn. apply chain_around in Hxn as [Hxn _].
  rewrite last_link_snoc in Hxn.
  pose proof (last_link_elem h xs) as Hp. pose proof (first_link_elem ys h) as Hn.
  set (p := last_link h xs) in *. set (n := first_link ys h) in *.
  assert (x <> p /\ x <> n) as [Hxp' Hxn'].
  { rewrite NoDup_cons, NoDup_app, NoDup_cons in Hnd. split; intros ->; set_solver. }
  run Hxp. run Hxn. destruct (next_set_ok m p n) as (m1 & E1 & D1 & N1 & P1).
  { eapply chain_alloc; [exact Hc|set_solver]. }
  run E1. rewrite P1. run Hxp. rewrite N1. rewrite (proj2 (Z.eqb_neq _ _)) by done. run Hxn.
  destruct (prev_set_ok m1 n p) as (m2 & E2 & D2 & P2 & N2).
  { eapply same_dom; [exact D1|]. eapply chain_alloc; [exact Hc|set_solver]. }
  assert (forall a, a <> p -> next_get m2 a = next_get m a) as Hnext.
  { intros a Ha. rewrite N2, N1. zcases; done. }
  assert (forall a, a <> n -> prev_get m2 a = prev_get m a) as Hprev.
  { intros a Ha. rewrite P2, P1. zcases; done. }
  assert (NoDup (x :: h :: xs ++ ys)) as Hnd2.
  { eapply NoDup_Permutation_proper; [|exact Hnd]. solve_Permutation. }
  exists m2. split; [done|]. split; [by rewrite D2|]. split.
  - apply (rings_update m _ _ _ (xs ++ x :: ys)); try done.
    + intros a Ha1 Ha2. apply Hnext. set_solver.
    + intros a Ha1 Ha2. apply Hprev. set_solver.
    + apply (chain_remove m _ _ _ x); try done.
      * apply NoDup_ring in Hnd. by rewrite <- app_assoc in Hnd.
      * rewrite N2, N1, Z.eqb_refl. done.
      * rewrite P2, Z.eqb_refl. done.
    + by apply NoDup_cons in Hnd2 as [_ ?].
    + set_solver.
  - split.
    { eapply same_dom; [exact D2|]. eapply same_dom; [exact D1|]. by eapply get_next. }
    intros h2 xs2 [[<- <-]|[Hne Hs2]]%lookup_insert_Some.
    + by apply NoDup_cons in Hnd2 as [? _].
    + intros Hin. apply Hne. eapply (rings_disjoint _ _ Hr); [done|done| |done]. set_solver.
Qed.

(** Unlinking a free link changes nothing. *)
Lemma list_unlink_free ex m s x :
  rings m s -> s !! x = Some [] ->
  exists m', __m0_list_del ex m x = Some m' /\ dom m' = dom m /\
    rings m' (delete x s) /\ unused m' (delete x s) x.
Proof.
  intros Hr Hs. pose proof (free_unused _ _ _ Hr Hs) as [Hax Hu].
  pose proof (rings_chain _ _ Hr _ _ Hs) as [Hn Hp]. unfold __m0_list_del.
  run (assert_ex_ok ex _ (rings_link m s x _ x Hr Hs ltac:(set_solver))). run Hp. run Hn.
  destruct (next_set_ok m x x Hax) as (m1 & E1 & D1 & N1 & P1). run E1. rewrite P1. run Hp.
  rewrite N1, Z.eqb_refl. cbn [mbind option_bind].
  destruct (prev_set_ok m1 x x) as (m2 & E2 & D2 & P2 & N2); [by eapply same_dom|].
  assert (forall a, next_get m2 a = next_get m a) as Hnext.
  { intros a. rewrite N2, N1. zcases; by subst. }
  assert (forall a, prev_get m2 a = prev_get m a) as Hprev.
  { intros a. rewrite P2, P1. zcases; by subst. }
  exists m2. split; [done|]. split; [by rewrite D2|]. split; [|split; [|done]].
  - destruct (rings_delete _ _ x Hr) as [H1 H2 H3]. split; [|done..].
    intros h xs H. apply (chain_frame m); auto.
  - eapply same_dom; [exact D2|]. by eapply same_dom.
Qed.

Lemma link_init_ok m s x :
  rings m s -> unused m s x ->
  exists m', m0_list_link_init m x = Some m' /\ dom m' = dom m /\ rings m' (<[x := []]> s).
Proof.
  intros Hr Hu. unfold m0_list_link_init. destruct (prev_set_ok m x x (proj1 Hu)) as (m1 & E1 & D1 & P1 & N1).
  run E1. destruct (next_set_ok m1 x x) as (m2 & E2 & D2 & N2 & P2); [by eapply same_dom, (proj1 Hu)|].
  exists m2. split; [done|]. split; [by rewrite D2|]. apply (rings_init m); try done.
  - intros a Ha. rewrite N2, N1. zcases; done.
  - intros a Ha. rewrite P2, P1. zcases; done.
  - split; [by rewrite N2, Z.eqb_refl|by rewrite P2, P1, Z.eqb_refl].
Qed.

(** ** Lemmas: operations and queries *)

Lemma next_first m h xs : chain m h xs h -> next_get m h = Some (first_link xs h).
Proof. intros Hc. by destruct (chain_around m h [] xs h Hc). Qed.

Lemma prev_last m h xs : chain m h xs h -> prev_get m h = Some (last_link h xs).
Proof. intros Hc. destruct (chain_around m h xs [] h) as [_ H]; [by rewrite app_nil_r|done]. Qed.

Lemma add_head_ok ex m s h xs x :
  rings m s -> s !! h = Some xs -> unused m s x ->
  exists m', m0_list_add ex m h x = Some m' /\ dom m' = dom m /\ rings m' (<[h := x :: xs]> s).
Proof.
  intros Hr Hs Hu. unfold m0_list_add. run (next_first m h xs (rings_chain _ _ Hr _ _ Hs)).
  exact (list_add_ok ex m s h [] xs x Hr Hs Hu).
Qed.

Lemma add_tail_ok ex m s h xs x :
  rings m s -> s !! h = Some xs -> unused m s x ->
  exists m', m0_list_add_tail ex m h x = Some m' /\ dom m' = dom m /\ rings m' (<[h := xs ++ [x]]> s).
Proof.
  intros Hr Hs Hu. unfold m0_list_add_tail. run (prev_last m h xs (rings_chain _ _ Hr _ _ Hs)).
  apply (list_add_ok ex m s h xs [] x Hr); [by rewrite app_nil_r|done].
Qed.

Lemma list_del_ok ex m s s' x :
  rings m s -> op_spec (op_del x) s s' ->
  exists m', m0_list_del ex m x = Some m' /\ dom m' = dom m /\ rings m' s'.
Proof.
  intros Hr Hop. unfold m0_list_del. inversion Hop as [| | | |? h ? xs ys Hs|? ? Hs| |]; subst.
  - destruct (list_unlink_ok ex m s h xs x ys Hr Hs) as (m1 & E1 & D1 & Hr1 & Hu1). run E1.
    destruct (link_init_ok _ _ _ Hr1 Hu1) as (m2 & E2 & D2 & Hr2). exists m2. by rewrite D2.
  - destruct (list_unlink_free ex m s' x Hr Hs) as (m1 & E1 & D1 & Hr1 & Hu1). run E1.
    destruct (link_init_ok _ _ _ Hr1 Hu1) as (m2 & E2 & D2 & Hr2). exists m2.
    rewrite insert_delete_id in Hr2 by done. by rewrite D2.
Qed.

(** Moving is removal, without the initialisation, and insertion. *)
Lemma list_unlink_spec ex m s s' x :
  rings m s -> op_spec (op_del x) s s' ->
  exists m', __m0_list_del ex m x = Some m' /\ dom m' = dom m /\
    rings m' (delete x s') /\ unused m' (delete x s') x.
Proof.
  intros Hr Hop. inversion Hop as [| | | |? h ? xs ys Hs|? ? Hs| |]; subst.
  - destruct (list_unlink_ok ex m s h xs x ys Hr Hs) as (m1 & E1 & D1 & Hr1 & Hu1).
    exists m1. split; [done|]. split; [done|]. rewrite delete_insert_id; [done|].
    apply eq_None_not_Some. intros [zs Hz]. destruct Hu1 as [_ Hu1]. apply (Hu1 _ _ Hz). set_solver.
  - by apply list_unlink_free.
Qed.

Lemma list_move_ok ex m s s1 h x zs :
  rings m s -> op_spec (op_del x) s s1 -> s1 !! h = Some zs -> h <> x ->
  exists m', m0_list_move ex m h x = Some m' /\ dom m' = dom m /\ rings m' (<[h := x :: zs]> (delete x s1)).
Proof.
  intros Hr Hop Hs Hne. unfold m0_list_move.
  destruct (list_unlink_spec ex m s s1 x Hr Hop) as (m1 & E1 & D1 & Hr1 & Hu1). run E1.
  destruct (add_head_ok ex m1 (delete x s1) h zs x Hr1) as (m2 & E2 & D2 & Hr2);
    [by rewrite lookup_delete_ne|done|]. run E2.
  unfold m0_list_invariant. run (rings_link m2 _ h _ h Hr2 (lookup_insert_eq _ _ _) ltac:(set_solver)).
  exists m2. by rewrite D2.
Qed.

Lemma list_move_tail_ok ex m s s1 h x zs :
  rings m s -> op_spec (op_del x) s s1 -> s1 !! h = Some zs -> h <> x ->
  exists m', m0_list_move_tail ex m h x = Some m' /\ dom m' = dom m /\
    rings m' (<[h := zs ++ [x]]> (delete x s1)).
Proof.
  intros Hr Hop Hs Hne. unfold m0_list_move_tail.
  destruct (list_unlink_spec ex m s s1 x Hr Hop) as (m1 & E1 & D1 & Hr1 & Hu1). run E1.
  destruct (add_tail_ok ex m1 (delete x s1) h zs x Hr1) as (m2 & E2 & D2 & Hr2);
    [by rewrite lookup_delete_ne|done|]. run E2.
  unfold m0_list_invariant. run (rings_link m2 _ h _ h Hr2 (lookup_insert_eq _ _ _) ltac:(set_solver)).
  exists m2. by rewrite D2.
Qed.

Lemma run_op_ok ex o m s s' :
  rings m s -> op_spec o s s' -> exists m', run_op ex o m = Some m' /\ dom m' = dom m /\ rings m' s'.
Proof.
  intros Hr Hop. destruct Hop as [s h x xs Hs Hx Hne|s h x xs Hs Hx Hne|s h a x xs ys Hs Hx Hne
    |s h a x xs ys Hs Hx Hne|s h x xs ys Hs|s x Hs|s h x s1 zs Hop Hs Hne|s h x s1 zs Hop Hs Hne];
      cbn [run_op].
  - apply add_head_ok; [by apply rings_delete|by rewrite lookup_delete_ne|by apply free_unused].
  - apply add_tail_ok; [by apply rings_delete|by rewrite lookup_delete_ne|by apply free_unused].
  - unfold m0_list_add_after. pose proof (rings_chain _ _ Hr _ _ Hs) as Hc.
    change (a :: ys) with ([a] ++ ys) in Hs, Hc. rewrite app_assoc in Hs, Hc.
    apply chain_around in Hc as [Hc _]. rewrite last_link_snoc in Hc. run Hc.
    destruct (list_add_ok ex m (delete x s) h (xs ++ [a]) ys x) as (m' & E & D & Hr');
      [by apply rings_delete|by rewrite lookup_delete_ne|by apply free_unused|].
    rewrite last_link_snoc in E. rewrite <- app_assoc in Hr'. by exists m'.
  - unfold m0_list_add_before. pose proof (rings_chain _ _ Hr _ _ Hs) as Hc.
    apply chain_around in Hc as [_ Hc]. change (first_link (a :: ys) h) with a in Hc. run Hc.
    apply (list_add_ok ex m (delete x s) h xs (a :: ys) x);
      [by apply rings_delete|by rewrite lookup_delete_ne|by apply free_unused].
  - eapply list_del_ok; [done|]. by apply spec_del.
  - eapply list_del_ok; [done|]. by apply spec_del_free.
  - by eapply list_move_ok.
  - by eapply list_move_tail_ok.
Qed.

(** What the queries say about a list. *)
Definition observes (m : links) (h : Z) (xs : list Z) : Prop :=
  m0_list_invariant m h = Some true /\
  m0_list_length m h = Some (u64 (Z.of_nat (length xs))) /\
  m0_list_is_empty m h = Some (bool_decide (xs = [])) /\
  m0_list_first m h = Some (head xs) /\
  (forall a, m0_list_contains m h a = Some (bool_decide (a ∈ xs))) /\
  (forall a, a ∈ xs -> m0_list_link_is_in m a = Some true /\
     m0_list_link_is_last m a h = Some (bool_decide (last xs = Some a))).

Lemma first_link_eqb xs h : h ∉ xs -> (first_link xs h =? h) = bool_decide (xs = []).
Proof.
  intros Hh. destruct xs as [|x xs]; [apply Z.eqb_refl|].
  rewrite bool_decide_false by done. apply Z.eqb_neq. cbn. set_solver.
Qed.

Lemma link_position_ok m h xs a :
  chain m h xs h -> NoDup (h :: xs) -> a ∈ xs ->
  m0_list_link_is_in m a = Some true /\
  m0_list_link_is_last m a h = Some (bool_decide (last xs = Some a)).
Proof.
  intros Hc Hnd Ha. apply list_elem_of_split in Ha as (l1 & l2 & ->).
  pose proof (chain_rotate _ _ _ _ _ Hc) as Hc'.
  assert (NoDup (a :: l2 ++ h :: l1)) as Hnd2
    by (eapply NoDup_Permutation_proper; [|exact Hnd]; solve_Permutation).
  unfold m0_list_link_is_in, m0_list_link_is_last. split.
  - run (prev_last _ _ _ Hc'). do 2 f_equal. apply negb_true_iff, Z.eqb_neq. intros E.
    apply NoDup_cons in Hnd2 as [Hnin _]. apply Hnin. rewrite <- E.
    pose proof (last_link_elem a (l2 ++ h :: l1)) as H. rewrite E in H |- *.
    unfold last_link in E. destruct (last (l2 ++ h :: l1)) eqn:El; cbn in E.
    + subst. by apply last_Some_elem_of in El.
    + apply last_None in El. by destruct l2.
  - run (next_first _ _ _ Hc'). f_equal. destruct l2 as [|y l2]; cbn.
    + rewrite Z.eqb_refl, last_snoc. by rewrite bool_decide_true.
    + rewrite (proj2 (Z.eqb_neq y h)), bool_decide_false; [done| |].
      * change (a :: y :: l2) with ([a] ++ y :: l2). rewrite app_assoc, last_app, last_cons.
        intros E. apply NoDup_cons in Hnd2 as [Hnin _]. apply Hnin.
        destruct (last l2) eqn:El; injection E as ->; [|set_solver].
        apply last_Some_elem_of in El. set_solver.
      * intros ->. cbn [app] in Hnd2. apply NoDup_cons in Hnd2 as [_ [Hno _]%NoDup_cons].
        apply Hno. clear. set_solver.
Qed.

Lemma rings_observes m s h xs : rings m s -> s !! h = Some xs -> observes m h xs.
Proof.
  intros Hr Hs. pose proof (rings_chain _ _ Hr _ _ Hs) as Hc. pose proof (rings_nodup _ _ Hr _ _ Hs) as Hnd.
  pose proof (link_invariant_ok _ _ _ Hc Hnd) as Hinv. pose proof (next_first _ _ _ Hc) as Hn.
  pose proof Hnd as [Hh Hnd']%NoDup_cons.
  assert (length xs <= size m)%nat as Hlen.
  { apply NoDup_size; [done|]. intros a Ha. eapply chain_alloc; [done|by right]. }
  unfold observes, m0_list_length, m0_list_is_empty, m0_list_first, m0_list_contains, m0_list_invariant.
  rewrite Hinv. cbn [mbind option_bind M0_ASSERT]. rewrite Hn. cbn [mbind option_bind].
  rewrite first_link_eqb by done. repeat split; try done.
  - change 0 with (u64 0). by rewrite (length_scan_ok _ _ h).
  - by destruct xs.
  - intros a. by apply (contains_scan_ok _ _ h).
  - by eapply link_position_ok.
  - by eapply link_position_ok.
Qed.

Fixpoint run_ops (ex : bool) (os : list list_op) (m : links) : option links :=
  match os with
  | [] => Some m
  | o :: os => m ← run_op ex o m; run_ops ex os m
  end.

Inductive ops_spec : list list_op -> gmap Z (list Z) -> gmap Z (list Z) -> Prop :=
  | ops_nil s : ops_spec [] s s
  | ops_cons o os s s1 s2 : op_spec o s s1 -> ops_spec os s1 s2 -> ops_spec (o :: os) s s2.

(** C10. lib/list.c implements lists: on a store of any number of lists and free
    links, with or without the expensive checks, every sequence of insertions (at
    either end, before or after a link), removals and moves that respects the
    preconditions completes, leaves the rings well formed, and changes the lists
    as the operations on sequences do; afterwards the length, membership,
    emptiness, first and last element tests and the invariant answer for every
    list what its sequence says. *)
Theorem list_ops_refine ex os m s s' :
  rings m s -> ops_spec os s s' ->
  exists m', run_ops ex os m = Some m' /\ rings m' s' /\
    forall h xs, s' !! h = Some xs -> observes m' h xs.
Proof.
  intros Hr Hops. revert m Hr. induction Hops as [s|o os s s1 s2 Hop _ IH]; intros m Hr; cbn [run_ops].
  - exists m. split; [done|]. split; [done|]. intros. by eapply rings_observes.
  - destruct (run_op_ok ex o m s s1 Hr Hop) as (m1 & -> & _ & Hr1). by apply IH.
Qed.

(** Two heads, 100 and 200, and three free links. *)
Definition example_links : links :=
  list_to_map ((fun a => (a, {| ll_next := a; ll_prev := a |})) <$> [100; 200; 1; 2; 3]).

Definition example_rings : gmap Z (list Z) := list_to_map ((fun a => (a, [])) <$> [100; 200; 1; 2; 3]).

Lemma free_rings (l : list Z) :
  rings (list_to_map ((fun a => (a, {| ll_next := a; ll_prev := a |})) <$> l))
        (list_to_map ((fun a => (a, [])) <$> l)).
Proof.
  set (s := list_to_map _ : gmap Z (list Z)).
  assert (forall h xs, s !! h = Some xs -> xs = [] /\ h ∈ l) as Hs.
  { intros h xs H%elem_of_list_to_map_2. apply list_elem_of_fmap in H as (a & [= -> ->] & Ha). done. }
  split.
  - intros h xs H. apply Hs in H as [-> Hl]. unfold chain, next_get, prev_get.
    assert ((list_to_map ((fun a => (a, {| ll_next := a; ll_prev := a |})) <$> l) : links) !! h =
            Some {| ll_next := h; ll_prev := h |}) as ->; [|done].
    apply elem_of_list_to_map_1'.
    + intros y Hy. apply list_elem_of_fmap in Hy as (a & [= -> ->] & _). done.
    + by apply (list_elem_of_fmap_2 (fun a => (a, {| ll_next := a; ll_prev := a |}))).
  - intros h xs H. apply Hs in H as [-> _]. apply NoDup_singleton.
  - intros h1 h2 xs1 xs2 a H1 H2. apply Hs in H1 as [-> _], H2 as [-> _].
    rewrite !list_elem_of_singleton. congruence.
Qed.

Lemma list_ops_refine_witness :
  exists m', run_ops true [op_add_tail 100 1; op_add 100 2; op_add_before 1 3; op_move_tail 200 2; op_del 1]
    example_links = Some m' /\ observes m' 100 [3] /\ observes m' 200 [2].
Proof.
  destruct (list_ops_refine true
    [op_add_tail 100 1; op_add 100 2; op_add_before 1 3; op_move_tail 200 2; op_del 1]
    example_links example_rings
    (<[1 := []]> (<[100 := [3] ++ []]> (<[200 := [] ++ [2]]> (delete 2 (<[2 := []]> (<[100 := [] ++ [3; 1]]>
      (<[100 := [2] ++ [3; 1]]> (delete 3 (<[100 := 2 :: ([] ++ [1])]> (delete 2
        (<[100 := [] ++ [1]]> (delete 1 example_rings))))))))))))) as (m' & E & _ & H).
  - apply free_rings.
  - eapply ops_cons; [apply spec_add_tail; reflexivity || discriminate|].
    eapply ops_cons; [apply spec_add; reflexivity || discriminate|].
    eapply ops_cons; [apply (spec_add_before _ 100 1 3 [2] []); reflexivity || discriminate|].
    eapply ops_cons; [eapply spec_move_tail;
      [apply (spec_del _ 100 2 [] [3; 1]); reflexivity|reflexivity|discriminate]|].
    eapply ops_cons; [apply (spec_del _ 100 1 [3] []); reflexivity|]. apply ops_nil.
  - exists m'. split; [exact E|]. split; apply H; reflexivity.
Defined.
