(* ===== verification/TList.v ===== *)
(** * lib: typed lists

    src/lib/tlist.c over LibList: the objects of a list are named by the address
    of the object in which the link is embedded, list heads and objects carry
    magic numbers.  [TList] is the interface the users of typed lists are
    verified against; the pointer structures implement it. *)
From S2P Require Import Prelude LibList.
#[local] Open Scope motr_scope.

(** ** Definitions *)

Record m0_tl_descr := {
  td_link_offset : Z;
  td_link_magic_offset : Z;
  td_link_magic : Z;
  td_head_magic : Z
}.

(** The links and the 64-bit words of the memory, by address. *)
Record tl_mem := { tm_links : links; tm_words : gmap Z Z }.

(** The fields [t_magic] and [t_head] of [struct m0_tl]. *)
Definition t_magic (list : Z) : Z := list.

Definition t_head (list : Z) : Z := list + 8.

Section tlist.
Context (ex : bool) (d : m0_tl_descr).

Definition __link (obj : Z) : Z := obj + td_link_offset d.

Definition magic (m : tl_mem) (obj : Z) : option Z := tm_words m !! (obj + td_link_magic_offset d).

Definition amb (link : Z) : Z := link - td_link_offset d.

Definition on_links (m : tl_mem) (f : links -> option links) : option tl_mem :=
  l ← f (tm_links m); Some {| tm_links := l; tm_words := tm_words m |}.

Definition m0_tlink_invariant (m : tl_mem) (obj : Z) : option bool :=
  if td_link_magic d =? 0 then Some true
  else x ← magic m obj; Some (x =? td_link_magic d).

Fixpoint tlist_scan (fuel : nat) (m : tl_mem) (head scan : Z) : option bool :=
  if scan =? head then Some true
  else match fuel with
       | O => None
       | S fuel =>
           n ← next_get (tm_links m) scan;
           np ← prev_get (tm_links m) n;
           if negb (np =? scan) then Some false
           else
             p ← prev_get (tm_links m) scan;
             pn ← next_get (tm_links m) p;
             if negb (pn =? scan) then Some false
             else
               b ← M0_CHECK_EX ex (m0_tlink_invariant m (amb scan));
               if negb b then Some false else tlist_scan fuel m head n
       end.

Definition m0_tlist_invariant (m : tl_mem) (list : Z) : option bool :=
  let head := t_head list in
  x ← tm_words m !! t_magic list;
  if negb (x =? td_head_magic d) then Some false
  else
    n ← next_get (tm_links m) head;
    p ← prev_get (tm_links m) head;
    if negb (Bool.eqb (n =? head) (p =? head)) then Some false
    else tlist_scan (size (tm_links m)) m head n.

Definition m0_tlist_init (m : tl_mem) (list : Z) : option tl_mem :=
  m ← on_links {| tm_links := tm_links m; tm_words := <[t_magic list := td_head_magic d]> (tm_words m) |}
        (fun l => m0_list_init l (t_head list));
  _ ← M0_ASSERT_EX ex (m0_tlist_invariant m list);
  Some m.

Definition m0_tlist_fini (m : tl_mem) (list : Z) : option () :=
  _ ← M0_ASSERT_EX ex (m0_tlist_invariant m list);
  m0_list_fini (tm_links m) (t_head list).

Definition m0_tlink_init (m : tl_mem) (obj : Z) : option tl_mem :=
  m ← on_links m (fun l => m0_list_link_init l (__link obj));
  let m := if td_link_magic d =? 0 then m
           else {| tm_links := tm_links m;
                   tm_words := <[obj + td_link_magic_offset d := td_link_magic d]> (tm_words m) |} in
  _ ← M0_ASSERT_EX ex (m0_tlink_invariant m obj);
  Some m.

Definition m0_tlink_fini (m : tl_mem) (obj : Z) : option () :=
  m0_list_link_fini (tm_links m) (__link obj).

Definition m0_tlist_is_empty (m : tl_mem) (list : Z) : option bool :=
  _ ← M0_ASSERT_EX ex (m0_tlist_invariant m list);
  m0_list_is_empty (tm_links m) (t_head list).

Definition m0_tlink_is_in (m : tl_mem) (obj : Z) : option bool :=
  _ ← M0_ASSERT_EX ex (m0_tlink_invariant m obj);
  m0_list_link_is_in (tm_links m) (__link obj).

Definition m0_tlist_contains (m : tl_mem) (list obj : Z) : option bool :=
  _ ← M0_ASSERT_EX ex (m0_tlist_invariant m list);
  _ ← M0_ASSERT_EX ex (m0_tlink_invariant m obj);
  m0_list_contains (tm_links m) (t_head list) (__link obj).

Definition m0_tlist_length (m : tl_mem) (list : Z) : option Z :=
  _ ← M0_ASSERT_EX ex (m0_tlist_invariant m list);
  m0_list_length (tm_links m) (t_head list).

Definition m0_tlist_add (m : tl_mem) (list obj : Z) : option tl_mem :=
  _ ← M0_ASSERT_EX ex (m0_tlist_invariant m list);
  b ← m0_tlink_is_in m obj;
  _ ← M0_ASSERT (negb b);
  on_links m (fun l => m0_list_add ex l (t_head list) (__link obj)).

Definition m0_tlist_add_tail (m : tl_mem) (list obj : Z) : option tl_mem :=
  _ ← M0_ASSERT_EX ex (m0_tlist_invariant m list);
  b ← m0_tlink_is_in m obj;
  _ ← M0_ASSERT (negb b);
  on_links m (fun l => m0_list_add_tail ex l (t_head list) (__link obj)).

Definition m0_tlink_init_at (m : tl_mem) (obj list : Z) : option tl_mem :=
  m ← m0_tlink_init m obj;
  m0_tlist_add m list obj.

Definition m0_tlink_init_at_tail (m : tl_mem) (obj list : Z) : option tl_mem :=
  m ← m0_tlink_init m obj;
  m0_tlist_add_tail m list obj.

Definition m0_tlist_add_after (m : tl_mem) (obj new : Z) : option tl_mem :=
  b ← m0_tlink_is_in m obj;
  _ ← M0_ASSERT b;
  b ← m0_tlink_is_in m new;
  _ ← M0_ASSERT (negb b);
  on_links m (fun l => m0_list_add_after ex l (__link obj) (__link new)).

Definition m0_tlist_add_before (m : tl_mem) (obj new : Z) : option tl_mem :=
  b ← m0_tlink_is_in m obj;
  _ ← M0_ASSERT b;
  b ← m0_tlink_is_in m new;
  _ ← M0_ASSERT (negb b);
  on_links m (fun l => m0_list_add_before ex l (__link obj) (__link new)).

Definition m0_tlist_remove (m : tl_mem) (obj : Z) : option tl_mem :=
  _ ← M0_ASSERT_EX ex (m0_tlink_invariant m obj);
  m ← on_links m (fun l => m0_list_del ex l (__link obj));
  b ← m0_tlink_is_in m obj;
  _ ← M0_ASSERT (negb b);
  Some m.

Definition m0_tlist_del (m : tl_mem) (obj : Z) : option tl_mem :=
  b ← m0_tlink_is_in m obj;
  _ ← M0_ASSERT b;
  m0_tlist_remove m obj.

Definition m0_tlink_del_fini (m : tl_mem) (obj : Z) : option tl_mem :=
  m ← m0_tlist_del m obj;
  _ ← m0_tlink_fini m obj;
  Some m.

Definition m0_tlist_move (m : tl_mem) (list obj : Z) : option tl_mem :=
  _ ← M0_ASSERT_EX ex (m0_tlist_invariant m list);
  b ← m0_tlink_is_in m obj;
  _ ← M0_ASSERT b;
  on_links m (fun l => m0_list_move ex l (t_head list) (__link obj)).

Definition m0_tlist_move_tail (m : tl_mem) (list obj : Z) : option tl_mem :=
  _ ← M0_ASSERT_EX ex (m0_tlist_invariant m list);
  on_links m (fun l => m0_list_move_tail ex l (t_head list) (__link obj)).

(** NULL is [None]. *)
Definition m0_tlist_head (m : tl_mem) (list : Z) : option (option Z) :=
  _ ← M0_ASSERT_EX ex (m0_tlist_invariant m list);
  b ← m0_list_is_empty (tm_links m) (t_head list);
  if (b : bool) then Some None
  else n ← next_get (tm_links m) (t_head list); Some (Some (amb n)).

Definition m0_tlist_pop (m : tl_mem) (list : Z) : option (option Z * tl_mem) :=
  head ← m0_tlist_head m list;
  match head with
  | None => Some (None, m)
  | Some obj => m ← m0_tlist_del m obj; Some (Some obj, m)
  end.

Definition m0_tlist_tail (m : tl_mem) (list : Z) : option (option Z) :=
  _ ← M0_ASSERT_EX ex (m0_tlist_invariant m list);
  p ← prev_get (tm_links m) (t_head list);
  Some (if negb (p =? t_head list) then Some (amb p) else None).

Definition m0_tlist_next (m : tl_mem) (list obj : Z) : option (option Z) :=
  n ← next_get (tm_links m) (__link obj);
  Some (if negb (n =? t_head list) then Some (amb n) else None).

Definition m0_tlist_prev (m : tl_mem) (list obj : Z) : option (option Z) :=
  p ← prev_get (tm_links m) (__link obj);
  Some (if negb (p =? t_head list) then Some (amb p) else None).

(** m0_tlist_forall(): the next element is read before the body runs; the result
    says whether the loop reached the end. *)
Fixpoint forall_loop (fuel : nat) (m : tl_mem) (list : Z) (obj : option Z) (f : Z -> option bool)
  : option bool :=
  match obj with
  | None => Some true
  | Some o =>
      match fuel with
      | O => None
      | S fuel =>
          n ← m0_tlist_next m list o;
          b ← f o;
          if (b : bool) then forall_loop fuel m list n f else Some false
      end
  end.

Definition m0_tlist_forall (m : tl_mem) (list : Z) (f : Z -> option bool) : option bool :=
  obj ← m0_tlist_head m list;
  forall_loop (size (tm_links m)) m list obj f.

Definition m0_tlist_invariant_ext (m : tl_mem) (list : Z) (check : Z -> option bool) : option bool :=
  b ← m0_tlist_invariant m list;
  if (b : bool) then m0_tlist_forall m list check else Some true.

End tlist.

(** ** The interface *)

(** The lists of one type: the objects on every list, in order, and the
    initialised objects that are on none. *)
Record tlists := { tl_lists : gmap Z (list Z); tl_free : gset Z }.

Class TList (T : Type) := {
  tl_is_empty : T -> Z -> option bool;
  tl_contains : T -> Z -> Z -> option bool;
  tl_length : T -> Z -> option Z;
  tl_is_in : T -> Z -> option bool;
  tl_head : T -> Z -> option (option Z);
  tl_tail : T -> Z -> option (option Z);
  tl_forall : T -> Z -> (Z -> option bool) -> option bool;
  tl_add_tail : T -> Z -> Z -> option T;
  tl_del : T -> Z -> option T;
  tl_move_tail : T -> Z -> Z -> option T
}.

Class TListLaws (T : Type) {ops : TList T} (rep : T -> tlists -> Prop) : Prop := {
  tl_nodup t s L xs : rep t s -> tl_lists s !! L = Some xs -> NoDup xs;
  tl_disjoint t s L1 L2 xs ys o :
    rep t s -> tl_lists s !! L1 = Some xs -> tl_lists s !! L2 = Some ys -> o ∈ xs -> o ∈ ys -> L1 = L2;
  tl_not_free t s L xs o : rep t s -> tl_lists s !! L = Some xs -> o ∈ xs -> o ∉ tl_free s;
  tl_is_empty_ok t s L xs :
    rep t s -> tl_lists s !! L = Some xs -> tl_is_empty t L = Some (bool_decide (xs = []));
  tl_contains_ok t s L L' xs ys o :
    rep t s -> tl_lists s !! L = Some xs -> o ∈ tl_free s \/ tl_lists s !! L' = Some ys /\ o ∈ ys ->
    tl_contains t L o = Some (bool_decide (o ∈ xs));
  tl_length_ok t s L xs :
    rep t s -> tl_lists s !! L = Some xs -> tl_length t L = Some (u64 (Z.of_nat (length xs)));
  tl_is_in_free t s o : rep t s -> o ∈ tl_free s -> tl_is_in t o = Some false;
  tl_is_in_list t s L xs o :
    rep t s -> tl_lists s !! L = Some xs -> o ∈ xs -> tl_is_in t o = Some true;
  tl_head_ok t s L xs : rep t s -> tl_lists s !! L = Some xs -> tl_head t L = Some (head xs);
  tl_tail_ok t s L xs : rep t s -> tl_lists s !! L = Some xs -> tl_tail t L = Some (last xs);
  tl_forall_ok t s L xs f g :
    rep t s -> tl_lists s !! L = Some xs -> (forall o, o ∈ xs -> f o = Some (g o)) ->
    tl_forall t L f = Some (forallb g xs);
  tl_add_tail_ok t s L xs o :
    rep t s -> tl_lists s !! L = Some xs -> o ∈ tl_free s ->
    exists t', tl_add_tail t L o = Some t' /\
      rep t' {| tl_lists := <[L := xs ++ [o]]> (tl_lists s); tl_free := tl_free s ∖ {[o]} |};
  tl_del_ok t s L xs o ys :
    rep t s -> tl_lists s !! L = Some (xs ++ o :: ys) ->
    exists t', tl_del t o = Some t' /\
      rep t' {| tl_lists := <[L := xs ++ ys]> (tl_lists s); tl_free := {[o]} ∪ tl_free s |};
  tl_move_tail_free t s L xs o :
    rep t s -> tl_lists s !! L = Some xs -> o ∈ tl_free s ->
    exists t', tl_move_tail t L o = Some t' /\
      rep t' {| tl_lists := <[L := xs ++ [o]]> (tl_lists s); tl_free := tl_free s ∖ {[o]} |};
  tl_move_tail_list t s L1 L2 xs o ys zs :
    rep t s -> tl_lists s !! L1 = Some (xs ++ o :: ys) -> tl_lists s !! L2 = Some zs -> L1 <> L2 ->
    exists t', tl_move_tail t L2 o = Some t' /\
      rep t' {| tl_lists := <[L2 := zs ++ [o]]> (<[L1 := xs ++ ys]> (tl_lists s)); tl_free := tl_free s |}
}.

(** ** The pointer structures implement the interface *)

Section impl.
Context (ex : bool) (d : m0_tl_descr).

#[export] Instance tl_mem_tlist : TList tl_mem := {
  tl_is_empty := m0_tlist_is_empty ex d;
  tl_contains := m0_tlist_contains ex d;
  tl_length := m0_tlist_length ex d;
  tl_is_in := m0_tlink_is_in ex d;
  tl_head := m0_tlist_head ex d;
  tl_tail := m0_tlist_tail ex d;
  tl_forall := m0_tlist_forall ex d;
  tl_add_tail := m0_tlist_add_tail ex d;
  tl_del := m0_tlist_del ex d;
  tl_move_tail := m0_tlist_move_tail ex d
}.

Definition magic_ok (m : tl_mem) (o : Z) : Prop := m0_tlink_invariant d m o = Some true.

(** The store may hold further lists. *)
Record tl_mem_rep (m : tl_mem) (s : tlists) (r : gmap Z (list Z)) : Prop := {
  tr_rings : rings (tm_links m) r;
  tr_list L xs : tl_lists s !! L = Some xs ->
    r !! t_head L = Some (__link d <$> xs) /\ tm_words m !! t_magic L = Some (td_head_magic d);
  tr_free o : o ∈ tl_free s -> r !! __link d o = Some [];
  tr_magic o : o ∈ tl_free s \/ (exists L xs, tl_lists s !! L = Some xs /\ o ∈ xs) -> magic_ok m o;
  tr_apart L xs o : tl_lists s !! L = Some xs -> o ∈ tl_free s -> t_head L <> __link d o
}.

Definition tl_rep (m : tl_mem) (s : tlists) : Prop := exists r, tl_mem_rep m s r.

Lemma link_inj o1 o2 : __link d o1 = __link d o2 -> o1 = o2.
Proof. unfold __link. lia. Qed.

#[local] Instance link_Inj : Inj (=) (=) (__link d).
Proof. intros ?? E. by apply link_inj. Qed.

Lemma amb_link o : amb d (__link d o) = o.
Proof. unfold amb, __link. lia. Qed.

Lemma head_inj L1 L2 : t_head L1 = t_head L2 -> L1 = L2.
Proof. unfold t_head. lia. Qed.

Lemma magic_words m m' o : tm_words m' = tm_words m -> magic_ok m o -> magic_ok m' o.
Proof. unfold magic_ok, m0_tlink_invariant, magic. by intros ->. Qed.

Section facts.
Context (m : tl_mem) (s : tlists) (r : gmap Z (list Z)).
Hypothesis Hrep : tl_mem_rep m s r.

Lemma rep_chain L xs :
  tl_lists s !! L = Some xs ->
  chain (tm_links m) (t_head L) (__link d <$> xs) (t_head L) /\ NoDup (t_head L :: (__link d <$> xs)).
Proof.
  intros HL. apply (tr_list _ _ _ Hrep) in HL as [Hr _].
  split; [by eapply rings_chain; [apply Hrep|]|by eapply rings_nodup; [apply Hrep|]].
Qed.

Lemma head_not_link L1 L2 xs ys o :
  tl_lists s !! L1 = Some xs -> tl_lists s !! L2 = Some ys -> o ∈ ys -> t_head L1 <> __link d o.
Proof.
  intros H1 H2 Ho E. destruct (rep_chain _ _ H2) as [_ [Hn _]%NoDup_cons].
  apply (tr_list _ _ _ Hrep) in H1 as [H1 _], H2 as [H2 _].
  assert (__link d o ∈ __link d <$> ys) as Hin by by apply list_elem_of_fmap_2.
  assert (t_head L1 = t_head L2) as E2.
  { eapply (rings_disjoint _ _ (tr_rings _ _ _ Hrep)); [exact H1|exact H2|rewrite E; left|by right]. }
  apply Hn. by rewrite <- E2, E.
Qed.

Lemma observe_list L xs : tl_lists s !! L = Some xs -> observes (tm_links m) (t_head L) (__link d <$> xs).
Proof.
  intros HL. apply (tr_list _ _ _ Hrep) in HL as [Hr _]. by eapply rings_observes; [apply Hrep|].
Qed.

Lemma tlist_scan_ok fuel p xs e :
  chain (tm_links m) p (__link d <$> xs) e -> e ∉ (__link d <$> xs) -> (length xs <= fuel)%nat ->
  Forall (magic_ok m) xs ->
  tlist_scan ex d fuel m e (first_link (__link d <$> xs) e) = Some true.
Proof.
  revert fuel p. induction xs as [|x xs IH]; intros fuel p Hc He Hf Hm.
  - unfold first_link. cbn. destruct fuel; cbn; by rewrite Z.eqb_refl.
  - destruct fuel as [|fuel]; [cbn in Hf; lia|]. rewrite fmap_cons in *. destruct Hc as (Hn & Hp & Hc).
    apply Forall_cons in Hm as [Hmx Hm].
    destruct (chain_around _ (__link d x) [] (__link d <$> xs) e Hc) as [Hx1 Hx2].
    unfold last_link in Hx1, Hx2. cbn in Hx1, Hx2.
    change (first_link (__link d x :: (__link d <$> xs)) e) with (__link d x). cbn [tlist_scan].
    rewrite (proj2 (Z.eqb_neq (__link d x) e)) by set_solver.
    run Hx1. run Hx2. rewrite Z.eqb_refl. cbn [negb]. run Hp. run Hn. rewrite Z.eqb_refl. cbn [negb].
    assert (M0_CHECK_EX ex (m0_tlink_invariant d m (amb d (__link d x))) = Some true) as ->.
    { rewrite amb_link. by destruct ex. }
    cbn [mbind option_bind negb]. apply (IH _ (__link d x)); [done|set_solver|cbn in Hf; lia|done].
Qed.

Lemma tlist_invariant_ok L xs : tl_lists s !! L = Some xs -> m0_tlist_invariant ex d m L = Some true.
Proof.
  intros HL. destruct (rep_chain _ _ HL) as [Hc Hnd]. pose proof (proj2 (tr_list _ _ _ Hrep _ _ HL)) as Hmag.
  unfold m0_tlist_invariant. run Hmag. rewrite Z.eqb_refl. cbn [negb].
  pose proof (link_invariant_ok _ _ _ Hc Hnd) as Hinv. unfold m0_list_link_invariant in Hinv.
  rewrite (next_first _ _ _ Hc), (prev_last _ _ _ Hc) in Hinv |- *. cbn [mbind option_bind] in *.
  destruct (negb _); [done|]. apply NoDup_cons in Hnd as [Hh Hnd].
  apply (tlist_scan_ok _ (t_head L)); [done|done| |].
  - rewrite <- (length_fmap (__link d)). apply NoDup_size; [done|].
    intros a Ha. eapply chain_alloc; [done|by right].
  - apply Forall_forall. intros o Ho. apply (tr_magic _ _ _ Hrep). right. by exists L, xs.
Qed.

Lemma assert_list L xs : tl_lists s !! L = Some xs -> M0_ASSERT_EX ex (m0_tlist_invariant ex d m L) = Some tt.
Proof. intros HL. apply assert_ex_ok. by eapply tlist_invariant_ok. Qed.

Lemma assert_free o : o ∈ tl_free s -> M0_ASSERT_EX ex (m0_tlink_invariant d m o) = Some tt.
Proof. intros Ho. apply assert_ex_ok, (tr_magic _ _ _ Hrep). by left. Qed.

Lemma assert_elem L xs o :
  tl_lists s !! L = Some xs -> o ∈ xs -> M0_ASSERT_EX ex (m0_tlink_invariant d m o) = Some tt.
Proof. intros HL Ho. apply assert_ex_ok, (tr_magic _ _ _ Hrep). right. by exists L, xs. Qed.

Lemma is_in_free o : o ∈ tl_free s -> m0_tlink_is_in ex d m o = Some false.
Proof.
  intros Ho. unfold m0_tlink_is_in. run (assert_free o Ho). unfold m0_list_link_is_in.
  pose proof (rings_chain _ _ (tr_rings _ _ _ Hrep) _ _ (tr_free _ _ _ Hrep o Ho)) as [_ Hp].
  run Hp. by rewrite Z.eqb_refl.
Qed.

Lemma is_in_elem L xs o : tl_lists s !! L = Some xs -> o ∈ xs -> m0_tlink_is_in ex d m o = Some true.
Proof.
  intros HL Ho. unfold m0_tlink_is_in. run (assert_elem L xs o HL Ho).
  destruct (observe_list _ _ HL) as (_ & _ & _ & _ & _ & H). by apply H, list_elem_of_fmap_2.
Qed.


(** The store after an insertion. *)
Lemma rep_added L xs o l :
  tl_lists s !! L = Some xs -> o ∈ tl_free s ->
  rings l (<[t_head L := (__link d <$> xs) ++ [__link d o]]> (delete (__link d o) r)) ->
  tl_mem_rep {| tm_links := l; tm_words := tm_words m |}
    {| tl_lists := <[L := xs ++ [o]]> (tl_lists s); tl_free := tl_free s ∖ {[o]} |}
    (<[t_head L := (__link d <$> xs) ++ [__link d o]]> (delete (__link d o) r)).
Proof.
  intros HL Ho Hr. split; cbn [tm_links tm_words tl_lists tl_free].
  - done.
  - intros L2 ys [[<- <-]|[Hne HL2]]%lookup_insert_Some.
    + rewrite lookup_insert_eq, fmap_app. split; [done|]. by apply (tr_list _ _ _ Hrep L xs).
    + pose proof (tr_apart _ _ _ Hrep _ _ _ HL2 Ho). apply (tr_list _ _ _ Hrep) in HL2.
      rewrite lookup_insert_ne by by intros E%head_inj. by rewrite lookup_delete_ne.
  - intros o2 [Ho2 Hne]%elem_of_difference. rewrite not_elem_of_singleton in Hne.
    pose proof (tr_apart _ _ _ Hrep _ _ _ HL Ho2). rewrite lookup_insert_ne by done.
    rewrite lookup_delete_ne by by intros E%link_inj. by apply (tr_free _ _ _ Hrep).
  - intros o2 Ho2. eapply magic_words; [done|]. apply (tr_magic _ _ _ Hrep).
    destruct Ho2 as [[? _]%elem_of_difference|(L2 & ys & [[<- <-]|[_ HL2]]%lookup_insert_Some & Hin)];
      [by left| |right; by exists L2, ys].
    apply elem_of_app in Hin as [Hin| ->%list_elem_of_singleton]; [right; by exists L, xs|by left].
  - intros L2 ys o2 HL2 [Ho2 _]%elem_of_difference.
    apply lookup_insert_Some in HL2 as [[<- _]|[_ HL2]]; by eapply (tr_apart _ _ _ Hrep).
Qed.

(** The store after a removal. *)
Lemma rep_removed L xs o ys l :
  tl_lists s !! L = Some (xs ++ o :: ys) ->
  rings l (<[__link d o := []]> (<[t_head L := (__link d <$> xs) ++ (__link d <$> ys)]> r)) ->
  tl_mem_rep {| tm_links := l; tm_words := tm_words m |}
    {| tl_lists := <[L := xs ++ ys]> (tl_lists s); tl_free := {[o]} ∪ tl_free s |}
    (<[__link d o := []]> (<[t_head L := (__link d <$> xs) ++ (__link d <$> ys)]> r)).
Proof.
  intros HL Hr. assert (o ∈ xs ++ o :: ys) as Ho by set_solver.
  assert (forall L2 zs, tl_lists s !! L2 = Some zs -> t_head L2 <> __link d o) as Hapart.
  { intros L2 zs HL2. exact (head_not_link L2 L zs _ o HL2 HL Ho). }
  split; cbn [tm_links tm_words tl_lists tl_free].
  - done.
  - intros L2 zs [[<- <-]|[Hne HL2]]%lookup_insert_Some.
    + rewrite lookup_insert_ne by (intros E; by eapply Hapart). rewrite lookup_insert_eq, fmap_app.
      split; [done|]. by apply (tr_list _ _ _ Hrep L (xs ++ o :: ys)).
    + rewrite lookup_insert_ne by (intros E; by eapply Hapart).
      rewrite lookup_insert_ne by by intros E%head_inj. by apply (tr_list _ _ _ Hrep).
  - intros o2 [->%elem_of_singleton|Ho2]%elem_of_union; [by rewrite lookup_insert_eq|].
    destruct (decide (o2 = o)) as [->|Hne]; [by rewrite lookup_insert_eq|].
    rewrite lookup_insert_ne by by intros E%link_inj.
    rewrite lookup_insert_ne by by eapply (tr_apart _ _ _ Hrep). by apply (tr_free _ _ _ Hrep).
  - intros o2 Ho2. eapply magic_words; [done|]. apply (tr_magic _ _ _ Hrep).
    destruct Ho2 as [[->%elem_of_singleton|?]%elem_of_union|(L2 & zs & [[<- <-]|[_ HL2]]%lookup_insert_Some &
      Hin)].
    + right. by exists L, (xs ++ o :: ys).
    + by left.
    + right. exists L, (xs ++ o :: ys). split; [done|]. set_solver.
    + right. by exists L2, zs.
  - intros L2 zs o2 HL2 [->%elem_of_singleton|Ho2]%elem_of_union;
      apply lookup_insert_Some in HL2 as [[<- _]|[_ HL2]]; eauto; by eapply (tr_apart _ _ _ Hrep).
Qed.

End facts.

Lemma rep_free m m' s s' r :
  tl_lists s = tl_lists s' -> tl_free s = tl_free s' -> m = m' -> tl_mem_rep m s r -> tl_mem_rep m' s' r.
Proof. destruct s, s'. cbn. by intros -> -> ->. Qed.

Lemma forall_loop_ok m s r L xs ys f g fuel :
  tl_mem_rep m s r -> tl_lists s !! L = Some (xs ++ ys) -> (forall o, o ∈ xs ++ ys -> f o = Some (g o)) ->
  (length ys <= fuel)%nat ->
  forall_loop d fuel m L (head ys) f = Some (forallb g ys).
Proof.
  intros Hrep HL Hf. destruct (rep_chain _ _ _ Hrep _ _ HL) as [Hc Hnd].
  revert xs HL Hf Hc Hnd fuel. induction ys as [|y ys IH]; intros xs HL Hf Hc Hnd fuel Hfuel.
  - by destruct fuel.
  - destruct fuel as [|fuel]; [cbn in Hfuel; lia|]. cbn [head forall_loop forallb].
    assert (m0_tlist_next d m L y = Some (head ys)) as ->.
    { unfold m0_tlist_next. rewrite fmap_app, fmap_cons in Hc, Hnd. pose proof (chain_rotate _ _ _ _ _ Hc)
        as Hc'.
      run (next_first _ _ _ Hc'). f_equal. destruct ys as [|z ys]; cbn; [by rewrite Z.eqb_refl|].
      rewrite (proj2 (Z.eqb_neq _ _)); [by rewrite amb_link|].
      apply NoDup_cons in Hnd as [Hnd _]. set_solver. }
    cbn [mbind option_bind]. rewrite Hf by set_solver. cbn [mbind option_bind].
    destruct (g y); [|done]. cbn [andb]. change (y :: ys) with ([y] ++ ys) in *. rewrite app_assoc in *.
    apply (IH (xs ++ [y])); try done. cbn in Hfuel. lia.
Qed.

Lemma tlist_head_ok m s L xs : tl_rep m s -> tl_lists s !! L = Some xs -> m0_tlist_head ex d m L = Some (head xs).
Proof.
  intros [r Hrep] HL. unfold m0_tlist_head. run (assert_list _ _ _ Hrep _ _ HL).
  destruct (observe_list _ _ _ Hrep _ _ HL) as (_ & _ & -> & _). cbn [mbind option_bind].
  destruct (rep_chain _ _ _ Hrep _ _ HL) as [Hc _].
  destruct xs as [|x xs]; [by rewrite bool_decide_true|]. rewrite bool_decide_false by done.
  run (next_first _ _ _ Hc). cbn. by rewrite amb_link.
Qed.

Lemma tlist_tail_ok m s L xs : tl_rep m s -> tl_lists s !! L = Some xs -> m0_tlist_tail ex d m L = Some (last xs).
Proof.
  intros [r Hrep] HL. unfold m0_tlist_tail. run (assert_list _ _ _ Hrep _ _ HL).
  destruct (rep_chain _ _ _ Hrep _ _ HL) as [Hc [Hnd _]%NoDup_cons]. run (prev_last _ _ _ Hc). f_equal.
  destruct xs as [|x xs _] using rev_ind; [cbn; by rewrite Z.eqb_refl|].
  rewrite fmap_app in *. cbn [fmap list_fmap] in *. rewrite last_link_snoc, last_snoc, amb_link.
  rewrite (proj2 (Z.eqb_neq _ _)); [done|]. set_solver.
Qed.

Lemma tlist_forall_ok m s L xs f g : tl_rep m s -> tl_lists s !! L = Some xs -> (forall o, o ∈ xs -> f o = Some (g o)) ->
  m0_tlist_forall ex d m L f = Some (forallb g xs).
Proof.
  intros [r Hrep] HL Hf. unfold m0_tlist_forall.
  rewrite (tlist_head_ok m s L xs) by (done || by exists r).
  cbn [mbind option_bind]. apply (forall_loop_ok m s r L [] xs); try done.
  destruct (rep_chain _ _ _ Hrep _ _ HL) as [Hc [_ Hnd]%NoDup_cons]. rewrite <- (length_fmap (__link d)).
  apply NoDup_size; [done|]. intros a Ha. eapply chain_alloc; [done|by right].
Qed.

Lemma tlist_add_tail_ok m s L xs o : tl_rep m s -> tl_lists s !! L = Some xs -> o ∈ tl_free s ->
  exists m', m0_tlist_add_tail ex d m L o = Some m' /\
    tl_rep m' {| tl_lists := <[L := xs ++ [o]]> (tl_lists s); tl_free := tl_free s ∖ {[o]} |}.
Proof.
  intros [r Hrep] HL Ho. unfold m0_tlist_add_tail. run (assert_list _ _ _ Hrep _ _ HL).
  run (is_in_free _ _ _ Hrep o Ho). cbn [negb M0_ASSERT mbind option_bind]. unfold on_links.
  destruct (add_tail_ok ex (tm_links m) (delete (__link d o) r) (t_head L) (__link d <$> xs) (__link d o))
    as (l & -> & _ & Hr).
  - apply rings_delete, Hrep.
  - rewrite lookup_delete_ne; [by apply (tr_list _ _ _ Hrep)|]. intros E. by eapply (tr_apart _ _ _ Hrep).
  - apply free_unused; [apply Hrep|by apply (tr_free _ _ _ Hrep)].
  - eexists. split; [done|]. eexists. by eapply rep_added.
Qed.

Lemma tlist_del_ok m s L xs o ys : tl_rep m s -> tl_lists s !! L = Some (xs ++ o :: ys) ->
  exists m', m0_tlist_del ex d m o = Some m' /\
    tl_rep m' {| tl_lists := <[L := xs ++ ys]> (tl_lists s); tl_free := {[o]} ∪ tl_free s |}.
Proof.
  intros [r Hrep] HL. unfold m0_tlist_del.
  assert (o ∈ xs ++ o :: ys) as Ho by set_solver.
  run (is_in_elem _ _ _ Hrep _ _ o HL Ho). unfold m0_tlist_remove, on_links.
  cbn [M0_ASSERT mbind option_bind]. run (assert_elem _ _ _ Hrep _ _ o HL Ho).
  pose proof (proj1 (tr_list _ _ _ Hrep _ _ HL)) as HrL. rewrite fmap_app, fmap_cons in HrL.
  destruct (list_del_ok ex (tm_links m) r _ (__link d o) (tr_rings _ _ _ Hrep) (spec_del _ _ _ _ _ HrL))
    as (l & -> & _ & Hr). cbn [mbind option_bind].
  pose proof (rep_removed _ _ _ Hrep _ _ _ _ l HL Hr) as Hrep'.
  rewrite (is_in_free _ _ _ Hrep' o) by set_solver. eexists. split; [done|]. by eexists.
Qed.

Lemma tlist_move_free_ok m s L xs o : tl_rep m s -> tl_lists s !! L = Some xs -> o ∈ tl_free s ->
  exists m', m0_tlist_move_tail ex d m L o = Some m' /\
    tl_rep m' {| tl_lists := <[L := xs ++ [o]]> (tl_lists s); tl_free := tl_free s ∖ {[o]} |}.
Proof.
  intros [r Hrep] HL Ho. unfold m0_tlist_move_tail. run (assert_list _ _ _ Hrep _ _ HL).
  unfold on_links.
  destruct (list_move_tail_ok ex (tm_links m) r r (t_head L) (__link d o) (__link d <$> xs)) as (l & ->
    & _ & Hr).
  - apply Hrep.
  - by apply spec_del_free, (tr_free _ _ _ Hrep).
  - by apply (tr_list _ _ _ Hrep).
  - by eapply (tr_apart _ _ _ Hrep).
  - eexists. split; [done|]. eexists. by eapply rep_added.
Qed.

Lemma tlist_move_ok m s L1 L2 xs o ys zs : tl_rep m s -> tl_lists s !! L1 = Some (xs ++ o :: ys) -> tl_lists s !! L2 = Some zs -> L1 <> L2 ->
  exists m', m0_tlist_move_tail ex d m L2 o = Some m' /\
    tl_rep m' {| tl_lists := <[L2 := zs ++ [o]]> (<[L1 := xs ++ ys]> (tl_lists s)); tl_free := tl_free s |}.
Proof.
  intros [r Hrep] H1 H2 Hne. unfold m0_tlist_move_tail.
  run (assert_list _ _ _ Hrep _ _ H2). unfold on_links. assert (o ∈ xs ++ o :: ys) as Ho by set_solver.
  pose proof (proj1 (tr_list _ _ _ Hrep _ _ H1)) as HrL. rewrite fmap_app, fmap_cons in HrL.
  destruct (list_del_ok ex (tm_links m) r _ (__link d o) (tr_rings _ _ _ Hrep) (spec_del _ _ _ _ _ HrL))
    as (l1 & _ & _ & Hr1). pose proof (rep_removed _ _ _ Hrep _ _ _ _ l1 H1 Hr1) as Hrep1.
  assert (tl_lists {| tl_lists := <[L1 := xs ++ ys]> (tl_lists s); tl_free := {[o]} ∪ tl_free s |} !! L2 =
          Some zs) as H2' by (cbn; by rewrite lookup_insert_ne).
  destruct (list_move_tail_ok ex (tm_links m) r _ (t_head L2) (__link d o) (__link d <$> zs)
    (tr_rings _ _ _ Hrep) (spec_del _ _ _ _ _ HrL)) as (l & -> & _ & Hr).
  - by apply (tr_list _ _ _ Hrep1).
  - eapply (tr_apart _ _ _ Hrep1); [done|]. cbn. set_solver.
  - eexists. split; [done|]. eexists.
    eapply rep_free; [| | |eapply (rep_added _ _ _ Hrep1); [exact H2'| |exact Hr]]; cbn;
      [done| |done|set_solver].
    apply set_eq. intros a. rewrite elem_of_difference, elem_of_union, elem_of_singleton.
    assert (o ∉ tl_free s) as Hno.
    { intros Hf. apply (tr_apart _ _ _ Hrep _ _ _ H1 Hf). apply (tr_free _ _ _ Hrep) in Hf.
      eapply (rings_disjoint _ _ (tr_rings _ _ _ Hrep)); [exact HrL|exact Hf| |left]. set_solver. }
    destruct (decide (a = o)) as [->|]; set_solver.
Qed.

#[export] Instance tl_mem_laws : TListLaws tl_mem tl_rep.
Proof.
  split; cbn.
  - intros m s L xs [r Hrep] HL. destruct (rep_chain _ _ _ Hrep _ _ HL) as [_ [_ Hnd]%NoDup_cons].
    by apply NoDup_fmap in Hnd; [|apply _].
  - intros m s L1 L2 xs ys o [r Hrep] H1 H2 Ho1 Ho2.
    apply (tr_list _ _ _ Hrep) in H1 as [H1 _], H2 as [H2 _]. apply head_inj.
    eapply (rings_disjoint _ _ (tr_rings _ _ _ Hrep)); [done|done| |]; right; by apply list_elem_of_fmap_2.
  - intros m s L xs o [r Hrep] HL Ho Hfree.
    apply (tr_apart _ _ _ Hrep _ _ _ HL Hfree). apply (tr_list _ _ _ Hrep) in HL as [HL _].
    apply (tr_free _ _ _ Hrep) in Hfree.
    eapply (rings_disjoint _ _ (tr_rings _ _ _ Hrep)); [done|done| |left]. right.
    by apply list_elem_of_fmap_2.
  - intros m s L xs [r Hrep] HL. unfold m0_tlist_is_empty. run (assert_list _ _ _ Hrep _ _ HL).
    destruct (observe_list _ _ _ Hrep _ _ HL) as (_ & _ & -> & _). f_equal. apply bool_decide_ext.
    by destruct xs.
  - intros m s L L' xs ys o [r Hrep] HL Ho. unfold m0_tlist_contains. run (assert_list _ _ _ Hrep _ _ HL).
    rewrite assert_ex_ok; [cbn [mbind option_bind]|].
    + destruct (observe_list _ _ _ Hrep _ _ HL) as (_ & _ & _ & _ & -> & _). f_equal. apply bool_decide_ext.
      by rewrite (list_elem_of_fmap_inj _).
    + apply (tr_magic _ _ _ Hrep). destruct Ho as [|[]]; [by left|right; by exists L', ys].
  - intros m s L xs [r Hrep] HL. unfold m0_tlist_length. run (assert_list _ _ _ Hrep _ _ HL).
    destruct (observe_list _ _ _ Hrep _ _ HL) as (_ & -> & _). by rewrite length_fmap.
  - intros m s o [r Hrep] Ho. by eapply is_in_free.
  - intros m s L xs o [r Hrep] HL Ho. by eapply is_in_elem.
  - apply tlist_head_ok.
  - apply tlist_tail_ok.
  - apply tlist_forall_ok.
  - apply tlist_add_tail_ok.
  - apply tlist_del_ok.
  - apply tlist_move_free_ok.
  - apply tlist_move_ok.
Qed.

End impl.
