(* ===== verification/SmAst.v ===== *)
(** * sm: the fork queue of a state machine group

    src/sm/sm.c: asynchronous system traps (ASTs) are posted to a group without
    taking locks, by compare-and-swap on the head of a singly linked queue, and
    are run or cancelled by the thread that holds the lock of the group.  Every
    access of a function to shared memory is a step of the thread that runs it;
    [step] interleaves the steps of any number of threads, in sequentially
    consistent order, under the protocol of src/sm/sm.h: an AST is not posted
    again before it was run or cancelled, and is not cancelled while it is being
    posted.  An AST has its call-back from before it is posted until it is run, which the
    code asserts; call-backs are not part of the state. *)
From S2P Require Import Prelude.
#[local] Open Scope motr_scope.

(** ** Definitions: shared state *)

Definition NULL : Z := 0.

(** The address of the end-of-queue marker. *)
Notation eoq := 1 (only parsing).

(** [s_lock] is modelled by its owner; [g_next] holds the [sa_next] fields. *)
Record m0_sm_group := {
  s_owner : option Z;
  s_nesting : Z;
  s_forkq : Z;
  g_next : gmap Z Z
}.

Definition is_ast (a : Z) : bool := negb (a =? NULL) && negb (a =? eoq).

(** [ast->sa_next]; the structures are zeroed before their first use. *)
Definition sa_next (g : m0_sm_group) (a : Z) : option Z :=
  if a =? NULL then None else Some (default NULL (g_next g !! a)).

Definition set_next (g : m0_sm_group) (a v : Z) : m0_sm_group :=
  {| s_owner := s_owner g; s_nesting := s_nesting g; s_forkq := s_forkq g;
     g_next := <[a := v]> (g_next g) |}.

Definition set_forkq (g : m0_sm_group) (v : Z) : m0_sm_group :=
  {| s_owner := s_owner g; s_nesting := s_nesting g; s_forkq := v; g_next := g_next g |}.

Definition set_owner (g : m0_sm_group) (o : option Z) (nesting : Z) : m0_sm_group :=
  {| s_owner := o; s_nesting := nesting; s_forkq := s_forkq g; g_next := g_next g |}.

Definition m0_sm_group_init : m0_sm_group :=
  {| s_owner := None; s_nesting := 0; s_forkq := eoq; g_next := ∅ |}.

Definition m0_sm_group_fini (g : m0_sm_group) : option () :=
  _ ← M0_ASSERT (s_forkq g =? eoq);
  M0_ASSERT (bool_decide (s_owner g = None)).

Definition m0_mutex_is_locked (t : Z) (g : m0_sm_group) : bool := bool_decide (s_owner g = Some t).

Notation grp_is_locked t g := (m0_mutex_is_locked t g) (only parsing).

(** Runs when the mutex is free; otherwise the thread waits. *)
Definition _sm_group_lock (t : Z) (g : m0_sm_group) : option m0_sm_group :=
  _ ← M0_ASSERT (s_nesting g =? 0);
  Some (set_owner g (Some t) 1).

Definition _sm_group_unlock (t : Z) (g : m0_sm_group) : option m0_sm_group :=
  _ ← M0_ASSERT (s_nesting g =? 1);
  _ ← M0_ASSERT (m0_mutex_is_locked t g);
  Some (set_owner g None 0).

(** ** Definitions: steps of the functions *)

(** Where a function is between two accesses to shared memory. *)
Inductive post_pc := PRead | PCas.

Inductive run_pc := RRead | RNext (ast : Z) | RCas (ast next : Z) | RClear (ast : Z) | RCall (ast : Z).

Inductive cancel_pc :=
  CTest | CHead | CNext | CCas (next : Z) | CScan | CLoop (prev : Z) | CUnlink (prev : Z) | CClear.

(** What happened to an AST. *)
Inductive event := EPost (ast : Z) | ERun (ast : Z) | ECancel (ast : Z).

(** The result of a step of a function: an assertion failed or NULL was
    dereferenced, the function goes on, or it returns. *)
Inductive outcome (P : Type) :=
  | Crash
  | Goto (g : m0_sm_group) (pc : P) (ev : list event)
  | Return (g : m0_sm_group) (ev : list event).
Arguments Crash {P}.
Arguments Goto {P} g pc ev.
Arguments Return {P} g ev.

(** The loop of m0_sm_ast_post(). *)
Definition m0_sm_ast_post (g : m0_sm_group) (ast : Z) (pc : post_pc) : outcome post_pc :=
  match pc with
  | PRead => Goto (set_next g ast (s_forkq g)) PCas []
  | PCas =>
      match sa_next g ast with
      | None => Crash
      | Some n =>
          if s_forkq g =? n then Return (set_forkq g ast) [EPost ast] else Goto g PRead []
      end
  end.

(** m0_sm_asts_run(); at [RCall] the call-back runs. *)
Definition m0_sm_asts_run (t : Z) (g : m0_sm_group) (pc : run_pc) : outcome run_pc :=
  match pc with
  | RRead => if s_forkq g =? eoq then Return g [] else Goto g (RNext (s_forkq g)) []
  | RNext ast =>
      match sa_next g ast with None => Crash | Some n => Goto g (RCas ast n) [] end
  | RCas ast n =>
      if s_forkq g =? ast then Goto (set_forkq g n) (RClear ast) [] else Goto g RRead []
  | RClear ast =>
      match sa_next g ast with
      | None => Crash
      | Some n => if n =? NULL then Crash else Goto (set_next g ast NULL) (RCall ast) [ERun ast]
      end
  | RCall _ => Goto g RRead []
  end.

Definition m0_sm_ast_cancel (g : m0_sm_group) (ast : Z) (pc : cancel_pc) : outcome cancel_pc :=
  match pc with
  | CTest =>
      match sa_next g ast with
      | None => Crash
      | Some n => if n =? NULL then Return g [] else Goto g CHead []
      end
  | CHead => Goto g (if ast =? s_forkq g then CNext else CScan) []
  | CNext => match sa_next g ast with None => Crash | Some n => Goto g (CCas n) [] end
  | CCas n =>
      if s_forkq g =? ast then Goto (set_forkq g n) CClear [ECancel ast] else Goto g CScan []
  | CScan => Goto g (CLoop (s_forkq g)) []
  | CLoop prev =>
      match sa_next g prev with
      | None => Crash
      | Some n => Goto g (if n =? ast then CUnlink prev else CLoop n) []
      end
  | CUnlink prev =>
      match sa_next g ast with
      | None => Crash
      | Some n => Goto (set_next g prev n) CClear [ECancel ast]
      end
  | CClear => Return (set_next g ast NULL) []
  end.

(** The recursive versions: the group afterwards, and whether the ASTs are run
    next. *)
Definition m0_sm_group_lock_rec (t : Z) (runast : bool) (g : m0_sm_group) : option (m0_sm_group * bool) :=
  if m0_mutex_is_locked t g then Some (set_owner g (s_owner g) (s_nesting g + 1), false)
  else
    g ← _sm_group_lock t g;
    if runast then _ ← M0_ASSERT (grp_is_locked t g); Some (g, true) else Some (g, false).

Definition m0_sm_group_unlock_rec (t : Z) (runast : bool) (g : m0_sm_group) : option (m0_sm_group * bool) :=
  _ ← M0_ASSERT (m0_mutex_is_locked t g);
  if 1 <? s_nesting g then Some (set_owner g (s_owner g) (s_nesting g - 1), false)
  else
    g ← _sm_group_unlock t g;
    if runast then _ ← M0_ASSERT (grp_is_locked t g); Some (g, true) else Some (g, false).

(** ** Definitions: threads *)

(** The functions a thread is in; [FUnlock] is what remains of
    m0_sm_group_unlock() after the ASTs were run. *)
Inductive frame :=
  | FPost (ast : Z) (pc : post_pc)
  | FRun (pc : run_pc)
  | FCancel (ast : Z) (pc : cancel_pc)
  | FUnlock.

Definition lift {P} (f : P -> frame) (r : outcome P) : outcome frame :=
  match r with Crash => Crash | Goto g pc ev => Goto g (f pc) ev | Return g ev => Return g ev end.

Definition frame_step (t : Z) (g : m0_sm_group) (f : frame) : outcome frame :=
  match f with
  | FPost a pc => lift (FPost a) (m0_sm_ast_post g a pc)
  | FRun pc => lift FRun (m0_sm_asts_run t g pc)
  | FCancel a pc => lift (FCancel a) (m0_sm_ast_cancel g a pc)
  | FUnlock => match _sm_group_unlock t g with None => Crash | Some g => Return g [] end
  end.

(** The system; [None] after a crash.  [sy_log] records what happened. *)
Record sys := {
  sy_group : m0_sm_group;
  sy_stacks : gmap Z (list frame);
  sy_log : list event
}.

Definition stack (s : sys) (t : Z) : list frame := default [] (sy_stacks s !! t).

Definition set_stack (s : sys) (t : Z) (g : m0_sm_group) (fs : list frame) (ev : list event) : sys :=
  {| sy_group := g; sy_stacks := <[t := fs]> (sy_stacks s); sy_log := sy_log s ++ ev |}.

#[export] Instance event_eq_dec : EqDecision event.
Proof. solve_decision. Defined.

(** How often an event happened. *)
Definition count (l : list event) (e : event) : nat := length (filter (fun x => x = e) l).

(** Every posting of the AST was followed by running or cancelling it. *)
Definition settled (s : sys) (a : Z) : Prop :=
  count (sy_log s) (EPost a) = (count (sy_log s) (ERun a) + count (sy_log s) (ECancel a))%nat.

Definition posting (s : sys) (a : Z) : Prop := exists t pc, FPost a pc ∈ stack s t.

Definition cancelling (s : sys) (a : Z) : Prop := exists t pc, FCancel a pc ∈ stack s t.

(** Code outside of sm runs: no function is in progress, or a call-back runs. *)
Definition client (fs : list frame) : bool :=
  match fs with [] | FRun (RCall _) :: _ => true | _ => false end.

Inductive step (s : sys) : option sys -> Prop :=
  | step_goto t f fs g f' ev :
      stack s t = f :: fs -> frame_step t (sy_group s) f = Goto g f' ev ->
      step s (Some (set_stack s t g (f' :: fs) ev))
  | step_return t f fs g ev :
      stack s t = f :: fs -> frame_step t (sy_group s) f = Return g ev ->
      step s (Some (set_stack s t g fs ev))
  | step_crash t f fs :
      stack s t = f :: fs -> frame_step t (sy_group s) f = Crash -> step s None
  | step_post t a :
      client (stack s t) = true -> is_ast a = true -> settled s a -> ~ posting s a -> ~ cancelling s a ->
      step s (if bool_decide (sa_next (sy_group s) a = Some NULL)
              then Some (set_stack s t (sy_group s) (FPost a PRead :: stack s t) []) else None)
  | step_cancel t a :
      client (stack s t) = true -> s_owner (sy_group s) = Some t -> is_ast a = true -> ~ posting s a ->
      step s (if grp_is_locked t (sy_group s)
              then Some (set_stack s t (sy_group s) (FCancel a CTest :: stack s t) []) else None)
  | step_run t :
      client (stack s t) = true -> s_owner (sy_group s) = Some t ->
      step s (if grp_is_locked t (sy_group s)
              then Some (set_stack s t (sy_group s) (FRun RRead :: stack s t) []) else None)
  | step_lock t :
      stack s t = [] -> s_owner (sy_group s) = None ->
      step s (match _sm_group_lock t (sy_group s) with
              | Some g => Some (set_stack s t g [FRun RRead] [])
              | None => None
              end)
  | step_unlock t :
      stack s t = [] -> s_owner (sy_group s) = Some t ->
      step s (if grp_is_locked t (sy_group s)
              then Some (set_stack s t (sy_group s) [FRun RRead; FUnlock] []) else None).

Definition init_sys : sys := {| sy_group := m0_sm_group_init; sy_stacks := ∅; sy_log := [] |}.

Inductive reachable : option sys -> Prop :=
  | reach_init : reachable (Some init_sys)
  | reach_step s s' : reachable (Some s) -> step s s' -> reachable s'.

(** ** The invariant *)

(** The ASTs on the queue, from the head. *)
Fixpoint queue (g : m0_sm_group) (x : Z) (q : list Z) : Prop :=
  match q with
  | [] => x = eoq
  | a :: q => x = a /\ is_ast a = true /\ exists n, sa_next g a = Some n /\ queue g n q
  end.

(** The AST the holder of the lock took off the queue and is about to run. *)
Definition popped (s : sys) : option Z :=
  t ← s_owner (sy_group s);
  match head (stack s t) with Some (FRun (RClear a)) => Some a | _ => None end.

Definition top_ok (s : sys) (q : list Z) (f : frame) : Prop :=
  let g := sy_group s in
  match f with
  | FPost a _ => is_ast a = true /\ a ∉ q /\ popped s <> Some a
  | FRun RRead | FRun (RCall _) | FUnlock => True
  | FRun (RNext a) => a ∈ q
  | FRun (RCas a n) => a ∈ q /\ sa_next g a = Some n
  | FRun (RClear a) => is_ast a = true /\ a ∉ q /\ sa_next g a <> Some NULL
  | FCancel a CTest => is_ast a = true
  | FCancel a CHead | FCancel a CNext => a ∈ q
  | FCancel a (CCas n) => a ∈ q /\ sa_next g a = Some n
  | FCancel a CScan => a ∈ q /\ s_forkq g <> a
  | FCancel a (CLoop p) => exists q1 q2, q = q1 ++ p :: q2 /\ a ∈ q2
  | FCancel a (CUnlink p) => exists q1 q2, q = q1 ++ p :: a :: q2
  | FCancel a CClear => is_ast a = true /\ a ∉ q
  end.

(** A function that waits for one it called. *)
Definition tail_frame (f : frame) : bool :=
  match f with FRun (RCall _) | FUnlock => true | _ => false end.

Definition is_post (f : frame) : bool := match f with FPost _ _ => true | _ => false end.

(** m0_sm_group_unlock() is not called by call-backs. *)
Fixpoint bottom (fs : list frame) : bool :=
  match fs with
  | [] => true
  | FUnlock :: fs => match fs with [] => true | _ => false end
  | _ :: fs => bottom fs
  end.

Record inv (s : sys) (q : list Z) : Prop := {
  inv_queue : queue (sy_group s) (s_forkq (sy_group s)) q;
  inv_nodup : NoDup q;
  inv_nest : s_nesting (sy_group s) = match s_owner (sy_group s) with Some _ => 1 | None => 0 end;
  inv_tail t f fs : stack s t = f :: fs -> Forall (fun f => tail_frame f = true) fs;
  inv_bottom t : bottom (stack s t) = true;
  inv_owner t f : f ∈ stack s t -> is_post f = false -> s_owner (sy_group s) = Some t;
  inv_top t f fs : stack s t = f :: fs -> top_ok s q f;
  inv_null a : is_ast a = true -> sa_next (sy_group s) a <> Some NULL ->
    a ∈ q \/ popped s = Some a \/
    exists t fs, (exists pc, stack s t = FPost a pc :: fs) \/ stack s t = FCancel a CClear :: fs;
  inv_post t1 t2 a pc1 pc2 fs1 fs2 :
    stack s t1 = FPost a pc1 :: fs1 -> stack s t2 = FPost a pc2 :: fs2 -> t1 = t2;
  inv_cancel t1 t2 a pc1 pc2 fs1 fs2 :
    stack s t1 = FPost a pc1 :: fs1 -> stack s t2 = FCancel a pc2 :: fs2 -> False;
  inv_count a : count (sy_log s) (EPost a) =
    (count (sy_log s) (ERun a) + count (sy_log s) (ECancel a) +
     (if bool_decide (a ∈ q) then 1 else 0) + (if bool_decide (popped s = Some a) then 1 else 0))%nat
}.

(** ** Lemmas: state *)

Lemma stack_set s t g fs ev t' :
  stack (set_stack s t g fs ev) t' = if decide (t' = t) then fs else stack s t'.
Proof.
  unfold stack, set_stack. cbn. destruct (decide (t' = t)) as [->|]; [by rewrite lookup_insert_eq|].
  by rewrite lookup_insert_ne.
Qed.

Lemma popped_set s t g fs ev :
  s_owner g = s_owner (sy_group s) ->
  popped (set_stack s t g fs ev) =
  if decide (s_owner g = Some t)
  then match head fs with Some (FRun (RClear a)) => Some a | _ => None end else popped s.
Proof.
  intros Ho. unfold popped. cbn [sy_group set_stack]. rewrite <- Ho. destruct (s_owner g) as [o|]; cbn.
  - rewrite stack_set. destruct (decide (o = t)) as [->|Hne]; [by rewrite decide_True|].
    rewrite decide_False by congruence. done.
  - by rewrite decide_False.
Qed.

Lemma sa_next_set g a v b :
  sa_next (set_next g a v) b = if decide (b = a /\ b <> NULL) then Some v else sa_next g b.
Proof.
  unfold sa_next, set_next. cbn. zcases; subst; [by rewrite decide_False by tauto|].
  destruct (decide (b = a)) as [->|]; [rewrite decide_True, lookup_insert_eq by done; done|].
  rewrite decide_False, lookup_insert_ne by tauto || done. done.
Qed.

Lemma sa_next_ast g a : is_ast a = true -> exists n, sa_next g a = Some n.
Proof. unfold is_ast, sa_next, NULL. intros. boolp. zcases; [lia|]. by eexists. Qed.

Lemma is_ast_ne a : is_ast a = true -> a <> NULL /\ a <> eoq.
Proof. unfold is_ast. intros. boolp. done. Qed.

Lemma queue_ast g x q a : queue g x q -> a ∈ q -> is_ast a = true.
Proof.
  revert x. induction q as [|b q IH]; intros x; [set_solver|].
  intros (_ & Hb & n & _ & Hq) [->|Ha]%elem_of_cons; eauto.
Qed.

(** Only the links of the queue matter. *)
Lemma queue_ext g g' x q :
  (forall a, a ∈ q -> sa_next g' a = sa_next g a) -> queue g x q -> queue g' x q.
Proof.
  revert x. induction q as [|b q IH]; intros x Hext; [done|].
  intros (-> & Hb & n & Hn & Hq). split; [done|]. split; [done|]. exists n.
  rewrite Hext by set_solver. split; [done|]. apply IH; [|done]. intros. apply Hext. set_solver.
Qed.

Lemma queue_split g x q1 a q2 :
  queue g x (q1 ++ a :: q2) -> exists n, sa_next g a = Some n /\ queue g n q2.
Proof.
  revert x. induction q1 as [|b q1 IH]; intros x.
  - intros (_ & _ & n & Hn & Hq). by exists n.
  - intros (_ & _ & n & _ & Hq). by eapply IH.
Qed.

Lemma queue_next_ne g x q a : queue g x q -> a ∈ q -> sa_next g a <> Some NULL.
Proof.
  intros Hq (q1 & q2 & ->)%list_elem_of_split. apply queue_split in Hq as (n & -> & Hq).
  destruct q2 as [|b q2]; cbn in Hq; [by subst|]. destruct Hq as (-> & Hb & _).
  apply is_ast_ne in Hb as [? _]. congruence.
Qed.

(** Taking an AST out of the middle of the queue. *)
Lemma queue_unlink g x q1 p a q2 n :
  NoDup (q1 ++ p :: a :: q2) -> queue g x (q1 ++ p :: a :: q2) -> sa_next g a = Some n ->
  queue (set_next g p n) x (q1 ++ p :: q2).
Proof.
  intros Hnd Hq Hn. revert x Hq. induction q1 as [|b q1 IH]; intros x; cbn.
  - intros (-> & Hp & n' & Hn' & (-> & Ha & n'' & Hn'' & Hq)). split; [done|]. split; [done|].
    exists n. rewrite sa_next_set, decide_True by (split; [done|by apply is_ast_ne]). split; [done|].
    rewrite Hn'' in Hn. injection Hn as ->. eapply queue_ext; [|exact Hq]. intros c Hc.
    rewrite sa_next_set, decide_False; [done|]. intros [-> _]. cbn in Hnd. rewrite !NoDup_cons in Hnd.
    set_solver.
  - intros (-> & Hb & n' & Hn' & Hq). cbn in Hnd. apply NoDup_cons in Hnd as [Hb' Hnd].
    split; [done|]. split; [done|]. exists n'. rewrite sa_next_set, decide_False; [|set_solver].
    split; [done|]. by apply IH.
Qed.

Lemma count_app l1 l2 e : count (l1 ++ l2) e = (count l1 e + count l2 e)%nat.
Proof. unfold count. by rewrite filter_app, length_app. Qed.

Lemma count_one e e' : count [e] e' = if bool_decide (e = e') then 1%nat else 0%nat.
Proof. unfold count. cbn. destruct (decide (e = e'));
  [by rewrite bool_decide_true|by rewrite bool_decide_false]. Qed.

Lemma post_in_top s q t a pc : inv s q -> FPost a pc ∈ stack s t -> exists fs, stack s t = FPost a pc :: fs.
Proof.
  intros Hinv Hin. destruct (stack s t) as [|f fs] eqn:E; [set_solver|].
  apply (inv_tail _ _ Hinv) in E. apply elem_of_cons in Hin as [<-|Hin]; [by eexists|].
  rewrite Forall_forall in E. by apply E in Hin.
Qed.

Lemma cancel_in_top s q t a pc : inv s q -> FCancel a pc ∈ stack s t -> exists fs,
  stack s t = FCancel a pc :: fs.
Proof.
  intros Hinv Hin. destruct (stack s t) as [|f fs] eqn:E; [set_solver|].
  apply (inv_tail _ _ Hinv) in E. apply elem_of_cons in Hin as [<-|Hin]; [by eexists|].
  rewrite Forall_forall in E. by apply E in Hin.
Qed.

(** The threads that do not hold the lock only post. *)
Lemma other_posts s q t t' f fs :
  inv s q -> s_owner (sy_group s) = Some t -> t' <> t -> stack s t' = f :: fs -> exists a pc, f = FPost a pc.
Proof.
  intros Hinv Ho Hne E. destruct f as [a pc| | |]; [by exists a, pc|..]; exfalso;
    assert (s_owner (sy_group s) = Some t') as H by (eapply (inv_owner _ _ Hinv); [rewrite E; left|done]);
    congruence.
Qed.

Lemma bottom_tail f fs : bottom (f :: fs) = true -> bottom fs = true.
Proof. by destruct f, fs. Qed.

Lemma inv_bottom_tail s q t f fs : inv s q -> stack s t = f :: fs -> bottom fs = true.
Proof. intros Hinv E. apply (bottom_tail f). rewrite <- E. apply Hinv. Qed.

(** ** Preservation *)

(** A thread goes from one stack to another while the lock changes no hands. *)
Lemma inv_change s q t g' fs' ev q' :
  inv s q ->
  s_owner g' = s_owner (sy_group s) -> s_nesting g' = s_nesting (sy_group s) ->
  queue g' (s_forkq g') q' -> NoDup q' ->
  (forall f r, fs' = f :: r -> Forall (fun f => tail_frame f = true) r) -> bottom fs' = true ->
  (forall f, f ∈ fs' -> is_post f = false -> s_owner g' = Some t) ->
  (forall f r, fs' = f :: r -> top_ok (set_stack s t g' fs' ev) q' f) ->
  (forall t' f r, t' <> t -> stack s t' = f :: r -> top_ok s q f -> top_ok (set_stack s t g' fs' ev) q' f) ->
  (forall a, is_ast a = true -> sa_next g' a <> Some NULL ->
     a ∈ q' \/ popped (set_stack s t g' fs' ev) = Some a \/
     (exists r, (exists pc, fs' = FPost a pc :: r) \/ fs' = FCancel a CClear :: r) \/
     exists t' r, t' <> t /\ ((exists pc, stack s t' = FPost a pc :: r) \/ stack s t' = FCancel a CClear ::
       r)) ->
  (forall a pc r, fs' = FPost a pc :: r ->
     (exists pc0 r0, stack s t = FPost a pc0 :: r0) \/ ~ posting s a /\ ~ cancelling s a) ->
  (forall a pc r, fs' = FCancel a pc :: r ->
     (exists pc0 r0, stack s t = FCancel a pc0 :: r0) \/ ~ posting s a) ->
  (forall a, count (sy_log s ++ ev) (EPost a) =
    (count (sy_log s ++ ev) (ERun a) + count (sy_log s ++ ev) (ECancel a) +
     (if bool_decide (a ∈ q') then 1 else 0) +
     (if bool_decide (popped (set_stack s t g' fs' ev) = Some a) then 1 else 0))%nat) ->
  inv (set_stack s t g' fs' ev) q'.
Proof.
  intros Hinv Ho Hn Hq Hnd Htail Hbot Howner Htop Hother Hnull Hpost Hcancel Hcount.
  assert (forall t' a pc r, stack s t' = FPost a pc :: r -> posting s a) as Hp.
  { intros t' a pc r E. exists t', pc. rewrite E. left. }
  assert (forall t' a pc r, stack s t' = FCancel a pc :: r -> cancelling s a) as Hcc.
  { intros t' a pc r E. exists t', pc. rewrite E. left. }
  split; cbn [sy_group set_stack sy_log]; try done.
  - rewrite Hn, Ho. apply Hinv.
  - intros t' f r. rewrite stack_set. destruct (decide (t' = t)); [apply Htail|apply (inv_tail _ _ Hinv)].
  - intros t'. rewrite stack_set. destruct (decide (t' = t)); [done|apply Hinv].
  - intros t' f. rewrite stack_set. destruct (decide (t' = t)) as [->|]; [apply Howner|].
    rewrite Ho. apply (inv_owner _ _ Hinv).
  - intros t' f r. rewrite stack_set. destruct (decide (t' = t)); [apply Htop|].
    intros E. eapply Hother; [done|done|]. by eapply (inv_top _ _ Hinv).
  - intros a Ha Hne. destruct (Hnull a Ha Hne) as [|[|[(r & H)|(t' & r & Hne' & H)]]];
      [by left|by right; left|..].
    + right. right. exists t, r. by rewrite stack_set, decide_True.
    + right. right. exists t', r. by rewrite stack_set, decide_False.
  - intros t1 t2 a pc1 pc2 r1 r2. rewrite !stack_set.
    destruct (decide (t1 = t)) as [->|], (decide (t2 = t)) as [->|].
    + done.
    + intros E1 E2. apply Hpost in E1 as [(pc0 & r0 & E1)|[Hnp _]]; [by eapply (inv_post _ _ Hinv)|].
      exfalso. eapply Hnp, Hp, E2.
    + intros E1 E2. apply Hpost in E2 as [(pc0 & r0 & E2)|[Hnp _]]; [by eapply (inv_post _ _ Hinv)|].
      exfalso. eapply Hnp, Hp, E1.
    + apply (inv_post _ _ Hinv).
  - intros t1 t2 a pc1 pc2 r1 r2. rewrite !stack_set.
    destruct (decide (t1 = t)) as [->|], (decide (t2 = t)) as [->|].
    + congruence.
    + intros E1 E2. apply Hpost in E1 as [(pc0 & r0 & E1)|[_ Hnc]]; [by eapply (inv_cancel _ _ Hinv)|].
      eapply Hnc, Hcc, E2.
    + intros E1 E2. apply Hcancel in E2 as [(pc0 & r0 & E2)|Hnp]; [by eapply (inv_cancel _ _ Hinv)|].
      eapply Hnp, Hp, E1.
    + apply (inv_cancel _ _ Hinv).
Qed.

Definition calm (fs : list frame) : bool :=
  match fs with FRun (RClear _) :: _ => false | _ => true end.

Lemma popped_calm s t g fs ev :
  s_owner g = s_owner (sy_group s) -> calm (stack s t) = true -> calm fs = true ->
  popped (set_stack s t g fs ev) = popped s.
Proof.
  intros Ho Hold Hnew. rewrite popped_set by done. case_decide as Hd; [|done].
  unfold popped. rewrite <- Ho, Hd. cbn.
  destruct fs as [|[| []| |] fs]; try done; by destruct (stack s t) as [|[| []| |] ?].
Qed.

Lemma popped_clear s q t a fs : inv s q -> stack s t = FRun (RClear a) :: fs -> popped s = Some a.
Proof.
  intros Hinv E. unfold popped. rewrite (inv_owner _ _ Hinv t (FRun (RClear a))); [|rewrite E; left|done].
  cbn. by rewrite E.
Qed.

Lemma tail_calm fs : Forall (fun f => tail_frame f = true) fs -> calm fs = true.
Proof. destruct fs as [|f fs]; [done|]. intros [H _]%Forall_cons. by destruct f as [|[]| |]. Qed.

Lemma tail_rest f fs : Forall (fun f => tail_frame f = true) (f :: fs) ->
  Forall (fun f => tail_frame f = true) fs.
Proof. by intros [_ H]%Forall_cons. Qed.

Lemma tail_top_ok s q f : tail_frame f = true -> top_ok s q f.
Proof. by destruct f as [|[]| |]. Qed.

Lemma count_nil l : count (l ++ []) = count l.
Proof. by rewrite app_nil_r. Qed.

(** A step of m0_sm_ast_post() leaves the frames of the other threads intact. *)
Lemma other_ok_post_read s q t a pc fs t' f r g' fs' ev :
  inv s q -> stack s t = FPost a pc :: fs -> g' = set_next (sy_group s) a (s_forkq (sy_group s)) ->
  popped (set_stack s t g' fs' ev) = popped s ->
  t' <> t -> stack s t' = f :: r -> top_ok s q f -> top_ok (set_stack s t g' fs' ev) q f.
Proof.
  intros Hinv E -> Hpop Hne E' Hok. destruct (inv_top _ _ Hinv _ _ _ E) as (Ha & Haq & Hap).
  assert (forall b, b <> a -> sa_next (set_next (sy_group s) a (s_forkq (sy_group s))) b = sa_next
    (sy_group s) b)
    as Hnext by (intros b Hb; by rewrite sa_next_set, decide_False by tauto).
  assert (forall b, b ∈ q -> sa_next (set_next (sy_group s) a (s_forkq (sy_group s))) b = sa_next
    (sy_group s) b)
    as Hnextq by (intros b Hb; apply Hnext; intros ->; contradiction).
  unfold top_ok in *. cbn [sy_group set_stack s_forkq set_next] in *. rewrite Hpop.
  destruct f as [b pc'|[|b|b n|b|b]|b [| | |n| |p|p|]|]; try done.
  - rewrite Hnextq by tauto. done.
  - rewrite Hnext; [done|]. intros ->. apply Hap. by eapply popped_clear.
  - rewrite Hnextq by tauto. done.
Qed.

Lemma post_read_ok s q t a fs :
  inv s q -> stack s t = FPost a PRead :: fs ->
  inv (set_stack s t (set_next (sy_group s) a (s_forkq (sy_group s))) (FPost a PCas :: fs) []) q.
Proof.
  intros Hinv E. destruct (inv_top _ _ Hinv _ _ _ E) as (Ha & Haq & Hap).
  set (g' := set_next _ _ _).
  assert (popped (set_stack s t g' (FPost a PCas :: fs) []) = popped s) as Hpop
    by (apply popped_calm; [done|by rewrite E|done]).
  apply (inv_change s q); try done.
  - eapply queue_ext; [|apply Hinv]. intros b Hb. unfold g'. rewrite sa_next_set, decide_False; [done|].
    intros [-> _]. contradiction.
  - apply Hinv.
  - intros f r [= <- <-]. by eapply (inv_tail _ _ Hinv).
  - exact (inv_bottom_tail _ _ _ _ _ Hinv E).
  - intros f [->|Hin]%elem_of_cons Hf; [done|]. eapply (inv_owner _ _ Hinv); [rewrite E; by right|done].
  - intros f r [= <- <-]. unfold top_ok. by rewrite Hpop.
  - intros t' f r Hne E'. by eapply other_ok_post_read.
  - intros b Hb Hn. rewrite Hpop. unfold g' in Hn. rewrite sa_next_set in Hn. case_decide as Hd.
    { destruct Hd as [-> _]. right. right. left. exists fs. left. by eexists. }
    destruct (inv_null _ _ Hinv b Hb Hn) as [|[|(t' & r & H)]]; [by left|by right; left|].
    destruct (decide (t' = t)) as [->|]; [|by right; right; right; exists t', r].
    rewrite E in H. destruct H as [[pc [= <-]]|?]; [|done]. right. right. left. exists fs. left. by eexists.
  - intros b pc r [= <- <- <-]. left. by eexists _, _.
  - intros b. rewrite count_nil, Hpop. apply Hinv.
Qed.

Lemma other_ok_post_cas s q t a pc fs t' f r fs' ev :
  inv s q -> stack s t = FPost a pc :: fs ->
  popped (set_stack s t (set_forkq (sy_group s) a) fs' ev) = popped s ->
  t' <> t -> stack s t' = f :: r -> top_ok s q f ->
  top_ok (set_stack s t (set_forkq (sy_group s) a) fs' ev) (a :: q) f.
Proof.
  intros Hinv E Hpop Hne E' Hok. destruct (inv_top _ _ Hinv _ _ _ E) as (Ha & Haq & Hap).
  unfold top_ok in *. cbn [sy_group set_stack s_forkq set_forkq] in *. rewrite Hpop.
  destruct f as [b pc'|[|b|b n|b|b]|b [| | |n| |p|p|]|]; try done.
  - destruct Hok as (? & ? & ?). split; [done|]. split; [|done].
    apply not_elem_of_cons. split; [|done]. intros ->. apply Hne. by eapply (inv_post _ _ Hinv).
  - by right.
  - destruct Hok as [? ?]. split; [by right|done].
  - destruct Hok as (? & ? & ?). split; [done|]. split; [|done]. apply not_elem_of_cons. split; [|done].
    intros ->. apply Hap. by eapply popped_clear.
  - by right.
  - by right.
  - destruct Hok as [? ?]. split; [by right|done].
  - destruct Hok as [? ?]. split; [by right|]. intros ->. contradiction.
  - destruct Hok as (q1 & q2 & -> & ?). by exists (a :: q1), q2.
  - destruct Hok as (q1 & q2 & ->). by exists (a :: q1), q2.
  - destruct Hok as [? ?]. split; [done|]. apply not_elem_of_cons. split; [|done].
    intros ->. by eapply (inv_cancel _ _ Hinv).
Qed.

Lemma post_cas_ok s q t a fs :
  inv s q -> stack s t = FPost a PCas :: fs -> sa_next (sy_group s) a = Some (s_forkq (sy_group s)) ->
  inv (set_stack s t (set_forkq (sy_group s) a) fs [EPost a]) (a :: q).
Proof.
  intros Hinv E Hn. destruct (inv_top _ _ Hinv _ _ _ E) as (Ha & Haq & Hap).
  pose proof (inv_tail _ _ Hinv _ _ _ E) as Htail.
  assert (popped (set_stack s t (set_forkq (sy_group s) a) fs [EPost a]) = popped s) as Hpop
    by (apply popped_calm; [done|by rewrite E|by apply tail_calm]).
  apply (inv_change s q); try done.
  - cbn. split; [done|]. split; [done|]. exists (s_forkq (sy_group s)). split; [done|].
    eapply queue_ext; [|apply Hinv]. done.
  - apply NoDup_cons. split; [done|apply Hinv].
  - intros f r ->. by eapply tail_rest.
  - exact (inv_bottom_tail _ _ _ _ _ Hinv E).
  - intros f Hin Hf. eapply (inv_owner _ _ Hinv); [rewrite E; by right|done].
  - intros f r ->. apply tail_top_ok. by apply Forall_cons in Htail as [? _].
  - intros t' f r Hne E'. by eapply other_ok_post_cas.
  - intros b Hb Hbn. rewrite Hpop. destruct (decide (b = a)) as [->|Hne]; [left; by left|].
    destruct (inv_null _ _ Hinv b Hb Hbn) as [|[|(t' & r & H)]]; [left; by right|by right; left|].
    destruct (decide (t' = t)) as [->|]; [|by right; right; right; exists t', r].
    rewrite E in H. destruct H as [[pc [= ? ?]]|?]; [congruence|done].
  - intros b pc r ->. apply Forall_cons in Htail as [? _]. done.
  - intros b pc r ->. apply Forall_cons in Htail as [? _]. done.
  - intros b. rewrite !count_app, !count_one, Hpop, (inv_count _ _ Hinv b).
    rewrite (bool_decide_false (EPost a = ERun b)), (bool_decide_false (EPost a = ECancel b)) by done.
    destruct (decide (b = a)) as [->|Hne].
    + rewrite (bool_decide_true (EPost a = EPost a)), (bool_decide_false (a ∈ q)),
        (bool_decide_true (a ∈ a :: q)),
        (bool_decide_false (popped s = Some a)) by (done || set_solver). lia.
    + rewrite (bool_decide_false (EPost a = EPost b)) by congruence.
      rewrite (bool_decide_ext (b ∈ a :: q) (b ∈ q)) by set_solver. lia.
Qed.

(** A step of the holder of the lock: the queue only shrinks, and what was taken
    off it is not posted by others. *)
Lemma owner_change s q t f fs g' fs' ev q' :
  inv s q -> stack s t = f :: fs -> is_post f = false ->
  s_owner g' = s_owner (sy_group s) -> s_nesting g' = s_nesting (sy_group s) ->
  queue g' (s_forkq g') q' -> NoDup q' ->
  (forall f r, fs' = f :: r -> Forall (fun f => tail_frame f = true) r) -> bottom fs' = true ->
  (forall f r, fs' = f :: r -> is_post f = false /\ top_ok (set_stack s t g' fs' ev) q' f) ->
  (forall b, b ∈ q' -> b ∈ q) ->
  (forall b, popped (set_stack s t g' fs' ev) = Some b -> b ∈ q \/ popped s = Some b) ->
  (forall a, is_ast a = true -> sa_next g' a <> Some NULL ->
     sa_next (sy_group s) a <> Some NULL /\
     (a ∈ q \/ popped s = Some a \/ (exists r, f :: fs = FCancel a CClear :: r) ->
      a ∈ q' \/ popped (set_stack s t g' fs' ev) = Some a \/ exists r, fs' = FCancel a CClear :: r)) ->
  (forall a pc r, fs' = FCancel a pc :: r -> exists pc0, f = FCancel a pc0) ->
  (forall a, count (sy_log s ++ ev) (EPost a) =
    (count (sy_log s ++ ev) (ERun a) + count (sy_log s ++ ev) (ECancel a) +
     (if bool_decide (a ∈ q') then 1 else 0) +
     (if bool_decide (popped (set_stack s t g' fs' ev) = Some a) then 1 else 0))%nat) ->
  inv (set_stack s t g' fs' ev) q'.
Proof.
  intros Hinv E Hf Ho Hn Hq Hnd Htail Hbot Htop Hsub Hpop Hnull Hcancel Hcount.
  assert (s_owner (sy_group s) = Some t) as Hown by (eapply (inv_owner _ _ Hinv); [rewrite E; left|done]).
  apply (inv_change s q); try done.
  - intros. by rewrite Ho.
  - intros f0 r E0. by apply (Htop f0 r).
  - intros t' f0 r Hne E' Hok. edestruct (other_posts s q t t' f0 r) as (b & pc & ->); try done.
    destruct Hok as (Hb & Hbq & Hbp). split; [done|]. split; [auto|]. intros [|]%Hpop; contradiction.
  - intros a Ha Hne. destruct (Hnull a Ha Hne) as [Hold Hnew].
    destruct (inv_null _ _ Hinv a Ha Hold) as [Hin|[Hp|(t' & r & H)]].
    + destruct Hnew as [|[|[r Hr]]]; [by left|by left|by right; left|]. right. right. left. exists r.
      by right.
    + destruct Hnew as [|[|[r Hr]]]; [by right; left|by left|by right; left|]. right. right. left. exists r.
      by right.
    + destruct (decide (t' = t)) as [->|]; [|by right; right; right; exists t', r].
      rewrite E in H. destruct H as [[pc [= -> ?]]|H]; [done|].
      destruct Hnew as [|[|[r' Hr]]]; [right; right; by exists r|by left|by right; left|].
      right. right. left. exists r'. by right.
  - intros a pc r ->. edestruct (Htop _ _ eq_refl). done.
  - intros a pc r ->. destruct (Hcancel _ _ _ eq_refl) as [pc0 ->]. left. by exists pc0, fs.
Qed.

(** A step that changes nothing shared. *)
Lemma silent_ok s q t f fs fs' :
  inv s q -> stack s t = f :: fs -> is_post f = false -> calm (f :: fs) = true -> calm fs' = true ->
  (forall f r, fs' = f :: r -> Forall (fun f => tail_frame f = true) r) -> bottom fs' = true ->
  (forall f r, fs' = f :: r -> is_post f = false /\ top_ok s q f) ->
  (forall a pc r, fs' = FCancel a pc :: r -> exists pc0, f = FCancel a pc0) ->
  (forall a, f <> FCancel a CClear) ->
  inv (set_stack s t (sy_group s) fs' []) q.
Proof.
  intros Hinv E Hf Hc1 Hc2 Htail Hbot Htop Hcancel Hclear.
  assert (popped (set_stack s t (sy_group s) fs' []) = popped s) as Hpop
    by (apply popped_calm; [done|by rewrite E|done]).
  eapply owner_change; try done; try apply Hinv.
  - intros f0 r Ef. destruct (Htop _ _ Ef) as [? Hok]. split; [done|]. unfold top_ok in *.
    by rewrite Hpop.
  - intros b. rewrite Hpop. by right.
  - intros a Ha Hne. rewrite Hpop. split; [done|]. intros [|[|[r [= H _]]]]; [by left|by right; left|].
    by apply Hclear in H.
  - intros a. rewrite count_nil, Hpop. apply Hinv.
Qed.

(** Popping the head of the queue. *)
Lemma run_pop_ok s q t a n fs :
  inv s q -> stack s t = FRun (RCas a n) :: fs -> s_forkq (sy_group s) = a ->
  inv (set_stack s t (set_forkq (sy_group s) n) (FRun (RClear a) :: fs) []) (tail q).
Proof.
  intros Hinv E Hfork. destruct (inv_top _ _ Hinv _ _ _ E) as [Hin Hn]. pose proof (inv_queue _ _ Hinv) as Hq.
  pose proof (inv_nodup _ _ Hinv) as Hnd.
  assert (s_owner (sy_group s) = Some t) as Hown by (eapply (inv_owner _ _ Hinv); [rewrite E; left|done]).
  destruct q as [|b q]; [set_solver|]. cbn [tail]. cbn in Hq. destruct Hq as (Hb & Ha & n' & Hn' & Hq).
  rewrite Hfork in Hb. subst b. rewrite Hn in Hn'. injection Hn' as <-. apply NoDup_cons in Hnd as [Hna Hnd].
  assert (popped s = None) as Hpop0 by (unfold popped; rewrite Hown; cbn; by rewrite E).
  assert (popped (set_stack s t (set_forkq (sy_group s) n) (FRun (RClear a) :: fs) []) = Some a) as Hpop
    by (rewrite popped_set by done; by rewrite decide_True).
  eapply owner_change; try done.
  - cbn. eapply queue_ext; [|exact Hq]. done.
  - intros f r [= <- <-]. by eapply (inv_tail _ _ Hinv).
  - exact (inv_bottom_tail _ _ _ _ _ Hinv E).
  - intros f r [= <- <-]. split; [done|]. split; [done|]. split; [done|].
    change (sa_next (sy_group s) a <> Some NULL). eapply queue_next_ne; [apply Hinv|done].
  - set_solver.
  - intros b. rewrite Hpop. intros [= <-]. by left.
  - intros b Hb Hne. split; [done|]. rewrite Hpop, Hpop0.
    intros [[->|]%elem_of_cons|[|[r ?]]]; try done; [by right; left|by left].
  - intros b. rewrite count_nil, Hpop, (inv_count _ _ Hinv b), Hpop0.
    rewrite (bool_decide_false (None = Some b)) by done. destruct (decide (b = a)) as [->|].
    + rewrite (bool_decide_true (a ∈ a :: q)), (bool_decide_false (a ∈ q)),
        (bool_decide_true (Some a = Some a))
        by (done || set_solver). lia.
    + rewrite (bool_decide_false (Some a = Some b)), (bool_decide_ext (b ∈ a :: q) (b ∈ q))
        by (congruence || set_solver). lia.
Qed.

(** Running the call-back. *)
Lemma run_clear_ok s q t a fs :
  inv s q -> stack s t = FRun (RClear a) :: fs ->
  inv (set_stack s t (set_next (sy_group s) a NULL) (FRun (RCall a) :: fs) [ERun a]) q.
Proof.
  intros Hinv E. destruct (inv_top _ _ Hinv _ _ _ E) as (Ha & Haq & Hne).
  assert (s_owner (sy_group s) = Some t) as Hown by (eapply (inv_owner _ _ Hinv); [rewrite E; left|done]).
  pose proof (popped_clear _ _ _ _ _ Hinv E) as Hpop0.
  assert (popped (set_stack s t (set_next (sy_group s) a NULL) (FRun (RCall a) :: fs) [ERun a]) = None)
    as Hpop
    by (rewrite popped_set by done; by rewrite decide_True).
  eapply owner_change; try done; try apply Hinv.
  - eapply queue_ext; [|apply Hinv]. intros b Hb. rewrite sa_next_set, decide_False; [done|].
    intros [-> _]. contradiction.
  - intros f r [= <- <-]. by eapply (inv_tail _ _ Hinv).
  - exact (inv_bottom_tail _ _ _ _ _ Hinv E).
  - intros f r [= <- <-]. done.
  - intros b. by rewrite Hpop.
  - intros b Hb. rewrite sa_next_set, Hpop, Hpop0. case_decide as Hd; [done|]. intros Hb'. split; [done|].
    intros [|[[= <-]|[r ?]]]; [by left| |done]. exfalso. apply Hd. split; [done|by apply is_ast_ne].
  - intros b. rewrite !count_app, !count_one, Hpop, (inv_count _ _ Hinv b), Hpop0.
    rewrite (bool_decide_false (ERun a = EPost b)), (bool_decide_false (ERun a = ECancel b)),
      (bool_decide_false (None = Some b)) by done.
    destruct (decide (b = a)) as [->|].
    + rewrite (bool_decide_true (Some a = Some a)), (bool_decide_true (ERun a = ERun a)) by done. lia.
    + rewrite (bool_decide_false (Some a = Some b)), (bool_decide_false (ERun a = ERun b)) by congruence. lia.
Qed.

(** Cancelling takes the AST off the queue, wherever it is. *)
Lemma cancel_remove_ok s q1 a q2 t pc fs g' :
  inv s (q1 ++ a :: q2) -> stack s t = FCancel a pc :: fs ->
  s_owner g' = s_owner (sy_group s) -> s_nesting g' = s_nesting (sy_group s) ->
  queue g' (s_forkq g') (q1 ++ q2) ->
  (forall b, is_ast b = true -> sa_next g' b <> Some NULL -> sa_next (sy_group s) b <> Some NULL) ->
  inv (set_stack s t g' (FCancel a CClear :: fs) [ECancel a]) (q1 ++ q2).
Proof.
  intros Hinv E Ho Hn Hq Hnext. pose proof (inv_nodup _ _ Hinv) as Hnd.
  rewrite <- Permutation_middle in Hnd. apply NoDup_cons in Hnd as [Hna Hnd].
  assert (popped (set_stack s t g' (FCancel a CClear :: fs) [ECancel a]) = popped s) as Hpop
    by (apply popped_calm; [done|by rewrite E|done]).
  assert (s_owner (sy_group s) = Some t) as Hown by (eapply (inv_owner _ _ Hinv); [rewrite E; left|done]).
  assert (popped s = None) as Hpop0 by (unfold popped; rewrite Hown; cbn; by rewrite E).
  eapply owner_change; try done.
  - intros f r [= <- <-]. by eapply (inv_tail _ _ Hinv).
  - exact (inv_bottom_tail _ _ _ _ _ Hinv E).
  - intros f r [= <- <-]. split; [done|]. split; [|done]. eapply queue_ast; [apply Hinv|set_solver].
  - set_solver.
  - intros b. rewrite Hpop. by right.
  - intros b Hb Hne. split; [auto|]. rewrite Hpop, Hpop0.
    intros [Hin|[|[r [= -> _]]]]; [|done|right; right; by eexists].
    destruct (decide (b = a)) as [->|]; [right; right; by eexists|left; set_solver].
  - intros b pc' r [= <- _ _]. by eexists.
  - intros b. rewrite !count_app, !count_one, Hpop, (inv_count _ _ Hinv b), Hpop0.
    rewrite (bool_decide_false (ECancel a = EPost b)), (bool_decide_false (ECancel a = ERun b)),
      (bool_decide_false (None = Some b)) by done.
    destruct (decide (b = a)) as [->|].
    + rewrite (bool_decide_true (ECancel a = ECancel a)), (bool_decide_true (a ∈ q1 ++ a :: q2)),
        (bool_decide_false (a ∈ q1 ++ q2)) by (done || set_solver). lia.
    + rewrite (bool_decide_false (ECancel a = ECancel b)) by congruence.
      rewrite (bool_decide_ext (b ∈ q1 ++ a :: q2) (b ∈ q1 ++ q2)) by set_solver. lia.
Qed.

Lemma cancel_clear_ok s q t a fs :
  inv s q -> stack s t = FCancel a CClear :: fs ->
  inv (set_stack s t (set_next (sy_group s) a NULL) fs []) q.
Proof.
  intros Hinv E. destruct (inv_top _ _ Hinv _ _ _ E) as (Ha & Haq).
  pose proof (inv_tail _ _ Hinv _ _ _ E) as Htail.
  assert (popped (set_stack s t (set_next (sy_group s) a NULL) fs []) = popped s) as Hpop
    by (apply popped_calm; [done|by rewrite E|by apply tail_calm]).
  assert (s_owner (sy_group s) = Some t) as Hown by (eapply (inv_owner _ _ Hinv); [rewrite E; left|done]).
  eapply owner_change; try done; try apply Hinv.
  - eapply queue_ext; [|apply Hinv]. intros b Hb. rewrite sa_next_set, decide_False; [done|].
    intros [-> _]. contradiction.
  - intros f r ->. by eapply tail_rest.
  - exact (inv_bottom_tail _ _ _ _ _ Hinv E).
  - intros f r ->. apply Forall_cons in Htail as [Hf _]. split; [by destruct f|by apply tail_top_ok].
  - intros b. rewrite Hpop. by right.
  - intros b Hb. rewrite sa_next_set, Hpop. case_decide as Hd; [done|]. intros Hb'. split; [done|].
    intros [|[|[r [= <- _]]]]; [by left|by right; left|]. exfalso. apply Hd. split; [done|by apply is_ast_ne].
  - intros b pc r ->. by apply Forall_cons in Htail as [? _].
  - intros b. rewrite count_nil, Hpop. apply Hinv.
Qed.

(** Code outside of sm calls a function. *)
Lemma push_ok s q t f :
  inv s q -> client (stack s t) = true -> f <> FUnlock -> calm (f :: stack s t) = true ->
  (is_post f = false -> s_owner (sy_group s) = Some t) -> top_ok s q f ->
  (forall a pc, f = FPost a pc -> ~ posting s a /\ ~ cancelling s a) ->
  (forall a pc, f = FCancel a pc -> ~ posting s a) ->
  inv (set_stack s t (sy_group s) (f :: stack s t) []) q.
Proof.
  intros Hinv Hcl Hne Hcalm Hown Hok Hp Hc.
  assert (calm (stack s t) = true) as Hcalm' by (destruct (stack s t) as [|[|[]| |] ?]; done).
  assert (popped (set_stack s t (sy_group s) (f :: stack s t) []) = popped s) as Hpop
    by (by apply popped_calm).
  assert (forall f0, top_ok s q f0 -> top_ok (set_stack s t (sy_group s) (f :: stack s t) []) q f0) as Htop
    by (intros f0; unfold top_ok; by rewrite Hpop).
  apply (inv_change s q); try done; try apply Hinv.
  - intros f0 r [= <- <-]. destruct (stack s t) as [|f1 r] eqn:E; [done|].
    apply Forall_cons. split; [by destruct f1 as [|[]| |]|by eapply (inv_tail _ _ Hinv)].
  - rewrite <- (inv_bottom _ _ Hinv t). by destruct f.
  - intros f0 [->|Hin]%elem_of_cons Hf0; [auto|by eapply (inv_owner _ _ Hinv)].
  - intros f0 r [= <- <-]. auto.
  - intros t' f0 r _ _. apply Htop.
  - intros a Ha Hnx. rewrite Hpop. destruct (inv_null _ _ Hinv a Ha Hnx) as [|[|(t' & r & H)]];
      [by left|by right; left|]. right. right. right. exists t', r. split; [|done]. intros ->.
    destruct H as [[pc H]|H]; by rewrite H in Hcl.
  - intros a pc r [= -> ->]. right. by eapply Hp.
  - intros a pc r [= -> ->]. right. by eapply Hc.
  - intros a. rewrite count_nil, Hpop. apply Hinv.
Qed.

(** The lock is taken or released while nobody is inside of the run loop. *)
Lemma handover_ok s q t o fs' :
  inv s q -> (forall t' f, t' <> t -> f ∈ stack s t' -> is_post f = true) -> popped s = None ->
  stack s t = [] \/ stack s t = [FUnlock] ->
  o = None /\ fs' = [] \/ o = Some t /\ fs' = [FRun RRead] ->
  inv (set_stack s t (set_owner (sy_group s) o (match o with Some _ => 1 | None => 0 end)) fs' []) q.
Proof.
  intros Hinv Hpost Hp0 Hold Hnew. set (s' := set_stack _ _ _ _ _).
  assert (forall t', stack s' t' = if decide (t' = t) then fs' else stack s t') as Hst
    by (intros; apply stack_set).
  assert (popped s' = None) as Hp1.
  { unfold popped, s'. cbn. destruct Hnew as [[-> _]|[-> ->]]; [done|]. cbn. by rewrite stack_set,
      decide_True. }
  assert (forall f r, fs' = f :: r -> f = FRun RRead /\ r = []) as Hfs
    by (intros f r ->; destruct Hnew as [[_ ?]|[_ [= -> ->]]]; done).
  split.
  - eapply queue_ext; [|apply Hinv]. done.
  - apply Hinv.
  - done.
  - intros t' f fs. rewrite Hst. case_decide; [by intros [-> ->]%Hfs|apply Hinv].
  - intros t'. rewrite Hst. case_decide; [by destruct Hnew as [[_ ->]|[_ ->]]|apply Hinv].
  - intros t' f. rewrite Hst. case_decide as Hd; [destruct Hnew as [[_ ->]|[-> _]]; [set_solver|by subst]|].
    intros Hin Hf. by rewrite (Hpost _ _ Hd Hin) in Hf.
  - intros t' f fs. rewrite Hst. case_decide as Hd; [by intros [-> ->]%Hfs|]. intros E'.
    pose proof (inv_top _ _ Hinv _ _ _ E') as Hok. specialize (Hpost t' f Hd). rewrite E' in Hpost.
    destruct f; [|by specialize (Hpost ltac:(left))..]. unfold top_ok in *. by rewrite Hp1, <- Hp0.
  - intros a Ha Hn. rewrite Hp1, <- Hp0.
    destruct (inv_null _ _ Hinv a Ha Hn) as [|[|(t' & fs & H)]]; [by left|by right; left|].
    right. right. exists t', fs. rewrite Hst, decide_False; [done|]. intros ->.
    destruct Hold as [E|E]; rewrite E in H; by destruct H as [[? ?]|?].
  - intros t1 t2 a pc1 pc2 fs1 fs2. rewrite !Hst.
    repeat case_decide; try (by intros [? ?]%Hfs); [|apply (inv_post _ _ Hinv)].
    intros _ [? _]%Hfs. done.
  - intros t1 t2 a pc1 pc2 fs1 fs2. rewrite !Hst.
    repeat case_decide; try (by intros [? ?]%Hfs); [|apply (inv_cancel _ _ Hinv)].
    intros _ [? _]%Hfs. done.
  - intros a. rewrite Hp1, <- Hp0. unfold s'. cbn [sy_log set_stack]. rewrite count_nil. apply Hinv.
Qed.

Lemma lock_ok s q t :
  inv s q -> stack s t = [] -> s_owner (sy_group s) = None ->
  inv (set_stack s t (set_owner (sy_group s) (Some t) 1) [FRun RRead] []) q.
Proof.
  intros Hinv E Ho. apply (handover_ok s q t (Some t)); auto.
  - intros t' f _ Hin. destruct (is_post f) eqn:Ef; [done|]. apply (inv_owner _ _ Hinv) in Hin; [|done].
    congruence.
  - unfold popped. by rewrite Ho.
Qed.

Lemma unlock_ok s q t fs :
  inv s q -> stack s t = FUnlock :: fs ->
  inv (set_stack s t (set_owner (sy_group s) None 0) fs []) q.
Proof.
  intros Hinv E. pose proof (inv_bottom _ _ Hinv t) as Hb. rewrite E in Hb. destruct fs as [|]; [|done].
  assert (s_owner (sy_group s) = Some t) as Ho by (eapply (inv_owner _ _ Hinv); [rewrite E; left|done]).
  apply (handover_ok s q t None); auto.
  - intros t' f Hne Hin. destruct (is_post f) eqn:Ef; [done|]. apply (inv_owner _ _ Hinv) in Hin; [|done].
    congruence.
  - unfold popped. rewrite Ho. cbn. by rewrite E.
Qed.

Lemma unlock_call_ok s q t :
  inv s q -> stack s t = [] -> s_owner (sy_group s) = Some t ->
  inv (set_stack s t (sy_group s) [FRun RRead; FUnlock] []) q.
Proof.
  intros Hinv E Ho. set (fs := [FRun RRead; FUnlock]).
  assert (popped (set_stack s t (sy_group s) fs []) = popped s) as Hpop
    by (apply popped_calm; [done|by rewrite E|done]).
  apply (inv_change s q); try done; try apply Hinv.
  - intros f r [= <- <-]. by repeat constructor.
  - by intros f r [= <- <-].
  - intros t' f r _ _. unfold top_ok. by rewrite Hpop.
  - intros a Ha Hn. rewrite Hpop. destruct (inv_null _ _ Hinv a Ha Hn) as [|[|(t' & r & H)]];
      [by left|by right; left|].
    right. right. right. exists t', r. split; [|done]. intros ->. rewrite E in H. by destruct H as [[? ?]|?].
  - intros a. rewrite count_nil, Hpop. apply Hinv.
Qed.

(** ** The steps preserve the invariant *)

(** What a function may do next: nothing crashes. *)
Definition outcome_ok (s : sys) (t : Z) (fs : list frame) (r : outcome frame) : Prop :=
  match r with
  | Crash => False
  | Goto g f ev => exists q, inv (set_stack s t g (f :: fs) ev) q
  | Return g ev => exists q, inv (set_stack s t g fs ev) q
  end.

Lemma post_step_ok s q t a pc fs :
  inv s q -> stack s t = FPost a pc :: fs -> outcome_ok s t fs (frame_step t (sy_group s) (FPost a pc)).
Proof.
  intros Hinv E. destruct (inv_top _ _ Hinv _ _ _ E) as (Ha & Haq & Hap). destruct pc; cbn.
  - exists q. by apply post_read_ok.
  - destruct (sa_next_ast (sy_group s) a Ha) as [n Hn]. rewrite Hn. zcases; subst; cbn.
    + exists (a :: q). by apply post_cas_ok.
    + exists q. assert (popped (set_stack s t (sy_group s) (FPost a PRead :: fs) []) = popped s) as Hpop
        by (apply popped_calm; [done|by rewrite E|done]).
      apply (inv_change s q); try done; try apply Hinv.
      * intros f r [= <- <-]. by eapply (inv_tail _ _ Hinv).
      * exact (inv_bottom_tail _ _ _ _ _ Hinv E).
      * intros f [->|Hin]%elem_of_cons Hf; [done|]. eapply (inv_owner _ _ Hinv); [rewrite E; by right|done].
      * intros f r [= <- <-]. unfold top_ok. by rewrite Hpop.
      * intros t' f r _ _. unfold top_ok. by rewrite Hpop.
      * intros b Hb Hbn. rewrite Hpop. destruct (inv_null _ _ Hinv b Hb Hbn) as [|[|(t' & r & H)]];
          [by left|by right; left|]. destruct (decide (t' = t)) as [->|];
            [|by right; right; right; exists t', r].
        rewrite E in H. destruct H as [[pc [= <- ?]]|?]; [|done]. right. right. left. exists fs. left.
        by eexists.
      * intros b pc r [= <- <- <-]. left. by eexists _, _.
      * intros b. rewrite count_nil, Hpop. apply Hinv.
Qed.

(** Steps of the holder of the lock that change nothing shared. *)
Ltac silent Hinv E :=
  eapply silent_ok; [exact Hinv|exact E|done|done| | | | | |];
  [done || by apply tail_calm; eapply (inv_tail _ _ Hinv)
  |intros ?f ?r ?Ef; first [injection Ef as <- <-; by eapply (inv_tail _ _ Hinv)
                           |eapply tail_rest; rewrite <- Ef; by eapply (inv_tail _ _ Hinv)]
  |exact (inv_bottom_tail _ _ _ _ _ Hinv E)
  |intros ?f ?r ?Ef; try (injection Ef as <- <-; split; [done|])
  |intros ?a ?pc ?r ?Ef; try first [discriminate Ef|injection Ef as <- <- <-; by eexists]
  |done].

Lemma run_step_ok s q t pc fs :
  inv s q -> stack s t = FRun pc :: fs -> outcome_ok s t fs (frame_step t (sy_group s) (FRun pc)).
Proof.
  intros Hinv E. pose proof (inv_top _ _ Hinv _ _ _ E) as Hok. pose proof (inv_queue _ _ Hinv) as Hq.
  pose proof (inv_tail _ _ Hinv _ _ _ E) as Htail.
  destruct pc as [|a|a n|a|a]; cbn.
  - zcases; cbn; exists q.
    + silent Hinv E.
      * rewrite Ef in Htail. apply Forall_cons in Htail as [Hf _].
        split; [by destruct f|by apply tail_top_ok].
      * rewrite Ef in Htail. by apply Forall_cons in Htail as [? _].
    + silent Hinv E. destruct q as [|b q]; cbn in Hq; [done|]. destruct Hq as (-> & _). left.
  - cbn in Hok. destruct (sa_next_ast (sy_group s) a) as [n Hn]; [by eapply queue_ast|]. rewrite Hn. cbn.
    exists q. by silent Hinv E.
  - zcases; cbn; [eexists; by apply run_pop_ok|exists q; by silent Hinv E].
  - destruct Hok as (Ha & _ & Hne). destruct (sa_next_ast (sy_group s) a Ha) as [n Hn].
    rewrite Hn in Hne |- *.
    zcases; subst; [done|]. cbn. exists q. by apply run_clear_ok.
  - exists q. by silent Hinv E.
Qed.

(** An AST that is being cancelled and is linked is on the queue. *)
Lemma cancel_linked s q t a pc fs :
  inv s q -> stack s t = FCancel a pc :: fs -> pc <> CClear -> is_ast a = true ->
  sa_next (sy_group s) a <> Some NULL -> a ∈ q.
Proof.
  intros Hinv E Hpc Ha Hn.
  assert (s_owner (sy_group s) = Some t) as Hown by (eapply (inv_owner _ _ Hinv); [rewrite E; left|done]).
  destruct (inv_null _ _ Hinv a Ha Hn) as [|[Hp|(t' & r & [[pc' H]|H])]]; [done|..]; exfalso.
  - unfold popped in Hp. rewrite Hown in Hp. cbn in Hp. by rewrite E in Hp.
  - by eapply (inv_cancel _ _ Hinv).
  - assert (s_owner (sy_group s) = Some t') by (eapply (inv_owner _ _ Hinv); [rewrite H; left|done]).
    assert (t' = t) as -> by congruence. congruence.
Qed.

Lemma cancel_step_ok s q t a pc fs :
  inv s q -> stack s t = FCancel a pc :: fs -> outcome_ok s t fs (frame_step t (sy_group s) (FCancel a pc)).
Proof.
  intros Hinv E. pose proof (inv_top _ _ Hinv _ _ _ E) as Hok. pose proof (inv_queue _ _ Hinv) as Hq.
  pose proof (inv_tail _ _ Hinv _ _ _ E) as Htail.
  destruct pc as [| | |n| |p|p|]; cbn in Hok |- *.
  - destruct (sa_next_ast (sy_group s) a Hok) as [n Hn]. rewrite Hn. zcases; subst; cbn; exists q.
    + silent Hinv E.
      * rewrite Ef in Htail. apply Forall_cons in Htail as [Hf _].
        split; [by destruct f|by apply tail_top_ok].
      * rewrite Ef in Htail. by apply Forall_cons in Htail as [? _].
    + silent Hinv E. eapply cancel_linked; [done|done|done|done|congruence].
  - exists q. zcases; subst; by silent Hinv E.
  - destruct (sa_next_ast (sy_group s) a) as [n Hn]; [by eapply queue_ast|]. rewrite Hn. cbn.
    exists q. by silent Hinv E.
  - destruct Hok as [Hin Hn]. zcases; cbn; [|exists q; by silent Hinv E].
    destruct q as [|b q]; [set_solver|]. cbn in Hq. destruct Hq as (Hb & _ & n' & Hn' & Hq).
    assert (b = a) as -> by congruence. assert (n' = n) as -> by congruence.
    exists q. eapply (cancel_remove_ok s [] a q); try done. eapply queue_ext; [|exact Hq]. done.
  - destruct Hok as [Hin Hne]. exists q. silent Hinv E. destruct q as [|b q]; [set_solver|].
    cbn in Hq. destruct Hq as (Hb & _). exists [], q. rewrite Hb. split; [done|].
    apply elem_of_cons in Hin as [->|]; [congruence|done].
  - destruct Hok as (q1 & q2 & -> & Hin). apply queue_split in Hq as (n & Hn & Hq). rewrite Hn.
    cbn. exists (q1 ++ p :: q2). destruct q2 as [|b q2]; [set_solver|]. cbn in Hq. destruct Hq as (-> & _).
    zcases; subst; silent Hinv E; [by exists q1, q2|]. exists (q1 ++ [p]), q2.
    split; [by rewrite <- app_assoc|]. apply elem_of_cons in Hin as [->|]; [congruence|done].
  - destruct Hok as (q1 & q2 & ->). destruct (sa_next_ast (sy_group s) a) as [n Hn].
    { eapply queue_ast; [exact Hq|]. set_solver. }
    rewrite Hn. cbn. exists ((q1 ++ [p]) ++ q2).
    eapply (cancel_remove_ok s (q1 ++ [p]) a q2); try done.
    + by rewrite <- app_assoc.
    + rewrite <- app_assoc. eapply queue_unlink; [apply Hinv|exact Hq|done].
    + intros b Hb. rewrite sa_next_set. case_decide as Hd; [|done]. destruct Hd as [-> _]. intros _.
      eapply queue_next_ne; [exact Hq|]. set_solver.
  - exists q. by apply cancel_clear_ok.
Qed.

Lemma step_ok s q s' : inv s q -> step s s' -> exists s1 q1, s' = Some s1 /\ inv s1 q1.
Proof.
  intros Hinv Hstep.
  assert (forall t f fs, stack s t = f :: fs -> outcome_ok s t fs (frame_step t (sy_group s) f)) as Hframe.
  { intros t [a pc|pc|a pc|] fs E; [by eapply post_step_ok|by eapply run_step_ok|by eapply cancel_step_ok|].
    assert (s_owner (sy_group s) = Some t) as Ho by (eapply (inv_owner _ _ Hinv); [rewrite E; left|done]).
    pose proof (inv_nest _ _ Hinv) as Hn. rewrite Ho in Hn. cbn. unfold _sm_group_unlock, m0_mutex_is_locked.
    rewrite Hn, Ho, bool_decide_true by done. cbn. exists q. by eapply unlock_ok. }
  destruct Hstep as [t f fs g f' ev E Hs|t f fs g ev E Hs|t f fs E Hs|t a Hc Ha Hset Hnp Hnc|t a Hc Ho Ha Hnp
    |t Hc Ho|t E Ho|t E Ho].
  - specialize (Hframe t f fs E). rewrite Hs in Hframe. destruct Hframe as [q1 H]. eauto.
  - specialize (Hframe t f fs E). rewrite Hs in Hframe. destruct Hframe as [q1 H]. eauto.
  - specialize (Hframe t f fs E). by rewrite Hs in Hframe.
  - pose proof (inv_count _ _ Hinv a) as Hcount. unfold settled in Hset. rewrite Hset in Hcount.
    destruct (bool_decide (a ∈ q)) eqn:Hq; [lia|]. destruct (bool_decide (popped s = Some a)) eqn:Hp; [lia|].
    apply bool_decide_eq_false in Hq, Hp. rewrite bool_decide_true.
    + eexists _, q. split; [done|]. apply push_ok; try done. by intros b pc [= <- _].
    + destruct (sa_next_ast (sy_group s) a Ha) as [n Hn]. destruct (decide (n = NULL)) as [->|Hne]; [done|].
      exfalso. destruct (inv_null _ _ Hinv a Ha) as [|[|(t' & r & [[pc H]|H])]]; [congruence|done|done|..].
      * apply Hnp. exists t', pc. rewrite H. left.
      * apply Hnc. exists t', CClear. rewrite H. left.
  - unfold m0_mutex_is_locked. rewrite bool_decide_true by done. eexists _, q. split; [done|].
    apply push_ok; try done. by intros b pc [= <- _].
  - unfold m0_mutex_is_locked. rewrite bool_decide_true by done. eexists _, q. split; [done|].
    by apply push_ok.
  - pose proof (inv_nest _ _ Hinv) as Hn. rewrite Ho in Hn. unfold _sm_group_lock. rewrite Hn. cbn.
    eexists _, q. split; [done|]. by apply lock_ok.
  - unfold m0_mutex_is_locked. rewrite bool_decide_true by done. eexists _, q. split; [done|].
    by apply unlock_call_ok.
Qed.

Lemma init_inv : inv init_sys [].
Proof.
  assert (forall t, stack init_sys t = []) as Hst by done.
  split; try done; try (intros t; intros; rewrite Hst in *; set_solver).
  - constructor.
  - intros a Ha. destruct (sa_next_ast (sy_group init_sys) a Ha) as [n Hn]. unfold sa_next in *. cbn in *.
    zcases; done.
Qed.

Lemma reachable_inv s : reachable s -> exists s1 q, s = Some s1 /\ inv s1 q.
Proof.
  induction 1 as [|s s' _ IH Hstep]; [exists init_sys, []; split; [done|apply init_inv]|].
  destruct IH as (s1 & q & [= <-] & Hinv). by eapply step_ok.
Qed.

(** ** Properties *)

(** C11. In every interleaving of threads that post ASTs without locks with a
    thread that holds the group lock and runs or cancels them, no assertion of
    sm.c fails and NULL is never dereferenced; the fork queue is a chain of
    distinct ASTs that ends with the marker; and every AST was posted exactly as
    often as it was run or cancelled, plus once if it is on the queue or was just
    taken off it to be run: no posting is lost and none is executed twice. *)
Theorem ast_queue_invariant s :
  reachable s ->
  exists s1 q, s = Some s1 /\ queue (sy_group s1) (s_forkq (sy_group s1)) q /\ NoDup q /\
    forall a, count (sy_log s1) (EPost a) =
      (count (sy_log s1) (ERun a) + count (sy_log s1) (ECancel a) +
       (if bool_decide (a ∈ q) then 1 else 0) + (if bool_decide (popped s1 = Some a) then 1 else 0))%nat.
Proof.
  intros (s1 & q & -> & Hinv)%reachable_inv. exists s1, q.
  split; [done|]. split; [apply Hinv|]. split; apply Hinv.
Qed.

(** Thread [t] takes [n] steps in a row. *)
Fixpoint solo (n : nat) (t : Z) (s : sys) : option sys :=
  match n, stack s t with
  | O, _ => Some s
  | S _, [] => None
  | S n, f :: fs =>
      match frame_step t (sy_group s) f with
      | Crash => None
      | Goto g f ev => solo n t (set_stack s t g (f :: fs) ev)
      | Return g ev => solo n t (set_stack s t g fs ev)
      end
  end.

Lemma stack_set_eq s t g fs ev : stack (set_stack s t g fs ev) t = fs.
Proof. by rewrite stack_set, decide_True. Qed.

Lemma solo_goto n t s f fs g f' ev :
  stack s t = f :: fs -> frame_step t (sy_group s) f = Goto g f' ev ->
  solo (S n) t s = solo n t (set_stack s t g (f' :: fs) ev).
Proof. intros E Hs. cbn [solo]. by rewrite E, Hs. Qed.

Lemma solo_return n t s f fs g ev :
  stack s t = f :: fs -> frame_step t (sy_group s) f = Return g ev ->
  solo (S n) t s = solo n t (set_stack s t g fs ev).
Proof. intros E Hs. cbn [solo]. by rewrite E, Hs. Qed.

Lemma solo_add n m t s s1 : solo n t s = Some s1 -> solo (n + m) t s = solo m t s1.
Proof.
  revert s. induction n as [|n IH]; intros s; cbn; [by intros [= ->]|].
  destruct (stack s t) as [|f fs]; [done|]. destruct (frame_step t (sy_group s) f); [done|apply IH..].
Qed.

(** *** A thread in m0_sm_asts_run() *)

(** The AST that was taken off the queue is run. *)
Lemma solo_clear t s a q fs :
  stack s t = FRun (RClear a) :: fs -> a ∉ q -> is_ast a = true -> sa_next (sy_group s) a <> Some NULL ->
  queue (sy_group s) (s_forkq (sy_group s)) q ->
  exists s', solo 2 t s = Some s' /\ stack s' t = FRun RRead :: fs /\
    queue (sy_group s') (s_forkq (sy_group s')) q /\ sy_log s' = sy_log s ++ [ERun a].
Proof.
  intros E Hnin Ha Hne Hq. destruct (sa_next_ast (sy_group s) a Ha) as [n Hn]. rewrite Hn in Hne.
  erewrite solo_goto; [|exact E|].
  2:{ cbn. rewrite Hn, (proj2 (Z.eqb_neq n NULL)) by congruence. reflexivity. }
  erewrite solo_goto; [|apply stack_set_eq|reflexivity]. cbn [solo]. eexists. split; [done|].
  split; [apply stack_set_eq|]. cbn. split; [|by rewrite !app_nil_r].
  eapply queue_ext; [|exact Hq]. intros b Hb. rewrite sa_next_set, decide_False; [done|]. by intros [-> _].
Qed.

(** The head of the queue is taken off and run. *)
Lemma solo_take t s a n q fs :
  stack s t = FRun (RCas a n) :: fs -> NoDup (a :: q) -> sa_next (sy_group s) a = Some n ->
  queue (sy_group s) (s_forkq (sy_group s)) (a :: q) ->
  exists s', solo 3 t s = Some s' /\ stack s' t = FRun RRead :: fs /\
    queue (sy_group s') (s_forkq (sy_group s')) q /\ sy_log s' = sy_log s ++ [ERun a].
Proof.
  intros E [Hnin _]%NoDup_cons Hn Hq. pose proof (queue_next_ne _ _ _ a Hq ltac:(left)) as Hne.
  destruct Hq as (Hf & Ha & n' & Hn' & Hq). assert (n' = n) as -> by congruence.
  erewrite solo_goto; [|exact E|cbn; rewrite Hf, Z.eqb_refl; reflexivity].
  set (s1 := set_stack _ _ _ _ _).
  destruct (solo_clear t s1 a q fs) as (s' & E' & H1 & H2 & H3); try done; [apply stack_set_eq| |].
  - cbn. by apply (queue_ext (sy_group s)).
  - exists s'. rewrite H3. cbn. by rewrite app_nil_r.
Qed.

(** The compare-and-swap of an AST read from the queue: it is taken off and run,
    unless another one was posted meanwhile. *)
Lemma solo_cas t s a n q fs :
  stack s t = FRun (RCas a n) :: fs -> NoDup q -> a ∈ q -> sa_next (sy_group s) a = Some n ->
  queue (sy_group s) (s_forkq (sy_group s)) q ->
  exists k s' l q', solo k t s = Some s' /\ stack s' t = FRun RRead :: fs /\
    queue (sy_group s') (s_forkq (sy_group s')) q' /\ sy_log s' = sy_log s ++ (ERun <$> l) /\
    q = l ++ q' /\ (k <= 1 + 2 * length l)%nat.
Proof.
  intros E Hnd Hin Hn Hq. destruct (Z.eqb_spec (s_forkq (sy_group s)) a) as [Hf|Hf].
  - destruct q as [|b q]; [set_solver|]. assert (b = a) as -> by (destruct Hq as (Hb & _); congruence).
    destruct (solo_take t s a n q fs E Hnd Hn Hq) as (s' & H). exists 3%nat, s', [a], q.
    destruct H as (? & ? & ? & ?). split_and!; try done.
  - eexists 1%nat, _, [], q. erewrite solo_goto;
      [|exact E|cbn; rewrite (proj2 (Z.eqb_neq _ _)) by done; reflexivity].
    split; [done|]. split; [apply stack_set_eq|]. split_and!; try done; cbn; lia.
Qed.

(** One round. *)
Lemma solo_round t s a q fs :
  stack s t = FRun RRead :: fs -> NoDup (a :: q) ->
  queue (sy_group s) (s_forkq (sy_group s)) (a :: q) ->
  exists s', solo 5 t s = Some s' /\ stack s' t = FRun RRead :: fs /\
    queue (sy_group s') (s_forkq (sy_group s')) q /\ sy_log s' = sy_log s ++ [ERun a].
Proof.
  intros E Hnd Hq. pose proof Hq as (Hf & Ha & n & Hn & _). destruct (is_ast_ne a Ha) as [Ha0 Ha1].
  erewrite solo_goto; [|exact E|cbn; rewrite Hf, (proj2 (Z.eqb_neq a eoq)) by done; reflexivity].
  erewrite solo_goto; [|apply stack_set_eq|cbn; rewrite Hn; reflexivity].
  set (s1 := set_stack _ _ _ _ _). destruct (solo_take t s1 a n q fs) as (s' & H); try done.
  - apply stack_set_eq.
  - exists s'. cbn [s1 set_stack sy_log] in H. by rewrite !app_nil_r in H.
Qed.

Lemma solo_drain q : forall t s fs,
  stack s t = FRun RRead :: fs -> NoDup q -> queue (sy_group s) (s_forkq (sy_group s)) q ->
  exists s', solo (5 * length q + 1) t s = Some s' /\ stack s' t = fs /\
    s_forkq (sy_group s') = eoq /\ sy_log s' = sy_log s ++ (ERun <$> q).
Proof.
  induction q as [|a q IH]; intros t s fs E Hnd Hq.
  - cbn in Hq. cbn [length Nat.mul Nat.add].
    erewrite solo_return; [|exact E|cbn; rewrite Hq, Z.eqb_refl; reflexivity].
    eexists. split; [done|]. split; [apply stack_set_eq|done].
  - destruct (solo_round t s a q fs E Hnd Hq) as (s1 & E1 & Hs1 & Hq1 & Hl1).
    apply NoDup_cons in Hnd as [_ Hnd]. destruct (IH t s1 fs Hs1 Hnd Hq1) as (s2 & E2 & Hs2 & Hq2 & Hl2).
    exists s2. split.
    + replace (5 * length (a :: q) + 1)%nat with (5 + (5 * length q + 1))%nat by (cbn; lia).
      by rewrite (solo_add _ _ _ _ s1).
    + split; [done|]. split; [done|]. rewrite Hl2, Hl1, fmap_cons. by rewrite <- app_assoc.
Qed.

(** What the thread has taken off the queue, and the steps it is late. *)
Definition run_popped (pc : run_pc) : list Z := match pc with RClear a => [a] | _ => [] end.

Definition run_late (pc : run_pc) : nat :=
  match pc with RRead => 0 | RCall _ | RCas _ _ => 1 | RNext _ | RClear _ => 2 end.

(** From the head of the loop on. *)
Lemma solo_finish t s k s1 l q b fs :
  solo k t s = Some s1 -> stack s1 t = FRun RRead :: fs -> NoDup q ->
  queue (sy_group s1) (s_forkq (sy_group s1)) q -> sy_log s1 = sy_log s ++ (ERun <$> l) ->
  (k + (5 * length q + 1) <= b)%nat ->
  exists n s', (n <= b)%nat /\ solo n t s = Some s' /\ stack s' t = fs /\
    s_forkq (sy_group s') = eoq /\ sy_log s' = sy_log s ++ (ERun <$> l ++ q).
Proof.
  intros Hk E Hnd Hq Hl Hb. destruct (solo_drain q t s1 fs E Hnd Hq) as (s' & H1 & H2 & H3 & H4).
  exists (k + (5 * length q + 1))%nat, s'. rewrite (solo_add _ _ _ _ s1) by done. split_and!; try done.
  by rewrite H4, Hl, fmap_app, app_assoc.
Qed.

Lemma solo_run s q t pc fs :
  inv s q -> stack s t = FRun pc :: fs ->
  exists n s', (n <= run_late pc + 5 * length q + 1)%nat /\ solo n t s = Some s' /\ stack s' t = fs /\
    s_forkq (sy_group s') = eoq /\ sy_log s' = sy_log s ++ (ERun <$> run_popped pc ++ q).
Proof.
  intros Hinv E. pose proof (inv_top _ _ Hinv _ _ _ E) as Hok. pose proof (inv_queue _ _ Hinv) as Hq.
  pose proof (inv_nodup _ _ Hinv) as Hnd.
  assert (forall k s1 a n, solo k t s = Some s1 -> stack s1 t = FRun (RCas a n) :: fs -> a ∈ q ->
    sa_next (sy_group s1) a = Some n -> queue (sy_group s1) (s_forkq (sy_group s1)) q ->
    sy_log s1 = sy_log s -> exists n s', (n <= k + 1 + 5 * length q + 1)%nat /\ solo n t s = Some s' /\
    stack s' t = fs /\ s_forkq (sy_group s') = eoq /\ sy_log s' = sy_log s ++ (ERun <$> q)) as Hcas.
  { intros k s1 a n Hk E1 Hin Hn Hq1 Hl1.
    destruct (solo_cas t s1 a n q fs E1 Hnd Hin Hn Hq1) as (k' & s2 & l & q' & H1 & H2 & H3 & H4 & -> & Hk').
    apply (solo_finish t s (k + k') s2 l q'); try done; [by rewrite (solo_add _ _ _ _ s1)| | |].
    - by apply NoDup_app in Hnd as (_ & _ & ?).
    - by rewrite H4, Hl1.
    - rewrite length_app. lia. }
  destruct pc as [|a|a n|a|a]; cbn [run_popped run_late app].
  - apply (solo_finish t s 0 s [] q); try done. by rewrite app_nil_r.
  - destruct (sa_next_ast (sy_group s) a) as [n Hn]; [by eapply queue_ast|].
    eapply (Hcas 1%nat); [erewrite solo_goto; [done|exact E|cbn; by rewrite Hn]|apply stack_set_eq|done|done
      |done|apply app_nil_r].
  - destruct Hok as [Hin Hn]. by eapply (Hcas 0%nat s).
  - destruct Hok as (Ha & Hnin & Hne).
    destruct (solo_clear t s a q fs E Hnin Ha Hne Hq) as (s1 & H1 & H2 & H3 & H4).
    by apply (solo_finish t s 2 s1 [a] q).
  - eapply (solo_finish t s 1 _ [] q);
      [erewrite solo_goto; [done|exact E|done]|apply stack_set_eq|done|done|done|lia].
Qed.

(** *** A thread in m0_sm_ast_cancel() *)

(** The AST is off the queue after [n] steps at most. *)
Definition cancels (t : Z) (s : sys) (a : Z) (fs : list frame) (q : list Z) (n : nat) : Prop :=
  exists k s', (k <= n)%nat /\ solo k t s = Some s' /\ stack s' t = fs /\
    queue (sy_group s') (s_forkq (sy_group s')) q /\ sy_log s' = sy_log s ++ [ECancel a].

(** A step on the way. *)
Lemma cancels_goto t s a f f' fs q n :
  stack s t = f :: fs -> frame_step t (sy_group s) f = Goto (sy_group s) f' [] ->
  (forall s1, stack s1 t = f' :: fs -> sy_group s1 = sy_group s -> cancels t s1 a fs q n) ->
  cancels t s a fs q (S n).
Proof.
  intros E Hs Hnext.
  destruct (Hnext (set_stack s t (sy_group s) (f' :: fs) [])) as (k & s' & Hk & H1 & H2 & H3 & H4);
    [apply stack_set_eq|done|].
  exists (S k), s'. rewrite (solo_goto _ _ _ _ _ _ _ _ E Hs). split_and!; try done; [lia|].
  rewrite H4. cbn. by rewrite app_nil_r.
Qed.

Lemma cancels_le t s a fs q n m : cancels t s a fs q n -> (n <= m)%nat -> cancels t s a fs q m.
Proof. intros (k & s' & Hk & H) Hle. exists k, s'. split; [lia|done]. Qed.

(** The last two steps. *)
Lemma cancels_end t s a f g fs q :
  stack s t = f :: fs -> frame_step t (sy_group s) f = Goto g (FCancel a CClear) [ECancel a] -> a ∉ q ->
  queue g (s_forkq g) q -> cancels t s a fs q 2.
Proof.
  intros E Hs Hnin Hq. eexists 2%nat, _. rewrite (solo_goto _ _ _ _ _ _ _ _ E Hs).
  erewrite solo_return; [|apply stack_set_eq|reflexivity]. split; [done|]. split; [done|].
  split; [apply stack_set_eq|]. cbn. split; [|by rewrite app_nil_r].
  eapply queue_ext; [|exact Hq]. intros b Hb. rewrite sa_next_set, decide_False; [done|]. by intros [-> _].
Qed.

Lemma nodup_middle (a : Z) q1 q2 : NoDup (q1 ++ a :: q2) -> a ∉ q1 ++ q2.
Proof. rewrite <- Permutation_middle. by intros [? _]%NoDup_cons. Qed.

Lemma cancels_unlink t s a p q1 q2 fs :
  stack s t = FCancel a (CUnlink p) :: fs -> NoDup (q1 ++ p :: a :: q2) ->
  queue (sy_group s) (s_forkq (sy_group s)) (q1 ++ p :: a :: q2) -> cancels t s a fs (q1 ++ p :: q2) 2.
Proof.
  intros E Hnd Hq. destruct (sa_next_ast (sy_group s) a) as [n Hn];
    [eapply queue_ast; [exact Hq|set_solver]|].
  eapply (cancels_end t s a _ (set_next (sy_group s) p n)); [exact E|cbn; by rewrite Hn| |].
  - rewrite cons_middle, app_assoc in Hnd |- *. by apply nodup_middle.
  - by apply (queue_unlink _ _ q1 p a q2).
Qed.

Lemma cancels_loop t a q2 q3 fs : forall s p q1,
  stack s t = FCancel a (CLoop p) :: fs -> NoDup (q1 ++ p :: q2 ++ a :: q3) ->
  queue (sy_group s) (s_forkq (sy_group s)) (q1 ++ p :: q2 ++ a :: q3) ->
  cancels t s a fs (q1 ++ p :: q2 ++ q3) (3 + length q2).
Proof.
  induction q2 as [|b q2 IH]; intros s p q1 E Hnd Hq; pose proof (queue_split _ _ _ _ _ Hq) as (n & Hn & Hq2);
    destruct Hq2 as (-> & _).
  - eapply cancels_goto; [exact E|cbn; rewrite Hn, Z.eqb_refl; reflexivity|].
    intros s1 E1 Hg. apply (cancels_unlink t s1 a p q1 q3); rewrite ?Hg; done.
  - assert (b <> a).
    { intros ->. rewrite cons_middle, app_assoc in Hnd. apply nodup_middle in Hnd. set_solver. }
    eapply cancels_goto; [exact E|cbn; rewrite Hn, (proj2 (Z.eqb_neq b a)) by done; reflexivity|].
    intros s1 E1 Hg. change (q1 ++ p :: (b :: q2) ++ q3) with (q1 ++ [p] ++ b :: q2 ++ q3).
    rewrite (app_assoc q1). apply IH; rewrite ?Hg; try done; by rewrite <- app_assoc.
Qed.

Section cancel.
Context (t : Z) (a : Z) (q1 q2 : list Z) (fs : list frame).
Hypothesis Hnd : NoDup (q1 ++ a :: q2).

Lemma cancels_scan s :
  stack s t = FCancel a CScan :: fs -> queue (sy_group s) (s_forkq (sy_group s)) (q1 ++ a :: q2) ->
  s_forkq (sy_group s) <> a -> cancels t s a fs (q1 ++ q2) (3 + length q1).
Proof.
  intros E Hq Hne. destruct q1 as [|p q1']; [by destruct Hq as (? & _)|].
  pose proof Hq as (Hf & _). eapply cancels_goto; [exact E|cbn; by rewrite Hf|].
  intros s1 E1 Hg. by apply (cancels_loop t a q1' q2 fs s1 p []); rewrite ?Hg.
Qed.

Lemma cancels_cas s n :
  stack s t = FCancel a (CCas n) :: fs -> queue (sy_group s) (s_forkq (sy_group s)) (q1 ++ a :: q2) ->
  sa_next (sy_group s) a = Some n -> cancels t s a fs (q1 ++ q2) (4 + length q1).
Proof.
  intros E Hq Hn. destruct (Z.eqb_spec (s_forkq (sy_group s)) a) as [Hf|Hf].
  - destruct q1 as [|p q1'].
    2:{ destruct Hq as (Hp & _). rewrite <- Hp, Hf in Hnd. apply NoDup_cons in Hnd as [Hnin _]. set_solver. }
    destruct Hq as (_ & _ & n' & Hn' & Hq). assert (n' = n) as -> by congruence.
    apply (cancels_le _ _ _ _ _ 2); [|cbn; lia]. eapply (cancels_end t s a _ (set_forkq (sy_group s) n));
      [exact E|cbn; by rewrite Hf, Z.eqb_refl| |].
    + by apply NoDup_cons in Hnd as [? _].
    + by eapply (queue_ext (sy_group s)).
  - eapply cancels_goto; [exact E|cbn; rewrite (proj2 (Z.eqb_neq _ a)) by done; reflexivity|].
    intros s1 E1 Hg. apply cancels_scan; by rewrite ?Hg.
Qed.

Lemma cancels_next s :
  stack s t = FCancel a CNext :: fs -> queue (sy_group s) (s_forkq (sy_group s)) (q1 ++ a :: q2) ->
  cancels t s a fs (q1 ++ q2) (5 + length q1).
Proof.
  intros E Hq. destruct (queue_split _ _ _ _ _ Hq) as (n & Hn & _).
  eapply cancels_goto; [exact E|cbn; by rewrite Hn|]. intros s1 E1 Hg.
  by apply (cancels_cas s1 n); rewrite ?Hg.
Qed.

Lemma cancels_head s :
  stack s t = FCancel a CHead :: fs -> queue (sy_group s) (s_forkq (sy_group s)) (q1 ++ a :: q2) ->
  cancels t s a fs (q1 ++ q2) (6 + length q1).
Proof.
  intros E Hq. destruct (Z.eqb_spec a (s_forkq (sy_group s))) as [Hf|Hf].
  - eapply cancels_goto; [exact E|cbn; rewrite (proj2 (Z.eqb_eq a _)) by done; reflexivity|].
    intros s1 E1 Hg. apply cancels_next; by rewrite ?Hg.
  - apply (cancels_le _ _ _ _ _ (4 + length q1)); [|lia].
    eapply cancels_goto; [exact E|cbn; rewrite (proj2 (Z.eqb_neq a _)) by done; reflexivity|].
    intros s1 E1 Hg. apply cancels_scan; rewrite ?Hg; done.
Qed.

End cancel.

Lemma filter_self (a : Z) (q : list Z) : a ∉ q -> filter (fun b => b <> a) q = q.
Proof.
  induction q as [|b q IH]; intros Hnin; [done|]. apply not_elem_of_cons in Hnin as [Hne Hnin].
  rewrite filter_cons_True by congruence. by rewrite IH.
Qed.

Lemma filter_middle (a : Z) (q1 q2 : list Z) : NoDup (q1 ++ a :: q2) ->
  filter (fun b => b <> a) (q1 ++ a :: q2) = q1 ++ q2.
Proof.
  intros (_ & H & [Hnin _]%NoDup_cons)%NoDup_app. rewrite filter_app, filter_cons_False by tauto.
  rewrite !filter_self; [done|done|]. intros Hin. apply (H a Hin). left.
Qed.

(** The AST leaves the queue if it is on it. *)
Lemma solo_cancel s q t a pc fs :
  inv s q -> stack s t = FCancel a pc :: fs ->
  exists n s', (n <= length q + 6)%nat /\ solo n t s = Some s' /\ stack s' t = fs /\
    queue (sy_group s') (s_forkq (sy_group s')) (filter (fun b => b <> a) q) /\
    sy_log s' = sy_log s ++ (if decide (a ∈ q) then [ECancel a] else []).
Proof.
  intros Hinv E. pose proof (inv_top _ _ Hinv _ _ _ E) as Hok. pose proof (inv_queue _ _ Hinv) as Hq.
  pose proof (inv_nodup _ _ Hinv) as Hnd.
  assert (forall q1 q2 n, q = q1 ++ a :: q2 -> (n <= 7 + length q1)%nat -> cancels t s a fs (q1 ++ q2) n ->
    exists n s', (n <= length q + 6)%nat /\ solo n t s = Some s' /\ stack s' t = fs /\
      queue (sy_group s') (s_forkq (sy_group s')) (filter (fun b => b <> a) q) /\
      sy_log s' = sy_log s ++ (if decide (a ∈ q) then [ECancel a] else [])) as Hend.
  { intros q1 q2 n -> Hn (k & s' & Hk & H). exists k, s'. rewrite filter_middle by done.
    rewrite decide_True by set_solver. split; [|done]. rewrite length_app. cbn. lia. }
  assert (forall g, a ∉ q -> frame_step t (sy_group s) (FCancel a pc) = Return g [] ->
    queue g (s_forkq g) q -> exists n s', (n <= length q + 6)%nat /\ solo n t s = Some s' /\
      stack s' t = fs /\
      queue (sy_group s') (s_forkq (sy_group s')) (filter (fun b => b <> a) q) /\
      sy_log s' = sy_log s ++ (if decide (a ∈ q) then [ECancel a] else [])) as Hret.
  { intros g Hnin Hs Hg. eexists 1%nat, _. rewrite (solo_return _ _ _ _ _ _ _ E Hs).
    rewrite filter_self, decide_False by done. split; [lia|]. split; [done|].
    split; [apply stack_set_eq|done]. }
  assert (forall q, a ∈ q -> exists q1 q2, q = q1 ++ a :: q2) as Hsp by (intros ?; apply list_elem_of_split).
  destruct pc as [| | |n| |p|p|]; cbn in Hok.
  - destruct (sa_next_ast (sy_group s) a Hok) as [n Hn]. destruct (decide (n = NULL)) as [->|Hne].
    + apply (Hret (sy_group s)); [|cbn; by rewrite Hn|done]. intros Hin.
      by apply (queue_next_ne _ _ _ _ Hq Hin).
    + destruct (Hsp q) as (q1 & q2 & ->); [eapply cancel_linked; [done|done|done|done|congruence]|].
      eapply (Hend q1 q2); [done|reflexivity|]. eapply cancels_goto; [exact E|cbn;
        rewrite Hn, (proj2 (Z.eqb_neq n NULL)) by done; reflexivity|].
      intros s1 E1 Hg. apply cancels_head; by rewrite ?Hg.
  - destruct (Hsp q Hok) as (q1 & q2 & ->). eapply (Hend q1 q2); [done| |by apply cancels_head]. lia.
  - destruct (Hsp q Hok) as (q1 & q2 & ->). eapply (Hend q1 q2); [done| |by apply cancels_next]. lia.
  - destruct Hok as [Hin Hn]. destruct (Hsp q Hin) as (q1 & q2 & ->).
    eapply (Hend q1 q2); [done| |by eapply cancels_cas]. lia.
  - destruct Hok as [Hin Hne]. destruct (Hsp q Hin) as (q1 & q2 & ->).
    eapply (Hend q1 q2); [done| |by apply cancels_scan]. lia.
  - destruct Hok as (q1 & q2 & -> & Hin). destruct (Hsp q2 Hin) as (q3 & q4 & ->).
    eapply (Hend (q1 ++ p :: q3) q4); [by rewrite <- app_assoc| |rewrite <- app_assoc; by apply cancels_loop].
    rewrite length_app. cbn. lia.
  - destruct Hok as (q1 & q2 & ->).
    eapply (Hend (q1 ++ [p]) q2); [by rewrite <- app_assoc| |rewrite <- app_assoc; by apply cancels_unlink].
    lia.
  - destruct Hok as [Ha Hnin]. eapply Hret; [done|done|]. eapply queue_ext; [|exact Hq].
    intros b Hb. rewrite sa_next_set, decide_False; [done|]. by intros [-> _].
Qed.

(** *** A thread in m0_sm_ast_post() *)

Lemma solo_post t s a q pc fs :
  stack s t = FPost a pc :: fs -> is_ast a = true -> a ∉ q -> queue (sy_group s) (s_forkq (sy_group s)) q ->
  exists n s', (n <= 3)%nat /\ solo n t s = Some s' /\ stack s' t = fs /\
    queue (sy_group s') (s_forkq (sy_group s')) (a :: q) /\ sy_log s' = sy_log s ++ [EPost a].
Proof.
  intros E Ha Hnin Hq. destruct (is_ast_ne a Ha) as [Ha0 _].
  assert (forall s, stack s t = FPost a PCas :: fs -> queue (sy_group s) (s_forkq (sy_group s)) q ->
    sa_next (sy_group s) a = Some (s_forkq (sy_group s)) ->
    exists s', solo 1 t s = Some s' /\ stack s' t = fs /\
      queue (sy_group s') (s_forkq (sy_group s')) (a :: q) /\ sy_log s' = sy_log s ++ [EPost a]) as Hcas.
  { clear s E pc Hq. intros s E Hq Hn. erewrite solo_return;
      [|exact E|cbn; rewrite Hn, Z.eqb_refl; reflexivity].
    eexists. split; [done|]. split; [apply stack_set_eq|]. split; [|done]. split; [done|]. split; [done|].
    eexists. split; [exact Hn|]. by apply (queue_ext (sy_group s)). }
  assert (forall s, stack s t = FPost a PRead :: fs -> queue (sy_group s) (s_forkq (sy_group s)) q ->
    exists s', solo 2 t s = Some s' /\ stack s' t = fs /\
      queue (sy_group s') (s_forkq (sy_group s')) (a :: q) /\ sy_log s' = sy_log s ++ [EPost a]) as Hread.
  { clear s E pc Hq. intros s E Hq. erewrite solo_goto; [|exact E|reflexivity].
    set (s1 := set_stack _ _ _ _ _). destruct (Hcas s1) as (s' & H); [apply stack_set_eq| | |].
    - eapply queue_ext; [|exact Hq]. intros b Hb. cbn. rewrite sa_next_set, decide_False; [done|].
      by intros [-> _].
    - cbn. by rewrite sa_next_set, decide_True.
    - exists s'. cbn [s1 set_stack sy_log] in H. by rewrite app_nil_r in H. }
  destruct pc.
  - destruct (Hread s E Hq) as (s' & H). exists 2%nat, s'. split; [lia|done].
  - destruct (sa_next_ast (sy_group s) a Ha) as [n Hn].
    destruct (Z.eqb_spec (s_forkq (sy_group s)) n) as [Hf|Hf].
    + destruct (Hcas s E Hq) as (s' & H); [by rewrite Hf|]. exists 1%nat, s'. split; [lia|done].
    + destruct (Hread (set_stack s t (sy_group s) (FPost a PRead :: fs) [])) as (s' & E' & H1 & H2 & H3);
        [apply stack_set_eq|done|]. exists 3%nat, s'. split; [lia|]. split; [|split; [done|split; [done|]]].
      * erewrite solo_goto; [exact E'|exact E|cbn; rewrite Hn, (proj2 (Z.eqb_neq _ _)) by done; reflexivity].
      * rewrite H3. cbn. by rewrite app_nil_r.
Qed.

(** C29. Progress, in every reachable state, of a thread that takes its steps without
    others in between, from wherever it is in one of the functions. In
    m0_sm_asts_run() it returns within five steps for each AST on the queue and three
    more: it runs the AST it has taken off the queue already, if there is one, and
    then exactly those on the queue, last posted first, and leaves the queue empty. In
    m0_sm_ast_cancel() it returns within as many steps as the queue is long and six
    more: the AST is off the queue, and the others are where they were. In
    m0_sm_ast_post() it returns within three steps with its AST at the head of the
    queue. *)
Theorem ast_progress s t :
  reachable (Some s) ->
  exists q, queue (sy_group s) (s_forkq (sy_group s)) q /\
  (forall pc fs, stack s t = FRun pc :: fs ->
     exists n s', (n <= run_late pc + 5 * length q + 1)%nat /\ solo n t s = Some s' /\ stack s' t = fs /\
       s_forkq (sy_group s') = eoq /\ sy_log s' = sy_log s ++ (ERun <$> run_popped pc ++ q)) /\
  (forall a pc fs, stack s t = FCancel a pc :: fs ->
     exists n s', (n <= length q + 6)%nat /\ solo n t s = Some s' /\ stack s' t = fs /\
       queue (sy_group s') (s_forkq (sy_group s')) (filter (fun b => b <> a) q) /\
       sy_log s' = sy_log s ++ (if decide (a ∈ q) then [ECancel a] else [])) /\
  (forall a pc fs, stack s t = FPost a pc :: fs ->
     exists n s', (n <= 3)%nat /\ solo n t s = Some s' /\ stack s' t = fs /\
       queue (sy_group s') (s_forkq (sy_group s')) (a :: q) /\ sy_log s' = sy_log s ++ [EPost a]).
Proof.
  intros (s1 & q & [= <-] & Hinv)%reachable_inv. exists q. split; [apply Hinv|]. split_and!.
  - intros pc fs. by apply solo_run.
  - intros a pc fs. by apply solo_cancel.
  - intros a pc fs E. pose proof (inv_top _ _ Hinv _ _ _ E) as (Ha & Hnin & _).
    eapply solo_post; [done|done|done|apply Hinv].
Qed.

(** m0_sm_group_unlock_rec() with [runast] releases the lock before it runs the
    ASTs, whose first assertion is that the caller holds it: the outermost call
    never returns. *)
Lemma unlock_rec_runast_aborts t g :
  s_nesting g <= 1 -> m0_sm_group_unlock_rec t true g = None.
Proof.
  intros Hn. unfold m0_sm_group_unlock_rec. destruct (m0_mutex_is_locked t g) eqn:Hl; [|done]. cbn.
  zcases; [lia|]. unfold _sm_group_unlock. rewrite Hl. destruct (s_nesting g =? 1); [|done]. done.
Qed.

(** Two threads and two ASTs: thread 1 takes the lock; thread 2 posts AST 10 and
    reads the head of the queue for AST 20. *)
Definition example_steps : list (sys -> sys) :=
  let st t g fs ev := fun s => set_stack s t (g (sy_group s)) fs ev in
  [st 1 (fun g => set_owner g (Some 1) 1) [FRun RRead] [];
   st 2 (fun g => g) [FPost 10 PRead] [];
   st 2 (fun g => set_next g 10 (s_forkq g)) [FPost 10 PCas] [];
   st 2 (fun g => set_forkq g 10) [] [EPost 10];
   st 2 (fun g => g) [FPost 20 PRead] [];
   st 2 (fun g => set_next g 20 (s_forkq g)) [FPost 20 PCas] []].

Definition example_sys : sys := foldl (fun s f => f s) init_sys example_steps.

Lemma post_enabled s t a :
  (forall t' a' pc', FPost a' pc' ∈ stack s t' -> a' <> a) ->
  (forall t' a' pc', FCancel a' pc' ∈ stack s t' -> a' <> a) ->
  client (stack s t) = true -> is_ast a = true -> settled s a -> sa_next (sy_group s) a = Some NULL ->
  step s (Some (set_stack s t (sy_group s) (FPost a PRead :: stack s t) [])).
Proof.
  intros Hp Hc Hcl Ha Hset Hn. pose proof (step_post s t a Hcl Ha Hset) as H.
  rewrite bool_decide_true in H by done. apply H.
  - intros (t' & pc & Hin). by eapply Hp in Hin.
  - intros (t' & pc & Hin). by eapply Hc in Hin.
Qed.

Lemma example_reachable : reachable (Some example_sys).
Proof.
  unfold example_sys, example_steps. cbn [foldl].
  eapply reach_step; [eapply reach_step; [eapply reach_step; [eapply reach_step; [eapply reach_step;
    [eapply reach_step; [apply reach_init|]|]|]|]|]|].
  - exact (step_lock init_sys 1 eq_refl eq_refl).
  - apply (post_enabled _ 2 10); try reflexivity; intros t' a' pc'; rewrite stack_set; case_decide;
      set_solver.
  - eapply (step_goto _ 2 (FPost 10 PRead)); reflexivity.
  - eapply (step_return _ 2 (FPost 10 PCas)); reflexivity.
  - apply (post_enabled _ 2 20); try reflexivity; intros t' a' pc'; rewrite !stack_set; repeat case_decide;
      set_solver.
  - eapply (step_goto _ 2 (FPost 20 PRead)); reflexivity.
Qed.

Lemma ast_queue_invariant_witness :
  exists s1 q, Some example_sys = Some s1 /\ queue (sy_group s1) (s_forkq (sy_group s1)) q.
Proof.
  destruct (ast_queue_invariant (Some example_sys) example_reachable) as (s1 & q & E & Hq & _).
  exists s1, q. split; [exact E|exact Hq].
Defined.

Lemma ast_progress_witness :
  exists n s', (n <= 6)%nat /\ solo n 1 example_sys = Some s' /\
    s_forkq (sy_group s') = eoq /\ sy_log s' = sy_log example_sys ++ [ERun 10].
Proof.
  destruct (ast_progress example_sys 1 example_reachable) as (q & Hq & H & _).
  assert (q = [10]) as ->.
  { destruct q as [|a q]; [vm_compute in Hq; discriminate|]. destruct Hq as (Ha & _ & n & Hn & Hq).
    subst a. vm_compute in Hn. injection Hn as <-. destruct q as [|b q]; [reflexivity|].
    destruct Hq as (Hb & Hast & _). subst b. vm_compute in Hast. discriminate. }
  destruct (H RRead [] eq_refl) as (n & s' & Hn & E & _ & Hf & Hl). exists n, s'.
  split; [exact Hn|]. split; [exact E|]. split; [exact Hf|exact Hl].
Defined.
