(* ===== verification/Sm.v ===== *)
(** * sm: state machines

    src/sm/sm.c: state machine configurations and the transitions of state
    machines.  The call-backs of a configuration are parameters of it: [sd_in]
    and [sd_ex] may change the state [U] of the object the machine is embedded in
    and the return code.  Time stamps, statistics and the channel on which
    transitions are announced are not modelled. *)
From S2P Require Import Prelude.
#[local] Open Scope motr_scope.

(** ** Definitions: configurations *)

Notation M0_SM_MAX_STATES := 64 (only parsing).

Notation M0_SDF_INITIAL := 1 (only parsing).

Notation M0_SDF_FAILURE := 2 (only parsing).

Notation M0_SDF_TERMINAL := 4 (only parsing).

Notation M0_SDF_FINAL := 8 (only parsing).

Notation M0_SM_CONF_MAGIC := 0x33FA151E20D1AC77 (only parsing).

(** A shift by 64 or more is undefined. *)
Definition M0_BITS (i : Z) : option Z :=
  if (0 <=? i) && (i <? 64) then Some (Z.shiftl 1 i) else None.

(** Conversion to [int8_t]. *)
Definition i8 (x : Z) : Z := (x + 128) mod 256 - 128.

Section sm.
Context {U : Type}.

(** [sd_name] is modelled by whether it is not NULL; [sd_in] takes [sm_rc] and
    returns the next state and the new [sm_rc]. *)
Record m0_sm_state_descr := {
  sd_flags : Z;
  sd_name : bool;
  sd_in : option (Z -> U -> Z * Z * U);
  sd_ex : option (Z -> U -> Z * U);
  sd_invariant : option (Z -> Z -> U -> bool);
  sd_allowed : Z;
  sd_trans : list Z
}.

Record m0_sm_trans_descr := { td_cause : bool; td_src : Z; td_tgt : Z }.

Record m0_sm_conf := {
  scf_magic : Z;
  scf_nr_states : Z;
  scf_state : list m0_sm_state_descr;
  scf_trans_nr : Z;
  scf_trans : list m0_sm_trans_descr
}.

Definition state_is_valid (conf : m0_sm_conf) (state : Z) : option bool :=
  if state <? scf_nr_states conf then
    d ← arr_get (scf_state conf) state; Some (sd_name d)
  else Some false.

Definition allows (d : m0_sm_state_descr) (state : Z) : option bool :=
  b ← M0_BITS state; Some (negb (Z.land (sd_allowed d) b =? 0)).

(** The loop body of the second pass; [false] ends it. *)
Definition conf_state_ok (mask : Z) (d : m0_sm_state_descr) : bool :=
  (Z.land (sd_flags d)
     (Z.lnot (Z.lor (Z.lor M0_SDF_INITIAL M0_SDF_FINAL) (Z.lor M0_SDF_FAILURE M0_SDF_TERMINAL))) =? 0) &&
  negb (negb (Z.land (sd_flags d) M0_SDF_TERMINAL =? 0) && negb (sd_allowed d =? 0)) &&
  (Z.land (sd_allowed d) (Z.lnot mask) =? 0).

Definition conf_invariant (conf : m0_sm_conf) : option bool :=
  if M0_SM_MAX_STATES <=? scf_nr_states conf then Some false
  else
    mask ← for_up 0 (scf_nr_states conf) (fun i mask =>
      v ← state_is_valid conf i;
      if (v : bool) then b ← M0_BITS i; Some (Z.lor mask b) else Some mask) 0;
    for_up 0 (scf_nr_states conf) (fun i ok =>
      if negb ok then Some false
      else
        b ← M0_BITS i;
        if Z.land mask b =? 0 then Some true
        else d ← arr_get (scf_state conf) i; Some (conf_state_ok mask d)) true.

Definition m0_sm_conf_is_initialized (conf : m0_sm_conf) : bool := scf_magic conf =? M0_SM_CONF_MAGIC.

Definition with_trans (d : m0_sm_state_descr) (trans : list Z) : m0_sm_state_descr :=
  {| sd_flags := sd_flags d; sd_name := sd_name d; sd_in := sd_in d; sd_ex := sd_ex d;
     sd_invariant := sd_invariant d; sd_allowed := sd_allowed d; sd_trans := trans |}.

Definition trans_get (states : list m0_sm_state_descr) (from to : Z) : option Z :=
  d ← arr_get states from; arr_get (sd_trans d) to.

Definition trans_set (states : list m0_sm_state_descr) (from to v : Z) : option (list m0_sm_state_descr) :=
  d ← arr_get states from;
  trans ← arr_set (sd_trans d) to v;
  arr_set states from (with_trans d trans).

(** The hook m0_sm__conf_init() only prints the configuration. *)
Definition m0_sm_conf_init (conf : m0_sm_conf) : option m0_sm_conf :=
  _ ← M0_ASSERT (negb (m0_sm_conf_is_initialized conf));
  _ ← M0_ASSERT (0 <? scf_trans_nr conf);
  _ ← M0_ASSERT (scf_nr_states conf <? M0_SM_MAX_STATES);
  let nr := scf_nr_states conf in
  states ← for_up 0 nr (fun i states =>
    for_up 0 nr (fun to states => trans_set states i to (i8 (Z.lnot 0))) states) (scf_state conf);
  states ← for_up 0 (scf_trans_nr conf) (fun i states =>
    tr ← arr_get (scf_trans conf) i;
    d ← arr_get states (td_src tr);
    b ← allows d (td_tgt tr);
    _ ← M0_ASSERT b;
    trans_set states (td_src tr) (td_tgt tr) (i8 i)) states;
  _ ← for_up 0 nr (fun i _ =>
    for_up 0 nr (fun to _ =>
      d ← arr_get states i;
      b ← allows d to;
      if (b : bool) then t ← trans_get states i to; M0_ASSERT (negb (t =? Z.lnot 0)) else Some tt) tt) tt;
  Some {| scf_magic := M0_SM_CONF_MAGIC; scf_nr_states := nr; scf_state := states;
          scf_trans_nr := scf_trans_nr conf; scf_trans := scf_trans conf |}.

Definition m0_sm_conf_fini (conf : m0_sm_conf) : option m0_sm_conf :=
  _ ← M0_ASSERT (m0_sm_conf_is_initialized conf);
  Some {| scf_magic := 0; scf_nr_states := scf_nr_states conf; scf_state := scf_state conf;
          scf_trans_nr := scf_trans_nr conf; scf_trans := scf_trans conf |}.

Definition m0_sm_conf_extend (base sub : list m0_sm_state_descr) (nr : Z)
  : option (list m0_sm_state_descr) :=
  for_up 0 nr (fun i sub =>
    s ← arr_get sub i;
    b ← arr_get base i;
    if negb (sd_name s) && sd_name b then arr_set sub i b else Some sub) sub.

(** ** Definitions: machines *)

(** The machine, the lock of its group and the object it is embedded in. *)
Record m0_sm := {
  sm_state : Z;
  sm_rc : Z;
  sm_locked : bool;
  sm_invariant_chk_off : bool;
  sm_stats : option Z;
  sm_user : U
}.

Definition sm_with (mach : m0_sm) (state rc : Z) (u : U) : m0_sm :=
  {| sm_state := state; sm_rc := rc; sm_locked := sm_locked mach;
     sm_invariant_chk_off := sm_invariant_chk_off mach; sm_stats := sm_stats mach; sm_user := u |}.

Definition state_get (conf : m0_sm_conf) (state : Z) : option m0_sm_state_descr :=
  v ← state_is_valid conf state;
  _ ← M0_ASSERT v;
  arr_get (scf_state conf) state.

Definition sm_state_descr (conf : m0_sm_conf) (mach : m0_sm) : option m0_sm_state_descr :=
  state_get conf (sm_state mach).

Definition sm_invariant0 (conf : m0_sm_conf) (mach : m0_sm) : option bool :=
  sd ← sm_state_descr conf mach;
  Some (match sd_invariant sd with
        | Some f => f (sm_state mach) (sm_rc mach) (sm_user mach)
        | None => true
        end).

Definition m0_sm_invariant (conf : m0_sm_conf) (mach : m0_sm) : option bool :=
  if sm_invariant_chk_off mach then Some true
  else if negb (sm_locked mach) then Some false
  else sm_invariant0 conf mach.

Definition m0_sm_init (conf : m0_sm_conf) (state : Z) (locked : bool) (u : U) : option m0_sm :=
  b ← conf_invariant conf;
  _ ← M0_ASSERT b;
  d ← arr_get (scf_state conf) state;
  _ ← M0_ASSERT (negb (Z.land (sd_flags d) M0_SDF_INITIAL =? 0));
  let mach := {| sm_state := state; sm_rc := 0; sm_locked := locked; sm_invariant_chk_off := false;
                 sm_stats := None; sm_user := u |} in
  b ← sm_invariant0 conf mach;
  _ ← M0_ASSERT b;
  Some mach.

Definition m0_sm_fini (conf : m0_sm_conf) (mach : m0_sm) : option () :=
  b ← sm_invariant0 conf mach;
  _ ← M0_ASSERT b;
  d ← sm_state_descr conf mach;
  M0_ASSERT (negb (Z.land (sd_flags d) (Z.lor M0_SDF_TERMINAL M0_SDF_FINAL) =? 0)).

(** One iteration of the loop: the machine afterwards and the next state. *)
Definition state_set_step (conf : m0_sm_conf) (mach : m0_sm) (state : Z) : option (m0_sm * Z) :=
  sd ← sm_state_descr conf mach;
  trans ← arr_get (sd_trans sd) state;
  b ← allows sd state;
  _ ← M0_ASSERT b;
  let mach := match sd_ex sd with
              | Some ex => let '(rc, u) := ex (sm_rc mach) (sm_user mach) in sm_with mach (sm_state mach) rc u
              | None => mach
              end in
  _ ← (match sm_stats mach with
       | Some as_nr => M0_ASSERT ((as_nr =? 0) || (u32 trans <? as_nr))
       | None => Some tt
       end);
  let mach := sm_with mach state (sm_rc mach) (sm_user mach) in
  b ← m0_sm_invariant conf mach;
  _ ← M0_ASSERT b;
  sd ← sm_state_descr conf mach;
  match sd_in sd with
  | Some f =>
      let '(next, rc, u) := f (sm_rc mach) (sm_user mach) in
      Some (sm_with mach (sm_state mach) rc u, next)
  | None => Some (mach, -1)
  end.

Fixpoint state_set_loop (fuel : nat) (conf : m0_sm_conf) (mach : m0_sm) (state : Z) : option m0_sm :=
  match fuel with
  | O => None
  | S fuel =>
      '(mach, next) ← state_set_step conf mach state;
      if 0 <=? next then state_set_loop fuel conf mach next else Some mach
  end.

Definition state_set (fuel : nat) (conf : m0_sm_conf) (mach : m0_sm) (state rc : Z) : option m0_sm :=
  let mach := sm_with mach (sm_state mach) rc (sm_user mach) in
  mach ← state_set_loop fuel conf mach state;
  b ← m0_sm_invariant conf mach;
  _ ← M0_ASSERT b;
  Some mach.

Definition m0_sm_state_set (fuel : nat) (conf : m0_sm_conf) (mach : m0_sm) (state : Z) : option m0_sm :=
  b ← m0_sm_invariant conf mach;
  _ ← M0_ASSERT b;
  state_set fuel conf mach state 0.

Definition m0_sm_state_and_rc_set (fuel : nat) (conf : m0_sm_conf) (mach : m0_sm) (state rc : Z)
  : option m0_sm :=
  b ← m0_sm_invariant conf mach;
  _ ← M0_ASSERT b;
  state_set fuel conf mach state rc.

Definition m0_sm_fail (fuel : nat) (conf : m0_sm_conf) (mach : m0_sm) (fail_state rc : Z) : option m0_sm :=
  _ ← M0_ASSERT (negb (rc =? 0));
  b ← m0_sm_invariant conf mach;
  _ ← M0_ASSERT b;
  _ ← M0_ASSERT (sm_rc mach =? 0);
  d ← state_get conf fail_state;
  _ ← M0_ASSERT (negb (Z.land (sd_flags d) M0_SDF_FAILURE =? 0));
  state_set fuel conf mach fail_state rc.

Definition m0_sm_move (fuel : nat) (conf : m0_sm_conf) (mach : m0_sm) (rc state : Z) : option m0_sm :=
  if rc =? 0 then m0_sm_state_set fuel conf mach state else m0_sm_fail fuel conf mach state rc.

End sm.
Arguments m0_sm_state_descr : clear implicits.
Arguments m0_sm_conf : clear implicits.
Arguments m0_sm : clear implicits.

(** ** Lemmas: configurations *)

Section lemmas.
Context {U : Type}.
Implicit Types (conf : m0_sm_conf U) (d : m0_sm_state_descr U) (mach : m0_sm U).

Lemma land_bit a i : 0 <= i -> negb (Z.land a (Z.shiftl 1 i) =? 0) = Z.testbit a i.
Proof.
  intros Hi. destruct (Z.testbit a i) eqn:E.
  - apply negb_true_iff, Z.eqb_neq. intros H. apply (f_equal (fun x => Z.testbit x i)) in H.
    rewrite Z.land_spec, Z.shiftl_spec, Z.sub_diag, Z.bits_0, E in H by lia. done.
  - apply negb_false_iff, Z.eqb_eq, Z.bits_inj'. intros j Hj.
    rewrite Z.land_spec, Z.shiftl_spec, Z.bits_0 by lia. destruct (Z.eq_dec j i) as [->|Hne]; [by rewrite E|].
    destruct (Z.testbit a j); [|done]. cbn [andb]. destruct (Z.lt_trichotomy j i) as [?|[?|?]]; [|lia|].
    + by rewrite Z.testbit_neg_r by lia.
    + apply Z.bits_above_log2; [lia|]. change (Z.log2 1) with 0. lia.
Qed.

Lemma allows_ok d i : 0 <= i < 64 -> allows d i = Some (Z.testbit (sd_allowed d) i).
Proof.
  intros Hi. unfold allows, M0_BITS. rewrite (proj2 (andb_true_iff _ _))
    by (split; [apply Z.leb_le|apply Z.ltb_lt]; lia).
  cbn. by rewrite land_bit by lia.
Qed.

Lemma allows_Some d i b : allows d i = Some b -> 0 <= i < 64 /\ b = Z.testbit (sd_allowed d) i.
Proof.
  intros H. assert (0 <= i < 64) as Hi.
  { unfold allows, M0_BITS in H. destruct (_ && _) eqn:E; [boolp; lia|done]. }
  rewrite allows_ok in H by done. by injection H as <-.
Qed.

(** A state of the machine. *)
Definition valid_state conf (s : Z) : Prop :=
  exists d, 0 <= s < scf_nr_states conf /\ arr_get (scf_state conf) s = Some d /\ sd_name d = true.

Definition allowed_from conf (s t : Z) : Prop :=
  exists d, arr_get (scf_state conf) s = Some d /\ Z.testbit (sd_allowed d) t = true.

Definition terminal conf (s : Z) : Prop :=
  exists d, arr_get (scf_state conf) s = Some d /\ Z.land (sd_flags d) M0_SDF_TERMINAL <> 0.

Lemma state_get_Some conf s d :
  state_get conf s = Some d -> valid_state conf s /\ arr_get (scf_state conf) s = Some d.
Proof.
  unfold state_get, state_is_valid. zcases; [|done].
  destruct (arr_get (scf_state conf) s) as [d'|] eqn:E; [|done].
  cbn. destruct (sd_name d') eqn:Hn; [|done]. cbn. intros [= <-]. split; [|done]. exists d'.
  apply arr_get_range in E as Hr. split; [lia|done].
Qed.

Lemma state_get_ok conf s d :
  valid_state conf s -> arr_get (scf_state conf) s = Some d -> state_get conf s = Some d.
Proof.
  intros (d' & Hs & E & Hn) E'. rewrite E in E'. injection E' as <-. unfold state_get, state_is_valid.
  zcases; [|lia]. rewrite E. cbn. rewrite Hn. cbn. done.
Qed.

Lemma valid_mask_ok conf :
  0 <= scf_nr_states conf < 64 -> Z.of_nat (length (scf_state conf)) = scf_nr_states conf ->
  exists mask, for_up 0 (scf_nr_states conf) (fun i mask =>
      v ← state_is_valid conf i;
      if (v : bool) then b ← M0_BITS i; Some (Z.lor mask b) else Some mask) 0 = Some mask /\
    forall s, 0 <= s -> (Z.testbit mask s = true <-> valid_state conf s).
Proof.
  intros Hnr Hlen.
  destruct (for_up_total (fun i mask => forall s, 0 <= s ->
    (Z.testbit mask s = true <-> valid_state conf s /\ s < i))
    (fun i mask => v ← state_is_valid conf i;
       if (v : bool) then b ← M0_BITS i; Some (Z.lor mask b) else Some mask) 0 (scf_nr_states conf) 0)
    as (mask & E & HI).
  - lia.
  - intros s Hs. rewrite Z.bits_0. split; [done|]. lia.
  - intros j mask Hj HI. unfold state_is_valid. zcases; [|lia].
    destruct (arr_get_is_Some (scf_state conf) j) as [d Hd]; [lia|]. rewrite Hd. cbn.
    unfold M0_BITS. rewrite (proj2 (andb_true_iff _ _)) by (split; [apply Z.leb_le|apply Z.ltb_lt]; lia). cbn.
    assert (valid_state conf j <-> sd_name d = true) as Hv.
    { split; [intros (d' & _ & E & ?)|intros; exists d; split; [lia|done]]. congruence. }
    destruct (sd_name d) eqn:Hn; (eexists; split; [done|]).
    + intros s Hs. rewrite Z.lor_spec, orb_true_iff, HI by done. rewrite Z.shiftl_spec by lia.
      split.
      * intros [[? ?]|Hb]; [split; [done|lia]|].
        destruct (Z.eq_dec s j) as [->|]; [split; [by apply Hv|lia]|].
        exfalso. destruct (Z.lt_ge_cases s j); [by rewrite Z.testbit_neg_r in Hb by lia|].
        rewrite Z.bits_above_log2 in Hb; [done|lia|]. change (Z.log2 1) with 0. lia.
      * intros [? ?]. destruct (Z.eq_dec s j) as [->|];
          [right; by rewrite Z.sub_diag|left; split; [done|lia]].
    + intros s Hs. rewrite HI by done. split; intros [Hvs ?]; (split; [done|]); [lia|].
      destruct (Z.eq_dec s j) as [->|]; [|lia]. exfalso. by apply Hv in Hvs.
  - exists mask. split; [done|]. intros s Hs. rewrite HI by done. split; [by intros [? _]|].
    intros Hv. split; [done|]. destruct Hv as (? & ? & _); lia.
Qed.

(** What the configuration invariant says about transitions. *)
Lemma conf_invariant_allowed conf s t :
  conf_invariant conf = Some true -> 0 <= scf_nr_states conf ->
  Z.of_nat (length (scf_state conf)) = scf_nr_states conf -> valid_state conf s -> 0 <= t ->
  allowed_from conf s t -> valid_state conf t /\ ~ terminal conf s.
Proof.
  intros Hinv Hnr Hlen Hs Ht (d & Hd & Hbit). unfold conf_invariant in Hinv.
  change M0_SM_MAX_STATES with 64 in Hinv. destruct (Z.leb_spec 64 (scf_nr_states conf)); [done|].
  destruct (valid_mask_ok conf) as (mask & Emask & Hmask); [lia|done|]. rewrite Emask in Hinv. cbn in Hinv.
  set (body := fun i ok => _) in Hinv.
  assert (conf_state_ok mask d = true) as Hok.
  { assert (true = true -> forall i di, 0 <= i < scf_nr_states conf -> valid_state conf i ->
      arr_get (scf_state conf) i = Some di -> conf_state_ok mask di = true) as Hall.
    { refine (for_up_partial (fun j ok => ok = true -> forall i di, 0 <= i < j -> valid_state conf i ->
        arr_get (scf_state conf) i = Some di -> conf_state_ok mask di = true) body 0 _ true true _ _ _ Hinv);
          [lia|lia|].
      intros j ok ok' Hj HI Hb -> i di Hi Hvi Hdi. unfold body in Hb. destruct ok; [|done]. cbn in Hb.
      destruct (Z.eq_dec i j) as [->|]; [|apply (HI eq_refl i); [lia|done|done]].
      unfold M0_BITS in Hb. rewrite (proj2 (andb_true_iff _ _)) in Hb
        by (split; [apply Z.leb_le|apply Z.ltb_lt]; lia).
      cbn in Hb. assert (negb (Z.land mask (Z.shiftl 1 j) =? 0) = true) as Hm.
      { rewrite land_bit by lia. apply Hmask; [lia|done]. }
      apply negb_true_iff in Hm. rewrite Hm, Hdi in Hb. cbn in Hb. by injection Hb. }
    destruct Hs as (d' & Hrange & Hd' & Hn). rewrite Hd in Hd'. injection Hd' as <-.
    apply (Hall eq_refl s); [done|exists d; by split|done]. }
  unfold conf_state_ok in Hok. apply andb_prop in Hok as [[_ Hterm]%andb_prop Hmk]. split.
  - apply Hmask; [done|]. apply Z.eqb_eq in Hmk. apply (f_equal (fun x => Z.testbit x t)) in Hmk.
    rewrite Z.land_spec, Z.lnot_spec, Z.bits_0, Hbit in Hmk by done. by destruct (Z.testbit mask t).
  - intros (d' & Hd' & Hflag). rewrite Hd in Hd'. injection Hd' as <-. apply negb_true_iff in Hterm.
    rewrite (proj2 (Z.eqb_neq _ _)) in Hterm by done. cbn in Hterm. apply negb_false_iff, Z.eqb_eq in Hterm.
    rewrite Hterm in Hbit. by rewrite Z.bits_0 in Hbit.
Qed.

(** ** Lemmas: transitions *)

(** The machine goes from [s] through the states of the list. *)
Inductive sm_path conf : Z -> list Z -> Prop :=
  | path_end s : sm_path conf s []
  | path_step s t ts :
      valid_state conf s -> allowed_from conf s t -> valid_state conf t -> sm_path conf t ts ->
      sm_path conf s (t :: ts).

Lemma state_set_step_Some conf mach st mach' next :
  state_set_step conf mach st = Some (mach', next) ->
  valid_state conf (sm_state mach) /\ allowed_from conf (sm_state mach) st /\ valid_state conf st /\
  sm_state mach' = st.
Proof.
  unfold state_set_step, sm_state_descr. destruct (state_get conf (sm_state mach)) as [sd|] eqn:E; [|done].
  apply state_get_Some in E as [Hv Hd]. cbn [mbind option_bind].
  destruct (arr_get (sd_trans sd) st) as [tr|]; [|done]. cbn [mbind option_bind].
  destruct (allows sd st) as [b|] eqn:Ha; [|done]. apply allows_Some in Ha as [Hst ->].
  cbn [mbind option_bind].
  destruct (Z.testbit (sd_allowed sd) st) eqn:Hb; [|done]. cbn [mbind option_bind M0_ASSERT].
  set (mach1 := match sd_ex sd with Some _ => _ | None => _ end).
  destruct (match sm_stats mach1 with Some _ => _ | None => _ end); [|done]. cbn [mbind option_bind].
  destruct (m0_sm_invariant conf _) as [[]|]; [|done..]. cbn [mbind option_bind M0_ASSERT sm_state sm_with].
  destruct (state_get conf st) as [sd'|] eqn:E'; [|done]. apply state_get_Some in E' as [Hv' _].
  cbn [mbind option_bind]. intros H. split; [done|]. split; [by exists sd|]. split; [done|].
  destruct (sd_in sd'); [destruct (p _ _) as [[? ?] ?]|]; by injection H as <- <-.
Qed.

Lemma state_set_loop_path fuel conf mach st mach' :
  state_set_loop fuel conf mach st = Some mach' ->
  exists ts, sm_path conf (sm_state mach) (st :: ts) /\ last (st :: ts) = Some (sm_state mach').
Proof.
  revert mach st. induction fuel as [|fuel IH]; intros mach st; [done|]. cbn [state_set_loop].
  destruct (state_set_step conf mach st) as [[mach1 next]|] eqn:E; [|done]. cbn [mbind option_bind].
  apply state_set_step_Some in E as (Hv & Ha & Hvt & Hs). zcases.
  - intros H'. apply IH in H' as (ts & Hp & Hl). exists (next :: ts). rewrite Hs in Hp.
    split; [by apply path_step|done].
  - intros [= <-]. exists []. split; [apply path_step; [done|done|done|constructor]|]. cbn. by rewrite Hs.
Qed.

Lemma state_set_path fuel conf mach st rc mach' :
  state_set fuel conf mach st rc = Some mach' ->
  exists ts, sm_path conf (sm_state mach) (st :: ts) /\ last (st :: ts) = Some (sm_state mach').
Proof.
  unfold state_set. intros (mach1 & H1 & H2)%bind_Some. apply state_set_loop_path in H1.
  destruct (m0_sm_invariant conf mach1) as [[]|]; [|done..]. by injection H2 as <-.
Qed.

(** No state on the way is terminal but the last. *)
Lemma path_not_terminal conf s ts :
  conf_invariant conf = Some true -> 0 <= scf_nr_states conf ->
  Z.of_nat (length (scf_state conf)) = scf_nr_states conf ->
  sm_path conf s ts -> forall t, t ∈ removelast (s :: ts) -> ~ terminal conf t.
Proof.
  intros Hinv Hnr Hlen Hp. induction Hp as [s|s t ts Hs Ha Ht Hp IH]; intros x; [cbn; set_solver|].
  change (removelast (s :: t :: ts)) with (s :: removelast (t :: ts)).
  intros [->|Hx]%elem_of_cons; [|by apply IH].
  apply (conf_invariant_allowed conf s t); try done. destruct Ht as (? & ? & _); lia.
Qed.

(** What the call-backs promise: a chained transition is an allowed one, chains
    end ([rank] decreases), and the invariants of the states hold. *)
Record callbacks_ok conf (rank : Z -> nat) : Prop := {
  cb_in s d f rc u next rc' u' :
    arr_get (scf_state conf) s = Some d -> sd_in d = Some f -> f rc u = (next, rc', u') ->
    next < 0 \/ allowed_from conf s next /\ (rank next < rank s)%nat;
  cb_invariant s d f rc u :
    arr_get (scf_state conf) s = Some d -> sd_invariant d = Some f -> f s rc u = true
}.

Section runs.
Context conf (rank : Z -> nat).
Hypothesis Hconf : conf_invariant conf = Some true.
Hypothesis Hnr : 0 <= scf_nr_states conf.
Hypothesis Hlen : Z.of_nat (length (scf_state conf)) = scf_nr_states conf.
Hypothesis Htrans : forall d, d ∈ scf_state conf -> length (sd_trans d) = 64%nat.
Hypothesis Hcb : callbacks_ok conf rank.

(** A machine in use. *)
Definition mach_ok mach : Prop :=
  valid_state conf (sm_state mach) /\ sm_locked mach = true /\ sm_stats mach = None.

Lemma nr_states_lt : scf_nr_states conf < 64.
Proof.
  unfold conf_invariant in Hconf. change M0_SM_MAX_STATES with 64 in Hconf.
  destruct (Z.leb_spec 64 (scf_nr_states conf)); [done|lia].
Qed.

Lemma invariant_ok mach : mach_ok mach -> m0_sm_invariant conf mach = Some true.
Proof.
  intros (Hv & Hl & _). unfold m0_sm_invariant, sm_invariant0, sm_state_descr. rewrite Hl.
  destruct (sm_invariant_chk_off mach); [done|]. cbn [negb]. pose proof Hv as (d & _ & Hd & _).
  rewrite (state_get_ok conf _ d Hv Hd). cbn. destruct (sd_invariant d) as [f|] eqn:Ef; [|done].
  by rewrite (cb_invariant _ _ Hcb _ _ _ _ _ Hd Ef).
Qed.

Lemma state_set_step_ok mach st :
  mach_ok mach -> allowed_from conf (sm_state mach) st -> 0 <= st ->
  exists mach' next, state_set_step conf mach st = Some (mach', next) /\ mach_ok mach' /\
    sm_state mach' = st /\ (next < 0 \/ allowed_from conf st next /\ (rank next < rank st)%nat).
Proof.
  intros (Hv & Hl & Hst) Ha Hge. destruct (conf_invariant_allowed conf (sm_state mach) st) as [Hvt _];
    try done.
  pose proof nr_states_lt as Hlt. pose proof Hvt as (dt & Hr & Hdt & _). destruct Ha as (d & Hd & Hbit).
  unfold state_set_step, sm_state_descr. rewrite (state_get_ok conf _ d Hv Hd). cbn [mbind option_bind].
  assert (d ∈ scf_state conf) as Hin by (apply arr_get_Some in Hd as [_ Hd]; by eapply list_elem_of_lookup_2).
  destruct (arr_get_is_Some (sd_trans d) st) as [tr ->]; [rewrite (Htrans d Hin); lia|].
  cbn [mbind option_bind].
  rewrite allows_ok, Hbit by lia. cbn [mbind option_bind M0_ASSERT].
  set (mach1 := match sd_ex d with Some _ => _ | None => _ end).
  assert (sm_stats mach1 = None /\ sm_locked mach1 = true) as [-> Hl1].
  { unfold mach1. destruct (sd_ex d); [destruct (p _ _)|]; done. }
  cbn [mbind option_bind].
  assert (mach_ok (sm_with mach1 st (sm_rc mach1) (sm_user mach1))) as Hok.
  { split; [done|]. split; [done|]. unfold mach1. destruct (sd_ex d); [destruct (p _ _)|]; done. }
  rewrite (invariant_ok _ Hok). cbn [mbind option_bind M0_ASSERT]. cbn [sm_state sm_with].
  rewrite (state_get_ok conf st dt Hvt Hdt). cbn [mbind option_bind].
  destruct (sd_in dt) as [f|] eqn:Ef.
  - destruct (f _ _) as [[next rc'] u'] eqn:Er. eexists _, _. split; [done|]. split; [done|]. split; [done|].
    by eapply (cb_in _ _ Hcb).
  - eexists _, _. split; [done|]. split; [done|]. split; [done|]. lia.
Qed.

Lemma state_set_loop_ok fuel : forall mach st,
  mach_ok mach -> allowed_from conf (sm_state mach) st -> 0 <= st -> (rank st < fuel)%nat ->
  exists mach', state_set_loop fuel conf mach st = Some mach' /\ mach_ok mach'.
Proof.
  induction fuel as [|fuel IH]; intros mach st Hok Ha Hge Hr; [lia|]. cbn [state_set_loop].
  destruct (state_set_step_ok mach st Hok Ha Hge) as (mach1 & next & -> & Hok1 & Hs & Hnext).
  cbn [mbind option_bind].
  zcases; [|by exists mach1]. destruct Hnext as [|[Ha1 Hr1]]; [lia|]. apply IH; [done|by rewrite Hs|done|lia].
Qed.

End runs.
End lemmas.

(** C30. The states a machine goes through: whenever m0_sm_state_set(),
    m0_sm_state_and_rc_set(), m0_sm_fail() or m0_sm_move() returns, the machine
    went from its state, through the requested one and those of the chained
    transitions, along transitions the configuration allows, over valid states,
    and never out of a terminal one.  If the call-backs keep their promises (chained
    transitions are allowed and end, state invariants hold), an allowed transition
    by m0_sm_state_set() of a machine under its lock, without statistics, always
    returns. *)
Theorem sm_transitions {U} (conf : m0_sm_conf U) (mach : m0_sm U) st :
  conf_invariant conf = Some true -> 0 <= scf_nr_states conf ->
  Z.of_nat (length (scf_state conf)) = scf_nr_states conf ->
  (forall fuel rc mach',
     m0_sm_state_set fuel conf mach st = Some mach' \/
     m0_sm_state_and_rc_set fuel conf mach st rc = Some mach' \/
     m0_sm_fail fuel conf mach st rc = Some mach' \/ m0_sm_move fuel conf mach rc st = Some mach' ->
     exists ts, sm_path conf (sm_state mach) (st :: ts) /\ last (st :: ts) = Some (sm_state mach') /\
       forall t, t ∈ removelast (sm_state mach :: st :: ts) -> ~ terminal conf t) /\
  (forall rank, (forall d, d ∈ scf_state conf -> length (sd_trans d) = 64%nat) -> callbacks_ok conf rank ->
     mach_ok conf mach -> 0 <= st -> allowed_from conf (sm_state mach) st ->
     exists mach', m0_sm_state_set (S (rank st)) conf mach st = Some mach' /\ mach_ok conf mach').
Proof.
  intros Hconf Hnr Hlen. split.
  - intros fuel rc mach' Hrun.
    assert (exists rc, state_set fuel conf mach st rc = Some mach') as [rc' Hset].
    { unfold m0_sm_move, m0_sm_fail, m0_sm_state_set, m0_sm_state_and_rc_set in Hrun.
      assert (forall x, (b ← m0_sm_invariant conf mach; _ ← M0_ASSERT b; x) = Some mach' -> x = Some mach')
        as Hx.
      { intros x. by destruct (m0_sm_invariant conf mach) as [[]|]. }
      assert ((_ ← M0_ASSERT (negb (rc =? 0)); b ← m0_sm_invariant conf mach; _ ← M0_ASSERT b;
          _ ← M0_ASSERT (sm_rc mach =? 0); d ← state_get conf st;
          _ ← M0_ASSERT (negb (Z.land (sd_flags d) M0_SDF_FAILURE =? 0));
          state_set fuel conf mach st rc) = Some mach' -> state_set fuel conf mach st rc = Some mach') as Hf.
      { destruct (negb (rc =? 0)); [|done]. cbn [mbind option_bind M0_ASSERT]. intros H%Hx.
        destruct (sm_rc mach =? 0); [|done]. destruct (state_get conf st) as [d|]; [|done]. cbn in H.
        by destruct (negb (Z.land (sd_flags d) M0_SDF_FAILURE =? 0)). }
      destruct Hrun as [H%Hx|[H%Hx|[H%Hf|H]]]; eauto.
      destruct (rc =? 0); [apply Hx in H|apply Hf in H]; eauto. }
    apply state_set_path in Hset as (ts & Hp & Hl). exists ts. split; [done|]. split; [done|].
    by apply path_not_terminal.
  - intros rank Htrans Hcb Hok Hge Ha. unfold m0_sm_state_set, state_set.
    rewrite (invariant_ok conf rank Hcb mach Hok). cbn [mbind option_bind M0_ASSERT].
    set (mach1 := sm_with mach (sm_state mach) 0 (sm_user mach)). assert (mach_ok conf mach1) as Hok1 by done.
    destruct (state_set_loop_ok conf rank Hconf Hnr Hlen Htrans Hcb (S (rank st)) mach1 st Hok1 Ha Hge)
      as (mach' & -> & Hok'); [lia|]. cbn [mbind option_bind].
    rewrite (invariant_ok conf rank Hcb mach' Hok'). by exists mach'.
Qed.
(** ** Lemmas: initialisation of configurations *)

Section conf_init.
Context {U : Type}.
Implicit Types (st : list (m0_sm_state_descr U)) (conf : m0_sm_conf U).

(** Only the transition indices differ. *)
Definition static st st' : Prop :=
  Forall2 (fun d d' => d' = with_trans d (sd_trans d') /\ length (sd_trans d') = length (sd_trans d)) st st'.

Lemma static_refl st : static st st.
Proof. apply Forall_Forall2_diag, Forall_forall. intros [] _. done. Qed.

Lemma static_trans st1 st2 st3 : static st1 st2 -> static st2 st3 -> static st1 st3.
Proof.
  intros H1. revert st3. induction H1 as [|d1 d2 st1 st2 [E1 L1] _ IH]; intros st3 H2; inversion H2
    as [|? d3 ? ? [E2 L2]]; subst.
  - constructor.
  - constructor; [|by apply IH]. destruct d1, d2, d3. unfold with_trans in *. cbn in *.
    split; [congruence|lia].
Qed.

Lemma static_get st st' i d' :
  static st st' -> arr_get st' i = Some d' -> exists d, arr_get st i = Some d /\ sd_allowed d' = sd_allowed d.
Proof.
  intros Hs [Hi Hd]%arr_get_Some. destruct (Forall2_lookup_r _ _ _ _ _ Hs Hd) as (d & Hd' & -> & _).
  exists d. split; [by apply arr_get_Some|done].
Qed.

Lemma static_length st st' : static st st' -> length st' = length st.
Proof. intros H. symmetry. by eapply Forall2_length. Qed.

Lemma static_full st st' :
  static st st' -> Forall (fun d => length (sd_trans d) = 64%nat) st ->
  Forall (fun d => length (sd_trans d) = 64%nat) st'.
Proof.
  intros Hs Hf. apply Forall_lookup. intros i d' Hd'.
  destruct (Forall2_lookup_r _ _ _ _ _ Hs Hd') as (d & Hd & _ & ->).
  by eapply (Forall_lookup_1 _ _ i d) in Hf.
Qed.

Lemma trans_set_ok st from to v :
  Forall (fun d => length (sd_trans d) = 64%nat) st ->
  0 <= from < Z.of_nat (length st) -> 0 <= to < 64 ->
  exists st', trans_set st from to v = Some st' /\ static st st' /\
    forall f t, trans_get st' f t = if (f =? from) && (t =? to) then Some v else trans_get st f t.
Proof.
  intros Hfull Hf Ht. unfold trans_set, trans_get. destruct (arr_get_is_Some st from Hf) as [d Hd].
  rewrite Hd.
  cbn [mbind option_bind]. pose proof Hd as [_ Hl]%arr_get_Some.
  pose proof (Forall_lookup_1 _ _ _ _ Hfull Hl) as Hlen. cbn in Hlen.
  rewrite arr_set_ok by lia. cbn [mbind option_bind]. rewrite arr_set_ok by done. eexists. split; [done|].
  split.
  - apply Forall2_same_length_lookup. split; [by rewrite length_insert|]. intros i x y Hx Hy.
    destruct (decide (i = Z.to_nat from)) as [->|].
    + rewrite list_lookup_insert_eq in Hy by lia. injection Hy as <-. rewrite Hl in Hx. injection Hx as <-.
      cbn. by rewrite length_insert.
    + rewrite list_lookup_insert_ne in Hy by done. assert (x = y) as <- by congruence. by destruct x.
  - intros f t. rewrite arr_get_insert by done. rewrite Z.eqb_sym. destruct (Z.eqb_spec f from) as [->|].
    + cbn [mbind option_bind sd_trans with_trans andb]. rewrite arr_get_insert by lia. rewrite Z.eqb_sym, Hd.
      by destruct (t =? to).
    + done.
Qed.

(** The first loop forgets all indices. *)
Lemma clear_loop_ok st nr :
  Forall (fun d => length (sd_trans d) = 64%nat) st -> Z.of_nat (length st) = nr -> nr < 64 ->
  exists st', for_up 0 nr (fun i st => for_up 0 nr (fun to st => trans_set st i to (i8 (Z.lnot 0))) st) st =
    Some st' /\ static st st' /\
    forall f t, 0 <= f < nr -> 0 <= t < nr -> trans_get st' f t = Some (-1).
Proof.
  intros Hfull Hlen Hnr.
  edestruct (for_up_total (fun i s => static st s /\
    forall f t, 0 <= f < i -> 0 <= t < nr -> trans_get s f t = Some (-1))
    (fun i st => for_up 0 nr (fun to st => trans_set st i to (i8 (Z.lnot 0))) st) 0 nr st)
      as (st' & E & Hs & HI).
  - lia.
  - split; [apply static_refl|lia].
  - intros j s Hj [Hs HI].
    destruct (for_up_total (fun k s1 => static st s1 /\
      (forall f t, 0 <= f < j -> 0 <= t < nr -> trans_get s1 f t = Some (-1)) /\
      forall t, 0 <= t < k -> trans_get s1 j t = Some (-1))
      (fun to st => trans_set st j to (i8 (Z.lnot 0))) 0 nr s) as (s' & E & Hs' & HI1 & HI2).
    + lia.
    + split; [done|]. split; [done|lia].
    + intros k s1 Hk (Hs1 & H1 & H2). pose proof (static_length _ _ Hs1) as Hl1.
      destruct (trans_set_ok s1 j k (i8 (Z.lnot 0))) as (s2 & -> & Hs2 & Hg);
        [by eapply static_full|lia|lia|].
      exists s2. split; [done|]. split; [by eapply static_trans|]. split.
      * intros f t Hf Ht. rewrite Hg, (proj2 (Z.eqb_neq f j)) by lia. by apply H1.
      * intros t Ht. rewrite Hg, Z.eqb_refl. cbn [andb]. zcases; [done|]. apply H2. lia.
    + exists s'. split; [done|]. split; [done|]. intros f t Hf Ht.
      destruct (Z.eq_dec f j) as [->|]; [by apply HI2|]. apply HI1; [lia|done].
  - by exists st'.
Qed.

Section covers.
Context conf.
Let nr := scf_nr_states conf.
Let trs := scf_trans conf.
Hypothesis Hlen : Z.of_nat (length (scf_state conf)) = nr.
Hypothesis Hfull : Forall (fun d => length (sd_trans d) = 64%nat) (scf_state conf).
Hypothesis Hnr : nr < 64.
Hypothesis Htrs : Z.of_nat (length trs) = scf_trans_nr conf.
Hypothesis Hfit : scf_trans_nr conf <= 128.
Hypothesis Hrange : Forall (fun tr => 0 <= td_src tr < nr /\ 0 <= td_tgt tr < nr) trs.

(** The transition array lists exactly the allowed transitions. *)
Definition covers : Prop :=
  Forall (fun tr => allowed_from conf (td_src tr) (td_tgt tr)) trs /\
  forall f t, 0 <= f < nr -> 0 <= t < nr -> allowed_from conf f t ->
    exists tr, tr ∈ trs /\ td_src tr = f /\ td_tgt tr = t.

(** The indices after the first [i] transitions were entered. *)
Definition entered (i : Z) st : Prop :=
  static (scf_state conf) st /\
  forall f t, 0 <= f < nr -> 0 <= t < nr ->
    trans_get st f t = Some (-1) \/
    exists j tr, 0 <= j < i /\ trans_get st f t = Some j /\ arr_get trs j = Some tr /\
      td_src tr = f /\ td_tgt tr = t.

Lemma trans_range i tr : arr_get trs i = Some tr -> 0 <= td_src tr < nr /\ 0 <= td_tgt tr < nr.
Proof. intros [_ H]%arr_get_Some. by eapply (Forall_lookup_1 _ _ _ _ Hrange) in H. Qed.

Lemma static_allowed st i d :
  static (scf_state conf) st -> arr_get st i = Some d ->
  forall t, Z.testbit (sd_allowed d) t = true <-> allowed_from conf i t.
Proof.
  intros Hs Hd t. destruct (static_get _ _ _ _ Hs Hd) as (d0 & Hd0 & ->). split; [by exists d0|].
  intros (d1 & Hd1 & Hb). congruence.
Qed.

(** Entering one transition. *)
Lemma enter_step i st tr :
  0 <= i < scf_trans_nr conf -> entered i st -> arr_get trs i = Some tr ->
  exists st', trans_set st (td_src tr) (td_tgt tr) (i8 i) = Some st' /\ entered (i + 1) st' /\
    forall f t, trans_get st' f t = Some (-1) -> trans_get st f t = Some (-1) /\
    ~ (td_src tr = f /\ td_tgt tr = t).
Proof.
  intros Hi [Hs He] Htr. pose proof (trans_range _ _ Htr) as [Hsrc Htgt].
  pose proof (static_length _ _ Hs) as Hl.
  destruct (trans_set_ok st (td_src tr) (td_tgt tr) (i8 i)) as (st' & -> & Hs' & Hg);
    [by eapply static_full|lia|lia|].
  assert (i8 i = i) as Hi8 by (unfold i8; rewrite Z.mod_small by lia; lia). rewrite Hi8 in Hg.
  exists st'. split; [done|]. split; [split; [by eapply static_trans|]|].
  - intros f t Hf Ht. rewrite Hg. destruct (Z.eqb_spec f (td_src tr)), (Z.eqb_spec t (td_tgt tr)); cbn [andb];
      try (destruct (He f t Hf Ht) as [|(j & tr' & Hj & ?)];
        [by left|right; exists j, tr'; split; [lia|done]]).
    right. exists i, tr. split; [lia|]. done.
  - intros f t. rewrite Hg. destruct (Z.eqb_spec f (td_src tr)), (Z.eqb_spec t (td_tgt tr)); cbn [andb];
      try (intros ->; split; [done|]; intros [? ?]; congruence). intros [= E]. lia.
Qed.

(** The second loop. *)
Definition enter_body (i : Z) st : option (list (m0_sm_state_descr U)) :=
  tr ← arr_get trs i;
  d ← arr_get st (td_src tr);
  b ← allows d (td_tgt tr);
  _ ← M0_ASSERT b;
  trans_set st (td_src tr) (td_tgt tr) (i8 i).

(** All of the first [i] transitions are allowed and have an index. *)
Definition entered_all (i : Z) st : Prop :=
  entered i st /\
  forall j tr, 0 <= j < i -> arr_get trs j = Some tr ->
    allowed_from conf (td_src tr) (td_tgt tr) /\ trans_get st (td_src tr) (td_tgt tr) <> Some (-1).

Lemma enter_all_step i st st' tr :
  entered_all i st -> entered (i + 1) st' -> arr_get trs i = Some tr ->
  allowed_from conf (td_src tr) (td_tgt tr) ->
  (forall f t, trans_get st' f t = Some (-1) -> trans_get st f t = Some (-1) /\
    ~ (td_src tr = f /\ td_tgt tr = t)) ->
  entered_all (i + 1) st'.
Proof.
  intros [_ Hall] He Htr Ha Hnew. split; [done|]. intros j tr' Hj Htr'.
  destruct (Z.eq_dec j i) as [->|].
  - rewrite Htr in Htr'. injection Htr' as <-. split; [done|]. intros Hx%Hnew. tauto.
  - destruct (Hall j tr') as [? Hne]; [lia|done|]. split; [done|]. intros Hx%Hnew. tauto.
Qed.

Lemma enter_loop_ok st :
  0 <= scf_trans_nr conf -> Forall (fun tr => allowed_from conf (td_src tr) (td_tgt tr)) trs ->
  entered 0 st ->
  exists st', for_up 0 (scf_trans_nr conf) enter_body st = Some st' /\ entered_all (scf_trans_nr conf) st'.
Proof.
  intros Hn Hall H0. apply (for_up_total entered_all); [done|split; [done|lia]|].
  intros i s Hi Hs. destruct (arr_get_is_Some trs i) as [tr Htr]; [lia|]. unfold enter_body. rewrite Htr.
  cbn [mbind option_bind]. pose proof (trans_range _ _ Htr) as [Hsrc Htgt]. pose proof Hs as [[Hst He] _].
  pose proof (static_length _ _ Hst) as Hl.
  destruct (arr_get_is_Some s (td_src tr)) as [d Hd]; [lia|]. rewrite Hd. cbn [mbind option_bind].
  assert (allowed_from conf (td_src tr) (td_tgt tr)) as Ha.
  { pose proof Htr as [_ Hl']%arr_get_Some. by eapply (Forall_lookup_1 _ _ _ _ Hall) in Hl'. }
  rewrite allows_ok, (proj2 (static_allowed _ _ _ Hst Hd _) Ha) by lia. cbn [mbind option_bind M0_ASSERT].
  destruct (enter_step i s tr Hi (proj1 Hs) Htr) as (st' & -> & He' & Hnew). exists st'. split; [done|].
  by eapply enter_all_step.
Qed.

Lemma enter_loop_inv st st' :
  0 <= scf_trans_nr conf -> entered 0 st -> for_up 0 (scf_trans_nr conf) enter_body st = Some st' ->
  entered_all (scf_trans_nr conf) st'.
Proof.
  intros Hn H0. apply (for_up_partial entered_all); [done|split; [done|lia]|].
  intros i s s' Hi Hs. unfold enter_body. destruct (arr_get trs i) as [tr|] eqn:Htr; [|done].
  cbn [mbind option_bind].
  destruct (arr_get s (td_src tr)) as [d|] eqn:Hd; [|done]. cbn [mbind option_bind].
  destruct (allows d (td_tgt tr)) as [b|] eqn:Hb; [|done]. apply allows_Some in Hb as [_ ->].
  cbn [mbind option_bind].
  destruct (Z.testbit (sd_allowed d) (td_tgt tr)) eqn:Hbit; [|done]. cbn [mbind option_bind M0_ASSERT].
  intros Hset.
  destruct (enter_step i s tr Hi (proj1 Hs) Htr) as (s1 & E & He' & Hnew). rewrite Hset in E.
  injection E as <-.
  eapply enter_all_step; [done|done|done| |done]. by eapply (static_allowed s); [apply Hs|..].
Qed.

(** The third loop. *)
Definition check_body st (i to : Z) (x : ()) : option () :=
  d ← arr_get st i;
  b ← allows d to;
  if (b : bool) then t ← trans_get st i to; M0_ASSERT (negb (t =? Z.lnot 0)) else Some tt.

Lemma check_body_ok st i to :
  static (scf_state conf) st -> 0 <= i < nr -> 0 <= to < nr ->
  (exists v, trans_get st i to = Some v) ->
  check_body st i to tt = Some tt <-> (allowed_from conf i to -> trans_get st i to <> Some (-1)).
Proof.
  intros Hs Hi Hto [v Hv]. pose proof (static_length _ _ Hs) as Hl. unfold check_body.
  destruct (arr_get_is_Some st i) as [d Hd]; [lia|]. rewrite Hd. cbn [mbind option_bind].
  rewrite allows_ok by lia. cbn [mbind option_bind]. pose proof (static_allowed _ _ _ Hs Hd to) as Ha.
  destruct (Z.testbit (sd_allowed d) to) eqn:Hb.
  - rewrite Hv. cbn [mbind option_bind]. change (Z.lnot 0) with (-1).
    destruct (Z.eqb_spec v (-1)) as [->|Hne]; cbn.
    + split; [done|]. intros H. exfalso. apply H; [by apply Ha|done].
    + split; [|done]. intros _ _. congruence.
  - split; [|done]. intros _ H%Ha. done.
Qed.

Lemma check_loop_ok st :
  0 <= nr -> static (scf_state conf) st ->
  (forall f t, 0 <= f < nr -> 0 <= t < nr -> exists v, trans_get st f t = Some v) ->
  for_up 0 nr (fun i _ => for_up 0 nr (fun to x => check_body st i to x) tt) tt = Some tt <->
  forall f t, 0 <= f < nr -> 0 <= t < nr -> allowed_from conf f t -> trans_get st f t <> Some (-1).
Proof.
  intros Hge Hs Hv. split.
  - intros Hrun f t Hf Ht. rewrite <- check_body_ok by auto. revert f t Hf Ht.
    refine (for_up_partial (fun i _ => forall f t, 0 <= f < i -> 0 <= t < nr ->
      check_body st f t tt = Some tt)
      _ 0 nr tt tt Hge _ _ Hrun); [lia|]. intros j [] [] Hj HI Hin f t Hf Ht.
    destruct (Z.eq_dec f j) as [->|]; [|apply HI; [lia|done]]. revert t Ht.
    refine (for_up_partial (fun k _ => forall t, 0 <= t < k -> check_body st j t tt = Some tt)
      _ 0 nr tt tt Hge _ _ Hin); [lia|]. intros k [] [] Hk HI' Hc t Ht.
    destruct (Z.eq_dec t k) as [->|]; [done|]. apply HI'. lia.
  - intros Hall. assert (forall f t, 0 <= f < nr -> 0 <= t < nr -> check_body st f t tt = Some tt) as Hc.
    { intros f t Hf Ht. apply check_body_ok; auto. }
    destruct (for_up_total (fun _ (_ : ()) => True)
      (fun i _ => for_up 0 nr (fun to x => check_body st i to x) tt) 0 nr tt) as ([] & E & _); [done|done|
        |done].
    intros j [] Hj _. destruct (for_up_total (fun _ (_ : ()) => True)
      (fun to x => check_body st j to x) 0 nr tt) as ([] & E & _); [done|done| |by exists tt].
    intros k [] Hk _. exists tt. by rewrite Hc.
Qed.

End covers.
End conf_init.

Lemma entered_value {U} (conf : m0_sm_conf U) n st : entered conf n st -> forall f t,
  0 <= f < scf_nr_states conf -> 0 <= t < scf_nr_states conf -> exists v, trans_get st f t = Some v.
Proof. intros [_ He] f t Hf Ht. destruct (He f t Hf Ht) as [|(j & ? & ? & ? & _)]; eauto. Qed.

(** The three loops of m0_sm_conf_init(), of which the first one gives [st0]. *)
Lemma conf_init_run {U} (conf : m0_sm_conf U) st0 : 0 < scf_trans_nr conf /\ scf_nr_states conf < 64 ->
  m0_sm_conf_is_initialized conf = false ->
  for_up 0 (scf_nr_states conf) (fun i st => for_up 0 (scf_nr_states conf)
    (fun to st => trans_set st i to (i8 (Z.lnot 0))) st) (scf_state conf) = Some st0 ->
  forall conf', m0_sm_conf_init conf = Some conf' <-> exists st,
    for_up 0 (scf_trans_nr conf) (enter_body conf) st0 = Some st /\
    for_up 0 (scf_nr_states conf) (fun i _ => for_up 0 (scf_nr_states conf)
      (fun to x => check_body st i to x) tt) tt = Some tt /\
    conf' = {| scf_magic := M0_SM_CONF_MAGIC; scf_nr_states := scf_nr_states conf; scf_state := st;
               scf_trans_nr := scf_trans_nr conf; scf_trans := scf_trans conf |}.
Proof.
  intros [Hfit Hnr] Hinit E0 conf'. unfold m0_sm_conf_init. rewrite Hinit, (proj2 (Z.ltb_lt 0 _)) by lia.
  change M0_SM_MAX_STATES with 64. rewrite (proj2 (Z.ltb_lt _ 64)) by lia.
  cbn [negb M0_ASSERT mbind option_bind]. rewrite E0. cbn [mbind option_bind].
  change (fun i states => tr ← arr_get (scf_trans conf) i; _) with (enter_body conf).
  destruct (for_up 0 (scf_trans_nr conf) (enter_body conf) st0) as [st|]; cbn [mbind option_bind];
    [|split; [done|by intros (? & ? & _)]].
  match goal with |- context [for_up 0 _ ?b tt] => change b with
    (fun (i : Z) (_ : ()) => for_up 0 (scf_nr_states conf) (fun to x => check_body st i to x) tt) end.
  destruct (for_up 0 (scf_nr_states conf) _ tt) as [[]|] eqn:E; cbn [mbind option_bind].
  - split; [intros [= <-]; by exists st|]. intros (st' & [= <-] & _ & ->). done.
  - split; [done|]. intros (st' & [= <-] & E' & _). rewrite E in E'. done.
Qed.

(** C31. m0_sm_conf_init(), for a configuration of at most 63 states and 128
    transitions between them: it returns exactly when the array of transitions
    lists the transitions the states allow, all of them and no others; then it
    changes only the indices, such that [sd_trans[to]] of every state leads to an
    entry for the transition if it is allowed and is -1 if it is not. *)
Theorem sm_conf_init_spec {U} (conf : m0_sm_conf U) :
  Z.of_nat (length (scf_state conf)) = scf_nr_states conf -> scf_nr_states conf < 64 ->
  Forall (fun d => length (sd_trans d) = 64%nat) (scf_state conf) ->
  Z.of_nat (length (scf_trans conf)) = scf_trans_nr conf -> 0 < scf_trans_nr conf <= 128 ->
  Forall (fun tr => 0 <= td_src tr < scf_nr_states conf /\ 0 <= td_tgt tr < scf_nr_states conf)
    (scf_trans conf) ->
  m0_sm_conf_is_initialized conf = false ->
  (covers conf <-> exists conf', m0_sm_conf_init conf = Some conf') /\
  forall conf', m0_sm_conf_init conf = Some conf' ->
    m0_sm_conf_is_initialized conf' = true /\ static (scf_state conf) (scf_state conf') /\
    scf_trans conf' = scf_trans conf /\
    forall f t, 0 <= f < scf_nr_states conf -> 0 <= t < scf_nr_states conf ->
      (allowed_from conf f t -> exists j tr, trans_get (scf_state conf') f t = Some j /\
         arr_get (scf_trans conf) j = Some tr /\ td_src tr = f /\ td_tgt tr = t) /\
      (~ allowed_from conf f t -> trans_get (scf_state conf') f t = Some (-1)).
Proof.
  intros Hlen Hnr Hfull Htrs Hfit Hrange Hinit.
  destruct (clear_loop_ok (scf_state conf) (scf_nr_states conf) Hfull Hlen Hnr) as (st0 & E0 & Hs0 & Hclear).
  assert (entered conf 0 st0) as H0 by (split; [done|]; intros; left; by apply Hclear).
  pose proof (fun st H => entered_value conf (scf_trans_nr conf) st H) as Hv.
  pose proof (conf_init_run conf st0 (conj (proj1 Hfit) Hnr) Hinit E0) as Hrun.
  split; [split|].
  - intros [Hall Hcov].
    destruct (enter_loop_ok conf Hlen Hfull Hnr Htrs (proj2 Hfit) Hrange st0) as (st & E1 & Hent);
      [lia|done|done|].
    eexists. apply Hrun. exists st. split; [done|]. split; [|done].
    apply check_loop_ok; try done; [lia|apply Hent|apply Hv, Hent|]. intros f t Hf Ht Ha.
    destruct (Hcov f t Hf Ht Ha) as (tr & [i Hi]%list_elem_of_lookup & <- & <-).
    pose proof (lookup_lt_Some _ _ _ Hi). apply (proj2 Hent (Z.of_nat i) tr); [lia|].
    apply arr_get_Some. rewrite Nat2Z.id. split; [lia|done].
  - intros [conf' (st & E1 & E2 & _)%Hrun].
    pose proof (enter_loop_inv conf Hlen Hfull Hnr (proj2 Hfit) Hrange st0 st ltac:(lia) H0 E1) as Hent.
    pose proof (proj1 (check_loop_ok conf Hlen Hnr st ltac:(lia) (proj1 (proj1 Hent)) (Hv _ (proj1 Hent)))
      E2) as Hne.
    split.
    + apply Forall_lookup. intros i tr Hi. pose proof (lookup_lt_Some _ _ _ Hi).
      apply (proj2 Hent (Z.of_nat i) tr); [lia|]. apply arr_get_Some. rewrite Nat2Z.id. split; [lia|done].
    + intros f t Hf Ht Ha. destruct (proj2 (proj1 Hent) f t Hf Ht)
        as [H|(j & tr & _ & _ & [_ Hj]%arr_get_Some & <- & <-)].
      * by apply Hne in H.
      * exists tr. split; [by eapply list_elem_of_lookup_2|done].
  - intros conf' (st & E1 & E2 & ->)%Hrun. cbn.
    pose proof (enter_loop_inv conf Hlen Hfull Hnr (proj2 Hfit) Hrange st0 st ltac:(lia) H0 E1) as Hent.
    pose proof (proj1 (check_loop_ok conf Hlen Hnr st ltac:(lia) (proj1 (proj1 Hent)) (Hv _ (proj1 Hent)))
      E2) as Hne.
    split; [done|]. split; [apply Hent|]. split; [done|]. intros f t Hf Ht. split.
    + intros Ha. destruct (proj2 (proj1 Hent) f t Hf Ht) as [H|(j & tr & _ & ?)];
        [by apply Hne in H|by exists j, tr].
    + intros Hno. destruct (proj2 (proj1 Hent) f t Hf Ht) as [|(j & tr & Hj & _ & Htr & <- & <-)]; [done|].
      exfalso. apply Hno. by apply (proj2 Hent j tr).
Qed.

(** ** An example

    State 0 leads to 1 and 2; on entering 1 the machine goes on to 2, where it
    ends. *)

Definition example_descr (flags allowed : Z) (next : option Z) : m0_sm_state_descr () :=
  {| sd_flags := flags; sd_name := true; sd_in := (fun n rc u => (n, rc, u)) <$> next; sd_ex := None;
     sd_invariant := None; sd_allowed := allowed; sd_trans := replicate 64 0 |}.

Definition example_conf : m0_sm_conf () :=
  {| scf_magic := 0; scf_nr_states := 3;
     scf_state := [example_descr M0_SDF_INITIAL 6 None; example_descr 0 4 (Some 2);
                   example_descr M0_SDF_TERMINAL 0 None];
     scf_trans_nr := 3;
     scf_trans := [{| td_cause := true; td_src := 0; td_tgt := 1 |};
       {| td_cause := true; td_src := 0; td_tgt := 2 |};
                   {| td_cause := true; td_src := 1; td_tgt := 2 |}] |}.

Definition example_mach : m0_sm () :=
  {| sm_state := 0; sm_rc := 0; sm_locked := true; sm_invariant_chk_off := false; sm_stats := None;
    sm_user := tt |}.

Lemma sm_conf_init_spec_witness : exists conf', m0_sm_conf_init example_conf = Some conf'.
Proof.
  apply (sm_conf_init_spec example_conf).
  - reflexivity.
  - reflexivity.
  - repeat constructor.
  - reflexivity.
  - split; [reflexivity|discriminate].
  - repeat constructor; cbn; lia.
  - reflexivity.
  - split.
    + repeat constructor; eexists; (split; reflexivity).
    + cbn. intros f t Hf Ht (d & Hd & Hb).
      assert (f = 0 \/ f = 1 \/ f = 2) as [->|[->| ->]] by lia; cbn in Hd; injection Hd as <-;
        assert (t = 0 \/ t = 1 \/ t = 2) as [->|[->| ->]] by lia; try discriminate Hb;
        first [eexists; split; [left|split; reflexivity]
              |eexists; split; [right; left|split; reflexivity]
              |eexists; split; [right; right; left|split; reflexivity]].
Defined.

Lemma sm_transitions_witness :
  exists mach', m0_sm_state_set 2 example_conf example_mach 1 = Some mach' /\ sm_state mach' = 2.
Proof.
  destruct (sm_transitions example_conf example_mach 1 eq_refl ltac:(cbn; lia) eq_refl) as [_ H].
  destruct (H (fun s => if s =? 1 then 1%nat else 0%nat)) as (mach' & E & _).
  - cbn. intros d Hd. rewrite !elem_of_cons, elem_of_nil in Hd. naive_solver.
  - split.
    + intros s d f rc u next rc' u' [Hs Hd]%arr_get_Some Hf. cbn in Hd.
      assert (s = 0 \/ s = 1 \/ s = 2) as [->|[->| ->]].
      { pose proof (lookup_lt_Some _ _ _ Hd) as Hlt. cbn in Hlt. lia. }
      all: cbn in Hd; injection Hd as <-; try discriminate Hf. injection Hf as <-. intros [= <- _ _].
      right. split; [|cbn; lia]. eexists. split; reflexivity.
    + intros s d f rc u [Hs Hd]%arr_get_Some Hf. cbn in Hd.
      assert (s = 0 \/ s = 1 \/ s = 2) as [->|[->| ->]].
      { pose proof (lookup_lt_Some _ _ _ Hd) as Hlt. cbn in Hlt. lia. }
      all: cbn in Hd; injection Hd as <-; discriminate Hf.
  - split; [|split; reflexivity]. eexists. split; [cbn; lia|]. split; reflexivity.
  - lia.
  - eexists. split; reflexivity.
  - exists mach'. split; [exact E|]. vm_compute in E. injection E as <-. reflexivity.
Defined.
