(* ===== verification/LongLock.v ===== *)
(** * fop: long locks

    src/fop/fom_long_lock.c: the reader-writer lock of the request handler, which
    queues state machines (foms) instead of blocking threads.  The lists of owners
    and waiters are typed lists behind the interface of TList; the phase of a fom
    is a state machine of Sm.  The lock is proved to keep its invariant, to
    exclude writers, and to grant requests in the order of their arrival. *)
From S2P Require Import Prelude LibList TList Sm.
#[local] Open Scope motr_scope.

(** ** Definitions *)

Inductive m0_long_lock_state := M0_LONG_LOCK_UNLOCKED | M0_LONG_LOCK_RD_LOCKED | M0_LONG_LOCK_WR_LOCKED.

Inductive m0_long_lock_type := M0_LONG_LOCK_READER | M0_LONG_LOCK_WRITER.

#[export] Instance long_lock_state_eq_dec : EqDecision m0_long_lock_state.
Proof. solve_decision. Defined.

#[export] Instance long_lock_type_eq_dec : EqDecision m0_long_lock_type.
Proof. solve_decision. Defined.

Notation M0_FOM_LL_LINK_MAGIC := 0x331dea115ed1ce77 (only parsing).

Notation M0_FOM_LL_MAGIC := 0x330b1e55edb05577 (only parsing).

Record m0_long_lock_addb2 := { la_taken : Z; la_waiting : bool; la_wait : Z }.

(** The tlist link of [lll_lock_linkage] is kept by the lists. *)
Record m0_long_lock_link := {
  lll_fom : Z;
  lll_magix : Z;
  lll_lock_type : m0_long_lock_type;
  lll_addb2 : option m0_long_lock_addb2
}.

(** The lists are named by the addresses of their heads; [l_lock] says whether
    the mutex is held by the running thread. *)
Record m0_long_lock := {
  l_owners : Z;
  l_waiters : Z;
  l_lock : bool;
  l_state : m0_long_lock_state;
  l_magix : Z
}.

(** What a long lock uses of a fom; [fo_ast_posted] says whether the wake-up AST
    of the fom is on the fork queue of its locality. *)
Record m0_fom := {
  fo_transitions : Z;
  fo_transitions_saved : Z;
  fo_conf : m0_sm_conf ();
  fo_sm_phase : m0_sm ();
  fo_state_epoch : Z;
  fo_ast_posted : bool
}.

Section long_lock.
Context {T : Type} {tops : TList T}.

Record ll_store := {
  st_tl : T;
  st_lock : m0_long_lock;
  st_links : gmap Z m0_long_lock_link;
  st_foms : gmap Z m0_fom
}.

Definition with_tl (st : ll_store) (t : T) : ll_store :=
  {| st_tl := t; st_lock := st_lock st; st_links := st_links st; st_foms := st_foms st |}.

Definition with_lock (st : ll_store) (l : m0_long_lock) : ll_store :=
  {| st_tl := st_tl st; st_lock := l; st_links := st_links st; st_foms := st_foms st |}.

Definition with_link (st : ll_store) (a : Z) (l : m0_long_lock_link) : ll_store :=
  {| st_tl := st_tl st; st_lock := st_lock st; st_links := <[a := l]> (st_links st); st_foms := st_foms st |}.

Definition with_fom (st : ll_store) (a : Z) (f : m0_fom) : ll_store :=
  {| st_tl := st_tl st; st_lock := st_lock st; st_links := st_links st; st_foms := <[a := f]> (st_foms st) |}.

Definition set_state (l : m0_long_lock) (s : m0_long_lock_state) : m0_long_lock :=
  {| l_owners := l_owners l; l_waiters := l_waiters l; l_lock := l_lock l; l_state := s;
    l_magix := l_magix l |}.

Definition set_lock (l : m0_long_lock) (b : bool) : m0_long_lock :=
  {| l_owners := l_owners l; l_waiters := l_waiters l; l_lock := b; l_state := l_state l;
    l_magix := l_magix l |}.

Definition set_addb2 (l : m0_long_lock_link) (a : option m0_long_lock_addb2) : m0_long_lock_link :=
  {| lll_fom := lll_fom l; lll_magix := lll_magix l; lll_lock_type := lll_lock_type l; lll_addb2 := a |}.

Definition ll_addb2_reset (st : ll_store) (link : Z) : option ll_store :=
  l ← st_links st !! link;
  Some (match lll_addb2 l with
        | Some _ => with_link st link (set_addb2 l (Some {| la_taken := 0; la_waiting := false;
          la_wait := 0 |}))
        | None => st
        end).

Definition ll_addb2_wait_start (st : ll_store) (link : Z) : option ll_store :=
  l ← st_links st !! link;
  Some (match lll_addb2 l with
        | Some a => with_link st link
            (set_addb2 l (Some {| la_taken := la_taken a; la_waiting := true; la_wait := la_wait a |}))
        | None => st
        end).

(** [now] is the time m0_time_now() returns. *)
Definition ll_addb2_wait_finish (now : Z) (st : ll_store) (link : Z) : option ll_store :=
  l ← st_links st !! link;
  match lll_addb2 l with
  | Some a =>
      wait ← (if la_waiting a then f ← st_foms st !! lll_fom l;
        Some (u64 (now - fo_state_epoch f)) else Some 0);
      Some (with_link st link (set_addb2 l (Some
        {| la_taken := now; la_waiting := la_waiting a; la_wait := wait |})))
  | None => Some st
  end.

Definition link_invariant (st : ll_store) (link : Z) : option bool :=
  l ← st_links st !! link;
  Some ((lll_magix l =? M0_FOM_LL_LINK_MAGIC) && negb (lll_fom l =? 0)).

Definition link_type_is (st : ll_store) (ty : m0_long_lock_type) (link : Z) : option bool :=
  l ← st_links st !! link; Some (bool_decide (lll_lock_type l = ty)).

(** [ergo] of conditions that may read memory. *)
Definition ergo (a : bool) (b : option bool) : option bool := if a then b else Some true.

Definition eq_bool (a : bool) (b : option bool) : option bool := x ← b; Some (Bool.eqb a x).

Definition lock_invariant (st : ll_store) : option bool :=
  let lock := st_lock st in
  let t := st_tl st in
  last ← tl_tail t (l_owners lock);
  first ← tl_head t (l_waiters lock);
  Some (l_magix lock =? M0_FOM_LL_MAGIC) &&?
  Some (l_lock lock) &&?
  tl_forall t (l_owners lock) (link_invariant st) &&?
  tl_forall t (l_waiters lock) (link_invariant st) &&?
  eq_bool (bool_decide (l_state lock = M0_LONG_LOCK_UNLOCKED))
    (tl_is_empty t (l_owners lock) &&? tl_is_empty t (l_waiters lock)) &&?
  eq_bool (bool_decide (l_state lock = M0_LONG_LOCK_RD_LOCKED))
    ((negb <$> tl_is_empty t (l_owners lock)) &&?
     tl_forall t (l_owners lock) (link_type_is st M0_LONG_LOCK_READER)) &&?
  ergo (bool_decide (l_state lock = M0_LONG_LOCK_WR_LOCKED))
    (n ← tl_length t (l_owners lock); Some (n =? 1)) &&?
  ergo (bool_decide (first <> None)) (Some (bool_decide (last <> None))) &&?
  match last, first with
  | Some last, Some first =>
      r ← link_type_is st M0_LONG_LOCK_READER last;
      ergo r (link_type_is st M0_LONG_LOCK_WRITER first)
  | _, _ => Some true
  end.

Definition can_lock (st : ll_store) (link : Z) : option bool :=
  l ← st_links st !! link;
  Some (match lll_lock_type l with
        | M0_LONG_LOCK_READER => bool_decide (l_state (st_lock st) <> M0_LONG_LOCK_WR_LOCKED)
        | M0_LONG_LOCK_WRITER => bool_decide (l_state (st_lock st) = M0_LONG_LOCK_UNLOCKED)
        end).

Definition grant (now : Z) (st : ll_store) (link : Z) : option ll_store :=
  l ← st_links st !! link;
  let st := with_lock st (set_state (st_lock st)
    (match lll_lock_type l with
     | M0_LONG_LOCK_READER => M0_LONG_LOCK_RD_LOCKED
     | M0_LONG_LOCK_WRITER => M0_LONG_LOCK_WR_LOCKED
     end)) in
  st ← ll_addb2_wait_finish now st link;
  t ← tl_move_tail (st_tl st) (l_owners (st_lock st)) link;
  Some (with_tl st t).

(** m0_fom_phase_set(); [fuel] bounds the chained transitions. *)
Definition m0_fom_phase_set (fuel : nat) (st : ll_store) (fom phase : Z) : option ll_store :=
  f ← st_foms st !! fom;
  m ← m0_sm_state_set fuel (fo_conf f) (fo_sm_phase f) phase;
  Some (with_fom st fom {| fo_transitions := fo_transitions f; fo_transitions_saved := fo_transitions_saved f;
    fo_conf := fo_conf f; fo_sm_phase := m; fo_state_epoch := fo_state_epoch f;
      fo_ast_posted := fo_ast_posted f |}).

Definition m0_fom_group_is_locked (st : ll_store) (fom : Z) : option bool :=
  f ← st_foms st !! fom; Some (sm_locked (fo_sm_phase f)).

(** m0_fom_wakeup(): m0_sm_ast_post() requires that the AST is not posted. *)
Definition m0_fom_wakeup (st : ll_store) (fom : Z) : option ll_store :=
  f ← st_foms st !! fom;
  _ ← M0_ASSERT (negb (fo_ast_posted f));
  Some (with_fom st fom {| fo_transitions := fo_transitions f; fo_transitions_saved := fo_transitions_saved f;
    fo_conf := fo_conf f; fo_sm_phase := fo_sm_phase f; fo_state_epoch := fo_state_epoch f;
      fo_ast_posted := true |}).

Definition save_transitions (st : ll_store) (fom : Z) : option ll_store :=
  f ← st_foms st !! fom;
  Some (with_fom st fom {| fo_transitions := fo_transitions f; fo_transitions_saved := fo_transitions f;
    fo_conf := fo_conf f; fo_sm_phase := fo_sm_phase f; fo_state_epoch := fo_state_epoch f;
    fo_ast_posted := fo_ast_posted f |}).

Definition m0_mutex_lock (st : ll_store) : option ll_store :=
  _ ← M0_ASSERT (negb (l_lock (st_lock st)));
  Some (with_lock st (set_lock (st_lock st) true)).

Definition m0_mutex_unlock (st : ll_store) : option ll_store :=
  _ ← M0_ASSERT (l_lock (st_lock st));
  Some (with_lock st (set_lock (st_lock st) false)).

Definition lock (fuel : nat) (now : Z) (st : ll_store) (link next_phase : Z) : option (bool * ll_store) :=
  st ← m0_mutex_lock st;
  b ← lock_invariant st;
  _ ← M0_ASSERT b;
  b ← tl_is_in (st_tl st) link;
  _ ← M0_ASSERT (negb b);
  l ← st_links st !! link;
  let fom := lll_fom l in
  _ ← M0_ASSERT (negb (fom =? 0));
  got_lock ← (tl_is_empty (st_tl st) (l_waiters (st_lock st)) &&? can_lock st link);
  st ← ll_addb2_reset st link;
  st ← (if (got_lock : bool) then grant now st link
        else
          st ← ll_addb2_wait_start st link;
          st ← save_transitions st fom;
          t ← tl_add_tail (st_tl st) (l_waiters (st_lock st)) link;
          Some (with_tl st t));
  st ← m0_fom_phase_set fuel st fom next_phase;
  b ← lock_invariant st;
  _ ← M0_ASSERT b;
  st ← m0_mutex_unlock st;
  Some (got_lock, st).

Definition set_lock_type (st : ll_store) (link : Z) (ty : m0_long_lock_type) : option ll_store :=
  l ← st_links st !! link;
  Some (with_link st link {| lll_fom := lll_fom l; lll_magix := lll_magix l; lll_lock_type := ty;
                             lll_addb2 := lll_addb2 l |}).

Definition m0_long_write_lock (fuel : nat) (now : Z) (st : ll_store) (link next_phase : Z)
  : option (bool * ll_store) :=
  st ← set_lock_type st link M0_LONG_LOCK_WRITER;
  lock fuel now st link next_phase.

Definition m0_long_read_lock (fuel : nat) (now : Z) (st : ll_store) (link next_phase : Z)
  : option (bool * ll_store) :=
  st ← set_lock_type st link M0_LONG_LOCK_READER;
  lock fuel now st link next_phase.

Definition m0_long_lock_take (fuel : nat) (now : Z) (st : ll_store) (write : bool) (link next_phase : Z)
  : option (bool * ll_store) :=
  if write then m0_long_write_lock fuel now st link next_phase
  else m0_long_read_lock fuel now st link next_phase.

Definition transitions_ok (st : ll_store) (fom : Z) : option bool :=
  f ← st_foms st !! fom;
  let x := u32 (fo_transitions f - fo_transitions_saved f) in
  Some ((x =? 1) || (x =? 0)).

(** The loop over the waiters; every waiter is a link of the store. *)
Fixpoint grant_loop (n : nat) (now : Z) (st : ll_store) : option ll_store :=
  next ← tl_head (st_tl st) (l_waiters (st_lock st));
  match next with
  | None => Some st
  | Some next =>
      b ← can_lock st next;
      if (b : bool) then
        match n with
        | O => None
        | S n =>
            st ← grant now st next;
            l ← st_links st !! next;
            b ← transitions_ok st (lll_fom l);
            _ ← M0_ASSERT b;
            st ← m0_fom_wakeup st (lll_fom l);
            grant_loop n now st
        end
      else Some st
  end.

Definition unlock (now : Z) (st : ll_store) (link : Z) (check_ownership : bool) : option ll_store :=
  l ← st_links st !! link;
  let fom := lll_fom l in
  st ← m0_mutex_lock st;
  owned ← (if check_ownership then tl_contains (st_tl st) (l_owners (st_lock st)) link else Some true);
  if negb owned then m0_mutex_unlock st
  else
    b ← lock_invariant st;
    _ ← M0_ASSERT b;
    b ← tl_contains (st_tl st) (l_owners (st_lock st)) link;
    _ ← M0_ASSERT b;
    b ← m0_fom_group_is_locked st fom;
    _ ← M0_ASSERT b;
    t ← tl_del (st_tl st) link;
    let st := with_tl st t in
    e ← (Some (bool_decide (lll_lock_type l = M0_LONG_LOCK_WRITER)) ||?
         tl_is_empty (st_tl st) (l_owners (st_lock st)));
    let st := with_lock st (set_state (st_lock st)
      (if (e : bool) then M0_LONG_LOCK_UNLOCKED else M0_LONG_LOCK_RD_LOCKED)) in
    st ← grant_loop (size (st_links st)) now st;
    b ← lock_invariant st;
    _ ← M0_ASSERT b;
    m0_mutex_unlock st.

Definition m0_long_write_unlock (now : Z) (st : ll_store) (link : Z) :
  option ll_store := unlock now st link false.

Definition m0_long_read_unlock (now : Z) (st : ll_store) (link : Z) :
  option ll_store := unlock now st link false.

Definition m0_long_unlock (now : Z) (st : ll_store) (link : Z) : option ll_store := unlock now st link true.

(** The mutex is released again before the result is returned. *)
Definition m0_long_is_read_locked (st : ll_store) (fom : Z) : option bool :=
  st ← m0_mutex_lock st;
  b ← lock_invariant st;
  _ ← M0_ASSERT b;
  if bool_decide (l_state (st_lock st) = M0_LONG_LOCK_RD_LOCKED) then
    none ← tl_forall (st_tl st) (l_owners (st_lock st)) (fun link =>
      l ← st_links st !! link; Some (negb (lll_fom l =? fom)));
    Some (negb none)
  else Some false.

Definition m0_long_is_write_locked (st : ll_store) (fom : Z) : option bool :=
  st ← m0_mutex_lock st;
  b ← lock_invariant st;
  _ ← M0_ASSERT b;
  if bool_decide (l_state (st_lock st) = M0_LONG_LOCK_WR_LOCKED) then
    head ← tl_head (st_tl st) (l_owners (st_lock st));
    link ← head;
    l ← st_links st !! link;
    Some (lll_fom l =? fom)
  else Some false.

(** A tick of a fom completes: the counter of fom_exec() is incremented. *)
Definition fom_tick (st : ll_store) (fom : Z) : option ll_store :=
  f ← st_foms st !! fom;
  Some (with_fom st fom {| fo_transitions := u32 (fo_transitions f + 1);
    fo_transitions_saved := fo_transitions_saved f; fo_conf := fo_conf f; fo_sm_phase := fo_sm_phase f;
    fo_state_epoch := fo_state_epoch f; fo_ast_posted := fo_ast_posted f |}).

(** The locality takes the wake-up AST of a fom from its fork queue. *)
Definition ast_taken (st : ll_store) (fom : Z) : option ll_store :=
  f ← st_foms st !! fom;
  Some (with_fom st fom {| fo_transitions := fo_transitions f; fo_transitions_saved := fo_transitions_saved f;
    fo_conf := fo_conf f; fo_sm_phase := fo_sm_phase f; fo_state_epoch := fo_state_epoch f;
    fo_ast_posted := false |}).

(** The operations on a lock, and what the foms do between them. *)
Inductive ll_op :=
  | OpLock (write : bool) (link phase : Z)
  | OpUnlock (link : Z)
  | OpUnlockIfOwner (link : Z)
  | OpTick (fom : Z)
  | OpAst (fom : Z).

(** An operation also returns whether it got the lock. *)
Definition run_op (fuel : nat) (now : Z) (op : ll_op) (st : ll_store) : option (bool * ll_store) :=
  match op with
  | OpLock write link phase => m0_long_lock_take fuel now st write link phase
  | OpUnlock link =>
      l ← st_links st !! link;
      pair false <$> match lll_lock_type l with
                     | M0_LONG_LOCK_READER => m0_long_read_unlock now st link
                     | M0_LONG_LOCK_WRITER => m0_long_write_unlock now st link
                     end
  | OpUnlockIfOwner link => pair false <$> m0_long_unlock now st link
  | OpTick fom => pair false <$> fom_tick st fom
  | OpAst fom => pair false <$> ast_taken st fom
  end.

Fixpoint run_ops (fuel : nat) (ops : list (Z * ll_op)) (st : ll_store) : option (list bool * ll_store) :=
  match ops with
  | [] => Some ([], st)
  | (now, op) :: ops =>
      '(b, st) ← run_op fuel now op st;
      '(bs, st) ← run_ops fuel ops st;
      Some (b :: bs, st)
  end.

End long_lock.
Arguments ll_store : clear implicits.

(** ** Reference: a fair reader-writer lock *)

Section spec.
Context (kind : Z -> m0_long_lock_type).

Definition is_reader (l : Z) : bool := bool_decide (kind l = M0_LONG_LOCK_READER).

(** Whether a request is compatible with the owners. *)
Definition can (os : list Z) (l : Z) : bool :=
  if is_reader l then forallb is_reader os else bool_decide (os = []).

(** The owners and waiters after a request. *)
Definition spec_lock (os ws : list Z) (l : Z) : bool * list Z * list Z :=
  if bool_decide (ws = []) && can os l then (true, os ++ [l], ws) else (false, os, ws ++ [l]).

(** Requests are granted in order, as long as they are compatible. *)
Fixpoint spec_grant (os ws : list Z) : list Z * list Z :=
  match ws with
  | [] => (os, [])
  | w :: ws' => if can os w then spec_grant (os ++ [w]) ws' else (os, ws)
  end.

End spec.

(** The state of the lock as its users see it; [a_free] are the links on no list. *)
Record ll_abs := {
  a_kind : Z -> m0_long_lock_type;
  a_free : gset Z;
  a_owners : list Z;
  a_waiters : list Z
}.

Definition lock_type (write : bool) :
  m0_long_lock_type := if write then M0_LONG_LOCK_WRITER else M0_LONG_LOCK_READER.

Definition set_kind (k : Z -> m0_long_lock_type) (l : Z) (ty : m0_long_lock_type) : Z -> m0_long_lock_type :=
  fun x => if decide (x = l) then ty else k x.

Definition spec_unlock (a : ll_abs) (l : Z) : ll_abs :=
  if bool_decide (l ∈ a_owners a) then
    let '(os, ws) := spec_grant (a_kind a) (filter (fun o => o <> l) (a_owners a)) (a_waiters a) in
    {| a_kind := a_kind a; a_free := {[l]} ∪ a_free a; a_owners := os; a_waiters := ws |}
  else a.

Definition spec_op (op : ll_op) (a : ll_abs) : bool * ll_abs :=
  match op with
  | OpLock write l _ =>
      let k := set_kind (a_kind a) l (lock_type write) in
      let '(b, os, ws) := spec_lock k (a_owners a) (a_waiters a) l in
      (b, {| a_kind := k; a_free := a_free a ∖ {[l]}; a_owners := os; a_waiters := ws |})
  | OpUnlock l | OpUnlockIfOwner l => (false, spec_unlock a l)
  | OpTick _ | OpAst _ => (false, a)
  end.

Fixpoint spec_ops (ops : list (Z * ll_op)) (a : ll_abs) : list bool * ll_abs :=
  match ops with
  | [] => ([], a)
  | (_, op) :: ops => let '(b, a) := spec_op op a in let '(bs, a) := spec_ops ops a in (b :: bs, a)
  end.

(** Readers share the lock, a writer is alone. *)
Definition exclusive (a : ll_abs) : Prop :=
  Forall (fun o => a_kind a o = M0_LONG_LOCK_READER) (a_owners a) \/ length (a_owners a) = 1%nat.

(** How often an owner leaves. *)
Definition releases_op (op : ll_op) (a : ll_abs) : nat :=
  match op with
  | OpUnlock l | OpUnlockIfOwner l => if bool_decide (l ∈ a_owners a) then 1 else 0
  | _ => 0
  end.

Fixpoint releases (ops : list (Z * ll_op)) (a : ll_abs) : nat :=
  match ops with
  | [] => 0
  | (_, op) :: ops => releases_op op a + releases ops (spec_op op a).2
  end.

(** The number of links that got or requested the lock before a waiter. *)
Fixpoint position (w : Z) (ws : list Z) : nat :=
  match ws with [] => 0 | x :: ws => if decide (x = w) then 0 else S (position w ws) end.

Definition ahead (w : Z) (a : ll_abs) : nat := length (a_owners a) + position w (a_waiters a).

(** Only the kinds of the links matter. *)
Lemma can_kinds k k' os l : (forall x, k x = k' x) -> can k os l = can k' os l.
Proof.
  intros H. unfold can, is_reader. rewrite (H l).
  destruct (bool_decide (k' l = M0_LONG_LOCK_READER)); [|done].
  induction os as [|o os IH]; [done|]. cbn. by rewrite IH, (H o).
Qed.

Lemma spec_lock_ext k k' os ws l : (forall x, k x = k' x) -> spec_lock k os ws l = spec_lock k' os ws l.
Proof. intros H. unfold spec_lock. by rewrite (can_kinds k k'). Qed.

Lemma spec_grant_ext k k' os ws : (forall x, k x = k' x) -> spec_grant k os ws = spec_grant k' os ws.
Proof.
  intros H. revert os. induction ws as [|w ws IH]; intros os; [done|]. cbn. by rewrite (can_kinds k k'), IH.
Qed.

(** ** Lemmas: the invariant *)

Section proofs.
Context {T : Type} {tops : TList T} {rep : T -> tlists -> Prop} {laws : TListLaws T rep}.
Implicit Types (st : ll_store T) (s : tlists) (os ws : list Z).

(** What the lock depends on. *)
Definition link_view st (l : Z) : option (Z * Z * m0_long_lock_type) :=
  (fun k => (lll_fom k, lll_magix k, lll_lock_type k)) <$> st_links st !! l.

Definition fom_view st (f : Z) : option (bool * Z) :=
  (fun k => (fo_ast_posted k, u32 (fo_transitions k - fo_transitions_saved k))) <$> st_foms st !! f.

Definition kind st (l : Z) : m0_long_lock_type :=
  match link_view st l with Some (_, _, k) => k | None => M0_LONG_LOCK_READER end.

Definition fom_of st (l : Z) : Z := match link_view st l with Some (f, _, _) => f | None => 0 end.

Definition link_ok st (l : Z) : Prop :=
  exists f k, link_view st l = Some (f, M0_FOM_LL_LINK_MAGIC, k) /\ f <> 0 /\ is_Some (fom_view st f).

Definition lock_state st os : m0_long_lock_state :=
  match os with
  | [] => M0_LONG_LOCK_UNLOCKED
  | o :: _ => if is_reader (kind st) o then M0_LONG_LOCK_RD_LOCKED else M0_LONG_LOCK_WR_LOCKED
  end.

(** A fom that waits: it was not woken up, and has left at most the tick in which
    it asked for the lock. *)
Definition asleep st (f : Z) : Prop := exists n, fom_view st f = Some (false, n) /\ (n = 0 \/ n = 1).

(** The lock has the owners [os] and the waiters [ws], some of which may be
    waiting without need. *)
Record ll_mid st s os ws : Prop := {
  ok_rep : rep (st_tl st) s;
  ok_owners : tl_lists s !! l_owners (st_lock st) = Some os;
  ok_waiters : tl_lists s !! l_waiters (st_lock st) = Some ws;
  ok_heads : l_owners (st_lock st) <> l_waiters (st_lock st);
  ok_magic : l_magix (st_lock st) = M0_FOM_LL_MAGIC;
  ok_links l : l ∈ os ++ ws -> link_ok st l;
  ok_state : l_state (st_lock st) = lock_state st os;
  ok_kinds : forallb (is_reader (kind st)) os = true \/ exists o, os = [o] /\ is_reader (kind st) o = false;
  ok_foms w1 w2 : w1 ∈ ws -> w2 ∈ ws -> fom_of st w1 = fom_of st w2 -> w1 = w2;
  ok_asleep w : w ∈ ws -> asleep st (fom_of st w)
}.

(** The first waiter has to wait. *)
Definition must_wait st os ws : Prop :=
  match ws with [] => True | w :: _ => can (kind st) os w = false end.

Definition ll_ok st s os ws : Prop := ll_mid st s os ws /\ must_wait st os ws.

Lemma must_wait_owners st os ws : must_wait st os ws -> ws <> [] -> os <> [].
Proof.
  intros Hw Hne ->. destruct ws as [|w ws]; [done|]. unfold must_wait, can in Hw. cbn in Hw.
  by destruct (is_reader (kind st) w).
Qed.

Lemma kind_ext st st' l : link_view st' l = link_view st l -> kind st' l = kind st l.
Proof. unfold kind. by intros ->. Qed.

Lemma fom_of_ext st st' l : link_view st' l = link_view st l -> fom_of st' l = fom_of st l.
Proof. unfold fom_of. by intros ->. Qed.

Lemma can_ext st st' os l :
  (forall l, link_view st' l = link_view st l) -> can (kind st') os l = can (kind st) os l.
Proof.
  intros H. apply can_kinds. intros x. by apply kind_ext.
Qed.

Lemma forallb_ext_in {A} (f g : A -> bool) l : (forall x, x ∈ l -> f x = g x) -> forallb f l = forallb g l.
Proof.
  induction l as [|x l IH]; intros H; [done|]. cbn. rewrite H by set_solver. f_equal. apply IH. set_solver.
Qed.

(** Only the views matter. *)
Lemma ll_mid_ext st st' s os ws :
  st_tl st' = st_tl st -> l_owners (st_lock st') = l_owners (st_lock st) ->
  l_waiters (st_lock st') = l_waiters (st_lock st) -> l_state (st_lock st') = l_state (st_lock st) ->
  l_magix (st_lock st') = l_magix (st_lock st) ->
  (forall l, l ∈ os ++ ws -> link_view st' l = link_view st l) ->
  (forall f, fom_view st' f = fom_view st f) ->
  ll_mid st s os ws -> ll_mid st' s os ws.
Proof.
  intros E1 E2 E3 E4 E5 Hl Hf [H1 H2 H3 H4 H5 H6 H7 H8 H11 H12].
  assert (forall l, l ∈ os -> is_reader (kind st') l = is_reader (kind st) l) as Hr
    by (intros l ?; unfold is_reader; rewrite (kind_ext st st' l); [done|apply Hl; set_solver]).
  split; rewrite ?E1, ?E2, ?E3, ?E4, ?E5; try done.
  - intros l Hin. destruct (H6 l Hin) as (f & k & ? & ? & ?). exists f, k. by rewrite Hl, Hf.
  - rewrite H7. destruct os as [|o os]; [done|]. unfold lock_state. by rewrite Hr by set_solver.
  - rewrite (forallb_ext_in (is_reader (kind st')) (is_reader (kind st))) by auto.
    destruct H8 as [|(o & -> & ?)]; [by left|right; exists o; by rewrite Hr by set_solver].
  - intros w1 w2 ? ?. rewrite (fom_of_ext st st' w1), (fom_of_ext st st' w2) by (apply Hl; set_solver).
    by apply H11.
  - intros w Hin. unfold asleep. rewrite (fom_of_ext st st' w), Hf by (apply Hl; set_solver). by apply H12.
Qed.

Lemma and_then_true a b : a = Some true -> b = Some true -> (a &&? b) = Some true.
Proof. by intros -> ->. Qed.

Lemma link_type_ok st ty l : link_ok st l -> link_type_is st ty l = Some (bool_decide (kind st l = ty)).
Proof.
  intros (f & k & Hv & _). unfold link_type_is, kind, link_view in *.
  destruct (st_links st !! l) as [x|]; [|done]. cbn in *. injection Hv as E1 E2 E3. by rewrite E3.
Qed.

Lemma link_invariant_true st l : link_ok st l -> link_invariant st l = Some true.
Proof.
  intros (f & k & Hv & Hne & _). unfold link_invariant, link_view in *.
  destruct (st_links st !! l) as [x|]; [|done]. cbn in *. injection Hv as E1 E2 E3.
  by rewrite E1, E2, Z.eqb_refl, (proj2 (Z.eqb_neq f 0)).
Qed.

(** The invariant of the code holds. *)
Lemma lock_invariant_true st s os ws :
  ll_ok st s os ws -> l_lock (st_lock st) = true -> lock_invariant st = Some true.
Proof.
  intros [Hmid Hf] Hl. pose proof (must_wait_owners _ _ _ Hf) as Hwt.
  destruct Hmid as [Hrep Ho Hw Hh Hm Hlk Hst Hk _ _]. unfold lock_invariant.
  rewrite (tl_tail_ok _ _ _ _ Hrep Ho), (tl_head_ok _ _ _ _ Hrep Hw). cbn [mbind option_bind].
  rewrite !(tl_is_empty_ok _ _ _ _ Hrep Ho), !(tl_is_empty_ok _ _ _ _ Hrep Hw),
    (tl_length_ok _ _ _ _ Hrep Ho).
  rewrite (tl_forall_ok _ _ _ _ _ (fun _ => true) Hrep Ho), (tl_forall_ok _ _ _ _ _ (fun _ => true) Hrep Hw),
    (tl_forall_ok _ _ _ _ _ (is_reader (kind st)) Hrep Ho)
    by (intros l Hin; first [apply link_invariant_true|apply link_type_ok]; apply Hlk; set_solver).
  assert (forall l : list Z, forallb (fun _ => true) l = true) as Hall by (intros l; by induction l).
  rewrite !Hall, Hm, Hl, Z.eqb_refl, Hst. repeat apply and_then_true; try done.
  - destruct os as [|o os]; [destruct ws; [done|by destruct Hwt]|].
    unfold lock_state. by destruct (is_reader (kind st) o).
  - destruct os as [|o os]; [done|]. cbn [forallb lock_state] in *.
    destruct Hk as [[-> ->]%andb_prop|(o' & [= -> ->] & Hk)]; [done|]. by rewrite Hk.
  - unfold ergo. case_bool_decide as Hs; [|done]. destruct Hk as [Hk|(o & -> & _)]; [|done].
    destruct os as [|o os]; [done|]. cbn [forallb lock_state] in *. apply andb_prop in Hk as [Hk _].
    by rewrite Hk in Hs.
  - unfold ergo. case_bool_decide as Hs; [|done]. rewrite bool_decide_true; [done|].
    destruct ws; [done|]. rewrite last_None. intros ->. by apply Hwt.
  - destruct (last os) as [o|] eqn:El; [|done]. destruct ws as [|w ws]; [done|]. cbn [head].
    apply last_Some_elem_of in El as Hin. rewrite (link_type_ok _ _ o), (link_type_ok _ _ w)
      by (apply Hlk; set_solver).
    cbn [mbind option_bind]. unfold ergo.
    destruct (bool_decide (kind st o = M0_LONG_LOCK_READER)) eqn:Hr; [apply bool_decide_eq_true in Hr|done].
    unfold must_wait, can in Hf. f_equal. apply bool_decide_eq_true.
    destruct (kind st w) eqn:Ew; [exfalso|done].
    assert (is_reader (kind st) w = true) as Hrw by (unfold is_reader; by rewrite Ew). rewrite Hrw in Hf.
    destruct Hk as [Hk|(o' & -> & Hk)]; [congruence|]. cbn in El. injection El as ->.
    unfold is_reader in Hk. by rewrite Hr in Hk.
Qed.

(** ** Lemmas: operations *)

(** Nothing but statistics changed. *)
Definition same st st' : Prop :=
  st_tl st' = st_tl st /\ st_lock st' = st_lock st /\ st_foms st' = st_foms st /\
  (forall l, link_view st' l = link_view st l) /\ dom (st_links st') = dom (st_links st).

Lemma link_record st l : link_ok st l -> exists k, st_links st !! l = Some k /\ kind st l = lll_lock_type k /\
  fom_of st l = lll_fom k /\ lll_fom k <> 0 /\ is_Some (st_foms st !! lll_fom k).
Proof.
  intros (f & k & Hv & Hne & Hf). unfold kind, fom_of, link_view, fom_view in *.
  destruct (st_links st !! l) as [x|]; [|done]. cbn in *. exists x. injection Hv as E1 E2 E3.
  rewrite E1, E3 in *.
  repeat split; try done. by apply fmap_is_Some in Hf.
Qed.

Lemma set_addb2_same st l k a : st_links st !! l = Some k -> same st (with_link st l (set_addb2 k a)).
Proof.
  intros Hk. split; [done|]. split; [done|]. split; [done|]. split.
  - intros l'. unfold link_view. cbn. destruct (decide (l' = l)) as [->|];
      [by rewrite lookup_insert_eq, Hk|by rewrite lookup_insert_ne].
  - cbn. apply dom_insert_lookup_L. by eexists.
Qed.

Lemma same_refl st : same st st.
Proof. done. Qed.

Lemma addb2_reset_ok st l : link_ok st l -> exists st', ll_addb2_reset st l = Some st' /\ same st st'.
Proof.
  intros (k & Hk & _)%link_record. unfold ll_addb2_reset. rewrite Hk. cbn. eexists. split; [done|].
  destruct (lll_addb2 k); [by apply set_addb2_same|done].
Qed.

Lemma addb2_wait_start_ok st l : link_ok st l -> exists st', ll_addb2_wait_start st l = Some st' /\
  same st st'.
Proof.
  intros (k & Hk & _)%link_record. unfold ll_addb2_wait_start. rewrite Hk. cbn. eexists. split; [done|].
  destruct (lll_addb2 k); [by apply set_addb2_same|done].
Qed.

Lemma addb2_wait_finish_ok now st l :
  link_ok st l -> exists st', ll_addb2_wait_finish now st l = Some st' /\ same st st'.
Proof.
  intros (k & Hk & _ & _ & _ & [f Hf])%link_record. unfold ll_addb2_wait_finish. rewrite Hk. cbn.
  destruct (lll_addb2 k) as [a|]; [|by exists st].
  destruct (la_waiting a); [rewrite Hf|]; cbn; eexists; (split; [done|]); by apply set_addb2_same.
Qed.

Lemma same_link_ok st st' l : same st st' -> link_ok st l -> link_ok st' l.
Proof.
  intros (_ & _ & Hf & Hl & _) (f & k & ? & ? & ?). exists f, k. unfold fom_view. by rewrite Hl, Hf.
Qed.

Lemma can_lock_ok st s os ws l :
  ll_mid st s os ws -> link_ok st l -> can_lock st l = Some (can (kind st) os l).
Proof.
  intros Hmid (k & Hk & Hkind & _)%link_record. unfold can_lock. rewrite Hk. cbn. f_equal.
  rewrite (ok_state _ _ _ _ Hmid), <- Hkind. unfold can, is_reader at 1.
  destruct (kind st l) eqn:E.
  - rewrite (bool_decide_true (M0_LONG_LOCK_READER = M0_LONG_LOCK_READER)) by done.
    destruct (ok_kinds _ _ _ _ Hmid) as [H|(o & -> & H)].
    + rewrite H. apply bool_decide_eq_true. destruct os as [|o os]; [done|]. cbn [lock_state forallb] in *.
      apply andb_prop in H as [-> _]. done.
    + cbn [lock_state forallb]. rewrite H. done.
  - rewrite (bool_decide_false (M0_LONG_LOCK_WRITER = M0_LONG_LOCK_READER)) by done.
    destruct os as [|o os]; [done|]. cbn [lock_state].
    by destruct (is_reader (kind st) o).
Qed.

(** The state of the lock after granting it to a link. *)
Definition granted_state st (l : Z) : m0_long_lock_state :=
  if is_reader (kind st) l then M0_LONG_LOCK_RD_LOCKED else M0_LONG_LOCK_WR_LOCKED.

Lemma grant_ok now st l t :
  link_ok st l -> tl_move_tail (st_tl st) (l_owners (st_lock st)) l = Some t ->
  exists st', grant now st l = Some st' /\ st_tl st' = t /\
    st_lock st' = set_state (st_lock st) (granted_state st l) /\ st_foms st' = st_foms st /\
    (forall l, link_view st' l = link_view st l) /\ dom (st_links st') = dom (st_links st).
Proof.
  intros Hok Ht. destruct (link_record _ _ Hok) as (k & Hk & Hkind & _). unfold grant. rewrite Hk.
  cbn [mbind option_bind].
  set (st1 := with_lock st _). destruct (addb2_wait_finish_ok now st1 l)
    as (st2 & -> & (E1 & E2 & E3 & E4 & E5)).
  { destruct Hok as (f & ? & ? & ? & ?). by exists f, x. }
  cbn [mbind option_bind]. rewrite E1, E2. cbn [st_tl st_lock with_lock st1]. unfold st1.
  cbn [st_tl with_lock].
  cbn [st_lock with_lock set_state l_owners]. rewrite Ht. cbn [mbind option_bind]. eexists. split; [done|].
  split; [done|]. cbn. rewrite E2. split; [|done]. unfold granted_state, is_reader. rewrite Hkind.
  by destruct (lll_lock_type k).
Qed.

(** Granting the lock to a link that was moved to the owners. *)
Lemma granted_mid st st' s s' os ws ws' l :
  ll_mid st s os ws -> can (kind st) os l = true -> link_ok st l ->
  st_lock st' = set_state (st_lock st) (granted_state st l) -> st_foms st' = st_foms st ->
  (forall l, link_view st' l = link_view st l) -> rep (st_tl st') s' ->
  tl_lists s' !! l_owners (st_lock st) = Some (os ++ [l]) ->
  tl_lists s' !! l_waiters (st_lock st) = Some ws' ->
  (forall x, x ∈ ws' -> x ∈ ws) ->
  ll_mid st' s' (os ++ [l]) ws'.
Proof.
  intros Hmid Hcan Hl Hlock Hfoms Hlinks Hrep Ho Hw Hsub. destruct Hmid as [_ _ _ Hh Hm Hlk Hst Hk Hf Ha].
  assert (forall x, fom_view st' x = fom_view st x) as Hfv by (intros x; unfold fom_view; by rewrite Hfoms).
  assert (forall x, is_reader (kind st') x = is_reader (kind st) x) as Hr
    by (intros x; unfold is_reader; by rewrite (kind_ext st st' x (Hlinks x))).
  assert (forallb (is_reader (kind st')) (os ++ [l]) = true \/ (os = [] /\ is_reader (kind st) l = false))
    as Hk'.
  { unfold can in Hcan. destruct (is_reader (kind st) l) eqn:El;
      [left|right; by apply bool_decide_eq_true in Hcan].
    rewrite forallb_app, (forallb_ext_in _ (is_reader (kind st)) os), Hcan by auto. cbn [forallb].
    by rewrite Hr, El. }
  split; rewrite ?Hlock; cbn [set_state l_owners l_waiters l_magix l_state]; try done.
  - intros x Hx. assert (link_ok st x) as (f & k & ? & ? & ?).
    { rewrite !elem_of_app, list_elem_of_singleton in Hx.
      destruct Hx as [[Hx| ->]|Hx%Hsub]; [apply Hlk; set_solver|done|apply Hlk; set_solver]. }
    exists f, k. by rewrite Hlinks, Hfv.
  - unfold granted_state. destruct os as [|o os]; cbn [app lock_state]; [by rewrite Hr|]. rewrite Hr.
    destruct Hk' as [Hk'|[? _]]; [|done]. cbn [app forallb] in Hk'. rewrite Hr in Hk'.
    apply andb_prop in Hk' as [-> Hk'].
    rewrite forallb_app in Hk'. apply andb_prop in Hk' as [_ Hk']. cbn [forallb] in Hk'. rewrite Hr in Hk'.
    apply andb_prop in Hk' as [-> _]. done.
  - destruct Hk' as [|[-> Hl']]; [by left|]. right. exists l. by rewrite Hr.
  - intros w1 w2 H1 H2. rewrite (fom_of_ext st st' w1 (Hlinks w1)), (fom_of_ext st st' w2 (Hlinks w2)). auto.
  - intros w Hin. unfold asleep. rewrite (fom_of_ext st st' w (Hlinks w)), Hfv. by apply Ha, Hsub.
Qed.

(** A request that has to wait. *)
Lemma waiting_mid st st' s s' os ws l :
  ll_mid st s os ws -> link_ok st l -> st_lock st' = st_lock st ->
  (forall x, link_view st' x = link_view st x) ->
  (forall f, f <> fom_of st l -> fom_view st' f = fom_view st f) -> asleep st' (fom_of st l) ->
  (forall w, w ∈ ws -> fom_of st w <> fom_of st l) -> rep (st_tl st') s' ->
  tl_lists s' !! l_owners (st_lock st) = Some os ->
  tl_lists s' !! l_waiters (st_lock st) = Some (ws ++ [l]) ->
  ll_mid st' s' os (ws ++ [l]).
Proof.
  intros Hmid Hl Hlock Hlinks Hfoms Has Hne Hrep Ho Hw. destruct Hmid as [_ _ _ Hh Hm Hlk Hst Hk Hf Ha].
  assert (forall x, is_reader (kind st') x = is_reader (kind st) x) as Hr
    by (intros x; unfold is_reader; by rewrite (kind_ext st st' x (Hlinks x))).
  assert (forall f, is_Some (fom_view st f) -> is_Some (fom_view st' f)) as Hsome.
  { intros f Hsm. destruct (decide (f = fom_of st l)) as [->|]; [|by rewrite Hfoms].
    destruct Has as (n & -> & _). by eexists. }
  split; rewrite ?Hlock; try done.
  - intros x Hx. assert (link_ok st x) as (f & k & ? & ? & ?).
    { rewrite !elem_of_app, list_elem_of_singleton in Hx.
      destruct Hx as [Hx|[Hx| ->]]; [apply Hlk; set_solver|apply Hlk; set_solver|done]. }
    exists f, k. rewrite Hlinks. auto.
  - rewrite Hst. destruct os as [|o os]; [done|]. cbn [lock_state]. by rewrite Hr.
  - rewrite (forallb_ext_in (is_reader (kind st')) (is_reader (kind st))) by auto.
    destruct Hk as [|(o & ? & ?)]; [by left|right; exists o; by rewrite Hr].
  - intros w1 w2 H1 H2. rewrite (fom_of_ext st st' w1 (Hlinks w1)), (fom_of_ext st st' w2 (Hlinks w2)).
    rewrite elem_of_app, list_elem_of_singleton in H1, H2. destruct H1 as [H1| ->], H2 as [H2| ->]; auto.
    + intros E. by apply Hne in E.
    + intros E. symmetry in E. by apply Hne in E.
  - intros w Hin. rewrite (fom_of_ext st st' w (Hlinks w)).
    rewrite elem_of_app, list_elem_of_singleton in Hin.
    destruct Hin as [Hin| ->]; [|done]. unfold asleep. rewrite Hfoms by auto. by apply Ha.
Qed.

Lemma phase_set_ok fuel st fom phase f m :
  st_foms st !! fom = Some f -> m0_sm_state_set fuel (fo_conf f) (fo_sm_phase f) phase = Some m ->
  exists st', m0_fom_phase_set fuel st fom phase = Some st' /\ st_tl st' = st_tl st /\
  st_lock st' = st_lock st /\
    st_links st' = st_links st /\ forall f, fom_view st' f = fom_view st f.
Proof.
  intros Hf Hm. unfold m0_fom_phase_set. rewrite Hf. cbn [mbind option_bind]. rewrite Hm.
  cbn [mbind option_bind].
  eexists. split; [done|]. split; [done|]. split; [done|]. split; [done|]. intros f'. unfold fom_view. cbn.
  destruct (decide (f' = fom)) as [->|]; [by rewrite lookup_insert_eq, Hf|by rewrite lookup_insert_ne].
Qed.

Lemma save_transitions_ok st fom f :
  st_foms st !! fom = Some f ->
  exists st' f', save_transitions st fom = Some st' /\ st_tl st' = st_tl st /\ st_lock st' = st_lock st /\
    st_links st' = st_links st /\ st_foms st' = <[fom := f']> (st_foms st) /\ fo_conf f' = fo_conf f /\
    fo_sm_phase f' = fo_sm_phase f /\ fom_view st' fom = Some (fo_ast_posted f, 0).
Proof.
  intros Hf. unfold save_transitions. rewrite Hf. cbn [mbind option_bind]. eexists _, _.
  repeat (split; [done|]). unfold fom_view. cbn. rewrite lookup_insert_eq. cbn. do 2 f_equal.
  by rewrite Z.sub_diag.
Qed.

(** The fom of a link may go to the given phase. *)
Definition phase_allowed (fuel : nat) st (l phase : Z) : Prop :=
  exists f m, st_foms st !! fom_of st l = Some f /\
    m0_sm_state_set fuel (fo_conf f) (fo_sm_phase f) phase = Some m.

(** A link with which the lock may be requested: initialised, on no list, of a fom
    that is awake and does not wait for the lock with another link. *)
Definition requestable (fuel : nat) st (free : gset Z) ws (l phase : Z) : Prop :=
  l ∈ free /\ link_ok st l /\ phase_allowed fuel st l phase /\
  (exists n, fom_view st (fom_of st l) = Some (false, n)) /\ forall w, w ∈ ws -> fom_of st w <> fom_of st l.

Lemma unlock_mutex_ok st s os ws :
  ll_ok st s os ws -> l_lock (st_lock st) = true ->
  exists st', m0_mutex_unlock st = Some st' /\ ll_ok st' s os ws /\ l_lock (st_lock st') = false /\
    (forall l, link_view st' l = link_view st l) /\ st_foms st' = st_foms st.
Proof.
  intros [Hmid Hw] Hl. unfold m0_mutex_unlock. rewrite Hl. cbn. eexists. split; [done|].
  split; [|done]. split; [by eapply ll_mid_ext; [..|exact Hmid]|exact Hw].
Qed.

Lemma lock_mutex_ok st s os ws :
  ll_ok st s os ws -> l_lock (st_lock st) = false ->
  exists st', m0_mutex_lock st = Some st' /\ ll_ok st' s os ws /\ l_lock (st_lock st') = true /\
    st_tl st' = st_tl st /\ st_links st' = st_links st /\ st_foms st' = st_foms st.
Proof.
  intros [Hmid Hw] Hl. unfold m0_mutex_lock. rewrite Hl. cbn. eexists. split; [done|].
  split; [|done]. split; [by eapply ll_mid_ext; [..|exact Hmid]|exact Hw].
Qed.

(** A request granted at once. *)
Lemma grant_free_ok now st s os l :
  ll_mid st s os [] -> l ∈ tl_free s -> link_ok st l -> can (kind st) os l = true ->
  exists st' s', grant now st l = Some st' /\ ll_mid st' s' (os ++ [l]) [] /\
    tl_free s' = tl_free s ∖ {[l]} /\ st_foms st' = st_foms st /\
    (forall l, link_view st' l = link_view st l) /\ l_lock (st_lock st') = l_lock (st_lock st).
Proof.
  intros Hmid Hfree Hlk Hcan.
  destruct (tl_move_tail_free _ _ _ _ _ (ok_rep _ _ _ _ Hmid) (ok_owners _ _ _ _ Hmid) Hfree)
    as (t & Ht & Hrep).
  destruct (grant_ok now st l t Hlk Ht) as (st' & Eg & E1 & E2 & E3 & E4 & _). rewrite <- E1 in Hrep.
  match type of Hrep with rep _ ?x => exists st', x end. split; [exact Eg|].
  split; [|split; [done|by rewrite E2]]. eapply granted_mid; try done.
  - cbn. by rewrite lookup_insert_eq.
  - cbn. rewrite lookup_insert_ne by apply (ok_heads _ _ _ _ Hmid). apply (ok_waiters _ _ _ _ Hmid).
Qed.

Lemma same_mid st st' s os ws : same st st' -> ll_mid st s os ws -> ll_mid st' s os ws.
Proof.
  intros (E1 & E2 & E3 & E4 & _). apply ll_mid_ext; rewrite ?E2; try done. intros f. unfold fom_view.
  by rewrite E3.
Qed.

(** A request added to the waiters. *)
Lemma wait_free_ok st s os ws l f :
  ll_mid st s os ws -> l ∈ tl_free s -> link_ok st l ->
  (forall w, w ∈ ws -> fom_of st w <> fom_of st l) ->
  st_foms st !! fom_of st l = Some f -> fo_ast_posted f = false ->
  exists st' s' f', (st1 ← ll_addb2_wait_start st l; st2 ← save_transitions st1 (fom_of st l);
      t ← tl_add_tail (st_tl st2) (l_waiters (st_lock st2)) l; Some (with_tl st2 t)) = Some st' /\
    ll_mid st' s' os (ws ++ [l]) /\ tl_free s' = tl_free s ∖ {[l]} /\ st_foms st' !! fom_of st l = Some f' /\
    fo_conf f' = fo_conf f /\
    fo_sm_phase f' = fo_sm_phase f /\ (forall l, link_view st' l = link_view st l) /\
    l_lock (st_lock st') = l_lock (st_lock st).
Proof.
  intros Hmid Hfree Hlk Hne Hf Hp. destruct (addb2_wait_start_ok st l Hlk) as (st1 & -> & Hs).
  cbn [mbind option_bind].
  pose proof (same_mid _ _ _ _ _ Hs Hmid) as Hmid1. pose proof (same_link_ok _ _ _ Hs Hlk) as Hlk1.
  destruct Hs as (E1 & E2 & E3 & E4 & _). rewrite <- E3 in Hf. rewrite <- (fom_of_ext st st1 l (E4 l)) in *.
  assert (forall w, w ∈ ws -> fom_of st1 w <> fom_of st1 l) as Hne1
    by (intros w Hw; rewrite (fom_of_ext st st1 w (E4 w)); by apply Hne).
  destruct (save_transitions_ok st1 _ f Hf) as (st2 & f' & -> & F1 & F2 & F3 & F4 & F5 & F6 & F7).
  cbn [mbind option_bind]. rewrite F1, F2.
  destruct (tl_add_tail_ok _ _ _ _ _ (ok_rep _ _ _ _ Hmid1) (ok_waiters _ _ _ _ Hmid1) Hfree)
    as (t & -> & Hrep).
  cbn [mbind option_bind]. assert (forall x, link_view st2 x = link_view st1 x) as Hl2
    by (intros x; unfold link_view; by rewrite F3).
  match type of Hrep with rep _ ?x => eexists _, x, f' end. split; [done|].
  split; [|cbn; rewrite F4, lookup_insert_eq, F2, E2; repeat split; try done;
    intros x; rewrite <- E4, <- Hl2; done].
  eapply (waiting_mid st1); cbn; try done.
  - intros g Hg. unfold fom_view. cbn. by rewrite F4, lookup_insert_ne.
  - exists 0. unfold fom_view in *. cbn in *. rewrite F7, Hp. auto.
  - cbn. rewrite lookup_insert_ne by (apply not_eq_sym, (ok_heads _ _ _ _ Hmid1)).
    apply (ok_owners _ _ _ _ Hmid1).
  - cbn. by rewrite lookup_insert_eq.
Qed.

Lemma must_wait_ext st st' os ws :
  (forall l, link_view st' l = link_view st l) -> must_wait st os ws -> must_wait st' os ws.
Proof. intros H. destruct ws as [|w ws]; [done|]. cbn. by rewrite (can_ext st st'). Qed.

(** The part of lock() between the assertions. *)
Lemma lock_body_ok fuel now st s os ws l phase :
  ll_ok st s os ws -> requestable fuel st (tl_free s) ws l phase ->
  exists st' s' os' ws' got, spec_lock (kind st) os ws l = (got, os', ws') /\
    (st1 ← ll_addb2_reset st l;
     st4 ← (if (got : bool) then grant now st1 l
            else st2 ← ll_addb2_wait_start st1 l; st3 ← save_transitions st2 (fom_of st l);
                 t ← tl_add_tail (st_tl st3) (l_waiters (st_lock st3)) l; Some (with_tl st3 t));
     m0_fom_phase_set fuel st4 (fom_of st l) phase) = Some st' /\
    ll_ok st' s' os' ws' /\ tl_free s' = tl_free s ∖ {[l]} /\ (forall l, link_view st' l = link_view st l) /\
    l_lock (st_lock st') = l_lock (st_lock st).
Proof.
  intros [Hmid0 Hwait] (Hfree & Hlk0 & (f & m & Hf & Hm) & (nf & Hnf) & Hne).
  destruct (addb2_reset_ok st l Hlk0) as (st1 & -> & Hs). cbn [mbind option_bind].
  pose proof (same_mid _ _ _ _ _ Hs Hmid0) as Hmid. pose proof (same_link_ok _ _ _ Hs Hlk0) as Hlk.
  destruct Hs as (E1 & E2 & E3 & E4 & _). pose proof (fom_of_ext st st1 l (E4 l)) as Efom.
  assert (exists st4 s' os' ws' got f', spec_lock (kind st) os ws l = (got, os', ws') /\
    (if (got : bool) then grant now st1 l
     else st2 ← ll_addb2_wait_start st1 l; st3 ← save_transitions st2 (fom_of st l);
          t ← tl_add_tail (st_tl st3) (l_waiters (st_lock st3)) l; Some (with_tl st3 t)) = Some st4 /\
    ll_mid st4 s' os' ws' /\ tl_free s' = tl_free s ∖ {[l]} /\ must_wait st os' ws' /\
      (forall l, link_view st4 l = link_view st1 l) /\
    l_lock (st_lock st4) = l_lock (st_lock st1) /\ st_foms st4 !! fom_of st l = Some f' /\
    fo_conf f' = fo_conf f /\ fo_sm_phase f' = fo_sm_phase f)
    as (st4 & s' & os' & ws' & got & f' & Hspec & Hrun & Hmid' & Hfree' & Hwait' & Hv & Hl & Hf' & Hc & Hsm).
  - unfold spec_lock. destruct (bool_decide (ws = []) && can (kind st) os l) eqn:Hgot.
    + apply andb_prop in Hgot as [->%bool_decide_eq_true Hcan].
      destruct (grant_free_ok now st1 s os l) as (st' & s' & ? & ? & ? & Hf' & ? & ?); try done.
      { by rewrite (can_ext st st1). }
      eexists st', s', _, _, _, f. rewrite Hf', E3. by split_and!.
    + destruct (wait_free_ok st1 s os ws l f) as (st' & s' & f' & Hr & ? & ? & ? & ? & ? & ? & ?); try done.
      { intros w Hw. rewrite Efom, (fom_of_ext st st1 w (E4 w)). by apply Hne. }
      { by rewrite Efom, E3. }
      { unfold fom_view in Hnf. rewrite Hf in Hnf. cbn in Hnf. by injection Hnf. }
      rewrite Efom in *. eexists st', s', _, _, _, f'. split_and!; try done.
      destruct ws as [|w ws]; [|done]. exact Hgot.
  - destruct (phase_set_ok fuel st4 (fom_of st l) phase f' m) as (st5 & Hp & P1 & P2 & P3 & P4);
      [done|by rewrite Hc, Hsm|]. assert (forall x, link_view st5 x = link_view st4 x) as Hv5
      by (intros x; unfold link_view; by rewrite P3).
    exists st5, s', os', ws', got. split; [done|]. rewrite Hrun. cbn [mbind option_bind]. split; [done|].
    assert (forall x, link_view st5 x = link_view st x) as Hvv by (intros x; by rewrite Hv5, Hv).
    split_and!; [|done|done|by rewrite P2, Hl, E2]. split; [|by eapply must_wait_ext].
    by eapply ll_mid_ext; [..|exact Hmid']; rewrite ?P2.
Qed.

Lemma long_lock_ok fuel now st s os ws l phase :
  ll_ok st s os ws -> l_lock (st_lock st) = false -> requestable fuel st (tl_free s) ws l phase ->
  exists got st' s' os' ws', lock fuel now st l phase = Some (got, st') /\
    spec_lock (kind st) os ws l = (got, os', ws') /\ ll_ok st' s' os' ws' /\ l_lock (st_lock st') = false /\
    tl_free s' = tl_free s ∖ {[l]} /\ (forall l, link_view st' l = link_view st l).
Proof.
  intros Hok0 Hl0 Hreq0. unfold lock.
  destruct (lock_mutex_ok _ _ _ _ Hok0 Hl0) as (st1 & -> & Hok & Hl & E1 & E2 & E3). cbn [mbind option_bind].
  assert (forall x, link_view st1 x = link_view st x) as Hv1 by (intros; unfold link_view; by rewrite E2).
  assert (requestable fuel st1 (tl_free s) ws l phase) as Hreq.
  { unfold requestable, phase_allowed, link_ok, fom_of, fom_view, link_view in *. by rewrite E2, E3. }
  pose proof Hreq as (Hfree & Hlk & _). pose proof (ok_rep _ _ _ _ (proj1 Hok)) as Hrep.
  rewrite (lock_invariant_true _ _ _ _ Hok Hl), (tl_is_in_free _ _ _ Hrep Hfree).
  cbn [mbind option_bind M0_ASSERT negb].
  destruct (link_record _ _ Hlk) as (k & -> & _ & Hfom & Hne & _). cbn [mbind option_bind].
  rewrite (proj2 (Z.eqb_neq _ 0)) by done. cbn [negb mbind option_bind M0_ASSERT].
  rewrite (tl_is_empty_ok _ _ _ _ Hrep (ok_waiters _ _ _ _ (proj1 Hok))),
    (can_lock_ok _ _ _ _ _ (proj1 Hok) Hlk).
  destruct (lock_body_ok fuel now st1 s os ws l phase Hok Hreq)
    as (st2 & s' & os' & ws' & got & Hspec & Hrun & Hok' & Hfree' & Hv' & Hl').
  assert ((Some (bool_decide (ws = [])) &&? Some (can (kind st1) os l)) = Some got) as ->.
  { unfold spec_lock in Hspec. destruct (bool_decide (ws = [])), (can (kind st1) os l); cbn in *;
      congruence. }
  cbn [mbind option_bind]. rewrite <- Hfom. apply bind_Some in Hrun as (a & -> & Hrun).
  cbn [mbind option_bind].
  apply bind_Some in Hrun as (b & Hb & Hrun). rewrite Hb. cbn [mbind option_bind]. rewrite Hrun.
  cbn [mbind option_bind].
  rewrite (lock_invariant_true _ _ _ _ Hok') by congruence. cbn [mbind option_bind M0_ASSERT].
  destruct (unlock_mutex_ok _ _ _ _ Hok') as (st3 & -> & ? & ? & Hv3 & _); [congruence|].
  cbn [mbind option_bind].
  exists got, st3, s', os', ws'. split_and!; try done; [|intros x; by rewrite Hv3, Hv'].
  rewrite <- Hspec. apply spec_lock_ext. intros x. symmetry. by apply kind_ext.
Qed.

(** m0_fom_wakeup() of a fom no waiter belongs to. *)
Lemma wakeup_ok st s os ws f :
  ll_mid st s os ws -> asleep st f -> (forall w, w ∈ ws -> fom_of st w <> f) ->
  exists st' n, m0_fom_wakeup st f = Some st' /\ ll_mid st' s os ws /\ st_tl st' = st_tl st /\
    st_lock st' = st_lock st /\ st_links st' = st_links st /\ fom_view st' f = Some (true, n) /\
    forall g, g <> f -> fom_view st' g = fom_view st g.
Proof.
  intros Hmid (n & Hv & _) Hne. unfold m0_fom_wakeup. unfold fom_view in Hv.
  destruct (st_foms st !! f) as [k|] eqn:Hk; [|done]. cbn in Hv. injection Hv as Hp Hn.
  cbn [mbind option_bind].
  rewrite Hp. cbn [negb mbind option_bind M0_ASSERT]. eexists _, n. split; [done|].
  set (st' := with_fom _ _ _). assert (forall g, g <> f -> fom_view st' g = fom_view st g) as Hg
    by (intros g Hgf; unfold fom_view; cbn; by rewrite lookup_insert_ne).
  assert (fom_view st' f = Some (true, n)) as Hf
    by (unfold fom_view; cbn; rewrite lookup_insert_eq; cbn; by rewrite Hn).
  split_and!; try done. destruct Hmid as [H1 H2 H3 H4 H5 H6 H7 H8 H9 H10]. split; try done.
  - intros l (g & k' & ? & ? & ?)%H6. exists g, k'. split_and!; try done.
    destruct (decide (g = f)) as [->|]; [by rewrite Hf|by rewrite Hg].
  - intros w Hw. unfold asleep. change (fom_of st' w) with (fom_of st w). rewrite Hg by auto. by apply H10.
Qed.

(** Granting the lock to the first waiter and waking its fom up. *)
Lemma grant_waiter_ok now st s os w ws :
  ll_mid st s os (w :: ws) -> can (kind st) os w = true ->
  exists st1 st2 s' k n, grant now st w = Some st1 /\ st_links st1 !! w = Some k /\ lll_fom k = fom_of st w /\
    transitions_ok st1 (lll_fom k) = Some true /\ m0_fom_wakeup st1 (lll_fom k) = Some st2 /\
    ll_mid st2 s' (os ++ [w]) ws /\ tl_free s' = tl_free s /\ l_lock (st_lock st2) = l_lock (st_lock st) /\
    (forall l, link_view st2 l = link_view st l) /\ fom_view st2 (fom_of st w) = Some (true, n) /\
    (forall g, g <> fom_of st w -> fom_view st2 g = fom_view st g).
Proof.
  intros Hmid Hcan. assert (link_ok st w) as Hlk by (apply (ok_links _ _ _ _ Hmid); set_solver).
  pose proof (tl_nodup _ _ _ _ (ok_rep _ _ _ _ Hmid) (ok_waiters _ _ _ _ Hmid)) as Hnd.
  apply NoDup_cons in Hnd as [Hnw _].
  destruct (tl_move_tail_list _ _ _ _ [] w ws os (ok_rep _ _ _ _ Hmid) (ok_waiters _ _ _ _ Hmid)
    (ok_owners _ _ _ _ Hmid)
    (not_eq_sym (ok_heads _ _ _ _ Hmid))) as (t & Ht & Hrep).
  destruct (grant_ok now st w t Hlk Ht) as (st1 & Eg & E1 & E2 & E3 & E4 & _).
  assert (forall x, fom_view st1 x = fom_view st x) as Hfv by (intros x; unfold fom_view; by rewrite E3).
  assert (link_ok st1 w) as Hlk1 by (destruct Hlk as (f & k & ? & ? & ?); exists f, k; by rewrite E4, Hfv).
  destruct (link_record _ _ Hlk1) as (k & Hk & _ & Hfom & _). rewrite (fom_of_ext st st1 w (E4 w)) in Hfom.
  pose proof (ok_asleep _ _ _ _ Hmid w ltac:(set_solver)) as Has.
  destruct (wakeup_ok st1 {| tl_lists := <[l_owners (st_lock st) := os ++ [w]]>
    (<[l_waiters (st_lock st) := ws]> (tl_lists s)); tl_free := tl_free s |} (os ++ [w]) ws (fom_of st w))
    as (st2 & n & Hw & Hmid2 & F1 & F2 & F3 & F4 & F5).
  - eapply (granted_mid st); try done; cbn.
    + by rewrite E1.
    + by rewrite lookup_insert_eq.
    + rewrite lookup_insert_ne, lookup_insert_eq by apply (ok_heads _ _ _ _ Hmid). done.
    + set_solver.
  - unfold asleep. by rewrite Hfv.
  - intros x Hx E. rewrite (fom_of_ext st st1 x (E4 x)) in E.
    apply (ok_foms _ _ _ _ Hmid) in E; [|set_solver..]. by subst.
  - eexists st1, st2, _, k, n. rewrite <- Hfom. split_and!; try done.
    + destruct Has as (i & Hi & Hn). rewrite <- Hfv in Hi. unfold transitions_ok, fom_view in *.
      destruct (st_foms st1 !! fom_of st w) as [f|]; [|done]. cbn in *. injection Hi as _ ->.
      by destruct Hn as [->| ->].
    + by rewrite F2, E2.
    + intros x. unfold link_view. rewrite F3. apply E4.
    + intros g Hg. by rewrite F5, Hfv.
Qed.

Lemma grant_loop_ok now n st s os ws :
  ll_mid st s os ws -> (length ws <= n)%nat ->
  exists st' s' os' ws', grant_loop n now st = Some st' /\ spec_grant (kind st) os ws = (os', ws') /\
    ll_ok st' s' os' ws' /\ tl_free s' = tl_free s /\ l_lock (st_lock st') = l_lock (st_lock st) /\
    (forall l, link_view st' l = link_view st l) /\
    (forall w, w ∈ ws -> w ∉ ws' -> exists n, fom_view st' (fom_of st w) = Some (true, n)) /\
    (forall g, (forall w, w ∈ ws -> fom_of st w <> g) -> fom_view st' g = fom_view st g).
Proof.
  revert n st s os. induction ws as [|w ws IH]; intros n st s os Hmid Hn.
  - exists st, s, os, []. split_and!; try done.
    destruct n; cbn; by rewrite (tl_head_ok _ _ _ _ (ok_rep _ _ _ _ Hmid) (ok_waiters _ _ _ _ Hmid)).
  - destruct n as [|n]; [cbn in Hn; lia|]. assert (link_ok st w) as Hlk
      by (apply (ok_links _ _ _ _ Hmid); set_solver).
    cbn [grant_loop spec_grant]. rewrite (tl_head_ok _ _ _ _ (ok_rep _ _ _ _ Hmid) (ok_waiters _ _ _ _ Hmid)).
    cbn [head mbind option_bind]. rewrite (can_lock_ok _ _ _ _ _ Hmid Hlk). cbn [mbind option_bind].
    destruct (can (kind st) os w) eqn:Hcan; [|by exists st, s, os, (w :: ws); split_and!].
    destruct (grant_waiter_ok now st s os w ws Hmid Hcan)
      as (st1 & st2 & s1 & k & i & -> & Hk & Hf & Ht & Hw & Hmid2 & Hs1 & Hl & Hv & Hfw & Hfo).
    cbn [mbind option_bind]. rewrite Hk. cbn [mbind option_bind]. rewrite Ht.
    cbn [mbind option_bind M0_ASSERT].
    rewrite Hw. cbn [mbind option_bind].
    pose proof (tl_nodup _ _ _ _ (ok_rep _ _ _ _ Hmid) (ok_waiters _ _ _ _ Hmid)) as Hnd.
    apply NoDup_cons in Hnd as [Hnw _].
    assert (forall x, x ∈ ws -> fom_of st x <> fom_of st w) as Hne.
    { intros x Hx E. apply (ok_foms _ _ _ _ Hmid) in E; [|set_solver..]. by subst. }
    destruct (IH n st2 s1 (os ++ [w]) Hmid2)
      as (st' & s' & os' & ws' & Hrun & Hspec & Hok' & Hs' & Hl' & Hv' & Hp & Ho);
      [cbn in Hn; lia|].
    assert (forall x, fom_of st2 x = fom_of st x) as Hfo2 by (intros x; by apply fom_of_ext).
    exists st', s', os', ws'. split_and!; first [exact Hok'|assumption|congruence|idtac].
    + rewrite <- Hspec. apply spec_grant_ext. intros x. symmetry. by apply kind_ext.
    + intros x [->|Hx]%elem_of_cons Hnx; [|rewrite <- Hfo2; auto]. exists i. rewrite Ho; [done|].
      intros y Hy. rewrite Hfo2. auto.
    + intros g Hg. rewrite Ho; [|intros y Hy; rewrite Hfo2; apply Hg; set_solver]. apply Hfo.
      intros ->. eapply Hg; [|done]. set_solver.
Qed.

(** The state of the lock when an owner has left. *)
Definition released_state st os (l : Z) : m0_long_lock_state :=
  if negb (is_reader (kind st) l) || bool_decide (os = []) then M0_LONG_LOCK_UNLOCKED else
    M0_LONG_LOCK_RD_LOCKED.

Lemma released_mid st st' s s' os1 l os2 ws :
  ll_mid st s (os1 ++ l :: os2) ws -> st_lock st' = set_state (st_lock st) (released_state st (os1 ++ os2) l)
    ->
  st_links st' = st_links st -> st_foms st' = st_foms st -> rep (st_tl st') s' ->
  tl_lists s' = <[l_owners (st_lock st) := os1 ++ os2]> (tl_lists s) ->
  ll_mid st' s' (os1 ++ os2) ws.
Proof.
  intros [H1 H2 H3 H4 H5 H6 H7 H8 H9 H10] Hlock Hlinks Hfoms Hrep Hs.
  assert (forall x, kind st' x = kind st x) as Hkind by (intros; unfold kind, link_view; by rewrite Hlinks).
  assert (forallb (is_reader (kind st)) (os1 ++ os2) = true /\
    (is_reader (kind st) l = false -> os1 ++ os2 = []))
    as [Hr Hl].
  { destruct H8 as [H8|(o & Ho & H8)].
    - rewrite forallb_app in H8 |- *. cbn [forallb] in H8. apply andb_prop in H8 as [-> H8].
      apply andb_prop in H8 as [Hl ->]. split; [done|congruence].
    - destruct os1 as [|? [|]]; [|done..]. injection Ho as -> ->. done. }
  split; rewrite ?Hlock; cbn [set_state l_owners l_waiters l_magix l_state]; try done.
  - by rewrite Hs, lookup_insert_eq.
  - rewrite Hs, lookup_insert_ne; done.
  - intros x Hx. unfold link_ok, link_view, fom_view. rewrite Hlinks, Hfoms. apply H6. set_solver.
  - unfold released_state. destruct (is_reader (kind st) l); cbn [negb orb]; [|by rewrite Hl].
    destruct (os1 ++ os2) as [|o os]; [done|]. cbn [lock_state forallb] in *. apply andb_prop in Hr as [Hr _].
    rewrite bool_decide_false by done. unfold is_reader in *. by rewrite Hkind, Hr.
  - left. rewrite <- Hr. apply forallb_ext_in. intros x _. unfold is_reader. by rewrite Hkind.
  - intros w1 w2. unfold fom_of, link_view. rewrite Hlinks. apply H9.
  - intros w Hw. unfold asleep, fom_of, link_view, fom_view. rewrite Hlinks, Hfoms. by apply H10.
Qed.

(** There are no more waiters than links. *)
Lemma waiters_bound st s os ws : ll_mid st s os ws -> (length ws <= size (st_links st))%nat.
Proof.
  intros Hmid. pose proof (tl_nodup _ _ _ _ (ok_rep _ _ _ _ Hmid) (ok_waiters _ _ _ _ Hmid)) as Hnd.
  rewrite <- (size_list_to_set (C := gset Z)), <- size_dom by done. apply subseteq_size. intros w Hw.
  apply elem_of_list_to_set in Hw. apply elem_of_dom.
  destruct (link_record st w) as (k & -> & _); [apply (ok_links _ _ _ _ Hmid); set_solver|done].
Qed.

(** The fom of a link runs in its locality. *)
Definition group_locked st (l : Z) : Prop := m0_fom_group_is_locked st (fom_of st l) = Some true.

Lemma long_unlock_ok now st s os1 l os2 ws chk :
  ll_ok st s (os1 ++ l :: os2) ws -> l_lock (st_lock st) = false -> group_locked st l ->
  exists st' s' os' ws', unlock now st l chk = Some st' /\
  spec_grant (kind st) (os1 ++ os2) ws = (os', ws') /\
    ll_ok st' s' os' ws' /\ l_lock (st_lock st') = false /\ (forall l, link_view st' l = link_view st l) /\
    tl_free s' = {[l]} ∪ tl_free s /\
    (forall w, w ∈ ws -> w ∉ ws' -> exists n, fom_view st' (fom_of st w) = Some (true, n)).
Proof.
  intros Hok0 Hl0 Hg. unfold unlock. assert (link_ok st l) as Hlk
    by (apply (ok_links _ _ _ _ (proj1 Hok0)); set_solver).
  destruct (link_record _ _ Hlk) as (k & Hk & Hkind & Hfom & _). rewrite Hk. cbn [mbind option_bind].
  destruct (lock_mutex_ok _ _ _ _ Hok0 Hl0) as (st1 & -> & Hok & Hl & E1 & E2 & E3). cbn [mbind option_bind].
  pose proof (ok_rep _ _ _ _ (proj1 Hok)) as Hrep. pose proof (ok_owners _ _ _ _ (proj1 Hok)) as Ho.
  rewrite (tl_contains_ok _ _ _ (l_owners (st_lock st1)) _ (os1 ++ l :: os2) l Hrep Ho)
    by (right; split; [done|set_solver]).
  rewrite (bool_decide_true (l ∈ os1 ++ l :: os2)) by set_solver.
  assert ((if chk then Some true else Some true) = Some true) as -> by (by destruct chk).
  cbn [mbind option_bind negb].
  rewrite (lock_invariant_true _ _ _ _ Hok Hl). cbn [mbind option_bind M0_ASSERT].
  assert (m0_fom_group_is_locked st1 (lll_fom k) = Some true) as ->
    by (unfold group_locked, m0_fom_group_is_locked in *; by rewrite E3, <- Hfom).
  cbn [mbind option_bind M0_ASSERT]. destruct (tl_del_ok _ _ _ _ _ _ Hrep Ho) as (t & -> & Hrep').
  cbn [mbind option_bind]. cbn [with_tl st_tl st_lock].
  erewrite (tl_is_empty_ok t _ (l_owners (st_lock st1)) (os1 ++ os2) Hrep')
    by (cbn; by rewrite lookup_insert_eq).
  assert ((Some (bool_decide (lll_lock_type k = M0_LONG_LOCK_WRITER))
    ||? Some (bool_decide (os1 ++ os2 = []))) =
    Some (negb (is_reader (kind st1) l) || bool_decide (os1 ++ os2 = []))) as ->.
  { unfold is_reader, kind, link_view in *. rewrite E2, Hkind. by destruct (lll_lock_type k). }
  cbn [mbind option_bind]. set (st2 := with_lock _ _).
  pose proof (released_mid st1 st2 s _ os1 l os2 ws (proj1 Hok) eq_refl eq_refl eq_refl Hrep' eq_refl)
    as Hmid2.
  destruct (grant_loop_ok now (size (st_links st2)) st2 _ _ _ Hmid2 (waiters_bound _ _ _ _ Hmid2))
    as (st3 & s3 & os' & ws' & -> & Hspec & Hok3 & Hs3 & Hl3 & Hv3 & Hp & _). cbn [mbind option_bind].
  rewrite (lock_invariant_true _ _ _ _ Hok3) by (by rewrite Hl3). cbn [mbind option_bind M0_ASSERT].
  destruct (unlock_mutex_ok _ _ _ _ Hok3) as (st4 & -> & Hok4 & Hl4 & Hv4 & Hf4); [by rewrite Hl3|].
  assert (forall x, link_view st2 x = link_view st x) as Hv2
    by (intros; unfold link_view; cbn; by rewrite E2).
  exists st4, s3, os', ws'. split_and!; try done.
  - rewrite <- Hspec. apply spec_grant_ext. intros x. symmetry. by apply kind_ext.
  - intros x. by rewrite Hv4, Hv3.
  - intros w Hw Hnw. rewrite <- (fom_of_ext st st2 w (Hv2 w)). unfold fom_view. rewrite Hf4.
    by apply Hp.
Qed.

(** ** The users of the lock *)

(** The store implements the abstract state. *)
Definition ll_rep st (a : ll_abs) : Prop :=
  exists s, ll_ok st s (a_owners a) (a_waiters a) /\ tl_free s = a_free a /\ l_lock (st_lock st) = false /\
    forall l, kind st l = a_kind a l.

(** What the users have to observe: a link is requested when it is free, by a fom
    that is awake; an owner unlocks from the locality of its fom; a fom that waits
    finishes the tick in which it asked, and starts no other. *)
Definition op_pre (fuel : nat) (op : ll_op) st (a : ll_abs) : Prop :=
  match op with
  | OpLock _ l phase => requestable fuel st (a_free a) (a_waiters a) l phase
  | OpUnlock l => l ∈ a_owners a /\ group_locked st l
  | OpUnlockIfOwner l =>
      l ∈ a_owners a /\ group_locked st l \/ (l ∈ a_free a \/ l ∈ a_waiters a) /\ link_ok st l
  | OpTick f => is_Some (st_foms st !! f) /\
      forall w, w ∈ a_waiters a -> fom_of st w = f -> fom_view st f = Some (false, 0)
  | OpAst f => is_Some (st_foms st !! f)
  end.

Fixpoint ops_pre (fuel : nat) (ops : list (Z * ll_op)) st (a : ll_abs) : Prop :=
  match ops with
  | [] => True
  | (now, op) :: ops => op_pre fuel op st a /\
      forall b st', run_op fuel now op st = Some (b, st') -> ops_pre fuel ops st' (spec_op op a).2
  end.

Lemma set_lock_type_ok st s os ws l ty :
  ll_ok st s os ws -> l ∈ tl_free s -> link_ok st l ->
  exists st', set_lock_type st l ty = Some st' /\ ll_ok st' s os ws /\ st_tl st' = st_tl st /\
    st_lock st' = st_lock st /\ st_foms st' = st_foms st /\
    (forall x, kind st' x = set_kind (kind st) l ty x) /\
    link_ok st' l /\ (forall x, fom_of st' x = fom_of st x).
Proof.
  intros [Hmid Hw] Hfree Hlk. destruct (link_record _ _ Hlk) as (k & Hk & _). unfold set_lock_type.
  rewrite Hk.
  cbn [mbind option_bind]. eexists. split; [done|]. set (st' := with_link _ _ _).
  assert (forall x, x <> l -> link_view st' x = link_view st x) as Hv
    by (intros x Hx; unfold link_view; cbn; by rewrite lookup_insert_ne).
  assert (forall x, x ∈ os ++ ws -> link_view st' x = link_view st x) as Hin.
  { intros x Hx. apply Hv. intros ->. apply elem_of_app in Hx as [Hx|Hx];
      (eapply tl_not_free; [..|exact Hx|exact Hfree]); apply Hmid. }
  split_and!; try done.
  - split; [by eapply ll_mid_ext; [..|exact Hmid]|]. destruct ws as [|w ws]; [done|]. unfold must_wait in *.
    rewrite <- Hw.
    unfold can, is_reader. rewrite (kind_ext st st' w) by (apply Hin; set_solver).
    rewrite (forallb_ext_in (fun l => bool_decide (kind st' l = M0_LONG_LOCK_READER))
      (fun l => bool_decide (kind st l = M0_LONG_LOCK_READER))); [done|].
    intros o Ho. rewrite (kind_ext st st' o); [done|]. apply Hin. set_solver.
  - intros x. unfold set_kind. case_decide as E; [subst x|by rewrite (kind_ext st st' x) by auto].
    unfold kind, link_view. cbn. by rewrite lookup_insert_eq.
  - destruct Hlk as (f & ty' & Hl & ? & ?). exists f, ty. split_and!; try done.
    unfold link_view in *. cbn. rewrite lookup_insert_eq. rewrite Hk in Hl. cbn in *.
    by injection Hl as -> -> _.
  - intros x. unfold fom_of, link_view. cbn. destruct (decide (x = l)) as [->|];
      [by rewrite lookup_insert_eq, Hk|by rewrite lookup_insert_ne].
Qed.

Lemma take_ok fuel now st a write l phase :
  ll_rep st a -> requestable fuel st (a_free a) (a_waiters a) l phase ->
  exists b st', m0_long_lock_take fuel now st write l phase = Some (b, st') /\
    (spec_op (OpLock write l phase) a).1 = b /\ ll_rep st' (spec_op (OpLock write l phase) a).2.
Proof.
  intros (s & Hok & Hs & Hl & Hk) (Hfree & Hlk & Hph & Hnf & Hne). rewrite <- Hs in Hfree.
  destruct (set_lock_type_ok st s _ _ l (lock_type write) Hok Hfree Hlk)
    as (st1 & Hset & Hok1 & E1 & E2 & E3 & E4 & Hlk1 & E5).
  destruct (long_lock_ok fuel now st1 s (a_owners a) (a_waiters a) l phase)
    as (got & st2 & s' & os' & ws' & Hrun & Hspec & Hok2 & Hl2 & Hfree2 & Hv2); [done|by rewrite E2| |].
  { split_and!; [done|done|..].
    - destruct Hph as (f & m & ? & ?). exists f, m. by rewrite E3, E5.
    - destruct Hnf as (n & Hn). exists n. unfold fom_view in *. by rewrite E3, E5.
    - intros w Hw. rewrite !E5. by apply Hne. }
  assert (forall x, kind st1 x = set_kind (a_kind a) l (lock_type write) x) as Hk1.
  { intros x. rewrite E4. unfold set_kind. case_decide; [done|]. apply Hk. }
  rewrite (spec_lock_ext _ _ _ _ _ Hk1) in Hspec. exists got, st2. split.
  - unfold m0_long_lock_take, m0_long_write_lock, m0_long_read_lock.
    destruct write; cbn [lock_type] in Hset; rewrite Hset; done.
  - unfold spec_op. rewrite Hspec. split; [done|]. exists s'.
    split_and!; cbn; try done; [by rewrite Hfree2, Hs|].
    intros x. by rewrite <- Hk1, (kind_ext st1 st2 x).
Qed.

Lemma filter_ne os1 l os2 : NoDup (os1 ++ l :: os2) ->
  filter (fun o : Z => o <> l) (os1 ++ l :: os2) = os1 ++ os2.
Proof.
  intros (_ & H1 & (H2 & _)%NoDup_cons)%NoDup_app. rewrite filter_app, filter_cons_False by auto.
  assert (forall xs : list Z, l ∉ xs -> filter (fun o : Z => o <> l) xs = xs) as H.
  { induction xs as [|x xs IH]; intros Hx; [done|]. rewrite filter_cons_True, IH; set_solver. }
  rewrite !H; [done|done|]. intros Hl. apply (H1 l Hl). set_solver.
Qed.

(** Every waiter that got the lock was woken up. *)
Definition woken st st' (a a' : ll_abs) : Prop :=
  forall w, w ∈ a_waiters a -> w ∉ a_waiters a' -> exists n, fom_view st' (fom_of st w) = Some (true, n).

Lemma release_ok now st a l chk :
  ll_rep st a -> l ∈ a_owners a -> group_locked st l ->
  exists st', unlock now st l chk = Some st' /\ ll_rep st' (spec_unlock a l) /\
  woken st st' a (spec_unlock a l).
Proof.
  intros (s & Hok & Hs & Hl & Hk) Ho Hg. unfold spec_unlock. rewrite bool_decide_true by done.
  pose proof (tl_nodup _ _ _ _ (ok_rep _ _ _ _ (proj1 Hok)) (ok_owners _ _ _ _ (proj1 Hok))) as Hnd.
  apply list_elem_of_split in Ho as (os1 & os2 & Ho). rewrite Ho in *. rewrite filter_ne by done.
  destruct (long_unlock_ok now st s os1 l os2 (a_waiters a) chk Hok Hl Hg)
    as (st' & s' & os' & ws' & Hrun & Hspec & Hok' & Hl' & Hv & Hfree & Hp).
  rewrite (spec_grant_ext _ _ _ _ Hk) in Hspec. rewrite Hspec. exists st'. split_and!; [done| |exact Hp].
  exists s'. split_and!; cbn; try done; [by rewrite Hfree, Hs|]. intros x.
  by rewrite <- Hk, (kind_ext st st' x).
Qed.

Lemma unlock_other_ok now st a l :
  ll_rep st a -> l ∈ a_free a \/ l ∈ a_waiters a -> link_ok st l ->
  exists st', unlock now st l true = Some st' /\ ll_rep st' a /\ spec_unlock a l = a.
Proof.
  intros (s & Hok0 & Hs & Hl0 & Hk) Hin Hlk. destruct (link_record _ _ Hlk) as (k & Hk' & _).
  unfold unlock. rewrite Hk'. cbn [mbind option_bind].
  destruct (lock_mutex_ok _ _ _ _ Hok0 Hl0) as (st1 & -> & Hok & Hl & E1 & E2 & E3). cbn [mbind option_bind].
  destruct (proj1 Hok) as [Hrep Ho Hw Hh _ _ _ _ _ _].
  assert (l ∉ a_owners a) as Hno.
  { intros Hlo. rewrite <- Hs in Hin. destruct Hin as [Hin|Hin];
      [exact (tl_not_free _ _ _ _ _ Hrep Ho Hlo Hin)|].
    apply Hh. exact (tl_disjoint _ _ _ _ _ _ _ Hrep Ho Hw Hlo Hin). }
  rewrite (tl_contains_ok _ _ _ (l_waiters (st_lock st1)) (a_owners a) (a_waiters a) l Hrep Ho)
    by (rewrite Hs; destruct Hin; [by left|by right]).
  rewrite (bool_decide_false (l ∈ a_owners a)) by done. cbn [mbind option_bind negb].
  destruct (unlock_mutex_ok _ _ _ _ Hok Hl) as (st2 & -> & Hok2 & Hl2 & Hv & Hf). exists st2. split; [done|].
  split.
  - exists s. split_and!; try done. intros x. rewrite <- Hk, (kind_ext st1 st2 x) by done.
    apply kind_ext. unfold link_view. by rewrite E2.
  - unfold spec_unlock. by rewrite bool_decide_false.
Qed.

(** A change of the fom alone. *)
Lemma fom_rep st a fom f :
  ll_rep st a -> is_Some (st_foms st !! fom) ->
  (forall w, w ∈ a_waiters a -> fom_of st w = fom -> asleep (with_fom st fom f) fom) ->
  ll_rep (with_fom st fom f) a.
Proof.
  intros (s & [Hmid Hw] & Hs & Hl & Hk) Hf Ha. exists s. split_and!; try done. split; [|done].
  destruct Hmid as [H1 H2 H3 H4 H5 H6 H7 H8 H9 H10]. split; try done.
  - intros l (g & k & ? & ? & Hg)%H6. exists g, k. split_and!; try done. unfold fom_view in *. cbn.
    destruct (decide (g = fom)) as [->|]; [by rewrite lookup_insert_eq|by rewrite lookup_insert_ne].
  - intros w Hin. change (fom_of (with_fom st fom f) w) with (fom_of st w).
    destruct (decide (fom_of st w = fom)) as [E|]; [rewrite E; by eapply Ha|].
    destruct (H10 w Hin) as (i & Hi & ?). exists i. split; [|done]. unfold fom_view in *. cbn.
    by rewrite lookup_insert_ne.
Qed.

Lemma tick_ok st a fom :
  ll_rep st a -> op_pre 0 (OpTick fom) st a -> exists st', fom_tick st fom = Some st' /\ ll_rep st' a.
Proof.
  intros Hrep [[f Hf] Hw]. unfold fom_tick. rewrite Hf. eexists. split; [done|].
  apply fom_rep; [done|by eexists|].
  intros w Hin E. specialize (Hw w Hin E). exists 1. split; [|by right]. unfold fom_view in *. cbn.
  rewrite lookup_insert_eq. rewrite Hf in Hw. cbn in *. injection Hw as -> Hd. do 2 f_equal.
  unfold u32 in *. rewrite Zminus_mod_idemp_l. replace (fo_transitions f + 1 - fo_transitions_saved f)
    with (fo_transitions f - fo_transitions_saved f + 1) by lia. by rewrite <- Zplus_mod_idemp_l, Hd.
Qed.

Lemma ast_ok st a fom :
  ll_rep st a -> is_Some (st_foms st !! fom) -> exists st', ast_taken st fom = Some st' /\ ll_rep st' a.
Proof.
  intros Hrep [f Hf]. unfold ast_taken. rewrite Hf. eexists. split; [done|].
  apply fom_rep; [done|by eexists|].
  intros w Hin E. destruct Hrep as (s & [Hmid _] & _).
  destruct (ok_asleep _ _ _ _ Hmid w Hin) as (n & Hn & ?).
  exists n. split; [|done]. rewrite E in Hn. unfold fom_view in *. cbn. rewrite lookup_insert_eq.
  rewrite Hf in Hn.
  cbn in *. by injection Hn as _ ->.
Qed.

Lemma ll_rep_exclusive st a : ll_rep st a -> exclusive a.
Proof.
  intros (s & [Hmid _] & _ & _ & Hk). destruct (ok_kinds _ _ _ _ Hmid) as [H|(o & Ho & _)];
    [left|right; by rewrite Ho].
  apply Forall_forall. intros o Ho. rewrite <- Hk.
  apply forallb_forall with (x := o) in H; [|by apply list_elem_of_In].
  unfold is_reader in H. by apply bool_decide_eq_true in H.
Qed.

Lemma ll_step_ok fuel now op st a :
  ll_rep st a -> op_pre fuel op st a ->
  exists b st', run_op fuel now op st = Some (b, st') /\ (spec_op op a).1 = b /\
  ll_rep st' (spec_op op a).2 /\
    woken st st' a (spec_op op a).2.
Proof.
  intros Hrep Hpre.
  assert (forall a', a_waiters a' = a_waiters a -> forall st', woken st st' a a') as Hsame.
  { intros a' E st' w Hw. by rewrite E. }
  destruct op as [write l phase|l|l|f|f]; cbn [op_pre run_op] in *.
  - destruct (take_ok fuel now st a write l phase Hrep Hpre) as (b & st' & -> & ? & ?). exists b, st'.
    split_and!; try done. intros w Hw Hn. exfalso. apply Hn. unfold spec_op.
    destruct (spec_lock _ _ _ _) as [[b' os'] ws'] eqn:Hs. cbn. unfold spec_lock in Hs.
    case_match; injection Hs as <- <- <-; set_solver.
  - destruct Hpre as [Ho Hg]. destruct (release_ok now st a l false Hrep Ho Hg) as (st' & Hrun & ? & ?).
    assert (exists k, st_links st !! l = Some k) as [k ->].
    { destruct Hrep as (s & [Hmid _] & _). destruct (link_record st l) as (k & ? & _); [|by exists k].
      apply (ok_links _ _ _ _ Hmid). set_solver. }
    exists false, st'. cbn. unfold m0_long_read_unlock, m0_long_write_unlock. rewrite Hrun.
    by destruct (lll_lock_type k).
  - unfold m0_long_unlock. destruct Hpre as [[Ho Hg]|[Hin Hlk]].
    + destruct (release_ok now st a l true Hrep Ho Hg) as (st' & -> & ? & ?). by exists false, st'.
    + destruct (unlock_other_ok now st a l Hrep Hin Hlk) as (st' & -> & ? & E). exists false, st'. cbn.
      rewrite E. split_and!; try done. by apply Hsame.
  - destruct (tick_ok st a f Hrep Hpre) as (st' & -> & ?). exists false, st'. split_and!; try done.
    by apply Hsame.
  - destruct (ast_ok st a f Hrep Hpre) as (st' & -> & ?). exists false, st'. split_and!; try done.
    by apply Hsame.
Qed.

(** ** Lemmas: waiting *)

Lemma position_app w ws xs : w ∈ ws -> position w (ws ++ xs) = position w ws.
Proof.
  induction ws as [|x ws IH]; intros H; [by apply not_elem_of_nil in H|]. cbn. case_decide; [done|].
  rewrite IH; [done|set_solver].
Qed.

(** Granting the lock to earlier waiters changes nothing for a later one. *)
Lemma spec_grant_ahead k os ws w os' ws' :
  w ∈ ws -> spec_grant k os ws = (os', ws') ->
  w ∈ os' \/ w ∈ ws' /\ (length os' + position w ws' = length os + position w ws)%nat.
Proof.
  revert os. induction ws as [|x ws IH]; intros os Hw Hs; [by apply not_elem_of_nil in Hw|]. cbn in Hs.
  destruct (can k os x); [|injection Hs as <- <-; auto]. destruct (decide (x = w)) as [->|Hne].
  - left. assert (w ∈ os ++ [w]) as Hin by set_solver. revert Hin Hs. generalize (os ++ [w]). clear.
    induction ws as [|x ws IH]; intros os Hin Hs; cbn in Hs; [by injection Hs as <- <-|].
    destruct (can k os x); [|by injection Hs as <- <-]. apply (IH (os ++ [x])); [set_solver|done].
  - apply IH in Hs; [|set_solver]. rewrite length_app in Hs. cbn in *. rewrite decide_False by done.
    destruct Hs as [|[? ?]]; [by left|right; split; [done|lia]].
Qed.

Lemma spec_op_ahead op st a w :
  ll_rep st a -> w ∈ a_waiters a ->
  w ∈ a_owners (spec_op op a).2 \/
  w ∈ a_waiters (spec_op op a).2 /\ (ahead w (spec_op op a).2 + releases_op op a = ahead w a)%nat.
Proof.
  intros (s & [Hmid _] & _) Hw.
  pose proof (tl_nodup _ _ _ _ (ok_rep _ _ _ _ Hmid) (ok_owners _ _ _ _ Hmid)) as Hnd.
  assert (forall l, w ∈ a_owners (spec_unlock a l) \/ w ∈ a_waiters (spec_unlock a l) /\
    (ahead w (spec_unlock a l) + (if bool_decide (l ∈ a_owners a) then 1 else 0) = ahead w a)%nat) as Hun.
  { intros l. unfold spec_unlock. case_bool_decide as Ho; [|right; split; [done|lia]].
    destruct (spec_grant _ _ _) as [os' ws'] eqn:Hs. cbn. unfold ahead. cbn.
    apply list_elem_of_split in Ho as (os1 & os2 & Ho). rewrite Ho, filter_ne in Hs by (by rewrite <- Ho).
    destruct (spec_grant_ahead _ _ _ _ _ _ Hw Hs) as [|[? Hl]]; [by left|right; split; [done|]].
    rewrite Ho, !length_app in *. cbn. lia. }
  destruct op as [write l phase|l|l|f|f]; cbn [releases_op spec_op snd]; try apply Hun;
    try (right; split; [done|lia]).
  unfold spec_lock. rewrite bool_decide_false by (intros E; rewrite E in Hw; by apply not_elem_of_nil in Hw).
  cbn.
  right. split; [set_solver|]. unfold ahead. cbn. rewrite position_app by done. lia.
Qed.

Lemma ll_rep_owners st a : ll_rep st a -> a_waiters a <> [] -> a_owners a <> [].
Proof. intros (s & [_ Hw] & _). by eapply must_wait_owners. Qed.

(** C6. The long lock implements a fair reader-writer lock on whichever typed lists
    keep their promises: every operation its users may perform completes without
    failing an assertion, answers and moves the links as the reference does (requests
    wait behind earlier ones, an unlock hands the lock to the longest compatible
    prefix of the waiters), never lets a writer share the lock, and wakes up the fom
    of every waiter that got the lock. *)
Theorem long_lock_refines fuel now op st a :
  ll_rep st a -> op_pre fuel op st a ->
  exists b st' a', run_op fuel now op st = Some (b, st') /\ spec_op op a = (b, a') /\ ll_rep st' a' /\
    exclusive a' /\ woken st st' a a'.
Proof.
  intros Hrep Hpre. destruct (ll_step_ok fuel now op st a Hrep Hpre) as (b & st' & Hrun & Hb & Hrep' & Hw).
  exists b, st', (spec_op op a).2. subst b. split_and!; try done; [by destruct (spec_op op a)|].
  by eapply ll_rep_exclusive.
Qed.

(** C28. No waiter starves: whatever the users do, a request waits for no more
    unlocks than there are owners and earlier waiters; when that many owners have
    left, it has had the lock. *)
Theorem long_lock_bounded_wait fuel ops st a w :
  ll_rep st a -> ops_pre fuel ops st a -> w ∈ a_waiters a -> (ahead w a <= releases ops a)%nat ->
  exists ops1 ops2 bs st', ops = ops1 ++ ops2 /\ run_ops fuel ops1 st = Some (bs, st') /\
    ll_rep st' (spec_ops ops1 a).2 /\ w ∈ a_owners (spec_ops ops1 a).2.
Proof.
  revert st a. induction ops as [|[now op] ops IH]; intros st a Hrep Hpre Hw Hn.
  - apply ll_rep_owners in Hrep; [|intros E; rewrite E in Hw; by apply not_elem_of_nil in Hw].
    unfold ahead in Hn. cbn in Hn. destruct (a_owners a); cbn in *; [done|lia].
  - destruct Hpre as [Hp Hpre]. destruct (ll_step_ok fuel now op st a Hrep Hp)
      as (b & st' & Hrun & Hb & Hrep' & _).
    destruct (spec_op op a) as [b' a'] eqn:Hs. cbn [fst snd] in *. subst b'.
    destruct (spec_op_ahead op st a w Hrep Hw) as [Ho|[Hw' Ha]]; rewrite Hs in *; cbn [snd] in *.
    + exists [(now, op)], ops, [b], st'. cbn. rewrite Hrun, Hs. by split_and!.
    + destruct (IH st' a' Hrep') as (ops1 & ops2 & bs & st2 & -> & Hrun2 & Hrep2 & Hin);
        [by eapply Hpre|done| |].
      { cbn [releases] in Hn. rewrite Hs in Hn. cbn in Hn. lia. }
      exists ((now, op) :: ops1), ops2, (b :: bs), st2. cbn [run_ops spec_ops app]. rewrite Hrun, Hs. cbn.
      rewrite Hrun2. cbn. destruct (spec_ops ops1 a'). by split_and!.
Qed.

End proofs.

(** ** Example *)

(** Two heads and two links, a fom for each link. *)
Definition m0_lll_tl : m0_tl_descr :=
  {| td_link_offset := 8; td_link_magic_offset := 24; td_link_magic := M0_FOM_LL_LINK_MAGIC;
     td_head_magic := M0_FOM_LL_LINK_MAGIC |}.

#[local] Existing Instances tl_mem_tlist tl_mem_laws.

Definition example_mem : tl_mem :=
  {| tm_links := list_to_map ((fun a => (a, {| ll_next := a; ll_prev := a |})) <$> [108; 208; 1008; 2008]);
     tm_words := list_to_map ((fun a => (a, M0_FOM_LL_LINK_MAGIC)) <$> [100; 200; 1024; 2024]) |}.

Definition example_link (fom : Z) : m0_long_lock_link :=
  {| lll_fom := fom; lll_magix := M0_FOM_LL_LINK_MAGIC; lll_lock_type := M0_LONG_LOCK_READER;
    lll_addb2 := None |}.

Definition example_fom : m0_fom :=
  {| fo_transitions := 5; fo_transitions_saved := 0; fo_conf := example_conf; fo_sm_phase := example_mach;
     fo_state_epoch := 0; fo_ast_posted := false |}.

Definition example_store : ll_store tl_mem :=
  {| st_tl := example_mem;
     st_lock := {| l_owners := 100; l_waiters := 200; l_lock := false; l_state := M0_LONG_LOCK_UNLOCKED;
                   l_magix := M0_FOM_LL_MAGIC |};
     st_links := {[1000 := example_link 7; 2000 := example_link 8]};
     st_foms := {[7 := example_fom; 8 := example_fom]} |}.

Definition example_abs : ll_abs :=
  {| a_kind := fun _ => M0_LONG_LOCK_READER; a_free := {[1000; 2000]}; a_owners := []; a_waiters := [] |}.

Abbreviation example_rep := (ll_rep (rep := tl_rep m0_lll_tl)).
Abbreviation example_run := (run_op (tops := tl_mem_tlist true m0_lll_tl) 2 0).

(** The lock after a request for writing. *)
Definition example_locked : ll_store tl_mem :=
  from_option snd example_store (example_run (OpLock true 1000 1) example_store).

Lemma lookup_two {A} (a b k : Z) (x y z : A) :
  ({[a := x; b := y]} : gmap Z A) !! k = Some z -> k = a /\ z = x \/ k = b /\ z = y.
Proof. intros [[-> ->]|[_ [-> ->]%lookup_singleton_Some]]%lookup_insert_Some; auto. Qed.

Lemma example_store_rep : example_rep example_store example_abs.
Proof.
  exists {| tl_lists := {[100 := []; 200 := []]}; tl_free := {[1000; 2000]} |}.
  split; [|split; [done|split; [done|intros l; unfold kind, link_view; cbn]]].
  - split; [|done]. split; try done; try (intros ?; cbn; set_solver); [|by left].
    exists (list_to_map ((fun a => (a, [])) <$> [108; 208; 1008; 2008])). split.
    + apply free_rings.
    + intros L xs [[-> ->]|[-> ->]]%lookup_two; split; reflexivity.
    + intros o. cbn. rewrite elem_of_union, !elem_of_singleton. by intros [->| ->].
    + intros o [Ho|(L & xs & HL & Ho)].
      * revert Ho. cbn. rewrite elem_of_union, !elem_of_singleton. by intros [->| ->].
      * apply lookup_two in HL as [[_ ->]|[_ ->]]; by apply not_elem_of_nil in Ho.
    + intros L xs o HL. cbn. rewrite elem_of_union, !elem_of_singleton.
      apply lookup_two in HL as [[-> _]|[-> _]]; by intros [->| ->].
  - destruct ({[1000 := example_link 7; 2000 := example_link 8]} !! l) as [k|] eqn:Hk; [|done].
    by apply lookup_two in Hk as [[_ ->]|[_ ->]].
Qed.

(** The lock with a waiting reader behind the writer. *)
Definition example_waiting : ll_store tl_mem :=
  from_option snd example_store (example_run (OpLock false 2000 1) example_locked).

Definition example_waiting_abs : ll_abs :=
  (spec_op (OpLock false 2000 1) (spec_op (OpLock true 1000 1) example_abs).2).2.

Lemma example_request l st (a : ll_abs) fom f m :
  bool_decide (l ∈ a_free a) = true ->
  link_view st l = Some (fom, M0_FOM_LL_LINK_MAGIC, M0_LONG_LOCK_READER) -> fom <> 0 ->
  st_foms st !! fom = Some f -> fo_ast_posted f = false ->
  m0_sm_state_set 2 (fo_conf f) (fo_sm_phase f) 1 = Some m -> a_waiters a = [] ->
  requestable (T := tl_mem) 2 st (a_free a) (a_waiters a) l 1.
Proof.
  intros Hl Hv Hne Hf Hp Hm Hw. assert (fom_of st l = fom) as E by (unfold fom_of; by rewrite Hv).
  assert (exists n, fom_view st fom = Some (false, n)) as [n Hn].
  { unfold fom_view. rewrite Hf. cbn. rewrite Hp. by eexists. }
  split_and!.
  - by apply bool_decide_eq_true in Hl.
  - exists fom, M0_LONG_LOCK_READER. split_and!; [done..|]. by rewrite Hn.
  - exists f, m. by rewrite E.
  - exists n. by rewrite E.
  - rewrite Hw. intros w Hin. by apply not_elem_of_nil in Hin.
Qed.

Lemma long_lock_refines_witness :
  exists st', example_run (OpLock true 1000 1) example_store = Some (true, st') /\
    exclusive (spec_op (OpLock true 1000 1) example_abs).2.
Proof.
  destruct (long_lock_refines (laws := tl_mem_laws true m0_lll_tl) 2 0 (OpLock true 1000 1) example_store
    example_abs)
    as (b & st' & a' & Hrun & Hs & _ & He & _).
  - exact example_store_rep.
  - eapply example_request; try (vm_compute; reflexivity). discriminate.
  - exists st'. rewrite Hrun, Hs. vm_compute in Hs. injection Hs as <- _. split; [reflexivity|exact He].
Defined.

Lemma example_waiting_rep : example_rep example_waiting example_waiting_abs.
Proof.
  assert (forall op st a, example_rep st a -> op_pre 2 op st a ->
    example_rep (from_option snd example_store (example_run op st)) (spec_op op a).2) as Hstep.
  { intros op st a Hrep Hpre.
    by destruct (ll_step_ok (laws := tl_mem_laws true m0_lll_tl) 2 0 op st a Hrep Hpre)
      as (b & st' & -> & _ & ? & _). }
  apply Hstep; [apply Hstep; [exact example_store_rep|]|];
    (eapply example_request; try (vm_compute; reflexivity); discriminate).
Qed.

(** When the writer leaves, the reader has the lock. *)
Lemma long_lock_bounded_wait_witness :
  exists ops1 ops2 bs st', [(0, OpUnlock 1000)] = ops1 ++ ops2 /\
    run_ops (tops := tl_mem_tlist true m0_lll_tl) 2 ops1 example_waiting = Some (bs, st') /\
    2000 ∈ a_owners (spec_ops ops1 example_waiting_abs).2.
Proof.
  destruct (long_lock_bounded_wait (laws := tl_mem_laws true m0_lll_tl) 2 [(0, OpUnlock 1000)] example_waiting
    example_waiting_abs 2000) as (ops1 & ops2 & bs & st' & E & Hrun & _ & Ho).
  - exact example_waiting_rep.
  - split; [split|done].
    + apply (bool_decide_unpack _). vm_compute. exact I.
    + vm_compute. reflexivity.
  - apply (bool_decide_unpack _). vm_compute. exact I.
  - vm_compute. lia.
  - exists ops1, ops2, bs, st'. split; [exact E|]. split; [exact Hrun|exact Ho].
Defined.
