(* ===== verification/Vec.v ===== *)
(** * lib: vectors and buffer vectors

    src/lib/vec.c: vectors of segments, cursors over them, buffer vectors and the
    copying of bytes between two cursors.  A cursor is abstracted to the list of
    the addresses it has still to visit. *)
From S2P Require Import Prelude.
#[local] Open Scope motr_scope.

(** ** Definitions *)

Record m0_vec := { v_nr : Z; v_count : list Z }.

(** The segments of memory are named by their addresses. *)
Record m0_bufvec := { ov_vec : m0_vec; ov_buf : list Z }.

(** The vector [vc_vec] points to is not changed by cursors; it is an argument of
    the functions. *)
Record m0_vec_cursor := { vc_seg : Z; vc_offset : Z }.

(** [bc_bv] is the buffer vector in which the vector of the cursor is embedded. *)
Record m0_bufvec_cursor := { bc_bv : m0_bufvec; bc_vc : m0_vec_cursor }.

(** The bytes of the memory, by address. *)
Definition mem := Z -> Z.

Definition memmove (m : mem) (dst src n : Z) : mem :=
  fun a => if (dst <=? a) && (a <? dst + n) then m (src + (a - dst)) else m a.

Section vec.
(** Whether the build has ENABLE_EXPENSIVE_CHECKS. *)
Context (ex : bool).

Definition vec_count (vec : m0_vec) (i : Z) : option Z :=
  for_up i (v_nr vec) (fun i count =>
    c ← arr_get (v_count vec) i;
    _ ← (if ex then M0_ASSERT (count <=? u64 (count + c)) else Some tt);
    Some (u64 (count + c))) 0.

Definition m0_vec_count (vec : m0_vec) : option Z := vec_count vec 0.

(** [None] of the loop state is the early return. *)
Definition m0_vec_is_empty (vec : m0_vec) : option bool :=
  for_up 0 (v_nr vec) (fun i (r : bool) =>
    if r then c ← arr_get (v_count vec) i; Some (negb (0 <? c)) else Some false) true.

Definition m0_vec_cursor_invariant (vec : m0_vec) (cur : m0_vec_cursor) : option bool :=
  if negb (vc_seg cur <=? v_nr vec) then Some false
  else if vc_seg cur <? v_nr vec then
    c ← arr_get (v_count vec) (vc_seg cur); Some (vc_offset cur <? c)
  else Some (vc_offset cur =? 0).

(** [n] bounds the number of segments left. *)
Fixpoint normalize_loop (n : nat) (vec : m0_vec) (cur : m0_vec_cursor) : option m0_vec_cursor :=
  if vc_seg cur <? v_nr vec then
    c ← arr_get (v_count vec) (vc_seg cur);
    if c =? 0 then
      match n with
      | O => None
      | S n => normalize_loop n vec {| vc_seg := u32 (vc_seg cur + 1); vc_offset := 0 |}
      end
    else Some cur
  else Some cur.

Definition m0_vec_cursor_normalize (vec : m0_vec) (cur : m0_vec_cursor) : option m0_vec_cursor :=
  normalize_loop (Z.to_nat (v_nr vec - vc_seg cur)) vec cur.

Definition m0_vec_cursor_init (vec : m0_vec) : option m0_vec_cursor :=
  cur ← m0_vec_cursor_normalize vec {| vc_seg := 0; vc_offset := 0 |};
  b ← m0_vec_cursor_invariant vec cur;
  _ ← M0_ASSERT b;
  Some cur.

Definition m0_vec_cursor_step (vec : m0_vec) (cur : m0_vec_cursor) : option Z :=
  _ ← M0_ASSERT (vc_seg cur <? v_nr vec);
  b ← m0_vec_cursor_invariant vec cur;
  _ ← M0_ASSERT b;
  c ← arr_get (v_count vec) (vc_seg cur);
  Some (u64 (c - vc_offset cur)).

(** Every iteration but the last leaves a segment. *)
Fixpoint move_loop (n : nat) (vec : m0_vec) (cur : m0_vec_cursor) (count : Z) : option m0_vec_cursor :=
  if (0 <? count) && (vc_seg cur <? v_nr vec) then
    match n with
    | O => None
    | S n =>
        step ← m0_vec_cursor_step vec cur;
        let '(cur, count) :=
          if step <=? count then ({| vc_seg := u32 (vc_seg cur + 1); vc_offset := 0 |}, u64 (count - step))
          else ({| vc_seg := vc_seg cur; vc_offset := u64 (vc_offset cur + count) |}, 0) in
        cur ← m0_vec_cursor_normalize vec cur;
        move_loop n vec cur count
    end
  else Some cur.

Definition m0_vec_cursor_move (vec : m0_vec) (cur : m0_vec_cursor) (count : Z) :
  option (bool * m0_vec_cursor) :=
  b ← m0_vec_cursor_invariant vec cur;
  _ ← M0_ASSERT b;
  cur ← move_loop (S (Z.to_nat (v_nr vec - vc_seg cur))) vec cur count;
  b ← m0_vec_cursor_invariant vec cur;
  _ ← M0_ASSERT b;
  Some (vc_seg cur =? v_nr vec, cur).

Definition m0_vec_cursor_end (vec : m0_vec) (cur : m0_vec_cursor) : option Z :=
  step ← m0_vec_cursor_step vec cur;
  rest ← vec_count vec (u32 (vc_seg cur + 1));
  Some (u64 (step + rest)).

(** ** Buffer vectors *)

Definition m0_bufvec_cursor_init (bv : m0_bufvec) : option m0_bufvec_cursor :=
  _ ← M0_ASSERT (negb (v_nr (ov_vec bv) =? 0));
  vc ← m0_vec_cursor_init (ov_vec bv);
  Some {| bc_bv := bv; bc_vc := vc |}.

Definition m0_bufvec_cursor_move (cur : m0_bufvec_cursor) (count : Z) : option (bool * m0_bufvec_cursor) :=
  '(b, vc) ← m0_vec_cursor_move (ov_vec (bc_bv cur)) (bc_vc cur) count;
  Some (b, {| bc_bv := bc_bv cur; bc_vc := vc |}).

Definition m0_bufvec_cursor_step (cur : m0_bufvec_cursor) : option Z :=
  m0_vec_cursor_step (ov_vec (bc_bv cur)) (bc_vc cur).

Definition bufvec_cursor_addr (cur : m0_bufvec_cursor) : option (Z * m0_bufvec_cursor) :=
  '(b, cur) ← m0_bufvec_cursor_move cur 0;
  _ ← M0_ASSERT (negb b);
  buf ← arr_get (ov_buf (bc_bv cur)) (vc_seg (bc_vc cur));
  Some (buf + vc_offset (bc_vc cur), cur).

Definition m0_bufvec_cursor_addr (cur : m0_bufvec_cursor) : option (Z * m0_bufvec_cursor) :=
  '(b, cur) ← m0_bufvec_cursor_move cur 0;
  _ ← M0_ASSERT (negb b);
  bufvec_cursor_addr cur.

(** M0_BUFVEC_FOR2() with the body of m0_bufvec_cursor_copy(); [frag] is what the
    cursors have still to move, every iteration but the last leaves a segment. *)
Fixpoint copy_loop (n : nat) (m : mem) (dcur scur : m0_bufvec_cursor) (frag num_bytes bytes_copied : Z)
  : option (Z * mem * m0_bufvec_cursor * m0_bufvec_cursor) :=
  '(dend, dcur) ← m0_bufvec_cursor_move dcur frag;
  '(send, scur) ← m0_bufvec_cursor_move scur frag;
  if (dend || send)%bool then Some (bytes_copied, m, dcur, scur)
  else
    dstep ← m0_bufvec_cursor_step dcur;
    sstep ← m0_bufvec_cursor_step scur;
    let frag := Z.min dstep sstep in
    if num_bytes =? 0 then Some (bytes_copied, m, dcur, scur)
    else
      let frag := Z.min frag num_bytes in
      '(daddr, dcur) ← bufvec_cursor_addr dcur;
      '(saddr, scur) ← bufvec_cursor_addr scur;
      let m := memmove m daddr saddr frag in
      match n with
      | O => None
      | S n => copy_loop n m dcur scur frag (u64 (num_bytes - frag)) (u64 (bytes_copied + frag))
      end.

Definition m0_bufvec_cursor_copy (m : mem) (dcur scur : m0_bufvec_cursor) (num_bytes : Z)
  : option (Z * mem * m0_bufvec_cursor * m0_bufvec_cursor) :=
  copy_loop (S (Z.to_nat (v_nr (ov_vec (bc_bv dcur)) + v_nr (ov_vec (bc_bv scur))))) m dcur scur 0 num_bytes
    0.

(** M0_BUFVEC_INIT_BUF(). *)
Definition buf_vec (addr count : Z) : m0_bufvec :=
  {| ov_vec := {| v_nr := 1; v_count := [count] |}; ov_buf := [addr] |}.

Definition m0_bufvec_cursor_copyto (m : mem) (dcur : m0_bufvec_cursor) (sdata num_bytes : Z)
  : option (Z * mem * m0_bufvec_cursor) :=
  _ ← M0_ASSERT (negb (sdata =? 0));
  scur ← m0_bufvec_cursor_init (buf_vec sdata num_bytes);
  '(n, m, dcur, _) ← m0_bufvec_cursor_copy m dcur scur num_bytes;
  Some (n, m, dcur).

Definition m0_bufvec_cursor_copyfrom (m : mem) (scur : m0_bufvec_cursor) (ddata num_bytes : Z)
  : option (Z * mem * m0_bufvec_cursor) :=
  _ ← M0_ASSERT (negb (ddata =? 0));
  dcur ← m0_bufvec_cursor_init (buf_vec ddata num_bytes);
  '(n, m, _, scur) ← m0_bufvec_cursor_copy m dcur scur num_bytes;
  Some (n, m, scur).

Definition m0_bufvec_copy (m : mem) (dst src : m0_bufvec) (num_bytes : Z) : option (Z * mem) :=
  s_cur ← m0_bufvec_cursor_init src;
  d_cur ← m0_bufvec_cursor_init dst;
  '(n, m, _, _) ← m0_bufvec_cursor_copy m d_cur s_cur num_bytes;
  Some (n, m).

(** data_to_bufvec() has the effect of M0_BUFVEC_INIT_BUF(). *)
Definition m0_data_to_bufvec_copy (m : mem) (cur : m0_bufvec_cursor) (data len : Z)
  : option (Z * mem * m0_bufvec_cursor) :=
  _ ← M0_ASSERT (negb (data =? 0));
  src_cur ← m0_bufvec_cursor_init (buf_vec data len);
  '(count, m, cur, _) ← m0_bufvec_cursor_copy m cur src_cur len;
  Some (if negb (count =? len) then - EFAULT else 0, m, cur).

Definition m0_bufvec_to_data_copy (m : mem) (cur : m0_bufvec_cursor) (data len : Z)
  : option (Z * mem * m0_bufvec_cursor) :=
  _ ← M0_ASSERT (negb (data =? 0));
  _ ← M0_ASSERT (negb (len =? 0));
  dcur ← m0_bufvec_cursor_init (buf_vec data len);
  '(count, m, _, cur) ← m0_bufvec_cursor_copy m dcur cur len;
  Some (if negb (count =? len) then - EFAULT else 0, m, cur).

End vec.

(** ** The addresses of a cursor *)

(** The addresses of the segments of a buffer vector. *)
Definition seg_addrs (s : Z * Z) : list Z := seqZ s.1 s.2.

Definition segs (bv : m0_bufvec) : list (Z * Z) := zip (ov_buf bv) (v_count (ov_vec bv)).

Definition bv_addrs (bv : m0_bufvec) : list Z := concat (seg_addrs <$> segs bv).

(** The addresses a cursor has not passed yet. *)
Definition left_addrs (l : list (Z * Z)) (off : Z) : list Z := drop (Z.to_nat off) (concat (seg_addrs <$> l)).

Definition cur_addrs (cur : m0_bufvec_cursor) : list Z :=
  left_addrs (drop (Z.to_nat (vc_seg (bc_vc cur))) (segs (bc_bv cur))) (vc_offset (bc_vc cur)).

Record bv_wf (bv : m0_bufvec) : Prop := {
  bv_nr : is_u32 (v_nr (ov_vec bv));
  bv_counts : length (v_count (ov_vec bv)) = Z.to_nat (v_nr (ov_vec bv));
  bv_bufs : length (ov_buf bv) = Z.to_nat (v_nr (ov_vec bv));
  bv_sizes : Forall is_u64 (v_count (ov_vec bv))
}.

(** A cursor within a segment or at the end of the vector. *)
Record cur_wf (cur : m0_bufvec_cursor) : Prop := {
  cur_bv : bv_wf (bc_bv cur);
  cur_seg : 0 <= vc_seg (bc_vc cur) <= v_nr (ov_vec (bc_bv cur));
  cur_off : 0 <= vc_offset (bc_vc cur);
  cur_norm : m0_vec_cursor_invariant (ov_vec (bc_bv cur)) (bc_vc cur) = Some true
}.

(** ** Lemmas: cursors *)

Lemma seg_get bv i : bv_wf bv -> 0 <= i < v_nr (ov_vec bv) ->
  exists b c rest, drop (Z.to_nat i) (segs bv) = (b, c) :: rest /\ rest = drop (Z.to_nat (i + 1)) (segs bv) /\
    arr_get (ov_buf bv) i = Some b /\ arr_get (v_count (ov_vec bv)) i = Some c /\ is_u64 c.
Proof.
  intros [Hn Hc Hb Hs] Hi. destruct (lookup_lt_is_Some_2 (ov_buf bv) (Z.to_nat i)) as [b Hbi]; [lia|].
  destruct (lookup_lt_is_Some_2 (v_count (ov_vec bv)) (Z.to_nat i)) as [c Hci]; [lia|].
  exists b, c, (drop (Z.to_nat (i + 1)) (segs bv)). unfold arr_get. rewrite (proj2 (Z.leb_le 0 i)) by lia.
  split_and!; try done.
  - replace (Z.to_nat (i + 1)) with (S (Z.to_nat i)) by lia. apply drop_S.
    unfold segs. rewrite lookup_zip_with, Hbi. cbn. by rewrite Hci.
  - by eapply (Forall_lookup_1 _ _ _ _ Hs).
Qed.

Lemma segs_length bv : bv_wf bv -> length (segs bv) = Z.to_nat (v_nr (ov_vec bv)).
Proof. intros [Hn Hc Hb _]. unfold segs. rewrite length_zip_with. lia. Qed.

Lemma left_cons b c l off : 0 <= off -> off <= c ->
  left_addrs ((b, c) :: l) off = seqZ (b + off) (c - off) ++ left_addrs l 0.
Proof.
  intros H1 H2. unfold left_addrs, seg_addrs. cbn. rewrite drop_0.
  rewrite drop_app_le by (rewrite length_seqZ; lia).
  f_equal. apply list_eq. intros i. rewrite lookup_drop. unfold seqZ. rewrite !list_lookup_fmap.
  destruct (decide (i < Z.to_nat (c - off))%nat) as [Hi|Hi].
  - rewrite !lookup_seq_lt by lia. cbn. f_equal. lia.
  - rewrite !lookup_seq_ge by lia. done.
Qed.

Lemma normalize_ok bv n cur :
  bv_wf bv -> 0 <= vc_seg cur <= v_nr (ov_vec bv) -> 0 <= vc_offset cur ->
  (forall c, arr_get (v_count (ov_vec bv)) (vc_seg cur) = Some c -> vc_offset cur < c \/ vc_offset cur = 0) ->
  (vc_seg cur = v_nr (ov_vec bv) -> vc_offset cur = 0) ->
  (Z.to_nat (v_nr (ov_vec bv) - vc_seg cur) <= n)%nat ->
  exists cur', normalize_loop n (ov_vec bv) cur = Some cur' /\
    cur_wf {| bc_bv := bv; bc_vc := cur' |} /\ vc_seg cur <= vc_seg cur' /\
    cur_addrs {| bc_bv := bv; bc_vc := cur' |} = cur_addrs {| bc_bv := bv; bc_vc := cur |}.
Proof.
  intros Hbv. revert cur. induction n as [|n IH]; intros cur Hseg Hoff Hc He Hn; cbn [normalize_loop].
  - assert (vc_seg cur = v_nr (ov_vec bv)) as E by lia. rewrite (proj2 (Z.ltb_ge _ _)) by lia.
    exists cur. split_and!; try done; try lia. split; cbn; try done.
    unfold m0_vec_cursor_invariant. rewrite E, Z.leb_refl, Z.ltb_irrefl. cbn. by rewrite He.
  - destruct (Z.ltb_spec (vc_seg cur) (v_nr (ov_vec bv))) as [Hlt|Hge].
    + destruct (seg_get bv (vc_seg cur) Hbv) as (b & c & rest & Hd & Hr & Hgb & Hgc & Hu); [lia|].
      rewrite Hgc. cbn [mbind option_bind]. destruct (Z.eqb_spec c 0) as [->|Hc0].
      * destruct (Hc 0 Hgc) as [|Ho]; [lia|]. pose proof (bv_nr _ Hbv) as Hnr. unfold is_u32 in Hnr.
        rewrite u32_small by (unfold is_u32; lia).
        destruct (IH {| vc_seg := vc_seg cur + 1; vc_offset := 0 |})
          as (cur' & -> & Hwf & Hle & Ha); cbn [vc_seg vc_offset] in *; try lia; auto.
        exists cur'. split_and!; try done; [lia|]. rewrite Ha. unfold cur_addrs. cbn. rewrite Hd, Ho, <- Hr.
        rewrite left_cons by lia. unfold seqZ. cbn. done.
      * exists cur. split_and!; try done; try lia. split; cbn; try done.
        unfold m0_vec_cursor_invariant. rewrite (proj2 (Z.leb_le _ _)), (proj2 (Z.ltb_lt _ _)) by lia. cbn.
        rewrite Hgc. cbn. f_equal. apply Z.ltb_lt. destruct (Hc c Hgc); [done|]. unfold is_u64 in Hu. lia.
    + assert (vc_seg cur = v_nr (ov_vec bv)) as E by lia. exists cur. split_and!; try done; try lia.
      split; cbn; try done.
      unfold m0_vec_cursor_invariant. rewrite E, Z.leb_refl, Z.ltb_irrefl. cbn. by rewrite He.
Qed.

Lemma cur_end cur : cur_wf cur -> vc_seg (bc_vc cur) = v_nr (ov_vec (bc_bv cur)) -> cur_addrs cur = [].
Proof.
  intros [Hbv _ _ _] E. unfold cur_addrs, left_addrs. rewrite (drop_ge (segs _)); [cbn; by rewrite drop_nil|].
  rewrite segs_length by done. lia.
Qed.

(** A cursor within a segment: the rest of the segment, and the other segments. *)
Lemma cur_split cur : cur_wf cur -> vc_seg (bc_vc cur) < v_nr (ov_vec (bc_bv cur)) ->
  exists b c, arr_get (ov_buf (bc_bv cur)) (vc_seg (bc_vc cur)) = Some b /\
    arr_get (v_count (ov_vec (bc_bv cur))) (vc_seg (bc_vc cur)) = Some c /\ is_u64 c /\
    vc_offset (bc_vc cur) < c /\
    m0_bufvec_cursor_step cur = Some (c - vc_offset (bc_vc cur)) /\
    cur_addrs cur = seqZ (b + vc_offset (bc_vc cur)) (c - vc_offset (bc_vc cur)) ++
      cur_addrs {| bc_bv := bc_bv cur; bc_vc := {| vc_seg := vc_seg (bc_vc cur) + 1; vc_offset := 0 |} |}.
Proof.
  intros [Hbv Hseg Hoff Hn] Hlt. destruct (seg_get (bc_bv cur) (vc_seg (bc_vc cur)) Hbv)
    as (b & c & rest & Hd & Hr & Hgb & Hgc & Hu); [lia|]. exists b, c. pose proof Hn as Hn'.
  unfold m0_vec_cursor_invariant in Hn'. rewrite (proj2 (Z.leb_le _ _)), (proj2 (Z.ltb_lt _ _)) in Hn' by lia.
  cbn in Hn'. rewrite Hgc in Hn'. cbn in Hn'. injection Hn' as Ho%Z.ltb_lt. split_and!; try done.
  - unfold m0_bufvec_cursor_step, m0_vec_cursor_step. rewrite (proj2 (Z.ltb_lt _ _)), Hn by lia. cbn.
    rewrite Hgc. cbn. unfold is_u64 in Hu. rewrite u64_small by (unfold is_u64; lia). done.
  - unfold cur_addrs. cbn. rewrite Hd, <- Hr. apply left_cons; lia.
Qed.

Lemma cur_nonempty cur : cur_wf cur -> vc_seg (bc_vc cur) < v_nr (ov_vec (bc_bv cur)) -> cur_addrs cur <> [].
Proof.
  intros Hwf Hlt. destruct (cur_split cur Hwf Hlt) as (b & c & _ & _ & _ & Ho & _ & ->).
  intros E%(f_equal length).
  rewrite length_app, length_seqZ in E. cbn in E. lia.
Qed.

(** Moving a cursor; a whole segment at least moves it to another one. *)
Lemma move_loop_ok n bv vc count :
  cur_wf {| bc_bv := bv; bc_vc := vc |} -> is_u64 count ->
  (Z.to_nat (v_nr (ov_vec bv) - vc_seg vc) < n)%nat ->
  exists vc', move_loop n (ov_vec bv) vc count = Some vc' /\ cur_wf {| bc_bv := bv; bc_vc := vc' |} /\
    cur_addrs {| bc_bv := bv; bc_vc := vc' |} = drop (Z.to_nat count)
      (cur_addrs {| bc_bv := bv; bc_vc := vc |}) /\
    vc_seg vc <= vc_seg vc' /\
    (forall step, m0_vec_cursor_step (ov_vec bv) vc = Some step -> step <= count -> vc_seg vc < vc_seg vc').
Proof.
  revert vc count. induction n as [|n IH]; intros vc count Hwf Hcount Hn; [lia|]. cbn [move_loop].
  destruct (Z.ltb_spec (vc_seg vc) (v_nr (ov_vec bv))) as [Hlt|Hge].
  2:{ rewrite andb_false_r. exists vc. split_and!; try done; try lia.
      - rewrite (cur_end _ Hwf); [by rewrite drop_nil|]. destruct Hwf; cbn in *; lia.
      - unfold m0_vec_cursor_step. rewrite (proj2 (Z.ltb_ge _ _)) by lia. done. }
  destruct (cur_split _ Hwf Hlt) as (b & c & Hb & Hc & Hu & Ho & Hstep & Ha). cbn [bc_bv bc_vc] in *.
  unfold m0_bufvec_cursor_step in Hstep. cbn [bc_bv bc_vc] in *. unfold is_u64 in *.
  destruct (Z.ltb_spec 0 count) as [H0|H0]; cbn [andb].
  2:{ exists vc. assert (count = 0) as -> by lia. split_and!; try done;
        try lia. intros step. rewrite Hstep. intros [= <-]. lia. }
  rewrite Hstep. cbn [mbind option_bind]. pose proof (cur_bv _ Hwf) as Hbv.
  pose proof (cur_seg _ Hwf) as Hseg.
  pose proof (cur_off _ Hwf) as Hoff. cbn [bc_bv bc_vc] in *. pose proof (bv_nr _ Hbv) as Hnr.
  unfold is_u32 in Hnr.
  destruct (Z.leb_spec (c - vc_offset vc) count) as [Hs|Hs].
  - rewrite u32_small, u64_small by (unfold is_u32, is_u64; lia).
    destruct (normalize_ok bv (Z.to_nat (v_nr (ov_vec bv) - (vc_seg vc + 1))) {| vc_seg := vc_seg vc + 1;
      vc_offset := 0 |})
      as (vc1 & Hno & Hwf1 & Hle & Ha1); cbn [vc_seg vc_offset] in *; try done; auto; try lia.
    unfold m0_vec_cursor_normalize. cbn [vc_seg]. rewrite Hno. cbn [mbind option_bind].
    destruct (IH vc1 (count - (c - vc_offset vc)) Hwf1) as (vc' & -> & Hwf' & Ha' & Hle' & _);
      [unfold is_u64; lia|lia|].
    exists vc'. split_and!; try done; try lia. rewrite Ha', Ha1, Ha.
    rewrite drop_app_ge by (rewrite length_seqZ; lia). f_equal. rewrite length_seqZ. lia.
  - rewrite u64_small by (unfold is_u64; lia).
    destruct (normalize_ok bv (Z.to_nat (v_nr (ov_vec bv) - vc_seg vc)) {| vc_seg := vc_seg vc;
      vc_offset := vc_offset vc + count |})
      as (vc1 & Hno & Hwf1 & Hle & Ha1); cbn [vc_seg vc_offset] in *; try done; try lia.
    { intros c'. rewrite Hc. intros [= <-]. lia. }
    unfold m0_vec_cursor_normalize. cbn [vc_seg]. rewrite Hno. cbn [mbind option_bind].
    assert (move_loop n (ov_vec bv) vc1 0 = Some vc1) as -> by (destruct n; done).
    exists vc1. split_and!; try done; try lia.
    + rewrite Ha1, Ha. unfold cur_addrs. cbn [bc_bv bc_vc vc_seg vc_offset].
      destruct (seg_get bv (vc_seg vc) Hbv) as (b' & c' & rest & Hd & Hr & Hgb & Hgc & _); [lia|].
      assert (b' = b) as -> by congruence. assert (c' = c) as -> by congruence. rewrite Hd, <- Hr.
      rewrite left_cons by lia. rewrite drop_app_le by (rewrite length_seqZ; lia). f_equal.
      apply list_eq. intros i. rewrite lookup_drop. unfold seqZ. rewrite !list_lookup_fmap.
      destruct (decide (i < Z.to_nat (c - (vc_offset vc + count)))%nat) as [Hi|Hi].
      * rewrite !lookup_seq_lt by lia. cbn. f_equal. lia.
      * rewrite !lookup_seq_ge by lia. done.
    + intros step [= <-]. lia.
Qed.

Lemma cursor_move_ok cur count :
  cur_wf cur -> is_u64 count ->
  exists b cur', m0_bufvec_cursor_move cur count = Some (b, cur') /\ bc_bv cur' = bc_bv cur /\ cur_wf cur' /\
    cur_addrs cur' = drop (Z.to_nat count) (cur_addrs cur) /\
    b = bool_decide (cur_addrs cur' = []) /\ vc_seg (bc_vc cur) <= vc_seg (bc_vc cur') /\
    (forall step, m0_bufvec_cursor_step cur = Some step -> step <= count ->
      vc_seg (bc_vc cur) < vc_seg (bc_vc cur')).
Proof.
  destruct cur as [bv vc]. intros Hwf Hcount. unfold m0_bufvec_cursor_move, m0_vec_cursor_move.
  cbn [bc_bv bc_vc].
  rewrite (cur_norm _ Hwf : m0_vec_cursor_invariant (ov_vec bv) vc = Some true).
  cbn [mbind option_bind M0_ASSERT].
  destruct (move_loop_ok (S (Z.to_nat (v_nr (ov_vec bv) - vc_seg vc))) bv vc count Hwf Hcount)
    as (vc' & -> & Hwf' & Ha & Hle & Hst); [lia|]. cbn [mbind option_bind].
  rewrite (cur_norm _ Hwf' : m0_vec_cursor_invariant (ov_vec bv) vc' = Some true).
  cbn [mbind option_bind M0_ASSERT].
  eexists _, _. split; [done|]. cbn [bc_bv bc_vc]. split_and!; try done. pose proof (cur_seg _ Hwf') as Hs.
  cbn in Hs.
  destruct (Z.eqb_spec (vc_seg vc') (v_nr (ov_vec bv))) as [E|E].
  - rewrite bool_decide_true; [done|]. by apply cur_end.
  - rewrite bool_decide_false; [done|]. apply cur_nonempty; [done|]. cbn. lia.
Qed.

(** The first segment a cursor has still to visit. *)
Lemma cursor_seg_ok cur :
  cur_wf cur -> cur_addrs cur <> [] ->
  exists a step rest, m0_bufvec_cursor_step cur = Some step /\ bufvec_cursor_addr cur = Some (a, cur) /\
    0 < step /\ is_u64 step /\ cur_addrs cur = seqZ a step ++ rest /\
    vc_seg (bc_vc cur) < v_nr (ov_vec (bc_bv cur)).
Proof.
  intros Hwf Hne. destruct (Z.ltb_spec (vc_seg (bc_vc cur)) (v_nr (ov_vec (bc_bv cur)))) as [Hlt|Hge].
  2:{ destruct Hne. apply cur_end; [done|]. pose proof (cur_seg _ Hwf). lia. }
  destruct (cur_split cur Hwf Hlt) as (b & c & Hb & Hc & Hu & Ho & Hstep & Ha). pose proof (cur_off _ Hwf).
  unfold is_u64 in *. eexists (b + vc_offset (bc_vc cur)), (c - vc_offset (bc_vc cur)), _.
  split_and!; try done; try lia. unfold bufvec_cursor_addr, m0_bufvec_cursor_move, m0_vec_cursor_move.
  rewrite (cur_norm _ Hwf). cbn [mbind option_bind M0_ASSERT move_loop andb Z.ltb Z.compare].
  rewrite (cur_norm _ Hwf). cbn [mbind option_bind M0_ASSERT bc_bv bc_vc].
  rewrite (proj2 (Z.eqb_neq _ _)) by lia. cbn. rewrite Hb. cbn. by destruct cur as [bv []].
Qed.

Lemma memmove_seq m a b n : 0 <= n -> memmove m a b n <$> seqZ a n = m <$> seqZ b n.
Proof.
  intros Hn. apply list_eq. intros i. unfold seqZ. rewrite !list_lookup_fmap.
  destruct (decide (i < Z.to_nat n)%nat) as [Hi|Hi]; [|by rewrite !lookup_seq_ge by lia].
  rewrite !lookup_seq_lt by lia. cbn. unfold memmove.
  rewrite (proj2 (Z.leb_le _ _)), (proj2 (Z.ltb_lt _ _)) by lia. cbn. do 2 f_equal. lia.
Qed.

Lemma memmove_out m a b n x : x ∉ seqZ a n -> memmove m a b n x = m x.
Proof. rewrite elem_of_seqZ. intros H. unfold memmove.
destruct (Z.leb_spec a x), (Z.ltb_spec x (a + n)); cbn; auto; lia. Qed.

Lemma take_seqZ_app a n k l : 0 <= k <= n -> take (Z.to_nat k) (seqZ a n ++ l) = seqZ a k.
Proof.
  intros H. rewrite take_app_le by (rewrite length_seqZ; lia). apply list_eq. intros i. unfold seqZ.
  destruct (decide (i < Z.to_nat k)%nat) as [Hi|Hi].
  - rewrite lookup_take_lt, !list_lookup_fmap, !lookup_seq_lt by lia. done.
  - rewrite lookup_take_ge, list_lookup_fmap, lookup_seq_ge by lia. done.
Qed.

Lemma fmap_mem_ext (m m' : mem) (l : list Z) : (forall a, a ∈ l -> m' a = m a) -> m' <$> l = m <$> l.
Proof. induction l as [|x l IH]; intros H; [done|]. cbn. rewrite H, IH by set_solver. done. Qed.

(** What is left for two cursors to visit. *)
Definition segs_left (d s : m0_bufvec_cursor) : Z :=
  (v_nr (ov_vec (bc_bv d)) - vc_seg (bc_vc d)) + (v_nr (ov_vec (bc_bv s)) - vc_seg (bc_vc s)).

(** [m'] is [m] with the bytes at [sa] copied to [da]. *)
Definition copied_mem (m m' : mem) (da sa : list Z) : Prop :=
  m' <$> da = m <$> sa /\ forall a, a ∉ da -> m' a = m a.

Lemma copied_app m m1 m2 da1 sa1 da2 sa2 :
  NoDup (da1 ++ da2) -> (forall a, a ∈ da1 -> a ∉ sa2) ->
  copied_mem m m1 da1 sa1 -> copied_mem m1 m2 da2 sa2 -> copied_mem m m2 (da1 ++ da2) (sa1 ++ sa2).
Proof.
  intros (_ & Hnd & _)%NoDup_app Hdis [H1 H1'] [H2 H2']. split.
  - rewrite !fmap_app, H2, <- H1. f_equal.
    + apply fmap_mem_ext. auto.
    + apply fmap_mem_ext. intros a Ha. apply H1'. intros Hin. by apply (Hdis a).
  - intros a Ha. rewrite H2', H1' by set_solver. done.
Qed.

Lemma copied_split m m1 m' (da sa : list Z) f k :
  NoDup da -> (forall a, a ∈ da -> a ∉ sa) -> copied_mem m m1 (take f da) (take f sa) ->
  copied_mem m1 m' (take k (drop f da)) (take k (drop f sa)) ->
  copied_mem m m' (take (f + k) da) (take (f + k) sa).
Proof.
  intros Hnd Hdis H1 H2. rewrite <- !take_take_drop. eapply copied_app; [|..|exact H1|exact H2].
  - rewrite take_take_drop. rewrite <- (take_drop (f + k) da) in Hnd. by apply NoDup_app in Hnd as [? _].
  - intros x Hx Hx'. apply (Hdis x).
    + rewrite <- (take_drop f da). apply elem_of_app. by left.
    + rewrite <- (take_drop f sa). apply elem_of_app. right. rewrite <- (take_drop k (drop f sa)).
      apply elem_of_app. by left.
Qed.

(** The cases in which the loop ends. *)
Lemma copy_stop (m : mem) d1 s1 (da sa : list Z) num copied X :
  cur_wf d1 -> cur_wf s1 -> cur_addrs d1 = da -> cur_addrs s1 = sa ->
  let k := Z.min num (Z.min (Z.of_nat (length da)) (Z.of_nat (length sa))) in
  k = 0 -> 0 <= num ->
  exists m' d' s', (if (bool_decide (da = []) || bool_decide (sa = []))%bool then Some (copied, m, d1, s1)
     else dstep ← m0_bufvec_cursor_step d1; sstep ← m0_bufvec_cursor_step s1;
          if num =? 0 then Some (copied, m, d1, s1) else X dstep sstep) = Some (copied + k, m', d', s') /\
    cur_wf d' /\ cur_wf s' /\ bc_bv d' = bc_bv d1 /\ bc_bv s' = bc_bv s1 /\
    cur_addrs d' = drop (Z.to_nat k) da /\ cur_addrs s' = drop (Z.to_nat k) sa /\
    copied_mem m m' (take (Z.to_nat k) da) (take (Z.to_nat k) sa).
Proof.
  intros Hd Hs Ed Es k Hk Hnum. exists m, d1, s1. rewrite Hk, !drop_0, !take_0, Z.add_0_r. split; [|done].
  destruct (decide (da = [])) as [E|Hda]; [by rewrite (bool_decide_true _ E)|].
  destruct (decide (sa = [])) as [E|Hsa]; [by rewrite (bool_decide_true _ E), orb_true_r|].
  rewrite !bool_decide_false by done. cbn [orb].
  destruct (cursor_seg_ok d1 Hd) as (? & ? & ? & -> & _); [by rewrite Ed|].
  destruct (cursor_seg_ok s1 Hs) as (? & ? & ? & -> & _); [by rewrite Es|]. cbn [mbind option_bind].
  assert (num = 0) as ->; [|done]. destruct da, sa; try done. unfold k in Hk. cbn [length] in Hk. lia.
Qed.

Lemma copy_loop_ok n m d s frag num copied :
  cur_wf d -> cur_wf s -> is_u64 frag -> 0 <= num -> 0 <= copied -> copied + num < 2 ^ 64 ->
  let da := drop (Z.to_nat frag) (cur_addrs d) in
  let sa := drop (Z.to_nat frag) (cur_addrs s) in
  NoDup da -> (forall a, a ∈ da -> a ∉ sa) ->
  (forall b d1 b' s1, m0_bufvec_cursor_move d frag = Some (b, d1) ->
    m0_bufvec_cursor_move s frag = Some (b', s1) ->
     num = 0 \/ (Z.to_nat (segs_left d1 s1) <= n)%nat) ->
  let k := Z.min num (Z.min (Z.of_nat (length da)) (Z.of_nat (length sa))) in
  exists m' d' s', copy_loop n m d s frag num copied = Some (copied + k, m', d', s') /\
    cur_wf d' /\ cur_wf s' /\ bc_bv d' = bc_bv d /\ bc_bv s' = bc_bv s /\
    cur_addrs d' = drop (Z.to_nat k) da /\ cur_addrs s' = drop (Z.to_nat k) sa /\
    copied_mem m m' (take (Z.to_nat k) da) (take (Z.to_nat k) sa).
Proof.
  revert m d s frag num copied. induction n as [|n IH];
    intros m d s frag num copied Hd Hs Hfrag Hnum Hc Hsum da sa Hnd Hdis Hfuel k.
  all: destruct (cursor_move_ok d frag Hd Hfrag) as (db & d1 & Ed & Bd & Hd1 & Ad & -> & Ld & Std).
  all: destruct (cursor_move_ok s frag Hs Hfrag) as (sb & s1 & Es & Bs & Hs1 & As & -> & Ls & Sts).
  all: specialize (Hfuel _ _ _ _ Ed Es); fold da in Ad; fold sa in As; rewrite Ad in Ed; rewrite As in Es.
  all: cbn [copy_loop]; rewrite Ed; cbn [mbind option_bind]; rewrite Es; cbn [mbind option_bind].
  all: destruct (decide (k = 0)) as [Hk|Hk]; [rewrite <- Bd, <- Bs; by eapply copy_stop|].
  all: rewrite !bool_decide_false by (intros E; apply Hk; unfold k; rewrite E; cbn; lia); cbn [orb].
  all: destruct (cursor_seg_ok d1 Hd1) as (a & dstep & dr & Edst & Eda & Hds & Hdu & Had & Hdl);
    [rewrite Ad; intros E; apply Hk; unfold k; rewrite E; cbn; lia|].
  all: destruct (cursor_seg_ok s1 Hs1) as (b & sstep & sr & Esst & Esa & Hss & Hsu & Has & Hsl);
    [rewrite As; intros E; apply Hk; unfold k; rewrite E; cbn; lia|].
  all: rewrite Edst, Esst; cbn [mbind option_bind]; rewrite (proj2 (Z.eqb_neq num 0))
    by (intros E; apply Hk; unfold k; lia).
  all: rewrite Eda; cbn [mbind option_bind]; rewrite Esa; cbn [mbind option_bind].
  { exfalso. unfold segs_left in Hfuel. lia. }
  set (f := Z.min (Z.min dstep sstep) num). assert (0 < f <= num /\ f <= dstep /\ f <= sstep) as Hf.
  { unfold f, k in *. lia. }
  unfold is_u64 in Hdu. rewrite !u64_small by (unfold is_u64; lia).
  assert (take (Z.to_nat f) da = seqZ a f /\ take (Z.to_nat f) sa = seqZ b f) as [Htd Hts].
  { rewrite <- Ad, <- As, Had, Has. split; apply take_seqZ_app; lia. }
  assert (f <= Z.of_nat (length da) /\ f <= Z.of_nat (length sa)) as [Hfd Hfs].
  { rewrite <- Ad, <- As, Had, Has, !length_app, !length_seqZ. lia. }
  assert (NoDup (take (Z.to_nat f) da ++ drop (Z.to_nat f) da)) as Hnd' by (by rewrite take_drop).
  destruct (IH (memmove m a b f) d1 s1 f (num - f) (copied + f))
    as (m' & d' & s' & -> & Hd' & Hs' & Bd' & Bs' & Ad' & As' & Hm');
    try done; try (unfold is_u64; lia).
  - rewrite Ad. by apply NoDup_app in Hnd' as (_ & _ & ?).
  - rewrite Ad, As. intros x Hx1 Hx2. apply (Hdis x);
      [rewrite <- (take_drop (Z.to_nat f) da)|rewrite <- (take_drop (Z.to_nat f) sa)]; apply elem_of_app;
        by right.
  - intros ? d2 ? s2 Ed2 Es2. destruct (decide (f = num)) as [->|Hne]; [left; lia|right].
    destruct (cursor_move_ok d1 f Hd1) as (? & d2' & Ed2' & Bd2 & _ & _ & _ & Ld2 & Std2);
      [unfold is_u64; lia|].
    destruct (cursor_move_ok s1 f Hs1) as (? & s2' & Es2' & Bs2 & _ & _ & _ & Ls2 & Sts2);
      [unfold is_u64; lia|].
    rewrite Ed2 in Ed2'. injection Ed2' as _ ->. rewrite Es2 in Es2'. injection Es2' as _ ->.
    assert (f = dstep \/ f = sstep) as Hst by (unfold f in *; lia).
    specialize (Std2 _ Edst). specialize (Sts2 _ Esst). unfold segs_left in *. rewrite Bd2, Bs2. lia.
  - rewrite Ad in Ad', Hm'. rewrite As in As', Hm'. rewrite Ad, As in *. rewrite !length_drop in *.
    assert (Z.min (num - f) (Z.min (Z.of_nat (length da - Z.to_nat f)) (Z.of_nat (length sa - Z.to_nat f))) =
      k - f)
      as Ek by (unfold k; clear -Hf Hfd Hfs; lia).
    rewrite Ek in *. assert (f <= k) by (unfold k; clear -Hf Hfd Hfs; lia).
    replace (Z.to_nat k) with (Z.to_nat f + Z.to_nat (k - f))%nat by lia.
    exists m', d', s'. split_and!; try congruence; try (by rewrite <- drop_drop); [do 4 f_equal; lia|].
    eapply copied_split; [done..| |exact Hm']. rewrite Htd, Hts.
    split; [apply memmove_seq; lia|apply memmove_out].
Qed.

Lemma bufvec_init_ok bv :
  bv_wf bv -> v_nr (ov_vec bv) <> 0 ->
  exists cur, m0_bufvec_cursor_init bv = Some cur /\ cur_wf cur /\ bc_bv cur = bv /\
  cur_addrs cur = bv_addrs bv.
Proof.
  intros Hbv Hnr. unfold m0_bufvec_cursor_init, m0_vec_cursor_init, m0_vec_cursor_normalize.
  rewrite (proj2 (Z.eqb_neq _ 0)) by done. cbn [negb M0_ASSERT mbind option_bind].
  pose proof (bv_nr _ Hbv) as Hn. unfold is_u32 in Hn.
  destruct (normalize_ok bv (Z.to_nat (v_nr (ov_vec bv) - 0)) {| vc_seg := 0; vc_offset := 0 |})
    as (vc & Hno & Hwf & _ & Ha); cbn [vc_seg vc_offset]; auto; try lia.
  cbn [vc_seg]. rewrite Hno. cbn [mbind option_bind].
  rewrite (cur_norm _ Hwf : m0_vec_cursor_invariant (ov_vec bv) vc = Some true).
  cbn [M0_ASSERT mbind option_bind].
  by eexists.
Qed.

Lemma cursor_copy_ok m d s num :
  cur_wf d -> cur_wf s -> is_u64 num -> NoDup (cur_addrs d) ->
  (forall a, a ∈ cur_addrs d -> a ∉ cur_addrs s) ->
  let k := Z.min num (Z.min (Z.of_nat (length (cur_addrs d))) (Z.of_nat (length (cur_addrs s)))) in
  exists m' d' s', m0_bufvec_cursor_copy m d s num = Some (k, m', d', s') /\
    cur_wf d' /\ cur_wf s' /\ bc_bv d' = bc_bv d /\ bc_bv s' = bc_bv s /\
    cur_addrs d' = drop (Z.to_nat k) (cur_addrs d) /\ cur_addrs s' = drop (Z.to_nat k) (cur_addrs s) /\
    copied_mem m m' (take (Z.to_nat k) (cur_addrs d)) (take (Z.to_nat k) (cur_addrs s)).
Proof.
  intros Hd Hs Hnum Hnd Hdis k. unfold m0_bufvec_cursor_copy. unfold is_u64 in Hnum.
  apply (copy_loop_ok _ m d s 0 num 0); try done; try lia.
  intros b d1 b' s1 Ed Es. right.
  destruct (cursor_move_ok d 0 Hd) as (? & d1' & Ed' & Bd & Hd1 & _); [done|]. rewrite Ed in Ed'.
  injection Ed' as _ <-.
  destruct (cursor_move_ok s 0 Hs) as (? & s1' & Es' & Bs & Hs1 & _); [done|]. rewrite Es in Es'.
  injection Es' as _ <-.
  pose proof (cur_seg _ Hd1). pose proof (cur_seg _ Hs1). unfold segs_left. rewrite Bd, Bs in *. lia.
Qed.

(** A buffer as a vector. *)
Lemma buf_vec_wf a n : is_u64 n -> bv_wf (buf_vec a n).
Proof. intros Hn. split; try done. repeat constructor; apply Hn. Qed.

Lemma buf_vec_addrs a n : bv_addrs (buf_vec a n) = seqZ a n.
Proof. unfold bv_addrs, segs, seg_addrs. cbn. by rewrite app_nil_r. Qed.

(** ** Properties *)

(** C33. Copying between two cursors moves exactly as many bytes as are asked for and
    as both vectors still have, however differently the vectors are cut into
    segments, empty ones included: the call terminates, returns that number, the
    destination holds the bytes of the source in order, no other byte of the memory
    changes, and both cursors are left right behind the bytes copied. *)
Theorem bufvec_cursor_copy_spec m d s num :
  cur_wf d -> cur_wf s -> is_u64 num -> NoDup (cur_addrs d) ->
  (forall a, a ∈ cur_addrs d -> a ∉ cur_addrs s) ->
  let k := Z.min num (Z.min (Z.of_nat (length (cur_addrs d))) (Z.of_nat (length (cur_addrs s)))) in
  exists m' d' s', m0_bufvec_cursor_copy m d s num = Some (k, m', d', s') /\
    cur_wf d' /\ cur_wf s' /\
    cur_addrs d' = drop (Z.to_nat k) (cur_addrs d) /\ cur_addrs s' = drop (Z.to_nat k) (cur_addrs s) /\
    m' <$> take (Z.to_nat k) (cur_addrs d) = m <$> take (Z.to_nat k) (cur_addrs s) /\
    (forall a, a ∉ take (Z.to_nat k) (cur_addrs d) -> m' a = m a).
Proof.
  intros Hd Hs Hnum Hnd Hdis k.
  destruct (cursor_copy_ok m d s num Hd Hs Hnum Hnd Hdis)
    as (m' & d' & s' & Hr & ? & ? & _ & _ & ? & ? & [? ?]).
  by exists m', d', s'.
Qed.

(** ** Example *)

Definition example_dst : m0_bufvec := {| ov_vec := {| v_nr := 3; v_count := [2; 0; 3] |};
  ov_buf := [100; 150; 200] |}.

Definition example_src : m0_bufvec := {| ov_vec := {| v_nr := 2; v_count := [1; 7] |}; ov_buf := [10; 20] |}.

Definition example_cur (bv : m0_bufvec) : m0_bufvec_cursor :=
  {| bc_bv := bv; bc_vc := {| vc_seg := 0; vc_offset := 0 |} |}.

Lemma bufvec_cursor_copy_spec_witness :
  exists m' d' s', m0_bufvec_cursor_copy (fun a => a) (example_cur example_dst) (example_cur example_src) 4 =
    Some (4, m', d', s') /\ m' <$> [100; 101; 200; 201] = [10; 20; 21; 22] /\ m' 202 = 202.
Proof.
  destruct (bufvec_cursor_copy_spec (fun a => a) (example_cur example_dst) (example_cur example_src) 4)
    as (m' & d' & s' & Hr & _ & _ & _ & _ & Hm & Hf).
  - split; [split; [split; cbn; lia|reflexivity..|repeat constructor; cbn; lia]|cbn; lia|cbn;
      lia|reflexivity].
  - split; [split; [split; cbn; lia|reflexivity..|repeat constructor; cbn; lia]|cbn; lia|cbn;
      lia|reflexivity].
  - split; lia.
  - apply (bool_decide_unpack _). vm_compute. exact I.
  - apply Forall_forall. apply (bool_decide_unpack _). vm_compute. exact I.
  - exists m', d', s'. split; [exact Hr|]. split; [exact Hm|]. apply Hf. apply (bool_decide_unpack _).
    vm_compute. exact I.
Defined.
