(* ===== verification/Bitmap.v ===== *)
(** * lib: bitmaps

    Models src/lib/bitmap.c: sets of small numbers as the bits of an array of 64-bit
    words, in memory and on the wire.  A bitmap is shown to behave as the list of its
    bits. *)
From S2P Require Import Prelude.
#[local] Open Scope motr_scope.

(** ** Definitions *)

Notation M0_BITMAP_BITS := 64 (only parsing).
Notation M0_BITMAP_BITSHIFT := 6 (only parsing).
Notation M0_BITMAP_WORDS nr := (Z.shiftr (u64 (nr + (M0_BITMAP_BITS - 1))) M0_BITMAP_BITSHIFT) (only parsing).
Notation M0_BITMAP_SHIFT idx := (Z.shiftr idx M0_BITMAP_BITSHIFT) (only parsing).
Notation M0_BITMAP_MASK idx := (u64 (Z.shiftl 1 (Z.land idx (M0_BITMAP_BITS - 1)))) (only parsing).

(** [b_words] is [None] when it is NULL. *)
Record m0_bitmap := { b_nr : Z; b_words : option (list Z) }.

Record m0_bitmap_onwire := { bo_size : Z; bo_words : option (list Z) }.

(** The words M0_ALLOC_ARR() returns; [mem] tells whether it succeeds. *)
Definition words_alloc (mem : bool) (nr : Z) : option (list Z) :=
  if mem then Some (replicate (Z.to_nat (M0_BITMAP_WORDS nr)) 0) else None.

Definition m0_bitmap_init (mem : bool) (map : m0_bitmap) (nr : Z) : Z * m0_bitmap :=
  match words_alloc mem nr with
  | None => (- ENOMEM, {| b_nr := b_nr map; b_words := None |})
  | Some words => (0, {| b_nr := nr; b_words := Some words |})
  end.

Definition m0_bitmap_fini (map : m0_bitmap) : option m0_bitmap :=
  _ ← M0_ASSERT (bool_decide (is_Some (b_words map)));
  Some {| b_nr := 0; b_words := None |}.

Definition m0_bitmap_get (map : m0_bitmap) (idx : Z) : option bool :=
  _ ← M0_ASSERT ((idx <? b_nr map) && bool_decide (is_Some (b_words map)));
  words ← b_words map;
  w ← arr_get words (M0_BITMAP_SHIFT idx);
  Some (negb (Z.land w (M0_BITMAP_MASK idx) =? 0)).

(** __builtin_ffsll(): one more than the number of the lowest bit set, 0 for 0. *)
Definition ffsll (w : Z) : Z :=
  match list_find (fun j => Z.testbit w j = true) (seqZ 0 64) with Some (i, _) => Z.of_nat i + 1 |
    None => 0 end.

(** [Some r] of the loop state is the early return of [r]. *)
Definition m0_bitmap_ffs (map : m0_bitmap) : option Z :=
  r ← for_up 0 (M0_BITMAP_WORDS (b_nr map)) (fun i r =>
    match r with
    | Some _ => Some r
    | None =>
        words ← b_words map;
        w ← arr_get words i;
        let idx := ffsll w in
        Some (if 0 <? idx then Some (i32 (i * M0_BITMAP_BITS + (idx - 1))) else None)
    end) None;
  Some (default (-1) r).

Definition m0_bitmap_ffz (map : m0_bitmap) : option Z :=
  r ← for_up 0 (b_nr map) (fun idx r =>
    match r with
    | Some _ => Some r
    | None => b ← m0_bitmap_get map idx; Some (if negb b then Some idx else None)
    end) None;
  Some (default (-1) r).

Definition m0_bitmap_set (map : m0_bitmap) (idx : Z) (val : bool) : option m0_bitmap :=
  _ ← M0_ASSERT ((idx <? b_nr map) && bool_decide (is_Some (b_words map)));
  words ← b_words map;
  w ← arr_get words (M0_BITMAP_SHIFT idx);
  words ← arr_set words (M0_BITMAP_SHIFT idx)
            (if val then Z.lor w (M0_BITMAP_MASK idx) else Z.ldiff w (M0_BITMAP_MASK idx));
  Some {| b_nr := b_nr map; b_words := Some words |}.

Definition m0_bitmap_reset (map : m0_bitmap) : option m0_bitmap :=
  for_up 0 (M0_BITMAP_WORDS (b_nr map)) (fun i map =>
    words ← b_words map;
    words ← arr_set words i 0;
    Some {| b_nr := b_nr map; b_words := Some words |}) map.

(** The first [n] words, for memcpy(). *)
Definition words_take (words : list Z) (n : Z) : option (list Z) :=
  _ ← M0_ASSERT (n <=? Z.of_nat (length words));
  Some (take (Z.to_nat n) words).

Definition m0_bitmap_copy (dst src : m0_bitmap) : option m0_bitmap :=
  let s := i32 (M0_BITMAP_WORDS (b_nr src)) in
  let d := i32 (M0_BITMAP_WORDS (b_nr dst)) in
  _ ← M0_ASSERT ((b_nr src <=? b_nr dst) && bool_decide (is_Some (b_words src)) && bool_decide
    (is_Some (b_words dst)));
  sw ← b_words src;
  dw ← b_words dst;
  sw ← words_take sw s;
  dw ← arr_put dw sw;
  dw ← (if s <? d then for_up s d (fun i dw => arr_set dw i 0) dw else Some dw);
  Some {| b_nr := b_nr dst; b_words := Some dw |}.

Definition m0_bitmap_set_nr (map : m0_bitmap) : option Z :=
  for_up 0 (b_nr map) (fun i nr => b ← m0_bitmap_get map i; Some (u64 (nr + if (b : bool) then 1 else 0))) 0.

Definition m0_bitmap_onwire_init (mem : bool) (nr : Z) : Z * m0_bitmap_onwire :=
  let words := words_alloc mem nr in
  (if words then 0 else - ENOMEM, {| bo_size := M0_BITMAP_WORDS nr; bo_words := words |}).

Definition m0_bitmap_onwire_fini (ow_map : m0_bitmap_onwire) : m0_bitmap_onwire :=
  {| bo_size := 0; bo_words := None |}.

Definition m0_bitmap_store (im_map : m0_bitmap) (ow_map : m0_bitmap_onwire) : option m0_bitmap_onwire :=
  _ ← M0_ASSERT (bool_decide (is_Some (b_words im_map)));
  let s := M0_BITMAP_WORDS (b_nr im_map) in
  _ ← M0_ASSERT (s =? bo_size ow_map);
  iw ← b_words im_map;
  ow ← bo_words ow_map;
  iw ← words_take iw s;
  ow ← arr_put ow iw;
  Some {| bo_size := bo_size ow_map; bo_words := Some ow |}.

Definition m0_bitmap_load (ow_map : m0_bitmap_onwire) (im_map : m0_bitmap) : option m0_bitmap :=
  _ ← M0_ASSERT (M0_BITMAP_WORDS (b_nr im_map) =? bo_size ow_map);
  iw ← b_words im_map;
  ow ← bo_words ow_map;
  ow ← words_take ow (bo_size ow_map);
  iw ← arr_put iw ow;
  Some {| b_nr := b_nr im_map; b_words := Some iw |}.

(** ** A bitmap as the list of its bits *)

Definition word_bit (words : list Z) (i : Z) :
  bool := Z.testbit (default 0 (words !! Z.to_nat (i / 64))) (i mod 64).

(** The bits of the words behind the last one of [l] are 0. *)
Definition words_rep (words : list Z) (l : list bool) : Prop :=
  Z.of_nat (length words) = (Z.of_nat (length l) + 63) / 64 /\ Forall is_u64 words /\
  forall i, 0 <= i -> word_bit words i = default false (l !! Z.to_nat i).

Definition bm_rep (map : m0_bitmap) (l : list bool) : Prop :=
  b_nr map = Z.of_nat (length l) /\ Z.of_nat (length l) < 2 ^ 31 /\ exists words, b_words map = Some words /\
  words_rep words l.

(** ** Lemmas *)

Lemma bitmap_words n : 0 <= n < 2 ^ 31 -> M0_BITMAP_WORDS n = (n + 63) / 64.
Proof. intros Hn. rewrite u64_small by (unfold is_u64; lia). by rewrite Z.shiftr_div_pow2 by lia. Qed.

Lemma bitmap_index i : 0 <= i -> M0_BITMAP_SHIFT i = i / 64 /\ M0_BITMAP_MASK i = 2 ^ (i mod 64).
Proof.
  intros Hi. split; [by rewrite Z.shiftr_div_pow2 by lia|].
  change (64 - 1) with (Z.ones 6). rewrite Z.land_ones by lia. change (2 ^ 6) with 64.
  pose proof (Z.mod_pos_bound i 64). rewrite Z.shiftl_mul_pow2, Z.mul_1_l by lia.
  apply u64_small. split; [lia|]. apply Z.pow_lt_mono_r; lia.
Qed.

Lemma mask_test w k : 0 <= k -> negb (Z.land w (2 ^ k) =? 0) = Z.testbit w k.
Proof.
  intros Hk. destruct (Z.testbit w k) eqn:E.
  - destruct (Z.eqb_spec (Z.land w (2 ^ k)) 0) as [H0|]; [|done].
    apply (f_equal (fun z => Z.testbit z k)) in H0.
    by rewrite Z.land_spec, E, Z.pow2_bits_true, Z.testbit_0_l in H0.
  - replace (Z.land w (2 ^ k)) with 0; [done|]. symmetry. apply Z.bits_inj'. intros j Hj.
    rewrite Z.land_spec, Z.testbit_0_l, Z.pow2_bits_eqb by lia.
    destruct (Z.eqb_spec k j) as [->|]; [by rewrite E|by rewrite andb_false_r].
Qed.

(** A word of 64 bits, by its bits. *)
Lemma is_u64_bits w : 0 <= w -> (forall j, 64 <= j -> Z.testbit w j = false) -> is_u64 w.
Proof.
  intros H0 Hb. split; [done|]. destruct (Z.eq_dec w 0) as [->|]; [done|].
  apply Z.log2_lt_pow2; [lia|]. apply Z.nle_gt. intros Hl. pose proof (Z.bit_log2 w ltac:(lia)) as Hbit.
  rewrite Hb in Hbit by done. done.
Qed.

Lemma u64_bits w j : is_u64 w -> 64 <= j -> Z.testbit w j = false.
Proof.
  intros [H0 H1] Hj. destruct (Z.eq_dec w 0) as [->|]; [by rewrite Z.testbit_0_l|].
  apply Z.bits_above_log2; [done|]. apply Z.log2_lt_pow2 in H1; lia.
Qed.

Lemma set_word_bits w k j (val : bool) : 0 <= k -> 0 <= j ->
  Z.testbit (if val then Z.lor w (2 ^ k) else Z.ldiff w (2 ^ k)) j = if j =? k then val else Z.testbit w j.
Proof.
  intros Hk Hj. rewrite (Z.eqb_sym j k). destruct val; rewrite ?Z.lor_spec, ?Z.ldiff_spec, Z.pow2_bits_eqb
    by lia;
    destruct (k =? j), (Z.testbit w j); done.
Qed.

Lemma set_word_u64 w k (val : bool) : is_u64 w -> 0 <= k < 64 ->
  is_u64 (if val then Z.lor w (2 ^ k) else Z.ldiff w (2 ^ k)).
Proof.
  intros Hw Hk. apply is_u64_bits.
  - destruct Hw. destruct val; [apply Z.lor_nonneg|apply Z.ldiff_nonneg]; [|by left]. split; [done|]. lia.
  - intros j Hj. rewrite set_word_bits by lia. rewrite (proj2 (Z.eqb_neq j k)) by lia. by apply u64_bits.
Qed.

Lemma word_index n i : 0 <= i < n -> 0 <= i / 64 < (n + 63) / 64 /\ 0 <= i mod 64 < 64.
Proof.
  intros Hi. pose proof (Z.mod_pos_bound i 64 ltac:(lia)). split; [|done]. split; [apply Z.div_pos; lia|].
  apply Z.div_lt_upper_bound; [lia|]. pose proof (Z.div_mod (n + 63) 64 ltac:(lia)).
  pose proof (Z.mod_pos_bound (n + 63) 64 ltac:(lia)). lia.
Qed.

Lemma rep_word map l i : bm_rep map l -> 0 <= i < Z.of_nat (length l) ->
  exists words w, b_words map = Some words /\ words_rep words l /\ arr_get words (i / 64) = Some w /\
  is_u64 w /\
    Z.testbit w (i mod 64) = default false (l !! Z.to_nat i).
Proof.
  intros (Hn & Hmax & words & Hw & Hr) Hi. pose proof Hr as (Hl & Hu & Hb).
  destruct (word_index _ i Hi) as [H1 H2].
  destruct (arr_get_is_Some words (i / 64)) as [w E]; [lia|]. exists words, w. split_and!; try done.
  - apply arr_get_Some in E as [_ E]. by eapply Forall_lookup_1 in E.
  - rewrite <-Hb by lia. unfold word_bit. apply arr_get_Some in E as [_ E]. by rewrite E.
Qed.

Lemma bitmap_get_ok map l i : bm_rep map l -> 0 <= i < Z.of_nat (length l) ->
  m0_bitmap_get map i = l !! Z.to_nat i.
Proof.
  intros Hr Hi. destruct (rep_word map l i Hr Hi) as (words & w & Hw & _ & E & _ & Hbit).
  pose proof Hr as (Hn & _).
  destruct (bitmap_index i) as [E1 E2]; [lia|]. unfold m0_bitmap_get.
  assert_ok by (rewrite Hw, Hn; cbn; rewrite andb_true_r; apply Z.ltb_lt; lia).
  rewrite Hw. cbn [mbind option_bind]. rewrite E1, E2, E. cbn [mbind option_bind].
  rewrite mask_test, Hbit by (pose proof (Z.mod_pos_bound i 64); lia).
  by destruct (lookup_lt_is_Some_2 l (Z.to_nat i) ltac:(lia)) as [b ->].
Qed.

Lemma bitmap_set_ok map l i val : bm_rep map l -> 0 <= i < Z.of_nat (length l) ->
  exists map', m0_bitmap_set map i val = Some map' /\ bm_rep map' (<[Z.to_nat i := val]> l).
Proof.
  intros Hr Hi. destruct (rep_word map l i Hr Hi) as (words & w & Hw & (Hl & Hu & Hb) & E & Hwu & Hbit).
  pose proof Hr as (Hn & Hmax & _).
  destruct (bitmap_index i) as [E1 E2]; [lia|]. destruct (word_index _ i Hi) as [H1 H2]. unfold m0_bitmap_set.
  assert_ok by (rewrite Hw, Hn; cbn; rewrite andb_true_r; apply Z.ltb_lt; lia).
  rewrite Hw. cbn [mbind option_bind]. rewrite E1, E2, E. cbn [mbind option_bind].
  rewrite arr_set_ok by lia. cbn [mbind option_bind]. eexists. split; [done|].
  split_and!; cbn [b_nr b_words]; rewrite ?length_insert; try done.
  eexists. split; [done|]. split_and!; rewrite ?length_insert;
    [done|apply Forall_insert; [done|by apply set_word_u64]|].
  intros j Hj. specialize (Hb j Hj). unfold word_bit in *.
  destruct (Z.eq_dec (j / 64) (i / 64)) as [Hq|Hq].
  - rewrite Hq, list_lookup_insert_eq by lia. cbn [from_option id]. apply arr_get_Some in E as [_ E].
    rewrite Hq, E in Hb. cbn [from_option id] in Hb.
    rewrite set_word_bits by (pose proof (Z.mod_pos_bound j 64); lia). rewrite Hb.
    pose proof (Z.div_mod i 64 ltac:(lia)). pose proof (Z.div_mod j 64 ltac:(lia)).
    destruct (Z.eqb_spec (j mod 64) (i mod 64)).
    + replace j with i by lia. by rewrite list_lookup_insert_eq by lia.
    + rewrite list_lookup_insert_ne; [done|]. intros Hij. assert (i = j) by lia. congruence.
  - pose proof (Z.div_pos j 64 Hj). assert (Z.to_nat (i / 64) <> Z.to_nat (j / 64)) by lia.
    assert (Z.to_nat i <> Z.to_nat j) by (intros ?; assert (i = j) by lia; congruence).
    by rewrite !list_lookup_insert_ne.
Qed.

(** The first element of a list with a property. *)
Lemma first_loop {A} (P : A -> Prop) `{!forall x, Decision (P x)} (l : list A) (body : Z -> option Z ->
  option (option Z)) (f : Z -> A -> Z) :
  (forall i x, l !! Z.to_nat i = Some x -> 0 <= i ->
    body i None = Some (if bool_decide (P x) then Some (f i x) else None)) ->
  (forall i r, body i (Some r) = Some (Some r)) ->
  for_up 0 (Z.of_nat (length l)) body None = Some (match list_find P l
    with Some (i, x) => Some (f (Z.of_nat i) x) | None => None end).
Proof.
  intros Hb Hs.
  destruct (for_up_total (fun j r => r = match list_find P (take (Z.to_nat j) l)
    with Some (i, x) => Some (f (Z.of_nat i) x) | None => None end)
    body 0 (Z.of_nat (length l)) None) as (r & E & ->); [lia|done| |].
  - intros j r Hj ->. destruct (lookup_lt_is_Some_2 l (Z.to_nat j)) as [x Hx]; [lia|].
    replace (Z.to_nat (j + 1)) with (S (Z.to_nat j)) by lia. rewrite (take_S_r _ _ _ Hx).
    destruct (list_find P (take (Z.to_nat j) l)) as [[i y]|] eqn:Ef.
    + rewrite (list_find_app_l _ _ _ _ _ Ef), Hs. by eexists.
    + rewrite (list_find_app_r _ _ _ Ef), (Hb _ _ Hx) by lia. eexists. split; [done|]. cbn [list_find].
      rewrite length_take_le by lia.
      destruct (bool_decide_reflect (P x)); [rewrite decide_True by done|by rewrite decide_False].
      cbn. do 2 f_equal. lia.
  - rewrite E. by rewrite take_ge by lia.
Qed.

Lemma bitmap_ffz_ok map l : bm_rep map l ->
  m0_bitmap_ffz map = Some (match list_find (fun b => b = false) l with Some (i, _) => Z.of_nat i |
    None => -1 end).
Proof.
  intros Hr. unfold m0_bitmap_ffz. rewrite (proj1 Hr).
  rewrite (first_loop (fun b => b = false) l _ (fun i _ => i)).
  - cbn [mbind option_bind]. by destruct (list_find _ l) as [[i x]|].
  - intros i b Hb Hi. rewrite (bitmap_get_ok map l) by (done || apply lookup_lt_Some in Hb; lia). rewrite Hb.
    cbn [mbind option_bind]. by destruct b.
  - done.
Qed.

Lemma ffsll_ok w : is_u64 w ->
  w = 0 /\ ffsll w = 0 \/
  exists b, 0 <= b < 64 /\ ffsll w = b + 1 /\ Z.testbit w b = true /\ forall j, 0 <= j < b ->
  Z.testbit w j = false.
Proof.
  intros Hw. unfold ffsll. destruct (list_find _ (seqZ 0 64)) as [[i b]|] eqn:E.
  - right. apply list_find_Some in E as (Hi & Hb & Hmin). apply lookup_seqZ in Hi as [-> Hi].
    exists (Z.of_nat i).
    split_and!; [lia|lia|done|done|]. intros j Hj. apply not_true_is_false. apply (Hmin (Z.to_nat j)); [|lia].
    apply lookup_seqZ. lia.
  - left. apply list_find_None in E. split; [|done]. apply Z.bits_inj'. intros j Hj. rewrite Z.testbit_0_l.
    destruct (Z.lt_ge_cases j 64); [|by apply u64_bits]. apply not_true_is_false. rewrite Forall_seqZ in E.
    apply E. lia.
Qed.

Lemma word_bit_get words i w j : words !! Z.to_nat i = Some w -> 0 <= i -> 0 <= j < 64 ->
  word_bit words (i * 64 + j) = Z.testbit w j.
Proof.
  intros Hw Hi Hj. unfold word_bit. rewrite Z.div_add_l, Z.div_small, Z.add_0_r, Hw by lia.
  cbn [from_option id].
  by rewrite Z.add_comm, Z.mod_add, Z.mod_small by lia.
Qed.

Lemma bitmap_ffs_ok map l : bm_rep map l ->
  m0_bitmap_ffs map = Some (match list_find (fun b => b = true) l with Some (i, _) => Z.of_nat i |
    None => -1 end).
Proof.
  intros (Hn & Hmax & words & Hw & Hl & Hu & Hb). unfold m0_bitmap_ffs. rewrite Hn, bitmap_words by lia.
  rewrite <-Hl.
  rewrite (first_loop (fun w => w <> 0) words _ (fun i w => i32 (i * 64 + (ffsll w - 1)))).
  2:{ intros i w Hwi Hi. rewrite Hw. cbn [mbind option_bind]. unfold arr_get. rewrite (proj2 (Z.leb_le 0 i)),
        Hwi by done.
      cbn [mbind option_bind]. destruct (ffsll_ok w) as [[-> ->]|(b & H1 & -> & H2 & _)];
        [by eapply Forall_lookup_1|done|].
      rewrite (proj2 (Z.ltb_lt 0 (b + 1))), bool_decide_true
        by (lia || (intros ->; by rewrite Z.testbit_0_l in H2)). done. }
  2:{ done. }
  cbn [mbind option_bind]. f_equal. destruct (list_find _ words) as [[i w]|] eqn:E; cbn [from_option id].
  - apply list_find_Some in E as (Hi & Hw0 & Hmin).
    destruct (ffsll_ok w) as [[-> _]|(b & H1 & -> & H2 & H3)]; [by eapply Forall_lookup_1|done|].
    set (n := Z.of_nat i * 64 + b).
    assert (word_bit words n = true) as Hbit
      by (subst n; rewrite (word_bit_get words _ w) by (rewrite ?Nat2Z.id; done || lia); done).
    rewrite Hb in Hbit by lia. destruct (l !! Z.to_nat n) as [x|] eqn:Hx; [|done]. simpl in Hbit. subst x.
    pose proof (lookup_lt_Some _ _ _ Hx). replace (b + 1 - 1) with b by lia. fold n. rewrite i32_small by lia.
    replace (list_find (fun b => b = true) l) with (Some (Z.to_nat n, true)); [simpl; lia|]. symmetry.
    apply list_find_Some.
    split; [done|]. split; [done|]. intros j y Hy Hj ->. pose proof (Hb (Z.of_nat j) ltac:(lia)) as Hbj.
    rewrite Nat2Z.id, Hy in Hbj. simpl in Hbj.
    assert (Z.of_nat j = Z.of_nat j / 64 * 64 + Z.of_nat j mod 64) as Ej
      by (pose proof (Z.div_mod (Z.of_nat j) 64); lia).
    pose proof (Z.mod_pos_bound (Z.of_nat j) 64 ltac:(lia)).
    pose proof (Z.div_pos (Z.of_nat j) 64 ltac:(lia) ltac:(lia)).
    destruct (lookup_lt_is_Some_2 words (Z.to_nat (Z.of_nat j / 64))) as [w' Hw'];
      [apply lookup_lt_Some in Hi; lia|].
    rewrite Ej, (word_bit_get words _ w') in Hbj by (done || lia).
    destruct (Z.lt_ge_cases (Z.of_nat j / 64) (Z.of_nat i)) as [Hlt|Hge].
    + pose proof (Hmin _ _ Hw' ltac:(lia)) as Hz. apply dec_stable in Hz. subst w'.
      by rewrite Z.testbit_0_l in Hbj.
    + replace (Z.to_nat (Z.of_nat j / 64)) with i in Hw' by lia. assert (w' = w) as -> by congruence.
      by rewrite H3 in Hbj by lia.
  - apply list_find_None in E. replace (list_find (fun b => b = true) l) with (@None (nat * bool)); [done|].
    symmetry. apply list_find_None.
    apply Forall_lookup_2. intros j x Hx ->. pose proof (Hb (Z.of_nat j) ltac:(lia)) as Hbj.
    rewrite Nat2Z.id, Hx in Hbj. simpl in Hbj.
    unfold word_bit in Hbj. destruct (words !! _) as [w'|] eqn:Hw'; simpl in Hbj;
      [|by rewrite Z.testbit_0_l in Hbj].
    apply (Forall_lookup_1 _ _ _ _ E) in Hw'. apply dec_stable in Hw'. subst w'.
    by rewrite Z.testbit_0_l in Hbj.
Qed.

Lemma bitmap_set_nr_ok map l : bm_rep map l ->
  m0_bitmap_set_nr map = Some (Z.of_nat (length (filter (fun b => b = true) l))).
Proof.
  intros Hr. pose proof Hr as (Hn & Hmax & _). unfold m0_bitmap_set_nr. rewrite Hn.
  destruct (for_up_total (fun j nr => nr = Z.of_nat
    (length (filter (fun b => b = true) (take (Z.to_nat j) l))))
    (fun i nr => b ← m0_bitmap_get map i; Some (u64 (nr + if (b : bool) then 1 else 0))) 0
      (Z.of_nat (length l)) 0) as (r & E & ->);
    [lia|done| |by rewrite E, take_ge by lia].
  intros j nr Hj ->. rewrite (bitmap_get_ok map l) by done.
  destruct (lookup_lt_is_Some_2 l (Z.to_nat j)) as [b Hb]; [lia|]. rewrite Hb.
  cbn [mbind option_bind]. eexists. split; [done|]. replace (Z.to_nat (j + 1)) with (S (Z.to_nat j)) by lia.
  rewrite (take_S_r _ _ _ Hb), filter_app, length_app.
  pose proof (length_filter (fun b => b = true) (take (Z.to_nat j) l)) as Hf. rewrite length_take in Hf.
  rewrite u64_small by (unfold is_u64; destruct b; lia).
  destruct b; [rewrite filter_cons_True by done|rewrite filter_cons_False by done]; simpl; lia.
Qed.

Lemma word_bit_zeros words n i : word_bit (words ++ replicate n 0) i = word_bit words i.
Proof.
  unfold word_bit. destruct (decide (Z.to_nat (i / 64) < length words)%nat); [by rewrite lookup_app_l|].
  rewrite lookup_app_r, (lookup_ge_None_2 words) by lia.
  destruct (replicate n 0 !! _) eqn:E; [|done]. by apply lookup_replicate in E as [-> _].
Qed.

(** Zeroes behind the words are bits that are not set. *)
Lemma words_rep_grow words n l m : words_rep words l ->
  Z.of_nat (length words + n) = (Z.of_nat (length l + m) + 63) / 64 ->
  words_rep (words ++ replicate n 0) (l ++ replicate m false).
Proof.
  intros (Hl & Hu & Hb) Hn. split_and!.
  - by rewrite !length_app, !length_replicate.
  - apply Forall_app. split; [done|]. by apply Forall_replicate.
  - intros i Hi. rewrite word_bit_zeros, Hb by done.
    destruct (decide (Z.to_nat i < length l)%nat); [by rewrite lookup_app_l|].
    rewrite lookup_app_r, (lookup_ge_None_2 l) by lia.
    destruct (replicate m false !! _) eqn:E; [|done]. by apply lookup_replicate in E as [-> _].
Qed.

Lemma zero_rep n : words_rep (replicate (Z.to_nat ((Z.of_nat n + 63) / 64)) 0) (replicate n false).
Proof.
  assert (0 <= (Z.of_nat n + 63) / 64) by (apply Z.div_pos; lia).
  apply (words_rep_grow [] _ [] n); [|simpl; lia]. split_and!; [done|by apply Forall_nil|].
  intros i Hi. unfold word_bit. by rewrite lookup_nil, Z.testbit_0_l.
Qed.

Lemma zero_fill (words : list Z) s d : 0 <= s <= d -> d <= Z.of_nat (length words) ->
  for_up s d (fun i words => arr_set words i 0) words =
  Some (take (Z.to_nat s) words ++ replicate (Z.to_nat (d - s)) 0 ++ drop (Z.to_nat d) words).
Proof.
  intros Hs Hd.
  destruct (for_up_total (fun j w => w = take (Z.to_nat s) words ++ replicate (Z.to_nat (j - s)) 0 ++ drop
    (Z.to_nat j) words)
    (fun i words => arr_set words i 0) s d words) as (w & E & ->); [lia| | |done].
  - rewrite Z.sub_diag. simpl. by rewrite take_drop.
  - intros j w Hj ->. destruct (lookup_lt_is_Some_2 words (Z.to_nat j)) as [x Hx]; [lia|].
    rewrite (drop_S _ _ _ Hx), app_assoc. rewrite arr_set_middle
      by (rewrite length_app, length_take, length_replicate; lia).
    eexists. split; [done|]. rewrite <-app_assoc. f_equal.
    replace (Z.to_nat (j + 1 - s)) with (Z.to_nat (j - s) + 1)%nat by lia. rewrite replicate_add, <-app_assoc.
    simpl.
    by replace (Z.to_nat (j + 1)) with (S (Z.to_nat j)) by lia.
Qed.

Lemma bitmap_init_ok map nr : 0 <= nr < 2 ^ 31 ->
  exists map', m0_bitmap_init true map nr = (0, map') /\ bm_rep map' (replicate (Z.to_nat nr) false).
Proof.
  intros Hn. eexists. split; [done|]. split_and!; cbn [b_nr b_words words_alloc]; rewrite ?length_replicate;
    [lia|lia|].
  eexists. split; [done|]. rewrite bitmap_words by done. pose proof (zero_rep (Z.to_nat nr)) as Hz.
  by rewrite Z2Nat.id in Hz by lia.
Qed.

Lemma bitmap_reset_ok map l : bm_rep map l ->
  exists map', m0_bitmap_reset map = Some map' /\ bm_rep map' (replicate (length l) false).
Proof.
  intros (Hn & Hmax & words & Hw & Hl & Hu & Hb). unfold m0_bitmap_reset. rewrite Hn, bitmap_words by lia.
  rewrite <-Hl.
  destruct (for_up_total (fun j m => m = {| b_nr := b_nr map;
    b_words := Some (replicate (Z.to_nat j) 0 ++ drop (Z.to_nat j) words) |})
    (fun i map => words ← b_words map; words ← arr_set words i 0;
      Some {| b_nr := b_nr map; b_words := Some words |})
    0 (Z.of_nat (length words)) map) as (m & E & ->); [lia|by destruct map; simpl in *; subst| |].
  - intros j m Hj ->. cbn [b_words b_nr mbind option_bind].
    destruct (lookup_lt_is_Some_2 words (Z.to_nat j)) as [x Hx]; [lia|].
    rewrite (drop_S _ _ _ Hx), arr_set_middle by (rewrite length_replicate; lia). cbn [mbind option_bind].
    eexists. split; [done|].
    do 2 f_equal. replace (Z.to_nat (j + 1)) with (Z.to_nat j + 1)%nat by lia.
    rewrite replicate_add, <-app_assoc. simpl.
    by replace (Z.to_nat j + 1)%nat with (S (Z.to_nat j)) by lia.
  - rewrite E. eexists. split; [done|]. split_and!; cbn [b_nr b_words]; rewrite ?length_replicate;
      [done|done|]. eexists. split; [done|].
    rewrite drop_ge, app_nil_r, Hl by lia. apply zero_rep.
Qed.

Lemma bitmap_copy_ok dst src l l' : bm_rep src l -> bm_rep dst l' -> (length l <= length l')%nat ->
  exists dst', m0_bitmap_copy dst src = Some dst' /\
  bm_rep dst' (l ++ replicate (length l' - length l) false).
Proof.
  intros (Hn & Hmax & sw & Hsw & Hsr) (Hn' & Hmax' & dw & Hdw & Hdl & _) Hle. pose proof Hsr as (Hsl & _).
  unfold m0_bitmap_copy. rewrite Hn, Hn', !bitmap_words by lia. rewrite <-Hsl, <-Hdl.
  assert (length sw <= length dw)%nat as Hlw by (apply Nat2Z.inj_le; rewrite Hsl, Hdl; apply Z.div_le_mono;
    lia).
  assert (Z.of_nat (length dw) < 2 ^ 31) by (rewrite Hdl; apply Z.div_lt_upper_bound; lia).
  rewrite !i32_small by lia.
  assert_ok by (rewrite Hsw, Hdw, (proj2 (Z.leb_le _ _)) by lia; done). rewrite Hsw, Hdw.
  cbn [mbind option_bind].
  unfold words_take. assert_ok by (apply Z.leb_le; lia). rewrite Nat2Z.id, firstn_all, arr_put_ok by done.
  cbn [mbind option_bind].
  assert (exists w, (if Z.of_nat (length sw) <? Z.of_nat (length dw) then
    for_up (Z.of_nat (length sw)) (Z.of_nat (length dw)) (fun i dw => arr_set dw i 0)
      (sw ++ drop (length sw) dw) else Some (sw ++ drop (length sw) dw)) = Some w /\
    w = sw ++ replicate (length dw - length sw) 0) as (w & -> & ->).
  { destruct (Z.ltb_spec (Z.of_nat (length sw)) (Z.of_nat (length dw))).
    - rewrite zero_fill by (rewrite ?length_app, ?length_drop; lia). eexists. split; [done|].
      rewrite Nat2Z.id, take_app_length, (drop_ge (sw ++ _)), app_nil_r
        by (rewrite length_app, length_drop; lia). f_equal. f_equal. lia.
    - eexists. split; [done|]. rewrite drop_ge by lia.
      by replace (length dw - length sw)%nat with 0%nat by lia. }
  cbn [mbind option_bind]. eexists. split; [done|].
  assert (length (l ++ replicate (length l' - length l) false) = length l') as El
    by (rewrite length_app, length_replicate; lia).
  split_and!; cbn [b_nr b_words]; rewrite ?El; [done|done|].
  eexists. split; [done|]. apply words_rep_grow; [done|].
  replace (length sw + (length dw - length sw))%nat with (length dw) by lia.
  by replace (length l + (length l' - length l))%nat with (length l') by lia.
Qed.

Lemma bitmap_wire_ok map l : bm_rep map l ->
  exists ow ow', m0_bitmap_onwire_init true (Z.of_nat (length l)) = (0, ow) /\
  m0_bitmap_store map ow = Some ow' /\
    forall im l', bm_rep im l' -> length l' = length l -> exists im', m0_bitmap_load ow' im = Some im' /\
    bm_rep im' l.
Proof.
  intros (Hn & Hmax & words & Hw & Hr). pose proof Hr as (Hl & _).
  eexists _, {| bo_size := Z.of_nat (length words); bo_words := Some words |}.
  split; [done|]. cbn [words_alloc]. split.
  - unfold m0_bitmap_store. assert_ok by (by rewrite Hw). cbn [bo_size bo_words]. rewrite Hn.
    assert_ok by apply Z.eqb_refl.
    rewrite Hw, bitmap_words, <-Hl by lia. cbn [mbind option_bind]. unfold words_take.
    assert_ok by (apply Z.leb_le; lia).
    rewrite Nat2Z.id, firstn_all, arr_put_ok by (by rewrite length_replicate). cbn [mbind option_bind].
    by rewrite drop_ge, app_nil_r by (by rewrite length_replicate).
  - intros im l' (Hn' & Hmax' & words' & Hw' & Hl' & _) El. unfold m0_bitmap_load. cbn [bo_size bo_words].
    rewrite Hn', bitmap_words, El, <-Hl by lia. assert_ok by apply Z.eqb_refl. rewrite Hw'.
    cbn [mbind option_bind].
    unfold words_take. assert_ok by (apply Z.leb_le; lia). rewrite Nat2Z.id, firstn_all.
    assert (length words' = length words) as Ew by (apply Nat2Z.inj; rewrite Hl, Hl', El; done).
    rewrite arr_put_ok by lia. cbn [mbind option_bind]. rewrite drop_ge, app_nil_r by lia. eexists.
    split; [done|].
    split_and!; cbn [b_nr b_words]; [done|done|]. by exists words.
Qed.

(** C32. A bitmap is the list of its bits.  Reading, setting, searching for the first bit that is
    set or not set, counting, resetting and copying to a bitmap of at least the same size do what
    they do to the list, and what is stored on the wire is what is loaded from it, for any
    number of bits an int can index.  The words never keep bits behind the last one, which
    m0_bitmap_ffs() relies on. *)
Theorem bitmap_refines map l : bm_rep map l ->
  (forall i, 0 <= i < Z.of_nat (length l) -> m0_bitmap_get map i = l !! Z.to_nat i) /\
  (forall i val, 0 <= i < Z.of_nat (length l) -> exists map', m0_bitmap_set map i val = Some map' /\
    bm_rep map' (<[Z.to_nat i := val]> l)) /\
  m0_bitmap_ffs map = Some (match list_find (fun b => b = true) l with Some (i, _) => Z.of_nat i |
    None => -1 end) /\
  m0_bitmap_ffz map = Some (match list_find (fun b => b = false) l with Some (i, _) => Z.of_nat i |
    None => -1 end) /\
  m0_bitmap_set_nr map = Some (Z.of_nat (length (filter (fun b => b = true) l))) /\
  (exists map', m0_bitmap_reset map = Some map' /\ bm_rep map' (replicate (length l) false)) /\
  (forall dst l', bm_rep dst l' -> (length l <= length l')%nat ->
     exists dst', m0_bitmap_copy dst map = Some dst' /\
     bm_rep dst' (l ++ replicate (length l' - length l) false)) /\
  (exists ow ow', m0_bitmap_onwire_init true (Z.of_nat (length l)) = (0, ow) /\
    m0_bitmap_store map ow = Some ow' /\
     forall im l', bm_rep im l' -> length l' = length l -> exists im', m0_bitmap_load ow' im = Some im' /\
     bm_rep im' l).
Proof.
  intros Hr. split_and!.
  - intros. by apply bitmap_get_ok.
  - intros. by apply bitmap_set_ok.
  - by apply bitmap_ffs_ok.
  - by apply bitmap_ffz_ok.
  - by apply bitmap_set_nr_ok.
  - by apply bitmap_reset_ok.
  - intros. by eapply bitmap_copy_ok.
  - by apply bitmap_wire_ok.
Qed.

Definition example_bitmap : m0_bitmap := {| b_nr := 70; b_words := Some [0; 5] |}.

Lemma example_bitmap_rep : bm_rep example_bitmap (replicate 64 false ++ [true; false; true; false; false;
  false]).
Proof.
  split; [done|]. split; [vm_compute; congruence|]. eexists. split; [done|]. split; [done|].
  split; [repeat constructor; unfold is_u64; lia|].
  intros i Hi. destruct (Z.lt_ge_cases i 128) as [Hl|Hl].
  - assert (Forall (fun i => word_bit [0;
      5] i = default false ((replicate 64 false ++ [true; false; true; false; false; false]) !! Z.to_nat i))
      (seqZ 0 128)) as Hf
      by (apply (bool_decide_unpack _); by vm_compute).
    rewrite Forall_seqZ in Hf. apply Hf. lia.
  - rewrite (lookup_ge_None_2 (replicate 64 false ++ _)) by (simpl; lia). unfold word_bit.
    assert (2 <= i / 64) by (apply Z.div_le_lower_bound; lia).
    rewrite (lookup_ge_None_2 [0; 5]) by (simpl; lia). by rewrite Z.testbit_0_l.
Qed.

Lemma bitmap_refines_witness : m0_bitmap_ffs example_bitmap = Some 64 /\
  m0_bitmap_set_nr example_bitmap = Some 2.
Proof. destruct (bitmap_refines _ _ example_bitmap_rep) as (_ & _ & H1 & _ & H2 & _).
split; [exact H1|exact H2]. Defined.
