(* ===== verification/SnsIr.v ===== *)
(** * sns: incremental recovery

    Models the part of src/sns/parity_math.c that rebuilds the lost units of a parity group
    from the alive ones as they arrive (struct m0_sns_ir).  Each node adds its local
    units, times their coefficients, to accumulators of the lost units; the node of a
    spare unit adds the accumulators of the others to its own.  Units come in buffer
    vectors (Vec), lost units have bitmaps of the units they depend on (Bitmap), and the
    coefficients are those of the Reed-Solomon code (ParityMath). *)
From stdpp Require Import functions.
From S2P Require Import Prelude LibArith ParityMath ParityRS Bitmap Vec.
#[local] Open Scope motr_scope.

(** ** Definitions *)

Inductive m0_sns_ir_block_status := M0_SI_BLOCK_ALIVE | M0_SI_BLOCK_FAILED.

Inductive m0_sns_ir_block_type := M0_SI_BLOCK_LOCAL | M0_SI_BLOCK_REMOTE.

#[global] Instance block_status_eq : EqDecision m0_sns_ir_block_status.
Proof. solve_decision. Defined.

#[global] Instance block_type_eq : EqDecision m0_sns_ir_block_type.
Proof. solve_decision. Defined.

(** [sib_addr] points to a buffer vector; [None] is NULL. *)
Record m0_sns_ir_block := {
  sib_idx : Z;
  sib_addr : option m0_bufvec;
  sib_bitmap : m0_bitmap;
  sib_status : m0_sns_ir_block_status
}.

(** The arrays of [si_rs] are those of the context [m0_parity_math] it was initialised
    from, which is used for nothing else meanwhile. *)
Record m0_sns_ir := {
  si_data_nr : Z;
  si_parity_nr : Z;
  si_alive_nr : Z;
  si_local_nr : Z;
  si_blocks : option (list m0_sns_ir_block);
  si_rs : m0_reed_solomon
}.

Definition with_blocks (ir : m0_sns_ir) (bl : option (list m0_sns_ir_block)) : m0_sns_ir :=
  {| si_data_nr := si_data_nr ir; si_parity_nr := si_parity_nr ir; si_alive_nr := si_alive_nr ir;
     si_local_nr := si_local_nr ir; si_blocks := bl; si_rs := si_rs ir |}.

Definition with_si_rs (ir : m0_sns_ir) (rs : m0_reed_solomon) : m0_sns_ir :=
  {| si_data_nr := si_data_nr ir; si_parity_nr := si_parity_nr ir; si_alive_nr := si_alive_nr ir;
     si_local_nr := si_local_nr ir; si_blocks := si_blocks ir; si_rs := rs |}.

Definition with_nr (ir : m0_sns_ir) (alive_nr local_nr : Z) : m0_sns_ir :=
  {| si_data_nr := si_data_nr ir; si_parity_nr := si_parity_nr ir; si_alive_nr := alive_nr;
     si_local_nr := local_nr; si_blocks := si_blocks ir; si_rs := si_rs ir |}.

Definition with_bitmap (b : m0_sns_ir_block) (bm : m0_bitmap) : m0_sns_ir_block :=
  {| sib_idx := sib_idx b; sib_addr := sib_addr b; sib_bitmap := bm; sib_status := sib_status b |}.

Definition ir_blocks_count (ir : m0_sns_ir) : Z := u32 (si_data_nr ir + si_parity_nr ir).

Definition is_valid_block_idx (ir : m0_sns_ir) (block_idx : Z) : bool := block_idx <? ir_blocks_count ir.

(** A block as M0_ALLOC_ARR() leaves it. *)
Definition zero_block : m0_sns_ir_block :=
  {| sib_idx := 0; sib_addr := None; sib_bitmap := {| b_nr := 0; b_words := None |};
    sib_status := M0_SI_BLOCK_ALIVE |}.

(** Allocation 0 is the array, [1 + i] are the words of the bitmap of block [i]. *)
Definition ir_si_blocks_init (mem : Z -> bool) (ir : m0_sns_ir) : option (Z * m0_sns_ir) :=
  let blocks_count := ir_blocks_count ir in
  if negb (mem 0) then Some (- ENOMEM, with_blocks ir None)
  else
    '(ret, bl) ← for_up 0 blocks_count (fun i '(ret, bl) =>
      if negb (ret =? 0) then Some (ret, bl)
      else
        b ← arr_get bl i;
        let '(ret, bm) := m0_bitmap_init (mem (1 + i)) (sib_bitmap b) blocks_count in
        bl ← arr_set bl i {| sib_idx := i; sib_addr := sib_addr b; sib_bitmap := bm;
          sib_status := M0_SI_BLOCK_ALIVE |};
        Some (ret, bl)) (0, replicate (Z.to_nat blocks_count) zero_block);
    Some (ret, with_blocks ir (Some bl)).

Definition m0_sns_ir_fini (ir : m0_sns_ir) : option m0_sns_ir :=
  ir ← for_up 0 (ir_blocks_count ir) (fun i ir =>
    bl ← si_blocks ir;
    b ← arr_get bl i;
    if bool_decide (is_Some (b_words (sib_bitmap b))) then
      bm ← m0_bitmap_fini (sib_bitmap b);
      bl ← arr_set bl i (with_bitmap b bm);
      Some (with_blocks ir (Some bl))
    else Some ir) ir;
  Some (with_blocks ir None).

Definition ir_rs_init (math : m0_parity_math) (ir : m0_sns_ir) : m0_sns_ir :=
  let rs := pmi_rs math in
  with_si_rs ir {| rs_encode_matrix := rs_encode_matrix rs; rs_encode_tbls := rs_encode_tbls (si_rs ir);
                   rs_decode_tbls := rs_decode_tbls rs; rs_failed_nr := rs_failed_nr (si_rs ir);
                   rs_failed_idx := rs_failed_idx rs; rs_alive_idx := rs_alive_idx rs;
                   rs_bufs_in := rs_bufs_in (si_rs ir); rs_bufs_out := rs_bufs_out (si_rs ir) |}.

Definition m0_sns_ir_init (mem : Z -> bool) (math : m0_parity_math) (local_nr : Z) : option (Z * m0_sns_ir) :=
  let ir := {| si_data_nr := pmi_data_count math; si_parity_nr := pmi_parity_count math; si_alive_nr := 0;
               si_local_nr := local_nr; si_blocks := None; si_rs := zero_rs |} in
  let ir := with_nr ir (ir_blocks_count ir) local_nr in
  '(ret, ir) ← ir_si_blocks_init mem ir;
  if negb (ret =? 0) then
    ir ← m0_sns_ir_fini ir;
    Some (ret, ir)
  else Some (ret, ir_rs_init math ir).

Definition ir_failure_register (ir : m0_sns_ir) (failed_index : Z) : option m0_sns_ir :=
  let rs := si_rs ir in
  failed ← rs_failed_idx rs;
  _ ← M0_ASSERT (rs_failed_nr rs <? si_parity_nr ir);
  failed ← arr_set failed (rs_failed_nr rs) (u8 failed_index);
  Some (with_si_rs ir (with_idx rs (u32 (rs_failed_nr rs + 1)) (Some failed) (rs_alive_idx rs))).

Definition m0_sns_ir_failure_register (recov_addr : m0_bufvec) (failed_index : Z) (ir : m0_sns_ir) :
  option (Z * m0_sns_ir) :=
  bl ← si_blocks ir;
  _ ← M0_ASSERT (is_valid_block_idx ir failed_index);
  b ← arr_get bl failed_index;
  _ ← M0_ASSERT (bool_decide (sib_status b <> M0_SI_BLOCK_FAILED));
  bl ← arr_set bl failed_index {| sib_idx := sib_idx b; sib_addr := Some recov_addr;
    sib_bitmap := sib_bitmap b;
                                  sib_status := M0_SI_BLOCK_FAILED |};
  _ ← M0_ASSERT (negb (si_alive_nr ir =? 0));
  let ir := with_nr (with_blocks ir (Some bl)) (si_alive_nr ir - 1) (si_local_nr ir) in
  if si_alive_nr ir <? si_data_nr ir then Some (- ERANGE, ir)
  else
    ir ← ir_failure_register ir failed_index;
    Some (0, ir).

Definition dependency_bitmap_prepare (f_block : m0_sns_ir_block) (ir : m0_sns_ir) : option m0_sns_ir_block :=
  _ ← M0_ASSERT (bool_decide (sib_status f_block = M0_SI_BLOCK_FAILED));
  for_up 0 (si_data_nr ir) (fun i b =>
    alive ← rs_alive_idx (si_rs ir);
    a ← arr_get alive i;
    bm ← m0_bitmap_set (sib_bitmap b) a true;
    Some (with_bitmap b bm)) f_block.

Section recovery.
Context {isal : ISAL}.

Definition ir_mat_compute (mem : Z -> bool) (ir : m0_sns_ir) : option (Z * m0_sns_ir) :=
  let rs := si_rs ir in
  bl ← si_blocks ir;
  alive ← rs_alive_idx rs;
  '(alive, alive_nr) ← for_up 0 (ir_blocks_count ir) (fun i '(alive, alive_nr) =>
    b ← arr_get bl i;
    if bool_decide (sib_status b = M0_SI_BLOCK_ALIVE) then
      alive ← arr_set alive alive_nr (u8 (sib_idx b));
      Some (alive, u32 (alive_nr + 1))
    else Some (alive, alive_nr)) (alive, 0);
  _ ← M0_ASSERT (alive_nr =? si_alive_nr ir);
  let rs := with_idx rs (rs_failed_nr rs) (rs_failed_idx rs) (Some alive) in
  '(ret, rs) ← isal_gen_recov_coeff_tbl mem (si_data_nr ir) (si_parity_nr ir) rs;
  let ir := with_si_rs ir rs in
  if negb (ret =? 0) then Some (ret, ir)
  else
    ir ← for_up 0 (rs_failed_nr rs) (fun i ir =>
      failed ← rs_failed_idx rs;
      f ← arr_get failed i;
      bl ← si_blocks ir;
      b ← arr_get bl f;
      b ← dependency_bitmap_prepare b ir;
      bl ← arr_set bl f b;
      Some (with_blocks ir (Some bl))) ir;
    Some (ret, ir).

Definition m0_sns_ir_mat_compute (mem : Z -> bool) (ir : m0_sns_ir) :
  option (Z * m0_sns_ir) := ir_mat_compute mem ir.

(** *** Adding a transformed block *)

(** One segment: [y[i] = gadd(y[i], gmul(x[i], alpha))]. *)
Definition axpy_seg (m : mem) (y_addr x_addr alpha seg_size : Z) : option mem :=
  for_up 0 seg_size (fun i m =>
    let x := m (x_addr + i) in
    Some (<[y_addr + i := u8 (Z.lxor (m (y_addr + i)) (if alpha =? 1 then x else gf_mul x alpha))]> m)) m.

(** Every iteration but the last leaves a segment of [y]. *)
Fixpoint axpy_loop (n : nat) (m : mem) (y_cursor x_cursor : m0_bufvec_cursor) (alpha seg_size : Z) :
  option mem :=
  '(x_addr, x_cursor) ← m0_bufvec_cursor_addr x_cursor;
  '(y_addr, y_cursor) ← m0_bufvec_cursor_addr y_cursor;
  m ← axpy_seg m y_addr x_addr alpha seg_size;
  step ← m0_bufvec_cursor_step y_cursor;
  '(x_end, x_cursor) ← m0_bufvec_cursor_move x_cursor step;
  if (x_end : bool) then Some m
  else
    '(y_end, y_cursor) ← m0_bufvec_cursor_move y_cursor step;
    if (y_end : bool) then Some m
    else
      match n with
      | O => None
      | S n => axpy_loop n m y_cursor x_cursor alpha seg_size
      end.

Definition gfaxpy (m : mem) (y x : m0_bufvec) (alpha : Z) : option mem :=
  let y_nr := v_nr (ov_vec y) in
  _ ← M0_ASSERT (negb (y_nr =? 0));
  _ ← M0_ASSERT (y_nr =? v_nr (ov_vec x));
  y0 ← arr_get (v_count (ov_vec y)) 0;
  x0 ← arr_get (v_count (ov_vec x)) 0;
  _ ← M0_ASSERT (negb (y0 =? 0));
  _ ← M0_ASSERT (y0 =? x0);
  let seg_size := u32 y0 in
  _ ← M0_ASSERT (m0_forall y_nr (fun i => bool_decide (arr_get (v_count (ov_vec y)) i = Some seg_size)));
  y_cursor ← m0_bufvec_cursor_init y;
  x_cursor ← m0_bufvec_cursor_init x;
  axpy_loop (Z.to_nat y_nr) m y_cursor x_cursor alpha seg_size.

Definition last_usable_block_id (ir : m0_sns_ir) : option Z :=
  alive ← rs_alive_idx (si_rs ir);
  arr_get alive (si_data_nr ir - 1).

(** [false] of the loop state is the early return. *)
Definition is_usable (ir : m0_sns_ir) (in_bmap : m0_bitmap) (failed_block : m0_sns_ir_block) : option bool :=
  _ ← M0_ASSERT (b_nr in_bmap =? b_nr (sib_bitmap failed_block));
  last_usable_bid ← last_usable_block_id ir;
  if last_usable_bid =? ir_blocks_count ir then Some false
  else
    for_up 0 (last_usable_bid + 1) (fun i (r : bool) =>
      if r then
        a ← m0_bitmap_get in_bmap i;
        if (a : bool) then m0_bitmap_get (sib_bitmap failed_block) i else Some true
      else Some false) true.

(** *** Adding an alive block *)

Definition m0_bufvec_to_buf_copy (m : mem) (buf : m0_buf) (bvec : m0_bufvec) : option (Z * mem) :=
  cursor ← m0_bufvec_cursor_init bvec;
  '(rc, m, _) ← m0_bufvec_to_data_copy m cursor (b_addr buf) (b_nob buf);
  Some (rc, m).

Definition m0_buf_to_bufvec_copy (m : mem) (bvec : m0_bufvec) (buf : m0_buf) : option (Z * mem) :=
  cursor ← m0_bufvec_cursor_init bvec;
  '(rc, m, _) ← m0_data_to_bufvec_copy m cursor (b_addr buf) (b_nob buf);
  Some (rc, m).

(** Bytes written from [addr] on. *)
Definition mem_put (m : mem) (addr : Z) (bytes : list Z) : mem :=
  fun a => if (addr <=? a) && (a <? addr + Z.of_nat (length bytes)) then nthZ bytes (a - addr) else m a.

(** The result with the memory; [addr] is where the allocation is, [None] when it fails. *)
Definition m0_buf_alloc (m : mem) (addr : option Z) (size : Z) : Z * m0_buf * mem :=
  match addr with
  | None => (- ENOMEM, {| b_nob := 0; b_addr := 0 |}, m)
  | Some a => (0, {| b_nob := size; b_addr := a |}, mem_put m a (replicate (Z.to_nat size) 0))
  end.

(** The memory of buffers as a store of blocks, for the calls of ISA-L, and back. *)
Definition bufs_store (m : mem) (bufs : list m0_buf) : blocks :=
  list_to_map ((fun b => (b_addr b, m <$> seqZ (b_addr b) (b_nob b))) <$> bufs).

Definition store_bufs (m : mem) (st : blocks) (bufs : list m0_buf) : mem :=
  foldr (fun b m => match st !! b_addr b with Some bytes => mem_put m (b_addr b) bytes |
    None => m end) m bufs.

(** The buffers of the lost units: allocation [1 + i] for buffer [i]. *)
Definition out_bufs_fill (alloc : Z -> option Z) (m : mem) (ir : m0_sns_ir) (bl :
  list m0_sns_ir_block) (failed : list Z) (length : Z)
  : option (Z * list m0_buf * mem) :=
  for_up 0 (rs_failed_nr (si_rs ir)) (fun i '(ret, bufs, m) =>
    if negb (ret =? 0) then Some (ret, bufs, m)
    else
      let '(ret, buf, m) := m0_buf_alloc m (alloc (1 + i)) length in
      if negb (ret =? 0) then Some (ret, bufs, m)
      else
        f ← arr_get failed i;
        b ← arr_get bl f;
        bv ← sib_addr b;
        '(ret, m) ← m0_bufvec_to_buf_copy m buf bv;
        Some (ret, bufs ++ [buf], m)) (0, [], m).

(** The recovered units back to the buffer vectors. *)
Definition out_bufs_drain (m : mem) (ir : m0_sns_ir) (bl : list m0_sns_ir_block) (failed : list Z) (bufs :
  list m0_buf)
  : option (Z * mem) :=
  for_up 0 (rs_failed_nr (si_rs ir)) (fun i '(ret, m) =>
    if negb (ret =? 0) then Some (ret, m)
    else
      f ← arr_get failed i;
      b ← arr_get bl f;
      bv ← sib_addr b;
      buf ← arr_get bufs i;
      m0_buf_to_bufvec_copy m bv buf) (0, m).

(** The position of the block among the alive ones; UINT8_MAX when there is none. *)
Definition alive_find (ir : m0_sns_ir) (alive : list Z) (idx : Z) : option Z :=
  r ← for_up 0 (si_alive_nr ir) (fun i r =>
    match r with
    | Some _ => Some r
    | None => a ← arr_get alive i; Some (if a =? idx then Some (u8 i) else None)
    end) None;
  Some (default 255 r).

Section expensive.
Context (ex : bool).

(** Allocation 0 is the array of buffers, the next ones are its buffers, then come the
    buffer of the alive block and the array of isal_encode_data_update().  Nothing is
    done with the buffers after they have been freed. *)
Definition ir_recover (alloc : Z -> option Z) (m : mem) (ir : m0_sns_ir) (alive_block : m0_sns_ir_block) :
  option (Z * mem) :=
  let rs := si_rs ir in
  bl ← si_blocks ir;
  failed ← rs_failed_idx rs;
  needed ← for_up 0 (rs_failed_nr rs) (fun i (r : bool) =>
    if r then
      f ← arr_get failed i;
      b ← arr_get bl f;
      m0_bitmap_get (sib_bitmap b) (sib_idx alive_block)
    else Some false) true;
  if negb needed then Some (0, m)
  else
    alive_bufvec ← sib_addr alive_block;
    count ← m0_vec_count ex (ov_vec alive_bufvec);
    let length := u32 count in
    match alloc 0 with
    | None => Some (- ENOMEM, m)
    | Some _ =>
        '(ret, out_bufs, m) ← out_bufs_fill alloc m ir bl failed length;
        if negb (ret =? 0) then Some (ret, m)
        else
          alive ← rs_alive_idx rs;
          curr_idx ← alive_find ir alive (sib_idx alive_block);
          if curr_idx =? 255 then Some (- EINVAL, m)
          else
            let '(ret, in_buf, m) := m0_buf_alloc m (alloc (1 + rs_failed_nr rs)) length in
            if negb (ret =? 0) then Some (ret, m)
            else
              '(ret, m) ← m0_bufvec_to_buf_copy m in_buf alive_bufvec;
              if negb (ret =? 0) then Some (ret, m)
              else
                tbls ← rs_decode_tbls rs;
                '(ret, st) ← isal_encode_data_update (bool_decide (is_Some (alloc (2 + rs_failed_nr rs))))
                  out_bufs
                               (m <$> seqZ (b_addr in_buf) (b_nob in_buf)) curr_idx tbls (si_data_nr ir)
                               (rs_failed_nr rs) (bufs_store m out_bufs);
                let m := store_bufs m st out_bufs in
                if negb (ret =? 0) then Some (ret, m)
                else out_bufs_drain m ir bl failed out_bufs
    end.

Definition m0_sns_ir_recover (alloc : Z -> option Z) (m : mem) (ir : m0_sns_ir) (bufvec :
  m0_bufvec) (bitmap : m0_bitmap)
    (failed_index : Z) (block_type : m0_sns_ir_block_type) : option (Z * m0_sns_ir * mem) :=
  b_set_nr ← m0_bitmap_set_nr bitmap;
  _ ← M0_ASSERT (0 <? b_set_nr);
  _ ← M0_ASSERT (negb (1 <? b_set_nr) || bool_decide (block_type = M0_SI_BLOCK_REMOTE));
  bl ← si_blocks ir;
  _ ← (if bool_decide (block_type = M0_SI_BLOCK_REMOTE) then
         _ ← M0_ASSERT (is_valid_block_idx ir failed_index);
         b ← arr_get bl failed_index;
         M0_ASSERT (bool_decide (sib_status b = M0_SI_BLOCK_FAILED))
       else Some tt);
  _ ← M0_ASSERT (bool_decide (block_type <> M0_SI_BLOCK_LOCAL) || negb (si_local_nr ir =? 0));
  block_idx ← (if b_set_nr =? 1 then m0_bitmap_ffs bitmap else Some 0);
  _ ← M0_ASSERT (is_valid_block_idx ir (u32 block_idx));
  match block_type with
  | M0_SI_BLOCK_LOCAL =>
      _ ← M0_ASSERT (negb (si_local_nr ir =? 0));
      let ir := with_nr ir (si_alive_nr ir) (si_local_nr ir - 1) in
      b ← arr_get bl block_idx;
      let b := {| sib_idx := sib_idx b; sib_addr := Some bufvec; sib_bitmap := sib_bitmap b;
        sib_status := sib_status b |} in
      bl ← arr_set bl block_idx b;
      let ir := with_blocks ir (Some bl) in
      '(ret, m) ← ir_recover alloc m ir b;
      Some (ret, ir, m)
  | M0_SI_BLOCK_REMOTE =>
      b ← arr_get bl failed_index;
      usable ← is_usable ir bitmap b;
      if negb usable then Some (0, ir, m)
      else
        y ← sib_addr b;
        m ← gfaxpy m y bufvec 1;
        Some (0, ir, m)
  end.

End expensive.

End recovery.
