(* ===== verification/SnsIrMem.v ===== *)
(** * sns: the memory of incremental recovery

    What the operations of SnsIr on buffer vectors do to the bytes: copying between
    vectors and buffers, the update of the coded buffers, and adding one vector to
    another. *)
From stdpp Require Import functions.
From S2P Require Import Prelude LibArith ParityMath ParityRS Bitmap Vec SnsIr.
#[local] Open Scope motr_scope.

(** The buffer vector of a unit: [nr] segments of [seg] bytes each. *)
Record unit_bv (nr seg : Z) (bv : m0_bufvec) : Prop := {
  ub_nr : v_nr (ov_vec bv) = nr;
  ub_counts : v_count (ov_vec bv) = replicate (Z.to_nat nr) seg;
  ub_bufs : length (ov_buf bv) = Z.to_nat nr;
  ub_nodup : NoDup (bv_addrs bv)
}.

(** [m'] is [m] but for the bytes at [P]. *)
Definition only (P : Z -> Prop) (m m' : mem) : Prop := forall a, ~ P a -> m' a = m a.

Lemma only_trans (P P1 P2 : Z -> Prop) m m1 m2 :
  only P1 m m1 -> only P2 m1 m2 -> (forall a, P1 a -> P a) -> (forall a, P2 a -> P a) -> only P m m2.
Proof. intros H1 H2 Hw1 Hw2 a Ha. rewrite H2, H1 by auto. done. Qed.

Lemma only_weaken (P Q : Z -> Prop) m m' : only P m m' -> (forall a, P a -> Q a) -> only Q m m'.
Proof. intros H Hw a Ha. apply H. auto. Qed.

Lemma only_bytes (P : Z -> Prop) (l : list Z) (m m' : mem) : only P m m' -> (forall a, a ∈ l -> ~ P a) ->
  m' <$> l = m <$> l.
Proof. intros Ho Hd. apply fmap_mem_ext. intros a Ha. by apply Ho, Hd. Qed.

Lemma mem_put_ok m a bytes : mem_put m a bytes <$> seqZ a (Z.of_nat (length bytes)) = bytes /\
  only (.∈ seqZ a (Z.of_nat (length bytes))) m (mem_put m a bytes).
Proof.
  split.
  - apply list_eq. intros i. rewrite list_lookup_fmap. destruct (decide (i < length bytes)%nat) as [Hi|Hi].
    + rewrite lookup_seqZ_lt by lia. cbn. unfold mem_put.
      rewrite (proj2 (Z.leb_le _ _)), (proj2 (Z.ltb_lt _ _)) by lia.
      cbn [andb]. replace (a + Z.of_nat i - a) with (Z.of_nat i) by lia. unfold nthZ. rewrite Nat2Z.id.
      by destruct (lookup_lt_is_Some_2 bytes i Hi) as [x ->].
    + by rewrite lookup_seqZ_ge, (lookup_ge_None_2 bytes) by lia.
  - intros x Hx. rewrite elem_of_seqZ in Hx. unfold mem_put. zcases; try done; lia.
Qed.

Section bytes.
Context (nr seg : Z).
Hypothesis Hnr : 0 < nr.
Hypothesis Hseg : 0 < seg.
Hypothesis Hbs : nr * seg < 2 ^ 32.

Notation bs := (nr * seg).

Lemma unit_bounds : nr < 2 ^ 32 /\ seg < 2 ^ 32 /\ 0 < bs.
Proof using Hnr Hseg Hbs. nia. Qed.

Lemma unit_wf bv : unit_bv nr seg bv -> bv_wf bv.
Proof using Hnr Hseg Hbs.
  intros [H1 H2 H3 _]. destruct unit_bounds as (? & ? & ?).
  split; rewrite ?H1, ?H2, ?H3; [unfold is_u32; lia|apply length_replicate|done|].
  apply Forall_replicate. unfold is_u64. lia.
Qed.

Lemma segs_addrs_length l : Forall (fun s => s.2 = seg) l ->
  Z.of_nat (length (concat (seg_addrs <$> l))) = Z.of_nat (length l) * seg.
Proof using Hseg.
  induction 1 as [|[b c] l Hc _ IH]; [done|]. cbn. rewrite length_app. unfold seg_addrs at 1. cbn in *.
  subst c. rewrite length_seqZ. lia.
Qed.

Lemma unit_segs bv : unit_bv nr seg bv -> Forall (fun s => s.2 = seg) (segs bv).
Proof using.
  intros [H1 H2 H3 _]. unfold segs. rewrite H2. apply Forall_lookup_2. intros i [b c] Hi.
  apply lookup_zip_with_Some in Hi as (x & y & [= -> ->] & _ & Hy).
  by apply lookup_replicate in Hy as [-> _].
Qed.

Lemma unit_length bv : unit_bv nr seg bv -> Z.of_nat (length (bv_addrs bv)) = bs.
Proof using Hnr Hseg Hbs.
  intros Hu. unfold bv_addrs. rewrite segs_addrs_length by (by apply unit_segs).
  rewrite segs_length by (by apply unit_wf). rewrite (ub_nr _ _ _ Hu). lia.
Qed.

(** The number of bytes before a cursor. *)
Lemma cur_length cur : unit_bv nr seg (bc_bv cur) -> cur_wf cur ->
  Z.of_nat (length (cur_addrs cur)) = (nr - vc_seg (bc_vc cur)) * seg - vc_offset (bc_vc cur) /\
  0 <= vc_offset (bc_vc cur) < seg.
Proof using Hnr Hseg Hbs.
  intros Hu Hwf. pose proof (cur_seg _ Hwf) as Hs. pose proof (cur_off _ Hwf) as Ho.
  pose proof (cur_norm _ Hwf) as Hn. rewrite (ub_nr _ _ _ Hu) in Hs.
  assert (vc_offset (bc_vc cur) < seg /\ (vc_seg (bc_vc cur) = nr -> vc_offset (bc_vc cur) = 0))
    as [Hlt Hend].
  { unfold m0_vec_cursor_invariant in Hn. rewrite (ub_nr _ _ _ Hu), (ub_counts _ _ _ Hu),
      (proj2 (Z.leb_le _ _)) in Hn by lia. cbn [negb] in Hn.
    destruct (Z.ltb_spec (vc_seg (bc_vc cur)) nr) as [Hl|Hl].
    - destruct (arr_get _ _) as [c|] eqn:Ec; [|done]. apply arr_get_Some in Ec as [_ Ec].
      apply lookup_replicate in Ec as [-> _].
      injection Hn as Hn%Z.ltb_lt. lia.
    - injection Hn as Hn%Z.eqb_eq. lia. }
  split; [|lia]. unfold cur_addrs, left_addrs. rewrite length_drop.
  pose proof (segs_addrs_length (drop (Z.to_nat (vc_seg (bc_vc cur))) (segs (bc_bv cur)))) as Hl.
  rewrite length_drop, segs_length, (ub_nr _ _ _ Hu) in Hl by (by apply unit_wf).
  specialize (Hl (Forall_drop _ _ _ (unit_segs _ Hu))).
  replace (Z.of_nat (Z.to_nat nr - Z.to_nat (vc_seg (bc_vc cur)))) with (nr - vc_seg (bc_vc cur)) in Hl
    by lia.
  assert (vc_offset (bc_vc cur) <= (nr - vc_seg (bc_vc cur)) * seg)
    by (destruct (Z.eq_dec (vc_seg (bc_vc cur)) nr) as [E|E]; [specialize (Hend E)|]; nia).
  lia.
Qed.

(** A cursor at the start of a segment. *)
Lemma cursor_unit cur j : unit_bv nr seg (bc_bv cur) -> cur_wf cur ->
  Z.of_nat (length (cur_addrs cur)) = j * seg -> 0 < j ->
  exists a cur' rest, m0_bufvec_cursor_addr cur = Some (a, cur') /\ m0_bufvec_cursor_step cur' = Some seg /\
  cur_wf cur' /\ bc_bv cur' = bc_bv cur /\
    cur_addrs cur' = seqZ a seg ++ rest /\ cur_addrs cur = seqZ a seg ++ rest /\
    Z.of_nat (length rest) = (j - 1) * seg.
Proof using Hnr Hseg Hbs.
  intros Hu Hwf Hl Hj. destruct (cursor_move_ok cur 0 Hwf) as (b & cur' & Em & Eb & Hwf' & Ea & -> & _);
    [unfold is_u64; lia|]. change (Z.to_nat 0) with 0%nat in Ea. rewrite drop_0 in Ea.
  assert (cur_addrs cur' <> []) as Hne by (intros E; rewrite <-Ea, E in Hl; cbn in Hl; nia).
  destruct (cursor_seg_ok cur' Hwf' Hne) as (a & step & rest & Es & Eaddr & Hs & _ & Eseg & Hlt).
  rewrite <-Eb in Hu. destruct (cur_length cur' Hu Hwf') as [Hl' Hoff]. rewrite Ea, Hl in Hl'.
  assert (vc_offset (bc_vc cur') = (nr - vc_seg (bc_vc cur') - j) * seg) as Ho by lia.
  assert (nr - vc_seg (bc_vc cur') - j = 0) as Et by nia. rewrite Et, Z.mul_0_l in Ho.
  destruct (cur_split cur' Hwf' Hlt) as (b & c & _ & Hc & _ & _ & Est & _).
  rewrite (ub_counts _ _ _ Hu) in Hc.
  apply arr_get_Some in Hc as [_ Hc]. apply lookup_replicate in Hc as [-> _].
  rewrite Es, Ho, Z.sub_0_r in Est. injection Est as ->.
  exists a, cur', rest. unfold m0_bufvec_cursor_addr. rewrite Em. cbn [mbind option_bind].
  rewrite bool_decide_false by done.
  cbn [negb M0_ASSERT mbind option_bind]. split_and!; try done; [by rewrite <-Ea|].
  apply (f_equal (fun l => Z.of_nat (length l))) in Eseg. rewrite Ea, Hl, length_app, length_seqZ in Eseg.
  lia.
Qed.

(** *** Copies *)

Lemma to_buf_copy_ok m a bv : unit_bv nr seg bv -> a <> 0 -> (forall x, x ∈ bv_addrs bv -> x ∉ seqZ a bs) ->
  exists m', m0_bufvec_to_buf_copy m {| b_nob := bs; b_addr := a |} bv = Some (0, m') /\
  m' <$> seqZ a bs = m <$> bv_addrs bv /\ only (.∈ seqZ a bs) m m'.
Proof using Hnr Hseg Hbs.
  intros Hu Ha Hd. destruct unit_bounds as (? & ? & ?). pose proof (unit_length bv Hu) as Hlen.
  unfold m0_bufvec_to_buf_copy, m0_bufvec_to_data_copy.
  destruct (bufvec_init_ok bv (unit_wf _ Hu)) as (s & -> & Hs & _ & Es); [rewrite (ub_nr _ _ _ Hu); lia|].
  cbn [mbind option_bind b_addr b_nob]. assert_ok by (by apply negb_true_iff, Z.eqb_neq).
  assert_ok by (apply negb_true_iff, Z.eqb_neq; lia).
  destruct (bufvec_init_ok (buf_vec a bs)) as (d & -> & Hwd & _ & Ed);
    [apply buf_vec_wf; unfold is_u64; lia|done|]. cbn [mbind option_bind].
  rewrite buf_vec_addrs in Ed.
  destruct (cursor_copy_ok m d s bs Hwd Hs) as (m' & d' & s' & -> & _ & _ & _ & _ & _ & _ & Hc); rewrite ?Es,
    ?Ed; [unfold is_u64; lia|apply NoDup_seqZ|set_solver|].
  cbn [mbind option_bind]. rewrite length_seqZ, Hlen, Z2Nat.id, !Z.min_id in * by lia. rewrite Z.eqb_refl.
  rewrite Es, Ed in Hc.
  rewrite length_seqZ, Hlen, Z2Nat.id, !Z.min_id, !take_ge in Hc by (rewrite ?length_seqZ; lia).
  destruct Hc as [Hc1 Hc2]. exists m'. by split_and!.
Qed.

Lemma to_bufvec_copy_ok m a bv : unit_bv nr seg bv -> a <> 0 ->
  (forall x, x ∈ bv_addrs bv -> x ∉ seqZ a bs) ->
  exists m', m0_buf_to_bufvec_copy m bv {| b_nob := bs; b_addr := a |} = Some (0, m') /\
  m' <$> bv_addrs bv = m <$> seqZ a bs /\ only (.∈ bv_addrs bv) m m'.
Proof using Hnr Hseg Hbs.
  intros Hu Ha Hd. destruct unit_bounds as (? & ? & ?). pose proof (unit_length bv Hu) as Hlen.
  unfold m0_buf_to_bufvec_copy, m0_data_to_bufvec_copy.
  destruct (bufvec_init_ok bv (unit_wf _ Hu)) as (d & -> & Hwd & _ & Ed); [rewrite (ub_nr _ _ _ Hu); lia|].
  cbn [mbind option_bind b_addr b_nob]. assert_ok by (by apply negb_true_iff, Z.eqb_neq).
  destruct (bufvec_init_ok (buf_vec a bs)) as (s & -> & Hs & _ & Es);
    [apply buf_vec_wf; unfold is_u64; lia|done|]. cbn [mbind option_bind].
  rewrite buf_vec_addrs in Es.
  destruct (cursor_copy_ok m d s bs Hwd Hs) as (m' & d' & s' & -> & _ & _ & _ & _ & _ & _ & Hc); rewrite ?Es,
    ?Ed; [unfold is_u64; lia|by apply Hu|done|].
  cbn [mbind option_bind]. rewrite length_seqZ, Hlen, Z2Nat.id, !Z.min_id in * by lia. rewrite Z.eqb_refl.
  rewrite Es, Ed in Hc.
  rewrite length_seqZ, Hlen, Z2Nat.id, !Z.min_id, !take_ge in Hc by (rewrite ?length_seqZ; lia).
  destruct Hc as [Hc1 Hc2]. exists m'. by split_and!.
Qed.

Lemma vec_count_ok (ex : bool) bv : unit_bv nr seg bv -> m0_vec_count ex (ov_vec bv) = Some bs.
Proof using Hnr Hseg Hbs.
  intros Hu. unfold m0_vec_count, vec_count. rewrite (ub_nr _ _ _ Hu), (ub_counts _ _ _ Hu).
  destruct unit_bounds as (? & ? & ?).
  destruct (for_up_total (fun j c => c = j * seg) (fun i count => c ← arr_get (replicate (Z.to_nat nr) seg) i;
    _ ← (if ex then M0_ASSERT (count <=? u64 (count + c)) else Some tt); Some (u64 (count + c))) 0 nr 0)
      as (c & -> & ->); [lia|lia| |done].
  intros j c Hj ->. destruct (arr_get_is_Some (replicate (Z.to_nat nr) seg) j) as [x Hx];
    [rewrite length_replicate; lia|].
  rewrite Hx. apply arr_get_Some in Hx as [_ Hx]. apply lookup_replicate in Hx as [-> _].
  cbn [mbind option_bind].
  rewrite u64_small by (unfold is_u64; nia). eexists. split; [|shelve].
  rewrite (proj2 (Z.leb_le _ _)) by nia. by destruct ex. Unshelve. nia.
Qed.

(** *** Adding a vector to another *)

Context `{isal : ISAL}.

Notation scaled alpha x := (if alpha =? 1 then x else gf_mul x alpha).
Notation added alpha := (fun y x => u8 (Z.lxor y (scaled alpha x))).

Lemma axpy_seg_ok m ya xa alpha : (forall a, a ∈ seqZ ya seg -> a ∉ seqZ xa seg) ->
  exists m', axpy_seg m ya xa alpha seg = Some m' /\ only (.∈ seqZ ya seg) m m' /\
    m' <$> seqZ ya seg = zip_with (added alpha) (m <$> seqZ ya seg) (m <$> seqZ xa seg).
Proof using Hseg.
  intros Hd. unfold axpy_seg.
  destruct (for_up_total (fun j m' => forall a,
    m' a = if bool_decide (a ∈ seqZ ya j) then added alpha (m a) (m (a - ya + xa)) else m a)
    (fun i m => Some (<[ya + i := u8 (Z.lxor (m (ya + i)) (scaled alpha (m (xa + i))))]> m)) 0 seg m)
      as (m' & -> & Hm); [lia|done| |].
  - intros j m1 Hj Hm. eexists. split; [done|]. intros a. rewrite (Hm (ya + j)), (Hm (xa + j)).
    rewrite !bool_decide_false by (rewrite elem_of_seqZ;
      try (intros ?; apply (Hd (xa + j)); rewrite elem_of_seqZ; lia); lia).
    destruct (decide (a = ya + j)) as [->|Hne].
    + rewrite fn_lookup_insert, bool_decide_true by (rewrite elem_of_seqZ; lia).
      by replace (ya + j - ya + xa) with (xa + j) by lia.
    + rewrite fn_lookup_insert_ne by done. rewrite Hm. erewrite bool_decide_ext; [done|].
      rewrite !elem_of_seqZ. lia.
  - exists m'. split_and!; [done| |].
    + intros a Ha. by rewrite Hm, bool_decide_false.
    + apply list_eq. intros i. rewrite lookup_zip_with, !list_lookup_fmap.
      destruct (decide (Z.of_nat i < seg)) as [Hi|Hi].
      * rewrite !lookup_seqZ_lt by lia. cbn. rewrite Hm, bool_decide_true by (rewrite elem_of_seqZ; lia).
        do 3 f_equal. by replace (ya + Z.of_nat i - ya + xa) with (xa + Z.of_nat i) by lia.
      * by rewrite !lookup_seqZ_ge by lia.
Qed.

Lemma cursor_next cur a rest : cur_wf cur -> cur_addrs cur = seqZ a seg ++ rest ->
  exists cur', m0_bufvec_cursor_move cur seg = Some (bool_decide (rest = []), cur') /\
  bc_bv cur' = bc_bv cur /\ cur_wf cur' /\ cur_addrs cur' = rest.
Proof using Hnr Hseg Hbs.
  intros Hwf Ea. destruct unit_bounds as (? & ? & ?).
  destruct (cursor_move_ok cur seg Hwf) as (b & cur' & Em & Eb & Hwf' & Ea' & -> & _); [unfold is_u64; lia|].
  rewrite Ea, drop_app_length' in Ea' by (by rewrite length_seqZ). rewrite Ea' in Em. eauto.
Qed.

Lemma axpy_loop_ok n : forall m y x alpha j, unit_bv nr seg (bc_bv y) -> unit_bv nr seg (bc_bv x) ->
  cur_wf y -> cur_wf x ->
  Z.of_nat (length (cur_addrs y)) = j * seg -> Z.of_nat (length (cur_addrs x)) = j * seg ->
  0 < j <= Z.of_nat n + 1 ->
  NoDup (cur_addrs y) -> (forall a, a ∈ cur_addrs y -> a ∉ cur_addrs x) ->
  exists m', axpy_loop n m y x alpha seg = Some m' /\ only (.∈ cur_addrs y) m m' /\
    m' <$> cur_addrs y = zip_with (added alpha) (m <$> cur_addrs y) (m <$> cur_addrs x).
Proof using Hnr Hseg Hbs.
  induction n as [|n IH]; intros m y x alpha j Huy Hux Hy Hx Ly Lx Hj Hnd Hd; cbn [axpy_loop];
    destruct (cursor_unit x j Hux Hx Lx) as (xa & x1 & xr & -> & _ & Hx1 & Ebx & Ex1 & Ex & Lxr);
      [lia| |lia|];
    destruct (cursor_unit y j Huy Hy Ly) as (ya & y1 & yr & -> & Esy & Hy1 & Eby & Ey1 & Ey & Lyr);
      [lia| |lia|]; cbn [mbind option_bind];
    rewrite Ex, Ey in *; apply NoDup_app in Hnd as (_ & Hyr & Hndr);
    (destruct (axpy_seg_ok m ya xa alpha) as (m1 & -> & Ho1 & Hm1); [set_solver|]); cbn [mbind option_bind];
      rewrite Esy; cbn [mbind option_bind];
    destruct (cursor_next x1 xa xr Hx1 Ex1) as (x2 & -> & Ebx2 & Hx2 & Ex2); cbn [mbind option_bind].
  - assert (xr = [] /\ yr = []) as [-> ->] by (split; apply length_zero_iff_nil; nia).
    rewrite bool_decide_true by done.
    exists m1. by rewrite !app_nil_r.
  - destruct (bool_decide_reflect (xr = [])) as [->|Hne].
    { assert (yr = []) as -> by (apply length_zero_iff_nil; cbn in Lxr; lia). exists m1.
        by rewrite !app_nil_r. }
    destruct (cursor_next y1 ya yr Hy1 Ey1) as (y2 & -> & Eby2 & Hy2 & Ey2). cbn [mbind option_bind].
    assert (0 < j - 1) by (destruct xr; [done|]; cbn in Lxr; nia).
    rewrite bool_decide_false by (intros ->; cbn in Lyr; nia).
    destruct (IH m1 y2 x2 alpha (j - 1)) as (m' & -> & Ho & Hm); rewrite ?Eby2, ?Eby, ?Ebx2, ?Ebx, ?Ey2,
      ?Ex2; auto; [lia|set_solver|].
    rewrite Ey2, Ex2 in *. exists m'. split; [done|].
    split; [by eapply only_trans; [exact Ho1|exact Ho| |]; set_solver|].
    rewrite !fmap_app, zip_with_app by (by rewrite !length_fmap, !length_seqZ). rewrite Hm, <-Hm1. f_equal.
    + apply (only_bytes (.∈ yr)); set_solver.
    + f_equal; apply (only_bytes (.∈ seqZ ya seg)); set_solver.
Qed.

Lemma gfaxpy_ok m y x alpha : unit_bv nr seg y -> unit_bv nr seg x ->
  (forall a, a ∈ bv_addrs y -> a ∉ bv_addrs x) ->
  exists m', gfaxpy m y x alpha = Some m' /\ only (.∈ bv_addrs y) m m' /\
    m' <$> bv_addrs y = zip_with (added alpha) (m <$> bv_addrs y) (m <$> bv_addrs x).
Proof using Hnr Hseg Hbs.
  intros Hy Hx Hd. destruct unit_bounds as (? & ? & ?). unfold gfaxpy.
  rewrite (ub_nr _ _ _ Hy), (ub_nr _ _ _ Hx), (ub_counts _ _ _ Hy), (ub_counts _ _ _ Hx).
  assert (forall i, 0 <= i < nr -> arr_get (replicate (Z.to_nat nr) seg) i = Some seg) as Hg
    by (intros i Hi; apply arr_get_Some; split; [lia|]; apply lookup_replicate; split; [done|lia]).
  assert_ok by (apply negb_true_iff, Z.eqb_neq; lia). rewrite Z.eqb_refl. cbn [M0_ASSERT mbind option_bind].
  rewrite !Hg by lia. cbn [mbind option_bind].
  assert_ok by (apply negb_true_iff, Z.eqb_neq; lia). rewrite Z.eqb_refl. cbn [M0_ASSERT mbind option_bind].
  rewrite u32_small by (unfold is_u32; lia).
  assert_ok by (apply m0_forall_true; intros i Hi; apply bool_decide_true, Hg; lia).
  destruct (bufvec_init_ok y (unit_wf _ Hy)) as (yc & -> & Hyc & By & Ey); [rewrite (ub_nr _ _ _ Hy); lia|].
  destruct (bufvec_init_ok x (unit_wf _ Hx)) as (xc & -> & Hxc & Bx & Ex); [rewrite (ub_nr _ _ _ Hx); lia|].
  cbn [mbind option_bind].
  rewrite <-Ey, <-Ex. apply (axpy_loop_ok _ m yc xc alpha nr); rewrite ?By, ?Bx, ?Ey, ?Ex, ?unit_length;
    auto; [lia|apply Hy].
Qed.

End bytes.

(** ** The coded buffers *)

(** Buffers of [bs] bytes that do not overlap. *)
Definition bufs_apart (bs : Z) (bufs : list m0_buf) : Prop :=
  NoDup bufs /\ Forall (fun b => b_nob b = bs) bufs /\
  forall b b' a, b ∈ bufs -> b' ∈ bufs -> b <> b' -> a ∈ seqZ (b_addr b) bs -> a ∉ seqZ (b_addr b') bs.

Definition in_bufs (bs : Z) (bufs : list m0_buf) (a : Z) : Prop := exists b, b ∈ bufs /\
  a ∈ seqZ (b_addr b) bs.

Section buffers.
Context (bs : Z).
Hypothesis Hbs : 0 < bs.

Lemma bufs_apart_addrs bufs : bufs_apart bs bufs -> NoDup (b_addr <$> bufs).
Proof using Hbs.
  intros (Hnd & Hn & _). apply NoDup_fmap_2_strong; [|done]. rewrite Forall_forall in Hn.
  intros [n a] [n' a'] Hb%Hn Hb'%Hn E. cbn in *. congruence.
Qed.

Lemma bufs_store_get m bufs b : bufs_apart bs bufs -> b ∈ bufs ->
  bufs_store m bufs !! b_addr b = Some (m <$> seqZ (b_addr b) bs).
Proof using Hbs.
  intros Ha Hin. pose proof (bufs_apart_addrs _ Ha) as Hnd. destruct Ha as (_ & Hn & _).
  rewrite Forall_forall in Hn.
  unfold bufs_store. apply elem_of_list_to_map_1; [by rewrite <-list_fmap_compose|].
  rewrite <-(Hn b Hin). by apply (list_elem_of_fmap_2 (fun b => (b_addr b, m <$> seqZ (b_addr b) (b_nob b)))).
Qed.

Lemma bufs_store_ok m bufs : bufs_apart bs bufs ->
  (forall b, b ∈ bufs -> Forall byte (m <$> seqZ (b_addr b) bs)) ->
  holds (bufs_store m bufs) bs bufs ((fun b => m <$> seqZ (b_addr b) bs) <$> bufs).
Proof using Hbs.
  intros Ha Hb. unfold holds. apply Forall2_fmap_r, Forall_Forall2_diag. apply Forall_forall. intros b Hin.
  split_and!.
  - destruct Ha as (_ & Hn & _). by apply (proj1 (Forall_forall _ _) Hn).
  - by apply bufs_store_get.
  - rewrite length_fmap, length_seqZ. lia.
  - by apply Hb.
Qed.

Lemma store_bufs_ok m st bufs : bufs_apart bs bufs ->
  (forall b, b ∈ bufs -> exists bytes, st !! b_addr b = Some bytes /\ Z.of_nat (length bytes) = bs) ->
  (forall b, b ∈ bufs -> st !! b_addr b = Some (store_bufs m st bufs <$> seqZ (b_addr b) bs)) /\
  only (in_bufs bs bufs) m (store_bufs m st bufs).
Proof using Hbs.
  induction bufs as [|b bufs IH]; intros (Hnd & Hn & Hd) Hst; [split; [set_solver|by intros a _]|].
  destruct IH as [IH1 IH2]; [split_and!; [by inversion Hnd|by inversion Hn|]|set_solver|];
    [intros b1 b2 a H1 H2; apply Hd; by right|].
  destruct (Hst b) as (bytes & Hsb & Hl); [set_solver|].
  replace (store_bufs m st (b :: bufs)) with (mem_put (store_bufs m st bufs) (b_addr b) bytes) by (cbn;
    by rewrite Hsb). destruct (mem_put_ok (store_bufs m st bufs) (b_addr b) bytes) as [Hp1 Hp2].
  rewrite Hl in Hp1, Hp2. split.
  - intros b' [->|Hb']%elem_of_cons; [by rewrite Hp1|].
    rewrite (IH1 b' Hb'). f_equal. symmetry. apply (only_bytes _ _ _ _ Hp2). intros a Ha.
    apply NoDup_cons in Hnd as [Hnd _]. apply (Hd b' b); set_solver.
  - eapply only_trans; [exact IH2|exact Hp2| |]; intros a; unfold in_bufs; set_solver.
Qed.

Lemma store_same_only m bufs : bufs_apart bs bufs ->
  only (in_bufs bs bufs) m (store_bufs m (bufs_store m bufs) bufs).
Proof using Hbs.
  intros Ha. apply store_bufs_ok; [done|]. intros b Hb. eexists. split; [by apply bufs_store_get|].
  rewrite length_fmap, length_seqZ. lia.
Qed.

End buffers.
