(* ===== verification/SnsIrRun.v ===== *)
(** * sns: correctness of incremental recovery

    The accumulators of SnsIr hold at every moment the sum, with the decoding
    coefficients, of the units added so far; when all alive units have been added, on
    whatever nodes and in whatever order, they hold the lost units. *)
From stdpp Require Import functions fin_sets.
From S2P Require Import Prelude LibArith ParityMath ParityRS Bitmap Vec SnsIr SnsIrMem.
#[local] Open Scope motr_scope.

(** The alive units of a group of [n]. *)
Definition alive_of (n : Z) (F : list Z) : list Z := filter (fun u => u ∉ F) (seqZ 0 n).

Lemma alive_of_length n F : 0 <= n -> NoDup F -> Forall (fun u => 0 <= u < n) F ->
  Z.of_nat (length (alive_of n F)) = n - Z.of_nat (length F).
Proof.
  intros Hn Hnd Hr. assert (F ++ alive_of n F ≡ₚ seqZ 0 n) as Hp.
  { apply NoDup_Permutation.
    - apply NoDup_app. split_and!; [done| |apply NoDup_filter, NoDup_seqZ].
      intros x Hx [? _]%list_elem_of_filter. done.
    - apply NoDup_seqZ.
    - intros x. unfold alive_of. rewrite elem_of_app, list_elem_of_filter, elem_of_seqZ.
      rewrite Forall_forall in Hr. specialize (Hr x).
      destruct (decide (x ∈ F)); naive_solver lia. }
  apply Permutation_length in Hp. rewrite length_app, length_seqZ in Hp. lia.
Qed.

Lemma alive_sorted n F : StronglySorted Z.lt (alive_of n F).
Proof. apply StronglySorted_filter_lt, seqZ_sorted. Qed.

Lemma alive_in_range n F : Forall (fun u => 0 <= u < n) (alive_of n F).
Proof. apply Forall_filter_mono, Forall_seqZ. intros. lia. Qed.

(** The buffers that allocations 1 to [n] give, and what malloc() promises of them: they
    are not at NULL, not in use and do not overlap. *)
Definition scratch (bs n : Z) (alloc : Z -> option Z) (x : Z) : Prop := exists i a, 0 < i <= n /\
  alloc i = Some a /\ x ∈ seqZ a bs.

Definition heap_ok (bs n : Z) (alloc : Z -> option Z) (used : Z -> Prop) : Prop :=
  forall i a, 0 < i <= n -> alloc i = Some a -> a <> 0 /\
    forall x, x ∈ seqZ a bs -> ~ used x /\ forall j b, 0 < j <= n -> j <> i -> alloc j = Some b ->
    x ∉ seqZ b bs.

Section group.
Context {isal : ISAL} (k p : Z) {laws : ISALLaws isal k p} (bs : Z) (cs : list (list Z)) (F : list Z).

Notation C := (gf_gen_cauchy1_matrix (k + p) k).
Notation alive := (alive_of (k + p) F).
Notation unit_of := (unit_block k p bs cs).

(** The inverse of the rows of the first [k] alive units. *)
Definition alive_matrix : list Z := default [] (gf_invert_matrix (sub_matrix k C (take (Z.to_nat k) alive))
  k).

(** The part of lost unit [f] that the units [S] make up. *)
Definition acc_block (f : Z) (S : gset Z) : list Z :=
  (fun x => xsum k (fun l => if decide (nthZ alive l ∈ S)
                             then gf_mul (decode_coeff (k := k) (p := p) alive_matrix f l)
                               (nthZ (unit_of (nthZ alive l)) x)
                             else 0)) <$> seqZ 0 bs.

Hypothesis Hk : k <= 128.
Hypothesis Hp : 1 <= p <= k.
Hypothesis Hbs : is_u32 bs.
Hypothesis Hcs : Z.of_nat (length cs) = k.
Hypothesis Hcb : Forall (block_ok bs) cs.
Hypothesis HF : NoDup F.
Hypothesis HFr : Forall (fun u => 0 <= u < k + p) F.
Hypothesis HFn : 1 <= Z.of_nat (length F) <= p.

Lemma alive_nr : Z.of_nat (length alive) = k + p - Z.of_nat (length F).
Proof. apply alive_of_length; [lia|done|done]. Qed.

Lemma alive_matrix_ok : gf_invert_matrix (sub_matrix k C (take (Z.to_nat k) alive)) k = Some alive_matrix /\
  Forall byte alive_matrix /\
  forall i j, 0 <= i < k -> 0 <= j < k ->
    xsum k (fun l => gf_mul (nthZ alive_matrix (k * i + l)) (nthZ C (k * nthZ alive l + j))) = if i =? j then
      1 else 0.
Proof.
  destruct (alive_inverse k p Hk Hp cs [] Hcs F alive HFn) as (inv & Hinv & _ & Hb & Hid);
    [rewrite alive_nr; lia|apply alive_in_range|apply alive_sorted|].
  unfold alive_matrix. rewrite Hinv. by split_and!.
Qed.

Lemma coeff_byte f l x : byte (gf_mul (decode_coeff (k := k) (p := p) alive_matrix f l)
  (nthZ (unit_of (nthZ alive l)) x)).
Proof.
  apply (gf_mul_byte (k := k) (p := p)).
  - apply decode_coeff_byte, alive_matrix_ok.
  - apply Forall_nthZ; [unfold byte; lia|]. by apply (unit_block_ok k p bs cs []).
Qed.

Lemma term_byte f S l x : byte (if decide (nthZ alive l ∈ (S : gset Z))
  then gf_mul (decode_coeff (k := k) (p := p) alive_matrix f l) (nthZ (unit_of (nthZ alive l)) x) else 0).
Proof. destruct (decide _); [apply coeff_byte|unfold byte; lia]. Qed.

Lemma acc_block_ok f S : block_ok bs (acc_block f S).
Proof.
  unfold acc_block, block_ok. unfold is_u32 in Hbs. rewrite length_fmap, length_seqZ. split; [lia|].
  apply Forall_fmap, Forall_seqZ. intros. apply xsum_byte. intros. apply term_byte.
Qed.

Lemma acc_block_empty f : acc_block f ∅ = replicate (Z.to_nat bs) 0.
Proof.
  unfold acc_block. apply list_eq. intros i. rewrite list_lookup_fmap.
  destruct (decide (Z.of_nat i < bs)) as [Hi|Hi].
  - rewrite lookup_seqZ_lt by lia. cbn. symmetry. rewrite lookup_replicate. split; [|lia].
    rewrite (xsum_ext k _ (fun _ => 0)); [apply xsum_zero|]. intros l _.
    by rewrite decide_False by set_solver.
  - rewrite lookup_seqZ_ge by lia. symmetry. apply lookup_ge_None_2. rewrite length_replicate. lia.
Qed.

(** Only the first [k] alive units count. *)
Lemma acc_block_ext f (S S' : gset Z) : (forall u, u ∈ take (Z.to_nat k) alive -> u ∈ S <-> u ∈ S') ->
  acc_block f S = acc_block f S'.
Proof.
  intros H. apply list_fmap_ext. intros i x _. apply xsum_ext. intros l Hl. cbn beta. pose proof alive_nr.
  assert (nthZ alive l ∈ take (Z.to_nat k) alive) as Hin.
  { rewrite <-(nthZ_take alive k) by done. apply elem_of_nthZ. rewrite length_take. lia. }
  specialize (H _ Hin). destruct (decide (nthZ alive l ∈ S)), (decide (nthZ alive l ∈ S')); tauto.
Qed.

Lemma acc_block_union f (S S' : gset Z) : S ## S' ->
  zip_with (fun y x => u8 (Z.lxor y x)) (acc_block f S) (acc_block f S') = acc_block f (S ∪ S').
Proof.
  intros Hd. unfold acc_block. rewrite zip_with_fmap_l, zip_with_fmap_r, zip_with_diag. apply list_fmap_ext.
  intros i x _. cbn beta.
  rewrite u8_byte by (apply lxor_byte; apply xsum_byte; intros; apply term_byte). rewrite <-xsum_lxor.
  apply xsum_ext. intros l Hl. cbn beta.
  destruct (decide (nthZ alive l ∈ S)) as [H1|H1], (decide (nthZ alive l ∈ S')) as [H2|H2].
  - set_solver.
  - by rewrite decide_True, Z.lxor_0_r by set_solver.
  - by rewrite decide_True, Z.lxor_0_l by set_solver.
  - by rewrite decide_False by set_solver.
Qed.

(** Adding one unit with its coefficient. *)
Lemma acc_block_add f (S : gset Z) l : 0 <= l < k -> nthZ alive l ∉ S ->
  (fun x => Z.lxor (nthZ (acc_block f S) x)
    (gf_mul (decode_coeff (k := k) (p := p) alive_matrix f l) (nthZ (unit_of (nthZ alive l)) x))) <$> seqZ 0
    bs =
  acc_block f ({[nthZ alive l]} ∪ S).
Proof.
  intros Hl Hn. apply list_fmap_ext. intros i x Hx. apply lookup_seqZ in Hx as [-> Hx]. unfold acc_block.
  rewrite nthZ_map by lia.
  rewrite <-(xsum_delta k l (fun l => gf_mul (decode_coeff (k := k) (p := p) alive_matrix f l)
    (nthZ (unit_of (nthZ alive l)) (0 + Z.of_nat i)))) by done.
  rewrite <-xsum_lxor. apply xsum_ext. intros j Hj. cbn beta. destruct (Z.eqb_spec j l) as [->|Hne].
  - rewrite decide_False, decide_True, Z.lxor_0_l by set_solver. done.
  - assert (nthZ alive j <> nthZ alive l) as Hne'.
    { intros E. apply Hne. pose proof alive_nr. pose proof (nthZ_get alive j ltac:(lia))
        as [_ Ej]%arr_get_Some.
      pose proof (nthZ_get alive l ltac:(lia)) as [_ El]%arr_get_Some. rewrite E in Ej.
      assert (Z.to_nat j = Z.to_nat l); [|lia]. eapply NoDup_lookup; [|exact Ej|exact El].
      apply NoDup_filter, NoDup_seqZ. }
    rewrite Z.lxor_0_r. destruct (decide (nthZ alive j ∈ S));
      [rewrite decide_True by set_solver|rewrite decide_False by set_solver]; done.
Qed.

Lemma acc_block_all f (S : gset Z) : (forall u, u ∈ take (Z.to_nat k) alive -> u ∈ S) ->
  acc_block f S = unit_of f.
Proof.
  intros Hall. destruct alive_matrix_ok as (_ & Hb & Hid).
  rewrite <-(rebuilt_unit k p bs cs [] Hcs Hcb F alive HFn alive_matrix [] Hb Hid f).
  apply list_fmap_ext. intros i x _. apply xsum_ext. intros l Hl. cbn beta. rewrite decide_True; [done|].
  apply Hall.
  rewrite <-(nthZ_take alive k) by done. apply elem_of_nthZ. pose proof alive_nr. rewrite length_take. lia.
Qed.

(** *** The state after m0_sns_ir_mat_compute() *)

(** The units a lost one depends on. *)
Definition dep_bits : list bool := (fun u => bool_decide (u ∈ take (Z.to_nat k) alive)) <$> seqZ 0 (k + p).

Record ir_ready (acc : Z -> m0_bufvec) (ir : m0_sns_ir) (bl : list m0_sns_ir_block) : Prop := {
  ready_data : si_data_nr ir = k;
  ready_parity : si_parity_nr ir = p;
  ready_alive_nr : si_alive_nr ir = Z.of_nat (length alive);
  ready_failed_nr : rs_failed_nr (si_rs ir) = Z.of_nat (length F);
  ready_failed : exists r, rs_failed_idx (si_rs ir) = Some (F ++ r);
  ready_alive : exists r, rs_alive_idx (si_rs ir) = Some (alive ++ r);
  ready_tbls : exists dec rest, rs_decode_tbls (si_rs ir) = Some
    (ec_init_tables k (Z.of_nat (length F)) dec ++ rest) /\
    Forall byte dec /\ Z.of_nat (length F) * k <= Z.of_nat (length dec) /\
    forall r i, 0 <= r < Z.of_nat (length F) -> 0 <= i < k ->
      nthZ dec (k * r + i) = decode_coeff (k := k) (p := p) alive_matrix (nthZ F r) i;
  ready_blocks : si_blocks ir = Some bl;
  ready_block : forall u, 0 <= u < k + p -> exists b, arr_get bl u = Some b /\ sib_idx b = u /\
    (u ∈ F -> sib_addr b = Some (acc u) /\ sib_status b = M0_SI_BLOCK_FAILED /\
      bm_rep (sib_bitmap b) dep_bits)
}.

(** *** Adding a local unit *)

Context (nr seg : Z).
Hypothesis Hnr : 0 < nr.
Hypothesis Hseg : 0 < seg.
Hypothesis Ebs : bs = nr * seg.
Context (acc : Z -> m0_bufvec).
Hypothesis Hacc : forall f, f ∈ F -> unit_bv nr seg (acc f).
Hypothesis Hapart : forall f f' a, f ∈ F -> f' ∈ F -> f <> f' -> a ∈ bv_addrs (acc f) ->
  a ∉ bv_addrs (acc f').

(** The bytes of the accumulators. *)
Definition in_accs (a : Z) : Prop := exists f, f ∈ F /\ a ∈ bv_addrs (acc f).

Lemma failed_get ir bl i r : ir_ready acc ir bl -> 0 <= i < Z.of_nat (length F) ->
  exists f b, arr_get (F ++ r) i = Some f /\ f = nthZ F i /\ f ∈ F /\ 0 <= f < k + p /\
  arr_get bl f = Some b /\
    sib_addr b = Some (acc f) /\ sib_status b = M0_SI_BLOCK_FAILED /\ bm_rep (sib_bitmap b) dep_bits.
Proof.
  intros Hr Hi. pose proof (elem_of_nthZ F i Hi) as Hin.
  pose proof (proj1 (Forall_forall _ _) HFr _ Hin) as Hf. cbn beta in Hf.
  destruct (ready_block _ _ _ Hr _ Hf) as (b & Hb & _ & H). destruct (H Hin) as (H1 & H2 & H3).
  exists (nthZ F i), b.
  destruct Hf. split_and!; try done. rewrite arr_get_app_l by lia. by apply nthZ_get.
Qed.

Section local.
Context (alloc : Z -> option Z) (used : Z -> Prop).
Notation fn := (Z.of_nat (length F)).
Hypothesis Hheap : heap_ok bs (fn + 1) alloc used.
Hypothesis Hused : forall a, in_accs a -> used a.

Definition bufs_of (n : Z) : list m0_buf := (fun i => {| b_nob := bs; b_addr := default 0 (alloc (1 + i)) |})
  <$> seqZ 0 n.

Lemma bs_small : bs < 2 ^ 32 /\ 0 < bs.
Proof. destruct Hbs. split; [done|]. nia. Qed.

Lemma scratch_unused x : scratch bs (fn + 1) alloc x -> ~ used x.
Proof. intros (i & a & Hi & Ha & Hx). by apply (Hheap i a Hi Ha). Qed.

Lemma scratch_apart i j a b x : 0 < i <= fn + 1 -> 0 < j <= fn + 1 -> j <> i -> alloc i = Some a ->
  alloc j = Some b -> x ∈ seqZ a bs -> x ∉ seqZ b bs.
Proof. intros Hi Hj Hne Ha Hb Hx. destruct (Hheap i a Hi Ha) as [_ H]. destruct (H x Hx) as [_ H']. eauto.
Qed.

(** The bytes of a vector to a new buffer. *)
Lemma load_ok m i a bv : 0 < i <= fn + 1 -> alloc i = Some a -> unit_bv nr seg bv ->
  (forall x, x ∈ bv_addrs bv -> used x) ->
  exists m', m0_bufvec_to_buf_copy (mem_put m a (replicate (Z.to_nat bs) 0)) {| b_nob := bs;
    b_addr := a |} bv = Some (0, m') /\
    m' <$> seqZ a bs = m <$> bv_addrs bv /\ only (.∈ seqZ a bs) m m'.
Proof.
  intros Hi Ha Hbv Hu. destruct (Hheap i a Hi Ha) as [Ha0 Hfresh]. destruct bs_small as [Hs1 Hs2].
  rewrite Ebs in *.
  destruct (mem_put_ok m a (replicate (Z.to_nat (nr * seg)) 0)) as [_ Hz].
  rewrite length_replicate, Z2Nat.id in Hz by lia.
  assert (forall x, x ∈ bv_addrs bv -> x ∉ seqZ a (nr * seg)) as Hd
    by (intros x Hx Hin; apply (Hfresh x Hin); auto).
  destruct (to_buf_copy_ok nr seg Hnr Hseg Hs1 (mem_put m a (replicate (Z.to_nat (nr * seg)) 0)) a bv Hbv Ha0
    Hd) as (m' & -> & Hc & Ho).
  exists m'. split; [done|]. split; [|by eapply only_trans; eauto]. rewrite Hc.
  by apply (only_bytes _ _ _ _ Hz).
Qed.

Lemma bufs_of_succ j a : 0 <= j -> alloc (1 + j) = Some a ->
  bufs_of (j + 1) = bufs_of j ++ [{| b_nob := bs; b_addr := a |}].
Proof. intros Hj Ha. unfold bufs_of. rewrite seqZ_snoc, fmap_app by done. cbn. by rewrite Ha. Qed.

Lemma fill_ok ir bl r m : ir_ready acc ir bl ->
  exists ret bufs m', out_bufs_fill alloc m ir bl (F ++ r) bs = Some (ret, bufs, m') /\
  only (scratch bs (fn + 1) alloc) m m' /\
    ((ret = - ENOMEM /\ exists i, 0 < i <= fn /\ alloc i = None) \/
     (ret = 0 /\ bufs = bufs_of fn /\ forall i, 0 <= i < fn -> exists a, alloc (1 + i) = Some a /\
       m' <$> seqZ a bs = m <$> bv_addrs (acc (nthZ F i)))).
Proof.
  intros Hr. unfold out_bufs_fill. rewrite (ready_failed_nr _ _ _ Hr).
  edestruct (for_up_total (fun j '(ret, bufs, m') => only (scratch bs (fn + 1) alloc) m m' /\
    ((ret = - ENOMEM /\ exists i, 0 < i <= j /\ alloc i = None) \/
     (ret = 0 /\ bufs = bufs_of j /\ forall i, 0 <= i < j -> exists a, alloc (1 + i) = Some a /\
       m' <$> seqZ a bs = m <$> bv_addrs (acc (nthZ F i))))))
    as ([[ret bufs] m'] & E & H); [| | |exists ret, bufs, m'; split; [exact E|exact H]]; [lia| |].
  - split; [by intros a _|]. right. split_and!; [done|done|lia].
  - intros j [[ret bufs] m1] Hj [Ho [[-> (i & Hi & En)]|(-> & -> & Hm)]].
    { eexists (_, _, _). split; [done|]. split; [done|]. left. split; [done|]. exists i. split; [lia|done]. }
    cbn [negb Z.eqb]. unfold m0_buf_alloc. destruct (alloc (1 + j)) as [a|] eqn:Ea.
    2:{ eexists (_, _, _). split; [done|]. split; [done|]. left. split; [done|]. exists (1 + j). split;
          [lia|done]. }
    cbn [negb Z.eqb]. destruct (failed_get ir bl j r Hr Hj) as (f & b & -> & Ef & Hf & _ & Eb & Eadr & _).
    cbn [mbind option_bind].
    rewrite Eb. cbn [mbind option_bind]. rewrite Eadr. cbn [mbind option_bind].
    assert (forall x, x ∈ bv_addrs (acc f) -> used x) as Hu by (intros x Hx; apply Hused; by exists f).
    destruct (load_ok m1 (1 + j) a (acc f) ltac:(lia) Ea (Hacc f Hf) Hu) as (m2 & -> & Hc & Ho2).
    cbn [mbind option_bind].
    eexists (_, _, _). split; [done|]. split.
    { eapply only_trans; [exact Ho|exact Ho2|done|]. intros x Hx. exists (1 + j), a. split_and!;
        [lia|lia|done|done]. }
    right. split; [done|]. split; [by rewrite (bufs_of_succ j a) by (done || lia)|]. intros i Hi.
    destruct (decide (i = j)) as [->|Hne].
    + exists a. split; [done|]. rewrite Hc, Ef. apply (only_bytes _ _ _ _ Ho). intros x Hx Hs.
      apply (scratch_unused x Hs), Hu. by rewrite Ef.
    + destruct (Hm i ltac:(lia)) as (a' & Ea' & Hm'). exists a'. split; [done|]. rewrite <-Hm'.
      apply (only_bytes _ _ _ _ Ho2).
      intros x. apply (scratch_apart (1 + i) (1 + j)); (done || lia).
Qed.

Lemma failed_inj i j : 0 <= i < fn -> 0 <= j < fn -> nthZ F i = nthZ F j -> i = j.
Proof.
  intros Hi Hj E. pose proof (nthZ_get F i Hi) as [_ Ei]%arr_get_Some.
  pose proof (nthZ_get F j Hj) as [_ Ej]%arr_get_Some.
  rewrite E in Ei. assert (Z.to_nat i = Z.to_nat j); [|lia]. by eapply NoDup_lookup.
Qed.

Section allocated.
Hypothesis Hall : forall i, 0 <= i < fn -> is_Some (alloc (1 + i)).

Lemma bufs_of_get i : 0 <= i < fn -> exists a, alloc (1 + i) = Some a /\
  arr_get (bufs_of fn) i = Some {| b_nob := bs; b_addr := a |} /\
  {| b_nob := bs; b_addr := a |} ∈ bufs_of fn.
Proof.
  intros Hi. destruct (Hall i Hi) as [a Ha]. exists a. split; [done|].
  assert (arr_get (bufs_of fn) i = Some {| b_nob := bs; b_addr := a |}) as E.
  { apply arr_get_Some. split; [lia|]. unfold bufs_of. rewrite list_lookup_fmap,
      lookup_seqZ_lt by lia. replace (0 + Z.of_nat (Z.to_nat i)) with i by lia.
    cbn [fmap option_fmap option_map]. by rewrite Ha. }
  split; [done|]. apply arr_get_Some in E as [_ E]. by eapply list_elem_of_lookup_2.
Qed.

Lemma bufs_of_inv b : b ∈ bufs_of fn -> exists i a, 0 <= i < fn /\ alloc (1 + i) = Some a /\
  b = {| b_nob := bs; b_addr := a |}.
Proof.
  intros (i & -> & Hi%elem_of_seqZ)%list_elem_of_fmap. destruct (Hall i) as [a Ha]; [lia|]. exists i, a.
  rewrite Ha. split_and!; (done || lia).
Qed.

Lemma bufs_of_apart : bufs_apart bs (bufs_of fn).
Proof.
  assert (forall i j a b, 0 <= i < fn -> 0 <= j < fn -> j <> i -> alloc (1 + i) = Some a ->
    alloc (1 + j) = Some b -> a <> b) as Hne.
  { intros i j a b Hi Hj Hij Ha Hb ->. destruct bs_small. apply (scratch_apart (1 + i) (1 + j) b b b);
      try (done || lia); rewrite elem_of_seqZ; lia. }
  split_and!.
  - apply NoDup_fmap_2_strong; [|apply NoDup_seqZ]. intros i j Hi%elem_of_seqZ Hj%elem_of_seqZ [= E].
    destruct (decide (j = i)) as [|Hij]; [done|]. destruct (Hall i) as [a Ha], (Hall j) as [b Hb]; try lia.
    rewrite Ha, Hb in E. cbn in E.
    by destruct (Hne i j a b ltac:(lia) ltac:(lia) Hij Ha Hb).
  - apply Forall_forall. intros b (i & a & _ & _ & ->)%bufs_of_inv. done.
  - intros b b' x (i & a & Hi & Ha & ->)%bufs_of_inv (j & a' & Hj & Ha' & ->)%bufs_of_inv Hbb. cbn.
    apply (scratch_apart (1 + i) (1 + j)); try (done || lia). intros E. apply Hbb.
    assert (j = i) as -> by lia. congruence.
Qed.

Lemma drain_ok ir bl r m : ir_ready acc ir bl ->
  exists m', out_bufs_drain m ir bl (F ++ r) (bufs_of fn) = Some (0, m') /\ only in_accs m m' /\
    forall i a, 0 <= i < fn -> alloc (1 + i) = Some a -> m' <$> bv_addrs (acc (nthZ F i)) = m <$> seqZ a bs.
Proof.
  intros Hr. unfold out_bufs_drain. rewrite (ready_failed_nr _ _ _ Hr).
  edestruct (for_up_total (fun j '(ret, m') => ret = 0 /\ only in_accs m m' /\
    forall i a, 0 <= i < j -> alloc (1 + i) = Some a -> m' <$> bv_addrs (acc (nthZ F i)) = m <$> seqZ a bs))
    as ([ret m'] & E & -> & H); [| | |exists m'; split; [exact E|exact H]]; [lia| |].
  - split_and!; [done|by intros a _|lia].
  - intros j [ret m1] Hj (-> & Ho & Hm). cbn [negb Z.eqb].
    destruct (failed_get ir bl j r Hr Hj) as (f & b & -> & Ef & Hf & _ & Eb & Eadr & _).
    cbn [mbind option_bind].
    rewrite Eb. cbn [mbind option_bind]. rewrite Eadr. cbn [mbind option_bind].
    destruct (bufs_of_get j Hj) as (a & Ea & -> & _). cbn [mbind option_bind].
    destruct (Hheap (1 + j) a ltac:(lia) Ea) as [Ha0 Hfresh].
    destruct bs_small as [Hs1 Hs2]. assert (forall x, x ∈ bv_addrs (acc f) -> x ∉ seqZ a bs) as Hd
      by (intros x Hx Hin; apply (Hfresh x Hin), Hused; by exists f).
    rewrite Ebs in Hs1, Hd |- *. destruct (to_bufvec_copy_ok nr seg Hnr Hseg Hs1 m1 a (acc f) (Hacc f Hf) Ha0
      Hd) as (m2 & -> & Hc & Ho2). rewrite <-Ebs in *.
    eexists (_, _). split; [done|]. split_and!;
      [done|eapply only_trans; [exact Ho|exact Ho2|done|intros x Hx; by exists f]|].
    intros i a' Hi Ea'. destruct (decide (i = j)) as [->|Hne].
    + rewrite Ea in Ea'. injection Ea' as <-. rewrite <-Ef, Hc. apply (only_bytes _ _ _ _ Ho).
      intros x Hx Hin. apply (Hfresh x Hx). auto.
    + rewrite <-(Hm i a' ltac:(lia) Ea'). apply (only_bytes _ _ _ _ Ho2). intros x. rewrite Ef.
      apply Hapart; [apply elem_of_nthZ; lia|by rewrite <-Ef|]. intros E. apply Hne.
      apply failed_inj; (done || lia).
Qed.

(** ISA-L adds the unit at position [l] of the alive ones, with its coefficients, to
    the buffers. *)
Lemma code_ok ir bl m S l : ir_ready acc ir bl -> 0 <= l < k ->
  (forall i a, 0 <= i < fn -> alloc (1 + i) = Some a ->
    m <$> seqZ a bs = acc_block (nthZ F i) (S (nthZ F i)) /\ nthZ alive l ∉ S (nthZ F i)) ->
  exists tbls st, rs_decode_tbls (si_rs ir) = Some tbls /\
    isal_encode_data_update true (bufs_of fn) (unit_of (nthZ alive l)) l tbls k fn
      (bufs_store m (bufs_of fn)) = Some (0, st) /\
    only (in_bufs bs (bufs_of fn)) m (store_bufs m st (bufs_of fn)) /\
    forall i a, 0 <= i < fn -> alloc (1 + i) = Some a ->
      store_bufs m st (bufs_of fn) <$> seqZ a bs = acc_block (nthZ F i) ({[nthZ alive l]} ∪ S (nthZ F i)).
Proof.
  intros Hr Hl HS. destruct (ready_tbls _ _ _ Hr) as (dec & rest & Et & Hb & Hld & Hdec).
  destruct bs_small as [_ Hs2].
  assert (holds (bufs_store m (bufs_of fn)) bs (bufs_of fn)
    ((fun b => m <$> seqZ (b_addr b) bs) <$> bufs_of fn)) as Hh.
  { apply bufs_store_ok; [done|apply bufs_of_apart|]. intros b (i & a & Hi & Ha & ->)%bufs_of_inv. cbn.
      rewrite (proj1 (HS i a Hi Ha)). by apply acc_block_ok. }
  assert (Z.of_nat (length (bufs_of fn)) = fn) as Hlb
    by (unfold bufs_of; rewrite length_fmap, length_seqZ; lia).
  pose proof (unit_block_ok k p bs cs [] Hbs Hcb (nthZ alive l)) as Hu.
  destruct (encode_data_update_ok k p bs cs [] Hbs (bufs_store m (bufs_of fn)) fn dec rest (bufs_of fn) _ _ l
    HFn Hld Hb Hl Hu Hh Hlb (bufs_apart_addrs bs Hs2 _ bufs_of_apart)) as (st & E & Hin & _).
  assert (forall i a, 0 <= i < fn -> alloc (1 + i) = Some a ->
    st !! a = Some (acc_block (nthZ F i) ({[nthZ alive l]} ∪ S (nthZ F i)))) as Hst.
  { intros i a Hi Ha. destruct (HS i a Hi Ha) as [HSb HSn]. destruct (bufs_of_get i Hi)
      as (a' & Ha' & Hg & _). rewrite Ha in Ha'. injection Ha' as <-.
    specialize (Hin i Hi). rewrite (nthZ_fmap_addr _ _ _ Hg) in Hin. cbn [b_addr] in Hin. rewrite Hin.
    f_equal.
    rewrite <-acc_block_add by done. apply list_fmap_ext. intros n x _. rewrite Hdec by done. do 2 f_equal.
    rewrite <-HSb.
    apply arr_get_Some in Hg as [_ Hg]. apply list_lookup_total_correct. by rewrite list_lookup_fmap, Hg. }
  destruct (store_bufs_ok bs Hs2 m st (bufs_of fn) bufs_of_apart) as [Hst1 Hst2].
  { intros b (i & a & Hi & Ha & ->)%bufs_of_inv. eexists. split; [by apply (Hst i)|]. by apply acc_block_ok. }
  eexists _, st. split_and!; [exact Et|exact E|done|]. intros i a Hi Ha.
  destruct (bufs_of_get i Hi) as (a' & Ha' & _ & Hg). rewrite Ha in Ha'. injection Ha' as <-.
  specialize (Hst1 _ Hg). cbn [b_addr] in Hst1. rewrite (Hst i a Hi Ha) in Hst1. congruence.
Qed.

Lemma in_bufs_scratch x : in_bufs bs (bufs_of fn) x -> scratch bs (fn + 1) alloc x.
Proof. intros (b & (i & a & Hi & Ha & ->)%bufs_of_inv & Hx). exists (1 + i), a. cbn in Hx.
split_and!; (done || lia). Qed.

(** The rest of ir_recover(), with the accumulators in the buffers. *)
Lemma add_ok ir bl r m bv S l : ir_ready acc ir bl -> 0 <= l < k -> unit_bv nr seg bv ->
  (forall x, x ∈ bv_addrs bv -> used x) ->
  m <$> bv_addrs bv = unit_of (nthZ alive l) ->
  (forall i a, 0 <= i < fn -> alloc (1 + i) = Some a ->
    m <$> seqZ a bs = acc_block (nthZ F i) (S (nthZ F i)) /\ nthZ alive l ∉ S (nthZ F i)) ->
  exists ret m', (let '(ret, in_buf, m) := m0_buf_alloc m (alloc (1 + fn)) bs in
      if negb (ret =? 0) then Some (ret, m)
      else
        '(ret, m) ← m0_bufvec_to_buf_copy m in_buf bv;
        if negb (ret =? 0) then Some (ret, m)
        else
          tbls ← rs_decode_tbls (si_rs ir);
          '(ret, st) ← isal_encode_data_update (bool_decide (is_Some (alloc (2 + fn)))) (bufs_of fn)
                         (m <$> seqZ (b_addr in_buf) (b_nob in_buf)) l tbls k fn (bufs_store m (bufs_of fn));
          let m := store_bufs m st (bufs_of fn) in
          if negb (ret =? 0) then Some (ret, m)
          else out_bufs_drain m ir bl (F ++ r) (bufs_of fn)) = Some (ret, m') /\
    ((ret = 0 /\ only (fun x => scratch bs (fn + 1) alloc x \/ in_accs x) m m' /\
      forall i, 0 <= i < fn -> m' <$> bv_addrs (acc (nthZ F i)) = acc_block (nthZ F i)
        ({[nthZ alive l]} ∪ S (nthZ F i))) \/
     (ret = - ENOMEM /\ only (scratch bs (fn + 1) alloc) m m' /\ exists i, 0 <= i <= fn + 2 /\
       alloc i = None)).
Proof.
  intros Hr Hl Hbv Hbu Hmb HS. unfold m0_buf_alloc. destruct bs_small as [Hs1 Hs2].
  destruct (alloc (1 + fn)) as [a|] eqn:Ea; cbn [negb Z.eqb].
  2:{ exists (- ENOMEM), m. split; [done|]. right. split_and!; [done|by intros x _|]. exists (1 + fn). split;
        [lia|done]. }
  destruct (load_ok m (1 + fn) a bv ltac:(lia) Ea Hbv Hbu) as (m2 & -> & Hc & Ho2).
  cbn [mbind option_bind negb Z.eqb b_addr b_nob].
  assert (forall x, x ∈ seqZ a bs -> scratch bs (fn + 1) alloc x) as Hsa
    by (intros x Hx; exists (1 + fn), a; split_and!; (done || lia)).
  assert (forall i a, 0 <= i < fn -> alloc (1 + i) = Some a ->
    m2 <$> seqZ a bs = acc_block (nthZ F i) (S (nthZ F i)) /\ nthZ alive l ∉ S (nthZ F i)) as HS2.
  { intros i a' Hi Ha'. destruct (HS i a' Hi Ha') as [Hb Hn]. split;
      [|done]. rewrite <-Hb. apply (only_bytes _ _ _ _ Ho2). intros x.
    apply (scratch_apart (1 + i) (1 + fn)); (done || lia). }
  destruct (code_ok ir bl m2 S l Hr Hl HS2) as (tbls & st & Et & Ecode & Ho3 & Hm3). rewrite Hc, Hmb, Et.
  cbn [mbind option_bind].
  destruct (alloc (2 + fn)) as [a'|] eqn:Ea';
    [rewrite bool_decide_true by done|rewrite bool_decide_false by (by intros [? ?])].
  - rewrite Ecode. cbn [mbind option_bind negb Z.eqb].
    destruct (drain_ok ir bl r (store_bufs m2 st (bufs_of fn)) Hr) as (m4 & -> & Ho4 & Hm4).
    exists 0, m4. split; [done|]. left. split_and!; [done| |].
    + eapply only_trans; [|exact Ho4| |by right];
        [eapply only_trans; [exact Ho2|exact Ho3|exact Hsa|apply in_bufs_scratch]|by left].
    + intros i Hi. destruct (Hall i Hi) as [a1 Ha1]. by rewrite (Hm4 i a1 Hi Ha1), (Hm3 i a1 Hi Ha1).
  - cbn [isal_encode_data_update negb mbind option_bind]. eexists _, _. split; [done|]. right.
    split_and!; [done| |exists (2 + fn); split; [lia|done]].
    eapply only_trans; [exact Ho2|apply (store_same_only bs Hs2 m2 _ bufs_of_apart)|exact Hsa|apply
      in_bufs_scratch].
Qed.

End allocated.

Lemma alive_find_ok ir bl r l : ir_ready acc ir bl -> 0 <= l < k ->
  alive_find ir (alive ++ r) (nthZ alive l) = Some l.
Proof.
  intros Hr Hl. unfold alive_find. rewrite (ready_alive_nr _ _ _ Hr). pose proof alive_nr as Hn.
  rewrite (first_loop (fun x => x = nthZ alive l) alive _ (fun i _ => u8 i)).
  - pose proof (nthZ_get alive l ltac:(lia)) as [_ Hg]%arr_get_Some.
    destruct (list_find _ alive) as [[i x]|] eqn:E.
    + apply list_find_Some in E as (Hi & -> & _).
      assert (i = Z.to_nat l) as -> by (eapply NoDup_lookup; [|exact Hi|exact Hg]; apply NoDup_filter,
        NoDup_seqZ).
      cbn. f_equal. rewrite Z2Nat.id by lia. apply u8_byte. unfold byte. lia.
    + apply list_find_None in E. rewrite Forall_forall in E. destruct (E (nthZ alive l)); [|done].
      by eapply list_elem_of_lookup_2.
  - intros i x Hx Hi. pose proof (lookup_lt_Some _ _ _ Hx). rewrite arr_get_app_l by lia.
    rewrite (proj2 (arr_get_Some _ i x)) by done. cbn [mbind option_bind].
    destruct (Z.eqb_spec x (nthZ alive l));
      [rewrite bool_decide_true by done|rewrite bool_decide_false by done]; done.
  - done.
Qed.

Lemma needed_ok ir bl r u : ir_ready acc ir bl -> 0 <= u < k + p ->
  for_up 0 fn (fun i (r' : bool) =>
    if r' then f ← arr_get (F ++ r) i; b ← arr_get bl f; m0_bitmap_get (sib_bitmap b) u
    else Some false) true = Some (bool_decide (u ∈ take (Z.to_nat k) alive)).
Proof.
  intros Hr Hu. edestruct (for_up_total (fun j (r' : bool) => r' = (j =? 0) ||
    bool_decide (u ∈ take (Z.to_nat k) alive))) as (r' & E & Hr');
    [| | |rewrite E, Hr'; rewrite (proj2 (Z.eqb_neq fn 0)) by lia; done]; [lia|done|].
  intros j r' Hj ->. rewrite (proj2 (Z.eqb_neq (j + 1) 0)) by lia. cbn [orb]. eexists. split; [|done].
  destruct ((j =? 0) || bool_decide (u ∈ take (Z.to_nat k) alive)) eqn:Eo;
    [|by apply orb_false_iff in Eo as [_ ->]].
  destruct (failed_get ir bl j r Hr Hj) as (f & b & -> & Ef & Hf & _ & Eb & _ & _ & Hbm).
  cbn [mbind option_bind]. rewrite Eb. cbn [mbind option_bind].
  assert (Z.of_nat (length dep_bits) = k + p) as Hl
    by (unfold dep_bits; rewrite length_fmap, length_seqZ; lia).
  rewrite (bitmap_get_ok _ _ _ Hbm) by lia. unfold dep_bits. rewrite list_lookup_fmap, lookup_seqZ_lt by lia.
  replace (0 + Z.of_nat (Z.to_nat u)) with u by lia. done.
Qed.

(** Adding a unit to every accumulator; when memory runs out, to none. *)
Lemma ir_recover_ok ex ir bl m b bv S u : ir_ready acc ir bl -> u ∈ alive -> sib_idx b = u ->
  sib_addr b = Some bv -> unit_bv nr seg bv ->
  (forall x, x ∈ bv_addrs bv -> used x) -> m <$> bv_addrs bv = unit_of u ->
  (forall f, f ∈ F -> m <$> bv_addrs (acc f) = acc_block f (S f) /\ u ∉ S f) ->
  exists ret m', ir_recover ex alloc m ir b = Some (ret, m') /\
    ((ret = 0 /\ only (fun x => scratch bs (fn + 1) alloc x \/ in_accs x) m m' /\ forall f, f ∈ F ->
      m' <$> bv_addrs (acc f) = acc_block f ({[u]} ∪ S f)) \/
     (ret = - ENOMEM /\ only (scratch bs (fn + 1) alloc) m m' /\ exists i, 0 <= i <= fn + 2 /\
       alloc i = None)).
Proof.
  intros Hr Hu Hidx Hadr Hbv Hbu Hmb HS. unfold ir_recover. destruct (ready_failed _ _ _ Hr) as [r Ef].
  destruct (ready_alive _ _ _ Hr) as [r2 Eal].
  rewrite (ready_blocks _ _ _ Hr), Ef, Eal, (ready_failed_nr _ _ _ Hr), (ready_data _ _ _ Hr), Hidx.
  cbn [mbind option_bind].
  pose proof (proj1 (Forall_forall _ _) (alive_in_range _ _) _ Hu) as Hur. cbn beta in Hur.
  rewrite (needed_ok ir bl r u Hr Hur). cbn [mbind option_bind].
  destruct (bool_decide_reflect (u ∈ take (Z.to_nat k) alive)) as [Hneed|Hno]; cbn [negb].
  2:{ exists 0, m. split; [done|]. left. split_and!;
        [done|by intros x _|]. intros f Hf. rewrite (proj1 (HS f Hf)). apply acc_block_ext. set_solver. }
  destruct bs_small as [Hs1 Hs2]. rewrite Hadr. cbn [mbind option_bind]. rewrite Ebs in Hs1.
  rewrite (vec_count_ok nr seg Hnr Hseg Hs1 ex bv Hbv).
  rewrite <-Ebs in *. cbn [mbind option_bind]. rewrite u32_small by done.
  destruct (alloc 0) as [a0|] eqn:E0; [|exists (- ENOMEM), m; split; [done|]; right; split_and!;
    [done|by intros x _|exists 0; split; [lia|done]]].
  destruct (fill_ok ir bl r m Hr) as (ret & bufs & m1 & -> & Ho1 & [[-> (i & Hi & Ei)]|(-> & -> & Hm1)]);
    cbn [mbind option_bind negb Z.eqb].
  { exists (- ENOMEM), m1. split; [done|]. right. split_and!; [done|done|]. exists i. split; [lia|done]. }
  assert (exists l, 0 <= l < k /\ u = nthZ alive l) as (l & Hl & ->).
  { apply list_elem_of_lookup_1 in Hneed as [n Hn]. apply lookup_take_Some in Hn
      as [Hn Hlt]. exists (Z.of_nat n). split; [lia|]. unfold nthZ. by rewrite Nat2Z.id, Hn. }
  rewrite (alive_find_ok ir bl r2 l Hr Hl). cbn [mbind option_bind]. rewrite (proj2 (Z.eqb_neq l 255)) by lia.
  assert (forall P, (forall x, P x -> used x) -> forall x, P x -> ~ scratch bs (fn + 1) alloc x) as Hfresh
    by (intros P HP x Hx Hs; apply (scratch_unused x Hs); auto).
  destruct (add_ok ltac:(intros i Hi; destruct (Hm1 i Hi) as (a & -> & _); by eexists) ir bl r m1 bv S l Hr
    Hl Hbv Hbu) as (ret & m' & E & H).
  { rewrite <-Hmb. apply (only_bytes _ _ _ _ Ho1). by apply Hfresh. }
  { intros i a Hi Ha. destruct (Hm1 i Hi) as (a' & Ha' & Hm'). rewrite Ha in Ha'. injection Ha'
      as <-. rewrite Hm'. apply HS. by apply elem_of_nthZ. }
  exists ret, m'. split; [exact E|]. destruct H as [(-> & Ho & Hm)|(-> & Ho & Hi)].
  - left. split_and!; [done|eapply only_trans; [exact Ho1|exact Ho|by left|done]|].
    intros f Hf. apply list_elem_of_lookup_1 in Hf as [n Hn]. pose proof (lookup_lt_Some _ _ _ Hn).
    specialize (Hm (Z.of_nat n) ltac:(lia)).
    unfold nthZ in Hm at 1 2 4. rewrite Nat2Z.id, Hn in Hm. exact Hm.
  - right. split_and!; [done|eapply only_trans; [exact Ho1|exact Ho|done|done]|done].
Qed.

End local.

(** *** Input of recovery *)

(** The bitmap of the units [S]. *)
Definition bits_of (S : gset Z) : list bool := (fun u => bool_decide (u ∈ S)) <$> seqZ 0 (k + p).

Lemma bits_length S : Z.of_nat (length (bits_of S)) = k + p.
Proof. unfold bits_of. rewrite length_fmap, length_seqZ. lia. Qed.

Lemma bits_get S u : 0 <= u < k + p -> bits_of S !! Z.to_nat u = Some (bool_decide (u ∈ S)).
Proof. intros Hu. unfold bits_of. rewrite list_lookup_fmap, lookup_seqZ_lt by lia. cbn.
by rewrite Z2Nat.id by lia. Qed.

Lemma bits_count (S : gset Z) : (forall u, u ∈ S -> 0 <= u < k + p) ->
  length (filter (fun b => b = true) (bits_of S)) = size S.
Proof.
  intros HS. unfold bits_of.
  assert (forall l, length (filter (fun b => b = true) ((fun u => bool_decide (u ∈ S)) <$> l)) = length
    (filter (fun u => u ∈ S) l)) as ->.
  { induction l as [|u l IH]; [done|]. cbn [fmap list_fmap]. rewrite !filter_cons.
    destruct (decide (u ∈ S)); [rewrite decide_True by (by apply bool_decide_true)|rewrite decide_False
      by (by rewrite bool_decide_false)]; cbn; auto. }
  unfold size, set_size, compose. apply Permutation_length, NoDup_Permutation.
  - apply NoDup_filter, NoDup_seqZ.
  - apply NoDup_elements.
  - intros u. rewrite list_elem_of_filter, elem_of_elements, elem_of_seqZ. specialize (HS u).
    naive_solver lia.
Qed.

Lemma bits_find (S : gset Z) : S <> ∅ -> (forall u, u ∈ S -> 0 <= u < k + p) ->
  exists i, list_find (fun b => b = true) (bits_of S) = Some (i, true) /\ Z.of_nat i ∈ S.
Proof.
  intros Hne HS. destruct (set_choose_L S Hne) as [u Hu]. pose proof (HS u Hu) as Hur.
  destruct (list_find _ (bits_of S)) as [[i b]|] eqn:E.
  - apply list_find_Some in E as (Hi & -> & _). exists i. split; [done|].
    pose proof (lookup_lt_Some _ _ _ Hi). pose proof (bits_length S).
    rewrite <-(Nat2Z.id i), bits_get in Hi by lia. injection Hi as Hi. by apply bool_decide_eq_true in Hi.
  - apply list_find_None in E. rewrite Forall_forall in E. destruct (E true); [|done].
    eapply list_elem_of_lookup_2. rewrite (bits_get S u Hur). by rewrite bool_decide_true.
Qed.

Lemma blocks_count ir bl : ir_ready acc ir bl -> ir_blocks_count ir = k + p.
Proof. intros Hr. unfold ir_blocks_count. rewrite (ready_data _ _ _ Hr), (ready_parity _ _ _ Hr).
apply u32_small. unfold is_u32. lia. Qed.

(** What m0_sns_ir_recover() checks of the bitmap. *)
Lemma bitmap_input ir bl bitmap (S : gset Z) : ir_ready acc ir bl -> bm_rep bitmap (bits_of S) -> S <> ∅ ->
  (forall u, u ∈ S -> 0 <= u < k + p) ->
  m0_bitmap_set_nr bitmap = Some (Z.of_nat (size S)) /\ 0 < Z.of_nat (size S) /\
  exists i, m0_bitmap_ffs bitmap = Some i /\ i ∈ S /\ is_valid_block_idx ir (u32 i) = true /\
  is_valid_block_idx ir (u32 0) = true.
Proof.
  intros Hr Hbm Hne HS. rewrite (bitmap_set_nr_ok _ _ Hbm), (bitmap_ffs_ok _ _ Hbm), bits_count by done.
  split; [done|].
  split; [assert (size S <> 0%nat) by (apply size_non_empty_iff; by unfold_leibniz); lia|].
  destruct (bits_find S Hne HS) as (i & -> & Hi).
  exists (Z.of_nat i). unfold is_valid_block_idx. rewrite (blocks_count _ _ Hr). pose proof (HS _ Hi).
  rewrite !u32_small by (unfold is_u32; lia). split_and!; try done; apply Z.ltb_lt; lia.
Qed.

Lemma alive_first i : i ∈ alive -> i <= nthZ alive (k - 1) -> i ∈ take (Z.to_nat k) alive.
Proof.
  intros Hi Hle. pose proof (alive_sorted (k + p) F) as Hs.
  rewrite <-(take_drop (Z.to_nat k) alive) in Hi, Hs. apply elem_of_app in Hi as [Hi|Hi]; [done|].
  assert (nthZ alive (k - 1) < i); [|lia]. eapply StronglySorted_app_1_elem_of; [exact Hs| |exact Hi].
  pose proof alive_nr. rewrite <-(nthZ_take alive k) by lia. apply elem_of_nthZ. rewrite length_take. lia.
Qed.

Lemma usable_ok ir bl bitmap (S : gset Z) b : ir_ready acc ir bl -> bm_rep bitmap (bits_of S) ->
  (forall u, u ∈ S -> u ∈ alive) ->
  bm_rep (sib_bitmap b) dep_bits -> is_usable ir bitmap b = Some true.
Proof.
  intros Hr Hbm HS Hd. unfold is_usable, last_usable_block_id. destruct (ready_alive _ _ _ Hr) as [r ->].
  rewrite (ready_data _ _ _ Hr), (blocks_count _ _ Hr).
  assert (Z.of_nat (length dep_bits) = k + p) as Hl
    by (unfold dep_bits; rewrite length_fmap, length_seqZ; lia).
  rewrite (proj1 Hbm), (proj1 Hd), Hl, bits_length, Z.eqb_refl. cbn [M0_ASSERT mbind option_bind].
  pose proof alive_nr as Hn.
  rewrite arr_get_app_l, nthZ_get by lia. cbn [mbind option_bind].
  assert (0 <= nthZ alive (k - 1) < k + p) as Hlast
    by (apply (Forall_nthZ_range (fun u => 0 <= u < k + p)); [apply alive_in_range|lia]).
  rewrite (proj2 (Z.eqb_neq _ _)) by lia.
  edestruct (for_up_total (fun _ (r' : bool) => r' = true)) as (r' & E & Hr'); [| | |rewrite E, Hr'; done];
    [lia|done|].
  intros i r' Hi ->. rewrite (bitmap_get_ok _ _ _ Hbm), bits_get by (rewrite ?bits_length; lia).
  cbn [mbind option_bind].
  destruct (bool_decide_reflect (i ∈ S)) as [HiS|]; [|by eexists]. rewrite (bitmap_get_ok _ _ _ Hd) by lia.
  eexists. split; [|done].
  unfold dep_bits. rewrite list_lookup_fmap, lookup_seqZ_lt by lia.
  replace (0 + Z.of_nat (Z.to_nat i)) with i by lia. cbn [fmap option_fmap option_map].
  by rewrite bool_decide_true by (apply alive_first; [by apply HS|lia]).
Qed.

(** *** m0_sns_ir_recover() *)

Lemma ready_submit ir bl u b bv n : ir_ready acc ir bl -> 0 <= u < k + p -> u ∉ F -> arr_get bl u = Some b ->
  let b' := {| sib_idx := sib_idx b; sib_addr := Some bv; sib_bitmap := sib_bitmap b;
    sib_status := sib_status b |} in
  let bl' := <[Z.to_nat u := b']> bl in
  arr_set bl u b' = Some bl' /\ ir_ready acc (with_blocks (with_nr ir (si_alive_nr ir) n) (Some bl')) bl'.
Proof.
  intros Hr Hu Hn Hb b' bl'. pose proof (arr_get_range _ _ _ Hb) as Hlen.
  split; [by rewrite arr_set_ok by lia|].
  destruct Hr as [H1 H2 H3 H4 H5 H6 H7 H8 H9]. split; try done. intros v Hv. unfold bl'.
  rewrite arr_get_insert by lia.
  destruct (Z.eqb_spec u v) as [<-|]; [|by apply H9]. destruct (H9 u Hu) as (b0 & Hb0 & Hi & _).
  rewrite Hb in Hb0. injection Hb0 as <-. by exists b'.
Qed.

(** A local unit, in every accumulator. *)
Lemma recover_local_ok ex alloc ir bl m bv bitmap fi S u : ir_ready acc ir bl -> 0 < si_local_nr ir ->
  u ∈ alive ->
  bm_rep bitmap (bits_of {[u]}) -> unit_bv nr seg bv -> m <$> bv_addrs bv = unit_of u ->
  heap_ok bs (Z.of_nat (length F) + 1) alloc (fun x => in_accs x \/ x ∈ bv_addrs bv) ->
  (forall f, f ∈ F -> m <$> bv_addrs (acc f) = acc_block f (S f) /\ u ∉ S f) ->
  exists ret ir' bl' m', m0_sns_ir_recover ex alloc m ir bv bitmap fi M0_SI_BLOCK_LOCAL = Some (ret, ir',
    m') /\
    ir_ready acc ir' bl' /\ si_local_nr ir' = si_local_nr ir - 1 /\
    ((ret = 0 /\ only (fun x => scratch bs (Z.of_nat (length F) + 1) alloc x \/ in_accs x) m m' /\
      forall f, f ∈ F -> m' <$> bv_addrs (acc f) = acc_block f ({[u]} ∪ S f)) \/
     (ret = - ENOMEM /\ only (scratch bs (Z.of_nat (length F) + 1) alloc) m m' /\ exists i,
       0 <= i <= Z.of_nat (length F) + 2 /\ alloc i = None)).
Proof.
  intros Hr Hn Hu Hbm Hbv Hmb Hheap HS. pose proof (proj1 (Forall_forall _ _) (alive_in_range _ _) _ Hu)
    as Hur. cbn beta in Hur.
  assert (u ∉ F) as HuF by (by apply list_elem_of_filter in Hu as [? _]).
  destruct (bitmap_input ir bl bitmap {[u]} Hr Hbm) as (E1 & _ & i & E2 & Hi & Hv & _);
    [set_solver|set_solver|].
  rewrite size_singleton in E1. assert (i = u) as -> by set_solver.
  destruct (ready_block _ _ _ Hr u Hur) as (b & Hb & Hidx & _).
  unfold m0_sns_ir_recover. rewrite E1, E2, (ready_blocks _ _ _ Hr). cbn [mbind option_bind].
  change (bool_decide (M0_SI_BLOCK_LOCAL = M0_SI_BLOCK_REMOTE)) with false.
  change (bool_decide (M0_SI_BLOCK_LOCAL <> M0_SI_BLOCK_LOCAL)) with false.
  change (0 <? Z.of_nat 1) with true. change (1 <? Z.of_nat 1) with false. change (Z.of_nat 1 =? 1) with true.
  rewrite (proj2 (Z.eqb_neq (si_local_nr ir) 0)) by lia.
  cbn [negb orb M0_ASSERT mbind option_bind]. rewrite Hv. cbn [M0_ASSERT mbind option_bind]. rewrite Hb.
  cbn [mbind option_bind].
  destruct (ready_submit ir bl u b bv (si_local_nr ir - 1) Hr Hur HuF Hb) as [-> Hr'].
  cbn [mbind option_bind].
  destruct (ir_recover_ok alloc _ Hheap ltac:(by left) ex _ _ m {| sib_idx := sib_idx b; sib_addr := Some bv;
    sib_bitmap := sib_bitmap b; sib_status := sib_status b |}
    bv S u Hr' Hu Hidx eq_refl Hbv ltac:(by right) Hmb HS) as (ret & m' & -> & H).
  cbn [mbind option_bind]. by eexists _, _, _, m'.
Qed.

(** A transformed block, in one accumulator. *)
Lemma recover_remote_ok ex alloc ir bl m bv bitmap f (S S' : gset Z) : ir_ready acc ir bl -> f ∈ F ->
  S' <> ∅ -> (forall u, u ∈ S' -> u ∈ alive) ->
  bm_rep bitmap (bits_of S') -> unit_bv nr seg bv -> (forall a, a ∈ bv_addrs (acc f) -> a ∉ bv_addrs bv) ->
  m <$> bv_addrs bv = acc_block f S' -> m <$> bv_addrs (acc f) = acc_block f S -> S ## S' ->
  exists m', m0_sns_ir_recover ex alloc m ir bv bitmap f M0_SI_BLOCK_REMOTE = Some (0, ir, m') /\
    only (.∈ bv_addrs (acc f)) m m' /\ m' <$> bv_addrs (acc f) = acc_block f (S ∪ S').
Proof.
  intros Hr Hf Hne HS' Hbm Hbv Hd Hmb Hma Hdis. pose proof (proj1 (Forall_forall _ _) HFr _ Hf) as Hfr.
  cbn beta in Hfr.
  assert (forall u, u ∈ S' -> 0 <= u < k + p) as HSr
    by (intros u Hu; by apply (proj1 (Forall_forall _ _) (alive_in_range (k + p) F)), HS').
  destruct (bitmap_input ir bl bitmap S' Hr Hbm Hne HSr) as (E1 & E1' & i & E2 & _ & Hv & Hv0).
  destruct (ready_block _ _ _ Hr f Hfr) as (b & Hb & _ & H). destruct (H Hf) as (Hadr & Hst & Hdep).
  unfold m0_sns_ir_recover. rewrite E1, E2, (ready_blocks _ _ _ Hr). cbn [mbind option_bind].
  rewrite (proj2 (Z.ltb_lt _ _) E1').
  rewrite (bool_decide_true (M0_SI_BLOCK_REMOTE = M0_SI_BLOCK_REMOTE)),
    (bool_decide_true (M0_SI_BLOCK_REMOTE <> M0_SI_BLOCK_LOCAL)) by done.
  rewrite orb_true_r. cbn [orb M0_ASSERT mbind option_bind].
  assert (is_valid_block_idx ir f = true) as -> by (unfold is_valid_block_idx; rewrite (blocks_count _ _ Hr);
    apply Z.ltb_lt; lia).
  cbn [M0_ASSERT mbind option_bind]. rewrite Hb. cbn [mbind option_bind]. rewrite bool_decide_true by done.
  cbn [M0_ASSERT mbind option_bind].
  assert (exists j, (if Z.of_nat (size S') =? 1 then Some i else Some 0) = Some j /\
    is_valid_block_idx ir (u32 j) = true) as (j & -> & Hj)
    by (destruct (Z.of_nat (size S') =? 1); eauto).
  cbn [mbind option_bind]. rewrite Hj. cbn [M0_ASSERT mbind option_bind].
  rewrite (usable_ok ir bl bitmap S' b Hr Hbm HS' Hdep). cbn [mbind option_bind negb].
  rewrite Hadr. cbn [mbind option_bind]. destruct bs_small as [Hs1 _]. rewrite Ebs in Hs1.
  destruct (gfaxpy_ok nr seg Hnr Hseg Hs1 m (acc f) bv 1 (Hacc f Hf) Hbv Hd) as (m' & -> & Ho & Hm).
  cbn [mbind option_bind].
  exists m'. split; [done|]. split; [done|]. rewrite Hm, Hma, Hmb. by rewrite <-acc_block_union.
Qed.

End group.
