(* ===== verification/SnsIrGroup.v ===== *)
(** * sns: incremental recovery of a group on several nodes

    Setting up the context of incremental recovery (initialisation, registration of the
    lost units, decoding coefficients), and the recovery of the lost units by nodes that
    add local units and exchange their accumulators. *)
From stdpp Require Import functions fin_sets.
From S2P Require Import Prelude LibArith ParityMath ParityRS ParityGF Bitmap Vec SnsIr SnsIrMem SnsIrRun.
#[local] Open Scope motr_scope.

(** ** Setting up *)

Lemma alive_of_succ n F : 0 <= n -> alive_of (n + 1) F = alive_of n F ++ (if decide (n ∈ F) then [] else [n]).
Proof.
  intros Hn. unfold alive_of. rewrite seqZ_snoc, filter_app by done. f_equal. rewrite filter_cons, filter_nil.
  destruct (decide (n ∈ F)); [rewrite decide_False by tauto|rewrite decide_True by done]; done.
Qed.

Lemma alive_of_perm n F F' : F ≡ₚ F' -> alive_of n F = alive_of n F'.
Proof. intros Hp. apply list_filter_iff. intros x. by rewrite Hp. Qed.

Section setup.
Context {isal : ISAL} (k p : Z) {laws : ISALLaws isal k p}.
Hypothesis Hk : k <= 128.
Hypothesis Hp : 1 <= p <= k.

Notation C := (gf_gen_cauchy1_matrix (k + p) k).
Notation no_bits := (replicate (Z.to_nat (k + p)) false).

(** The state between initialisation and m0_sns_ir_mat_compute(). *)
Record ir_registered (F : list Z) (acc : Z -> m0_bufvec) (ir : m0_sns_ir) (bl : list m0_sns_ir_block) :
  Prop := {
  reg_data : si_data_nr ir = k;
  reg_parity : si_parity_nr ir = p;
  reg_alive_nr : si_alive_nr ir = k + p - Z.of_nat (length F);
  reg_failed_nr : rs_failed_nr (si_rs ir) = Z.of_nat (length F);
  reg_failed : exists r, rs_failed_idx (si_rs ir) = Some (F ++ r) /\ Z.of_nat (length (F ++ r)) = p;
  reg_alive : exists al, rs_alive_idx (si_rs ir) = Some al /\ Z.of_nat (length al) = k + p;
  reg_matrix : rs_encode_matrix (si_rs ir) = Some C;
  reg_tbls : exists dt, rs_decode_tbls (si_rs ir) = Some dt /\ Z.of_nat (length dt) = 32 * k * p;
  reg_blocks : si_blocks ir = Some bl;
  reg_nr : Z.of_nat (length bl) = k + p;
  reg_block : forall u, 0 <= u < k + p -> exists b, arr_get bl u = Some b /\ sib_idx b = u /\
  bm_rep (sib_bitmap b) no_bits /\
    sib_status b = (if decide (u ∈ F) then M0_SI_BLOCK_FAILED else M0_SI_BLOCK_ALIVE) /\
    (u ∈ F -> sib_addr b = Some (acc u))
}.

Lemma blocks_nr ir : si_data_nr ir = k -> si_parity_nr ir = p -> ir_blocks_count ir = k + p.
Proof. intros H1 H2. unfold ir_blocks_count. rewrite H1, H2. apply u32_small. unfold is_u32. lia. Qed.

Definition new_block (u : Z) : m0_sns_ir_block :=
  {| sib_idx := u; sib_addr := None; sib_bitmap := (m0_bitmap_init true (sib_bitmap zero_block) (k + p)).2;
    sib_status := M0_SI_BLOCK_ALIVE |}.

Lemma blocks_init_ok mem ir : si_data_nr ir = k -> si_parity_nr ir = p ->
  (forall i, 0 <= i <= k + p -> mem i = true) ->
  ir_si_blocks_init mem ir = Some (0, with_blocks ir (Some (new_block <$> seqZ 0 (k + p)))).
Proof.
  intros H1 H2 Hmem. unfold ir_si_blocks_init. rewrite (blocks_nr ir H1 H2), (Hmem 0) by lia. cbn [negb].
  edestruct (for_up_total (fun j '(ret, bl) => ret = 0 /\
    bl = (new_block <$> seqZ 0 j) ++ replicate (Z.to_nat (k + p - j)) zero_block))
    as ([ret bl] & E & -> & Hbl).
  4:{ rewrite E, Hbl, Z.sub_diag. cbn [mbind option_bind]. by rewrite app_nil_r. }
  - lia.
  - split; [done|]. by rewrite Z.sub_0_r.
  - intros j [ret bl] Hj [-> ->]. cbn [negb Z.eqb].
    replace (Z.to_nat (k + p - j)) with (S (Z.to_nat (k + p - (j + 1)))) by lia. cbn [replicate].
    assert (j = Z.of_nat (length (new_block <$> seqZ 0 j))) as Ej by (rewrite length_fmap, length_seqZ; lia).
    rewrite arr_get_middle by done. cbn [mbind option_bind]. rewrite (Hmem (1 + j)) by lia.
    rewrite (surjective_pairing (m0_bitmap_init true (sib_bitmap zero_block) (k + p))).
    rewrite arr_set_middle by done. cbn [mbind option_bind].
    eexists (_, _). split; [done|]. split; [done|]. rewrite seqZ_snoc, fmap_app by lia.
    by rewrite <-app_assoc.
Qed.

Lemma init_ok mem math local_nr acc : math_ready k p math -> (forall i, 0 <= i <= k + p -> mem i = true) ->
  exists ir bl, m0_sns_ir_init mem math local_nr = Some (0, ir) /\ ir_registered [] acc ir bl /\
  si_local_nr ir = local_nr.
Proof.
  intros (_ & Hd & Hpa & Hm & _ & Ht & (f & Hf & Hlf) & Ha & _) Hmem. unfold m0_sns_ir_init.
  rewrite blocks_init_ok by done. cbn [mbind option_bind negb Z.eqb].
  eexists _, (new_block <$> seqZ 0 (k + p)). split; [done|]. split; [|done].
  split; cbn; try done.
  - by rewrite blocks_nr, Z.sub_0_r.
  - by exists f.
  - rewrite length_fmap, length_seqZ. lia.
  - intros u Hu. exists (new_block u). split_and!; try done.
    + apply arr_get_Some. split; [lia|]. rewrite list_lookup_fmap, lookup_seqZ_lt by lia.
      cbn [fmap option_fmap option_map]. do 2 f_equal. lia.
    + destruct (bitmap_init_ok (sib_bitmap zero_block) (k + p)) as (bm & E & Hrep); [lia|]. unfold new_block.
      cbn [sib_bitmap]. rewrite E. exact Hrep.
    + set_solver.
Qed.

(** *** Failures of initialisation *)

Lemma fini_ok ir bl : si_data_nr ir = k -> si_parity_nr ir = p -> si_blocks ir = Some bl ->
  Z.of_nat (length bl) = k + p ->
  m0_sns_ir_fini ir = Some (with_blocks ir None).
Proof.
  intros H1 H2 Hbl Hl. unfold m0_sns_ir_fini. rewrite (blocks_nr ir H1 H2).
  edestruct (for_up_total (fun _ ir' => exists bl', ir' = with_blocks ir (Some bl') /\
    length bl' = length bl)) as (ir' & -> & bl' & -> & _); [| | |done]; [lia| |].
  - exists bl. split; [by destruct ir; cbn in *; subst|done].
  - intros j ir' Hj (bl' & -> & Hl'). cbn [si_blocks with_blocks mbind option_bind].
    destruct (arr_get_is_Some bl' j) as [b ->]; [lia|]. cbn [mbind option_bind].
    destruct (bool_decide_reflect (is_Some (b_words (sib_bitmap b)))) as [Hw|Hw];
      [|eexists; split; [done|by exists bl']].
    unfold m0_bitmap_fini. rewrite bool_decide_true by done. cbn [M0_ASSERT mbind option_bind].
    rewrite arr_set_ok by lia. cbn [mbind option_bind].
    eexists. split; [done|]. eexists. split; [done|]. by rewrite length_insert.
Qed.

Lemma blocks_init_nomem mem ir : si_data_nr ir = k -> si_parity_nr ir = p -> mem 0 = true ->
  (exists i, 1 <= i <= k + p /\ mem i = false) ->
  exists bl, ir_si_blocks_init mem ir = Some (- ENOMEM, with_blocks ir (Some bl)) /\
  Z.of_nat (length bl) = k + p.
Proof.
  intros H1 H2 Hm0 (i0 & Hi0 & Hf0). unfold ir_si_blocks_init. rewrite (blocks_nr ir H1 H2), Hm0. cbn [negb].
  edestruct (for_up_total (fun j '(ret, bl) => Z.of_nat (length (bl : list m0_sns_ir_block)) = k + p /\
    (ret = 0 /\ (forall i, 1 <= i <= j -> mem i = true) \/ ret = - ENOMEM))) as ([ret bl] & -> & Hl & Hret).
  4:{ cbn [mbind option_bind]. exists bl. split; [|done]. destruct Hret as [[_ H]| ->]; [|done].
        by rewrite (H i0 Hi0) in Hf0. }
  - lia.
  - split; [rewrite length_replicate; lia|]. left. split; [done|lia].
  - intros j [ret bl] Hj (Hl & [[-> Hok]| ->]); [|by eexists (_, _); split; [done|]; split; [done|right]].
    cbn [negb Z.eqb].
    destruct (arr_get_is_Some bl j) as [b ->]; [lia|]. cbn [mbind option_bind].
    unfold m0_bitmap_init, words_alloc.
    destruct (mem (1 + j)) eqn:Em; rewrite arr_set_ok by lia; cbn [mbind option_bind];
      (eexists (_, _); split; [done|]; rewrite length_insert; split; [done|]).
    + left. split; [done|]. intros i Hi. destruct (decide (i = 1 + j)) as [->|]; [done|]. apply Hok. lia.
    + by right.
Qed.

Lemma init_nomem mem math local_nr : pmi_data_count math = k -> pmi_parity_count math = p ->
  (mem 0 = false -> m0_sns_ir_init mem math local_nr = None) /\
  (mem 0 = true -> (exists i, 1 <= i <= k + p /\ mem i = false) ->
     exists ir, m0_sns_ir_init mem math local_nr = Some (- ENOMEM, ir) /\ si_blocks ir = None).
Proof.
  intros Hd Hpa. unfold m0_sns_ir_init. split.
  - intros Hm. unfold ir_si_blocks_init. rewrite Hm. cbn [negb mbind option_bind].
    change (- ENOMEM =? 0) with false. cbn [negb]. unfold m0_sns_ir_fini.
    rewrite blocks_nr by done. rewrite for_up_cons by lia. done.
  - intros Hm Hi. set (ir0 := with_nr _ _ _). destruct (blocks_init_nomem mem ir0 Hd Hpa Hm Hi)
      as (bl & -> & Hl). cbn [mbind option_bind].
    change (- ENOMEM =? 0) with false. cbn [negb]. rewrite (fini_ok _ bl) by done. cbn [mbind option_bind].
    by eexists.
Qed.

Lemma register_ok F acc ir bl u : ir_registered F acc ir bl -> 0 <= u < k + p -> u ∉ F ->
  Z.of_nat (length F) < p ->
  exists ir' bl', m0_sns_ir_failure_register (acc u) u ir = Some (0, ir') /\
  ir_registered (F ++ [u]) acc ir' bl' /\ si_local_nr ir' = si_local_nr ir.
Proof.
  intros Hr Hu Hn Hl. unfold m0_sns_ir_failure_register, is_valid_block_idx.
  rewrite (reg_blocks _ _ _ _ Hr), blocks_nr by apply Hr.
  cbn [mbind option_bind]. assert_ok by (apply Z.ltb_lt; lia).
  destruct (reg_block _ _ _ _ Hr u Hu) as (b & Hb & Hi & Hbm & Hst & _).
  rewrite decide_False in Hst by done. rewrite Hb. cbn [mbind option_bind].
  assert_ok by (apply bool_decide_true; by rewrite Hst).
  pose proof (reg_nr _ _ _ _ Hr) as Hnr. rewrite arr_set_ok by lia. cbn [mbind option_bind].
  rewrite (reg_alive_nr _ _ _ _ Hr).
  assert_ok by (apply negb_true_iff, Z.eqb_neq; lia). cbn [si_alive_nr si_data_nr with_nr with_blocks].
  rewrite (reg_data _ _ _ _ Hr), (proj2 (Z.ltb_ge _ _)) by lia.
  unfold ir_failure_register. cbn [si_rs si_parity_nr with_nr with_blocks].
  destruct (reg_failed _ _ _ _ Hr) as (r & -> & Hlr). cbn [mbind option_bind].
  rewrite (reg_failed_nr _ _ _ _ Hr), (reg_parity _ _ _ _ Hr). assert_ok by (apply Z.ltb_lt; lia).
  rewrite length_app in Hlr. destruct (arr_push F r (Z.of_nat (length F)) (u8 u) eq_refl) as (r' & -> & Hr');
    [lia|]. cbn [mbind option_bind].
  rewrite (u8_byte u) by (unfold byte; lia). rewrite u32_small by (unfold is_u32; lia).
  eexists _, (<[Z.to_nat u := {| sib_idx := sib_idx b; sib_addr := Some (acc u); sib_bitmap := sib_bitmap b;
    sib_status := M0_SI_BLOCK_FAILED |}]> bl).
  split; [reflexivity|]. split; [|reflexivity].
  split; cbn [si_data_nr si_parity_nr si_alive_nr si_rs si_blocks with_si_rs with_nr with_blocks rs_failed_nr
    rs_failed_idx rs_alive_idx rs_encode_matrix rs_decode_tbls with_idx];
    rewrite ?length_app; cbn [length]; [apply Hr|apply Hr|lia|lia|
      |apply Hr|apply Hr|apply Hr|reflexivity|rewrite length_insert; apply Hr|].
  { exists r'. rewrite !length_app. cbn [length]. split; [reflexivity|lia]. }
  intros v Hv. rewrite arr_get_insert by lia. destruct (Z.eqb_spec u v) as [<-|Hne].
  - eexists. split; [done|]. cbn. rewrite decide_True by set_solver. by split_and!.
  - destruct (reg_block _ _ _ _ Hr v Hv) as (b' & Hb' & Hi' & Hbm' & Hst' & Ha'). exists b'.
    split_and!; try done; [|intros ?; apply Ha'; set_solver].
    rewrite Hst'. destruct (decide (v ∈ F));
      [rewrite decide_True by set_solver|rewrite decide_False by set_solver]; done.
Qed.

Section coefficients.
Context (F : list Z).
Hypothesis HF : NoDup F.
Hypothesis HFr : Forall (fun u => 0 <= u < k + p) F.
Hypothesis HFn : 1 <= Z.of_nat (length F) <= p.

Notation alive := (alive_of (k + p) F).

Lemma alive_group_nr : Z.of_nat (length alive) = k + p - Z.of_nat (length F).
Proof. apply alive_of_length; [lia|done|done]. Qed.

(** The list of alive units. *)
Lemma alive_loop acc ir bl al : ir_registered F acc ir bl -> Z.of_nat (length al) = k + p ->
  exists r, for_up 0 (k + p) (fun i '(alive, alive_nr) =>
    b ← arr_get bl i;
    if bool_decide (sib_status b = M0_SI_BLOCK_ALIVE) then
      alive ← arr_set alive alive_nr (u8 (sib_idx b));
      Some (alive, u32 (alive_nr + 1))
    else Some (alive, alive_nr)) (al, 0) = Some (alive ++ r, Z.of_nat (length alive)).
Proof.
  intros Hr Hl. edestruct (for_up_total (fun j '(al', n) => n = Z.of_nat (length (alive_of j F)) /\ n <= j /\
    length al' = length al /\ exists r, al' = alive_of j F ++ r))
    as ([al' n] & E & -> & _ & _ & r & ->); [| | |exists r; exact E];
      [lia|split_and!; [done|done|done|by exists al]|].
  intros j [al' n] Hj (-> & Hle & Hla & r & ->).
  destruct (reg_block _ _ _ _ Hr j Hj) as (b & -> & Hi & _ & Hst & _). cbn [mbind option_bind].
  rewrite Hst, alive_of_succ by lia. destruct (decide (j ∈ F)) as [Hin|Hout].
  - rewrite bool_decide_false by done. eexists (_, _). split; [done|]. rewrite app_nil_r.
    split_and!; [done|lia|done|by exists r].
  - rewrite bool_decide_true by done. rewrite length_app in Hla. rewrite Hi, u8_byte by (unfold byte; lia).
    destruct (arr_push (alive_of j F) r _ j eq_refl) as (r' & -> & Hr'); [lia|]. cbn [mbind option_bind].
    eexists (_, _). split; [done|]. rewrite u32_small by (unfold is_u32; lia). rewrite !length_app.
    cbn [length]. split_and!; [lia|lia|lia|by exists r'].
Qed.

(** The units a lost unit depends on. *)
Lemma dependency_ok ir r b : si_data_nr ir = k -> rs_alive_idx (si_rs ir) = Some (alive ++ r) ->
  sib_status b = M0_SI_BLOCK_FAILED ->
  bm_rep (sib_bitmap b) no_bits -> exists bm, dependency_bitmap_prepare b ir = Some (with_bitmap b bm) /\
  bm_rep bm (dep_bits k p F).
Proof.
  intros Hd Ha Hst Hbm. unfold dependency_bitmap_prepare. rewrite Hst. rewrite bool_decide_true by done.
  cbn [M0_ASSERT mbind option_bind]. rewrite Hd, Ha.
  pose proof alive_group_nr as Hn.
  edestruct (for_up_total (fun j b' => exists bm, b' = with_bitmap b bm /\
    bm_rep bm ((fun u => bool_decide (u ∈ take (Z.to_nat j) alive)) <$> seqZ 0 (k + p))))
      as (b' & E & bm & -> & Hrep);
    [| | |exists bm; split; [exact E|exact Hrep]]; [lia| |].
  - exists (sib_bitmap b). split; [by destruct b|]. replace (_ <$> seqZ 0 (k + p)) with no_bits; [done|].
    apply list_eq. intros i. rewrite list_lookup_fmap.
    destruct (decide (Z.of_nat i < k + p));
      [rewrite lookup_seqZ_lt by lia; cbn [fmap option_fmap option_map]; rewrite bool_decide_false
      by apply not_elem_of_nil; apply lookup_replicate; split; [done|lia]|].
    rewrite lookup_seqZ_ge by lia. apply lookup_ge_None_2. rewrite length_replicate. lia.
  - intros j b' Hj (bm & -> & Hrep). cbn [mbind option_bind]. rewrite arr_get_app_l, nthZ_get by lia.
    cbn [mbind option_bind].
    assert (0 <= nthZ alive j < k + p) as Hu
      by (apply (Forall_nthZ_range (fun u => 0 <= u < k + p)); [apply alive_in_range|lia]).
    destruct (bitmap_set_ok bm _ (nthZ alive j) true Hrep) as (bm' & E & Hrep');
      [rewrite length_fmap, length_seqZ; lia|].
    cbn [sib_bitmap with_bitmap]. rewrite E. cbn [mbind option_bind]. eexists. split; [done|]. exists bm'.
    split; [done|].
    replace (_ <$> seqZ 0 (k + p)) with (<[Z.to_nat (nthZ alive j) := true]>
      ((fun u => bool_decide (u ∈ take (Z.to_nat j) alive)) <$> seqZ 0 (k + p))); [done|].
    replace (Z.to_nat (j + 1)) with (S (Z.to_nat j)) by lia.
    pose proof (nthZ_get alive j ltac:(lia)) as [_ Hg]%arr_get_Some. rewrite (take_S_r _ _ _ Hg).
    apply list_eq. intros i. destruct (decide (Z.of_nat i < k + p)) as [Hi|Hi].
    + destruct (decide (i = Z.to_nat (nthZ alive j))) as [->|Hne].
      * rewrite list_lookup_insert_eq by (rewrite length_fmap, length_seqZ; lia).
        rewrite list_lookup_fmap, lookup_seqZ_lt by lia. cbn [fmap option_fmap option_map].
        rewrite bool_decide_true; [done|]. replace (0 + Z.of_nat (Z.to_nat (nthZ alive j)))
          with (nthZ alive j) by lia. set_solver.
      * rewrite list_lookup_insert_ne by done. rewrite !list_lookup_fmap, lookup_seqZ_lt by lia.
        cbn [fmap option_fmap option_map]. f_equal. apply bool_decide_ext.
        rewrite elem_of_app, list_elem_of_singleton. split; [by left|]. intros [H|H]; [done|lia].
    + rewrite !lookup_ge_None_2; rewrite ?length_insert, ?length_fmap, ?length_seqZ; [done|lia|lia].
Qed.

(** Every lost unit gets its bitmap. *)
Lemma dependencies_ok acc ir bl r1 r2 : si_data_nr ir = k -> si_blocks ir = Some bl ->
  rs_failed_idx (si_rs ir) = Some (F ++ r1) -> rs_alive_idx (si_rs ir) = Some (alive ++ r2) ->
  (forall u, 0 <= u < k + p -> exists b, arr_get bl u = Some b /\ sib_idx b = u /\
    (u ∈ F -> sib_addr b = Some (acc u) /\ sib_status b = M0_SI_BLOCK_FAILED /\
      bm_rep (sib_bitmap b) no_bits)) ->
  exists bl', for_up 0 (Z.of_nat (length F)) (fun i ir' =>
      failed ← rs_failed_idx (si_rs ir);
      f ← arr_get failed i;
      bl ← si_blocks ir';
      b ← arr_get bl f;
      b ← dependency_bitmap_prepare b ir';
      bl ← arr_set bl f b;
      Some (with_blocks ir' (Some bl))) ir = Some (with_blocks ir (Some bl')) /\
    forall u, 0 <= u < k + p -> exists b, arr_get bl' u = Some b /\ sib_idx b = u /\
      (u ∈ F -> sib_addr b = Some (acc u) /\ sib_status b = M0_SI_BLOCK_FAILED /\
        bm_rep (sib_bitmap b) (dep_bits k p F)).
Proof.
  intros Hd Hbl Hf Ha Hb. rewrite Hf.
  edestruct (for_up_total (fun j ir' => exists bl', ir' = with_blocks ir (Some bl') /\
    forall u, 0 <= u < k + p -> exists b, arr_get bl' u = Some b /\ sib_idx b = u /\
      (u ∈ F -> sib_addr b = Some (acc u) /\ sib_status b = M0_SI_BLOCK_FAILED /\
         bm_rep (sib_bitmap b) (if decide (u ∈ take (Z.to_nat j) F) then dep_bits k p F else no_bits))))
    as (ir' & E & bl' & -> & H); [| | |exists bl'; split; [exact E|]]; [lia| | |].
  - exists bl. split; [by destruct ir; cbn in *; subst|]. intros u Hu.
    by rewrite decide_False by apply not_elem_of_nil; auto.
  - intros j ir' Hj (bl' & -> & H). cbn [mbind option_bind]. rewrite arr_get_app_l, nthZ_get by lia.
    cbn [mbind option_bind si_blocks with_blocks].
    pose proof (nthZ_get F j Hj) as [_ Hg]%arr_get_Some. set (f := nthZ F j) in *.
    assert (f ∈ F) as Hin by (by eapply list_elem_of_lookup_2).
    pose proof (proj1 (Forall_forall _ _) HFr _ Hin) as Hfr. cbn beta in Hfr.
    destruct (H f Hfr) as (b & Eb & Hi & Hfb). destruct (Hfb Hin) as (Had & Hst & Hbm).
    rewrite decide_False in Hbm.
    2:{ intros [i Hi']%list_elem_of_lookup_1. apply lookup_take_Some in Hi'
          as [Hi' Hlt]. assert (i = Z.to_nat j); [by eapply NoDup_lookup|lia]. }
    rewrite Eb. cbn [mbind option_bind].
    destruct (dependency_ok (with_blocks ir (Some bl')) r2 b Hd Ha Hst Hbm) as (bm & -> & Hbm').
    cbn [mbind option_bind].
    pose proof (arr_get_range _ _ _ Eb). rewrite arr_set_ok by lia. cbn [mbind option_bind]. eexists.
    split; [done|]. eexists. split; [done|].
    intros u Hu. rewrite arr_get_insert by lia. replace (Z.to_nat (j + 1)) with (S (Z.to_nat j)) by lia.
    rewrite (take_S_r _ _ _ Hg).
    destruct (Z.eqb_spec f u) as [<-|Hne].
    + exists (with_bitmap b bm). split_and!; [done|done|]. intros _. rewrite decide_True by set_solver.
      by split_and!.
    + destruct (H u Hu) as (b1 & Eb1 & Hi1 & Hf1). exists b1. split_and!; [done|done|]. intros Hu1.
      destruct (Hf1 Hu1) as (? & ? & Hbm1). split_and!; [done|done|].
      destruct (decide (u ∈ take (Z.to_nat j) F));
        [rewrite decide_True by set_solver|rewrite decide_False by set_solver]; done.
  - intros u Hu. destruct (H u Hu) as (b & ? & ? & Hfb). exists b. split_and!; [done|done|]. intros Hin.
    specialize (Hfb Hin). rewrite take_ge in Hfb by lia.
    by rewrite decide_True in Hfb.
Qed.

Lemma mat_compute_ok mem acc ir bl : ir_registered F acc ir bl -> (forall i, 0 <= i < 3 -> mem i = true) ->
  exists ir' bl', m0_sns_ir_mat_compute mem ir = Some (0, ir') /\ ir_ready k p F acc ir' bl' /\
  si_local_nr ir' = si_local_nr ir.
Proof.
  intros Hr Hmem. unfold m0_sns_ir_mat_compute, ir_mat_compute.
  destruct (reg_alive _ _ _ _ Hr) as (al & Hal & Hlal).
  rewrite (reg_blocks _ _ _ _ Hr), Hal, blocks_nr by apply Hr. cbn [mbind option_bind].
  destruct (alive_loop acc ir bl al Hr Hlal) as [r2 ->]. cbn [mbind option_bind].
  rewrite (reg_alive_nr _ _ _ _ Hr), (reg_data _ _ _ _ Hr), (reg_parity _ _ _ _ Hr).
  pose proof alive_group_nr as Hn. assert_ok by (by apply Z.eqb_eq).
  destruct (reg_failed _ _ _ _ Hr) as (r1 & Hf & _). destruct (reg_tbls _ _ _ _ Hr) as (dt & Hdt & Hldt).
  set (rs := with_idx (si_rs ir) (rs_failed_nr (si_rs ir)) (rs_failed_idx (si_rs ir)) (Some (alive ++ r2))).
  destruct (gen_recov_ok k p Hk Hp (replicate (Z.to_nat k) []) [] ltac:(rewrite length_replicate;
    lia) F alive HFn HFr ltac:(lia) (alive_in_range _ _) (alive_sorted _ _)
    mem rs r1 r2 dt (reg_matrix _ _ _ _ Hr) (reg_failed_nr _ _ _ _ Hr) Hf eq_refl Hdt Hldt Hmem)
      as (inv & dec & rest & -> & _ & Hinv & _ & Hbd & Hld & Hdec & _).
  cbn [mbind option_bind negb Z.eqb]. set (tbls := ec_init_tables k (Z.of_nat (length F)) dec ++ rest).
  destruct (dependencies_ok acc (with_si_rs ir (with_decode_tbls rs (Some tbls))) bl r1 r2
    (reg_data _ _ _ _ Hr) (reg_blocks _ _ _ _ Hr) Hf eq_refl) as (bl' & E & Hbl').
  { intros u Hu. destruct (reg_block _ _ _ _ Hr u Hu) as (b & ? & ? & ? & Hst & Had). exists b. split_and!;
      [done|done|]. intros Hin.
    rewrite decide_True in Hst by done. split_and!; auto. }
  change (rs_failed_nr (with_decode_tbls rs (Some tbls))) with (rs_failed_nr (si_rs ir)).
  rewrite (reg_failed_nr _ _ _ _ Hr).
  cbn [si_rs with_si_rs] in E. rewrite E. cbn [mbind option_bind]. eexists _, bl'. split; [reflexivity|].
  split; [|reflexivity].
  split; cbn; try done; [apply Hr|apply Hr|rewrite (reg_alive_nr _ _ _ _ Hr);
    lia|apply Hr|by exists r1|by exists r2|].
  exists dec, rest. split_and!; [done|done|done|]. intros r i Hr' Hi. rewrite Hdec by done.
  unfold alive_matrix. by rewrite Hinv.
Qed.

End coefficients.

End setup.

(** ** Nodes *)

(** Setting up: initialisation, registration of the lost units one by one, coefficients. *)
Definition ir_setup {isal : ISAL} (mem_init mem_mat : Z -> bool) (math : m0_parity_math) (local_nr :
  Z) (acc : Z -> m0_bufvec) (F : list Z)
  : option (Z * m0_sns_ir) :=
  s ← m0_sns_ir_init mem_init math local_nr;
  '(ret, ir) ← foldl (fun s f => '(ret, ir) ← s;
    if negb (ret =? 0) then Some (ret, ir) else m0_sns_ir_failure_register (acc f) f ir) (Some s) F;
  if negb (ret =? 0) then Some (ret, ir) else m0_sns_ir_mat_compute mem_mat ir.

(** A group of [k] data units, which hold [cs], and [p] parity units, all of [nr] segments
    of [seg] bytes, of which the units [F] are lost. *)
Section nodes.
Context {isal : ISAL} (k p nr seg : Z) (cs : list (list Z)) (F : list Z).

Notation bs := (nr * seg).
Notation alive := (alive_of (k + p) F).

(** The accumulators of a node. *)
Definition accs_ok (acc : Z -> m0_bufvec) : Prop :=
  (forall f, f ∈ F -> unit_bv nr seg (acc f)) /\
  forall f f' a, f ∈ F -> f' ∈ F -> f <> f' -> a ∈ bv_addrs (acc f) -> a ∉ bv_addrs (acc f').

(** Unit [u] in [bv] for the first time, with the heap of the call. *)
Definition local_input (acc : Z -> m0_bufvec) (ir : m0_sns_ir) (m : mem) (S : Z -> gset Z) (alloc : Z ->
  option Z) (bv : m0_bufvec) (bitmap : m0_bitmap) (u : Z) : Prop :=
  u ∈ alive /\ 0 < si_local_nr ir /\ bm_rep bitmap (bits_of k p {[u]}) /\ unit_bv nr seg bv /\
  m <$> bv_addrs bv = unit_block k p bs cs u /\
  heap_ok bs (Z.of_nat (length F) + 1) alloc (fun x => in_accs F acc x \/ x ∈ bv_addrs bv) /\ forall f,
    f ∈ F -> u ∉ S f.

(** In [bv], a copy of the accumulator of [f] of a node with memory [m2], made up of
    units [S2 f] that are not in the one of this node. *)
Definition remote_input (acc : Z -> m0_bufvec) (m : mem) (S : Z -> gset Z) (acc2 : Z -> m0_bufvec) (m2 :
  mem) (S2 : Z -> gset Z) (f : Z) (bv : m0_bufvec) (bitmap : m0_bitmap)
  : Prop :=
  f ∈ F /\ S2 f <> ∅ /\ bm_rep bitmap (bits_of k p (S2 f)) /\ unit_bv nr seg bv /\
  (forall a, a ∈ bv_addrs (acc f) -> a ∉ bv_addrs bv) /\
  m <$> bv_addrs bv = m2 <$> bv_addrs (acc2 f) /\ S f ## S2 f.

(** The states of a node, with the units that make up each of its accumulators.  Nodes
    register the lost units in any order; anything but the accumulators may change
    between calls. *)
Inductive node_reach : (Z -> m0_bufvec) -> m0_sns_ir -> mem -> (Z -> gset Z) -> Prop :=
| node_start acc F' mem0 math mem_init mem_mat local_nr ir m :
    m0_parity_math_init mem0 k p = Some (0, math) -> F' ≡ₚ F -> accs_ok acc ->
    (forall i, 0 <= i <= k + p -> mem_init i = true) -> (forall i, 0 <= i < 3 -> mem_mat i = true) ->
    ir_setup mem_init mem_mat math local_nr acc F' = Some (0, ir) ->
    (forall f, f ∈ F -> m <$> bv_addrs (acc f) = replicate (Z.to_nat bs) 0) ->
    node_reach acc ir m (fun _ => ∅)
| node_env acc ir m m' S :
    node_reach acc ir m S -> (forall a, in_accs F acc a -> m' a = m a) -> node_reach acc ir m' S
| node_local acc ir m S ex alloc bv bitmap fi u ret ir' m' :
    node_reach acc ir m S -> local_input acc ir m S alloc bv bitmap u ->
    m0_sns_ir_recover ex alloc m ir bv bitmap fi M0_SI_BLOCK_LOCAL = Some (ret, ir', m') ->
    node_reach acc ir' m' (if ret =? 0 then fun f => {[u]} ∪ S f else S)
| node_remote acc ir m S acc2 ir2 m2 S2 ex alloc bv bitmap f ret ir' m' :
    node_reach acc ir m S -> node_reach acc2 ir2 m2 S2 -> remote_input acc m S acc2 m2 S2 f bv bitmap ->
    m0_sns_ir_recover ex alloc m ir bv bitmap f M0_SI_BLOCK_REMOTE = Some (ret, ir', m') ->
    node_reach acc ir' m' (<[f := S f ∪ S2 f]> S).

Context {laws : ISALLaws isal k p}.
Hypothesis Hk : k <= 128.
Hypothesis Hp : 2 <= p <= k.
Hypothesis Hnr : 0 < nr.
Hypothesis Hseg : 0 < seg.
Hypothesis Hbs : is_u32 bs.
Hypothesis Hcs : Z.of_nat (length cs) = k.
Hypothesis Hcb : Forall (block_ok bs) cs.
Hypothesis HF : NoDup F.
Hypothesis HFr : Forall (fun u => 0 <= u < k + p) F.
Hypothesis HFn : 1 <= Z.of_nat (length F) <= p.

Lemma registers_ok acc ir bl fs0 fs : ir_registered k p fs0 acc ir bl -> NoDup (fs0 ++ fs) ->
  Forall (fun u => 0 <= u < k + p) fs ->
  Z.of_nat (length (fs0 ++ fs)) <= p ->
  exists ir' bl', foldl (fun s f => '(ret, ir) ← s;
    if negb (ret =? 0) then Some (ret, ir) else m0_sns_ir_failure_register (acc f) f ir) (Some (0,
    ir)) fs = Some (0, ir') /\
    ir_registered k p (fs0 ++ fs) acc ir' bl' /\ si_local_nr ir' = si_local_nr ir.
Proof.
  revert fs0 ir bl. induction fs as [|f fs IH]; intros fs0 ir bl Hr Hnd Hf Hl;
    [rewrite app_nil_r; by exists ir, bl|].
  apply Forall_cons in Hf as [Hf Hfs]. rewrite length_app in Hl. cbn [length] in Hl.
  destruct (register_ok k p Hk ltac:(lia) fs0 acc ir bl f Hr Hf) as (ir1 & bl1 & E & Hr1 & Hl1);
    [apply NoDup_app in Hnd as (_ & Hnd & _); set_solver|lia|].
  cbn [foldl mbind option_bind negb Z.eqb]. rewrite E. rewrite cons_middle, app_assoc in Hnd |- *.
  destruct (IH (fs0 ++ [f]) ir1 bl1 Hr1 Hnd Hfs) as (ir' & bl' & -> & Hr' & Hl');
    [rewrite !length_app; cbn; lia|]. exists ir', bl'. rewrite Hl'. by split_and!.
Qed.

Lemma setup_ok mem0 math mem_init mem_mat local_nr acc F' : m0_parity_math_init mem0 k p = Some (0, math) ->
  F' ≡ₚ F ->
  (forall i, 0 <= i <= k + p -> mem_init i = true) -> (forall i, 0 <= i < 3 -> mem_mat i = true) ->
  exists ir bl, ir_setup mem_init mem_mat math local_nr acc F' = Some (0, ir) /\ ir_ready k p F' acc ir bl /\
  si_local_nr ir = local_nr.
Proof.
  intros Hm HFF Hmi Hmm. apply (init_ready k p Hk ltac:(lia)) in Hm; [|lia].
  assert (1 <= Z.of_nat (length F') <= p) as Hn by (by rewrite HFF).
  assert (NoDup F') as Hnd by (by rewrite HFF).
  assert (Forall (fun u => 0 <= u < k + p) F') as Hr by (by rewrite HFF).
  unfold ir_setup. destruct (init_ok k p Hk ltac:(lia) mem_init math local_nr acc Hm Hmi)
    as (ir0 & bl0 & -> & Hr0 & Hl0). cbn [mbind option_bind].
  destruct (registers_ok acc ir0 bl0 [] F' Hr0 Hnd Hr ltac:(cbn; lia)) as (ir1 & bl1 & -> & Hr1 & Hl1).
  cbn [mbind option_bind negb Z.eqb].
  destruct (mat_compute_ok k p Hk ltac:(lia) F' Hnd Hr Hn mem_mat acc ir1 bl1 Hr1 Hmm)
    as (ir2 & bl2 & -> & Hr2 & Hl2).
  exists ir2, bl2. split_and!; [done|done|congruence].
Qed.

Notation part := (acc_block k p bs cs F).

(** The order in which the lost units were registered does not matter. *)
Lemma part_perm F' : F' ≡ₚ F -> acc_block k p bs cs F' = part.
Proof. intros HFF. unfold acc_block, alive_matrix. by rewrite (alive_of_perm _ F' F HFF). Qed.

Lemma in_accs_perm F' acc x : F' ≡ₚ F -> in_accs F' acc x <-> in_accs F acc x.
Proof. intros HFF. unfold in_accs. by setoid_rewrite HFF. Qed.

Lemma heap_perm F' acc alloc (P : Z -> Prop) : F' ≡ₚ F ->
  heap_ok bs (Z.of_nat (length F) + 1) alloc (fun x => in_accs F acc x \/ P x) ->
  heap_ok bs (Z.of_nat (length F') + 1) alloc (fun x => in_accs F' acc x \/ P x).
Proof.
  intros HFF Hh i a Hi Ha. rewrite (Permutation_length HFF) in *. destruct (Hh i a Hi Ha) as [H0 H].
  split; [done|]. intros x Hx. destruct (H x Hx) as [Hu Hj].
  split; [|done]. by rewrite (in_accs_perm F' acc x HFF).
Qed.

Definition node_inv (acc : Z -> m0_bufvec) (ir : m0_sns_ir) (m : mem) (S : Z -> gset Z) : Prop :=
  accs_ok acc /\ (exists F' bl, F' ≡ₚ F /\ ir_ready k p F' acc ir bl) /\
  forall f, f ∈ F -> m <$> bv_addrs (acc f) = part f (S f) /\ forall u, u ∈ S f -> u ∈ alive.

(** What a call with a local unit does. *)
Lemma local_step acc ir m S ex alloc bv bitmap fi u : node_inv acc ir m S ->
  local_input acc ir m S alloc bv bitmap u ->
  exists ret ir' m', m0_sns_ir_recover ex alloc m ir bv bitmap fi M0_SI_BLOCK_LOCAL = Some (ret, ir', m') /\
    si_local_nr ir' = si_local_nr ir - 1 /\
    node_inv acc ir' m' (if ret =? 0 then fun f => {[u]} ∪ S f else S) /\
    only (fun x => scratch bs (Z.of_nat (length F) + 1) alloc x \/ in_accs F acc x) m m' /\
    (ret = 0 \/ ret = - ENOMEM /\ exists i, 0 <= i <= Z.of_nat (length F) + 2 /\ alloc i = None).
Proof.
  intros (Hacc & (F' & bl & HFF & Hr) & HS) (Hu & Hln & Hbm & Hbv & Hmb & Hheap & Hun).
  pose proof Hacc as [Hacc1 Hacc2].
  destruct (recover_local_ok k p bs cs F' Hk ltac:(lia) Hbs Hcs Hcb ltac:(by rewrite HFF)
    ltac:(by rewrite HFF) ltac:(by rewrite HFF) nr seg Hnr Hseg eq_refl acc
    ltac:(intros f; rewrite HFF; auto) ltac:(intros f f' a; rewrite !HFF; eauto) ex alloc ir bl m bv bitmap
      fi S u Hr Hln
    ltac:(by rewrite (alive_of_perm _ F' F HFF)) Hbm Hbv Hmb (heap_perm F' acc alloc _ HFF Hheap))
      as (ret & ir' & bl' & m' & E & Hr' & Hl & H).
  { intros f Hf. rewrite HFF in Hf. rewrite (part_perm F' HFF). split; [by apply HS|by apply Hun]. }
  exists ret, ir', m'. split; [done|]. split; [done|].
  rewrite (part_perm F' HFF), (Permutation_length HFF) in H.
  assert (exists F' bl, F' ≡ₚ F /\ ir_ready k p F' acc ir' bl) as Hex by (by exists F', bl').
  destruct H as [(-> & Ho & Hm)|(-> & Ho & Hi)].
  - split_and!; [|apply (only_weaken _ _ _ _ Ho); intros x; cbn beta;
      by rewrite (in_accs_perm F' acc x HFF)|by left]. split_and!; [done|done|].
    intros f Hf. cbn [Z.eqb]. split; [apply Hm; by rewrite HFF|]. destruct (HS f Hf). set_solver.
  - split_and!; [|apply (only_weaken _ _ _ _ Ho); by left|by right]. split_and!; [done|done|]. intros f Hf.
    change (- ENOMEM =? 0) with false. cbn match.
    destruct (HS f Hf) as [Hb Hsub]. split; [|done]. rewrite <-Hb. apply (only_bytes _ _ _ _ Ho).
    intros x Hx (i & a & Hi' & Ha & Hin).
    destruct (Hheap i a Hi' Ha) as [_ Hfr]. destruct (Hfr x Hin) as [Hun' _]. apply Hun'. left. by exists f.
Qed.

(** What a call with the accumulator of another node does. *)
Lemma remote_step acc ir m S acc2 ir2 m2 S2 ex alloc bv bitmap f : node_inv acc ir m S ->
  node_inv acc2 ir2 m2 S2 -> remote_input acc m S acc2 m2 S2 f bv bitmap ->
  exists m', m0_sns_ir_recover ex alloc m ir bv bitmap f M0_SI_BLOCK_REMOTE = Some (0, ir, m') /\
    node_inv acc ir m' (<[f := S f ∪ S2 f]> S) /\ only (.∈ bv_addrs (acc f)) m m'.
Proof.
  intros (Hacc & (F' & bl & HFF & Hr) & HS) (_ & _ & HS2) (Hf & Hne & Hbm & Hbv & Hd & Hmb & Hdis).
  pose proof Hacc as [Hacc1 Hacc2]. destruct (HS f Hf) as [Hb Hsub], (HS2 f Hf) as [Hb2 Hsub2].
  destruct (recover_remote_ok k p bs cs F' Hk ltac:(lia) Hbs Hcs Hcb ltac:(by rewrite HFF)
    ltac:(by rewrite HFF) ltac:(by rewrite HFF) nr seg Hnr Hseg eq_refl acc
    ltac:(intros f'; rewrite HFF; auto) ex alloc ir bl m bv bitmap f (S f) (S2 f) Hr ltac:(by rewrite HFF)
      Hne ltac:(by rewrite (alive_of_perm _ F' F HFF)) Hbm Hbv Hd)
    as (m' & E & Ho & Hm); [by rewrite Hmb, Hb2, (part_perm F' HFF)|by rewrite Hb, (part_perm F' HFF)|done|].
  exists m'. split; [done|]. split; [|done]. split_and!; [done|by exists F', bl|]. intros g Hg.
  destruct (decide (g = f)) as [->|Hgf].
  - rewrite fn_lookup_insert, Hm, (part_perm F' HFF). split; [done|]. set_solver.
  - rewrite fn_lookup_insert_ne by done. destruct (HS g Hg) as [Hbg Hsg]. split; [|done]. rewrite <-Hbg.
    apply (only_bytes _ _ _ _ Ho). intros a. by apply Hacc2.
Qed.

Lemma node_reach_inv acc ir m S : node_reach acc ir m S -> node_inv acc ir m S.
Proof.
  induction 1 as [acc F' mem0 math mem_init mem_mat local_nr ir m Hm HFF Hacc Hmi Hmm E Hz|acc ir m m' S _ IH
    Henv|
    acc ir m S ex alloc bv bitmap fi u ret ir' m' _ IH Hin E|acc ir m S acc2 ir2 m2 S2 ex alloc bv bitmap f
      ret ir' m' _ IH1 _ IH2 Hin E].
  - destruct (setup_ok mem0 math mem_init mem_mat local_nr acc F' Hm HFF Hmi Hmm) as (ir1 & bl & E1 & Hr & _).
    rewrite E in E1. injection E1 as <-.
    split_and!; [done|by exists F', bl|]. intros f Hf. rewrite Hz by done.
    split; [symmetry; apply acc_block_empty; (done || lia)|set_solver].
  - destruct IH as (Hacc & Hr & HS). split_and!; [done|done|]. intros f Hf. destruct (HS f Hf) as [Hb Hsub].
    split; [|done]. rewrite <-Hb.
    apply fmap_mem_ext. intros a Ha. apply Henv. by exists f.
  - destruct (local_step acc ir m S ex alloc bv bitmap fi u IH Hin) as (ret1 & ir1 & m1 & E1 & _ & Hinv & _).
    rewrite E in E1. by injection E1 as <- <- <-.
  - destruct (remote_step acc ir m S acc2 ir2 m2 S2 ex alloc bv bitmap f IH1 IH2 Hin) as (m1 & E1 & Hinv & _).
    rewrite E in E1. by injection E1 as -> <- <-.
Qed.

End nodes.

(** ** Properties *)

(** C2. Incremental recovery rebuilds the lost units of a group with at least two parity
    units on any number of nodes.
    Setting up returns 0 when memory does not run out.  Then, whatever local units a
    node adds, whatever accumulators of other nodes it adds, in whatever order and with
    any failures for lack of memory in between, every accumulator holds the sum of its
    units times their coefficients, and the lost unit itself as soon as the first
    [data_nr] alive units are among them.  Each call returns: 0 for the accumulator of
    another node, 0 for a local unit unless one of its allocations fails, in which case
    it returns -ENOMEM and leaves the accumulators as they were; it writes to the
    accumulators and to its own buffers only. *)
Theorem sns_ir_recovery {isal : ISAL} k p {laws : ISALLaws isal k p} nr seg cs F :
  k <= 128 -> 2 <= p <= k -> 0 < nr -> 0 < seg -> is_u32 (nr * seg) ->
  Z.of_nat (length cs) = k -> Forall (block_ok (nr * seg)) cs ->
  NoDup F -> Forall (fun u => 0 <= u < k + p) F -> 1 <= Z.of_nat (length F) <= p ->
  (forall mem0 math mem_init mem_mat local_nr acc F', m0_parity_math_init mem0 k p = Some (0, math) ->
    F' ≡ₚ F ->
     (forall i, 0 <= i <= k + p -> mem_init i = true) -> (forall i, 0 <= i < 3 -> mem_mat i = true) ->
     exists ir, ir_setup mem_init mem_mat math local_nr acc F' = Some (0, ir) /\ si_local_nr ir = local_nr) /\
  (forall acc ir m S, node_reach k p nr seg cs F acc ir m S ->
    (forall f, f ∈ F -> m <$> bv_addrs (acc f) = acc_block k p (nr * seg) cs F f (S f)) /\
    (forall f, f ∈ F -> (forall u, u ∈ take (Z.to_nat k) (alive_of (k + p) F) -> u ∈ S f) ->
      m <$> bv_addrs (acc f) = unit_block k p (nr * seg) cs f) /\
    (forall ex alloc bv bitmap fi u, local_input k p nr seg cs F acc ir m S alloc bv bitmap u ->
      exists ret ir' m', m0_sns_ir_recover ex alloc m ir bv bitmap fi M0_SI_BLOCK_LOCAL = Some (ret, ir',
        m') /\ si_local_nr ir' = si_local_nr ir - 1 /\
        only (fun x => scratch (nr * seg) (Z.of_nat (length F) + 1) alloc x \/ in_accs F acc x) m m' /\
        (ret = 0 \/ ret = - ENOMEM /\ (exists i, 0 <= i <= Z.of_nat (length F) + 2 /\ alloc i = None) /\
           forall f, f ∈ F -> m' <$> bv_addrs (acc f) = m <$> bv_addrs (acc f))) /\
    (forall acc2 ir2 m2 S2 ex alloc bv bitmap f, node_reach k p nr seg cs F acc2 ir2 m2 S2 ->
      remote_input k p nr seg F acc m S acc2 m2 S2 f bv bitmap ->
      exists m', m0_sns_ir_recover ex alloc m ir bv bitmap f M0_SI_BLOCK_REMOTE = Some (0, ir, m') /\
      only (.∈ bv_addrs (acc f)) m m')).
Proof.
  intros Hk Hp Hnr Hseg Hbs Hcs Hcb HF HFr HFn. split.
  - intros mem0 math mem_init mem_mat local_nr acc F' Hm HFF Hmi Hmm.
    destruct (setup_ok k p nr seg cs F Hk Hp Hnr Hseg Hbs Hcs Hcb HF HFr HFn mem0 math mem_init mem_mat
      local_nr acc F' Hm HFF Hmi Hmm) as (ir & bl & E & _ & Hl). by exists ir.
  - intros acc ir m S Hr. apply (node_reach_inv k p nr seg cs F Hk Hp Hnr Hseg Hbs Hcs Hcb HF HFr HFn) in Hr
      as Hinv. pose proof Hinv as (_ & _ & HS). split_and!.
    + intros f Hf. by apply HS.
    + intros f Hf Hall. rewrite (proj1 (HS f Hf)). apply acc_block_all; (done || lia).
    + intros ex alloc bv bitmap fi u Hin. destruct
        (local_step k p nr seg cs F Hk Hp Hnr Hseg Hbs Hcs Hcb HF HFr HFn acc ir m S ex alloc bv bitmap fi u
        Hinv Hin)
        as (ret & ir' & m' & E & Hl & (_ & _ & HS') & Ho & Hret). exists ret, ir', m'.
        split_and!; [done|done|done|].
      destruct Hret as [->|[-> Hi]]; [by left|right]. split_and!; [done|done|]. intros f Hf.
      rewrite (proj1 (HS' f Hf)). symmetry. by apply HS.
    + intros acc2 ir2 m2 S2 ex alloc bv bitmap f
        Hr2%(node_reach_inv k p nr seg cs F Hk Hp Hnr Hseg Hbs Hcs Hcb HF HFr HFn) Hin.
      destruct (remote_step k p nr seg cs F Hk Hp Hnr Hseg Hbs Hcs Hcb HF HFr HFn acc ir m S acc2 ir2 m2 S2
        ex alloc bv bitmap f Hinv Hr2 Hin) as (m' & E & _ & Ho). by exists m'.
Qed.

(** *** An example: units 0 and 2 of a group of two data and two parity units are lost *)

#[local] Instance ir_laws : ISALLaws gf256 2 2 := gf256_laws.

Definition ir_contents : list (list Z) := [[1; 2; 3; 4]; [9; 0; 128; 77]].
Definition ir_lost : list Z := [0; 2].
Definition ir_bv (a : Z) : m0_bufvec := {| ov_vec := {| v_nr := 2; v_count := [2; 2] |};
  ov_buf := [a; a + 100] |}.
Definition ir_acc (f : Z) : m0_bufvec := ir_bv (100 + 10 * f).
Definition ir_heap (i : Z) : option Z := Some (1000 + 1000 * i).

(** The memory of a node that has unit [u] at 500. *)
Definition ir_mem (u : Z) : mem :=
  let b := unit_block (isal := gf256) 2 2 4 ir_contents u in
  fun a => if a =? 500 then nthZ b 0 else if a =? 501 then nthZ b 1 else if a =? 600 then nthZ b 2 else if a
    =? 601 then nthZ b 3 else 0.

Lemma ir_bv_addrs a : bv_addrs (ir_bv a) = [a; a + 1; a + 100; a + 101].
Proof.
  assert (forall b, seqZ b 2 = [b; b + 1]) as Es by (intros b; rewrite !seqZ_cons, seqZ_nil by lia; done).
  unfold bv_addrs, segs, seg_addrs, ir_bv. cbn. rewrite !Es. cbn.
  by replace (a + 100 + 1) with (a + 101) by lia.
Qed.

Lemma ir_bv_ok a : unit_bv 2 2 (ir_bv a).
Proof. split; [done|done|done|]. rewrite ir_bv_addrs. repeat constructor; set_solver by lia. Qed.

Lemma ir_accs_ok : accs_ok 2 2 ir_lost ir_acc.
Proof.
  split; [intros f _; apply ir_bv_ok|]. intros f f' a Hf Hf' Hne. unfold ir_lost, ir_acc in *.
  rewrite !ir_bv_addrs.
  assert ((f = 0 \/ f = 2) /\ (f' = 0 \/ f' = 2)) as [H1 H2] by set_solver. set_solver by lia.
Qed.

Lemma ir_bitmap_ok u : u = 1 \/ u = 3 -> exists bm, bm_rep bm (bits_of 2 2 {[u]}).
Proof.
  intros Hu. destruct (bitmap_init_ok (sib_bitmap zero_block) 4) as (bm & _ & Hbm); [lia|].
  destruct (bitmap_set_ok bm _ u true Hbm) as (bm' & _ & Hbm'); [rewrite length_replicate; lia|]. exists bm'.
  by destruct Hu as [-> | ->].
Qed.

Lemma ir_heap_ok : heap_ok 4 3 ir_heap (fun x => in_accs ir_lost ir_acc x \/ x ∈ bv_addrs (ir_bv 500)).
Proof.
  intros i a Hi [= <-]. split; [lia|]. intros x Hx. rewrite elem_of_seqZ in Hx. split.
  - rewrite ir_bv_addrs. intros [(f & Hf & Hin)|Hin]; [|set_solver by lia]. unfold ir_lost, ir_acc in *.
    rewrite ir_bv_addrs in Hin. set_solver by lia.
  - intros j b Hj Hne [= <-]. rewrite elem_of_seqZ. lia.
Qed.

Notation ir_reach := (node_reach (isal := gf256) 2 2 2 2 ir_contents ir_lost).

Lemma ir_contents_ok : Forall (block_ok (2 * 2)) ir_contents.
Proof. repeat constructor; unfold byte; lia. Qed.

Lemma ir_lost_ok : NoDup ir_lost /\ Forall (fun u => 0 <= u < 2 + 2) ir_lost.
Proof. split; [|repeat constructor; lia]. unfold ir_lost. repeat constructor; set_solver by lia. Qed.

(** A node that has added unit [u]. *)
Lemma ir_node_ok u : u = 1 \/ u = 3 -> exists ir m, ir_reach ir_acc ir m (fun _ => {[u]} ∪ ∅).
Proof.
  intros Hu. destruct ir_lost_ok as [HF HFr].
  destruct (m0_parity_math_init (isal := gf256) (fun _ => true) 2 2) as [[ret math]|] eqn:E;
    [|vm_compute in E; discriminate].
  assert (ret = 0) as -> by (vm_compute in E; congruence).
  destruct (setup_ok (isal := gf256) 2 2 2 2 ir_contents ir_lost ltac:(lia) ltac:(lia) ltac:(lia) ltac:(lia)
    ltac:(done) eq_refl ir_contents_ok HF HFr ltac:(cbn; lia)
    (fun _ => true) math (fun _ => true) (fun _ => true) 1 ir_acc ir_lost E) as (ir & bl & Es & _ & Hl);
      [done|done|done|].
  assert (ir_reach ir_acc ir (ir_mem u) (fun _ => ∅)) as R0.
  { eapply node_start; [exact E|done|exact ir_accs_ok|done|done|exact Es|]. intros f Hf. unfold ir_acc.
      rewrite ir_bv_addrs.
    assert (f = 0 \/ f = 2) as [-> | ->] by (unfold ir_lost in Hf; set_solver); done. }
  destruct (ir_bitmap_ok u Hu) as [bm Hbm].
  assert (local_input (isal := gf256) 2 2 2 2 ir_contents ir_lost ir_acc ir (ir_mem u) (fun _ => ∅) ir_heap
    (ir_bv 500) bm u) as Hin.
  { split_and!; [|lia|done|apply ir_bv_ok| |exact ir_heap_ok|set_solver].
    - apply (bool_decide_unpack _). by destruct Hu as [-> | ->]; vm_compute.
    - rewrite ir_bv_addrs. by destruct Hu as [-> | ->]; vm_compute. }
  destruct (local_step (isal := gf256) 2 2 2 2 ir_contents ir_lost ltac:(lia) ltac:(lia) ltac:(lia)
    ltac:(lia) ltac:(done) eq_refl ir_contents_ok HF HFr ltac:(cbn; lia)
    ir_acc ir (ir_mem u) (fun _ => ∅) true ir_heap (ir_bv 500) bm 0 u)
      as (ret & ir' & m' & Er & _ & _ & _ & Hret).
  { exact (node_reach_inv (isal := gf256) 2 2 2 2 ir_contents ir_lost ltac:(lia) ltac:(lia) ltac:(lia)
      ltac:(lia) ltac:(done) eq_refl ir_contents_ok HF HFr ltac:(cbn; lia)
      ir_acc ir (ir_mem u) _ R0). }
  { exact Hin. }
  destruct Hret as [->|(_ & i & _ & Hi)]; [|done]. exists ir', m'.
  exact (node_local _ _ _ _ _ _ _ _ _ _ _ _ _ _ _ _ _ _ _ R0 Hin Er).
Qed.

(** The accumulator of unit 0 of the memory [m2], copied to 700. *)
Definition ir_receive (m m2 : Z -> Z) : Z ->
  Z := <[700 := m2 100]> (<[701 := m2 101]> (<[800 := m2 200]> (<[801 := m2 201]> m))).

(** One node adds unit 1, another one unit 3 and sends its accumulator of unit 0 to the
    first one, which then has unit 0. *)
Lemma sns_ir_recovery_witness : exists ir m S, ir_reach ir_acc ir m S /\
  m <$> bv_addrs (ir_acc 0) = [1; 2; 3; 4].
Proof.
  destruct (sns_ir_recovery (isal := gf256) 2 2 2 2 ir_contents ir_lost ltac:(lia) ltac:(lia) ltac:(lia)
    ltac:(lia) ltac:(done) eq_refl ir_contents_ok
    (proj1 ir_lost_ok) (proj2 ir_lost_ok) ltac:(cbn; lia)) as [_ Hnode].
  destruct (ir_node_ok 1 (or_introl eq_refl)) as (ir1 & m1 & R1), (ir_node_ok 3 (or_intror eq_refl))
    as (ir2 & m2 & R2), (ir_bitmap_ok 3 (or_intror eq_refl)) as [bm Hbm].
  assert (ir_reach ir_acc ir1 (ir_receive m1 m2) (fun _ => {[1]} ∪ ∅)) as R3.
  { apply (node_env _ _ _ _ _ _ _ _ m1); [exact R1|]. intros a (f & Hf & Ha). unfold ir_acc
      in Ha. rewrite ir_bv_addrs in Ha. unfold ir_receive.
    rewrite !fn_lookup_insert_ne; [done|..]; unfold ir_lost in Hf; set_solver by lia. }
  assert (remote_input 2 2 2 2 ir_lost ir_acc (ir_receive m1 m2) (fun _ => {[1]} ∪ ∅) ir_acc m2
    (fun _ => {[3]} ∪ ∅) 0 (ir_bv 700) bm) as Hin.
  { split_and!; [unfold ir_lost; set_solver|set_solver|cbn beta;
      by rewrite union_empty_r_L|apply ir_bv_ok|unfold ir_acc; rewrite !ir_bv_addrs; set_solver by lia|
      |set_solver].
    unfold ir_acc. rewrite !ir_bv_addrs. done. }
  destruct (Hnode _ _ _ _ R3) as (_ & _ & _ & Hremote).
  destruct (Hremote _ _ _ _ true ir_heap _ _ _ R2 Hin) as (m4 & E & _).
  pose proof (node_remote _ _ _ _ _ _ _ _ _ _ _ _ _ _ _ _ _ _ _ _ _ _ R3 R2 Hin E) as R4. eexists ir1, m4, _.
  split; [exact R4|].
  destruct (Hnode _ _ _ _ R4) as (_ & Hall & _). etrans; [apply (Hall 0)|vm_compute; reflexivity].
  - unfold ir_lost. set_solver.
  - change (take (Z.to_nat 2) (alive_of (2 + 2) ir_lost)) with [1; 3]. intros v Hv. rewrite fn_lookup_insert.
    set_solver.
Defined.

(** C38. m0_sns_ir_init() returns 0 when no allocation fails; when that of a bitmap fails
    it returns -ENOMEM with the blocks freed; when that of the blocks fails it does not
    return but follows a null pointer, since m0_sns_ir_fini() expects the blocks. *)
Theorem sns_ir_init_outcome {isal : ISAL} mem0 mem k p {laws : ISALLaws isal k p} math local_nr :
  k <= 128 -> 2 <= p <= k -> m0_parity_math_init mem0 k p = Some (0, math) ->
  ((forall i, 0 <= i <= k + p -> mem i = true) ->
     exists ir, m0_sns_ir_init mem math local_nr = Some (0, ir) /\ si_local_nr ir = local_nr /\
     si_alive_nr ir = k + p /\ is_Some (si_blocks ir)) /\
  (mem 0 = true -> (exists i, 1 <= i <= k + p /\ mem i = false) ->
     exists ir, m0_sns_ir_init mem math local_nr = Some (- ENOMEM, ir) /\ si_blocks ir = None) /\
  (mem 0 = false -> m0_sns_ir_init mem math local_nr = None).
Proof.
  intros Hk Hp Hm. apply (init_ready k p Hk ltac:(lia)) in Hm as Hr; [|lia].
  pose proof Hr as (_ & Hd & Hpa & _).
  destruct (init_nomem k p Hk ltac:(lia) mem math local_nr Hd Hpa) as [H0 H1]. split_and!; [|done|done].
  intros Hmem. destruct (init_ok k p Hk ltac:(lia) mem math local_nr (fun _ => ir_bv 0) Hr Hmem)
    as (ir & bl & E & Hreg & Hl). exists ir.
  rewrite (reg_blocks _ _ _ _ _ _ Hreg), (reg_alive_nr _ _ _ _ _ _ Hreg), Z.sub_0_r. by split_and!.
Qed.

Lemma sns_ir_init_outcome_witness : exists math,
  m0_parity_math_init (isal := gf256) (fun _ => true) 2 2 = Some (0, math) /\
  (exists ir, m0_sns_ir_init (fun _ => true) math 1 = Some (0, ir)) /\
  (exists ir, m0_sns_ir_init (fun i => negb (i =? 3)) math 1 = Some (- ENOMEM, ir)) /\
  m0_sns_ir_init (fun i => negb (i =? 0)) math 1 = None.
Proof.
  destruct (m0_parity_math_init (isal := gf256) (fun _ => true) 2 2) as [[ret math]|] eqn:E;
    [|vm_compute in E; discriminate].
  assert (ret = 0) as -> by (vm_compute in E; congruence). exists math. split; [done|].
  destruct (sns_ir_init_outcome (isal := gf256) (fun _ => true) (fun _ => true) 2 2 math 1 ltac:(lia)
    ltac:(lia) E) as [H1 _].
  destruct (sns_ir_init_outcome (isal := gf256) (fun _ => true) (fun i => negb (i =? 3)) 2 2 math 1
    ltac:(lia) ltac:(lia) E) as (_ & H2 & _).
  destruct (sns_ir_init_outcome (isal := gf256) (fun _ => true) (fun i => negb (i =? 0)) 2 2 math 1
    ltac:(lia) ltac:(lia) E) as (_ & _ & H3).
  split_and!; [|destruct H2 as (ir & H & _); [done|by exists 3|by exists ir]|by apply H3].
  destruct H1 as (ir & H & _); [done|]. by exists ir.
Defined.
