(* ===== verification/Xcode.v ===== *)
(** * xcode: encoding and decoding of typed objects

    src/xcode/xcode.c and src/xcode/cursor.c: types described by their fields, the
    cursor that walks an object in memory along its type, and the function that
    encodes, decodes and measures objects, over the buffer cursors of Vec.  The
    memory is an array of bytes, in which pointers and integers are stored in little
    endian order. *)
From stdpp Require Import strings.
From S2P Require Import Prelude LibArith Vec.
#[local] Open Scope motr_scope.

(** ** Types *)

Inductive m0_xcode_aggr :=
  | M0_XA_RECORD | M0_XA_UNION | M0_XA_SEQUENCE | M0_XA_ARRAY | M0_XA_TYPEDEF | M0_XA_OPAQUE | M0_XA_ATOM.

#[export] Instance m0_xcode_aggr_eq : EqDecision m0_xcode_aggr.
Proof. solve_decision. Defined.

Inductive m0_xode_atom_type := M0_XAT_VOID | M0_XAT_U8 | M0_XAT_U16 | M0_XAT_U32 | M0_XAT_U64.

(** What a walk changes outside of its cursor: the memory, the point in the buffer
    vector, and the results the allocator has in store, 0 for a failure. *)
Record xio := { xs_mem : mem; xcx_buf : m0_bufvec_cursor; xs_heap : list Z }.

Record m0_xcode_type_ops := {
  xto_length : option (xio -> Z -> option Z);
  xto_encode : option (xio -> Z -> option (Z * xio));
  xto_decode : option (xio -> Z -> option (Z * xio))
}.

(** [id] stands for the address of the type; [opaque] takes the address of the
    parent object. *)
Inductive m0_xcode_type :=
  mk_type (id : Z) (aggr : m0_xcode_aggr) (ops : option m0_xcode_type_ops) (atype : m0_xode_atom_type)
    (sizeof : Z) (child : list m0_xcode_field)
with m0_xcode_field :=
  mk_field (name : option string) (type : m0_xcode_type) (tag : Z)
    (opaque : option (mem -> Z -> Z * m0_xcode_type)) (offset : Z).

Definition xct_id (xt : m0_xcode_type) : Z := let '(mk_type id _ _ _ _ _) := xt in id.
Definition xct_aggr (xt : m0_xcode_type) : m0_xcode_aggr := let '(mk_type _ a _ _ _ _) := xt in a.
Definition xct_ops (xt : m0_xcode_type) : option m0_xcode_type_ops := let '(mk_type _ _ o _ _ _) := xt in o.
Definition xct_atype (xt : m0_xcode_type) : m0_xode_atom_type := let '(mk_type _ _ _ a _ _) := xt in a.
Definition xct_sizeof (xt : m0_xcode_type) : Z := let '(mk_type _ _ _ _ s _) := xt in s.
Definition xct_child (xt : m0_xcode_type) : list m0_xcode_field := let '(mk_type _ _ _ _ _ c) := xt in c.
Definition xct_nr (xt : m0_xcode_type) : Z := Z.of_nat (length (xct_child xt)).

Definition xf_name (f : m0_xcode_field) : option string := let '(mk_field n _ _ _ _) := f in n.
Definition xf_type (f : m0_xcode_field) : m0_xcode_type := let '(mk_field _ t _ _ _) := f in t.
Definition xf_tag (f : m0_xcode_field) : Z := let '(mk_field _ _ t _ _) := f in t.
Definition xf_opaque (f : m0_xcode_field) : option (mem -> Z -> Z * m0_xcode_type) :=
  let '(mk_field _ _ _ o _) := f in o.
Definition xf_offset (f : m0_xcode_field) : Z := let '(mk_field _ _ _ _ o) := f in o.

Notation M0_XT_VOID := (mk_type 1 M0_XA_ATOM None M0_XAT_VOID 0 []) (only parsing).
Notation M0_XT_U8 := (mk_type 2 M0_XA_ATOM None M0_XAT_U8 1 []) (only parsing).
Notation M0_XT_U16 := (mk_type 3 M0_XA_ATOM None M0_XAT_U16 2 []) (only parsing).
Notation M0_XT_U32 := (mk_type 4 M0_XA_ATOM None M0_XAT_U32 4 []) (only parsing).
Notation M0_XT_U64 := (mk_type 5 M0_XA_ATOM None M0_XAT_U64 8 []) (only parsing).
Notation M0_XT_OPAQUE := (mk_type 6 M0_XA_OPAQUE None M0_XAT_VOID 8 []) (only parsing).

(** Comparison of pointers to types. *)
Definition same_type (t u : m0_xcode_type) : bool := xct_id t =? xct_id u.

Definition sizeof_ptr : Z := 8.

(** [i] is the number of the field. *)
Definition is_pointer (xt : m0_xcode_type) (i : Z) : bool :=
  bool_decide (xct_aggr xt = M0_XA_SEQUENCE) && (i =? 1).

Definition alignment_mask (field : m0_xcode_field) : option Z :=
  let ft := xf_type field in
  let x := if bool_decide (xct_aggr ft = M0_XA_ATOM) then u32 (xct_sizeof ft) else 1 in
  _ ← M0_ASSERT (m0_is_po2 x);
  Some (if 0 <? x then x - 1 else 0).

Definition field_invariant (xt : m0_xcode_type) (field : m0_xcode_field) (i : Z) : option bool :=
  if negb (bool_decide (is_Some (xf_name field))) then Some false
  else if same_type xt M0_XT_OPAQUE && negb (bool_decide (is_Some (xf_opaque field))) then Some false
  else if negb (u64 (xf_offset field + (if is_pointer xt i then sizeof_ptr else xct_sizeof (xf_type field)))
                <=? xct_sizeof xt) then Some false
  else
    mask ← alignment_mask field;
    Some (Z.land (xf_offset field) mask =? 0).

Definition aggr_min (a : m0_xcode_aggr) : Z :=
  match a with
  | M0_XA_UNION | M0_XA_SEQUENCE => 2
  | M0_XA_ARRAY | M0_XA_TYPEDEF => 1
  | _ => 0
  end.

Definition aggr_max (a : m0_xcode_aggr) : Z :=
  match a with
  | M0_XA_RECORD | M0_XA_UNION => UINT64_MAX
  | M0_XA_SEQUENCE => 2
  | M0_XA_ARRAY | M0_XA_TYPEDEF => 1
  | M0_XA_OPAQUE | M0_XA_ATOM => 0
  end.

Definition eq_name (f g : m0_xcode_field) : bool := bool_decide (xf_name f = xf_name g).

(** The loop over the fields; [prev] and [offset] are those of the last field. *)
Fixpoint fields_invariant (xt : m0_xcode_type) (fields : list m0_xcode_field) (i prev offset : Z) :
  option bool :=
  match fields with
  | [] => Some true
  | f :: fields =>
      field_invariant xt f i &&?
      (if i =? 0 then Some true
       else p ← arr_get (xct_child xt) prev; Some (u64 (offset + xct_sizeof (xf_type p)) <=? xf_offset f)) &&?
      Some (forallb (fun '(j, g) => Bool.eqb (eq_name f g) (i =? Z.of_nat j)) (imap pair (xct_child xt))) &&?
      Some (negb (bool_decide (xct_aggr xt = M0_XA_UNION) && (0 <? i)) ||
            forallb (fun '(j, g) => (Z.of_nat j =? 0) || Bool.eqb (xf_tag f =? xf_tag g) (i =? Z.of_nat j))
              (imap pair (xct_child xt))) &&?
      (if (i =? 0) || negb (bool_decide (xct_aggr xt = M0_XA_UNION))
       then fields_invariant xt fields (i + 1) i (xf_offset f)
       else fields_invariant xt fields (i + 1) prev offset)
  end.

Definition m0_xcode_type_invariant (xt : m0_xcode_type) : option bool :=
  Some (aggr_min (xct_aggr xt) <=? xct_nr xt) &&?
  Some (xct_nr xt <=? aggr_max (xct_aggr xt)) &&?
  fields_invariant xt (xct_child xt) 0 0 0 &&?
  (if bool_decide (xct_aggr xt = M0_XA_UNION) || bool_decide (xct_aggr xt = M0_XA_SEQUENCE)
   then f ← arr_get (xct_child xt) 0; Some (bool_decide (xct_aggr (xf_type f) = M0_XA_ATOM)) else Some true)
     &&?
  Some (negb (bool_decide (xct_aggr xt = M0_XA_OPAQUE)) ||
        (same_type xt M0_XT_OPAQUE && (xct_sizeof xt =? sizeof_ptr))).

(** ** Objects in memory *)

(** Integers of [n] bytes. *)
Fixpoint le_val (bs : list Z) : Z := match bs with [] => 0 | b :: bs => b + 256 * le_val bs end.

Fixpoint le_bytes (n : nat) (x : Z) : list Z :=
  match n with O => [] | S n => x mod 256 :: le_bytes n (x / 256) end.

Definition load (m : mem) (addr n : Z) : Z := le_val (m <$> seqZ addr n).

Definition store (m : mem) (addr : Z) (bs : list Z) : mem :=
  fun a => if (addr <=? a) && (a <? addr + Z.of_nat (length bs)) then default 0 (bs !! Z.to_nat (a - addr))
    else m a.

Record m0_xcode_obj := { xo_type : m0_xcode_type; xo_ptr : Z }.

Definition m0_xcode_addr (m : mem) (obj : m0_xcode_obj) (fileno elno : Z) : option Z :=
  let xt := xo_type obj in
  f ← arr_get (xct_child xt) fileno;
  let ct := xf_type f in
  let addr := xo_ptr obj + xf_offset f in
  Some (if bool_decide (xct_aggr xt = M0_XA_SEQUENCE) && (fileno =? 1) && negb (elno =? UINT64_MAX)
        then load m addr sizeof_ptr + u64 (elno * xct_sizeof ct)
        else if bool_decide (xct_aggr xt = M0_XA_ARRAY) && (fileno =? 0) then addr + u64
          (elno * xct_sizeof ct)
        else if same_type ct M0_XT_OPAQUE && negb (elno =? UINT64_MAX) then load m addr sizeof_ptr
        else addr).

(** The result code and the sub-object. *)
Definition m0_xcode_subobj (m : mem) (obj : m0_xcode_obj) (fieldno elno : Z) : option (Z * m0_xcode_obj) :=
  f ← arr_get (xct_child (xo_type obj)) fieldno;
  ptr ← m0_xcode_addr m obj fieldno elno;
  if same_type (xf_type f) M0_XT_OPAQUE then
    op ← xf_opaque f;
    let '(result, xt) := op m (xo_ptr obj) in
    Some (result, {| xo_type := xt; xo_ptr := ptr |})
  else Some (0, {| xo_type := xf_type f; xo_ptr := ptr |}).

Definition m0_xcode_atom (m : mem) (obj : m0_xcode_obj) : option Z :=
  _ ← M0_ASSERT (bool_decide (xct_aggr (xo_type obj) = M0_XA_ATOM));
  match xct_atype (xo_type obj) with
  | M0_XAT_U8 => Some (load m (xo_ptr obj) 1)
  | M0_XAT_U16 => Some (load m (xo_ptr obj) 2)
  | M0_XAT_U32 => Some (load m (xo_ptr obj) 4)
  | M0_XAT_U64 => Some (load m (xo_ptr obj) 8)
  | M0_XAT_VOID => None
  end.

Definition m0_xcode_tag (m : mem) (obj : m0_xcode_obj) : option Z :=
  let xt := xo_type obj in
  f ← arr_get (xct_child xt) 0;
  match xct_aggr xt with
  | M0_XA_ARRAY => Some (xf_tag f)
  | M0_XA_SEQUENCE | M0_XA_UNION =>
      _ ← M0_ASSERT (bool_decide (xct_aggr (xf_type f) = M0_XA_ATOM));
      match xct_atype (xf_type f) with
      | M0_XAT_VOID => Some (xf_tag f)
      | _ => '(_, subobj) ← m0_xcode_subobj m obj 0 0; m0_xcode_atom m subobj
      end
  | _ => None
  end.

(** ** Cursors *)

Inductive m0_xcode_cursor_flag :=
  | M0_XCODE_CURSOR_NONE | M0_XCODE_CURSOR_PRE | M0_XCODE_CURSOR_IN | M0_XCODE_CURSOR_POST.

#[export] Instance m0_xcode_cursor_flag_eq : EqDecision m0_xcode_cursor_flag.
Proof. solve_decision. Defined.

(** [s_datum] is only used by m0_xcode_free(). *)
Record m0_xcode_cursor_frame := {
  s_obj : m0_xcode_obj;
  s_fieldno : Z;
  s_elno : Z;
  s_flag : m0_xcode_cursor_flag
}.

Notation M0_XCODE_DEPTH_MAX := 10 (only parsing).

(** The array of frames cut at [xcu_depth]: [xcu_stack] holds the frames from
    [xcu_depth] down to 0, [xcu_above] those above, which are only read at the end. *)
Record m0_xcode_cursor := { xcu_stack : list m0_xcode_cursor_frame; xcu_above : list m0_xcode_cursor_frame }.

Definition xcu_depth (it : m0_xcode_cursor) : Z := Z.of_nat (length (xcu_stack it)) - 1.

Definition m0_xcode_cursor_init (obj : m0_xcode_obj) : m0_xcode_cursor :=
  {| xcu_stack := [{| s_obj := obj; s_fieldno := 0; s_elno := 0; s_flag := M0_XCODE_CURSOR_NONE |}];
    xcu_above := [] |}.

Definition m0_xcode_cursor_top (it : m0_xcode_cursor) : option m0_xcode_cursor_frame :=
  _ ← M0_ASSERT (xcu_depth it <? M0_XCODE_DEPTH_MAX);
  head (xcu_stack it).

Definition set_top (it : m0_xcode_cursor) (f : m0_xcode_cursor_frame) : m0_xcode_cursor :=
  {| xcu_stack := f :: tail (xcu_stack it); xcu_above := xcu_above it |}.

Definition set_flag (f : m0_xcode_cursor_frame) (flag : m0_xcode_cursor_flag) : m0_xcode_cursor_frame :=
  {| s_obj := s_obj f; s_fieldno := s_fieldno f; s_elno := s_elno f; s_flag := flag |}.

Definition set_pos (f : m0_xcode_cursor_frame) (fieldno elno : Z) : m0_xcode_cursor_frame :=
  {| s_obj := s_obj f; s_fieldno := fieldno; s_elno := elno; s_flag := s_flag f |}.

Definition cursor_push (it : m0_xcode_cursor) (f : m0_xcode_cursor_frame) : m0_xcode_cursor :=
  {| xcu_stack := f :: xcu_stack it; xcu_above := tail (xcu_above it) |}.

Definition cursor_pop (it : m0_xcode_cursor) : m0_xcode_cursor :=
  {| xcu_stack := tail (xcu_stack it); xcu_above := take 1 (xcu_stack it) ++ xcu_above it |}.

(** The search for the branch of a union. *)
Fixpoint union_find (fields : list m0_xcode_field) (tag i : Z) : Z :=
  match fields with
  | [] => i
  | f :: fields => if negb (tag =? xf_tag f) then union_find fields tag (i + 1) else i
  end.

(** The first switch of the case M0_XCODE_CURSOR_IN: the next field and element. *)
Definition next_pos (m : mem) (top : m0_xcode_cursor_frame) : option (Z * Z) :=
  let xt := xo_type (s_obj top) in
  let check fieldno elno :=
    tag ← m0_xcode_tag m (s_obj top);
    Some (if tag <=? elno then (2, 0) else (fieldno, elno)) in
  match xct_aggr xt with
  | M0_XA_RECORD | M0_XA_TYPEDEF => Some (s_fieldno top + 1, s_elno top)
  | M0_XA_SEQUENCE =>
      if s_fieldno top =? 0 then check 1 0 else check (s_fieldno top) (u64 (s_elno top + 1))
  | M0_XA_ARRAY => check (s_fieldno top) (u64 (s_elno top + 1))
  | M0_XA_UNION =>
      if negb (s_fieldno top =? 0) then Some (xct_nr xt, s_elno top)
      else
        tag ← m0_xcode_tag m (s_obj top);
        Some (union_find (tail (xct_child xt)) tag 1, s_elno top)
  | M0_XA_OPAQUE | M0_XA_ATOM => None
  end.

(** The case M0_XCODE_CURSOR_PRE. *)
Definition next_pre (m : mem) (it : m0_xcode_cursor) (top : m0_xcode_cursor_frame) :
  option (Z * m0_xcode_cursor) :=
  let xt := xo_type (s_obj top) in
  if s_fieldno top <? xct_nr xt then
    let top := set_flag top M0_XCODE_CURSOR_IN in
    let it := set_top it top in
    if negb (bool_decide (xct_aggr xt = M0_XA_ATOM)) then
      _ ← M0_ASSERT (xcu_depth it + 1 <? M0_XCODE_DEPTH_MAX);
      '(result, obj) ← m0_xcode_subobj m (s_obj top) (s_fieldno top) (s_elno top);
      let it := cursor_push it {| s_obj := obj; s_fieldno := 0; s_elno := 0; s_flag := M0_XCODE_CURSOR_PRE |}
        in
      Some (if negb (result =? 0) then result else 1, it)
    else Some (1, it)
  else Some (1, set_top it (set_flag top M0_XCODE_CURSOR_POST)).

Section next.
(** Whether the build has ENABLE_EXPENSIVE_CHECKS. *)
Context (ex : bool).

Definition m0_xcode_next (m : mem) (it : m0_xcode_cursor) : option (Z * m0_xcode_cursor) :=
  top ← m0_xcode_cursor_top it;
  let xt := xo_type (s_obj top) in
  _ ← (if ex then b ← m0_xcode_type_invariant xt; M0_ASSERT b else Some tt);
  match s_flag top with
  | M0_XCODE_CURSOR_NONE => Some (1, set_top it (set_flag top M0_XCODE_CURSOR_PRE))
  | M0_XCODE_CURSOR_IN =>
      '(fieldno, elno) ← next_pos m top;
      next_pre m it (set_pos top fieldno elno)
  | M0_XCODE_CURSOR_PRE => next_pre m it top
  | M0_XCODE_CURSOR_POST =>
      let it := cursor_pop it in
      if xcu_depth it <? 0 then Some (0, it)
      else
        top ← m0_xcode_cursor_top it;
        _ ← M0_ASSERT (negb (bool_decide (s_flag top = M0_XCODE_CURSOR_POST)));
        Some (1, set_top it (set_flag top M0_XCODE_CURSOR_IN))
  end.

Definition m0_xcode_skip (it : m0_xcode_cursor) : option m0_xcode_cursor :=
  top ← m0_xcode_cursor_top it;
  Some (set_top it (set_flag top M0_XCODE_CURSOR_POST)).

(** ** Allocation *)

Definition at_array (m : mem) (it : m0_xcode_cursor) : option bool :=
  if 0 <? xcu_depth it then
    prev ← xcu_stack it !! 1%nat;
    if bool_decide (xct_aggr (xo_type (s_obj prev)) = M0_XA_SEQUENCE) && (s_fieldno prev =? 1) &&
      (s_elno prev =? 0)
    then tag ← m0_xcode_tag m (s_obj prev); Some (0 <? tag)
    else Some false
  else Some false.

(** Where the address of the object is kept: the pointer of the frame, or memory. *)
Inductive xslot := SlotTop | SlotMem (addr : Z).

Definition allocp (m : mem) (it : m0_xcode_cursor) : option (Z * xslot) :=
  top ← m0_xcode_cursor_top it;
  let size := xct_sizeof (xo_type (s_obj top)) in
  if xcu_depth it =? 0 then Some (size, SlotTop)
  else
    prev ← xcu_stack it !! 1%nat;
    array ← at_array m it;
    nob ← (if (array : bool) then tag ← m0_xcode_tag m (s_obj prev); Some (u64 (tag * size))
           else
             f ← arr_get (xct_child (xo_type (s_obj prev))) (s_fieldno prev);
             Some (if same_type (xf_type f) M0_XT_OPAQUE then size else 0));
    slot ← m0_xcode_addr m (s_obj prev) (s_fieldno prev) UINT64_MAX;
    Some (nob, SlotMem slot).

(** m0_alloc(): a zeroed area, or NULL. *)
Definition m0_alloc (io : xio) (size : Z) : Z * xio :=
  match xs_heap io with
  | [] => (0, io)
  | a :: heap =>
      if a =? 0 then (0, {| xs_mem := xs_mem io; xcx_buf := xcx_buf io; xs_heap := heap |})
      else (a, {| xs_mem := store (xs_mem io) a (replicate (Z.to_nat size) 0); xcx_buf := xcx_buf io;
        xs_heap := heap |})
  end.

Definition with_mem (io : xio) (m : mem) :
  xio := {| xs_mem := m; xcx_buf := xcx_buf io; xs_heap := xs_heap io |}.

Definition set_ptr (f : m0_xcode_cursor_frame) (ptr : Z) : m0_xcode_cursor_frame :=
  {| s_obj := {| xo_type := xo_type (s_obj f); xo_ptr := ptr |}; s_fieldno := s_fieldno f; s_elno := s_elno f;
     s_flag := s_flag f |}.

(** With m0_xcode_alloc() as the allocation function. *)
Definition m0_xcode_alloc_obj (io : xio) (it : m0_xcode_cursor) : option (Z * xio * m0_xcode_cursor) :=
  top ← m0_xcode_cursor_top it;
  '(nob, slot) ← allocp (xs_mem io) it;
  let cur := match slot with SlotTop => xo_ptr (s_obj top) | SlotMem a => load (xs_mem io) a sizeof_ptr end in
  if negb (nob =? 0) && (cur =? 0) then
    _ ← M0_ASSERT (xo_ptr (s_obj top) =? 0);
    let '(ptr, io) := m0_alloc io nob in
    let io := match slot with
              | SlotTop => io
              | SlotMem a => with_mem io (store (xs_mem io) a (le_bytes 8 ptr))
              end in
    let it := set_top it (set_ptr top ptr) in
    Some (if ptr =? 0 then - ENOMEM else 0, io, it)
  else Some (0, io, it).

Definition m0_xcode_is_byte_array (xt : m0_xcode_type) : option bool :=
  if bool_decide (xct_aggr xt = M0_XA_SEQUENCE) then
    f ← arr_get (xct_child xt) 1; Some (same_type (xf_type f) M0_XT_U8)
  else Some false.

(** ** The walk *)

Inductive xcode_op := XO_ENC | XO_DEC | XO_LEN.

#[export] Instance xcode_op_eq : EqDecision xcode_op.
Proof. solve_decision. Defined.

Record xwalk := { w_io : xio; w_it : m0_xcode_cursor; w_length : Z }.

Definition with_buf (io : xio) (m : mem) (buf : m0_bufvec_cursor) : xio :=
  {| xs_mem := m; xcx_buf := buf; xs_heap := xs_heap io |}.

(** The custom operation of a type, if it has one. *)
Definition custom_op (op : xcode_op) (xt : m0_xcode_type) : option (xio -> Z -> option (Z * Z * xio)) :=
  ops ← xct_ops xt;
  match op with
  | XO_ENC => f ← xto_encode ops; Some (fun io ptr => '(r, io) ← f io ptr; Some (r, 0, io))
  | XO_DEC => f ← xto_decode ops; Some (fun io ptr => '(r, io) ← f io ptr; Some (r, 0, io))
  | XO_LEN => f ← xto_length ops; Some (fun io ptr => len ← f io ptr; Some (1, len, io))
  end.

(** The copy of an atom: 1 is the result of m0_xcode_next(). *)
Definition atom_copy (op : xcode_op) (io : xio) (ptr size : Z) : option (Z * xio) :=
  area ← m0_bufvec_cursor_init (buf_vec ptr size);
  match op with
  | XO_ENC =>
      '(n, m, dst, _) ← m0_bufvec_cursor_copy (xs_mem io) (xcx_buf io) area size;
      Some (if negb (n =? size) then - EPROTO else 1, with_buf io m dst)
  | _ =>
      '(n, m, _, src) ← m0_bufvec_cursor_copy (xs_mem io) area (xcx_buf io) size;
      Some (if negb (n =? size) then - EPROTO else 1, with_buf io m src)
  end.

(** The atom case of the loop body. *)
Definition atom_visit (op : xcode_op) (w : xwalk) (xt : m0_xcode_type) (ptr : Z) : option (Z * xwalk) :=
  array ← (at_array (xs_mem (w_io w)) (w_it w) &&?
           (prev ← xcu_stack (w_it w) !! 1%nat; m0_xcode_is_byte_array (xo_type (s_obj prev))));
  size ← (if (array : bool)
          then prev ← xcu_stack (w_it w) !! 1%nat; tag ← m0_xcode_tag (xs_mem (w_io w)) (s_obj prev);
               Some (u64 (xct_sizeof xt * tag))
          else Some (xct_sizeof xt));
  '(result, io, length) ←
    (if bool_decide (op = XO_LEN) then Some (1, w_io w, i32 (w_length w + size))
     else '(r, io) ← atom_copy op (w_io w) ptr size; Some (r, io, w_length w));
  it ← (if (array : bool) then m0_xcode_skip (cursor_pop (w_it w)) else Some (w_it w));
  Some (result, {| w_io := io; w_it := it; w_length := length |}).

(** The loop body after the allocation. *)
Definition visit_obj (op : xcode_op) (w : xwalk) : option (Z * xwalk) :=
  top ← m0_xcode_cursor_top (w_it w);
  let xt := xo_type (s_obj top) in
  let ptr := xo_ptr (s_obj top) in
  match custom_op op xt with
  | Some f =>
      '(r, len, io) ← f (w_io w) ptr;
      it ← m0_xcode_skip (w_it w);
      Some (if r <? 0 then r else 1, {| w_io := io; w_it := it; w_length := i32 (w_length w + len) |})
  | None =>
      if bool_decide (xct_aggr xt = M0_XA_ATOM) then
        '(r, w) ← atom_visit op w xt ptr;
        Some (if r <? 0 then r else 1, w)
      else Some (1, w)
  end.

(** The loop body after m0_xcode_next() returned 1; a result that is not positive
    ends the loop. *)
Definition walk_body (op : xcode_op) (w : xwalk) : option (Z * xwalk) :=
  top ← m0_xcode_cursor_top (w_it w);
  if negb (bool_decide (s_flag top = M0_XCODE_CURSOR_PRE)) then Some (1, w)
  else
    '(result, io, it) ← (if bool_decide (op = XO_DEC) then m0_xcode_alloc_obj (w_io w) (w_it w)
                         else Some (0, w_io w, w_it w));
    let w := {| w_io := io; w_it := it; w_length := w_length w |} in
    if negb (result =? 0) then Some (result, w) else visit_obj op w.

(** [fuel] bounds the number of iterations. *)
Fixpoint walk_loop (fuel : nat) (op : xcode_op) (w : xwalk) : option (Z * xwalk) :=
  match fuel with
  | O => None
  | S fuel =>
      '(result, it) ← m0_xcode_next (xs_mem (w_io w)) (w_it w);
      let w := {| w_io := w_io w; w_it := it; w_length := w_length w |} in
      if 0 <? result then
        '(result, w) ← walk_body op w;
        if 0 <? result then walk_loop fuel op w else Some (result, w)
      else Some (result, w)
  end.

(** The call-backs of the context are NULL for the functions modelled here. *)
Definition ctx_walk (fuel : nat) (op : xcode_op) (io : xio) (it : m0_xcode_cursor) : option (Z * xwalk) :=
  '(result, w) ← walk_loop fuel op {| w_io := io; w_it := it; w_length := 0 |};
  Some (if bool_decide (op = XO_LEN) && (result =? 0) then w_length w else result, w).

(** ** Entry points *)

(** The address of the topmost object. *)
Definition m0_xcode_ctx_top (it : m0_xcode_cursor) : option Z :=
  f ← head (reverse (xcu_stack it) ++ xcu_above it); Some (xo_ptr (s_obj f)).

Definition m0_xcode_encode (fuel : nat) (io : xio) (it : m0_xcode_cursor) : option (Z * xwalk) :=
  ctx_walk fuel XO_ENC io it.

Definition m0_xcode_decode (fuel : nat) (io : xio) (it : m0_xcode_cursor) : option (Z * xwalk) :=
  ctx_walk fuel XO_DEC io it.

Definition m0_xcode_length (fuel : nat) (io : xio) (it : m0_xcode_cursor) : option (Z * xwalk) :=
  ctx_walk fuel XO_LEN io it.

Inductive m0_xcode_what := M0_XCODE_ENCODE | M0_XCODE_DECODE.

(** [xcx_buf io] is the cursor the caller passes; it is only moved on success. *)
Definition m0_xcode_encdec (fuel : nat) (io : xio) (obj : m0_xcode_obj) (what : m0_xcode_what)
  : option (Z * xio * m0_xcode_obj) :=
  let it := m0_xcode_cursor_init obj in
  '(result, w) ← match what with
                 | M0_XCODE_ENCODE => m0_xcode_encode fuel io it
                 | M0_XCODE_DECODE => m0_xcode_decode fuel io it
                 end;
  if result =? 0 then
    top ← (if xo_ptr obj =? 0 then m0_xcode_ctx_top (w_it w) else Some (xo_ptr obj));
    Some (0, w_io w, {| xo_type := xo_type obj; xo_ptr := top |})
  else Some (result, with_buf (w_io w) (xs_mem (w_io w)) (xcx_buf io), obj).

(** The buffer is not used. *)
Definition m0_xcode_data_size (fuel : nat) (io : xio) (obj : m0_xcode_obj) : option Z :=
  '(result, _) ← m0_xcode_length fuel io (m0_xcode_cursor_init obj); Some result.

(** The result code, the buffer and its length. *)
Definition m0_xcode_obj_enc_to_buf (fuel : nat) (io : xio) (obj : m0_xcode_obj) : option (Z * xio * Z * Z) :=
  size ← m0_xcode_data_size fuel io obj;
  let len := u64 size in
  let '(buf, io) := m0_alloc io len in
  if buf =? 0 then Some (- ENOMEM, io, buf, len)
  else
    cur ← m0_bufvec_cursor_init (buf_vec buf len);
    '(rc, io', _) ← m0_xcode_encdec fuel (with_buf io (xs_mem io) cur) obj M0_XCODE_ENCODE;
    Some (rc, with_buf io' (xs_mem io') (xcx_buf io), buf, len).

Definition m0_xcode_obj_dec_from_buf (fuel : nat) (io : xio) (obj : m0_xcode_obj) (buf len : Z)
  : option (Z * xio * m0_xcode_obj) :=
  cur ← m0_bufvec_cursor_init (buf_vec buf len);
  '(rc, io', obj) ← m0_xcode_encdec fuel (with_buf io (xs_mem io) cur) obj M0_XCODE_DECODE;
  Some (rc, with_buf io' (xs_mem io') (xcx_buf io), obj).

End next.
