(* ===== verification/XcodeObj.v ===== *)
(** * xcode: abstract objects and the order of the walk

    An object in memory represents a tree of typed nodes.  The lemmas of this file
    show that the cursor of Xcode visits the sub-objects of a node one after another,
    whatever the walk does at them. *)
From S2P Require Import Prelude Vec Xcode.
#[local] Open Scope motr_scope.

(** ** Trees *)

(** An atom has its bytes, an aggregate its sub-objects with their positions: the
    number of the field and of the element. *)
Inductive xnode := XNode (t : m0_xcode_type) (bs : list Z) (kids : list (Z * Z * xnode)).

Definition n_type (n : xnode) : m0_xcode_type := let '(XNode t _ _) := n in t.
Definition n_bytes (n : xnode) : list Z := let '(XNode _ bs _) := n in bs.
Definition n_kids (n : xnode) : list (Z * Z * xnode) := let '(XNode _ _ ks) := n in ks.

Section ind.
Context (P : xnode -> Prop).
Context (H : forall t bs kids, Forall (fun k => P k.2) kids -> P (XNode t bs kids)).

Fixpoint xnode_rect' (n : xnode) : P n :=
  let '(XNode t bs kids) := n in
  H t bs kids ((fix go ks : Forall (fun k => P k.2) ks :=
    match ks with [] => Forall_nil_2 _ | k :: ks => Forall_cons_2 _ k ks (xnode_rect' k.2) (go ks) end) kids).
End ind.

(** The encoding. *)
Fixpoint wire (n : xnode) : list Z :=
  let '(XNode _ bs kids) := n in
  bs ++ (fix go ks := match ks with [] => [] | k :: ks => wire k.2 ++ go ks end) kids.

Definition wires (kids : list (Z * Z * xnode)) : list Z := concat ((fun k => wire k.2) <$> kids).

Lemma wire_eq t bs kids : wire (XNode t bs kids) = bs ++ wires kids.
Proof. cbn. f_equal. unfold wires. induction kids as [|k ks IH]; [done|]. cbn. by rewrite IH. Qed.

Fixpoint height (n : xnode) : nat :=
  let '(XNode _ _ kids) := n in
  S ((fix go ks := match ks with [] => 0%nat | k :: ks => Nat.max (height k.2) (go ks) end) kids).

Lemma height_kid t bs kids k : k ∈ kids -> (S (height k.2) <= height (XNode t bs kids))%nat.
Proof.
  cbn. induction kids as [|k' ks IH]; intros Hk; [by apply not_elem_of_nil in Hk|].
  apply elem_of_cons in Hk as [->|Hk]; [lia|]. specialize (IH Hk). lia.
Qed.

(** Sizes of atoms. *)
Definition atom_size (a : m0_xode_atom_type) : Z :=
  match a with M0_XAT_VOID => 0 | M0_XAT_U8 => 1 | M0_XAT_U16 => 2 | M0_XAT_U32 => 4 | M0_XAT_U64 => 8 end.

(** The value of a counter or discriminator. *)
Definition node_tag (f : m0_xcode_field) (c : xnode) : Z :=
  match xct_atype (xf_type f) with M0_XAT_VOID => xf_tag f | _ => le_val (n_bytes c) end.

(** What every type of a tree has: no custom operations, a well-formed description. *)
Record type_ok (t : m0_xcode_type) : Prop := {
  to_inv : m0_xcode_type_invariant t = Some true;
  to_ops : xct_ops t = None;
  to_size : 0 <= xct_sizeof t < 2 ^ 63;
  to_offsets : Forall (fun f => is_u32 (xf_offset f)) (xct_child t);
  to_tags : Forall (fun f => is_u64 (xf_tag f)) (xct_child t);
  to_u8 : same_type t M0_XT_U8 = true -> t = M0_XT_U8;
  to_opaque : same_type t M0_XT_OPAQUE = false
}.

(** The sub-objects are those the type prescribes. *)
Definition shape (t : m0_xcode_type) (bs : list Z) (kids : list (Z * Z * xnode)) : Prop :=
  match xct_aggr t with
  | M0_XA_ATOM => kids = [] /\ Z.of_nat (length bs) = xct_sizeof t /\
  xct_sizeof t = atom_size (xct_atype t) /\
      Forall (fun b => 0 <= b < 256) bs
  | M0_XA_RECORD | M0_XA_TYPEDEF => bs = [] /\ fst <$> kids = (fun i => (i, 0)) <$> seqZ 0 (xct_nr t)
  | M0_XA_ARRAY => bs = [] /\ exists f, xct_child t = [f] /\ 1 <= xf_tag f /\
      fst <$> kids = (fun e => (0, e)) <$> seqZ 0 (xf_tag f) /\
      xf_offset f + xf_tag f * xct_sizeof (xf_type f) <= xct_sizeof t
  | M0_XA_SEQUENCE => bs = [] /\ exists f0 f1 c es, xct_child t = [f0; f1] /\ kids = ((0, 0), c) :: es /\
      fst <$> es = (fun e => (1, e)) <$> seqZ 0 (node_tag f0 c) /\ 0 < xct_sizeof (xf_type f1) /\
      0 <= node_tag f0 c /\ node_tag f0 c * xct_sizeof (xf_type f1) < 2 ^ 64
  | M0_XA_UNION => bs = [] /\ exists f0 fs c, xct_child t = f0 :: fs /\
      let j := union_find fs (node_tag f0 c) 1 in
      (kids = [((0, 0), c)] /\ j = xct_nr t) \/ exists b, kids = [((0, 0), c); ((j, 0), b)] /\ j < xct_nr t
  | M0_XA_OPAQUE => False
  end.

(** The sub-object [k] of [t] has the type of its field. *)
Definition kid_typed (t : m0_xcode_type) (k : Z * Z * xnode) : Prop :=
  exists f, arr_get (xct_child t) k.1.1 = Some f /\ n_type k.2 = xf_type f.

Inductive wf_node : xnode -> Prop :=
  wf_XNode t bs kids : type_ok t -> shape t bs kids -> Forall (kid_typed t) kids ->
  Forall (fun k => wf_node k.2) kids ->
    wf_node (XNode t bs kids).

(** Every memory of [R] holds the tree at [p], with the same pointers. *)
Fixpoint rep (R : mem -> Prop) (p : Z) (n : xnode) : Prop :=
  let '(XNode t bs kids) := n in
  (xct_aggr t = M0_XA_ATOM -> forall m, R m -> m <$> seqZ p (xct_sizeof t) = bs) /\
  (fix go ks : Prop := match ks with
    | [] => True
    | k :: ks =>
        (exists a, (forall m, R m -> m0_xcode_addr m {| xo_type := t; xo_ptr := p |} k.1.1 k.1.2 = Some a) /\
          rep R a k.2) /\
        go ks
    end) kids.

Definition kid_rep (R : mem -> Prop) (t : m0_xcode_type) (p : Z) (k : Z * Z * xnode) : Prop :=
  exists a, (forall m, R m -> m0_xcode_addr m {| xo_type := t; xo_ptr := p |} k.1.1 k.1.2 = Some a) /\
  rep R a k.2.

Lemma rep_eq R p t bs kids :
  rep R p (XNode t bs kids) <->
  (xct_aggr t = M0_XA_ATOM -> forall m, R m -> m <$> seqZ p (xct_sizeof t) = bs) /\
  Forall (kid_rep R t p) kids.
Proof.
  cbn. f_equiv. induction kids as [|k ks IH]; [by split|]. rewrite Forall_cons, <- IH. done.
Qed.

Lemma rep_mono (R R' : mem -> Prop) p n : (forall m, R' m -> R m) -> rep R p n -> rep R' p n.
Proof.
  intros HR. revert p. induction n as [t bs kids IH] using xnode_rect'. intros p [Ha Hk]%rep_eq. apply rep_eq.
  split; [auto|].
  rewrite Forall_forall in *. intros k Hin. destruct (Hk k Hin) as (a & Haddr & Hrep). exists a.
  split; [auto|].
  by apply IH.
Qed.

Lemma kid_rep_mono (R R' : mem -> Prop) t p k : (forall m, R' m -> R m) -> kid_rep R t p k ->
  kid_rep R' t p k.
Proof. intros HR (a & Ha & Hr). exists a. split; [auto|]. by eapply rep_mono. Qed.

(** ** Lemmas: types *)

Lemma type_ok_u64 t : type_ok t -> is_u64 (xct_sizeof t).
Proof. intros Ht. pose proof (to_size _ Ht). unfold is_u64. lia. Qed.

Lemma and_then_Some a b : (a &&? b) = Some true -> a = Some true /\ b = Some true.
Proof. destruct a as [[]|]; cbn; [done|discriminate..]. Qed.

Lemma type_ok_tag_atom t f : type_ok t -> xct_aggr t = M0_XA_UNION \/ xct_aggr t = M0_XA_SEQUENCE ->
  arr_get (xct_child t) 0 = Some f -> xct_aggr (xf_type f) = M0_XA_ATOM.
Proof.
  intros [Hinv _ _ _ _ _ _] Ha Hf. unfold m0_xcode_type_invariant in Hinv.
  apply and_then_Some in Hinv as [Hinv _]. apply and_then_Some in Hinv as [_ Hinv].
  assert ((bool_decide (xct_aggr t = M0_XA_UNION) || bool_decide (xct_aggr t = M0_XA_SEQUENCE)) = true) as E
    by (by destruct Ha as [-> | ->]).
  rewrite E, Hf in Hinv. cbn in Hinv. injection Hinv as Hb. by apply bool_decide_eq_true in Hb.
Qed.

Lemma arr_get_0 {A} (x : A) l : arr_get (x :: l) 0 = Some x.
Proof. done. Qed.

(** The address of a sub-object that is not the element of a sequence. *)
Lemma addr_field m t p i e f :
  arr_get (xct_child t) i = Some f -> same_type (xf_type f) M0_XT_OPAQUE = false ->
  ~ (xct_aggr t = M0_XA_SEQUENCE /\ i = 1) ->
  m0_xcode_addr m {| xo_type := t; xo_ptr := p |} i e =
    Some (if bool_decide (xct_aggr t = M0_XA_ARRAY) && (i =? 0)
          then p + xf_offset f + u64 (e * xct_sizeof (xf_type f)) else p + xf_offset f).
Proof.
  intros Hf Ho Hns. unfold m0_xcode_addr. cbn [xo_type xo_ptr]. rewrite Hf. cbn [mbind option_bind].
  rewrite Ho.
  assert (bool_decide (xct_aggr t = M0_XA_SEQUENCE) && (i =? 1) = false) as ->.
  { case_bool_decide; [|done]. cbn. apply Z.eqb_neq. naive_solver. }
  cbn [andb]. by destruct (_ && _).
Qed.

Lemma tag_ok (R : mem -> Prop) m t p f0 fs c : R m ->
  type_ok t -> xct_aggr t = M0_XA_UNION \/ xct_aggr t = M0_XA_SEQUENCE -> xct_child t = f0 :: fs ->
  n_type c = xf_type f0 -> wf_node c -> kid_rep R t p (0, 0, c) ->
  m0_xcode_tag m {| xo_type := t; xo_ptr := p |} = Some (node_tag f0 c).
Proof.
  intros HR Ht Ha Hc Hty Hwf (a & Haddr & Hrep). cbn [fst snd] in *. specialize (Haddr m HR).
  assert (arr_get (xct_child t) 0 = Some f0) as Hf0 by (by rewrite Hc).
  pose proof (type_ok_tag_atom t f0 Ht Ha Hf0) as Hat.
  destruct c as [ct cbs ckids]. cbn in Hty. subst ct. inversion Hwf as [? ? ? Hct Hsh _ _]; subst.
  unfold shape in Hsh. rewrite Hat in Hsh. destruct Hsh as (-> & Hlen & Hsz & Hby).
  apply rep_eq in Hrep as [Hrep _]. specialize (Hrep Hat m HR).
  assert (m0_xcode_subobj m {| xo_type := t; xo_ptr := p |} 0 0 = Some (0,
    {| xo_type := xf_type f0; xo_ptr := a |})) as Hsub.
  { unfold m0_xcode_subobj. cbn [xo_type xo_ptr]. rewrite Hf0. cbn [mbind option_bind]. rewrite Haddr. cbn
      [mbind option_bind].
    by rewrite (to_opaque _ Hct). }
  unfold m0_xcode_tag. cbn [xo_type]. rewrite Hf0. cbn [mbind option_bind].
  assert (forall x, match xct_aggr t with M0_XA_ARRAY => Some (xf_tag f0) | M0_XA_SEQUENCE |
    M0_XA_UNION => x | _ => None end = x) as Hm
    by (intros; by destruct Ha as [-> | ->]).
  rewrite Hm, Hat. cbn [bool_decide mbind option_bind]. rewrite Hsub. cbn [mbind option_bind].
  unfold node_tag, m0_xcode_atom, load. cbn [xo_type xo_ptr n_bytes]. rewrite Hat. rewrite Hsz in Hrep.
  destruct (xct_atype (xf_type f0)); cbn [atom_size] in Hrep; cbn; by rewrite ?Hrep.
Qed.

(** The tag of an array is fixed. *)
Lemma array_tag m t p f : xct_aggr t = M0_XA_ARRAY -> xct_child t = [f] ->
  m0_xcode_tag m {| xo_type := t; xo_ptr := p |} = Some (xf_tag f).
Proof. intros Ha Hc. unfold m0_xcode_tag. cbn [xo_type]. by rewrite Hc, Ha. Qed.

(** ** Lemmas: positions *)

Lemma seqZ_lookup_Some n i x : seqZ 0 n !! i = Some x <-> x = Z.of_nat i /\ Z.of_nat i < n.
Proof. rewrite lookup_seqZ. lia. Qed.

(** Positions of sub-objects that are numbered. *)
Lemma kid_pos (ks : list (Z * Z * xnode)) (g : Z -> Z * Z) n i k :
  fst <$> ks = g <$> seqZ 0 n -> ks !! i = Some k -> k.1 = g (Z.of_nat i) /\ Z.of_nat i < n.
Proof.
  intros E Hk. assert ((fst <$> ks) !! i = Some k.1) as H by (by rewrite list_lookup_fmap, Hk).
  rewrite E, list_lookup_fmap in H. destruct (seqZ 0 n !! i) as [x|] eqn:Ex; [|done].
  apply seqZ_lookup_Some in Ex as [-> ?]. cbn in H. by injection H as <-.
Qed.

Lemma kids_length (ks : list (Z * Z * xnode)) (g : Z -> Z * Z) n :
  fst <$> ks = g <$> seqZ 0 n -> length ks = Z.to_nat n.
Proof. intros E%(f_equal length). by rewrite !length_fmap, length_seqZ in E. Qed.

(** The frame of a node at a given position. *)
Definition frame_at (t : m0_xcode_type) (p : Z) (pos : Z * Z) (flag : m0_xcode_cursor_flag) :
  m0_xcode_cursor_frame :=
  {| s_obj := {| xo_type := t; xo_ptr := p |}; s_fieldno := pos.1; s_elno := pos.2; s_flag := flag |}.

(** After a sub-object comes the next one, or the end. *)
Definition next_ok (t : m0_xcode_type) (kids : list (Z * Z * xnode)) (i : nat) (pos : Z * Z) : Prop :=
  match kids !! i with Some k => pos = k.1 | None => xct_nr t <= pos.1 end.

Lemma record_next t kids i k :
  fst <$> kids = (fun i => (i, 0)) <$> seqZ 0 (xct_nr t) -> kids !! i = Some k ->
  exists pos, Some (k.1.1 + 1, k.1.2) = Some pos /\ next_ok t kids (S i) pos.
Proof.
  intros Hpos Hk. pose proof (kid_pos _ _ _ _ _ Hpos Hk) as [-> Hi]. cbn [fst snd].
  eexists. split; [done|]. unfold next_ok. destruct (kids !! S i) as [k'|] eqn:Hk'.
  - pose proof (kid_pos _ _ _ _ _ Hpos Hk') as [-> ?]. f_equal. lia.
  - apply lookup_ge_None in Hk'. pose proof (kids_length _ _ _ Hpos). cbn. lia.
Qed.

(** The check of the element number against the tag. *)
Lemma seq_check (es : list (Z * Z * xnode)) j n nr f :
  fst <$> es = (fun e => (f, e)) <$> seqZ 0 n -> 0 <= n -> nr <= 2 ->
  match es !! j with
  | Some k => (if n <=? Z.of_nat j then (2, 0) else (f, Z.of_nat j)) = k.1
  | None => nr <= (if n <=? Z.of_nat j then (2, 0) else (f, Z.of_nat j)).1
  end.
Proof.
  intros Hpos Hn Hnr. destruct (es !! j) as [k|] eqn:Hk.
  - pose proof (kid_pos _ _ _ _ _ Hpos Hk) as [-> Hj]. by rewrite (proj2 (Z.leb_gt _ _)) by lia.
  - apply lookup_ge_None in Hk. pose proof (kids_length _ _ _ Hpos). by rewrite (proj2 (Z.leb_le _ _)) by lia.
Qed.

Lemma union_find_ge fs tag i : i <= union_find fs tag i.
Proof. revert i. induction fs as [|f fs IH]; intros i; cbn; [lia|]. destruct (negb _); [|lia].
specialize (IH (i + 1)). lia. Qed.

Lemma le_val_bound bs : Forall (fun b => 0 <= b < 256) bs -> 0 <= le_val bs < 256 ^ Z.of_nat (length bs).
Proof.
  induction 1 as [|b bs Hb _ IH]; [done|]. cbn [le_val length]. rewrite Nat2Z.inj_succ, Z.pow_succ_r by lia.
  nia.
Qed.

Lemma node_tag_u64 t f0 fs c :
  type_ok t -> xct_child t = f0 :: fs -> n_type c = xf_type f0 -> xct_aggr (xf_type f0) = M0_XA_ATOM ->
  wf_node c ->
  is_u64 (node_tag f0 c).
Proof.
  intros Ht Hc Hty Hat Hwf. pose proof (to_tags _ Ht) as Htags. rewrite Hc in Htags.
  apply Forall_cons in Htags as [Htag _].
  destruct c as [ct cbs ckids]. cbn in Hty. subst ct. inversion Hwf as [? ? ? Hct Hsh _ _]; subst.
  unfold shape in Hsh. rewrite Hat in Hsh. destruct Hsh as (-> & Hlen & Hsz & Hby).
  unfold node_tag. cbn [n_bytes]. pose proof (le_val_bound cbs Hby) as Hb. rewrite Hlen, Hsz in Hb.
  unfold is_u64 in *.
  assert (256 ^ atom_size (xct_atype (xf_type f0)) <= 2 ^ 64) by (by destruct (xct_atype (xf_type f0))).
  destruct (xct_atype (xf_type f0)); try done; lia.
Qed.

Lemma next_pos_ok (R : mem -> Prop) m t p bs kids i k : R m ->
  wf_node (XNode t bs kids) -> kids !! i = Some k ->
  (forall c, kids !! 0%nat = Some (0, 0, c) -> xct_aggr t = M0_XA_UNION \/ xct_aggr t = M0_XA_SEQUENCE ->
    kid_rep R t p (0, 0, c)) ->
  exists pos, next_pos m (frame_at t p k.1 M0_XCODE_CURSOR_IN) = Some pos /\ next_ok t kids (S i) pos.
Proof.
  intros HR Hwf Hk Hrep. inversion Hwf as [? ? ? Ht Hsh Hty Hkids]; subst. unfold shape in Hsh.
  unfold next_pos. cbn [frame_at s_obj xo_type].
  destruct (xct_aggr t) eqn:Ha; cbn [s_fieldno s_elno frame_at].
  - destruct Hsh as [-> Hpos]. by eapply record_next.
  - destruct Hsh as (-> & f0 & fs & c & Hc & Hsh).
    assert (exists ks, kids = (0, 0, c) :: ks) as [ks Hks]
      by (destruct Hsh as [[-> _]|(b & -> & _)]; by eexists).
    assert (m0_xcode_tag m {| xo_type := t; xo_ptr := p |} = Some (node_tag f0 c)) as Htag.
    { rewrite Hks in *. apply Forall_cons in Hty as [(f & Hf & Hty) _]. apply Forall_cons in Hkids as [Hkc _].
      cbn [fst snd] in *. rewrite Hc in Hf. cbn in Hf. injection Hf as <-. eapply tag_ok; eauto. }
    pose proof (union_find_ge fs (node_tag f0 c) 1) as Hj. destruct i as [|i].
    + rewrite Hks in Hk. cbn in Hk. injection Hk as <-. cbn [fst snd negb Z.eqb]. rewrite Htag, Hc.
      cbn [mbind option_bind tail].
      eexists. split; [done|]. unfold next_ok.
      destruct Hsh as [[-> Hn]|(b & -> & Hn)]; cbn in *; [rewrite <- Hn; lia|done].
    + destruct Hsh as [[-> Hn]|(b & -> & Hn)]; [done|]. destruct i as [|i]; [|done]. cbn in Hk.
      injection Hk as <-.
      cbn [fst snd]. rewrite (proj2 (Z.eqb_neq _ 0)) by lia. cbn [negb]. eexists. split; [done|].
      unfold next_ok. cbn. lia.
  - destruct Hsh as (-> & f0 & f1 & c & es & Hc & -> & Hpos & _ & Hn & _).
    apply Forall_cons in Hty as [(f & Hf & Hty) _]. apply Forall_cons in Hkids as [Hkc _].
    cbn [fst snd] in *. rewrite Hc in Hf. cbn in Hf. injection Hf as <-.
    assert (m0_xcode_tag m {| xo_type := t; xo_ptr := p |} = Some (node_tag f0 c)) as Htag
      by (eapply tag_ok; eauto).
    rewrite Htag. assert (xct_nr t = 2) as Hnr by (unfold xct_nr; by rewrite Hc).
    destruct i as [|i]; cbn in Hk.
    + injection Hk as <-. cbn [fst snd]. eexists. split; [done|]. unfold next_ok. cbn [lookup list_lookup].
      change (lookup 0%nat es) with (es !! 0%nat). apply (seq_check es 0 _ _ 1); [done|lia|lia].
    + pose proof (kid_pos _ _ _ _ _ Hpos Hk) as [-> Hi]. cbn [fst snd].
      assert (xct_aggr (xf_type f0) = M0_XA_ATOM) as Hat by (eapply type_ok_tag_atom; eauto; by rewrite Hc).
      assert (is_u64 (node_tag f0 c)) as Hu by (eapply node_tag_u64; eauto). unfold is_u64 in Hu.
      rewrite u64_small by (unfold is_u64; lia). eexists. split; [done|]. unfold next_ok.
      cbn [lookup list_lookup].
      change (lookup (S i) es) with (es !! S i). replace (Z.of_nat i + 1) with (Z.of_nat (S i)) by lia.
      apply (seq_check es (S i) _ _ 1); [done|lia|lia].
  - destruct Hsh as (-> & f & Hc & Hn & Hpos & _). rewrite (array_tag _ _ _ f Ha Hc).
    pose proof (kid_pos _ _ _ _ _ Hpos Hk) as [-> Hi]. cbn [fst snd].
    assert (is_u64 (xf_tag f)) as Hu. { pose proof (to_tags _ Ht) as H. rewrite Hc in H. by apply Forall_cons
      in H as [? _]. }
    unfold is_u64 in Hu. assert (xct_nr t = 1) as Hnr by (unfold xct_nr; by rewrite Hc).
    rewrite u64_small by (unfold is_u64; lia). eexists. split; [done|]. unfold next_ok.
    replace (Z.of_nat i + 1) with (Z.of_nat (S i)) by lia. apply (seq_check kids (S i) _ _ 0); [done|lia|lia].
  - destruct Hsh as [-> Hpos]. by eapply record_next.
  - done.
  - destruct Hsh as [-> _]. done.
Qed.

(** ** Lemmas: the walk of an aggregate *)

Section walk.
Context (ex : bool) (op : xcode_op).

Definition wst (io : xio) (stk ab : list m0_xcode_cursor_frame) (len : Z) : xwalk :=
  {| w_io := io; w_it := {| xcu_stack := stk; xcu_above := ab |}; w_length := len |}.

(** The walk from the loop body on. *)
Definition after (n : nat) (w : xwalk) : option (Z * xwalk) :=
  '(r, w) ← walk_body op w; if 0 <? r then walk_loop ex n op w else Some (r, w).

Definition resume (n : nat) (w : xwalk) (x : Z * m0_xcode_cursor) : option (Z * xwalk) :=
  let '(result, it) := x in
  let w := {| w_io := w_io w; w_it := it; w_length := w_length w |} in
  if 0 <? result then after n w else Some (result, w).

Lemma walk_loop_S n w : walk_loop ex (S n) op w = m0_xcode_next ex (xs_mem (w_io w)) (w_it w) ≫= resume n w.
Proof. cbn [walk_loop]. destruct (m0_xcode_next ex _ _) as [[r it]|]; [|done]. cbn. by destruct (0 <? r). Qed.

Lemma top_ok fr stk ab : (length stk < 10)%nat ->
  m0_xcode_cursor_top {| xcu_stack := fr :: stk; xcu_above := ab |} = Some fr.
Proof.
  intros H. unfold m0_xcode_cursor_top, xcu_depth. cbn [xcu_stack length].
  by rewrite (proj2 (Z.ltb_lt _ _)) by lia.
Qed.

(** A frame that is not visited. *)
Lemma after_other n io fr stk ab len :
  (length stk < 10)%nat -> s_flag fr <> M0_XCODE_CURSOR_PRE ->
  after n (wst io (fr :: stk) ab len) = walk_loop ex n op (wst io (fr :: stk) ab len).
Proof.
  intros Hd Hf. unfold after, walk_body. cbn [wst w_it]. rewrite top_ok by done. cbn [mbind option_bind].
  by rewrite bool_decide_false.
Qed.

Lemma check_ok t : type_ok t -> (if ex then b ← m0_xcode_type_invariant t; M0_ASSERT b else Some tt) = Some
  tt.
Proof. intros Ht. rewrite (to_inv _ Ht). by destruct ex. Qed.

(** Leaving a sub-object. *)
Lemma loop_pop n io fr fr' stk ab len :
  (S (length stk) < 10)%nat -> type_ok (xo_type (s_obj fr)) -> s_flag fr = M0_XCODE_CURSOR_POST ->
  s_flag fr' = M0_XCODE_CURSOR_IN ->
  walk_loop ex (S n) op (wst io (fr :: fr' :: stk) ab len) = walk_loop ex n op
    (wst io (fr' :: stk) (fr :: ab) len).
Proof.
  intros Hd Ht Hf Hf'. rewrite walk_loop_S. unfold m0_xcode_next. cbn [wst w_io w_it].
  rewrite top_ok by (cbn; lia). cbn [mbind option_bind]. rewrite check_ok by done. cbn [mbind option_bind].
  rewrite Hf.
  unfold cursor_pop, xcu_depth. cbn [xcu_stack xcu_above tail take app length].
  rewrite (proj2 (Z.ltb_ge _ 0)) by lia. rewrite top_ok by (cbn; lia). cbn [mbind option_bind]. rewrite Hf'.
  cbn [negb bool_decide M0_ASSERT mbind option_bind].
  rewrite bool_decide_false by done. cbn [negb M0_ASSERT mbind option_bind resume Z.ltb Z.compare w_io
    w_length].
  unfold set_top, set_flag. cbn [xcu_stack xcu_above tail].
  replace {| s_obj := s_obj fr'; s_fieldno := s_fieldno fr'; s_elno := s_elno fr';
    s_flag := M0_XCODE_CURSOR_IN |} with fr'
    by (destruct fr'; cbn in *; by subst).
  fold (wst io (fr' :: stk) (fr :: ab) len). apply after_other; [lia|]. by rewrite Hf'.
Qed.

Context (t : m0_xcode_type) (p : Z) (bs : list Z) (kids : list (Z * Z * xnode)) (stk :
  list m0_xcode_cursor_frame).
Context (I : nat -> xio -> Z -> Prop).
Hypothesis Hwf : wf_node (XNode t bs kids).
Hypothesis Hagg : xct_aggr t <> M0_XA_ATOM.
Hypothesis Hdepth : (length stk + height (XNode t bs kids) <= 10)%nat.

(** What the visit of a sub-object does; the second case is the byte array, whose
    first element stands for all. *)
Definition kid_visited (i : nat) (k : Z * Z * xnode) (io : xio) (ab : list m0_xcode_cursor_frame) (len : Z) :
  Prop :=
  exists a, m0_xcode_addr (xs_mem io) {| xo_type := t; xo_ptr := p |} k.1.1 k.1.2 = Some a /\
  exists j io' len' ab' st', (forall n,
    after (j + n) (wst io (frame_at (n_type k.2) a (0, 0) M0_XCODE_CURSOR_PRE ::
      frame_at t p k.1 M0_XCODE_CURSOR_IN :: stk) ab len) =
    walk_loop ex n op (wst io' st' ab' len')) /\
  ((exists fr, st' = fr :: frame_at t p k.1 M0_XCODE_CURSOR_IN :: stk /\ s_flag fr = M0_XCODE_CURSOR_POST /\
      xo_type (s_obj fr) = n_type k.2 /\ I (S i) io' len') \/
   (st' = frame_at t p k.1 M0_XCODE_CURSOR_POST :: stk /\ I (length kids) io' len')).

(** The sub-object is entered. *)
Lemma push_kid n io len ab k flag f a :
  (S (S (length stk)) <= 10)%nat -> arr_get (xct_child t) k.1.1 = Some f -> n_type k.2 = xf_type f ->
  type_ok (n_type k.2) ->
  m0_xcode_addr (xs_mem io) {| xo_type := t; xo_ptr := p |} k.1.1 k.1.2 = Some a ->
  next_pre (xs_mem io) {| xcu_stack := frame_at t p k.1 flag :: stk;
    xcu_above := ab |} (frame_at t p k.1 flag) ≫=
    resume n (wst io (frame_at t p k.1 flag :: stk) ab len) =
  after n (wst io (frame_at (n_type k.2) a (0, 0) M0_XCODE_CURSOR_PRE ::
    frame_at t p k.1 M0_XCODE_CURSOR_IN :: stk) (tail ab) len).
Proof.
  intros Hd Hf Hft Hkt Ha. unfold next_pre. cbn [frame_at s_obj xo_type s_fieldno s_elno set_flag].
  assert (0 <= k.1.1 < xct_nr t) as Hlt.
  { apply arr_get_Some in Hf as [? Hf]. apply lookup_lt_Some in Hf. unfold xct_nr. lia. }
  rewrite (proj2 (Z.ltb_lt _ _)) by lia. rewrite bool_decide_false by done. cbn [negb].
  unfold xcu_depth, set_top. cbn [xcu_stack xcu_above tail length].
  rewrite (proj2 (Z.ltb_lt _ _)) by lia. cbn [M0_ASSERT mbind option_bind].
  unfold m0_xcode_subobj. cbn [xo_type xo_ptr]. rewrite Hf. cbn [mbind option_bind]. rewrite Ha.
  cbn [mbind option_bind].
  rewrite <- Hft, (to_opaque _ Hkt). done.
Qed.

(** The next sub-object of a frame. *)
Lemma in_next n io len ab k pos :
  (length stk < 10)%nat -> type_ok t ->
  next_pos (xs_mem io) (frame_at t p k M0_XCODE_CURSOR_IN) = Some pos ->
  walk_loop ex (S n) op (wst io (frame_at t p k M0_XCODE_CURSOR_IN :: stk) ab len) =
  next_pre (xs_mem io) {| xcu_stack := frame_at t p pos M0_XCODE_CURSOR_IN :: stk;
    xcu_above := ab |} (frame_at t p pos M0_XCODE_CURSOR_IN) ≫=
    resume n (wst io (frame_at t p pos M0_XCODE_CURSOR_IN :: stk) ab len).
Proof.
  intros Hd Ht Hnp. rewrite walk_loop_S. unfold m0_xcode_next. cbn [wst w_io w_it]. rewrite top_ok by done.
  cbn [mbind option_bind]. change (xo_type (s_obj (frame_at t p k M0_XCODE_CURSOR_IN))) with t.
  change (s_flag (frame_at t p k M0_XCODE_CURSOR_IN)) with M0_XCODE_CURSOR_IN.
  rewrite check_ok by done. cbn [mbind option_bind]. rewrite Hnp. cbn [mbind option_bind].
  destruct pos as [f e]. done.
Qed.

Hypothesis Hkid : forall i k io len ab, kids !! i = Some k -> I i io len -> kid_visited i k io ab len.
Hypothesis Htag : forall i io len c, I (S i) io len -> kids !! 0%nat = Some (0, 0, c) ->
  xct_aggr t = M0_XA_UNION \/ xct_aggr t = M0_XA_SEQUENCE -> kid_rep (eq (xs_mem io)) t p (0, 0, c).

Lemma kids_walk j i io len ab pos flag :
  (length kids - i <= j)%nat -> (i <= length kids)%nat -> I i io len -> next_ok t kids i pos ->
  exists s io' len' pos' ab', (forall n,
    next_pre (xs_mem io) {| xcu_stack := frame_at t p pos flag :: stk;
      xcu_above := ab |} (frame_at t p pos flag) ≫=
      resume (s + n) (wst io (frame_at t p pos flag :: stk) ab len) =
    walk_loop ex n op (wst io' (frame_at t p pos' M0_XCODE_CURSOR_POST :: stk) ab' len')) /\
    I (length kids) io' len'.
Proof.
  inversion Hwf as [? ? ? Ht Hsh Hty Hkids]; subst.
  assert (length stk < 10)%nat as Hd by (cbn in Hdepth; lia).
  revert i io len ab pos flag. induction j as [|j IH]; intros i io len ab pos flag Hj Hi HI Hpos.
  all: unfold next_ok in Hpos; destruct (kids !! i) as [k|] eqn:Hk.
  1: (apply lookup_lt_Some in Hk; lia).
  2:{ subst pos. destruct (Hkid i k io len (tail ab) Hk HI)
        as (a & Ha & s1 & io1 & len1 & ab1 & st1 & Hrun & Hcase).
      assert (k ∈ kids) as Hin by (by eapply list_elem_of_lookup_2).
      pose proof (height_kid t bs kids k Hin) as Hh.
      assert (1 <= height k.2)%nat as Hk1 by (destruct k as [? []]; cbn; lia).
      rewrite (Forall_forall (kid_typed t)) in Hty. destruct (Hty k Hin) as (f & Hf & Hft).
      assert (type_ok (n_type k.2)) as Hkt.
      { rewrite Forall_forall in Hkids. specialize (Hkids k Hin). by destruct Hkids. }
      assert (forall n, next_pre (xs_mem io) {| xcu_stack := frame_at t p k.1 flag :: stk;
        xcu_above := ab |} (frame_at t p k.1 flag) ≫=
        resume (s1 + n) (wst io (frame_at t p k.1 flag :: stk) ab len) = walk_loop ex n op
          (wst io1 st1 ab1 len1)) as Hpush.
      { intros n. rewrite <- Hrun. apply push_kid with (f := f); try done; lia. }
      destruct Hcase as [(fr & -> & Hfl & Hfrt & HI1)|[-> HI1]].
      - destruct (next_pos_ok _ (xs_mem io1) t p bs kids i k eq_refl Hwf Hk) as (pos1 & Hnp & Hok1).
        { intros c Hc Hu. by eapply Htag. }
        destruct (IH (S i) io1 len1 (fr :: ab1) pos1 M0_XCODE_CURSOR_IN)
          as (s2 & io2 & len2 & pos2 & ab2 & Hrun2 & HI2);
          [lia|apply lookup_lt_Some in Hk; lia|done|done|].
        exists (s1 + (1 + (1 + s2)))%nat, io2, len2, pos2, ab2. split; [|done]. intros n.
        replace (s1 + (1 + (1 + s2)) + n)%nat with (s1 + S (S (s2 + n)))%nat by lia. rewrite Hpush.
        rewrite loop_pop; [|lia|by rewrite Hfrt|done|done]. rewrite <- Hrun2. by apply in_next.
      - exists s1, io1, len1, k.1, ab1. split; [|done]. intros n. apply Hpush. }
  all: exists 0%nat, io, len, pos, ab; apply lookup_ge_None in Hk; replace (length kids) with i by lia;
    split; [|done].
  all: intros n; unfold next_pre; cbn [frame_at s_obj xo_type s_fieldno]; rewrite (proj2 (Z.ltb_ge _ _))
    by done.
  all: cbn [mbind option_bind resume Z.ltb Z.compare set_top xcu_stack xcu_above tail wst w_io w_length];
    by apply after_other.
Qed.

(** The sub-objects start at the first field. *)
Lemma first_pos : next_ok t kids 0 (0, 0).
Proof.
  inversion Hwf as [? ? ? Ht Hsh Hty Hkids]; subst. unfold next_ok. unfold shape in Hsh.
  assert (forall g n, fst <$> kids = g <$> seqZ 0 n -> g 0 = (0, 0) -> n <= xct_nr t \/ 1 <= n ->
    match kids !! 0%nat with Some k => (0, 0) = k.1 | None => n <= 0 end) as Hnum.
  { intros g n E Hg Hn. destruct (kids !! 0%nat) as [k|] eqn:Hk.
    - destruct (kid_pos _ _ _ _ _ E Hk) as [-> _]. done.
    - apply lookup_ge_None in Hk. pose proof (kids_length _ _ _ E). lia. }
  destruct (xct_aggr t) eqn:Ha; try done.
  - destruct Hsh as [_ E]. by apply (Hnum _ _ E); [|left].
  - destruct Hsh as (_ & f0 & fs & c & _ & [[-> _]|(b & -> & _)]); done.
  - destruct Hsh as (_ & f0 & f1 & c & es & _ & -> & _). done.
  - destruct Hsh as (_ & f & Hc & Hn & E & _). specialize (Hnum _ _ E eq_refl ltac:(by right)).
    destruct (kids !! 0%nat); [done|]. lia.
  - destruct Hsh as [_ E]. by apply (Hnum _ _ E); [|left].
Qed.

Lemma aggr_walk io len ab :
  I 0 io len -> exists s io' len' pos' ab', (forall n,
    walk_loop ex (s + n) op (wst io (frame_at t p (0, 0) M0_XCODE_CURSOR_PRE :: stk) ab len) =
    walk_loop ex n op (wst io' (frame_at t p pos' M0_XCODE_CURSOR_POST :: stk) ab' len')) /\
    I (length kids) io' len'.
Proof.
  intros HI. inversion Hwf as [? ? ? Ht Hsh Hty Hkids]; subst.
  destruct (kids_walk (length kids) 0 io len ab (0, 0) M0_XCODE_CURSOR_PRE)
    as (s & io' & len' & pos' & ab' & Hrun & HI');
    [lia|lia|done|apply first_pos|].
  exists (S s), io', len', pos', ab'. split; [|done]. intros n. rewrite <- Hrun. cbn [Nat.add].
  rewrite walk_loop_S.
  unfold m0_xcode_next. cbn [wst w_io w_it]. rewrite top_ok by (cbn in Hdepth; lia). cbn [mbind option_bind].
  change (xo_type (s_obj (frame_at t p (0, 0) M0_XCODE_CURSOR_PRE))) with t. by rewrite check_ok.
Qed.

End walk.

(** ** Lemmas: visits *)

Section visit.
Context (ex : bool).

(** What visit_obj() does without custom operations. *)
Lemma visit_aggr op io t p pos stk ab len :
  type_ok t -> xct_aggr t <> M0_XA_ATOM -> (length stk < 10)%nat ->
  visit_obj op (wst io (frame_at t p pos M0_XCODE_CURSOR_PRE :: stk) ab len) =
    Some (1, wst io (frame_at t p pos M0_XCODE_CURSOR_PRE :: stk) ab len).
Proof.
  intros Ht Ha Hd. unfold visit_obj. cbn [wst w_it]. rewrite top_ok by done. cbn [mbind option_bind].
  unfold custom_op. cbn [frame_at s_obj xo_type]. rewrite (to_ops _ Ht). cbn. by rewrite bool_decide_false.
Qed.

Lemma visit_atom op io t p pos stk ab len :
  type_ok t -> xct_aggr t = M0_XA_ATOM -> (length stk < 10)%nat ->
  visit_obj op (wst io (frame_at t p pos M0_XCODE_CURSOR_PRE :: stk) ab len) =
    '(r, w) ← atom_visit op (wst io (frame_at t p pos M0_XCODE_CURSOR_PRE :: stk) ab len) t p;
    Some (if r <? 0 then r else 1, w).
Proof.
  intros Ht Ha Hd. unfold visit_obj. cbn [wst w_it]. rewrite top_ok by done. cbn [mbind option_bind].
  unfold custom_op. cbn [frame_at s_obj xo_type xo_ptr]. rewrite (to_ops _ Ht), Ha. done.
Qed.

(** Without an allocation. *)
Lemma after_visit op n io t p pos stk ab len :
  op <> XO_DEC -> (length stk < 10)%nat ->
  after ex op n (wst io (frame_at t p pos M0_XCODE_CURSOR_PRE :: stk) ab len) =
    '(r, w) ← visit_obj op (wst io (frame_at t p pos M0_XCODE_CURSOR_PRE :: stk) ab len);
    if 0 <? r then walk_loop ex n op w else Some (r, w).
Proof.
  intros Hop Hd. unfold after, walk_body. cbn [wst w_it]. rewrite top_ok by done. cbn [mbind option_bind].
  rewrite bool_decide_true by done. rewrite (bool_decide_false (op = XO_DEC)) by done. done.
Qed.

(** An atom has no sub-objects. *)
Lemma atom_post op n io t p stk ab len :
  type_ok t -> xct_aggr t = M0_XA_ATOM -> xct_child t = [] -> (length stk < 10)%nat ->
  walk_loop ex (S n) op (wst io (frame_at t p (0, 0) M0_XCODE_CURSOR_PRE :: stk) ab len) =
  walk_loop ex n op (wst io (frame_at t p (0, 0) M0_XCODE_CURSOR_POST :: stk) ab len).
Proof.
  intros Ht Ha Hc Hd. rewrite walk_loop_S. unfold m0_xcode_next. cbn [wst w_io w_it]. rewrite top_ok by done.
  cbn [mbind option_bind]. change (xo_type (s_obj (frame_at t p (0, 0) M0_XCODE_CURSOR_PRE))) with t.
  rewrite check_ok by done. change (s_flag (frame_at t p (0, 0) M0_XCODE_CURSOR_PRE))
    with M0_XCODE_CURSOR_PRE.
  cbn [mbind option_bind]. unfold next_pre. change
    (xo_type (s_obj (frame_at t p (0, 0) M0_XCODE_CURSOR_PRE))) with t.
  assert (xct_nr t = 0) as -> by (unfold xct_nr; by rewrite Hc).
  cbn [frame_at s_fieldno fst Z.ltb Z.compare mbind option_bind resume].
  by apply after_other.
Qed.

Lemma atom_childless t : type_ok t -> xct_aggr t = M0_XA_ATOM -> xct_child t = [].
Proof.
  intros [Hinv _ _ _ _ _ _] Ha. unfold m0_xcode_type_invariant in Hinv.
  do 3 apply and_then_Some in Hinv as [Hinv _]. apply and_then_Some in Hinv as [_ Hinv].
  rewrite Ha in Hinv. cbn in Hinv. injection Hinv as H%Z.leb_le. unfold xct_nr in H.
  destruct (xct_child t); [done|cbn in H; lia].
Qed.

End visit.
