(* ===== verification/XcodeEnc.v ===== *)
(** * xcode: encoding and measuring

    Encoding writes the bytes of the tree an object represents, and its length is
    their number. *)
From S2P Require Import Prelude Vec Xcode XcodeObj.
#[local] Open Scope motr_scope.

(** ** Lemmas: what encoding and measuring emit *)

(** The memories that may arise while the object is read. *)
Definition reach (op : xcode_op) (io : xio) (m : mem) : Prop :=
  match op with
  | XO_ENC => forall a, a ∉ cur_addrs (xcx_buf io) -> m a = xs_mem io a
  | _ => m = xs_mem io
  end.

(** There is room for [k] bytes. *)
Definition can_emit (op : xcode_op) (io : xio) (len k : Z) : Prop :=
  match op with
  | XO_ENC => cur_wf (xcx_buf io) /\ NoDup (cur_addrs (xcx_buf io)) /\
  k <= Z.of_nat (length (cur_addrs (xcx_buf io)))
  | _ => 0 <= len /\ len + k < 2 ^ 31
  end.

Definition emitted (op : xcode_op) (io : xio) (len : Z) (bs : list Z) (io' : xio) (len' : Z) : Prop :=
  xs_heap io' = xs_heap io /\
  match op with
  | XO_ENC => len' = len /\ cur_wf (xcx_buf io') /\ bc_bv (xcx_buf io') = bc_bv (xcx_buf io) /\
      cur_addrs (xcx_buf io') = drop (length bs) (cur_addrs (xcx_buf io)) /\
      xs_mem io' <$> take (length bs) (cur_addrs (xcx_buf io)) = bs /\
      (forall a, a ∉ take (length bs) (cur_addrs (xcx_buf io)) -> xs_mem io' a = xs_mem io a)
  | _ => io' = io /\ len' = len + Z.of_nat (length bs)
  end.

Lemma reach_self op io : reach op io (xs_mem io).
Proof. by destruct op. Qed.

Lemma emitted_nil op io len k : can_emit op io len k -> emitted op io len [] io len.
Proof. unfold can_emit, emitted. destruct op; cbn; intros [? ?]; split_and!; try done; lia. Qed.

Lemma in_take_drop (l : list Z) n a : a ∈ drop n l -> a ∈ l.
Proof. intros H. rewrite <- (take_drop n l). apply elem_of_app. by right. Qed.

Lemma in_take (l : list Z) n a : a ∈ take n l -> a ∈ l.
Proof. intros H. rewrite <- (take_drop n l). apply elem_of_app. by left. Qed.

Lemma emitted_reach op io len bs io' len' m : emitted op io len bs io' len' -> reach op io' m ->
  reach op io m.
Proof.
  unfold emitted, reach. destruct op.
  - intros (_ & _ & _ & _ & Ha & _ & Hf) Hr a Hin. rewrite Hr, Hf; [done|by intros ?%in_take|].
    rewrite Ha. by intros ?%in_take_drop.
  - by intros (_ & -> & _).
  - by intros (_ & -> & _).
Qed.

Lemma emitted_can op io len bs io' len' k :
  can_emit op io len (Z.of_nat (length bs) + k) -> emitted op io len bs io' len' -> can_emit op io' len' k.
Proof.
  unfold emitted, can_emit. destruct op.
  - intros (Hwf & Hnd & Hk) (_ & _ & Hwf' & _ & Ha & _). split_and!; [done|..]; rewrite Ha.
    + rewrite <- (take_drop (length bs) (cur_addrs _)) in Hnd. by apply NoDup_app in Hnd as (_ & _ & ?).
    + rewrite length_drop. lia.
  - intros [? ?] (_ & -> & ->). lia.
  - intros [? ?] (_ & -> & ->). lia.
Qed.

Lemma can_emit_mono op io len k k' : can_emit op io len k -> k' <= k -> can_emit op io len k'.
Proof. unfold can_emit. destruct op; intros H Hk; split_and!; try apply H; destruct H as (? & ?); lia. Qed.

Lemma emitted_app op io len bs1 io1 len1 bs2 io2 len2 :
  can_emit op io len (Z.of_nat (length (bs1 ++ bs2))) ->
  emitted op io len bs1 io1 len1 -> emitted op io1 len1 bs2 io2 len2 ->
  emitted op io len (bs1 ++ bs2) io2 len2.
Proof.
  unfold emitted, can_emit. destruct op.
  - intros (Hwf & Hnd & Hk) (H1 & -> & _ & B1 & A1 & M1 & F1) (H2 & -> & Hwf2 & B2 & A2 & M2 & F2).
    rewrite A1 in *. rewrite length_app in *. split_and!; try congruence.
    + by rewrite A2, drop_drop.
    + rewrite <- take_take_drop, fmap_app, M2. f_equal. rewrite <- M1 at 2. apply fmap_mem_ext. intros a Hin.
      apply F2.
      rewrite <- (take_drop (length bs1)) in Hnd. apply NoDup_app in Hnd as (_ & Hd & _). intros Hin'%in_take.
      by apply (Hd a).
    + intros a Hin. rewrite <- take_take_drop in Hin. rewrite F2, F1 by set_solver. done.
  - intros _ (? & -> & ->) (? & -> & ->). rewrite length_app. split_and!; try done. lia.
  - intros _ (? & -> & ->) (? & -> & ->). rewrite length_app. split_and!; try done. lia.
Qed.

(** The bytes of an object do not lie in the buffer. *)
Lemma reach_disjoint io p (bs : list Z) size :
  (forall m, reach XO_ENC io m -> m <$> seqZ p size = bs) -> forall a, a ∈ seqZ p size ->
  a ∉ cur_addrs (xcx_buf io).
Proof.
  intros H a Ha Hin. pose proof (H _ (reach_self _ _)) as H1.
  specialize (H (fun x => if decide (x = a) then xs_mem io a + 1 else xs_mem io x)). rewrite <- H1 in H.
  assert (forall l : list Z, a ∈ l -> (fun x => if decide (x = a) then xs_mem io a + 1 else xs_mem io x) <$>
    l <> xs_mem io <$> l) as Hl.
  { induction l as [|x l IH]; intros Hx; [by apply not_elem_of_nil in Hx|]. cbn. intros [= E1 E2].
    apply elem_of_cons in Hx as [->|Hx]; [rewrite decide_True in E1 by done; lia|]. by apply IH. }
  apply (Hl _ Ha), H. intros x Hx. rewrite decide_False; [done|]. by intros ->.
Qed.

(** The atom part of the loop body. *)
Lemma atom_emit op io len p (bs : list Z) size :
  op <> XO_DEC -> can_emit op io len size -> size = Z.of_nat (length bs) -> is_u64 size ->
  (forall m, reach op io m -> m <$> seqZ p size = bs) ->
  exists io' len', (if bool_decide (op = XO_LEN) then Some (1, io, i32 (len + size))
     else '(r, io) ← atom_copy op io p size; Some (r, io, len)) = Some (1, io', len') /\
     emitted op io len bs io' len'.
Proof.
  intros Hop Hcan Hsize Hu Hr. destruct op; [|done|].
  - cbn [bool_decide]. rewrite bool_decide_false by done. pose proof (reach_disjoint io p bs size Hr) as Hdis.
    destruct Hcan as (Hwf & Hnd & Hk). specialize (Hr _ (reach_self _ _)). unfold atom_copy.
    destruct (bufvec_init_ok (buf_vec p size)) as (area & -> & Hwa & _ & Haa); [by apply buf_vec_wf|done|].
    cbn [mbind option_bind].
    rewrite buf_vec_addrs in Haa. unfold is_u64 in Hu.
    destruct (cursor_copy_ok (xs_mem io) (xcx_buf io) area size)
      as (m' & d' & s' & Hc & Hwd & _ & Bd & _ & Ad & _ & [Hm Hf]); try done.
    { rewrite Haa. intros a H1 H2. by apply (Hdis a). }
    rewrite Haa, length_seqZ in *. rewrite Z2Nat.id in * by lia. rewrite (Z.min_r _ size) in * by lia.
    rewrite (Z.min_l size size) in * by lia.
    rewrite Hc. cbn [mbind option_bind]. rewrite Z.eqb_refl. cbn [negb]. eexists _, _. split; [done|].
    replace (Z.to_nat size) with (length bs) in * by lia.
    unfold emitted. cbn [with_buf xs_heap xs_mem xcx_buf]. split_and!; try done.
    rewrite Hm, take_ge, Hr; [done|]. rewrite length_seqZ. lia.
  - cbn [bool_decide]. destruct Hcan as [H1 H2]. unfold is_u64 in Hu. eexists _, _. split; [done|].
    split_and!; try done.
    rewrite i32_small; [lia|]. lia.
Qed.

(** ** Lemmas: byte arrays *)

(** Whether an atom stands for a whole array. *)
Definition array_of (m : mem) (it : m0_xcode_cursor) : option bool :=
  at_array m it &&? (prev ← xcu_stack it !! 1%nat; m0_xcode_is_byte_array (xo_type (s_obj prev))).

Lemma array_of_root m fr ab : array_of m {| xcu_stack := [fr]; xcu_above := ab |} = Some false.
Proof. done. Qed.

Lemma array_of_other m fr t p pos fl stk ab :
  ~ (xct_aggr t = M0_XA_SEQUENCE /\ pos = (1, 0)) ->
  array_of m {| xcu_stack := fr :: frame_at t p pos fl :: stk; xcu_above := ab |} = Some false.
Proof.
  intros Hn. unfold array_of, at_array, xcu_depth.
  cbn [xcu_stack length lookup list_lookup frame_at s_obj xo_type s_fieldno s_elno].
  rewrite (proj2 (Z.ltb_lt 0 _)) by lia. cbn [mbind option_bind]. destruct pos as [f e].
  cbn [frame_at s_obj xo_type s_fieldno s_elno fst snd].
  assert (bool_decide (xct_aggr t = M0_XA_SEQUENCE) && (f =? 1) && (e =? 0) = false) as ->; [|done].
  apply not_true_iff_false. intros [[H1%bool_decide_eq_true ->%Z.eqb_eq]%andb_prop ->%Z.eqb_eq]%andb_prop.
  by apply Hn.
Qed.

Lemma array_of_first m fr t p fl stk ab f0 f1 tag :
  xct_aggr t = M0_XA_SEQUENCE -> xct_child t = [f0; f1] ->
  m0_xcode_tag m {| xo_type := t; xo_ptr := p |} = Some tag ->
  array_of m {| xcu_stack := fr :: frame_at t p (1, 0) fl :: stk; xcu_above := ab |} =
    Some ((0 <? tag) && same_type (xf_type f1) M0_XT_U8).
Proof.
  intros Ha Hc Htag. unfold array_of, at_array, xcu_depth.
  cbn [xcu_stack length lookup list_lookup frame_at s_obj xo_type s_fieldno s_elno fst snd].
  rewrite (proj2 (Z.ltb_lt 0 _)) by lia. cbn [mbind option_bind].
  cbn [frame_at s_obj xo_type s_fieldno s_elno fst snd]. rewrite Ha.
  rewrite bool_decide_true by done. cbn [andb Z.eqb Pos.eqb mbind option_bind]. rewrite Htag.
  cbn [mbind option_bind].
  unfold m0_xcode_is_byte_array. rewrite Ha, Hc. cbn. by destruct (0 <? tag).
Qed.

Lemma elem_addr m t p f0 f1 e :
  xct_aggr t = M0_XA_SEQUENCE -> xct_child t = [f0; f1] -> e <> UINT64_MAX ->
  m0_xcode_addr m {| xo_type := t; xo_ptr := p |} 1 e =
    Some (load m (p + xf_offset f1) sizeof_ptr + u64 (e * xct_sizeof (xf_type f1))).
Proof.
  intros Ha Hc He. unfold m0_xcode_addr. cbn [xo_type xo_ptr]. rewrite Hc, Ha.
  cbn [arr_get Z.leb Z.compare mbind option_bind].
  change (arr_get [f0; f1] 1) with (Some f1). cbn [mbind option_bind]. rewrite bool_decide_true by done.
  by rewrite (proj2 (Z.eqb_neq e _)) by done.
Qed.

Lemma wires_cons k ks : wires (k :: ks) = wire k.2 ++ wires ks.
Proof. done. Qed.

Lemma wires_app ks1 ks2 : wires (ks1 ++ ks2) = wires ks1 ++ wires ks2.
Proof. unfold wires. by rewrite fmap_app, concat_app. Qed.

Lemma wires_le (kids : list (Z * Z * xnode)) i k :
  kids !! i = Some k -> (length (wires (take i kids)) + length (wire k.2) <= length (wires kids))%nat.
Proof.
  intros Hk. rewrite <- (take_drop i kids) at 2.
  rewrite wires_app, (drop_S _ _ _ Hk), wires_cons, !length_app. lia.
Qed.

(** The elements of a byte array lie one after another. *)
Lemma bytes_rep (R : mem -> Prop) (m : mem) q i (es : list (Z * Z * xnode)) :
  R m -> Forall (fun k => wf_node k.2 /\ n_type k.2 = M0_XT_U8) es ->
  (forall j k, es !! j = Some k -> rep R (q + i + Z.of_nat j) k.2) ->
  m <$> seqZ (q + i) (Z.of_nat (length es)) = wires es.
Proof.
  intros HR. revert i. induction es as [|k es IH]; intros i Hwf Hrep; [done|].
  apply Forall_cons in Hwf as [[Hk Hty] Hwf].
  cbn [length]. rewrite seqZ_cons by lia. cbn [fmap list_fmap]. rewrite wires_cons.
  pose proof (Hrep 0%nat k eq_refl) as Hr. destruct k as [pos [t bs kids]]. cbn [snd n_type] in *. subst t.
  inversion Hk as [? ? ? _ Hsh _ _]; subst. destruct Hsh as (-> & Hl & _). apply rep_eq in Hr as [Hr _].
  specialize (Hr eq_refl m HR). rewrite wire_eq. cbn [wires concat fmap list_fmap]. rewrite app_nil_r, <- Hr.
  replace (q + i + Z.of_nat 0) with (q + i) by lia. change (xct_sizeof M0_XT_U8) with 1.
  rewrite (seqZ_cons (q + i) 1) by lia.
  change (Z.pred 1) with 0. cbn [fmap list_fmap app seqZ]. f_equal.
  replace (Z.succ (q + i)) with (q + (i + 1)) by lia.
  replace (Z.pred (Z.of_nat (S (length es)))) with (Z.of_nat (length es)) by lia. apply IH; [done|].
  intros j k' Hj. specialize (Hrep (S j) k' Hj).
  by replace (q + (i + 1) + Z.of_nat j) with (q + i + Z.of_nat (S j)) by lia.
Qed.

(** ** Lemmas: encoding and measuring *)

Section emit.
Context (ex : bool) (op : xcode_op).
Hypothesis Hop : op <> XO_DEC.

(** The visit of an atom of [size] bytes, possibly that of a whole array. *)
Lemma atom_visit_emit io t p bs fr stk ab len array size it' :
  array_of (xs_mem io) {| xcu_stack := fr :: stk; xcu_above := ab |} = Some array ->
  (if array then prev ← (fr :: stk) !! 1%nat; tag ← m0_xcode_tag (xs_mem io) (s_obj prev);
    Some (u64 (xct_sizeof t * tag))
   else Some (xct_sizeof t)) = Some size ->
  (if array then m0_xcode_skip (cursor_pop {| xcu_stack := fr :: stk; xcu_above := ab |})
   else Some {| xcu_stack := fr :: stk; xcu_above := ab |}) = Some it' ->
  can_emit op io len size -> size = Z.of_nat (length bs) -> is_u64 size ->
  (forall m, reach op io m -> m <$> seqZ p size = bs) ->
  exists io' len', atom_visit op (wst io (fr :: stk) ab len) t p =
    Some (1, {| w_io := io'; w_it := it'; w_length := len' |}) /\ emitted op io len bs io' len'.
Proof.
  intros Harr Hsz Hit Hcan Hlen Hu Hr. destruct (atom_emit op io len p bs size Hop Hcan Hlen Hu Hr)
    as (io' & len' & He & Hem).
  exists io', len'. split; [|done]. unfold atom_visit. cbn [wst w_io w_it w_length xcu_stack].
  unfold array_of in Harr. cbn [xcu_stack] in Harr. rewrite Harr. cbn [mbind option_bind]. rewrite Hsz.
  cbn [mbind option_bind].
  rewrite He. cbn [mbind option_bind]. rewrite Hit. done.
Qed.

Lemma atom_ok n io p stk ab len :
  wf_node n -> xct_aggr (n_type n) = M0_XA_ATOM -> (length stk < 10)%nat ->
  can_emit op io len (Z.of_nat (length (wire n))) ->
  rep (reach op io) p n -> (forall fr ab',
    array_of (xs_mem io) {| xcu_stack := fr :: stk; xcu_above := ab' |} = Some false) ->
  exists io' len', (forall k, after ex op (S k) (wst io (frame_at (n_type n) p (0, 0) M0_XCODE_CURSOR_PRE ::
    stk) ab len) =
     walk_loop ex k op (wst io' (frame_at (n_type n) p (0, 0) M0_XCODE_CURSOR_POST :: stk) ab len')) /\
   emitted op io len (wire n) io' len'.
Proof.
  destruct n as [t bs kids]. intros Hwf Ha Hd Hcan Hrep Harr. cbn [n_type] in *.
  inversion Hwf as [? ? ? Ht Hsh _ _]; subst.
  unfold shape in Hsh. rewrite Ha in Hsh. destruct Hsh as (-> & Hlen & _). apply rep_eq in Hrep as [Hrep _].
  rewrite wire_eq in *. cbn [wires fmap list_fmap concat] in *. rewrite app_nil_r in *. rewrite Hlen in Hcan.
  destruct (atom_visit_emit io t p bs (frame_at t p (0, 0) M0_XCODE_CURSOR_PRE) stk ab len false
    (xct_sizeof t) _
    (Harr _ _) eq_refl eq_refl Hcan (eq_sym Hlen) (type_ok_u64 _ Ht) (Hrep Ha)) as (io' & len' & Hv & Hem).
  exists io', len'. split; [|done]. intros k. rewrite after_visit by done. rewrite visit_atom by done.
  rewrite Hv.
  cbn [mbind option_bind Z.ltb Z.compare]. apply atom_post; try done. by apply atom_childless.
Qed.

(** The bytes of a byte array. *)
Lemma byte_elems (R : mem -> Prop) m t p f0 f1 n (es : list (Z * Z * xnode)) :
  R m -> xct_aggr t = M0_XA_SEQUENCE -> xct_child t = [f0; f1] -> xf_type f1 = M0_XT_U8 ->
  fst <$> es = (fun e => (1, e)) <$> seqZ 0 n -> n < 2 ^ 64 -> is_Some (es !! 0%nat) ->
  Forall (fun k => wf_node k.2 /\ n_type k.2 = M0_XT_U8) es -> Forall (kid_rep R t p) es ->
  exists a, m0_xcode_addr m {| xo_type := t; xo_ptr := p |} 1 0 = Some a /\
    forall m, R m -> m <$> seqZ a n = wires es.
Proof.
  intros HR Ha Hc Hu8 Hpos Hn [k0 Hk0] Hes Hkr. pose proof (kids_length _ _ _ Hpos) as Hl.
  assert (forall j k, es !! j = Some k -> exists a, rep R a k.2 /\
    forall m, R m -> a = load m (p + xf_offset f1) sizeof_ptr + Z.of_nat j) as Helem.
  { intros j k Hj. pose proof (kid_pos _ _ _ _ _ Hpos Hj) as [Hkp Hlt]. rewrite Forall_forall in Hkr.
    destruct (Hkr k) as (a & Haddr & Hrep); [by eapply list_elem_of_lookup_2|]. exists a. split; [done|].
    intros m' Hm'.
    specialize (Haddr m' Hm'). rewrite Hkp in Haddr. cbn [fst snd] in Haddr.
    rewrite (elem_addr m' t p f0 f1) in Haddr; [|done|done|unfold UINT64_MAX; lia]. injection Haddr as <-.
    rewrite Hu8. cbn [xct_sizeof]. rewrite Z.mul_1_r, u64_small by (unfold is_u64; lia). done. }
  destruct (Helem 0%nat k0 Hk0) as (a & _ & Haeq). exists a. split.
  - rewrite (elem_addr m t p f0 f1); [|done..]. rewrite Z.mul_0_l. rewrite (Haeq m HR). done.
  - intros m' Hm'. pose proof (bytes_rep R m' a 0 es Hm' Hes) as Hb. rewrite Z.add_0_r in Hb.
    replace n with (Z.of_nat (length es)). 2:{ apply lookup_lt_Some in Hk0. lia. } apply Hb.
    intros j k Hj. destruct (Helem j k Hj) as (a' & Hrep & Ha'). rewrite (Ha' m' Hm') in Hrep.
    rewrite (Haeq m' Hm').
    by rewrite Z.add_0_r.
Qed.

(** The first element of a byte array. *)
Definition is_bytes (t : m0_xcode_type) (k : Z * Z * xnode) : Prop :=
  xct_aggr t = M0_XA_SEQUENCE /\ k.1 = (1, 0) /\ same_type (n_type k.2) M0_XT_U8 = true.

#[local] Instance is_bytes_dec t k : Decision (is_bytes t k).
Proof. unfold is_bytes. apply _. Defined.

(** Other atoms stand for themselves. *)
Lemma not_bytes_array t p bs kids stk i k io fr ab :
  wf_node (XNode t bs kids) -> kids !! i = Some k -> ~ is_bytes t k ->
  Forall (kid_rep (reach op io) t p) kids ->
  array_of (xs_mem io) {| xcu_stack := fr :: frame_at t p k.1 M0_XCODE_CURSOR_IN :: stk;
    xcu_above := ab |} = Some false.
Proof.
  intros Hwf Hk Hb Hkr. inversion Hwf as [? ? ? Ht Hsh Hty Hkids]; subst.
  destruct (decide (xct_aggr t = M0_XA_SEQUENCE /\ k.1 = (1, 0))) as [[Ha Hpos]|Hn];
    [|by apply array_of_other].
  unfold shape in Hsh. rewrite Ha in Hsh. destruct Hsh as (_ & f0 & f1 & c & es & Hc & -> & _).
  apply Forall_cons in Hkr as [Hcr _]. apply Forall_cons in Hkids as [Hcw _]. pose proof Hty as Hty'.
  apply Forall_cons in Hty as [(f & Hf & Hct) _]. cbn [fst snd] in *. rewrite Hc in Hf. injection Hf as <-.
  rewrite Hpos. rewrite (array_of_first _ _ t p _ _ _ f0 f1 (node_tag f0 c)); [|done|done|].
  2:{ eapply tag_ok; [apply reach_self|done|by right|done..]. }
  rewrite Forall_forall in Hty'. destruct (Hty' k ltac:(by eapply list_elem_of_lookup_2)) as (f & Hf & Hkt).
  rewrite Hpos, Hc in Hf. injection Hf as <-. rewrite <- Hkt.
  destruct (same_type (n_type k.2) M0_XT_U8) eqn:Hs; [|by rewrite andb_false_r]. destruct Hb. by split_and!.
Qed.

(** The whole array is emitted at once. *)
Lemma kid_bytes t p kids stk i k io ab len (I : nat -> xio -> Z -> Prop) :
  wf_node (XNode t [] kids) -> (S (length stk) < 10)%nat -> kids !! i = Some k -> is_bytes t k ->
  Forall (kid_rep (reach op io) t p) kids ->
  can_emit op io len (Z.of_nat (length (wires (drop i kids)))) ->
  (forall io' len', emitted op io len (wires (drop i kids)) io' len' -> I (length kids) io' len') ->
  kid_visited ex op t p kids stk I i k io ab len.
Proof.
  intros Hwf Hd Hk (Ha & Hpos & Hu8) Hkr Hcan HI. inversion Hwf as [? ? ? Ht Hsh Hty Hkids]; subst.
  unfold shape in Hsh. rewrite Ha in Hsh. destruct Hsh
    as (_ & f0 & f1 & c & es & Hc & -> & Hposs & Hsz & Hn & Hmul).
  assert (i = 1%nat) as ->.
  { destruct i as [|i]; cbn in Hk; [injection Hk as <-; done|]. pose proof (kid_pos _ _ _ _ _ Hposs Hk)
      as [E _].
    rewrite E in Hpos. injection Hpos as Hi. f_equal. lia. }
  cbn [lookup list_lookup] in Hk. change (es !! 0%nat = Some k) in Hk.
  change (drop 1 ((0, 0, c) :: es)) with es in *.
  apply Forall_cons in Hkr as [Hcr Hkr]. apply Forall_cons in Hkids as [Hcw Hkids].
  apply Forall_cons in Hty as [(f & Hf & Hct) Hty].
  cbn [fst snd] in *. rewrite Hc in Hf. injection Hf as <-.
  assert (m0_xcode_tag (xs_mem io) {| xo_type := t; xo_ptr := p |} = Some (node_tag f0 c)) as Htag
    by (eapply tag_ok; [apply reach_self|done|by right|done..]).
  pose proof (kids_length _ _ _ Hposs) as Hl. pose proof (kid_pos _ _ _ _ _ Hposs Hk) as [_ Hlt].
  assert (forall j k, es !! j = Some k -> n_type k.2 = xf_type f1 /\ k.1 = (1, Z.of_nat j)) as Helems.
  { intros j k' Hj. pose proof (kid_pos _ _ _ _ _ Hposs Hj) as [E _]. split; [|done]. rewrite Forall_forall
      in Hty.
    destruct (Hty k') as (f & Hf & Hk't); [by eapply list_elem_of_lookup_2|]. rewrite E, Hc in Hf.
    by injection Hf as <-. }
  assert (type_ok (n_type k.2) /\ n_type k.2 = M0_XT_U8) as [Hk8t Hk8].
  { rewrite Forall_forall in Hkids. specialize (Hkids k ltac:(by eapply list_elem_of_lookup_2)). destruct
      Hkids as [? ? ? Hkt _ _ _].
    split; [done|]. by apply (to_u8 _ Hkt). }
  rewrite Hk8 in Hk8t. destruct (Helems 0%nat k Hk) as [Hkt _]. rewrite Hkt in Hk8. rewrite Hk8 in Hmul.
  cbn in Hmul. rewrite Z.mul_1_r in Hmul.
  assert (exists a, m0_xcode_addr (xs_mem io) {| xo_type := t; xo_ptr := p |} 1 0 = Some a /\
    forall m, reach op io m -> m <$> seqZ a (node_tag f0 c) = wires es) as (a & Haddr & Hbytes).
  { eapply byte_elems; [apply reach_self|done..|by eexists| |done]. rewrite Forall_forall
      in Hkids |- *. intros k' Hk'. split; [by apply Hkids|].
    apply list_elem_of_lookup_1 in Hk' as [j Hj]. destruct (Helems j k' Hj) as [-> _]. done. }
  exists a. rewrite Hpos. split; [exact Haddr|]. unfold is_u64 in *.
  assert (Z.of_nat (length (wires es)) = node_tag f0 c) as Hwl.
  { rewrite <- (Hbytes _ (reach_self _ _)), length_fmap, length_seqZ. lia. }
  destruct (atom_visit_emit io M0_XT_U8 a (wires es) (frame_at M0_XT_U8 a (0, 0) M0_XCODE_CURSOR_PRE)
    (frame_at t p (1, 0) M0_XCODE_CURSOR_IN :: stk) ab len true (node_tag f0 c)
    {| xcu_stack := frame_at t p (1, 0) M0_XCODE_CURSOR_POST :: stk;
      xcu_above := frame_at M0_XT_U8 a (0, 0) M0_XCODE_CURSOR_PRE :: ab |})
    as (io' & len' & Hv & Hem); try done.
  - rewrite (array_of_first _ _ t p _ _ _ f0 f1 (node_tag f0 c)) by done. rewrite Hk8.
    by rewrite (proj2 (Z.ltb_lt _ _)) by lia.
  - cbn [lookup list_lookup mbind option_bind frame_at s_obj]. rewrite Htag. cbn [mbind option_bind]. f_equal.
    cbn [xct_sizeof].
    rewrite Z.mul_1_l. apply u64_small. unfold is_u64. lia.
  - unfold cursor_pop, m0_xcode_skip. cbn [xcu_stack tail take app xcu_above]. rewrite top_ok by lia. done.
  - by rewrite <- Hwl.
  - exists 0%nat, io', len', (frame_at M0_XT_U8 a (0, 0) M0_XCODE_CURSOR_PRE :: ab),
      (frame_at t p (1, 0) M0_XCODE_CURSOR_POST :: stk).
    split; [|right; split; [done|by apply HI]]. intros n. rewrite Hkt, Hk8.
    rewrite after_visit by (done || cbn; lia).
    rewrite visit_atom; [|done|done|cbn; lia]. by rewrite Hv.
Qed.

Lemma emit_ok n : wf_node n -> forall io p stk ab len,
  (length stk + height n <= 10)%nat -> can_emit op io len (Z.of_nat (length (wire n))) ->
  rep (reach op io) p n ->
  (xct_aggr (n_type n) = M0_XA_ATOM -> forall fr ab',
    array_of (xs_mem io) {| xcu_stack := fr :: stk; xcu_above := ab' |} = Some false) ->
  exists s io' len' pos' ab', (forall k,
    after ex op (s + k) (wst io (frame_at (n_type n) p (0, 0) M0_XCODE_CURSOR_PRE :: stk) ab len) =
     walk_loop ex k op (wst io' (frame_at (n_type n) p pos' M0_XCODE_CURSOR_POST :: stk) ab' len')) /\
   emitted op io len (wire n) io' len'.
Proof.
  induction n as [t bs kids IH] using xnode_rect'. intros Hwf io p stk ab len Hd Hcan Hrep Harr.
  inversion Hwf as [? ? ? Ht Hsh Hty Hkids]; subst. cbn [n_type] in *.
  assert (length stk < 10)%nat as Hd' by (cbn in Hd; lia).
  destruct (decide (xct_aggr t = M0_XA_ATOM)) as [Ha|Ha].
  { destruct (atom_ok (XNode t bs kids) io p stk ab len) as (io' & len' & Hrun & Hem); try done;
      [by apply Harr|].
    exists 1%nat, io', len', (0, 0), ab. done. }
  assert (bs = []) as -> by (unfold shape in Hsh; destruct (xct_aggr t); try done; by destruct Hsh as [-> _]).
  rewrite wire_eq in *. cbn [app] in *. pose proof Hrep as [_ Hkr]%rep_eq.
  destruct (aggr_walk ex op t p [] kids stk (fun i io1 len1 => emitted op io len (wires (take i kids)) io1
    len1) Hwf Ha Hd)
    with (io := io) (len := len) (ab := ab) as (s & io' & len' & pos' & ab' & Hrun & Hem).
  - intros i k io1 len1 ab1 Hk Hem. assert (k ∈ kids) as Hin by (by eapply list_elem_of_lookup_2).
    assert (Forall (kid_rep (reach op io1) t p) kids) as Hkr1.
    { eapply Forall_impl; [exact Hkr|]. intros k' Hk'. eapply kid_rep_mono; [|exact Hk']. intros m.
        by eapply emitted_reach. }
    pose proof (height_kid t [] kids k Hin) as Hh. pose proof (take_S_r _ _ _ Hk) as HS.
    destruct (decide (is_bytes t k)) as [Hb|Hb].
    + rewrite <- (take_drop i kids), wires_app in Hcan.
      eapply kid_bytes; try done; [destruct k as [? []]; cbn in *; lia| |].
      * eapply emitted_can; [|exact Hem]. by rewrite length_app, Nat2Z.inj_add in Hcan.
      * intros io2 len2 Hem2. cbn beta. rewrite take_ge by done. rewrite <- (take_drop i kids) at 1.
        rewrite wires_app.
        by eapply emitted_app.
    + rewrite Forall_forall in IH, Hkr1, Hkids. destruct (Hkr1 k Hin) as (a & Haddr & Hrk). exists a.
      split; [apply Haddr, reach_self|].
      destruct (IH k Hin (Hkids k Hin) io1 a (frame_at t p k.1 M0_XCODE_CURSOR_IN :: stk) ab1 len1)
        as (s & io2 & len2 & pos2 & ab2 & Hrun & Hem2); [cbn in *; lia| |done| |].
      * eapply emitted_can; [|exact Hem]. eapply can_emit_mono; [exact Hcan|].
        pose proof (wires_le kids i k Hk). lia.
      * intros _ fr ab'. eapply not_bytes_array; try done. by apply Forall_forall.
      * eexists s, io2, len2, ab2, _. split; [exact Hrun|]. left. eexists. split_and!; try done.
        rewrite HS, wires_app. eapply emitted_app; [|exact Hem|]. 
        -- eapply can_emit_mono; [exact Hcan|]. rewrite length_app. cbn. rewrite app_nil_r.
           pose proof (wires_le kids i k Hk). lia.
        -- cbn. rewrite app_nil_r. exact Hem2.
  - intros i io1 len1 c Hem Hc _. rewrite Forall_forall in Hkr.
    eapply kid_rep_mono; [|apply Hkr; by eapply list_elem_of_lookup_2].
    intros m <-. eapply emitted_reach; [done|]. apply reach_self.
  - by eapply emitted_nil.
  - rewrite take_ge in Hem by done. exists s, io', len', pos', ab'. split; [|done]. intros k.
    rewrite after_visit by done. rewrite visit_aggr by done. cbn. apply Hrun.
Qed.

End emit.
