(* ===== verification/XcodeDec.v ===== *)
(** * xcode: decoding

    Decoding builds, in the areas the allocator provides, an object that represents
    the tree whose encoding it reads. *)
From S2P Require Import Prelude Vec Xcode XcodeObj XcodeEnc.
#[local] Open Scope motr_scope.

(** ** Lemmas: layout of fields *)

(** What a field occupies of its parent. *)
Definition field_size (t : m0_xcode_type) (i : nat) (f : m0_xcode_field) : Z :=
  if bool_decide (xct_aggr t = M0_XA_SEQUENCE) && bool_decide (i = 1%nat) then sizeof_ptr else xct_sizeof
    (xf_type f).

Lemma field_invariant_fits t f i :
  field_invariant t f (Z.of_nat i) = Some true -> is_u32 (xf_offset f) -> 0 <= field_size t i f < 2 ^ 63 ->
  xf_offset f + field_size t i f <= xct_sizeof t.
Proof.
  unfold field_invariant. destruct (negb (bool_decide (is_Some (xf_name f)))); [done|].
  destruct (_ && negb _); [done|]. intros H Ho Hs.
  assert ((if is_pointer t (Z.of_nat i) then sizeof_ptr else xct_sizeof (xf_type f)) = field_size t i f) as E.
  { unfold is_pointer, field_size. destruct (bool_decide (xct_aggr t = M0_XA_SEQUENCE)); cbn [andb]; [|done].
    destruct (Z.eqb_spec (Z.of_nat i) 1); case_bool_decide; try done; lia. }
  rewrite E in H. unfold is_u32 in Ho. rewrite u64_small in H by (unfold is_u64; lia).
  destruct (Z.leb_spec (xf_offset f + field_size t i f) (xct_sizeof t)); [done|]. done.
Qed.

Lemma fields_invariant_all t fs i prev offset :
  fields_invariant t fs i prev offset = Some true -> forall j f, fs !! j = Some f ->
  field_invariant t f (i + Z.of_nat j) = Some true.
Proof.
  revert i prev offset. induction fs as [|g fs IH]; intros i prev offset H j f Hj; [done|].
  cbn [fields_invariant] in H.
  apply and_then_Some in H as [H1 H]. apply and_then_Some in H1 as [H1 _].
  apply and_then_Some in H1 as [H1 _].
  apply and_then_Some in H1 as [H1 _]. destruct j as [|j]; cbn in Hj;
    [injection Hj as ->; by rewrite Z.add_0_r|].
  replace (i + Z.of_nat (S j)) with (i + 1 + Z.of_nat j) by lia. destruct ((i =? 0) || _); by eapply IH.
Qed.

(** Outside of unions the fields follow one another. *)
Lemma fields_invariant_next t fs i prev offset :
  xct_aggr t <> M0_XA_UNION -> 0 <= i -> fields_invariant t fs i prev offset = Some true ->
  (forall j f, fs !! j = Some f -> xct_child t !! (Z.to_nat i + j)%nat = Some f) ->
  forall j f g, fs !! j = Some f -> fs !! S j = Some g ->
  u64 (xf_offset f + xct_sizeof (xf_type f)) <= xf_offset g.
Proof.
  intros Hu. revert i prev offset. induction fs as [|h fs IH]; intros i prev offset Hi H Hc j f g Hf Hg;
    [done|].
  cbn [fields_invariant] in H. rewrite bool_decide_false in H by done. cbn [andb negb] in H.
  rewrite orb_true_r in H.
  apply and_then_Some in H as [_ H]. destruct j as [|j].
  - cbn in Hf. injection Hf as ->. destruct fs as [|g' fs]; [done|]. cbn in Hg. injection Hg as ->.
    cbn [fields_invariant] in H.
    apply and_then_Some in H as [H _]. do 2 apply and_then_Some in H as [H _].
    apply and_then_Some in H as [_ H].
    rewrite (proj2 (Z.eqb_neq (i + 1) 0)) in H by lia.
    assert (arr_get (xct_child t) i = Some f) as E.
    { unfold arr_get. rewrite (proj2 (Z.leb_le 0 i)) by lia. rewrite <- (Nat.add_0_r (Z.to_nat i)).
        by apply Hc. }
    rewrite E in H. cbn in H. injection H as H%Z.leb_le. done.
  - cbn in Hf, Hg. eapply (IH (i + 1) i); [lia|exact H| |done|done]. intros j' f' Hj'.
    replace (Z.to_nat (i + 1) + j')%nat with (Z.to_nat i + S j')%nat by lia. by apply Hc.
Qed.

(** The branches of a union follow its discriminator. *)
Lemma fields_invariant_union t fs i prev offset :
  xct_aggr t = M0_XA_UNION -> 0 < i -> fields_invariant t fs i prev offset = Some true ->
  forall j g p, fs !! j = Some g -> arr_get (xct_child t) prev = Some p ->
  u64 (offset + xct_sizeof (xf_type p)) <= xf_offset g.
Proof.
  intros Hu. revert i prev offset. induction fs as [|h fs IH]; intros i prev offset Hi H j g p Hg Hp; [done|].
  cbn [fields_invariant] in H. rewrite bool_decide_true in H by done. cbn [andb negb] in H.
  rewrite (proj2 (Z.eqb_neq i 0)) in H by lia. cbn [orb] in H. apply and_then_Some in H as [H1 H].
  destruct j as [|j]; [|eapply (IH (i + 1)); [lia|exact H|exact Hg|exact Hp]].
  cbn in Hg. injection Hg as ->. do 2 apply and_then_Some in H1 as [H1 _].
  apply and_then_Some in H1 as [_ H1].
  rewrite Hp in H1. cbn in H1. injection H1 as H1%Z.leb_le. done.
Qed.

Lemma type_ok_fields t : type_ok t -> fields_invariant t (xct_child t) 0 0 0 = Some true.
Proof.
  intros [Hinv _ _ _ _ _ _]. unfold m0_xcode_type_invariant in Hinv.
  do 2 apply and_then_Some in Hinv as [Hinv _]. by apply and_then_Some in Hinv as [_ Hinv].
Qed.

(** ** What decoding allocates and writes *)

(** The array of a sequence of [nk - 1] elements is allocated at its first element. *)
Definition block_of (t : m0_xcode_type) (nk : nat) (k : Z * Z * xnode) : list Z :=
  if bool_decide (xct_aggr t = M0_XA_SEQUENCE) && bool_decide (k.1 = (1, 0))
  then [Z.of_nat (pred nk) * xct_sizeof (n_type k.2)] else [].

(** The sizes of the areas, in the order of their allocation. *)
Fixpoint sizes (n : xnode) : list Z :=
  let '(XNode t _ kids) := n in
  (fix go ks := match ks with [] => [] | k :: ks => block_of t (length kids) k ++ sizes k.2 ++ go ks end)
    kids.

Lemma sizes_eq t bs kids :
  sizes (XNode t bs kids) = concat ((fun k => block_of t (length kids) k ++ sizes k.2) <$> kids).
Proof.
  cbn. generalize (length kids) as nk. intros nk. induction kids as [|k ks IH]; [done|]. cbn.
  by rewrite <- app_assoc, IH.
Qed.

(** The addresses of areas. *)
Definition blocks (al sz : list Z) : list Z := concat (zip_with seqZ al sz).

Lemma blocks_app al1 al2 sz1 sz2 : length al1 = length sz1 ->
  blocks (al1 ++ al2) (sz1 ++ sz2) = blocks al1 sz1 ++ blocks al2 sz2.
Proof. intros H. unfold blocks. by rewrite zip_with_app, concat_app. Qed.

(** The addresses of the object decoded at [p], with the areas [al]. *)
Definition footprint (p : Z) (n : xnode) (al : list Z) :
  list Z := seqZ p (xct_sizeof (n_type n)) ++ blocks al (sizes n).

(** Decoding is about to start: the object is zeroed, the encoding is in the buffer,
    and the allocator has areas that are free. *)
Record dec_pre (io : xio) (p : Z) (n : xnode) (al rest : list Z) : Prop := {
  dp_wf : cur_wf (xcx_buf io);
  dp_src : xs_mem io <$> take (length (wire n)) (cur_addrs (xcx_buf io)) = wire n;
  dp_heap : xs_heap io = al ++ rest;
  dp_len : length al = length (sizes n);
  dp_pos : Forall (fun a => 0 < a < 2 ^ 64) al;
  dp_nodup : NoDup (footprint p n al);
  dp_dis a : a ∈ footprint p n al -> a ∉ cur_addrs (xcx_buf io);
  dp_zero a : a ∈ seqZ p (xct_sizeof (n_type n)) -> xs_mem io a = 0
}.

(** The memories that agree on some addresses. *)
Definition agree (W : list Z) (m m' : mem) : Prop := forall a, a ∈ W -> m' a = m a.

Record dec_post (io io' : xio) (p : Z) (n : xnode) (al rest : list Z) : Prop := {
  dq_wf : cur_wf (xcx_buf io');
  dq_bv : bc_bv (xcx_buf io') = bc_bv (xcx_buf io);
  dq_addrs : cur_addrs (xcx_buf io') = drop (length (wire n)) (cur_addrs (xcx_buf io));
  dq_heap : xs_heap io' = rest;
  dq_frame a : a ∉ footprint p n al -> xs_mem io' a = xs_mem io a;
  dq_rep : rep (agree (footprint p n al) (xs_mem io')) p n
}.

(** ** Lemmas: decoding a list of objects *)

Definition t_areas (todo : list (xnode * Z)) :
  list Z := concat ((fun x => seqZ x.2 (xct_sizeof (n_type x.1))) <$> todo).
Definition t_sizes (todo : list (xnode * Z)) : list Z := concat ((fun x => sizes x.1) <$> todo).
Definition t_wires (todo : list (xnode * Z)) : list Z := concat ((fun x => wire x.1) <$> todo).

(** The addresses that may still change. *)
Definition pending (todo : list (xnode * Z)) (al : list Z) :
  list Z := t_areas todo ++ blocks al (t_sizes todo).

Definition settled (W P : list Z) (m m' : mem) : Prop := forall a, a ∈ W -> a ∉ P -> m' a = m a.

(** The objects [todo] are still to be decoded; [D] is known of all memories that
    agree with the present one on the addresses of [W] that are settled. *)
Record decoding (W rest : list Z) (D : (mem -> Prop) -> Prop) (todo : list (xnode * Z)) (al : list Z) (io :
  xio) : Prop := {
  k_wf : cur_wf (xcx_buf io);
  k_src : xs_mem io <$> take (length (t_wires todo)) (cur_addrs (xcx_buf io)) = t_wires todo;
  k_heap : xs_heap io = al ++ rest;
  k_len : length al = length (t_sizes todo);
  k_pos : Forall (fun a => 0 < a < 2 ^ 64) al;
  k_nodup : NoDup (pending todo al);
  k_sub a : a ∈ pending todo al -> a ∈ W;
  k_dis a : a ∈ W -> a ∉ cur_addrs (xcx_buf io);
  k_zero a : a ∈ t_areas todo -> xs_mem io a = 0;
  k_done : D (settled W (pending todo al) (xs_mem io))
}.

(** What decoding did since [io0]. *)
Definition progress (W : list Z) (io0 io : xio) (k : nat) : Prop :=
  bc_bv (xcx_buf io) = bc_bv (xcx_buf io0) /\ cur_addrs (xcx_buf io) = drop k (cur_addrs (xcx_buf io0)) /\
  forall a, a ∉ W -> xs_mem io a = xs_mem io0 a.

Lemma decoding_step W rest (D : (mem -> Prop) -> Prop) n p todo al io :
  (forall R R' : mem -> Prop, (forall m, R' m -> R m) -> D R -> D R') ->
  decoding W rest D ((n, p) :: todo) al io ->
  exists al1 al2, dec_pre io p n al1 (al2 ++ rest) /\
    forall io', dec_post io io' p n al1 (al2 ++ rest) ->
      decoding W rest (fun R => D R /\ rep R p n) todo al2 io' /\ progress W io io' (length (wire n)).
Proof.
  intros HD [Hwf Hsrc Hheap Hlen Hpos Hnd Hsub Hdis Hz Hdone].
  assert (exists al1 al2, al = al1 ++ al2 /\ length al1 = length (sizes n) /\
    length al2 = length (t_sizes todo))
    as (al1 & al2 & -> & Hl1 & Hl2).
  { unfold t_sizes in Hlen. cbn in Hlen. fold (t_sizes todo) in Hlen. rewrite length_app in Hlen.
    exists (take (length (sizes n)) al), (drop (length (sizes n)) al).
    rewrite take_drop, length_take, length_drop. split_and!; [done|lia|lia]. }
  exists al1, al2. assert (pending ((n, p) :: todo) (al1 ++ al2) ≡ₚ footprint p n al1 ++ pending todo al2)
    as HP.
  { unfold pending, footprint, t_areas, t_sizes. cbn. fold (t_areas todo) (t_sizes todo). rewrite blocks_app
      by done. solve_Permutation. }
  rewrite HP in Hnd. apply NoDup_app in Hnd as (Hnd1 & Hnd12 & Hnd2).
  apply Forall_app in Hpos as [Hpos1 Hpos2].
  assert (forall a, a ∈ footprint p n al1 \/ a ∈ pending todo al2 -> a ∈ W) as Hsub'
    by (intros a Ha; apply Hsub; rewrite HP; by apply elem_of_app).
  assert (t_wires ((n, p) :: todo) = wire n ++ t_wires todo) as Ew by done. rewrite Ew, length_app in Hsrc.
  rewrite <- take_take_drop, fmap_app in Hsrc.
  apply app_inj_1 in Hsrc as [Hsrc1 Hsrc2].
  2:{ apply (f_equal length) in Hsrc. rewrite !length_app, !length_fmap, !length_take, length_drop
        in *. lia. }
  split.
  - split; try done; [by rewrite Hheap, app_assoc|intros a Ha; apply Hdis; auto|].
    intros a Ha. apply Hz. unfold t_areas. cbn. apply elem_of_app. by left.
  - intros io' [Qwf Qbv Qa Qh Qf Qr]. split; [|split_and!; try done; intros a Ha; apply Qf; naive_solver].
    split; try done.
    + rewrite Qa. etrans; [|exact Hsrc2]. apply fmap_mem_ext. intros a Ha. apply Qf. intros Hin.
      apply (Hdis a); [by apply Hsub'; left|].
      eapply in_take_drop, in_take. exact Ha.
    + intros a Ha. apply Hsub'. by right.
    + intros a Ha. rewrite Qa. intros Hin%in_take_drop. by apply (Hdis a).
    + intros a Ha. assert (a ∈ pending todo al2) as Hp by (unfold pending; apply elem_of_app; by left).
      rewrite Qf; [|intros Hin; by apply (Hnd12 a)]. apply Hz. unfold t_areas. cbn. apply elem_of_app.
      by right.
    + split.
      * eapply HD; [|exact Hdone]. intros m Hm a Ha Hn. rewrite HP in Hn.
        rewrite Hm, Qf; try done; set_solver.
      * eapply rep_mono; [|exact Qr]. intros m Hm a Ha. apply Hm; [by apply Hsub'; left|]. intros Hin.
        by apply (Hnd12 a).
Qed.

Lemma decoding_weaken W rest (D D' : (mem -> Prop) -> Prop) todo al io :
  (forall R, D R -> D' R) -> decoding W rest D todo al io -> decoding W rest D' todo al io.
Proof. intros H [? ? ? ? ? ? ? ? ? ?]. split; auto. Qed.

Lemma progress_trans W io0 io1 io2 k1 k2 : progress W io0 io1 k1 -> progress W io1 io2 k2 ->
  progress W io0 io2 (k1 + k2).
Proof.
  intros (B1 & A1 & F1) (B2 & A2 & F2). split_and!; [congruence|by rewrite A2, A1, drop_drop|].
  intros a Ha. by rewrite F2, F1.
Qed.

(** Areas in ascending order do not overlap. *)
Definition areas_of (l : list (Z * Z)) : list Z := concat ((fun x => seqZ x.1 x.2) <$> l).

Lemma areas_packed lo hi (l : list (Z * Z)) :
  (forall i x, l !! i = Some x -> lo <= x.1 /\ 0 <= x.2 /\ x.1 + x.2 <= hi) ->
  (forall i x y, l !! i = Some x -> l !! S i = Some y -> x.1 + x.2 <= y.1) ->
  NoDup (areas_of l) /\ forall a, a ∈ areas_of l -> lo <= a < hi.
Proof.
  revert lo. induction l as [|[b s] l IH]; intros lo H1 H2.
  { split; [constructor|]. intros a Ha. by apply not_elem_of_nil in Ha. }
  destruct (H1 0%nat (b, s) eq_refl) as (Hlo & Hs & Hhi). cbn [fst snd] in *.
  assert (forall i x, l !! i = Some x -> b + s <= x.1) as Hle.
  { induction i as [|i IHi]; intros x Hx; [by apply (H2 0%nat (b, s) x)|].
    destruct (lookup_lt_is_Some_2 l i) as [y Hy]; [apply lookup_lt_Some in Hx; lia|].
    specialize (IHi y Hy). specialize (H2 (S i) y x Hy Hx). destruct (H1 (S i) y Hy) as (_ & ? & _). lia. }
  destruct (IH (b + s)) as [Hnd Hin].
  { intros i x Hx. destruct (H1 (S i) x Hx) as (_ & ? & ?). split_and!; try done. by eapply Hle. }
  { intros i x y Hx Hy. by apply (H2 (S i)). }
  unfold areas_of in *. cbn [fmap list_fmap concat fst snd]. split.
  - apply NoDup_app. split_and!; [apply NoDup_seqZ| |done]. intros a [Ha1 Ha2]%elem_of_seqZ Ha.
    specialize (Hin a Ha). lia.
  - intros a [[Ha1 Ha2]%elem_of_seqZ|Ha%Hin]%elem_of_app; lia.
Qed.

(** ** Lemmas: sub-objects in place *)

(** The address of a sub-object that lies in its parent. *)
Definition flat_addr (t : m0_xcode_type) (p : Z) (k : Z * Z * xnode) : Z :=
  p + match arr_get (xct_child t) k.1.1 with Some f => xf_offset f | None => 0 end +
  (if bool_decide (xct_aggr t = M0_XA_ARRAY) then k.1.2 * xct_sizeof (n_type k.2) else 0).

Definition flat_todo (t : m0_xcode_type) (p : Z) (kids : list (Z * Z * xnode)) : list (xnode * Z) :=
  (fun k => (k.2, flat_addr t p k)) <$> kids.

Lemma flat_wires t p kids : t_wires (flat_todo t p kids) = wires kids.
Proof. unfold t_wires, flat_todo, wires. by rewrite <- list_fmap_compose. Qed.

Lemma flat_sizes t p bs kids : xct_aggr t <> M0_XA_SEQUENCE ->
  t_sizes (flat_todo t p kids) = sizes (XNode t bs kids).
Proof.
  intros Ha. rewrite sizes_eq. unfold t_sizes, flat_todo. rewrite <- list_fmap_compose. f_equal.
  apply list_fmap_ext. intros i k _. cbn.
  unfold block_of. by rewrite bool_decide_false.
Qed.

(** The fields of a type, where they lie. *)
Lemma field_fits t i f : type_ok t -> xct_child t !! i = Some f -> 0 <= field_size t i f < 2 ^ 63 ->
  0 <= xf_offset f /\ xf_offset f + field_size t i f <= xct_sizeof t.
Proof.
  intros Ht Hf Hs. pose proof (to_offsets _ Ht) as Ho. rewrite Forall_forall in Ho.
  specialize (Ho f ltac:(by eapply list_elem_of_lookup_2)). split; [unfold is_u32 in Ho; lia|].
  apply field_invariant_fits; [|done|done]. apply
    (fields_invariant_all t (xct_child t) 0 0 0 (type_ok_fields _ Ht) i f Hf).
Qed.

Lemma field_next t i f g : type_ok t -> xct_aggr t <> M0_XA_UNION -> xct_child t !! i = Some f ->
  xct_child t !! S i = Some g ->
  0 <= xct_sizeof (xf_type f) < 2 ^ 63 -> xf_offset f + xct_sizeof (xf_type f) <= xf_offset g.
Proof.
  intros Ht Hu Hf Hg Hs. pose proof (to_offsets _ Ht) as Ho. rewrite Forall_forall in Ho.
  specialize (Ho f ltac:(by eapply list_elem_of_lookup_2)). unfold is_u32 in Ho.
  rewrite <- (u64_small (xf_offset f + xct_sizeof (xf_type f))) by (unfold is_u64; lia).
  eapply (fields_invariant_next t (xct_child t) 0 0 0); try done. by apply type_ok_fields.
Qed.

Lemma field_union t f0 fs j g : type_ok t -> xct_aggr t = M0_XA_UNION -> xct_child t = f0 :: fs ->
  fs !! j = Some g ->
  0 <= xct_sizeof (xf_type f0) < 2 ^ 63 -> xf_offset f0 + xct_sizeof (xf_type f0) <= xf_offset g.
Proof.
  intros Ht Hu Hc Hg Hs. pose proof (to_offsets _ Ht) as Ho. rewrite Hc in Ho.
  apply Forall_cons in Ho as [Ho _]. unfold is_u32 in Ho.
  rewrite <- (u64_small (xf_offset f0 + xct_sizeof (xf_type f0))) by (unfold is_u64; lia).
  pose proof (type_ok_fields _ Ht) as Hi. rewrite Hc in Hi. cbn [fields_invariant] in Hi.
  apply and_then_Some in Hi as [_ Hi].
  cbn [Z.eqb orb] in Hi. eapply (fields_invariant_union t fs 1 0 (xf_offset f0)); try done. by rewrite Hc.
Qed.

Lemma arr_get_nat {A} (l : list A) (i : nat) : arr_get l (Z.of_nat i) = l !! i.
Proof. unfold arr_get. rewrite (proj2 (Z.leb_le 0 _)) by lia. by rewrite Nat2Z.id. Qed.

Lemma kid_field t bs kids i k :
  wf_node (XNode t bs kids) -> kids !! i = Some k ->
  exists f, arr_get (xct_child t) k.1.1 = Some f /\ n_type k.2 = xf_type f /\ type_ok (xf_type f) /\
  wf_node k.2.
Proof.
  intros Hwf Hk. inversion Hwf as [? ? ? Ht Hsh Hty Hkids]; subst. rewrite Forall_forall in Hty, Hkids.
  assert (k ∈ kids) as Hin by (by eapply list_elem_of_lookup_2). destruct (Hty k Hin) as (f & Hf & E).
  exists f.
  specialize (Hkids k Hin). split_and!; try done. rewrite <- E. by destruct Hkids.
Qed.

(** Where the sub-objects lie in their parent. *)
Definition flat_extent (t : m0_xcode_type) (p : Z) (k : Z * Z * xnode) :
  Z * Z := (flat_addr t p k, xct_sizeof (n_type k.2)).

Definition flat_ok (t : m0_xcode_type) (p : Z) (kids : list (Z * Z * xnode)) : Prop :=
  (forall i k, kids !! i = Some k -> p <= flat_addr t p k /\
    flat_addr t p k + xct_sizeof (n_type k.2) <= p + xct_sizeof t) /\
  (forall i k k', kids !! i = Some k -> kids !! S i = Some k' ->
    flat_addr t p k + xct_sizeof (n_type k.2) <= flat_addr t p k') /\
  forall i k m, kids !! i = Some k -> m0_xcode_addr m {| xo_type := t; xo_ptr := p |} k.1.1 k.1.2 = Some
    (flat_addr t p k).

Lemma flat_record t p bs kids :
  wf_node (XNode t bs kids) -> xct_aggr t = M0_XA_RECORD \/ xct_aggr t = M0_XA_TYPEDEF -> flat_ok t p kids.
Proof.
  intros Hwf Ha. inversion Hwf as [? ? ? Ht Hsh Hty Hkids]; subst.
  assert (fst <$> kids = (fun i => (i, 0)) <$> seqZ 0 (xct_nr t)) as Hpos.
  { unfold shape in Hsh. by destruct Ha as [Ha | Ha]; rewrite Ha in Hsh; destruct Hsh as [_ ?]. }
  assert (xct_aggr t <> M0_XA_SEQUENCE /\ xct_aggr t <> M0_XA_UNION /\ xct_aggr t <> M0_XA_ARRAY)
    as (Hs & Hu & Har) by (by destruct Ha as [-> | ->]).
  assert (forall i k, kids !! i = Some k -> exists f, xct_child t !! i = Some f /\ n_type k.2 = xf_type f /\
    type_ok (xf_type f) /\
    arr_get (xct_child t) k.1.1 = Some f /\ k.1 = (Z.of_nat i, 0) /\ flat_addr t p k = p + xf_offset f)
      as Hkid.
  { intros i k Hk. destruct (kid_field _ _ _ _ _ Hwf Hk)
      as (f & Hf & E & Hft & _). destruct (kid_pos _ _ _ _ _ Hpos Hk) as [Hk1 _].
    exists f. unfold flat_addr. rewrite bool_decide_false by done. rewrite Hf. rewrite Hk1 in Hf. cbn in Hf.
    rewrite arr_get_nat in Hf.
    split_and!; try done. apply Z.add_0_r. }
  split_and!.
  - intros i k Hk. destruct (Hkid i k Hk) as (f & Hf & -> & Hft & _ & _ & ->). pose proof (to_size _ Hft).
    assert (field_size t i f = xct_sizeof (xf_type f)) as E
      by (unfold field_size; by rewrite bool_decide_false).
    pose proof (field_fits t i f Ht Hf) as Hfit. rewrite E in Hfit. specialize (Hfit ltac:(lia)). lia.
  - intros i k k' Hk Hk'. destruct (Hkid i k Hk) as (f & Hf & -> & Hft & _ & _ & ->).
    destruct (Hkid _ k' Hk') as (g & Hg & _ & _ & _ & _ & ->).
    pose proof (field_next t i f g Ht Hu Hf Hg (to_size _ Hft)). lia.
  - intros i k m Hk. destruct (Hkid i k Hk) as (f & Hf & _ & Hft & Hg & Hk1 & ->).
    rewrite (addr_field _ _ _ _ _ f); [|done|by apply to_opaque|naive_solver]. by rewrite bool_decide_false.
Qed.

Lemma flat_array t p bs kids : wf_node (XNode t bs kids) -> xct_aggr t = M0_XA_ARRAY -> flat_ok t p kids.
Proof.
  intros Hwf Ha. inversion Hwf as [? ? ? Ht Hsh Hty Hkids]; subst. unfold shape in Hsh. rewrite Ha in Hsh.
  destruct Hsh as (_ & f & Hc & Hn & Hpos & Hfit). pose proof (to_offsets _ Ht) as Ho. rewrite Hc in Ho.
  apply Forall_cons in Ho as [Ho _].
  unfold is_u32 in Ho. pose proof (to_size _ Ht) as Hts.
  assert (forall i k, kids !! i = Some k -> n_type k.2 = xf_type f /\ type_ok (xf_type f) /\
    k.1 = (0, Z.of_nat i) /\
    Z.of_nat i < xf_tag f /\ flat_addr t p k = p + xf_offset f + Z.of_nat i * xct_sizeof (xf_type f)) as Hkid.
  { intros i k Hk. destruct (kid_field _ _ _ _ _ Hwf Hk)
      as (g & Hg & E & Hft & _). destruct (kid_pos _ _ _ _ _ Hpos Hk) as [Hk1 Hi].
    rewrite Hk1 in Hg. cbn in Hg. rewrite Hc in Hg. injection Hg as <-. split_and!; try done.
    unfold flat_addr. rewrite bool_decide_true by done. rewrite Hk1, E. cbn [fst snd]. by rewrite Hc. }
  split_and!.
  - intros i k Hk. destruct (Hkid i k Hk) as (-> & Hft & _ & Hi & ->). pose proof (to_size _ Hft). nia.
  - intros i k k' Hk Hk'. destruct (Hkid i k Hk) as (-> & Hft & _ & Hi & ->).
    destruct (Hkid _ k' Hk') as (_ & _ & _ & _ & ->). lia.
  - intros i k m Hk. destruct (Hkid i k Hk) as (_ & Hft & -> & Hi & ->). cbn [fst snd].
    pose proof (to_size _ Hft).
    rewrite (addr_field _ _ _ _ _ f); [|by rewrite Hc|by apply to_opaque|by rewrite Ha; intros []].
    rewrite bool_decide_true by done. cbn [andb Z.eqb]. rewrite u64_small by (unfold is_u64; nia). done.
Qed.

Lemma flat_union t p bs kids : wf_node (XNode t bs kids) -> xct_aggr t = M0_XA_UNION -> flat_ok t p kids.
Proof.
  intros Hwf Ha. inversion Hwf as [? ? ? Ht Hsh Hty Hkids]; subst. unfold shape in Hsh. rewrite Ha in Hsh.
  destruct Hsh as (_ & f0 & fs & c & Hc & Hsh). set (j := union_find fs (node_tag f0 c) 1) in *.
  pose proof (union_find_ge fs (node_tag f0 c) 1 : 1 <= j) as Hj.
  assert (forall i k, kids !! i = Some k -> exists f, arr_get (xct_child t) k.1.1 = Some f /\
    n_type k.2 = xf_type f /\ type_ok (xf_type f) /\
    0 <= k.1.1 /\ flat_addr t p k = p + xf_offset f) as Hkid.
  { intros i k Hk. destruct (kid_field _ _ _ _ _ Hwf Hk) as (f & Hf & E & Hft & _). exists f. split_and!;
      try done.
    - by apply arr_get_Some in Hf as [? _].
    - unfold flat_addr. rewrite bool_decide_false by (by rewrite Ha). rewrite Hf. lia. }
  assert (exists ks, kids = (0, 0, c) :: ks) as [ks Hks]
    by (destruct Hsh as [[-> _]|(b & -> & _)]; by eexists).
  split_and!.
  - intros i k Hk. destruct (Hkid i k Hk) as (f & Hf & -> & Hft & _ & ->). pose proof (to_size _ Hft).
    apply arr_get_Some in Hf as [Hi Hf].
    assert (field_size t (Z.to_nat k.1.1) f = xct_sizeof (xf_type f)) as E
      by (unfold field_size; by rewrite Ha).
    pose proof (field_fits t _ f Ht Hf) as Hfit. rewrite E in Hfit. specialize (Hfit ltac:(lia)). lia.
  - intros i k k' Hk Hk'. destruct (Hkid i k Hk) as (f & Hf & -> & Hft & _ & ->).
    destruct (Hkid _ k' Hk') as (g & Hg & _ & _ & _ & ->).
    destruct Hsh as [[-> _]|(b & -> & _)]; [by destruct i|]. destruct i as [|[|i]]; [|done|done].
    cbn in Hk, Hk'.
    injection Hk as <-. injection Hk' as <-. cbn [fst snd] in *. rewrite Hc in Hf, Hg. injection Hf as <-.
    apply arr_get_Some in Hg as [_ Hg]. destruct (Z.to_nat j) as [|j'] eqn:Ej; [lia|]. cbn in Hg.
    pose proof (field_union t f0 fs j' g Ht Ha Hc Hg (to_size _ Hft)). lia.
  - intros i k m Hk. destruct (Hkid i k Hk) as (f & Hf & _ & Hft & _ & ->).
    rewrite (addr_field _ _ _ _ _ f); [|done|by apply to_opaque|by rewrite Ha; intros []]. by rewrite Ha.
Qed.

Lemma flat_areas t p bs kids :
  type_ok t -> wf_node (XNode t bs kids) -> flat_ok t p kids ->
  NoDup (t_areas (flat_todo t p kids)) /\ forall a, a ∈ t_areas (flat_todo t p kids) ->
  a ∈ seqZ p (xct_sizeof t).
Proof.
  intros Ht Hwf (H1 & H2 & _).
  assert (t_areas (flat_todo t p kids) = areas_of (flat_extent t p <$> kids)) as ->.
  { unfold t_areas, areas_of, flat_todo. by rewrite <- !list_fmap_compose. }
  destruct (areas_packed p (p + xct_sizeof t) (flat_extent t p <$> kids)) as [Hnd Hin].
  - intros i x Hx. rewrite list_lookup_fmap in Hx. destruct (kids !! i) as [k|] eqn:Hk; [|done].
    injection Hx as <-. cbn [flat_extent fst snd].
    destruct (kid_field _ _ _ _ _ Hwf Hk) as (f & _ & E & Hft & _). pose proof (to_size _ Hft).
    destruct (H1 i k Hk). rewrite E in *. lia.
  - intros i x y Hx Hy. rewrite list_lookup_fmap in Hx, Hy. destruct (kids !! i) as [k|] eqn:Hk; [|done].
    injection Hx as <-.
    destruct (kids !! S i) as [k'|] eqn:Hk'; [|done]. injection Hy as <-. by apply (H2 i).
  - split; [done|]. intros a Ha%Hin. by apply elem_of_seqZ.
Qed.

Lemma kids_rep_mono (R R' : mem -> Prop) t p kids :
  (forall m, R' m -> R m) -> Forall (kid_rep R t p) kids -> Forall (kid_rep R' t p) kids.
Proof. intros HR H. eapply Forall_impl; [exact H|]. intros k. by apply kid_rep_mono. Qed.

(** ** Lemmas: visits while decoding *)

(** The bytes of an object are copied from the buffer. *)
Lemma copy_dec io p size (bs : list Z) :
  cur_wf (xcx_buf io) -> size = Z.of_nat (length bs) -> is_u64 size ->
  xs_mem io <$> take (length bs) (cur_addrs (xcx_buf io)) = bs ->
  (forall a, a ∈ seqZ p size -> a ∉ cur_addrs (xcx_buf io)) ->
  exists io', atom_copy XO_DEC io p size = Some (1, io') /\ xs_heap io' = xs_heap io /\
  cur_wf (xcx_buf io') /\
    bc_bv (xcx_buf io') = bc_bv (xcx_buf io) /\
    cur_addrs (xcx_buf io') = drop (length bs) (cur_addrs (xcx_buf io)) /\
    (forall a, a ∉ seqZ p size -> xs_mem io' a = xs_mem io a) /\ xs_mem io' <$> seqZ p size = bs.
Proof.
  intros Hwf Hsize Hu Hsrc Hdis. unfold atom_copy.
  destruct (bufvec_init_ok (buf_vec p size)) as (area & -> & Hwa & _ & Haa); [by apply buf_vec_wf|done|].
  cbn [mbind option_bind].
  rewrite buf_vec_addrs in Haa. unfold is_u64 in Hu.
  assert (length bs <= length (cur_addrs (xcx_buf io)))%nat as Hle.
  { apply (f_equal length) in Hsrc. rewrite length_fmap, length_take in Hsrc. lia. }
  destruct (cursor_copy_ok (xs_mem io) area (xcx_buf io) size)
    as (m' & d' & s' & Hc & _ & Hws & _ & Bs & _ & As & [Hm Hf]); try done.
  { rewrite Haa. apply NoDup_seqZ. }
  { by rewrite Haa. }
  rewrite Haa, length_seqZ in *. rewrite Z2Nat.id in * by lia.
  rewrite (Z.min_l size (Z.of_nat (length (cur_addrs (xcx_buf io))))) in * by lia.
  rewrite (Z.min_l size size) in * by lia.
  rewrite Hc. cbn [mbind option_bind]. rewrite Z.eqb_refl. cbn [negb].
  replace (Z.to_nat size) with (length bs) in * by lia.
  rewrite take_ge in Hm, Hf by (rewrite length_seqZ; lia).
  eexists. split; [done|]. cbn [with_buf xs_heap xs_mem xcx_buf]. split_and!; try done. by rewrite Hm.
Qed.

Lemma at_array_other m fr t p pos fl stk ab :
  ~ (xct_aggr t = M0_XA_SEQUENCE /\ pos = (1, 0)) ->
  at_array m {| xcu_stack := fr :: frame_at t p pos fl :: stk; xcu_above := ab |} = Some false.
Proof.
  intros Hn. unfold at_array, xcu_depth. cbn [xcu_stack length lookup list_lookup].
  rewrite (proj2 (Z.ltb_lt 0 _)) by lia. cbn [mbind option_bind]. destruct pos as [f e].
  cbn [frame_at s_obj xo_type s_fieldno s_elno fst snd].
  assert (bool_decide (xct_aggr t = M0_XA_SEQUENCE) && (f =? 1) && (e =? 0) = false) as ->; [|done].
  apply not_true_iff_false. intros [[H1%bool_decide_eq_true ->%Z.eqb_eq]%andb_prop ->%Z.eqb_eq]%andb_prop.
  by apply Hn.
Qed.

(** Nothing is allocated for a sub-object that is not the first element of a sequence. *)
Lemma alloc_none io fr t p pos fl stk ab f :
  (S (length stk) < 10)%nat -> arr_get (xct_child t) pos.1 = Some f ->
  same_type (xf_type f) M0_XT_OPAQUE = false ->
  ~ (xct_aggr t = M0_XA_SEQUENCE /\ pos = (1, 0)) ->
  m0_xcode_alloc_obj io {| xcu_stack := fr :: frame_at t p pos fl :: stk; xcu_above := ab |} =
    Some (0, io, {| xcu_stack := fr :: frame_at t p pos fl :: stk; xcu_above := ab |}).
Proof.
  intros Hd Hf Ho Hn. unfold m0_xcode_alloc_obj, allocp. rewrite top_ok by (cbn; lia).
  cbn [mbind option_bind].
  unfold xcu_depth. cbn [xcu_stack length]. rewrite (proj2 (Z.eqb_neq (Z.of_nat (S (S (length stk))) - 1) 0))
    by lia. cbn [lookup list_lookup mbind option_bind].
  rewrite at_array_other by done. cbn [mbind option_bind frame_at s_obj xo_type s_fieldno]. rewrite Hf.
  cbn [mbind option_bind]. rewrite Ho.
  unfold m0_xcode_addr. cbn [xo_type]. rewrite Hf. done.
Qed.

(** The root is not allocated when it is given. *)
Lemma alloc_root io fr ab : xo_ptr (s_obj fr) <> 0 ->
  m0_xcode_alloc_obj io {| xcu_stack := [fr]; xcu_above := ab |} = Some (0, io,
    {| xcu_stack := [fr]; xcu_above := ab |}).
Proof.
  intros Hp. unfold m0_xcode_alloc_obj, allocp. rewrite top_ok by (cbn; lia). cbn [mbind option_bind].
  change (xcu_depth {| xcu_stack := [fr]; xcu_above := ab |} =? 0) with true. cbn [mbind option_bind].
  rewrite (proj2 (Z.eqb_neq _ 0) Hp). by rewrite andb_false_r.
Qed.

Section dec.
Context (ex : bool).

(** The walk from visit_obj() on. *)
Definition visit (n : nat) (w : xwalk) : option (Z * xwalk) :=
  '(r, w) ← visit_obj XO_DEC w; if 0 <? r then walk_loop ex n XO_DEC w else Some (r, w).

Lemma after_dec n io io' fr fr' stk ab len :
  (length stk < 10)%nat -> s_flag fr = M0_XCODE_CURSOR_PRE ->
  m0_xcode_alloc_obj io {| xcu_stack := fr :: stk; xcu_above := ab |} = Some (0, io',
    {| xcu_stack := fr' :: stk; xcu_above := ab |}) ->
  after ex XO_DEC n (wst io (fr :: stk) ab len) = visit n (wst io' (fr' :: stk) ab len).
Proof.
  intros Hd Hfl Ha. unfold after, walk_body. cbn [wst w_it w_io w_length]. rewrite top_ok by done.
  cbn [mbind option_bind].
  rewrite Hfl, bool_decide_true by done. cbn [negb]. rewrite bool_decide_true by done. rewrite Ha. done.
Qed.

(** The visit of an atom of [size] bytes, possibly that of a whole array. *)
Lemma atom_visit_dec io t p bs fr stk ab len array size it' :
  array_of (xs_mem io) {| xcu_stack := fr :: stk; xcu_above := ab |} = Some array ->
  (if array then prev ← (fr :: stk) !! 1%nat; tag ← m0_xcode_tag (xs_mem io) (s_obj prev);
    Some (u64 (xct_sizeof t * tag))
   else Some (xct_sizeof t)) = Some size ->
  (if array then m0_xcode_skip (cursor_pop {| xcu_stack := fr :: stk; xcu_above := ab |})
   else Some {| xcu_stack := fr :: stk; xcu_above := ab |}) = Some it' ->
  cur_wf (xcx_buf io) -> size = Z.of_nat (length bs) -> is_u64 size ->
  xs_mem io <$> take (length bs) (cur_addrs (xcx_buf io)) = bs ->
  (forall a, a ∈ seqZ p size -> a ∉ cur_addrs (xcx_buf io)) ->
  exists io', atom_visit XO_DEC (wst io (fr :: stk) ab len) t p = Some (1,
    {| w_io := io'; w_it := it'; w_length := len |}) /\
    xs_heap io' = xs_heap io /\ cur_wf (xcx_buf io') /\
    bc_bv (xcx_buf io') = bc_bv (xcx_buf io) /\
    cur_addrs (xcx_buf io') = drop (length bs) (cur_addrs (xcx_buf io)) /\
    (forall a, a ∉ seqZ p size -> xs_mem io' a = xs_mem io a) /\ xs_mem io' <$> seqZ p size = bs.
Proof.
  intros Harr Hsz Hit Hwf Hlen Hu Hsrc Hdis. destruct (copy_dec io p size bs Hwf Hlen Hu Hsrc Hdis)
    as (io' & Hc & Hpost).
  exists io'. split; [|done]. unfold atom_visit. cbn [wst w_io w_it w_length xcu_stack].
  unfold array_of in Harr. cbn [xcu_stack] in Harr. rewrite Harr. cbn [mbind option_bind]. rewrite Hsz.
  cbn [mbind option_bind].
  rewrite (bool_decide_false (XO_DEC = XO_LEN)) by done. rewrite Hc. cbn [mbind option_bind]. rewrite Hit.
  done.
Qed.

Definition decoded (n : xnode) (io : xio) (p : Z) (al rest : list Z) (stk ab : list m0_xcode_cursor_frame)
  (len : Z) : Prop :=
  exists s io' pos' ab', (forall k, visit (s + k)
    (wst io (frame_at (n_type n) p (0, 0) M0_XCODE_CURSOR_PRE :: stk) ab len) =
    walk_loop ex k XO_DEC (wst io' (frame_at (n_type n) p pos' M0_XCODE_CURSOR_POST :: stk) ab' len)) /\
    dec_post io io' p n al rest.

Lemma dec_atom n io p al rest stk ab len :
  wf_node n -> xct_aggr (n_type n) = M0_XA_ATOM -> (length stk < 10)%nat -> dec_pre io p n al rest ->
  (forall fr ab', array_of (xs_mem io) {| xcu_stack := fr :: stk; xcu_above := ab' |} = Some false) ->
  decoded n io p al rest stk ab len.
Proof.
  destruct n as [t bs kids]. intros Hwf Ha Hd [Pwf Psrc Pheap Plen Ppos Pnd Pdis Pz] Harr. cbn [n_type] in *.
  inversion Hwf as [? ? ? Ht Hsh _ _]; subst. unfold shape in Hsh. rewrite Ha in Hsh.
  destruct Hsh as (-> & Hlen & _).
  assert (wire (XNode t bs []) = bs) as Hw by (rewrite wire_eq; by rewrite app_nil_r). rewrite Hw in *.
  assert (forall a, a ∈ footprint p (XNode t bs []) al <-> a ∈ seqZ p (xct_sizeof t)) as Hfp.
  { intros a. unfold footprint, blocks. cbn [n_type sizes]. destruct al; [|done]. cbn. by rewrite app_nil_r. }
  destruct (atom_visit_dec io t p bs (frame_at t p (0, 0) M0_XCODE_CURSOR_PRE) stk ab len false
    (xct_sizeof t) _ (Harr _ _) eq_refl eq_refl
    Pwf (eq_sym Hlen) (type_ok_u64 _ Ht) Psrc) as (io' & Hv & Qh & Qwf & Qbv & Qa & Qf & Qm).
  { intros a Hin. by apply Pdis, Hfp. }
  exists 1%nat, io', (0, 0), ab. split.
  - intros k. cbn [n_type Nat.add]. unfold visit. rewrite visit_atom by done. rewrite Hv.
    cbn [mbind option_bind Z.ltb Z.compare].
    apply atom_post; try done. by apply atom_childless.
  - split; try done; rewrite ?Hw; try done.
    + rewrite Qh, Pheap. by destruct al.
    + intros a Hin. apply Qf. by rewrite <- Hfp.
    + apply rep_eq. split; [|done]. intros _ m Hm. rewrite <- Qm. apply fmap_mem_ext. intros a Hin.
      by apply Hm, Hfp.
Qed.

(** Decoding of a tree works from wherever it may start. *)
Definition dec_ok (n : xnode) : Prop := forall io p al rest stk ab len,
  (length stk + height n <= 10)%nat -> dec_pre io p n al rest ->
  (xct_aggr (n_type n) = M0_XA_ATOM -> forall fr ab',
    array_of (xs_mem io) {| xcu_stack := fr :: stk; xcu_above := ab' |} = Some false) ->
  decoded n io p al rest stk ab len.

(** One sub-object, allocated or not. *)
Lemma kid_step t p kids stk (I : nat -> xio -> Z -> Prop) i k io0 io ab len a q W rest D todo al :
  dec_ok k.2 -> (S (length stk) + height k.2 <= 10)%nat ->
  (forall R R' : mem -> Prop, (forall m, R' m -> R m) -> D R -> D R') ->
  m0_xcode_addr (xs_mem io0) {| xo_type := t; xo_ptr := p |} k.1.1 k.1.2 = Some a ->
  (let st x := frame_at (n_type k.2) x (0, 0) M0_XCODE_CURSOR_PRE :: frame_at t p k.1 M0_XCODE_CURSOR_IN ::
    stk in
   m0_xcode_alloc_obj io0 {| xcu_stack := st a; xcu_above := ab |} = Some (0, io,
     {| xcu_stack := st q; xcu_above := ab |})) ->
  (forall fr ab', array_of (xs_mem io) {| xcu_stack := fr :: frame_at t p k.1 M0_XCODE_CURSOR_IN :: stk;
    xcu_above := ab' |} = Some false) ->
  decoding W rest D ((k.2, q) :: todo) al io ->
  (forall io' al', decoding W rest (fun R => D R /\ rep R q k.2) todo al' io' ->
    progress W io io' (length (wire k.2)) -> I (S i) io' len) ->
  kid_visited ex XO_DEC t p kids stk I i k io0 ab len.
Proof.
  intros Hok Hd HD Haddr Halloc Harr Hdec HI. exists a. split; [done|].
  destruct (decoding_step W rest D k.2 q todo al io HD Hdec) as (al1 & al2 & Hpre & Hpost).
  destruct (Hok io q al1 (al2 ++ rest) (frame_at t p k.1 M0_XCODE_CURSOR_IN :: stk) ab len)
    as (s & io' & pos' & ab' & Hrun & Hq);
    [cbn; lia|done|done|].
  destruct (Hpost io' Hq) as [Hdec' Hprog].
  eexists s, io', len, ab', _. split.
  - intros n. rewrite (after_dec (s + n) io0 io _ (frame_at (n_type k.2) q (0, 0) M0_XCODE_CURSOR_PRE))
      by (done || (destruct k as [? []]; cbn in *; lia)).
    apply Hrun.
  - left. eexists. split_and!; try done. by eapply HI.
Qed.

Lemma flat_shape t bs kids p : wf_node (XNode t bs kids) -> xct_aggr t <> M0_XA_ATOM ->
  xct_aggr t <> M0_XA_SEQUENCE -> flat_ok t p kids.
Proof.
  intros Hwf Ha Hs. inversion Hwf as [? ? ? Ht Hsh _ _]; subst. unfold shape in Hsh.
  destruct (xct_aggr t) eqn:E; try done.
  - eapply flat_record; [done|by left].
  - by eapply flat_union.
  - by eapply flat_array.
  - eapply flat_record; [done|by right].
Qed.

(** Decoding of a parent starts with decoding of the sub-objects in it. *)
Lemma flat_start t kids io p al rest :
  wf_node (XNode t [] kids) -> xct_aggr t <> M0_XA_ATOM -> xct_aggr t <> M0_XA_SEQUENCE ->
  dec_pre io p (XNode t [] kids) al rest ->
  decoding (footprint p (XNode t [] kids) al) rest (fun R => Forall (kid_rep R t p) []) (flat_todo t p kids)
    al io.
Proof.
  intros Hwf Ha Hs [Pwf Psrc Pheap Plen Ppos Pnd Pdis Pz].
  pose proof (flat_shape t [] kids p Hwf Ha Hs) as Hflat.
  assert (type_ok t) as Ht by (by inversion Hwf). destruct (flat_areas t p [] kids Ht Hwf Hflat) as [Hnd Hin].
  unfold footprint in *. cbn [n_type] in *. rewrite wire_eq in Psrc. cbn [app] in Psrc.
  rewrite <- (flat_sizes t p [] kids Hs) in *. rewrite <- (flat_wires t p kids) in Psrc.
  apply NoDup_app in Pnd as (_ & Pnd1 & Pnd2).
  split; try done.
  - unfold pending. apply NoDup_app. split_and!; try done. intros a Hx. by apply Pnd1, Hin.
  - intros a [Hx%Hin|Hx]%elem_of_app; apply elem_of_app; auto.
  - intros a Hx%Hin. by apply Pz.
Qed.

Lemma dec_flat t kids :
  Forall (fun k => dec_ok k.2) kids -> wf_node (XNode t [] kids) -> xct_aggr t <> M0_XA_ATOM ->
  xct_aggr t <> M0_XA_SEQUENCE ->
  dec_ok (XNode t [] kids).
Proof.
  intros IH Hwf Ha Hs io p al rest stk ab len Hd Hpre _.
  pose proof (flat_shape t [] kids p Hwf Ha Hs) as (_ & _ & Haddr).
  assert (type_ok t) as Ht by (by inversion Hwf).
  pose proof (flat_start t kids io p al rest Hwf Ha Hs Hpre) as Hstart.
  set (W := footprint p (XNode t [] kids) al) in *.
  set (I := fun i io1 len1 => len1 = len /\ exists al1,
    decoding W rest (fun R => Forall (kid_rep R t p) (take i kids)) (drop i (flat_todo t p kids)) al1 io1 /\
    progress W io io1 (length (wires (take i kids)))).
  assert (length stk < 10)%nat as Hd' by (cbn in Hd; lia).
  destruct (aggr_walk ex XO_DEC t p [] kids stk I Hwf Ha Hd) with (io := io) (len := len) (ab := ab)
    as (s & io' & len' & pos' & ab' & Hrun & -> & al' & Hdec & Hprog).
  - intros i k io1 len1 ab1 Hk [-> (al1 & Hdec & Hprog)].
    assert (k ∈ kids) as Hin by (by eapply list_elem_of_lookup_2).
    pose proof (height_kid t [] kids k Hin) as Hh.
    destruct (kid_field _ _ _ _ _ Hwf Hk) as (f & Hf & Hkt & Hft & Hkw).
    assert (flat_todo t p kids !! i = Some (k.2, flat_addr t p k)) as Ht1
      by (unfold flat_todo; by rewrite list_lookup_fmap, Hk).
    rewrite (drop_S _ _ _ Ht1) in Hdec. rewrite Forall_forall in IH.
    eapply (kid_step t p kids stk I i k io1 io1 ab1 len (flat_addr t p k) (flat_addr t p k) W rest
      (fun R => Forall (kid_rep R t p) (take i kids)) _ al1 (IH k Hin)).
    + cbn in *; lia.
    + intros R R' HR. by apply kids_rep_mono.
    + by apply (Haddr i).
    + cbn zeta. apply (alloc_none _ _ _ _ _ _ _ _ f);
        [destruct k as [? []]; cbn in *; lia|done|by apply to_opaque|naive_solver].
    + intros fr ab'. apply array_of_other. naive_solver.
    + exact Hdec.
    + intros io2 al2 Hdec2 Hprog2. split; [done|]. exists al2. rewrite (take_S_r _ _ _ Hk). split.
      * eapply decoding_weaken; [|exact Hdec2]. cbn beta. intros R [H1 H2]. apply Forall_app. split; [done|].
        apply Forall_singleton.
        exists (flat_addr t p k). split; [|done]. intros m _. by apply (Haddr i).
      * rewrite wires_app, wires_cons, app_nil_r, length_app. by eapply progress_trans.
  - intros i io1 len1 c [-> (al1 & Hdec & _)] Hc _. pose proof (k_done _ _ _ _ _ _ Hdec) as Hkr.
    cbn beta in Hkr.
    rewrite Forall_forall in Hkr. eapply kid_rep_mono; [|apply Hkr]; [by intros m <-|].
    apply list_elem_of_lookup. exists 0%nat. rewrite lookup_take_lt by lia. done.
  - split; [done|]. exists al. split; [exact Hstart|]. split_and!; try done.
  - exists s, io', pos', ab'. cbn [n_type]. split.
    + intros k. unfold visit. rewrite visit_aggr by done. cbn. apply Hrun.
    + rewrite take_ge in Hdec, Hprog by done. rewrite drop_ge in Hdec
        by (unfold flat_todo; by rewrite length_fmap).
      destruct Hprog as (Qbv & Qa & Qf). destruct Hdec as [Kwf _ Kheap Klen _ _ _ _ _ Kdone].
      destruct al'; [|done].
      split; rewrite ?wire_eq; try done. apply rep_eq. split; [done|]. eapply Forall_impl; [exact Kdone|].
      intros k.
      apply kid_rep_mono. intros m Hm x Hx _. by apply Hm.
Qed.

End dec.
