(* ===== verification/XcodeSeq.v ===== *)
(** * xcode: decoding of sequences

    The count of a sequence is decoded first; the first element then has the array
    allocated, and its address stored in the object. *)
From S2P Require Import Prelude Vec Xcode XcodeObj XcodeEnc XcodeDec.
#[local] Open Scope motr_scope.

(** ** Lemmas: memory *)

Lemma le_val_bytes n x : le_val (le_bytes n x) = x mod 256 ^ Z.of_nat n.
Proof.
  revert x. induction n as [|n IH]; intros x; cbn [le_bytes le_val]; [by rewrite Z.mod_1_r|].
  rewrite IH, Nat2Z.inj_succ, Z.pow_succ_r by lia. rewrite Z.rem_mul_r by lia. lia.
Qed.

Lemma length_le_bytes n x : length (le_bytes n x) = n.
Proof. revert x. induction n as [|n IH]; intros x; [done|]. cbn. by rewrite IH. Qed.

Lemma store_other m a bs x : x ∉ seqZ a (Z.of_nat (length bs)) -> store m a bs x = m x.
Proof.
  intros Hx. unfold store. destruct (Z.leb_spec a x); [|done].
  destruct (Z.ltb_spec x (a + Z.of_nat (length bs))); [|done].
  destruct Hx. apply elem_of_seqZ. lia.
Qed.

Lemma store_same m a bs : store m a bs <$> seqZ a (Z.of_nat (length bs)) = bs.
Proof.
  apply list_eq. intros i. rewrite list_lookup_fmap. destruct (seqZ a _ !! i) as [x|] eqn:Hx; cbn.
  - apply lookup_seqZ in Hx as [-> Hi]. unfold store.
    rewrite (proj2 (Z.leb_le _ _)), (proj2 (Z.ltb_lt _ _)) by lia. cbn [andb].
    replace (Z.to_nat (a + Z.of_nat i - a)) with i by lia.
    destruct (lookup_lt_is_Some_2 bs i) as [b Hb]; [lia|]. by rewrite Hb.
  - apply lookup_ge_None in Hx. rewrite length_seqZ in Hx. symmetry. apply lookup_ge_None. lia.
Qed.

Lemma load_ext m m' a n : (forall x, x ∈ seqZ a n -> m' x = m x) -> load m' a n = load m a n.
Proof. intros H. unfold load. by rewrite (fmap_mem_ext m m'). Qed.

(** A stored pointer is read back. *)
Lemma load_store m a q : 0 <= q < 2 ^ 64 -> load (store m a (le_bytes 8 q)) a sizeof_ptr = q.
Proof.
  intros Hq. unfold load. pose proof (store_same m a (le_bytes 8 q)) as H. rewrite length_le_bytes in H.
  change (Z.of_nat 8) with sizeof_ptr in H. rewrite H, le_val_bytes. apply Z.mod_small. done.
Qed.

Lemma store_zero m a n x : x ∈ seqZ a n -> store m a (replicate (Z.to_nat n) 0) x = 0.
Proof.
  intros [H1 H2]%elem_of_seqZ. unfold store. rewrite length_replicate.
  rewrite (proj2 (Z.leb_le _ _)), (proj2 (Z.ltb_lt _ _)) by lia.
  cbn [andb]. rewrite lookup_replicate_2 by lia. done.
Qed.

(** A zeroed pointer. *)
Lemma load_zero m a n : (forall x, x ∈ seqZ a n -> m x = 0) -> load m a n = 0.
Proof.
  intros H. unfold load. assert (Forall (fun x => m x = 0) (seqZ a n)) as Hf by (by apply Forall_forall).
  clear H.
  induction (seqZ a n) as [|x l IH]; [done|]. apply Forall_cons in Hf as [Hx Hl]. cbn. rewrite Hx, IH by done.
  done.
Qed.

(** ** Lemmas: the allocation of the array *)

Lemma at_array_first m fr t p fl stk ab tag :
  xct_aggr t = M0_XA_SEQUENCE -> m0_xcode_tag m {| xo_type := t; xo_ptr := p |} = Some tag ->
  at_array m {| xcu_stack := fr :: frame_at t p (1, 0) fl :: stk; xcu_above := ab |} = Some (0 <? tag).
Proof.
  intros Ha Htag. unfold at_array, xcu_depth. cbn [xcu_stack length lookup list_lookup].
  rewrite (proj2 (Z.ltb_lt 0 _)) by lia. cbn [mbind option_bind].
  cbn [frame_at s_obj xo_type s_fieldno s_elno fst snd]. rewrite Ha.
  rewrite bool_decide_true by done. cbn [andb Z.eqb Pos.eqb]. by rewrite Htag.
Qed.

(** What the allocation leaves behind. *)
Definition io_alloc (io : xio) (slot q len : Z) (h : list Z) : xio :=
  {| xs_mem := store (store (xs_mem io) q (replicate (Z.to_nat len) 0)) slot (le_bytes 8 q);
    xcx_buf := xcx_buf io; xs_heap := h |}.

Lemma alloc_first io t p f0 f1 kt n q h fl stk ab :
  (S (length stk) < 10)%nat -> xct_aggr t = M0_XA_SEQUENCE -> xct_child t = [f0; f1] ->
  same_type (xf_type f1) M0_XT_OPAQUE = false ->
  m0_xcode_tag (xs_mem io) {| xo_type := t; xo_ptr := p |} = Some n -> 0 < n -> 0 < xct_sizeof kt ->
  n * xct_sizeof kt < 2 ^ 64 ->
  load (xs_mem io) (p + xf_offset f1) sizeof_ptr = 0 -> xs_heap io = q :: h -> q <> 0 ->
  let st x := frame_at kt x (0, 0) M0_XCODE_CURSOR_PRE :: frame_at t p (1, 0) fl :: stk in
  m0_xcode_alloc_obj io {| xcu_stack := st 0; xcu_above := ab |} =
    Some (0, io_alloc io (p + xf_offset f1) q (n * xct_sizeof kt) h,
      {| xcu_stack := st q; xcu_above := ab |}).
Proof.
  intros Hd Ha Hc Ho Htag Hn Hs Hmul Hslot Hheap Hq st. unfold m0_xcode_alloc_obj, allocp, st.
  rewrite top_ok by (cbn; lia). cbn [mbind option_bind].
  unfold xcu_depth. cbn [xcu_stack length]. rewrite (proj2 (Z.eqb_neq (Z.of_nat (S (S (length stk))) - 1) 0))
    by lia.
  cbn [lookup list_lookup mbind option_bind]. rewrite (at_array_first _ _ _ _ _ _ _ n) by done.
  rewrite (proj2 (Z.ltb_lt 0 n)) by done.
  cbn [mbind option_bind]. change (s_obj (frame_at t p (1, 0) fl)) with {| xo_type := t; xo_ptr := p |}.
  rewrite Htag.
  cbn [mbind option_bind frame_at s_obj xo_type s_fieldno fst].
  assert (m0_xcode_addr (xs_mem io) {| xo_type := t; xo_ptr := p |} 1 UINT64_MAX = Some (p + xf_offset f1))
    as ->.
  { unfold m0_xcode_addr. cbn [xo_type xo_ptr]. rewrite Hc. change (arr_get [f0; f1] 1)
      with (Some f1). cbn [mbind option_bind].
    rewrite Ha, Ho, Z.eqb_refl. done. }
  cbn [mbind option_bind]. rewrite u64_small by (unfold is_u64; nia). rewrite Hslot.
  rewrite (proj2 (Z.eqb_neq (n * _) 0)) by nia.
  cbn [negb andb Z.eqb xo_ptr M0_ASSERT mbind option_bind]. unfold m0_alloc. rewrite Hheap.
  rewrite (proj2 (Z.eqb_neq q 0)) by done.
  by rewrite (proj2 (Z.eqb_neq q 0)) by done.
Qed.

(** ** Lemmas: byte arrays *)

Lemma bytes_unrep (R : mem -> Prop) q (es : list (Z * Z * xnode)) :
  Forall (fun k => wf_node k.2 /\ n_type k.2 = M0_XT_U8) es ->
  (forall m, R m -> m <$> seqZ q (Z.of_nat (length es)) = wires es) ->
  forall j k, es !! j = Some k -> rep R (q + Z.of_nat j) k.2.
Proof.
  revert q. induction es as [|k0 es IH]; intros q Hwf Hm j k Hj; [done|].
  apply Forall_cons in Hwf as [[Hk Hty] Hwf].
  destruct k0 as [pos [t bs kids]]. cbn [snd n_type] in *. subst t. inversion Hk as [? ? ? _ Hsh _ _]; subst.
  destruct Hsh as (-> & Hl & _).
  cbn [xct_sizeof] in Hl. destruct bs as [|b [|? ?]]; try (cbn in Hl; lia).
  assert (forall m, R m -> m q = b /\ m <$> seqZ (q + 1) (Z.of_nat (length es)) = wires es) as Hm'.
  { intros m HR. specialize (Hm m HR). cbn [length] in Hm. rewrite seqZ_cons in Hm
      by lia. cbn [fmap list_fmap] in Hm.
    rewrite wires_cons in Hm. cbn in Hm. injection Hm as H1 H2.
    replace (Z.pred (Z.of_nat (S (length es)))) with (Z.of_nat (length es)) in H2 by lia. done. }
  destruct j as [|j]; cbn in Hj.
  - injection Hj as <-. apply rep_eq. split; [|done]. intros _ m HR. rewrite Z.add_0_r.
    change (xct_sizeof M0_XT_U8) with 1.
    rewrite (seqZ_cons q 1) by lia. cbn. by destruct (Hm' m HR) as [-> _].
  - replace (q + Z.of_nat (S j)) with (q + 1 + Z.of_nat j) by lia. apply IH; [done| |done]. intros m HR.
    by apply Hm'.
Qed.

Lemma bytes_length (es : list (Z * Z * xnode)) :
  Forall (fun k => wf_node k.2 /\ n_type k.2 = M0_XT_U8) es -> length (wires es) = length es /\
  concat ((fun k => sizes k.2) <$> es) = [].
Proof.
  induction 1 as [|[pos [t bs kids]] es [Hk Hty] _ [IH1 IH2]]; [done|]. cbn [snd n_type] in *. subst t.
  inversion Hk as [? ? ? _ Hsh _ _]; subst. destruct Hsh as (-> & Hl & _). cbn [xct_sizeof] in Hl.
  rewrite wires_cons, length_app, IH1. cbn [fmap list_fmap concat snd]. rewrite IH2. cbn. rewrite app_nil_r.
  split; [lia|done].
Qed.

(** ** Lemmas: the phases of decoding *)

Section seq.
Context (t : m0_xcode_type) (f0 f1 : m0_xcode_field) (c : xnode) (es : list (Z * Z * xnode)) (p :
  Z) (al rest : list Z) (io : xio).
Local Notation kids := ((0, 0, c) :: es).
Local Notation W := (footprint p (XNode t [] kids) al).
Local Notation n := (node_tag f0 c).
Local Notation size := (xct_sizeof (xf_type f1)).
Local Notation slot := (p + xf_offset f1).

Hypothesis Hwf : wf_node (XNode t [] kids).
Hypothesis Ha : xct_aggr t = M0_XA_SEQUENCE.
Hypothesis Hc : xct_child t = [f0; f1].
Hypothesis Hpos : fst <$> es = (fun e => (1, e)) <$> seqZ 0 n.
Hypothesis Hsize : 0 < size.
Hypothesis Hn : 0 <= n.
Hypothesis Hmul : n * size < 2 ^ 64.

Lemma seq_type : type_ok t.
Proof. by inversion Hwf. Qed.

Lemma seq_count : n_type c = xf_type f0 /\ type_ok (xf_type f0) /\ wf_node c /\
  xct_aggr (xf_type f0) = M0_XA_ATOM /\ sizes c = [].
Proof.
  destruct (kid_field _ _ _ 0 (0, 0, c) Hwf eq_refl) as (f & Hf & Hct & Hft & Hcw). cbn [fst snd] in *.
  rewrite Hc in Hf. injection Hf as <-.
  assert (xct_aggr (xf_type f0) = M0_XA_ATOM) as Hat
    by (eapply type_ok_tag_atom; [apply seq_type|by right|by rewrite Hc]).
  split_and!; try done. destruct c as [ct cbs ck]. cbn [n_type] in Hct. subst ct.
  inversion Hcw as [? ? ? _ Hsh _ _]; subst.
  unfold shape in Hsh. rewrite Hat in Hsh. by destruct Hsh as [-> _].
Qed.

Lemma seq_elem j k : es !! j = Some k ->
  n_type k.2 = xf_type f1 /\ k.1 = (1, Z.of_nat j) /\ Z.of_nat j < n /\ wf_node k.2 /\ type_ok (xf_type f1).
Proof.
  intros Hj. destruct (kid_pos _ _ _ _ _ Hpos Hj) as [Hk Hlt].
  destruct (kid_field _ _ _ (S j) k Hwf Hj) as (f & Hf & Hkt & Hft & Hkw).
  rewrite Hk, Hc in Hf. cbn [fst snd] in Hf. change (arr_get [f0; f1] 1) with (Some f1) in Hf.
  by injection Hf as <-.
Qed.

Lemma seq_length : Z.of_nat (length es) = n.
Proof. rewrite (kids_length _ _ _ Hpos). lia. Qed.

Lemma seq_layout : 0 <= xf_offset f0 /\ xf_offset f0 + xct_sizeof (xf_type f0) <= xf_offset f1 /\
  xf_offset f1 + sizeof_ptr <= xct_sizeof t.
Proof.
  destruct seq_count as (_ & Hft & _). pose proof (to_size _ Hft) as H0. pose proof seq_type as Ht.
  assert (field_size t 0 f0 = xct_sizeof (xf_type f0) /\ field_size t 1 f1 = sizeof_ptr) as [E0 E1]
    by (unfold field_size; by rewrite Ha).
  pose proof (field_fits t 0 f0 Ht ltac:(by rewrite Hc)) as F0.
  pose proof (field_fits t 1 f1 Ht ltac:(by rewrite Hc)) as F1.
  pose proof (field_next t 0 f0 f1 Ht ltac:(by rewrite Ha) ltac:(by rewrite Hc) ltac:(by rewrite Hc) H0).
  rewrite E0 in F0. rewrite E1 in F1. specialize (F0 ltac:(lia)).
  specialize (F1 ltac:(unfold sizeof_ptr; lia)). lia.
Qed.

Lemma count_addr m : m0_xcode_addr m {| xo_type := t; xo_ptr := p |} 0 0 = Some (p + xf_offset f0).
Proof.
  destruct seq_count as (_ & Hft & _). rewrite (addr_field _ _ _ _ _ f0);
    [|by rewrite Hc|by apply to_opaque|lia]. by rewrite Ha.
Qed.

Definition elem_todo (q : Z) : list (xnode * Z) := (fun k => (k.2, q + k.1.2 * size)) <$> es.

Lemma elem_wires q : t_wires (elem_todo q) = wires es.
Proof. unfold t_wires, elem_todo, wires. by rewrite <- list_fmap_compose. Qed.

Lemma seq_sizes q : sizes (XNode t [] kids) = match es with [] => [] | _ => n * size ::
  t_sizes (elem_todo q) end.
Proof.
  destruct seq_count as (_ & _ & _ & _ & Hcs). rewrite sizes_eq. cbn [fmap list_fmap concat snd]. rewrite Hcs.
  assert (block_of t (length kids) (0, 0, c) = []) as -> by (unfold block_of; by rewrite Ha). cbn [app].
  assert (t_sizes (elem_todo q) = concat ((fun k => sizes k.2) <$> es)) as ->
    by (unfold t_sizes, elem_todo; by rewrite <- list_fmap_compose).
  pose proof seq_length as Hlen. pose proof seq_elem as Helem. destruct es as [|e es']; [done|].
  cbn [fmap list_fmap concat].
  destruct (Helem 0%nat e eq_refl) as (He1 & He2 & _).
  assert (block_of t (length ((0, 0, c) :: e :: es')) e = [n * size]) as ->.
  { unfold block_of. rewrite Ha, He2, He1. cbn [length pred]. cbn [length] in Hlen. rewrite Hlen. done. }
  cbn [app]. do 3 f_equal. apply list_fmap_ext. intros j k Hj. destruct (Helem (S j) k Hj) as (_ & Hk & _).
  unfold block_of. rewrite Hk, Ha. rewrite (bool_decide_false ((1, Z.of_nat (S j)) = (1, 0))); [done|].
  by intros [= ?].
Qed.

Lemma elem_areas q :
  NoDup (t_areas (elem_todo q)) /\ forall a, a ∈ t_areas (elem_todo q) -> a ∈ seqZ q (n * size).
Proof.
  assert (t_areas (elem_todo q) = areas_of ((fun k => (q + k.1.2 * size, size)) <$> es)) as ->.
  { unfold t_areas, areas_of, elem_todo. rewrite <- !list_fmap_compose. f_equal. apply list_fmap_ext. intros
      j k Hj. cbn.
    by destruct (seq_elem j k Hj) as (-> & _). }
  destruct (areas_packed q (q + n * size) ((fun k => (q + k.1.2 * size, size)) <$> es)) as [Hnd Hin].
  - intros i x Hx. rewrite list_lookup_fmap in Hx. destruct (es !! i) as [k|] eqn:Hk; [|done].
    injection Hx as <-.
    destruct (seq_elem i k Hk) as (_ & -> & Hi & _). cbn [fst snd]. nia.
  - intros i x y Hx Hy. rewrite list_lookup_fmap in Hx, Hy. destruct (es !! i) as [k|] eqn:Hk; [|done].
    injection Hx as <-.
    destruct (es !! S i) as [k'|] eqn:Hk'; [|done]. injection Hy as <-.
    destruct (seq_elem i k Hk) as (_ & -> & _). destruct (seq_elem _ k' Hk') as (_ & -> & _). cbn [fst snd].
    lia.
  - split; [done|]. intros a H%Hin. by apply elem_of_seqZ.
Qed.

(** What is known once the array is there. *)
Definition elems_known (q : Z) (done : list (Z * Z * xnode)) (R : mem -> Prop) : Prop :=
  kid_rep R t p (0, 0, c) /\ (forall m, R m -> load m slot sizeof_ptr = q) /\ Forall (kid_rep R t p) done.

(** The count is the first part. *)
Definition count_area : list Z := seqZ (p + xf_offset f0) (xct_sizeof (xf_type f0)).

Lemma count_area_in x : x ∈ count_area -> x ∈ seqZ p (xct_sizeof t) /\ x ∉ seqZ slot sizeof_ptr.
Proof.
  unfold count_area. pose proof seq_layout as Hl. rewrite !elem_of_seqZ. unfold sizeof_ptr in *. lia.
Qed.

Lemma slot_in x : x ∈ seqZ slot sizeof_ptr -> x ∈ seqZ p (xct_sizeof t).
Proof.
  destruct seq_count as (_ & Hft & _). pose proof (to_size _ Hft). pose proof seq_layout as Hl.
  rewrite !elem_of_seqZ. lia.
Qed.

Hypothesis Hpre : dec_pre io p (XNode t [] kids) al rest.

(** The bytes of the count and those of the elements. *)
Lemma seq_src : xs_mem io <$> take (length (wire c)) (cur_addrs (xcx_buf io)) = wire c /\
  xs_mem io <$> take (length (wires es)) (drop (length (wire c)) (cur_addrs (xcx_buf io))) = wires es.
Proof.
  pose proof (dp_src _ _ _ _ _ Hpre) as Psrc. rewrite wire_eq, app_nil_l, wires_cons, length_app,
    <- take_take_drop, fmap_app in Psrc.
  cbn [snd] in Psrc. apply app_inj_1 in Psrc; [done|].
  apply (f_equal length) in Psrc. rewrite !length_app, !length_fmap, !length_take, length_drop in *. lia.
Qed.

Lemma count_start : decoding count_area (al ++ rest) (fun _ => True) [(c, p + xf_offset f0)] [] io.
Proof.
  destruct seq_count as (Hct & Hft & _ & _ & Hcs). destruct Hpre as [Pwf _ Pheap _ _ _ Pdis Pz].
  cbn [n_type] in *.
  assert (t_areas [(c, p + xf_offset f0)] = count_area) as EA
    by (unfold t_areas, count_area; cbn; by rewrite app_nil_r, Hct).
  assert (pending [(c, p + xf_offset f0)] [] = count_area) as EP
    by (unfold pending, blocks; rewrite EA; cbn; by rewrite app_nil_r).
  assert (t_wires [(c, p + xf_offset f0)] = wire c) as Ew by (unfold t_wires; cbn; by rewrite app_nil_r).
  split; rewrite ?EP, ?EA, ?Ew; try done.
  - apply seq_src.
  - unfold t_sizes. cbn. by rewrite Hcs.
  - apply NoDup_seqZ.
  - intros a Hin%count_area_in. apply Pdis, elem_of_app. left. by apply Hin.
  - intros a Hin%count_area_in. by apply Pz, Hin.
Qed.

(** The footprint of a sequence that has elements. *)
Lemma seq_footprint q al' : es <> [] -> al = q :: al' ->
  W = seqZ p (xct_sizeof t) ++ seqZ q (n * size) ++ blocks al' (t_sizes (elem_todo q)).
Proof. intros He ->. unfold footprint, blocks. rewrite (seq_sizes q). by destruct es. Qed.

Lemma seq_heap : es <> [] -> exists q al', al = q :: al' /\ 0 < q < 2 ^ 64 /\
  Forall (fun a => 0 < a < 2 ^ 64) al' /\
  length al' = length (t_sizes (elem_todo q)).
Proof.
  intros He. destruct Hpre as [_ _ _ Plen Ppos _ _ _]. destruct al as [|q al'].
  { rewrite (seq_sizes 0) in Plen. by destruct es. }
  exists q, al'. apply Forall_cons in Ppos as [Hq Hpos']. rewrite (seq_sizes q) in Plen.
  split_and!; try done; [lia..|].
  destruct es; [done|]. cbn [length] in *. lia.
Qed.

Lemma seq_alloc io1 q al' :
  es <> [] -> al = q :: al' -> 0 < q < 2 ^ 64 ->
  decoding count_area (al ++ rest) (fun R => kid_rep R t p (0, 0, c)) [] [] io1 ->
  progress count_area io io1 (length (wire c)) ->
  let io2 := io_alloc io1 slot q (n * size) (al' ++ rest) in
  decoding W rest (elems_known q []) (elem_todo q) al' io2 /\ progress W io io2 (length (wire c)).
Proof.
  intros He Eal Hq [Kwf _ Kheap _ _ _ _ _ _ Kdone] (Qbv & Qa & Qf) io2.
  pose proof Hpre as [Pwf _ Pheap _ _ Pnd Pdis Pz].
  destruct (seq_heap He) as (q' & al'' & Eal' & _ & Hal & Hlen).
  rewrite Eal in Eal'. injection Eal' as <- <-.
  destruct (elem_areas q) as [Hnd Hin]. pose proof (seq_footprint q al' He Eal) as EW. rewrite EW in *.
  clear EW.
  apply NoDup_app in Pnd as (_ & N1 & N2). apply NoDup_app in N2 as (_ & N2 & N3).
  assert (forall x, x ∉ seqZ slot sizeof_ptr -> x ∉ seqZ q (n * size) -> xs_mem io2 x = xs_mem io1 x) as Hmem.
  { intros x H1 H2. unfold io2, io_alloc. cbn [xs_mem]. rewrite store_other by (by rewrite length_le_bytes).
    apply store_other. rewrite length_replicate, Z2Nat.id by nia. done. }
  assert (forall x, x ∈ seqZ q (n * size) -> xs_mem io2 x = 0) as Hzero.
  { intros x Hx. unfold io2, io_alloc. cbn [xs_mem]. rewrite store_other;
      [by apply store_zero|]. rewrite length_le_bytes.
    intros H%slot_in. apply (N1 x H). apply elem_of_app. by left. }
  set (W0 := seqZ p (xct_sizeof t) ++ seqZ q (n * size) ++ blocks al' (t_sizes (elem_todo q))) in *.
  assert (forall x, x ∈ seqZ p (xct_sizeof t) \/ x ∈ seqZ q (n * size) \/
    x ∈ blocks al' (t_sizes (elem_todo q)) -> x ∈ W0) as HW0
    by (intros x; unfold W0; rewrite !elem_of_app; tauto).
  assert (forall x, x ∉ W0 -> xs_mem io2 x = xs_mem io x) as Hout.
  { intros x Hx. rewrite Hmem; [apply Qf; intros H%count_area_in|intros H%slot_in|intros H]; apply Hx, HW0;
      tauto. }
  assert (forall x, x ∈ seqZ p (xct_sizeof t) -> x ∉ pending (elem_todo q) al' /\ x ∉ seqZ q (n * size))
    as Hpend.
  { intros x Hx. split; [intros [H%Hin|H]%elem_of_app|intros H]; apply (N1 x Hx), elem_of_app; auto. }
  assert (cur_addrs (xcx_buf io2) = drop (length (wire c)) (cur_addrs (xcx_buf io))) as Qa2 by done.
  split; [split|]; try done.
  - rewrite elem_wires, Qa2. etrans; [|apply seq_src]. apply fmap_mem_ext. intros x Hx%in_take%in_take_drop.
    apply Hout. intros H. by apply (Pdis x H).
  - unfold pending. apply NoDup_app. split_and!; try done. intros x H%Hin. by apply N2.
  - intros x [H%Hin|H]%elem_of_app; apply HW0; auto.
  - intros x Hx. rewrite Qa2. intros H%in_take_drop. by apply (Pdis x Hx).
  - intros x H%Hin. by apply Hzero.
  - split_and!; [|intros m Hm|constructor].
    + eapply kid_rep_mono; [|exact Kdone]. intros m Hm x Hx _. pose proof (count_area_in x Hx) as [H1 H2].
      rewrite (Hm x); [by apply Hmem, Hpend|by apply HW0; left|by apply Hpend].
    + rewrite <- (load_store (store (xs_mem io1) q (replicate (Z.to_nat (n * size)) 0)) slot q) by lia.
      apply load_ext.
      intros x Hx%slot_in. by apply Hm; [apply HW0; left|apply Hpend].
Qed.

(** The elements, once the array is there. *)
Lemma elem_addr_q m q j k : load m slot sizeof_ptr = q -> es !! j = Some k ->
  m0_xcode_addr m {| xo_type := t; xo_ptr := p |} k.1.1 k.1.2 = Some (q + k.1.2 * size).
Proof.
  intros Hq Hj. destruct (seq_elem j k Hj) as (_ & -> & Hlt & _). cbn [fst snd].
  rewrite (elem_addr m t p f0 f1), Hq; [|done|done|unfold UINT64_MAX; nia].
  rewrite u64_small by (unfold is_u64; nia). done.
Qed.

Lemma elem_known q j k R : es !! j = Some k ->
  (elems_known q (take j es) R /\ rep R (q + k.1.2 * size) k.2) -> elems_known q (take (S j) es) R.
Proof.
  intros Hj [(H1 & H2 & H3) Hr]. split_and!; try done. rewrite (take_S_r _ _ _ Hj). apply Forall_app.
  split; [done|]. apply Forall_singleton.
  eexists. split; [|exact Hr]. intros m Hm. eapply elem_addr_q; [by apply H2|done].
Qed.

Lemma elems_known_mono q d (R R' : mem -> Prop) : (forall m, R' m -> R m) -> elems_known q d R ->
  elems_known q d R'.
Proof. intros HR (H1 & H2 & H3). split_and!; [by eapply kid_rep_mono|auto|by eapply kids_rep_mono]. Qed.

Lemma known_tag m (R : mem -> Prop) : R m -> kid_rep R t p (0, 0, c) ->
  m0_xcode_tag m {| xo_type := t; xo_ptr := p |} = Some n.
Proof. intros HR H. destruct seq_count as (Hct & _ & Hcw & _).
eapply tag_ok; [exact HR|apply seq_type|by right|done..]. Qed.

Lemma elems_tag q d todo al1 io1 : decoding W rest (elems_known q d) todo al1 io1 ->
  m0_xcode_tag (xs_mem io1) {| xo_type := t; xo_ptr := p |} = Some n.
Proof. intros [_ _ _ _ _ _ _ _ _ (H & _)]. by eapply known_tag; [|exact H]. Qed.

Lemma elems_slot q d todo al1 io1 : decoding W rest (elems_known q d) todo al1 io1 ->
  load (xs_mem io1) slot sizeof_ptr = q.
Proof. intros [_ _ _ _ _ _ _ _ _ (_ & H & _)]. by apply H. Qed.

(** The areas of bytes. *)
Lemma bytes_areas q x : xf_type f1 = M0_XT_U8 -> x ∈ seqZ q n -> x ∈ t_areas (elem_todo q).
Proof.
  intros Hu8 [H1 H2]%elem_of_seqZ. pose proof seq_length as Hlen.
  destruct (lookup_lt_is_Some_2 es (Z.to_nat (x - q))) as [k Hk]; [lia|].
  unfold t_areas, elem_todo. rewrite <- list_fmap_compose. apply list_elem_of_In, in_concat.
  exists (seqZ x 1).
  split; apply list_elem_of_In; [|apply elem_of_seqZ; lia]. apply list_elem_of_fmap.
  exists k. split; [|by eapply list_elem_of_lookup_2]. destruct (seq_elem _ k Hk) as (E1 & E2 & _). cbn.
  rewrite E1, E2, Hu8. cbn. f_equal. lia.
Qed.

(** The elements of a byte array, copied at once. *)
Lemma bytes_done q al' io2 io3 :
  xf_type f1 = M0_XT_U8 -> decoding W rest (elems_known q []) (elem_todo q) al' io2 ->
  xs_heap io3 = xs_heap io2 -> cur_wf (xcx_buf io3) -> bc_bv (xcx_buf io3) = bc_bv (xcx_buf io2) ->
  cur_addrs (xcx_buf io3) = drop (length (wires es)) (cur_addrs (xcx_buf io2)) ->
  (forall a, a ∉ seqZ q n -> xs_mem io3 a = xs_mem io2 a) -> xs_mem io3 <$> seqZ q n = wires es ->
  decoding W rest (elems_known q es) [] [] io3 /\ progress W io2 io3 (length (wires es)).
Proof.
  intros Hu8 Hdec Qh Qwf Qbv Qa Qf Qm. pose proof Hdec as [Kwf _ Kheap Klen _ Knd Ksub Kdis _ Kdone].
  assert (Forall (fun k => wf_node k.2 /\ n_type k.2 = M0_XT_U8) es) as Hes.
  { apply Forall_lookup. intros j k Hj. destruct (seq_elem j k Hj) as (-> & _ & _ & ? & _). done. }
  destruct (bytes_length es Hes) as [Hwl Hsz].
  assert (t_sizes (elem_todo q) = []) as Ets by (unfold t_sizes, elem_todo; by rewrite <- list_fmap_compose).
  rewrite Ets in Klen. destruct al'; [|done]. pose proof seq_length as Hlen.
  assert (forall x, x ∈ seqZ q n -> x ∈ pending (elem_todo q) []) as Hcov
    by (intros x Hx; apply elem_of_app; left; by apply bytes_areas).
  split; [split|split_and!]; try done.
  - by rewrite Qh.
  - constructor.
  - intros a Ha'. by apply not_elem_of_nil in Ha'.
  - intros a Ha'. rewrite Qa. intros H%in_take_drop. by apply (Kdis a).
  - intros a Ha'. by apply not_elem_of_nil in Ha'.
  - assert (elems_known q [] (settled W [] (xs_mem io3))) as (G1 & G2 & _).
    { eapply elems_known_mono; [|exact Kdone]. intros m Hm x Hx Hn'. rewrite Hm;
        [|done|by apply not_elem_of_nil]. apply Qf. intros H. by apply Hn', Hcov. }
    split_and!; try done. apply Forall_lookup. intros j k Hj. eexists.
    split; [intros m Hm; eapply elem_addr_q; [by apply G2|done]|].
    destruct (seq_elem j k Hj) as (_ & -> & _). cbn [fst snd]. rewrite Hu8. cbn [xct_sizeof].
    rewrite Z.mul_1_r.
    eapply bytes_unrep; [exact Hes| |exact Hj]. intros m Hm. rewrite Hlen, <- Qm. apply fmap_mem_ext.
    intros x Hx.
    apply Hm; [by apply Ksub, Hcov|by apply not_elem_of_nil].
  - intros a Ha'. apply Qf. intros H. by apply Ha', Ksub, Hcov.
Qed.

(** ** Lemmas: the walk *)

Context (ex : bool) (stk : list m0_xcode_cursor_frame) (len : Z).
Hypothesis Hdepth : (length stk + height (XNode t [] kids) <= 10)%nat.
Hypothesis IH : Forall (fun k => dec_ok ex k.2) kids.

(** What holds when [i] sub-objects are decoded. *)
Definition seq_inv (i : nat) (io1 : xio) (len1 : Z) : Prop :=
  len1 = len /\
  match i with
  | 0%nat => io1 = io
  | 1%nat => decoding count_area (al ++ rest) (fun R => kid_rep R t p (0, 0, c)) [] [] io1 /\
  progress count_area io io1 (length (wire c))
  | S j => exists q al1, decoding W rest (elems_known q (take j es)) (drop j (elem_todo q)) al1 io1 /\
             progress W io io1 (length (wire c) + length (wires (take j es)))
  end.

Lemma kid_depth k : k ∈ kids -> dec_ok ex k.2 /\ (S (length stk) + height k.2 <= 10)%nat /\
  (S (length stk) < 10)%nat.
Proof.
  intros Hin. rewrite Forall_forall in IH. pose proof (height_kid t [] kids k Hin).
  split_and!; [by apply IH|lia|].
  destruct k as [? []]. cbn in *. lia.
Qed.

Lemma visit_count ab : kid_visited ex XO_DEC t p kids stk seq_inv 0 (0, 0, c) io ab len.
Proof.
  destruct (kid_depth (0, 0, c)) as (Hok & Hd & Hd'); [by left|]. destruct seq_count as (Hct & Hft & Hcw & _).
  eapply (kid_step ex t p kids stk seq_inv 0 (0, 0, c) io io ab len _ _ count_area (al ++ rest)
    (fun _ => True) [] [] Hok Hd);
    [done|apply count_addr| | |exact count_start|].
  - cbn zeta. apply (alloc_none _ _ _ _ _ _ _ _ f0); [done|by rewrite Hc|by apply to_opaque|by intros [_ ?]].
  - intros fr ab'. apply array_of_other. by intros [_ ?].
  - intros io' al' Hdec Hprog. split; [done|]. pose proof (k_len _ _ _ _ _ _ Hdec) as Hl.
    destruct al'; [|done].
    split; [|exact Hprog]. eapply decoding_weaken; [|exact Hdec]. intros R [_ Hr]. eexists.
    split; [|exact Hr]. intros m _. apply count_addr.
Qed.

Lemma first_slot io1 : progress count_area io io1 (length (wire c)) -> load (xs_mem io1) slot sizeof_ptr = 0.
Proof.
  intros (_ & _ & Hf). apply load_zero. intros x Hx. rewrite Hf; [|intros [_ H]%count_area_in; by apply H].
  apply (dp_zero _ _ _ _ _ Hpre). by apply slot_in.
Qed.

(** The first element: the array is allocated. *)
Lemma first_alloc k io1 :
  es !! 0%nat = Some k -> seq_inv 1 io1 len -> exists q al' io2,
    m0_xcode_addr (xs_mem io1) {| xo_type := t; xo_ptr := p |} k.1.1 k.1.2 = Some 0 /\
    (forall ab, let st x := frame_at (n_type k.2) x (0, 0) M0_XCODE_CURSOR_PRE ::
      frame_at t p k.1 M0_XCODE_CURSOR_IN :: stk in
     m0_xcode_alloc_obj io1 {| xcu_stack := st 0; xcu_above := ab |} = Some (0, io2,
       {| xcu_stack := st q; xcu_above := ab |})) /\
    decoding W rest (elems_known q []) (elem_todo q) al' io2 /\ progress W io io2 (length (wire c)).
Proof.
  intros Hk (_ & Hdec & Hprog). assert (es <> []) as He by (by intros E; rewrite E in Hk).
  destruct (seq_heap He) as (q & al' & Eal & Hq & _).
  destruct (seq_alloc io1 q al' He Eal Hq Hdec Hprog) as [Hdec2 Hprog2].
  destruct (seq_elem 0 k Hk) as (Hkt & Hk1 & Hlt & _ & Hft). rewrite Hk1, Hkt. cbn [fst snd].
  exists q, al', (io_alloc io1 slot q (n * size) (al' ++ rest)). split_and!; [| |exact Hdec2|apply Hprog2..].
  - rewrite (elem_addr _ t p f0 f1) by done. by rewrite first_slot.
  - intros ab. cbn zeta. eapply alloc_first;
      [apply (kid_depth k); right; by eapply list_elem_of_lookup_2|done|exact Hc|by apply to_opaque|
      |lia|done|done|by apply first_slot| |lia].
    + eapply known_tag; [|exact (k_done _ _ _ _ _ _ Hdec)]. done.
    + pose proof (k_heap _ _ _ _ _ _ Hdec) as Hh. rewrite Eal in Hh. exact Hh.
Qed.

(** An element that is decoded by itself. *)
Lemma visit_elem j k io0 io1 ab a q al1 :
  es !! j = Some k -> m0_xcode_addr (xs_mem io0) {| xo_type := t; xo_ptr := p |} k.1.1 k.1.2 = Some a ->
  (let st x := frame_at (n_type k.2) x (0, 0) M0_XCODE_CURSOR_PRE :: frame_at t p k.1 M0_XCODE_CURSOR_IN ::
    stk in
   m0_xcode_alloc_obj io0 {| xcu_stack := st a; xcu_above := ab |} = Some (0, io1,
     {| xcu_stack := st (q + k.1.2 * size); xcu_above := ab |})) ->
  (forall fr ab', array_of (xs_mem io1) {| xcu_stack := fr :: frame_at t p k.1 M0_XCODE_CURSOR_IN :: stk;
    xcu_above := ab' |} = Some false) ->
  decoding W rest (elems_known q (take j es)) (drop j (elem_todo q)) al1 io1 ->
  progress W io io1 (length (wire c) + length (wires (take j es))) ->
  kid_visited ex XO_DEC t p kids stk seq_inv (S j) k io0 ab len.
Proof.
  intros Hk Haddr Halloc Harr Hdec Hprog. destruct (kid_depth k) as (Hok & Hd & _);
    [right; by eapply list_elem_of_lookup_2|].
  assert (elem_todo q !! j = Some (k.2, q + k.1.2 * size)) as Hj
    by (unfold elem_todo; by rewrite list_lookup_fmap, Hk).
  rewrite (drop_S _ _ _ Hj) in Hdec.
  eapply (kid_step ex t p kids stk seq_inv (S j) k io0 io1 ab len a (q + k.1.2 * size) W rest _ _ al1 Hok
    Hd); [|done..|exact Hdec|].
  - intros R R' HR. by apply elems_known_mono.
  - intros io' al' Hdec' Hprog'. split; [done|]. exists q, al'.
    split; [eapply decoding_weaken; [|exact Hdec']; intros R; by apply elem_known|].
    rewrite (take_S_r _ _ _ Hk), wires_app, length_app, Nat.add_assoc. eapply progress_trans; [exact Hprog|].
    rewrite wires_cons, app_nil_r. exact Hprog'.
Qed.

(** The array of bytes, decoded at its first element. *)
Lemma visit_bytes k io1 ab :
  es !! 0%nat = Some k -> xf_type f1 = M0_XT_U8 -> seq_inv 1 io1 len ->
  kid_visited ex XO_DEC t p kids stk seq_inv 1 k io1 ab len.
Proof.
  intros Hk Hu8 Hinv. destruct (first_alloc k io1 Hk Hinv) as (q & al' & io2 & Haddr & Halloc & Hdec & Hprog).
  exists 0. split; [done|].
  destruct (kid_depth k) as (_ & _ & Hd); [right; by eapply list_elem_of_lookup_2|].
  destruct (seq_elem 0 k Hk) as (Hkt & Hk1 & Hlt & _ & Hft). rewrite Hu8 in Hkt.
  change (Z.of_nat 0) with 0 in *.
  rewrite Hkt, Hk1 in *. specialize (Halloc ab). cbn [fst snd] in *.
  assert (forall j k, es !! j = Some k -> wf_node k.2 /\ n_type k.2 = M0_XT_U8) as Hes.
  { intros j k' Hj. destruct (seq_elem j k' Hj) as (-> & _ & _ & ? & _). done. }
  destruct (bytes_length es (proj2 (Forall_lookup _ _) Hes)) as [Hwl _]. pose proof seq_length as Hlen.
  pose proof Hmul as Hmul'. rewrite Hu8 in Hmul'. cbn [xct_sizeof] in Hmul'. rewrite Z.mul_1_r in Hmul'.
  destruct (atom_visit_dec io2 M0_XT_U8 q (wires es) (frame_at M0_XT_U8 q (0, 0) M0_XCODE_CURSOR_PRE)
    (frame_at t p (1, 0) M0_XCODE_CURSOR_IN :: stk) ab len true n
    {| xcu_stack := frame_at t p (1, 0) M0_XCODE_CURSOR_POST :: stk;
      xcu_above := frame_at M0_XT_U8 q (0, 0) M0_XCODE_CURSOR_PRE :: ab |})
    as (io3 & Hv & Qh & Qwf & Qbv & Qa & Qf & Qm).
  - rewrite (array_of_first _ _ t p _ _ _ f0 f1 n Ha Hc (elems_tag _ _ _ _ _ Hdec)). rewrite Hu8.
    by rewrite (proj2 (Z.ltb_lt _ _)) by lia.
  - cbn [lookup list_lookup mbind option_bind frame_at s_obj]. rewrite (elems_tag _ _ _ _ _ Hdec).
    cbn [mbind option_bind xct_sizeof].
    rewrite Z.mul_1_l, u64_small by (unfold is_u64; lia). done.
  - unfold cursor_pop, m0_xcode_skip. cbn [xcu_stack tail take app xcu_above]. rewrite top_ok by lia. done.
  - apply Hdec.
  - lia.
  - unfold is_u64. lia.
  - rewrite <- (elem_wires q) at 1. rewrite (k_src _ _ _ _ _ _ Hdec). apply elem_wires.
  - intros x Hx. apply (k_dis _ _ _ _ _ _ Hdec).
    apply (k_sub _ _ _ _ _ _ Hdec). apply elem_of_app. left. by apply bytes_areas.
  - destruct (bytes_done q al' io2 io3 Hu8 Hdec Qh Qwf Qbv Qa Qf Qm) as [Hdec3 Hprog3].
    eexists 0%nat, io3, len, _, (frame_at t p (1, 0) M0_XCODE_CURSOR_POST :: stk).
    split; [|right; split; [reflexivity|]].
    + intros m. rewrite (after_dec ex _ io1 io2 _ (frame_at M0_XT_U8 q (0, 0) M0_XCODE_CURSOR_PRE));
        [|cbn; lia|done|exact Halloc].
      unfold visit. rewrite visit_atom; [|by rewrite <- Hu8|done|cbn; lia]. rewrite Hv. done.
    + split; [done|]. cbn [length]. destruct (length es) as [|j] eqn:Ej; [lia|].
      exists q, []. rewrite take_ge, drop_ge by (unfold elem_todo; rewrite ?length_fmap; lia). split; [done|].
      by eapply progress_trans.
Qed.

Lemma visit_kid i k io1 len1 ab :
  kids !! i = Some k -> seq_inv i io1 len1 -> kid_visited ex XO_DEC t p kids stk seq_inv i k io1 ab len1.
Proof.
  intros Hk Hinv. pose proof Hinv as [-> Hinv']. destruct i as [|[|j]]; cbn in Hk.
  - injection Hk as <-. subst io1. apply visit_count.
  - change (es !! 0%nat = Some k) in Hk. destruct (seq_elem 0 k Hk) as (Hkt & Hk1 & _ & Hkw & Hft).
    destruct (same_type (xf_type f1) M0_XT_U8) eqn:Hu8; [apply visit_bytes; try done; by apply to_u8|].
    destruct (first_alloc k io1 Hk Hinv) as (q & al' & io2 & Haddr & Halloc & Hdec & Hprog).
    eapply (visit_elem 0 k io1 io2 ab 0 q al'); try done.
    + rewrite Hk1. cbn [snd]. rewrite Z.mul_0_l, Z.add_0_r. rewrite Hk1 in Halloc. apply Halloc.
    + intros fr ab'. rewrite Hk1. change (Z.of_nat 0) with 0.
      rewrite (array_of_first _ _ t p _ _ _ f0 f1 n Ha Hc (elems_tag _ _ _ _ _ Hdec)), Hu8.
      by rewrite andb_false_r.
    + by rewrite Nat.add_0_r.
  - change (es !! S j = Some k) in Hk. destruct (seq_elem (S j) k Hk) as (Hkt & Hk1 & _ & Hkw & Hft).
    destruct Hinv' as (q & al1 & Hdec & Hprog).
    assert (~ (xct_aggr t = M0_XA_SEQUENCE /\ k.1 = (1, 0))) as Hne by (rewrite Hk1; intros [_ [= ?]]).
    eapply (visit_elem (S j) k io1 io1 ab _ q al1); try done.
    + eapply elem_addr_q; [|done]. by eapply elems_slot.
    + cbn zeta. apply (alloc_none _ _ _ _ _ _ _ _ f1);
        [apply (kid_depth k); right; by eapply list_elem_of_lookup_2|by rewrite Hk1,
        Hc|by apply to_opaque|done].
    + intros fr ab'. by apply array_of_other.
Qed.

Lemma inv_tag i io1 len1 : seq_inv (S i) io1 len1 -> kid_rep (eq (xs_mem io1)) t p (0, 0, c).
Proof.
  intros [_ Hinv]. destruct i as [|j].
  - destruct Hinv as [Hdec _]. eapply kid_rep_mono; [|exact (k_done _ _ _ _ _ _ Hdec)]. by intros m <-.
  - destruct Hinv as (q & al1 & Hdec & _). pose proof (k_done _ _ _ _ _ _ Hdec) as (H & _).
    eapply kid_rep_mono; [|exact H]. by intros m <-.
Qed.

(** At the end the object is there. *)
Lemma seq_post io' len' : seq_inv (length kids) io' len' -> len' = len /\
  dec_post io io' p (XNode t [] kids) al rest.
Proof.
  intros [-> Hinv]. split; [done|]. cbn [length] in Hinv.
  assert (wire (XNode t [] kids) = wire c ++ wires es) as Ew by (by rewrite wire_eq).
  destruct (length es) as [|j] eqn:Hl.
  - apply length_zero_iff_nil in Hl. destruct Hinv as [[Kwf _ Kheap _ _ _ _ _ _ Kdone] (Qbv & Qa & Qf)].
    assert (al = []) as Eal.
    { pose proof (dp_len _ _ _ _ _ Hpre) as H. rewrite (seq_sizes 0), Hl in H. by apply length_zero_iff_nil. }
    split; try done; rewrite ?Ew.
    + rewrite Hl. cbn [wires fmap list_fmap concat]. by rewrite app_nil_r.
    + by rewrite Kheap, Eal.
    + intros a Hn'. apply Qf. intros [H _]%count_area_in. apply Hn', elem_of_app. by left.
    + apply rep_eq. split; [by rewrite Ha|]. rewrite Hl. apply Forall_singleton.
      eapply kid_rep_mono; [|exact Kdone].
      intros m Hm x Hx _. apply Hm, elem_of_app. left. by apply count_area_in.
  - destruct Hinv as (q & al1 & Hdec & (Qbv & Qa & Qf)).
    rewrite take_ge in Hdec, Qa by lia. rewrite drop_ge in Hdec
      by (unfold elem_todo; rewrite length_fmap; lia).
    destruct Hdec as [Kwf _ Kheap Klen _ _ _ _ _ (G1 & G2 & G3)]. destruct al1; [|done].
    split; try done; rewrite ?Ew, ?length_app; try done.
    apply rep_eq. split; [by rewrite Ha|]. apply Forall_cons.
    split; [eapply kid_rep_mono; [|exact G1]|eapply kids_rep_mono; [|exact G3]].
    all: intros m Hm x Hx _; by apply Hm.
Qed.

Lemma dec_seq ab : decoded ex (XNode t [] kids) io p al rest stk ab len.
Proof.
  assert (xct_aggr t <> M0_XA_ATOM) as Hna by (by rewrite Ha).
  destruct (aggr_walk ex XO_DEC t p [] kids stk seq_inv Hwf Hna Hdepth)
    with (io := io) (len := len) (ab := ab)
    as (s & io' & len' & pos' & ab' & Hrun & Hinv).
  - intros i k io1 len1 ab1. apply visit_kid.
  - intros i io1 len1 c' Hinv [= <-] _. by eapply inv_tag.
  - done.
  - destruct (seq_post io' len' Hinv) as [-> Hpost]. exists s, io', pos', ab'. split; [|done]. intros k.
    cbn [n_type].
    unfold visit. rewrite visit_aggr; [|apply seq_type|done|cbn in Hdepth; lia]. apply Hrun.
Qed.

End seq.

(** ** Decoding of any tree *)

Lemma dec_all ex n : wf_node n -> dec_ok ex n.
Proof.
  induction n as [t bs kids IH] using xnode_rect'. intros Hwf.
  inversion Hwf as [? ? ? Ht Hsh Hty Hkids]; subst.
  assert (Forall (fun k => dec_ok ex k.2) kids) as IH'.
  { rewrite Forall_forall in *. intros k Hk. by apply IH, Hkids. }
  destruct (decide (xct_aggr t = M0_XA_ATOM)) as [Ha|Ha].
  { intros io p al rest stk ab len Hd Hpre Harr. apply dec_atom; try done; [cbn in Hd; lia|by apply Harr]. }
  assert (bs = []) as -> by (unfold shape in Hsh; destruct (xct_aggr t); try done; by destruct Hsh as [-> _]).
  destruct (decide (xct_aggr t = M0_XA_SEQUENCE)) as [Hs|Hs]; [|by apply dec_flat].
  unfold shape in Hsh. rewrite Hs in Hsh. destruct Hsh
    as (_ & f0 & f1 & c & es & Hc & -> & Hpos & Hsize & Hn & Hmul).
  intros io p al rest stk ab len Hd Hpre _. by eapply dec_seq.
Qed.
