(* ===== verification/XcodeRT.v ===== *)
(** * xcode: encoding and decoding are inverse

    An object that is encoded into a buffer and decoded from it is built anew, equal
    to the first, in the areas the allocator provides. *)
From stdpp Require Import strings.
From S2P Require Import Prelude Vec Xcode XcodeObj XcodeEnc XcodeDec XcodeSeq.
#[local] Open Scope motr_scope.

(** ** Lemmas: the topmost object *)

Section root.
Context (ex : bool) (op : xcode_op).

Lemma root_start k io t p len : type_ok t ->
  walk_loop ex (S k) op (wst io [frame_at t p (0, 0) M0_XCODE_CURSOR_NONE] [] len) =
  after ex op k (wst io [frame_at t p (0, 0) M0_XCODE_CURSOR_PRE] [] len).
Proof.
  intros Ht. rewrite walk_loop_S. unfold m0_xcode_next. cbn [wst w_io w_it]. rewrite top_ok by (cbn; lia).
  cbn [mbind option_bind].
  change (xo_type (s_obj (frame_at t p (0, 0) M0_XCODE_CURSOR_NONE))) with t. by rewrite check_ok.
Qed.

Lemma root_end k io t p pos ab len : type_ok t ->
  walk_loop ex (S k) op (wst io [frame_at t p pos M0_XCODE_CURSOR_POST] ab len) =
  Some (0, wst io [] (frame_at t p pos M0_XCODE_CURSOR_POST :: ab) len).
Proof.
  intros Ht. rewrite walk_loop_S. unfold m0_xcode_next. cbn [wst w_io w_it]. rewrite top_ok by (cbn; lia).
  cbn [mbind option_bind].
  change (xo_type (s_obj (frame_at t p pos M0_XCODE_CURSOR_POST))) with t. by rewrite check_ok.
Qed.

End root.

Lemma cursor_init_eq t p : m0_xcode_cursor_init {| xo_type := t; xo_ptr := p |} =
  {| xcu_stack := [frame_at t p (0, 0) M0_XCODE_CURSOR_NONE]; xcu_above := [] |}.
Proof. done. Qed.

(** A whole object is emitted. *)
Lemma emit_walk ex op n io p :
  op <> XO_DEC -> wf_node n -> (height n <= 10)%nat -> can_emit op io 0 (Z.of_nat (length (wire n))) ->
  rep (reach op io) p n ->
  exists s io' len' it', emitted op io 0 (wire n) io' len' /\ m0_xcode_ctx_top it' = Some p /\ forall k,
    (s <= k)%nat ->
    walk_loop ex k op {| w_io := io; w_it := m0_xcode_cursor_init {| xo_type := n_type n; xo_ptr := p |};
      w_length := 0 |} =
    Some (0, {| w_io := io'; w_it := it'; w_length := len' |}).
Proof.
  intros Hop Hwf Hh Hcan Hrep. assert (type_ok (n_type n)) as Ht by (by inversion Hwf).
  destruct (emit_ok ex op Hop n Hwf io p [] [] 0) as (s & io' & len' & pos' & ab' & Hrun & Hem);
    [cbn; lia|done|done|by intros _ ? ?|].
  eexists (S (s + 1)), io', len', _. split_and!; [exact Hem| |]; [|intros k Hk; rewrite cursor_init_eq].
  2:{
  replace k with (S (s + S (k - s - 2))) by lia. rewrite (root_start ex op _ io (n_type n) p 0 Ht).
  rewrite Hrun. by apply root_end. }
  done.
Qed.

Lemma data_size_ok ex n io p :
  wf_node n -> (height n <= 10)%nat -> Z.of_nat (length (wire n)) < 2 ^ 31 -> rep (eq (xs_mem io)) p n ->
  exists s, forall k, (s <= k)%nat -> m0_xcode_data_size ex k io {| xo_type := n_type n;
    xo_ptr := p |} = Some (Z.of_nat (length (wire n))).
Proof.
  intros Hwf Hh Hlen Hrep. destruct (emit_walk ex XO_LEN n io p)
    as (s & io' & len' & it' & (_ & _ & ->) & _ & Hrun); try done.
  { eapply rep_mono; [|exact Hrep]. by intros m ->. }
  exists s. intros k Hk. unfold m0_xcode_data_size, m0_xcode_length, ctx_walk. rewrite Hrun by done. done.
Qed.

(** The object is encoded at the point of a buffer. *)
Lemma xcode_encode_ok ex n io p :
  wf_node n -> (height n <= 10)%nat -> can_emit XO_ENC io 0 (Z.of_nat (length (wire n))) ->
  rep (reach XO_ENC io) p n ->
  exists s io', emitted XO_ENC io 0 (wire n) io' 0 /\ forall k, (s <= k)%nat ->
    m0_xcode_encdec ex k io {| xo_type := n_type n; xo_ptr := p |} M0_XCODE_ENCODE = Some (0, io',
      {| xo_type := n_type n; xo_ptr := p |}).
Proof.
  intros Hwf Hh Hcan Hrep. destruct (emit_walk ex XO_ENC n io p)
    as (s & io' & len' & it' & Hem & Htop & Hrun); try done.
  assert (len' = 0) as -> by (by destruct Hem as (_ & -> & _)).
  exists s, io'. split; [done|]. intros k Hk. unfold m0_xcode_encdec, m0_xcode_encode, ctx_walk.
  rewrite Hrun by done.
  cbn [mbind option_bind]. rewrite bool_decide_false by done. cbn [andb Z.eqb w_it w_io xo_ptr]. rewrite Htop.
  by destruct (p =? 0).
Qed.

(** The area of the topmost object. *)
Lemma alloc_root_new io t q h :
  0 < xct_sizeof t -> xs_heap io = q :: h -> q <> 0 ->
  m0_xcode_alloc_obj io {| xcu_stack := [frame_at t 0 (0, 0) M0_XCODE_CURSOR_PRE]; xcu_above := [] |} =
    Some (0, {| xs_mem := store (xs_mem io) q (replicate (Z.to_nat (xct_sizeof t)) 0); xcx_buf := xcx_buf io;
      xs_heap := h |},
      {| xcu_stack := [frame_at t q (0, 0) M0_XCODE_CURSOR_PRE]; xcu_above := [] |}).
Proof.
  intros Hs Hheap Hq. unfold m0_xcode_alloc_obj, allocp. rewrite top_ok by (cbn; lia).
  cbn [mbind option_bind].
  change (xcu_depth _ =? 0) with true. cbn [mbind option_bind frame_at s_obj xo_type xo_ptr].
  rewrite (proj2 (Z.eqb_neq (xct_sizeof t) 0)) by lia. cbn [negb andb Z.eqb M0_ASSERT mbind option_bind].
  unfold m0_alloc. rewrite Hheap.
  by rewrite !(proj2 (Z.eqb_neq q 0)) by done.
Qed.

(** The object is decoded from the point of a buffer. *)
Lemma xcode_decode_ok ex n io q al rest :
  wf_node n -> (height n <= 10)%nat -> 0 < xct_sizeof (n_type n) -> cur_wf (xcx_buf io) ->
  xs_mem io <$> take (length (wire n)) (cur_addrs (xcx_buf io)) = wire n ->
  xs_heap io = q :: al ++ rest -> length al = length (sizes n) ->
  Forall (fun a => 0 < a < 2 ^ 64) (q :: al) ->
  NoDup (footprint q n al) -> (forall a, a ∈ footprint q n al -> a ∉ cur_addrs (xcx_buf io)) ->
  exists s io', bc_bv (xcx_buf io') = bc_bv (xcx_buf io) /\ xs_heap io' = rest /\
    (forall a, a ∉ footprint q n al -> xs_mem io' a = xs_mem io a) /\
    rep (agree (footprint q n al) (xs_mem io')) q n /\
    forall k, (s <= k)%nat ->
    m0_xcode_encdec ex k io {| xo_type := n_type n; xo_ptr := 0 |} M0_XCODE_DECODE = Some (0, io',
      {| xo_type := n_type n; xo_ptr := q |}).
Proof.
  intros Hwf Hh Hs Hbuf Hsrc Hheap Hlen Hpos Hnd Hdis.
  assert (type_ok (n_type n)) as Ht by (by inversion Hwf).
  apply Forall_cons in Hpos as [Hq Hpos]. pose proof
    (alloc_root_new io (n_type n) q (al ++ rest) Hs Hheap ltac:(lia)) as Halloc.
  set (io1 := {| xs_mem := store (xs_mem io) q (replicate (Z.to_nat (xct_sizeof (n_type n))) 0);
    xcx_buf := xcx_buf io; xs_heap := al ++ rest |}) in *.
  assert (forall a, a ∉ footprint q n al -> xs_mem io1 a = xs_mem io a) as Hout.
  { intros a Ha. apply store_other. rewrite length_replicate, Z2Nat.id by lia. intros H. apply Ha,
      elem_of_app. by left. }
  assert (dec_pre io1 q n al rest) as Hpre.
  { split; try done.
    - etrans; [|exact Hsrc]. apply fmap_mem_ext. intros a Ha%in_take. apply Hout. intros H. by apply (Hdis a).
    - intros a Ha. by apply store_zero. }
  destruct (dec_all ex n Hwf io1 q al rest [] [] 0) as (s & io' & pos' & ab' & Hrun & [Qwf Qbv Qa Qh Qf Qr]);
    [cbn; lia|done|by intros _ ? ?|].
  exists (S (s + 1)), io'. split_and!; try done; [intros a Ha; by rewrite Qf, Hout|]. intros k Hk.
  unfold m0_xcode_encdec, m0_xcode_decode, ctx_walk. rewrite cursor_init_eq.
  replace k with (S (s + S (k - s - 2))) by lia.
  pose proof (root_start ex XO_DEC (s + S (k - s - 2)) io (n_type n) 0 0 Ht) as E.
  unfold wst at 1 in E. rewrite E. rewrite
    (after_dec ex _ io io1 _ (frame_at (n_type n) q (0, 0) M0_XCODE_CURSOR_PRE)); [|cbn; lia|done..].
  rewrite Hrun. rewrite root_end by done. done.
Qed.

(** An object is encoded into a buffer of its length. *)
Lemma enc_to_buf_ok ex n io p F buf h :
  wf_node n -> (height n <= 10)%nat -> Z.of_nat (length (wire n)) < 2 ^ 31 -> rep (agree F (xs_mem io)) p n ->
  xs_heap io = buf :: h -> 0 < buf -> (forall a, a ∈ F -> a ∉ seqZ buf (Z.of_nat (length (wire n)))) ->
  exists s io1, xs_mem io1 <$> seqZ buf (Z.of_nat (length (wire n))) = wire n /\ xs_heap io1 = h /\
    (forall a, a ∉ seqZ buf (Z.of_nat (length (wire n))) -> xs_mem io1 a = xs_mem io a) /\
    forall k, (s <= k)%nat ->
      m0_xcode_data_size ex k io {| xo_type := n_type n; xo_ptr := p |} = Some (Z.of_nat (length (wire n))) /\
      m0_xcode_obj_enc_to_buf ex k io {| xo_type := n_type n; xo_ptr := p |} = Some (0, io1, buf,
        Z.of_nat (length (wire n))).
Proof.
  intros Hwf Hh Hlen Hrep Hheap Hbuf HF. set (len := Z.of_nat (length (wire n))) in *.
  assert (is_u64 len) as Hu by (unfold is_u64; lia).
  destruct (bufvec_init_ok (buf_vec buf len)) as (cur & Hcur & Hcw & Hcb & Hca); [by apply buf_vec_wf|done|].
  rewrite buf_vec_addrs in Hca.
  set (ioe := {| xs_mem := store (xs_mem io) buf (replicate (Z.to_nat len) 0); xcx_buf := cur;
    xs_heap := h |}).
  assert (forall a, a ∉ seqZ buf len -> xs_mem ioe a = xs_mem io a) as Hm1.
  { intros a Ha. apply store_other. rewrite length_replicate, Z2Nat.id by lia. done. }
  destruct (data_size_ok ex n io p Hwf Hh Hlen) as (s1 & Hsize);
    [eapply rep_mono; [|exact Hrep]; by intros m <-|].
  destruct (xcode_encode_ok ex n ioe p Hwf Hh) as (s2 & io1 & (Eh & _ & Ewf & Ebv & Ea & Em & Ef) & Henc).
  { split_and!; [done|cbn [ioe xcx_buf]; rewrite Hca; apply NoDup_seqZ|cbn [ioe xcx_buf]; rewrite Hca,
      length_seqZ; lia]. }
  { eapply rep_mono; [|exact Hrep]. intros m Hm a Ha. cbn [reach] in Hm. rewrite Hm
      by (cbn [ioe xcx_buf]; rewrite Hca; by apply HF).
    by apply Hm1, HF. }
  change (xcx_buf ioe) with cur in Em, Ef. rewrite Hca, take_ge in Em, Ef by (rewrite length_seqZ; lia).
  exists (s1 `max` s2)%nat, (with_buf io1 (xs_mem io1) (xcx_buf io)). split_and!; try done.
  { intros a Ha. cbn [with_buf xs_mem]. by rewrite Ef, Hm1. }
  intros k Hk. split; [apply Hsize; lia|]. unfold m0_xcode_obj_enc_to_buf. rewrite Hsize by lia.
  cbn [mbind option_bind].
  fold len. rewrite (u64_small len) by done. unfold m0_alloc. rewrite Hheap.
  rewrite !(proj2 (Z.eqb_neq buf 0)) by lia.
  rewrite Hcur. cbn [mbind option_bind]. unfold with_buf at 1. cbn [xs_mem xs_heap]. fold ioe.
  rewrite Henc by lia. done.
Qed.

Lemma dec_from_buf_ok ex n io q al rest buf :
  wf_node n -> (height n <= 10)%nat -> 0 < xct_sizeof (n_type n) -> Z.of_nat (length (wire n)) < 2 ^ 31 ->
  xs_mem io <$> seqZ buf (Z.of_nat (length (wire n))) = wire n ->
  xs_heap io = q :: al ++ rest -> length al = length (sizes n) ->
  Forall (fun a => 0 < a < 2 ^ 64) (q :: al) ->
  NoDup (footprint q n al) -> (forall a, a ∈ footprint q n al -> a ∉ seqZ buf (Z.of_nat (length (wire n)))) ->
  exists s io', xs_heap io' = rest /\ (forall a, a ∉ footprint q n al -> xs_mem io' a = xs_mem io a) /\
    rep (agree (footprint q n al) (xs_mem io')) q n /\
    forall k, (s <= k)%nat -> m0_xcode_obj_dec_from_buf ex k io {| xo_type := n_type n;
      xo_ptr := 0 |} buf (Z.of_nat (length (wire n))) =
      Some (0, io', {| xo_type := n_type n; xo_ptr := q |}).
Proof.
  intros Hwf Hh Hs Hlen Hsrc Hheap Hal Hpos Hnd Hdis. set (len := Z.of_nat (length (wire n))) in *.
  assert (is_u64 len) as Hu by (unfold is_u64; lia).
  destruct (bufvec_init_ok (buf_vec buf len)) as (cur & Hcur & Hcw & Hcb & Hca); [by apply buf_vec_wf|done|].
  rewrite buf_vec_addrs in Hca.
  destruct (xcode_decode_ok ex n (with_buf io (xs_mem io) cur) q al rest Hwf Hh Hs)
    as (s & io2 & Dbv & Dh & Df & Dr & Hdec); try done.
  { cbn [with_buf xcx_buf xs_mem]. rewrite Hca, take_ge by (rewrite length_seqZ; lia). done. }
  { intros a Ha. cbn [with_buf xcx_buf]. rewrite Hca. by apply Hdis. }
  exists s, (with_buf io2 (xs_mem io2) (xcx_buf io)). split_and!; try done. intros k Hk.
  unfold m0_xcode_obj_dec_from_buf. rewrite Hcur. cbn [mbind option_bind]. by rewrite Hdec.
Qed.

(** ** Properties *)

(** C3. Whatever tree of records, unions, arrays, sequences and atoms an object
    represents, of height 10 at most, with less than 2^31 encoded bytes and without
    types that have operations of their own, m0_xcode_obj_enc_to_buf() followed by
    m0_xcode_obj_dec_from_buf() succeed, given enough iterations and memory.  The
    buffer has the length m0_xcode_data_size() computes and holds the bytes of the tree; the decoded object is at a new address
    and represents the same tree, in areas that were allocated with the sizes its
    sequences need; the first object still represents the tree.  [F] are the addresses
    the first object depends on, [buf], [q] and [al] the addresses the allocator
    returns, in this order. *)
Theorem xcode_roundtrip ex n io p F buf q al rest :
  wf_node n -> (height n <= 10)%nat -> 0 < xct_sizeof (n_type n) -> Z.of_nat (length (wire n)) < 2 ^ 31 ->
  rep (agree F (xs_mem io)) p n ->
  xs_heap io = buf :: q :: al ++ rest -> length al = length (sizes n) ->
  Forall (fun a => 0 < a < 2 ^ 64) (buf :: q :: al) ->
  NoDup (seqZ buf (Z.of_nat (length (wire n))) ++ footprint q n al) ->
  (forall a, a ∈ F -> a ∉ seqZ buf (Z.of_nat (length (wire n))) ++ footprint q n al) ->
  exists s io1 io2, xs_mem io1 <$> seqZ buf (Z.of_nat (length (wire n))) = wire n /\
    rep (agree (footprint q n al) (xs_mem io2)) q n /\ rep (agree F (xs_mem io2)) p n /\ xs_heap io2 = rest /\
    forall k, (s <= k)%nat ->
      m0_xcode_data_size ex k io {| xo_type := n_type n; xo_ptr := p |} = Some (Z.of_nat (length (wire n))) /\
      m0_xcode_obj_enc_to_buf ex k io {| xo_type := n_type n; xo_ptr := p |} = Some (0, io1, buf,
        Z.of_nat (length (wire n))) /\
      m0_xcode_obj_dec_from_buf ex k io1 {| xo_type := n_type n;
        xo_ptr := 0 |} buf (Z.of_nat (length (wire n))) =
        Some (0, io2, {| xo_type := n_type n; xo_ptr := q |}).
Proof.
  intros Hwf Hh Hs Hlen Hrep Hheap Hal Hpos Hnd HF. apply Forall_cons in Hpos as [Hbuf Hpos].
  apply NoDup_app in Hnd as (_ & Hnd1 & Hnd2).
  assert (forall a, a ∈ F -> a ∉ seqZ buf (Z.of_nat (length (wire n))) /\ a ∉ footprint q n al) as HF'.
  { intros a Ha. specialize (HF a Ha). rewrite elem_of_app in HF. tauto. }
  destruct (enc_to_buf_ok ex n io p F buf (q :: al ++ rest)) as (s1 & io1 & Em & Eh & Ef & Henc); try done;
    [lia|intros a Ha; by apply HF'|].
  destruct (dec_from_buf_ok ex n io1 q al rest buf) as (s2 & io2 & Dh & Df & Dr & Hdec); try done.
  { intros a Ha Hb. by apply (Hnd1 a). }
  exists (s1 `max` s2)%nat, io1, io2. split_and!; try done.
  - eapply rep_mono; [|exact Hrep]. intros m Hm a Ha. destruct (HF' a Ha) as [Hb Hf]. by rewrite Hm, Df, Ef.
  - intros k Hk. split_and!; [apply Henc; lia..|apply Hdec; lia].
Qed.

(** ** A concrete object *)

(** A test that a memory holds a tree at addresses of [F]. *)
Definition all_in (F l : list Z) : bool := forallb (fun a => bool_decide (a ∈ F)) l.

Fixpoint repb (F : list Z) (m : mem) (p : Z) (n : xnode) : bool :=
  let '(XNode t bs kids) := n in
  (negb (bool_decide (xct_aggr t = M0_XA_ATOM)) ||
    (all_in F (seqZ p (xct_sizeof t)) && bool_decide (m <$> seqZ p (xct_sizeof t) = bs))) &&
  (fix go ks := match ks with
    | [] => true
    | k :: ks =>
        match arr_get (xct_child t) k.1.1, m0_xcode_addr m {| xo_type := t; xo_ptr := p |} k.1.1 k.1.2 with
        | Some f, Some a =>
            negb (same_type (xf_type f) M0_XT_OPAQUE) &&
            (negb (bool_decide (xct_aggr t = M0_XA_SEQUENCE) && (k.1.1 =? 1)) ||
              all_in F (seqZ (p + xf_offset f) sizeof_ptr)) &&
            repb F m a k.2
        | _, _ => false
        end && go ks
    end) kids.

Lemma all_in_elem F l a : all_in F l = true -> a ∈ l -> a ∈ F.
Proof.
  intros H Ha. apply list_elem_of_In in Ha. unfold all_in in H. rewrite forallb_forall in H.
  by apply (bool_decide_eq_true (a ∈ F)), H.
Qed.

Lemma repb_ok F m n : forall p, repb F m p n = true -> rep (agree F m) p n.
Proof.
  induction n as [t bs kids IH] using xnode_rect'. intros p H. cbn [repb] in H.
  apply andb_prop in H as [Hat Hk]. apply rep_eq. split.
  - intros Ha m' Hm. rewrite bool_decide_true in Hat by done. cbn [negb orb] in Hat.
    apply andb_prop in Hat as [Hin Hb].
    apply bool_decide_eq_true in Hb. rewrite <- Hb. apply fmap_mem_ext. intros a Ha'. apply Hm.
    by eapply all_in_elem.
  - induction kids as [|k ks IHk]; [done|]. apply Forall_cons in IH as [IH1 IH2].
    apply andb_prop in Hk as [Hk1 Hk2].
    apply Forall_cons. split; [|by apply IHk].
    destruct (arr_get (xct_child t) k.1.1) as [f|] eqn:Hf; [|done].
    destruct (m0_xcode_addr m _ k.1.1 k.1.2) as [a|] eqn:Haddr; [|done].
    apply andb_prop in Hk1 as [Hk1 Hr]. apply andb_prop in Hk1 as [Ho Hslot]. apply negb_true_iff in Ho.
    exists a. split; [|by apply IH1]. intros m' Hm. rewrite <- Haddr. unfold m0_xcode_addr.
    cbn [xo_type xo_ptr].
    rewrite Hf. cbn [mbind option_bind]. rewrite Ho.
    destruct (bool_decide (xct_aggr t = M0_XA_SEQUENCE) && (k.1.1 =? 1)); [|done].
    cbn [negb orb andb] in *. rewrite (load_ext m m'); [done|]. intros x Hx. apply Hm. by eapply all_in_elem.
Qed.

(** A record of a number, a byte array, a union and a sequence of numbers. *)
Definition u32_at (name : string) (off : Z) : m0_xcode_field := mk_field (Some name) M0_XT_U32 0 None off.

Definition xt_bytes : m0_xcode_type :=
  mk_type 10 M0_XA_SEQUENCE None M0_XAT_VOID 16 [u32_at "nr" 0; mk_field (Some "data"%string) M0_XT_U8 0 None 8].
Definition xt_nums : m0_xcode_type :=
  mk_type 11 M0_XA_SEQUENCE None M0_XAT_VOID 16 [u32_at "nr" 0; mk_field (Some "num"%string) M0_XT_U16 0 None 8].
Definition xt_union : m0_xcode_type :=
  mk_type 12 M0_XA_UNION None M0_XAT_VOID 8
    [u32_at "disc" 0; mk_field (Some "small"%string) M0_XT_U8 7 None 4; mk_field (Some "large"%string) M0_XT_U32 9 None 4].
Definition xt_pair : m0_xcode_type :=
  mk_type 13 M0_XA_ARRAY None M0_XAT_VOID 4 [mk_field (Some "el"%string) M0_XT_U16 2 None 0].
Definition xt_rec : m0_xcode_type :=
  mk_type 14 M0_XA_RECORD None M0_XAT_VOID 48
    [mk_field (Some "bytes"%string) xt_bytes 0 None 0; mk_field (Some "nums"%string) xt_nums 0 None 16;
     mk_field (Some "var"%string) xt_union 0 None 32; mk_field (Some "pair"%string) xt_pair 0 None 40].

Definition atom (t : m0_xcode_type) (bs : list Z) : xnode := XNode t bs [].

Definition obj_bytes : xnode :=
  XNode xt_bytes [] [((0, 0), atom M0_XT_U32 [3; 0; 0; 0]); ((1, 0), atom M0_XT_U8 [97]);
    ((1, 1), atom M0_XT_U8 [98]); ((1, 2), atom M0_XT_U8 [99])].
Definition obj_nums : xnode :=
  XNode xt_nums [] [((0, 0), atom M0_XT_U32 [2; 0; 0; 0]); ((1, 0), atom M0_XT_U16 [1; 1]);
    ((1, 1), atom M0_XT_U16 [2; 2])].
Definition obj_union : xnode :=
  XNode xt_union [] [((0, 0), atom M0_XT_U32 [9; 0; 0; 0]); ((2, 0), atom M0_XT_U32 [4; 3; 2; 1])].
Definition obj_pair : xnode := XNode xt_pair [] [((0, 0), atom M0_XT_U16 [5; 6]);
  ((0, 1), atom M0_XT_U16 [7; 8])].
Definition obj_rec : xnode := XNode xt_rec [] [((0, 0), obj_bytes); ((1, 0), obj_nums); ((2, 0), obj_union);
  ((3, 0), obj_pair)].

(** The object lies at 100, its arrays at 200 and 300. *)
Definition obj_mem : mem :=
  store (store (store (fun _ => 0) 100
    ([3; 0; 0; 0; 0; 0; 0; 0; 200; 0; 0; 0; 0; 0; 0; 0] ++ [2; 0; 0; 0; 0; 0; 0; 0; 44; 1; 0; 0; 0; 0; 0;
      0] ++
     [9; 0; 0; 0; 4; 3; 2; 1] ++ [5; 6; 7; 8; 0; 0; 0; 0])) 200 [97; 98; 99]) 300 [1; 1; 2; 2].

Definition obj_io : xio :=
  {| xs_mem := obj_mem; xcx_buf := {| bc_vc := {| vc_seg := 0; vc_offset := 0 |}; bc_bv := buf_vec 0 0 |};
    xs_heap := [400; 500; 600; 700] |}.

Ltac fields_tac := repeat (apply Forall_cons_2; [cbn; unfold is_u32, is_u64; lia|]); apply Forall_nil_2.

Ltac type_ok_tac := split; [vm_compute; reflexivity|reflexivity|cbn; lia|fields_tac|fields_tac|
  intros H; first [discriminate H|reflexivity]|reflexivity].

Ltac typed_tac := repeat (apply Forall_cons_2; [eexists; split; reflexivity|]); apply Forall_nil_2.

Ltac atom_tac := apply wf_XNode; [type_ok_tac|repeat (split || constructor); cbn;
  lia|apply Forall_nil_2|apply Forall_nil_2].

Lemma obj_rec_wf : wf_node obj_rec.
Proof.
  assert (wf_node obj_bytes) as H1.
  { apply wf_XNode; [type_ok_tac| |typed_tac|repeat (apply Forall_cons_2;
      [cbn [snd]; unfold atom; atom_tac|]); apply Forall_nil_2].
    split; [done|]. eexists _, _, _, _. split_and!; reflexivity || (cbn; lia). }
  assert (wf_node obj_nums) as H2.
  { apply wf_XNode; [type_ok_tac| |typed_tac|repeat (apply Forall_cons_2;
      [cbn [snd]; unfold atom; atom_tac|]); apply Forall_nil_2].
    split; [done|]. eexists _, _, _, _. split_and!; reflexivity || (cbn; lia). }
  assert (wf_node obj_union) as H3.
  { apply wf_XNode; [type_ok_tac| |typed_tac|repeat (apply Forall_cons_2;
      [cbn [snd]; unfold atom; atom_tac|]); apply Forall_nil_2].
    split; [done|]. eexists _, _, (atom M0_XT_U32 [9; 0; 0; 0]). split; [reflexivity|]. right. eexists.
    split; reflexivity || (cbn; lia). }
  assert (wf_node obj_pair) as H4.
  { apply wf_XNode; [type_ok_tac| |typed_tac|repeat (apply Forall_cons_2;
      [cbn [snd]; unfold atom; atom_tac|]); apply Forall_nil_2].
    split; [done|]. eexists. split_and!; reflexivity || (cbn; lia). }
  apply wf_XNode; [type_ok_tac|by hnf|typed_tac|]. repeat (apply Forall_cons_2; [assumption|]).
  apply Forall_nil_2.
Qed.

(** The record above is encoded into the buffer at 400 and decoded at 500, with its
    arrays at 600 and 700. *)
Lemma xcode_roundtrip_witness : exists s io1 io2,
  xs_mem io1 <$> seqZ 400 27 = [3; 0; 0; 0; 97; 98; 99; 2; 0; 0; 0; 1; 1; 2; 2; 9; 0; 0; 0; 4; 3; 2; 1; 5; 6;
    7; 8] /\
  rep (eq (xs_mem io2)) 500 obj_rec /\
  m0_xcode_obj_enc_to_buf true s obj_io {| xo_type := xt_rec; xo_ptr := 100 |} = Some (0, io1, 400, 27) /\
  m0_xcode_obj_dec_from_buf true s io1 {| xo_type := xt_rec; xo_ptr := 0 |} 400 27 = Some (0, io2,
    {| xo_type := xt_rec; xo_ptr := 500 |}).
Proof.
  destruct (xcode_roundtrip true obj_rec obj_io 100 (seqZ 100 48 ++ seqZ 200 3 ++ seqZ 300 4) 400 500 [600;
    700] [])
    as (s & io1 & io2 & H1 & H2 & _ & _ & H3).
  - apply obj_rec_wf.
  - cbn. lia.
  - cbn. lia.
  - cbn. lia.
  - apply repb_ok. vm_compute. reflexivity.
  - reflexivity.
  - reflexivity.
  - repeat (apply Forall_cons_2; [lia|]). apply Forall_nil_2.
  - apply (bool_decide_unpack _). vm_compute. exact I.
  - assert (forallb (fun a => negb (bool_decide (a ∈ seqZ 400 (Z.of_nat (length (wire obj_rec))) ++ footprint
      500 obj_rec [600; 700])))
      (seqZ 100 48 ++ seqZ 200 3 ++ seqZ 300 4) = true) as H by (vm_compute; reflexivity).
    rewrite forallb_forall in H. intros a Ha%list_elem_of_In%H.
    by apply negb_true_iff, bool_decide_eq_false in Ha.
  - exists s, io1, io2. destruct (H3 s (le_n _)) as (_ & H4 & H5). split_and!; [exact H1| |exact H4|exact H5].
    eapply rep_mono; [|exact H2]. by intros m <-.
Defined.
