(* ===== verification/PoolMach.v ===== *)
(** * Pool machines

    src/pool/pool_machine.c: the states of the nodes and devices of a pool version,
    the events that change them, and the slots of spare space given to failed
    devices.  The pool machines of the versions of a pool share the list of failed
    devices of the pool; typed lists are lists here, the reader-writer lock of a
    machine is held around each operation and left out, and so are the call-backs of
    the configuration. *)
From S2P Require Import Prelude LibArith Fid.
#[local] Open Scope motr_scope.

(** ** State *)

Inductive m0_pool_nd_state :=
  | M0_PNDS_UNKNOWN | M0_PNDS_ONLINE | M0_PNDS_FAILED | M0_PNDS_OFFLINE
  | M0_PNDS_SNS_REPAIRING | M0_PNDS_SNS_REPAIRED | M0_PNDS_SNS_REBALANCING | M0_PNDS_NR.

#[export] Instance m0_pool_nd_state_eq : EqDecision m0_pool_nd_state.
Proof. solve_decision. Defined.

(** M0_IN() for states. *)
Definition nd_in (x : m0_pool_nd_state) (l : list m0_pool_nd_state) : bool := bool_decide (x ∈ l).

Definition ENOENT : Z := 2.

Definition POOL_PM_SPARE_SLOT_UNUSED : Z := 4294967295.

Definition M0_POOL_NODE : Z := 0.
Definition M0_POOL_DEVICE : Z := 1.

Record m0_poolmach_event := { pe_type : Z; pe_index : Z; pe_state : m0_pool_nd_state }.

Record m0_poolnode := { pn_id : m0_fid; pn_index : Z; pn_state : m0_pool_nd_state }.

(** [pd_node] is the index of the node, if there is one. *)
Record m0_pooldev := {
  pd_state : m0_pool_nd_state;
  pd_id : m0_fid;
  pd_index : Z;
  pd_sdev_idx : Z;
  pd_node : option Z
}.

Record m0_pool_spare_usage := { psu_device_index : Z; psu_device_state : m0_pool_nd_state }.

Record m0_poolmach_state := {
  pst_nr_nodes : Z;
  pst_nodes_array : list m0_poolnode;
  pst_nr_devices : Z;
  pst_devices_array : list m0_pooldev;
  pst_max_node_failures : Z;
  pst_nr_spares : Z;
  pst_max_device_failures : Z;
  pst_nr_failures : Z;
  pst_spare_usage_array : list m0_pool_spare_usage;
  pst_su_initialised : bool;
  pst_events_list : list m0_poolmach_event;
  pst_event_queue : list m0_poolmach_event
}.

(** A machine with the fields of its pool version it writes. *)
Record m0_poolmach := {
  pm_state : m0_poolmach_state;
  pm_is_initialised : bool;
  pv_is_dirty : bool;
  pv_sns_flags : Z
}.

(** The machines of a pool by their numbers, the failed devices of the pool as pairs
    of a machine and a device of it, and the results the allocator has in store. *)
Record m0_pool := { po_machs : Z -> m0_poolmach; po_failed_devices : list (Z * Z); po_alloc : list bool }.

Definition with_mach (w : m0_pool) (pm : Z) (mach : m0_poolmach) : m0_pool :=
  {| po_machs := fun i => if i =? pm then mach else po_machs w i; po_failed_devices := po_failed_devices w;
    po_alloc := po_alloc w |}.

Definition with_failed (w : m0_pool) (l : list (Z * Z)) : m0_pool :=
  {| po_machs := po_machs w; po_failed_devices := l; po_alloc := po_alloc w |}.

Definition state_of (w : m0_pool) (pm : Z) : m0_poolmach_state := pm_state (po_machs w pm).

Definition with_state (w : m0_pool) (pm : Z) (st : m0_poolmach_state) : m0_pool :=
  with_mach w pm {| pm_state := st; pm_is_initialised := pm_is_initialised (po_machs w pm);
    pv_is_dirty := pv_is_dirty (po_machs w pm); pv_sns_flags := pv_sns_flags (po_machs w pm) |}.

(** M0_ALLOC_PTR(): whether there is memory. *)
Definition pool_alloc (w : m0_pool) : bool * m0_pool :=
  match po_alloc w with
  | [] => (false, w)
  | b :: l => (b, {| po_machs := po_machs w; po_failed_devices := po_failed_devices w; po_alloc := l |})
  end.

Section fields.
Context (st : m0_poolmach_state).

Definition upd_nodes (x : list m0_poolnode) : m0_poolmach_state :=
  {| pst_nr_nodes := pst_nr_nodes st; pst_nodes_array := x; pst_nr_devices := pst_nr_devices st;
    pst_devices_array := pst_devices_array st;
     pst_max_node_failures := pst_max_node_failures st; pst_nr_spares := pst_nr_spares st;
       pst_max_device_failures := pst_max_device_failures st;
     pst_nr_failures := pst_nr_failures st; pst_spare_usage_array := pst_spare_usage_array st;
       pst_su_initialised := pst_su_initialised st;
     pst_events_list := pst_events_list st; pst_event_queue := pst_event_queue st |}.

Definition upd_devices (x : list m0_pooldev) : m0_poolmach_state :=
  {| pst_nr_nodes := pst_nr_nodes st; pst_nodes_array := pst_nodes_array st;
    pst_nr_devices := pst_nr_devices st; pst_devices_array := x;
     pst_max_node_failures := pst_max_node_failures st; pst_nr_spares := pst_nr_spares st;
       pst_max_device_failures := pst_max_device_failures st;
     pst_nr_failures := pst_nr_failures st; pst_spare_usage_array := pst_spare_usage_array st;
       pst_su_initialised := pst_su_initialised st;
     pst_events_list := pst_events_list st; pst_event_queue := pst_event_queue st |}.

Definition upd_spares (x : list m0_pool_spare_usage) : m0_poolmach_state :=
  {| pst_nr_nodes := pst_nr_nodes st; pst_nodes_array := pst_nodes_array st;
    pst_nr_devices := pst_nr_devices st; pst_devices_array := pst_devices_array st;
     pst_max_node_failures := pst_max_node_failures st; pst_nr_spares := pst_nr_spares st;
       pst_max_device_failures := pst_max_device_failures st;
     pst_nr_failures := pst_nr_failures st; pst_spare_usage_array := x;
       pst_su_initialised := pst_su_initialised st;
     pst_events_list := pst_events_list st; pst_event_queue := pst_event_queue st |}.

Definition upd_failures (x : Z) : m0_poolmach_state :=
  {| pst_nr_nodes := pst_nr_nodes st; pst_nodes_array := pst_nodes_array st;
    pst_nr_devices := pst_nr_devices st; pst_devices_array := pst_devices_array st;
     pst_max_node_failures := pst_max_node_failures st; pst_nr_spares := pst_nr_spares st;
       pst_max_device_failures := pst_max_device_failures st;
     pst_nr_failures := x; pst_spare_usage_array := pst_spare_usage_array st;
       pst_su_initialised := pst_su_initialised st;
     pst_events_list := pst_events_list st; pst_event_queue := pst_event_queue st |}.

Definition upd_initialised (x : bool) : m0_poolmach_state :=
  {| pst_nr_nodes := pst_nr_nodes st; pst_nodes_array := pst_nodes_array st;
    pst_nr_devices := pst_nr_devices st; pst_devices_array := pst_devices_array st;
     pst_max_node_failures := pst_max_node_failures st; pst_nr_spares := pst_nr_spares st;
       pst_max_device_failures := pst_max_device_failures st;
     pst_nr_failures := pst_nr_failures st; pst_spare_usage_array := pst_spare_usage_array st;
       pst_su_initialised := x;
     pst_events_list := pst_events_list st; pst_event_queue := pst_event_queue st |}.

Definition upd_events (l q : list m0_poolmach_event) : m0_poolmach_state :=
  {| pst_nr_nodes := pst_nr_nodes st; pst_nodes_array := pst_nodes_array st;
    pst_nr_devices := pst_nr_devices st; pst_devices_array := pst_devices_array st;
     pst_max_node_failures := pst_max_node_failures st; pst_nr_spares := pst_nr_spares st;
       pst_max_device_failures := pst_max_device_failures st;
     pst_nr_failures := pst_nr_failures st; pst_spare_usage_array := pst_spare_usage_array st;
       pst_su_initialised := pst_su_initialised st;
     pst_events_list := l; pst_event_queue := q |}.

End fields.

(** M0_CNT_INC() and M0_CNT_DEC() of the number of failures. *)
Definition failures_inc (st : m0_poolmach_state) : option m0_poolmach_state :=
  let n := u32 (pst_nr_failures st + 1) in
  _ ← M0_ASSERT (negb (n =? 0)); Some (upd_failures st n).

Definition failures_dec (st : m0_poolmach_state) : option m0_poolmach_state :=
  _ ← M0_ASSERT (negb (pst_nr_failures st =? 0)); Some (upd_failures st (u32 (pst_nr_failures st - 1))).

(** ** Initialisation *)

Definition zero_fid : m0_fid := M0_FID_INIT 0 0.

Definition state_init (nr_nodes nr_devices nr_spare max_node_failures max_device_failures : Z) :
  m0_poolmach_state :=
  {| pst_nr_nodes := nr_nodes;
     pst_nodes_array := (fun i => {| pn_id := zero_fid; pn_index := i; pn_state := M0_PNDS_ONLINE |}) <$>
       seqZ 0 nr_nodes;
     pst_nr_devices := nr_devices;
     pst_devices_array := (fun i => {| pd_state := M0_PNDS_UNKNOWN; pd_id := zero_fid; pd_index := i;
       pd_sdev_idx := 0; pd_node := None |})
       <$> seqZ 0 nr_devices;
     pst_max_node_failures := max_node_failures;
     pst_nr_spares := nr_spare;
     pst_max_device_failures := max_device_failures;
     pst_nr_failures := 0;
     pst_spare_usage_array := (fun _ => {| psu_device_index := POOL_PM_SPARE_SLOT_UNUSED;
       psu_device_state := M0_PNDS_UNKNOWN |})
       <$> seqZ 0 nr_spare;
     pst_su_initialised := false;
     pst_events_list := [];
     pst_event_queue := [] |}.

(** The machine and its state as poolmach_init() sets it. *)
Definition with_init (w : m0_pool) (pm : Z) (init : bool) (st : m0_poolmach_state) : m0_pool :=
  with_mach w pm {| pm_state := st; pm_is_initialised := init; pv_is_dirty := pv_is_dirty (po_machs w pm);
    pv_sns_flags := pv_sns_flags (po_machs w pm) |}.

(** The four areas are allocated together; a failure of one frees the others. *)
Definition m0_poolmach_init (w : m0_pool)
  (pm nr_nodes nr_devices nr_spare max_node_failures max_device_failures : Z) : option (Z * m0_pool) :=
  let '(a, w) := pool_alloc w in
  let '(b, w) := pool_alloc w in
  let '(c, w) := pool_alloc w in
  let '(d, w) := pool_alloc w in
  if negb (a && b && c && d) then Some (- ENOMEM, w)
  else
    let st := state_init nr_nodes nr_devices nr_spare max_node_failures max_device_failures in
    _ ← M0_ASSERT (negb (pm_is_initialised (po_machs w pm)));
    Some (0, with_init w pm true st).

(** The devices leave the list of failed devices. The state is freed: nothing uses it
    until the machine is initialised again. *)
Definition m0_poolmach_fini (w : m0_pool) (pm : Z) : m0_pool :=
  let st := state_of w pm in
  let failed := foldl (fun l i => filter (fun x => x <> (pm, i)) l) (po_failed_devices w)
    (seqZ 0 (pst_nr_devices st)) in
  with_init (with_failed w failed) pm false (upd_events st [] (pst_event_queue st)).

(** ** Events *)

Definition dev_state (st : m0_poolmach_state) (i : Z) : option m0_pool_nd_state :=
  d ← arr_get (pst_devices_array st) i; Some (pd_state d).

(** Whether the device is linked into the list. *)
Definition pool_failed_devs_tlink_is_in (w : m0_pool) (pd : Z * Z) :
  bool := bool_decide (pd ∈ po_failed_devices w).

Definition dev_id (w : m0_pool) (pd : Z * Z) : option m0_fid :=
  d ← arr_get (pst_devices_array (state_of w pd.1)) pd.2; Some (pd_id d).

Definition disk_is_in (w : m0_pool) (pd : Z * Z) : option bool :=
  id ← dev_id w pd;
  foldr (fun d r => (x ← dev_id w d; Some (m0_fid_eq x id)) ||? r) (Some false) (po_failed_devices w).

Definition poolmach_equeue_add (w : m0_pool) (pm : Z) (event : m0_poolmach_event) : Z * m0_pool :=
  let '(ok, w) := pool_alloc w in
  if negb ok then (- ENOMEM, w)
  else
    let st := state_of w pm in
    (0, with_state w pm (upd_events st (pst_events_list st) (pst_event_queue st ++ [event]))).

Definition m0_poolmach_equeue_length (w : m0_pool) (pm : Z) :
  Z := Z.of_nat (length (pst_event_queue (state_of w pm))).

(** The loops over the spare slots: the first slot from [i] on that satisfies [f]. *)
Fixpoint spare_find (f : m0_pool_spare_usage -> bool) (slots : list m0_pool_spare_usage) (n : nat) (i : Z) :
  option (option Z) :=
  match n with
  | O => Some None
  | S n => s ← arr_get slots i; if f s then Some (Some i) else spare_find f slots n (i + 1)
  end.

Definition spare_used_by (dev : Z) (s : m0_pool_spare_usage) : bool := psu_device_index s =? dev.

Definition spare_usage_arr_update (st : m0_poolmach_state) (event : m0_poolmach_event) :
  option m0_poolmach_state :=
  i ← spare_find (spare_used_by POOL_PM_SPARE_SLOT_UNUSED) (pst_spare_usage_array st)
    (Z.to_nat (pst_nr_spares st)) 0;
  match i with
  | Some i =>
      slots ← arr_set (pst_spare_usage_array st) i {| psu_device_index := pe_index event;
        psu_device_state := pe_state event |};
      Some (upd_spares st slots)
  | None => Some st
  end.

(** The check of the transition. *)
Definition transition_ok (old new : m0_pool_nd_state) : bool :=
  match old with
  | M0_PNDS_UNKNOWN => true
  | M0_PNDS_ONLINE => nd_in new [M0_PNDS_OFFLINE; M0_PNDS_FAILED]
  | M0_PNDS_OFFLINE => nd_in new [M0_PNDS_ONLINE; M0_PNDS_FAILED]
  | M0_PNDS_FAILED => nd_in new [M0_PNDS_SNS_REPAIRING]
  | M0_PNDS_SNS_REPAIRING => nd_in new [M0_PNDS_SNS_REPAIRED; M0_PNDS_FAILED]
  | M0_PNDS_SNS_REPAIRED => nd_in new [M0_PNDS_SNS_REBALANCING]
  | M0_PNDS_SNS_REBALANCING => nd_in new [M0_PNDS_ONLINE; M0_PNDS_SNS_REPAIRED]
  | M0_PNDS_NR => false
  end.

Definition set_dev_state (d : m0_pooldev) (s : m0_pool_nd_state) : m0_pooldev :=
  {| pd_state := s; pd_id := pd_id d; pd_index := pd_index d; pd_sdev_idx := pd_sdev_idx d;
    pd_node := pd_node d |}.

Definition set_node_state (n : m0_poolnode) (s : m0_pool_nd_state) : m0_poolnode :=
  {| pn_id := pn_id n; pn_index := pn_index n; pn_state := s |}.

(** The device goes to the tail of the list of failed devices. *)
Definition failed_add (w : m0_pool) (pd : Z * Z) : m0_pool := with_failed w (po_failed_devices w ++ [pd]).

(** "pool_failed_devs_tlink_is_in(pd) || disk_is_in(...)". *)
Definition is_listed (w : m0_pool) (pd : Z * Z) : option bool :=
  if pool_failed_devs_tlink_is_in w pd then Some true else disk_is_in w pd.

(** Step 4, the device becomes online. *)
Definition online_update (w : m0_pool) (pm : Z) (old : m0_pool_nd_state) (event : m0_poolmach_event) :
  option m0_pool :=
  let st := state_of w pm in
  let pd := (pm, pe_index event) in
  i ← spare_find (spare_used_by (pe_index event)) (pst_spare_usage_array st) (Z.to_nat (pst_nr_spares st)) 0;
  st ← match i with
       | Some i =>
           s ← arr_get (pst_spare_usage_array st) i;
           _ ← M0_ASSERT (nd_in (psu_device_state s) [M0_PNDS_OFFLINE; M0_PNDS_SNS_REBALANCING]);
           slots ← arr_set (pst_spare_usage_array st) i
                     {| psu_device_index := POOL_PM_SPARE_SLOT_UNUSED;
                       psu_device_state := psu_device_state s |};
           Some (upd_spares st slots)
       | None => Some st
       end;
  let w := with_state w pm st in
  if bool_decide (old = M0_PNDS_UNKNOWN) then
    _ ← M0_ASSERT (negb (pool_failed_devs_tlink_is_in w pd)); Some w
  else
    _ ← M0_ASSERT (nd_in old [M0_PNDS_OFFLINE; M0_PNDS_SNS_REBALANCING]);
    st ← failures_dec st;
    Some (with_failed (with_state w pm st) (filter (fun x => x <> pd) (po_failed_devices w))).

(** Step 4, the device fails. *)
Definition failed_update (w : m0_pool) (pm : Z) (old : m0_pool_nd_state) (event : m0_poolmach_event) :
  option m0_pool :=
  let st := state_of w pm in
  let pd := (pm, pe_index event) in
  st ← (if nd_in old [M0_PNDS_UNKNOWN; M0_PNDS_ONLINE; M0_PNDS_OFFLINE] then spare_usage_arr_update st event
    else Some st);
  st ← (if negb (nd_in old [M0_PNDS_OFFLINE; M0_PNDS_SNS_REPAIRING]) then failures_inc st else Some st);
  let w := with_state w pm st in
  listed ← is_listed w pd;
  Some (if listed : bool then w else failed_add w pd).

(** Step 4, the device goes through repair or re-balancing. *)
Definition repair_update (w : m0_pool) (pm : Z) (event : m0_poolmach_event) : option m0_pool :=
  let st := state_of w pm in
  let pd := (pm, pe_index event) in
  i ← spare_find (spare_used_by (pe_index event)) (pst_spare_usage_array st) (Z.to_nat (pst_nr_spares st)) 0;
  st ← match i with
       | Some i =>
           slots ← arr_set (pst_spare_usage_array st) i {| psu_device_index := pe_index event;
             psu_device_state := pe_state event |};
           Some (upd_spares st slots)
       | None => Some st
       end;
  let w := with_state w pm st in
  listed ← is_listed w pd;
  if listed : bool then Some w
  else st ← failures_inc st; Some (failed_add (with_state w pm st) pd).

(** Step 4. *)
Definition device_update (w : m0_pool) (pm : Z) (old : m0_pool_nd_state) (event : m0_poolmach_event) :
  option m0_pool :=
  match pe_state event with
  | M0_PNDS_ONLINE => online_update w pm old event
  | M0_PNDS_OFFLINE =>
      st ← failures_inc (state_of w pm);
      _ ← M0_ASSERT (negb (pool_failed_devs_tlink_is_in w (pm, pe_index event)));
      Some (with_state w pm st)
  | M0_PNDS_FAILED => failed_update w pm old event
  | M0_PNDS_SNS_REPAIRING | M0_PNDS_SNS_REPAIRED | M0_PNDS_SNS_REBALANCING => repair_update w pm event
  | _ => Some w
  end.

(** The part under the lock. *)
Definition event_apply (w : m0_pool) (pm : Z) (old : m0_pool_nd_state) (event : m0_poolmach_event) :
  option (Z * m0_pool) :=
  let st := state_of w pm in
  w ← (if pe_type event =? M0_POOL_NODE then
         n ← arr_get (pst_nodes_array st) (pe_index event);
         nodes ← arr_set (pst_nodes_array st) (pe_index event) (set_node_state n (pe_state event));
         Some (with_state w pm (upd_nodes st nodes))
       else
         d ← arr_get (pst_devices_array st) (pe_index event);
         devs ← arr_set (pst_devices_array st) (pe_index event) (set_dev_state d (pe_state event));
         device_update (with_state w pm (upd_devices st devs)) pm old event);
  let '(ok, w) := pool_alloc w in
  let st := state_of w pm in
  let st := if ok : bool then upd_events st (pst_events_list st ++ [event]) (pst_event_queue st) else st in
  Some (if ok : bool then 0 else - ENOMEM,
        with_mach w pm {| pm_state := st; pm_is_initialised := pm_is_initialised (po_machs w pm);
                          pv_is_dirty := 0 <? pst_nr_failures st;
                          pv_sns_flags := if pst_nr_failures st <=? pst_max_device_failures st then 0 else
                            pv_sns_flags (po_machs w pm) |}).

Definition m0_poolmach_state_transit (w : m0_pool) (pm : Z) (event : m0_poolmach_event) :
  option (Z * m0_pool) :=
  let st := state_of w pm in
  if negb ((pe_type event =? M0_POOL_NODE) || (pe_type event =? M0_POOL_DEVICE)) then Some (- EINVAL, w)
  else if negb (nd_in (pe_state event) [M0_PNDS_ONLINE; M0_PNDS_FAILED; M0_PNDS_OFFLINE;
    M0_PNDS_SNS_REPAIRING;
                                        M0_PNDS_SNS_REPAIRED; M0_PNDS_SNS_REBALANCING]) then Some (- EINVAL,
                                          w)
  else if (pe_type event =? M0_POOL_NODE) && (pst_nr_nodes st <=? pe_index event) ||
          (pe_type event =? M0_POOL_DEVICE) && (pst_nr_devices st <=? pe_index event) then Some (- EINVAL, w)
  else
    old ← (if pe_type event =? M0_POOL_NODE then n ← arr_get (pst_nodes_array st) (pe_index event);
      Some (pn_state n)
           else dev_state st (pe_index event));
    if (pe_type event =? M0_POOL_DEVICE) && negb (pst_su_initialised st) then Some
      (poolmach_equeue_add w pm event)
    else if bool_decide (old = pe_state event) then Some (0, w)
    else if negb (transition_ok old (pe_state event)) then Some (- EINVAL, w)
    else event_apply w pm old event.

Definition m0_poolmach_state_last_cancel (w : m0_pool) (pm : Z) : m0_pool :=
  let st := state_of w pm in
  with_state w pm (upd_events st (removelast (pst_events_list st)) (pst_event_queue st)).

(** ** Queries *)

Definition m0_poolmach_device_state (w : m0_pool) (pm device_index : Z) :
  option (Z * option m0_pool_nd_state) :=
  let st := state_of w pm in
  if pst_nr_devices st <=? device_index then Some (- EINVAL, None)
  else s ← dev_state st device_index; Some (0, Some s).

Definition m0_poolmach_node_state (w : m0_pool) (pm node_index : Z) : option (Z * option m0_pool_nd_state) :=
  let st := state_of w pm in
  if pst_nr_nodes st <=? node_index then Some (- EINVAL, None)
  else n ← arr_get (pst_nodes_array st) node_index; Some (0, Some (pn_state n)).

Definition m0_poolmach_device_node_return (w : m0_pool) (pm device_index : Z) : option (Z * option Z) :=
  let st := state_of w pm in
  if pst_nr_devices st <=? device_index then Some (- EINVAL, None)
  else d ← arr_get (pst_devices_array st) device_index; Some (0, pd_node d).

Definition m0_poolmach_device_is_in_spare_usage_array (w : m0_pool) (pm device_index : Z) : option bool :=
  let st := state_of w pm in
  i ← spare_find (spare_used_by device_index) (pst_spare_usage_array st) (Z.to_nat (pst_nr_spares st)) 0;
  Some (bool_decide (is_Some i)).

(** The states of a device that is out of order. *)
Definition repair_states : list m0_pool_nd_state :=
  [M0_PNDS_FAILED; M0_PNDS_SNS_REPAIRING; M0_PNDS_SNS_REPAIRED; M0_PNDS_SNS_REBALANCING].

(** The common part of the two queries: a search among the first [n] slots. *)
Definition spare_query (st : m0_poolmach_state) (states : list m0_pool_nd_state) (n device_index : Z) :
  option (Z * Z) :=
  if pst_nr_devices st <=? device_index then Some (- EINVAL, 0)
  else
    device_state ← dev_state st device_index;
    if negb (nd_in device_state states) then Some (- ENOENT, 0)
    else
      i ← spare_find (spare_used_by device_index) (pst_spare_usage_array st) (Z.to_nat n) 0;
      match i with
      | Some i =>
          s ← arr_get (pst_spare_usage_array st) i;
          _ ← M0_ASSERT (nd_in (psu_device_state s) states);
          Some (0, i)
      | None => Some (- ENOENT, 0)
      end.

Definition m0_poolmach_sns_repair_spare_query (w : m0_pool) (pm device_index : Z) : option (Z * Z) :=
  let st := state_of w pm in spare_query st repair_states (pst_nr_spares st) device_index.

Definition m0_poolmach_sns_repair_spare_contains_data (w : m0_pool) (pm spare_slot : Z) (check_state :
  bool) : option bool :=
  u ← arr_get (pst_spare_usage_array (state_of w pm)) spare_slot;
  Some (negb (psu_device_index u =? POOL_PM_SPARE_SLOT_UNUSED) &&
        negb (bool_decide (psu_device_state u = if check_state then M0_PNDS_SNS_REPAIRING else
          M0_PNDS_SNS_REPAIRED))).

Definition m0_poolmach_sns_rebalance_spare_query (w : m0_pool) (pm device_index : Z) : option (Z * Z) :=
  let st := state_of w pm in spare_query st [M0_PNDS_SNS_REBALANCING] (pst_max_device_failures st)
    device_index.

(** The first device from [i] on with the identifier. *)
Fixpoint fid_find (devs : list m0_pooldev) (fid : m0_fid) (n : nat) (i : Z) : option (option m0_pooldev) :=
  match n with
  | O => Some None
  | S n => d ← arr_get devs i; if m0_fid_eq (pd_id d) fid then Some (Some d) else fid_find devs fid n (i + 1)
  end.

(** The result code and the index. *)
Definition m0_poolmach_fid_to_idx (w : m0_pool) (pm : Z) (fid : m0_fid) : option (Z * Z) :=
  let st := state_of w pm in
  d ← fid_find (pst_devices_array st) fid (Z.to_nat (pst_nr_devices st)) 0;
  Some match d with Some d => (0, pd_index d) | None => (- ENOENT, 0) end.

Definition m0_poolmach_nr_dev_failures (w : m0_pool) (pm : Z) : Z :=
  let st := state_of w pm in
  Z.of_nat (length (filter (fun s => psu_device_index s <> POOL_PM_SPARE_SLOT_UNUSED)
                           (take (Z.to_nat (pst_nr_spares st)) (pst_spare_usage_array st)))).

Definition m0_poolmach_gob2cob (types : fid_types) (w : m0_pool) (pm : Z) (gfid : m0_fid) (idx : Z) :
  option m0_fid :=
  d ← arr_get (pst_devices_array (state_of w pm)) idx;
  m0_fid_convert_gob2cob types gfid (pd_sdev_idx d).

(** ** Deferred events and the failure vector *)

Definition poolmach_event_queue_drop (w : m0_pool) (pm : Z) (ev : m0_poolmach_event) : m0_pool :=
  let st := state_of w pm in
  with_state w pm (upd_events st (pst_events_list st)
    (filter (fun e => pe_index e <> pe_index ev) (pst_event_queue st))).

(** The loop over the queue; no event is added to it meanwhile. *)
Fixpoint queue_apply (w : m0_pool) (pm : Z) (queue : list m0_poolmach_event) : option m0_pool :=
  match queue with
  | [] => Some w
  | e :: queue =>
      '(_, w) ← m0_poolmach_state_transit w pm e;
      let st := state_of w pm in
      queue_apply (with_state w pm (upd_events st (pst_events_list st) (tail (pst_event_queue st)))) pm queue
  end.

Definition m0_poolmach_event_queue_apply (w : m0_pool) (pm : Z) : option m0_pool :=
  _ ← M0_ASSERT (pst_su_initialised (state_of w pm));
  queue_apply w pm (pst_event_queue (state_of w pm)).

(** enum m0_ha_obj_state as a number; M0_NC_UNKNOWN has no entry in the table, which
    is therefore 0, M0_PNDS_UNKNOWN. *)
Definition m0_ha2pm_state_map (hastate : Z) : option m0_pool_nd_state :=
  arr_get [M0_PNDS_UNKNOWN; M0_PNDS_ONLINE; M0_PNDS_FAILED; M0_PNDS_OFFLINE; M0_PNDS_SNS_REPAIRING;
    M0_PNDS_SNS_REPAIRED;
           M0_PNDS_SNS_REBALANCING; M0_PNDS_ONLINE] hastate.

Record m0_ha_note := { no_id : m0_fid; no_state : Z }.

(** The body of the loop over the failure vector. *)
Definition failvec_note (w : m0_pool) (pm : Z) (note : m0_ha_note) : option m0_pool :=
  '(rc, pd_idx) ← m0_poolmach_fid_to_idx w pm (no_id note);
  if rc =? - ENOENT then Some w
  else
    state ← m0_ha2pm_state_map (no_state note);
    let pme := {| pe_type := M0_POOL_DEVICE; pe_index := pd_idx; pe_state := state |} in
    w ← (if negb (nd_in state [M0_PNDS_FAILED; M0_PNDS_OFFLINE]) then
           st ← spare_usage_arr_update (state_of w pm) pme;
           let w := with_state w pm st in
           listed ← is_listed w (pm, pd_idx);
           if listed : bool then Some w else st ← failures_inc st;
             Some (failed_add (with_state w pm st) (pm, pd_idx))
         else Some w);
    '(rc, w) ← m0_poolmach_state_transit w pm pme;
    let w := poolmach_event_queue_drop w pm pme in
    _ ← M0_ASSERT (rc =? 0);
    Some w.

Fixpoint failvec_notes (w : m0_pool) (pm : Z) (nvec : list m0_ha_note) : option m0_pool :=
  match nvec with
  | [] => Some w
  | note :: nvec => w ← failvec_note w pm note; failvec_notes w pm nvec
  end.

Definition m0_poolmach_failvec_apply (w : m0_pool) (pm : Z) (nvec : list m0_ha_note) : option m0_pool :=
  _ ← M0_ASSERT (negb (pst_su_initialised (state_of w pm)));
  w ← failvec_notes (with_state w pm (upd_initialised (state_of w pm) true)) pm nvec;
  m0_poolmach_event_queue_apply w pm.

(** The body of the loop over the failed devices of the pool. *)
Definition inherit_dev (w : m0_pool) (pm : Z) (dev : Z * Z) : option (Z * m0_pool) :=
  let st := state_of w pm in
  pd ← arr_get (pst_devices_array (state_of w dev.1)) dev.2;
  found ← fid_find (pst_devices_array st) (pd_id pd) (Z.to_nat (pst_nr_devices st)) 0;
  match found with
  | None => Some (0, w)
  | Some d =>
      let pme := {| pe_type := M0_POOL_DEVICE; pe_index := pd_index d; pe_state := pd_state pd |} in
      w ← (if negb (bool_decide (pd_state pd = M0_PNDS_FAILED)) then
             st ← spare_usage_arr_update st pme; st ← failures_inc st; Some (with_state w pm st)
           else Some w);
      m0_poolmach_state_transit w pm pme
  end.

(** The devices that follow [dev] in the list when the loop body starts. *)
Definition list_after (l : list (Z * Z)) (dev : Z * Z) : option (Z * Z) :=
  match list_find (eq dev) l with Some (i, _) => l !! S i | None => None end.

Fixpoint inherit_loop (fuel : nat) (w : m0_pool) (pm : Z) (dev : option (Z * Z)) : option (Z * m0_pool) :=
  match dev, fuel with
  | None, _ => Some (0, w)
  | Some _, O => None
  | Some d, S fuel =>
      let next := list_after (po_failed_devices w) d in
      '(rc, w) ← inherit_dev w pm d;
      if negb (rc =? 0) then Some (rc, w) else inherit_loop fuel w pm next
  end.

Definition poolmach_spare_inherit (w : m0_pool) (pm : Z) : option (Z * m0_pool) :=
  _ ← M0_ASSERT (negb (pst_su_initialised (state_of w pm)));
  let w := with_state w pm (upd_initialised (state_of w pm) true) in
  '(rc, w) ← inherit_loop (length (po_failed_devices w)) w pm (head (po_failed_devices w));
  w ← m0_poolmach_event_queue_apply w pm;
  Some (rc, w).

(** ** Initialisation by the configuration *)

(** The objects the directory iterator visits, with the state HA reports for them. *)
Inductive conf_objv := ConfEnclosure (node : m0_fid) (ha_state : Z) |
  ConfDrive (id : m0_fid) (sd_dev_idx ha_state : Z).

(** The result code, the pool and the two indices. *)
Definition poolmach_state_update (w : m0_pool) (pm : Z) (obj : conf_objv) (idx_nodes idx_devices : Z) :
  option (Z * m0_pool * Z * Z) :=
  let st := state_of w pm in
  match obj with
  | ConfEnclosure id ha =>
      let idx_nodes := if negb (idx_devices =? 0) then u32 (idx_nodes + 1) else idx_nodes in
      _ ← M0_ASSERT ((idx_devices =? 0) || negb (idx_nodes =? 0));
      n ← arr_get (pst_nodes_array st) idx_nodes;
      nodes ← arr_set (pst_nodes_array st) idx_nodes {| pn_id := id; pn_index := idx_nodes;
        pn_state := pn_state n |};
      s ← m0_ha2pm_state_map ha;
      '(rc, w) ← m0_poolmach_state_transit (with_state w pm (upd_nodes st nodes)) pm
                   {| pe_type := M0_POOL_NODE; pe_index := idx_nodes; pe_state := s |};
      Some (rc, w, idx_nodes, idx_devices)
  | ConfDrive id sdev ha =>
      d ← arr_get (pst_devices_array st) idx_devices;
      devs ← arr_set (pst_devices_array st) idx_devices
               {| pd_state := pd_state d; pd_id := id; pd_index := idx_devices; pd_sdev_idx := sdev;
                 pd_node := Some idx_nodes |};
      s ← m0_ha2pm_state_map ha;
      '(rc, w) ← m0_poolmach_state_transit (with_state w pm (upd_devices st devs)) pm
                   {| pe_type := M0_POOL_DEVICE; pe_index := idx_devices; pe_state := s |};
      let idx_devices := u32 (idx_devices + 1) in
      _ ← M0_ASSERT (negb (idx_devices =? 0));
      Some (rc, w, idx_nodes, idx_devices)
  end.

Fixpoint conf_loop (w : m0_pool) (pm : Z) (objs : list conf_objv) (idx_nodes idx_devices : Z) :
  option (Z * m0_pool * Z) :=
  match objs with
  | [] => Some (0, w, idx_devices)
  | o :: objs =>
      '(rc, w, idx_nodes, idx_devices) ← poolmach_state_update w pm o idx_nodes idx_devices;
      if negb (rc =? 0) then Some (rc, w, idx_devices) else conf_loop w pm objs idx_nodes idx_devices
  end.

Definition m0_poolmach_init_by_conf (w : m0_pool) (pm : Z) (objs : list conf_objv) : option (Z * m0_pool) :=
  '(rc, w, idx_devices) ← conf_loop w pm objs 0 0;
  if negb (rc =? 0) then Some (rc, w)
  else _ ← M0_ASSERT (idx_devices <=? pst_nr_devices (state_of w pm)); Some (0, w).
