(* ===== verification/PoolMachInv.v ===== *)
(** * Pool machines: invariant and refinement

    What a pool machine keeps about its devices whatever events come: the slots of
    spare space belong to different devices that are out of order, the number of
    failures is the number of devices that do not serve, and the list of failed
    devices of the pool has the devices that are out of order. *)
From S2P Require Import Prelude LibArith Fid PoolMach.
#[local] Open Scope motr_scope.

(** ** Specification *)

(** The states of nodes and devices, and the owners of the spare slots. *)
Record pool_abs := { pa_nodes : list m0_pool_nd_state; pa_devs : list m0_pool_nd_state; pa_slots :
  list (option Z) }.

Definition slot_abs (s : m0_pool_spare_usage) : option Z :=
  if psu_device_index s =? POOL_PM_SPARE_SLOT_UNUSED then None else Some (psu_device_index s).

Definition mach_abs (st : m0_poolmach_state) : pool_abs :=
  {| pa_nodes := pn_state <$> pst_nodes_array st; pa_devs := pd_state <$> pst_devices_array st;
     pa_slots := slot_abs <$> pst_spare_usage_array st |}.

(** The first free slot is given to a device; with no free slot nothing happens. *)
Definition slot_take (slots : list (option Z)) (dev : Z) : list (option Z) :=
  match list_find (eq None) slots with Some (k, _) => <[k := Some dev]> slots | None => slots end.

Definition slot_free (slots : list (option Z)) (dev : Z) : list (option Z) :=
  (fun o => if bool_decide (o = Some dev) then None else o) <$> slots.

Definition spec_slots (slots : list (option Z)) (dev : Z) (old new : m0_pool_nd_state) : list (option Z) :=
  match new with
  | M0_PNDS_ONLINE => slot_free slots dev
  | M0_PNDS_FAILED => if nd_in old [M0_PNDS_UNKNOWN; M0_PNDS_ONLINE; M0_PNDS_OFFLINE] then slot_take slots
    dev else slots
  | _ => slots
  end.

Definition event_states : list m0_pool_nd_state :=
  [M0_PNDS_ONLINE; M0_PNDS_FAILED; M0_PNDS_OFFLINE; M0_PNDS_SNS_REPAIRING; M0_PNDS_SNS_REPAIRED;
    M0_PNDS_SNS_REBALANCING].

(** The state an event changes, if it is a valid event. *)
Definition event_old (a : pool_abs) (ev : m0_poolmach_event) : option m0_pool_nd_state :=
  if negb (nd_in (pe_state ev) event_states) then None
  else if pe_type ev =? M0_POOL_NODE then arr_get (pa_nodes a) (pe_index ev)
  else if pe_type ev =? M0_POOL_DEVICE then arr_get (pa_devs a) (pe_index ev)
  else None.

(** Whether an event has an effect. *)
Definition event_applies (a : pool_abs) (ev : m0_poolmach_event) : bool :=
  match event_old a ev with
  | Some old => negb (bool_decide (old = pe_state ev)) && transition_ok old (pe_state ev)
  | None => false
  end.

(** The result code, when there is memory or not. *)
Definition spec_rc (a : pool_abs) (ev : m0_poolmach_event) (mem : bool) : Z :=
  match event_old a ev with
  | Some old => if bool_decide (old = pe_state ev) then 0 else if negb (transition_ok old (pe_state ev)) then
    - EINVAL
                else if mem then 0 else - ENOMEM
  | None => - EINVAL
  end.

Definition spec_event (a : pool_abs) (ev : m0_poolmach_event) : pool_abs :=
  if negb (event_applies a ev) then a
  else
    let i := Z.to_nat (pe_index ev) in
    if pe_type ev =? M0_POOL_NODE then
      {| pa_nodes := <[i := pe_state ev]> (pa_nodes a); pa_devs := pa_devs a; pa_slots := pa_slots a |}
    else
      {| pa_nodes := pa_nodes a; pa_devs := <[i := pe_state ev]> (pa_devs a);
         pa_slots := spec_slots (pa_slots a) (pe_index ev) (default M0_PNDS_NR (pa_devs a !! i))
           (pe_state ev) |}.

(** ** Invariant *)

Definition out_of_order (s : m0_pool_nd_state) : Prop := s ∈ repair_states.

(** What a slot may record of the state of its device: a repair that is given up
    leaves the record as it is. *)
Definition slot_state_ok (dev slot : m0_pool_nd_state) : Prop :=
  out_of_order dev /\ (slot = dev \/ dev = M0_PNDS_FAILED /\ slot = M0_PNDS_SNS_REPAIRING).

Definition not_serving (s : m0_pool_nd_state) : Prop := s <> M0_PNDS_UNKNOWN /\ s <> M0_PNDS_ONLINE.

#[export] Instance out_of_order_dec s : Decision (out_of_order s).
Proof. unfold out_of_order. apply _. Defined.
#[export] Instance not_serving_dec s : Decision (not_serving s).
Proof. unfold not_serving. apply _. Defined.

Lemma out_of_order_iff s : out_of_order s <->
  match s with M0_PNDS_FAILED | M0_PNDS_SNS_REPAIRING | M0_PNDS_SNS_REPAIRED |
    M0_PNDS_SNS_REBALANCING => True | _ => False end.
Proof. rewrite <- (bool_decide_spec (out_of_order s)). by destruct s; vm_compute. Qed.

Lemma serving_count s : (if decide (not_serving s) then 1 else 0) = match s with M0_PNDS_UNKNOWN |
  M0_PNDS_ONLINE => 0 | _ => 1 end.
Proof. by destruct s; vm_compute. Qed.

Definition failures (states : list m0_pool_nd_state) : Z := Z.of_nat (length (filter not_serving states)).

Record mach_ok (w : m0_pool) (pm : Z) : Prop := {
  mk_nodes : Z.of_nat (length (pst_nodes_array (state_of w pm))) = pst_nr_nodes (state_of w pm);
  mk_devs : Z.of_nat (length (pst_devices_array (state_of w pm))) = pst_nr_devices (state_of w pm);
  mk_max : pst_nr_devices (state_of w pm) < POOL_PM_SPARE_SLOT_UNUSED;
  mk_spares : Z.of_nat (length (pst_spare_usage_array (state_of w pm))) = pst_nr_spares (state_of w pm);
  mk_known i d : pst_devices_array (state_of w pm) !! i = Some d -> pd_state d <> M0_PNDS_NR;
  mk_slots k s : pst_spare_usage_array (state_of w pm) !! k = Some s ->
  psu_device_index s <> POOL_PM_SPARE_SLOT_UNUSED ->
    exists x, dev_state (state_of w pm) (psu_device_index s) = Some x /\ slot_state_ok x (psu_device_state s);
  mk_unique k k' s s' : pst_spare_usage_array (state_of w pm) !! k = Some s ->
  pst_spare_usage_array (state_of w pm) !! k' = Some s' ->
    psu_device_index s = psu_device_index s' -> psu_device_index s <> POOL_PM_SPARE_SLOT_UNUSED -> k = k';
  mk_count : pst_nr_failures (state_of w pm) = failures (pd_state <$> pst_devices_array (state_of w pm));
  mk_listed i x : dev_state (state_of w pm) i = Some x -> (pm, i) ∈ po_failed_devices w <-> out_of_order x;
  mk_failed d : d ∈ po_failed_devices w -> exists id, dev_id w d = Some id;
  mk_own i j id : dev_id w (pm, i) = Some id -> dev_id w (pm, j) = Some id -> i = j;
  mk_foreign d i id : d ∈ po_failed_devices w -> d.1 <> pm -> dev_id w (pm, i) = Some id ->
  dev_id w d <> Some id
}.

(** ** Lemmas: slots *)

Lemma spare_find_from f slots k n : (k + n = length slots)%nat ->
  spare_find f slots n (Z.of_nat k) = Some ((fun x => Z.of_nat (k + x.1)) <$> list_find (fun s => f s = true)
    (drop k slots)).
Proof.
  revert k. induction n as [|n IH]; intros k Hl.
  { rewrite drop_ge by lia. done. }
  destruct (lookup_lt_is_Some_2 slots k) as [s Hs]; [lia|]. rewrite (drop_S _ _ _ Hs).
  cbn [spare_find list_find].
  assert (arr_get slots (Z.of_nat k) = Some s) as ->
    by (unfold arr_get; rewrite (proj2 (Z.leb_le _ _)) by lia; by rewrite Nat2Z.id).
  cbn [mbind option_bind]. destruct (f s) eqn:Hf.
  - rewrite decide_True by done. cbn. by rewrite Nat.add_0_r.
  - rewrite decide_False by done. replace (Z.of_nat k + 1) with (Z.of_nat (S k)) by lia. rewrite IH by lia.
    f_equal. rewrite <- option_fmap_compose. apply option_fmap_ext. intros [i x]. cbn. f_equal. lia.
Qed.

Lemma spare_find_all f slots nr : Z.of_nat (length slots) = nr ->
  spare_find f slots (Z.to_nat nr) 0 = Some ((fun x => Z.of_nat x.1) <$> list_find (fun s => f s = true)
    slots).
Proof. intros <-. rewrite Nat2Z.id. apply (spare_find_from f slots 0). done. Qed.

Lemma count_insert `{forall x : A, Decision (P x)} (l : list A) i x y : l !! i = Some y ->
  Z.of_nat (length (filter P (<[i := x]> l))) =
  Z.of_nat (length (filter P l)) - (if decide (P y) then 1 else 0) + (if decide (P x) then 1 else 0).
Proof.
  revert i. induction l as [|z l IH]; intros [|i] Hi; [done|done| |].
  - injection Hi as ->. cbn [insert list_insert]. rewrite !filter_cons.
    destruct (decide (P x)), (decide (P y)); cbn [length]; lia.
  - change (<[S i := x]> (z :: l)) with (z :: <[i := x]> l). rewrite !filter_cons. specialize (IH i Hi).
    destruct (decide (P z)); cbn [length]; lia.
Qed.

#[export] Instance m0_fid_eq_decision : EqDecision m0_fid.
Proof. solve_decision. Defined.

Lemma fid_eq_iff a b : m0_fid_eq a b = true <-> a = b.
Proof. destruct a, b. unfold m0_fid_eq. cbn. rewrite andb_true_iff, !Z.eqb_eq. naive_solver. Qed.

(** ** Lemmas: the list of failed devices *)

(** What the search for a device by its identifier relies on. *)
Definition ids_ok (w : m0_pool) (pm : Z) : Prop :=
  (forall d, d ∈ po_failed_devices w -> exists id, dev_id w d = Some id) /\
  (forall i j id, dev_id w (pm, i) = Some id -> dev_id w (pm, j) = Some id -> i = j) /\
  (forall d i id, d ∈ po_failed_devices w -> d.1 <> pm -> dev_id w (pm, i) = Some id ->
    dev_id w d <> Some id).

Lemma mach_ids w pm : mach_ok w pm -> ids_ok w pm.
Proof. intros []. by split_and!. Qed.

Lemma disk_is_in_fold w id l :
  (forall d, d ∈ l -> exists id, dev_id w d = Some id) ->
  foldr (fun d r => (x ← dev_id w d; Some (m0_fid_eq x id)) ||? r) (Some false) l = Some
    (bool_decide (Exists (fun d => dev_id w d = Some id) l)).
Proof.
  induction l as [|d l IH]; intros Hl; [done|]. destruct (Hl d) as [x Hx]; [by left|]. cbn [foldr].
  rewrite IH by (intros; apply Hl; by right).
  rewrite Hx. cbn [mbind option_bind]. destruct (m0_fid_eq x id) eqn:E.
  - apply fid_eq_iff in E as ->. cbn. symmetry. f_equal. apply bool_decide_eq_true. by left.
  - cbn. f_equal. apply bool_decide_ext. rewrite Exists_cons, Hx. split; [by right|].
    intros [[= ->]|H]; [|done].
    by rewrite (proj2 (fid_eq_iff id id)) in E.
Qed.

Lemma is_listed_ok w pm i id : ids_ok w pm -> dev_id w (pm, i) = Some id ->
  is_listed w (pm, i) = Some (bool_decide ((pm, i) ∈ po_failed_devices w)).
Proof.
  intros (H1 & H2 & H3) Hid. unfold is_listed, pool_failed_devs_tlink_is_in. case_bool_decide as Hin; [done|].
  unfold disk_is_in. rewrite Hid. cbn [mbind option_bind]. rewrite disk_is_in_fold by done. f_equal.
  apply bool_decide_eq_false.
  rewrite Exists_exists. intros ([pm' j] & Hd & Hj).
  destruct (decide (pm' = pm)) as [->|Hne]; [|by eapply (H3 (pm', j) i)].
  rewrite (H2 _ _ _ Hid Hj) in Hin. done.
Qed.

(** ** Lemmas: a change of one device *)

Lemma dev_state_lookup st i x : dev_state st i = Some x <-> 0 <= i /\
  (pd_state <$> pst_devices_array st) !! Z.to_nat i = Some x.
Proof.
  unfold dev_state, arr_get. rewrite list_lookup_fmap. destruct (Z.leb_spec 0 i); [|split; [done|lia]].
  destruct (pst_devices_array st !! Z.to_nat i); cbn; naive_solver.
Qed.

Lemma dev_id_lookup w pm i id : dev_id w (pm, i) = Some id <-> 0 <= i /\
  (pd_id <$> pst_devices_array (state_of w pm)) !! Z.to_nat i = Some id.
Proof.
  unfold dev_id, arr_get. cbn [fst snd]. rewrite list_lookup_fmap.
  destruct (Z.leb_spec 0 i); [|split; [done|lia]].
  destruct (pst_devices_array (state_of w pm) !! Z.to_nat i); cbn; naive_solver.
Qed.

Lemma dev_state_insert st st' i d new j :
  pst_devices_array st !! Z.to_nat i = Some d -> 0 <= i ->
  pst_devices_array st' = <[Z.to_nat i := set_dev_state d new]> (pst_devices_array st) ->
  dev_state st' j = if decide (j = i) then Some new else dev_state st j.
Proof.
  intros Hd Hi E. unfold dev_state, arr_get. rewrite E.
  destruct (Z.leb_spec 0 j); [|by rewrite decide_False by lia].
  destruct (decide (j = i)) as [->|Hne].
  - rewrite list_lookup_insert_eq; [done|]. by apply lookup_lt_Some in Hd.
  - rewrite list_lookup_insert_ne by lia. done.
Qed.

(** The identifiers do not change. *)
Lemma ids_insert (devs : list m0_pooldev) i d new :
  devs !! i = Some d -> pd_id <$> <[i := set_dev_state d new]> devs = pd_id <$> devs.
Proof.
  intros Hd. rewrite list_fmap_insert. apply list_insert_id. rewrite list_lookup_fmap, Hd. done.
Qed.

Section update.
Context (w w' : m0_pool) (pm i : Z) (d : m0_pooldev) (new : m0_pool_nd_state).
Hypothesis Hok : mach_ok w pm.
Hypothesis Hi : 0 <= i.
Hypothesis Hd : pst_devices_array (state_of w pm) !! Z.to_nat i = Some d.
Hypothesis Hnew : new <> M0_PNDS_NR.
Hypothesis Hothers : forall j, j <> pm -> po_machs w' j = po_machs w j.
Hypothesis Hnodes : pst_nodes_array (state_of w' pm) = pst_nodes_array (state_of w pm).
Hypothesis Hnr : pst_nr_nodes (state_of w' pm) = pst_nr_nodes (state_of w pm) /\
  pst_nr_devices (state_of w' pm) = pst_nr_devices (state_of w pm) /\
  pst_nr_spares (state_of w' pm) = pst_nr_spares (state_of w pm).
Hypothesis Hdevs : pst_devices_array (state_of w' pm) = <[Z.to_nat i := set_dev_state d new]>
  (pst_devices_array (state_of w pm)).

Lemma dev_id_same x : dev_id w' x = dev_id w x.
Proof.
  destruct x as [pm' j]. destruct (decide (pm' = pm)) as [->|Hne].
  - apply option_eq. intros id. rewrite !dev_id_lookup, Hdevs, (ids_insert _ _ _ _ Hd). done.
  - unfold dev_id, state_of. cbn [fst snd]. by rewrite Hothers.
Qed.

Hypothesis Hlen : length (pst_spare_usage_array (state_of w' pm)) = length
  (pst_spare_usage_array (state_of w pm)).
(** The slots of other devices stay. *)
Hypothesis Hother_slots : forall k s, pst_spare_usage_array (state_of w' pm) !! k = Some s ->
  psu_device_index s <> POOL_PM_SPARE_SLOT_UNUSED -> psu_device_index s <> i ->
  pst_spare_usage_array (state_of w pm) !! k = Some s.
(** The slot of this one, if it has one. *)
Hypothesis Hown_slot : forall k s, pst_spare_usage_array (state_of w' pm) !! k = Some s ->
  psu_device_index s = i ->
  slot_state_ok new (psu_device_state s).
Hypothesis Hown_unique : forall k k' s s', pst_spare_usage_array (state_of w' pm) !! k = Some s ->
  psu_device_index s = i ->
  pst_spare_usage_array (state_of w' pm) !! k' = Some s' -> psu_device_index s' = i -> k = k'.
Hypothesis Hcount : pst_nr_failures (state_of w' pm) =
  pst_nr_failures (state_of w pm) - (if decide (not_serving (pd_state d)) then 1 else 0) +
    (if decide (not_serving new) then 1 else 0).
Hypothesis Hlist : forall x, x <> (pm, i) -> x ∈ po_failed_devices w' <-> x ∈ po_failed_devices w.
Hypothesis Hlist_own : (pm, i) ∈ po_failed_devices w' <-> out_of_order new.

Lemma mach_update : mach_ok w' pm.
Proof.
  pose proof Hok as [M1 M2 M3 M4 M5 M6 M7 M8 M9 M10 M11 M12]. destruct Hnr as (N1 & N2 & N3).
  pose proof (fun j => dev_state_insert (state_of w pm) (state_of w' pm) i d new j Hd Hi Hdevs) as Hstate.
  split; rewrite ?Hnodes, ?N1, ?N2, ?N3, ?Hlen; try done.
  - by rewrite Hdevs, length_insert.
  - intros j e He. rewrite Hdevs in He. apply list_lookup_insert_Some in He as [(_ & <- & _)|[_ He]]; [done|].
    by eapply M5.
  - intros k s Hs Hu. rewrite Hstate. destruct (decide (psu_device_index s = i)) as [E|E]; [eauto|].
    eapply M6; eauto.
  - intros k k' s s' Hs Hs' E Hu. destruct (decide (psu_device_index s = i)) as [Ei|Ei].
    + eapply Hown_unique; eauto. by rewrite <- E.
    + eapply M7; [apply Hother_slots|apply Hother_slots|exact E|exact Hu]; congruence.
  - rewrite Hcount, M8, Hdevs. unfold failures. rewrite list_fmap_insert. cbn [set_dev_state pd_state].
    rewrite (count_insert _ _ _ (pd_state d)); [done|]. by rewrite list_lookup_fmap, Hd.
  - intros j x. rewrite Hstate. destruct (decide (j = i)) as [->|Hne]; [by intros [= <-]|]. intros Hx.
    rewrite Hlist by congruence. by apply M9.
  - intros x Hx. rewrite dev_id_same. destruct (decide (x = (pm, i))) as [->|Hne]; [|by apply M10, Hlist].
    exists (pd_id d). apply dev_id_lookup. by rewrite list_lookup_fmap, Hd.
  - intros j k id. rewrite !dev_id_same. apply M11.
  - intros x j id Hx Hne. rewrite !dev_id_same. intros Hj. eapply M12; [|done|exact Hj]. apply Hlist; [|done].
    intros ->. by apply Hne.
Qed.

End update.

(** ** Lemmas: the number of failures *)

Lemma failures_bound l : 0 <= failures l <= Z.of_nat (length l).
Proof. unfold failures. pose proof (length_filter not_serving l). lia. Qed.

Lemma failures_some l i x : l !! i = Some x -> not_serving x -> 1 <= failures l.
Proof.
  intros Hi Hx. unfold failures. destruct (filter not_serving l) as [|y l'] eqn:E; [|cbn; lia].
  assert (x ∈ filter not_serving l) as H
    by (apply list_elem_of_filter; split; [done|by eapply list_elem_of_lookup_2]).
  rewrite E in H. by apply not_elem_of_nil in H.
Qed.

Lemma failures_room l i x : l !! i = Some x -> ~ not_serving x -> failures l < Z.of_nat (length l).
Proof.
  intros Hi Hx. unfold failures. rewrite <- (take_drop_middle _ _ _ Hi) at 1.
  rewrite filter_app, filter_cons_False by done.
  rewrite length_app. pose proof (length_filter not_serving (take i l)).
  pose proof (length_filter not_serving (drop (S i) l)).
  pose proof (lookup_lt_Some _ _ _ Hi). rewrite length_take, length_drop in *. lia.
Qed.

(** ** Lemmas: the steps of a transition *)

(** The machine is in state [st] now; the rest of the pool is as before. *)
Record stepped (w w' : m0_pool) (pm : Z) (st : m0_poolmach_state) (failed : list (Z * Z)) : Prop := {
  sp_state : state_of w' pm = st;
  sp_failed : po_failed_devices w' = failed;
  sp_others j : j <> pm -> po_machs w' j = po_machs w j;
  sp_alloc : po_alloc w' = po_alloc w;
  sp_pver : pv_is_dirty (po_machs w' pm) = pv_is_dirty (po_machs w pm) /\
  pv_sns_flags (po_machs w' pm) = pv_sns_flags (po_machs w pm)
}.

Lemma with_state_stepped w pm st : stepped w (with_state w pm st) pm st (po_failed_devices w).
Proof.
  split; unfold state_of, with_state, with_mach; cbn; rewrite ?Z.eqb_refl; try done.
  intros j Hj. by rewrite (proj2 (Z.eqb_neq _ _)).
Qed.

Lemma stepped_state w w1 pm st st1 l : stepped w w1 pm st l -> stepped w (with_state w1 pm st1) pm st1 l.
Proof.
  intros [H1 H2 H3 H4 H5]. destruct (with_state_stepped w1 pm st1) as [G1 G2 G3 G4 G5].
  split; [done|by rewrite G2|intros j Hj; by rewrite G3, H3|by rewrite G4|]. destruct G5 as [-> ->]. done.
Qed.

Lemma stepped_failed w w1 pm st l l1 : stepped w w1 pm st l -> stepped w (with_failed w1 l1) pm st l1.
Proof. by intros [H1 H2 H3 H4 H5]. Qed.

Section transition.
Context (w : m0_pool) (pm i : Z) (d : m0_pooldev).
Local Notation st := (state_of w pm).
Local Notation slots := (pst_spare_usage_array st).
Hypothesis Hok : mach_ok w pm.
Hypothesis Hi : 0 <= i.
Hypothesis Hd : pst_devices_array st !! Z.to_nat i = Some d.
Local Notation old := (pd_state d).

(** The state of the machine after a transition of the device. *)
Definition moved (new : m0_pool_nd_state) (slots' : list m0_pool_spare_usage) (nf : Z) : m0_poolmach_state :=
  upd_failures (upd_spares (upd_devices st (<[Z.to_nat i := set_dev_state d new]> (pst_devices_array st)))
    slots') nf.

Definition moved_count (new : m0_pool_nd_state) : Z :=
  pst_nr_failures st - (if decide (not_serving old) then 1 else 0) +
    (if decide (not_serving new) then 1 else 0).

Lemma old_state : dev_state st i = Some old.
Proof. apply dev_state_lookup. by rewrite list_lookup_fmap, Hd. Qed.

Lemma i_range : i < pst_nr_devices st /\ i <> POOL_PM_SPARE_SLOT_UNUSED.
Proof. pose proof (lookup_lt_Some _ _ _ Hd). pose proof (mk_devs _ _ Hok). pose proof (mk_max _ _ Hok). lia.
Qed.

(** Whose slots are found. *)
Lemma slot_found k s : list_find (fun s => spare_used_by i s = true) slots = Some (k, s) ->
  slots !! k = Some s /\ psu_device_index s = i /\ slot_state_ok old (psu_device_state s) /\
  forall k' s', slots !! k' = Some s' -> psu_device_index s' = i -> k' = k.
Proof.
  intros (Hk & Hs & _)%list_find_Some. apply Z.eqb_eq in Hs. destruct i_range as [_ Hu]. split_and!; try done.
  - destruct (mk_slots _ _ Hok k s Hk ltac:(congruence)) as (x & Hx & Hst). rewrite Hs, old_state in Hx.
    by injection Hx as <-.
  - intros k' s' Hk' Hs'. eapply (mk_unique _ _ Hok); [exact Hk'|exact Hk|congruence|congruence].
Qed.

Lemma slot_none k s : list_find (fun s => spare_used_by i s = true) slots = None -> slots !! k = Some s ->
  psu_device_index s <> i.
Proof.
  intros H%list_find_None Hk E. rewrite Forall_lookup in H. apply (H _ _ Hk). by apply Z.eqb_eq.
Qed.

(** A device that is not out of order has no slot. *)
Lemma slot_less k s : ~ out_of_order old -> slots !! k = Some s -> psu_device_index s <> i.
Proof.
  intros Ho Hk E. destruct i_range as [_ Hu]. destruct (mk_slots _ _ Hok k s Hk ltac:(congruence))
    as (x & Hx & [Hout _]).
  rewrite E, old_state in Hx. injection Hx as <-. done.
Qed.

Lemma moved_ok w' new slots' failed' :
  new <> M0_PNDS_NR -> stepped w w' pm (moved new slots' (moved_count new)) failed' ->
  length slots' = length slots ->
  (forall k s, slots' !! k = Some s -> psu_device_index s <> POOL_PM_SPARE_SLOT_UNUSED ->
    psu_device_index s <> i -> slots !! k = Some s) ->
  (forall k s, slots' !! k = Some s -> psu_device_index s = i -> slot_state_ok new (psu_device_state s)) ->
  (forall k k' s s', slots' !! k = Some s -> psu_device_index s = i -> slots' !! k' = Some s' ->
    psu_device_index s' = i -> k = k') ->
  (forall x, x <> (pm, i) -> x ∈ failed' <-> x ∈ po_failed_devices w) ->
  ((pm, i) ∈ failed' <-> out_of_order new) ->
  mach_ok w' pm.
Proof.
  intros Hnew [H1 H2 H3 _ _] Hlen Hs1 Hs2 Hs3 Hl1 Hl2.
  apply (mach_update w w' pm i d new); try done; rewrite ?H1, ?H2; try done.
Qed.

(** The outcome of a transition to [new]. *)
Definition transited (w' : m0_pool) (new : m0_pool_nd_state) : Prop :=
  mach_ok w' pm /\ exists slots' failed', stepped w w' pm (moved new slots' (moved_count new)) failed' /\
    slot_abs <$> slots' = spec_slots (slot_abs <$> slots) i old new.

(** The pool when the state of the device is changed. *)
Definition marked (new : m0_pool_nd_state) : m0_pool :=
  with_state w pm (upd_devices st (<[Z.to_nat i := set_dev_state d new]> (pst_devices_array st))).

Lemma marked_stepped new : stepped w (marked new) pm (moved new slots (pst_nr_failures st))
  (po_failed_devices w).
Proof. apply with_state_stepped. Qed.

Lemma marked_state new : state_of (marked new) pm = moved new slots (pst_nr_failures st).
Proof. apply (sp_state _ _ _ _ _ (marked_stepped new)). Qed.

Lemma find_used : spare_find (spare_used_by i) slots (Z.to_nat (pst_nr_spares st)) 0 =
  Some ((fun x => Z.of_nat x.1) <$> list_find (fun s => spare_used_by i s = true) slots).
Proof. apply spare_find_all, (mk_spares _ _ Hok). Qed.

Lemma count_range : 0 <= pst_nr_failures st <= pst_nr_devices st.
Proof. rewrite (mk_count _ _ Hok), <- (mk_devs _ _ Hok).
pose proof (failures_bound (pd_state <$> pst_devices_array st)). by rewrite length_fmap in *. Qed.

Lemma old_lookup : (pd_state <$> pst_devices_array st) !! Z.to_nat i = Some old.
Proof. by rewrite list_lookup_fmap, Hd. Qed.

Lemma count_pos : not_serving old -> 1 <= pst_nr_failures st.
Proof. rewrite (mk_count _ _ Hok). apply failures_some with (Z.to_nat i), old_lookup. Qed.

Lemma count_room : ~ not_serving old -> pst_nr_failures st < pst_nr_devices st.
Proof. rewrite (mk_count _ _ Hok), <- (mk_devs _ _ Hok), <- (length_fmap pd_state).
apply failures_room with (Z.to_nat i), old_lookup. Qed.

Lemma inc_ok st1 : pst_nr_failures st1 = pst_nr_failures st -> ~ not_serving old ->
  failures_inc st1 = Some (upd_failures st1 (pst_nr_failures st + 1)).
Proof.
  intros E Ho. pose proof count_range. pose proof (count_room Ho). pose proof (mk_max _ _ Hok) as Hm.
  unfold POOL_PM_SPARE_SLOT_UNUSED in Hm.
  unfold failures_inc. rewrite E, u32_small by (unfold is_u32; lia).
  by rewrite (proj2 (Z.eqb_neq _ 0)) by lia.
Qed.

Lemma dec_count st1 : pst_nr_failures st1 = pst_nr_failures st -> not_serving old ->
  failures_dec st1 = Some (upd_failures st1 (pst_nr_failures st - 1)).
Proof.
  intros E Ho. pose proof count_range. pose proof (count_pos Ho). pose proof (mk_max _ _ Hok) as Hm.
  unfold POOL_PM_SPARE_SLOT_UNUSED in Hm.
  unfold failures_dec. rewrite E, u32_small by (unfold is_u32; lia).
  by rewrite (proj2 (Z.eqb_neq _ 0)) by lia.
Qed.

Lemma listed_now w1 new slots' nf : stepped w w1 pm (moved new slots' nf) (po_failed_devices w) ->
  is_listed w1 (pm, i) = Some (bool_decide (out_of_order old)).
Proof.
  intros [H1 H2 H3 _ _]. assert (forall x, dev_id w1 x = dev_id w x) as Hid
    by (by apply (dev_id_same w w1 pm i d new Hd H3); rewrite H1).
  assert (dev_id w (pm, i) = Some (pd_id d)) as Hdi by (apply dev_id_lookup; by rewrite list_lookup_fmap, Hd).
  rewrite (is_listed_ok w1 pm i (pd_id d));
    [|destruct (mach_ids _ _ Hok) as (G1 & G2 & G3); split_and!|by rewrite Hid].
  - f_equal. apply bool_decide_ext. rewrite H2. apply (mk_listed _ _ Hok), old_state.
  - intros x. rewrite H2, Hid. apply G1.
  - intros a b id. rewrite !Hid. apply G2.
  - intros x a id. rewrite H2, !Hid. apply G3.
Qed.

(** The slot of the device is found, and changed. *)
Lemma slot_change k s s' : list_find (fun s => spare_used_by i s = true) slots = Some (k, s) ->
  arr_set slots (Z.of_nat k) s' = Some (<[k := s']> slots) /\ arr_get slots (Z.of_nat k) = Some s.
Proof.
  intros (Hk & _)%slot_found. unfold arr_get. rewrite (proj2 (Z.leb_le _ _)), Nat2Z.id by lia. split; [|done].
  pose proof (lookup_lt_Some _ _ _ Hk). rewrite arr_set_ok by lia. by rewrite Nat2Z.id.
Qed.

Lemma slot_abs_own s : slot_abs s = Some i <-> psu_device_index s = i.
Proof.
  destruct i_range as [_ Hu]. unfold slot_abs.
  destruct (Z.eqb_spec (psu_device_index s) POOL_PM_SPARE_SLOT_UNUSED); [|naive_solver].
  split; [done|congruence].
Qed.

(** No slot is left to the device. *)
Definition freed (slots' : list m0_pool_spare_usage) : Prop :=
  length slots' = length slots /\ (forall k s, slots' !! k = Some s -> psu_device_index s <> i) /\
  (forall k s, slots' !! k = Some s -> psu_device_index s <> POOL_PM_SPARE_SLOT_UNUSED ->
    slots !! k = Some s) /\
  slot_abs <$> slots' = slot_free (slot_abs <$> slots) i.

Lemma freed_none : list_find (fun s => spare_used_by i s = true) slots = None -> freed slots.
Proof.
  intros Hf. pose proof (fun k s => slot_none k s Hf) as Hn. split_and!; try done. unfold slot_free.
  rewrite <- list_fmap_compose.
  apply list_fmap_ext. intros k s Hk. cbn. rewrite bool_decide_false; [done|]. rewrite slot_abs_own.
  by eapply Hn.
Qed.

Lemma freed_slot k s x : list_find (fun s => spare_used_by i s = true) slots = Some (k, s) ->
  freed (<[k := {| psu_device_index := POOL_PM_SPARE_SLOT_UNUSED; psu_device_state := x |}]> slots).
Proof.
  intros (Hk & Hs & _ & Huniq)%slot_found. destruct i_range as [_ Hu]. split_and!.
  - by rewrite length_insert.
  - intros k' s' Hk' E. apply list_lookup_insert_Some in Hk' as [(_ & <- & _)|[Hne Hk']]; [by apply Hu|].
    apply Hne. symmetry. by eapply Huniq.
  - intros k' s' Hk' Hu'. by apply list_lookup_insert_Some in Hk' as [(_ & <- & _)|[Hne Hk']].
  - unfold slot_free. rewrite <- list_fmap_compose. apply list_eq. intros k'. rewrite !list_lookup_fmap.
    destruct (decide (k' = k)) as [->|Hne].
    + rewrite list_lookup_insert_eq by (by eapply lookup_lt_Some). rewrite Hk. cbn.
      rewrite bool_decide_true by (by apply slot_abs_own). done.
    + rewrite list_lookup_insert_ne by done. destruct (slots !! k') as [s'|] eqn:Hk'; [|done]. cbn.
      rewrite bool_decide_false; [done|]. rewrite slot_abs_own. intros E. by apply Hne, (Huniq _ s').
Qed.

(** Closed tests that fail. *)
Ltac bad H := vm_compute in H; discriminate H.

Lemma online_ok ev : pe_index ev = i -> transition_ok old M0_PNDS_ONLINE = true -> old <> M0_PNDS_ONLINE ->
  exists w', online_update (marked M0_PNDS_ONLINE) pm old ev = Some w' /\ transited w' M0_PNDS_ONLINE.
Proof.
  intros Ei Htr Hne. unfold online_update. rewrite Ei, marked_state.
  cbn [moved pst_spare_usage_array upd_failures upd_spares upd_devices pst_nr_spares].
  rewrite find_used. cbn [mbind option_bind].
  match goal with |- exists w', (?m ≫= _) = _ /\ _ =>
    assert (exists slots', m = Some (moved M0_PNDS_ONLINE slots' (pst_nr_failures st)) /\ freed slots')
      as (slots' & -> & Hl & Hn & Ho & Habs) end.
  { destruct (list_find _ slots) as [[k s]|] eqn:Hf; cbn [fmap option_fmap option_map fst];
      [|exists slots; split; [done|by apply freed_none]].
    destruct (slot_change k s {| psu_device_index := POOL_PM_SPARE_SLOT_UNUSED;
      psu_device_state := psu_device_state s |} Hf) as [Hset Hget].
    rewrite Hget. cbn [mbind option_bind]. destruct (slot_found k s Hf) as (_ & _ & [Hout Hst] & _).
    assert (nd_in (psu_device_state s) [M0_PNDS_OFFLINE; M0_PNDS_SNS_REBALANCING] = true) as ->.
    { destruct Hst as [-> | [E _]]; [|rewrite E in Htr; bad Htr].
      rewrite out_of_order_iff in Hout. revert Hout Htr. destruct old; intros Hout Htr; first [done|bad Htr].
      }
    cbn [M0_ASSERT mbind option_bind]. rewrite Hset. eexists (<[k := _]> slots).
    split; [|by apply (freed_slot k s (psu_device_state s))]. done. }
  cbn [mbind option_bind]. pose proof (stepped_state _ _ _ _
    (moved M0_PNDS_ONLINE slots' (pst_nr_failures st)) _ (marked_stepped M0_PNDS_ONLINE)) as Hsp.
  set (w1 := with_state (marked M0_PNDS_ONLINE) pm _) in *. unfold pool_failed_devs_tlink_is_in.
  rewrite (sp_failed _ _ _ _ _ Hsp).
  assert (forall failed' nf w', nf = moved_count M0_PNDS_ONLINE ->
    stepped w w' pm (moved M0_PNDS_ONLINE slots' nf) failed' ->
    (forall x, x <> (pm, i) -> x ∈ failed' <-> x ∈ po_failed_devices w) -> (pm, i) ∉ failed' ->
      transited w' M0_PNDS_ONLINE) as Hend.
  { intros failed' nf w' -> Hst H1 H2. split; [|by exists slots', failed'].
    eapply moved_ok; try done; [naive_solver..|]. rewrite out_of_order_iff. tauto. }
  case_bool_decide as Hunk.
  - rewrite bool_decide_false by (rewrite (mk_listed _ _ Hok i old old_state), Hunk, out_of_order_iff; tauto).
    eexists. split; [done|]. eapply Hend; [|exact Hsp|done|].
    + unfold moved_count. rewrite !serving_count, Hunk. lia.
    + rewrite (mk_listed _ _ Hok i old old_state), Hunk, out_of_order_iff. tauto.
  - assert (not_serving old) as Hns by (split; [done|done]).
    assert (nd_in old [M0_PNDS_OFFLINE; M0_PNDS_SNS_REBALANCING] = true) as ->
      by (revert Htr Hne Hunk; destruct old; intros Htr Hne Hunk; first [done|bad Htr]).
    cbn [M0_ASSERT mbind option_bind]. rewrite (dec_count (moved M0_PNDS_ONLINE slots' (pst_nr_failures st)))
      by done. cbn [mbind option_bind].
    eexists. split; [done|]. eapply Hend; [|eapply stepped_failed, stepped_state; exact Hsp| |].
    + unfold moved_count. rewrite decide_True, serving_count by done. lia.
    + intros x Hx. rewrite list_elem_of_filter. tauto.
    + rewrite list_elem_of_filter. tauto.
Qed.

(** A slot is given to the device, if there is a free one. *)
Record taken (slots' : list m0_pool_spare_usage) (x : m0_pool_nd_state) : Prop := {
  tk_len : length slots' = length slots;
  tk_other k s : slots' !! k = Some s -> psu_device_index s <> i -> slots !! k = Some s;
  tk_own k s : slots' !! k = Some s -> psu_device_index s = i -> psu_device_state s = x;
  tk_unique k k' s s' : slots' !! k = Some s -> psu_device_index s = i -> slots' !! k' = Some s' ->
  psu_device_index s' = i -> k = k';
  tk_abs : slot_abs <$> slots' = slot_take (slot_abs <$> slots) i
}.

Lemma unused_abs s : spare_used_by POOL_PM_SPARE_SLOT_UNUSED s = true <-> None = slot_abs s.
Proof. unfold slot_abs, spare_used_by. by destruct (psu_device_index s =? POOL_PM_SPARE_SLOT_UNUSED). Qed.

Lemma find_fmap {A B} (g : A -> B) (P : B -> Prop) (Q : A -> Prop) `{!forall x, Decision (P x), !forall x,
  Decision (Q x)} l :
  (forall x, Q x <-> P (g x)) -> list_find P (g <$> l) = prod_map id g <$> list_find Q l.
Proof.
  intros HPQ. induction l as [|x l IH]; [done|]. cbn [list_find fmap list_fmap].
  destruct (decide (Q x)) as [Hq|Hq].
  - rewrite decide_True by (by apply HPQ). done.
  - rewrite decide_False by (by rewrite <- HPQ). fold (fmap (M:=list) g l). rewrite IH.
    by destruct (list_find Q l) as [[? ?]|].
Qed.

Lemma update_ok st1 ev : ~ out_of_order old -> pe_index ev = i -> pst_spare_usage_array st1 = slots ->
  pst_nr_spares st1 = pst_nr_spares st ->
  exists slots', spare_usage_arr_update st1 ev = Some (upd_spares st1 slots') /\ taken slots' (pe_state ev).
Proof.
  intros Ho Ei E1 E2. unfold spare_usage_arr_update. rewrite E1, E2.
  rewrite spare_find_all by apply (mk_spares _ _ Hok). cbn [mbind option_bind].
  pose proof (fun k s => slot_less k s Ho) as Hless.
  assert (slot_take (slot_abs <$> slots) i =
    match list_find (fun s => spare_used_by POOL_PM_SPARE_SLOT_UNUSED s = true) slots with
    | Some (k, _) => <[k := Some i]> (slot_abs <$> slots) | None => slot_abs <$> slots end) as Ht.
  { unfold slot_take. rewrite (find_fmap slot_abs (eq None) _ slots unused_abs).
      by destruct (list_find _ slots) as [[? ?]|]. }
  destruct (list_find _ slots) as [[k s]|] eqn:Hf; cbn [fmap option_fmap option_map fst].
  - apply list_find_Some in Hf as (Hk & Hs & _). pose proof (lookup_lt_Some _ _ _ Hk) as Hlt.
    rewrite arr_set_ok, Nat2Z.id by lia. cbn [mbind option_bind].
    eexists. split; [done|]. rewrite Ei. split.
    + by rewrite length_insert.
    + intros k' s' Hk' Hne. apply list_lookup_insert_Some in Hk' as [(_ & <- & _)|[_ ?]]; done.
    + intros k' s' Hk' Hs'. apply list_lookup_insert_Some in Hk' as [(_ & <- & _)|[_ Hk']]; [done|].
      by apply Hless in Hk'.
    + intros k1 k2 s1 s2 H1 G1 H2 G2. apply list_lookup_insert_Some in H1 as [(-> & _)|[_ H1]];
        [|by apply Hless in H1].
      apply list_lookup_insert_Some in H2 as [(-> & _)|[_ H2]]; [done|by apply Hless in H2].
    + rewrite Ht, list_fmap_insert. f_equal. by apply slot_abs_own.
  - exists slots. split; [by destruct st1; cbn in *; subst|]. split; try done.
    + intros k s Hk Hs. by apply Hless in Hk.
    + intros k1 k2 s1 s2 H1 G1. by apply Hless in H1.
Qed.

Lemma own_listed : (pm, i) ∈ po_failed_devices w <-> out_of_order old.
Proof. apply (mk_listed _ _ Hok), old_state. Qed.

Lemma offline_ok ev : pe_index ev = i -> pe_state ev = M0_PNDS_OFFLINE ->
  transition_ok old M0_PNDS_OFFLINE = true -> old <> M0_PNDS_OFFLINE ->
  exists w', device_update (marked M0_PNDS_OFFLINE) pm old ev = Some w' /\ transited w' M0_PNDS_OFFLINE.
Proof.
  intros Ei Es Htr Hne. assert (old = M0_PNDS_UNKNOWN \/ old = M0_PNDS_ONLINE) as Hold
    by (revert Htr Hne; destruct old; intros Htr Hne; first [by left|by right|bad Htr|done]).
  assert (~ not_serving old /\ ~ out_of_order old) as [Hns Ho]
    by (rewrite out_of_order_iff; unfold not_serving; destruct Hold as [-> | ->]; tauto).
  unfold device_update. rewrite Es, Ei, marked_state. rewrite inc_ok by done. cbn [mbind option_bind].
  unfold pool_failed_devs_tlink_is_in. rewrite (sp_failed _ _ _ _ _ (marked_stepped _)).
  rewrite bool_decide_false by (by rewrite own_listed).
  eexists. split; [done|]. pose proof (stepped_state _ _ _ _
    (moved M0_PNDS_OFFLINE slots (moved_count M0_PNDS_OFFLINE)) _ (marked_stepped M0_PNDS_OFFLINE)) as Hsp.
  assert (pst_nr_failures st + 1 = moved_count M0_PNDS_OFFLINE) as ->.
  { unfold moved_count. rewrite decide_False, serving_count by done. lia. }
  split; [|by exists slots, (po_failed_devices w)].
  apply (moved_ok _ M0_PNDS_OFFLINE slots (po_failed_devices w)); try done.
  - intros k s Hk E. by apply (slot_less _ _ Ho) in Hk.
  - intros k k' s s' Hk E. by apply (slot_less _ _ Ho) in Hk.
  - rewrite own_listed. rewrite (out_of_order_iff M0_PNDS_OFFLINE). tauto.
Qed.

(** The device is added to the failed ones. *)
Lemma added_list x : x <> (pm, i) -> x ∈ po_failed_devices w ++ [(pm, i)] <-> x ∈ po_failed_devices w.
Proof. intros Hx. rewrite elem_of_app, list_elem_of_singleton. tauto. Qed.

(** The device is counted as a failure when it was serving. *)
Lemma failed_count slots' : transition_ok old M0_PNDS_FAILED = true -> old <> M0_PNDS_FAILED ->
  old <> M0_PNDS_SNS_REPAIRING ->
  (if negb (nd_in old [M0_PNDS_OFFLINE; M0_PNDS_SNS_REPAIRING])
   then failures_inc (moved M0_PNDS_FAILED slots' (pst_nr_failures st))
   else Some (moved M0_PNDS_FAILED slots' (pst_nr_failures st))) =
  Some (moved M0_PNDS_FAILED slots' (moved_count M0_PNDS_FAILED)).
Proof.
  intros Htr Hne Eo. destruct (decide (old = M0_PNDS_OFFLINE)) as [Ef|Ef].
  - assert (pst_nr_failures st = moved_count M0_PNDS_FAILED) as <-
      by (unfold moved_count; rewrite !serving_count, Ef; lia).
    by rewrite Ef.
  - assert (~ not_serving old /\ nd_in old [M0_PNDS_OFFLINE; M0_PNDS_SNS_REPAIRING] = false) as [Hns ->].
    { unfold not_serving. revert Htr Hne Eo Ef. destruct old; intros Htr Hne Eo Ef;
        first [bad Htr|done|(split; [tauto|done])]. }
    cbn [negb]. rewrite inc_ok by done.
    assert (pst_nr_failures st + 1 = moved_count M0_PNDS_FAILED) as ->
      by (unfold moved_count; rewrite decide_False, serving_count by done; lia).
    done.
Qed.

Lemma failed_ok ev : pe_index ev = i -> pe_state ev = M0_PNDS_FAILED ->
  transition_ok old M0_PNDS_FAILED = true -> old <> M0_PNDS_FAILED ->
  exists w', failed_update (marked M0_PNDS_FAILED) pm old ev = Some w' /\ transited w' M0_PNDS_FAILED.
Proof.
  intros Ei Es Htr Hne. unfold failed_update. rewrite Ei, marked_state.
  destruct (decide (old = M0_PNDS_SNS_REPAIRING)) as [Eo|Eo].
  - rewrite Eo. change (nd_in M0_PNDS_SNS_REPAIRING [M0_PNDS_UNKNOWN; M0_PNDS_ONLINE; M0_PNDS_OFFLINE])
      with false.
    change (nd_in M0_PNDS_SNS_REPAIRING [M0_PNDS_OFFLINE; M0_PNDS_SNS_REPAIRING]) with true.
    cbn [negb mbind option_bind].
    pose proof (stepped_state _ _ _ _ (moved M0_PNDS_FAILED slots (pst_nr_failures st)) _
      (marked_stepped M0_PNDS_FAILED)) as Hsp.
    rewrite (listed_now _ _ _ _ Hsp). assert (out_of_order old) as Ho by (by rewrite Eo, out_of_order_iff).
    rewrite bool_decide_true by done.
    cbn [mbind option_bind]. eexists. split; [done|].
    assert (pst_nr_failures st = moved_count M0_PNDS_FAILED) as E
      by (unfold moved_count; rewrite !serving_count, Eo; lia).
    split; [|exists slots, (po_failed_devices w); rewrite <- E; split; [done|by rewrite Eo]].
    apply (moved_ok _ M0_PNDS_FAILED slots (po_failed_devices w)); try done; [by rewrite <- E|..].
    + intros k s Hk Hs. destruct i_range as [_ Hu].
      destruct (mk_slots _ _ Hok k s Hk ltac:(congruence)) as (x & Hx & Hst).
      rewrite Hs, old_state in Hx. injection Hx as <-. rewrite Eo in Hst.
      destruct Hst as [_ [->|[? _]]]; [|done].
      split; [by apply out_of_order_iff|by right].
    + intros k k' s s' Hk Hs Hk' Hs'. destruct i_range as [_ Hu].
      eapply (mk_unique _ _ Hok); [exact Hk|exact Hk'|congruence|congruence].
    + rewrite own_listed, Eo, !out_of_order_iff. done.
  - assert (nd_in old [M0_PNDS_UNKNOWN; M0_PNDS_ONLINE; M0_PNDS_OFFLINE] = true /\ ~ out_of_order old)
      as [Hin Ho].
    { rewrite out_of_order_iff. revert Htr Hne Eo. destruct old; intros Htr Hne Eo;
        first [bad Htr|done|(split; [done|tauto])]. }
    rewrite Hin. destruct (update_ok (moved M0_PNDS_FAILED slots (pst_nr_failures st)) ev Ho Ei eq_refl
      eq_refl) as (slots' & -> & [T1 T2 T3 T4 T5]).
    rewrite Es in T3. cbn [mbind option_bind].
    pose proof (failed_count slots' Htr Hne Eo) as Hinc.
    change (upd_spares (moved M0_PNDS_FAILED slots (pst_nr_failures st)) slots')
      with (moved M0_PNDS_FAILED slots' (pst_nr_failures st)).
    rewrite Hinc. cbn [mbind option_bind].
    pose proof (stepped_state _ _ _ _ (moved M0_PNDS_FAILED slots' (moved_count M0_PNDS_FAILED)) _
      (marked_stepped M0_PNDS_FAILED)) as Hsp.
    rewrite (listed_now _ _ _ _ Hsp), bool_decide_false by done. cbn [mbind option_bind]. eexists.
    split; [done|].
    unfold failed_add. rewrite (sp_failed _ _ _ _ _ Hsp).
    pose proof (stepped_failed _ _ _ _ _ (po_failed_devices w ++ [(pm, i)]) Hsp) as Hsp'.
    split; [|eexists _, _; split; [exact Hsp'|by rewrite T5; cbn; rewrite Hin]].
    apply (moved_ok _ M0_PNDS_FAILED slots' (po_failed_devices w ++ [(pm, i)])); try done.
    + intros k s Hk _. by apply T2.
    + intros k s Hk Hs. rewrite (T3 _ _ Hk Hs). split; [by apply out_of_order_iff|by left].
    + apply added_list.
    + rewrite elem_of_app, list_elem_of_singleton, out_of_order_iff. tauto.
Qed.

(** The slot of the device records its state. *)
Record recorded (slots' : list m0_pool_spare_usage) (x : m0_pool_nd_state) : Prop := {
  rc_len : length slots' = length slots;
  rc_other k s : slots' !! k = Some s -> psu_device_index s <> i -> slots !! k = Some s;
  rc_own k s : slots' !! k = Some s -> psu_device_index s = i -> psu_device_state s = x;
  rc_unique k k' s s' : slots' !! k = Some s -> psu_device_index s = i -> slots' !! k' = Some s' ->
  psu_device_index s' = i -> k = k';
  rc_abs : slot_abs <$> slots' = slot_abs <$> slots
}.

Lemma record_ok x : exists slots',
  match (fun y => Z.of_nat y.1) <$> list_find (fun s => spare_used_by i s = true) slots with
  | Some k => arr_set slots k {| psu_device_index := i; psu_device_state := x |}
  | None => Some slots
  end = Some slots' /\ recorded slots' x.
Proof.
  destruct (list_find _ slots) as [[k s]|] eqn:Hf; cbn [fmap option_fmap option_map fst].
  - destruct (slot_change k s {| psu_device_index := i; psu_device_state := x |} Hf) as [-> _]. eexists.
    split; [done|].
    destruct (slot_found k s Hf) as (Hk & Hs & _ & Huniq). pose proof (lookup_lt_Some _ _ _ Hk) as Hlt. split.
    + by rewrite length_insert.
    + intros k' s' Hk' Hne. apply list_lookup_insert_Some in Hk' as [(_ & <- & _)|[_ ?]]; done.
    + intros k' s' Hk' Hs'. apply list_lookup_insert_Some in Hk' as [(_ & <- & _)|[Hne Hk']]; [done|].
      destruct Hne. symmetry. by eapply Huniq.
    + assert (forall k' s', <[k := {| psu_device_index := i; psu_device_state := x |}]> slots !! k' = Some s'
        -> psu_device_index s' = i -> k' = k) as H.
      { intros k' s' Hk' Hs'. apply list_lookup_insert_Some in Hk' as [(<- & _)|[Hne Hk']]; [done|].
          by eapply Huniq. }
      intros k1 k2 s1 s2 H1 G1 H2 G2. by rewrite (H _ _ H1 G1), (H _ _ H2 G2).
    + rewrite list_fmap_insert. apply list_insert_id. rewrite list_lookup_fmap, Hk. cbn. f_equal.
      rewrite (proj2 (slot_abs_own s) Hs).
      symmetry. by apply slot_abs_own.
  - exists slots. split; [done|]. pose proof (fun k s => slot_none k s Hf) as Hn.
    split; try done; intros; exfalso; by eapply Hn.
Qed.

Lemma repair_from wm ev : pe_index ev = i ->
  pe_state ev ∈ [M0_PNDS_SNS_REPAIRING; M0_PNDS_SNS_REPAIRED; M0_PNDS_SNS_REBALANCING] ->
  transition_ok old (pe_state ev) = true \/ out_of_order old ->
  stepped w wm pm (moved (pe_state ev) slots (pst_nr_failures st)) (po_failed_devices w) ->
  exists w', repair_update wm pm ev = Some w' /\ transited w' (pe_state ev).
Proof.
  intros Ei Es Htr Hwm. set (new := pe_state ev) in *.
  assert (out_of_order new /\ not_serving new /\ new <> M0_PNDS_NR) as (Hon & Hsn & Hnr).
  { rewrite out_of_order_iff. unfold not_serving. by repeat (apply elem_of_cons in Es as [->|Es]; [done|]);
      apply not_elem_of_nil in Es. }
  assert (spec_slots (slot_abs <$> slots) i old new = slot_abs <$> slots) as Hspec
    by (by repeat (apply elem_of_cons in Es as [->|Es]; [done|]); apply not_elem_of_nil in Es).
  unfold repair_update. rewrite Ei, (sp_state _ _ _ _ _ Hwm).
  cbn [moved pst_spare_usage_array upd_failures upd_spares upd_devices pst_nr_spares].
  rewrite find_used. cbn [mbind option_bind]. fold new.
  destruct (record_ok new) as (slots' & Hset & [R1 R2 R3 R4 R5]).
  match goal with |- exists w', (?m ≫= _) = _ /\
    _ => assert (m = Some (moved new slots' (pst_nr_failures st))) as -> end.
  { destruct (_ <$> list_find _ slots) as [k|]; [by rewrite Hset|]. by injection Hset as <-. }
  cbn [mbind option_bind].
  pose proof (stepped_state _ _ _ _ (moved new slots' (pst_nr_failures st)) _ Hwm) as Hsp.
  rewrite (listed_now _ _ _ _ Hsp). cbn [mbind option_bind].
  assert (forall w' failed', stepped w w' pm (moved new slots' (moved_count new)) failed' ->
    (forall x, x <> (pm, i) -> x ∈ failed' <-> x ∈ po_failed_devices w) -> (pm, i) ∈ failed' ->
      transited w' new) as Hend.
  { intros w' failed' Hst H1 H2. split; [|eexists _, _; split; [exact Hst|by rewrite R5]].
    apply (moved_ok _ new slots' failed'); try done; [intros k s Hk _; by apply R2|]. intros k s Hk Hs.
    rewrite (R3 _ _ Hk Hs). split; [done|by left]. }
  case_bool_decide as Ho.
  - eexists. split; [done|]. apply (Hend _ (po_failed_devices w)); [|done|by apply own_listed].
    assert (pst_nr_failures st = moved_count new) as <-; [|done]. unfold moved_count.
    rewrite (decide_True _ _ Hsn), decide_True; [lia|].
    unfold not_serving. rewrite out_of_order_iff in Ho. revert Ho. by destruct old.
  - assert (old = M0_PNDS_UNKNOWN) as Eo.
    { destruct Htr as [Htr|]; [|done]. rewrite out_of_order_iff
        in Ho. revert Ho Htr. clear -Es. destruct old; intros Ho Htr; try (by destruct Ho); try done.
      all: repeat (apply elem_of_cons in Es as [E|Es]; [rewrite E in Htr; bad Htr|]);
        by apply not_elem_of_nil in Es. }
    rewrite inc_ok; [|done|unfold not_serving; rewrite Eo; tauto]. cbn [mbind option_bind].
    assert (pst_nr_failures st + 1 = moved_count new) as ->
      by (unfold moved_count; rewrite (decide_True _ _ Hsn), serving_count, Eo; lia).
    eexists. split; [done|]. eapply (Hend _ (po_failed_devices w ++ [(pm, i)]));
      [|apply added_list|apply elem_of_app; right; by left].
    unfold failed_add. pose proof (stepped_state _ _ _ _
      (upd_failures (moved new slots' (pst_nr_failures st)) (moved_count new)) _ Hsp) as Hsp2.
    rewrite (sp_failed _ _ _ _ _ Hsp2). by apply (stepped_failed _ _ _ _ _ (po_failed_devices w ++ [(pm, i)])
      Hsp2).
Qed.

(** Every transition that is allowed is made. *)
Lemma device_ok ev : pe_index ev = i -> pe_state ev ∈ event_states ->
  transition_ok old (pe_state ev) = true -> old <> pe_state ev ->
  exists w', device_update (marked (pe_state ev)) pm old ev = Some w' /\ transited w' (pe_state ev).
Proof.
  intros Ei Es Htr Hne. destruct (pe_state ev) eqn:E;
    try (exfalso; by repeat (apply elem_of_cons in Es as [Es|Es]; [done|]); apply not_elem_of_nil in Es).
  - unfold device_update. rewrite E. by apply online_ok.
  - unfold device_update. rewrite E. by apply failed_ok.
  - by apply offline_ok.
  - unfold device_update. rewrite E, <- E. apply repair_from;
      [done|rewrite E; by repeat constructor|left; by rewrite E|apply marked_stepped].
  - unfold device_update. rewrite E, <- E. apply repair_from;
      [done|rewrite E; by repeat constructor|left; by rewrite E|apply marked_stepped].
  - unfold device_update. rewrite E, <- E. apply repair_from;
      [done|rewrite E; by repeat constructor|left; by rewrite E|apply marked_stepped].
Qed.

End transition.

(** ** Lemmas: one event *)

(** The invariant is about the devices, the slots and the list only. *)
Lemma mach_same w w' pm : mach_ok w pm ->
  (forall j, j <> pm -> po_machs w' j = po_machs w j) -> po_failed_devices w' = po_failed_devices w ->
  pst_devices_array (state_of w' pm) = pst_devices_array (state_of w pm) ->
  pst_nr_devices (state_of w' pm) = pst_nr_devices (state_of w pm) ->
  pst_spare_usage_array (state_of w' pm) = pst_spare_usage_array (state_of w pm) ->
  pst_nr_spares (state_of w' pm) = pst_nr_spares (state_of w pm) ->
  pst_nr_failures (state_of w' pm) = pst_nr_failures (state_of w pm) ->
  pst_nr_nodes (state_of w' pm) = pst_nr_nodes (state_of w pm) ->
  length (pst_nodes_array (state_of w' pm)) = length (pst_nodes_array (state_of w pm)) -> mach_ok w' pm.
Proof.
  intros [M1 M2 M3 M4 M5 M6 M7 M8 M9 M10 M11 M12] Ho Hf E1 E2 E3 E4 E5 E6 E7.
  assert (forall x, dev_id w' x = dev_id w x) as Hid.
  { intros [j k]. unfold dev_id. cbn [fst snd]. destruct (decide (j = pm)) as [->|Hj];
      [by rewrite E1|]. unfold state_of. by rewrite Ho. }
  assert (forall k, dev_state (state_of w' pm) k = dev_state (state_of w pm) k) as Hst
    by (intros k; unfold dev_state; by rewrite E1).
  split; rewrite ?E1, ?E2, ?E3, ?E4, ?E5, ?E6, ?E7, ?Hf; try done.
  - intros k s. rewrite Hst. apply M6.
  - intros k x. rewrite Hst. apply M9.
  - intros x. rewrite Hid. apply M10.
  - intros a b id. rewrite !Hid. apply M11.
  - intros x a id. rewrite !Hid. apply M12.
Qed.

(** What an event that has an effect leaves: [st] is the state of the machine but for
    the history. *)
Record applied (w w' : m0_pool) (pm : Z) (st : m0_poolmach_state) (failed : list (Z * Z)) (ev :
  m0_poolmach_event) : Prop := {
  ap_state : state_of w' pm = upd_events st
    (pst_events_list st ++ (if default false (head (po_alloc w)) then [ev] else [])) (pst_event_queue st);
  ap_failed : po_failed_devices w' = failed;
  ap_others j : j <> pm -> po_machs w' j = po_machs w j;
  ap_alloc : po_alloc w' = tail (po_alloc w);
  ap_dirty : pv_is_dirty (po_machs w' pm) = (0 <? pst_nr_failures st);
  ap_flags : pv_sns_flags (po_machs w' pm) = if pst_nr_failures st <=? pst_max_device_failures st then 0 else
    pv_sns_flags (po_machs w pm)
}.

Lemma record_event w w1 pm st failed ev : stepped w w1 pm st failed -> exists w',
  (let '(ok, w) := pool_alloc w1 in
   let st := state_of w pm in
   let st := if ok : bool then upd_events st (pst_events_list st ++ [ev]) (pst_event_queue st) else st in
   Some (if ok : bool then 0 else - ENOMEM,
         with_mach w pm {| pm_state := st; pm_is_initialised := pm_is_initialised (po_machs w pm);
                           pv_is_dirty := 0 <? pst_nr_failures st;
                           pv_sns_flags := if pst_nr_failures st <=? pst_max_device_failures st then 0 else
                             pv_sns_flags (po_machs w pm) |})) =
  Some (if default false (head (po_alloc w)) then 0 else - ENOMEM, w') /\ applied w w' pm st failed ev.
Proof.
  intros [H1 H2 H3 H4 [H5 H6]]. unfold pool_alloc. rewrite H4.
  destruct (po_alloc w) as [|b l] eqn:Ea; cbn [head default tail].
  - eexists. split; [done|]. split; rewrite ?Ea; cbn; unfold state_of in *; cbn; rewrite ?Z.eqb_refl; cbn;
      rewrite ?H1, ?H6; try done.
    + rewrite app_nil_r. by destruct st.
    + intros j Hj. rewrite (proj2 (Z.eqb_neq _ _)) by done. by apply H3.
  - eexists. split; [done|]. split; rewrite ?Ea; cbn; unfold state_of in *; cbn; rewrite ?Z.eqb_refl; cbn;
      rewrite ?H1, ?H6; try done.
    + destruct b; [done|]. rewrite app_nil_r. by destruct st.
    + intros j Hj. rewrite (proj2 (Z.eqb_neq _ _)) by done. by apply H3.
    + by destruct b.
    + by destruct b.
Qed.

Lemma applied_ok w w1 w' pm st failed ev : stepped w w1 pm st failed -> applied w w' pm st failed ev ->
  mach_ok w1 pm -> mach_ok w' pm.
Proof.
  intros [H1 H2 H3 _ _] [A1 A2 A3 _ _ _] Hok. apply (mach_same w1 w' pm Hok); rewrite ?A1, ?A2, ?H1, ?H2;
    try done.
  intros j Hj. by rewrite A3, H3.
Qed.

(** What no event changes of a device. *)
Definition dev_fixed (d : m0_pooldev) : m0_fid * Z * Z * option Z := (pd_id d, pd_index d, pd_sdev_idx d,
  pd_node d).

(** What is left of the machine by an event. *)
Record after_event (w w' : m0_pool) (pm : Z) (ev : m0_poolmach_event) : Prop := {
  ae_ok : mach_ok w' pm;
  ae_init : pst_su_initialised (state_of w' pm) = true;
  ae_abs : mach_abs (state_of w' pm) = spec_event (mach_abs (state_of w pm)) ev;
  ae_others j : j <> pm -> po_machs w' j = po_machs w j;
  ae_queue : pst_event_queue (state_of w' pm) = pst_event_queue (state_of w pm);
  ae_spares : pst_nr_spares (state_of w' pm) = pst_nr_spares (state_of w pm);
  ae_max : pst_max_device_failures (state_of w' pm) = pst_max_device_failures (state_of w pm);
  ae_fixed : dev_fixed <$> pst_devices_array (state_of w' pm) = dev_fixed <$> pst_devices_array
    (state_of w pm);
  ae_alloc : po_alloc w' = if event_applies (mach_abs (state_of w pm)) ev then tail (po_alloc w) else
    po_alloc w;
  ae_history : pst_events_list (state_of w' pm) = pst_events_list (state_of w pm) ++
    (if event_applies (mach_abs (state_of w pm)) ev && default false (head (po_alloc w)) then [ev] else []);
  ae_dirty : event_applies (mach_abs (state_of w pm)) ev = true ->
  pv_is_dirty (po_machs w' pm) = (0 <? pst_nr_failures (state_of w' pm))
}.

Lemma no_event w pm ev : mach_ok w pm -> pst_su_initialised (state_of w pm) = true ->
  event_applies (mach_abs (state_of w pm)) ev = false ->
  after_event w w pm ev.
Proof.
  intros Hok Hi Ha. split; try done; rewrite ?Ha; try done; [|by rewrite app_nil_r]. unfold spec_event.
  by rewrite Ha.
Qed.

Lemma arr_get_fmap {A B} (f : A -> B) (l : list A) i : arr_get (f <$> l) i = f <$> arr_get l i.
Proof. unfold arr_get. destruct (0 <=? i); [apply list_lookup_fmap|done]. Qed.

Lemma applied_after w w1 w' pm st failed ev :
  stepped w w1 pm st failed -> applied w w' pm st failed ev -> mach_ok w1 pm ->
  event_applies (mach_abs (state_of w pm)) ev = true ->
  mach_abs st = spec_event (mach_abs (state_of w pm)) ev -> pst_su_initialised st = true ->
  pst_event_queue st = pst_event_queue (state_of w pm) ->
  pst_events_list st = pst_events_list (state_of w pm) ->
  pst_nr_spares st = pst_nr_spares (state_of w pm) ->
  pst_max_device_failures st = pst_max_device_failures (state_of w pm) ->
  dev_fixed <$> pst_devices_array st = dev_fixed <$> pst_devices_array (state_of w pm) ->
  after_event w w' pm ev.
Proof.
  intros Hst Hap Hok Ha Habs Hi E1 E2 E3 E4 E5. pose proof (applied_ok _ _ _ _ _ _ _ Hst Hap Hok) as Hok'.
  destruct Hap as [A1 A2 A3 A4 A5 A6]. split; rewrite ?Ha, ?A1; try done.
  - rewrite <- E2. done.
Qed.

Lemma device_event w pm ev d : mach_ok w pm -> pst_su_initialised (state_of w pm) = true ->
  0 <= pe_index ev ->
  pe_type ev = M0_POOL_DEVICE -> pst_devices_array (state_of w pm) !! Z.to_nat (pe_index ev) = Some d ->
  event_applies (mach_abs (state_of w pm)) ev = true ->
  pe_state ev ∈ event_states -> transition_ok (pd_state d) (pe_state ev) = true ->
  pd_state d <> pe_state ev ->
  exists w', event_apply w pm (pd_state d) ev = Some
    (if default false (head (po_alloc w)) then 0 else - ENOMEM, w') /\ after_event w w' pm ev.
Proof.
  intros Hok Hi Hp Ht Hd Ha Hs Htr Hne. pose proof (lookup_lt_Some _ _ _ Hd) as Hlt.
  destruct (device_ok w pm (pe_index ev) d Hok Hp Hd ev eq_refl Hs Htr Hne)
    as (w1 & Hup & Hok1 & slots' & failed' & Hst & Hsl).
  destruct (record_event w w1 pm _ _ ev Hst) as (w' & Hrec & Hap). exists w'. split.
  - unfold event_apply. rewrite Ht. cbn [Z.eqb M0_POOL_DEVICE M0_POOL_NODE]. unfold arr_get.
    rewrite (proj2 (Z.leb_le _ _) Hp), Hd. cbn [mbind option_bind]. rewrite arr_set_ok by lia.
    cbn [mbind option_bind].
    unfold marked in Hup. rewrite Hup. exact Hrec.
  - eapply applied_after; try done.
    + unfold spec_event. rewrite Ha, Ht. unfold mach_abs. cbn. rewrite list_fmap_insert, list_lookup_fmap, Hd.
      cbn. by rewrite Hsl.
    + cbn. rewrite list_fmap_insert. cbn. apply list_insert_id. by rewrite list_lookup_fmap, Hd.
Qed.

Lemma node_event w pm ev n : mach_ok w pm -> pst_su_initialised (state_of w pm) = true -> 0 <= pe_index ev ->
  pe_type ev = M0_POOL_NODE -> pst_nodes_array (state_of w pm) !! Z.to_nat (pe_index ev) = Some n ->
  event_applies (mach_abs (state_of w pm)) ev = true ->
  exists w', event_apply w pm (pn_state n) ev = Some
    (if default false (head (po_alloc w)) then 0 else - ENOMEM, w') /\ after_event w w' pm ev.
Proof.
  intros Hok Hi Hp Ht Hn Ha. pose proof (lookup_lt_Some _ _ _ Hn) as Hlt.
  pose proof (with_state_stepped w pm (upd_nodes (state_of w pm)
    (<[Z.to_nat (pe_index ev) := set_node_state n (pe_state ev)]>
    (pst_nodes_array (state_of w pm))))) as Hst.
  destruct (record_event w _ pm _ _ ev Hst) as (w' & Hrec & Hap). exists w'. split.
  - unfold event_apply. rewrite Ht. cbn [Z.eqb M0_POOL_DEVICE M0_POOL_NODE]. unfold arr_get.
    rewrite (proj2 (Z.leb_le _ _) Hp), Hn. cbn [mbind option_bind]. rewrite arr_set_ok by lia.
    cbn [mbind option_bind]. exact Hrec.
  - eapply applied_after; try done.
    + destruct Hst as [H1 H2 H3 _ _]. apply (mach_same w); rewrite ?H1; try done. cbn. apply length_insert.
    + unfold spec_event. rewrite Ha, Ht. unfold mach_abs. cbn. by rewrite list_fmap_insert.
Qed.

Lemma nd_in_elem s l : nd_in s l = true <-> s ∈ l.
Proof. unfold nd_in. apply bool_decide_eq_true. Qed.

(** The state an event is about, as the code finds it. *)
Lemma event_old_found w pm ev : mach_ok w pm -> 0 <= pe_index ev ->
  match event_old (mach_abs (state_of w pm)) ev with
  | None => negb ((pe_type ev =? M0_POOL_NODE) || (pe_type ev =? M0_POOL_DEVICE)) ||
    negb (nd_in (pe_state ev) event_states) ||
            ((pe_type ev =? M0_POOL_NODE) && (pst_nr_nodes (state_of w pm) <=? pe_index ev) ||
             (pe_type ev =? M0_POOL_DEVICE) && (pst_nr_devices (state_of w pm) <=? pe_index ev)) = true
  | Some old => pe_state ev ∈ event_states /\
      (pe_type ev = M0_POOL_NODE /\ pe_index ev < pst_nr_nodes (state_of w pm) /\
       (exists n, pst_nodes_array (state_of w pm) !! Z.to_nat (pe_index ev) = Some n /\ old = pn_state n) \/
       pe_type ev = M0_POOL_DEVICE /\ pe_index ev < pst_nr_devices (state_of w pm) /\
       exists d, pst_devices_array (state_of w pm) !! Z.to_nat (pe_index ev) = Some d /\ old = pd_state d)
  end.
Proof.
  intros Hok Hp. unfold event_old. destruct (nd_in (pe_state ev) event_states) eqn:Es; cbn [negb];
    [|by rewrite orb_true_r].
  apply nd_in_elem in Es. rewrite orb_false_r, <- (mk_nodes _ _ Hok), <- (mk_devs _ _ Hok).
  destruct (Z.eqb_spec (pe_type ev) M0_POOL_NODE) as [Et|Et];
    [|destruct (Z.eqb_spec (pe_type ev) M0_POOL_DEVICE) as [Et'|Et']]; cbn [negb orb andb].
  - cbn [mach_abs pa_nodes]. rewrite arr_get_fmap.
    destruct (arr_get _ _) as [n|] eqn:En; cbn [fmap option_fmap option_map].
    + split; [done|]. pose proof (arr_get_range _ _ _ En). apply arr_get_Some in En as [_ En]. left.
      split_and!; [done|lia|]. by exists n.
    + unfold arr_get in En. rewrite (proj2 (Z.leb_le _ _) Hp) in En. apply lookup_ge_None in En.
      apply orb_true_intro. left. apply Z.leb_le. lia.
  - cbn [mach_abs pa_devs]. rewrite arr_get_fmap.
    destruct (arr_get _ _) as [n|] eqn:En; cbn [fmap option_fmap option_map].
    + split; [done|]. pose proof (arr_get_range _ _ _ En). apply arr_get_Some in En as [_ En]. right.
      split_and!; [done|lia|]. by exists n.
    + unfold arr_get in En. rewrite (proj2 (Z.leb_le _ _) Hp) in En. apply lookup_ge_None in En.
      apply Z.leb_le. lia.
  - done.
Qed.

(** One event, whatever it is. *)
Lemma transit_ok w pm ev : mach_ok w pm -> pst_su_initialised (state_of w pm) = true -> 0 <= pe_index ev ->
  exists w', m0_poolmach_state_transit w pm ev = Some
    (spec_rc (mach_abs (state_of w pm)) ev (default false (head (po_alloc w))), w') /\
    after_event w w' pm ev.
Proof.
  intros Hok Hi Hp. pose proof (event_old_found w pm ev Hok Hp) as Hold.
  unfold m0_poolmach_state_transit, spec_rc. fold event_states.
  assert (event_applies (mach_abs (state_of w pm)) ev = match event_old (mach_abs (state_of w pm)) ev with
    | Some old => negb (bool_decide (old = pe_state ev)) && transition_ok old (pe_state ev) |
      None => false end) as Ha by done.
  destruct (event_old (mach_abs (state_of w pm)) ev) as [old|] eqn:Eold.
  2:{ exists w. split; [|by apply no_event].
      destruct (negb ((pe_type ev =? M0_POOL_NODE) || (pe_type ev =? M0_POOL_DEVICE))); [done|].
      destruct (negb (nd_in (pe_state ev) event_states)); [done|]. cbn [orb] in Hold. by rewrite Hold. }
  destruct Hold as [Hs Hty]. rewrite (proj2 (nd_in_elem _ _) Hs), Hi. cbn [negb]. rewrite andb_false_r.
  assert (exists w', (if bool_decide (old = pe_state ev) then Some (0, w)
      else if negb (transition_ok old (pe_state ev)) then Some (- EINVAL, w) else event_apply w pm old ev) =
    Some (if bool_decide (old = pe_state ev) then 0 else if negb (transition_ok old (pe_state ev)) then -
      EINVAL
          else if default false (head (po_alloc w)) then 0 else - ENOMEM, w') /\ after_event w w' pm ev)
            as (w' & Hstep & Haft).
  { destruct (bool_decide_reflect (old = pe_state ev)) as [|Hne];
      [exists w; split; [done|by apply no_event]|].
    destruct (transition_ok old (pe_state ev)) eqn:Htr; cbn [negb andb] in *;
      [|exists w; split; [done|by apply no_event]].
    destruct Hty as [(Et & _ & n & Hn & ->)|(Et & _ & d & Hd & ->)];
      [by apply node_event|by apply device_event]. }
  exists w'. split; [|done]. rewrite <- Hstep.
  destruct Hty as [(-> & Hlt & n & Hn & ->)|(-> & Hlt & d & Hd & ->)];
    cbn [Z.eqb M0_POOL_NODE M0_POOL_DEVICE negb orb andb];
    rewrite ?orb_false_r, (proj2 (Z.leb_gt _ _) Hlt); unfold dev_state, arr_get;
      rewrite (proj2 (Z.leb_le _ _) Hp).
  - by rewrite Hn.
  - by rewrite Hd.
Qed.
