(* ===== verification/PoolMachRun.v ===== *)
(** * Pool machines: sequences of events, queries and start

    From the step of PoolMachInv: any sequence of events, the queries about spare
    space, the events deferred until the spare space is known, and the failure vector that
    gives the initial state of the devices. *)
From S2P Require Import Prelude LibArith Fid PoolMach PoolMachInv.
#[local] Open Scope motr_scope.

(** ** Sequences of events *)

Fixpoint transits (w : m0_pool) (pm : Z) (evs : list m0_poolmach_event) : option (list Z * m0_pool) :=
  match evs with
  | [] => Some ([], w)
  | ev :: evs => '(rc, w) ← m0_poolmach_state_transit w pm ev; '(rcs, w) ← transits w pm evs;
    Some (rc :: rcs, w)
  end.

(** The specification: memory is asked for by the events that have an effect. *)
Fixpoint spec_run (a : pool_abs) (mem : list bool) (evs : list m0_poolmach_event) : list Z * pool_abs :=
  match evs with
  | [] => ([], a)
  | ev :: evs =>
      let r := spec_run (spec_event a ev) (if event_applies a ev then tail mem else mem) evs in
      (spec_rc a ev (default false (head mem)) :: r.1, r.2)
  end.

(** ** Start *)

(** The state of a device that a failure vector gives. *)
Definition spec_note (a : pool_abs) (i : Z) (x : m0_pool_nd_state) : pool_abs :=
  {| pa_nodes := pa_nodes a; pa_devs := <[Z.to_nat i := x]> (pa_devs a);
     pa_slots := if bool_decide (x = M0_PNDS_OFFLINE) then pa_slots a else slot_take (pa_slots a) i |}.

Definition indexed (st : m0_poolmach_state) : Prop :=
  forall k d, pst_devices_array st !! k = Some d -> pd_index d = Z.of_nat k.

(** ** Lemmas: sequences *)

Lemma transits_ok evs w pm : mach_ok w pm -> pst_su_initialised (state_of w pm) = true ->
  Forall (fun ev => 0 <= pe_index ev) evs ->
  exists rcs w', transits w pm evs = Some (rcs, w') /\
  (rcs, mach_abs (state_of w' pm)) = spec_run (mach_abs (state_of w pm)) (po_alloc w) evs /\
    mach_ok w' pm /\ pst_su_initialised (state_of w' pm) = true /\
    (forall j, j <> pm -> po_machs w' j = po_machs w j) /\
    pst_nr_spares (state_of w' pm) = pst_nr_spares (state_of w pm).
Proof.
  revert w. induction evs as [|ev evs IH]; intros w Hok Hi Hevs; [by exists [], w|].
  apply Forall_cons in Hevs as [Hev Hevs]. destruct (transit_ok w pm ev Hok Hi Hev)
    as (w1 & Hw1 & [A1 A2 A3 A4 A5 A6 A7 A8 A9 A10 A11]).
  destruct (IH w1 A1 A2 Hevs) as (rcs & w' & Hrun & Hspec & Hok' & Hi' & Ho & Hn). cbn [transits].
  rewrite Hw1. cbn [mbind option_bind].
  rewrite Hrun. cbn [mbind option_bind]. do 2 eexists. split; [done|].
  split_and!; try done; [|intros j Hj; by rewrite Ho, A4|congruence].
  cbn [spec_run]. rewrite <- A3, <- A9, <- Hspec. done.
Qed.

(** ** Lemmas: queries *)

Definition slot_of (a : pool_abs) (dev : Z) :
  option Z := (fun x => Z.of_nat x.1) <$> list_find (eq (Some dev)) (pa_slots a).

Lemma slot_of_found w pm dev : dev <> POOL_PM_SPARE_SLOT_UNUSED ->
  slot_of (mach_abs (state_of w pm)) dev = (fun x => Z.of_nat x.1) <$> list_find
    (fun s => spare_used_by dev s = true) (pst_spare_usage_array (state_of w pm)).
Proof.
  intros Hd. unfold slot_of, mach_abs. cbn [pa_slots].
  rewrite (find_fmap slot_abs (eq (Some dev)) (fun s => spare_used_by dev s = true));
    [by destruct (list_find _ _) as [[? ?]|]|].
  intros s. unfold spare_used_by, slot_abs. rewrite Z.eqb_eq.
  destruct (Z.eqb_spec (psu_device_index s) POOL_PM_SPARE_SLOT_UNUSED); naive_solver.
Qed.

Lemma spare_query_ok w pm dev : mach_ok w pm -> 0 <= dev ->
  m0_poolmach_sns_repair_spare_query w pm dev =
  Some (if pst_nr_devices (state_of w pm) <=? dev then (- EINVAL, 0)
        else match slot_of (mach_abs (state_of w pm)) dev with Some k => (0, k) | None => (- ENOENT, 0) end).
Proof.
  intros Hok Hd. unfold m0_poolmach_sns_repair_spare_query, spare_query.
  destruct (Z.leb_spec (pst_nr_devices (state_of w pm)) dev) as [|Hlt]; [done|].
  assert (exists x, dev_state (state_of w pm) dev = Some x) as [x Hx].
  { rewrite <- (mk_devs _ _ Hok) in Hlt. destruct (arr_get_is_Some (pst_devices_array (state_of w pm)) dev)
      as [y Hy]; [lia|].
    exists (pd_state y). unfold dev_state. by rewrite Hy. }
  pose proof (mk_max _ _ Hok) as Hmax. rewrite slot_of_found by lia. rewrite Hx. cbn [mbind option_bind].
  rewrite spare_find_all by apply (mk_spares _ _ Hok).
  destruct (list_find _ _) as [[k s]|] eqn:Hf; cbn [fmap option_fmap option_map mbind option_bind fst].
  2:{ by destruct (negb _). }
  apply list_find_Some in Hf as (Hk & Hs & _). apply Z.eqb_eq in Hs.
  destruct (mk_slots _ _ Hok k s Hk ltac:(lia)) as (y & Hy & Hout & Hst).
  rewrite Hs, Hx in Hy. injection Hy as <-. rewrite (proj2 (nd_in_elem _ _) Hout). cbn [negb].
  assert (arr_get (pst_spare_usage_array (state_of w pm)) (Z.of_nat k) = Some s) as ->
    by (apply arr_get_Some; rewrite Nat2Z.id; split; [lia|done]).
  cbn [mbind option_bind]. rewrite (proj2 (nd_in_elem _ _)); [done|]. destruct Hst as [->|[_ ->]]; [done|].
  by apply out_of_order_iff.
Qed.

Lemma nr_dev_failures_ok w pm : mach_ok w pm ->
  m0_poolmach_nr_dev_failures w pm = Z.of_nat (length (filter is_Some (pa_slots (mach_abs (state_of w pm))))).
Proof.
  intros Hok. unfold m0_poolmach_nr_dev_failures. rewrite take_ge by (pose proof (mk_spares _ _ Hok); lia).
  f_equal.
  unfold mach_abs. cbn [pa_slots]. induction (pst_spare_usage_array (state_of w pm)) as [|s l IH]; [done|].
  assert (is_Some (slot_abs s) <-> psu_device_index s <> POOL_PM_SPARE_SLOT_UNUSED) as Hs.
  { unfold slot_abs. destruct (Z.eqb_spec (psu_device_index s) POOL_PM_SPARE_SLOT_UNUSED);
      [|naive_solver]. split; [by intros [? ?]|done]. }
  rewrite fmap_cons, !filter_cons. destruct (decide (psu_device_index s <> _)),
    (decide (is_Some (slot_abs s))); cbn [length]; rewrite ?IH; tauto.
Qed.

(** ** Lemmas: the failure vector *)

Definition note_states : list m0_pool_nd_state :=
  [M0_PNDS_FAILED; M0_PNDS_OFFLINE; M0_PNDS_SNS_REPAIRING; M0_PNDS_SNS_REPAIRED; M0_PNDS_SNS_REBALANCING].

Lemma fid_find_from devs fid k n d i : (k + n = length devs)%nat -> (k <= i)%nat -> devs !! i = Some d ->
  pd_id d = fid ->
  (forall j d', devs !! j = Some d' -> pd_id d' = fid -> j = i) ->
  fid_find devs fid n (Z.of_nat k) = Some (Some d).
Proof.
  revert k. induction n as [|n IH]; intros k Hl Hk Hd Hf Hu; [apply lookup_lt_Some in Hd; lia|].
  destruct (lookup_lt_is_Some_2 devs k) as [e He]; [lia|]. cbn [fid_find].
  rewrite (proj2 (arr_get_Some devs (Z.of_nat k) e)) by (rewrite Nat2Z.id; split; [lia|done]).
  cbn [mbind option_bind]. destruct (m0_fid_eq (pd_id e) fid) eqn:E.
  - apply fid_eq_iff in E. pose proof (Hu _ _ He E) as ->. congruence.
  - replace (Z.of_nat k + 1) with (Z.of_nat (S k)) by lia. apply IH; try done; [lia|].
    assert (k <> i) by (intros ->; rewrite Hd in He; injection He as <-;
      by rewrite (proj2 (fid_eq_iff _ _) Hf) in E). lia.
Qed.

Lemma fid_find_none devs fid k n : (k + n = length devs)%nat ->
  (forall j d, devs !! j = Some d -> pd_id d <> fid) ->
  fid_find devs fid n (Z.of_nat k) = Some None.
Proof.
  revert k. induction n as [|n IH]; intros k Hl Hu; [done|].
  destruct (lookup_lt_is_Some_2 devs k) as [e He]; [lia|]. cbn [fid_find].
  rewrite (proj2 (arr_get_Some devs (Z.of_nat k) e)) by (rewrite Nat2Z.id; split; [lia|done]).
  cbn [mbind option_bind]. destruct (m0_fid_eq (pd_id e) fid) eqn:E; [by apply fid_eq_iff, (Hu _ _ He) in E|].
  replace (Z.of_nat k + 1) with (Z.of_nat (S k)) by lia. apply IH; [lia|done].
Qed.

(** The code finds the device of an identifier. *)
Lemma fid_to_idx_at w pm i d :
  Z.of_nat (length (pst_devices_array (state_of w pm))) = pst_nr_devices (state_of w pm) ->
  indexed (state_of w pm) -> pst_devices_array (state_of w pm) !! i = Some d ->
  (forall j d', pst_devices_array (state_of w pm) !! j = Some d' -> pd_id d' = pd_id d -> j = i) ->
  m0_poolmach_fid_to_idx w pm (pd_id d) = Some (0, Z.of_nat i).
Proof.
  intros Hl Hx Hd Hu. unfold m0_poolmach_fid_to_idx. rewrite <- Hl, Nat2Z.id.
  rewrite (fid_find_from _ _ 0 _ d i); try done; [cbn; by rewrite (Hx _ _ Hd)|lia].
Qed.

Lemma fid_to_idx_ok w pm i d : mach_ok w pm -> indexed (state_of w pm) ->
  pst_devices_array (state_of w pm) !! i = Some d ->
  m0_poolmach_fid_to_idx w pm (pd_id d) = Some (0, Z.of_nat i).
Proof.
  intros Hok Hx Hd. apply fid_to_idx_at; try done; [apply (mk_devs _ _ Hok)|].
  intros j d' Hj Hid. apply Nat2Z.inj. apply (mk_own _ _ Hok _ _ (pd_id d)); apply dev_id_lookup;
    rewrite Nat2Z.id, list_lookup_fmap.
  - rewrite Hj. cbn. split; [lia|congruence].
  - rewrite Hd. cbn. split; [lia|done].
Qed.

Lemma transit_device w pm ev d : pst_su_initialised (state_of w pm) = true ->
  0 <= pe_index ev < pst_nr_devices (state_of w pm) ->
  pe_type ev = M0_POOL_DEVICE -> pe_state ev ∈ event_states ->
  pst_devices_array (state_of w pm) !! Z.to_nat (pe_index ev) = Some d ->
  m0_poolmach_state_transit w pm ev =
  if bool_decide (pd_state d = pe_state ev) then Some (0, w)
  else if negb (transition_ok (pd_state d) (pe_state ev)) then Some (- EINVAL, w) else event_apply w pm
    (pd_state d) ev.
Proof.
  intros Hi [Hp Hlt] Ht Hs Hd. unfold m0_poolmach_state_transit. fold event_states.
  rewrite Ht, Hi, (proj2 (nd_in_elem _ _) Hs).
  cbn [Z.eqb M0_POOL_NODE M0_POOL_DEVICE negb orb andb]. rewrite (proj2 (Z.leb_gt _ _) Hlt).
  unfold dev_state, arr_get.
  rewrite (proj2 (Z.leb_le _ _) Hp), Hd. done.
Qed.

(** What a note of the failure vector leaves. *)
Record noted (w w' : m0_pool) (pm i : Z) (x : m0_pool_nd_state) : Prop := {
  nt_ok : mach_ok w' pm;
  nt_init : pst_su_initialised (state_of w' pm) = true;
  nt_abs : mach_abs (state_of w' pm) = spec_note (mach_abs (state_of w pm)) i x;
  nt_others j : j <> pm -> po_machs w' j = po_machs w j;
  nt_queue : pst_event_queue (state_of w' pm) = filter (fun e => pe_index e <> i)
    (pst_event_queue (state_of w pm));
  nt_fixed : dev_fixed <$> pst_devices_array (state_of w' pm) = dev_fixed <$> pst_devices_array
    (state_of w pm);
  nt_spares : pst_nr_spares (state_of w' pm) = pst_nr_spares (state_of w pm);
  nt_alloc : po_alloc w' = tail (po_alloc w)
}.

Lemma drop_noted w w1 pm i x ev : pe_index ev = i -> mach_ok w1 pm ->
  pst_su_initialised (state_of w1 pm) = true ->
  mach_abs (state_of w1 pm) = spec_note (mach_abs (state_of w pm)) i x ->
  (forall j, j <> pm -> po_machs w1 j = po_machs w j) ->
  pst_event_queue (state_of w1 pm) = pst_event_queue (state_of w pm) -> 
  dev_fixed <$> pst_devices_array (state_of w1 pm) = dev_fixed <$> pst_devices_array (state_of w pm) ->
  pst_nr_spares (state_of w1 pm) = pst_nr_spares (state_of w pm) -> po_alloc w1 = tail (po_alloc w) ->
  noted w (poolmach_event_queue_drop w1 pm ev) pm i x.
Proof.
  intros Ei Hok Hi Habs Ho Hq Hf Hn Ha. unfold poolmach_event_queue_drop.
  destruct (with_state_stepped w1 pm (upd_events (state_of w1 pm) (pst_events_list (state_of w1 pm))
    (filter (fun e => pe_index e <> pe_index ev) (pst_event_queue (state_of w1 pm))))) as [H1 H2 H3 H4 _].
  split; rewrite ?H1; try done.
  - apply (mach_same w1); rewrite ?H1; done.
  - intros j Hj. by rewrite H3, Ho.
  - cbn. by rewrite Hq, Ei.
Qed.

Section note.
Context (w : m0_pool) (pm i : Z) (d : m0_pooldev) (x : m0_pool_nd_state).
Local Notation st := (state_of w pm).
Local Notation ev := {| pe_type := M0_POOL_DEVICE; pe_index := i; pe_state := x |}.
Hypothesis Hok : mach_ok w pm.
Hypothesis Hinit : pst_su_initialised st = true.
Hypothesis Hi : 0 <= i.
Hypothesis Hd : pst_devices_array st !! Z.to_nat i = Some d.
Hypothesis Hunk : pd_state d = M0_PNDS_UNKNOWN.
Hypothesis Hmem : head (po_alloc w) = Some true.

Lemma unknown_moved slots' nf : moved w pm i d (pd_state d) slots' nf = upd_failures (upd_spares st slots')
  nf.
Proof.
  unfold moved. replace (set_dev_state d (pd_state d)) with d by (by destruct d).
  rewrite list_insert_id by done. by destruct st.
Qed.

(** A device that is out of order by the note is given a slot and counted first. *)
Lemma note_prepare : x ∈ [M0_PNDS_SNS_REPAIRING; M0_PNDS_SNS_REPAIRED; M0_PNDS_SNS_REBALANCING] ->
  exists slots' w1,
  (st' ← spare_usage_arr_update st ev;
   let w' := with_state w pm st' in
   listed ← is_listed w' (pm, i);
   if listed : bool then Some w' else st'' ← failures_inc st';
     Some (failed_add (with_state w' pm st'') (pm, i))) = Some w1 /\
  taken w pm i slots' x /\
  stepped w w1 pm (upd_failures (upd_spares st slots') (pst_nr_failures st + 1))
    (po_failed_devices w ++ [(pm, i)]).
Proof.
  intros Hx. assert (~ out_of_order (pd_state d)) as Ho by (rewrite Hunk, out_of_order_iff; tauto).
  destruct (update_ok w pm i d Hok Hi Hd st ev Ho eq_refl eq_refl eq_refl) as (slots' & Hup & Htk).
  exists slots'.
  rewrite Hup. cbn [mbind option_bind]. pose proof (with_state_stepped w pm (upd_spares st slots')) as Hst.
  rewrite (listed_now w pm i d Hok Hi Hd _ (pd_state d) slots' (pst_nr_failures st))
    by (rewrite unknown_moved; by replace (upd_failures _ _) with (upd_spares st slots') by (by destruct st)).
  rewrite bool_decide_false by done. cbn [mbind option_bind].
  rewrite (inc_ok w pm i d Hok Hd) by (first [done|unfold not_serving; rewrite Hunk; tauto]).
  cbn [mbind option_bind].
  eexists. split; [done|]. split; [done|]. unfold failed_add.
  pose proof (stepped_state _ _ _ _ (upd_failures (upd_spares st slots') (pst_nr_failures st + 1)) _ Hst)
    as Hst2.
  rewrite (sp_failed _ _ _ _ _ Hst2). by apply (stepped_failed _ _ _ _ _ _ Hst2).
Qed.

Definition note_mark (w1 : m0_pool) : m0_pool :=
  with_state w1 pm (upd_devices (state_of w1 pm)
    (<[Z.to_nat i := set_dev_state d x]> (pst_devices_array (state_of w1 pm)))).

(** When the device is marked the invariant holds again. *)
Lemma note_marked slots' w1 : out_of_order x -> not_serving x -> x <> M0_PNDS_NR -> taken w pm i slots' x ->
  stepped w w1 pm (upd_failures (upd_spares st slots') (pst_nr_failures st + 1))
    (po_failed_devices w ++ [(pm, i)]) ->
  stepped w (note_mark w1) pm (moved w pm i d x slots' (moved_count w pm d x))
    (po_failed_devices w ++ [(pm, i)]) /\ mach_ok (note_mark w1) pm /\
  pst_devices_array (state_of (note_mark w1) pm) !! Z.to_nat i = Some (set_dev_state d x).
Proof.
  intros Hon Hsn Hnr [T1 T2 T3 T4 T5] Hst. pose proof (sp_state _ _ _ _ _ Hst) as Hs1.
  assert (pst_nr_failures st + 1 = moved_count w pm d x) as Hcnt
    by (unfold moved_count; rewrite (decide_True _ _ Hsn), serving_count, Hunk; lia).
  assert (stepped w (note_mark w1) pm (moved w pm i d x slots' (moved_count w pm d x))
    (po_failed_devices w ++ [(pm, i)])) as Hst2.
  { unfold note_mark. rewrite <- Hcnt, Hs1. by apply (stepped_state _ _ _ _ _ _ Hst). }
  split_and!; [done| |].
  - apply (moved_ok w pm i d Hok Hi Hd _ x slots' (po_failed_devices w ++ [(pm, i)])); try done.
    + intros k s Hk _. by apply T2.
    + intros k s Hk Hs. rewrite (T3 _ _ Hk Hs). split; [done|by left].
    + apply added_list.
    + rewrite elem_of_app, list_elem_of_singleton. tauto.
  - rewrite (sp_state _ _ _ _ _ Hst2). cbn. apply list_lookup_insert_eq. by apply lookup_lt_Some in Hd.
Qed.

Lemma note_event : x ∈ [M0_PNDS_SNS_REPAIRING; M0_PNDS_SNS_REPAIRED; M0_PNDS_SNS_REBALANCING] ->
  forall slots' w1,
  taken w pm i slots' x ->
  stepped w w1 pm (upd_failures (upd_spares st slots') (pst_nr_failures st + 1))
    (po_failed_devices w ++ [(pm, i)]) ->
  exists w', m0_poolmach_state_transit w1 pm ev = Some (0, w') /\
  noted w (poolmach_event_queue_drop w' pm ev) pm i x.
Proof.
  intros Hx slots' w1 Htk Hst.
  assert (out_of_order x /\ not_serving x /\ x <> M0_PNDS_NR /\ x ∈ event_states /\ x <> M0_PNDS_OFFLINE)
    as (Hon & Hsn & Hnr & Hes & Hoff).
  { rewrite out_of_order_iff, <- nd_in_elem. unfold not_serving.
    repeat (apply elem_of_cons in Hx as [->|Hx]; [done|]); by apply not_elem_of_nil in Hx. }
  destruct (i_range w pm i d Hok Hd) as [Hr _]. pose proof (sp_state _ _ _ _ _ Hst) as Hs1.
  rewrite (transit_device w1 pm ev d); rewrite ?Hs1; try done. cbn [pe_state].
  rewrite Hunk, bool_decide_false by (intros <-; by destruct Hsn).
  change (transition_ok M0_PNDS_UNKNOWN x) with true. cbn [negb].
  destruct (note_marked slots' w1 Hon Hsn Hnr Htk Hst) as (Hst2 & Hok2 & Hd2).
  destruct (repair_from (note_mark w1) pm i (set_dev_state d x) Hok2 Hi Hd2 (note_mark w1) ev eq_refl Hx
    (or_intror Hon)) as (w3 & Hw3 & Hok3 & slots2 & failed2 & Hst3 & Hsl).
  { unfold moved. cbn [pe_state]. change (set_dev_state (set_dev_state d x) x)
      with (set_dev_state d x). rewrite list_insert_id by done.
    split; [|done..]. by destruct (state_of (note_mark w1) pm). }
  destruct (record_event _ w3 pm _ _ ev Hst3) as (w4 & Hrec & Hap).
  assert (po_alloc (note_mark w1) = po_alloc w) as Hal by apply (sp_alloc _ _ _ _ _ Hst2).
  rewrite Hal in Hrec.
  exists w4. split.
  - rewrite Hmem in Hrec. unfold event_apply. cbn
      [pe_type pe_index pe_state Z.eqb M0_POOL_DEVICE M0_POOL_NODE].
    rewrite (proj2 (arr_get_Some (pst_devices_array (state_of w1 pm)) i d)) by (by rewrite Hs1).
    cbn [mbind option_bind].
    pose proof (lookup_lt_Some _ _ _ Hd) as Hlt. rewrite arr_set_ok by (rewrite Hs1; cbn; lia).
    cbn [mbind option_bind]. fold (note_mark w1).
    assert (device_update (note_mark w1) pm M0_PNDS_UNKNOWN ev = repair_update (note_mark w1) pm ev) as ->
      by (clear -Hx; repeat (apply elem_of_cons in Hx as [->|Hx]; [done|]); by apply not_elem_of_nil in Hx).
    rewrite Hw3. exact Hrec.
  - pose proof (applied_ok _ _ _ _ _ _ _ Hst3 Hap Hok3) as Hok4. destruct Hap as [A1 _ A3 A4 _ _].
    pose proof (sp_state _ _ _ _ _ Hst2) as Hs2.
    unfold moved at 1 in A1. cbn [pe_state] in A1, Hsl. rewrite Hs2 in A1, Hsl.
    assert (slot_abs <$> slots2 = slot_take (slot_abs <$> pst_spare_usage_array st) i) as Hsl'.
    { rewrite Hsl, <- (tk_abs _ _ _ _ _ Htk). clear -Hx. repeat (apply elem_of_cons in Hx as [->|Hx];
        [done|]); by apply not_elem_of_nil in Hx. }
    apply drop_noted; rewrite ?A1; try done.
    + unfold mach_abs, spec_note. cbn. rewrite list_insert_insert, decide_True, list_fmap_insert, Hsl',
        bool_decide_false by done. done.
    + intros j Hj. rewrite (A3 j Hj). apply (sp_others _ _ _ _ _ Hst2 j Hj).
    + change (pst_event_queue (state_of (note_mark w1) pm) = pst_event_queue st). by rewrite Hs2.
    + cbn. rewrite list_insert_insert, decide_True, list_fmap_insert by done. apply list_insert_id.
      by rewrite list_lookup_fmap, Hd.
    + by rewrite A4, Hal.
Qed.

Lemma note_plain : x = M0_PNDS_FAILED \/ x = M0_PNDS_OFFLINE ->
  exists w', m0_poolmach_state_transit w pm ev = Some (0, w') /\
  noted w (poolmach_event_queue_drop w' pm ev) pm i x.
Proof.
  intros Hx. destruct (transit_ok w pm ev Hok Hinit Hi) as (w' & Hw' & [A1 A2 A3 A4 A5 A6 A7 A8 A9 A10 A11]).
  exists w'.
  assert (arr_get (pa_devs (mach_abs st)) i = Some M0_PNDS_UNKNOWN) as Hold.
  { cbn [mach_abs pa_devs]. rewrite arr_get_fmap, (proj2 (arr_get_Some _ i d)) by done. cbn.
      by rewrite Hunk. }
  assert (event_old (mach_abs st) ev = Some M0_PNDS_UNKNOWN) as He by (destruct Hx as [-> | ->]; exact Hold).
  assert (event_applies (mach_abs st) ev = true) as Ha
    by (unfold event_applies; rewrite He; destruct Hx as [-> | ->]; done).
  rewrite Ha in *. split.
  - rewrite Hw'. unfold spec_rc. rewrite He, Hmem. destruct Hx as [-> | ->]; done.
  - apply drop_noted; try done. rewrite A3. unfold spec_event. rewrite Ha. unfold spec_note.
    cbn [negb pe_type pe_index pe_state Z.eqb M0_POOL_DEVICE M0_POOL_NODE].
    apply arr_get_Some in Hold as [_ ->]. destruct Hx as [-> | ->]; done.
Qed.

Lemma note_ok note : indexed st -> no_id note = pd_id d -> m0_ha2pm_state_map (no_state note) = Some x ->
  x ∈ note_states ->
  exists w', failvec_note w pm note = Some w' /\ noted w w' pm i x.
Proof.
  intros Hidx Hid Hmap Hx. unfold failvec_note. rewrite Hid, (fid_to_idx_ok w pm (Z.to_nat i) d) by done.
  rewrite Z2Nat.id by done.
  cbn [mbind option_bind Z.eqb]. change (0 =? - ENOENT) with false. cbn [negb]. rewrite Hmap.
  cbn [mbind option_bind].
  assert ((x = M0_PNDS_FAILED \/ x = M0_PNDS_OFFLINE) \/
    x ∈ [M0_PNDS_SNS_REPAIRING; M0_PNDS_SNS_REPAIRED; M0_PNDS_SNS_REBALANCING]) as [Hc|Hc].
  { unfold note_states in Hx. rewrite !elem_of_cons in Hx. rewrite !elem_of_cons. tauto. }
  - assert (nd_in x [M0_PNDS_FAILED; M0_PNDS_OFFLINE] = true) as -> by (by destruct Hc as [-> | ->]).
    cbn [negb mbind option_bind].
    destruct (note_plain Hc) as (w' & -> & Hn). cbn [mbind option_bind]. by eexists.
  - assert (nd_in x [M0_PNDS_FAILED; M0_PNDS_OFFLINE] = false) as ->
      by (clear -Hc; repeat (apply elem_of_cons in Hc as [->|Hc]; [done|]); by apply not_elem_of_nil in Hc).
    cbn [negb]. destruct (note_prepare Hc) as (slots' & w1 & Hpre & Htk & Hst). cbv zeta in Hpre.
    rewrite Hpre. cbn [mbind option_bind].
    destruct (note_event Hc slots' w1 Htk Hst) as (w' & -> & Hn). cbn [mbind option_bind]. by eexists.
Qed.
End note.

Lemma indexed_fixed st st' : dev_fixed <$> pst_devices_array st' = dev_fixed <$> pst_devices_array st ->
  indexed st -> indexed st'.
Proof.
  intros E H k d Hd. pose proof (list_lookup_fmap dev_fixed (pst_devices_array st') k) as Hk.
  rewrite E, Hd, list_lookup_fmap in Hk.
  destruct (pst_devices_array st !! k) as [d0|] eqn:Hd0; [|done]. injection Hk as _ E2 _ _. rewrite <- E2.
  by apply H.
Qed.

(** A note for a device of the machine, or for another device. *)
Definition note_index (ids : list m0_fid) (note : m0_ha_note) : option Z :=
  (fun x => Z.of_nat x.1) <$> list_find (eq (no_id note)) ids.

Definition spec_notes (ids : list m0_fid) (nvec : list m0_ha_note) (a : pool_abs) : pool_abs :=
  foldl (fun a note => match note_index ids note, m0_ha2pm_state_map (no_state note) with
                       | Some i, Some x => spec_note a i x
                       | _, _ => a
                       end) a nvec.

(** The deferred events that a failure vector leaves. *)
Definition spec_deferred (ids : list m0_fid) (nvec : list m0_ha_note) (q : list m0_poolmach_event) :
  list m0_poolmach_event :=
  foldl (fun q note => match note_index ids note with Some i => filter (fun e => pe_index e <> i) q |
    None => q end) q nvec.

Definition dev_ids (st : m0_poolmach_state) : list m0_fid := pd_id <$> pst_devices_array st.

Lemma dev_ids_fixed st st' : dev_fixed <$> pst_devices_array st' = dev_fixed <$> pst_devices_array st ->
  dev_ids st' = dev_ids st.
Proof.
  intros E. unfold dev_ids. assert (forall l : list m0_pooldev,
    pd_id <$> l = (fun y => y.1.1.1) <$> (dev_fixed <$> l)) as H by (intros l;
    by rewrite <- list_fmap_compose).
  by rewrite !H, E.
Qed.

Lemma note_index_found st note i : note_index (dev_ids st) note = Some i -> exists d, 0 <= i /\
  pst_devices_array st !! Z.to_nat i = Some d /\ no_id note = pd_id d.
Proof.
  unfold note_index. destruct (list_find _ _) as [[k id]|] eqn:Hf; [|done]. intros [= <-]. cbn.
  apply list_find_Some in Hf as (Hk & -> & _).
  apply list_lookup_fmap_Some in Hk as (d & Hid & Hd). exists d. rewrite Nat2Z.id.
  split_and!; [lia|done|done].
Qed.

Lemma note_absent w pm note :
  Z.of_nat (length (pst_devices_array (state_of w pm))) = pst_nr_devices (state_of w pm) ->
  note_index (dev_ids (state_of w pm)) note = None -> failvec_note w pm note = Some w.
Proof.
  intros Hl Hn. unfold failvec_note, m0_poolmach_fid_to_idx.
  rewrite <- Hl, Nat2Z.id, (fid_find_none _ _ 0); [done..|].
  intros j d Hd E. unfold note_index in Hn. apply fmap_None, list_find_None in Hn.
  rewrite Forall_lookup in Hn.
  apply (Hn j (pd_id d)); [unfold dev_ids; by rewrite list_lookup_fmap, Hd|done].
Qed.

(** Enough memory for [n] requests. *)
Definition mem_ok (n : nat) (l : list bool) : Prop := replicate n true `prefix_of` l.

Lemma mem_ok_S n l : mem_ok (S n) l -> head l = Some true /\ mem_ok n (tail l).
Proof. intros [k ->]. split; [done|]. by exists k. Qed.

Lemma mem_ok_le n m l : (n <= m)%nat -> mem_ok m l -> mem_ok n l.
Proof. intros Hle [k ->]. exists (replicate (m - n) true ++ k). rewrite app_assoc, <- replicate_add.
do 2 f_equal. lia. Qed.

(** What is asked of a failure vector: no device twice, devices that are not known yet,
    and states that a failed device may have. *)
Record nvec_ok (st : m0_poolmach_state) (nvec : list m0_ha_note) : Prop := {
  nv_ids : NoDup (no_id <$> nvec);
  nv_states note : note ∈ nvec -> exists x, m0_ha2pm_state_map (no_state note) = Some x /\ x ∈ note_states;
  nv_unknown note i : note ∈ nvec -> note_index (dev_ids st) note = Some i ->
  dev_state st i = Some M0_PNDS_UNKNOWN
}.

Lemma nvec_tail w w' pm i x note nvec : nvec_ok (state_of w pm) (note :: nvec) ->
  note_index (dev_ids (state_of w pm)) note = Some i -> noted w w' pm i x ->
  nvec_ok (state_of w' pm) nvec.
Proof.
  intros [N1 N2 N3] Hi Hn. apply NoDup_cons in N1 as [Hnot N1].
  split; [done|intros n Hin; apply N2; by right|].
  intros n j Hin Hj. rewrite (dev_ids_fixed _ _ (nt_fixed _ _ _ _ _ Hn)) in Hj.
  pose proof (N3 n j (list_elem_of_further _ _ _ Hin) Hj) as Hst. apply dev_state_lookup in Hst as [Hj0 Hst].
  apply dev_state_lookup. split; [done|].
  change (pd_state <$> pst_devices_array (state_of w' pm)) with (pa_devs (mach_abs (state_of w' pm))).
  rewrite (nt_abs _ _ _ _ _ Hn).
  cbn [spec_note pa_devs mach_abs]. rewrite list_lookup_insert_ne; [done|]. intros E.
  destruct (note_index_found _ _ _ Hi) as (d & ? & Hd & Hid).
  destruct (note_index_found _ _ _ Hj) as (d' & ? & Hd' & Hid').
  assert (i = j) as -> by lia. rewrite Hd in Hd'. injection Hd' as <-. apply Hnot. rewrite Hid, <- Hid'.
  by apply list_elem_of_fmap_2.
Qed.

(** What a group of operations on the machine leaves besides the abstract state. *)
Record kept (w w' : m0_pool) (pm : Z) : Prop := {
  kp_ok : mach_ok w' pm;
  kp_init : pst_su_initialised (state_of w' pm) = true;
  kp_others j : j <> pm -> po_machs w' j = po_machs w j;
  kp_fixed : dev_fixed <$> pst_devices_array (state_of w' pm) = dev_fixed <$> pst_devices_array
    (state_of w pm);
  kp_spares : pst_nr_spares (state_of w' pm) = pst_nr_spares (state_of w pm)
}.

Lemma kept_trans w w1 w2 pm : kept w w1 pm -> kept w1 w2 pm -> kept w w2 pm.
Proof. intros [K1 K2 K3 K4 K5] [L1 L2 L3 L4 L5].
split; try done; [intros j Hj; by rewrite L3, K3|congruence..]. Qed.

Lemma notes_ok nvec w pm : mach_ok w pm -> pst_su_initialised (state_of w pm) = true ->
  indexed (state_of w pm) -> nvec_ok (state_of w pm) nvec ->
  mem_ok (length nvec) (po_alloc w) ->
  exists w', failvec_notes w pm nvec = Some w' /\ kept w w' pm /\
  mach_abs (state_of w' pm) = spec_notes (dev_ids (state_of w pm)) nvec (mach_abs (state_of w pm)) /\
    pst_event_queue (state_of w' pm) = spec_deferred (dev_ids (state_of w pm)) nvec
      (pst_event_queue (state_of w pm)).
Proof.
  revert w. induction nvec as [|note nvec IH]; intros w Hok Hi Hx Hnv Hmem; [by exists w|].
  cbn [failvec_notes]. unfold spec_notes, spec_deferred. cbn [foldl].
  fold (spec_notes (dev_ids (state_of w pm))). fold (spec_deferred (dev_ids (state_of w pm))).
  destruct (mem_ok_S _ _ Hmem) as [Hm1 Hm2]. destruct (note_index (dev_ids (state_of w pm)) note)
    as [i|] eqn:Hidx.
  - destruct (note_index_found _ _ _ Hidx) as (d & Hi0 & Hd & Hid).
    destruct (nv_states _ _ Hnv note ltac:(by left)) as (x & Hmap & Hxs).
    assert (pd_state d = M0_PNDS_UNKNOWN) as Hunk.
    { pose proof (nv_unknown _ _ Hnv note i ltac:(by left) Hidx) as H. apply dev_state_lookup in H
        as [_ H]. rewrite list_lookup_fmap, Hd in H. by injection H. }
    destruct (note_ok w pm i d x Hok Hi Hi0 Hd Hunk Hm1 note Hx Hid Hmap Hxs) as (w1 & -> & Hn).
    cbn [mbind option_bind]. rewrite Hmap.
    pose proof (nvec_tail _ _ _ _ _ _ _ Hnv Hidx Hn) as Hnv1. destruct Hn as [N1 N2 N3 N4 N5 N6 N7 N8].
    destruct (IH w1 N1 N2 (indexed_fixed _ _ N6 Hx) Hnv1 ltac:(by rewrite N8)) as (w' & -> & Hk & Habs & Hq).
    exists w'.
    split; [done|]. split; [by apply (kept_trans _ w1)|]. rewrite Habs, Hq, N3, N5.
    by rewrite (dev_ids_fixed _ _ N6).
  - rewrite (note_absent w pm note (mk_devs _ _ Hok) Hidx). cbn [mbind option_bind]. destruct Hnv as [V1 V2 V3].
    apply NoDup_cons in V1 as [_ V1].
    apply IH; try done; [split; [done|intros n Hn; apply V2; by right|intros n i Hn; apply V3; by right]|].
    eapply mem_ok_le; [|exact Hmem]. cbn. lia.
Qed.

Lemma queue_apply_ok q w pm : mach_ok w pm -> pst_su_initialised (state_of w pm) = true ->
  Forall (fun ev => 0 <= pe_index ev) q ->
  pst_event_queue (state_of w pm) = q ->
  exists w', queue_apply w pm q = Some w' /\ kept w w' pm /\
    mach_abs (state_of w' pm) = (spec_run (mach_abs (state_of w pm)) (po_alloc w) q).2 /\
    pst_event_queue (state_of w' pm) = [].
Proof.
  revert w. induction q as [|e q IH]; intros w Hok Hi Hq Hqq; [by exists w|].
  apply Forall_cons in Hq as [He Hq]. destruct (transit_ok w pm e Hok Hi He)
    as (w1 & Hw1 & [A1 A2 A3 A4 A5 A6 A7 A8 A9 A10 A11]).
  cbn [queue_apply]. rewrite Hw1. cbn [mbind option_bind]. cbv zeta.
  destruct (with_state_stepped w1 pm (upd_events (state_of w1 pm) (pst_events_list (state_of w1 pm))
    (tail (pst_event_queue (state_of w1 pm))))) as [S1 S2 S3 S4 _].
  set (w2 := with_state w1 pm _) in *.
  assert (kept w w2 pm) as Hk2.
  { split; rewrite ?S1; try done; [by apply (mach_same w1); rewrite ?S1|]. intros j Hj. by rewrite S3, A4. }
  destruct (IH w2) as (w' & -> & Hk & Habs & Hend);
    [apply Hk2|apply Hk2|done|rewrite S1; cbn; by rewrite A5, Hqq|]. exists w'.
  split_and!; [done|by apply (kept_trans _ w2)| |done]. rewrite Habs, S1, S4. cbn [spec_run snd].
  change (mach_abs (upd_events ?s _ _)) with (mach_abs s). by rewrite A3, A9.
Qed.

(** The events decide the state, whatever memory there is. *)
Lemma spec_run_state evs a mem : (spec_run a mem evs).2 = foldl spec_event a evs.
Proof. revert a mem. induction evs as [|e evs IH]; intros a mem; [done|]. cbn [spec_run snd foldl]. apply IH.
Qed.

Lemma deferred_elem ids nvec q e : e ∈ spec_deferred ids nvec q -> e ∈ q.
Proof.
  unfold spec_deferred. revert q. induction nvec as [|n nvec IH]; intros q; [done|]. cbn [foldl]. intros H%IH.
  destruct (note_index ids n); [|done]. by apply list_elem_of_filter in H as [_ ?].
Qed.

(** The failure vector and the events that were deferred. *)
Lemma failvec_apply_ok w pm nvec : mach_ok w pm -> pst_su_initialised (state_of w pm) = false ->
  indexed (state_of w pm) ->
  nvec_ok (state_of w pm) nvec -> mem_ok (length nvec) (po_alloc w) ->
  Forall (fun ev => 0 <= pe_index ev) (pst_event_queue (state_of w pm)) ->
  exists w', m0_poolmach_failvec_apply w pm nvec = Some w' /\ kept w w' pm /\
  pst_event_queue (state_of w' pm) = [] /\
    mach_abs (state_of w' pm) = foldl spec_event
      (spec_notes (dev_ids (state_of w pm)) nvec (mach_abs (state_of w pm)))
                                      (spec_deferred (dev_ids (state_of w pm)) nvec
                                        (pst_event_queue (state_of w pm))).
Proof.
  intros Hok Hi Hx Hnv Hmem Hq. unfold m0_poolmach_failvec_apply. rewrite Hi.
  cbn [negb M0_ASSERT mbind option_bind].
  destruct (with_state_stepped w pm (upd_initialised (state_of w pm) true)) as [S1 S2 S3 S4 _].
  set (w0 := with_state w pm _) in *.
  assert (dev_fixed <$> pst_devices_array (state_of w0 pm) = dev_fixed <$> pst_devices_array (state_of w pm))
    as Hf by (by rewrite S1).
  assert (kept w w0 pm) as Hk0 by (split; rewrite ?S1; try done; by apply (mach_same w); rewrite ?S1).
  destruct (notes_ok nvec w0 pm) as (w1 & -> & Hk1 & Habs & Hq1);
    [apply Hk0|apply Hk0|by eapply indexed_fixed| |by rewrite S4|].
  { destruct Hnv as [V1 V2 V3]. split; [done|done|]. intros n i Hn. rewrite (dev_ids_fixed _ _ Hf),
      S1. apply (V3 n i Hn). }
  cbn [mbind option_bind]. unfold m0_poolmach_event_queue_apply. rewrite (kp_init _ _ _ Hk1).
  cbn [M0_ASSERT mbind option_bind].
  destruct (queue_apply_ok (pst_event_queue (state_of w1 pm)) w1 pm) as (w' & -> & Hk' & Habs' & Hend);
    [apply Hk1|apply Hk1| |done|].
  { rewrite Hq1, S1. apply Forall_forall. intros e He%deferred_elem.
      by apply (proj1 (Forall_forall _ _) Hq). }
  exists w'. split_and!; [done|by apply (kept_trans _ w0), (kept_trans _ w1)|done|].
  rewrite Habs', spec_run_state, Habs, Hq1, S1. change (mach_abs (upd_initialised ?s _)) with (mach_abs s).
  change (pst_event_queue (upd_initialised ?s _)) with (pst_event_queue s).
  done.
Qed.
