(* ===== verification/PoolMachConf.v ===== *)
(** * Pool machines: from the configuration to the events

    The configuration as enclosures with their drives, the machine it gives, and the
    whole life of a machine: initialisation, configuration, failure vector, events. *)
From S2P Require Import Prelude LibArith Fid PoolMach PoolMachInv PoolMachRun.
#[local] Open Scope motr_scope.

(** ** Specification *)

Record conf_drive := { cd_id : m0_fid; cd_sdev : Z; cd_ha : Z }.
Record conf_encl := { ce_id : m0_fid; ce_ha : Z; ce_drives : list conf_drive }.

(** The objects in the order in which the iterator visits them. *)
Definition drive_obj (d : conf_drive) : conf_objv := ConfDrive (cd_id d) (cd_sdev d) (cd_ha d).
Definition conf_objs (l : list conf_encl) : list conf_objv :=
  concat ((fun e => ConfEnclosure (ce_id e) (ce_ha e) :: (drive_obj <$> ce_drives e)) <$> l).

Definition ha_state (ha : Z) : m0_pool_nd_state := default M0_PNDS_UNKNOWN (m0_ha2pm_state_map ha).

Definition node_of (k : nat) (e : conf_encl) : m0_poolnode :=
  {| pn_id := ce_id e; pn_index := Z.of_nat k; pn_state := ha_state (ce_ha e) |}.
Definition dev_of (k node : nat) (d : conf_drive) : m0_pooldev :=
  {| pd_state := M0_PNDS_UNKNOWN; pd_id := cd_id d; pd_index := Z.of_nat k; pd_sdev_idx := cd_sdev d;
    pd_node := Some (Z.of_nat node) |}.
Definition event_of (k : nat) (d : conf_drive) : m0_poolmach_event :=
  {| pe_type := M0_POOL_DEVICE; pe_index := Z.of_nat k; pe_state := ha_state (cd_ha d) |}.

(** The machine with devices from [k] on for the enclosures from [n] on. *)
Fixpoint conf_devs (n k : nat) (l : list conf_encl) : list m0_pooldev :=
  match l with
  | [] => []
  | e :: l => imap (fun i => dev_of (k + i) n) (ce_drives e) ++ conf_devs (S n) (k + length (ce_drives e)) l
  end.
Fixpoint conf_events (k : nat) (l : list conf_encl) : list m0_poolmach_event :=
  match l with
  | [] => []
  | e :: l => imap (fun i => event_of (k + i)) (ce_drives e) ++ conf_events (k + length (ce_drives e)) l
  end.

Definition all_drives (l : list conf_encl) : list conf_drive := concat (ce_drives <$> l).

Record conf_ok (l : list conf_encl) : Prop := {
  cf_drives e : e ∈ l -> ce_drives e <> [];
  cf_nodes e : e ∈ l -> exists s, m0_ha2pm_state_map (ce_ha e) = Some s /\
  s ∈ [M0_PNDS_ONLINE; M0_PNDS_FAILED; M0_PNDS_OFFLINE];
  cf_states d : d ∈ all_drives l -> exists s, m0_ha2pm_state_map (cd_ha d) = Some s /\ s ∈ event_states
}.

(** ** Lemmas: the configuration *)

(** The state of the machine and what is left alone. *)
Record went (w w' : m0_pool) (pm : Z) (st : m0_poolmach_state) : Prop := {
  wt_state : state_of w' pm = st;
  wt_failed : po_failed_devices w' = po_failed_devices w;
  wt_others j : j <> pm -> po_machs w' j = po_machs w j
}.

Lemma went_trans w w1 w2 pm st1 st2 : went w w1 pm st1 -> went w1 w2 pm st2 -> went w w2 pm st2.
Proof. intros [A1 A2 A3] [B1 B2 B3]. split; [done|congruence|]. intros j Hj. by rewrite B3, A3. Qed.

Lemma went_state w pm st : went w (with_state w pm st) pm st.
Proof. by destruct (with_state_stepped w pm st) as [S1 S2 S3 _ _]. Qed.

Lemma alloc_went w pm : went w (pool_alloc w).2 pm (state_of w pm) /\
  po_alloc (pool_alloc w).2 = tail (po_alloc w) /\
  (pool_alloc w).1 = default false (head (po_alloc w)).
Proof. unfold pool_alloc. destruct (po_alloc w) eqn:E; cbn; by rewrite ?E. Qed.

(** The event of a device is deferred. *)
Lemma transit_defer w pm ev : pst_su_initialised (state_of w pm) = false -> pe_type ev = M0_POOL_DEVICE ->
  pe_state ev ∈ event_states ->
  0 <= pe_index ev < pst_nr_devices (state_of w pm) ->
  Z.of_nat (length (pst_devices_array (state_of w pm))) = pst_nr_devices (state_of w pm) ->
  head (po_alloc w) = Some true ->
  exists w', m0_poolmach_state_transit w pm ev = Some (0, w') /\ po_alloc w' = tail (po_alloc w) /\
    went w w' pm (upd_events (state_of w pm) (pst_events_list (state_of w pm))
      (pst_event_queue (state_of w pm) ++ [ev])).
Proof.
  intros Hi Ht Hs [Hp Hlt] Hl Hmem. unfold m0_poolmach_state_transit. fold event_states.
  rewrite Ht, (proj2 (nd_in_elem _ _) Hs), Hi.
  cbn [Z.eqb M0_POOL_NODE M0_POOL_DEVICE negb orb andb]. rewrite (proj2 (Z.leb_gt _ _) Hlt).
  destruct (arr_get_is_Some (pst_devices_array (state_of w pm)) (pe_index ev)) as [d Hd]; [lia|].
  unfold dev_state. rewrite Hd. cbn [mbind option_bind].
  unfold poolmach_equeue_add. destruct (alloc_went w pm) as (Hw & Ha & Hm). rewrite Hmem in Hm.
  destruct (pool_alloc w) as [ok w1]. cbn [fst snd default] in *. subst ok.
  cbn [negb]. eexists. split; [done|]. rewrite (wt_state _ _ _ _ Hw). split; [done|].
  eapply went_trans; [exact Hw|]. apply went_state.
Qed.

(** The event of a node that is online. *)
Lemma transit_node w pm ev n : pe_type ev = M0_POOL_NODE ->
  pe_state ev ∈ [M0_PNDS_ONLINE; M0_PNDS_FAILED; M0_PNDS_OFFLINE] ->
  0 <= pe_index ev < pst_nr_nodes (state_of w pm) ->
  pst_nodes_array (state_of w pm) !! Z.to_nat (pe_index ev) = Some n ->
  pn_state n = M0_PNDS_ONLINE -> head (po_alloc w) = Some true ->
  exists w' evl, m0_poolmach_state_transit w pm ev = Some (0, w') /\
  (po_alloc w' = po_alloc w \/ po_alloc w' = tail (po_alloc w)) /\
    went w w' pm (upd_events (upd_nodes (state_of w pm)
      (<[Z.to_nat (pe_index ev) := set_node_state n (pe_state ev)]> (pst_nodes_array (state_of w pm))))
                             evl (pst_event_queue (state_of w pm))).
Proof.
  intros Ht Hs [Hp Hlt] Hn Hon Hmem. assert (nd_in (pe_state ev) event_states = true) as Hes.
  { apply nd_in_elem. rewrite !elem_of_cons in Hs. unfold event_states. rewrite !elem_of_cons. tauto. }
  unfold m0_poolmach_state_transit. fold event_states. rewrite Ht, Hes.
  cbn [Z.eqb M0_POOL_NODE M0_POOL_DEVICE negb orb andb].
  rewrite (proj2 (Z.leb_gt _ _) Hlt). cbn [orb]. rewrite (proj2 (arr_get_Some _ _ n)) by done.
  cbn [mbind option_bind]. rewrite Hon.
  case_bool_decide as E.
  - exists w, (pst_events_list (state_of w pm)). split_and!; [done|by left|]. split; [|done..].
    rewrite <- E, <- Hon.
    replace (set_node_state n (pn_state n)) with n by (by destruct n). rewrite list_insert_id by done.
    by destruct (state_of w pm).
  - assert (transition_ok M0_PNDS_ONLINE (pe_state ev) = true) as ->
      by (rewrite !elem_of_cons in Hs; destruct Hs as [Hs|[Hs|[Hs|Hs%not_elem_of_nil]]]; by rewrite ?Hs in *).
    cbn [negb]. pose proof (with_state_stepped w pm
      (upd_nodes (state_of w pm) (<[Z.to_nat (pe_index ev) := set_node_state n (pe_state ev)]>
      (pst_nodes_array (state_of w pm))))) as Hst.
    destruct (record_event w _ pm _ _ ev Hst) as (w' & Hrec & [A1 A2 A3 A4 _ _]). rewrite Hmem in *.
    eexists w', _. split_and!; [|by right|by split]. unfold event_apply. rewrite Ht. cbn [Z.eqb M0_POOL_NODE].
    rewrite (proj2 (arr_get_Some _ _ n)) by done. cbn [mbind option_bind].
    pose proof (lookup_lt_Some _ _ _ Hn). rewrite arr_set_ok by lia. exact Hrec.
Qed.

Section conf.
Context (pm : Z) (st0 : m0_poolmach_state).
Hypothesis Hnodes : Z.of_nat (length (pst_nodes_array st0)) = pst_nr_nodes st0.
Hypothesis Hdevs : Z.of_nat (length (pst_devices_array st0)) = pst_nr_devices st0.
Hypothesis Hmax : pst_nr_devices st0 < POOL_PM_SPARE_SLOT_UNUSED.
Hypothesis Hnmax : pst_nr_nodes st0 < POOL_PM_SPARE_SLOT_UNUSED.
Hypothesis Hfresh_node : forall k n, pst_nodes_array st0 !! k = Some n -> pn_state n = M0_PNDS_ONLINE.
Hypothesis Hfresh_dev : forall k d, pst_devices_array st0 !! k = Some d -> pd_state d = M0_PNDS_UNKNOWN.
Hypothesis Huninit : pst_su_initialised st0 = false.

(** The state when the nodes and the devices of [nodes] and [devs] are known. *)
Definition conf_state (nodes : list m0_poolnode) (devs : list m0_pooldev) (evl q : list m0_poolmach_event) :
  m0_poolmach_state :=
  upd_events (upd_devices (upd_nodes st0 (nodes ++ drop (length nodes) (pst_nodes_array st0)))
    (devs ++ drop (length devs) (pst_devices_array st0))) evl q.

(** The walk has come so far. *)
Definition conf_at (w w' : m0_pool) (nodes : list m0_poolnode) (devs : list m0_pooldev) (q :
  list m0_poolmach_event) : Prop :=
  exists evl, went w w' pm (conf_state nodes devs evl q).

Lemma fill_set {A} (done rest : list A) x : (length done < length rest)%nat ->
  arr_set (done ++ drop (length done) rest) (Z.of_nat (length done)) x = Some
    ((done ++ [x]) ++ drop (length (done ++ [x])) rest).
Proof.
  intros Hlt. destruct (lookup_lt_is_Some_2 rest (length done) Hlt) as [y Hy].
  rewrite (drop_S _ _ _ Hy), arr_set_middle by done.
  rewrite length_app, <- app_assoc. cbn. do 3 f_equal. by rewrite Nat.add_1_r.
Qed.

Lemma fill_get {A} (done rest : list A) x : rest !! length done = Some x ->
  arr_get (done ++ drop (length done) rest) (Z.of_nat (length done)) = Some x.
Proof. intros Hx. rewrite (drop_S _ _ _ Hx). by apply arr_get_middle. Qed.

Lemma drive_step w w1 nodes devs q n d : conf_at w w1 nodes devs q ->
  (length devs < length (pst_devices_array st0))%nat ->
  (exists s, m0_ha2pm_state_map (cd_ha d) = Some s /\ s ∈ event_states) -> head (po_alloc w1) = Some true ->
  exists w2, poolmach_state_update w1 pm (drive_obj d) (Z.of_nat n) (Z.of_nat (length devs)) = Some (0, w2,
    Z.of_nat n, Z.of_nat (S (length devs))) /\
    conf_at w w2 nodes (devs ++ [dev_of (length devs) n d]) (q ++ [event_of (length devs) d]) /\
    po_alloc w2 = tail (po_alloc w1).
Proof.
  intros [evl Hw1] Hlt (s & Hs & Hin) Hmem. destruct (lookup_lt_is_Some_2 _ _ Hlt) as [x Hx].
  pose proof (wt_state _ _ _ _ Hw1) as Hst.
  unfold poolmach_state_update, drive_obj. rewrite Hst.
  cbn [conf_state upd_events upd_devices pst_devices_array].
  rewrite (fill_get _ _ _ Hx). cbn [mbind option_bind]. rewrite (fill_set _ _ _ Hlt), (Hfresh_dev _ _ Hx), Hs.
  cbn [mbind option_bind].
  change {| pd_state := _; pd_id := _; pd_index := _; pd_sdev_idx := _; pd_node := _ |}
    with (dev_of (length devs) n d).
  match goal with |- context [with_state w1 pm ?st] => pose proof (went_state w1 pm st) as Hw;
    set (wm := with_state w1 pm st) in * end.
  pose proof (wt_state _ _ _ _ Hw) as Hsm. unfold POOL_PM_SPARE_SLOT_UNUSED in Hmax.
  destruct (transit_defer wm pm {| pe_type := M0_POOL_DEVICE; pe_index := Z.of_nat (length devs);
    pe_state := s |})
    as (w2 & -> & Ha & Hw2); rewrite ?Hsm; try done;
      [cbn; lia|cbn; rewrite length_app, length_drop, length_app; cbn; lia|].
  cbn [mbind option_bind]. rewrite u32_small by (unfold is_u32; lia). rewrite (proj2 (Z.eqb_neq _ 0)) by lia.
  cbn [negb M0_ASSERT mbind option_bind].
  exists w2. split_and!; [by do 3 f_equal; lia| |done]. exists evl.
  unfold event_of, ha_state. rewrite Hs. rewrite Hsm in Hw2. eapply went_trans; [exact Hw1|].
  eapply went_trans; [exact Hw|]. exact Hw2.
Qed.

Lemma encl_step w w1 nodes devs q n e : conf_at w w1 nodes devs q ->
  (length nodes < length (pst_nodes_array st0))%nat ->
  (exists s, m0_ha2pm_state_map (ce_ha e) = Some s /\ s ∈ [M0_PNDS_ONLINE; M0_PNDS_FAILED; M0_PNDS_OFFLINE])
    -> head (po_alloc w1) = Some true ->
  length nodes = (if bool_decide (length devs = 0%nat) then n else S n) ->
  exists w2, poolmach_state_update w1 pm (ConfEnclosure (ce_id e) (ce_ha e)) (Z.of_nat n)
    (Z.of_nat (length devs)) =
      Some (0, w2, Z.of_nat (length nodes), Z.of_nat (length devs)) /\
    conf_at w w2 (nodes ++ [node_of (length nodes) e]) devs q /\
    (po_alloc w2 = po_alloc w1 \/ po_alloc w2 = tail (po_alloc w1)).
Proof.
  intros [evl Hw1] Hlt (s & Hs & Hin) Hmem Hn. destruct (lookup_lt_is_Some_2 _ _ Hlt) as [x Hx].
  pose proof (wt_state _ _ _ _ Hw1) as Hst.
  unfold poolmach_state_update. unfold POOL_PM_SPARE_SLOT_UNUSED in Hnmax.
  assert ((if negb (Z.of_nat (length devs) =? 0) then u32 (Z.of_nat n + 1) else Z.of_nat n) = Z.of_nat
    (length nodes)) as ->.
  { case_bool_decide as E; [by rewrite E, Hn|]. rewrite (proj2 (Z.eqb_neq _ 0))
      by lia. cbn [negb]. rewrite u32_small by (unfold is_u32; lia). lia. }
  assert ((Z.of_nat (length devs) =? 0) || negb (Z.of_nat (length nodes) =? 0) = true) as ->.
  { case_bool_decide as E; [by rewrite E|]. rewrite (proj2 (Z.eqb_neq (Z.of_nat (length nodes)) 0)) by lia.
      by rewrite orb_true_r. }
  cbn [M0_ASSERT mbind option_bind]. rewrite Hst.
  cbn [conf_state upd_events upd_devices upd_nodes pst_nodes_array].
  rewrite (fill_get _ _ _ Hx). cbn [mbind option_bind].
  rewrite (fill_set _ _ _ Hlt), (Hfresh_node _ _ Hx), Hs. cbn [mbind option_bind].
  set (node := {| pn_id := _; pn_index := _; pn_state := _ |}).
  match goal with |- context [with_state w1 pm ?st] => pose proof (went_state w1 pm st) as Hw;
    set (wm := with_state w1 pm st) in * end.
  pose proof (wt_state _ _ _ _ Hw) as Hsm.
  assert (forall y, ((nodes ++ [y]) ++ drop (length (nodes ++ [node])) (pst_nodes_array st0)) !! length nodes
    = Some y) as Hlk
    by (intros y; rewrite <- app_assoc; by apply list_lookup_middle).
  destruct (transit_node wm pm {| pe_type := M0_POOL_NODE; pe_index := Z.of_nat (length nodes);
    pe_state := s |} node)
    as (w2 & evl2 & -> & Ha & Hw2); rewrite ?Hsm; try done;
      [cbn; lia|cbn [pe_index]; rewrite Nat2Z.id; apply Hlk|].
  cbn [mbind option_bind]. exists w2. split_and!; [done| |done]. exists evl2. rewrite Hsm in Hw2.
  cbn [pe_index pe_state] in Hw2. rewrite Nat2Z.id in Hw2.
  eapply went_trans; [exact Hw1|]. eapply went_trans; [exact Hw|]. cbn [upd_nodes pst_nodes_array] in Hw2.
  assert (<[length nodes := set_node_state node s]>
    ((nodes ++ [node]) ++ drop (length (nodes ++ [node])) (pst_nodes_array st0)) =
    (nodes ++ [node_of (length nodes) e]) ++ drop (length (nodes ++ [node_of (length nodes) e]))
      (pst_nodes_array st0)) as E.
  { rewrite !length_app, <- !app_assoc. cbn [length app]. rewrite <- (Nat.add_0_r (length nodes)) at 1.
      rewrite insert_app_r. cbn.
    unfold node_of, ha_state. by rewrite Hs. }
  rewrite E in Hw2. exact Hw2.
Qed.

Lemma drives_loop ds w w1 nodes devs q n rest m : conf_at w w1 nodes devs q ->
  (length devs + length ds <= length (pst_devices_array st0))%nat ->
  (forall d, d ∈ ds -> exists s, m0_ha2pm_state_map (cd_ha d) = Some s /\ s ∈ event_states) ->
  mem_ok (length ds + m) (po_alloc w1) ->
  exists w2, conf_loop w1 pm ((drive_obj <$> ds) ++ rest) (Z.of_nat n) (Z.of_nat (length devs)) =
             conf_loop w2 pm rest (Z.of_nat n) (Z.of_nat (length devs + length ds)) /\
    conf_at w w2 nodes (devs ++ imap (fun i => dev_of (length devs + i) n) ds)
      (q ++ imap (fun i => event_of (length devs + i)) ds) /\
    mem_ok m (po_alloc w2).
Proof.
  revert w1 devs q. induction ds as [|d ds IH]; intros w1 devs q Hat Hlen Hst Hmem.
  { exists w1. cbn. by rewrite !app_nil_r, Nat.add_0_r. }
  cbn [length] in Hlen, Hmem. destruct (mem_ok_S _ _ Hmem) as [Hm1 Hm2].
  destruct (drive_step w w1 nodes devs q n d Hat ltac:(lia) (Hst d ltac:(by left)) Hm1)
    as (w2 & Hw2 & Hat2 & Ha).
  rewrite fmap_cons. cbn [app conf_loop]. rewrite Hw2. cbn [mbind option_bind Z.eqb negb].
  destruct (IH w2 _ _ Hat2) as (w3 & Hw3 & Hat3 & Hm3);
    [rewrite length_app; cbn; lia|intros x Hx; apply Hst; by right|by rewrite Ha|].
  rewrite length_app in Hw3, Hat3. cbn [length] in Hw3, Hat3. exists w3. split_and!; [|  |done].
  - rewrite <- Nat.add_1_r, Hw3. f_equal. cbn [length]. lia.
  - cbn [imap]. rewrite Nat.add_0_r. rewrite <- !app_assoc in Hat3.
    rewrite (imap_ext (fun i => dev_of (length devs + S i) n) (fun i => dev_of (length devs + 1 + i) n))
      by (intros; f_equal; lia).
    rewrite (imap_ext (fun i => event_of (length devs + S i)) (fun i => event_of (length devs + 1 + i)))
      by (intros; f_equal; lia). exact Hat3.
Qed.

Lemma conf_ok_tail e l : conf_ok (e :: l) -> conf_ok l.
Proof.
  intros [C1 C2 C3]. split; [intros x Hx; apply C1; by right|intros x Hx; apply C2; by right|].
  intros d Hd. apply C3. unfold all_drives. cbn. apply elem_of_app. by right.
Qed.

Lemma encls_loop l w w1 nodes devs q n m : conf_at w w1 nodes devs q -> conf_ok l ->
  (length nodes + length l <= length (pst_nodes_array st0))%nat ->
  (length devs + length (all_drives l) <= length (pst_devices_array st0))%nat ->
  length nodes = (if bool_decide (length devs = 0%nat) then n else S n) ->
  mem_ok (length (conf_objs l) + m) (po_alloc w1) ->
  exists w2, conf_loop w1 pm (conf_objs l) (Z.of_nat n) (Z.of_nat (length devs)) = Some (0, w2,
    Z.of_nat (length devs + length (all_drives l))) /\
    conf_at w w2 (nodes ++ imap (fun i => node_of (length nodes + i)) l)
      (devs ++ conf_devs (length nodes) (length devs) l) (q ++ conf_events (length devs) l) /\
    mem_ok m (po_alloc w2).
Proof.
  revert w1 nodes devs q n. induction l as [|e l IH]; intros w1 nodes devs q n Hat Hc Hln Hld Hn Hmem.
  { exists w1. cbn. by rewrite !app_nil_r, Nat.add_0_r. }
  assert (conf_objs (e :: l) = ConfEnclosure (ce_id e) (ce_ha e) ::
    (drive_obj <$> ce_drives e) ++ conf_objs l) as Eo by done.
  assert (all_drives (e :: l) = ce_drives e ++ all_drives l) as Ed by done. rewrite Eo in *.
  rewrite Ed, length_app in *. cbn [length] in Hln.
  cbn [length] in Hmem. rewrite length_app, length_fmap, Nat.add_succ_l, <- Nat.add_assoc in Hmem.
  destruct (mem_ok_S _ _ Hmem) as [Hm1 Hm2].
  destruct (encl_step w w1 nodes devs q n e Hat ltac:(lia) (cf_nodes _ Hc e ltac:(by left)) Hm1 Hn)
    as (w2 & Hw2 & Hat2 & Ha).
  assert (mem_ok (length (ce_drives e) + (length (conf_objs l) + m)) (po_alloc w2)) as Hm3.
  { destruct Ha as [-> | ->]; [|done]. eapply mem_ok_le; [|exact Hmem]. lia. }
  destruct (drives_loop (ce_drives e) w w2 _ devs q (length nodes) (conf_objs l) (length (conf_objs l) + m)
    Hat2) as (w3 & Hw3 & Hat3 & Hm4); [lia| |done|].
  { intros d Hd. apply (cf_states _ Hc). rewrite Ed. apply elem_of_app. by left. }
  cbn [conf_loop]. rewrite Hw2. cbn [mbind option_bind Z.eqb negb]. rewrite Hw3.
  pose proof (cf_drives _ Hc e ltac:(by left)) as Hne.
  destruct (IH w3 _ _ _ (length nodes) Hat3 (conf_ok_tail _ _ Hc)) as (w4 & Hw4 & Hat4 & Hm5);
    rewrite ?length_app, ?length_imap; cbn [length]; try lia; [|done|].
  { rewrite bool_decide_false by (destruct (ce_drives e); [done|cbn; lia]). lia. }
  rewrite length_app, length_imap in Hw4. exists w4. split_and!; [rewrite Hw4; do 2 f_equal; lia| |done].
  rewrite !length_app, !length_imap, <- !app_assoc in Hat4. cbn [length] in Hat4.
  cbn [imap conf_devs conf_events app] in *.
  rewrite Nat.add_0_r, Nat.add_1_r in *.
  rewrite (imap_ext (fun i => node_of (length nodes + S i)) (fun i => node_of (S (length nodes) + i)))
    by (intros; f_equal; lia). exact Hat4.
Qed.
End conf.

Lemma conf_devs_lookup l n k j d : conf_devs n k l !! j = Some d -> pd_state d = M0_PNDS_UNKNOWN /\
  pd_index d = Z.of_nat (k + j).
Proof.
  revert n k j. induction l as [|e l IH]; intros n k j; [done|]. cbn [conf_devs].
  intros [H|[Hl H]]%lookup_app_Some.
  - rewrite list_lookup_imap in H. destruct (ce_drives e !! j); [|done]. by injection H as <-.
  - rewrite length_imap in *. apply IH in H as [-> ->]. split; [done|]. lia.
Qed.

Lemma conf_devs_ids l n k : pd_id <$> conf_devs n k l = cd_id <$> all_drives l.
Proof.
  revert n k. induction l as [|e l IH]; intros n k; [done|]. cbn [conf_devs]. unfold all_drives. cbn.
  fold (all_drives l). rewrite !fmap_app, IH. f_equal.
  generalize (ce_drives e). intros ds. rewrite fmap_imap. unfold compose. cbn. revert k.
  induction ds as [|d ds IHd]; intros k; [done|]. cbn. f_equal.
  rewrite <- (IHd (S k)). apply imap_ext. done.
Qed.

Lemma conf_events_index l k : Forall (fun ev => 0 <= pe_index ev) (conf_events k l).
Proof.
  revert k. induction l as [|e l IH]; intros k; [done|]. cbn. apply Forall_app_2; [|done].
  apply Forall_lookup. intros j ev.
  rewrite list_lookup_imap. destruct (ce_drives e !! j); [|done]. intros [= <-]. cbn. lia.
Qed.

Lemma failures_unknown n : failures (replicate n M0_PNDS_UNKNOWN) = 0.
Proof. unfold failures. induction n as [|n IH]; [done|]. exact IH. Qed.

Lemma node_states k l : pn_state <$> imap (fun i => node_of (k + i)) l = (fun e => ha_state (ce_ha e)) <$> l.
Proof.
  revert k. induction l as [|e l IH]; intros k; [done|]. cbn. f_equal. rewrite <- (IH (S k)). f_equal.
  apply imap_ext. intros. cbn. f_equal. lia.
Qed.

(** The devices of other machines of the pool that are failed are not drives of this one. *)
Definition drives_foreign (w : m0_pool) (pm : Z) (l : list conf_encl) : Prop :=
  forall x, x ∈ po_failed_devices w -> x.1 <> pm /\ exists id, dev_id w x = Some id /\
  id ∉ cd_id <$> all_drives l.

(** What the machine knows of its devices before any event. *)
Definition conf_abs (l : list conf_encl) (nr_spare : Z) : pool_abs :=
  {| pa_nodes := (fun e => ha_state (ce_ha e)) <$> l;
    pa_devs := replicate (length (all_drives l)) M0_PNDS_UNKNOWN;
     pa_slots := replicate (Z.to_nat nr_spare) None |}.

(** A machine that has been configured. *)
Record configured (w w' : m0_pool) (pm : Z) (l : list conf_encl) (nr_spare : Z) : Prop := {
  cg_ok : mach_ok w' pm;
  cg_init : pst_su_initialised (state_of w' pm) = false;
  cg_indexed : indexed (state_of w' pm);
  cg_ids : dev_ids (state_of w' pm) = cd_id <$> all_drives l;
  cg_abs : mach_abs (state_of w' pm) = conf_abs l nr_spare;
  cg_queue : pst_event_queue (state_of w' pm) = conf_events 0 l;
  cg_spares : pst_nr_spares (state_of w' pm) = nr_spare;
  cg_others j : j <> pm -> po_machs w' j = po_machs w j
}.

Section configured.
Context (w w' : m0_pool) (pm : Z) (l : list conf_encl) (ns mnf mdf : Z) (evl : list m0_poolmach_event).
Local Notation nn := (Z.of_nat (length l)).
Local Notation nd := (Z.of_nat (length (all_drives l))).
Hypothesis Hns : 0 <= ns.
Hypothesis Hmax : nd < POOL_PM_SPARE_SLOT_UNUSED.
Hypothesis Hids : NoDup (cd_id <$> all_drives l).
Hypothesis Hforeign : drives_foreign w pm l.
Hypothesis Hw : went w w' pm (conf_state (state_init nn nd ns mnf mdf) (imap node_of l) (conf_devs 0 0 l) evl
  (conf_events 0 l)).

Lemma conf_devs_length : length (conf_devs 0 0 l) = length (all_drives l).
Proof. by rewrite <- (length_fmap pd_id), conf_devs_ids, length_fmap. Qed.

Lemma conf_state_nodes : pst_nodes_array (state_of w' pm) = imap node_of l.
Proof. rewrite (wt_state _ _ _ _ Hw). cbn. rewrite length_imap, drop_ge, app_nil_r; [done|].
rewrite length_fmap, length_seqZ. lia. Qed.

Lemma conf_state_devs : pst_devices_array (state_of w' pm) = conf_devs 0 0 l.
Proof. rewrite (wt_state _ _ _ _ Hw). cbn. rewrite conf_devs_length, drop_ge, app_nil_r; [done|].
rewrite length_fmap, length_seqZ. lia. Qed.

Lemma conf_devs_states : pd_state <$> conf_devs 0 0 l = replicate (length (all_drives l)) M0_PNDS_UNKNOWN.
Proof.
  rewrite <- conf_devs_length. apply list_eq. intros j. rewrite list_lookup_fmap.
  destruct (conf_devs 0 0 l !! j) as [d|] eqn:Hd; cbn.
  - destruct (conf_devs_lookup _ _ _ _ _ Hd) as [-> _]. symmetry. apply lookup_replicate_2.
    by apply lookup_lt_Some in Hd.
  - symmetry. apply lookup_ge_None. rewrite length_replicate. by apply lookup_ge_None.
Qed.

Lemma conf_slots k s : pst_spare_usage_array (state_of w' pm) !! k = Some s ->
  psu_device_index s = POOL_PM_SPARE_SLOT_UNUSED.
Proof.
  rewrite (wt_state _ _ _ _ Hw). cbn. rewrite list_lookup_fmap. destruct (seqZ 0 ns !! k); [|done].
  by intros [= <-].
Qed.

Lemma conf_dev_id x : x.1 <> pm -> dev_id w' x = dev_id w x.
Proof. intros Hx. unfold dev_id, state_of. by rewrite (wt_others _ _ _ _ Hw _ Hx). Qed.

Lemma conf_dev_state i x : dev_state (state_of w' pm) i = Some x -> x = M0_PNDS_UNKNOWN.
Proof.
  rewrite dev_state_lookup, conf_state_devs, conf_devs_states. intros [_ H].
  by apply lookup_replicate in H as [? _].
Qed.

Lemma conf_mach_ok : mach_ok w' pm.
Proof.
  pose proof (wt_state _ _ _ _ Hw) as Hst. pose proof (wt_failed _ _ _ _ Hw) as Hf.
  split; rewrite ?conf_state_nodes, ?conf_state_devs, ?Hf.
  - by rewrite length_imap, Hst.
  - by rewrite conf_devs_length, Hst.
  - by rewrite Hst.
  - rewrite Hst. cbn. rewrite length_fmap, length_seqZ. lia.
  - intros i d Hd. by destruct (conf_devs_lookup _ _ _ _ _ Hd) as [-> _].
  - intros k s Hk. by apply conf_slots in Hk.
  - intros k k' s s' Hk _ _ Hu. by apply conf_slots in Hk.
  - rewrite Hst, conf_devs_states. symmetry. apply failures_unknown.
  - intros i x ->%conf_dev_state. rewrite out_of_order_iff. split; [|done]. intros Hin.
    by destruct (Hforeign _ Hin).
  - intros d Hin. destruct (Hforeign _ Hin) as (Hd & id & Hid & _). exists id. by rewrite conf_dev_id.
  - intros i j id. rewrite !dev_id_lookup, conf_state_devs, conf_devs_ids. intros [Hi H1] [Hj H2].
    pose proof (NoDup_lookup _ _ _ _ Hids H1 H2). lia.
  - intros d i id Hin Hd. rewrite dev_id_lookup, conf_state_devs, conf_devs_ids, conf_dev_id by done.
    intros [_ Hi%list_elem_of_lookup_2] E.
    destruct (Hforeign _ Hin) as (_ & id' & Hid & Hn). congruence.
Qed.

Lemma conf_configured : configured w w' pm l ns.
Proof.
  pose proof (wt_state _ _ _ _ Hw) as Hst. split; try (by rewrite Hst).
  - apply conf_mach_ok.
  - intros k d. rewrite conf_state_devs. intros [_ ->]%conf_devs_lookup. done.
  - unfold dev_ids. by rewrite conf_state_devs, conf_devs_ids.
  - unfold mach_abs, conf_abs. rewrite conf_state_nodes, conf_state_devs, conf_devs_states. f_equal.
    + apply (node_states 0).
    + rewrite Hst. cbn. rewrite <- list_fmap_compose.
      rewrite <- (length_seqZ 0 ns), <- const_fmap with (f := fun _ => None); done.
  - apply (wt_others _ _ _ _ Hw).
Qed.
End configured.

(** ** Lemmas: the start of a machine *)

Section start.
Context (w : m0_pool) (pm : Z) (l : list conf_encl) (ns mnf mdf : Z).
Local Notation nn := (Z.of_nat (length l)).
Local Notation nd := (Z.of_nat (length (all_drives l))).
Hypothesis Hns : 0 <= ns.
Hypothesis Hmax : nd < POOL_PM_SPARE_SLOT_UNUSED.
Hypothesis Hnmax : nn < POOL_PM_SPARE_SLOT_UNUSED.

Hypothesis Huninit : pm_is_initialised (po_machs w pm) = false.

Lemma init_went m : mem_ok (4 + m) (po_alloc w) ->
  exists w1, m0_poolmach_init w pm nn nd ns mnf mdf = Some (0, w1) /\
  went w w1 pm (state_init nn nd ns mnf mdf) /\ mem_ok m (po_alloc w1) /\
  pv_is_dirty (po_machs w1 pm) = pv_is_dirty (po_machs w pm).
Proof.
  intros [k Hk]. unfold m0_poolmach_init, pool_alloc. rewrite Hk. cbn. rewrite Huninit. eexists.
  split; [done|]. split_and!; [|by exists k|cbn; by rewrite Z.eqb_refl].
  split; unfold state_of; cbn; rewrite ?Z.eqb_refl; try done. intros j Hj. by rewrite (proj2 (Z.eqb_neq _ _)).
Qed.

(** The machine after its configuration, whatever the list of failed devices has. *)
Lemma init_conf_went m : conf_ok l -> mem_ok (4 + length (conf_objs l) + m) (po_alloc w) ->
  exists w1 w2 evl, m0_poolmach_init w pm nn nd ns mnf mdf = Some (0, w1) /\
    m0_poolmach_init_by_conf w1 pm (conf_objs l) = Some (0, w2) /\
    went w w2 pm (conf_state (state_init nn nd ns mnf mdf) (imap node_of l) (conf_devs 0 0 l) evl
      (conf_events 0 l)) /\ mem_ok m (po_alloc w2).
Proof.
  intros Hc Hmem. destruct (init_went (length (conf_objs l) + m)) as (w1 & Hinit & Hw1 & Hm1 & _);
    [by rewrite Nat.add_assoc|]. exists w1.
  destruct (encls_loop pm (state_init nn nd ns mnf mdf))
    with (l := l) (w := w) (w1 := w1) (nodes := @nil m0_poolnode) (devs := @nil m0_pooldev)
    (q := @nil m0_poolmach_event) (n := 0%nat) (m := m) as (w2 & Hw2 & [evl Hat] & Hm2); try done.
  1-2, 6-7: cbn; rewrite length_fmap, length_seqZ; lia.
  - intros k n. cbn. rewrite list_lookup_fmap. destruct (seqZ _ _ !! k); [|done]. by intros [= <-].
  - intros k d. cbn. rewrite list_lookup_fmap. destruct (seqZ _ _ !! k); [|done]. by intros [= <-].
  - by exists [].
  - exists w2, evl. split; [done|]. unfold m0_poolmach_init_by_conf. cbn [length Nat.add] in Hw2.
    change (Z.of_nat 0) with 0 in Hw2. rewrite Hw2. cbn [mbind option_bind Z.eqb negb].
    rewrite (wt_state _ _ _ _ Hat). cbn [conf_state upd_events upd_devices upd_nodes pst_nr_devices
      state_init]. rewrite Z.leb_refl.
    done.
Qed.

Lemma init_conf_ok m : conf_ok l -> NoDup (cd_id <$> all_drives l) -> drives_foreign w pm l ->
  mem_ok (4 + length (conf_objs l) + m) (po_alloc w) ->
  exists w1 w2, m0_poolmach_init w pm nn nd ns mnf mdf = Some (0, w1) /\
  m0_poolmach_init_by_conf w1 pm (conf_objs l) = Some (0, w2) /\
    configured w w2 pm l ns /\ mem_ok m (po_alloc w2).
Proof.
  intros Hc Hids Hf Hmem. destruct (init_conf_went m Hc Hmem) as (w1 & w2 & evl & H1 & H2 & Hw & Hm).
  exists w1, w2. split_and!; try done. by eapply conf_configured.
Qed.
End start.

(** ** The start of a machine *)

(** The state the configuration, the failure vector and the deferred events give. *)
Definition spec_start (l : list conf_encl) (nr_spare : Z) (nvec : list m0_ha_note) : pool_abs :=
  let ids := cd_id <$> all_drives l in
  foldl spec_event (spec_notes ids nvec (conf_abs l nr_spare)) (spec_deferred ids nvec (conf_events 0 l)).

(** A machine that is initialised, configured and given a failure vector comes up. *)
Lemma machine_start w pm l ns mnf mdf nvec :
  0 <= ns -> Z.of_nat (length (all_drives l)) < POOL_PM_SPARE_SLOT_UNUSED ->
  Z.of_nat (length l) < POOL_PM_SPARE_SLOT_UNUSED ->
  pm_is_initialised (po_machs w pm) = false ->
  conf_ok l -> NoDup (cd_id <$> all_drives l) -> drives_foreign w pm l -> NoDup (no_id <$> nvec) ->
  (forall note, note ∈ nvec -> exists x, m0_ha2pm_state_map (no_state note) = Some x /\ x ∈ note_states) ->
  mem_ok (4 + length (conf_objs l) + length nvec) (po_alloc w) ->
  exists w1 w2 w3,
    m0_poolmach_init w pm (Z.of_nat (length l)) (Z.of_nat (length (all_drives l))) ns mnf mdf =
      Some (0, w1) /\
    m0_poolmach_init_by_conf w1 pm (conf_objs l) = Some (0, w2) /\
    m0_poolmach_failvec_apply w2 pm nvec = Some w3 /\
    mach_ok w3 pm /\ pst_su_initialised (state_of w3 pm) = true /\ m0_poolmach_equeue_length w3 pm = 0 /\
    mach_abs (state_of w3 pm) = spec_start l ns nvec /\ (forall j, j <> pm -> po_machs w3 j = po_machs w j).
Proof.
  intros Hns Hmax Hnmax Hun Hc Hids Hf Hnv Hnx Hmem.
  destruct (init_conf_ok w pm l ns mnf mdf Hns Hmax Hnmax Hun (length nvec) Hc Hids Hf Hmem)
    as (w1 & w2 & Hi & Hconf & [G1 G2 G3 G4 G5 G6 G7 G8] & Hm).
  destruct (failvec_apply_ok w2 pm nvec G1 G2 G3) as (w3 & Hfv & [K1 K2 K3 K4 K5] & Hq & Habs).
  - split; [done|done|]. intros note i Hin Hidx. destruct (note_index_found _ _ _ Hidx) as (d & Hi0 & Hd & _).
    apply dev_state_lookup. split; [done|]. change (pd_state <$> pst_devices_array (state_of w2 pm))
      with (pa_devs (mach_abs (state_of w2 pm))).
    rewrite G5. cbn. apply lookup_replicate_2. rewrite <- (length_fmap cd_id), <- G4. unfold dev_ids.
    rewrite length_fmap. by apply lookup_lt_Some in Hd.
  - done.
  - rewrite G6. apply conf_events_index.
  - exists w1, w2, w3. split_and!; try done; [unfold m0_poolmach_equeue_length; by rewrite Hq| |intros j Hj;
      by rewrite K3, G8].
    rewrite Habs, G4, G5, G6. done.
Qed.

(** Two enclosures with two drives each, two spare slots. *)
Definition example_encls : list conf_encl :=
  [{| ce_id := M0_FID_INIT 1 1; ce_ha := 1;
      ce_drives := [{| cd_id := M0_FID_INIT 2 1; cd_sdev := 0; cd_ha := 1 |};
        {| cd_id := M0_FID_INIT 2 2; cd_sdev := 1; cd_ha := 5 |}] |};
   {| ce_id := M0_FID_INIT 1 2; ce_ha := 3;
      ce_drives := [{| cd_id := M0_FID_INIT 2 3; cd_sdev := 2; cd_ha := 3 |};
        {| cd_id := M0_FID_INIT 2 4; cd_sdev := 3; cd_ha := 1 |}] |}].
Definition example_notes : list m0_ha_note := [{| no_id := M0_FID_INIT 2 2; no_state := 5 |};
  {| no_id := M0_FID_INIT 2 3; no_state := 3 |};
                                               {| no_id := M0_FID_INIT 2 9; no_state := 2 |}].
Definition example_world : m0_pool :=
  {| po_machs := fun _ => {| pm_state := state_init 0 0 0 0 0; pm_is_initialised := false;
                             pv_is_dirty := false; pv_sns_flags := 0 |};
    po_failed_devices := []; po_alloc := replicate 40 true |}.

Lemma example_conf_ok : conf_ok example_encls.
Proof.
  split.
  - intros e He. by repeat (apply elem_of_cons in He as [->|He]; [done|]); apply not_elem_of_nil in He.
  - intros e He. repeat (apply elem_of_cons in He as [->|He];
      [by eexists; split; [done|]; rewrite <- nd_in_elem|]). by apply not_elem_of_nil in He.
  - intros d Hd. repeat (apply elem_of_cons in Hd as [->|Hd];
      [by eexists; split; [done|]; rewrite <- nd_in_elem|]). by apply not_elem_of_nil in Hd.
Qed.

Lemma example_notes_ok note : note ∈ example_notes -> exists x,
  m0_ha2pm_state_map (no_state note) = Some x /\ x ∈ note_states.
Proof. intros Hn. repeat (apply elem_of_cons in Hn as [->|Hn];
  [by eexists; split; [done|]; rewrite <- nd_in_elem|]). by apply not_elem_of_nil in Hn. Qed.

(** ** Events *)

(** What the machine tells about an abstract state. *)
Record mach_tells (w : m0_pool) (pm : Z) (a : pool_abs) : Prop := {
  mt_abs : mach_abs (state_of w pm) = a;
  mt_failures : pst_nr_failures (state_of w pm) = failures (pa_devs a);
  mt_slots : m0_poolmach_nr_dev_failures w pm = Z.of_nat (length (filter is_Some (pa_slots a)));
  mt_listed i x : arr_get (pa_devs a) i = Some x -> (pm, i) ∈ po_failed_devices w <-> out_of_order x;
  mt_query i : 0 <= i -> m0_poolmach_sns_repair_spare_query w pm i =
    Some (if Z.of_nat (length (pa_devs a)) <=? i then (- EINVAL, 0)
          else match slot_of a i with Some k => (0, k) | None => (- ENOENT, 0) end)
}.

Lemma machine_tells w pm : mach_ok w pm -> mach_tells w pm (mach_abs (state_of w pm)).
Proof.
  intros Hok. split; try done.
  - apply (mk_count _ _ Hok).
  - by apply nr_dev_failures_ok.
  - intros i x [Hi0 Hx]%arr_get_Some. apply (mk_listed _ _ Hok), dev_state_lookup. done.
  - intros i Hi0. cbn [mach_abs pa_devs]. rewrite length_fmap, (mk_devs _ _ Hok). by apply spare_query_ok.
Qed.

(** The devices of a machine that is finalised leave the list. *)
Lemma fini_failed w pm : mach_ok w pm -> forall x,
  x ∈ po_failed_devices (m0_poolmach_fini w pm) <-> x ∈ po_failed_devices w /\ x.1 <> pm.
Proof.
  intros Hok x. unfold m0_poolmach_fini. cbn [with_init with_mach with_failed po_failed_devices].
  assert (forall idx (l : list (Z * Z)), x ∈ foldl (fun l i => filter (fun x => x <> (pm, i)) l) l idx <->
    x ∈ l /\ forall i, i ∈ idx -> x <> (pm, i)) as Hfold.
  { induction idx as [|i idx IH]; intros l; [set_solver|]. cbn [foldl]. rewrite IH, list_elem_of_filter.
    set_solver. }
  rewrite Hfold. split; intros [Hin Hx]; (split; [done|]).
  - intros E. destruct (mk_failed _ _ Hok x Hin) as [id Hid]. destruct x as [pm' i]. cbn in E. subst pm'.
    apply dev_id_lookup in Hid as [Hi Hid%lookup_lt_Some]. rewrite length_fmap in Hid.
    apply (Hx i); [|done]. apply elem_of_seqZ. pose proof (mk_devs _ _ Hok). lia.
  - intros i _ ->. by apply Hx.
Qed.

(** C5. The life of a pool machine, with no assertion failing, under these conditions:
    none of its drives is in the list of failed devices of the pool yet; the enclosures
    of the configuration have at least one drive each and are online, failed or off
    line; the drives have different identifiers and known states; the failure vector
    names each drive once, in a state of a drive that does not serve; memory lasts for
    the start. The machine then starts: each drive of the vector has the state given
    and, unless it is only off line, a slot of spare space while there are free ones;
    deferred events are applied to the other drives. From then on every sequence of
    events, valid or not, with or without memory, has the results, states and owners of
    slots of the specification; failures are counted, drives out of order listed, slots
    found, and other machines stay as they are. Finalised, the machine takes its drives
    off the list and can be initialised again. *)
Theorem poolmach_life w pm l ns mnf mdf nvec evs :
  0 <= ns -> Z.of_nat (length (all_drives l)) < POOL_PM_SPARE_SLOT_UNUSED ->
  Z.of_nat (length l) < POOL_PM_SPARE_SLOT_UNUSED ->
  pm_is_initialised (po_machs w pm) = false ->
  conf_ok l -> NoDup (cd_id <$> all_drives l) -> drives_foreign w pm l -> NoDup (no_id <$> nvec) ->
  (forall note, note ∈ nvec -> exists x, m0_ha2pm_state_map (no_state note) = Some x /\ x ∈ note_states) ->
  mem_ok (4 + length (conf_objs l) + length nvec) (po_alloc w) -> Forall (fun ev => 0 <= pe_index ev) evs ->
  exists w1 w2 w3 rcs w4,
    m0_poolmach_init w pm (Z.of_nat (length l)) (Z.of_nat (length (all_drives l))) ns mnf mdf =
      Some (0, w1) /\
    m0_poolmach_init_by_conf w1 pm (conf_objs l) = Some (0, w2) /\
    m0_poolmach_failvec_apply w2 pm nvec = Some w3 /\
    mach_tells w3 pm (spec_start l ns nvec) /\ transits w3 pm evs = Some (rcs, w4) /\
    rcs = (spec_run (spec_start l ns nvec) (po_alloc w3) evs).1 /\
    mach_tells w4 pm (foldl spec_event (spec_start l ns nvec) evs) /\
    mach_ok w4 pm /\ (forall j, j <> pm -> po_machs w4 j = po_machs w j) /\
    pm_is_initialised (po_machs (m0_poolmach_fini w4 pm) pm) = false /\
    (forall x, x ∈ po_failed_devices (m0_poolmach_fini w4 pm) <-> x ∈ po_failed_devices w4 /\ x.1 <> pm) /\
    (forall j, j <> pm -> po_machs (m0_poolmach_fini w4 pm) j = po_machs w j).
Proof.
  intros Hns Hmax Hnmax Hun Hc Hids Hf Hnv Hnx Hmem Hevs.
  destruct (machine_start w pm l ns mnf mdf nvec Hns Hmax Hnmax Hun Hc Hids Hf Hnv Hnx Hmem)
    as (w1 & w2 & w3 & H1 & H2 & H3 & Hok & Hi & _ & Habs & Ho).
  destruct (transits_ok evs w3 pm Hok Hi Hevs) as (rcs & w4 & H4 & Hspec & Hok' & _ & Ho' & _).
  pose proof (machine_tells w3 pm Hok) as T3. pose proof (machine_tells w4 pm Hok') as T4. rewrite Habs in *.
  pose proof (spec_run_state evs (spec_start l ns nvec) (po_alloc w3)) as Hend. rewrite <- Hspec in Hend.
  cbn [snd] in Hend. rewrite Hend in T4.
  assert (forall j, j <> pm -> po_machs w4 j = po_machs w j) as Hoth by (intros j Hj; by rewrite Ho', Ho).
  exists w1, w2, w3, rcs, w4. split_and!; try done; [by rewrite <- Hspec| |by apply fini_failed|].
  - cbn. by rewrite Z.eqb_refl.
  - intros j Hj. cbn. rewrite (proj2 (Z.eqb_neq _ _)) by done. by apply Hoth.
Qed.

Definition device_event_of (i : Z) (s : m0_pool_nd_state) :
  m0_poolmach_event := {| pe_type := M0_POOL_DEVICE; pe_index := i; pe_state := s |}.

(** Drive 1 is repaired and drive 2 is off line at the start. *)
Lemma poolmach_life_witness : exists w3 rcs w4,
  mach_abs (state_of w3 0) = {| pa_nodes := [M0_PNDS_ONLINE; M0_PNDS_OFFLINE];
    pa_devs := [M0_PNDS_ONLINE; M0_PNDS_SNS_REPAIRED; M0_PNDS_OFFLINE; M0_PNDS_ONLINE];
      pa_slots := [Some 1; None] |} /\
  transits w3 0 [device_event_of 0 M0_PNDS_FAILED; device_event_of 3 M0_PNDS_FAILED;
    device_event_of 0 M0_PNDS_ONLINE; device_event_of 7 M0_PNDS_FAILED;
    device_event_of 1 M0_PNDS_SNS_REBALANCING; device_event_of 1 M0_PNDS_ONLINE] = Some (rcs, w4) /\
  m0_poolmach_nr_dev_failures w4 0 = 1 /\ m0_poolmach_sns_repair_spare_query w4 0 0 = Some (0, 1) /\
  m0_poolmach_sns_repair_spare_query w4 0 3 = Some (- ENOENT, 0).
Proof.
  destruct (poolmach_life example_world 0 example_encls 2 1 2 example_notes
    [device_event_of 0 M0_PNDS_FAILED; device_event_of 3 M0_PNDS_FAILED;
    device_event_of 0 M0_PNDS_ONLINE; device_event_of 7 M0_PNDS_FAILED;
      device_event_of 1 M0_PNDS_SNS_REBALANCING; device_event_of 1 M0_PNDS_ONLINE])
    as (w1 & w2 & w3 & rcs & w4 & _ & _ & _ & T3 & Hrun & _ & T4 & _).
  - lia.
  - vm_compute. reflexivity.
  - vm_compute. reflexivity.
  - reflexivity.
  - apply example_conf_ok.
  - refine (bool_decide_eq_true_1 _ _). vm_compute. reflexivity.
  - intros x Hx. by apply not_elem_of_nil in Hx.
  - refine (bool_decide_eq_true_1 _ _). vm_compute. reflexivity.
  - apply example_notes_ok.
  - by exists (replicate 27 true).
  - repeat constructor; vm_compute; congruence.
  - exists w3, rcs, w4. rewrite (mt_abs _ _ _ T3), (mt_slots _ _ _ T4), !(mt_query _ _ _ T4) by lia.
    split_and!; [|exact Hrun|..]; vm_compute; reflexivity.
Defined.

(** A machine that is started and sees some events. *)
Definition run_machine (w : m0_pool) (pm : Z) (l : list conf_encl) (ns mnf mdf : Z) (nvec :
  list m0_ha_note) (evs : list m0_poolmach_event) : option m0_pool :=
  '(_, w) ← m0_poolmach_init w pm (Z.of_nat (length l)) (Z.of_nat (length (all_drives l))) ns mnf mdf;
  '(_, w) ← m0_poolmach_init_by_conf w pm (conf_objs l);
  w ← m0_poolmach_failvec_apply w pm nvec;
  '(_, w) ← transits w pm evs;
  Some w.

Lemma run_machine_ok w pm l ns mnf mdf evs : 0 <= ns ->
  Z.of_nat (length (all_drives l)) < POOL_PM_SPARE_SLOT_UNUSED ->
  Z.of_nat (length l) < POOL_PM_SPARE_SLOT_UNUSED ->
  pm_is_initialised (po_machs w pm) = false ->
  conf_ok l -> NoDup (cd_id <$> all_drives l) -> drives_foreign w pm l ->
  mem_ok (4 + length (conf_objs l)) (po_alloc w) ->
  Forall (fun ev => 0 <= pe_index ev) evs ->
  exists w', run_machine w pm l ns mnf mdf [] evs = Some w' /\ mach_ok w' pm /\
  pst_su_initialised (state_of w' pm) = true.
Proof.
  intros Hns Hmax Hnmax Hun Hc Hids Hf Hmem Hevs.
  destruct (init_conf_ok w pm l ns mnf mdf Hns Hmax Hnmax Hun 0 Hc Hids Hf)
    as (w1 & w2 & H1 & H2 & [G1 G2 G3 _ _ G6 _ _] & _); [by rewrite Nat.add_0_r|].
  destruct (failvec_apply_ok w2 pm [] G1 G2 G3) as (w3 & H3 & [K1 K2 _ _ _] & _).
  { split; [apply NoDup_nil_2|intros n Hn; by apply not_elem_of_nil in Hn|intros n i Hn;
      by apply not_elem_of_nil in Hn]. }
  { by exists (po_alloc w2). }
  { rewrite G6. apply conf_events_index. }
  destruct (transits_ok evs w3 pm K1 K2 Hevs) as (rcs & w4 & H4 & _ & Hok & Hi & _). exists w4.
  split; [|done].
  unfold run_machine. rewrite H1. cbn [mbind option_bind]. rewrite H2. cbn [mbind option_bind]. rewrite H3.
  cbn [mbind option_bind].
  by rewrite H4.
Qed.
