(* ===== verification/PoolMachShared.v ===== *)
(** * Pool machines: drives of several pool versions

    A drive may belong to several pool versions of a pool, and the machines of a pool
    share one list of failed devices.  A machine that starts when the list has one of
    its drives already, under another machine, does not count that drive as a failure:
    what it knows, and what happens when the drive comes back. *)
From S2P Require Import Prelude LibArith Fid PoolMach PoolMachInv PoolMachRun PoolMachConf.
#[local] Open Scope motr_scope.

(** ** Definitions *)

Definition mending : list m0_pool_nd_state :=
  [M0_PNDS_SNS_REPAIRING; M0_PNDS_SNS_REPAIRED; M0_PNDS_SNS_REBALANCING].

(** Another machine of the pool lists the drive as failed. *)
Definition listed_elsewhere (w : m0_pool) (pm : Z) (id : m0_fid) : Prop :=
  exists x, x ∈ po_failed_devices w /\ x.1 <> pm /\ dev_id w x = Some id.

(** The events by which a drive in repair comes back, but for the last one. *)
Definition coming_back (i : Z) (x : m0_pool_nd_state) : list m0_poolmach_event :=
  device_event_of i <$>
    match x with
    | M0_PNDS_SNS_REPAIRING => [M0_PNDS_SNS_REPAIRED; M0_PNDS_SNS_REBALANCING]
    | M0_PNDS_SNS_REPAIRED => [M0_PNDS_SNS_REBALANCING]
    | _ => []
    end.

(** ** Invariant *)

(** The drives of the machine that are out of order are listed by other machines only,
    and none of them is counted.  The slots are those of drives in repair, but for
    [new], which is about to be. *)
Record unseen (w : m0_pool) (pm : Z) (new : option Z) : Prop := {
  us_init : pst_su_initialised (state_of w pm) = true;
  us_devs : Z.of_nat (length (pst_devices_array (state_of w pm))) = pst_nr_devices (state_of w pm);
  us_max : pst_nr_devices (state_of w pm) < POOL_PM_SPARE_SLOT_UNUSED;
  us_spares : Z.of_nat (length (pst_spare_usage_array (state_of w pm))) = pst_nr_spares (state_of w pm);
  us_indexed : indexed (state_of w pm);
  us_ids : NoDup (dev_ids (state_of w pm));
  us_count : pst_nr_failures (state_of w pm) = 0;
  us_listed x : x ∈ po_failed_devices w -> x.1 <> pm /\ exists id, dev_id w x = Some id;
  us_states k d : pst_devices_array (state_of w pm) !! k = Some d ->
    pd_state d = M0_PNDS_UNKNOWN \/ pd_state d = M0_PNDS_ONLINE \/
    pd_state d ∈ mending /\ listed_elsewhere w pm (pd_id d);
  us_slots k s : pst_spare_usage_array (state_of w pm) !! k = Some s ->
    psu_device_index s <> POOL_PM_SPARE_SLOT_UNUSED -> Some (psu_device_index s) = new \/
    exists x, dev_state (state_of w pm) (psu_device_index s) = Some x /\ x ∈ mending
}.

(** What an operation of the machine leaves alone. *)
Record passed (w w' : m0_pool) (pm : Z) : Prop := {
  ps_failed : po_failed_devices w' = po_failed_devices w;
  ps_others j : j <> pm -> po_machs w' j = po_machs w j;
  ps_fixed : dev_fixed <$> pst_devices_array (state_of w' pm) = dev_fixed <$> pst_devices_array
    (state_of w pm);
  ps_dirty : pv_is_dirty (po_machs w pm) = false -> pv_is_dirty (po_machs w' pm) = false
}.

Lemma passed_refl w pm : passed w w pm.
Proof. by split. Qed.

Lemma passed_trans w w1 w2 pm : passed w w1 pm -> passed w1 w2 pm -> passed w w2 pm.
Proof.
  intros [P1 P2 P3 P4] [Q1 Q2 Q3 Q4]. split; [congruence| |congruence|auto].
  intros j Hj. by rewrite Q2, P2.
Qed.

(** ** Lemmas: one device *)

Lemma mending_facts x : x ∈ mending -> x ∈ event_states /\ x <> M0_PNDS_UNKNOWN /\ x <> M0_PNDS_ONLINE.
Proof.
  rewrite <- (nd_in_elem x event_states). intros Hx.
  by repeat (apply elem_of_cons in Hx as [->|Hx]; [done|]); apply not_elem_of_nil in Hx.
Qed.

Lemma elsewhere_passed w w' pm id :
  passed w w' pm -> listed_elsewhere w pm id -> listed_elsewhere w' pm id.
Proof.
  intros [P1 P2 _ _] (x & Hin & Hne & Hid). exists x. rewrite P1. split_and!; try done.
  rewrite <- Hid. unfold dev_id, state_of. by rewrite P2.
Qed.

(** A drive that another machine lists counts as listed. *)
Lemma listed_shared w pm i id :
  (forall x, x ∈ po_failed_devices w -> exists id, dev_id w x = Some id) ->
  dev_id w (pm, i) = Some id -> listed_elsewhere w pm id -> is_listed w (pm, i) = Some true.
Proof.
  intros Hl Hid (x & Hin & _ & Hx). unfold is_listed. destruct (pool_failed_devs_tlink_is_in _ _); [done|].
  unfold disk_is_in. rewrite Hid. cbn [mbind option_bind]. rewrite disk_is_in_fold by done. f_equal.
  apply bool_decide_eq_true, Exists_exists. by exists x.
Qed.

Section device.
Context (w : m0_pool) (pm i : Z) (d : m0_pooldev) (new : option Z).
Local Notation st := (state_of w pm).
Local Notation slots := (pst_spare_usage_array st).
Hypothesis Hok : unseen w pm new.
Hypothesis Hnew : new = None \/ new = Some i.
Hypothesis Hi : 0 <= i.
Hypothesis Hd : pst_devices_array st !! Z.to_nat i = Some d.

Lemma shared_range : 0 <= i < pst_nr_devices st.
Proof. pose proof (us_devs _ _ _ Hok). apply lookup_lt_Some in Hd. lia. Qed.

(** The state of the drive is changed to [y] and the slots to [slots']. *)
Lemma unseen_moved w' y slots' ev :
  applied w w' pm (moved w pm i d y slots' 0) (po_failed_devices w) ev ->
  y = M0_PNDS_ONLINE \/ y ∈ mending /\ listed_elsewhere w pm (pd_id d) ->
  length slots' = length slots ->
  (forall k s, slots' !! k = Some s -> psu_device_index s <> POOL_PM_SPARE_SLOT_UNUSED ->
     psu_device_index s = i /\ y ∈ mending \/ psu_device_index s <> i /\ slots !! k = Some s) ->
  unseen w' pm None /\ passed w w' pm /\ pv_is_dirty (po_machs w' pm) = false.
Proof.
  intros [A1 A2 A3 _ A5 _] Hy Hl Hs. pose proof Hok as [U1 U2 U3 U4 U5 U6 U7 U8 U9 U10].
  assert (dev_fixed <$> pst_devices_array (state_of w' pm) = dev_fixed <$> pst_devices_array st) as Hfix.
  { rewrite A1. cbn. rewrite list_fmap_insert. apply list_insert_id. by rewrite list_lookup_fmap, Hd. }
  assert (passed w w' pm) as Hp by (split; try done; intros _; by rewrite A5).
  assert (pst_devices_array (state_of w' pm) = <[Z.to_nat i := set_dev_state d y]> (pst_devices_array st))
    as Hdevs by (by rewrite A1).
  pose proof (fun j => dev_state_insert st (state_of w' pm) i d y j Hd Hi Hdevs) as Hst.
  split; [|split; [done|by rewrite A5]]. split.
  - by rewrite A1.
  - rewrite Hdevs, length_insert, A1. done.
  - by rewrite A1.
  - rewrite A1. cbn. by rewrite Hl.
  - by eapply indexed_fixed.
  - by rewrite (dev_ids_fixed _ _ Hfix).
  - by rewrite A1.
  - intros x. rewrite A2. intros Hx. destruct (U8 x Hx) as [Hne Hid]. split; [done|].
    unfold dev_id, state_of in *. by rewrite A3.
  - intros k e He. rewrite Hdevs in He. apply list_lookup_insert_Some in He as [(_ & <- & _)|[_ He]]; cbn.
    + destruct Hy as [->|[Hy Hel]]; [by right; left|]. right; right. split; [done|].
      by apply (elsewhere_passed w).
    + destruct (U9 _ _ He) as [?|[?|[? Hel]]]; [by left|by right; left|]. right; right. split; [done|].
      by apply (elsewhere_passed w).
  - intros k s. rewrite A1. cbn [upd_events moved upd_failures upd_spares pst_spare_usage_array].
    intros Hk Hu. right. change (dev_state (upd_events _ _ _) ?j)
      with (dev_state (moved w pm i d y slots' 0) j).
    rewrite (dev_state_insert st _ i d y _ Hd Hi) by done.
    destruct (Hs k s Hk Hu) as [[-> Hm]|[Hne Hold]]; [rewrite decide_True by done; by exists y|].
    rewrite decide_False by done. destruct (U10 k s Hold Hu) as [E|?]; [|done].
    destruct Hnew as [-> | ->]; [done|]. by injection E.
Qed.

Lemma shared_find : spare_find (spare_used_by i) slots (Z.to_nat (pst_nr_spares st)) 0 =
  Some ((fun x => Z.of_nat x.1) <$> list_find (fun s => spare_used_by i s = true) slots).
Proof. apply spare_find_all, (us_spares _ _ _ Hok). Qed.

Lemma shared_id : dev_id w (pm, i) = Some (pd_id d).
Proof. apply dev_id_lookup. by rewrite list_lookup_fmap, Hd. Qed.

(** The slot of the drive is rewritten. *)
Lemma shared_slot k s s' : list_find (fun s => spare_used_by i s = true) slots = Some (k, s) ->
  arr_get slots (Z.of_nat k) = Some s /\ arr_set slots (Z.of_nat k) s' = Some (<[k := s']> slots) /\
  psu_device_index s = i.
Proof.
  intros (Hk & Hs & _)%list_find_Some. pose proof (lookup_lt_Some _ _ _ Hk). apply Z.eqb_eq in Hs.
  split_and!; [|rewrite arr_set_ok by lia; by rewrite Nat2Z.id|done].
  apply arr_get_Some. rewrite Nat2Z.id. split; [lia|done].
Qed.

(** The pool when the drive is marked; the count is as before. *)
Lemma shared_marked y : stepped w (marked w pm i d y) pm (moved w pm i d y slots 0) (po_failed_devices w).
Proof.
  pose proof (with_state_stepped w pm
    (upd_devices st (<[Z.to_nat i := set_dev_state d y]> (pst_devices_array st)))) as H.
  unfold moved. rewrite <- (us_count _ _ _ Hok). exact H.
Qed.

Lemma shared_apply ev : pe_type ev = M0_POOL_DEVICE -> pe_index ev = i ->
  event_apply w pm (pd_state d) ev =
  (w1 ← device_update (marked w pm i d (pe_state ev)) pm (pd_state d) ev;
   let '(ok, w) := pool_alloc w1 in
   let st := state_of w pm in
   let st := if ok : bool then upd_events st (pst_events_list st ++ [ev]) (pst_event_queue st) else st in
   Some (if ok : bool then 0 else - ENOMEM,
         with_mach w pm {| pm_state := st; pm_is_initialised := pm_is_initialised (po_machs w pm);
                           pv_is_dirty := 0 <? pst_nr_failures st;
                           pv_sns_flags := if pst_nr_failures st <=? pst_max_device_failures st then 0 else
                             pv_sns_flags (po_machs w pm) |})).
Proof.
  intros Ht Ei. pose proof (lookup_lt_Some _ _ _ Hd). unfold event_apply. rewrite Ht, Ei.
  cbn [Z.eqb M0_POOL_DEVICE M0_POOL_NODE]. rewrite (proj2 (arr_get_Some _ i d)) by done.
  cbn [mbind option_bind]. rewrite arr_set_ok by lia. done.
Qed.

(** The event of a drive in repair is not counted. *)
Lemma unseen_repair y :
  y ∈ mending -> listed_elsewhere w pm (pd_id d) -> pd_state d <> y -> transition_ok (pd_state d) y = true ->
  exists w', m0_poolmach_state_transit w pm (device_event_of i y) =
      Some (if default false (head (po_alloc w)) then 0 else - ENOMEM, w') /\
    unseen w' pm None /\ passed w w' pm /\ pv_is_dirty (po_machs w' pm) = false /\
    dev_state (state_of w' pm) i = Some y /\ pst_event_queue (state_of w' pm) = pst_event_queue st /\
    po_alloc w' = tail (po_alloc w) /\
    (forall j, j <> i -> dev_state (state_of w' pm) j = dev_state st j).
Proof.
  intros Hy Hel Hne Htr. destruct (mending_facts y Hy) as (Hes & _).
  rewrite (transit_device w pm (device_event_of i y) d (us_init _ _ _ Hok) shared_range eq_refl Hes Hd).
  cbn [pe_state device_event_of]. rewrite bool_decide_false, Htr by done. cbn [negb].
  rewrite shared_apply by done. cbn [pe_state device_event_of].
  assert (device_update (marked w pm i d y) pm (pd_state d) (device_event_of i y) =
    repair_update (marked w pm i d y) pm (device_event_of i y)) as ->
    by (clear -Hy; repeat (apply elem_of_cons in Hy as [->|Hy]; [done|]); by apply not_elem_of_nil in Hy).
  pose proof (shared_marked y) as Hm. unfold repair_update. cbn [pe_index pe_state device_event_of].
  rewrite (sp_state _ _ _ _ _ Hm). cbn [moved pst_spare_usage_array upd_failures upd_spares upd_devices
    pst_nr_spares]. rewrite shared_find. cbn [mbind option_bind].
  match goal with |- exists w', ((?m ≫= _) ≫= _) = _ /\ _ =>
    assert (exists slots', m = Some (moved w pm i d y slots' 0) /\ length slots' = length slots /\
      forall k s, slots' !! k = Some s -> psu_device_index s <> POOL_PM_SPARE_SLOT_UNUSED ->
        psu_device_index s = i /\ y ∈ mending \/ psu_device_index s <> i /\ slots !! k = Some s)
      as (slots' & -> & Hl & Hs) end.
  { destruct (list_find _ slots) as [[k s]|] eqn:Hf; cbn [fmap option_fmap option_map fst].
    - destruct (shared_slot k s {| psu_device_index := i; psu_device_state := y |} Hf) as (_ & -> & _).
      exists (<[k := {| psu_device_index := i; psu_device_state := y |}]> slots).
      split; [done|]. rewrite length_insert. split; [done|]. intros k' s' Hk' _.
      apply list_lookup_insert_Some in Hk' as [(_ & <- & _)|[_ Hk']]; [by left|].
      destruct (decide (psu_device_index s' = i)); [by left|by right].
    - exists slots. split; [done|]. split; [done|]. intros k s Hk _.
      destruct (decide (psu_device_index s = i)); [by left|by right]. }
  cbn [mbind option_bind]. pose proof (stepped_state _ _ _ _ (moved w pm i d y slots' 0) _ Hm) as Hsp.
  set (w1 := with_state (marked w pm i d y) pm _) in *.
  assert (forall x, dev_id w1 x = dev_id w x) as Hids
    by (apply (dev_id_same w w1 pm i d y Hd (sp_others _ _ _ _ _ Hsp)); by rewrite (sp_state _ _ _ _ _ Hsp)).
  rewrite (listed_shared w1 pm i (pd_id d)); [|rewrite (sp_failed _ _ _ _ _ Hsp)|by rewrite Hids, shared_id|].
  - cbn [mbind option_bind]. destruct (record_event w w1 pm _ _ (device_event_of i y) Hsp)
      as (w' & Hrec & Hap).
    exists w'. split; [exact Hrec|].
    destruct (unseen_moved w' y slots' _ Hap) as (Hun & Hpa & Hdi); try done; [by right|].
    destruct Hap as [A1 _ _ A4 _ _]. split_and!; try done; rewrite ?A1; try done;
      [|intros j Hj]; change (dev_state (upd_events _ _ _) ?j) with (dev_state (moved w pm i d y slots' 0) j);
      rewrite (dev_state_insert st _ i d y _ Hd Hi) by done; [by rewrite decide_True|by rewrite decide_False].
  - intros x Hx. rewrite Hids. by destruct (us_listed _ _ _ Hok x Hx).
  - destruct Hel as (x & Hin & Hx & Hid). exists x. rewrite (sp_failed _ _ _ _ _ Hsp), Hids. done.
Qed.

(** A drive that was not known, or is online, is online. *)
Lemma unseen_online :
  new = None -> pd_state d = M0_PNDS_UNKNOWN \/ pd_state d = M0_PNDS_ONLINE ->
  exists rc w', m0_poolmach_state_transit w pm (device_event_of i M0_PNDS_ONLINE) = Some (rc, w') /\
    unseen w' pm None /\ passed w w' pm /\ dev_state (state_of w' pm) i = Some M0_PNDS_ONLINE /\
    pst_event_queue (state_of w' pm) = pst_event_queue st /\
    (forall j, j <> i -> dev_state (state_of w' pm) j = dev_state st j).
Proof.
  intros Hnone Hs. rewrite (transit_device w pm (device_event_of i M0_PNDS_ONLINE) d (us_init _ _ _ Hok)
    shared_range eq_refl (proj1 (nd_in_elem M0_PNDS_ONLINE event_states) eq_refl) Hd).
    cbn [pe_state device_event_of].
  destruct Hs as [Hs|Hs]; rewrite Hs.
  2:{ exists 0, w. split_and!; try done; [by rewrite <- Hnone|].
      unfold dev_state. rewrite (proj2 (arr_get_Some _ i d)) by done. cbn. by rewrite Hs. }
  cbn [transition_ok negb]. rewrite bool_decide_false by done. rewrite <- Hs, shared_apply by done.
  cbn [pe_state device_event_of device_update]. rewrite Hs.
  pose proof (shared_marked M0_PNDS_ONLINE) as Hm. unfold online_update.
  cbn [pe_index pe_state device_event_of].
  rewrite (sp_state _ _ _ _ _ Hm). cbn [moved pst_spare_usage_array upd_failures upd_spares upd_devices
    pst_nr_spares]. rewrite shared_find. cbn [mbind option_bind].
  assert (forall k s, slots !! k = Some s -> psu_device_index s <> i) as Hfree.
  { intros k s Hk E. pose proof (us_max _ _ _ Hok). pose proof shared_range.
    destruct (us_slots _ _ _ Hok k s Hk) as [?|(x & Hx & Hmend)]; [lia|congruence|].
    rewrite E in Hx. unfold dev_state in Hx. rewrite (proj2 (arr_get_Some _ i d)) in Hx by done.
    injection Hx as <-. rewrite Hs in Hmend. by apply mending_facts in Hmend as (_ & ? & _). }
  destruct (list_find _ slots) as [[k s]|] eqn:Hf.
  { destruct (shared_slot k s s Hf) as (Hk & _ & E). apply arr_get_Some in Hk as [_ Hk].
    rewrite Nat2Z.id in Hk. by destruct (Hfree k s Hk). }
  cbn [fmap option_fmap option_map mbind option_bind]. rewrite bool_decide_true by done.
  pose proof (stepped_state _ _ _ _ (moved w pm i d M0_PNDS_ONLINE slots 0) _ Hm) as Hsp.
  set (w1 := with_state (marked w pm i d M0_PNDS_ONLINE) pm _) in *.
  unfold pool_failed_devs_tlink_is_in. rewrite (sp_failed _ _ _ _ _ Hsp), bool_decide_false
    by (intros Hin; by destruct (us_listed _ _ _ Hok _ Hin)).
  cbn [negb M0_ASSERT mbind option_bind].
  destruct (record_event w w1 pm _ _ (device_event_of i M0_PNDS_ONLINE) Hsp) as (w' & Hrec & Hap).
  eexists _, w'. split; [exact Hrec|].
  destruct (unseen_moved w' M0_PNDS_ONLINE slots _ Hap) as (Hun & Hpa & _); try done; [by left| |].
  - intros k s Hk _. right. split; [by eapply Hfree|done].
  - destruct Hap as [A1 _ _ _ _ _]. split_and!; try done; rewrite ?A1; try done; [|intros j Hj];
      change (dev_state (upd_events _ _ _) ?j) with (dev_state (moved w pm i d M0_PNDS_ONLINE slots 0) j);
      rewrite (dev_state_insert st _ i d M0_PNDS_ONLINE _ Hd Hi) by done;
      [by rewrite decide_True|by rewrite decide_False].
Qed.

(** The end of re-balancing: the count, which is 0, is decremented. *)
Lemma unseen_abort :
  pd_state d = M0_PNDS_SNS_REBALANCING ->
  m0_poolmach_state_transit w pm (device_event_of i M0_PNDS_ONLINE) = None.
Proof.
  intros Hs. rewrite (transit_device w pm (device_event_of i M0_PNDS_ONLINE) d (us_init _ _ _ Hok)
    shared_range eq_refl (proj1 (nd_in_elem M0_PNDS_ONLINE event_states) eq_refl) Hd).
    cbn [pe_state device_event_of].
  rewrite Hs, bool_decide_false by done. cbn [transition_ok nd_in negb]. rewrite <- Hs, shared_apply by done.
  cbn [pe_state device_event_of device_update]. rewrite Hs.
  pose proof (shared_marked M0_PNDS_ONLINE) as Hm. unfold online_update.
  cbn [pe_index pe_state device_event_of].
  rewrite (sp_state _ _ _ _ _ Hm). cbn [moved pst_spare_usage_array upd_failures upd_spares upd_devices
    pst_nr_spares]. rewrite shared_find. cbn [mbind option_bind].
  destruct (list_find _ slots) as [[k s]|] eqn:Hf; cbn [fmap option_fmap option_map fst mbind option_bind];
    [|done].
  destruct (shared_slot k s {| psu_device_index := POOL_PM_SPARE_SLOT_UNUSED;
    psu_device_state := psu_device_state s |} Hf) as (-> & Hset & _). cbn [mbind option_bind].
  destruct (nd_in (psu_device_state s) _); [|done]. cbn [M0_ASSERT mbind option_bind]. by rewrite Hset.
Qed.

End device.

(** ** Lemmas: the start *)

(** Nothing but the slots and the queue changes. *)
Lemma unseen_with w pm new new' st' :
  unseen w pm new -> pst_su_initialised st' = true ->
  pst_devices_array st' = pst_devices_array (state_of w pm) ->
  pst_nr_devices st' = pst_nr_devices (state_of w pm) -> pst_nr_spares st' = pst_nr_spares (state_of w pm) ->
  pst_nr_failures st' = pst_nr_failures (state_of w pm) ->
  length (pst_spare_usage_array st') = length (pst_spare_usage_array (state_of w pm)) ->
  (forall k s, pst_spare_usage_array st' !! k = Some s -> psu_device_index s <> POOL_PM_SPARE_SLOT_UNUSED ->
     Some (psu_device_index s) = new' \/ exists x, dev_state (state_of w pm) (psu_device_index s) = Some x /\
       x ∈ mending) ->
  unseen (with_state w pm st') pm new' /\ passed w (with_state w pm st') pm.
Proof.
  intros [U1 U2 U3 U4 U5 U6 U7 U8 U9 U10] E1 E2 E3 E4 E5 E6 Hs.
  destruct (with_state_stepped w pm st') as [S1 S2 S3 _ [S5 _]].
  assert (passed w (with_state w pm st') pm) as Hp by (split; rewrite ?S1, ?E2, ?S5; done).
  split; [|done]. split; rewrite ?S1, ?E2, ?E3, ?E4, ?E5, ?E6; try done.
  - intros k d. rewrite E2. apply U5.
  - unfold dev_ids. by rewrite E2.
  - intros x. rewrite S2. intros Hx. destruct (U8 x Hx) as [Hne Hid]. split; [done|].
    unfold dev_id, state_of in *. by rewrite S3.
  - intros k d Hd. destruct (U9 k d Hd) as [?|[?|[? Hel]]]; [by left|by right; left|]. right; right.
    split; [done|]. by apply (elsewhere_passed w).
  - intros k s Hk Hu. destruct (Hs k s Hk Hu) as [?|(x & Hx & ?)]; [by left|]. right. exists x.
    unfold dev_state. by rewrite E2.
Qed.

Lemma ids_unique st i j d d' : NoDup (dev_ids st) -> pst_devices_array st !! i = Some d ->
  pst_devices_array st !! j = Some d' -> pd_id d' = pd_id d -> j = i.
Proof.
  intros Hnd Hi Hj E. apply (NoDup_lookup _ _ _ (pd_id d) Hnd); unfold dev_ids; rewrite list_lookup_fmap.
  - rewrite Hj. cbn. by rewrite E.
  - by rewrite Hi.
Qed.

Lemma dev_state_at st i d : 0 <= i -> pst_devices_array st !! Z.to_nat i = Some d ->
  dev_state st i = Some (pd_state d).
Proof. intros Hi Hd. unfold dev_state. by rewrite (proj2 (arr_get_Some _ i d)). Qed.

(** A free slot is given to a device, if there is one. *)
Lemma spare_taken st ev : Z.of_nat (length (pst_spare_usage_array st)) = pst_nr_spares st ->
  exists slots', spare_usage_arr_update st ev = Some (upd_spares st slots') /\
    length slots' = length (pst_spare_usage_array st) /\
    forall k s, slots' !! k = Some s -> psu_device_index s = pe_index ev \/
    pst_spare_usage_array st !! k = Some s.
Proof.
  intros Hl. unfold spare_usage_arr_update. rewrite spare_find_all by done. cbn [mbind option_bind].
  destruct (list_find _ _) as [[k s]|] eqn:Hf; cbn [fmap option_fmap option_map fst].
  - apply list_find_Some in Hf as (Hk & _). pose proof (lookup_lt_Some _ _ _ Hk).
    rewrite arr_set_ok, Nat2Z.id by lia. eexists. split; [done|]. rewrite length_insert. split; [done|].
    intros k' s' [(_ & <- & _)|[_ ?]]%list_lookup_insert_Some; [by left|by right].
  - exists (pst_spare_usage_array st). split; [by destruct st|]. split; [done|]. by right.
Qed.

(** A drive of the failure vector that another machine lists: it gets its state and a slot. *)
Lemma unseen_note w pm note i x :
  unseen w pm None -> note_index (dev_ids (state_of w pm)) note = Some i ->
  m0_ha2pm_state_map (no_state note) = Some x -> x ∈ mending -> listed_elsewhere w pm (no_id note) ->
  dev_state (state_of w pm) i = Some M0_PNDS_UNKNOWN -> head (po_alloc w) = Some true ->
  exists w', failvec_note w pm note = Some w' /\ unseen w' pm None /\ passed w w' pm /\
    pv_is_dirty (po_machs w' pm) = false /\ dev_state (state_of w' pm) i = Some x /\
    pst_event_queue (state_of w' pm) = filter (fun e => pe_index e <> i) (pst_event_queue (state_of w pm)) /\
    po_alloc w' = tail (po_alloc w) /\
    (forall j, j <> i -> dev_state (state_of w' pm) j = dev_state (state_of w pm) j).
Proof.
  intros Hok Hidx Hmap Hx Hel Hunk Hmem. destruct (note_index_found _ _ _ Hidx) as (d & Hi & Hd & Hid).
  rewrite (dev_state_at _ _ _ Hi Hd) in Hunk. injection Hunk as Hunk. unfold failvec_note.
  rewrite Hid, (fid_to_idx_at w pm (Z.to_nat i) d (us_devs _ _ _ Hok) (us_indexed _ _ _ Hok) Hd)
    by (intros j d' Hj; by apply (ids_unique _ _ _ _ _ (us_ids _ _ _ Hok) Hd)).
  rewrite Z2Nat.id by done. cbn [mbind option_bind]. change (0 =? - ENOENT) with false. cbv iota.
  rewrite Hmap.
  cbn [mbind option_bind].
  assert (nd_in x [M0_PNDS_FAILED; M0_PNDS_OFFLINE] = false) as ->
    by (clear -Hx; repeat (apply elem_of_cons in Hx as [->|Hx]; [done|]); by apply not_elem_of_nil in Hx).
  cbn [negb]. fold (device_event_of i x).
  destruct (spare_taken (state_of w pm) (device_event_of i x) (us_spares _ _ _ Hok))
    as (slots' & -> & Hl & Hs).
  cbn [pe_index device_event_of mbind option_bind] in *.
  destruct (unseen_with w pm None (Some i) (upd_spares (state_of w pm) slots') Hok (us_init _ _ _ Hok))
    as [Hok0 Hp0]; try done.
  { intros k s Hk Hu. destruct (Hs k s Hk) as [->|Hold]; [by left|].
    destruct (us_slots _ _ _ Hok k s Hold Hu) as [?|?]; [done|by right]. }
  destruct (with_state_stepped w pm (upd_spares (state_of w pm) slots')) as [S1 S2 S3 S4 _].
  set (w0 := with_state w pm _) in *. rewrite Hid in Hel.
  pose proof (elsewhere_passed _ _ _ _ Hp0 Hel) as Hel0.
  assert (pst_devices_array (state_of w0 pm) !! Z.to_nat i = Some d) as Hd0 by (by rewrite S1).
  rewrite (listed_shared w0 pm i (pd_id d)); [|intros y Hy; by destruct (us_listed _ _ _ Hok0 y Hy)
    |by apply shared_id|done].
  cbn [mbind option_bind]. destruct (mending_facts x Hx) as (_ & Hx1 & _).
  destruct (unseen_repair w0 pm i d (Some i) Hok0 (or_intror eq_refl) Hi Hd0 x Hx Hel0)
    as (w1 & -> & Hok1 & Hp1 & Hdi & Hst & Hq & Ha & Hoth); [congruence|by rewrite Hunk|].
  rewrite S4, Hmem in *. cbn [default mbind option_bind Z.eqb M0_ASSERT]. unfold poolmach_event_queue_drop.
  cbn [pe_index device_event_of].
  destruct (unseen_with w1 pm None None (upd_events (state_of w1 pm) (pst_events_list (state_of w1 pm))
    (filter (fun e => pe_index e <> i) (pst_event_queue (state_of w1 pm)))) Hok1 (us_init _ _ _ Hok1))
    as [Hok2 Hp2]; try done; [apply (us_slots _ _ _ Hok1)|].
  destruct (with_state_stepped w1 pm (upd_events (state_of w1 pm) (pst_events_list (state_of w1 pm))
    (filter (fun e => pe_index e <> i) (pst_event_queue (state_of w1 pm))))) as [T1 _ _ T4 [T5 _]].
  eexists. split; [done|]. split; [done|].
  split; [by apply (passed_trans _ w0), (passed_trans _ w1)|]. rewrite T1, T4, T5.
  split_and!; try done; [cbn; by rewrite Hq, S1|]. intros j Hj. etrans; [apply Hoth, Hj|]. by rewrite S1.
Qed.

Lemma note_index_id ids note note' i :
  note_index ids note = Some i -> note_index ids note' = Some i -> no_id note = no_id note'.
Proof.
  unfold note_index. destruct (list_find (eq (no_id note)) ids) as [[k a]|] eqn:E; [|done].
  destruct (list_find (eq (no_id note')) ids) as [[k' b]|] eqn:E'; [|done]. cbn.
  intros [= <-] [= ->%Nat2Z.inj].
  apply list_find_Some in E as (Ha & -> & _), E' as (Hb & -> & _). congruence.
Qed.

(** What is asked of the notes: the drives of the machine among them are not known yet,
    in repair, and listed by other machines. *)
Definition notes_shared (w : m0_pool) (pm : Z) (nvec : list m0_ha_note) : Prop :=
  forall note i, note ∈ nvec -> note_index (dev_ids (state_of w pm)) note = Some i ->
    dev_state (state_of w pm) i = Some M0_PNDS_UNKNOWN /\ listed_elsewhere w pm (no_id note) /\
    exists x, m0_ha2pm_state_map (no_state note) = Some x /\ x ∈ mending.

Lemma notes_shared_tail w w' pm note nvec i :
  notes_shared w pm (note :: nvec) -> no_id note ∉ no_id <$> nvec -> passed w w' pm ->
  note_index (dev_ids (state_of w pm)) note = Some i ->
  (forall j, j <> i -> dev_state (state_of w' pm) j = dev_state (state_of w pm) j) -> notes_shared w' pm nvec.
Proof.
  intros Hns Hnin Hp Hi Hoth n j Hn. rewrite (dev_ids_fixed _ _ (ps_fixed _ _ _ Hp)). intros Hj.
  destruct (Hns n j (list_elem_of_further _ _ _ Hn) Hj) as (Hunk & Hel & Hx).
  split_and!; [|by apply (elsewhere_passed w)|done]. rewrite Hoth; [done|]. intros ->. apply Hnin.
  rewrite (note_index_id _ _ _ _ Hi Hj). by apply list_elem_of_fmap_2.
Qed.

Lemma unseen_notes nvec w pm :
  unseen w pm None -> NoDup (no_id <$> nvec) -> notes_shared w pm nvec -> mem_ok (length nvec) (po_alloc w) ->
  exists w', failvec_notes w pm nvec = Some w' /\ unseen w' pm None /\ passed w w' pm /\
    pst_event_queue (state_of w' pm) =
      spec_deferred (dev_ids (state_of w pm)) nvec (pst_event_queue (state_of w pm)) /\
    (forall note i x, note ∈ nvec -> note_index (dev_ids (state_of w pm)) note = Some i ->
       m0_ha2pm_state_map (no_state note) = Some x ->
       dev_state (state_of w' pm) i = Some x /\ pv_is_dirty (po_machs w' pm) = false) /\
    (forall j, (forall note, note ∈ nvec -> note_index (dev_ids (state_of w pm)) note <> Some j) ->
       dev_state (state_of w' pm) j = dev_state (state_of w pm) j).
Proof.
  revert w. induction nvec as [|n nvec IH]; intros w Hok Hnd Hns Hmem.
  { exists w. split_and!; try done. intros note i x Hin. by apply not_elem_of_nil in Hin. }
  cbn [failvec_notes]. unfold spec_deferred. cbn [foldl]. fold (spec_deferred (dev_ids (state_of w pm))).
  destruct (mem_ok_S _ _ Hmem) as [Hm1 Hm2]. rewrite fmap_cons in Hnd. apply NoDup_cons in Hnd as [Hnin Hnd].
  destruct (note_index (dev_ids (state_of w pm)) n) as [i|] eqn:Hidx.
  - destruct (Hns n i ltac:(left) Hidx) as (Hunk & Hel & x & Hmap & Hx).
    destruct (unseen_note w pm n i x Hok Hidx Hmap Hx Hel Hunk Hm1)
      as (w1 & -> & Hok1 & Hp1 & Hd1 & Hs1 & Hq1 & Ha1 & Ho1). cbn [mbind option_bind].
    destruct (IH w1 Hok1 Hnd) as (w2 & Hw2 & Hok2 & Hp2 & Hq2 & Hin2 & Hout2);
      [by eapply notes_shared_tail|by rewrite Ha1|].
    rewrite (dev_ids_fixed _ _ (ps_fixed _ _ _ Hp1)) in *. exists w2.
    split_and!; try done; [by apply (passed_trans _ w1)|by rewrite Hq2, Hq1| |].
    + intros note j y [->|Hin]%elem_of_cons Hj Hy; [|by eapply Hin2]. rewrite Hidx in Hj. injection Hj as <-.
      rewrite Hmap in Hy. injection Hy as <-. split; [|by apply (ps_dirty _ _ _ Hp2)]. rewrite Hout2; [done|].
      intros n' Hn' Hi'. apply Hnin. rewrite (note_index_id _ _ _ _ Hidx Hi'). by apply list_elem_of_fmap_2.
    + intros j Hj. rewrite Hout2 by (intros n' Hn'; apply Hj; by right). apply Ho1. intros ->.
      by apply (Hj n ltac:(left)).
  - rewrite (note_absent w pm n (us_devs _ _ _ Hok) Hidx). cbn [mbind option_bind].
    destruct (IH w Hok Hnd) as (w2 & Hw2 & Hok2 & Hp2 & Hq2 & Hin2 & Hout2);
      [intros n' j Hn'; apply Hns; by right|eapply mem_ok_le; [|exact Hmem]; cbn; lia|].
    exists w2. split_and!; try done.
    + intros note j y [->|Hin]%elem_of_cons Hj; [congruence|]. by apply Hin2.
    + intros j Hj. apply Hout2. intros n' Hn'. apply Hj. by right.
Qed.

(** The deferred events bring the other drives online. *)
Lemma unseen_queue q w pm :
  unseen w pm None -> pst_event_queue (state_of w pm) = q ->
  (forall e, e ∈ q -> exists j x, e = device_event_of j M0_PNDS_ONLINE /\
     dev_state (state_of w pm) j = Some x /\ (x = M0_PNDS_UNKNOWN \/ x = M0_PNDS_ONLINE)) ->
  exists w', queue_apply w pm q = Some w' /\ unseen w' pm None /\ passed w w' pm /\
    (forall j, (forall e, e ∈ q -> pe_index e <> j) ->
       dev_state (state_of w' pm) j = dev_state (state_of w pm) j).
Proof.
  revert w. induction q as [|e q IH]; intros w Hok Hq Hall; [by exists w|]. cbn [queue_apply].
  destruct (Hall e ltac:(left)) as (j & x & -> & Hj & Hx). apply dev_state_lookup in Hj as [Hj0 Hj].
  apply list_lookup_fmap_Some in Hj as (d & -> & Hd).
  destruct (unseen_online w pm j d None Hok (or_introl eq_refl) Hj0 Hd eq_refl Hx)
    as (rc & w1 & -> & Hok1 & Hp1 & Hs1 & Hq1 & Ho1). cbn [mbind option_bind]. cbv zeta.
  destruct (unseen_with w1 pm None None (upd_events (state_of w1 pm) (pst_events_list (state_of w1 pm))
    (tail (pst_event_queue (state_of w1 pm)))) Hok1 (us_init _ _ _ Hok1)) as [Hok2 Hp2];
    try done; [apply (us_slots _ _ _ Hok1)|].
  destruct (with_state_stepped w1 pm (upd_events (state_of w1 pm) (pst_events_list (state_of w1 pm))
    (tail (pst_event_queue (state_of w1 pm))))) as [T1 _ _ _ _].
  set (w2 := with_state w1 pm _) in *.
  assert (forall k, dev_state (state_of w2 pm) k = dev_state (state_of w1 pm) k) as Hst
    by (intros; by rewrite T1).
  destruct (IH w2 Hok2) as (w3 & Hw3 & Hok3 & Hp3 & Ho3).
  - rewrite T1. cbn. by rewrite Hq1, Hq.
  - intros e He. destruct (Hall e ltac:(by right)) as (k & y & -> & Hk & Hy).
    destruct (decide (k = j)) as [->|Hne]; [exists j, M0_PNDS_ONLINE; rewrite Hst; eauto|]. exists k, y.
    by rewrite Hst, (Ho1 k Hne).
  - exists w3. split; [done|]. split; [done|]. split; [by apply (passed_trans _ w1), (passed_trans _ w2)|].
    intros k Hk. rewrite Ho3 by (intros e He; apply Hk; by right). rewrite Hst. apply Ho1.
    intros ->. by apply (Hk _ ltac:(left)).
Qed.

(** ** Lemmas: the machine and its configuration *)

Lemma deferred_unnoted ids nvec q e :
  e ∈ spec_deferred ids nvec q -> e ∈ q /\ forall note, note ∈ nvec ->
  note_index ids note <> Some (pe_index e).
Proof.
  unfold spec_deferred. revert q. induction nvec as [|n nvec IH]; intros q; cbn [foldl].
  { intros He. split; [done|]. intros note Hn. by apply not_elem_of_nil in Hn. }
  intros [He Hno]%IH. destruct (note_index ids n) as [i|] eqn:Hi.
  - apply list_elem_of_filter in He as [Hne He]. split; [done|].
    intros note [->|Hn]%elem_of_cons; [rewrite Hi; congruence|by apply Hno].
  - split; [done|]. intros note [->|Hn]%elem_of_cons; [congruence|by apply Hno].
Qed.

Lemma conf_events_drive l k e : e ∈ conf_events k l ->
  exists j d, e = event_of (k + j) d /\ all_drives l !! j = Some d.
Proof.
  revert k. induction l as [|c l IH]; intros k; cbn [conf_events]; [by intros ?%not_elem_of_nil|].
  unfold all_drives. cbn. fold (all_drives l). intros [He|He]%elem_of_app.
  - apply list_elem_of_lookup in He as [j Hj]. rewrite list_lookup_imap in Hj.
    destruct (ce_drives c !! j) as [d|] eqn:Hd; [|done]. injection Hj as <-. exists j, d. split; [done|].
    by apply lookup_app_l_Some.
  - destruct (IH _ He) as (j & d & -> & Hd). exists (length (ce_drives c) + j)%nat, d.
    split; [f_equal; lia|]. rewrite lookup_app_r by lia. by replace (_ + j - _)%nat with j by lia.
Qed.

Lemma note_index_drive ids note k : NoDup ids -> ids !! k = Some (no_id note) ->
  note_index ids note = Some (Z.of_nat k).
Proof.
  intros Hnd Hk. unfold note_index. destruct (list_find _ ids) as [[j a]|] eqn:E.
  - apply list_find_Some in E as (Hj & <- & _). cbn. by rewrite (NoDup_lookup _ _ _ _ Hnd Hj Hk).
  - apply list_find_None in E. rewrite Forall_lookup in E. by apply E in Hk.
Qed.

Section shared.
Context (w w' : m0_pool) (pm : Z) (l : list conf_encl) (ns mnf mdf : Z) (evl : list m0_poolmach_event).
Hypothesis Hns : 0 <= ns.
Hypothesis Hmax : Z.of_nat (length (all_drives l)) < POOL_PM_SPARE_SLOT_UNUSED.
Hypothesis Hids : NoDup (cd_id <$> all_drives l).
Hypothesis Hlisted : forall x, x ∈ po_failed_devices w -> x.1 <> pm /\ exists id, dev_id w x = Some id.
Hypothesis Hw : went w w' pm (conf_state (state_init (Z.of_nat (length l)) (Z.of_nat (length (all_drives l)))
  ns mnf mdf) (imap node_of l) (conf_devs 0 0 l) evl (conf_events 0 l)).
Local Notation w0 := (with_state w' pm (upd_initialised (state_of w' pm) true)).

Lemma shared_start : unseen w0 pm None.
Proof.
  pose proof (wt_state _ _ _ _ Hw) as Hst. pose proof (wt_failed _ _ _ _ Hw) as Hf.
  destruct (with_state_stepped w' pm (upd_initialised (state_of w' pm) true)) as [S1 S2 S3 _ _].
  pose proof (conf_state_devs w w' pm l ns mnf mdf evl Hw) as Hdevs.
  split; rewrite ?S1; try done;
    cbn [upd_initialised pst_devices_array pst_nr_devices pst_spare_usage_array pst_nr_spares
      pst_nr_failures].
  - by rewrite Hdevs, conf_devs_length, Hst.
  - by rewrite Hst.
  - rewrite Hst. cbn. rewrite length_fmap, length_seqZ. lia.
  - intros k d. cbn. rewrite Hdevs. by intros [_ ->]%conf_devs_lookup.
  - unfold dev_ids. cbn. by rewrite Hdevs, conf_devs_ids.
  - by rewrite Hst.
  - intros x. rewrite S2, Hf. intros Hx. destruct (Hlisted x Hx) as [Hne Hid]. split; [done|].
    unfold dev_id, state_of in *. by rewrite S3, (wt_others _ _ _ _ Hw).
  - intros k d. cbn. rewrite Hdevs. intros [-> _]%conf_devs_lookup. by left.
  - intros k s Hk. cbn in Hk. by rewrite (conf_slots w w' pm l ns mnf mdf evl Hw k s Hk).
Qed.

Lemma shared_ids : dev_ids (state_of w0 pm) = cd_id <$> all_drives l.
Proof.
  destruct (with_state_stepped w' pm (upd_initialised (state_of w' pm) true)) as [S1 _ _ _ _].
  rewrite S1. unfold dev_ids. cbn. by rewrite (conf_state_devs w w' pm l ns mnf mdf evl Hw), conf_devs_ids.
Qed.

Lemma shared_unknown i : 0 <= i < Z.of_nat (length (all_drives l)) ->
  dev_state (state_of w0 pm) i = Some M0_PNDS_UNKNOWN.
Proof.
  destruct (with_state_stepped w' pm (upd_initialised (state_of w' pm) true)) as [S1 _ _ _ _].
  intros Hi. apply dev_state_lookup. rewrite S1. cbn. split; [lia|].
  rewrite (conf_state_devs w w' pm l ns mnf mdf evl Hw), conf_devs_states. apply lookup_replicate_2. lia.
Qed.

Lemma shared_elsewhere id : listed_elsewhere w pm id -> listed_elsewhere w0 pm id.
Proof.
  destruct (with_state_stepped w' pm (upd_initialised (state_of w' pm) true)) as [_ S2 S3 _ _].
  intros (x & Hin & Hne & Hid). exists x. rewrite S2, (wt_failed _ _ _ _ Hw). split_and!; try done.
  rewrite <- Hid. unfold dev_id, state_of. by rewrite S3, (wt_others _ _ _ _ Hw).
Qed.

(** The failure vector and the deferred events. *)
Lemma shared_failvec nvec :
  NoDup (no_id <$> nvec) ->
  (forall n, n ∈ nvec -> no_id n ∈ cd_id <$> all_drives l -> listed_elsewhere w pm (no_id n) /\
     exists x, m0_ha2pm_state_map (no_state n) = Some x /\ x ∈ mending) ->
  (forall d, d ∈ all_drives l -> cd_id d ∉ no_id <$> nvec -> ha_state (cd_ha d) = M0_PNDS_ONLINE) ->
  mem_ok (length nvec) (po_alloc w') ->
  exists w3, m0_poolmach_failvec_apply w' pm nvec = Some w3 /\ unseen w3 pm None /\ passed w0 w3 pm /\
    forall note i x, note ∈ nvec -> note_index (cd_id <$> all_drives l) note = Some i ->
      m0_ha2pm_state_map (no_state note) = Some x ->
      dev_state (state_of w3 pm) i = Some x /\ pv_is_dirty (po_machs w3 pm) = false.
Proof.
  intros Hnd Hsh Hon Hmem. unfold m0_poolmach_failvec_apply.
  destruct (with_state_stepped w' pm (upd_initialised (state_of w' pm) true)) as [S1 _ _ S4 _].
  assert (pst_su_initialised (state_of w' pm) = false) as -> by (by rewrite (wt_state _ _ _ _ Hw)).
  cbn [negb M0_ASSERT mbind option_bind].
  destruct (unseen_notes nvec w0 pm shared_start Hnd) as (w1 & -> & Hok1 & Hp1 & Hq1 & Hin1 & Hout1);
    [|by rewrite S4|].
  { intros note i Hn Hi. rewrite shared_ids in Hi. unfold note_index in Hi.
    destruct (list_find _ _) as [[k a]|] eqn:E; [|done]. injection Hi as <-. cbn.
    apply list_find_Some in E as (Hk & <- & _). destruct (Hsh note Hn) as [Hel Hx].
    { by eapply list_elem_of_lookup_2. }
    split_and!; [|by apply shared_elsewhere|done]. apply shared_unknown.
    apply lookup_lt_Some in Hk. rewrite length_fmap in Hk. lia. }
  rewrite shared_ids in *. cbn [mbind option_bind]. unfold m0_poolmach_event_queue_apply.
  rewrite (us_init _ _ _ Hok1). cbn [M0_ASSERT mbind option_bind].
  assert (forall e, e ∈ pst_event_queue (state_of w1 pm) ->
    (exists j x, e = device_event_of j M0_PNDS_ONLINE /\ dev_state (state_of w1 pm) j = Some x /\
      (x = M0_PNDS_UNKNOWN \/ x = M0_PNDS_ONLINE)) /\
    forall note, note ∈ nvec -> note_index (cd_id <$> all_drives l) note <> Some (pe_index e)) as Hevs.
  { intros e. rewrite Hq1, S1, (wt_state _ _ _ _ Hw). intros [He Hno]%deferred_unnoted. split; [|done].
    apply conf_events_drive in He as (j & d & -> & Hd). exists (Z.of_nat j), M0_PNDS_UNKNOWN.
    split_and!; [| |by left].
    - unfold event_of, device_event_of. cbn. rewrite Hon; [done|by eapply list_elem_of_lookup_2|].
      intros (n & E & Hn)%list_elem_of_fmap. apply (Hno n Hn), (note_index_drive _ _ j); [done|].
      by rewrite list_lookup_fmap, Hd, <- E.
    - rewrite (Hout1 (Z.of_nat j) Hno). apply shared_unknown. apply lookup_lt_Some in Hd. lia. }
  destruct (unseen_queue _ w1 pm Hok1 eq_refl (fun e He => proj1 (Hevs e He)))
    as (w3 & Hw3 & Hok3 & Hp3 & Ho3).
  exists w3. split_and!; try done; [by apply (passed_trans _ w1)|]. intros note i x Hn Hi Hx.
  destruct (Hin1 note i x Hn Hi Hx) as [Hs Hdi]. split; [|by apply (ps_dirty _ _ _ Hp3)].
  rewrite Ho3; [done|]. intros e He <-. by apply (proj2 (Hevs e He) note Hn).
Qed.

End shared.

(** ** Properties *)

(** A drive in repair goes on to be re-balanced, and is not counted. *)
Lemma unseen_back w pm i x :
  unseen w pm None -> dev_state (state_of w pm) i = Some x -> x ∈ mending ->
  exists rcs w', transits w pm (coming_back i x) = Some (rcs, w') /\ unseen w' pm None /\
    dev_state (state_of w' pm) i = Some M0_PNDS_SNS_REBALANCING.
Proof.
  assert (forall w x y, unseen w pm None -> dev_state (state_of w pm) i = Some x -> x ∈ mending ->
    y ∈ mending ->
    x <> y -> transition_ok x y = true -> exists rc w',
    m0_poolmach_state_transit w pm (device_event_of i y) = Some (rc, w') /\ unseen w' pm None /\
    dev_state (state_of w' pm) i = Some y) as Hstep.
  { clear w x. intros w x y Hok Hs Hx Hy Hne Htr. apply dev_state_lookup in Hs as [Hi Hs].
    apply list_lookup_fmap_Some in Hs as (d & -> & Hd).
    destruct (us_states _ _ _ Hok _ _ Hd) as [E|[E|[_ Hel]]];
      [by apply mending_facts in Hx as (_ & ? & _)|by apply mending_facts in Hx as (_ & _ & ?)|].
    destruct (unseen_repair w pm i d None Hok (or_introl eq_refl) Hi Hd y Hy Hel Hne Htr)
      as (w' & Hw' & Hok' & _ & _ & Hs' & _). by eexists _, w'. }
  assert (M0_PNDS_SNS_REPAIRED ∈ mending /\ M0_PNDS_SNS_REBALANCING ∈ mending) as [Hm1 Hm2]
    by (by rewrite <- !nd_in_elem).
  intros Hok Hs Hx. unfold coming_back.
  apply elem_of_cons in Hx as [->|Hx]; [|apply elem_of_cons in Hx as [->|Hx]].
  - destruct (Hstep w _ M0_PNDS_SNS_REPAIRED Hok Hs) as (rc & w1 & E1 & Hok1 & Hs1); try done; [left|].
    destruct (Hstep w1 _ M0_PNDS_SNS_REBALANCING Hok1 Hs1) as (rc' & w2 & E2 & Hok2 & Hs2); try done.
    eexists _, w2. cbn [fmap list_fmap transits]. rewrite E1. cbn [mbind option_bind]. by rewrite E2.
  - destruct (Hstep w _ M0_PNDS_SNS_REBALANCING Hok Hs) as (rc & w1 & E1 & Hok1 & Hs1); try done.
    eexists _, w1. cbn [fmap list_fmap transits]. by rewrite E1.
  - apply list_elem_of_singleton in Hx as ->. by eexists _, w.
Qed.

(** C39. A drive that is in repair and that another machine of the pool lists as failed
    is not counted by a machine that starts with it: when all drives of the failure
    vector that belong to the machine are such drives, and its other drives are online,
    the machine comes up with the states of the vector, but with no failure counted and
    its pool version not dirty. When such a drive has gone on to re-balancing, which the
    machine accepts, and then comes online, the counter of failures is 0, and the event
    ends in a failed assertion. *)
Theorem poolmach_shared_drive w pm l ns mnf mdf nvec note i x :
  0 <= ns -> Z.of_nat (length (all_drives l)) < POOL_PM_SPARE_SLOT_UNUSED ->
  Z.of_nat (length l) < POOL_PM_SPARE_SLOT_UNUSED -> pm_is_initialised (po_machs w pm) = false ->
  conf_ok l -> NoDup (cd_id <$> all_drives l) -> NoDup (no_id <$> nvec) ->
  (forall y, y ∈ po_failed_devices w -> y.1 <> pm /\ exists id, dev_id w y = Some id) ->
  (forall n, n ∈ nvec -> no_id n ∈ cd_id <$> all_drives l -> listed_elsewhere w pm (no_id n) /\
     exists y, m0_ha2pm_state_map (no_state n) = Some y /\ y ∈ mending) ->
  (forall d, d ∈ all_drives l -> cd_id d ∉ no_id <$> nvec -> ha_state (cd_ha d) = M0_PNDS_ONLINE) ->
  mem_ok (4 + length (conf_objs l) + length nvec) (po_alloc w) ->
  note ∈ nvec -> note_index (cd_id <$> all_drives l) note = Some i ->
  m0_ha2pm_state_map (no_state note) = Some x ->
  exists w1 w2 w3 rcs w4,
    m0_poolmach_init w pm (Z.of_nat (length l)) (Z.of_nat (length (all_drives l))) ns mnf mdf =
      Some (0, w1) /\
    m0_poolmach_init_by_conf w1 pm (conf_objs l) = Some (0, w2) /\
    m0_poolmach_failvec_apply w2 pm nvec = Some w3 /\
    dev_state (state_of w3 pm) i = Some x /\ pst_nr_failures (state_of w3 pm) = 0 /\
    pv_is_dirty (po_machs w3 pm) = false /\ po_failed_devices w3 = po_failed_devices w /\
    transits w3 pm (coming_back i x) = Some (rcs, w4) /\
    dev_state (state_of w4 pm) i = Some M0_PNDS_SNS_REBALANCING /\ pst_nr_failures (state_of w4 pm) = 0 /\
    m0_poolmach_state_transit w4 pm (device_event_of i M0_PNDS_ONLINE) = None.
Proof.
  intros Hns Hmax Hnmax Hun Hc Hids Hnd Hli Hsh Hon Hmem Hn Hi Hx.
  destruct (init_conf_went w pm l ns mnf mdf Hmax Hnmax Hun (length nvec) Hc Hmem)
    as (w1 & w2 & evl & H1 & H2 & Hw & Hm).
  destruct (shared_failvec w w2 pm l ns mnf mdf evl Hns Hmax Hids Hli Hw nvec Hnd Hsh Hon Hm)
    as (w3 & H3 & Hok3 & Hp3 & Hst3). destruct (Hst3 note i x Hn Hi Hx) as [Hs Hdi].
  assert (x ∈ mending) as Hxm.
  { unfold note_index in Hi. destruct (list_find _ _) as [[k a]|] eqn:E; [|done].
    apply list_find_Some in E as (Hk%list_elem_of_lookup_2 & <- & _).
    destruct (Hsh note Hn Hk) as (_ & y & Hy & ?). congruence. }
  destruct (unseen_back w3 pm i x Hok3 Hs Hxm) as (rcs & w4 & H4 & Hok4 & Hs4).
  exists w1, w2, w3, rcs, w4. split_and!; try done;
    [apply (us_count _ _ _ Hok3)| |apply (us_count _ _ _ Hok4)|].
  - rewrite (ps_failed _ _ _ Hp3). apply (wt_failed _ _ _ _ Hw).
  - apply dev_state_lookup in Hs4 as [Hi0 Hs4]. apply list_lookup_fmap_Some in Hs4 as (d & Hd & Hlk).
    by eapply unseen_abort.
Qed.

(** The pool when the first machine is up: its second drive is repaired. *)
Definition shared_pool : m0_pool :=
  default example_world (run_machine example_world 0 example_encls 2 1 2 example_notes []).

(** Another pool version with this drive and one that is online. *)
Definition shared_encls : list conf_encl :=
  [{| ce_id := M0_FID_INIT 1 1; ce_ha := 1;
      ce_drives := [{| cd_id := M0_FID_INIT 2 7; cd_sdev := 7; cd_ha := 1 |};
        {| cd_id := M0_FID_INIT 2 2; cd_sdev := 1; cd_ha := 5 |}] |}].

Lemma shared_conf_ok : conf_ok shared_encls.
Proof.
  split.
  - intros e He. by repeat (apply elem_of_cons in He as [->|He]; [done|]); apply not_elem_of_nil in He.
  - intros e He. repeat (apply elem_of_cons in He as [->|He];
      [by eexists; split; [done|]; rewrite <- nd_in_elem|]). by apply not_elem_of_nil in He.
  - intros d Hd. repeat (apply elem_of_cons in Hd as [->|Hd];
      [by eexists; split; [done|]; rewrite <- nd_in_elem|]). by apply not_elem_of_nil in Hd.
Qed.

Lemma poolmach_shared_drive_witness : exists w3 rcs w4,
  pst_nr_failures (state_of w3 1) = 0 /\ dev_state (state_of w3 1) 1 = Some M0_PNDS_SNS_REPAIRED /\
  transits w3 1 [device_event_of 1 M0_PNDS_SNS_REBALANCING] = Some (rcs, w4) /\
  m0_poolmach_state_transit w4 1 (device_event_of 1 M0_PNDS_ONLINE) = None.
Proof.
  assert (po_failed_devices shared_pool = [(0, 1)]) as Hf by (vm_compute; reflexivity).
  assert (dev_id shared_pool (0, 1) = Some (M0_FID_INIT 2 2)) as Hid by (vm_compute; reflexivity).
  destruct (poolmach_shared_drive shared_pool 1 shared_encls 2 1 2 example_notes
    {| no_id := M0_FID_INIT 2 2; no_state := 5 |} 1 M0_PNDS_SNS_REPAIRED)
    as (w1 & w2 & w3 & rcs & w4 & _ & _ & _ & Hs & Hc & _ & _ & Ht & _ & _ & Hn).
  - lia.
  - vm_compute. reflexivity.
  - vm_compute. reflexivity.
  - vm_compute. reflexivity.
  - apply shared_conf_ok.
  - refine (bool_decide_eq_true_1 _ _). vm_compute. reflexivity.
  - refine (bool_decide_eq_true_1 _ _). vm_compute. reflexivity.
  - intros y Hy. rewrite Hf in Hy. apply list_elem_of_singleton in Hy as ->. split; [discriminate|eauto].
  - intros n Hn Hin. apply elem_of_cons in Hn as [->|Hn].
    + split; [|eexists; split; [reflexivity|]; by rewrite <- nd_in_elem].
      exists (0, 1). rewrite Hf. split; [left|]. split; [discriminate|exact Hid].
    + exfalso. apply elem_of_cons in Hn as [->|Hn]; [|apply list_elem_of_singleton in Hn as ->];
        revert Hin; refine (bool_decide_eq_false_1 _ _); vm_compute; reflexivity.
  - intros d Hd Hnot. apply elem_of_cons in Hd as [->|Hd]; [reflexivity|].
    apply list_elem_of_singleton in Hd as ->. destruct Hnot. left.
  - exists (drop 10 (po_alloc shared_pool)). vm_compute. reflexivity.
  - left.
  - vm_compute. reflexivity.
  - reflexivity.
  - exists w3, rcs, w4. split; [exact Hc|]. split; [exact Hs|]. split; [exact Ht|exact Hn].
Defined.
