(* ===== verification/SpareMap.v ===== *)
(** * Spare units

    Models src/sns/parity_repair.c: where a unit of a parity group that was on a failed
    device is found after repair, and which unit a spare unit holds. The file uses the
    pool machine, for the owners of the spare slots, and the map between the units of a
    file and the frames of the devices, through an interface. *)
From S2P Require Import Prelude LibArith Fid FdPerm Pdclust PoolMach PoolMachInv PoolMachRun.
#[local] Open Scope motr_scope.

(** The layout instance, as far as this file uses it: m0_fd_fwd_map() and
    m0_fd_bwd_map(), which may change the caches of the instance. *)
Class UnitMap (PI : Type) := {
  fwd_map : PI -> m0_pdclust_src_addr -> option (m0_pdclust_tgt_addr * PI);
  bwd_map : PI -> m0_pdclust_tgt_addr -> option (m0_pdclust_src_addr * PI)
}.

#[export] Instance m0_pdclust_unit_type_eq_decision : EqDecision m0_pdclust_unit_type.
Proof. solve_decision. Defined.

Section ops.
Context {PI : Type} `{UnitMap PI}.
Context (w : m0_pool) (pm : Z) (pl : m0_pdclust_layout).

Definition device_index_get (pi : PI) (group_number unit_number : Z) : option (Z * PI) :=
  '(ta, pi) ← fwd_map pi {| sa_group := group_number; sa_unit := unit_number |};
  Some (u32 (ta_obj ta), pi).

(** The loop of _spare_next(): the error code, or the slot and the previous one. *)
Fixpoint spare_loop (fuel : nat) (pi : PI) (group_number device_index spare_slot_out_prev : Z) (break_next :
  bool)
    : option ((Z + Z * Z) * PI) :=
  match fuel with
  | O => None
  | S fuel =>
      '(rc, spare_slot_out) ← m0_poolmach_sns_repair_spare_query w pm device_index;
      if negb (rc =? 0) then Some (inl rc, pi)
      else
        '(device_index_new, pi) ← device_index_get pi group_number
          (u32 (u32 (m0_pdclust_N pl + m0_pdclust_K pl) + spare_slot_out));
        used ← m0_poolmach_device_is_in_spare_usage_array w pm device_index_new;
        if used && negb break_next then spare_loop fuel pi group_number device_index_new spare_slot_out
          break_next
        else Some (inr (spare_slot_out, spare_slot_out_prev), pi)
  end.

Definition _spare_next (fuel : nat) (pi : PI) (group_number unit_number : Z) (break_next : bool) :
  option ((Z + Z * Z) * PI) :=
  '(device_index, pi) ← device_index_get pi group_number unit_number;
  '(r, pi) ← spare_loop fuel pi group_number device_index (u32 unit_number) break_next;
  let nk := u32 (m0_pdclust_N pl + m0_pdclust_K pl) in
  Some (match r with
        | inl rc => inl rc
        | inr (out, prev) => inr (u32 (out + nk),
          if negb (prev =? unit_number) then u32 (prev + nk) else prev)
        end, pi).

Definition m0_sns_repair_spare_map (fuel : nat) (pi : PI) (group unit : Z) : option ((Z + Z * Z) * PI) :=
  _spare_next fuel pi group unit false.

(** The do-while loop. *)
Fixpoint m0_sns_repair_spare_rebalancing (fuel : nat) (pi : PI) (group unit : Z) :
  option ((Z + Z * Z) * PI) :=
  match fuel with
  | O => None
  | S fuel =>
      '(r, pi) ← _spare_next 1 pi group unit true;
      match r with
      | inl rc => Some (inl rc, pi)
      | inr (out, prev) =>
          '(device_index, pi) ← device_index_get pi group out;
          '(rc, state_out) ← m0_poolmach_device_state w pm device_index;
          if negb (rc =? 0) then Some (inl rc, pi)
          else if bool_decide (state_out = Some M0_PNDS_SNS_REBALANCING) then Some (inr (out, prev), pi)
          else m0_sns_repair_spare_rebalancing fuel pi group out
      end
  end.

Definition frame_eq (pi : PI) (group_number frame device_index : Z) : option (bool * PI) :=
  '(sa, pi) ← bwd_map pi {| ta_frame := frame; ta_obj := device_index |};
  Some (sa_group sa =? group_number, pi).

Definition frame_get (pi : PI) (spare_frame group_number device_index : Z) : option (Z * PI) :=
  '(found, pi) ← (if negb (spare_frame =? 0) then frame_eq pi group_number (u64 (spare_frame - 1))
    device_index else Some (false, pi));
  if found : bool then Some (u64 (spare_frame - 1), pi)
  else
    '(found, pi) ← frame_eq pi group_number spare_frame device_index;
    if found : bool then Some (spare_frame, pi)
    else
      '(found, pi) ← frame_eq pi group_number (u64 (spare_frame + 1)) device_index;
      Some (if found : bool then u64 (spare_frame + 1) else u64 (- ENOENT), pi).

(** The loop; the unit is given with the result code 0. *)
Fixpoint data_loop (fuel : nat) (pi : PI) (group_number spare_unit_number spare_in : Z) :
  option ((Z + Z) * PI) :=
  match fuel with
  | O => None
  | S fuel =>
      let spare_id := u64 (u64 (spare_in - m0_pdclust_N pl) - m0_pdclust_K pl) in
      s ← arr_get (pst_spare_usage_array (state_of w pm)) spare_id;
      let device_index := psu_device_index s in
      if device_index =? POOL_PM_SPARE_SLOT_UNUSED then Some (inl (- ENOENT), pi)
      else
        '(ta, pi) ← fwd_map pi {| sa_group := group_number; sa_unit := spare_in |};
        '(frame, pi) ← frame_get pi (ta_frame ta) group_number device_index;
        if frame =? u64 (- ENOENT) then Some (inl (- ENOENT), pi)
        else
          '(rc, state_out) ← m0_poolmach_device_state w pm device_index;
          if negb (rc =? 0) then Some (inl (- ENOENT), pi)
          else
            '(sa, pi) ← bwd_map pi {| ta_frame := frame; ta_obj := device_index |};
            if spare_unit_number =? sa_unit sa then Some (inl (- ENOENT), pi)
            else if bool_decide (m0_pdclust_unit_classify pl (sa_unit sa) = M0_PUT_SPARE) &&
                    bool_decide (state_out = Some M0_PNDS_SNS_REPAIRED \/
                      state_out = Some M0_PNDS_SNS_REBALANCING) then
              data_loop fuel pi group_number spare_unit_number (sa_unit sa)
            else Some (inr (sa_unit sa), pi)
  end.

(** The result is the error or the unit; what the code leaves in the output before it
    returns -ENOENT is not part of it. *)
Definition m0_sns_repair_data_map (fuel : nat) (pi : PI) (group_number spare_unit_number : Z) :
  option ((Z + Z) * PI) :=
  data_loop fuel pi group_number spare_unit_number spare_unit_number.
End ops.

(** ** Interface *)

(** What the layout promises for a parity group of [width] units on [devices] devices:
    each unit has a device and a frame, whatever the caches hold; the units of the group
    are on different devices and in neighbouring frames; and the inverse map, for a
    frame near those of the group, gives the unit of the group that is there, if any. *)
Class GroupMap (PI : Type) `{UnitMap PI} (width devices group : Z) := {
  gm_ok : PI -> Prop;
  gm_dev : Z -> Z;
  gm_frame : Z -> Z;
  gm_fwd pi u : gm_ok pi -> 0 <= u < width -> exists pi',
    fwd_map pi {| sa_group := group; sa_unit := u |} = Some
      ({| ta_frame := gm_frame u; ta_obj := gm_dev u |}, pi') /\ gm_ok pi';
  gm_dev_range u : 0 <= u < width -> 0 <= gm_dev u < devices;
  gm_dev_inj u v : 0 <= u < width -> 0 <= v < width -> gm_dev u = gm_dev v -> u = v;
  gm_frame_range u : 0 <= u < width -> 0 <= gm_frame u < 2 ^ 64 - 2;
  gm_frame_near u v : 0 <= u < width -> 0 <= v < width -> gm_frame v <= gm_frame u + 1;
  gm_bwd pi u frame dev : gm_ok pi -> 0 <= u < width -> gm_frame u - 1 <= frame <= gm_frame u + 1 ->
  0 <= frame -> 0 <= dev < devices ->
    exists sa pi', bwd_map pi {| ta_frame := frame; ta_obj := dev |} = Some (sa, pi') /\ gm_ok pi' /\
      (forall v, 0 <= v < width -> gm_dev v = dev -> gm_frame v = frame ->
        sa = {| sa_group := group; sa_unit := v |}) /\
      (sa_group sa = group -> exists v, 0 <= v < width /\ gm_dev v = dev /\ gm_frame v = frame)
}.

(** ** Lemmas: chains of spare units *)

Section chains.
Context {PI : Type} `{GM : GroupMap PI width devices group}.
Context (w : m0_pool) (pm : Z) (pl : m0_pdclust_layout).
Local Notation n := (m0_pdclust_N pl + m0_pdclust_K pl).
Hypothesis Hok : mach_ok w pm.
Hypothesis Hdevs : pst_nr_devices (state_of w pm) = devices.
Hypothesis Hwidth : n + pst_nr_spares (state_of w pm) = width.
Hypothesis HN : 0 < m0_pdclust_N pl.
Hypothesis HK : 0 <= m0_pdclust_K pl.
Hypothesis Hw32 : width < 2 ^ 32.

(** The spare unit that holds a unit of a device that has a slot. *)
Definition spare_next (x : Z) : option Z := Z.add n <$> slot_of (mach_abs (state_of w pm)) (gm_dev x).

Fixpoint steps (j : nat) (x : Z) : option Z := match j with O => Some x | S j => y ← steps j x;
  spare_next y end.

Lemma slot_owner d k : d <> POOL_PM_SPARE_SLOT_UNUSED -> slot_of (mach_abs (state_of w pm)) d = Some k ->
  0 <= k < pst_nr_spares (state_of w pm) /\ exists s,
    arr_get (pst_spare_usage_array (state_of w pm)) k = Some s /\ psu_device_index s = d.
Proof.
  intros Hd. rewrite slot_of_found by done. destruct (list_find _ _) as [[i s]|] eqn:Hf; [|done].
  intros [= <-]. cbn [fst].
  apply list_find_Some in Hf as (Hi & Hs & _). apply Z.eqb_eq in Hs. pose proof (lookup_lt_Some _ _ _ Hi).
  rewrite <- (mk_spares _ _ Hok).
  split; [lia|]. exists s. split; [|done]. apply arr_get_Some. rewrite Nat2Z.id. split; [lia|done].
Qed.

Lemma dev_used u : 0 <= u < width -> gm_dev u <> POOL_PM_SPARE_SLOT_UNUSED /\
  0 <= gm_dev u < pst_nr_devices (state_of w pm).
Proof. intros Hu. pose proof (gm_dev_range u Hu). pose proof (mk_max _ _ Hok). rewrite Hdevs in *. lia. Qed.

Lemma next_owner x y : 0 <= x < width -> spare_next x = Some y ->
  n <= y < width /\ exists s, arr_get (pst_spare_usage_array (state_of w pm)) (y - n) = Some s /\
  psu_device_index s = gm_dev x.
Proof.
  intros Hx. unfold spare_next. destruct (slot_of _ _) as [k|] eqn:Hk; [|done]. intros [= <-].
  destruct (slot_owner _ _ (proj1 (dev_used x Hx)) Hk) as (Hr & s & Hs & E). split; [lia|]. exists s.
  by replace (n + k - n) with k by lia.
Qed.

Lemma next_inj x y z : 0 <= x < width -> 0 <= y < width -> spare_next x = Some z -> spare_next y = Some z ->
  x = y.
Proof.
  intros Hx Hy Hxz Hyz. destruct (next_owner x z Hx Hxz) as (_ & s & Hs & E).
  destruct (next_owner y z Hy Hyz) as (_ & s' & Hs' & E').
  apply gm_dev_inj; [done|done|]. congruence.
Qed.

Lemma steps_range j x y : 0 <= x < width -> steps j x = Some y -> 0 <= y < width /\ ((0 < j)%nat -> n <= y).
Proof.
  intros Hx. revert y. induction j as [|j IH]; intros y; cbn [steps].
  - intros [= <-]. split; [done|lia].
  - intros (z & Hz & Hy)%bind_Some. destruct (IH z Hz) as [Hzr _]. destruct (next_owner z y Hzr Hy) as [? _].
    split; [lia|lia].
Qed.

(** Chains from different data or parity units do not meet, and do not come back. *)
Lemma steps_back i j u v x : 0 <= u < n -> 0 <= v < n -> steps i u = Some x -> steps j v = Some x -> i = j /\
  u = v.
Proof.
  pose proof (mk_spares _ _ Hok) as Hsp. intros Hu Hv. revert j x.
  induction i as [|i IH]; intros [|j] x Hi Hj; cbn [steps] in Hi, Hj.
  - split; [done|]. congruence.
  - injection Hi as <-. destruct (steps_range (S j) v u ltac:(lia) Hj) as [_ Hn]. lia.
  - injection Hj as <-. destruct (steps_range (S i) u v ltac:(lia) Hi) as [_ Hn]. lia.
  - apply bind_Some in Hi as (a & Ha & Hax). apply bind_Some in Hj as (b & Hb & Hbx).
    destruct (steps_range i u a ltac:(lia) Ha) as [Har _].
    destruct (steps_range j v b ltac:(lia) Hb) as [Hbr _].
    rewrite (next_inj a b x Har Hbr Hax Hbx) in Ha. destruct (IH j b Ha Hb) as [-> ->]. done.
Qed.

Lemma steps_before i j u x : steps (i + j) u = Some x -> exists y, steps i u = Some y.
Proof.
  revert x. induction j as [|j IH]; intros x; [rewrite Nat.add_0_r; by eexists|].
  rewrite Nat.add_succ_r. cbn [steps]. intros (y & Hy & _)%bind_Some. by eapply IH.
Qed.

(** A chain has at most as many spare units as there are. *)
Lemma steps_bound j u x : 0 <= u < n -> steps j u = Some x ->
  (j <= Z.to_nat (pst_nr_spares (state_of w pm)))%nat.
Proof.
  pose proof (mk_spares _ _ Hok) as Hsp. intros Hu Hj.
  set (xs := (fun i => default 0 (steps (S i) u)) <$> seq 0 j).
  assert (forall i, (i < j)%nat -> exists y, steps (S i) u = Some y) as Hall.
  { intros i Hi. apply (steps_before (S i) (j - S i) u x). by replace (S i + (j - S i))%nat with j by lia. }
  assert (NoDup xs) as Hnd.
  { apply NoDup_fmap_2_strong; [|apply NoDup_seq]. intros a b [_ Ha]%elem_of_seq [_ Hb]%elem_of_seq E.
    destruct (Hall a Ha) as [y Hy]. destruct (Hall b Hb) as [z Hz]. rewrite Hy, Hz in E. cbn in E. subst z.
    destruct (steps_back _ _ u u y Hu Hu Hy Hz). lia. }
  assert (length xs <= length (seqZ n (pst_nr_spares (state_of w pm))))%nat as Hle.
  { apply submseteq_length, NoDup_submseteq;
      [done|]. intros y (i & -> & [_ Hi]%elem_of_seq)%list_elem_of_fmap.
    destruct (Hall i Hi) as [y Hy]. rewrite Hy. cbn.
    destruct (steps_range (S i) u y ltac:(lia) Hy) as [Hr Hn]. apply elem_of_seqZ. lia. }
  unfold xs in Hle. rewrite length_fmap, length_seq, length_seqZ in Hle. done.
Qed.

(** The end of the chain from a data or parity unit whose device has a slot. *)
Lemma chain_end u : 0 <= u < n -> is_Some (spare_next u) -> exists m p y,
  (m < Z.to_nat (pst_nr_spares (state_of w pm)))%nat /\ steps m u = Some p /\ spare_next p = Some y /\
  spare_next y = None.
Proof.
  intros Hu [y0 Hy0].
  assert (forall j, (exists x, steps (S j) u = Some x) \/
    exists m p y, (m < j)%nat /\ steps m u = Some p /\ spare_next p = Some y /\ spare_next y = None) as Hs.
  { induction j as [|j [[x Hx]|IH]]; [left; by exists y0| |right; destruct IH as (m & p & y & ? & ?);
      exists m, p, y; split; [lia|done]].
    destruct (spare_next x) as [z|] eqn:Hz; [left; exists z; cbn [steps] in *; by rewrite Hx|].
    right. cbn [steps] in Hx. apply bind_Some in Hx as (p & Hp & Hx). exists j, p, x. split; [lia|done]. }
  destruct (Hs (Z.to_nat (pst_nr_spares (state_of w pm)))) as [[x Hx]|?]; [|done].
  pose proof (steps_bound _ u x Hu Hx). lia.
Qed.

(** ** Lemmas: the loops *)

Lemma u32_width x : 0 <= x <= width -> u32 x = x.
Proof. intros Hx. apply u32_small. unfold is_u32. lia. Qed.

Lemma device_index_ok pi u : gm_ok pi -> 0 <= u < width -> exists pi',
  device_index_get pi group u = Some (gm_dev u, pi') /\ gm_ok pi'.
Proof.
  intros Hpi Hu. destruct (gm_fwd pi u Hpi Hu) as (pi' & Hf & Hpi'). exists pi'. unfold device_index_get.
  rewrite Hf. cbn. split; [|done].
  destruct (dev_used u Hu) as [_ Hd]. pose proof (mk_max _ _ Hok) as Hm.
  unfold POOL_PM_SPARE_SLOT_UNUSED in Hm. rewrite u32_small; [done|]. unfold is_u32. lia.
Qed.

Lemma query_ok u : 0 <= u < width ->
  m0_poolmach_sns_repair_spare_query w pm (gm_dev u) = Some (match spare_next u with Some y => (0, y - n) |
    None => (- ENOENT, 0) end).
Proof.
  intros Hu. destruct (dev_used u Hu) as [_ [Hd Hlt]].
  rewrite (spare_query_ok w pm _ Hok Hd), (proj2 (Z.leb_gt _ _) Hlt). unfold spare_next.
  destruct (slot_of _ _) as [k|]; [|done]. cbn. do 2 f_equal. lia.
Qed.

Lemma is_in_array_ok u : 0 <= u < width ->
  m0_poolmach_device_is_in_spare_usage_array w pm (gm_dev u) = Some (bool_decide (is_Some (spare_next u))).
Proof.
  intros Hu. unfold m0_poolmach_device_is_in_spare_usage_array.
  rewrite spare_find_all by apply (mk_spares _ _ Hok). cbn [mbind option_bind].
  f_equal. apply bool_decide_ext. unfold spare_next. rewrite slot_of_found by apply (proj1 (dev_used u Hu)).
  symmetry. apply fmap_is_Some.
Qed.

Lemma device_state_ok u : 0 <= u < width ->
  exists x, dev_state (state_of w pm) (gm_dev u) = Some x /\
  m0_poolmach_device_state w pm (gm_dev u) = Some (0, Some x).
Proof.
  intros Hu. destruct (dev_used u Hu) as [_ [Hd Hlt]]. unfold m0_poolmach_device_state, dev_state.
  rewrite (proj2 (Z.leb_gt _ _) Hlt).
  destruct (arr_get_is_Some (pst_devices_array (state_of w pm)) (gm_dev u)) as [d Hg];
    [rewrite (mk_devs _ _ Hok); lia|]. rewrite Hg. by exists (pd_state d).
Qed.

Lemma steps_cons j x : steps (S j) x = y ← spare_next x; steps j y.
Proof.
  induction j as [|j IH]; [change (spare_next x = (y ← spare_next x; Some y)); by destruct (spare_next x)|].
  change (steps (S (S j)) x) with (z ← steps (S j) x; spare_next z).
  rewrite IH. by destruct (spare_next x).
Qed.

Lemma nk_ok : u32 n = n.
Proof. pose proof (mk_spares _ _ Hok). apply u32_width. lia. Qed.

Lemma spare_loop_ok m x p y pi fuel prev : 0 <= x < width -> gm_ok pi -> (m < fuel)%nat ->
  steps m x = Some p -> spare_next p = Some y -> spare_next y = None ->
  exists pi', spare_loop w pm pl fuel pi group (gm_dev x) prev false = Some
    (inr (y - n, match m with O => prev | S _ => p - n end), pi') /\ gm_ok pi'.
Proof.
  revert x pi fuel prev. induction m as [|m IH]; intros x pi [|fuel] prev Hx Hpi Hf Hp Hy Hend; try lia;
    cbn [spare_loop]; rewrite (query_ok x Hx).
  - cbn [steps] in Hp. injection Hp as <-. rewrite Hy. cbn [mbind option_bind Z.eqb negb].
    destruct (next_owner x y Hx Hy) as [Hyr _].
    rewrite nk_ok. replace (n + (y - n)) with y by lia. rewrite u32_width by lia.
    destruct (device_index_ok pi y Hpi ltac:(lia)) as (pi' & -> & Hpi'). cbn [mbind option_bind].
    rewrite is_in_array_ok by lia. cbn [mbind option_bind].
    rewrite bool_decide_false by (rewrite Hend; by intros [? ?]). by exists pi'.
  - rewrite steps_cons in Hp. apply bind_Some in Hp as (z & Hz & Hp). rewrite Hz.
    cbn [mbind option_bind Z.eqb negb]. destruct (next_owner x z Hx Hz) as [Hzr _].
    rewrite nk_ok. replace (n + (z - n)) with z by lia. rewrite u32_width by lia.
    destruct (device_index_ok pi z Hpi ltac:(lia)) as (pi' & -> & Hpi'). cbn [mbind option_bind].
    rewrite is_in_array_ok by lia. cbn [mbind option_bind].
    rewrite bool_decide_true.
    + cbn [negb andb]. destruct (IH z pi' fuel (z - n) ltac:(lia) Hpi' ltac:(lia) Hp Hy Hend)
        as (pi'' & -> & Hpi''). exists pi''. split; [|done].
      destruct m; [|done]. cbn [steps] in Hp. by injection Hp as <-.
    + destruct m; [cbn [steps] in Hp; injection Hp as <-; by eexists|]. rewrite steps_cons in Hp.
      apply bind_Some in Hp as (z' & Hz' & _). by eexists.
Qed.

(** What the two outputs of _spare_next() are; the second is compared as a slot with the unit. *)
Definition prev_out (u p : Z) : Z := if p =? n + u then u else p.

Lemma spare_map_end pi u m p y fuel : 0 <= u < n -> gm_ok pi -> (m < fuel)%nat -> steps m u = Some p ->
  spare_next p = Some y -> spare_next y = None ->
  exists pi', m0_sns_repair_spare_map w pm pl fuel pi group u = Some (inr (y, prev_out u p), pi') /\
  gm_ok pi'.
Proof.
  intros Hu Hpi Hf Hp Hy Hend. pose proof (mk_spares _ _ Hok) as Hsp. assert (0 <= u < width) as Huw by lia.
  destruct (steps_range m u p Huw Hp) as [Hpr Hpn]. destruct (next_owner p y Hpr Hy) as [Hyr _].
  unfold m0_sns_repair_spare_map, _spare_next. destruct (device_index_ok pi u Hpi Huw) as (pi1 & -> & Hpi1).
  cbn [mbind option_bind].
  rewrite (u32_width u) by lia. destruct (spare_loop_ok m u p y pi1 fuel u Huw Hpi1 Hf Hp Hy Hend)
    as (pi2 & -> & Hpi2).
  cbn [mbind option_bind]. rewrite nk_ok. exists pi2. split; [|done]. do 2 f_equal.
  replace (y - n + n) with y by lia. rewrite u32_width by lia. do 2 f_equal.
  unfold prev_out. destruct m as [|m].
  - cbn [steps] in Hp. injection Hp as <-. rewrite Z.eqb_refl. cbn [negb].
    by rewrite (proj2 (Z.eqb_neq u (n + u))) by lia.
  - replace (p - n + n) with p by lia. rewrite u32_width by lia. specialize (Hpn ltac:(lia)).
    destruct (Z.eqb_spec (p - n) u) as [E1|E1], (Z.eqb_spec p (n + u)) as [E2|E2]; cbn [negb]; lia.
Qed.

Lemma spare_map_none pi u fuel : 0 <= u < width -> gm_ok pi -> (0 < fuel)%nat -> spare_next u = None ->
  exists pi', m0_sns_repair_spare_map w pm pl fuel pi group u = Some (inl (- ENOENT), pi') /\ gm_ok pi'.
Proof.
  intros Hu Hpi Hf Hnone. destruct fuel as [|fuel]; [lia|]. unfold m0_sns_repair_spare_map, _spare_next.
  destruct (device_index_ok pi u Hpi Hu) as (pi1 & -> & Hpi1). cbn [mbind option_bind spare_loop].
  rewrite (query_ok u Hu), Hnone. by exists pi1.
Qed.

Lemma frame_eq_ok pi u v frame : gm_ok pi -> 0 <= u < width -> 0 <= v < width ->
  gm_frame u - 1 <= frame <= gm_frame u + 1 -> 0 <= frame ->
  exists pi', frame_eq pi group frame (gm_dev v) = Some (bool_decide (gm_frame v = frame), pi') /\ gm_ok pi'.
Proof.
  intros Hpi Hu Hv Hf H0. destruct (gm_bwd pi u frame (gm_dev v) Hpi Hu Hf H0 (gm_dev_range v Hv))
    as (sa & pi' & Hb & Hpi' & Hin & Hout).
  exists pi'. unfold frame_eq. rewrite Hb. cbn [mbind option_bind]. split; [|done]. do 2 f_equal.
  case_bool_decide as E.
  - rewrite (Hin v Hv eq_refl E). apply Z.eqb_refl.
  - apply Z.eqb_neq. intros Eg. destruct (Hout Eg) as (v' & Hv' & Ed & Ef).
    by rewrite (gm_dev_inj v' v Hv' Hv Ed) in Ef.
Qed.

(** The frame of the unit on the owner of a slot is found from that of the spare unit. *)
Lemma frame_get_ok pi u v : gm_ok pi -> 0 <= u < width -> 0 <= v < width ->
  exists pi', frame_get pi (gm_frame u) group (gm_dev v) = Some (gm_frame v, pi') /\ gm_ok pi'.
Proof.
  intros Hpi Hu Hv. pose proof (gm_frame_range u Hu) as Hru. pose proof (gm_frame_range v Hv) as Hrv.
  pose proof (gm_frame_near u v Hu Hv) as N1. pose proof (gm_frame_near v u Hv Hu) as N2. unfold frame_get.
  assert (exists pi1, (if negb (gm_frame u =? 0) then frame_eq pi group (u64 (gm_frame u - 1)) (gm_dev v)
    else Some (false, pi)) =
    Some (bool_decide (gm_frame v = gm_frame u - 1), pi1) /\ gm_ok pi1) as (pi1 & -> & Hpi1).
  { destruct (Z.eqb_spec (gm_frame u) 0) as [E|E]; cbn [negb].
    - exists pi. rewrite bool_decide_false by lia. done.
    - rewrite u64_small by (unfold is_u64; lia). apply (frame_eq_ok pi u); try done; lia. }
  cbn [mbind option_bind]. case_bool_decide as E1;
    [exists pi1; rewrite u64_small by (unfold is_u64; lia); by rewrite E1|].
  destruct (frame_eq_ok pi1 u v (gm_frame u) Hpi1 Hu Hv) as (pi2 & -> & Hpi2); [lia|lia|].
  cbn [mbind option_bind].
  case_bool_decide as E2; [exists pi2; by rewrite E2|]. rewrite u64_small by (unfold is_u64; lia).
  destruct (frame_eq_ok pi2 u v (gm_frame u + 1) Hpi2 Hu Hv) as (pi3 & -> & Hpi3); [lia|lia|].
  cbn [mbind option_bind].
  rewrite bool_decide_true by lia. exists pi3. split; [|done]. do 2 f_equal. lia.
Qed.

(** The state of the device of a unit. *)
Definition repaired (x : Z) : Prop :=
  dev_state (state_of w pm) (gm_dev x) = Some M0_PNDS_SNS_REPAIRED \/
  dev_state (state_of w pm) (gm_dev x) = Some M0_PNDS_SNS_REBALANCING.

#[export] Instance repaired_dec x : Decision (repaired x).
Proof. unfold repaired. apply _. Defined.

Lemma classify_ok x : 0 <= x < width -> m0_pdclust_unit_classify pl x = M0_PUT_SPARE <-> n <= x.
Proof.
  intros Hx. unfold m0_pdclust_unit_classify.
  rewrite nk_ok, u32_width by lia. destruct (Z.ltb_spec x (m0_pdclust_N pl)); [split; [done|lia]|].
  destruct (Z.ltb_spec x n); split; try done; lia.
Qed.

(** One turn of the loop: from a spare unit to the unit it holds. *)
Lemma data_step x y s fuel pi : gm_ok pi -> 0 <= x < width -> spare_next x = Some y -> x <> s ->
  exists pi', data_loop w pm pl (S fuel) pi group s y =
    (if bool_decide (n <= x /\ repaired x) then data_loop w pm pl fuel pi' group s x else Some (inr x, pi'))
      /\ gm_ok pi'.
Proof.
  intros Hpi Hx Hy Hne. destruct (next_owner x y Hx Hy) as (Hyr & o & Ho & Hod). cbn [data_loop].
  assert (u64 (u64 (y - m0_pdclust_N pl) - m0_pdclust_K pl) = y - n) as ->
    by (rewrite (u64_small (y - _)), u64_small by (unfold is_u64; lia); lia).
  rewrite Ho. cbn [mbind option_bind]. rewrite Hod. destruct (dev_used x Hx) as [Hdu _].
  rewrite (proj2 (Z.eqb_neq _ _) Hdu).
  destruct (gm_fwd pi y Hpi ltac:(lia)) as (pi1 & -> & Hpi1). cbn [mbind option_bind ta_frame].
  destruct (frame_get_ok pi1 y x Hpi1 ltac:(lia) Hx) as (pi2 & -> & Hpi2). cbn [mbind option_bind].
  pose proof (gm_frame_range x Hx) as Hfr. change (u64 (- ENOENT)) with (2 ^ 64 - 2).
  rewrite (proj2 (Z.eqb_neq _ _)) by lia.
  destruct (device_state_ok x Hx) as (st & Hst & ->). cbn [mbind option_bind Z.eqb negb].
  destruct (gm_bwd pi2 x (gm_frame x) (gm_dev x)) as (sa & pi3 & -> & Hpi3 & Hin & _);
    [done|done|lia|lia|by apply gm_dev_range|].
  rewrite (Hin x Hx eq_refl eq_refl). cbn [mbind option_bind sa_unit].
  rewrite (proj2 (Z.eqb_neq _ _)) by done. exists pi3. split; [|done].
  rewrite <- bool_decide_and.
  rewrite (bool_decide_ext (_ /\ _) (n <= x /\ repaired x)); [done|]. rewrite (classify_ok x Hx).
  unfold repaired. rewrite Hst. done.
Qed.

Lemma data_back j u s x y pi fuel : 0 <= u < n -> gm_ok pi -> (j < fuel)%nat ->
  (forall i z, (i <= j)%nat -> steps i u = Some z -> z <> s) ->
  steps j u = Some x -> spare_next x = Some y ->
  exists i z pi', data_loop w pm pl fuel pi group s y = Some (inr z, pi') /\ gm_ok pi' /\ (i <= j)%nat /\
  steps i u = Some z /\
    (i = 0%nat \/ ~ repaired z) /\ (forall k z', (i < k <= j)%nat -> steps k u = Some z' -> repaired z').
Proof.
  pose proof (mk_spares _ _ Hok) as Hsp. intros Hu. revert x y pi fuel.
  induction j as [|j IH]; intros x y pi [|fuel] Hpi Hf Hne Hx Hy; try lia.
  - cbn [steps] in Hx. injection Hx as <-. destruct
      (data_step u y s fuel pi Hpi ltac:(lia) Hy (Hne 0%nat u ltac:(lia) eq_refl)) as (pi' & -> & Hpi').
    rewrite bool_decide_false by lia. exists 0%nat, u, pi'. split_and!; try done; [by left|lia].
  - destruct (steps_range (S j) u x ltac:(lia) Hx) as [Hxr Hxn].
    destruct (data_step x y s fuel pi Hpi Hxr Hy (Hne (S j) x ltac:(lia) Hx)) as (pi' & -> & Hpi').
    case_bool_decide as Hrep.
    + cbn [steps] in Hx. apply bind_Some in Hx as (x' & Hx' & Hxx).
      destruct (IH x' x pi' fuel Hpi' ltac:(lia)) as (i & z & pi'' & Hrun & Hpi'' & Hi & Hz & Hstop & Hmid);
        [intros i z Hi; apply Hne; lia|done|done|].
      exists i, z, pi''. split_and!; try done; [lia|]. intros k z' Hk Hz'.
      destruct (decide (k = S j)) as [->|]; [|by apply (Hmid k z'); [lia|]].
      cbn [steps] in Hz'. rewrite Hx' in Hz'. cbn [mbind option_bind] in Hz'. rewrite Hxx in Hz'.
      injection Hz' as <-. apply Hrep.
    + exists (S j), x, pi'. split_and!; try done; [|lia]. right. intros Hr. apply Hrep.
      split; [apply Hxn; lia|done].
Qed.

(** The first spare unit of a chain, from the [S i]-th on, that is on a device that is re-balanced. *)
Definition rebalancing (x : Z) : Prop := dev_state (state_of w pm) (gm_dev x) = Some M0_PNDS_SNS_REBALANCING.

#[export] Instance rebalancing_dec x : Decision (rebalancing x).
Proof. unfold rebalancing. apply _. Defined.

Lemma spare_next_step x pi : 0 <= x < width -> gm_ok pi -> exists pi', gm_ok pi' /\
  _spare_next w pm pl 1 pi group x true = Some (match spare_next x with Some y => inr (y, prev_out x x) |
    None => inl (- ENOENT) end, pi').
Proof.
  intros Hx Hpi. unfold _spare_next. destruct (device_index_ok pi x Hpi Hx) as (pi1 & -> & Hpi1).
  cbn [mbind option_bind spare_loop].
  rewrite (query_ok x Hx). pose proof (mk_spares _ _ Hok) as Hsp.
  destruct (spare_next x) as [y|] eqn:Hy; cbn [mbind option_bind Z.eqb negb]; [|by exists pi1].
  destruct (next_owner x y Hx Hy) as [Hyr _]. rewrite nk_ok. replace (n + (y - n)) with y by lia.
  rewrite (u32_width y) by lia.
  destruct (device_index_ok pi1 y Hpi1 ltac:(lia)) as (pi2 & -> & Hpi2). cbn [mbind option_bind].
  rewrite is_in_array_ok by lia. cbn [mbind option_bind].
  rewrite andb_false_r. cbn [mbind option_bind]. exists pi2. split; [done|]. rewrite (u32_width x) by lia.
  rewrite Z.eqb_refl. cbn [negb].
  replace (y - n + n) with y by lia. rewrite u32_width by lia. unfold prev_out.
  by rewrite (proj2 (Z.eqb_neq x (n + x))) by lia.
Qed.

Lemma steps_end i l u x : steps i u = Some x -> spare_next x = None -> (i < l)%nat -> steps l u = None.
Proof.
  intros Hx Hn Hl. destruct (steps l u) as [z|] eqn:Hz; [|done].
  replace l with (S i + (l - S i))%nat in Hz by lia.
  destruct (steps_before _ _ _ _ Hz) as [y Hy]. cbn [steps] in Hy. rewrite Hx in Hy.
  cbn [mbind option_bind] in Hy. congruence.
Qed.

Lemma rebalancing_loop k u x i pi fuel : 0 <= u < n -> gm_ok pi ->
  (i + k = Z.to_nat (pst_nr_spares (state_of w pm)))%nat -> (k < fuel)%nat ->
  steps i u = Some x ->
  exists pi', gm_ok pi' /\
    ((exists j p y, (i <= j)%nat /\ steps j u = Some p /\ spare_next p = Some y /\ rebalancing y /\
        (forall l z, (i < l <= j)%nat -> steps l u = Some z -> ~ rebalancing z) /\
        m0_sns_repair_spare_rebalancing w pm pl fuel pi group x = Some (inr (y, p), pi')) \/
     (forall l z, (i < l)%nat -> steps l u = Some z -> ~ rebalancing z) /\
     m0_sns_repair_spare_rebalancing w pm pl fuel pi group x = Some (inl (- ENOENT), pi')).
Proof.
  pose proof (mk_spares _ _ Hok) as Hsp. intros Hu. revert i x pi fuel.
  induction k as [|k IH]; intros i x pi [|fuel] Hpi Hk Hf Hx; try lia.
  all: destruct (steps_range i u x ltac:(lia) Hx) as [Hxr _]; cbn [m0_sns_repair_spare_rebalancing].
  all: destruct (spare_next_step x pi Hxr Hpi) as (pi1 & Hpi1 & ->); cbn [mbind option_bind].
  all: destruct (spare_next x) as [y|] eqn:Hy;
    [|exists pi1; split; [done|]; right; split; [|done]; intros l z Hl Hz;
    by rewrite (steps_end i l u x Hx Hy Hl) in Hz].
  all: assert (steps (S i) u = Some y) as HSi by (cbn [steps]; by rewrite Hx).
  - pose proof (steps_bound (S i) u y Hu HSi). lia.
  - destruct (next_owner x y Hxr Hy) as [Hyr _].
    destruct (device_index_ok pi1 y Hpi1 ltac:(lia)) as (pi2 & -> & Hpi2). cbn [mbind option_bind].
    destruct (device_state_ok y ltac:(lia)) as (st & Hst & ->). cbn [mbind option_bind Z.eqb negb].
    case_bool_decide as E.
    + injection E as ->. exists pi2. split; [done|]. left. exists i, x, y. unfold prev_out.
      rewrite (proj2 (Z.eqb_neq x (n + x))) by lia. split_and!; try done. lia.
    + assert (~ rebalancing y) as Hnr by (unfold rebalancing; congruence).
      assert (forall l z, l = S i -> steps l u = Some z -> ~ rebalancing z) as Hnow
        by (intros l z ->; rewrite HSi; by intros [= <-]).
      destruct (IH (S i) y pi2 fuel Hpi2 ltac:(lia) ltac:(lia) HSi) as
        (pi' & Hpi' & [(j & p & y' & Hj & Hp & Hy' & Hr & Hmid & Hrun)|[Hall Hrun]]); exists pi'; split;
        try done.
      * left. exists j, p, y'. split_and!; try done; [lia|]. intros l z Hl Hz.
        destruct (decide (l = S i)) as [El|El]; [by apply (Hnow l z El)|by apply (Hmid l z); [lia|]].
      * right. split; [|done]. intros l z Hl Hz.
        destruct (decide (l = S i)) as [El|El]; [by apply (Hnow l z El)|by apply (Hall l z); [lia|]].
Qed.

(** ** Properties *)

(** C14. m0_sns_repair_spare_map() for a data or parity unit: with as many turns of the loop
    as there are spare slots, and one more, it always ends. It fails with -ENOENT exactly
    when the device of the unit has no slot. Otherwise it follows the slots, from the
    device of the unit to the spare unit the slot stands for, to the device of that
    unit, and so on, and returns the first spare unit on a device that has no slot
    itself, with the unit before it in this chain. The one exception is a chain in which
    the unit before is the spare unit whose slot has the same number as the unit: then
    the number of the unit is returned in its place. *)
Theorem spare_map_ok pi u : 0 <= u < n -> gm_ok pi ->
  exists pi', gm_ok pi' /\
    ((slot_of (mach_abs (state_of w pm)) (gm_dev u) = None /\
      m0_sns_repair_spare_map w pm pl (S (Z.to_nat (pst_nr_spares (state_of w pm)))) pi group u = Some
        (inl (- ENOENT), pi')) \/
     (exists m p y, steps m u = Some p /\ spare_next p = Some y /\ n <= y < width /\
       slot_of (mach_abs (state_of w pm)) (gm_dev y) = None /\
      m0_sns_repair_spare_map w pm pl (S (Z.to_nat (pst_nr_spares (state_of w pm)))) pi group u =
        Some (inr (y, if p =? n + u then u else p), pi'))).
Proof.
  intros Hu Hpi. pose proof (mk_spares _ _ Hok) as Hsp.
  assert (forall x, spare_next x = None <-> slot_of (mach_abs (state_of w pm)) (gm_dev x) = None) as Hnone
    by (intros x; apply fmap_None).
  destruct (spare_next u) as [z|] eqn:Hz.
  - destruct (chain_end u Hu) as (m & p & y & Hm & Hp & Hy & Hend); [by exists z|].
    destruct (spare_map_end pi u m p y (S (Z.to_nat (pst_nr_spares (state_of w pm)))) Hu Hpi ltac:(lia) Hp Hy
      Hend) as (pi' & Hrun & Hpi').
    exists pi'. split; [done|]. right. exists m, p, y. destruct (steps_range m u p ltac:(lia) Hp) as [Hpr _].
    destruct (next_owner p y Hpr Hy) as [Hyr _]. split_and!; try done; [lia..|by apply Hnone].
  - destruct (spare_map_none pi u (S (Z.to_nat (pst_nr_spares (state_of w pm)))) ltac:(lia) Hpi ltac:(lia)
      Hz) as (pi' & Hrun & Hpi').
    exists pi'. split; [done|]. left. by rewrite <- Hnone.
Qed.

(** C13. m0_sns_repair_spare_map() never gives two units of a parity group the same spare
    unit: for two different data or parity units whose devices have slots the spare units
    are different, and so are their devices, neither of which is the device of one of the
    two units. *)
Theorem spare_map_disjoint pi u v y y' py py' pi1 pi2 fuel : 0 <= u < n -> 0 <= v < n -> u <> v -> gm_ok pi ->
  m0_sns_repair_spare_map w pm pl fuel pi group u = Some (inr (y, py), pi1) ->
  m0_sns_repair_spare_map w pm pl fuel pi1 group v = Some (inr (y', py'), pi2) ->
  (Z.to_nat (pst_nr_spares (state_of w pm)) < fuel)%nat ->
  y <> y' /\ gm_dev y <> gm_dev y' /\ gm_dev y <> gm_dev u /\ gm_dev y <> gm_dev v /\
  gm_dev y' <> gm_dev u /\ gm_dev y' <> gm_dev v.
Proof.
  intros Hu Hv Hne Hpi Hru Hrv Hf. pose proof (mk_spares _ _ Hok) as Hsp.
  assert (forall x pi y py pi', 0 <= x < n -> gm_ok pi ->
    m0_sns_repair_spare_map w pm pl fuel pi group x = Some (inr (y, py), pi') ->
    gm_ok pi' /\ exists m, steps (S m) x = Some y) as Hend.
  { intros x pi0 z pz pi' Hx Hpi0 Hrun. destruct (spare_next x) as [a|] eqn:Ha.
    - destruct (chain_end x Hx) as (m & p & z' & Hm & Hp & Hz' & Hz''); [by exists a|].
      destruct (spare_map_end pi0 x m p z' fuel Hx Hpi0 ltac:(lia) Hp Hz' Hz'') as (pi'' & Hrun' & Hpi'').
      rewrite Hrun in Hrun'.
      injection Hrun' as -> _ ->. split; [done|]. exists m. cbn [steps]. by rewrite Hp.
    - destruct (spare_map_none pi0 x fuel ltac:(lia) Hpi0 ltac:(lia) Ha) as (pi'' & Hrun' & _).
      by rewrite Hrun in Hrun'. }
  destruct (Hend u pi y py pi1 Hu Hpi Hru) as (Hpi1 & m & Hm).
  destruct (Hend v pi1 y' py' pi2 Hv Hpi1 Hrv) as (_ & m' & Hm').
  destruct (steps_range (S m) u y ltac:(lia) Hm) as [Hyr Hyn].
  destruct (steps_range (S m') v y' ltac:(lia) Hm') as [Hyr' Hyn'].
  specialize (Hyn ltac:(lia)). specialize (Hyn' ltac:(lia)).
  assert (y <> y') as Hyy by (intros <-; destruct (steps_back _ _ u v y Hu Hv Hm Hm'); done).
  split_and!; [done|intros E; apply gm_dev_inj in E; lia..].
Qed.

(** C12. m0_sns_repair_data_map() undoes m0_sns_repair_spare_map(): from the spare unit found
    for a data or parity unit it goes back along the chain and returns the last unit
    whose device is not repaired yet, or the data or parity unit itself when all the
    devices between are repaired or being re-balanced. *)
Theorem data_map_inverse pi u y py pi1 fuel : 0 <= u < n -> gm_ok pi ->
  (Z.to_nat (pst_nr_spares (state_of w pm)) < fuel)%nat ->
  m0_sns_repair_spare_map w pm pl fuel pi group u = Some (inr (y, py), pi1) ->
  exists m i z pi2, steps (S m) u = Some y /\
    m0_sns_repair_data_map w pm pl fuel pi1 group y = Some (inr z, pi2) /\ gm_ok pi2 /\ (i <= m)%nat /\
    steps i u = Some z /\
    (i = 0%nat \/ ~ repaired z) /\ (forall k x, (i < k <= m)%nat -> steps k u = Some x -> repaired x).
Proof.
  intros Hu Hpi Hf Hrun. pose proof (mk_spares _ _ Hok) as Hsp. destruct (spare_next u) as [a|] eqn:Ha.
  - destruct (chain_end u Hu) as (m & p & z & Hm & Hp & Hz & Hend); [by exists a|].
    destruct (spare_map_end pi u m p z fuel Hu Hpi ltac:(lia) Hp Hz Hend) as (pi' & Hrun' & Hpi').
    rewrite Hrun in Hrun'. injection Hrun' as -> _ ->.
    assert (steps (S m) u = Some z) as HSm by (cbn [steps]; by rewrite Hp).
    destruct (data_back m u z p z pi' fuel Hu Hpi' ltac:(lia))
      as (i & x & pi2 & Hd & Hpi2 & Hi & Hx & Hstop & Hmid); [|done|done|].
    + intros i x Hi Hx ->. destruct (steps_back _ _ u u z Hu Hu Hx HSm). lia.
    + exists m, i, x, pi2. done.
  - destruct (spare_map_none pi u fuel ltac:(lia) Hpi ltac:(lia) Ha) as (pi' & Hrun' & _).
    by rewrite Hrun in Hrun'.
Qed.

(** m0_sns_repair_spare_rebalancing() returns the first spare unit of the chain on a device
    that is being re-balanced, with the unit before it, or fails with -ENOENT. *)
Lemma spare_rebalancing_ok pi u : 0 <= u < n -> gm_ok pi ->
  exists pi', gm_ok pi' /\
    ((exists j p y, steps j u = Some p /\ spare_next p = Some y /\ rebalancing y /\
      (forall l z, (0 < l <= j)%nat -> steps l u = Some z -> ~ rebalancing z) /\
        m0_sns_repair_spare_rebalancing w pm pl (S (Z.to_nat (pst_nr_spares (state_of w pm)))) pi group u =
          Some (inr (y, p), pi')) \/
     (forall l z, (0 < l)%nat -> steps l u = Some z -> ~ rebalancing z) /\
     m0_sns_repair_spare_rebalancing w pm pl (S (Z.to_nat (pst_nr_spares (state_of w pm)))) pi group u = Some
       (inl (- ENOENT), pi')).
Proof.
  intros Hu Hpi. destruct (rebalancing_loop _ u u 0 pi (S (Z.to_nat (pst_nr_spares (state_of w pm)))) Hu Hpi
    eq_refl ltac:(lia) eq_refl)
    as (pi' & Hpi' & [(j & p & y & _ & ?)|?]); exists pi'; (split; [done|]); [left|by right].
  by exists j, p, y.
Qed.
End chains.
