(* ===== verification/SpareFd.v ===== *)
(** * Spare units on the failure-domains layout

    The interface of SpareMap is kept by m0_fd_fwd_map() and m0_fd_bwd_map() on a pool
    version whose tile and tree are built: what FdMap and FdTile prove of one unit is put
    together for the units of a parity group. *)
From S2P Require Import Prelude LibArith Fid FdPerm Pdclust FdTol FdTile FdFault FdTree FdBuild FdMap PoolMach PoolMachInv PoolMachRun PoolMachConf SpareMap.
#[local] Open Scope motr_scope.

(** The instance is the permutation caches; the array on the stack is [rels]. *)
Definition fd_unit_map (pver : m0_pool_version) (gfid : m0_fid) (rels : list Z) :
  UnitMap (list m0_fd_perm_cache) :=
  {| fwd_map := m0_fd_fwd_map pver gfid rels; bwd_map := m0_fd_bwd_map pver gfid rels |}.

(** The index of a leaf is given by its digits. *)
Lemma digits_inj pver v v' : tile_shape (pv_fd_tile pver) -> 0 <= v < ft_cols (pv_fd_tile pver) ->
  0 <= v' < ft_cols (pv_fd_tile pver) ->
  (forall k, 1 <= k <= FdTile.ft_depth (pv_fd_tile pver) -> digit pver v k = digit pver v' k) -> v = v'.
Proof.
  intros Hs Hv Hv' Hd. pose proof Hs as (Hdep & _ & _ & Hcols & _).
  set (D := FdTile.ft_depth (pv_fd_tile pver)) in *.
  assert (forall j : nat, Z.of_nat j <= D ->
    v mod weight pver (D - Z.of_nat j) = v' mod weight pver (D - Z.of_nat j)) as H.
  { induction j as [|j IH]; intros Hj; [rewrite Z.sub_0_r; unfold D; rewrite (weight_depth pver Hs);
      by rewrite !Z.mod_1_r|].
    replace (D - Z.of_nat (S j)) with (D - Z.of_nat j - 1) by lia. set (k := D - Z.of_nat j) in *.
    destruct (vidx_digit_step pver Hs v k ltac:(fold D; lia)) as [-> _].
    destruct (vidx_digit_step pver Hs v' k ltac:(fold D; lia)) as [-> _].
    rewrite (Hd k) by lia. f_equal. apply IH. lia. }
  specialize (H (Z.to_nat D) ltac:(lia)). rewrite Z2Nat.id, Z.sub_diag in H by lia.
  assert (weight pver 0 = ft_cols (pv_fd_tile pver)) as Hw by (rewrite Hcols; done). rewrite Hw in H.
  by rewrite !Z.mod_small in H by lia.
Qed.

Section group.
Context (degs : list (list Z)) (pver : m0_pool_version) (gfid : m0_fid) (rels : list Z) (caches0 :
  list m0_fd_perm_cache) (group : Z).
Local Notation D := (Z.of_nat (length degs)).
Local Notation tile := (pv_fd_tile pver).
Local Notation seed := (pa_seed (pv_attr pver)).
Local Notation omega := (group / tile_C tile).
Hypothesis Hok : pver_ok degs pver.
Hypothesis Hset : m0_fid_is_set gfid = true.
Hypothesis Hrels : length rels = 5%nat.
Hypothesis Hc0 : caches_ok seed (inner_degree degs) caches0.
Hypothesis Hg : 0 <= group.
Hypothesis Hov : (omega + 3) * tile_C tile <= 2 ^ 64.
Hypothesis Hdraws : forall o, 0 <= o -> omega - 1 <= o <= omega + 1 -> draws_ok degs pver gfid o.

Local Notation W := (ft_G tile).

Definition fd_tgt (u : Z) : m0_pdclust_tgt_addr :=
  match m0_fd_fwd_map pver gfid rels caches0 {| sa_group := group; sa_unit := u |} with
  | Some (t, _) => t
  | None => {| ta_frame := 0; ta_obj := 0 |}
  end.

Lemma tile_pos : 0 < ft_rows tile <= tile_C tile /\ 0 < tile_C tile /\ 0 < W <= ft_cols tile.
Proof. pose proof (po_tile _ _ Hok) as [Hs _]. destruct (tile_lcm tile Hs) as (HR & HC & _).
destruct Hs as (_ & _ & _ & _ & _ & HG & _). lia. Qed.

Lemma omega_pos : 0 <= omega.
Proof. apply Z.div_pos; pose proof tile_pos; lia. Qed.

Lemma group_u64 : is_u64 group /\ group <> UINT64_MAX.
Proof.
  pose proof tile_pos as (_ & HC & _). pose proof (Z.mod_pos_bound group (tile_C tile) HC).
  pose proof (Z.div_mod group (tile_C tile) ltac:(lia)).
  unfold is_u64, UINT64_MAX. nia.
Qed.

Local Notation idx u := (group mod tile_C tile * W + u).

(** Where a unit goes, whatever the caches hold. *)
Lemma fd_fwd caches u : caches_ok seed (inner_degree degs) caches -> 0 <= u < W ->
  exists caches' path, m0_fd_fwd_map pver gfid rels caches {| sa_group := group;
    sa_unit := u |} = Some (fd_tgt u, caches') /\
    caches_ok seed (inner_degree degs) caches' /\
    fd_tgt u = {| ta_frame := omega * ft_rows tile + idx u / ft_cols tile; ta_obj := path D |} /\
    tree_path degs pver gfid omega path (digit pver (tidx tile (idx u))) /\ 0 <= path D < nodes degs D.
Proof.
  intros Hc Hu. pose proof omega_pos. pose proof (po_tile _ _ Hok) as Ht.
  pose proof (Hdraws omega ltac:(lia) ltac:(lia)) as Hperm.
  set (src := {| sa_group := group; sa_unit := u |}). pose proof (proj1 group_u64) as Hgu.
  assert (m0_fd_src_to_tgt tile src = Some {| ta_frame := omega * ft_rows tile + idx u / ft_cols tile;
    ta_obj := tidx tile (idx u) |}) as Htgt
    by apply (src_to_tgt_ok tile Ht src Hgu Hu).
  destruct (fwd_map_ok degs pver gfid omega Hok Hset Hperm caches0 rels src Hc0 Hrels Hgu Hu eq_refl)
    as (t0 & path0 & c0 & Ht0 & _ & _ & Hp0 & Hf0 & _).
  destruct (fwd_map_ok degs pver gfid omega Hok Hset Hperm caches rels src Hc Hrels Hgu Hu eq_refl)
    as (t1 & path1 & c1 & Ht1 & _ & _ & Hp1 & Hf1 & Hc1).
  rewrite Htgt in Ht0, Ht1. injection Ht0 as <-. injection Ht1 as <-. cbn [ta_obj ta_frame] in *.
  assert (fd_tgt u = {| ta_frame := omega * ft_rows tile + idx u / ft_cols tile; ta_obj := path1 D |}) as E.
  { unfold fd_tgt. fold src. rewrite Hf0.
      by rewrite (tree_path_det degs pver gfid omega path0 path1 _ D Hp0 Hp1 ltac:(lia)). }
  exists c1, path1. rewrite E. split_and!; try done;
    apply (tree_path_range degs pver gfid omega (po_degs _ _ Hok) Hperm path1 _ D Hp1); lia.
Qed.

Lemma fd_frame u : 0 <= u < W -> ta_frame (fd_tgt u) = omega * ft_rows tile + idx u / ft_cols tile.
Proof. intros Hu. destruct (fd_fwd caches0 u Hc0 Hu) as (c & path & _ & _ & E & _). by rewrite E. Qed.

Lemma fd_dev_range u : 0 <= u < W -> 0 <= ta_obj (fd_tgt u) < nodes degs D.
Proof. intros Hu. destruct (fd_fwd caches0 u Hc0 Hu) as (c & path & _ & _ & E & _ & Hr). by rewrite E. Qed.

Lemma fd_dev_inj u v : 0 <= u < W -> 0 <= v < W -> ta_obj (fd_tgt u) = ta_obj (fd_tgt v) -> u = v.
Proof.
  intros Hu Hv E. pose proof omega_pos as Ho. pose proof (po_tile _ _ Hok) as [Hs _].
  pose proof tile_pos as (_ & _ & HW).
  destruct (fd_fwd caches0 u Hc0 Hu) as (c & path & _ & _ & Eu & Hpu & _).
  destruct (fd_fwd caches0 v Hc0 Hv) as (c' & path' & _ & _ & Ev & Hpv & _).
  rewrite Eu, Ev in E. cbn [ta_obj] in E.
  assert (tidx tile (idx u) = tidx tile (idx v)) as Et.
  { apply (digits_inj pver); [done|apply (tidx_range tile Hs)|apply (tidx_range tile Hs)|]. rewrite
      (po_depth _ _ Hok). intros k Hk.
    apply (tree_path_unique degs pver gfid omega (po_degs _ _ Hok) (Hdraws omega ltac:(lia) ltac:(lia)) path
      _ path' _ k Hpu Hpv E). lia. }
  rewrite (tidx_col tile Hs (idx u)), (tidx_col tile Hs (idx v)) in Et.
  apply (tidx_inj tile Hs) in Et; [|apply Z.mod_pos_bound; lia|apply Z.mod_pos_bound; lia].
  pose proof (Z.div_mod (idx u) (ft_cols tile) ltac:(lia)) as Du.
  pose proof (Z.div_mod (idx v) (ft_cols tile) ltac:(lia)) as Dv. rewrite Et in Du.
  assert (idx u - idx v = ft_cols tile * (idx u / ft_cols tile - idx v / ft_cols tile)) as Hdiff by lia.
  assert (idx u / ft_cols tile - idx v / ft_cols tile = 0); [|lia]. nia.
Qed.

Lemma fd_frame_near u v : 0 <= u < W -> 0 <= v < W -> ta_frame (fd_tgt v) <= ta_frame (fd_tgt u) + 1.
Proof.
  intros Hu Hv. rewrite (fd_frame u Hu), (fd_frame v Hv). pose proof tile_pos as (_ & _ & HW).
  assert (idx v / ft_cols tile <= (idx u + 1 * ft_cols tile) / ft_cols tile) as H
    by (apply Z.div_le_mono; lia).
  rewrite Z.div_add in H by lia. lia.
Qed.

Lemma fd_frame_tile u : 0 <= u < W ->
  omega * ft_rows tile <= ta_frame (fd_tgt u) < (omega + 1) * ft_rows tile.
Proof.
  intros Hu. rewrite (fd_frame u Hu). pose proof (po_tile _ _ Hok) as Ht. pose proof (proj1 group_u64) as Hgu.
  pose proof tile_pos as (_ & _ & HW).
  destruct (src_to_tgt_ok tile Ht {| sa_group := group; sa_unit := u |} Hgu Hu) as ([Hi _] & Hq & _).
  cbn [sa_group sa_unit] in *.
  pose proof (Z.div_pos (idx u) (ft_cols tile) Hi ltac:(lia)). lia.
Qed.

Lemma fd_frame_range u : 0 <= u < W -> 0 <= ta_frame (fd_tgt u) < 2 ^ 64 - 2.
Proof. intros Hu. pose proof (fd_frame_tile u Hu). pose proof tile_pos. pose proof omega_pos. nia. Qed.

(** The inverse map finds the unit of the group that is in a frame. *)
Lemma fd_bwd_unit caches v : caches_ok seed (inner_degree degs) caches -> 0 <= v < W ->
  exists caches', m0_fd_bwd_map pver gfid rels caches (fd_tgt v) = Some
    ({| sa_group := group; sa_unit := v |}, caches').
Proof.
  intros Hc Hv. pose proof omega_pos as Ho. pose proof (po_tile _ _ Hok) as Ht.
  pose proof (proj1 group_u64) as Hgu.
  destruct (fd_fwd caches0 v Hc0 Hv) as (c & path & _ & _ & E & Hp & _). rewrite E.
  destruct (tile_src_tgt_src tile Ht {| sa_group := group; sa_unit := v |} Hgu Hv)
    as (t & Htgt & _ & _ & Hsrc).
  destruct (src_to_tgt_ok tile Ht {| sa_group := group; sa_unit := v |} Hgu Hv) as (_ & _ & _ & Htgt').
  cbn [sa_group sa_unit] in Htgt'.
  rewrite Htgt in Htgt'. injection Htgt' as ->. pose proof (fd_frame_tile v Hv) as Hft. rewrite E in Hft.
  cbn [ta_frame] in Hft.
  destruct (bwd_map_ok degs pver gfid omega Hok Hset (Hdraws omega ltac:(lia) ltac:(lia)) caches rels path
    (tidx tile (idx v))
    (omega * ft_rows tile + idx v / ft_cols tile) {| sa_group := group; sa_unit := v |} Hc Hrels)
      as (c' & Hrun & _); try done.
  - pose proof tile_pos. symmetry. apply (Z.div_unique_pos _ _ _ (idx v / ft_cols tile)); lia.
  - apply (tidx_range tile (proj1 Ht)).
  - by exists c'.
Qed.

Lemma fd_bwd caches u frame dev : caches_ok seed (inner_degree degs) caches -> 0 <= u < W ->
  ta_frame (fd_tgt u) - 1 <= frame <= ta_frame (fd_tgt u) + 1 -> 0 <= frame -> 0 <= dev < nodes degs D ->
  exists sa caches', m0_fd_bwd_map pver gfid rels caches {| ta_frame := frame; ta_obj := dev |} = Some (sa,
    caches') /\
    caches_ok seed (inner_degree degs) caches' /\
    (forall v, 0 <= v < W -> ta_obj (fd_tgt v) = dev -> ta_frame (fd_tgt v) = frame ->
      sa = {| sa_group := group; sa_unit := v |}) /\
    (sa_group sa = group -> exists v, 0 <= v < W /\ ta_obj (fd_tgt v) = dev /\ ta_frame (fd_tgt v) = frame).
Proof.
  intros Hc Hu Hf H0 Hd. pose proof (fd_frame_tile u Hu) as Hft. pose proof tile_pos as (HR & HC & _).
  pose proof omega_pos as Ho.
  assert (0 <= frame / ft_rows tile) as Ho0 by (apply Z.div_pos; lia).
  assert (omega - 1 <= frame / ft_rows tile) by (apply Z.div_le_lower_bound; nia).
  assert (frame / ft_rows tile < omega + 2) by (apply Z.div_lt_upper_bound; nia).
  pose proof (fd_frame_range u Hu) as Hr.
  destruct (map_bwd_complete degs pver gfid Hok Hset caches rels {| ta_frame := frame;
    ta_obj := dev |} Hc Hrels) as (sa & c' & Hrun & Hc' & Hcase);
    [unfold is_u64; cbn; lia|done|cbn; nia|apply Hdraws; cbn; lia|].
  exists sa, c'. split_and!; [done|done| |].
  - intros v Hv Ed Ef. destruct (fd_bwd_unit caches v Hc Hv) as (c'' & Hrun').
    replace (fd_tgt v) with {| ta_frame := frame; ta_obj := dev |} in Hrun'
      by (destruct (fd_tgt v); cbn in *; by subst). rewrite Hrun in Hrun'. by injection Hrun' as ->.
  - intros Eg. destruct Hcase as [(_ & Hsu & c'' & Hfwd)|[-> _]];
      [|cbn in Eg; by pose proof (proj2 group_u64)].
    exists (sa_unit sa). split; [done|]. replace sa with {| sa_group := group; sa_unit := sa_unit sa |}
      in Hfwd by (destruct sa; cbn in *; by subst).
    destruct (fd_fwd c' (sa_unit sa) Hc' Hsu) as (c3 & path & Hfwd' & _). rewrite Hfwd in Hfwd'.
    injection Hfwd' as E _. by rewrite <- E.
Qed.

(** The layout keeps what it promises. *)
Definition fd_group_map : @GroupMap (list m0_fd_perm_cache) (fd_unit_map pver gfid rels) W (nodes degs D)
  group.
Proof.
  refine (@Build_GroupMap _ (fd_unit_map pver gfid rels) W (nodes degs D) group
    (caches_ok seed (inner_degree degs))
    (fun u => ta_obj (fd_tgt u)) (fun u => ta_frame (fd_tgt u)) _ fd_dev_range fd_dev_inj fd_frame_range
      fd_frame_near fd_bwd).
  intros pi u Hpi Hu. destruct (fd_fwd pi u Hpi Hu) as (c' & path & Hrun & Hc' & _). exists c'.
  split; [|done].
  cbn. rewrite Hrun. by destruct (fd_tgt u).
Defined.
End group.

(** ** An example *)

(** Two data, two parity and two spare units on the tree of [asym_pv]. *)
Definition spare_pv : m0_conf_pver :=
  {| pvs_attr := {| pa_N := 2; pa_K := 2; pa_S := 2; pa_P := 12; pa_unit_size := 4096;
    pa_seed := M0_UINT128 42 43 |};
     pvs_tolerance := [0; 0; 1; 2; 2]; pv_levels := pv_levels asym_pv |}.

(** The pool version that is built for it. *)
Definition spare_pver : m0_pool_version :=
  match m0_fd_tile_build (fun _ => true) true spare_pv (replicate 5 0),
    m0_fd_tree_build (fun _ => true) (fun _ => true) spare_pv (replicate 5 0) with
  | Some (_, _, Some tile), Some (_, Some tree) => {| pv_attr := pvs_attr spare_pv; pv_fd_tile := tile;
    pv_fd_tree := tree |}
  | _, _ =>
      {| pv_attr := pvs_attr spare_pv; pv_fd_tile := example_tile0;
         pv_fd_tree := {| FdTree.ft_depth := 0; ft_root := None; ft_cnt := 0; ft_cache_info := [];
           ft_heap := ∅; ft_next := 0; ft_allocs := 0 |} |}
  end.

Definition spare_degs : list (list Z) := pv_degs spare_pv 2.

(** Fresh permutation caches for nodes with two and with three children. *)
Definition spare_caches : list m0_fd_perm_cache :=
  omap (fun len => match m0_fd_perm_cache_init (true, true, true) len with Some (_, c) => c |
    None => None end) [2; 3].

Lemma spare_pver_ok : pver_ok spare_degs spare_pver.
Proof.
  destruct (build_pver_ok (fun _ => true) (fun _ => true) spare_pv (replicate 5 0) 2 [3; 2; 2; 1; 0])
    as (tile & tree & H1 & H2 & H & _).
  - exact asym_pv_wf.
  - done.
  - done.
  - vm_compute. reflexivity.
  - vm_compute. reflexivity.
  - vm_compute. reflexivity.
  - split; vm_compute; congruence.
  - unfold spare_pver. rewrite H1, H2. exact H.
Qed.

Lemma spare_degrees c : inner_degree spare_degs c -> c = 2 \/ c = 3.
Proof. assert (spare_degs = pv_degs asym_pv 2) as -> by (vm_compute; reflexivity). apply asym_degrees. Qed.

Lemma spare_caches_ok : caches_ok (pa_seed (pv_attr spare_pver)) (inner_degree spare_degs) spare_caches.
Proof.
  destruct (m0_uint128_init M0_PDCLUST_SEED) as [s0|] eqn:Es; [|vm_compute in Es; discriminate].
  assert (forall len, len = 2 \/ len = 3 -> exists cache,
    m0_fd_perm_cache_init (true, true, true) len = Some (0, Some cache) /\
    cache_inv (pa_seed (pv_attr spare_pver)) cache /\ fpc_len cache = len) as Hc.
  { intros len Hlen. apply (m0_fd_perm_cache_init_ok _ len (rstate_init s0 (m0_fid_set 0 0) 0));
      [lia|by rewrite Es|].
    vm_compute in Es. injection Es as <-. destruct Hlen as [-> | ->]; vm_compute; reflexivity. }
  destruct (Hc 2) as (c2 & E2 & H2 & Hl2); [by left|]. destruct (Hc 3) as (c3 & E3 & H3 & Hl3); [by right|].
  unfold spare_caches. cbn [omap list_omap]. rewrite E2, E3.
  split; [by apply Forall_cons; split; [|apply Forall_singleton]|].
  intros len [-> | ->]%spare_degrees; [exists c2|exists c3]; (split; [|exact Hl2 || exact Hl3]).
  - left.
  - right. left.
Qed.

Lemma spare_draws o : 0 <= o -> 2 / tile_C (pv_fd_tile spare_pver) - 1 <= o <= 2 / tile_C
  (pv_fd_tile spare_pver) + 1 -> draws_ok spare_degs spare_pver asym_gfid o.
Proof.
  assert (2 / tile_C (pv_fd_tile spare_pver) = 1) as -> by (vm_compute; reflexivity).
  intros _ Ho c Hc%spare_degrees.
  assert (o = 0 \/ o = 1 \/ o = 2) as [-> |[-> | ->]] by lia; destruct Hc as [-> | ->]; vm_compute;
    reflexivity.
Qed.

(** The units of group 2. *)
Definition spare_gm : @GroupMap _ (fd_unit_map spare_pver asym_gfid (replicate 5 0))
  (ft_G (pv_fd_tile spare_pver)) (nodes spare_degs (Z.of_nat (length spare_degs))) 2.
Proof.
  refine (fd_group_map spare_degs spare_pver asym_gfid (replicate 5 0) spare_caches 2 spare_pver_ok eq_refl
    eq_refl spare_caches_ok _ _ spare_draws).
  - lia.
  - vm_compute. congruence.
Defined.

Definition spare_encl : list conf_encl :=
  [{| ce_id := M0_FID_INIT 1 1; ce_ha := 1;
    ce_drives := (fun i => {| cd_id := M0_FID_INIT 2 i; cd_sdev := i; cd_ha := 1 |}) <$> seqZ 0 14 |}].

Definition spare_layout : m0_pdclust_layout :=
  {| l_id := 1; l_ref := 1; l_user_count := 0; l_lock := false; l_pver := None; sl_enum := None;
    pl_attr := pvs_attr spare_pv; pl_C := 1; pl_L := 1 |}.

(** The pool after some events: the drives are on line first. *)
Definition spare_world (evs : list m0_poolmach_event) :
  m0_pool := default example_world (run_machine example_world 0 spare_encl 2 1 2 [] evs).

Lemma spare_world_ok evs : Forall (fun ev => 0 <= pe_index ev) evs -> mach_ok (spare_world evs) 0.
Proof.
  intros Hevs. destruct (run_machine_ok example_world 0 spare_encl 2 1 2 evs) as (w & Hw & H & _).
  - lia.
  - vm_compute. reflexivity.
  - vm_compute. reflexivity.
  - reflexivity.
  - split.
    + intros e He. by apply list_elem_of_singleton in He as ->.
    + intros e ->%list_elem_of_singleton. eexists. split; [done|]. by rewrite <- nd_in_elem.
    + assert (Forall (fun d => cd_ha d = 1) (all_drives spare_encl)) as Hall
        by (vm_compute; repeat constructor).
      intros d Hd. rewrite (proj1 (Forall_forall _ _) Hall d Hd). eexists. split; [done|].
      by rewrite <- nd_in_elem.
  - refine (bool_decide_eq_true_1 _ _). vm_compute. reflexivity.
  - intros x Hx. by apply not_elem_of_nil in Hx.
  - by exists (replicate 21 true).
  - done.
  - unfold spare_world. rewrite Hw. exact H.
Qed.

(** ** Witnesses *)

(** Drives 13 and 9, where units 0 and 1 of the group are. *)
Definition two_failures : list m0_poolmach_event := [device_event_of 13 M0_PNDS_FAILED;
  device_event_of 9 M0_PNDS_FAILED].

(** Drive 13 fails and is repaired; then drive 7, where the spare unit of slot 0 is. *)
Definition cascade : list m0_poolmach_event :=
  [device_event_of 13 M0_PNDS_FAILED; device_event_of 13 M0_PNDS_SNS_REPAIRING;
    device_event_of 13 M0_PNDS_SNS_REPAIRED; device_event_of 7 M0_PNDS_FAILED].
Definition cascade_repaired : list m0_poolmach_event :=
  cascade ++ [device_event_of 7 M0_PNDS_SNS_REPAIRING; device_event_of 7 M0_PNDS_SNS_REPAIRED].

Local Notation run_spare w pi u := (@m0_sns_repair_spare_map _
  (fd_unit_map spare_pver asym_gfid (replicate 5 0)) w 0 spare_layout 3 pi 2 u).
Local Notation run_data w pi u := (@m0_sns_repair_data_map _
  (fd_unit_map spare_pver asym_gfid (replicate 5 0)) w 0 spare_layout 3 pi 2 u).

(** The caches a call leaves. *)
Definition caches_of {A} (r : option (A * list m0_fd_perm_cache)) :
  list m0_fd_perm_cache := default [] (snd <$> r).

(** The hypotheses on the example. *)
Ltac spare_side :=
  match goal with
  | |- mach_ok _ _ => apply spare_world_ok; repeat constructor; vm_compute; congruence
  | |- gm_ok _ => exact spare_caches_ok
  | |- _ = _ => vm_compute; reflexivity
  | |- _ <= _ < _ => split; vm_compute; congruence
  | |- (_ < _)%nat => apply (bool_decide_eq_true_1 _); vm_compute; reflexivity
  | |- _ => vm_compute; congruence
  end.

Lemma spare_map_ok_witness : exists pi',
  run_spare (spare_world two_failures) spare_caches 1 = Some (inr (5, 1), pi').
Proof.
  assert (fst <$> run_spare (spare_world two_failures) spare_caches 1 = Some (inr (5, 1))) as E
    by (vm_compute; reflexivity).
  assert (S (Z.to_nat (pst_nr_spares (state_of (spare_world two_failures) 0))) = 3%nat) as Ef
    by (vm_compute; reflexivity).
  destruct (@spare_map_ok _ _ _ _ _ spare_gm (spare_world two_failures) 0 spare_layout)
    with (pi := spare_caches) (u := 1)
    as (pi' & _ & [[H _]|(m & p & y & _ & _ & _ & _ & Hrun)]); try spare_side.
  - vm_compute in H. discriminate H.
  - rewrite Ef in Hrun. rewrite Hrun in E |- *. cbn [fmap option_fmap option_map fst] in E.
    apply (inj Some) in E. exists pi'. by rewrite E.
Defined.

Lemma spare_map_disjoint_witness :
  let pi1 := caches_of (run_spare (spare_world two_failures) spare_caches 0) in
  run_spare (spare_world two_failures) spare_caches 0 = Some (inr (4, 0), pi1) /\
  fst <$> run_spare (spare_world two_failures) pi1 1 = Some (inr (5, 1)) /\
  @gm_dev _ _ _ _ _ spare_gm 4 <> @gm_dev _ _ _ _ _ spare_gm 5.
Proof.
  split; [vm_compute; reflexivity|]. split; [vm_compute; reflexivity|].
  destruct (@spare_map_disjoint _ _ _ _ _ spare_gm (spare_world two_failures) 0 spare_layout)
    with (pi := spare_caches) (u := 0) (v := 1) (fuel := 3%nat)
    (y := 4) (y' := 5) (py := 0) (py' := 1)
      (pi1 := caches_of (run_spare (spare_world two_failures) spare_caches 0))
    (pi2 := caches_of (run_spare (spare_world two_failures)
      (caches_of (run_spare (spare_world two_failures) spare_caches 0)) 1)) as (_ & H & _);
    [spare_side ..|exact H].
Defined.

Lemma data_map_inverse_witness :
  let pi1 := caches_of (run_spare (spare_world cascade_repaired) spare_caches 0) in
  run_spare (spare_world cascade_repaired) spare_caches 0 = Some (inr (5, 0), pi1) /\
  fst <$> run_data (spare_world cascade_repaired) pi1 5 = Some (inr 0).
Proof.
  split; [vm_compute; reflexivity|].
  assert (fst <$> run_data (spare_world cascade_repaired)
    (caches_of (run_spare (spare_world cascade_repaired) spare_caches 0)) 5 = Some (inr 0)) as E
    by (vm_compute; reflexivity).
  destruct (@data_map_inverse _ _ _ _ _ spare_gm (spare_world cascade_repaired) 0 spare_layout)
    with (pi := spare_caches) (u := 0) (fuel := 3%nat)
    (y := 5) (py := 0) (pi1 := caches_of (run_spare (spare_world cascade_repaired) spare_caches 0))
      as (m & i & z & pi2 & _ & Hd & _);
    [spare_side ..|]. rewrite Hd in E |- *. exact E.
Defined.

(** ** The previous spare unit *)

(** In a cascade of failures m0_sns_repair_spare_map() may return the number of the unit
    itself as the previous spare unit, as it does when there is no cascade: unit 0 of the
    group is on drive 13, which has slot 0; the spare unit of slot 0, unit 4, is on drive
    7, which has failed too and has slot 1. The unit before the one returned, 5, is 4,
    on a drive that is failed and not repaired; but the slot number 0 of that unit is
    taken for the unit number 0, and 0 is returned. Had the slots been given in the
    other order, 5 would have been returned for the previous unit. *)
Theorem spare_map_prev_lost :
  @gm_dev _ _ _ _ _ spare_gm 0 = 13 /\ @gm_dev _ _ _ _ _ spare_gm 4 = 7 /\
  m0_poolmach_sns_repair_spare_query (spare_world cascade) 0 13 = Some (0, 0) /\
  m0_poolmach_sns_repair_spare_query (spare_world cascade) 0 7 = Some (0, 1) /\
  m0_poolmach_device_state (spare_world cascade) 0 7 = Some (0, Some M0_PNDS_FAILED) /\
  fst <$> run_spare (spare_world cascade) spare_caches 0 = Some (inr (5, 0)) /\
  fst <$> run_spare (spare_world [device_event_of 1 M0_PNDS_FAILED; device_event_of 13 M0_PNDS_FAILED])
    spare_caches 0 = Some (inr (4, 5)).
Proof. vm_compute. done. Qed.
